(* ===== verification/_CoqProject ===== *)
-Q . S2P
Prelude.v
NetIP.v
Bitfield.v
Subnet.v
SubnetSpec.v
SubnetSet.v
Vip.v
GoStrings.v
GoText.v
GoJson.v
ResolveFile.v
NetParse.v
DnsProxy.v
DnsServer.v
DnsServerSpec.v
PortTypes.v
PortSpec.v
ConnId.v
Router.v
RouterSpec.v
IpUtil.v
SessionVip.v
SessionVipSpec.v
SessionStream.v
SessionStreamSpec.v
SessionRoutes.v
SessionRoutesSpec.v
AgentPf.v
AgentPfInv.v
AgentPfSpec.v
Message.v
MessageSpec.v
StreamConn.v
StreamConnSpec.v
Pool.v
Dialer.v
DialerSpec.v
Shellquote.v
EnvSyntax.v
Matcher.v
MatcherSpec.v
Icept.v
Policies.v
AgentConfig.v
AgentSpec.v
Kube.v
Discovery.v
Generator.v
GeneratorSpec.v
AgentContainer.v
AgentInit.v
AgentInitSpec.v
Injector.v
InjectorSpec.v
ConfigWatcher.v
ConfigWatcherSpec.v
WorkloadExposure.v
AgentFwd.v
AgentFwdSpec.v
CacheMap.v
CacheMapSpec.v
ManagerState.v
ManagerPrepare.v
ManagerSpec.v
ManagerInv.v
ManagerService.v
ManagerServiceSpec.v
Namespaces.v
WorkloadWatch.v
WorkloadWatchSpec.v
UserWorkloads.v
UserRootd.v
UserNamespaces.v
ClusterWatch.v
ClusterWatchSpec.v
UserIntercepts.v
UserInterceptsSpec.v
UserIngest.v
ClientConfig.v
ClientConfigSpec.v
