(* ===== verification/Prelude.v ===== *)
(** * Verification of Telepresence

    Telepresence connects a workstation to a Kubernetes cluster.  Its parts, and
    how they interact:

    - the traffic-manager (src/cmd/traffic/cmd/manager) keeps the sessions of
      clients and agents and the intercepts, in caches that clients and agents
      subscribe to; it follows the pods, nodes, services and workloads of the cluster,
      tells the clients its subnets and DNS domain, makes a configuration for every
      workload that gets a traffic-agent, and adds the agent's container to new pods as
      a mutating webhook;
    - a traffic-agent (src/cmd/traffic/cmd/agent) runs beside each intercepted
      workload; it gets the intercepts of its workload from the manager, reviews
      the waiting ones and routes connections and HTTP requests;
    - the client's root daemon (src/pkg/client/rootd) gives the workstation a
      network device with routes and virtual IPs for the cluster and a DNS server
      that asks the cluster; it follows the cluster infos that the manager sends and
      decides for every connection who opens its tunnel, among them the agents it
      keeps clients for (src/pkg/client/agentpf);
    - the client's user daemon (src/pkg/client/userd) follows the intercepts of its
      session, forwards ports and mounts volumes of the intercepted pods and tells the
      root daemon which destinations to connect directly;
    - tunnels (src/pkg/tunnel) carry the connections of all of them: streams of
      messages between endpoints that are kept in pools;
    - shared packages compute on subnets, ports, matchers and agent
      configurations (src/pkg).

    ** Files

    A component has a file with its data and operations, named after the code, and
    a file of theorems ([...Spec]).  Functions and methods keep their Go names,
    with a prefix for the receiver where two types share one.

    - [Prelude]: this file; outcomes of Go code ([Go E A]: a value, an error or a
      panic), machine integers with their wrap-around, big-endian bytes, tactics
      and hints.
    - [NetIP], [GoStrings], [GoText], [GoJson]: what the sources use of Go's net/netip,
      strings, strconv, bufio and json.
    - [Bitfield], [Subnet], [SubnetSpec], [SubnetSet]: src/pkg/subnet.
    - [Vip]: src/pkg/client/rootd/vip/vip.go and src/pkg/vif/owned_address.go.
    - [PortTypes], [PortSpec]: src/pkg/types (protocols, ports, port identifiers
      and port mappings).
    - [NetParse]: Go's parsers and printers of addresses and prefixes, as far as the
      sources use them.
    - [ConnId], [Message], [MessageSpec]: src/pkg/tunnel, connection identifiers,
      messages and the handshake of a stream.
    - [StreamConn], [StreamConnSpec]: src/pkg/tunnel/stream_conn.go, pipe.go and the
      loops of stream.go.
    - [Pool]: src/pkg/tunnel/pool.go, timed_handler.go, udplistener.go.
    - [Dialer], [DialerSpec]: src/pkg/tunnel/dialer.go.
    - [DnsProxy]: src/pkg/dnsproxy.
    - [DnsServer], [DnsServerSpec]: src/pkg/client/rootd/dns/server.go.
    - [Router], [RouterSpec]: src/pkg/vif/router.go and src/pkg/routing.
    - [IpUtil]: src/pkg/iputil, src/pkg/types/addrportandproto.go and
      src/pkg/client/bwcompat.
    - [SessionVip], [SessionVipSpec]: src/pkg/client/rootd/session.go, lookups and
      virtual IPs.
    - [SessionStream], [SessionStreamSpec]: src/pkg/client/rootd/stream_creator.go
      and intercept_shortcuts.go.
    - [SessionRoutes], [SessionRoutesSpec]: session.go, from a cluster info to the routes.
    - [AgentPf], [AgentPfInv], [AgentPfSpec]: src/pkg/client/agentpf/clients.go.
    - [UserIntercepts], [UserInterceptsSpec]: src/pkg/client/userd/trafficmgr,
      intercepts, pod access and shortcuts.
    - [UserIngest]: ingest.go, agents.go and mount.go of the same directory.
    - [UserWorkloads], [UserRootd], [UserNamespaces]: session.go and
      mapped_namespaces.go of the same directory, src/pkg/client/rootd/grpc.go and
      src/pkg/client/k8s (the list of workloads, the connection to the root daemon, the
      namespaces of the client).
    - [ClientConfig], [ClientConfigSpec]: src/pkg/client/config.go with config_unix.go and
      config_util.go, src/pkg/json, and the extension of a kubeconfig in
      src/pkg/client/k8s/config.go.
    - [Shellquote]: src/pkg/shellquote.
    - [Matcher], [MatcherSpec]: src/pkg/matcher.
    - [Icept]: src/pkg/icept/conflicts.go.
    - [AgentConfig], [AgentSpec]: src/pkg/agentconfig and src/pkg/icept/find.go.
    - [Policies]: src/pkg/annotation, src/pkg/types/mountpolicy.go and engagement.go.
    - [Kube]: the Kubernetes objects that the sources read, and src/pkg/k8sapi/kind.go.
    - [Discovery]: src/pkg/agentmap/discorvery.go.
    - [Generator], [GeneratorSpec]: src/pkg/agentmap/generator.go and capsbase26.go.
    - [AgentContainer]: src/pkg/agentconfig/container.go, initcontainer.go, volumes.go.
    - [AgentInit], [AgentInitSpec]: src/cmd/traffic/cmd/agentinit/agent_init.go.
    - [Injector], [InjectorSpec]: the patches of
      src/cmd/traffic/cmd/manager/mutator/agent_injector.go, and the meaning of JSON
      patches.
    - [ConfigWatcher], [ConfigWatcherSpec]: watcher.go,
      service_watcher.go, workload_watcher.go, eviction.go and Inject of the same
      directory.
    - [ClusterWatch], [ClusterWatchSpec]: src/cmd/traffic/cmd/manager/cluster.
    - [ResolveFile]: src/pkg/dnsproxy/resolvefile_unix.go and the cluster domain of
      cluster/info.go.
    - [EnvSyntax]: src/pkg/client/cli/env/syntax.go.
    - [AgentFwd], [AgentFwdSpec]: src/cmd/traffic/cmd/agent, the review of
      intercepts and the routing.
    - [CacheMap], [CacheMapSpec]: src/pkg/cache/map.go.
    - [ManagerState], [ManagerPrepare], [ManagerSpec], [ManagerInv]:
      src/cmd/traffic/cmd/manager/state, managerutil/data.go and the review handler of
      service.go.
    - [ManagerService], [ManagerServiceSpec]: service.go and data.go of
      src/cmd/traffic/cmd/manager.
    - [Namespaces]: src/pkg/labels/selector.go, namespaces/watcher.go and
      config/config.go of the manager.
    - [WorkloadExposure]: state/workload_exposure.go of the manager and src/pkg/workload.
    - [WorkloadWatch], [WorkloadWatchSpec]: state/watcher.go and
      workload_info_watcher.go of the manager, and the client's side in session.go.

    ** What the theorems show

    - Subnets: [CoveringPrefixes] covers every address and no prefix could have a
      longer mask; [Covers] is containment of address ranges; [Unique] keeps the
      union and leaves nothing covered; [RandomIPv4Prefix] finds a free subnet
      whenever there is one.
    - Virtual IPs: the sequence of addresses of a generator and its exhaustion, its
      disjointness from the address of the device, and the families.
    - Ports, connection identifiers and messages: round trips, injectivity of
      connection identifiers, agreement of both ends of the handshake, and the
      panics of encoder and decoder.
    - Streams, pools and endpoints: a reader gets exactly the bytes that were written,
      whatever the sizes of messages and buffers; in every interleaving a pool holds
      one live handler for an identifier and no half of a connection is closed twice;
      bytes go from connection to connection unchanged.
    - DNS: round trips of the packed answer and of reverse addresses, the rules that
      select the names the cluster is asked for, what the cache keeps, the recursion
      check in every interleaving of queries.
    - Router and session: the routes of the policy table are the wanted ones after
      every update; together with the session's choice of routes the longest match
      sends an address through the device exactly when the never-proxy policy says
      so; a virtual IP stands for one address, and a connection to it is opened to
      that address by the right agent; processing of a cluster info terminates when
      the routing table can be read.
    - Clients of agents: the invariant of the heap of clients, shared pod infos and waiters
      under every interleaving of the steps of concurrent calls, what an update leaves, the
      choice of a client, and that waiting for an agent that can be reached ends.
    - User daemon: contexts of intercepts are cancelled once and only when they are
      gone, waiters are told, accepted intercepts share no local port, and from end to
      end the root daemon connects directly exactly what the intercepts cover.  Ingests
      have one pod each and follow the snapshots of the agents; the list of workloads is
      what the filter selects; the current namespaces are the mapped ones that the client
      has access to; a lost connection to the root daemon is replaced once.
    - Client configuration: what is written is read back; a key has the value of the last
      file that does not leave it at its default; local settings yield to nothing that the
      traffic-manager configures, except where the defaults share an array; the watcher
      replaces the configuration after the file was written.
    - Workloads: the first snapshot gives the client the workloads of the namespace; the
      callback of the timer, which runs next to the loop, brings the client's map to every
      event that it has ranged over, in every order of events and callbacks.
    - Shell quoting: splitting what was quoted gives the arguments back.
    - Matchers and conflicts: independence of the iteration order of maps, the trip
      through the map form, exactness of the conflict test on path filters and a
      request for every conflict on literal headers.
    - Agent: lookups of ports, intercept targets, proxy ports, group id; intercepts
      made active are free of conflict, so the routing of a request does not depend
      on their order; reconciliation keeps and cancels the right contexts.
    - Generated configurations: containers are those of the pod, each once, with prefixes
      of their own; a port of the agent stands for one port of the pod; every selected
      service port that leads to a container has its intercept and nothing else has; what
      is generated is what the agent accepts.  The search for a pod's owner ends when
      ownership has no cycle.
    - Init container: what the rules of the nat table do to the packets of the pod, those
      of the agent itself included.
    - Webhook: what a patch makes of a pod; a service port that led to a container by name
      leads to the agent afterwards, at the port where the agent serves the intercept; an
      injected pod carries the configuration that is stored and is not evicted for a
      mismatch; evictions deal with every pod once, and a changed workload ends up with
      its configuration stored and every other pod dealt with.
    - Cluster info: the covering subnets of the pods' addresses reach a subscriber; what a
      node that changes leaves in the set; when a node is ready.
    - Text: resolv.conf files and environment files for shells are read back as what was
      written; mount policies and engagements keep their names.
    - Cache: the operations are those of a finite map, and a subscriber that applies
      its deltas has what its filter selects of the map, and besides at most entries
      whose value has left the filter.
    - Manager: in every state that interleaved requests reach the store of intercepts is
      well formed and no intercept outlives its client, unless the client was gone when the
      intercept was stored; the effect of arriving and leaving agents
      and clients on every intercept; creating and removing an intercept leaves no
      trace; accepted intercepts leave no live conflict; expiry of sessions.
    - Service: every sequence of requests, one after another, keeps the manager's invariant; an idle agent is
      removed when the recorded times say so, and those times survive a restart; a lookup
      answers the question that was asked; streams send what is current.
    - Managed namespaces: the list follows the selector and the cluster, a selector that
      only names namespaces selects the same ones statically and dynamically, and no
      subscriber misses a change.

    Some theorems show that the code does not do what it means to do; each says so
    in its comment.

    ** Conventions and bounds

    Code that is not part of the sources is a parameter: the regular expressions
    ([GoRegexp]), the Kubernetes constants and label check ([K8sApi] with
    [K8sLaws]), the concurrent map under the cache ([XsyncMap] with [XsyncLaws]),
    the packing of DNS records ([DnsCodec]), the kernel's routes ([Host] with
    [HostLaws]), what the informers and the API server answer ([Cluster], [EvictApi]),
    the JSON of Kubernetes objects ([ObjectJson]), the iptables command ([Iptables] with
    [IptablesLaws]), the label selectors of Kubernetes ([K8sLabels] with
    [K8sLabelsLaws]), the version parser ([Semver]), the YAML of the engagement times
    ([StateYAML]), the YAML and the texts of values of the client's configuration
    ([ConfigCodecs] with [ConfigLaws]), the DNS resolver, the gRPC transport, the interfaces of the host and the
    answers of the cluster.  What a handler of the workload watchers reads when it runs is
    a record ([World]).
    Go maps are [gmap]s; where Go's iteration order matters it is an argument or the
    theorem holds for every order.  Pointers are modelled where objects are shared
    (the manager's intercepts, the clone of an agent configuration, the
    array of default suffixes); contexts are
    numbers.  Time is an argument.

    Two loops have fuel: the search of [RandomIPv4Prefix] visits at most the 65536
    subnets of a range, which is its fuel, and [Unique] shortens its list or advances
    in every round; in both cases the theorems show that the fuel suffices.  The
    search for a group id has one more candidate than there are ids in use.  The mutual
    recursion of [onClusterInfo] and [reconcileSubnets] has a depth; [SessionRoutesSpec] shows
    that two is enough when the routing table can be read, and that no depth is when it
    cannot.  The read loops of [StreamConnSpec] state the number of reads they need.
    Goroutines are lists of atomic steps and a schedule picks the next one; theorems
    on them hold for every schedule.

    The manager's requests are single steps, except the creation of an intercept and the
    restoring of a client's intercepts, which [ManagerInv] runs as threads next to the
    other requests; [ManagerServiceSpec] has the requests one after another.  The retry loop
    of [UpdateIntercept] succeeds at its first attempt in a single step.  A notification of
    the cache is one round, with no modification while it runs ([CacheMap.notify]);
    [CacheMapSpec.notification_lost] splits it.  The watcher of namespaces handles an event
    or its timer in one step ([Namespaces.ns_step]).  The callback of the timer of
    [WorkloadWatch] has two steps between turns of the loop.  The calls on the clients of
    agents are split at their locks ([AgentPf.pf_act]), and are also given as whole
    operations ([AgentPfSpec.run_op]).

    ** Not modelled

    The command line, the start of the user daemon's session and its login, containers of
    the workstation, the installation (Helm), the
    webhook's TLS server and certificates, generated gRPC code, metrics and logging: they
    are I/O, third-party calls, or structures of options.  Of the root daemon the probes
    for connectivity, start and stop, and the network device with its stack; of the DNS
    server the sockets and the set-up of the host's resolver per operating system.  The
    simulation of the manager's store by the cache is not stated: [ManagerState] uses
    finite maps, and [CacheMapSpec] shows that the cache is one. *)
From stdpp Require Export base list list_numbers numbers strings pretty sorting gmap.
From Stdlib Require Export ZArith Lia.
#[export] Set Default Goal Selector "!".

Open Scope Z_scope.
#[global] Arguments Z.shiftr : simpl never.
#[global] Arguments Z.shiftl : simpl never.
#[global] Arguments Z.testbit : simpl never.
#[global] Arguments Z.land : simpl never.
#[global] Arguments Z.lor : simpl never.
#[global] Arguments Z.modulo : simpl never.
#[global] Arguments Z.div : simpl never.
#[global] Arguments Z.pow : simpl never.
#[global] Arguments seqZ : simpl never.

(** ** Outcomes of Go code

    A Go call returns a value, returns a non-nil error, or panics.  [Go E A]
    keeps the three apart; [E] is the component's error type. *)
Inductive Go (E A : Type) : Type :=
  | Ret (a : A)
  | Fail (e : E)
  | Panic.
Arguments Ret {E A} a.
Arguments Fail {E A} e.
Arguments Panic {E A}.

Global Instance go_ret E : MRet (Go E) := fun A a => Ret a.
Global Instance go_bind E : MBind (Go E) := fun A B f m =>
  match m with
  | Ret a => f a
  | Fail e => Fail e
  | Panic => Panic
  end.
Global Instance go_fmap E : FMap (Go E) := fun A B f m =>
  match m with
  | Ret a => Ret (f a)
  | Fail e => Fail e
  | Panic => Panic
  end.
Lemma Ret_inj {E A} (a b : A) : @Ret E A a = Ret b -> a = b.
Proof. congruence. Qed.
Global Instance go_eq_dec {E A} `{EqDecision E} `{EqDecision A} : EqDecision (Go E A).
Proof. solve_decision. Defined.

Definition go_ok {E A} (m : Go E A) : bool :=
  match m with Ret _ => true | _ => false end.

Lemma go_bind_ret {E A B} (f : A -> Go E B) m b :
  m ≫= f = Ret b <-> exists a, m = Ret a /\ f a = Ret b.
Proof.
  split.
  - destruct m; simpl; try discriminate; eauto.
  - intros (a & -> & H). exact H.
Qed.

(** A partial operation that panics where it is undefined. *)
Definition or_panic {E A} (o : option A) : Go E A :=
  match o with Some a => Ret a | None => Panic end.

(** ** Development tactics and hints *)
Create HintDb tele.
Create Rewrite HintDb tele.

(** Split on the scrutinee of a [match] or [if] in the goal, keeping the equation. *)
Ltac case_goal :=
  match goal with
  | |- context [match ?x with _ => _ end] =>
      lazymatch x with
      | context [match _ with _ => _ end] => fail
      | _ => let E := fresh "E" in destruct x eqn:E
      end
  end.

(** Same for a hypothesis. *)
Ltac case_hyp H :=
  match type of H with
  | context [match ?x with _ => _ end] =>
      lazymatch x with
      | context [match _ with _ => _ end] => fail
      | _ => let E := fresh "E" in destruct x eqn:E
      end
  end.

(** Boolean tests of the code become propositions. *)
Ltac bools :=
  repeat match goal with
  | H : _ && _ = true |- _ => apply andb_true_iff in H; destruct H
  | H : _ || _ = false |- _ => apply orb_false_iff in H; destruct H
  | H : negb _ = true |- _ => apply negb_true_iff in H
  | H : negb _ = false |- _ => apply negb_false_iff in H
  | H : (_ <? _) = true |- _ => apply Z.ltb_lt in H
  | H : (_ <? _) = false |- _ => apply Z.ltb_ge in H
  | H : (_ <=? _) = true |- _ => apply Z.leb_le in H
  | H : (_ <=? _) = false |- _ => apply Z.leb_gt in H
  | H : (_ =? _) = true |- _ => apply Z.eqb_eq in H
  | H : (_ =? _) = false |- _ => apply Z.eqb_neq in H
  | H : bool_decide _ = true |- _ => apply bool_decide_eq_true_1 in H
  | H : bool_decide _ = false |- _ => apply bool_decide_eq_false_1 in H
  end.

(** Decide a closed goal by evaluation. *)
Ltac decide_it := apply (bool_decide_unpack _); vm_compute; exact I.

(** ** Machine integers

    A w-bit unsigned integer is a [Z] in [0, 2^w); Go's conversions and
    arithmetic reduce modulo 2^w. *)
Definition wrap (w x : Z) : Z := x mod 2 ^ w.
Abbreviation u8 := (wrap 8) (only parsing).
Abbreviation u16 := (wrap 16) (only parsing).
Abbreviation u32 := (wrap 32) (only parsing).
Abbreviation u64 := (wrap 64) (only parsing).
Definition fits (w x : Z) : Prop := 0 <= x < 2 ^ w.

Lemma wrap_fits w x : 0 <= w -> fits w (wrap w x).
Proof. intros. apply Z.mod_pos_bound. lia. Qed.
Lemma wrap_id w x : fits w x -> wrap w x = x.
Proof. apply Z.mod_small. Qed.
Global Instance fits_dec w x : Decision (fits w x).
Proof. unfold fits. apply _. Defined.
#[export] Hint Resolve wrap_fits : tele.

Lemma bits_ext x y : (forall i, 0 <= i -> Z.testbit x i = Z.testbit y i) -> x = y.
Proof. apply Z.bits_inj'. Qed.

Lemma testbit_high w x i : fits w x -> w <= i -> Z.testbit x i = false.
Proof.
  unfold fits. intros [H0 H1] Hi. destruct (decide (x = 0)) as [->|Hx].
  - apply Z.bits_0.
  - apply Z.bits_above_log2; [done|]. apply Z.log2_lt_pow2 in H1; lia.
Qed.

Lemma fits_bits w x : 0 <= w -> 0 <= x -> (forall i, w <= i -> Z.testbit x i = false) -> fits w x.
Proof.
  intros Hw H0 Hb. split; [done|].
  destruct (Z.lt_ge_cases x (2 ^ w)) as [|Hge]; [done|].
  assert (0 < 2 ^ w) by lia.
  assert (w <= Z.log2 x) by (apply Z.log2_le_pow2; lia).
  specialize (Hb (Z.log2 x) ltac:(done)). rewrite Z.bit_log2 in Hb; [done|lia].
Qed.

Lemma fits_lor w x y : 0 <= w -> fits w x -> fits w y -> fits w (Z.lor x y).
Proof.
  intros Hw Hx Hy. apply fits_bits; [done| |].
  - apply Z.lor_nonneg. unfold fits in *. lia.
  - intros i Hi. rewrite Z.lor_spec, (testbit_high w x), (testbit_high w y); done.
Qed.

Lemma lor_add x y s : 0 <= s -> fits s y -> Z.lor (x * 2 ^ s) y = x * 2 ^ s + y.
Proof.
  intros Hs Hy. assert (Hd : Z.land (x * 2 ^ s) y = 0).
  { apply bits_ext. intros i Hi. rewrite Z.land_spec, Z.bits_0. destruct (Z.lt_ge_cases i s).
    - by rewrite Z.mul_pow2_bits_low by lia.
    - rewrite (testbit_high s y) by done. apply andb_false_r. }
  rewrite <- Z.lxor_lor by done. symmetry. by apply Z.add_nocarry_lxor.
Qed.

(** Extracting a byte with a mask and a shift. *)
Lemma byte_of_mask v m s : 0 <= s -> Z.shiftr m s = 255 -> u8 (Z.shiftr (Z.land v m) s) = (Z.shiftr v s) mod 256.
Proof.
  intros Hs Hm. rewrite Z.shiftr_land, Hm. change 255 with (Z.ones 8). rewrite Z.land_ones by lia.
  apply wrap_id. apply Z.mod_pos_bound. lia.
Qed.

(** ** Loops *)
Lemma foldl_inv {A B} (P : A -> Prop) (f : A -> B -> A) (l : list B) (a : A) :
  (forall a x, x ∈ l -> P a -> P (f a x)) -> P a -> P (foldl f a l).
Proof.
  revert a. induction l as [|x l IH]; intros a Hf Ha; [done|]. cbn [foldl].
  apply IH; [intros a' x' Hx'; apply Hf; by constructor|]. apply Hf; [constructor|done].
Qed.

(** ** Byte strings

    Bytes are [Z] in [0, 256).  Big-endian encodings are the ones of Go's
    [encoding/binary] and of the byte arrays of [net/netip]. *)
Definition is_byte (b : Z) : Prop := 0 <= b < 256.
Global Instance is_byte_dec b : Decision (is_byte b).
Proof. unfold is_byte. apply _. Defined.
Definition bytes_ok (l : list Z) : Prop := Forall is_byte l.
Global Instance bytes_ok_dec l : Decision (bytes_ok l).
Proof. unfold bytes_ok. apply _. Defined.

(** The [n] low-order bytes of [x], most significant first. *)
Fixpoint be_bytes (n : nat) (x : Z) : list Z :=
  match n with
  | O => []
  | S n => (Z.shiftr x (8 * Z.of_nat n)) mod 256 :: be_bytes n x
  end.

Definition be_val (l : list Z) : Z := foldl (fun acc b => acc * 256 + b) 0 l.

Lemma be_bytes_length n x : length (be_bytes n x) = n.
Proof. induction n; simpl; auto. Qed.

Lemma be_bytes_ok n x : bytes_ok (be_bytes n x).
Proof.
  induction n; constructor; [|done]. apply Z.mod_pos_bound. lia.
Qed.

Lemma be_val_acc l acc :
  foldl (fun acc b => acc * 256 + b) acc l = acc * 256 ^ Z.of_nat (length l) + be_val l.
Proof.
  unfold be_val. revert acc. induction l as [|b l IH]; intros acc; cbn [foldl length].
  - lia.
  - rewrite IH, (IH (0 * 256 + b)).
    replace (Z.of_nat (S (length l))) with (Z.of_nat (length l) + 1) by lia.
    rewrite Z.pow_add_r by lia. lia.
Qed.

Lemma be_val_cons b l : be_val (b :: l) = b * 256 ^ Z.of_nat (length l) + be_val l.
Proof. unfold be_val at 1. simpl. apply be_val_acc. Qed.

Lemma be_val_app l1 l2 :
  be_val (l1 ++ l2) = be_val l1 * 256 ^ Z.of_nat (length l2) + be_val l2.
Proof. unfold be_val at 1. rewrite foldl_app. apply be_val_acc. Qed.

Lemma be_val_bound l : bytes_ok l -> 0 <= be_val l < 256 ^ Z.of_nat (length l).
Proof.
  induction 1 as [|b l Hb Hl IH].
  - cbn. lia.
  - rewrite be_val_cons. simpl length.
    replace (Z.of_nat (S (length l))) with (Z.of_nat (length l) + 1) by lia.
    rewrite Z.pow_add_r by lia. unfold is_byte in Hb. nia.
Qed.

Lemma be_val_bytes n x : be_val (be_bytes n x) = x mod 256 ^ Z.of_nat n.
Proof.
  induction n as [|n IH].
  - cbn. by rewrite Z.mod_1_r.
  - simpl be_bytes. rewrite be_val_cons, be_bytes_length, IH.
    rewrite Z.shiftr_div_pow2 by lia.
    replace (2 ^ (8 * Z.of_nat n)) with (256 ^ Z.of_nat n)
      by (rewrite Z.pow_mul_r by lia; done).
    replace (Z.of_nat (S n)) with (Z.of_nat n + 1) by lia.
    rewrite Z.pow_add_r, Z.pow_1_r by lia.
    rewrite (Z.rem_mul_r x) by lia. lia.
Qed.

Lemma be_bytes_add n x y :
  be_bytes n (x + y * 256 ^ Z.of_nat n) = be_bytes n x.
Proof.
  revert y. induction n as [|n IH]; intros y; [done|]. simpl. f_equal.
  - rewrite !Z.shiftr_div_pow2 by lia.
    replace (2 ^ (8 * Z.of_nat n)) with (256 ^ Z.of_nat n)
      by (rewrite Z.pow_mul_r by lia; done).
    replace (Z.of_nat (S n)) with (Z.of_nat n + 1) by lia.
    rewrite Z.pow_add_r by lia.
    replace (x + y * (256 ^ Z.of_nat n * 256 ^ 1)) with (x + (y * 256) * 256 ^ Z.of_nat n) by lia.
    rewrite Z.div_add by lia. by rewrite Z.mod_add by lia.
  - replace (Z.of_nat (S n)) with (Z.of_nat n + 1) by lia.
    rewrite Z.pow_add_r by lia.
    replace (x + y * (256 ^ Z.of_nat n * 256 ^ 1)) with (x + (y * 256) * 256 ^ Z.of_nat n) by lia.
    apply IH.
Qed.

Lemma be_bytes_val l : bytes_ok l -> be_bytes (length l) (be_val l) = l.
Proof.
  induction 1 as [|b l Hb Hl IH]; [done|].
  rewrite be_val_cons. simpl. rewrite Z.add_comm. f_equal.
  - rewrite Z.shiftr_div_pow2 by lia.
    replace (2 ^ (8 * Z.of_nat (length l))) with (256 ^ Z.of_nat (length l))
      by (rewrite Z.pow_mul_r by lia; done).
    pose proof (be_val_bound l Hl). rewrite Z.div_add by lia.
    rewrite Z.div_small, Z.add_0_l by lia. by apply Z.mod_small.
  - by rewrite be_bytes_add.
Qed.

Lemma be_bytes_inj n x y :
  0 <= x < 256 ^ Z.of_nat n -> 0 <= y < 256 ^ Z.of_nat n ->
  be_bytes n x = be_bytes n y -> x = y.
Proof.
  intros Hx Hy H. apply (f_equal be_val) in H. rewrite !be_val_bytes in H.
  by rewrite !Z.mod_small in H by lia.
Qed.
Lemma be_bytes_app n m x : be_bytes (n + m) x = be_bytes n (Z.shiftr x (8 * Z.of_nat m)) ++ be_bytes m x.
Proof.
  induction n as [|n IH]; [done|].
  change (be_bytes (S n + m) x) with (Z.shiftr x (8 * Z.of_nat (n + m)) mod 256 :: be_bytes (n + m) x).
  rewrite IH. change (be_bytes (S n) ?y) with (Z.shiftr y (8 * Z.of_nat n) mod 256 :: be_bytes n y).
  rewrite Z.shiftr_shiftr by lia. simpl. do 3 f_equal. lia.
Qed.

Arguments be_bytes : simpl never.
#[export] Hint Resolve be_bytes_ok : tele.
#[export] Hint Rewrite be_bytes_length be_val_bytes : tele.

(** ** Lists *)
Lemma take_app_len {A} (l k : list A) n : n = length l -> take n (l ++ k) = l.
Proof. intros ->. apply take_app_length. Qed.
Lemma drop_app_len {A} (l k : list A) n : n = length l -> drop n (l ++ k) = k.
Proof. intros ->. apply drop_app_length. Qed.

Lemma filter_all {A} (P : A -> Prop) `{!forall x, Decision (P x)} (l : list A) : Forall P l -> filter P l = l.
Proof. induction 1 as [|x l Hx Hl IH]; [reflexivity|]. rewrite filter_cons, decide_True by exact Hx. by rewrite IH. Qed.
Lemma filter_none {A} (P : A -> Prop) `{!forall x, Decision (P x)} (l : list A) : Forall (fun x => ~ P x) l -> filter P l = [].
Proof. induction 1 as [|x l Hx Hl IH]; [reflexivity|]. by rewrite filter_cons, decide_False by exact Hx. Qed.
