(* ===== verification/NetIP.v ===== *)
(** * The parts of Go's [net/netip] and [net] that Telepresence uses

    [netip.Addr] is the zero value, a 32-bit IPv4 value or a 128-bit IPv6 value
    with a zone; [netip.Prefix] is an address without zone and a bit count, -1
    for an invalid prefix.  The operations are those of the Go standard library
    that the sources call, on every branch. *)
From S2P Require Import Prelude.

Inductive Addr : Type :=
  | AddrZero
  | Addr4 (v : Z)
  | Addr6 (v : Z) (zone : string).

Global Instance Addr_eq_dec : EqDecision Addr.
Proof. solve_decision. Defined.
Global Instance Addr_inhabited : Inhabited Addr := populate AddrZero.
Global Instance Addr_countable : Countable Addr.
Proof.
  refine (inj_countable'
    (fun a => match a with
              | AddrZero => inl ()
              | Addr4 v => inr (inl v)
              | Addr6 v z => inr (inr (v, z)) end)
    (fun x => match x with
              | inl _ => AddrZero
              | inr (inl v) => Addr4 v
              | inr (inr (v, z)) => Addr6 v z end) _).
  by intros [].
Defined.

(** Values an [Addr] built by the standard library can have. *)
Definition addr_wf (a : Addr) : Prop :=
  match a with
  | AddrZero => True
  | Addr4 v => fits 32 v
  | Addr6 v _ => fits 128 v
  end.
Global Instance addr_wf_dec a : Decision (addr_wf a).
Proof. destruct a; apply _. Defined.

Definition a_IsValid (a : Addr) : bool := match a with AddrZero => false | _ => true end.
Definition Is4 (a : Addr) : bool := match a with Addr4 _ => true | _ => false end.
Definition Is6 (a : Addr) : bool := match a with Addr6 _ _ => true | _ => false end.
Definition Is4In6 (a : Addr) : bool :=
  match a with Addr6 v _ => Z.shiftr v 32 =? 0xffff | _ => false end.
Definition BitLen (a : Addr) : Z :=
  match a with AddrZero => 0 | Addr4 _ => 32 | Addr6 _ _ => 128 end.
Definition Unmap (a : Addr) : Addr :=
  match a with
  | Addr6 v _ => if Is4In6 a then Addr4 (v mod 2 ^ 32) else a
  | _ => a
  end.
Definition withoutZone (a : Addr) : Addr :=
  match a with Addr6 v _ => Addr6 v "" | _ => a end.
Definition hasZone (a : Addr) : bool :=
  match a with Addr6 _ z => negb (bool_decide (z = "")) | _ => false end.

(** [As16]: an IPv4 address as its IPv4-mapped IPv6 bytes. *)
Definition As16 (a : Addr) : list Z :=
  match a with
  | AddrZero => be_bytes 16 0
  | Addr4 v => be_bytes 16 (0xffff * 2 ^ 32 + v)
  | Addr6 v _ => be_bytes 16 v
  end.
(** [As4] panics on the zero [Addr] and on an IPv6 address that is not IPv4-mapped. *)
Definition As4 (a : Addr) : option (list Z) :=
  match a with
  | Addr4 v => Some (be_bytes 4 v)
  | Addr6 v _ => if Is4In6 a then Some (be_bytes 4 v) else None
  | AddrZero => None
  end.
Definition AddrFrom4 (bs : list Z) : Addr := Addr4 (be_val bs).
Definition AddrFrom16 (bs : list Z) : Addr := Addr6 (be_val bs) "".
Definition AsSlice (a : Addr) : list Z :=
  match a with
  | AddrZero => []
  | Addr4 v => be_bytes 4 v
  | Addr6 v _ => be_bytes 16 v
  end.
Definition AddrFromSlice (bs : list Z) : option Addr :=
  if bool_decide (length bs = 4%nat) then Some (AddrFrom4 bs)
  else if bool_decide (length bs = 16%nat) then Some (AddrFrom16 bs)
  else None.

(** [Addr.Less]: bit length, then value, then zone. *)
Definition a_Less (a b : Addr) : bool :=
  match a, b with
  | Addr4 v, Addr4 w => v <? w
  | Addr6 v z, Addr6 w y => (v <? w) || ((v =? w) && String.ltb z y)
  | _, _ => BitLen a <? BitLen b
  end.

(** [netip.AddrPort]. *)
Record AddrPort := { ap_addr : Addr; ap_port : Z }.
Global Instance AddrPort_eq_dec : EqDecision AddrPort.
Proof. solve_decision. Defined.

(** ** Prefixes *)
Record Prefix := { pfx_Addr : Addr; pfx_Bits : Z }.
Global Instance Prefix_eq_dec : EqDecision Prefix.
Proof. solve_decision. Defined.
Global Instance Prefix_countable : Countable Prefix.
Proof.
  refine (inj_countable' (fun p => (pfx_Addr p, pfx_Bits p))
    (fun x => {| pfx_Addr := x.1; pfx_Bits := x.2 |}) _).
  by intros [].
Defined.
Definition PrefixZero : Prefix := {| pfx_Addr := AddrZero; pfx_Bits := -1 |}.
Global Instance Prefix_inhabited : Inhabited Prefix := populate PrefixZero.

Definition p_IsValid (p : Prefix) : bool := 0 <=? pfx_Bits p.

Definition PrefixFrom (a : Addr) (bits : Z) : Prefix :=
  {| pfx_Addr := withoutZone a;
     pfx_Bits := if a_IsValid a && (0 <=? bits) && (bits <=? BitLen a) then bits else -1 |}.

(** The top [b] bits of a [w]-bit value, the rest cleared. *)
Definition keep_top (w b v : Z) : Z := Z.shiftl (Z.shiftr v (w - b)) (w - b).

(** [Addr.Prefix]; [None] is an error. *)
Definition a_Prefix (a : Addr) (b : Z) : option Prefix :=
  if b <? 0 then None else
  match a with
  | AddrZero => Some PrefixZero
  | Addr4 v => if 32 <? b then None else Some (PrefixFrom (Addr4 (keep_top 32 b v)) b)
  | Addr6 v _ => if 128 <? b then None else Some (PrefixFrom (Addr6 (keep_top 128 b v) "") b)
  end.

Definition Masked (p : Prefix) : Prefix := default PrefixZero (a_Prefix (pfx_Addr p) (pfx_Bits p)).

Definition p_Contains (p : Prefix) (a : Addr) : bool :=
  p_IsValid p && negb (hasZone a) &&
  match pfx_Addr p, a with
  | Addr4 n, Addr4 v => Z.shiftr v (32 - pfx_Bits p) =? Z.shiftr n (32 - pfx_Bits p)
  | Addr6 n _, Addr6 v _ => Z.shiftr v (128 - pfx_Bits p) =? Z.shiftr n (128 - pfx_Bits p)
  | _, _ => false
  end.

Definition p_Overlaps (p o : Prefix) : bool :=
  if negb (p_IsValid p) || negb (p_IsValid o) then false
  else if bool_decide (p = o) then true
  else if negb (Bool.eqb (Is4 (pfx_Addr p)) (Is4 (pfx_Addr o))) then false
  else
    let minBits := Z.min (pfx_Bits p) (pfx_Bits o) in
    if minBits =? 0 then true
    else match a_Prefix (pfx_Addr p) minBits, a_Prefix (pfx_Addr o) minBits with
         | Some p', Some o' => bool_decide (pfx_Addr p' = pfx_Addr o')
         | _, _ => false
         end.

(** Prefixes as the standard library builds them. *)
Definition pfx_wf (p : Prefix) : Prop :=
  addr_wf (pfx_Addr p) /\ hasZone (pfx_Addr p) = false /\
  (pfx_Bits p = -1 \/ (0 <= pfx_Bits p <= BitLen (pfx_Addr p) /\ pfx_Addr p <> AddrZero)).
Global Instance pfx_wf_dec p : Decision (pfx_wf p).
Proof. unfold pfx_wf. apply _. Defined.

(** The network part of a prefix as a number: its value without the host bits. *)
Definition net_value (p : Prefix) : Z :=
  match pfx_Addr p with
  | AddrZero => 0
  | Addr4 v => Z.shiftr v (32 - pfx_Bits p)
  | Addr6 v _ => Z.shiftr v (128 - pfx_Bits p)
  end.

(** [net.IP.To4]: [None] is nil. *)
Definition To4 (ip : list Z) : option (list Z) :=
  if bool_decide (length ip = 4%nat) then Some ip
  else if bool_decide (length ip = 16%nat) &&
          bool_decide (take 10 ip = replicate 10 0) &&
          bool_decide (ip !! 10%nat = Some 255) && bool_decide (ip !! 11%nat = Some 255)
       then Some (take 4 (drop 12 ip))
  else None.

(** ** Facts *)
Lemma withoutZone_wf a : addr_wf a -> addr_wf (withoutZone a).
Proof. by destruct a. Qed.
Lemma hasZone_withoutZone a : hasZone (withoutZone a) = false.
Proof. by destruct a. Qed.

Lemma PrefixFrom_wf a b : addr_wf a -> pfx_wf (PrefixFrom a b).
Proof.
  intros Ha. repeat split; simpl.
  - by apply withoutZone_wf.
  - apply hasZone_withoutZone.
  - destruct (a_IsValid a) eqn:V; simpl; [|by left].
    destruct (0 <=? b) eqn:E1; simpl; [|by left].
    destruct (b <=? BitLen a) eqn:E2; [|by left].
    bools. right. destruct a; simpl in *; split; done || lia.
Qed.

Lemma shiftr_fits w s x : 0 <= s <= w -> fits w x -> fits (w - s) (Z.shiftr x s).
Proof.
  unfold fits. intros Hs [H0 H1]. rewrite Z.shiftr_div_pow2 by lia. split.
  - apply Z.div_pos; lia.
  - apply Z.div_lt_upper_bound; [lia|]. rewrite <- Z.pow_add_r by lia.
    by replace (s + (w - s)) with w by lia.
Qed.

Lemma keep_top_fits w b v : 0 <= b <= w -> fits w v -> fits w (keep_top w b v).
Proof.
  intros Hb Hv. unfold keep_top. pose proof (shiftr_fits w (w - b) v ltac:(lia) Hv) as H.
  unfold fits in *. rewrite Z.shiftl_mul_pow2 by lia.
  replace (2 ^ w) with (2 ^ (w - (w - b)) * 2 ^ (w - b))
    by (rewrite <- Z.pow_add_r by lia; f_equal; lia).
  pose proof (Z.pow_pos_nonneg 2 (w - b) ltac:(lia) ltac:(lia)). nia.
Qed.

Lemma keep_top_shiftr w b v : 0 <= b <= w -> Z.shiftr (keep_top w b v) (w - b) = Z.shiftr v (w - b).
Proof.
  intros. unfold keep_top. rewrite Z.shiftr_shiftl_l by lia. by rewrite Z.sub_diag, Z.shiftl_0_r.
Qed.

Lemma keep_top_eq w b v u : 0 <= b <= w ->
  keep_top w b v = keep_top w b u <-> Z.shiftr v (w - b) = Z.shiftr u (w - b).
Proof.
  intros Hb. split; intros H.
  - rewrite <- (keep_top_shiftr w b v), <- (keep_top_shiftr w b u) by done. by rewrite H.
  - unfold keep_top. by rewrite H.
Qed.

Lemma shiftr_mono s t v u : 0 <= s <= t -> Z.shiftr v s = Z.shiftr u s -> Z.shiftr v t = Z.shiftr u t.
Proof.
  intros H E. replace t with (s + (t - s)) by lia. rewrite <- !Z.shiftr_shiftr by lia. by rewrite E.
Qed.

Lemma AsSlice_length a : Z.of_nat (length (AsSlice a)) * 8 = BitLen a.
Proof. destruct a; simpl; done. Qed.

(** A contained address has the prefix's network value. *)
Lemma Contains_spec p a :
  p_Contains p a = true <->
  p_IsValid p = true /\ hasZone a = false /\ BitLen a = BitLen (pfx_Addr p) /\ a <> AddrZero /\
  net_value {| pfx_Addr := a; pfx_Bits := pfx_Bits p |} = net_value p.
Proof.
  unfold p_Contains, net_value. rewrite !andb_true_iff, negb_true_iff.
  destruct p as [[|n|n z] b], a as [|v|v y]; simpl; rewrite ?Z.eqb_eq;
    intuition (try congruence; try discriminate).
Qed.

(** A strict total order on addresses without zone. *)
Definition a_le (a b : Addr) : Prop := a_Less b a = false.
Global Instance a_le_dec : RelDecision a_le.
Proof. intros a b. unfold a_le. apply _. Defined.

Lemma string_compare_refl s : (s ?= s)%string = Eq.
Proof.
  induction s as [|c s IH]; [done|]. simpl. unfold Ascii.compare. by rewrite N.compare_refl.
Qed.

Global Instance a_le_total : Total a_le.
Proof.
  intros a b. unfold a_le.
  destruct a as [|v|v z], b as [|u|u y]; simpl; auto.
  - destruct (Z.ltb_spec v u), (Z.ltb_spec u v); auto; lia.
  - destruct (Z.ltb_spec v u), (Z.ltb_spec u v), (Z.eqb_spec v u), (Z.eqb_spec u v);
      simpl; auto; try lia.
    unfold String.ltb. rewrite (String.compare_antisym y z).
    destruct (z ?= y)%string; simpl; auto.
Qed.

Lemma ltb_le y z : String.ltb y z = false <-> String.le z y.
Proof.
  unfold String.le, String.leb, String.ltb. rewrite (String.compare_antisym z y).
  by destruct (y ?= z)%string.
Qed.

Global Instance a_le_trans : Transitive a_le.
Proof.
  intros a b c. unfold a_le.
  destruct a as [|v|v z], b as [|u|u y], c as [|w|w x]; simpl; try done; bools; intros.
  - bools. apply Z.ltb_ge. lia.
  - repeat match goal with H : _ || _ = false |- _ => apply orb_false_iff in H as [? ?] end. bools.
    apply orb_false_iff. split; [apply Z.ltb_ge; lia|].
    destruct (Z.eqb_spec w v) as [->|]; [|done]. simpl. apply ltb_le.
    assert (v = u) by lia. subst u. rewrite Z.eqb_refl in *. simpl in *.
    repeat match goal with H : String.ltb _ _ = false |- _ => apply ltb_le in H end. by etrans.
Qed.

Lemma a_le_antisym a b : a_le a b -> a_le b a -> a = b.
Proof.
  unfold a_le. destruct a as [|v|v z], b as [|u|u y]; simpl; try done; intros H1 H2.
  - bools. f_equal. lia.
  - apply orb_false_iff in H1 as [? E1], H2 as [? E2]. bools. assert (v = u) by lia. subst u.
    rewrite Z.eqb_refl in *. simpl in *. apply ltb_le in E1, E2. f_equal. by apply (anti_symm String.le).
Qed.
