(* ===== verification/Bitfield.v ===== *)
(** * Bitfield256: a set of bytes (src/pkg/subnet/bitfield256.go)

    A [Bitfield256] is a Go array of four [uint64] words, modelled as a list of
    four words; a byte [bv] is the bit [bv & 0x3f] of word [bv >> 6].  The main
    result is the specification of [Mask]: the longest common bit prefix of the
    bytes in the set. *)
From S2P Require Import Prelude.

Abbreviation Bitfield256 := (list Z).

Definition bf_wf (b : Bitfield256) : Prop := length b = 4%nat /\ Forall (fits 64) b.
Global Instance bf_wf_dec b : Decision (bf_wf b).
Proof. unfold bf_wf. apply _. Defined.
Definition bf_empty : Bitfield256 := [0; 0; 0; 0].

(** The word mask of byte [bv]: [uint64(1) << uint64(bv&0x3f)]. *)
Definition bit_mask (bv : Z) : Z := wrap 64 (Z.shiftl 1 (Z.land bv 0x3f)).
Definition word_ix (bv : Z) : nat := Z.to_nat (Z.shiftr bv 6).

Definition SetBit (b : Bitfield256) (bv : Z) : Bitfield256 :=
  alter (fun w => Z.lor w (bit_mask bv)) (word_ix bv) b.

Definition ClearBit (b : Bitfield256) (bv : Z) : Bitfield256 :=
  alter (fun w => Z.ldiff w (bit_mask bv)) (word_ix bv) b.

Definition GetBit (b : Bitfield256) (bv : Z) : bool :=
  negb (Z.land (default 0 (b !! word_ix bv)) (bit_mask bv) =? 0).

(** [Equals]; a nil argument is [None]. *)
Definition Equals (b : Bitfield256) (other : option Bitfield256) : bool :=
  match other with
  | None => false
  | Some o => bool_decide (b = o)
  end.

(** [g&(uint64(1)<<bit) != 0]. *)
Definition has_bit (g bit : Z) : bool := negb (Z.land g (wrap 64 (Z.shiftl 1 bit)) =? 0).

(** [bits.OnesCount64]. *)
Definition OnesCount64 (g : Z) : Z := Z.of_nat (length (filter (fun bit => has_bit g bit = true) (seqZ 0 64))).

Definition OnesCount (b : Bitfield256) : Z :=
  foldl (fun l g => if g =? 0 then l else l + OnesCount64 g) 0 b.

(** The bytes of group [bi], in increasing order: the inner loop of [ToSlice]. *)
Definition group_bytes (bi : nat) (g : Z) : list Z :=
  if g =? 0 then []
  else (fun bit => u8 (Z.lor (Z.shiftl (Z.of_nat bi) 6) bit)) <$>
         filter (fun bit => has_bit g bit = true) (seqZ 0 64).

Definition ToSlice (b : Bitfield256) : list Z :=
  if OnesCount b =? 0 then [] else concat (imap group_bytes b).

(** ** Mask

    The innermost statement of [Mask]: the byte [bv] either opens the scan,
    agrees with it, or ends it ([None], the early return). *)
Definition mask_visit (v bv : Z) (st : bool * bool) : option (bool * bool) :=
  let '(first, hasBit) := st in
  let t := negb (Z.land bv v =? 0) in
  if (first : bool) then Some (false, t)
  else if Bool.eqb hasBit t then Some (false, hasBit) else None.

Fixpoint mask_bits (v bx g : Z) (bits : list Z) (st : bool * bool) : option (bool * bool) :=
  match bits with
  | [] => Some st
  | bit :: bits =>
      if has_bit g bit
      then match mask_visit v (Z.lor bx bit) st with
           | None => None
           | Some st => mask_bits v bx g bits st
           end
      else mask_bits v bx g bits st
  end.

Fixpoint mask_groups (v : Z) (i : nat) (b : Bitfield256) (st : bool * bool) : option (bool * bool) :=
  match b with
  | [] => Some st
  | g :: b =>
      if g =? 0 then mask_groups v (S i) b st
      else match mask_bits v (Z.shiftl (Z.of_nat i) 6) g (seqZ 0 64) st with
           | None => None
           | Some st => mask_groups v (S i) b st
           end
  end.

(** The loop over [testBit]; [n] is [testBit + 1]. *)
Fixpoint mask_loop (n : nat) (b : Bitfield256) (value : Z) : Z * Z :=
  match n with
  | O => (8, value)
  | S n =>
      let testBit := Z.of_nat n in
      let v := Z.shiftl 1 testBit in
      match mask_groups v 0 b (true, false) with
      | None => (7 - testBit, value)
      | Some (_, hasBit) => mask_loop n b (if (hasBit : bool) then Z.lor value (u8 v) else value)
      end
  end.

Definition Mask (b : Bitfield256) : Z * Z := mask_loop 8 b 0.

(** ** The set a bitfield represents *)
Lemma land_pow2 x i : 0 <= i -> negb (Z.land x (Z.shiftl 1 i) =? 0) = Z.testbit x i.
Proof.
  intros Hi. rewrite Z.shiftl_1_l. destruct (Z.testbit x i) eqn:T.
  - apply negb_true_iff, Z.eqb_neq. intros H.
    apply (f_equal (fun z => Z.testbit z i)) in H.
    by rewrite Z.land_spec, T, Z.pow2_bits_true, Z.bits_0 in H by done.
  - apply negb_false_iff, Z.eqb_eq. apply bits_ext. intros j Hj.
    rewrite Z.land_spec, Z.bits_0. destruct (decide (i = j)) as [->|Hne].
    + by rewrite T.
    + rewrite Z.pow2_bits_false by done. apply andb_false_r.
Qed.

Lemma wrap_shiftl i : 0 <= i < 64 -> wrap 64 (Z.shiftl 1 i) = Z.shiftl 1 i.
Proof.
  intros. apply wrap_id. rewrite Z.shiftl_1_l. split; [lia|]. apply Z.pow_lt_mono_r; lia.
Qed.

Lemma has_bit_testbit g i : 0 <= i < 64 -> has_bit g i = Z.testbit g i.
Proof. intros. unfold has_bit. rewrite wrap_shiftl by done. apply land_pow2. lia. Qed.

Lemma land63 bv : 0 <= bv -> Z.land bv 0x3f = bv mod 64.
Proof. intros. change 0x3f with (Z.ones 6). by rewrite Z.land_ones by lia. Qed.

Lemma GetBit_testbit b bv : 0 <= bv ->
  GetBit b bv = Z.testbit (default 0 (b !! word_ix bv)) (bv mod 64).
Proof.
  intros. unfold GetBit, bit_mask. rewrite land63 by done.
  pose proof (Z.mod_pos_bound bv 64). rewrite wrap_shiftl by lia. apply land_pow2. lia.
Qed.

Lemma word_ix_lt bv : is_byte bv -> (word_ix bv < 4)%nat.
Proof.
  unfold is_byte, word_ix. intros. rewrite Z.shiftr_div_pow2 by lia.
  assert (bv / 2 ^ 6 < 4) by (apply Z.div_lt_upper_bound; lia). lia.
Qed.

Lemma word_ix_lookup b bv : bf_wf b -> is_byte bv -> exists w, b !! word_ix bv = Some w /\ fits 64 w.
Proof.
  intros [Hl Hf] Hb. destruct (lookup_lt_is_Some_2 b (word_ix bv)) as [w Hw].
  { rewrite Hl. by apply word_ix_lt. }
  exists w. split; [done|]. by eapply Forall_lookup_1.
Qed.

Lemma byte_split_eq x y : is_byte x -> is_byte y ->
  word_ix x = word_ix y -> x mod 64 = y mod 64 -> x = y.
Proof.
  unfold is_byte, word_ix. intros Hx Hy E M. rewrite !Z.shiftr_div_pow2 in E by lia.
  pose proof (Z.div_mod x 64). pose proof (Z.div_mod y 64).
  assert (0 <= x / 64) by (apply Z.div_pos; lia).
  assert (0 <= y / 64) by (apply Z.div_pos; lia).
  change (2 ^ 6) with 64 in E. lia.
Qed.

Lemma fits_bit_mask bv : 0 <= bv -> fits 64 (bit_mask bv).
Proof. intros. unfold bit_mask. by apply wrap_fits. Qed.

Lemma bit_mask_pow2 bv : 0 <= bv -> bit_mask bv = 2 ^ (bv mod 64).
Proof.
  intros. unfold bit_mask. rewrite land63 by done. pose proof (Z.mod_pos_bound bv 64).
  rewrite wrap_shiftl by lia. apply Z.shiftl_1_l.
Qed.

Lemma fits_ldiff w x y : 0 <= w -> fits w x -> fits w (Z.ldiff x y).
Proof.
  intros Hw Hx. apply fits_bits; [done| |].
  - apply Z.ldiff_nonneg. unfold fits in *. lia.
  - intros i Hi. by rewrite Z.ldiff_spec, (testbit_high w x).
Qed.

Lemma alter_wf f b i : (forall w, fits 64 w -> fits 64 (f w)) -> bf_wf b -> bf_wf (alter f i b).
Proof.
  intros Hf [Hl HF]. split; [by rewrite length_alter|].
  apply Forall_lookup. intros j w Hw.
  destruct (decide (i = j)) as [->|Hne].
  - rewrite list_lookup_alter_eq in Hw. apply fmap_Some in Hw as (x & Hx & ->).
    apply Hf. by eapply Forall_lookup_1.
  - rewrite list_lookup_alter_ne in Hw by done. by eapply Forall_lookup_1.
Qed.

Lemma SetBit_wf b bv : is_byte bv -> bf_wf b -> bf_wf (SetBit b bv).
Proof.
  intros Hb. apply alter_wf. intros w Hw. apply fits_lor; [lia|done|].
  apply fits_bit_mask. apply Hb.
Qed.

Lemma ClearBit_wf b bv : is_byte bv -> bf_wf b -> bf_wf (ClearBit b bv).
Proof. intros _. apply alter_wf. intros w. by apply fits_ldiff. Qed.

Lemma bf_empty_wf : bf_wf bf_empty.
Proof. decide_it. Qed.

Lemma GetBit_empty bv : GetBit bf_empty bv = false.
Proof.
  unfold GetBit, bf_empty. apply negb_false_iff, Z.eqb_eq.
  destruct (word_ix bv) as [|[|[|[|]]]]; reflexivity.
Qed.

#[export] Hint Resolve SetBit_wf ClearBit_wf bf_empty_wf : tele.

(** Two bytes in the same word are separated by their bit. *)
Lemma GetBit_alter f b bv x : bf_wf b -> is_byte bv -> is_byte x ->
  GetBit (alter f (word_ix bv) b) x =
  if decide (word_ix bv = word_ix x)
  then Z.testbit (f (default 0 (b !! word_ix x))) (x mod 64) else GetBit b x.
Proof.
  intros Hwf Hb Hx. rewrite !GetBit_testbit by apply Hx. case_decide as E.
  - rewrite E, list_lookup_alter_eq.
    destruct (word_ix_lookup b x Hwf Hx) as (w & -> & _). done.
  - by rewrite list_lookup_alter_ne.
Qed.

Lemma pow2_bit_byte bv x : is_byte bv -> is_byte x -> word_ix bv = word_ix x ->
  Z.testbit (bit_mask bv) (x mod 64) = bool_decide (x = bv).
Proof.
  intros Hb Hx E. rewrite bit_mask_pow2 by apply Hb.
  pose proof (Z.mod_pos_bound bv 64 ltac:(lia)).
  case_bool_decide as C.
  - subst. rewrite Z.pow2_bits_true; [done|]. lia.
  - apply Z.pow2_bits_false. intros M. apply C. symmetry. by apply byte_split_eq.
Qed.

Lemma GetBit_SetBit b bv x : bf_wf b -> is_byte bv -> is_byte x ->
  GetBit (SetBit b bv) x = bool_decide (x = bv) || GetBit b x.
Proof.
  intros Hwf Hb Hx. unfold SetBit. rewrite GetBit_alter by done. case_decide as E.
  - rewrite Z.lor_spec, pow2_bit_byte, orb_comm, GetBit_testbit by (done || apply Hx). done.
  - rewrite bool_decide_eq_false_2; [done|]. by intros ->.
Qed.

Lemma GetBit_ClearBit b bv x : bf_wf b -> is_byte bv -> is_byte x ->
  GetBit (ClearBit b bv) x = negb (bool_decide (x = bv)) && GetBit b x.
Proof.
  intros Hwf Hb Hx. unfold ClearBit. rewrite GetBit_alter by done. case_decide as E.
  - rewrite Z.ldiff_spec, pow2_bit_byte, andb_comm, GetBit_testbit by (done || apply Hx). done.
  - rewrite bool_decide_eq_false_2; [done|]. by intros ->.
Qed.

(** ** ToSlice and Mask over the represented set *)
Lemma group_lor bi bit : 0 <= bi -> 0 <= bit < 64 -> Z.lor (Z.shiftl bi 6) bit = bi * 64 + bit.
Proof.
  intros Hbi Hb. rewrite Z.shiftl_mul_pow2 by lia. apply (lor_add bi bit 6); [lia|]. unfold fits. lia.
Qed.

Lemma elem_of_group bi g x : (bi < 4)%nat ->
  x ∈ group_bytes bi g <->
  exists bit, 0 <= bit < 64 /\ Z.testbit g bit = true /\ x = Z.of_nat bi * 64 + bit.
Proof.
  intros Hbi. unfold group_bytes. destruct (Z.eqb_spec g 0) as [->|Hg].
  { split; [inversion 1|]. intros (bit & _ & H & _). by rewrite Z.bits_0 in H. }
  rewrite list_elem_of_fmap. setoid_rewrite list_elem_of_filter. setoid_rewrite elem_of_seqZ.
  split.
  - intros (bit & -> & Hb & Hr). exists bit. rewrite has_bit_testbit in Hb by lia.
    split_and!; [lia..|done|]. rewrite group_lor by lia. apply wrap_id. unfold fits. lia.
  - intros (bit & Hr & Hb & ->). exists bit. rewrite has_bit_testbit by lia.
    split_and!; [|done|lia..]. rewrite group_lor by lia. symmetry. apply wrap_id. unfold fits. lia.
Qed.

Definition members (b : Bitfield256) : list Z := concat (imap group_bytes b).

Lemma elem_of_members b x : bf_wf b ->
  x ∈ members b <-> is_byte x /\ GetBit b x = true.
Proof.
  intros Hwf. unfold members. rewrite list_elem_of_In, in_concat. setoid_rewrite <- list_elem_of_In.
  setoid_rewrite elem_of_lookup_imap. split.
  - intros (l & (i & g & -> & Hi) & Hx).
    assert (Hlt : (i < 4)%nat) by (rewrite <- (proj1 Hwf); by eapply lookup_lt_Some).
    apply elem_of_group in Hx as (bit & Hb & Ht & ->); [|done].
    assert (Hbyte : is_byte (Z.of_nat i * 64 + bit)) by (unfold is_byte; lia).
    assert (Hm : (Z.of_nat i * 64 + bit) mod 64 = bit)
      by (rewrite Z.add_comm, Z.mod_add by lia; by apply Z.mod_small).
    split; [done|]. rewrite GetBit_testbit by lia. rewrite Hm.
    replace (word_ix (Z.of_nat i * 64 + bit)) with i; [by rewrite Hi|].
    unfold word_ix. rewrite Z.shiftr_div_pow2 by lia. change (2 ^ 6) with 64.
    rewrite Z.div_add_l, Z.div_small by lia. lia.
  - intros [Hbyte Hg]. destruct (word_ix_lookup b x Hwf Hbyte) as (w & Hw & _).
    exists (group_bytes (word_ix x) w). split; [by eexists _, _|].
    apply elem_of_group; [by apply word_ix_lt|]. exists (x mod 64).
    pose proof (Z.mod_pos_bound x 64). rewrite GetBit_testbit, Hw in Hg by apply Hbyte.
    split_and!; [lia..|done|]. unfold word_ix. rewrite Z.shiftr_div_pow2 by lia.
    change (2 ^ 6) with 64. pose proof (Z.div_mod x 64).
    assert (0 <= x / 64) by (apply Z.div_pos; unfold is_byte in *; lia). lia.
Qed.

Lemma group_length bi g : Z.of_nat (length (group_bytes bi g)) = if g =? 0 then 0 else OnesCount64 g.
Proof. unfold group_bytes, OnesCount64. destruct (g =? 0); [done|]. by rewrite length_fmap. Qed.

Lemma OnesCount_acc (b : Bitfield256) l (f : nat -> Z -> list Z) : (forall i g, Z.of_nat (length (f i g)) = if g =? 0 then 0 else OnesCount64 g) ->
  foldl (fun l g => if g =? 0 then l else l + OnesCount64 g) l b =
  l + Z.of_nat (length (concat (imap f b))).
Proof.
  revert l f. induction b as [|g b IH]; intros l f Hf; simpl; [lia|].
  rewrite (IH _ (f ∘ S)) by (intros; apply Hf).
  rewrite length_app, Nat2Z.inj_add, Hf. destruct (g =? 0); lia.
Qed.

(** [OnesCount] is the size of the set: the capacity [ToSlice] allocates is exact. *)
Lemma OnesCount_members b : OnesCount b = Z.of_nat (length (members b)).
Proof. unfold OnesCount, members. rewrite (OnesCount_acc b 0 group_bytes); [lia|apply group_length]. Qed.

Lemma ToSlice_members b : ToSlice b = members b.
Proof.
  unfold ToSlice. rewrite OnesCount_members. destruct (Z.eqb_spec (Z.of_nat (length (members b))) 0) as [E|]; [|done].
  destruct (members b); [done|]. simpl in E. lia.
Qed.

(** The scan of [Mask] over a list of bytes. *)
Fixpoint scan (v : Z) (l : list Z) (st : bool * bool) : option (bool * bool) :=
  match l with
  | [] => Some st
  | x :: l => match mask_visit v x st with None => None | Some st => scan v l st end
  end.

Lemma scan_app v l k st :
  scan v (l ++ k) st = match scan v l st with None => None | Some st => scan v k st end.
Proof. revert st. induction l as [|x l IH]; intros st; simpl; [done|]. destruct (mask_visit _ _ _); auto. Qed.

Lemma mask_bits_scan v bi g bits st : (bi < 4)%nat -> (forall bit, bit ∈ bits -> 0 <= bit < 64) ->
  mask_bits v (Z.shiftl (Z.of_nat bi) 6) g bits st =
  scan v ((fun bit => u8 (Z.lor (Z.shiftl (Z.of_nat bi) 6) bit)) <$>
            filter (fun bit => has_bit g bit = true) bits) st.
Proof.
  intros Hbi. revert st. induction bits as [|bit bits IH]; intros st Hin; [done|].
  rewrite filter_cons. cbn [mask_bits].
  assert (Hb : 0 <= bit < 64) by (apply Hin; left).
  assert (Hrest : forall x, x ∈ bits -> 0 <= x < 64) by (intros; apply Hin; by right).
  destruct (has_bit g bit); simpl; [|by apply IH].
  rewrite (wrap_id 8) by (rewrite group_lor by lia; unfold fits; lia).
  destruct (mask_visit _ _ _); auto.
Qed.

Lemma mask_groups_scan v i b st : (i + length b <= 4)%nat ->
  mask_groups v i b st = scan v (concat (imap (fun k g => group_bytes (i + k) g) b)) st.
Proof.
  revert i st. induction b as [|g b IH]; intros i st Hl; [done|].
  cbn [length] in Hl. cbn [mask_groups imap concat]. rewrite scan_app, Nat.add_0_r.
  assert (E : imap ((fun k g => group_bytes (i + k) g) ∘ S) b = imap (fun k g => group_bytes (S i + k) g) b).
  { apply imap_ext. intros k x _. simpl. by rewrite Nat.add_succ_r. }
  rewrite E. unfold group_bytes at 1. destruct (g =? 0); cbn [scan].
  - apply IH. lia.
  - rewrite mask_bits_scan; [|lia|].
    + destruct (scan v _ st); [|done]. apply IH. lia.
    + intros bit Hb. apply elem_of_seqZ in Hb. lia.
Qed.

Lemma mask_groups_members v b : bf_wf b -> mask_groups v 0 b (true, false) = scan v (members b) (true, false).
Proof. intros [Hl _]. rewrite mask_groups_scan by lia. done. Qed.

Lemma mask_visit_bit i x st : 0 <= i ->
  mask_visit (Z.shiftl 1 i) x st =
  if (st.1 : bool) then Some (false, Z.testbit x i)
  else if Bool.eqb st.2 (Z.testbit x i) then Some (false, st.2) else None.
Proof. intros. destruct st as [f h]. unfold mask_visit. by rewrite land_pow2. Qed.

Lemma scan_started i l h : 0 <= i ->
  (scan (Z.shiftl 1 i) l (false, h) = Some (false, h) /\ forall x, x ∈ l -> Z.testbit x i = h) \/
  (scan (Z.shiftl 1 i) l (false, h) = None /\ exists x, x ∈ l /\ Z.testbit x i <> h).
Proof.
  intros Hi. induction l as [|y l IH]; simpl; [left; split; [done|]; intros x Hx; inversion Hx|].
  rewrite land_pow2 by done. destruct (Bool.eqb_spec h (Z.testbit y i)) as [E|E].
  - destruct IH as [[-> H]|[-> (x & Hx & Hn)]].
    + left. split; [done|]. intros x Hx. apply elem_of_cons in Hx as [->|Hx]; [done|]. by apply H.
    + right. split; [done|]. exists x. split; [by right|done].
  - right. split; [done|]. exists y. split; [left|congruence].
Qed.

(** One scan: all bytes agree on bit [i], or two of them differ there. *)
Lemma scan_spec i l : 0 <= i ->
  match scan (Z.shiftl 1 i) l (true, false) with
  | Some (_, h) => forall x, x ∈ l -> Z.testbit x i = h
  | None => exists x y, x ∈ l /\ y ∈ l /\ Z.testbit x i <> Z.testbit y i
  end /\ (l = [] -> scan (Z.shiftl 1 i) l (true, false) = Some (true, false)).
Proof.
  intros Hi. split; [|by intros ->]. destruct l as [|y l]; [simpl; intros x Hx; inversion Hx|].
  simpl. rewrite land_pow2 by done.
  destruct (scan_started i l (Z.testbit y i) Hi) as [[-> H]|[-> (x & Hx & Hn)]].
  - intros x Hx. apply elem_of_cons in Hx as [->|Hx]; [done|]. by apply H.
  - exists x, y. split_and!; [by right|left|done].
Qed.

(** What [Mask] promises about a set of bytes [l]. *)
Definition mask_spec (l : list Z) (ones value : Z) : Prop :=
  0 <= ones <= 8 /\ fits 8 value /\
  (forall x i, x ∈ l -> 8 - ones <= i < 8 -> Z.testbit x i = Z.testbit value i) /\
  (forall i, i < 8 - ones -> Z.testbit value i = false) /\
  (ones < 8 -> exists x y, x ∈ l /\ y ∈ l /\ Z.testbit x (7 - ones) <> Z.testbit y (7 - ones)).

Lemma mask_loop_spec n b value : bf_wf b -> (n <= 8)%nat -> fits 8 value ->
  (forall x i, x ∈ members b -> Z.of_nat n <= i < 8 -> Z.testbit x i = Z.testbit value i) ->
  (forall i, i < Z.of_nat n -> Z.testbit value i = false) ->
  mask_spec (members b) (mask_loop n b value).1 (mask_loop n b value).2.
Proof.
  intros Hwf. revert value. induction n as [|n IH]; intros value Hn Hfit Hagree Hlow.
  { simpl. split_and!; try done; lia. }
  cbn [mask_loop]. rewrite mask_groups_members by done.
  pose proof (proj1 (scan_spec (Z.of_nat n) (members b) ltac:(lia))) as Hs.
  destruct (scan _ _ _) as [[f h]|]; simpl.
  2:{ split_and!; try done; try lia.
      - intros x i Hx Hi. apply Hagree; [done|lia].
      - intros i Hi. apply Hlow. lia.
      - intros _. by replace (7 - (7 - Z.of_nat n)) with (Z.of_nat n) by lia. }
  assert (Hv : forall i, 0 <= i -> Z.testbit (u8 (Z.shiftl 1 (Z.of_nat n))) i = bool_decide (i = Z.of_nat n)).
  { intros i Hi. rewrite Z.shiftl_1_l, wrap_id.
    - case_bool_decide as C; [subst; apply Z.pow2_bits_true; lia|apply Z.pow2_bits_false; lia].
    - split; [lia|]. apply Z.pow_lt_mono_r; lia. }
  apply IH; [lia|..].
  - destruct h; [|done]. apply fits_lor; [lia|done|]. by apply wrap_fits.
  - intros x i Hx Hi. destruct (decide (i = Z.of_nat n)) as [->|Hne].
    + rewrite (Hs x Hx). destruct h.
      * by rewrite Z.lor_spec, Hv, bool_decide_eq_true_2, orb_true_r by (done || lia).
      * symmetry. apply Hlow. lia.
    + rewrite (Hagree x i Hx ltac:(lia)). destruct h; [|done].
      by rewrite Z.lor_spec, Hv, bool_decide_eq_false_2, orb_false_r by (done || lia).
  - intros i Hi. destruct (Z.lt_ge_cases i 0); [by apply Z.testbit_neg_r|].
    destruct h; [|apply Hlow; lia].
    rewrite Z.lor_spec, Hv, bool_decide_eq_false_2, orb_false_r by lia. apply Hlow. lia.
Qed.

Lemma Mask_members b : bf_wf b -> mask_spec (members b) (Mask b).1 (Mask b).2.
Proof.
  intros Hwf. apply mask_loop_spec; [done|lia|decide_it| |intros; apply Z.bits_0].
  intros x i Hx Hi. lia.
Qed.
