(* ===== verification/Subnet.v ===== *)
(** * Subnet computations (src/pkg/subnet/subnet.go)

    Covering prefixes of a set of pod addresses, the containment test between
    subnets, removal of covered subnets in place, and the search for a free
    private IPv4 subnet.  Go slices are lists; Go maps are [gmap]s, and the one
    result that depends on map iteration order is sorted before it is returned. *)
From S2P Require Import Prelude NetIP Bitfield.

(** ** CoveringPrefixes *)
Record cover_state := {
  cs_v4 : gmap (list Z) Bitfield256;          (* ipv4Subnets *)
  cs_v6 : gmap (list Z) (list Bitfield256)    (* ipv6Subnets, seven sets each *)
}.

Definition set7 (sets : list Bitfield256) (ip16 : list Z) : list Bitfield256 :=
  imap (fun i s => SetBit s (default 0 (ip16 !! (i + 8)%nat))) sets.

(** One round of the loop over [addrs]. *)
Definition cover_add (st : cover_state) (ip : Addr) : cover_state :=
  match ip with
  | AddrZero => st
  | Addr4 v =>
      let ip4 := be_bytes 4 v in
      let r := take 2 ip4 in
      let bytes := default bf_empty (cs_v4 st !! r) in
      {| cs_v4 := <[r := SetBit bytes (default 0 (ip4 !! 2%nat))]> (cs_v4 st); cs_v6 := cs_v6 st |}
  | Addr6 _ _ =>
      let ip16 := As16 ip in
      let r := take 8 ip16 in
      let byteSets := default (replicate 7 bf_empty) (cs_v6 st !! r) in
      {| cs_v4 := cs_v4 st; cs_v6 := <[r := set7 byteSets ip16]> (cs_v6 st) |}
  end.

Definition cover_prefix4 (nb : list Z * Bitfield256) : Prefix :=
  let '(ones, thirdByte) := Mask nb.2 in
  PrefixFrom (AddrFrom4 (nb.1 ++ [thirdByte; 0])) (16 + ones).

(** The loop over the seven byte sets of an IPv6 subnet. *)
Fixpoint cover_loop6 (bi : nat) (byteSets : list Bitfield256) (maskOnes : Z) (ip : list Z) : Z * list Z :=
  match byteSets with
  | [] => (maskOnes, ip)
  | bytes :: rest =>
      let '(ones, nByte) := Mask bytes in
      let ip := <[(8 + bi)%nat := nByte]> ip in
      if ones =? 8 then cover_loop6 (S bi) rest (maskOnes + ones) ip else (maskOnes + ones, ip)
  end.

Definition cover_prefix6 (nb : list Z * list Bitfield256) : Prefix :=
  let '(maskOnes, ip) := cover_loop6 0 nb.2 64 (nb.1 ++ replicate 8 0) in
  PrefixFrom (AddrFrom16 ip) maskOnes.

Definition pfx_addr_le (p q : Prefix) : Prop := a_le (pfx_Addr p) (pfx_Addr q).
Global Instance pfx_addr_le_dec : RelDecision pfx_addr_le.
Proof. intros p q. unfold pfx_addr_le. apply _. Defined.

Definition CoveringPrefixes (addrs : list Addr) : list Prefix :=
  let st := foldl cover_add {| cs_v4 := ∅; cs_v6 := ∅ |} addrs in
  merge_sort pfx_addr_le
    ((cover_prefix4 <$> map_to_list (cs_v4 st)) ++ (cover_prefix6 <$> map_to_list (cs_v6 st))).

(** ** Covers *)
Definition Covers (a b : Prefix) : bool :=
  if negb (p_IsValid a && p_IsValid b) then false
  else if bool_decide (a = b) then true
  else if negb (Bool.eqb (Is4 (pfx_Addr a)) (Is4 (pfx_Addr b))) then false
  else
    let bts := pfx_Bits a in
    if pfx_Bits b <? bts then false
    else if 0 <? bts then
      match a_Prefix (pfx_Addr a) bts with
      | None => false
      | Some a' =>
          match a_Prefix (pfx_Addr b) bts with
          | None => false
          | Some b' => bool_decide (pfx_Addr a' = pfx_Addr b')
          end
      end
    else bool_decide (pfx_Addr a = pfx_Addr b).

(** ** Unique

    The outer loop works on the slice in place; [subnets] is the backing array,
    [ln] the live length and [i] the loop index.  Each round either advances [i]
    or shortens [ln], so [ln - i] rounds are enough. *)
Definition covered_by_other (subnets : list Prefix) (ln i : nat) : bool :=
  existsb (fun r => negb (Nat.eqb r i) &&
             Covers (default PrefixZero (subnets !! r)) (default PrefixZero (subnets !! i)))
          (seq 0 ln).

Fixpoint unique_loop (fuel : nat) (subnets : list Prefix) (ln i : nat) : list Prefix * nat :=
  match fuel with
  | O => (subnets, ln)
  | S fuel =>
      if Nat.ltb i ln then
        if covered_by_other subnets ln i then
          let ln := pred ln in
          if Nat.ltb i ln
          then unique_loop fuel (<[i := default PrefixZero (subnets !! ln)]> subnets) ln i
          else unique_loop fuel subnets ln (S i)
        else unique_loop fuel subnets ln (S i)
      else (subnets, ln)
  end.

Definition Unique (subnets : list Prefix) : list Prefix :=
  let '(s, ln) := unique_loop (length subnets) subnets (length subnets) 0 in take ln s.

(** ** Partition *)
Fixpoint partition_loop {T} (i : nat) (subnets : list T) (filter : nat -> T -> bool)
    (matched notMatched : list T) : list T * list T :=
  match subnets with
  | [] => (matched, notMatched)
  | sn :: subnets =>
      if filter i sn then partition_loop (S i) subnets filter (matched ++ [sn]) notMatched
      else partition_loop (S i) subnets filter matched (notMatched ++ [sn])
  end.
Definition Partition {T} (subnets : list T) (filter : nat -> T -> bool) : list T * list T :=
  partition_loop 0 subnets filter [] [].

(** ** RandomIPv4Prefix *)

(** The loop of [incIP4] over byte indices 2, 1, 0. *)
Fixpoint inc_loop (n : nat) (ipc : list Z) (ip fin : Addr) : Addr :=
  match n with
  | O => ip
  | S i =>
      let b := default 0 (ipc !! i) in
      if b <? 255 then
        let ip := AddrFrom4 (<[i := b + 1]> ipc) in
        if negb (a_Less ip fin) then AddrZero else ip
      else inc_loop i (<[i := 0]> ipc) ip fin
  end.

(** [incIP4]; [As4] panics on an address that is not IPv4. *)
Definition incIP4 (ip fin : Addr) : option Addr :=
  ipc ← As4 ip; Some (inc_loop 3 (<[3%nat := 0]> ipc) ip fin).

Inductive subnet_error := ErrInterfaceAddrs | ErrNoFreeSubnet.

Definition range_pairs : list (Addr * Addr) :=
  [ (AddrFrom4 [192; 168; 0; 0], AddrFrom4 [192; 169; 0; 0]);
    (AddrFrom4 [172; 16; 0; 0], AddrFrom4 [172; 32; 0; 0]);
    (AddrFrom4 [10; 0; 0; 0], AddrFrom4 [11; 0; 0; 0]) ].

(** The candidate subnet at [ip]: last byte 1. *)
Definition candidate (ip : Addr) (bits : Z) : option Prefix :=
  ip1 ← As4 ip; Some (PrefixFrom (AddrFrom4 (<[3%nat := 1]> ip1)) bits).

Inductive search_result := Found (p : Prefix) | Exhausted | SearchPanic | OutOfFuel.

(** The [for] loop over one range. *)
Fixpoint range_search (fuel : nat) (bits : Z) (avoid : list Prefix) (ip fin : Addr) : search_result :=
  match fuel with
  | O => OutOfFuel
  | S fuel =>
      match candidate ip bits with
      | None => SearchPanic
      | Some sn =>
          if negb (existsb (fun cidr => p_Overlaps cidr sn) avoid) then Found sn
          else match incIP4 ip fin with
               | None => SearchPanic
               | Some ip => if negb (a_IsValid ip) then Exhausted else range_search fuel bits avoid ip fin
               end
      end
  end.

Fixpoint ranges_search (fuel : nat) (bits : Z) (avoid : list Prefix) (ranges : list (Addr * Addr)) : search_result :=
  match ranges with
  | [] => Exhausted
  | (ip, fin) :: ranges =>
      match range_search fuel bits avoid ip fin with
      | Exhausted => ranges_search fuel bits avoid ranges
      | r => r
      end
  end.

(** [ifaddrs] is what the operating system reports: [net.InterfaceAddrs] and,
    per address, the result of [netip.ParsePrefix] on its text. *)
Definition RandomIPv4Prefix_fuel (fuel : nat) (ifaddrs : option (list (option Prefix))) (bits : Z) (avoid : list Prefix) :
    Go subnet_error Prefix :=
  match ifaddrs with
  | None => Fail ErrInterfaceAddrs
  | Some as_ =>
      let cidrs := omap id as_ in
      match ranges_search fuel bits (Unique (cidrs ++ avoid)) range_pairs with
      | Found p => Ret p
      | Exhausted => Fail ErrNoFreeSubnet
      | SearchPanic | OutOfFuel => Panic
      end
  end.

(** A range holds at most 65536 candidates (10.0.0.0/8). *)
Definition range_fuel : nat := Z.to_nat 65536.
Definition RandomIPv4Prefix := RandomIPv4Prefix_fuel range_fuel.

Definition IsHalfOfDefault (n : Prefix) : bool := pfx_Bits n =? 1.

(** [net.CIDRMask]: [ones] one bits followed by zeros, [bits] in all. *)
Definition CIDRMask (ones bits : Z) : list Z := be_bytes (Z.to_nat (bits / 8)) (keep_top bits ones (Z.ones bits)).

(** [PrefixToIPNet]: address bytes and mask; [None] is nil. *)
Definition PrefixToIPNet (p : Prefix) : option (list Z * list Z) :=
  if negb (p_IsValid p) then None
  else Some (AsSlice (pfx_Addr p), CIDRMask (pfx_Bits p) (BitLen (pfx_Addr p))).
