(* ===== verification/SubnetSpec.v ===== *)
(** * What the subnet computations promise (src/pkg/subnet/subnet.go)

    [Covers] is containment of address ranges for every mask but /0; [Unique]
    keeps the union of its argument and leaves no subnet covered by another;
    [RandomIPv4Prefix] returns a subnet that overlaps none to avoid and
    fails only when every candidate overlaps one. *)
From S2P Require Import Prelude NetIP Bitfield Subnet.

(** ** Prefixes of one family *)

(** Width and value of a valid address. *)
Definition addr_val (a : Addr) : Z := match a with AddrZero => 0 | Addr4 v => v | Addr6 v _ => v end.

Lemma addr_zoneless_eq a b : hasZone a = false -> hasZone b = false ->
  BitLen a = BitLen b -> addr_val a = addr_val b -> a = b.
Proof.
  destruct a as [|v|v z], b as [|u|u y]; simpl; try done; intros; subst; try done.
  - by bools; subst.
Qed.

Lemma net_value_val p : net_value p = Z.shiftr (addr_val (pfx_Addr p)) (BitLen (pfx_Addr p) - pfx_Bits p).
Proof. unfold net_value. destruct (pfx_Addr p); simpl; [by rewrite Z.shiftr_0_l|done..]. Qed.

Lemma valid_bits p : pfx_wf p -> p_IsValid p = true ->
  0 <= pfx_Bits p <= BitLen (pfx_Addr p) /\ pfx_Addr p <> AddrZero.
Proof. unfold p_IsValid. intros (_ & _ & [E|H]) V; bools; [lia|done]. Qed.

Lemma Is4_BitLen a b : a <> AddrZero -> b <> AddrZero ->
  Is4 a = Is4 b <-> BitLen a = BitLen b.
Proof. by destruct a, b; simpl. Qed.

Lemma a_Prefix_val a b p : a <> AddrZero -> a_Prefix a b = Some p ->
  0 <= b <= BitLen a /\ hasZone (pfx_Addr p) = false /\ BitLen (pfx_Addr p) = BitLen a /\
  addr_val (pfx_Addr p) = keep_top (BitLen a) b (addr_val a).
Proof.
  unfold a_Prefix. destruct (Z.ltb_spec b 0); [done|].
  destruct a as [|v|v z]; simpl; [done|..]; intros _.
  - destruct (Z.ltb_spec 32 b); [done|]. intros [= <-]. simpl. split_and!; done || lia.
  - destruct (Z.ltb_spec 128 b); [done|]. intros [= <-]. simpl. split_and!; done || lia.
Qed.

Lemma a_Prefix_Some a b : 0 <= b <= BitLen a -> exists p, a_Prefix a b = Some p.
Proof.
  intros H. unfold a_Prefix. destruct (Z.ltb_spec b 0); [lia|].
  destruct a; simpl in *; eauto.
  - destruct (Z.ltb_spec 32 b); [lia|]. eauto.
  - destruct (Z.ltb_spec 128 b); [lia|]. eauto.
Qed.

(** Comparing two addresses masked to the same length. *)
Lemma masked_eq a b n p q : a <> AddrZero -> b <> AddrZero -> BitLen a = BitLen b ->
  a_Prefix a n = Some p -> a_Prefix b n = Some q ->
  pfx_Addr p = pfx_Addr q <-> Z.shiftr (addr_val a) (BitLen a - n) = Z.shiftr (addr_val b) (BitLen a - n).
Proof.
  intros Ha Hb HL Hp Hq. apply a_Prefix_val in Hp as (Hn & Zp & Lp & Vp); [|done].
  apply a_Prefix_val in Hq as (_ & Zq & Lq & Vq); [|done].
  rewrite <- keep_top_eq by lia. rewrite <- Vp. rewrite HL, <- Vq. split; [by intros ->|].
  intros. apply addr_zoneless_eq; congruence.
Qed.

(** [Contains] as a statement about values. *)
Lemma Contains_val p a : pfx_wf p -> p_Contains p a = true <->
  p_IsValid p = true /\ hasZone a = false /\ BitLen a = BitLen (pfx_Addr p) /\ a <> AddrZero /\
  Z.shiftr (addr_val a) (BitLen (pfx_Addr p) - pfx_Bits p) =
  Z.shiftr (addr_val (pfx_Addr p)) (BitLen (pfx_Addr p) - pfx_Bits p).
Proof.
  intros _. rewrite Contains_spec, !net_value_val. simpl.
  split; intros (? & ? & HL & ? & E); rewrite HL in *; by split_and!.
Qed.

Lemma Contains_own p : pfx_wf p -> p_IsValid p = true -> p_Contains p (pfx_Addr p) = true.
Proof.
  intros Hwf V. apply Contains_val; [done|]. destruct (valid_bits p Hwf V). destruct Hwf as (_ & Hz & _).
  naive_solver.
Qed.

(** Containment of the prefix [b] in [a], on values. *)
Definition range_in (a b : Prefix) : Prop :=
  BitLen (pfx_Addr a) = BitLen (pfx_Addr b) /\ pfx_Bits a <= pfx_Bits b /\
  Z.shiftr (addr_val (pfx_Addr a)) (BitLen (pfx_Addr a) - pfx_Bits a) =
  Z.shiftr (addr_val (pfx_Addr b)) (BitLen (pfx_Addr a) - pfx_Bits a).

Lemma range_in_Contains a b ip : pfx_wf a -> pfx_wf b -> p_IsValid a = true -> range_in a b ->
  p_Contains b ip = true -> p_Contains a ip = true.
Proof.
  intros Ha Hb Va (HL & Hbits & Hv) Hc.
  apply Contains_val in Hc as (Vb & Hz & Hl & Hne & E); [|done].
  destruct (valid_bits a Ha Va), (valid_bits b Hb Vb).
  apply Contains_val; [done|]. split_and!; [done..|congruence|done|].
  rewrite Hv. rewrite HL. eapply shiftr_mono; [|exact E]. lia.
Qed.

(** [Covers] on values: a /0 prefix only covers prefixes at its own address. *)
Lemma Covers_range_in a b : pfx_wf a -> pfx_wf b -> p_IsValid a = true -> p_IsValid b = true ->
  0 < pfx_Bits a -> Covers a b = true <-> range_in a b.
Proof.
  intros Ha Hb Va Vb H0. destruct (valid_bits a Ha Va) as [Ba Na], (valid_bits b Hb Vb) as [Bb Nb].
  unfold Covers, range_in. rewrite Va, Vb. simpl. case_bool_decide as Eab.
  { subst. split; [|done]. intros _. split_and!; [done|lia|done]. }
  destruct (Bool.eqb_spec (Is4 (pfx_Addr a)) (Is4 (pfx_Addr b))) as [E4|E4]; simpl.
  2:{ split; [done|]. intros (HL & _). apply Is4_BitLen in HL; done. }
  apply Is4_BitLen in E4; [|done..].
  destruct (Z.ltb_spec (pfx_Bits b) (pfx_Bits a)); [split; [done|lia]|].
  destruct (Z.ltb_spec 0 (pfx_Bits a)); [|lia].
  destruct (a_Prefix_Some (pfx_Addr a) (pfx_Bits a)) as [p Hp]; [lia|].
  destruct (a_Prefix_Some (pfx_Addr b) (pfx_Bits a)) as [q Hq]; [lia|].
  rewrite Hp, Hq, bool_decide_eq_true. rewrite (masked_eq _ _ _ _ _ Na Nb E4 Hp Hq).
  naive_solver lia.
Qed.

Lemma Covers_valid a b : Covers a b = true -> p_IsValid a = true /\ p_IsValid b = true.
Proof. unfold Covers. destruct (p_IsValid a), (p_IsValid b); simpl; done. Qed.

(** What [Covers] accepts is contained. *)
Lemma Covers_Contains a b ip : pfx_wf a -> pfx_wf b -> Covers a b = true ->
  p_Contains b ip = true -> p_Contains a ip = true.
Proof.
  intros Ha Hb Hc. destruct (Covers_valid a b Hc) as [Va Vb].
  destruct (valid_bits a Ha Va) as [Ba Na], (valid_bits b Hb Vb) as [Bb Nb].
  apply range_in_Contains; [done..|].
  destruct (decide (0 < pfx_Bits a)) as [Hpos|Hz]; [by apply Covers_range_in|].
  revert Hc. unfold Covers, range_in. rewrite Va, Vb. simpl. case_bool_decide as Eab.
  { subst. intros _. split_and!; [done|lia|done]. }
  destruct (Bool.eqb_spec (Is4 (pfx_Addr a)) (Is4 (pfx_Addr b))) as [E4|]; [|done].
  apply Is4_BitLen in E4; [|done..]. simpl.
  destruct (Z.ltb_spec (pfx_Bits b) (pfx_Bits a)); [done|].
  destruct (Z.ltb_spec 0 (pfx_Bits a)); [lia|]. intros E%bool_decide_eq_true.
  split_and!; [done|lia|]. by rewrite E.
Qed.

(** The containing range is detected, unless its mask is /0. *)
Lemma range_in_of_Contains a b : pfx_wf a -> pfx_wf b -> p_IsValid a = true -> p_IsValid b = true ->
  (forall ip, addr_wf ip -> p_Contains b ip = true -> p_Contains a ip = true) -> range_in a b.
Proof.
  intros Ha Hb Va Vb H.
  destruct (valid_bits a Ha Va) as [Ba Na], (valid_bits b Hb Vb) as [Bb Nb].
  pose proof (H _ (proj1 Hb) (Contains_own b Hb Vb)) as Hown.
  apply Contains_val in Hown as (_ & _ & HL & _ & E); [|done].
  split_and!; [done| |done].
  destruct (Z.le_gt_cases (pfx_Bits a) (pfx_Bits b)) as [|Hgt]; [done|exfalso].
  (* flip the bit just below b's mask: still in b, no longer in a *)
  set (w := BitLen (pfx_Addr a)) in *. set (k := w - pfx_Bits b - 1).
  set (x := addr_val (pfx_Addr b)) in *.
  assert (Hxf : fits w x).
  { unfold x. rewrite <- HL. destruct Hb as (Hbw & _ & _). destruct (pfx_Addr b); done. }
  set (y := Z.lxor x (2 ^ k)).
  assert (Hk : 0 <= k < w) by lia.
  assert (Hyf : fits w y).
  { apply fits_bits; [lia|apply Z.lxor_nonneg; unfold fits in *; lia|]. intros i Hi. unfold y.
    rewrite Z.lxor_spec, (testbit_high w x), Z.pow2_bits_false by (done || lia). done. }
  assert (Hy : exists ip, addr_wf ip /\ hasZone ip = false /\ BitLen ip = w /\ ip <> AddrZero /\ addr_val ip = y).
  { clearbody y. destruct (pfx_Addr b) eqn:Eb; [done|..]; simpl in HL; rewrite <- HL in Hyf |- *.
    - by exists (Addr4 y).
    - by exists (Addr6 y ""). }
  destruct Hy as (ip & Hiw & Hiz & Hil & Hin & Hiv).
  assert (Hcb : p_Contains b ip = true).
  { apply Contains_val; [done|]. split_and!; [done..|lia|done|]. rewrite Hiv. fold x. rewrite HL.
    apply bits_ext. intros i Hi. rewrite !Z.shiftr_spec by done. unfold y.
    rewrite Z.lxor_spec, Z.pow2_bits_false by lia. apply xorb_false_r. }
  apply (H _ Hiw) in Hcb. apply Contains_val in Hcb as (_ & _ & _ & _ & E'); [|done].
  fold w in E'. rewrite <- E, Hiv in E'.
  apply (f_equal (fun z => Z.testbit z (k - (w - pfx_Bits a)))) in E'.
  rewrite !Z.shiftr_spec in E' by lia.
  replace (k - (w - pfx_Bits a) + (w - pfx_Bits a)) with k in E' by lia.
  unfold y in E'. rewrite Z.lxor_spec, Z.pow2_bits_true in E' by lia.
  destruct (Z.testbit x k); done.
Qed.

(** ** Overlaps *)
Lemma Overlaps_val p o : pfx_wf p -> pfx_wf o ->
  p_Overlaps p o = true <->
  p_IsValid p = true /\ p_IsValid o = true /\ BitLen (pfx_Addr p) = BitLen (pfx_Addr o) /\
  let s := BitLen (pfx_Addr p) - Z.min (pfx_Bits p) (pfx_Bits o) in
  Z.shiftr (addr_val (pfx_Addr p)) s = Z.shiftr (addr_val (pfx_Addr o)) s.
Proof.
  intros Hp Ho. unfold p_Overlaps.
  destruct (p_IsValid p) eqn:Vp, (p_IsValid o) eqn:Vo; simpl; try (split; [done|naive_solver]).
  destruct (valid_bits p Hp Vp) as [Bp Np], (valid_bits o Ho Vo) as [Bo No].
  case_bool_decide as E; [subst; split; done|].
  destruct (Bool.eqb_spec (Is4 (pfx_Addr p)) (Is4 (pfx_Addr o))) as [E4|E4]; simpl.
  2:{ split; [done|]. intros (_ & _ & HL & _). by apply Is4_BitLen in HL. }
  apply Is4_BitLen in E4; [|done..].
  destruct (Z.eqb_spec (Z.min (pfx_Bits p) (pfx_Bits o)) 0) as [->|Hmin].
  - split; [|done]. intros _. split_and!; [done..|]. rewrite Z.sub_0_r.
    assert (Hz : forall a, addr_wf a -> Z.shiftr (addr_val a) (BitLen a) = 0).
    { intros [|v|v z]; simpl; [done|..]; intros [? ?]; rewrite Z.shiftr_div_pow2 by lia; by apply Z.div_small. }
    rewrite Hz by apply Hp. rewrite E4. symmetry. apply Hz, Ho.
  - destruct (a_Prefix_Some (pfx_Addr p) (Z.min (pfx_Bits p) (pfx_Bits o))) as [p' Hp']; [lia|].
    destruct (a_Prefix_Some (pfx_Addr o) (Z.min (pfx_Bits p) (pfx_Bits o))) as [o' Ho']; [lia|].
    rewrite Hp', Ho', bool_decide_eq_true, (masked_eq _ _ _ _ _ Np No E4 Hp' Ho'). naive_solver.
Qed.

(** Two prefixes overlap when an address is in both. *)
Lemma Overlaps_Contains p o : pfx_wf p -> pfx_wf o ->
  p_Overlaps p o = true <-> exists ip, p_Contains p ip = true /\ p_Contains o ip = true.
Proof.
  intros Hp Ho. rewrite Overlaps_val by done. split.
  - intros (Vp & Vo & HL & E). simpl in E.
    destruct (Z.le_gt_cases (pfx_Bits p) (pfx_Bits o)) as [Hle|Hgt].
    + exists (pfx_Addr o). split; [|by apply Contains_own].
      rewrite Z.min_l in E by done. apply (range_in_Contains p o); [done..| |by apply Contains_own].
      by split_and!.
    + exists (pfx_Addr p). split; [by apply Contains_own|].
      rewrite Z.min_r in E by lia. apply (range_in_Contains o p); [done..| |by apply Contains_own].
      split_and!; [done|lia|]. rewrite <- HL. done.
  - intros (ip & Cp & Co).
    apply Contains_val in Cp as (Vp & _ & Lp & _ & Ep); [|done].
    apply Contains_val in Co as (Vo & _ & Lo & _ & Eo); [|done].
    destruct (valid_bits p Hp Vp), (valid_bits o Ho Vo).
    split_and!; [done..|congruence|]. simpl.
    rewrite Lp in Lo. rewrite <- Lo in Eo.
    apply (shiftr_mono _ (BitLen (pfx_Addr p) - Z.min (pfx_Bits p) (pfx_Bits o))) in Ep, Eo; [|lia..].
    congruence.
Qed.

(** ** Unique *)
Abbreviation nth_pfx s i := (default PrefixZero ((s : list Prefix) !! (i : nat))).

(** No live subnet before [k] is covered by another live subnet. *)
Definition uncovered_below (s : list Prefix) (ln k : nat) : Prop :=
  forall j r, (j < k)%nat -> (j < ln)%nat -> (r < ln)%nat -> r <> j -> Covers (nth_pfx s r) (nth_pfx s j) = false.

Lemma covered_by_other_true s ln i : covered_by_other s ln i = true <->
  exists r, (r < ln)%nat /\ r <> i /\ Covers (nth_pfx s r) (nth_pfx s i) = true.
Proof.
  unfold covered_by_other. rewrite existsb_exists. setoid_rewrite in_seq.
  setoid_rewrite andb_true_iff. setoid_rewrite negb_true_iff. setoid_rewrite Nat.eqb_neq.
  split; [intros (r & ? & ? & ?)|intros (r & ? & ? & ?)]; exists r; split_and!; done || lia.
Qed.

Lemma covered_by_other_false s ln i : covered_by_other s ln i = false ->
  forall r, (r < ln)%nat -> r <> i -> Covers (nth_pfx s r) (nth_pfx s i) = false.
Proof.
  intros H r Hr Hne. apply not_true_iff_false. intros C.
  apply not_true_iff_false in H. apply H. apply covered_by_other_true. eauto.
Qed.

(** Removing index [i] by moving the last live element into its place. *)
Definition swap_out (s : list Prefix) (ln i : nat) : list Prefix :=
  if Nat.ltb i (pred ln) then <[i := nth_pfx s (pred ln)]> s else s.

Lemma take_last s ln : (0 < ln <= length s)%nat -> take ln s = take (pred ln) s ++ [nth_pfx s (pred ln)].
Proof.
  intros H. destruct (lookup_lt_is_Some_2 s (pred ln)) as [x Hx]; [lia|].
  rewrite Hx. simpl. rewrite <- (take_S_r _ _ _ Hx). f_equal. lia.
Qed.

Lemma swap_out_perm s ln i : (i < ln <= length s)%nat ->
  Permutation (take ln s) (nth_pfx s i :: take (pred ln) (swap_out s ln i)).
Proof.
  intros H. rewrite take_last by lia. unfold swap_out.
  destruct (Nat.ltb_spec i (pred ln)) as [Hi|Hi].
  - rewrite take_insert_lt by lia. set (l := take (pred ln) s).
    assert (Hl : l !! i = Some (nth_pfx s i)).
    { unfold l. rewrite lookup_take_lt by lia. destruct (lookup_lt_is_Some_2 s i) as [x Hx]; [lia|].
      by rewrite Hx. }
    rewrite (insert_take_drop l) by (by eapply lookup_lt_Some).
    rewrite <- (take_drop_middle l i _ Hl) at 1. solve_Permutation.
  - replace (pred ln) with i by lia. solve_Permutation.
Qed.

Lemma swap_out_length s ln i : length (swap_out s ln i) = length s.
Proof. unfold swap_out. case_match; [apply length_insert|done]. Qed.

Lemma swap_out_nth s ln i j : (i < ln <= length s)%nat -> (j < pred ln)%nat ->
  nth_pfx (swap_out s ln i) j = nth_pfx s (if Nat.eqb j i then pred ln else j).
Proof.
  intros Hi Hj. unfold swap_out. destruct (Nat.ltb_spec i (pred ln)), (Nat.eqb_spec j i) as [->|Hne].
  - rewrite list_lookup_insert_eq by lia. done.
  - by rewrite list_lookup_insert_ne.
  - lia.
  - done.
Qed.

Lemma swap_out_uncovered s ln i : (i < ln <= length s)%nat ->
  uncovered_below s ln i -> uncovered_below (swap_out s ln i) (pred ln) i.
Proof.
  intros Hi Hu j r Hj Hjl Hr Hne. rewrite !swap_out_nth by (done || lia).
  destruct (Nat.eqb_spec j i); [lia|].
  destruct (Nat.eqb_spec r i); apply Hu; lia.
Qed.

(** The address sets of two lists of subnets. *)
Definition in_union (l : list Prefix) (ip : Addr) : Prop := exists p, p ∈ l /\ p_Contains p ip = true.

Lemma swap_out_union s ln i ip : Forall pfx_wf s -> (i < ln <= length s)%nat ->
  covered_by_other s ln i = true ->
  in_union (take ln s) ip <-> in_union (take (pred ln) (swap_out s ln i)) ip.
Proof.
  intros Hwf Hi (r & Hr & Hne & HC)%covered_by_other_true.
  pose proof (swap_out_perm s ln i Hi) as HP. unfold in_union. setoid_rewrite HP.
  setoid_rewrite elem_of_cons. split; [|naive_solver].
  intros (p & [->|Hp] & Hc); [|eauto].
  assert (Hnth : forall k, (k < ln)%nat -> pfx_wf (nth_pfx s k)).
  { intros k Hk. destruct (lookup_lt_is_Some_2 s k) as [x Hx]; [lia|]. rewrite Hx.
    by eapply Forall_lookup_1. }
  exists (nth_pfx s r). split.
  - set (j := if Nat.eqb r (pred ln) then i else r).
    assert (Hj : (j < pred ln)%nat) by (unfold j; destruct (Nat.eqb_spec r (pred ln)); lia).
    assert (E : nth_pfx (swap_out s ln i) j = nth_pfx s r).
    { rewrite swap_out_nth by lia. unfold j. f_equal. f_equal.
      destruct (Nat.eqb_spec r (pred ln)) as [->|]; [by rewrite Nat.eqb_refl|].
      destruct (Nat.eqb_spec r i); [done|done]. }
    rewrite <- E. destruct (lookup_lt_is_Some_2 (swap_out s ln i) j) as [x Hx]; [rewrite swap_out_length; lia|].
    rewrite Hx. simpl. apply list_elem_of_lookup. exists j. by rewrite lookup_take_lt by lia.
  - apply (Covers_Contains _ (nth_pfx s i)); [apply Hnth; lia..|exact HC|done].
Qed.

Lemma swap_out_wf s ln i : Forall pfx_wf s -> (0 < ln <= length s)%nat -> Forall pfx_wf (swap_out s ln i).
Proof.
  intros H Hl. unfold swap_out. case_match; [|done]. apply Forall_insert; [done|].
  destruct (lookup_lt_is_Some_2 s (pred ln)) as [x Hx]; [lia|]. rewrite Hx. by eapply Forall_lookup_1.
Qed.

Definition unique_post (s : list Prefix) (ln : nat) (r : list Prefix * nat) : Prop :=
  (r.2 <= length r.1)%nat /\
  (exists dropped, Permutation (take ln s) (take r.2 r.1 ++ dropped)) /\
  (forall ip, in_union (take ln s) ip <-> in_union (take r.2 r.1) ip) /\
  uncovered_below r.1 r.2 r.2.

Lemma unique_step fuel s ln i : unique_loop (S fuel) s ln i =
  if Nat.ltb i ln then
    if covered_by_other s ln i
    then unique_loop fuel (swap_out s ln i) (pred ln) (if Nat.ltb i (pred ln) then i else S i)
    else unique_loop fuel s ln (S i)
  else (s, ln).
Proof. simpl. unfold swap_out. by repeat case_match. Qed.

Lemma unique_loop_spec fuel s ln i : Forall pfx_wf s -> (ln <= length s)%nat -> (ln - i <= fuel)%nat ->
  uncovered_below s ln i -> unique_post s ln (unique_loop fuel s ln i).
Proof.
  revert s ln i. induction fuel as [|fuel IH]; intros s ln i Hwf Hl Hf Hu.
  { split_and!; simpl; [lia|exists []; by rewrite app_nil_r|done|].
    intros j r Hj. apply Hu. lia. }
  rewrite unique_step. destruct (Nat.ltb_spec i ln) as [Hi|Hi].
  2:{ split_and!; simpl; [lia|exists []; by rewrite app_nil_r|done|]. intros j r Hj. apply Hu. lia. }
  destruct (covered_by_other s ln i) eqn:HC.
  - assert (Hpre : unique_post (swap_out s ln i) (pred ln)
      (unique_loop fuel (swap_out s ln i) (pred ln) (if Nat.ltb i (pred ln) then i else S i))).
    { apply IH; [apply swap_out_wf; [done|lia]|rewrite swap_out_length; lia|case_match; lia|].
      intros j r Hj Hjl. refine (swap_out_uncovered s ln i _ Hu j r _ Hjl); [lia|].
      destruct (Nat.ltb_spec i (pred ln)); [done|lia]. }
    destruct Hpre as (H1 & (d & H2) & H3 & H4). split_and!; [done| | |done].
    + exists (nth_pfx s i :: d). rewrite (swap_out_perm s ln i) by lia. rewrite H2. solve_Permutation.
    + intros ip. rewrite (swap_out_union s ln i) by (done || lia). apply H3.
  - apply IH; [done|lia|lia|]. intros j r Hj Hjl Hr Hne.
    destruct (decide (j = i)) as [->|]; [by apply (covered_by_other_false s ln i)|apply Hu; lia].
Qed.

Lemma Unique_post s : Forall pfx_wf s ->
  (exists dropped, Permutation s (Unique s ++ dropped)) /\
  (forall ip, in_union s ip <-> in_union (Unique s) ip) /\
  (forall j r x y, Unique s !! j = Some x -> Unique s !! r = Some y -> r <> j -> Covers y x = false).
Proof.
  intros Hwf. destruct (unique_loop_spec (length s) s (length s) 0 Hwf) as (H1 & H2 & H3 & H4);
    [lia|lia|intros j r Hj; lia|].
  unfold Unique. destruct (unique_loop (length s) s (length s) 0) as [t ln]. simpl in *.
  rewrite take_ge in H2, H3 by lia. split_and!; [done|done|].
  intros j r x y Hx Hy Hne. apply lookup_take_Some in Hx as [Hx ?], Hy as [Hy ?].
  pose proof (H4 j r ltac:(done) ltac:(done) ltac:(done) Hne) as HC. by rewrite Hx, Hy in HC.
Qed.

(** ** Theorems on Covers and Unique *)

(** For every mask but /0, [Covers a b] answers whether the address range of [a]
    contains the whole address range of [b]. *)
Theorem Covers_iff_contains a b :
  pfx_wf a -> pfx_wf b -> p_IsValid a = true -> p_IsValid b = true -> 0 < pfx_Bits a ->
  Covers a b = true <-> forall ip, addr_wf ip -> p_Contains b ip = true -> p_Contains a ip = true.
Proof.
  intros Ha Hb Va Vb H0. split.
  - intros Hc ip _. by apply Covers_Contains.
  - intros H. apply Covers_range_in; [done..|]. by apply range_in_of_Contains.
Qed.

Lemma Covers_iff_contains_witness :
  Covers (PrefixFrom (AddrFrom4 [10; 127; 0; 0]) 16) (PrefixFrom (AddrFrom4 [10; 127; 201; 0]) 24) = true <->
  forall ip, addr_wf ip -> p_Contains (PrefixFrom (AddrFrom4 [10; 127; 201; 0]) 24) ip = true ->
    p_Contains (PrefixFrom (AddrFrom4 [10; 127; 0; 0]) 16) ip = true.
Proof. apply Covers_iff_contains; [decide_it|decide_it|reflexivity|reflexivity|reflexivity]. Defined.

(** The range of a default route (/0) contains every address of its family, but
    [Covers] compares the two addresses unmasked, so 0.0.0.0/0 does not cover
    10.0.0.0/8 although it contains it. *)
Theorem Covers_misses_default_route :
  let a := PrefixFrom (AddrFrom4 [0; 0; 0; 0]) 0 in
  let b := PrefixFrom (AddrFrom4 [10; 0; 0; 0]) 8 in
  (forall v, fits 32 v -> p_Contains a (Addr4 v) = true) /\ Covers a b = false.
Proof.
  split; [|by vm_compute]. intros v [H0 H1].
  replace (PrefixFrom (AddrFrom4 [0; 0; 0; 0]) 0) with {| pfx_Addr := Addr4 0; pfx_Bits := 0 |} by (by vm_compute).
  apply Contains_spec. unfold net_value. cbn [pfx_Addr pfx_Bits]. split_and!; try done.
  rewrite Z.sub_0_r, Z.shiftr_0_l, Z.shiftr_div_pow2 by lia. by apply Z.div_small.
Qed.

(** [Unique] returns some of the given subnets, covering exactly the same
    addresses, and none of them is covered by another. *)
Theorem Unique_correct s : Forall pfx_wf s ->
  (exists dropped, Permutation s (Unique s ++ dropped)) /\
  (forall ip, in_union s ip <-> in_union (Unique s) ip) /\
  (forall j r x y, Unique s !! j = Some x -> Unique s !! r = Some y -> r <> j -> Covers y x = false).
Proof. apply Unique_post. Qed.

Definition unique_sample : list Prefix :=
  [ PrefixFrom (AddrFrom4 [10; 127; 201; 0]) 24; PrefixFrom (AddrFrom4 [10; 127; 0; 0]) 16;
    PrefixFrom (AddrFrom4 [10; 127; 0; 0]) 16; PrefixFrom (AddrFrom4 [192; 168; 0; 0]) 21 ].

Lemma Unique_correct_witness :
  Unique unique_sample = [ PrefixFrom (AddrFrom4 [192; 168; 0; 0]) 21; PrefixFrom (AddrFrom4 [10; 127; 0; 0]) 16 ] /\
  ((exists dropped, Permutation unique_sample (Unique unique_sample ++ dropped)) /\
  (forall ip, in_union unique_sample ip <-> in_union (Unique unique_sample) ip) /\
  (forall j r x y, Unique unique_sample !! j = Some x -> Unique unique_sample !! r = Some y -> r <> j -> Covers y x = false)).
Proof. split; [by vm_compute|]. apply (Unique_correct unique_sample). decide_it. Defined.

(** ** RandomIPv4Prefix *)
Lemma be_val_4 a b c d : be_val [a; b; c; d] = a * 2 ^ 24 + b * 2 ^ 16 + c * 2 ^ 8 + d.
Proof. unfold be_val. simpl. lia. Qed.

(** Incrementing from a multiple of 256 below the top of the address space. *)
Lemma incIP4_next v e : 0 <= v -> v mod 256 = 0 -> v + 256 < 2 ^ 32 ->
  incIP4 (Addr4 v) (Addr4 e) = Some (if v + 256 <? e then Addr4 (v + 256) else AddrZero).
Proof.
  intros H0 Hm Hv. unfold incIP4. cbn [As4 mbind option_bind]. f_equal.
  set (b0 := v / 2 ^ 24 mod 256). set (b1 := v / 2 ^ 16 mod 256). set (b2 := v / 2 ^ 8 mod 256).
  assert (Hbs : be_bytes 4 v = [b0; b1; b2; 0]).
  { unfold be_bytes, b0, b1, b2. rewrite !Z.shiftr_div_pow2 by lia. simpl. by rewrite Z.div_1_r, Hm. }
  rewrite Hbs. simpl.
  assert (Hb0 : 0 <= b0 < 256) by (apply Z.mod_pos_bound; lia).
  assert (Hb1 : 0 <= b1 < 256) by (apply Z.mod_pos_bound; lia).
  assert (Hb2 : 0 <= b2 < 256) by (apply Z.mod_pos_bound; lia).
  assert (Hsum : v = b0 * 2 ^ 24 + b1 * 2 ^ 16 + b2 * 2 ^ 8).
  { unfold b0, b1, b2. clear -H0 Hm Hv. Z.div_mod_to_equations. lia. }
  clearbody b0 b1 b2. unfold AddrFrom4. rewrite !be_val_4.
  destruct (Z.ltb_spec b2 255); [|destruct (Z.ltb_spec b1 255); [|destruct (Z.ltb_spec b0 255); [|lia]]].
  - replace (b0 * 2 ^ 24 + b1 * 2 ^ 16 + (b2 + 1) * 2 ^ 8 + 0) with (v + 256) by lia. cbn [a_Less]. by destruct (v + 256 <? e).
  - replace (b0 * 2 ^ 24 + (b1 + 1) * 2 ^ 16 + 0 * 2 ^ 8 + 0) with (v + 256) by lia. cbn [a_Less]. by destruct (v + 256 <? e).
  - replace ((b0 + 1) * 2 ^ 24 + 0 * 2 ^ 16 + 0 * 2 ^ 8 + 0) with (v + 256) by lia. cbn [a_Less]. by destruct (v + 256 <? e).
Qed.

(** The candidate at base [v]. *)
Definition cand (v bits : Z) : Prefix := PrefixFrom (Addr4 (v + 1)) bits.

Lemma candidate_eq v bits : 0 <= v < 2 ^ 32 -> v mod 256 = 0 -> candidate (Addr4 v) bits = Some (cand v bits).
Proof.
  intros Hv Hm. unfold candidate. cbn [As4 mbind option_bind]. f_equal. unfold cand, AddrFrom4. f_equal. f_equal.
  assert (Hbs : be_bytes 4 v = [v / 2 ^ 24 mod 256; v / 2 ^ 16 mod 256; v / 2 ^ 8 mod 256; 0]).
  { unfold be_bytes. rewrite !Z.shiftr_div_pow2 by lia. simpl. by rewrite Z.div_1_r, Hm. }
  rewrite Hbs. simpl. rewrite be_val_4. Z.div_mod_to_equations. lia.
Qed.

Definition free (avoid : list Prefix) (p : Prefix) : Prop := forall c, c ∈ avoid -> p_Overlaps c p = false.

Lemma existsb_free avoid p : existsb (fun c => p_Overlaps c p) avoid = false <-> free avoid p.
Proof.
  rewrite <- not_true_iff_false, existsb_exists. unfold free. setoid_rewrite <- list_elem_of_In.
  setoid_rewrite <- not_true_iff_false. naive_solver.
Qed.

(** One range [v, e): the result is its first free candidate. *)
Definition range_result (bits : Z) (avoid : list Prefix) (v e : Z) (r : search_result) : Prop :=
  match r with
  | Found p => exists u, v <= u < e /\ u mod 256 = 0 /\ p = cand u bits /\ free avoid p
  | Exhausted => forall u, v <= u < e -> u mod 256 = 0 -> ~ free avoid (cand u bits)
  | SearchPanic | OutOfFuel => False
  end.

Lemma range_search_spec fuel bits avoid v e :
  0 <= v -> v mod 256 = 0 -> e mod 256 = 0 -> v < e -> e < 2 ^ 32 -> e - v <= 256 * Z.of_nat fuel ->
  range_result bits avoid v e (range_search fuel bits avoid (Addr4 v) (Addr4 e)).
Proof.
  revert v. induction fuel as [|fuel IH]; intros v H0 Hm He Hlt Hmax Hf; [lia|].
  cbn [range_search]. rewrite candidate_eq by (done || lia).
  destruct (existsb _ avoid) eqn:Ex; cbn [negb range_result].
  2:{ exists v. split_and!; [lia..|done|done|]. by apply existsb_free. }
  assert (Hnf : ~ free avoid (cand v bits)) by (rewrite <- existsb_free, Ex; done).
  assert (He' : e mod 256 = 0 -> v mod 256 = 0 -> v < e -> v + 256 <= e) by (clear; intros; Z.div_mod_to_equations; lia).
  specialize (He' He Hm Hlt). rewrite incIP4_next by (done || lia).
  assert (Hcase : forall u, v <= u -> u mod 256 = 0 -> u = v \/ v + 256 <= u)
    by (clear -Hm; intros; Z.div_mod_to_equations; lia).
  destruct (Z.ltb_spec (v + 256) e); cbn [negb a_IsValid range_result].
  - specialize (IH (v + 256)). destruct (range_search fuel bits avoid (Addr4 (v + 256)) (Addr4 e)); cbn [range_result] in *.
    + destruct IH as (u & ? & ? & ? & ?); [lia| |lia..|exists u; split_and!; done || lia].
      rewrite Z.add_mod, Hm by lia. done.
    + intros u Hu Hum. destruct (Hcase u) as [->|]; [lia|done|done|].
      apply IH; [lia| |lia..|done]. rewrite Z.add_mod, Hm by lia. done.
    + apply IH; [lia| |lia..]. rewrite Z.add_mod, Hm by lia. done.
    + apply IH; [lia| |lia..]. rewrite Z.add_mod, Hm by lia. done.
  - intros u Hu Hum. destruct (Hcase u) as [->|]; [lia|done|done|lia].
Qed.

(** Start and end of the three private ranges. *)
Definition private_ranges : list (Z * Z) :=
  [ (0xC0A80000, 0xC0A90000); (0xAC100000, 0xAC200000); (0x0A000000, 0x0B000000) ].
Definition private_base (u : Z) : Prop :=
  u mod 256 = 0 /\ exists r, r ∈ private_ranges /\ r.1 <= u < r.2.

Lemma ranges_search_spec bits avoid :
  match ranges_search range_fuel bits avoid range_pairs with
  | Found p => exists u, private_base u /\ p = cand u bits /\ free avoid p
  | Exhausted => forall u, private_base u -> ~ free avoid (cand u bits)
  | SearchPanic | OutOfFuel => False
  end.
Proof.
  assert (HR : forall r, r ∈ private_ranges ->
    range_result bits avoid r.1 r.2 (range_search range_fuel bits avoid (Addr4 r.1) (Addr4 r.2))).
  { intros r Hr. apply range_search_spec; unfold private_ranges, range_fuel in *;
      repeat (apply elem_of_cons in Hr as [->|Hr]; [vm_compute; done|]); inversion Hr. }
  assert (Hfound : forall r p, r ∈ private_ranges -> range_result bits avoid r.1 r.2 (Found p) ->
    exists u, private_base u /\ p = cand u bits /\ free avoid p).
  { intros r p Hr (u & ? & ? & ? & ?). exists u. split_and!; [|done..]. split; [done|]. eauto. }
  assert (Hall : range_pairs = (fun r => (Addr4 r.1, Addr4 r.2)) <$> private_ranges) by done.
  rewrite Hall. clear Hall.
  assert (Hgen : forall rs, (forall r, r ∈ rs -> r ∈ private_ranges) ->
    match ranges_search range_fuel bits avoid ((fun r => (Addr4 r.1, Addr4 r.2)) <$> rs) with
    | Found p => exists u, private_base u /\ p = cand u bits /\ free avoid p
    | Exhausted => forall u r, r ∈ rs -> u mod 256 = 0 -> r.1 <= u < r.2 -> ~ free avoid (cand u bits)
    | SearchPanic | OutOfFuel => False
    end).
  { induction rs as [|r rs IH]; intros Hin; cbn [fmap list_fmap ranges_search].
    { intros u r Hr. inversion Hr. }
    pose proof (HR r (Hin r ltac:(left))) as H1.
    destruct (range_search range_fuel bits avoid (Addr4 r.1) (Addr4 r.2)); [by eapply Hfound; [apply Hin; left|]| |done..].
    specialize (IH ltac:(intros; apply Hin; by right)).
    destruct (ranges_search _ _ _ _); [done| |done..].
    intros u r' [->|Hr']%elem_of_cons Hm Hu; [by apply H1|by eapply IH]. }
  specialize (Hgen private_ranges ltac:(done)). destruct (ranges_search _ _ _ _); try done.
  intros u [Hm (r & Hr & Hu)]. by eapply Hgen.
Qed.

(** Avoiding the kept subnets avoids all of them. *)
Lemma free_Unique l p : Forall pfx_wf l -> pfx_wf p -> free (Unique l) p <-> free l p.
Proof.
  intros Hl Hp. destruct (Unique_post l Hl) as ((d & HP) & Hu & _).
  assert (Hin : forall c, c ∈ Unique l -> c ∈ l) by (intros c Hc; rewrite HP; apply elem_of_app; by left).
  assert (Hwf : forall c, c ∈ l -> pfx_wf c) by (by apply Forall_forall).
  split; intros H c Hc; [|by apply H, Hin].
  apply not_true_iff_false. intros (ip & C1 & C2)%Overlaps_Contains; [|by auto..].
  destruct (proj1 (Hu ip)) as (y & Hy & C3); [by exists c|].
  specialize (H y Hy). apply not_true_iff_false in H. apply H.
  apply Overlaps_Contains; [by auto..|]. eauto.
Qed.

(** [RandomIPv4Prefix] never panics; the subnet it returns starts at address 1 of a
    /24 boundary of a private range and overlaps neither an interface's subnet nor
    one to avoid; it reports failure only when every such subnet overlaps one. *)
Theorem RandomIPv4Prefix_correct ifaddrs bits avoid :
  Forall pfx_wf (omap id ifaddrs ++ avoid) ->
  match RandomIPv4Prefix (Some ifaddrs) bits avoid with
  | Ret p => exists u, private_base u /\ p = cand u bits /\ free (omap id ifaddrs ++ avoid) p
  | Fail e => e = ErrNoFreeSubnet /\ forall u, private_base u -> ~ free (omap id ifaddrs ++ avoid) (cand u bits)
  | Panic => False
  end.
Proof.
  intros Hwf. unfold RandomIPv4Prefix, RandomIPv4Prefix_fuel.
  assert (Hc : forall u, private_base u -> pfx_wf (cand u bits)).
  { intros u [_ (r & Hr & Hu)]. apply PrefixFrom_wf.
    repeat (apply elem_of_cons in Hr as [->|Hr]; [simpl in *; unfold fits; lia|]). inversion Hr. }
  pose proof (ranges_search_spec bits (Unique (omap id ifaddrs ++ avoid))) as H.
  destruct (ranges_search _ _ _ _); [| |done..].
  - destruct H as (u & Hu & -> & Hf). exists u. split_and!; [done..|]. rewrite <- free_Unique; auto.
  - split; [done|]. intros u Hu. rewrite <- free_Unique; auto.
Qed.

Lemma RandomIPv4Prefix_correct_witness :
  RandomIPv4Prefix (Some [Some (PrefixFrom (AddrFrom4 [192; 168; 0; 9]) 23)]) 30 [] =
    Ret (PrefixFrom (AddrFrom4 [192; 168; 2; 1]) 30) /\
  match RandomIPv4Prefix (Some [Some (PrefixFrom (AddrFrom4 [192; 168; 0; 9]) 23)]) 30 [] with
  | Ret p => exists u, private_base u /\ p = cand u 30 /\ free (omap id [Some (PrefixFrom (AddrFrom4 [192; 168; 0; 9]) 23)] ++ []) p
  | Fail e => e = ErrNoFreeSubnet /\ forall u, private_base u ->
      ~ free (omap id [Some (PrefixFrom (AddrFrom4 [192; 168; 0; 9]) 23)] ++ []) (cand u 30)
  | Panic => False
  end.
Proof. split; [by vm_compute|]. apply RandomIPv4Prefix_correct. decide_it. Defined.

(** * Correctness of [CoveringPrefixes] (src/pkg/subnet/subnet.go)

    Addresses are compared bit by bit from the left.  The two tables of the
    function record, per subnet key, which byte values occur at each position;
    [Mask] turns each into a common bit prefix. *)
(** Bit [i] of a byte string, counted from the left. *)
Definition lbit (l : list Z) (i : Z) : bool :=
  Z.testbit (default 0 (l !! Z.to_nat (i / 8))) (7 - i mod 8).

Definition agree_to (n : Z) (l k : list Z) : Prop := forall i, 0 <= i < n -> lbit l i = lbit k i.

Lemma testbit_add_high a b s i : 0 <= s -> fits s b -> 0 <= i ->
  Z.testbit (a * 2 ^ s + b) i = if i <? s then Z.testbit b i else Z.testbit a (i - s).
Proof.
  intros Hs Hb Hi. destruct (Z.ltb_spec i s).
  - rewrite <- (Z.mod_pow2_bits_low (a * 2 ^ s + b) s i) by lia.
    rewrite Z.add_comm, Z.mod_add, Z.mod_small by (lia || apply Hb). done.
  - replace i with (i - s + s) at 1 by lia. rewrite <- Z.div_pow2_bits by lia.
    rewrite Z.div_add_l, Z.div_small, Z.add_0_r by (lia || apply Hb). done.
Qed.

Lemma be_val_testbit l i : bytes_ok l -> 0 <= i < 8 * Z.of_nat (length l) ->
  Z.testbit (be_val l) (8 * Z.of_nat (length l) - 1 - i) = lbit l i.
Proof.
  intros Hl. revert i. induction Hl as [|b l Hb Hl IH]; intros i Hi; simpl length in *; [lia|].
  rewrite be_val_cons.
  replace (256 ^ Z.of_nat (length l)) with (2 ^ (8 * Z.of_nat (length l)))
    by (rewrite Z.pow_mul_r by lia; done).
  rewrite testbit_add_high; [|lia| |lia].
  2:{ pose proof (be_val_bound l Hl) as Hv. unfold fits. rewrite Z.pow_mul_r by lia. done. }
  unfold lbit. destruct (Z.ltb_spec (8 * Z.of_nat (S (length l)) - 1 - i) (8 * Z.of_nat (length l))).
  - replace (8 * Z.of_nat (S (length l)) - 1 - i) with (8 * Z.of_nat (length l) - 1 - (i - 8)) by lia.
    rewrite IH by lia. unfold lbit.
    replace (Z.to_nat (i / 8)) with (S (Z.to_nat ((i - 8) / 8))).
    2:{ replace i with (i - 8 + 1 * 8) at 2 by lia. rewrite Z.div_add by lia.
        assert (0 <= (i - 8) / 8) by (apply Z.div_pos; lia). lia. }
    simpl. f_equal. replace i with (i - 8 + 1 * 8) at 2 by lia. by rewrite Z.mod_add by lia.
  - rewrite Z.div_small, Z.mod_small by lia. simpl. f_equal. lia.
Qed.

(** Equal leading bits are equal shifted values. *)
Lemma shiftr_agree l k n : bytes_ok l -> bytes_ok k -> length l = length k ->
  0 <= n <= 8 * Z.of_nat (length l) ->
  Z.shiftr (be_val l) (8 * Z.of_nat (length l) - n) = Z.shiftr (be_val k) (8 * Z.of_nat (length l) - n)
  <-> agree_to n l k.
Proof.
  intros Hl Hk Hlen Hn. set (w := 8 * Z.of_nat (length l)) in *.
  assert (Hfl : fits w (be_val l)).
  { pose proof (be_val_bound l Hl). unfold fits, w. rewrite Z.pow_mul_r by lia. done. }
  assert (Hfk : fits w (be_val k)).
  { pose proof (be_val_bound k Hk). unfold fits, w. rewrite Hlen, Z.pow_mul_r by lia. done. }
  split.
  - intros E i Hi. rewrite <- !be_val_testbit by (done || lia). rewrite <- Hlen. fold w.
    apply (f_equal (fun z => Z.testbit z (n - 1 - i))) in E. rewrite !Z.shiftr_spec in E by lia.
    by replace (n - 1 - i + (w - n)) with (w - 1 - i) in E by lia.
  - intros H. apply bits_ext. intros i Hi. rewrite !Z.shiftr_spec by done.
    destruct (Z.lt_ge_cases i n) as [Hin|].
    + specialize (H (n - 1 - i) ltac:(lia)). rewrite <- !be_val_testbit in H by (done || lia).
      rewrite <- Hlen in H. fold w in H.
      by replace (w - 1 - (n - 1 - i)) with (i + (w - n)) in H by lia.
    + by rewrite (testbit_high w (be_val l)), (testbit_high w (be_val k)) by (done || lia).
Qed.

(** ** One byte set *)

(** [s] holds exactly the bytes at position [o] of the strings of [M]. *)
Definition column (M : list (list Z)) (o : nat) (s : Bitfield256) : Prop :=
  bf_wf s /\ forall x, is_byte x -> GetBit s x = true <-> exists m, m ∈ M /\ m !! o = Some x.

Lemma lbit_at m o x j : m !! o = Some x -> 0 <= j < 8 -> lbit m (8 * Z.of_nat o + j) = Z.testbit x (7 - j).
Proof.
  intros Hm Hj. unfold lbit. replace (8 * Z.of_nat o + j) with (j + Z.of_nat o * 8) by lia.
  by rewrite Z.div_add, Z.div_small, Z.add_0_l, Z.mod_add, Z.mod_small, Nat2Z.id, Hm by lia.
Qed.

Lemma lbit_insert_ne ip o n i : 0 <= i -> i / 8 <> Z.of_nat o -> lbit (<[o := n]> ip) i = lbit ip i.
Proof.
  intros Hi Hne. unfold lbit. rewrite list_lookup_insert_ne; [done|].
  assert (0 <= i / 8) by (apply Z.div_pos; lia). lia.
Qed.

Lemma Mask_step M o s ip : column M o s -> (o < length ip)%nat ->
  (forall m, m ∈ M -> bytes_ok m /\ (o < length m)%nat /\ agree_to (8 * Z.of_nat o) m ip) ->
  let '(ones, n) := Mask s in
  0 <= ones <= 8 /\ is_byte n /\
  (forall m, m ∈ M -> agree_to (8 * Z.of_nat o + ones) m (<[o := n]> ip)) /\
  (ones < 8 -> exists m1 m2, m1 ∈ M /\ m2 ∈ M /\
     lbit m1 (8 * Z.of_nat o + ones) <> lbit m2 (8 * Z.of_nat o + ones)).
Proof.
  intros [Hwf Hcol] Hlen HM. pose proof (Mask_members s Hwf) as (H1 & H2 & H3 & _ & H5).
  destruct (Mask s) as [ones n]. simpl in *.
  split; [done|]. split; [exact H2|]. split.
  - intros m Hm i Hi. destruct (HM m Hm) as (Hmb & Hml & Hag).
    destruct (Z.lt_ge_cases i (8 * Z.of_nat o)) as [Hlt|Hge].
    + rewrite lbit_insert_ne; [apply Hag; lia|lia|].
      assert (i / 8 < Z.of_nat o) by (apply Z.div_lt_upper_bound; lia). lia.
    + destruct (lookup_lt_is_Some_2 m o Hml) as [x Hx].
      replace i with (8 * Z.of_nat o + (i - 8 * Z.of_nat o)) by lia.
      rewrite (lbit_at m o x) by (done || lia).
      rewrite (lbit_at (<[o := n]> ip) o n) by (lia || by apply list_lookup_insert_eq).
      apply H3; [|lia]. apply elem_of_members; [done|].
      assert (is_byte x) by (by eapply Forall_lookup_1). split; [done|]. apply Hcol; [done|]. eauto.
  - intros Hlt. destruct (H5 Hlt) as (x & y & Hx & Hy & Hd).
    apply elem_of_members in Hx as [Bx Gx], Hy as [By Gy]; [|done..].
    apply Hcol in Gx as (m1 & Hm1 & E1); [|done]. apply Hcol in Gy as (m2 & Hm2 & E2); [|done].
    exists m1, m2. split_and!; [done..|]. by rewrite (lbit_at m1 o x), (lbit_at m2 o y) by (done || lia).
Qed.

(** What a covering prefix [(n, ip)] means for the byte strings [M] it was built from. *)
Definition tight (M : list (list Z)) (cap n : Z) (ip : list Z) : Prop :=
  0 <= n <= cap /\ bytes_ok ip /\
  (forall m, m ∈ M -> agree_to n m ip) /\
  (n < cap -> exists m1 m2, m1 ∈ M /\ m2 ∈ M /\ lbit m1 n <> lbit m2 n).

Lemma cover_loop6_tight M sets bi maskOnes ip :
  maskOnes = 64 + 8 * Z.of_nat bi -> bytes_ok ip -> (8 + bi + length sets <= length ip)%nat ->
  (forall j s, sets !! j = Some s -> column M (8 + bi + j) s) ->
  (forall m, m ∈ M -> bytes_ok m /\ (8 + bi + length sets <= length m)%nat /\ agree_to maskOnes m ip) ->
  let r := cover_loop6 bi sets maskOnes ip in
  tight M (maskOnes + 8 * Z.of_nat (length sets)) r.1 r.2 /\ length r.2 = length ip.
Proof.
  revert bi maskOnes ip. induction sets as [|s sets IH]; intros bi maskOnes ip Hn Hip Hlen Hcols HM; simpl.
  { split; [|done]. split_and!; try done; [lia..|intros m Hm; by apply HM|lia]. }
  pose proof (Mask_step M (8 + bi) s ip) as Hstep.
  specialize (Hstep ltac:(replace (8 + bi)%nat with (8 + bi + 0)%nat by lia; by apply Hcols)).
  simpl length in *. specialize (Hstep ltac:(lia)).
  replace (8 * Z.of_nat (8 + bi)) with maskOnes in Hstep by lia.
  destruct (Mask s) as [ones n]. destruct Hstep as (H1 & H2 & H3 & H4).
  { intros m Hm. destruct (HM m Hm) as (? & ? & ?). split_and!; [done|lia|done]. }
  assert (Hip' : bytes_ok (<[(8 + bi)%nat := n]> ip)) by (by apply Forall_insert).
  destruct (Z.eqb_spec ones 8) as [->|Hne].
  - destruct (IH (S bi) (maskOnes + 8) (<[(8 + bi)%nat := n]> ip)) as [HT HL]; [lia|done|..].
    + rewrite length_insert. lia.
    + intros j t Ht. replace (8 + S bi + j)%nat with (8 + bi + S j)%nat by lia. by apply Hcols.
    + intros m Hm. destruct (HM m Hm) as (? & ? & ?). split_and!; [done|lia|by apply H3].
    + split; [|etransitivity; [exact HL|apply length_insert]].
      replace (maskOnes + 8 * Z.of_nat (S (length sets))) with (maskOnes + 8 + 8 * Z.of_nat (length sets)) by lia.
      exact HT.
  - split; [|apply length_insert].
    split; [simpl; lia|]. split; [exact Hip'|]. split; [exact H3|]. intros _. apply H4. lia.
Qed.

(** ** The two tables *)
Definition bytes4 (a : Addr) : option (list Z) := match a with Addr4 v => Some (be_bytes 4 v) | _ => None end.
Definition bytes6 (a : Addr) : option (list Z) := match a with Addr6 _ _ => Some (As16 a) | _ => None end.

(** The strings of [M] whose first [k] bytes are [r]. *)
Definition keyed (k : nat) (r : list Z) (M : list (list Z)) : list (list Z) := filter (fun m => take k m = r) M.

Lemma keyed_snoc k r M m : keyed k r (M ++ [m]) = if decide (take k m = r) then keyed k r M ++ [m] else keyed k r M.
Proof.
  unfold keyed. rewrite filter_app, filter_cons, filter_nil. case_decide; [done|]. apply app_nil_r.
Qed.

Lemma elem_of_keyed k r M m : m ∈ keyed k r M <-> take k m = r /\ m ∈ M.
Proof. unfold keyed. by rewrite list_elem_of_filter. Qed.

Lemma column_nil o : column [] o bf_empty.
Proof.
  split; [apply bf_empty_wf|]. intros x _. rewrite GetBit_empty. split; [done|]. intros (m & Hm & _). inversion Hm.
Qed.

Lemma column_snoc M o s m x : column M o s -> m !! o = Some x -> is_byte x -> column (M ++ [m]) o (SetBit s x).
Proof.
  intros [Hwf H] Hm Hx. split; [by apply SetBit_wf|]. intros y Hy.
  rewrite GetBit_SetBit, orb_true_iff, bool_decide_eq_true, H by done.
  setoid_rewrite elem_of_app. setoid_rewrite list_elem_of_singleton. split.
  - intros [->|(m' & ? & ?)]; eauto.
  - intros (m' & [?| ->] & E); [right; eauto|]. left. congruence.
Qed.

Definition table4_ok (t : gmap (list Z) Bitfield256) (M : list (list Z)) : Prop :=
  forall r, match t !! r with
            | Some s => column (keyed 2 r M) 2 s /\ keyed 2 r M <> []
            | None => keyed 2 r M = []
            end.

Definition columns7 (M : list (list Z)) (sets : list Bitfield256) : Prop :=
  length sets = 7%nat /\ forall j s, sets !! j = Some s -> column M (8 + j) s.

Definition table6_ok (t : gmap (list Z) (list Bitfield256)) (M : list (list Z)) : Prop :=
  forall r, match t !! r with
            | Some sets => columns7 (keyed 8 r M) sets /\ keyed 8 r M <> []
            | None => keyed 8 r M = []
            end.

Lemma table4_step t M m : table4_ok t M -> bytes_ok m -> length m = 4%nat ->
  table4_ok (<[take 2 m := SetBit (default bf_empty (t !! take 2 m)) (default 0 (m !! 2%nat))]> t) (M ++ [m]).
Proof.
  intros Ht Hm Hl r. rewrite keyed_snoc, lookup_insert. case_decide as E; [|by apply Ht]. subst r.
  split; [|by destruct (keyed _ _ M)].
  destruct (lookup_lt_is_Some_2 m 2) as [x Hx]; [lia|]. rewrite Hx. simpl.
  apply column_snoc; [|done|by eapply Forall_lookup_1].
  specialize (Ht (take 2 m)). destruct (t !! take 2 m); simpl; [apply Ht|].
  rewrite Ht. apply column_nil.
Qed.

Lemma columns7_step M sets m : columns7 M sets -> bytes_ok m -> length m = 16%nat ->
  columns7 (M ++ [m]) (set7 sets m).
Proof.
  intros [Hl H] Hm Hlm. split; [unfold set7; by rewrite length_imap|].
  intros j s Hs. unfold set7 in Hs. rewrite list_lookup_imap in Hs.
  apply fmap_Some in Hs as (s0 & Hs0 & ->).
  assert (j < 7)%nat by (rewrite <- Hl; by eapply lookup_lt_Some).
  destruct (lookup_lt_is_Some_2 m (j + 8)) as [x Hx]; [lia|]. rewrite Hx. simpl.
  rewrite Nat.add_comm in Hx.
  apply column_snoc; [by apply H|done|by eapply Forall_lookup_1].
Qed.

Lemma columns7_nil : columns7 [] (replicate 7 bf_empty).
Proof. split; [done|]. intros j s Hs. apply lookup_replicate_1 in Hs as [-> _]. apply column_nil. Qed.

Lemma table6_step t M m : table6_ok t M -> bytes_ok m -> length m = 16%nat ->
  table6_ok (<[take 8 m := set7 (default (replicate 7 bf_empty) (t !! take 8 m)) m]> t) (M ++ [m]).
Proof.
  intros Ht Hm Hl r. rewrite keyed_snoc, lookup_insert. case_decide as E; [|by apply Ht]. subst r.
  split; [|by destruct (keyed _ _ M)]. apply columns7_step; [|done..].
  specialize (Ht (take 8 m)). destruct (t !! take 8 m); simpl; [apply Ht|].
  rewrite Ht. apply columns7_nil.
Qed.

Lemma As16_6 v z : As16 (Addr6 v z) = be_bytes 16 v.
Proof. done. Qed.

(** The loop over the addresses establishes both tables. *)
Lemma cover_add_tables (addrs : list Addr) :
  let st := foldl cover_add {| cs_v4 := ∅; cs_v6 := ∅ |} addrs in
  table4_ok (cs_v4 st) (omap bytes4 addrs) /\ table6_ok (cs_v6 st) (omap bytes6 addrs).
Proof.
  induction addrs as [|a addrs [H4 H6]] using rev_ind; [done|].
  rewrite foldl_snoc, !omap_app. simpl. destruct a as [|v|v z]; cbn [cover_add bytes4 bytes6 cs_v4 cs_v6].
  - by rewrite !app_nil_r.
  - rewrite app_nil_r. split; [|done]. apply table4_step; [done|apply be_bytes_ok|apply be_bytes_length].
  - rewrite app_nil_r. split; [done|]. apply table6_step; [done|apply be_bytes_ok|apply be_bytes_length].
Qed.

(** ** From byte strings to addresses and prefixes *)

(** The address with the given bytes, IPv4 or IPv6 by their number. *)
Definition addr_of (l : list Z) : Addr := if bool_decide (length l = 4%nat) then AddrFrom4 l else AddrFrom16 l.

Definition len_ok (l : list Z) : Prop := length l = 4%nat \/ length l = 16%nat.

Lemma addr_of_props l : len_ok l -> bytes_ok l ->
  addr_wf (addr_of l) /\ hasZone (addr_of l) = false /\ addr_of l <> AddrZero /\
  BitLen (addr_of l) = 8 * Z.of_nat (length l) /\ addr_val (addr_of l) = be_val l.
Proof.
  intros HL Hb. pose proof (be_val_bound l Hb) as Hv. unfold addr_of.
  destruct HL as [HL|HL]; rewrite HL in *; simpl; split_and!; done.
Qed.

Lemma addr_of_AsSlice a : addr_wf a -> a <> AddrZero ->
  addr_of (AsSlice a) = withoutZone a /\ bytes_ok (AsSlice a) /\ len_ok (AsSlice a).
Proof.
  destruct a as [|v|v z]; simpl; [done|..]; intros Hv _; unfold addr_of, len_ok.
  - rewrite be_bytes_length. simpl. unfold AddrFrom4. rewrite be_val_bytes, Z.mod_small by done.
    split_and!; [done|apply (be_bytes_ok 4)|by left].
  - rewrite be_bytes_length. simpl. unfold AddrFrom16. rewrite be_val_bytes, Z.mod_small by done.
    split_and!; [done|apply (be_bytes_ok 16)|by right].
Qed.

Lemma PrefixFrom_addr_of ip n : len_ok ip -> bytes_ok ip -> 0 <= n <= 8 * Z.of_nat (length ip) ->
  PrefixFrom (addr_of ip) n = {| pfx_Addr := addr_of ip; pfx_Bits := n |}.
Proof.
  intros HL Hb Hn. destruct (addr_of_props ip HL Hb) as (_ & Hz & Hne & Hlen & _).
  unfold PrefixFrom. rewrite Hlen. f_equal.
  - unfold addr_of. by case_bool_decide.
  - destruct (Z.leb_spec 0 n), (Z.leb_spec n (8 * Z.of_nat (length ip))); try lia.
    by destruct (addr_of ip).
Qed.

Lemma Contains_agree ip n m : len_ok ip -> bytes_ok ip -> bytes_ok m -> length m = length ip ->
  0 <= n <= 8 * Z.of_nat (length ip) ->
  p_Contains (PrefixFrom (addr_of ip) n) (addr_of m) = true <-> agree_to n m ip.
Proof.
  intros HL Hb Hm Hlm Hn. assert (HLm : len_ok m) by (unfold len_ok; by rewrite Hlm).
  destruct (addr_of_props ip HL Hb) as (Hw & Hz & Hne & Hlen & Hv).
  destruct (addr_of_props m HLm Hm) as (Hw' & Hz' & Hne' & Hlen' & Hv').
  rewrite PrefixFrom_addr_of by done.
  rewrite Contains_val by (split_and!; simpl; [done|done|right; split; [lia|done]]).
  simpl. unfold p_IsValid. simpl. rewrite Hlen, Hlen', Hv, Hv', <- Hlm, shiftr_agree by (done || lia).
  split; [by intros (_ & _ & _ & _ & ?)|]. intros. split_and!; try done. apply Z.leb_le. lia.
Qed.

(** No longer mask holds two byte strings that differ at bit [n]. *)
Lemma no_longer_mask q m1 m2 n : pfx_wf q -> len_ok m1 -> bytes_ok m1 -> bytes_ok m2 -> length m2 = length m1 ->
  0 <= n -> lbit m1 n <> lbit m2 n -> n < pfx_Bits q ->
  ~ (p_Contains q (addr_of m1) = true /\ p_Contains q (addr_of m2) = true).
Proof.
  intros Hq HL H1 H2 Hlen Hn Hd Hb [C1 C2]. apply Hd.
  assert (HL2 : len_ok m2) by (unfold len_ok; by rewrite Hlen).
  apply Contains_val in C1 as (V & _ & L1 & _ & E1); [|done].
  apply Contains_val in C2 as (_ & _ & L2 & _ & E2); [|done].
  destruct (valid_bits q Hq V) as [Bq _].
  destruct (addr_of_props m1 HL H1) as (_ & _ & _ & Hl1 & Hv1).
  destruct (addr_of_props m2 HL2 H2) as (_ & _ & _ & Hl2 & Hv2).
  assert (Hag : agree_to (pfx_Bits q) m1 m2).
  { apply shiftr_agree; [done..|lia|]. rewrite <- Hv1, <- Hv2, <- Hl1, L1. by rewrite E1, E2. }
  apply Hag. lia.
Qed.

(** ** Each group of addresses gets a tight prefix *)
Definition group_prefix (M : list (list Z)) (cap : Z) (p : Prefix) : Prop :=
  exists n ip, p = PrefixFrom (addr_of ip) n /\ tight M cap n ip /\ len_ok ip /\ cap <= 8 * Z.of_nat (length ip) /\
    forall m, m ∈ M -> length m = length ip.

Lemma cover4_ok M r s : (forall m, m ∈ M -> bytes_ok m /\ length m = 4%nat) ->
  column (keyed 2 r M) 2 s -> keyed 2 r M <> [] -> group_prefix (keyed 2 r M) 24 (cover_prefix4 (r, s)).
Proof.
  intros HM Hcol Hne.
  assert (HK : forall m, m ∈ keyed 2 r M -> bytes_ok m /\ length m = 4%nat /\ take 2 m = r).
  { intros m Hm%elem_of_keyed. destruct Hm as [? Hm]. by destruct (HM m Hm). }
  assert (Hr : bytes_ok r /\ length r = 2%nat).
  { destruct (keyed 2 r M) as [|m0 K] eqn:EK; [done|]. destruct (HK m0) as (? & Hl & <-); [left|].
    split; [by apply Forall_take|]. rewrite length_take. lia. }
  pose proof (Mask_step (keyed 2 r M) 2 s (r ++ [0; 0]) Hcol) as Hs.
  specialize (Hs ltac:(rewrite length_app; simpl; lia)).
  unfold cover_prefix4. simpl. destruct (Mask s) as [ones n].
  destruct Hs as (H1 & H2 & H3 & H4).
  { intros m Hm. destruct (HK m Hm) as (? & ? & Ht). split_and!; [done|lia|].
    intros i Hi. unfold lbit. f_equal. f_equal.
    assert (i / 8 < 2) by (apply Z.div_lt_upper_bound; lia).
    assert (0 <= i / 8) by (apply Z.div_pos; lia).
    rewrite <- Ht, lookup_app_l by (rewrite length_take; lia).
    by rewrite lookup_take_lt by lia. }
  replace (<[2%nat:=n]> (r ++ [0; 0])) with (r ++ [n; 0]) in H3
    by (rewrite insert_app_r_alt by lia; destruct Hr as [_ ->]; done).
  exists (16 + ones), (r ++ [n; 0]).
  assert (Hlen : length (r ++ [n; 0]) = 4%nat) by (rewrite length_app; simpl; lia).
  split_and!; [|split; [lia|split; [|split; [exact H3|]]]|by left| |].
  - unfold addr_of. by rewrite Hlen.
  - apply Forall_app. split; [apply Hr|]. repeat constructor; done || apply H2.
  - intros. apply H4. lia.
  - rewrite Hlen. lia.
  - intros m Hm. destruct (HK m Hm) as (_ & -> & _). done.
Qed.

Lemma cover6_ok M r sets : (forall m, m ∈ M -> bytes_ok m /\ length m = 16%nat) ->
  columns7 (keyed 8 r M) sets -> keyed 8 r M <> [] -> group_prefix (keyed 8 r M) 120 (cover_prefix6 (r, sets)).
Proof.
  intros HM [Hls Hcol] Hne.
  assert (HK : forall m, m ∈ keyed 8 r M -> bytes_ok m /\ length m = 16%nat /\ take 8 m = r).
  { intros m Hm%elem_of_keyed. destruct Hm as [? Hm]. by destruct (HM m Hm). }
  assert (Hr : bytes_ok r /\ length r = 8%nat).
  { destruct (keyed 8 r M) as [|m0 K] eqn:EK; [done|]. destruct (HK m0) as (? & Hl & <-); [left|].
    split; [by apply Forall_take|]. rewrite length_take. lia. }
  destruct (cover_loop6_tight (keyed 8 r M) sets 0 64 (r ++ replicate 8 0)) as [HT HL].
  - done.
  - apply Forall_app. split; [apply Hr|]. apply Forall_replicate. decide_it.
  - rewrite length_app, length_replicate. lia.
  - apply Hcol.
  - intros m Hm. destruct (HK m Hm) as (? & ? & Ht). split_and!; [done|lia|].
    intros i Hi. unfold lbit. f_equal. f_equal.
    assert (i / 8 < 8) by (apply Z.div_lt_upper_bound; lia).
    assert (0 <= i / 8) by (apply Z.div_pos; lia).
    rewrite <- Ht, lookup_app_l by (rewrite length_take; lia).
    by rewrite lookup_take_lt by lia.
  - unfold cover_prefix6. cbn [fst snd]. destruct (cover_loop6 0 sets 64 _) as [n ip]. cbn [fst snd] in *.
    rewrite length_app, length_replicate in HL. rewrite Hls in HT. change (64 + 8 * Z.of_nat 7) with 120 in HT.
    exists n, ip. split_and!; [|apply HT..|right; lia|lia|].
    + unfold addr_of. rewrite bool_decide_eq_false_2 by lia. done.
    + intros m Hm. destruct (HK m Hm) as (_ & -> & _). lia.
Qed.

Lemma omap_bytes_ok (addrs : list Addr) : (forall m, m ∈ omap bytes4 addrs -> bytes_ok m /\ length m = 4%nat) /\
  (forall m, m ∈ omap bytes6 addrs -> bytes_ok m /\ length m = 16%nat).
Proof.
  split; intros m (a & _ & Ha)%list_elem_of_omap; destruct a; simplify_eq/=.
  - split; [apply (be_bytes_ok 4)|done].
  - split; [apply (be_bytes_ok 16)|done].
Qed.

(** Every address is in a group, and every prefix comes from one. *)
Lemma CoveringPrefixes_group (addrs : list Addr) p : p ∈ CoveringPrefixes addrs ->
  (exists r, group_prefix (keyed 2 r (omap bytes4 addrs)) 24 p /\ keyed 2 r (omap bytes4 addrs) <> []) \/
  (exists r, group_prefix (keyed 8 r (omap bytes6 addrs)) 120 p /\ keyed 8 r (omap bytes6 addrs) <> []).
Proof.
  unfold CoveringPrefixes. rewrite merge_sort_Permutation, elem_of_app, !list_elem_of_fmap.
  destruct (cover_add_tables addrs) as [H4 H6]. destruct (omap_bytes_ok addrs) as [B4 B6].
  intros [([r s] & -> & E%elem_of_map_to_list)|([r s] & -> & E%elem_of_map_to_list)]; [left|right]; exists r.
  - specialize (H4 r). rewrite E in H4. split; [apply cover4_ok; [done|apply H4..]|apply H4].
  - specialize (H6 r). rewrite E in H6. split; [apply cover6_ok; [done|apply H6..]|apply H6].
Qed.

Lemma CoveringPrefixes_has4 (addrs : list Addr) m : m ∈ omap bytes4 addrs ->
  exists p, p ∈ CoveringPrefixes addrs /\ group_prefix (keyed 2 (take 2 m) (omap bytes4 addrs)) 24 p.
Proof.
  intros Hm. destruct (cover_add_tables addrs) as [H4 _]. destruct (omap_bytes_ok addrs) as [B4 _].
  specialize (H4 (take 2 m)). destruct (_ !! take 2 m) as [s|] eqn:E.
  - exists (cover_prefix4 (take 2 m, s)). split; [|apply cover4_ok; [done|apply H4..]].
    unfold CoveringPrefixes. rewrite merge_sort_Permutation, elem_of_app, !list_elem_of_fmap. left.
    exists (take 2 m, s). split; [done|]. by apply elem_of_map_to_list.
  - exfalso. assert (Hk : m ∈ keyed 2 (take 2 m) (omap bytes4 addrs)) by (by apply elem_of_keyed).
    rewrite H4 in Hk. inversion Hk.
Qed.

Lemma CoveringPrefixes_has6 (addrs : list Addr) m : m ∈ omap bytes6 addrs ->
  exists p, p ∈ CoveringPrefixes addrs /\ group_prefix (keyed 8 (take 8 m) (omap bytes6 addrs)) 120 p.
Proof.
  intros Hm. destruct (cover_add_tables addrs) as [_ H6]. destruct (omap_bytes_ok addrs) as [_ B6].
  specialize (H6 (take 8 m)). destruct (_ !! take 8 m) as [s|] eqn:E.
  - exists (cover_prefix6 (take 8 m, s)). split; [|apply cover6_ok; [done|apply H6..]].
    unfold CoveringPrefixes. rewrite merge_sort_Permutation, elem_of_app, !list_elem_of_fmap. right.
    exists (take 8 m, s). split; [done|]. by apply elem_of_map_to_list.
  - exfalso. assert (Hk : m ∈ keyed 8 (take 8 m) (omap bytes6 addrs)) by (by apply elem_of_keyed).
    rewrite H6 in Hk. inversion Hk.
Qed.

(** ** The theorems *)
Lemma elem_of_bytes (addrs : list Addr) m : m ∈ omap bytes4 addrs \/ m ∈ omap bytes6 addrs ->
  exists a, a ∈ addrs /\ a <> AddrZero /\ AsSlice a = m.
Proof. intros [H|H]; apply list_elem_of_omap in H as (a & Ha & E); destruct a; simplify_eq/=; eauto. Qed.

Lemma group_prefix_contains M cap p m : group_prefix M cap p -> (forall m, m ∈ M -> bytes_ok m) ->
  m ∈ M -> p_Contains p (addr_of m) = true.
Proof.
  intros (n & ip & -> & (Hn & Hip & Hag & _) & HL & Hcap & Hlen) HM Hm.
  apply Contains_agree; [done|done|by apply HM|by apply Hlen|lia|by apply Hag].
Qed.

Lemma CoveringPrefixes_cover (addrs : list Addr) a :
  a ∈ addrs -> addr_wf a -> a <> AddrZero ->
  exists p, p ∈ CoveringPrefixes addrs /\ p_Contains p (withoutZone a) = true.
Proof.
  intros Ha Hw Hne. destruct (addr_of_AsSlice a Hw Hne) as (<- & Hb & _).
  destruct (omap_bytes_ok addrs) as [B4 B6].
  destruct a as [|v|v z]; [done|..].
  - assert (Hm : be_bytes 4 v ∈ omap bytes4 addrs) by (apply list_elem_of_omap; by exists (Addr4 v)).
    destruct (CoveringPrefixes_has4 addrs _ Hm) as (p & Hp & Hg). exists p. split; [done|].
    eapply group_prefix_contains; [exact Hg|intros m Hk%elem_of_keyed; apply B4, Hk|by apply elem_of_keyed].
  - assert (Hm : be_bytes 16 v ∈ omap bytes6 addrs) by (apply list_elem_of_omap; by exists (Addr6 v z)).
    destruct (CoveringPrefixes_has6 addrs _ Hm) as (p & Hp & Hg). exists p. split; [done|].
    eapply group_prefix_contains; [exact Hg|intros m Hk%elem_of_keyed; apply B6, Hk|by apply elem_of_keyed].
Qed.

Lemma list_nonempty_elem {A} (l : list A) : l <> [] -> exists x, x ∈ l.
Proof. destruct l as [|x l]; [done|]. exists x. left. Qed.
Lemma CoveringPrefixes_pfx_wf (addrs : list Addr) p : p ∈ CoveringPrefixes addrs -> pfx_wf p /\ p_IsValid p = true.
Proof.
  intros Hp. assert (H : exists n ip, p = PrefixFrom (addr_of ip) n /\ bytes_ok ip /\ len_ok ip /\ 0 <= n <= 8 * Z.of_nat (length ip)).
  { destruct (CoveringPrefixes_group addrs p Hp) as [(r & (n & ip & -> & (Hn & Hip & _) & HL & Hcap & _) & _)|(r & (n & ip & -> & (Hn & Hip & _) & HL & Hcap & _) & _)];
      exists n, ip; split_and!; done || lia. }
  destruct H as (n & ip & -> & Hb & HL & Hn). rewrite PrefixFrom_addr_of by done. destruct (addr_of_props ip HL Hb) as (H1 & H2 & H3 & H4 & _).
  unfold p_IsValid, pfx_wf. cbn [pfx_Bits pfx_Addr]. rewrite H4. split; [|apply Z.leb_le; lia]. split_and!; [done|done|right; split; [lia|done]].
Qed.

(** No prefix is made for nothing. *)
Lemma CoveringPrefixes_inhabited (addrs : list Addr) p : Forall addr_wf addrs -> p ∈ CoveringPrefixes addrs ->
  exists a, a ∈ addrs /\ p_Contains p (withoutZone a) = true.
Proof.
  intros Hw Hp. destruct (omap_bytes_ok addrs) as [B4 B6].
  assert (H : exists m M cap, m ∈ M /\ group_prefix M cap p /\ (forall m, m ∈ M -> bytes_ok m) /\ (m ∈ omap bytes4 addrs \/ m ∈ omap bytes6 addrs)).
  { destruct (CoveringPrefixes_group addrs p Hp) as [(r & Hg & Hne)|(r & Hg & Hne)];
      apply list_nonempty_elem in Hne as [m Hm]; exists m; eexists _, _; (split_and!; [exact Hm|exact Hg| |]).
    - intros x [_ Hx]%elem_of_keyed. by apply B4.
    - apply elem_of_keyed in Hm as [_ Hm]. by left.
    - intros x [_ Hx]%elem_of_keyed. by apply B6.
    - apply elem_of_keyed in Hm as [_ Hm]. by right. }
  destruct H as (m & M & cap & Hm & Hg & HM & Hin). pose proof (group_prefix_contains M cap p m Hg HM Hm) as Hc.
  destruct (elem_of_bytes addrs m Hin) as (a & Ha & Hne & <-). exists a. split; [done|].
  rewrite Forall_forall in Hw. destruct (addr_of_AsSlice a (Hw a Ha) Hne) as (E & _). by rewrite E in Hc.
Qed.

(** C2. Every valid address handed to [CoveringPrefixes] is in one of the prefixes it returns. *)
Theorem CoveringPrefixes_covers (addrs : list Addr) a :
  a ∈ addrs -> addr_wf a -> a <> AddrZero ->
  exists p, p ∈ CoveringPrefixes addrs /\ p_Contains p (withoutZone a) = true.
Proof. apply CoveringPrefixes_cover. Qed.

Lemma CoveringPrefixes_covers_witness :
  exists p, p ∈ CoveringPrefixes [AddrFrom4 [10; 1; 4; 7]; AddrFrom4 [10; 1; 6; 9]] /\
    p_Contains p (withoutZone (AddrFrom4 [10; 1; 6; 9])) = true.
Proof.
  apply (CoveringPrefixes_covers [AddrFrom4 [10; 1; 4; 7]; AddrFrom4 [10; 1; 6; 9]] (AddrFrom4 [10; 1; 6; 9]));
    [decide_it|decide_it|done].
Defined.

(** Two of the addresses in [p] that no prefix with a longer mask holds together. *)
Definition mask_is_maximal (addrs : list Addr) (p : Prefix) : Prop :=
  exists a b, a ∈ addrs /\ b ∈ addrs /\
    p_Contains p (withoutZone a) = true /\ p_Contains p (withoutZone b) = true /\
    forall q, pfx_wf q -> pfx_Bits p < pfx_Bits q ->
      ~ (p_Contains q (withoutZone a) = true /\ p_Contains q (withoutZone b) = true).

Lemma group_prefix_maximal (addrs : list Addr) M cap p : Forall addr_wf addrs ->
  (forall m, m ∈ M -> exists a, a ∈ addrs /\ a <> AddrZero /\ AsSlice a = m) ->
  group_prefix M cap p -> pfx_Bits p < cap -> mask_is_maximal addrs p.
Proof.
  intros Hw HM Hg Hlt.
  assert (HMb : forall m, m ∈ M -> bytes_ok m).
  { intros m Hm. destruct (HM m Hm) as (a & Ha & Hne & <-). apply addr_of_AsSlice; [|done].
    by eapply Forall_forall. }
  pose proof (fun m => group_prefix_contains M cap p m Hg HMb) as Hc.
  destruct Hg as (n & ip & -> & (Hn & Hip & Hag & Hd) & HL & Hcap & Hlen).
  rewrite PrefixFrom_addr_of in * by (done || lia). simpl in Hlt.
  destruct (Hd Hlt) as (m1 & m2 & H1 & H2 & Hne).
  destruct (HM m1 H1) as (a & Ha & Na & E1), (HM m2 H2) as (b & Hb & Nb & E2).
  assert (Wa : addr_wf a) by (by eapply Forall_forall). assert (Wb : addr_wf b) by (by eapply Forall_forall).
  destruct (addr_of_AsSlice a Wa Na) as (Ea & Ba & La), (addr_of_AsSlice b Wb Nb) as (Eb & Bb & _).
  rewrite E1 in *. rewrite E2 in *. exists a, b. rewrite <- Ea, <- Eb. split_and!; [done..|auto|auto|].
  intros q Hq Hbits. apply (no_longer_mask q m1 m2 n); try done; [|lia].
  by rewrite (Hlen _ H1), (Hlen _ H2).
Qed.

(** Each prefix returned by [CoveringPrefixes] has as long a mask as possible: it is
    a /24 (IPv4) or /120 (IPv6), or two of the addresses it was made for are not
    together in any prefix with a longer mask. *)
Theorem CoveringPrefixes_tight (addrs : list Addr) p :
  Forall addr_wf addrs -> p ∈ CoveringPrefixes addrs ->
  pfx_Bits p = 24 \/ pfx_Bits p = 120 \/ mask_is_maximal addrs p.
Proof.
  intros Hw Hp. destruct (CoveringPrefixes_group addrs p Hp) as [(r & Hg & _)|(r & Hg & _)].
  - destruct (decide (pfx_Bits p < 24)) as [Hlt|Hge].
    + right. right. eapply group_prefix_maximal; [done| |exact Hg|done].
      intros m [_ Hm]%elem_of_keyed. apply elem_of_bytes. by left.
    + left. destruct Hg as (n & ip & -> & (Hn & Hip & _) & HL & Hcap & _).
      rewrite PrefixFrom_addr_of in * by (done || lia). simpl in *. lia.
  - destruct (decide (pfx_Bits p < 120)) as [Hlt|Hge].
    + right. right. eapply group_prefix_maximal; [done| |exact Hg|done].
      intros m [_ Hm]%elem_of_keyed. apply elem_of_bytes. by right.
    + right. left. destruct Hg as (n & ip & -> & (Hn & Hip & _) & HL & Hcap & _).
      rewrite PrefixFrom_addr_of in * by (done || lia). simpl in *. lia.
Qed.

Lemma CoveringPrefixes_tight_witness :
  let addrs := [AddrFrom4 [10; 1; 4; 7]; AddrFrom4 [10; 1; 6; 9]] in
  let p := PrefixFrom (AddrFrom4 [10; 1; 4; 0]) 22 in
  pfx_Bits p = 24 \/ pfx_Bits p = 120 \/ mask_is_maximal addrs p.
Proof.
  apply (CoveringPrefixes_tight [AddrFrom4 [10; 1; 4; 7]; AddrFrom4 [10; 1; 6; 9]]); decide_it.
Defined.
