(* ===== verification/SubnetSet.v ===== *)
(** * Sets of subnets (src/pkg/subnet/set.go)

    [Set] is a Go map from prefixes to empty structs: a [gset].  The operations
    that change the receiver return the new set beside their result. *)
From S2P Require Import Prelude NetIP.

Abbreviation Set_ := (gset Prefix).

Definition set_Add (s : Set_) (subnet : Prefix) : Set_ * bool :=
  if bool_decide (subnet ∈ s) then (s, false) else ({[subnet]} ∪ s, true).

Definition set_Delete (s : Set_) (subnet : Prefix) : Set_ * bool :=
  if bool_decide (subnet ∈ s) then (s ∖ {[subnet]}, true) else (s, false).

Definition NewSet (subnets : list Prefix) : Set_ := foldl (fun s sn => (set_Add s sn).1) ∅ subnets.

Definition set_Equals (s o : Set_) : bool :=
  if negb (Nat.eqb (size s) (size o)) then false
  else forallb (fun key => bool_decide (key ∈ o)) (elements s).

(** The comparison of [sortedKeys]: address, then mask length. *)
Definition key_less (p q : Prefix) : bool :=
  if bool_decide (pfx_Addr p = pfx_Addr q) then pfx_Bits p <? pfx_Bits q
  else a_Less (pfx_Addr p) (pfx_Addr q).
Definition key_le (p q : Prefix) : Prop := key_less q p = false.
Global Instance key_le_dec : RelDecision key_le.
Proof. intros p q. unfold key_le. apply _. Defined.

Definition sortedKeys (s : Set_) : list Prefix := merge_sort key_le (elements s).

Definition AppendSortedTo (s : Set_) (subnets : list Prefix) : list Prefix :=
  if Nat.eqb (size s) 0 then subnets else subnets ++ sortedKeys s.

(** [maps.Copy]. *)
Definition set_Clone (s : Set_) : Set_ := s.

(** ** Facts *)
Global Instance key_le_total : Total key_le.
Proof.
  intros p q. unfold key_le, key_less.
  case_bool_decide as E; case_bool_decide as E'; try congruence.
  - destruct (Z.ltb_spec (pfx_Bits q) (pfx_Bits p)); [|by left].
    right. apply Z.ltb_ge. lia.
  - destruct (total a_le (pfx_Addr p) (pfx_Addr q)); auto.
Qed.

Lemma key_le_spec p q : key_le p q <->
  a_le (pfx_Addr p) (pfx_Addr q) /\ (pfx_Addr p = pfx_Addr q -> pfx_Bits p <= pfx_Bits q).
Proof.
  unfold key_le, key_less. case_bool_decide as E.
  - rewrite E, Z.ltb_ge. split; [|naive_solver]. intros. split; [|done].
    by destruct (total a_le (pfx_Addr p) (pfx_Addr p)).
  - unfold a_le. split; [|naive_solver]. intros. split; [done|congruence].
Qed.

Global Instance key_le_trans : Transitive key_le.
Proof.
  intros p q r. rewrite !key_le_spec. intros [H1 E1] [H2 E2]. split; [by etrans|].
  intros E. assert (Hpq : pfx_Addr p = pfx_Addr q).
  { apply a_le_antisym; [done|]. by rewrite E. }
  specialize (E1 Hpq). rewrite Hpq in E. specialize (E2 E). lia.
Qed.

Lemma set_Add_elem s sn x : x ∈ (set_Add s sn).1 <-> x = sn \/ x ∈ s.
Proof. unfold set_Add. case_bool_decide; set_solver. Qed.

Lemma NewSet_snoc l sn : NewSet (l ++ [sn]) = (set_Add (NewSet l) sn).1.
Proof. unfold NewSet. by rewrite foldl_snoc. Qed.

(** [NewSet] holds exactly the given subnets, [Add] and [Delete] report whether they
    changed the set, and [Equals] decides equality of contents. *)
Theorem Set_operations_correct (s o : Set_) (l : list Prefix) (sn : Prefix) :
  (forall x, x ∈ NewSet l <-> x ∈ l) /\
  set_Add s sn = ({[sn]} ∪ s, bool_decide (sn ∉ s)) /\
  set_Delete s sn = (s ∖ {[sn]}, bool_decide (sn ∈ s)) /\
  (set_Equals s o = true <-> s = o).
Proof.
  split_and!.
  - intros x. induction l as [|y l IH] using rev_ind; [set_solver|].
    rewrite NewSet_snoc, set_Add_elem, IH, elem_of_app, list_elem_of_singleton. tauto.
  - unfold set_Add. case_bool_decide; case_bool_decide; try done. f_equal. set_solver.
  - unfold set_Delete. case_bool_decide; [done|]. f_equal. set_solver.
  - unfold set_Equals. destruct (Nat.eqb_spec (size s) (size o)) as [E|E]; simpl.
    + rewrite forallb_forall. setoid_rewrite <- list_elem_of_In. setoid_rewrite elem_of_elements.
      setoid_rewrite bool_decide_eq_true. split; [|set_solver]. intros Hs.
      apply set_subseteq_size_eq; [set_solver|lia].
    + split; [done|]. by intros ->.
Qed.

(** [AppendSortedTo] keeps the given slice and appends every member once, ordered by
    address and mask length. *)
Theorem AppendSortedTo_sorted (s : Set_) (subnets : list Prefix) :
  exists keys, AppendSortedTo s subnets = subnets ++ keys /\ StronglySorted key_le keys /\
    NoDup keys /\ forall x, x ∈ keys <-> x ∈ s.
Proof.
  exists (sortedKeys s). split_and!.
  - unfold AppendSortedTo. destruct (Nat.eqb_spec (size s) 0) as [E|]; [|done].
    apply size_empty_inv in E. unfold sortedKeys.
    replace (elements s) with (@nil Prefix); [by rewrite app_nil_r|].
    symmetry. apply elements_empty_iff. set_solver.
  - apply Sorted_StronglySorted; [apply _|]. apply (Sorted_merge_sort _).
  - unfold sortedKeys. rewrite merge_sort_Permutation. apply NoDup_elements.
  - intros x. unfold sortedKeys. rewrite merge_sort_Permutation. apply elem_of_elements.
Qed.
