(* ===== verification/Vip.v ===== *)
(** * Virtual IP generators (src/pkg/client/rootd/vip/vip.go) and the device's own
      address (src/pkg/vif/owned_address.go)

    A generator counts up from the bottom of its subnet and hands out only the
    lower half; the virtual network device takes one address from the upper half
    of the same range.  The counters are machine integers with wrap-around. *)
From S2P Require Import Prelude NetIP Bitfield Subnet SubnetSpec.

(** ** Conversions between addresses and integers *)
Definition ipV4FromInt (v : Z) : Addr :=
  AddrFrom4 [ u8 (Z.shiftr (Z.land v 0xff000000) 24); u8 (Z.shiftr (Z.land v 0x00ff0000) 16);
              u8 (Z.shiftr (Z.land v 0x0000ff00) 8); u8 (Z.land v 0x000000ff) ].

(** [uint32(v[0])<<24 | ... | uint32(v[3])]; [As4] panics on other families. *)
Definition join4 (v : list Z) : Z :=
  match v with
  | [a; b; c; d] => Z.lor (Z.lor (Z.lor (u32 (Z.shiftl a 24)) (u32 (Z.shiftl b 16))) (u32 (Z.shiftl c 8))) d
  | _ => 0
  end.
Definition intFromIPV4 (a : Addr) : option Z := v ← As4 a; Some (join4 v).

Definition split8 (v : Z) : list Z :=
  [ u8 (Z.shiftr (Z.land v 0xff00000000000000) 56); u8 (Z.shiftr (Z.land v 0x00ff000000000000) 48);
    u8 (Z.shiftr (Z.land v 0x0000ff0000000000) 40); u8 (Z.shiftr (Z.land v 0x000000ff00000000) 32);
    u8 (Z.shiftr (Z.land v 0x00000000ff000000) 24); u8 (Z.shiftr (Z.land v 0x0000000000ff0000) 16);
    u8 (Z.shiftr (Z.land v 0x000000000000ff00) 8); u8 (Z.land v 0x00000000000000ff) ].
Definition ipV6FromInts (hi lo : Z) : Addr := AddrFrom16 (split8 hi ++ split8 lo).

Definition join8 (v : list Z) : Z :=
  match v with
  | [a; b; c; d; e; f; g; h] =>
      Z.lor (Z.lor (Z.lor (Z.lor (Z.lor (Z.lor (Z.lor (u64 (Z.shiftl a 56)) (u64 (Z.shiftl b 48)))
        (u64 (Z.shiftl c 40))) (u64 (Z.shiftl d 32))) (u64 (Z.shiftl e 24))) (u64 (Z.shiftl f 16)))
        (u64 (Z.shiftl g 8))) h
  | _ => 0
  end.
Definition intsFromIPV6 (a : Addr) : Z * Z := (join8 (take 8 (As16 a)), join8 (drop 8 (As16 a))).

(** ** Generators *)
Record ip4Generator := { g4_subnet : Prefix; g4_alloc : Prefix; nextVirtualIP : Z }.
Record vip6Provider := { g6_subnet : Prefix; g6_alloc : Prefix; fixedHi : Z; nextLo : Z }.
Inductive Generator := G4 (g : ip4Generator) | G6 (g : vip6Provider).

Inductive vip_error := ErrExhausted (subnet : Prefix) | ErrNoVirtualSubnet (a : Addr).

Definition ip4_Next (v : ip4Generator) : ip4Generator * Go vip_error Addr :=
  let n := u32 (nextVirtualIP v + 1) in
  let v' := {| g4_subnet := g4_subnet v; g4_alloc := g4_alloc v; nextVirtualIP := n |} in
  let nxt := ipV4FromInt n in
  (v', if negb (p_Contains (g4_alloc v) nxt) then Fail (ErrExhausted (g4_subnet v)) else Ret nxt).

Definition vip6_Next (v : vip6Provider) : vip6Provider * Go vip_error Addr :=
  let n := u64 (nextLo v + 1) in
  let v' := {| g6_subnet := g6_subnet v; g6_alloc := g6_alloc v; fixedHi := fixedHi v; nextLo := n |} in
  let nxt := ipV6FromInts (fixedHi v) n in
  (v', if negb (p_Contains (g6_alloc v) nxt) then Fail (ErrExhausted (g6_subnet v)) else Ret nxt).

Definition gen_Next (g : Generator) : Generator * Go vip_error Addr :=
  match g with
  | G4 g => let '(g, r) := ip4_Next g in (G4 g, r)
  | G6 g => let '(g, r) := vip6_Next g in (G6 g, r)
  end.
Definition gen_Subnet (g : Generator) : Prefix :=
  match g with G4 g => g4_subnet g | G6 g => g6_subnet g end.
Definition gen_alloc (g : Generator) : Prefix :=
  match g with G4 g => g4_alloc g | G6 g => g6_alloc g end.

Definition NewGenerator (sn : Prefix) : Generator :=
  let lo := pfx_Addr (Masked sn) in
  let alloc := if pfx_Bits sn <? BitLen (pfx_Addr sn) then PrefixFrom lo (pfx_Bits sn + 1) else sn in
  if Is4 lo
  then G4 {| g4_subnet := sn; g4_alloc := alloc; nextVirtualIP := default 0 (intFromIPV4 lo) |}
  else let '(fixed, loInt) := intsFromIPV6 lo in
       G6 {| g6_subnet := sn; g6_alloc := alloc; fixedHi := fixed; nextLo := loInt |}.

(** ** Generators, one per family *)
Record Generators := { v4 : option Generator; v6 : option Generator; v4Subnet : Prefix; v6Subnet : Prefix }.

Definition NewGenerators (s4 s6 : Prefix) : Generators :=
  {| v4 := None; v6 := None; v4Subnet := s4; v6Subnet := s6 |}.

Definition EnsureFamily (g : Generators) (addr : Addr) : Generators :=
  if Is4 addr then
    match v4 g with
    | None => if p_IsValid (v4Subnet g)
              then {| v4 := Some (NewGenerator (v4Subnet g)); v6 := v6 g; v4Subnet := v4Subnet g; v6Subnet := v6Subnet g |}
              else g
    | Some _ => g
    end
  else
    match v6 g with
    | None => if p_IsValid (v6Subnet g)
              then {| v4 := v4 g; v6 := Some (NewGenerator (v6Subnet g)); v4Subnet := v4Subnet g; v6Subnet := v6Subnet g |}
              else g
    | Some _ => g
    end.

Definition Next (g : Generators) (forAddr : Addr) : Generators * Go vip_error Addr :=
  if Is4 forAddr then
    match v4 g with
    | None => (g, Fail (ErrNoVirtualSubnet forAddr))
    | Some gen => let '(gen, r) := gen_Next gen in
        ({| v4 := Some gen; v6 := v6 g; v4Subnet := v4Subnet g; v6Subnet := v6Subnet g |}, r)
    end
  else
    match v6 g with
    | None => (g, Fail (ErrNoVirtualSubnet forAddr))
    | Some gen => let '(gen, r) := gen_Next gen in
        ({| v4 := v4 g; v6 := Some gen; v4Subnet := v4Subnet g; v6Subnet := v6Subnet g |}, r)
    end.

Definition Subnets (g : Generators) : list Prefix :=
  match v4 g with None => [] | Some gen => [gen_Subnet gen] end ++
  match v6 g with None => [] | Some gen => [gen_Subnet gen] end.

(** ** The device's own address *)

(** The loop of [broadcastAddr]; [i] is the loop index plus one. *)
Fixpoint broadcast_loop (i : nat) (hostBits : Z) (b : list Z) : list Z :=
  match i with
  | O => b
  | S i => if 0 <? hostBits then
             let n := Z.min hostBits 8 in
             broadcast_loop i (hostBits - n) (alter (fun x => Z.lor x (Z.shiftr 0xff (8 - n))) i b)
           else b
  end.

Definition broadcastAddr (p : Prefix) : Addr :=
  let b := AsSlice (pfx_Addr (Masked p)) in
  let hostBits := Z.of_nat (length b) * 8 - pfx_Bits p in
  default AddrZero (AddrFromSlice (broadcast_loop (length b) hostBits b)).

(** The loop of [addrMinus]. *)
Fixpoint minus_loop (i : nat) (n : Z) (b : list Z) : list Z :=
  match i with
  | O => b
  | S i => if 0 <? n then
             let d := u8 n in
             let x := default 0 (b !! i) in
             if d <=? x then minus_loop i (Z.shiftr n 8) (<[i := x - d]> b)
             else minus_loop i (u64 (Z.shiftr n 8 + 1)) (<[i := u8 (u64 (x + 0x100 - d))]> b)
           else b
  end.

Definition addrMinus (a : Addr) (n : Z) : Addr :=
  let b := AsSlice a in default AddrZero (AddrFromSlice (minus_loop (length b) n b)).

(** fd00:0:0:246::/64 *)
Definition TelepresenceULA6 : Prefix := PrefixFrom (Addr6 0xfd000000000002460000000000000000 "") 64.

(** [vs] is the configured [Routing().VirtualSubnet], [dvs] the platform's
    [client.DefaultVirtualSubnet()]. *)
Definition owned_range (vs dvs : Prefix) (ipv4 : bool) : Prefix :=
  if ipv4 then (if p_IsValid vs && Is4 (pfx_Addr vs) then vs else dvs) else TelepresenceULA6.

Definition ownedAddress (vs dvs : Prefix) (ipv4 : bool) (ifaceIndex : Z) : option Addr :=
  let rng := owned_range vs dvs ipv4 in
  if negb (p_IsValid rng) || negb (Bool.eqb (Is4 (pfx_Addr rng)) ipv4) then None
  else
    let hostBits := BitLen (pfx_Addr rng) - pfx_Bits rng in
    if hostBits <? 2 then None
    else
      let upperHalf := u64 (Z.shiftl 1 (Z.min (hostBits - 1) 62)) in
      Some (addrMinus (broadcastAddr rng) (ifaceIndex mod (upperHalf - 1) + 1)).

(** * What the virtual IP generators promise (src/pkg/client/rootd/vip, src/pkg/vif/owned_address.go)

    The k-th call to [Next] returns the k-th address above the bottom of the
    subnet until the lower half is used up; an address handed out is never the
    device's own address; the two families never mix. *)
(** ** Conversions *)
Lemma ipV4FromInt_val v : ipV4FromInt v = Addr4 (wrap 32 v).
Proof.
  unfold ipV4FromInt. rewrite !byte_of_mask by done.
  replace (u8 (Z.land v 255)) with (Z.shiftr v 0 mod 256).
  - unfold AddrFrom4. f_equal. exact (be_val_bytes 4 v).
  - rewrite <- (byte_of_mask v 255 0) by done. by rewrite Z.shiftr_0_r.
Qed.

Lemma split8_bytes v : split8 v = be_bytes 8 v.
Proof.
  unfold split8. rewrite !byte_of_mask by done.
  replace (u8 (Z.land v 255)) with (Z.shiftr v 0 mod 256); [done|].
  rewrite <- (byte_of_mask v 255 0) by done. by rewrite Z.shiftr_0_r.
Qed.

Lemma ipV6FromInts_val hi lo : ipV6FromInts hi lo = Addr6 (wrap 64 hi * 2 ^ 64 + wrap 64 lo) "".
Proof.
  unfold ipV6FromInts, AddrFrom16. f_equal.
  rewrite !split8_bytes, be_val_app, !be_val_bytes, be_bytes_length. done.
Qed.

Lemma wrap_shiftl_byte w a s : is_byte a -> 0 <= s -> s + 8 <= w -> wrap w (Z.shiftl a s) = a * 2 ^ s.
Proof.
  intros Ha Hs Hw. rewrite Z.shiftl_mul_pow2 by done. apply wrap_id. unfold fits, is_byte in *.
  pose proof (Z.pow_le_mono_r 2 (s + 8) w). rewrite Z.pow_add_r in * by lia.
  pose proof (Z.pow_pos_nonneg 2 s). nia.
Qed.

Lemma join4_val l : bytes_ok l -> length l = 4%nat -> join4 l = be_val l.
Proof.
  destruct l as [|a [|b [|c [|d [|? ?]]]]]; simpl; try done. intros H _.
  repeat (apply Forall_cons in H as [? H]). unfold join4.
  rewrite !wrap_shiftl_byte by (done || lia). unfold be_val, is_byte in *. simpl.
  rewrite (lor_add a (b * 2 ^ 16) 24) by (unfold fits; lia).
  replace (a * 2 ^ 24 + b * 2 ^ 16) with ((a * 256 + b) * 2 ^ 16) by lia.
  rewrite (lor_add _ (c * 2 ^ 8) 16) by (unfold fits; lia).
  replace ((a * 256 + b) * 2 ^ 16 + c * 2 ^ 8) with (((a * 256 + b) * 256 + c) * 2 ^ 8) by lia.
  rewrite lor_add by (unfold fits; lia). lia.
Qed.

(** Joining one more byte. *)
Lemma lor_step x b s t : t = s + 8 -> 0 <= s -> is_byte b -> Z.lor (x * 2 ^ t) (b * 2 ^ s) = (x * 256 + b) * 2 ^ s.
Proof.
  intros -> Hs Hb. rewrite lor_add; [rewrite Z.pow_add_r by lia; lia|lia|].
  unfold fits, is_byte in *. rewrite Z.pow_add_r by lia. pose proof (Z.pow_pos_nonneg 2 s). nia.
Qed.

Lemma join8_val l : bytes_ok l -> length l = 8%nat -> join8 l = be_val l.
Proof.
  destruct l as [|a [|b [|c [|d [|e [|f [|g [|h [|? ?]]]]]]]]]; simpl; try done. intros H _.
  repeat (apply Forall_cons in H as [? H]). unfold join8.
  rewrite !wrap_shiftl_byte by (done || lia).
  rewrite (lor_step a b 48 56), (lor_step _ c 40 48), (lor_step _ d 32 40), (lor_step _ e 24 32),
    (lor_step _ f 16 24), (lor_step _ g 8 16) by (done || lia).
  replace h with (h * 2 ^ 0) at 1 by lia. rewrite (lor_step _ h 0 8) by (done || lia).
  unfold be_val. simpl. lia.
Qed.

Lemma intFromIPV4_val v : fits 32 v -> intFromIPV4 (Addr4 v) = Some v.
Proof.
  intros Hv. unfold intFromIPV4. cbn [As4 mbind option_bind]. f_equal.
  rewrite join4_val by (auto with tele || done). rewrite be_val_bytes. by apply Z.mod_small.
Qed.

Lemma intsFromIPV6_val v z : fits 128 v -> intsFromIPV6 (Addr6 v z) = (Z.shiftr v 64, wrap 64 v).
Proof.
  intros Hv. unfold intsFromIPV6. cbn [As16]. change 16%nat with (8 + 8)%nat. rewrite (be_bytes_app 8 8 v).
  rewrite take_app_len, drop_app_len by done.
  rewrite !join8_val by (auto with tele || done). rewrite !be_val_bytes. f_equal.
  apply Z.mod_small. pose proof (shiftr_fits 128 64 v ltac:(lia) Hv) as H. exact H.
Qed.

(** ** The sequence of addresses of one generator *)
Fixpoint after_calls (k : nat) (g : Generator) : Generator :=
  match k with O => g | S k => (gen_Next (after_calls k g)).1 end.

(** Result of call number [S k]. *)
Definition nth_Next (k : nat) (g : Generator) : Go vip_error Addr := (gen_Next (after_calls k g)).2.

Definition counter_bits (a : Addr) : Z := if Is4 a then 32 else 64.
Definition with_val (a : Addr) (v : Z) : Addr := if Is4 a then Addr4 v else Addr6 v "".

(** Lower-half test of a counter that started at the bottom of the subnet. *)
Lemma counter_in_half cw lo size k :
  0 < cw -> 0 < size -> 0 <= lo -> lo mod size = 0 -> 0 <= k < 2 ^ cw ->
  size <= 2 ^ cw /\ 2 ^ cw mod size = 0 \/ size mod 2 ^ cw = 0 ->
  let x := lo / 2 ^ cw * 2 ^ cw + (lo mod 2 ^ cw + k) mod 2 ^ cw in
  (x / size =? lo / size) = (k <? size) /\ (k < size -> x = lo + k).
Proof.
  intros Hcw Hsize Hlo Hm Hk Hor x. set (B := 2 ^ cw) in *. assert (HB : 0 < B) by lia.
  assert (Hc0 : 0 <= lo mod B < B) by (apply Z.mod_pos_bound; lia).
  pose proof (Z.div_mod lo B ltac:(lia)) as HloB.
  assert (Hroom : k < size -> lo mod B + k < B).
  { intros Hks. destruct Hor as [[Hle HBm]|HSm].
    - assert (Hs : (lo mod B) mod size = 0).
      { apply Z.mod_divide; [lia|]. apply Z.mod_divide in Hm, HBm; [|lia..].
        replace (lo mod B) with (lo - B * (lo / B)) by lia.
        apply Z.divide_sub_r; [done|]. by apply Z.divide_mul_l. }
      apply Z.mod_divide in Hs as [q Hq], HBm as [p Hp]; [|lia..].
      assert (q < p) by nia. assert (q * size + size <= p * size) by nia. lia.
    - assert (lo mod B = 0); [|lia]. apply Z.mod_divide; [lia|].
      apply Z.mod_divide in Hm, HSm; [|lia..]. by etrans. }
  assert (Hx : x = lo + k \/ (lo mod B + k >= B /\ x = lo + k - B)).
  { unfold x. destruct (Z.lt_ge_cases (lo mod B + k) B) as [Hlt|Hge].
    - left. rewrite (Z.mod_small (lo mod B + k)) by lia. lia.
    - right. split; [lia|]. replace (lo mod B + k) with (lo mod B + k - B + 1 * B) by lia.
      rewrite Z.mod_add, (Z.mod_small (lo mod B + k - B)) by lia. lia. }
  assert (Hrng : (x / size =? lo / size) = true <-> lo <= x < lo + size).
  { rewrite Z.eqb_eq. apply Z.mod_divide in Hm as [q Hq]; [|lia]. rewrite Hq, Z.div_mul by lia.
    split; [intros E|intros E].
    - pose proof (Z.div_mod x size ltac:(lia)). pose proof (Z.mod_pos_bound x size Hsize). nia.
    - symmetry. apply (Z.div_unique_pos _ _ _ (x - q * size)); lia. }
  split; [|intros; destruct Hx as [|[]]; lia].
  apply eq_true_iff_eq. rewrite Hrng, Z.ltb_lt. destruct Hx as [Hx|[Hge Hx]]; lia.
Qed.

Lemma pow_divides a b : 0 <= a <= b -> 2 ^ b mod 2 ^ a = 0.
Proof.
  intros. replace b with (b - a + a) by lia. rewrite Z.pow_add_r by lia. apply Z.mod_mul. lia.
Qed.

Lemma keep_top_mod w b v : 0 <= b < w -> fits w v -> keep_top w b v mod 2 ^ (w - b - 1) = 0.
Proof.
  intros Hb Hv. unfold keep_top. rewrite Z.shiftl_mul_pow2 by lia.
  apply Z.mod_divide; [lia|]. apply Z.divide_mul_r. apply Z.mod_divide; [lia|]. apply pow_divides. lia.
Qed.

(** State of a fresh generator after [k] calls. *)
Lemma after_calls_4 sn alloc c k :
  after_calls k (G4 {| g4_subnet := sn; g4_alloc := alloc; nextVirtualIP := c |}) =
  G4 {| g4_subnet := sn; g4_alloc := alloc; nextVirtualIP := match k with O => c | _ => wrap 32 (c + Z.of_nat k) end |}.
Proof.
  induction k as [|k IH]; [done|]. cbn [after_calls]. rewrite IH. simpl. do 2 f_equal.
  destruct k; [done|]. unfold wrap. rewrite Zplus_mod_idemp_l. f_equal. lia.
Qed.

Lemma after_calls_6 sn alloc h c k :
  after_calls k (G6 {| g6_subnet := sn; g6_alloc := alloc; fixedHi := h; nextLo := c |}) =
  G6 {| g6_subnet := sn; g6_alloc := alloc; fixedHi := h; nextLo := match k with O => c | _ => wrap 64 (c + Z.of_nat k) end |}.
Proof.
  induction k as [|k IH]; [done|]. cbn [after_calls]. rewrite IH. simpl. do 2 f_equal.
  destruct k; [done|]. unfold wrap. rewrite Zplus_mod_idemp_l. f_equal. lia.
Qed.

Lemma next_counter w c k :
  wrap w (match k with O => c | S _ => wrap w (c + Z.of_nat k) end + 1) = wrap w (c + Z.of_nat (S k)).
Proof.
  destruct k; [f_equal; lia|]. unfold wrap. rewrite Zplus_mod_idemp_l. f_equal. lia.
Qed.

(** The bottom address of a subnet. *)
Definition bottom (sn : Prefix) : Z := keep_top (BitLen (pfx_Addr sn)) (pfx_Bits sn) (addr_val (pfx_Addr sn)).

Lemma Masked_val sn : pfx_wf sn -> p_IsValid sn = true ->
  pfx_Addr (Masked sn) = with_val (pfx_Addr sn) (bottom sn) /\ addr_wf (pfx_Addr (Masked sn)) /\ fits (BitLen (pfx_Addr sn)) (bottom sn).
Proof.
  intros Hwf V. destruct (valid_bits sn Hwf V) as [Hb Hne]. destruct Hwf as (Ha & _ & _).
  unfold Masked, bottom, a_Prefix, with_val. destruct (Z.ltb_spec (pfx_Bits sn) 0); [lia|].
  destruct (pfx_Addr sn) as [|v|v z]; [done|..]; simpl in *.
  - destruct (Z.ltb_spec 32 (pfx_Bits sn)); [lia|]. simpl. split_and!; [done|..]; apply keep_top_fits; done || lia.
  - destruct (Z.ltb_spec 128 (pfx_Bits sn)); [lia|]. simpl. split_and!; [done|..]; apply keep_top_fits; done || lia.
Qed.

Lemma alloc_Contains sn x : pfx_wf sn -> p_IsValid sn = true -> pfx_Bits sn < BitLen (pfx_Addr sn) ->
  p_Contains (gen_alloc (NewGenerator sn)) (with_val (pfx_Addr sn) x) =
  (x / 2 ^ (BitLen (pfx_Addr sn) - pfx_Bits sn - 1) =? bottom sn / 2 ^ (BitLen (pfx_Addr sn) - pfx_Bits sn - 1)).
Proof.
  intros Hwf V Hlt. destruct (valid_bits sn Hwf V) as [Hb Hne]. destruct (Masked_val sn Hwf V) as (HM & _ & Hf).
  unfold NewGenerator. rewrite HM. destruct (Z.ltb_spec (pfx_Bits sn) (BitLen (pfx_Addr sn))); [|lia].
  unfold with_val in *.
  destruct (pfx_Addr sn) as [|v|v z] eqn:E; [done|..]; cbn [Is4 BitLen] in *.
  - cbn [gen_alloc g4_alloc]. unfold PrefixFrom. cbn [a_IsValid BitLen withoutZone andb].
    destruct (Z.leb_spec 0 (pfx_Bits sn + 1)), (Z.leb_spec (pfx_Bits sn + 1) 32); try lia. simpl andb.
    unfold p_Contains, p_IsValid. cbn [pfx_Addr pfx_Bits hasZone negb].
    destruct (Z.leb_spec 0 (pfx_Bits sn + 1)); [|lia]. simpl andb.
    rewrite !Z.shiftr_div_pow2 by lia. by replace (32 - (pfx_Bits sn + 1)) with (32 - pfx_Bits sn - 1) by lia.
  - destruct (intsFromIPV6 _) as [h l]. cbn [gen_alloc g6_alloc]. unfold PrefixFrom. cbn [a_IsValid BitLen withoutZone andb].
    destruct (Z.leb_spec 0 (pfx_Bits sn + 1)), (Z.leb_spec (pfx_Bits sn + 1) 128); try lia. simpl andb.
    unfold p_Contains, p_IsValid. cbn [pfx_Addr pfx_Bits hasZone negb bool_decide].
    destruct (Z.leb_spec 0 (pfx_Bits sn + 1)); [|lia]. simpl andb.
    rewrite !Z.shiftr_div_pow2 by lia. by replace (128 - (pfx_Bits sn + 1)) with (128 - pfx_Bits sn - 1) by lia.
Qed.

(** The address value that call number [S k] produces before the range test. *)
Lemma nth_Next_eq sn k B x : pfx_wf sn -> p_IsValid sn = true ->
  B = 2 ^ counter_bits (pfx_Addr sn) ->
  x = bottom sn / B * B + (bottom sn mod B + Z.of_nat (S k)) mod B ->
  nth_Next k (NewGenerator sn) =
  if negb (p_Contains (gen_alloc (NewGenerator sn)) (with_val (pfx_Addr sn) x))
  then Fail (ErrExhausted sn) else Ret (with_val (pfx_Addr sn) x).
Proof.
  intros Hwf V HB Hxx. destruct (valid_bits sn Hwf V) as [Hb Hne]. destruct (Masked_val sn Hwf V) as (HM & _ & Hf).
  unfold NewGenerator. rewrite HM. set (alloc := if _ <? _ then _ else _). clearbody alloc.
  unfold with_val, counter_bits in *.
  destruct (pfx_Addr sn) as [|v|v z] eqn:E; [done|..]; cbn [Is4 BitLen] in *; subst B.
  - rewrite intFromIPV4_val by done. cbn [default from_option id].
    unfold nth_Next. rewrite after_calls_4. cbn [gen_Next ip4_Next snd nextVirtualIP g4_alloc g4_subnet gen_alloc].
    rewrite next_counter, ipV4FromInt_val, (wrap_id 32 (wrap 32 _)) by (by apply wrap_fits).
    assert (Hx : wrap 32 (bottom sn + Z.of_nat (S k)) = x).
    { rewrite Hxx. unfold wrap. rewrite Z.div_small, (Z.mod_small (bottom sn)) by done. lia. }
    rewrite Hx. by destruct (p_Contains alloc (Addr4 x)).
  - rewrite intsFromIPV6_val by done. cbn beta iota zeta.
    unfold nth_Next. rewrite after_calls_6. cbn [gen_Next vip6_Next snd nextLo fixedHi g6_alloc g6_subnet gen_alloc].
    rewrite next_counter, ipV6FromInts_val, (wrap_id 64 (wrap 64 _)) by (by apply wrap_fits).
    rewrite (wrap_id 64 (Z.shiftr _ 64)) by (apply (shiftr_fits 128 64); done || lia).
    assert (Hx : Z.shiftr (bottom sn) 64 * 2 ^ 64 + wrap 64 (wrap 64 (bottom sn) + Z.of_nat (S k)) = x).
    { rewrite Hxx. by rewrite Z.shiftr_div_pow2 by lia. }
    rewrite Hx. by destruct (p_Contains alloc (Addr6 x "")).
Qed.

(** Call number [S k] to [Next] on a fresh generator returns the address [S k] above
    the bottom of its subnet as long as that is in the lower half of the subnet, and
    the exhausted error from then on, until the counter has wrapped around. *)
Theorem Next_sequence sn k :
  pfx_wf sn -> p_IsValid sn = true -> pfx_Bits sn < BitLen (pfx_Addr sn) ->
  Z.of_nat (S k) < 2 ^ counter_bits (pfx_Addr sn) ->
  nth_Next k (NewGenerator sn) =
  if Z.of_nat (S k) <? 2 ^ (BitLen (pfx_Addr sn) - pfx_Bits sn - 1)
  then Ret (with_val (pfx_Addr sn) (bottom sn + Z.of_nat (S k)))
  else Fail (ErrExhausted sn).
Proof.
  intros Hwf V Hlt Hk. destruct (valid_bits sn Hwf V) as [Hb Hne]. destruct (Masked_val sn Hwf V) as (_ & _ & Hf).
  rewrite (nth_Next_eq sn k _ _ Hwf V eq_refl eq_refl), alloc_Contains by done.
  destruct (counter_in_half (counter_bits (pfx_Addr sn)) (bottom sn)
    (2 ^ (BitLen (pfx_Addr sn) - pfx_Bits sn - 1)) (Z.of_nat (S k))) as [H1 H2].
  - unfold counter_bits. case_match; lia.
  - lia.
  - apply Hf.
  - apply keep_top_mod; [lia|]. destruct Hwf as (Ha & _). by destruct (pfx_Addr sn).
  - lia.
  - destruct (Z.le_gt_cases (BitLen (pfx_Addr sn) - pfx_Bits sn - 1) (counter_bits (pfx_Addr sn))).
    + left. split; [apply Z.pow_le_mono_r; lia|apply pow_divides; lia].
    + right. apply pow_divides. unfold counter_bits in *. case_match; lia.
  - rewrite H1. destruct (Z.ltb_spec (Z.of_nat (S k)) (2 ^ (BitLen (pfx_Addr sn) - pfx_Bits sn - 1))); [|done].
    cbn [negb]. by rewrite H2.
Qed.

Lemma Next_sequence_witness :
  nth_Next 4 (NewGenerator (PrefixFrom (AddrFrom4 [246; 246; 0; 0]) 16)) = Ret (AddrFrom4 [246; 246; 0; 5]).
Proof.
  rewrite (Next_sequence (PrefixFrom (AddrFrom4 [246; 246; 0; 0]) 16) 4);
    [vm_compute; reflexivity|decide_it|reflexivity|reflexivity|reflexivity].
Defined.

(** ** The device's own address *)
Lemma alter_mid {A} (f : A -> A) l x k : alter f (length l) (l ++ x :: k) = l ++ f x :: k.
Proof. induction l as [|y l IH]; simpl; [done|]. by f_equal. Qed.
Lemma insert_mid {A} (l : list A) x y k : <[length l := y]> (l ++ x :: k) = l ++ y :: k.
Proof. induction l as [|z l IH]; simpl; [done|]. by f_equal. Qed.
Lemma lookup_mid {A} (l : list A) x k : (l ++ x :: k) !! length l = Some x.
Proof. induction l as [|z l IH]; simpl; done. Qed.

Lemma shiftr_ff n : 0 <= n <= 8 -> Z.shiftr 0xff (8 - n) = Z.ones n.
Proof.
  intros H. change 0xff with (Z.ones 8). rewrite Z.ones_equiv, !Z.shiftr_div_pow2 by lia.
  assert (Hc : n = 0 \/ n = 1 \/ n = 2 \/ n = 3 \/ n = 4 \/ n = 5 \/ n = 6 \/ n = 7 \/ n = 8) by lia.
  destruct Hc as [->|[->|[->|[->|[->|[->|[->|[->| ->]]]]]]]]; reflexivity.
Qed.

Lemma be_val_snoc l x : be_val (l ++ [x]) = be_val l * 256 + x.
Proof. rewrite be_val_app. change (256 ^ Z.of_nat (length [x])) with 256. change (be_val [x]) with (0 * 256 + x). lia. Qed.

(** The broadcast loop sets the low [h] bits. *)
Lemma broadcast_loop_spec l h k : bytes_ok l -> exists r,
  broadcast_loop (length l) h (l ++ k) = r ++ k /\ length r = length l /\ bytes_ok r /\
  be_val r = Z.lor (be_val l) (Z.ones (Z.min (Z.max h 0) (8 * Z.of_nat (length l)))).
Proof.
  revert h k. induction l as [|x l IH] using rev_ind; intros h k Hl.
  { exists []. split_and!; try done. simpl. rewrite Z.min_r by lia. done. }
  apply Forall_app in Hl as [Hl Hx]. apply Forall_cons in Hx as [Hx _].
  pose proof (be_val_bound l Hl) as HvB.
  rewrite length_app, Nat.add_1_r. cbn [broadcast_loop].
  destruct (Z.ltb_spec 0 h) as [Hh|Hh].
  2:{ exists (l ++ [x]). split_and!; [done|rewrite length_app; simpl; lia|by apply Forall_app; split; [|constructor]|].
      rewrite (Z.max_r h) by lia. rewrite Z.min_l by lia. change (Z.ones 0) with 0. by rewrite Z.lor_0_r. }
  rewrite <- (app_assoc l). cbn [app]. rewrite alter_mid, shiftr_ff by lia.
  assert (Hn : fits 8 (Z.lor x (Z.ones (Z.min h 8)))).
  { apply fits_lor; [lia|apply Hx|]. rewrite Z.ones_equiv. pose proof (Z.pow_le_mono_r 2 (Z.min h 8) 8).
    unfold fits. lia. }
  destruct (IH (h - Z.min h 8) (Z.lor x (Z.ones (Z.min h 8)) :: k) Hl) as (r & E & Lr & Br & Vr).
  exists (r ++ [Z.lor x (Z.ones (Z.min h 8))]). rewrite E, <- app_assoc. split_and!; [done| | |].
  - rewrite length_app. simpl. lia.
  - apply Forall_app. split; [done|]. by constructor.
  - rewrite !be_val_snoc, Vr. apply bits_ext. intros i Hi. rewrite Z.lor_spec.
    change 256 with (2 ^ 8). rewrite !(testbit_add_high _ _ 8) by (done || lia || exact Hx).
    destruct (Z.ltb_spec i 8); rewrite Z.lor_spec; f_equal; rewrite !Z.testbit_ones_nonneg by lia;
      apply eq_true_iff_eq; rewrite !Z.ltb_lt; lia.
Qed.

(** The subtraction loop computes modulo the width of the address. *)
Lemma minus_loop_spec l n k : bytes_ok l -> 0 <= n < 2 ^ 64 - 1 -> exists r,
  minus_loop (length l) n (l ++ k) = r ++ k /\ length r = length l /\ bytes_ok r /\
  be_val r = (be_val l - n) mod 256 ^ Z.of_nat (length l).
Proof.
  revert n k. induction l as [|x l IH] using rev_ind; intros n k Hl Hn.
  { exists []. split_and!; try done. simpl. by rewrite Z.mod_1_r. }
  apply Forall_app in Hl as [Hl Hx]. apply Forall_cons in Hx as [Hx _]. unfold is_byte in Hx.
  rewrite length_app, Nat.add_1_r. cbn [minus_loop].
  destruct (Z.ltb_spec 0 n) as [Hpos|Hz].
  2:{ exists (l ++ [x]). split_and!; [done|rewrite length_app; simpl; lia|by apply Forall_app; split; [|constructor]|].
      replace n with 0 by lia. rewrite Z.sub_0_r, Z.mod_small; [done|].
      pose proof (be_val_bound (l ++ [x])) as Hb. rewrite length_app, Nat.add_1_r in Hb. apply Hb.
      by apply Forall_app; split; [|constructor]. }
  rewrite <- (app_assoc l). cbn [app]. rewrite lookup_mid. cbn [default from_option id].
  set (d := wrap 8 n). assert (Hd : 0 <= d < 256) by (apply Z.mod_pos_bound; lia).
  assert (Hnd : n = n / 256 * 256 + d) by (unfold d, wrap; change (2 ^ 8) with 256; pose proof (Z.div_mod n 256); lia).
  assert (Hdiv : 0 <= n / 256 < 2 ^ 56) by (split; [apply Z.div_pos; lia|apply Z.div_lt_upper_bound; lia]).
  rewrite Z.shiftr_div_pow2 by lia. change (2 ^ 8) with 256.
  assert (Hfin : forall m y, 0 <= y < 256 -> 0 <= m < 2 ^ 64 - 1 -> be_val l * 256 + x - n = (be_val l - m) * 256 + y ->
    exists r, minus_loop (length l) m (<[length l:=y]> (l ++ x :: k)) = r ++ k /\ length r = S (length l) /\ bytes_ok r /\
      be_val r = (be_val (l ++ [x]) - n) mod 256 ^ Z.of_nat (S (length l))).
  { intros m y Hy Hm Heq. rewrite insert_mid. destruct (IH m (y :: k) Hl Hm) as (r & E & Lr & Br & Vr).
    exists (r ++ [y]). rewrite E, <- app_assoc. split_and!; [done| | |].
    - rewrite length_app. simpl. lia.
    - apply Forall_app. split; [done|]. by constructor.
    - rewrite !be_val_snoc, Vr, Heq.
      replace (Z.of_nat (S (length l))) with (1 + Z.of_nat (length l)) by lia.
      rewrite Z.pow_add_r, Z.pow_1_r by lia. rewrite (Z.rem_mul_r ((be_val l - m) * 256 + y)) by lia.
      rewrite (Z.add_comm ((be_val l - m) * 256) y), (Z.mod_add y), (Z.mod_small y), (Z.div_add y), (Z.div_small y 256), Z.add_0_l by lia. lia. }
  destruct (Z.leb_spec d x).
  - apply Hfin; lia.
  - rewrite (wrap_id 64 (x + 256 - d)), (wrap_id 8 (x + 256 - d)), (wrap_id 64 (n / 256 + 1)) by (unfold fits; lia).
    apply Hfin; lia.
Qed.

Lemma AddrFromSlice_addr_of l : len_ok l -> AddrFromSlice l = Some (addr_of l).
Proof. intros [E|E]; unfold AddrFromSlice, addr_of; rewrite E; done. Qed.

Lemma broadcastAddr_val p : pfx_wf p -> p_IsValid p = true ->
  BitLen (broadcastAddr p) = BitLen (pfx_Addr p) /\ hasZone (broadcastAddr p) = false /\ addr_wf (broadcastAddr p) /\
  addr_val (broadcastAddr p) = bottom p + 2 ^ (BitLen (pfx_Addr p) - pfx_Bits p) - 1.
Proof.
  intros Hwf V. destruct (valid_bits p Hwf V) as [Hb Hne]. destruct (Masked_val p Hwf V) as (HM & Hmw & Hf).
  assert (HMne : pfx_Addr (Masked p) <> AddrZero) by (rewrite HM; unfold with_val; by case_match).
  destruct (addr_of_AsSlice _ Hmw HMne) as (Ea & Bb & Lb).
  assert (Hlen : 8 * Z.of_nat (length (AsSlice (pfx_Addr (Masked p)))) = BitLen (pfx_Addr p)).
  { rewrite HM. unfold with_val. by destruct (pfx_Addr p). }
  assert (Hval : be_val (AsSlice (pfx_Addr (Masked p))) = bottom p).
  { destruct (addr_of_props _ Lb Bb) as (_ & _ & _ & _ & Hv). rewrite <- Hv, Ea, HM. unfold with_val.
    by case_match. }
  unfold broadcastAddr. set (b := AsSlice (pfx_Addr (Masked p))) in *.
  destruct (broadcast_loop_spec b (Z.of_nat (length b) * 8 - pfx_Bits p) [] Bb) as (r & E & Lr & Br & Vr).
  rewrite !app_nil_r in E. rewrite E.
  assert (HLr : len_ok r) by (unfold len_ok; by rewrite Lr).
  rewrite AddrFromSlice_addr_of by done. simpl.
  destruct (addr_of_props r HLr Br) as (Hw & Hz & _ & Hbl & Hv). split_and!; [lia|done|done|].
  rewrite Hv, Vr, Hval. replace (Z.min _ _) with (BitLen (pfx_Addr p) - pfx_Bits p) by lia.
  unfold bottom, keep_top. rewrite Z.shiftl_mul_pow2 by lia. rewrite lor_add by
    (lia || (rewrite Z.ones_equiv; unfold fits; lia)). rewrite Z.ones_equiv. lia.
Qed.

Lemma addrMinus_val a n : addr_wf a -> a <> AddrZero -> hasZone a = false -> 0 <= n < 2 ^ 64 - 1 -> n <= addr_val a ->
  addrMinus a n = with_val a (addr_val a - n).
Proof.
  intros Hw Hne Hz Hn Hle. destruct (addr_of_AsSlice a Hw Hne) as (Ea & Bb & Lb).
  destruct (addr_of_props _ Lb Bb) as (_ & _ & _ & Hbl & Hv).
  assert (Hva : be_val (AsSlice a) = addr_val a) by (rewrite <- Hv, Ea; by destruct a).
  unfold addrMinus. destruct (minus_loop_spec (AsSlice a) n [] Bb Hn) as (r & E & Lr & Br & Vr).
  rewrite !app_nil_r in E. rewrite E.
  assert (HLr : len_ok r) by (unfold len_ok; by rewrite Lr).
  rewrite AddrFromSlice_addr_of by done. simpl.
  pose proof (be_val_bound _ Bb). rewrite Z.mod_small in Vr by lia.
  unfold addr_of, with_val, AddrFrom4, AddrFrom16. rewrite Lr, Vr, Hva. destruct a; [done|..]; simpl; done.
Qed.

(** Values in the upper half of a subnet. *)
Definition upper_half (rng : Prefix) (x : Z) : Prop :=
  let h := BitLen (pfx_Addr rng) - pfx_Bits rng in
  bottom rng + 2 ^ (h - 1) <= x < bottom rng + 2 ^ h.

Lemma pow2_succ h : 0 < h -> 2 ^ h = 2 * 2 ^ (h - 1).
Proof. intros. replace h with (1 + (h - 1)) at 1 by lia. rewrite Z.pow_add_r by lia. lia. Qed.

Lemma bottom_multiple rng : pfx_wf rng -> p_IsValid rng = true ->
  exists q, bottom rng = q * 2 ^ (BitLen (pfx_Addr rng) - pfx_Bits rng).
Proof.
  intros Hwf V. destruct (valid_bits rng Hwf V). unfold bottom, keep_top.
  rewrite Z.shiftl_mul_pow2 by lia. by eexists.
Qed.

(** The offset from the broadcast address stays below half the range. *)
Lemma owned_offset h ifaceIndex : 2 <= h ->
  1 <= ifaceIndex mod (u64 (Z.shiftl 1 (Z.min (h - 1) 62)) - 1) + 1 <= 2 ^ Z.min (h - 1) 62 - 1 /\
  2 ^ Z.min (h - 1) 62 <= 2 ^ (h - 1) /\ 2 ^ Z.min (h - 1) 62 <= 2 ^ 62.
Proof.
  intros Hh. set (m := Z.min (h - 1) 62).
  assert (Hm : wrap 64 (Z.shiftl 1 m) = 2 ^ m).
  { rewrite Z.shiftl_1_l. apply wrap_id. split; [lia|]. apply Z.pow_lt_mono_r; lia. }
  assert (2 ^ 1 <= 2 ^ m) by (apply Z.pow_le_mono_r; lia).
  rewrite Hm. pose proof (Z.mod_pos_bound ifaceIndex (2 ^ m - 1) ltac:(lia)).
  split_and!; [lia..|apply Z.pow_le_mono_r; lia|apply Z.pow_le_mono_r; lia].
Qed.

Lemma ownedAddress_upper_half vs dvs ipv4 ifaceIndex owned :
  let rng := owned_range vs dvs ipv4 in
  pfx_wf rng -> ownedAddress vs dvs ipv4 ifaceIndex = Some owned ->
  p_IsValid rng = true /\ pfx_Bits rng + 2 <= BitLen (pfx_Addr rng) /\
  exists x, owned = with_val (pfx_Addr rng) x /\ upper_half rng x.
Proof.
  intros rng Hwf. unfold ownedAddress. fold rng. destruct (p_IsValid rng) eqn:V; [|done]. simpl.
  destruct (Bool.eqb_spec (Is4 (pfx_Addr rng)) ipv4) as [E4|]; [|done]. simpl.
  destruct (Z.ltb_spec (BitLen (pfx_Addr rng) - pfx_Bits rng) 2) as [|Hh]; [done|].
  destruct (valid_bits rng Hwf V) as [Hb Hne]. destruct (Masked_val rng Hwf V) as (_ & _ & Hf0 & _).
  destruct (broadcastAddr_val rng Hwf V) as (HL & Hz & Hw & Hv).
  pose proof (pow2_succ (BitLen (pfx_Addr rng) - pfx_Bits rng) ltac:(lia)) as Hh2.
  destruct (owned_offset _ ifaceIndex Hh) as (Ho & Hm1 & Hm2).
  intros Hown. split; [done|]. split; [lia|]. revert Hown.
  rewrite addrMinus_val; [|done| |done|lia|lia].
  2:{ intros Hzero. rewrite Hzero in HL. by destruct (pfx_Addr rng). }
  intros [= <-]. eexists. split.
  - assert (HI : Is4 (broadcastAddr rng) = Is4 (pfx_Addr rng)) by (by destruct (broadcastAddr rng), (pfx_Addr rng)).
    unfold with_val. by rewrite HI.
  - unfold upper_half. rewrite Hv. lia.
Qed.

Lemma with_val_props a x : a <> AddrZero -> BitLen (with_val a x) = BitLen a /\ addr_val (with_val a x) = x /\
  with_val a x <> AddrZero /\ hasZone (with_val a x) = false.
Proof. intros. unfold with_val. by destruct a. Qed.

Lemma upper_half_Contains rng x : pfx_wf rng -> p_IsValid rng = true -> pfx_Bits rng < BitLen (pfx_Addr rng) ->
  upper_half rng x -> p_Contains rng (with_val (pfx_Addr rng) x) = true.
Proof.
  intros Hwf V Hlt Hx. destruct (valid_bits rng Hwf V) as [Hb Hne]. apply Contains_val; [done|].
  destruct (with_val_props (pfx_Addr rng) x Hne) as (-> & -> & ? & ?). split_and!; [done..|].
  rewrite <- (keep_top_shiftr _ (pfx_Bits rng) (addr_val (pfx_Addr rng))) by lia. fold (bottom rng).
  destruct (bottom_multiple rng Hwf V) as [q Hq]. unfold upper_half in Hx.
  set (h := BitLen (pfx_Addr rng) - pfx_Bits rng) in *. rewrite !Z.shiftr_div_pow2 by lia.
  pose proof (pow2_succ h ltac:(lia)). rewrite Hq in *. rewrite Z.div_mul by lia.
  symmetry. apply (Z.div_unique_pos _ _ _ (x - q * 2 ^ h)); lia.
Qed.

Lemma upper_half_not_alloc rng x : pfx_wf rng -> p_IsValid rng = true -> pfx_Bits rng < BitLen (pfx_Addr rng) ->
  upper_half rng x -> p_Contains (gen_alloc (NewGenerator rng)) (with_val (pfx_Addr rng) x) = false.
Proof.
  intros Hwf V Hlt Hx. rewrite alloc_Contains by done. apply Z.eqb_neq.
  destruct (bottom_multiple rng Hwf V) as [q Hq]. unfold upper_half in Hx.
  set (h := BitLen (pfx_Addr rng) - pfx_Bits rng) in *. pose proof (pow2_succ h ltac:(lia)) as Hh2.
  rewrite Hq, Hh2 in *. replace (q * (2 * 2 ^ (h - 1))) with ((2 * q) * 2 ^ (h - 1)) in * by lia.
  rewrite Z.div_mul by lia. intros Hc.
  pose proof (Z.div_mod x (2 ^ (h - 1)) ltac:(lia)). pose proof (Z.mod_pos_bound x (2 ^ (h - 1)) ltac:(lia)).
  rewrite Hc in *. nia.
Qed.

(** Every address [Next] returns passed the range test. *)
Lemma gen_Next_Contains g g' a : gen_Next g = (g', Ret a) -> p_Contains (gen_alloc g) a = true /\ gen_alloc g' = gen_alloc g.
Proof.
  destruct g as [g|g]; simpl; intros [= <- Hr].
  - destruct (p_Contains (g4_alloc g) _) eqn:C; [|done]. simpl in Hr. by injection Hr as <-.
  - destruct (p_Contains (g6_alloc g) _) eqn:C; [|done]. simpl in Hr. by injection Hr as <-.
Qed.

(** The device's own address is in its range, and no generator of that range returns
    it, whatever the state of its counter: virtual IPs and owned addresses never
    collide. *)
Theorem vip_never_owned vs dvs ipv4 ifaceIndex owned g g' a :
  let rng := owned_range vs dvs ipv4 in
  pfx_wf rng -> ownedAddress vs dvs ipv4 ifaceIndex = Some owned ->
  gen_alloc g = gen_alloc (NewGenerator rng) -> gen_Next g = (g', Ret a) ->
  p_Contains rng owned = true /\ a <> owned.
Proof.
  intros rng Hwf Ho Hg Hn. destruct (ownedAddress_upper_half _ _ _ _ _ Hwf Ho) as (V & Hb & x & -> & Hx).
  fold rng in V, Hb, Hx |- *. clearbody rng. split; [apply upper_half_Contains; done || lia|]. intros ->.
  apply gen_Next_Contains in Hn as [Hc _]. rewrite Hg in Hc.
  by rewrite upper_half_not_alloc in Hc by (done || lia).
Qed.

Definition sample_virtual_subnet : Prefix := PrefixFrom (AddrFrom4 [246; 246; 0; 0]) 16.

Lemma vip_never_owned_witness :
  p_Contains sample_virtual_subnet (AddrFrom4 [246; 246; 255; 251]) = true /\
  AddrFrom4 [246; 246; 0; 1] <> AddrFrom4 [246; 246; 255; 251].
Proof.
  apply (vip_never_owned sample_virtual_subnet PrefixZero true 3 (AddrFrom4 [246; 246; 255; 251])
    (NewGenerator sample_virtual_subnet) (after_calls 1 (NewGenerator sample_virtual_subnet)) (AddrFrom4 [246; 246; 0; 1]));
    [decide_it|vm_compute; reflexivity|reflexivity|vm_compute; reflexivity].
Defined.

(** ** Reachable states of [Generators] *)
Inductive gens_step (s4 s6 : Prefix) : Generators -> Prop :=
  | gens_init : gens_step s4 s6 (NewGenerators s4 s6)
  | gens_ensure g a : gens_step s4 s6 g -> gens_step s4 s6 (EnsureFamily g a)
  | gens_next g a : gens_step s4 s6 g -> gens_step s4 s6 (Next g a).1.

Definition gens_inv (s4 s6 : Prefix) (g : Generators) : Prop :=
  v4Subnet g = s4 /\ v6Subnet g = s6 /\
  (forall gen, v4 g = Some gen -> p_IsValid s4 = true /\ gen_Subnet gen = s4 /\ gen_alloc gen = gen_alloc (NewGenerator s4)) /\
  (forall gen, v6 g = Some gen -> p_IsValid s6 = true /\ gen_Subnet gen = s6 /\ gen_alloc gen = gen_alloc (NewGenerator s6)).

Lemma gen_Next_alloc g : gen_alloc (gen_Next g).1 = gen_alloc g /\ gen_Subnet (gen_Next g).1 = gen_Subnet g.
Proof. by destruct g as [g|g]. Qed.

Lemma NewGenerator_Subnet sn : gen_Subnet (NewGenerator sn) = sn.
Proof. unfold NewGenerator. case_match; [done|]. by destruct (intsFromIPV6 _). Qed.

Lemma gens_step_inv s4 s6 g : gens_step s4 s6 g -> gens_inv s4 s6 g.
Proof.
  induction 1 as [|g a _ IH|g a _ IH]; [done|..]; pose proof IH as (H4 & H6 & I4 & I6).
  - unfold EnsureFamily. destruct (Is4 a).
    + destruct (v4 g); [done|]. destruct (p_IsValid (v4Subnet g)) eqn:V; [|done]. rewrite H4 in *.
      split_and!; try done. intros gen [= <-]. by rewrite NewGenerator_Subnet.
    + destruct (v6 g); [done|]. destruct (p_IsValid (v6Subnet g)) eqn:V; [|done]. rewrite H6 in *.
      split_and!; try done. intros gen [= <-]. by rewrite NewGenerator_Subnet.
  - unfold Next. destruct (Is4 a).
    + destruct (v4 g) as [gen|] eqn:E; [|done]. destruct (gen_Next_alloc gen) as [A B].
      destruct (gen_Next gen) as [gen' r]. simpl in *. split_and!; try done.
      intros ? [= <-]. rewrite A, B. by apply I4.
    + destruct (v6 g) as [gen|] eqn:E; [|done]. destruct (gen_Next_alloc gen) as [A B].
      destruct (gen_Next gen) as [gen' r]. simpl in *. split_and!; try done.
      intros ? [= <-]. rewrite A, B. by apply I6.
Qed.

(** A generator only returns addresses of its subnet. *)
Lemma alloc_in_subnet sn a : pfx_wf sn -> p_IsValid sn = true ->
  p_Contains (gen_alloc (NewGenerator sn)) a = true -> p_Contains sn a = true.
Proof.
  intros Hwf V. destruct (valid_bits sn Hwf V) as [Hb Hne]. destruct (Masked_val sn Hwf V) as (HM & Hmw & Hf).
  assert (E : gen_alloc (NewGenerator sn) =
    if pfx_Bits sn <? BitLen (pfx_Addr sn) then PrefixFrom (pfx_Addr (Masked sn)) (pfx_Bits sn + 1) else sn).
  { unfold NewGenerator. case_match; [done|]. by destruct (intsFromIPV6 _). }
  rewrite E. destruct (Z.ltb_spec (pfx_Bits sn) (BitLen (pfx_Addr sn))); [|done].
  destruct (with_val_props (pfx_Addr sn) (bottom sn) Hne) as (HL & HV & HZ & Hz0).
  apply range_in_Contains; [done|by apply PrefixFrom_wf|done|].
  unfold range_in, PrefixFrom. cbn [pfx_Addr pfx_Bits]. rewrite HM, HL.
  assert (HW : withoutZone (with_val (pfx_Addr sn) (bottom sn)) = with_val (pfx_Addr sn) (bottom sn))
    by (unfold with_val; by destruct (pfx_Addr sn)).
  rewrite HW, HL, HV. destruct (Z.leb_spec 0 (pfx_Bits sn + 1)), (Z.leb_spec (pfx_Bits sn + 1) (BitLen (pfx_Addr sn))); try lia.
  assert (a_IsValid (with_val (pfx_Addr sn) (bottom sn)) = true) as -> by (unfold with_val; by destruct (pfx_Addr sn)).
  simpl. split_and!; [done|lia|]. symmetry. apply keep_top_shiftr. lia.
Qed.

(** In every state reached from [NewGenerators s4 s6] by any sequence of calls, a
    virtual IP returned for an address is in the virtual subnet of that address's
    family, and the subnets reported are the configured ones. *)
Theorem Generators_keep_families s4 s6 g forAddr g' a :
  pfx_wf s4 -> pfx_wf s6 -> gens_step s4 s6 g -> Next g forAddr = (g', Ret a) ->
  p_Contains (if Is4 forAddr then s4 else s6) a = true /\
  forall p, p ∈ Subnets g' -> p = s4 \/ p = s6.
Proof.
  intros W4 W6 Hs Hn.
  assert (Hs' : gens_inv s4 s6 g').
  { apply gens_step_inv. replace g' with (Next g forAddr).1 by (by rewrite Hn). by constructor. }
  split.
  - apply gens_step_inv in Hs as (H4 & H6 & I4 & I6). unfold Next in Hn. destruct (Is4 forAddr).
    + destruct (v4 g) as [gen|] eqn:E; [|done]. destruct (gen_Next gen) as [gen' r] eqn:En. injection Hn as <- ->.
      apply gen_Next_Contains in En as [Hc _]. destruct (I4 gen) as (V & _ & Ha); [done|].
      rewrite Ha in Hc. by apply alloc_in_subnet.
    + destruct (v6 g) as [gen|] eqn:E; [|done]. destruct (gen_Next gen) as [gen' r] eqn:En. injection Hn as <- ->.
      apply gen_Next_Contains in En as [Hc _]. destruct (I6 gen) as (V & _ & Ha); [done|].
      rewrite Ha in Hc. by apply alloc_in_subnet.
  - destruct Hs' as (_ & _ & I4 & I6). intros p. unfold Subnets. rewrite elem_of_app.
    intros [Hp|Hp]; [destruct (v4 g') as [gen|]; [left; destruct (I4 gen eq_refl) as (_ & <- & _)|]
                    |destruct (v6 g') as [gen|]; [right; destruct (I6 gen eq_refl) as (_ & <- & _)|]];
      try (by inversion Hp); by apply list_elem_of_singleton.
Qed.

Lemma Generators_keep_families_witness :
  let s4 := sample_virtual_subnet in let s6 := TelepresenceULA6 in
  let g := EnsureFamily (NewGenerators s4 s6) (AddrFrom4 [10; 0; 0; 7]) in
  p_Contains s4 (AddrFrom4 [246; 246; 0; 1]) = true /\
  forall p, p ∈ Subnets (Next g (AddrFrom4 [10; 0; 0; 7])).1 -> p = s4 \/ p = s6.
Proof.
  apply (Generators_keep_families sample_virtual_subnet TelepresenceULA6
    (EnsureFamily (NewGenerators sample_virtual_subnet TelepresenceULA6) (AddrFrom4 [10; 0; 0; 7])) (AddrFrom4 [10; 0; 0; 7])
    _ (AddrFrom4 [246; 246; 0; 1]));
    [decide_it|decide_it|repeat constructor|vm_compute; reflexivity].
Defined.
