(* ===== verification/GoStrings.v ===== *)
(** * The parts of Go's [strings] and [strconv] that Telepresence uses

    A Go string is a byte string: a [string] of 8-bit characters. *)
From S2P Require Import Prelude.
From Stdlib Require Import Ascii.

(** [strings.IndexByte]; [None] is -1. *)
Fixpoint IndexByte (s : string) (c : ascii) : option nat :=
  match s with
  | EmptyString => None
  | String a s => if bool_decide (a = c) then Some O else S <$> IndexByte s c
  end.

(** [strings.LastIndexByte]. *)
Fixpoint LastIndexByte (s : string) (c : ascii) : option nat :=
  match s with
  | EmptyString => None
  | String a s =>
      match LastIndexByte s c with
      | Some i => Some (S i)
      | None => if bool_decide (a = c) then Some O else None
      end
  end.

(** Slicing: [s[:n]] and [s[n:]]. *)
Fixpoint str_take (n : nat) (s : string) : string :=
  match n, s with
  | S n, String a s => String a (str_take n s)
  | _, _ => EmptyString
  end.
Fixpoint str_drop (n : nat) (s : string) : string :=
  match n, s with
  | O, _ => s
  | S n, String _ s => str_drop n s
  | S _, EmptyString => EmptyString
  end.

Definition lower_ascii (a : ascii) : ascii :=
  let n := N_of_ascii a in
  if (65 <=? n)%N && (n <=? 90)%N then ascii_of_N (n + 32) else a.

(** [strings.ToLower], as far as a comparison with ASCII text can tell: the only
    other runes whose lower case is ASCII are U+0130 (bytes C4 B0, lower case i) and
    U+212A (bytes E2 84 AA, lower case k). *)
Fixpoint ToLower (s : string) : string :=
  match s with
  | EmptyString => EmptyString
  | String a s' =>
      match s' with
      | String b s'' =>
          if (N_of_ascii a =? 0xC4)%N && (N_of_ascii b =? 0xB0)%N then String "i" (ToLower s'')
          else match s'' with
               | String c s3 =>
                   if (N_of_ascii a =? 0xE2)%N && (N_of_ascii b =? 0x84)%N && (N_of_ascii c =? 0xAA)%N
                   then String "k" (ToLower s3) else String (lower_ascii a) (ToLower s')
               | EmptyString => String (lower_ascii a) (ToLower s')
               end
      | EmptyString => String (lower_ascii a) EmptyString
      end
  end.

(** [strings.Count] of a single byte. *)
Fixpoint CountByte (s : string) (c : ascii) : nat :=
  match s with
  | EmptyString => O
  | String a s => (if bool_decide (a = c) then 1 else 0) + CountByte s c
  end%nat.

(** ** Prefixes, suffixes and substrings *)

Fixpoint prefixed (pfx s : string) : bool :=
  match pfx, s with
  | EmptyString, _ => true
  | String a pfx', String b s' => bool_decide (a = b) && prefixed pfx' s'
  | String _ _, EmptyString => false
  end.
Definition HasPrefix (s pfx : string) : bool := prefixed pfx s.

Definition TrimPrefix (s pfx : string) : string := if HasPrefix s pfx then str_drop (String.length pfx) s else s.
Definition HasSuffix (s sfx : string) : bool :=
  Nat.leb (String.length sfx) (String.length s) && bool_decide (str_drop (String.length s - String.length sfx) s = sfx).
Definition TrimSuffix (s sfx : string) : string :=
  if HasSuffix s sfx then str_take (String.length s - String.length sfx) s else s.

(** [strings.Contains]. *)
Fixpoint Contains (s sub : string) : bool :=
  prefixed sub s || match s with EmptyString => false | String _ s' => Contains s' sub end.

(** [strings.Split] at a single byte, and [strings.Join]. *)
Fixpoint SplitByte (s : string) (c : ascii) : list string :=
  match s with
  | EmptyString => [""]
  | String a s =>
      if bool_decide (a = c) then "" :: SplitByte s c
      else match SplitByte s c with
           | h :: t => String a h :: t
           | [] => []
           end
  end.
Fixpoint Join (ss : list string) (sep : string) : string :=
  match ss with
  | [] => ""
  | [s] => s
  | s :: ss => s +:+ sep +:+ Join ss sep
  end.

(** ** Numbers *)

(** [strconv.Itoa] and the verb [%d]. *)
Definition itoa (n : Z) : string := pretty n.

Definition digit (a : ascii) : option Z :=
  let n := Z.of_N (N_of_ascii a) in
  if (48 <=? n) && (n <=? 57) then Some (n - 48) else None.

Fixpoint digits_val (s : string) (acc : Z) : option Z :=
  match s with
  | EmptyString => Some acc
  | String a s => d ← digit a; digits_val s (acc * 10 + d)
  end.

Definition nonempty_digits (s : string) : option Z :=
  match s with EmptyString => None | _ => digits_val s 0 end.

(** [strconv.Atoi] on a 64-bit platform; [None] is any error. *)
Definition Atoi (s : string) : option Z :=
  let signed := match s with
                | String "+" r => nonempty_digits r
                | String "-" r => Z.opp <$> nonempty_digits r
                | _ => nonempty_digits s
                end in
  v ← signed; if (- 2 ^ 63 <=? v) && (v <? 2 ^ 63) then Some v else None.

(** [strconv.ParseUint(s, 10, 16)]. *)
Definition ParseUint16 (s : string) : option Z :=
  v ← nonempty_digits s; if v <=? 65535 then Some v else None.

(** The verb [%q] ([strconv.Quote]) on ASCII text; bytes above are part of
    printable runes, which it copies. *)
Definition hex_digit (n : N) : ascii := ascii_of_N (if (n <? 10)%N then n + 48 else n + 87).
Definition quote_char (a : ascii) : string :=
  let n := N_of_ascii a in
  if (n =? 34)%N || (n =? 92)%N then String "\" (String a EmptyString)
  else if (n =? 7)%N then "\a" else if (n =? 8)%N then "\b" else if (n =? 9)%N then "\t" else if (n =? 10)%N then "\n"
  else if (n =? 11)%N then "\v" else if (n =? 12)%N then "\f" else if (n =? 13)%N then "\r"
  else if (n <? 32)%N || (n =? 127)%N then String "\" (String "x" (String (hex_digit (n / 16)) (String (hex_digit (n mod 16)) EmptyString)))
  else String a EmptyString.
Fixpoint quote_chars (s : string) : string :=
  match s with EmptyString => EmptyString | String a s => quote_char a +:+ quote_chars s end.
Definition Quote (s : string) : string := String "034" (quote_chars s +:+ String "034" EmptyString).

(** ** Facts *)
Definition no_char (c : ascii) (s : string) : Prop := IndexByte s c = None.

Lemma no_char_cons c a s : no_char c (String a s) <-> a <> c /\ no_char c s.
Proof.
  unfold no_char. cbn [IndexByte]. case_bool_decide; [naive_solver|]. rewrite fmap_None. naive_solver.
Qed.

Lemma IndexByte_app s c t : no_char c s -> IndexByte (s +:+ String c t) c = Some (String.length s).
Proof.
  unfold no_char. induction s as [|a s IH]; simpl.
  - intros _. change ("" +:+ String c t) with (String c t). simpl. by rewrite bool_decide_eq_true_2.
  - change (String a s +:+ String c t) with (String a (s +:+ String c t)). simpl.
    case_bool_decide; [done|]. intros Hx%fmap_None. by rewrite IH.
Qed.

Lemma no_char_app c s t : no_char c (s +:+ t) <-> no_char c s /\ no_char c t.
Proof.
  unfold no_char. induction s as [|a s IH]; simpl.
  - change ("" +:+ t) with t. naive_solver.
  - change (String a s +:+ t) with (String a (s +:+ t)). simpl.
    case_bool_decide; [naive_solver|]. by rewrite !fmap_None, IH.
Qed.

Lemma str_take_app s t : str_take (String.length s) (s +:+ t) = s.
Proof.
  induction s as [|a s IH]; simpl; [done|].
  change (String a s +:+ t) with (String a (s +:+ t)). simpl. by rewrite IH.
Qed.
Lemma str_drop_app s t : str_drop (String.length s) (s +:+ t) = t.
Proof.
  induction s as [|a s IH]; simpl; [done|].
  change (String a s +:+ t) with (String a (s +:+ t)). simpl. by rewrite IH.
Qed.

Lemma str_drop_S_app s c t : str_drop (S (String.length s)) (s +:+ String c t) = t.
Proof.
  induction s as [|a s IH]; simpl; [done|].
  change (String a s +:+ String c t) with (String a (s +:+ String c t)). exact IH.
Qed.

Lemma digit_pretty x : (x < 10)%N -> digit (pretty_N_char x) = Some (Z.of_N x).
Proof.
  intros Hx. assert (H : In x [0; 1; 2; 3; 4; 5; 6; 7; 8; 9]%N).
  { assert (x = 0 \/ x = 1 \/ x = 2 \/ x = 3 \/ x = 4 \/ x = 5 \/ x = 6 \/ x = 7 \/ x = 8 \/ x = 9)%N by lia.
    simpl. intuition. }
  repeat (destruct H as [<-|H]; [reflexivity|]). destruct H.
Qed.

Lemma digits_val_go x s : digits_val (pretty_N_go x s) 0 = digits_val s (Z.of_N x).
Proof.
  revert s. induction (N.lt_wf_0 x) as [x _ IH]. intros s.
  destruct (decide (0 < x)%N) as [Hx|Hx].
  - rewrite pretty_N_go_step by done. rewrite IH by (apply N.div_lt; lia). cbn [digits_val].
    rewrite digit_pretty by (apply N.mod_lt; lia). cbn [mbind option_bind]. f_equal.
    pose proof (N.div_mod x 10). lia.
  - replace x with 0%N by lia. by rewrite pretty_N_go_0.
Qed.

Lemma itoa_digits n : 0 <= n -> nonempty_digits (itoa n) = Some n.
Proof.
  intros Hn. unfold itoa, pretty, pretty_Z.
  assert (E : exists p, n = Z.of_N p) by (exists (Z.to_N n); lia). destruct E as [p ->].
  replace (match Z.of_N p with 0 => _ | Z.pos x => _ | Z.neg x => _ end) with (pretty p)
    by (destruct p; reflexivity).
  unfold pretty, pretty_N. case_decide as E0; [subst; reflexivity|].
  assert (H : digits_val (pretty_N_go p "") 0 = Some (Z.of_N p)) by apply digits_val_go.
  destruct (pretty_N_go p "") eqn:Es; [|exact H].
  simpl in H. injection H as H. lia.
Qed.

Lemma nonempty_digits_Atoi s n : nonempty_digits s = Some n -> 0 <= n < 2 ^ 63 -> Atoi s = Some n.
Proof.
  intros H Hn. unfold Atoi.
  assert (E : match s with
    | String "+" r => nonempty_digits r | String "-" r => Z.opp <$> nonempty_digits r | _ => nonempty_digits s end
    = Some n).
  { destruct s as [|a r]; [done|]. pose proof H as H'. simpl in H'.
    destruct (digit a) eqn:D; [|done].
    destruct a as [[] [] [] [] [] [] [] []]; try exact H; vm_compute in D; done. }
  rewrite E. cbn [mbind option_bind].
  destruct (Z.leb_spec (- 2 ^ 63) n), (Z.ltb_spec n (2 ^ 63)); try lia. done.
Qed.

Lemma Atoi_itoa n : 0 <= n < 2 ^ 63 -> Atoi (itoa n) = Some n.
Proof. intros. apply nonempty_digits_Atoi; [apply itoa_digits; lia|done]. Qed.

Lemma digits_no_char c s acc v : digit c = None -> digits_val s acc = Some v -> no_char c s.
Proof.
  intros Hc. revert acc. induction s as [|a s IH]; intros acc; [done|]. simpl. unfold no_char. simpl.
  destruct (digit a) eqn:D; [|done]. simpl. case_bool_decide; [congruence|].
  intros Hi%IH. unfold no_char in Hi. by rewrite Hi.
Qed.

Lemma itoa_no_char c n : 0 <= n -> digit c = None -> no_char c (itoa n).
Proof.
  intros Hn Hc. pose proof (itoa_digits n Hn) as H.
  destruct (itoa n) eqn:E; [done|]. by eapply digits_no_char.
Qed.

Lemma itoa_nonempty n : 0 <= n -> exists a r, itoa n = String a r.
Proof. intros Hn. pose proof (itoa_digits n Hn) as H. destruct (itoa n); [done|]. eauto. Qed.

Lemma str_app_assoc (s t u : string) : (s +:+ t) +:+ u = s +:+ t +:+ u.
Proof.
  induction s as [|a s IH]; [reflexivity|].
  change ((String a s +:+ t) +:+ u) with (String a ((s +:+ t) +:+ u)). by rewrite IH.
Qed.

Lemma str_app_nil (s : string) : s +:+ "" = s.
Proof. induction s as [|a s IH]; [reflexivity|]. change (String a s +:+ "") with (String a (s +:+ "")). by rewrite IH. Qed.

Lemma str_app_cons (a : ascii) (s t : string) : String a s +:+ t = String a (s +:+ t).
Proof. reflexivity. Qed.

(** Prefixes. *)

Lemma HasPrefix_cons a b s p : HasPrefix (String b s) (String a p) = true <-> a = b /\ HasPrefix s p = true.
Proof. unfold HasPrefix. cbn [prefixed]. by rewrite andb_true_iff, bool_decide_eq_true. Qed.

Lemma HasPrefix_spec s p : HasPrefix s p = true <-> exists t, s = p +:+ t.
Proof.
  revert s. induction p as [|a p IH]; intros s.
  - split; [|reflexivity]. intros _. by exists s.
  - destruct s as [|b s].
    + split; [discriminate|]. intros [t Ht]. discriminate Ht.
    + rewrite HasPrefix_cons, IH. split.
      * intros [-> [t ->]]. by exists t.
      * intros [t Ht]. injection Ht as -> ->. split; [done|]. by exists t.
Qed.

Lemma HasPrefix_refl s : HasPrefix s s = true.
Proof. induction s as [|a s IH]; [reflexivity|]. by apply HasPrefix_cons. Qed.

Lemma prefixes_comparable p q s : HasPrefix s p = true -> HasPrefix s q = true ->
  HasPrefix p q = true \/ HasPrefix q p = true.
Proof.
  revert q s. induction p as [|a p IH]; intros q s Hp Hq; [by right|].
  destruct q as [|b q]; [by left|]. destruct s as [|c s]; [discriminate|].
  rewrite !HasPrefix_cons in *. destruct Hp as [-> Hp], Hq as [-> Hq]. destruct (IH _ _ Hp Hq); auto.
Qed.

Lemma HasPrefix_trans s p q : HasPrefix s p = true -> HasPrefix p q = true -> HasPrefix s q = true.
Proof.
  rewrite !HasPrefix_spec. intros [t ->] [u ->]. exists (u +:+ t).
  induction q as [|a q IH]; [reflexivity|]. change ((String a q +:+ u) +:+ t) with (String a ((q +:+ u) +:+ t)).
  by rewrite IH.
Qed.

Lemma length_str_app (s t : string) : String.length (s +:+ t) = (String.length s + String.length t)%nat.
Proof. induction s as [|a s IH]; [reflexivity|]. rewrite str_app_cons. cbn [String.length]. rewrite IH. reflexivity. Qed.

Lemma str_take_drop n (s : string) : str_take n s +:+ str_drop n s = s.
Proof.
  revert s. induction n as [|n IH]; intros [|a s]; try reflexivity.
  cbn [str_take str_drop]. by rewrite str_app_cons, IH.
Qed.

Lemma HasSuffix_spec s x : HasSuffix s x = true <-> exists t, s = t +:+ x.
Proof.
  unfold HasSuffix. rewrite andb_true_iff, Nat.leb_le, bool_decide_eq_true. split.
  - intros [_ H]. eexists. rewrite <- H at 1. symmetry. apply str_take_drop.
  - intros [t ->]. rewrite length_str_app. split; [lia|].
    replace (String.length t + String.length x - String.length x)%nat with (String.length t) by lia. apply str_drop_app.
Qed.

Lemma TrimSuffix_app s x : TrimSuffix (s +:+ x) x = s.
Proof.
  unfold TrimSuffix. rewrite (proj2 (HasSuffix_spec _ _)) by eauto. rewrite length_str_app.
  replace (String.length s + String.length x - String.length x)%nat with (String.length s) by lia. apply str_take_app.
Qed.

Lemma TrimPrefix_app s p : TrimPrefix (p +:+ s) p = s.
Proof. unfold TrimPrefix. rewrite (proj2 (HasPrefix_spec _ _)) by eauto. apply str_drop_app. Qed.

(** Splitting. *)
Lemma SplitByte_nonempty s c : SplitByte s c <> [].
Proof. induction s as [|a s IH]; [done|]. cbn. destruct (bool_decide _); [done|]. by destruct (SplitByte s c). Qed.

Lemma SplitByte_no_char s c : no_char c s -> SplitByte s c = [s].
Proof.
  induction s as [|a s IH]; [done|]. rewrite no_char_cons. intros [Ha Hs]. cbn [SplitByte]. rewrite bool_decide_false by done. by rewrite IH.
Qed.

Lemma SplitByte_app s c t : no_char c s -> SplitByte (s +:+ String c t) c = s :: SplitByte t c.
Proof.
  induction s as [|a s IH]; intros H.
  - change ("" +:+ String c t) with (String c t). cbn [SplitByte]. by rewrite bool_decide_true.
  - apply no_char_cons in H as [Ha Hs]. rewrite str_app_cons. cbn [SplitByte]. rewrite bool_decide_false by done. by rewrite IH.
Qed.

(** Splitting what was joined, for parts without the separator. *)
Lemma SplitByte_Join ss c : ss <> [] -> Forall (no_char c) ss -> SplitByte (Join ss (String c "")) c = ss.
Proof.
  intros Hn H. induction H as [|s ss Hs Hss IH]; [done|]. destruct ss as [|s2 ss].
  - by apply SplitByte_no_char.
  - change (Join (s :: s2 :: ss) (String c "")) with (s +:+ String c (Join (s2 :: ss) (String c ""))).
    rewrite SplitByte_app by done. by rewrite IH.
Qed.

(** Counting. *)
Lemma CountByte_app s t c : CountByte (s +:+ t) c = (CountByte s c + CountByte t c)%nat.
Proof. induction s as [|a s IH]; [done|]. rewrite str_app_cons. cbn [CountByte]. rewrite IH. lia. Qed.
Lemma no_char_Count c s : no_char c s -> CountByte s c = 0%nat.
Proof. induction s as [|a s IH]; [done|]. intros [Hne Hs]%no_char_cons. cbn [CountByte]. rewrite IH by done. by rewrite bool_decide_eq_false_2. Qed.
