(* ===== verification/GoText.v ===== *)
(** * Text: white space, fields and lines, as Go's [strings] and [bufio] see them

    White space is Unicode's: besides the six ASCII characters these are the runes U+0085,
    U+00A0, U+1680, U+2000 to U+200A, U+2028, U+2029, U+202F, U+205F and U+3000 in their
    UTF-8 form.  The first byte of such a rune is no continuation byte, so looking for them
    byte by byte finds the same ones as decoding the text. *)
From S2P Require Import Prelude GoStrings.
From Stdlib Require Import Ascii.

Definition byte_of (c : ascii) : Z := Z.of_N (N_of_ascii c).
Definition ascii_space (c : ascii) : bool := let n := byte_of c in ((9 <=? n) && (n <=? 13)) || (n =? 32).
Definition wide2 (a b : Z) : bool := (a =? 0xC2) && ((b =? 0x85) || (b =? 0xA0)).
Definition wide3 (a b c : Z) : bool :=
  ((a =? 0xE1) && (b =? 0x9A) && (c =? 0x80)) ||
  ((a =? 0xE2) && (b =? 0x80) && (((0x80 <=? c) && (c <=? 0x8A)) || (c =? 0xA8) || (c =? 0xA9) || (c =? 0xAF))) ||
  ((a =? 0xE2) && (b =? 0x81) && (c =? 0x9F)) ||
  ((a =? 0xE3) && (b =? 0x80) && (c =? 0x80)).
(** The number of bytes of the space that the text starts with, 0 if it starts with none. *)
Definition space_at (s : string) : nat :=
  match s with
  | EmptyString => 0
  | String a s =>
      if ascii_space a then 1
      else match s with
           | EmptyString => 0
           | String b s =>
               if wide2 (byte_of a) (byte_of b) then 2
               else match s with
                    | EmptyString => 0
                    | String c _ => if wide3 (byte_of a) (byte_of b) (byte_of c) then 3 else 0
                    end
           end
  end.

(** [strings.Fields]; [skip] counts the bytes left of a space, [cur] is the field so far. *)
Definition put_field (cur : string) (fs : list string) : list string := if bool_decide (cur = ""%string) then fs else cur :: fs.
Fixpoint fields_loop (s : string) (skip : nat) (cur : string) : list string :=
  match s with
  | EmptyString => put_field cur []
  | String c s' =>
      match skip with
      | S k => fields_loop s' k cur
      | O => match space_at s with
             | O => fields_loop s' 0 (cur +:+ String c EmptyString)
             | S k => put_field cur (fields_loop s' k EmptyString)
             end
      end
  end.
Definition Fields (s : string) : list string := fields_loop s 0 EmptyString.

(** [strings.TrimSpace]: white space off the left, then off the right. *)
Fixpoint trim_left (s : string) (skip : nat) : string :=
  match s with
  | EmptyString => EmptyString
  | String _ s' =>
      match skip with
      | S k => trim_left s' k
      | O => match space_at s with O => s | S k => trim_left s' k end
      end
  end.
Fixpoint trim_right (s : string) : string :=
  match s with
  | EmptyString => EmptyString
  | String c s' => if Nat.eqb (length (Fields s)) 0 then EmptyString else String c (trim_right s')
  end.
Definition TrimSpace (s : string) : string := trim_right (trim_left s 0).

(** [bufio.Scanner] with its default function: lines without their end, up to the first
    one that does not fit the largest buffer, which ends the scan with an error that a
    caller has to ask for. *)
Definition CR : ascii := "013".
Definition LF : ascii := "010".
Definition MaxScanTokenSize : nat := Z.to_nat 65536.
Definition dropCR (s : string) : string :=
  if Nat.eqb (String.length s) 0 then s
  else if bool_decide (str_drop (String.length s - 1) s = String CR EmptyString) then str_take (String.length s - 1) s else s.
Fixpoint raw_lines (s : string) : list string :=
  match s with
  | EmptyString => []
  | String c s =>
      if bool_decide (c = LF) then EmptyString :: raw_lines s
      else match raw_lines s with
           | [] => [String c EmptyString]
           | l :: ls => String c l :: ls
           end
  end.
Fixpoint scan_until (ls : list string) : list string :=
  match ls with
  | [] => []
  | l :: ls => if Nat.ltb (String.length l) MaxScanTokenSize then dropCR l :: scan_until ls else []
  end.
Definition scan_lines (s : string) : list string := scan_until (raw_lines s).

(** [strings.EqualFold], exact when one side is ASCII text: the only other runes that fold
    to ASCII letters are U+017F (bytes C5 BF, to s) and U+212A (bytes E2 84 AA, to k). *)
Fixpoint fold_case (s : string) : string :=
  match s with
  | EmptyString => EmptyString
  | String a s' =>
      match s' with
      | String b s'' =>
          if (byte_of a =? 0xC5) && (byte_of b =? 0xBF) then String "s" (fold_case s'')
          else match s'' with
               | String c s3 =>
                   if (byte_of a =? 0xE2) && (byte_of b =? 0x84) && (byte_of c =? 0xAA)
                   then String "k" (fold_case s3) else String (lower_ascii a) (fold_case s')
               | EmptyString => String (lower_ascii a) (fold_case s')
               end
      | EmptyString => String (lower_ascii a) EmptyString
      end
  end.
Definition EqualFold (s t : string) : bool := bool_decide (fold_case s = fold_case t).

(** ** Facts *)

(** Text without white space: no byte of it starts a space, whatever follows. *)
Definition token_char (c : ascii) : bool := let n := byte_of c in (33 <=? n) && (n <=? 126).
Fixpoint is_token (s : string) : bool :=
  match s with
  | EmptyString => true
  | String c s => token_char c && is_token s
  end.
Definition token (s : string) : Prop := s <> ""%string /\ is_token s = true.
Global Instance token_dec s : Decision (token s).
Proof. unfold token. apply _. Defined.

Lemma token_no_space c s : token_char c = true -> space_at (String c s) = 0%nat.
Proof.
  unfold token_char, space_at, ascii_space, wide2, wide3. intros Hc. bools.
  assert (E1 : (9 <=? byte_of c) && (byte_of c <=? 13) || (byte_of c =? 32) = false).
  { destruct (Z.leb_spec (byte_of c) 13), (Z.eqb_spec (byte_of c) 32); lia. }
  rewrite E1. destruct s as [|b s]; [done|].
  assert (E2 : forall n, 127 <= n -> (byte_of c =? n) = false) by (intros n Hn; apply Z.eqb_neq; lia).
  rewrite (E2 0xC2) by lia. cbn [andb]. destruct s; [done|]. rewrite !(E2 0xE1), !(E2 0xE2), !(E2 0xE3) by lia. done.
Qed.
Lemma space_space s : space_at (String " " s) = 1%nat.
Proof. done. Qed.

Lemma fields_token w s cur : is_token w = true -> fields_loop (w +:+ s) 0 cur = fields_loop s 0 (cur +:+ w).
Proof.
  revert cur. induction w as [|c w IH]; intros cur Hw; [by rewrite str_app_nil|]. cbn in Hw. bools.
  rewrite str_app_cons. cbn [fields_loop]. rewrite token_no_space by done. rewrite IH by done. by rewrite str_app_assoc.
Qed.
(** Words separated by single spaces are the fields of a text. *)
Lemma Fields_Join ws : Forall token ws -> Fields (Join ws " ") = ws.
Proof.
  unfold Fields. intros Hw. induction Hw as [|w ws [Hne Ht] Hws IH]; [done|]. destruct ws as [|w2 ws].
  - cbn [Join]. rewrite <- (str_app_nil w) at 1. rewrite fields_token by done. cbn [fields_loop]. unfold put_field. by rewrite bool_decide_false.
  - change (Join (w :: w2 :: ws) " ") with (w +:+ " " +:+ Join (w2 :: ws) " "). rewrite fields_token by done.
    rewrite str_app_cons. cbn [fields_loop]. rewrite space_space. change ("" +:+ w) with w. change ("" +:+ Join (w2 :: ws) " ") with (Join (w2 :: ws) " ").
    rewrite IH. unfold put_field. by rewrite bool_decide_false.
Qed.

Lemma raw_lines_line l s : no_char LF l -> raw_lines (l +:+ String LF s) = l :: raw_lines s.
Proof.
  induction l as [|c l IH]; intros Hl; [done|]. apply no_char_cons in Hl as [Hc Hl]. rewrite str_app_cons. cbn [raw_lines].
  rewrite bool_decide_false by done. by rewrite IH.
Qed.
