(* ===== verification/GoJson.v ===== *)
(** * JSON texts (Go's encoding/json/v2, as the sources use it)

    [parse_json] reads one JSON value from a text: white space, escapes and numbers of RFC
    8259, invalid UTF-8, unpaired surrogates and duplicate names refused, nothing but white
    space after the value.  The fuel of the recursive descent is a bound on the calls that
    are nested: two for each character. *)
From S2P Require Import Prelude GoStrings GoText.
From Stdlib Require Import Ascii.
Local Open Scope Z_scope.

Inductive jval := JNull | JBool (b : bool) | JNum (t : string) | JStr (s : string) | JArr (l : list jval) | JObj (ms : list (string * jval)).

(** ** Characters *)
Fixpoint skip_ws (s : string) : string :=
  match s with
  | String a r => let x := byte_of a in if (x =? 32) || (x =? 9) || (x =? 10) || (x =? 13) then skip_ws r else s
  | EmptyString => EmptyString
  end.

Definition between (a x b : Z) : bool := (a <=? x) && (x <=? b).
Definition cont (x : Z) : bool := between 0x80 x 0xBF.
(** The number of bytes of the rune a text starts with; [None] when it is no valid UTF-8. *)
Definition rune_at (s : string) : option nat :=
  match s with
  | EmptyString => None
  | String a r =>
      let x := byte_of a in
      if x <? 0x80 then Some 1%nat
      else match r with
           | EmptyString => None
           | String b r =>
               let y := byte_of b in
               if between 0xC2 x 0xDF then if cont y then Some 2%nat else None
               else match r with
                    | EmptyString => None
                    | String c r =>
                        let z := byte_of c in
                        if between 0xE0 x 0xEF then
                          if between (if x =? 0xE0 then 0xA0 else 0x80) y (if x =? 0xED then 0x9F else 0xBF) && cont z
                          then Some 3%nat else None
                        else match r with
                             | EmptyString => None
                             | String d _ =>
                                 if between 0xF0 x 0xF4 && between (if x =? 0xF0 then 0x90 else 0x80) y (if x =? 0xF4 then 0x8F else 0xBF)
                                    && cont z && cont (byte_of d)
                                 then Some 4%nat else None
                             end
                    end
           end
  end.
Definition chr (x : Z) : ascii := ascii_of_N (Z.to_N x).
Definition utf8 (x : Z) : string :=
  if x <? 0x80 then String (chr x) ""
  else if x <? 0x800 then String (chr (0xC0 + x / 64)) (String (chr (0x80 + x mod 64)) "")
  else if x <? 0x10000 then String (chr (0xE0 + x / 4096)) (String (chr (0x80 + x / 64 mod 64)) (String (chr (0x80 + x mod 64)) ""))
  else String (chr (0xF0 + x / 262144)) (String (chr (0x80 + x / 4096 mod 64)) (String (chr (0x80 + x / 64 mod 64)) (String (chr (0x80 + x mod 64)) ""))).

Definition hex_val (a : ascii) : option Z :=
  let x := byte_of a in
  if between 48 x 57 then Some (x - 48) else if between 97 x 102 then Some (x - 87) else if between 65 x 70 then Some (x - 55) else None.
Definition hex4 (s : string) : option (Z * string) :=
  match s with
  | String a (String b (String c (String d r))) =>
      w ← hex_val a; x ← hex_val b; y ← hex_val c; z ← hex_val d; Some (w * 4096 + x * 256 + y * 16 + z, r)
  | _ => None
  end.
Definition DQUOTE : ascii := "034".
Definition BSLASH : ascii := "092".
(** What follows a backslash: the text it stands for and the rest. *)
Definition escape (s : string) : option (string * string) :=
  match s with
  | EmptyString => None
  | String a r =>
      if bool_decide (a ∈ [DQUOTE; BSLASH; "/"%char]) then Some (String a "", r)
      else if bool_decide (a = "b"%char) then Some (String "008" "", r)
      else if bool_decide (a = "f"%char) then Some (String "012" "", r)
      else if bool_decide (a = "n"%char) then Some (String "010" "", r)
      else if bool_decide (a = "r"%char) then Some (String "013" "", r)
      else if bool_decide (a = "t"%char) then Some (String "009" "", r)
      else if bool_decide (a = "u"%char) then
        '(x, r) ← hex4 r;
        if between 0xD800 x 0xDBFF then
          match r with
          | String b (String c r) =>
              if bool_decide (b = BSLASH) && bool_decide (c = "u"%char) then
                '(y, r) ← hex4 r;
                if between 0xDC00 y 0xDFFF then Some (utf8 (0x10000 + (x - 0xD800) * 1024 + (y - 0xDC00)), r) else None
              else None
          | _ => None
          end
        else if between 0xDC00 x 0xDFFF then None
        else Some (utf8 x, r)
      else None
  end.
(** The characters of a string literal up to its closing quote. *)
Fixpoint chars (fuel : nat) (s : string) : option (string * string) :=
  match fuel with
  | O => None
  | S fuel =>
      match s with
      | EmptyString => None
      | String a r =>
          if bool_decide (a = DQUOTE) then Some (EmptyString, r)
          else if bool_decide (a = BSLASH) then '(t, r) ← escape r; '(u, r) ← chars fuel r; Some (t +:+ u, r)
          else if byte_of a <? 32 then None
          else n ← rune_at s; '(u, r) ← chars fuel (str_drop n s); Some (str_take n s +:+ u, r)
      end
  end.

(** ** Numbers *)
Fixpoint span_digits (s : string) : string * string :=
  match s with
  | String a r => match digit a with Some _ => let '(t, r) := span_digits r in (String a t, r) | None => (EmptyString, s) end
  | EmptyString => (EmptyString, EmptyString)
  end.
Definition opt_char (cs : list ascii) (s : string) : string * string :=
  match s with String a r => if bool_decide (a ∈ cs) then (String a "", r) else (EmptyString, s) | EmptyString => (EmptyString, s) end.
Definition number (s : string) : option (string * string) :=
  let '(sign, s) := opt_char ["-"%char] s in
  let '(ip, s) := span_digits s in
  if bool_decide (ip = EmptyString) || (Nat.ltb 1 (String.length ip) && HasPrefix ip "0") then None
  else
    let '(dot, s) := opt_char ["."%char] s in
    '(fp, s) ← (if bool_decide (dot = EmptyString) then Some (EmptyString, s)
                else let '(fp, s) := span_digits s in if bool_decide (fp = EmptyString) then None else Some (dot +:+ fp, s));
    let '(e, s) := opt_char ["e"%char; "E"%char] s in
    '(ep, s) ← (if bool_decide (e = EmptyString) then Some (EmptyString, s)
                else let '(es, s) := opt_char ["+"%char; "-"%char] s in
                     let '(ep, s) := span_digits s in if bool_decide (ep = EmptyString) then None else Some (e +:+ es +:+ ep, s));
    Some (sign +:+ ip +:+ fp +:+ ep, s).

(** ** Values *)
Fixpoint value (fuel : nat) (s : string) : option (jval * string) :=
  match fuel with
  | O => None
  | S fuel =>
      let s := skip_ws s in
      match s with
      | EmptyString => None
      | String a r =>
          if bool_decide (a = "["%char) then
            match skip_ws r with
            | String "]" r => Some (JArr [], r)
            | r => '(l, r) ← elements fuel r; Some (JArr l, r)
            end
          else if bool_decide (a = "{"%char) then
            match skip_ws r with
            | String "}" r => Some (JObj [], r)
            | r => '(ms, r) ← members fuel r [] ; Some (JObj ms, r)
            end
          else if bool_decide (a = DQUOTE) then '(t, r) ← chars (S (String.length r)) r; Some (JStr t, r)
          else if HasPrefix s "null" then Some (JNull, str_drop 4 s)
          else if HasPrefix s "true" then Some (JBool true, str_drop 4 s)
          else if HasPrefix s "false" then Some (JBool false, str_drop 5 s)
          else '(t, r) ← number s; Some (JNum t, r)
      end
  end
with elements (fuel : nat) (s : string) : option (list jval * string) :=
  match fuel with
  | O => None
  | S fuel =>
      '(v, r) ← value fuel s;
      match skip_ws r with
      | String "]" r => Some ([v], r)
      | String "," r => '(l, r) ← elements fuel r; Some (v :: l, r)
      | _ => None
      end
  end
with members (fuel : nat) (s : string) (seen : list string) : option (list (string * jval) * string) :=
  match fuel with
  | O => None
  | S fuel =>
      match skip_ws s with
      | String a r =>
          if negb (bool_decide (a = DQUOTE)) then None
          else
            '(k, r) ← chars (S (String.length r)) r;
            match skip_ws r with
            | String ":" r =>
                '(v, r) ← value fuel r;
                if bool_decide (k ∈ seen) then None
                else match skip_ws r with
                     | String "}" r => Some ([(k, v)], r)
                     | String "," r => '(ms, r) ← members fuel r (k :: seen); Some ((k, v) :: ms, r)
                     | _ => None
                     end
            | _ => None
            end
      | EmptyString => None
      end
  end.
Definition parse_json (s : string) : option jval :=
  '(v, r) ← value (2 * String.length s + 2) s; if bool_decide (skip_ws r = EmptyString) then Some v else None.

Definition json_sample : string := String DQUOTE ("a" +:+ String BSLASH ("u00e9" +:+ String DQUOTE "")).
Example parse_json_string : parse_json json_sample = Some (JStr (String "a" (utf8 233))).
Proof. vm_compute. reflexivity. Qed.
Example parse_json_array : parse_json " [ 1.5e3 , null, [true ]] " = Some (JArr [JNum "1.5e3"; JNull; JArr [JBool true]]).
Proof. vm_compute. reflexivity. Qed.
Example parse_json_rejects : (parse_json "[1,]", parse_json "01", parse_json "[] x", parse_json "nul") = (None, None, None, None).
Proof. vm_compute. reflexivity. Qed.
