(* ===== verification/ResolveFile.v ===== *)
(** * Resolver files (src/pkg/dnsproxy/resolvefile_unix.go) and the cluster domain
    (src/cmd/traffic/cmd/manager/cluster/info.go)

    Parsing and printing of a resolv.conf, and how the traffic-manager reads the name of
    the cluster's domain from its search path.  Theorems: printing and parsing are
    inverse, the errors of the parser, and the domain of a standard search path. *)
From S2P Require Import Prelude GoStrings GoText.
From Stdlib Require Import Ascii.

Record ResolveFile := mkRF {
  rf_Port : Z; rf_Domain : string; rf_Nameservers : list string; rf_Search : list string; rf_SortList : list string; rf_Options : list string
}.
Definition emptyRF : ResolveFile := mkRF 0 "" [] [] [] [].

Inductive rf_error := MustHaveValue (key : string) (line : nat) | NotInteger (key : string) (line : nat) | UnknownKey (key : string) (line : nat).

(** The fields of a line. *)
Definition apply_fields (rf : ResolveFile) (line : nat) (fields : list string) : Go rf_error ResolveFile :=
  match fields with
  | [] => Ret rf
  | [key] => Fail (MustHaveValue key line)
  | key :: value :: more =>
      let one (r : Go rf_error ResolveFile) := if Nat.eqb (length more) 0 then r else Fail (MustHaveValue key line) in
      if bool_decide (key = "port"%string) then
        one (match Atoi value with
             | Some n => Ret (mkRF n (rf_Domain rf) (rf_Nameservers rf) (rf_Search rf) (rf_SortList rf) (rf_Options rf))
             | None => Fail (NotInteger key line)
             end)
      else if bool_decide (key = "domain"%string) then
        one (Ret (mkRF (rf_Port rf) value (rf_Nameservers rf) (rf_Search rf) (rf_SortList rf) (rf_Options rf)))
      else if bool_decide (key = "nameserver"%string) then
        one (Ret (mkRF (rf_Port rf) (rf_Domain rf) (rf_Nameservers rf ++ [value]) (rf_Search rf) (rf_SortList rf) (rf_Options rf)))
      else if bool_decide (key = "search"%string) then
        Ret (mkRF (rf_Port rf) (rf_Domain rf) (rf_Nameservers rf) (value :: more) (rf_SortList rf) (rf_Options rf))
      else if bool_decide (key = "sortlist"%string) then
        Ret (mkRF (rf_Port rf) (rf_Domain rf) (rf_Nameservers rf) (rf_Search rf) (value :: more) (rf_Options rf))
      else if bool_decide (key = "options"%string) then
        Ret (mkRF (rf_Port rf) (rf_Domain rf) (rf_Nameservers rf) (rf_Search rf) (rf_SortList rf) (value :: more))
      else Fail (UnknownKey key line)
  end.
Definition comment_char (c : ascii) : bool := bool_decide (c = "#"%char) || bool_decide (c = ";"%char).
Definition parse_line (rf : ResolveFile) (line : nat) (text : string) : Go rf_error ResolveFile :=
  let txt := TrimSpace text in
  match txt with
  | EmptyString => Ret rf
  | String c _ => if comment_char c then Ret rf else apply_fields rf line (Fields txt)
  end.
Fixpoint parse_lines (rf : ResolveFile) (line : nat) (ls : list string) : Go rf_error ResolveFile :=
  match ls with
  | [] => Ret rf
  | l :: ls => rf ← parse_line rf (S line) l; parse_lines rf (S line) ls
  end.
Definition ParseResolveFile (text : string) : Go rf_error ResolveFile := parse_lines emptyRF 0 (scan_lines text).

(** [WriteTo]: the lines, each followed by a line feed. *)
Definition section (key : string) (ws : list string) : list string :=
  if Nat.eqb (length ws) 0 then [] else [key +:+ " " +:+ Join ws " "].
Definition rf_lines (r : ResolveFile) : list string :=
  ["# Generated by telepresence"%string; ""%string] ++
  (if 0 <? rf_Port r then ["port " +:+ itoa (rf_Port r)] else []) ++
  (if bool_decide (rf_Domain r = ""%string) then [] else ["domain " +:+ rf_Domain r]) ++
  ((fun ns => "nameserver " +:+ ns) <$> rf_Nameservers r) ++
  section "search" (rf_Search r) ++ section "options" (rf_Options r) ++ section "sortlist" (rf_SortList r).
Fixpoint unlines (ls : list string) : string :=
  match ls with
  | [] => EmptyString
  | l :: ls => l +:+ String LF (unlines ls)
  end.
Definition WriteTo (r : ResolveFile) : string := unlines (rf_lines r).

(** [Equals] on two non-nil files. *)
Definition rf_Equals (r o : ResolveFile) : bool :=
  (rf_Port r =? rf_Port o) && bool_decide (rf_Domain r = rf_Domain o) && bool_decide (rf_Nameservers r = rf_Nameservers o) &&
  bool_decide (rf_Search r = rf_Search o) && bool_decide (rf_SortList r = rf_SortList o) && bool_decide (rf_Options r = rf_Options o).

(** ** The cluster's domain *)
Inductive domain_error := TooFewDomains | FirstUnexpected | SecondUnexpected | ThirdUnexpected.
Definition with_dot (s : string) : string := if HasSuffix s "." then s else s +:+ ".".
Definition clusterDomainFromResolvConf (search : list string) (namespace : string) : string + domain_error :=
  match search with
  | first :: second :: third :: _ =>
      if negb (HasPrefix first (namespace +:+ ".svc.")) then inr FirstUnexpected
      else if negb (HasPrefix second "svc.") then inr SecondUnexpected
      else
        let domain := with_dot (TrimPrefix second "svc.") in
        if negb (EqualFold (with_dot third) domain) then inr ThirdUnexpected else inl domain
  | _ => inr TooFewDomains
  end.
(** [getClusterDomain]: the resolver's file, then names of the injector's address in up to
    three attempts, then the default. *)
Definition named_domain (desired : string) (names : list string) : option string :=
  (fun x => str_drop (String.length desired) x.2) <$> list_find (fun name => HasPrefix name desired = true) names.
Fixpoint lookup_attempts (desired : string) (attempts : list (option (list string))) : option string :=
  match attempts with
  | [] => None
  | a :: rest => match a ≫= named_domain desired with Some d => Some d | None => lookup_attempts desired rest end
  end.
Definition getClusterDomain (conf : option (list string)) (namespace injector : string) (injectorEnabled : bool)
    (attempts : list (option (list string))) : string :=
  match conf ≫= (fun search => match clusterDomainFromResolvConf search namespace with inl d => Some d | inr _ => None end) with
  | Some d => d
  | None =>
      let found := if injectorEnabled then lookup_attempts (injector +:+ "." +:+ namespace +:+ ".svc.") (take 3 attempts) else None in
      default "cluster.local."%string found
  end.

(** ** Printed lines *)
Definition print_char (c : ascii) : bool := let n := byte_of c in (32 <=? n) && (n <=? 126).
Fixpoint printable (s : string) : bool :=
  match s with
  | EmptyString => true
  | String c s => print_char c && printable s
  end.
(** Printable text that does not end with a space. *)
Definition solid (s : string) : Prop := exists t c, s = t +:+ String c EmptyString /\ printable t = true /\ token_char c = true.

Lemma printable_app s t : printable (s +:+ t) = printable s && printable t.
Proof. induction s as [|c s IH]; [done|]. rewrite str_app_cons. cbn [printable]. by rewrite IH, andb_assoc. Qed.
Lemma token_print c : token_char c = true -> print_char c = true.
Proof. unfold token_char, print_char. intros Hc. bools. apply andb_true_iff. split; apply Z.leb_le; lia. Qed.
Lemma is_token_printable s : is_token s = true -> printable s = true.
Proof. induction s as [|c s IH]; [done|]. cbn. intros H. bools. by rewrite token_print, IH. Qed.
Lemma byte_of_inj c d : byte_of c = byte_of d -> c = d.
Proof. unfold byte_of. intros H%N2Z.inj. rewrite <- (Ascii.ascii_N_embedding c), <- (Ascii.ascii_N_embedding d). by rewrite H. Qed.
Lemma print_space c s : print_char c = true -> token_char c = false -> space_at (String c s) = 1%nat.
Proof.
  unfold print_char, token_char. intros H1 H2. bools. apply andb_false_iff in H2. assert (byte_of c = 32) as H3.
  { destruct H2 as [H2|H2]; [apply Z.leb_gt in H2|apply Z.leb_gt in H2]; lia. }
  assert (c = " "%char) as -> by (apply byte_of_inj; exact H3). done.
Qed.
Lemma solid_token s : token s -> solid s.
Proof.
  intros [Hne Ht]. induction s as [|c s IH]; [done|]. cbn in Ht. bools. destruct s as [|d s].
  - by exists EmptyString, c.
  - destruct IH as (t & e & E & Hp & He); [done|done|]. rewrite E. exists (String c t), e. split_and!; [done| |done].
    cbn. by rewrite token_print.
Qed.
Lemma solid_app s t : printable s = true -> solid t -> solid (s +:+ t).
Proof. intros Hs (u & c & -> & Hu & Hc). exists (s +:+ u), c. rewrite str_app_assoc, printable_app, Hs, Hu. done. Qed.
Lemma fields_solid s : solid s -> forall cur, fields_loop s 0 cur <> [].
Proof.
  intros (t & c & -> & Ht & Hc). induction t as [|d t IH]; intros cur.
  - change ("" +:+ String c "") with (String c ""). cbn [fields_loop]. rewrite token_no_space by done. unfold put_field.
    rewrite bool_decide_false; [done|]. by destruct cur.
  - cbn in Ht. bools. rewrite str_app_cons. cbn [fields_loop]. destruct (token_char d) eqn:Hd.
    + rewrite token_no_space by done. by apply IH.
    + rewrite print_space by done. unfold put_field. case_bool_decide; [by apply IH|done].
Qed.
Lemma trim_right_solid s : solid s -> trim_right s = s.
Proof.
  intros (t & c & -> & Ht & Hc). induction t as [|d t IH].
  - change ("" +:+ String c "") with (String c ""). cbn [trim_right]. unfold Fields. rewrite (proj2 (Nat.eqb_neq _ 0)); [done|].
    intros E%length_zero_iff_nil. eapply fields_solid; [|exact E]. by exists EmptyString, c.
  - cbn in Ht. bools. rewrite str_app_cons. cbn [trim_right]. rewrite (proj2 (Nat.eqb_neq _ 0)); [by rewrite IH|].
    intros E%length_zero_iff_nil. eapply fields_solid; [|exact E]. exists (String d t), c. split_and!; [done| |done]. cbn. by apply andb_true_iff.
Qed.
Lemma solid_no_LF s : printable s = true -> no_char LF s.
Proof.
  induction s as [|c s IH]; [done|]. cbn. intros H. bools. apply no_char_cons. split; [|by apply IH]. intros ->. done.
Qed.
Lemma str_length_app (s t : string) : String.length (s +:+ t) = (String.length s + String.length t)%nat.
Proof. induction s as [|c s IH]; [done|]. rewrite str_app_cons. cbn. by rewrite IH. Qed.
Lemma solid_dropCR s : solid s -> dropCR s = s.
Proof.
  intros (t & c & -> & Ht & Hc). unfold dropCR. rewrite str_length_app. cbn [String.length].
  destruct (Nat.eqb_spec (String.length t + 1) 0); [done|]. replace (String.length t + 1 - 1)%nat with (String.length t) by lia.
  rewrite str_drop_app. rewrite bool_decide_false; [done|]. intros [= ->]. done.
Qed.
Lemma scan_unlines ls : Forall (fun l => no_char LF l /\ (String.length l < MaxScanTokenSize)%nat /\ dropCR l = l) ls -> scan_lines (unlines ls) = ls.
Proof.
  unfold scan_lines. induction 1 as [|l ls (H1 & H2 & H3) _ IH]; [done|]. cbn [unlines]. rewrite raw_lines_line by done. cbn [scan_until].
  rewrite (proj2 (Nat.ltb_lt _ _)) by done. by rewrite H3, IH.
Qed.

(** ** Reading back what was printed *)
Definition words_line (ws : list string) : string := Join ws " ".
Lemma solid_words ws : ws <> [] -> Forall token ws -> solid (words_line ws).
Proof.
  unfold words_line. intros Hne Hw. induction Hw as [|w ws Ht Hws IH]; [done|]. destruct ws as [|w2 ws]; [by apply solid_token|].
  change (Join (w :: w2 :: ws) " ") with (w +:+ " " +:+ Join (w2 :: ws) " "). apply solid_app; [apply is_token_printable, Ht|].
  apply solid_app; [done|]. by apply IH.
Qed.
Lemma parse_words rf n c k ws : comment_char c = false -> Forall token (String c k :: ws) ->
  parse_line rf n (words_line (String c k :: ws)) = apply_fields rf n (String c k :: ws).
Proof.
  intros Hc Hw. pose proof (solid_words (String c k :: ws) ltac:(done) Hw) as Hs. unfold parse_line.
  assert (Hh : exists r, words_line (String c k :: ws) = String c r) by (destruct ws; eexists; reflexivity).
  assert (Ht : TrimSpace (words_line (String c k :: ws)) = words_line (String c k :: ws)).
  { unfold TrimSpace. destruct Hh as [r Hr]. rewrite Hr. cbn [trim_left]. rewrite token_no_space; [rewrite <- Hr; by apply trim_right_solid|].
    apply Forall_cons in Hw as [[_ Hk] _]. cbn in Hk. by bools. }
  rewrite Ht. unfold words_line at 2. rewrite Fields_Join by done. destruct Hh as [r ->]. by rewrite Hc.
Qed.
Lemma parse_lines_app rf n l1 l2 : parse_lines rf n (l1 ++ l2) = (rf ← parse_lines rf n l1; parse_lines rf (n + length l1) l2).
Proof.
  revert rf n. induction l1 as [|l l1 IH]; intros rf n; cbn [app parse_lines length]; [by rewrite Nat.add_0_r|].
  destruct (parse_line rf (S n) l); cbn [mbind go_bind]; [|done|done]. rewrite IH. replace (S n + length l1)%nat with (n + S (length l1))%nat by lia. done.
Qed.
Definition rf_ok (r : ResolveFile) : Prop :=
  0 <= rf_Port r < 2 ^ 63 /\ (rf_Domain r = ""%string \/ token (rf_Domain r)) /\
  Forall token (rf_Nameservers r) /\ Forall token (rf_Search r) /\ Forall token (rf_SortList r) /\ Forall token (rf_Options r) /\
  Forall (fun l => (String.length l < MaxScanTokenSize)%nat) (rf_lines r).
Lemma itoa_token n : 0 <= n -> token (itoa n).
Proof.
  intros Hn. pose proof (itoa_digits n Hn) as Hd. split; [by intros E; rewrite E in Hd|]. unfold nonempty_digits in Hd. destruct (itoa n) as [|c s] eqn:E; [done|].
  rewrite <- E in *. clear E. revert Hd. generalize 0 at 1. generalize (itoa n) as t. induction t as [|d t IH]; intros acc; [done|]. cbn [digits_val is_token].
  destruct (digit d) as [x|] eqn:Ed; cbn [mbind option_bind]; [|done]. intros Hv. rewrite (IH _ Hv), andb_true_r.
  unfold digit in Ed. case_match eqn:E2; [|done]. bools. unfold token_char, byte_of. apply andb_true_iff. split; apply Z.leb_le; lia.
Qed.
Lemma parse_section rf n key ws (set : ResolveFile) c k : key = String c k -> comment_char c = false -> token key -> Forall token ws ->
  (forall n value more, ws = value :: more -> apply_fields rf n (key :: value :: more) = Ret set) ->
  parse_lines rf n (section key ws) = Ret (if Nat.eqb (length ws) 0 then rf else set).
Proof.
  intros -> Hc Hk Hw Ha. unfold section. destruct ws as [|v ws]; [done|]. cbn [length Nat.eqb parse_lines].
  change (String c k +:+ " " +:+ Join (v :: ws) " ") with (words_line (String c k :: v :: ws)).
  rewrite parse_words; [|done|by apply Forall_cons]. by rewrite (Ha _ v ws).
Qed.
Lemma parse_nameservers nss : forall rf n, Forall token nss ->
  parse_lines rf n ((fun ns => "nameserver " +:+ ns) <$> nss) =
  Ret (mkRF (rf_Port rf) (rf_Domain rf) (rf_Nameservers rf ++ nss) (rf_Search rf) (rf_SortList rf) (rf_Options rf)).
Proof.
  induction nss as [|ns nss IH]; intros rf n Hn.
  { cbn. rewrite app_nil_r. by destruct rf. }
  rewrite fmap_cons. cbn [parse_lines]. apply Forall_cons in Hn as [H1 Hn]. change ("nameserver " +:+ ns) with (words_line ["nameserver"%string; ns]).
  rewrite parse_words; [|done|by repeat (apply Forall_cons; split; [decide_it || done|])].
  change (apply_fields rf (S n) ["nameserver"%string; ns]) with
    (Ret (mkRF (rf_Port rf) (rf_Domain rf) (rf_Nameservers rf ++ [ns]) (rf_Search rf) (rf_SortList rf) (rf_Options rf)) : Go rf_error ResolveFile).
  cbn [mbind go_bind]. rewrite IH by done. cbn. by rewrite <- app_assoc.
Qed.

Lemma rf_lines_printed r : rf_ok r -> Forall (fun l => no_char LF l /\ (String.length l < MaxScanTokenSize)%nat /\ dropCR l = l) (rf_lines r).
Proof.
  intros (Hp & Hd & H1 & H2 & H3 & H4 & Hl).
  assert (Hsol : forall l, solid l -> no_char LF l /\ dropCR l = l).
  { intros l Hs. split; [|by apply solid_dropCR]. destruct Hs as (t & c & -> & Ht & Hc). apply solid_no_LF. rewrite printable_app, Ht. cbn. by rewrite token_print. }
  assert (Hkey : forall key w, printable key = true -> solid w -> solid (key +:+ w)) by (intros; by apply solid_app).
  assert (Hsec : forall key ws, printable key = true -> Forall token ws -> Forall (fun l => no_char LF l /\ dropCR l = l) (section key ws)).
  { intros key ws Hk Hw. unfold section. destruct ws as [|v ws]; [constructor|]. apply Forall_singleton. apply Hsol, Hkey; [done|].
    apply solid_app; [done|]. by apply (solid_words (v :: ws)). }
  assert (Hall : Forall (fun l => no_char LF l /\ dropCR l = l) (rf_lines r)).
  { unfold rf_lines. rewrite !Forall_app. split_and!; try (by apply Hsec).
    - repeat (apply Forall_cons; split; [done|]). constructor.
    - destruct (0 <? rf_Port r); [|constructor]. apply Forall_singleton, Hsol, Hkey; [done|]. apply solid_token, itoa_token. lia.
    - case_bool_decide; [constructor|]. apply Forall_singleton, Hsol, Hkey; [done|]. apply solid_token. tauto.
    - apply Forall_fmap. eapply Forall_impl; [exact H1|]. intros ns Hns. apply Hsol, Hkey; [done|]. by apply solid_token. }
  clear -Hl Hall. induction Hl; [constructor|]. apply Forall_cons in Hall as [[? ?] ?]. constructor; auto.
Qed.

(** Parsing a file that was printed gives the same values back, for values that are words
    of printable ASCII characters and lines that fit the scanner's buffer. *)
Theorem ResolveFile_roundtrip r : rf_ok r -> ParseResolveFile (WriteTo r) = Ret r.
Proof.
  intros Hok. unfold ParseResolveFile, WriteTo. rewrite scan_unlines by by apply rf_lines_printed.
  destruct Hok as (Hp & Hd & H1 & H2 & H3 & H4 & _). destruct r as [port dom nss srch srt opt]. cbn [rf_Port rf_Domain rf_Nameservers rf_Search rf_SortList rf_Options] in *.
  unfold rf_lines. cbn [rf_Port rf_Domain rf_Nameservers rf_Search rf_SortList rf_Options].
  rewrite parse_lines_app. cbn [length]. change (parse_lines emptyRF 0 _) with (Ret emptyRF : Go rf_error ResolveFile). cbn [mbind go_bind].
  assert (E1 : forall n, parse_lines emptyRF n (if 0 <? port then ["port " +:+ itoa port] else []) = Ret (mkRF port "" [] [] [] [])).
  { intros n. destruct (Z.ltb_spec 0 port) as [Hlt|]; [|assert (port = 0) as -> by lia; done]. cbn [parse_lines].
    change ("port " +:+ itoa port) with (words_line ["port"%string; itoa port]).
    rewrite parse_words; [|done|repeat (apply Forall_cons; split; [decide_it || (apply itoa_token; lia)|]); constructor].
    cbn -[Atoi itoa]. by rewrite Atoi_itoa. }
  assert (E2 : forall n, parse_lines (mkRF port "" [] [] [] []) n (if bool_decide (dom = ""%string) then [] else ["domain " +:+ dom]) = Ret (mkRF port dom [] [] [] [])).
  { intros n. case_bool_decide as E; [by rewrite E|]. destruct Hd as [?|Hd]; [done|]. cbn [parse_lines].
    change ("domain " +:+ dom) with (words_line ["domain"%string; dom]).
    rewrite parse_words; [done|done|]. repeat (apply Forall_cons; split; [decide_it || done|]). constructor. }
  rewrite parse_lines_app, E1. cbn [mbind go_bind]. rewrite parse_lines_app, E2. cbn [mbind go_bind]. rewrite parse_lines_app, parse_nameservers by done. cbn [mbind go_bind rf_Port rf_Domain rf_Nameservers rf_Search rf_SortList rf_Options app].
  rewrite parse_lines_app, (parse_section _ _ "search" srch (mkRF port dom nss srch [] []) "s" "earch"); [|done|done|decide_it|done|by intros n v more ->].
  replace (if Nat.eqb (length srch) 0 then _ else _) with (mkRF port dom nss srch [] []) by by destruct srch. cbn [mbind go_bind].
  rewrite parse_lines_app, (parse_section _ _ "options" opt (mkRF port dom nss srch [] opt) "o" "ptions"); [|done|done|decide_it|done|by intros n v more ->].
  replace (if Nat.eqb (length opt) 0 then _ else _) with (mkRF port dom nss srch [] opt) by by destruct opt. cbn [mbind go_bind].
  rewrite (parse_section _ _ "sortlist" srt (mkRF port dom nss srch srt opt) "s" "ortlist"); [|done|done|decide_it|done|by intros n v more ->].
  by destruct srt.
Qed.
Definition rf_sample : ResolveFile := mkRF 53 "example.com" ["10.96.0.10"%string] ["ns.svc.cluster.local"%string; "svc.cluster.local"%string] [] ["ndots:5"%string].
Lemma ResolveFile_roundtrip_witness : ParseResolveFile (WriteTo rf_sample) = Ret rf_sample.
Proof. apply ResolveFile_roundtrip. unfold rf_ok. cbn [rf_sample rf_Port]. split; [lia|]. decide_it. Defined.

(** The scanner's error is not asked for: everything from a line on that is too long for
    its buffer is ignored, and the parse succeeds. *)
Lemma long_line_ends_parsing l rest : no_char LF l -> (MaxScanTokenSize <= String.length l)%nat ->
  ParseResolveFile (l +:+ String LF rest) = Ret emptyRF.
Proof.
  intros Hn Hl. unfold ParseResolveFile, scan_lines. rewrite raw_lines_line by done. cbn [scan_until].
  by rewrite (proj2 (Nat.ltb_ge _ _)).
Qed.

(** ** The domain of a standard search path *)
Lemma HasPrefix_app s t : HasPrefix (s +:+ t) s = true.
Proof. unfold HasPrefix. induction s as [|c s IH]; [done|]. rewrite str_app_cons. cbn. by rewrite bool_decide_true, IH. Qed.
Lemma EqualFold_refl s : EqualFold s s = true.
Proof. unfold EqualFold. by rewrite bool_decide_true. Qed.
(** In a pod of the namespace, the search path starts with the namespace's services, all
    services and the domain itself: the domain is what is found, with a final dot. *)
Theorem clusterDomain_standard namespace domain more :
  clusterDomainFromResolvConf ((namespace +:+ ".svc." +:+ domain) :: ("svc." +:+ domain) :: domain :: more) namespace = inl (with_dot domain).
Proof.
  unfold clusterDomainFromResolvConf. rewrite <- (str_app_assoc namespace), HasPrefix_app, HasPrefix_app. cbn [negb].
  unfold TrimPrefix. rewrite HasPrefix_app, str_drop_app, EqualFold_refl. done.
Qed.
