(* ===== verification/NetParse.v ===== *)
(** * Parsing and printing addresses ([netip.ParseAddr], [netip.ParsePrefix],
      [netip.ParseAddrPort], [netip.Addr.String])

    The standard library's parsers on every branch; an error is [None].  IPv4 addresses
    and their reverse DNS names have a round trip. *)
From S2P Require Import Prelude NetIP GoStrings.
From Stdlib Require Import Ascii.
Local Open Scope Z_scope.

Definition chr (c : Z) : ascii := ascii_of_N (Z.to_N c).
Definition DOT : ascii := ".".
Definition COLON : ascii := ":".

(** ** IPv4 *)

(** [parseIPv4Fields]: [prev] is whether the previous byte exists and is not a dot. *)
Fixpoint parseIPv4Fields (s : string) (prev : bool) (val : Z) (digLen : nat) (fields : list Z) : option (list Z) :=
  match s with
  | EmptyString => if Nat.ltb (length fields) 3 then None else Some (fields ++ [val])
  | String c s =>
      match digit c with
      | Some d =>
          if Nat.eqb digLen 1 && (val =? 0) then None
          else let val := val * 10 + d in
               if 255 <? val then None else parseIPv4Fields s true val (S digLen) fields
      | None =>
          if bool_decide (c = DOT) then
            if negb prev || bool_decide (s = ""%string) then None
            else if Nat.eqb (length fields) 3 then None
            else parseIPv4Fields s false 0 0 (fields ++ [val])
          else None
      end
  end.
Definition parseIPv4 (s : string) : option Addr := AddrFrom4 <$> parseIPv4Fields s false 0 0 [].

(** ** IPv6 *)

Definition hexval (c : ascii) : option Z :=
  let n := Z.of_N (N_of_ascii c) in
  if (48 <=? n) && (n <=? 57) then Some (n - 48)
  else if (97 <=? n) && (n <=? 102) then Some (n - 87)
  else if (65 <=? n) && (n <=? 70) then Some (n - 55)
  else None.

(** A group of hexadecimal digits: its value, the number of digits and the rest; more than
    four digits are an error. *)
Fixpoint hex_group (s : string) (off : nat) (acc : Z) : option (Z * nat * string) :=
  match s with
  | EmptyString => Some (acc, off, s)
  | String c rest =>
      match hexval c with
      | None => Some (acc, off, s)
      | Some d => if Nat.ltb 3 off then None else hex_group rest (S off) (acc * 16 + d)
      end
  end.

(** The loop over the groups: [ip] is what was parsed, [ell] the position of the ellipsis.
    At most eight groups are read, which is the fuel. *)
Fixpoint ipv6_groups (fuel : nat) (s : string) (ip : list Z) (ell : option nat) : option (string * list Z * option nat) :=
  match fuel with
  | O => Some (s, ip, ell)
  | S fuel =>
      '(acc, off, rest) ← hex_group s 0 0;
      if Nat.eqb off 0 then None
      else match rest with
           | String "." _ =>
               if bool_decide (ell = None) && negb (Nat.eqb (length ip) 12) then None
               else if Nat.ltb 16 (length ip + 4) then None
               else fields ← parseIPv4Fields s false 0 0 []; Some (""%string, ip ++ fields, ell)
           | _ =>
               let ip := ip ++ [acc / 256; acc mod 256] in
               match rest with
               | EmptyString => Some (""%string, ip, ell)
               | String c more =>
                   if negb (bool_decide (c = COLON)) then None
                   else match more with
                        | EmptyString => None
                        | String c2 more2 =>
                            if bool_decide (c2 = COLON) then
                              if bool_decide (ell <> None) then None
                              else if bool_decide (more2 = ""%string) then Some (""%string, ip, Some (length ip))
                              else ipv6_groups fuel more2 ip (Some (length ip))
                            else ipv6_groups fuel more ip ell
                        end
               end
           end
  end.

Definition WithZone (a : Addr) (zone : string) : Addr := match a with Addr6 v _ => Addr6 v zone | _ => a end.

Definition parseIPv6 (s0 : string) : option Addr :=
  '(s, zone) ← (match IndexByte s0 "%" with
                | None => Some (s0, ""%string)
                | Some i => let z := str_drop (S i) s0 in if bool_decide (z = ""%string) then None else Some (str_take i s0, z)
                end);
  let '(s, ell) := if HasPrefix s "::" then (str_drop 2 s, Some O) else (s, None) in
  if bool_decide (ell = Some O) && bool_decide (s = ""%string) then Some (Addr6 0 zone)
  else
    '(s, ip, ell) ← ipv6_groups 8 s [] ell;
    if negb (bool_decide (s = ""%string)) then None
    else
      let i := length ip in
      if Nat.ltb i 16 then
        match ell with
        | None => None
        | Some e => Some (WithZone (AddrFrom16 (take e ip ++ replicate (16 - i) 0 ++ drop e ip)) zone)
        end
      else if bool_decide (ell <> None) then None
      else Some (WithZone (AddrFrom16 ip) zone).

(** [netip.ParseAddr]: the first dot, colon or percent sign decides. *)
Fixpoint parse_kind (s : string) : option ascii :=
  match s with
  | EmptyString => None
  | String c s => if bool_decide (c = DOT \/ c = COLON \/ c = "%"%char) then Some c else parse_kind s
  end.
Definition ParseAddr (s : string) : option Addr :=
  match parse_kind s with
  | Some c => if bool_decide (c = DOT) then parseIPv4 s else if bool_decide (c = COLON) then parseIPv6 s else None
  | None => None
  end.

(** [netip.ParsePrefix]. *)
Definition ParsePrefix (s : string) : option Prefix :=
  i ← LastIndexByte s "/";
  ip ← ParseAddr (str_take i s);
  if hasZone ip then None
  else
    let bs := str_drop (S i) s in
    match bs with
    | EmptyString => None
    | String c rest =>
        if (bool_decide (rest <> ""%string) && (match digit c with Some d => d =? 0 | None => true end)) then None
        else
          bits ← Atoi bs;
          if (bits <? 0) || (BitLen ip <? bits) then None else Some (PrefixFrom ip bits)
    end.

(** [netip.ParseAddrPort]. *)
Definition ParseAddrPort (s : string) : option AddrPort :=
  i ← LastIndexByte s ":";
  let ip := str_take i s in
  let port := str_drop (S i) s in
  if bool_decide (ip = ""%string) then None
  else if bool_decide (port = ""%string) then None
  else
    match ip with
    | String "[" r =>
        if Nat.ltb (String.length ip) 2 || negb (bool_decide (str_drop (String.length r - 1) r = "]"%string)) then None
        else
          p ← ParseUint16 port;
          a ← ParseAddr (str_take (String.length r - 1) r);
          if Is6 a then Some (Build_AddrPort a p) else None
    | _ =>
        p ← ParseUint16 port;
        a ← ParseAddr ip;
        if Is6 a then None else Some (Build_AddrPort a p)
    end.

(** ** Printing IPv4 *)

Fixpoint dotted (bs : list Z) : string :=
  match bs with
  | [] => ""
  | [b] => itoa b
  | b :: bs => itoa b +:+ "." +:+ dotted bs
  end.

(** ** Lemmas *)

(** A byte in decimal is read as one field, whatever follows. *)
Lemma parse_byte b rest prev fields : 0 <= b < 256 -> exists n,
  parseIPv4Fields (itoa b +:+ rest) prev 0 0 fields = parseIPv4Fields rest true b (S n) fields.
Proof.
  intros H. assert (Hin : b ∈ seqZ 0 256) by (apply elem_of_seqZ; lia).
  set (l := seqZ 0 256) in Hin. vm_compute in l. subst l.
  repeat (apply elem_of_cons in Hin as [-> |Hin]; [eexists; reflexivity|]). by apply not_elem_of_nil in Hin.
Qed.

Lemma parse_dot rest val n fields : (length fields < 3)%nat -> rest <> ""%string ->
  parseIPv4Fields (String "." rest) true val (S n) fields = parseIPv4Fields rest false 0 0 (fields ++ [val]).
Proof.
  intros Hl Hr. cbn [parseIPv4Fields]. change (digit ".") with (@None Z). change (bool_decide ("."%char = DOT)) with true.
  rewrite bool_decide_false by done. cbn [negb orb]. destruct (Nat.eqb_spec (length fields) 3); [lia|done].
Qed.

Lemma itoa_app_nonempty b t : 0 <= b -> itoa b +:+ t <> ""%string.
Proof. intros H. destruct (itoa_nonempty b H) as (a & r & ->). by rewrite str_app_cons. Qed.

Lemma parse_dotted a b c d : is_byte a -> is_byte b -> is_byte c -> is_byte d ->
  parseIPv4Fields (dotted [a; b; c; d]) false 0 0 [] = Some [a; b; c; d].
Proof.
  unfold is_byte. intros Ha Hb Hc Hd. 
  change (dotted [a; b; c; d]) with (itoa a +:+ String "." (itoa b +:+ String "." (itoa c +:+ String "." (itoa d)))).
  destruct (parse_byte a (String "." (itoa b +:+ String "." (itoa c +:+ String "." (itoa d)))) false [] Ha) as [n1 ->].
  rewrite parse_dot by (cbn; lia || (apply itoa_app_nonempty; lia)). cbn [app].
  destruct (parse_byte b (String "." (itoa c +:+ String "." (itoa d))) false [a] Hb) as [n2 ->].
  rewrite parse_dot by (cbn; lia || (apply itoa_app_nonempty; lia)). cbn [app].
  destruct (parse_byte c (String "." (itoa d)) false [a; b] Hc) as [n3 ->].
  rewrite parse_dot; [|cbn; lia|destruct (itoa_nonempty d) as (x & r & ->); [lia|done]]. cbn [app].
  rewrite <- (str_app_nil (itoa d)). destruct (parse_byte d "" false [a; b; c] Hd) as [n4 ->]. reflexivity.
Qed.

Lemma parse_kind_digits s t : no_char DOT s -> no_char COLON s -> no_char "%" s -> parse_kind (s +:+ t) = parse_kind t.
Proof.
  induction s as [|c s IH]; [done|]. rewrite !no_char_cons. intros [H1 H1'] [H2 H2'] [H3 H3']. rewrite str_app_cons.
  cbn [parse_kind]. rewrite bool_decide_false; [|naive_solver]. by apply IH.
Qed.

(** Printing an IPv4 address and parsing it gives the address back. *)
Lemma ParseAddr_dotted bs : length bs = 4%nat -> bytes_ok bs -> ParseAddr (dotted bs) = Some (AddrFrom4 bs).
Proof.
  intros Hl Hb. destruct bs as [|a [|b [|c [|d [|]]]]]; try discriminate.
  inversion Hb as [|? ? Ha Hb1]; inversion Hb1 as [|? ? Hb2 Hb3]; inversion Hb3 as [|? ? Hc Hb4]; inversion Hb4 as [|? ? Hd _]; subst.
  unfold ParseAddr. assert (Hk : parse_kind (dotted [a; b; c; d]) = Some DOT).
  { cbn [dotted]. rewrite parse_kind_digits by (apply itoa_no_char; [apply Ha|reflexivity]). reflexivity. }
  rewrite Hk. change (bool_decide (DOT = DOT)) with true. unfold parseIPv4. by rewrite parse_dotted.
Qed.

(** ** Parsed addresses are well formed *)
Lemma digit_bound c d : digit c = Some d -> 0 <= d <= 9.
Proof. unfold digit. case_match eqn:E; [|done]. intros [= <-]. bools. lia. Qed.
Lemma hexval_bound c d : hexval c = Some d -> 0 <= d <= 15.
Proof. unfold hexval. repeat case_match; intros [= <-]; bools; lia. Qed.
Lemma parseIPv4Fields_ok s : forall prev val dl fields r, parseIPv4Fields s prev val dl fields = Some r ->
  0 <= val <= 255 -> bytes_ok fields -> (length fields <= 3)%nat -> bytes_ok r /\ length r = 4%nat.
Proof.
  induction s as [|c s IH]; intros prev val dl fields r; cbn [parseIPv4Fields].
  - destruct (Nat.ltb_spec (length fields) 3); [done|]. intros [= <-] Hv Hf Hl. split.
    + apply Forall_app. split; [done|]. apply Forall_singleton. unfold is_byte, fits. lia.
    + rewrite length_app. cbn. lia.
  - destruct (digit c) as [d|] eqn:Ed.
    + apply digit_bound in Ed. destruct (_ && _); [done|]. destruct (Z.ltb_spec 255 (val * 10 + d)); [done|].
      intros Hp Hv Hf Hl. by eapply IH; [exact Hp|lia|..].
    + case_bool_decide; [|done]. destruct (_ || _); [done|]. destruct (Nat.eqb_spec (length fields) 3); [done|].
      intros Hp Hv Hf Hl. eapply IH; [exact Hp|lia| |].
      * apply Forall_app. split; [done|]. apply Forall_singleton. unfold is_byte, fits. lia.
      * rewrite length_app. cbn. lia.
Qed.
Lemma hex_group_bound s : forall off acc a o r, hex_group s off acc = Some (a, o, r) ->
  (off <= 4)%nat -> 0 <= acc < 16 ^ Z.of_nat off -> 0 <= a < 65536.
Proof.
  assert (Hmax : forall off x, (off <= 4)%nat -> 0 <= x < 16 ^ Z.of_nat off -> 0 <= x < 65536).
  { intros off x Ho Hx. pose proof (Z.pow_le_mono_r 16 (Z.of_nat off) 4 ltac:(lia) ltac:(lia)). change (16 ^ 4) with 65536 in *. lia. }
  induction s as [|c s IH]; intros off acc a o r; cbn [hex_group].
  - intros [= <- <- <-]. apply Hmax.
  - destruct (hexval c) as [d|] eqn:Eh; [|intros [= <- <- <-]; apply Hmax]. apply hexval_bound in Eh.
    destruct (Nat.ltb_spec 3 off); [done|]. intros Hp Ho Ha. eapply IH; [exact Hp|lia|].
    rewrite Nat2Z.inj_succ, Z.pow_succ_r by lia. lia.
Qed.
Lemma ipv6_groups_ok fuel : forall s ip ell s' ip' ell', ipv6_groups fuel s ip ell = Some (s', ip', ell') ->
  bytes_ok ip -> (length ip + 2 * fuel <= 16)%nat -> bytes_ok ip' /\ (length ip' <= 16)%nat.
Proof.
  induction fuel as [|fuel IH]; intros s ip ell s' ip' ell'; cbn [ipv6_groups].
  { intros [= <- <- <-] Hb Hl. split; [done|lia]. }
  destruct (hex_group s 0 0) as [[[acc off] rest]|] eqn:Eh; cbn [mbind option_bind]; [|done].
  apply hex_group_bound in Eh; [|lia|cbn; lia]. destruct (Nat.eqb_spec off 0); [done|].
  assert (Hpair : forall ip, bytes_ok ip -> bytes_ok (ip ++ [acc / 256; acc mod 256])).
  { intros l Hl. apply Forall_app. split; [done|]. apply Forall_cons; split; [unfold is_byte, fits; Z.to_euclidean_division_equations; lia|apply Forall_singleton; unfold is_byte, fits; Z.to_euclidean_division_equations; lia]. }
  intros Hp Hb Hl. assert (Hcases : (exists fields, parseIPv4Fields s false 0 0 [] = Some fields /\ ip' = ip ++ fields /\ (length ip + 4 <= 16)%nat) \/
    (ip' = ip ++ [acc / 256; acc mod 256]) \/ (exists s2 ell2, ipv6_groups fuel s2 (ip ++ [acc / 256; acc mod 256]) ell2 = Some (s', ip', ell'))).
  { repeat (case_match || case_bool_decide); simplify_eq/=; try (by (right; left)); try (by (right; right; eauto)).
    all: destruct (parseIPv4Fields s false 0 0 []) as [fields|]; cbn [mbind option_bind] in Hp; [|done]; injection Hp as <- <- <-; left; exists fields.
    all: split_and!; try done.
    all: match goal with H : Nat.ltb _ _ = false |- _ => apply Nat.ltb_ge in H; lia end. }
  destruct Hcases as [(fields & Hf & -> & Hl2)|[->|(s2 & ell2 & Hr)]].
  - apply parseIPv4Fields_ok in Hf as [Hf1 Hf2]; [|lia|constructor|cbn; lia]. split; [by apply Forall_app|]. rewrite length_app. lia.
  - split; [by apply Hpair|]. rewrite length_app. cbn. lia.
  - eapply IH; [exact Hr|by apply Hpair|]. rewrite length_app. cbn. lia.
Qed.
Lemma AddrFrom16_wf l zone : bytes_ok l -> length l = 16%nat -> addr_wf (WithZone (AddrFrom16 l) zone).
Proof. intros Hb Hl. pose proof (be_val_bound l Hb) as Hv. rewrite Hl in Hv. exact Hv. Qed.
(** What [ParseAddr] returns is an address that the standard library can build. *)
Lemma ParseAddr_wf s a : ParseAddr s = Some a -> addr_wf a /\ a <> AddrZero.
Proof.
  unfold ParseAddr. destruct (parse_kind s); [|done]. case_bool_decide; [|case_bool_decide; [|done]].
  - unfold parseIPv4. destruct (parseIPv4Fields s false 0 0 []) as [l|] eqn:E; [|done]. intros [= <-].
    apply parseIPv4Fields_ok in E as [Hb Hl]; [|lia|constructor|cbn; lia]. pose proof (be_val_bound l Hb) as Hv. rewrite Hl in Hv. by split.
  - unfold parseIPv6. destruct (match IndexByte s _ with Some _ => _ | None => _ end) as [[s1 zone]|]; cbn [mbind option_bind]; [|done].
    destruct (if HasPrefix s1 "::" then _ else _) as [s2 ell]. destruct (_ && _); [intros [= <-]; split; [cbn; unfold fits; lia|done]|].
    destruct (ipv6_groups 8 s2 [] ell) as [[[s3 ip] ell3]|] eqn:E; cbn [mbind option_bind]; [|done].
    apply ipv6_groups_ok in E as [Hb Hl]; [|constructor|cbn; lia]. destruct (negb _); [done|].
    destruct (Nat.ltb_spec (length ip) 16) as [Hlt|].
    + destruct ell3 as [e|]; [|done]. intros [= <-]. split; [|done]. apply AddrFrom16_wf.
      * unfold bytes_ok; rewrite !Forall_app. split_and!; [by apply Forall_take| |by apply Forall_drop]. apply Forall_replicate. unfold is_byte, fits. lia.
      * rewrite !length_app, length_replicate, length_take, length_drop. lia.
    + case_bool_decide; [done|]. intros [= <-]. split; [|done]. apply AddrFrom16_wf; [done|lia].
Qed.
