(* ===== verification/DnsProxy.v ===== *)
(** * DNS records and lookups (src/pkg/dnsproxy/lookup.go, rpc.go)

    The records that the traffic-manager returns and the client caches, the names of
    reverse lookups, the mapping of lookup errors to response codes, and the lookup
    itself.  The resolver of the operating system is a parameter, as is the wire format
    of the records. *)
From S2P Require Import Prelude NetIP GoStrings NetParse.
From Stdlib Require Import Ascii.
Local Open Scope Z_scope.

(** Types and response codes of the DNS protocol. *)
Definition TypeNone : Z := 0.
Definition TypeA : Z := 1.
Definition TypeNS : Z := 2.
Definition TypeCNAME : Z := 5.
Definition TypePTR : Z := 12.
Definition TypeMX : Z := 15.
Definition TypeTXT : Z := 16.
Definition TypeAAAA : Z := 28.
Definition TypeSRV : Z := 33.
Definition ClassINET : Z := 1.
Definition RcodeSuccess : Z := 0.
Definition RcodeFormatError : Z := 1.
Definition RcodeServerFailure : Z := 2.
Definition RcodeNameError : Z := 3.
Definition RcodeNotImplemented : Z := 4.
Definition RcodeRefused : Z := 5.
Definition dnsTTL : Z := 4.

(** A resource record: its header and its data. *)
Inductive rdata :=
| rA (ip : list Z)
| rAAAA (ip : list Z)
| rPTR (ptr : string)
| rCNAME (target : string)
| rMX (mx : string) (pref : Z)
| rNS (ns : string)
| rSRV (target : string) (port priority weight : Z)
| rTXT (txt : list string)
| rOther (what : string).
Record RR := mkRR { rr_Name : string; rr_Rrtype : Z; rr_Class : Z; rr_Ttl : Z; rr_data : rdata }.
Global Instance rdata_eq : EqDecision rdata.
Proof. solve_decision. Defined.
Global Instance RR_eq : EqDecision RR.
Proof. solve_decision. Defined.

Definition SupportedType (qType : Z) : bool :=
  bool_decide (qType ∈ [TypeA; TypeAAAA; TypePTR; TypeCNAME; TypeMX; TypeNS; TypeSRV; TypeTXT]).

Definition IsEmptyName (rr : RR) : bool :=
  match rr_data rr with
  | rA ip => Nat.eqb (length ip) 0
  | rAAAA ip => Nat.eqb (length ip) 0
  | _ => false
  end.
Definition PruneEmptyNames (a : list RR) : list RR := filter (fun rr => IsEmptyName rr = false) a.

Definition NewHeader (qName : string) (qType : Z) (d : rdata) : RR := mkRR qName qType ClassINET dnsTTL d.

(** ** Reverse names *)

Definition arpaV4 : string := ".in-addr.arpa.".
Definition arpaV6 : string := ".ip6.arpa.".

Definition nibbleToInt (v : string) : option Z :=
  match v with String c EmptyString => hexval c | _ => None end.

(** The loop over the nibbles: the byte [15 - i>>1] gets its low, then its high nibble. *)
Fixpoint nibbles_loop (hds : list string) (i : nat) (odd : bool) (ip : list Z) : option (list Z) :=
  match hds with
  | [] => Some ip
  | nb :: hds =>
      match nibbleToInt nb with
      | None => None
      | Some d =>
          let b := (15 - i / 2)%nat in
          let byte := if odd then Z.lor (nth b ip 0) (u8 (Z.shiftl d 4)) else d in
          nibbles_loop hds (S i) (negb odd) (<[b := byte]> ip)
      end
  end.

Definition PtrAddress (addr : string) : option Addr :=
  match ParseAddr addr with
  | Some a => Some a
  | None =>
      if HasSuffix addr arpaV4 then
        match ParseAddr (TrimSuffix addr arpaV4) with
        | Some a =>
            if Is4 a then match As4 a with
                          | Some [ip0; ip1; ip2; ip3] => Some (AddrFrom4 [ip3; ip2; ip1; ip0])
                          | _ => None
                          end
            else None
        | None => None
        end
      else if HasSuffix addr arpaV6 then
        let hds := SplitByte (TrimSuffix addr arpaV6) "." in
        if negb (Nat.eqb (length hds) 32) then None
        else AddrFrom16 <$> nibbles_loop hds 0 false (replicate 16 0)
      else None
  end.

(** ** Lookups *)

(** [useLookupName]; a query name ends with a dot, so it is not empty. *)
Definition useLookupName (qName noSearchDomain : string) : option (string * bool) :=
  if negb (bool_decide (noSearchDomain = ""%string)) && HasSuffix qName noSearchDomain then Some (qName, true)
  else match String.length qName with
       | O => None
       | S n =>
           let name := str_take n qName in
           let dots := CountByte name "." in
           Some (name, Nat.eqb dots 0 || Nat.ltb 3 dots)
       end.

Inductive lookup_error :=
| LDeadline (text : string)
| LCanceled (text : string)
| LDns (isNotFound isTemporary isTimeout : bool) (text : string)
| LOther (text : string).
Definition error_text (e : lookup_error) : string :=
  match e with LDeadline t | LCanceled t | LDns _ _ _ t | LOther t => t end.

Definition codes_DeadlineExceeded : Z := 4.
Definition codes_Unimplemented : Z := 12.
Definition codes_Internal : Z := 13.
Definition grpc_Canceled : Z := 1.
Definition grpc_Unavailable : Z := 14.

(** The response code and the gRPC status, [None] when there is no error to report. *)
Definition MakeDNSError (e : lookup_error) : Z * option (Z * string) :=
  match e with
  | LDeadline t => (RcodeNameError, Some (codes_DeadlineExceeded, t))
  | LCanceled t => (RcodeNameError, Some (grpc_Canceled, t))
  | LDns true _ _ _ => (RcodeNameError, None)
  | LDns false true _ t => (RcodeNameError, Some (grpc_Unavailable, t))
  | LDns false false true t => (RcodeNameError, Some (codes_DeadlineExceeded, t))
  | _ => (RcodeServerFailure, Some (codes_Internal, error_text e))
  end.

(** The resolver of the system. *)
Class Resolver := {
  LookupIP : string -> string -> lookup_error + list (list Z);
  LookupAddr : Addr -> lookup_error + list string;
  LookupCNAME : string -> lookup_error + string;
  LookupMX : string -> lookup_error + list (string * Z);
  LookupNS : string -> lookup_error + list string;
  LookupSRV : string -> lookup_error + list (string * Z * Z * Z);
  LookupTXT : string -> lookup_error + list string
}.

(** [net.IP.To4] and [net.IP.To16]. *)
Definition v4InV6Prefix : list Z := replicate 10 0 ++ [255; 255].
Definition To4 (ip : list Z) : option (list Z) :=
  if Nat.eqb (length ip) 4 then Some ip
  else if Nat.eqb (length ip) 16 && bool_decide (take 12 ip = v4InV6Prefix) then Some (drop 12 ip)
  else None.
Definition To16 (ip : list Z) : option (list Z) :=
  if Nat.eqb (length ip) 4 then Some (v4InV6Prefix ++ ip)
  else if Nat.eqb (length ip) 16 then Some ip
  else None.

Section Lookups.
Context `{Resolver}.

Definition lookupIP (network qName noSearchDomain : string) : option (lookup_error + list (list Z)) :=
  '(name, final) ← useLookupName qName noSearchDomain;
  let r := match LookupIP network name with
           | inl e => if final : bool then inl e else LookupIP network qName
           | r => r
           end in
  Some (match r with
        | inr [] => inl (LDns true false false ("lookup " +:+ name +:+ ": no such host"))
        | r => r
        end).

(** The result of a lookup: the records, the response code and the gRPC status.  [None] is
    a panic of the lookup: a slice of the query name is out of range. *)
Definition lookup_result : Type := list RR * Z * option (Z * string).
Definition makeError (e : lookup_error) : lookup_result := let '(rc, st) := MakeDNSError e in ([], rc, st).
Definition lookup_ok (rrs : list RR) : lookup_result := (rrs, RcodeSuccess, None).
Definition or_error {A} (r : lookup_error + A) (k : A -> list RR) : lookup_result :=
  match r with inl e => makeError e | inr a => lookup_ok (k a) end.

(** [svcFQN]: the name of a service record with the search path applied, or the empty
    name; [None] is the panic of [svcName[:len(svcName)-1]]. *)
Definition svcFQN (name : string) : option string :=
  match SplitByte name "." with
  | p0 :: p1 :: p2 :: rest =>
      if HasPrefix p0 "_" && HasPrefix p1 "_" then
        let svcName := Join (p2 :: rest) "." in
        match String.length svcName with
        | O => None
        | S n =>
            Some (match LookupIP "ip" (str_take n svcName) with
                  | inr (ip :: _) =>
                      match AddrFromSlice ip with
                      | Some a =>
                          match LookupAddr a with
                          | inr (fqn :: _) =>
                              match String.index 0 svcName fqn with
                              | Some ix => p0 +:+ "." +:+ p1 +:+ "." +:+ str_drop ix fqn
                              | None => ""
                              end
                          | _ => ""
                          end
                      | None => ""
                      end
                  | _ => ""
                  end)
        end
      else Some ""%string
  | _ => Some ""%string
  end.

Definition srv_records (qName : string) (srvs : list (string * Z * Z * Z)) : list RR :=
  map (fun '(t, port, prio, weight) => NewHeader qName TypeSRV (rSRV t port prio weight)) srvs.

Definition Lookup (qType : Z) (qName noSearchDomain : string) : option lookup_result :=
  let n := String.length qName in
  let name := str_take (n - 1) qName in
  if qType =? TypeA then
    r ← lookupIP "ip4" qName noSearchDomain;
    Some (or_error r (fun ips => map (fun ip => NewHeader qName qType (rA ip)) (omap To4 ips)))
  else if qType =? TypeAAAA then
    r ← lookupIP "ip6" qName noSearchDomain;
    Some (or_error r (fun ips => map (fun ip => NewHeader qName qType (rAAAA ip)) (omap To16 ips)))
  else if qType =? TypePTR then
    Some (match PtrAddress qName with
          | None => makeError (LOther "not a valid IP-address")
          | Some ip => or_error (LookupAddr ip) (map (fun x => NewHeader qName qType (rPTR x)))
          end)
  else if qType =? TypeCNAME then
    '(lname, final) ← useLookupName qName noSearchDomain;
    let r := match LookupCNAME lname with
             | inl e => if final : bool then inl e else LookupCNAME qName
             | r => r
             end in
    Some (or_error r (fun target => [NewHeader qName qType (rCNAME target)]))
  else if qType =? TypeMX then
    if Nat.eqb n 0 then None
    else Some (or_error (LookupMX name) (map (fun '(host, pref) => NewHeader qName qType (rMX host pref))))
  else if qType =? TypeNS then
    if Nat.eqb n 0 then None else Some (or_error (LookupNS name) (map (fun x => NewHeader qName qType (rNS x))))
  else if qType =? TypeSRV then
    if Nat.eqb n 0 then None
    else match LookupSRV name with
         | inr srvs => Some (lookup_ok (srv_records qName srvs))
         | inl e =>
             let '(rrs, rCode, st) := makeError e in
             if negb (rCode =? RcodeNameError) then Some (rrs, rCode, st)
             else
               fqn ← svcFQN qName;
               if bool_decide (fqn = ""%string) || bool_decide (fqn = qName) then Some (rrs, rCode, st)
               else match LookupSRV fqn with
                    | inl _ => Some (rrs, rCode, st)
                    | inr srvs => Some (lookup_ok (srv_records qName srvs))
                    end
         end
  else if qType =? TypeTXT then
    Some (or_error (LookupTXT qName) (fun txt => [NewHeader qName qType (rTXT txt)]))
  else Some ([], RcodeNotImplemented, Some (codes_Unimplemented, "unsupported DNS query type"%string)).
End Lookups.

(** ** The wire format *)

(** [dns.Len], [dns.PackRR] and [dns.UnpackRR]; [wire] is the uncompressed format. *)
Class DnsCodec := {
  wire : RR -> option (list Z);
  UnpackRR : list Z -> nat -> option (RR * nat)
}.
Class DnsCodecLaws `{DnsCodec} := {
  wire_nonempty : forall rr w, wire rr = Some w -> w <> [];
  unpack_wire : forall rr w pre post, wire rr = Some w ->
    UnpackRR (pre ++ w ++ post) (length pre) = Some (rr, (length pre + length w)%nat)
}.

Section Rpc.
Context `{DnsCodec}.

(** [ToRPC]: the response code and the records one after the other. *)
Fixpoint pack_all (rrs : list RR) : option (list Z) :=
  match rrs with
  | [] => Some []
  | rr :: rrs => w ← wire rr; ws ← pack_all rrs; Some (w ++ ws)
  end.
Definition ToRPC (rrs : list RR) (rCode : Z) : option (list Z * Z) := rrb ← pack_all rrs; Some (rrb, rCode).

(** [FromRPC]: the loop reads at least a byte per record, so the length is enough fuel. *)
Fixpoint unpack_all (fuel : nat) (rrb : list Z) (off : nat) : option (list RR) :=
  if Nat.leb (length rrb) off then Some []
  else match fuel with
       | O => None
       | S fuel => '(rr, off) ← UnpackRR rrb off; rrs ← unpack_all fuel rrb off; Some (rr :: rrs)
       end.
Definition FromRPC (rrb : list Z) (rCode : Z) : list RR * Z * bool :=
  match unpack_all (length rrb) rrb 0 with
  | Some rrs => (rrs, rCode, true)
  | None => ([], RcodeFormatError, false)
  end.
End Rpc.

(** * Correctness of DNS records and lookups

    The reverse name of an address gives the address back; packing records for the
    transport and unpacking them is the identity; a lookup returns records of the
    requested type and name; and a service query with nothing after its protocol label
    makes the lookup panic. *)
(** ** Reverse names *)

(** A name with more than three dots is not an IPv4 address. *)
Lemma parseIPv4_dots s prev val n fields : (3 < CountByte s DOT + length fields)%nat -> (length fields <= 3)%nat ->
  parseIPv4Fields s prev val n fields = None.
Proof.
  revert prev val n fields. induction s as [|c s IH]; intros prev val n fields H Hl; cbn [CountByte] in H; [lia|].
  cbn [parseIPv4Fields]. destruct (digit c) as [d|] eqn:Ed.
  - assert (c <> DOT) by (intros ->; discriminate). rewrite bool_decide_false in H by done.
    destruct (_ && _); [done|]. destruct (255 <? _); [done|]. apply IH; lia.
  - destruct (bool_decide (c = DOT)) eqn:Ec; [|done]. destruct (_ || _); [done|].
    destruct (Nat.eqb_spec (length fields) 3); [done|]. apply IH; rewrite ?length_app; cbn [length]; lia.
Qed.

(** The reverse names of an IPv4 and of an IPv6 address. *)
Definition reverse4 (a b c d : Z) : string := dotted [d; c; b; a] +:+ arpaV4.
Definition nibble (v : Z) (i : nat) : Z := (v / 16 ^ Z.of_nat i) mod 16.
Definition nibble_name (d : Z) : string := String (hex_digit (Z.to_N d)) "".
Definition reverse6 (v : Z) : string := Join (map (fun i => nibble_name (nibble v i)) (seq 0 32)) "." +:+ arpaV6.

Lemma ParseAddr_dots s : parse_kind s = Some DOT -> (3 < CountByte s DOT)%nat -> ParseAddr s = None.
Proof.
  intros Hk Hc. unfold ParseAddr. rewrite Hk. change (bool_decide (DOT = DOT)) with true. unfold parseIPv4.
  by rewrite parseIPv4_dots by (cbn; lia).
Qed.

Lemma PtrAddress_reverse4 a b c d : is_byte a -> is_byte b -> is_byte c -> is_byte d ->
  PtrAddress (reverse4 a b c d) = Some (AddrFrom4 [a; b; c; d]).
Proof.
  unfold is_byte. intros Ha Hb Hc Hd. unfold PtrAddress, reverse4.
  assert (Hn : forall x, 0 <= x -> CountByte (itoa x) DOT = 0%nat).
  { intros x Hx. pose proof (itoa_no_char DOT x Hx eq_refl) as H. unfold no_char in H. clear Hx. induction (itoa x) as [|y t IH]; [done|].
    cbn in H |- *. destruct (bool_decide (y = DOT)); [discriminate|]. destruct (IndexByte t DOT); [discriminate|]. by rewrite IH. }
  rewrite ParseAddr_dots.
  - rewrite (proj2 (HasSuffix_spec _ _)) by eauto. rewrite TrimSuffix_app, ParseAddr_dotted by (done || (repeat constructor; unfold is_byte; lia)).
    change (Is4 (AddrFrom4 [d; c; b; a])) with true. change (As4 (AddrFrom4 [d; c; b; a])) with (Some (be_bytes (length [d; c; b; a]) (be_val [d; c; b; a]))).
    rewrite be_bytes_val by (repeat constructor; unfold is_byte; lia). reflexivity.
  - cbn [dotted]. rewrite !str_app_assoc. rewrite parse_kind_digits by (apply itoa_no_char; done || lia). reflexivity.
  - cbn [dotted]. rewrite !CountByte_app, !Hn by lia. vm_compute. lia.
Qed.

Lemma nibble_name_int v i : nibbleToInt (nibble_name (nibble v i)) = Some (nibble v i).
Proof.
  assert (Hb : 0 <= nibble v i < 16) by (apply Z.mod_pos_bound; lia). generalize dependent (nibble v i). intros d Hd.
  assert (Hin : d ∈ seqZ 0 16) by (apply elem_of_seqZ; lia). set (l := seqZ 0 16) in Hin. vm_compute in l. subst l.
  repeat (apply elem_of_cons in Hin as [-> |Hin]; [reflexivity|]). by apply not_elem_of_nil in Hin.
Qed.
Lemma nibble_name_char v i c : c = DOT \/ c = COLON \/ c = "%"%char -> no_char c (nibble_name (nibble v i)).
Proof.
  assert (Hb : 0 <= nibble v i < 16) by (apply Z.mod_pos_bound; lia). generalize dependent (nibble v i). intros d Hd Hc.
  assert (Hin : d ∈ seqZ 0 16) by (apply elem_of_seqZ; lia). set (l := seqZ 0 16) in Hin. vm_compute in l. subst l.
  destruct Hc as [-> |[-> | ->]];
  repeat (apply elem_of_cons in Hin as [-> |Hin]; [reflexivity|]); by apply not_elem_of_nil in Hin.
Qed.

(** A byte from its two nibbles. *)
Lemma byte_of_nibbles v i j : i = (2 * j)%nat ->
  Z.lor (nibble v i) (u8 (Z.shiftl (nibble v (S i)) 4)) = Z.shiftr v (8 * Z.of_nat j) mod 256.
Proof.
  intros ->. unfold nibble. replace (Z.of_nat (S (2 * j))) with (2 * Z.of_nat j + 1) by lia. replace (Z.of_nat (2 * j)) with (2 * Z.of_nat j) by lia.
  rewrite Z.shiftr_div_pow2, Z.shiftl_mul_pow2 by lia.
  replace (2 ^ (8 * Z.of_nat j)) with (16 ^ (2 * Z.of_nat j)).
  2: { change 16 with (2 ^ 4). rewrite <- Z.pow_mul_r by lia. f_equal. lia. }
  rewrite Z.pow_add_r, Z.pow_1_r by lia. rewrite <- Z.div_div by lia. set (w := v / 16 ^ (2 * Z.of_nat j)).
  assert (H1 : 0 <= (w / 16) mod 16 < 16) by (apply Z.mod_pos_bound; lia).
  assert (H2 : 0 <= w mod 16 < 16) by (apply Z.mod_pos_bound; lia).
  rewrite wrap_id by (unfold fits; lia). rewrite Z.lor_comm, (lor_add _ _ 4) by (unfold fits; lia).
  change (2 ^ 4) with 16. change 256 with (16 * 16). rewrite Z.rem_mul_r by lia. lia.
Qed.

(** The loop over the 32 nibbles fills in the sixteen bytes. *)
Lemma nibbles_loop_reverse v : nibbles_loop (map (fun i => nibble_name (nibble v i)) (seq 0 32)) 0 false (replicate 16 0) = Some (be_bytes 16 v).
Proof.
  assert (Hs : forall n i odd ip, nibbles_loop (map (fun i => nibble_name (nibble v i)) (i :: n)) i odd ip =
    nibbles_loop (map (fun i => nibble_name (nibble v i)) n) (S i) (negb odd)
      (<[(15 - i / 2)%nat := if odd then Z.lor (nth (15 - i / 2)%nat ip 0) (u8 (Z.shiftl (nibble v i) 4)) else nibble v i]> ip)).
  { intros n i odd ip. cbn [map nibbles_loop]. by rewrite nibble_name_int. }
  change (seq 0 32) with (0 :: 1 :: 2 :: 3 :: 4 :: 5 :: 6 :: 7 :: 8 :: 9 :: 10 :: 11 :: 12 :: 13 :: 14 :: 15 :: 16 :: 17 :: 18 :: 19 :: 20
    :: 21 :: 22 :: 23 :: 24 :: 25 :: 26 :: 27 :: 28 :: 29 :: 30 :: 31 :: [])%nat.
  do 32 (rewrite Hs; cbn [negb Nat.div Nat.sub Nat.divmod fst replicate nth insert list_insert]).
  cbn [map nibbles_loop]. f_equal.
  repeat match goal with |- context [Z.lor (nibble v ?i) (wrap 8 (Z.shiftl (nibble v _) 4))] =>
    let j := eval vm_compute in (Nat.div2 i) in rewrite (byte_of_nibbles v i j) by reflexivity
  end.
  reflexivity.
Qed.

Lemma CountByte_Join ss c : ss <> [] -> (length ss - 1 <= CountByte (Join ss (String c "")) c)%nat.
Proof.
  induction ss as [|s ss IH]; [done|]. intros _. destruct ss as [|s2 ss]; [cbn; lia|].
  change (Join (s :: s2 :: ss) (String c "")) with (s +:+ String c (Join (s2 :: ss) (String c ""))).
  rewrite CountByte_app. cbn [CountByte]. rewrite bool_decide_true by done. specialize (IH ltac:(done)). cbn [length] in *. lia.
Qed.

(** The reverse name of every address is read back as that address. *)
Theorem PtrAddress_reverse (a b c d v : Z) : is_byte a -> is_byte b -> is_byte c -> is_byte d -> fits 128 v ->
  PtrAddress (reverse4 a b c d) = Some (AddrFrom4 [a; b; c; d]) /\ PtrAddress (reverse6 v) = Some (Addr6 v "").
Proof.
  intros Ha Hb Hc Hd Hv. split; [by apply PtrAddress_reverse4|]. unfold PtrAddress, reverse6.
  set (names := map (fun i => nibble_name (nibble v i)) (seq 0 32)).
  assert (Hlen : length names = 32%nat) by (unfold names; by rewrite length_map, length_seq).
  assert (Hno : Forall (no_char DOT) names).
  { unfold names. apply Forall_fmap, Forall_true. intros i. apply nibble_name_char. by left. }
  assert (Hne : names <> []) by (intros E; rewrite E in Hlen; discriminate).
  rewrite ParseAddr_dots.
  - replace (HasSuffix (Join names "." +:+ arpaV6) arpaV4) with false.
    + rewrite (proj2 (HasSuffix_spec _ _)) by eauto. rewrite TrimSuffix_app, (SplitByte_Join names ".") by done. rewrite Hlen. cbn [Nat.eqb negb].
      unfold names. rewrite nibbles_loop_reverse. cbn [fmap option_fmap option_map]. unfold AddrFrom16. rewrite be_val_bytes.
      change (256 ^ Z.of_nat 16) with (2 ^ 128). by rewrite Z.mod_small.
    + symmetry. apply not_true_is_false. intros H. apply HasSuffix_spec in H as [t Ht].
      assert (Hs : forall x, HasSuffix (x +:+ arpaV6) "ip6.arpa." = true) by (intros x; apply HasSuffix_spec; exists (x +:+ "."); by rewrite str_app_assoc).
      specialize (Hs (Join names ".")). rewrite Ht in Hs. clear -Hs. unfold HasSuffix in Hs. apply andb_true_iff in Hs as [_ Hs]. bools.
      rewrite length_str_app in Hs. change (String.length arpaV4) with 14%nat in Hs. change (String.length "ip6.arpa.") with 9%nat in Hs.
      replace (String.length t + 14 - 9)%nat with (String.length t + 5)%nat in Hs by lia. revert Hs. clear.
      induction t as [|x t IH]; [discriminate|]. rewrite str_app_cons. exact IH.
  - assert (names = nibble_name (nibble v 0) :: map (fun i => nibble_name (nibble v i)) (seq 1 31)) as -> by reflexivity.
    cbn [map seq]. cbn [Join]. rewrite !str_app_assoc, parse_kind_digits by (apply nibble_name_char; auto). reflexivity.
  - rewrite CountByte_app. pose proof (CountByte_Join names DOT Hne) as H. change (String DOT "") with "."%string in H. lia.
Qed.

Lemma PtrAddress_reverse_witness : PtrAddress "2.1.168.192.in-addr.arpa." = Some (AddrFrom4 [192; 168; 1; 2]) /\
  PtrAddress (reverse6 0xfd00000000000000000000000000001a) = Some (Addr6 0xfd00000000000000000000000000001a "").
Proof. apply (PtrAddress_reverse 192 168 1 2 0xfd00000000000000000000000000001a); unfold is_byte, fits; lia. Defined.

(** ** Packing records *)

Section Codec.
Context `{DnsCodecLaws}.

Lemma unpack_pack rrs ws pre fuel : pack_all rrs = Some ws -> (length ws <= fuel)%nat ->
  unpack_all fuel (pre ++ ws) (length pre) = Some rrs.
Proof.
  revert ws pre fuel. induction rrs as [|rr rrs IH]; intros ws pre fuel Hp Hf; cbn [pack_all] in Hp.
  - injection Hp as <-. rewrite app_nil_r. destruct fuel; cbn [unpack_all]; by rewrite Nat.leb_refl.
  - destruct (wire rr) as [w|] eqn:Ew; [|discriminate]. destruct (pack_all rrs) as [ws'|] eqn:Ep; [|discriminate]. injection Hp as <-.
    pose proof (wire_nonempty _ _ Ew) as Hn. assert (0 < length w)%nat by (destruct w; [done|cbn; lia]). rewrite length_app in Hf.
    destruct fuel as [|fuel]; [lia|]. cbn [unpack_all]. rewrite (proj2 (Nat.leb_gt _ _)) by (rewrite !length_app; lia).
    rewrite (unpack_wire _ _ _ _ Ew). cbn [mbind option_bind]. rewrite app_assoc, <- length_app, (IH ws' (pre ++ w) fuel eq_refl) by lia.
    reflexivity.
Qed.

(** What the client unpacks of a response is what the traffic-manager packed into it. *)
Theorem ToRPC_FromRPC (rrs : list RR) (rCode : Z) (rrb : list Z) (rc : Z) :
  ToRPC rrs rCode = Some (rrb, rc) -> FromRPC rrb rc = (rrs, rCode, true).
Proof.
  unfold ToRPC, FromRPC. intros E. destruct (pack_all rrs) as [ws|] eqn:Ep; [|discriminate]. injection E as <- <-.
  pose proof (unpack_pack rrs ws [] (length ws) Ep) as Hu. cbn [app length] in Hu. by rewrite Hu.
Qed.
End Codec.

(** ** Lookups *)

Section LookupSpec.
Context `{Resolver}.

Lemma or_error_names {A} (r : lookup_error + A) (k : A -> list RR) qName qType rrs rc st :
  or_error r k = (rrs, rc, st) -> (forall a, Forall (fun rr => rr_Name rr = qName /\ rr_Rrtype rr = qType) (k a)) ->
  Forall (fun rr => rr_Name rr = qName /\ rr_Rrtype rr = qType) rrs /\ (rc = RcodeSuccess -> st = None) /\ (rc <> RcodeSuccess -> rrs = []).
Proof.
  intros E Hk. unfold or_error, makeError, lookup_ok in E. destruct r as [e|a].
  - destruct (MakeDNSError e) as [rc' st'] eqn:Ee. injection E as <- <- <-. split_and!; [constructor| |done]. intros ->.
    by destruct e as [|t|[] [] []|]; cbn in Ee; injection Ee as ? ?.
  - injection E as <- <- <-. split_and!; [apply Hk|done|done].
Qed.

Lemma map_headers {A} qName qType (f : A -> rdata) l :
  Forall (fun rr => rr_Name rr = qName /\ rr_Rrtype rr = qType) (map (fun x => NewHeader qName qType (f x)) l).
Proof. apply Forall_fmap, Forall_true. done. Qed.
Lemma map_srv qName l : Forall (fun rr => rr_Name rr = qName /\ rr_Rrtype rr = TypeSRV) (srv_records qName l).
Proof. unfold srv_records. apply Forall_fmap, Forall_true. by intros [[[? ?] ?] ?]. Qed.

(** Every record of a lookup has the requested name and type; a successful lookup has no
    error, and a failed one no records. *)
Theorem Lookup_records (qType : Z) (qName noSearchDomain : string) (rrs : list RR) (rc : Z) (st : option (Z * string)) :
  Lookup qType qName noSearchDomain = Some (rrs, rc, st) ->
  Forall (fun rr => rr_Name rr = qName /\ rr_Rrtype rr = qType) rrs /\ (rc = RcodeSuccess -> st = None) /\ (rc <> RcodeSuccess -> rrs = []).
Proof.
  unfold Lookup. intros E.
  destruct (qType =? TypeA). { destruct (lookupIP _ _ _); [|discriminate]. injection E as E. eapply or_error_names; [exact E|]. intros; apply map_headers. }
  destruct (qType =? TypeAAAA). { destruct (lookupIP _ _ _); [|discriminate]. injection E as E. eapply or_error_names; [exact E|]. intros; apply map_headers. }
  destruct (qType =? TypePTR).
  { injection E as E. destruct (PtrAddress qName); [eapply or_error_names; [exact E|]; intros; apply map_headers|].
    apply (or_error_names (inl (LOther "not a valid IP-address")) (fun _ : () => []) qName qType); [exact E|]. constructor. }
  destruct (qType =? TypeCNAME).
  { destruct (useLookupName _ _) as [[lname final]|]; [|discriminate]. injection E as E. eapply or_error_names; [exact E|].
    intros a. by apply Forall_singleton. }
  destruct (qType =? TypeMX).
  { destruct (Nat.eqb _ _); [discriminate|]. injection E as E. eapply or_error_names; [exact E|].
    intros a. apply Forall_fmap, Forall_true. by intros [? ?]. }
  destruct (qType =? TypeNS). { destruct (Nat.eqb _ _); [discriminate|]. injection E as E. eapply or_error_names; [exact E|]. intros; apply map_headers. }
  destruct (Z.eqb_spec qType TypeSRV) as [->|_].
  { destruct (Nat.eqb _ _); [discriminate|]. destruct (LookupSRV _) as [e|srvs].
    - destruct (makeError e) as [[rrs0 rc0] st0] eqn:Ee. assert (Ee' : or_error (inl e) (fun _ : () => []) = (rrs0, rc0, st0)) by exact Ee.
      apply (or_error_names _ _ qName TypeSRV) in Ee'; [|constructor].
      destruct (negb _); [by injection E as <- <- <-|]. destruct (svcFQN qName) as [fqn|]; [|discriminate]. cbn [mbind option_bind] in E.
      destruct (_ || _); [by injection E as <- <- <-|]. destruct (LookupSRV fqn); injection E as <- <- <-; [done|]. split_and!; [apply map_srv|done|done].
    - injection E as <- <- <-. split_and!; [apply map_srv|done|done]. }
  destruct (qType =? TypeTXT). { injection E as E. eapply or_error_names; [exact E|]. intros a. by apply Forall_singleton. }
  injection E as <- <- <-. split_and!; [constructor|done|done].
Qed.

(** A service query with nothing after the protocol label, such as "_http._tcp.", panics
    when the first lookup finds nothing. *)
Theorem Lookup_SRV_panics (noSearchDomain : string) (text : string) (a b : bool) :
  LookupSRV "_http._tcp" = inl (LDns true a b text) -> Lookup TypeSRV "_http._tcp." noSearchDomain = None.
Proof. intros E. unfold Lookup. cbn -[LookupSRV]. by rewrite E. Qed.
End LookupSpec.

(** A resolver that finds nothing, and a wire format with records of one byte. *)
Definition empty_resolver : Resolver := {|
  LookupIP := fun _ _ => inl (LDns true false false "no such host");
  LookupAddr := fun _ => inl (LDns true false false "no such host");
  LookupCNAME := fun _ => inr "target.";
  LookupMX := fun _ => inl (LOther "x");
  LookupNS := fun _ => inl (LOther "x");
  LookupSRV := fun _ => inl (LDns true false false "no such host");
  LookupTXT := fun _ => inr ["text"%string]
|}.
Lemma Lookup_SRV_panics_witness : @Lookup empty_resolver TypeSRV "_http._tcp." "cluster.local." = None.
Proof. apply (@Lookup_SRV_panics empty_resolver "cluster.local." "no such host" false false). reflexivity. Defined.
Lemma Lookup_records_witness : Forall (fun rr => rr_Name rr = "a.b."%string /\ rr_Rrtype rr = TypeCNAME) [NewHeader "a.b." TypeCNAME (rCNAME "target.")].
Proof. apply (@Lookup_records empty_resolver TypeCNAME "a.b." "" _ RcodeSuccess None). reflexivity. Defined.

Definition one_record : RR := NewHeader "a." TypeA (rA [10; 0; 0; 1]).
Definition unit_codec : DnsCodec := {|
  wire := fun rr => if bool_decide (rr = one_record) then Some [1] else None;
  UnpackRR := fun bs off => match bs !! off with Some 1 => Some (one_record, S off) | _ => None end
|}.
Lemma unit_codec_laws : @DnsCodecLaws unit_codec.
Proof.
  split; cbn; intros rr w; intros; destruct (bool_decide (rr = one_record)) eqn:E; try discriminate; bools; simplify_eq; [done|].
  rewrite lookup_app_r, Nat.sub_diag by lia. cbn. by rewrite Nat.add_1_r.
Qed.
Lemma ToRPC_FromRPC_witness : @FromRPC unit_codec [1; 1] RcodeSuccess = ([one_record; one_record], RcodeSuccess, true).
Proof. apply (@ToRPC_FromRPC unit_codec unit_codec_laws). reflexivity. Defined.
