(* ===== verification/DnsServer.v ===== *)
(** * The DNS server of the root daemon (src/pkg/client/rootd/dns/server.go)

    The server decides which names go to the cluster, caches answers and hands the rest
    to a fallback server.  Answers are slices of pointers to records, shared between the
    cache and the messages that are sent, and [ServeDNS] writes to their headers: records
    live in a heap ([sv_heap]) and answers are lists of references.  The lookup in the
    cluster, the time and the fallback server are arguments.  Requests are served one at
    a time, except in the model of the recursion check. *)
From S2P Require Import Prelude NetIP GoStrings NetParse DnsProxy.
From Stdlib Require Import Ascii.
Local Open Scope Z_scope.

Definition Tel2SubDomain : string := "tel2-search".
Definition tel2SubDomainDot : string := "tel2-search.".
Definition santiyCheckDot : string := "jhfweoitnkgyeta.tel2-search.".
Definition defaultClusterDomain : string := "cluster.local.".
Definition recursionCheck : string := "tel2-recursion-check.".
Definition DefaultExcludeSuffixes : list string := [".com"; ".io"; ".net"; ".org"; ".ru"]%string.
Definition excludePrefixes : list string :=
  ["wpad."; "_grpc_config."; "lb._dns-sd."; "db._dns-sd."; "b._dns-sd."; "win11-vb."; "dc.msdcs."; "_ldap._tcp.dc._msdcs."]%string.
Definition cacheTTL : Z := 60 * 10 ^ 9.

(** ** State *)

Record Question := mkQ { q_Name : string; q_Qtype : Z; q_Qclass : Z }.
Abbreviation ref := nat (only parsing).
Record cacheEntry := mkCE { ce_created : Z; ce_answer : list ref; ce_rCode : Z }.
Abbreviation cacheKey := (string * Z)%type (only parsing).
Record DNSMapping := mkMapping { m_Name : string; m_AliasFor : string }.

(** The configuration, the domains, and the cache with its records.  The routes are a Go
    map: the list is the order in which a loop visits them. *)
Record Server := mkServer {
  ExcludeSuffixes : list string;
  IncludeSuffixes : list string;
  Excludes : list string;
  Mappings : list DNSMapping;
  mappingsMap : gmap string string;
  VIFAddress : option Addr;
  dropSuffixes : list string;
  routes : list string;
  search : list string;
  clusterDomain : string;
  namespaceDomain : string;
  hasFallback : bool;
  requestCount : Z;
  sv_cache : gmap cacheKey cacheEntry;
  sv_heap : list RR
}.

Definition set_store (c : gmap cacheKey cacheEntry) (h : list RR) (s : Server) : Server :=
  mkServer (ExcludeSuffixes s) (IncludeSuffixes s) (Excludes s) (Mappings s) (mappingsMap s) (VIFAddress s) (dropSuffixes s)
    (routes s) (search s) (clusterDomain s) (namespaceDomain s) (hasFallback s) (requestCount s) c h.
Definition set_cache (c : gmap cacheKey cacheEntry) (s : Server) : Server := set_store c (sv_heap s) s.

(** [mappingsMap] of a list of mappings: later entries win. *)
Definition mappings_map (ms : list DNSMapping) : gmap string string :=
  foldl (fun mm m =>
    let al := match ParseAddr (m_AliasFor m) with Some _ => m_AliasFor m | None => m_AliasFor m +:+ "." end in
    <[ToLower (m_Name m +:+ ".") := ToLower al]> mm) ∅ ms.

(** [NewServer] with the defaults for the exclude suffixes. *)
Definition NewServer (excludeSfx includeSfx excludes : list string) (ms : list DNSMapping) (namespace : string) (fallback : bool) : Server :=
  mkServer (if Nat.eqb (length excludeSfx) 0 then DefaultExcludeSuffixes else excludeSfx) includeSfx excludes ms (mappings_map ms) None
    [tel2SubDomainDot] [] [Tel2SubDomain] defaultClusterDomain (namespace +:+ ".") fallback 0 ∅ [].

(** ** Which names go to the cluster *)

Definition suffixExcluded (s : Server) (n : string) : option bool :=
  match list_find (fun es => HasSuffix n es = true) (ExcludeSuffixes s) with
  | Some (_, es) => Some (existsb (fun x => Nat.leb (String.length es) (String.length x) && HasSuffix n x) (IncludeSuffixes s))
  | None => None
  end.

(** Whether [name] is [sfx] with something and a dot before it: the length of the former. *)
Definition label_index (name sfx : string) : option nat :=
  let li := (String.length name - String.length sfx - 1)%nat in
  if Nat.ltb (String.length sfx + 1) (String.length name) && HasSuffix name ("." +:+ sfx) then Some li else None.

(** The loops over the search path and the routes: the first match decides. *)
Fixpoint by_domain (s : Server) (name : string) (sfxs : list string) : option bool :=
  match sfxs with
  | [] => None
  | sfx :: sfxs =>
      match label_index name sfx with
      | Some li => Some (default true (suffixExcluded s (str_take li name)))
      | None => by_domain s name sfxs
      end
  end.

(** The loop over the include suffixes; an empty one matches and [sfx[0]] panics. *)
Fixpoint by_include (s : Server) (name : string) (sfxs : list string) : Go Empty_set bool :=
  match sfxs with
  | [] => mret false
  | sfx :: sfxs =>
      if HasSuffix name sfx then
        match sfx with
        | EmptyString => Panic
        | String c _ => mret (if bool_decide (c = DOT) then default true (suffixExcluded s (TrimSuffix name sfx)) else true)
        end
      else by_include s name sfxs
  end.

Definition isExcluded (s : Server) (name : string) : bool :=
  bool_decide (name ∈ Excludes s) ||
  existsb (fun sp => HasSuffix name ("." +:+ sp) &&
    bool_decide (str_take (String.length name - String.length sp - 1) name ∈ Excludes s)) (search s).

Definition isDomainExcluded (s : Server) (name : string) : bool := bool_decide (("." +:+ name)%string ∈ ExcludeSuffixes s).

Definition shouldDoClusterLookup (s : Server) (query : string) : Go Empty_set bool :=
  if existsb (fun pf => HasPrefix query pf) excludePrefixes then mret false
  else match String.length query with
  | O => Panic
  | S n =>
      let name := str_take n query in
      if isExcluded s name then mret false
      else match IndexByte name "." with
      | None => mret true
      | Some _ =>
          match suffixExcluded s name with
          | Some include => mret include
          | None =>
              match by_domain s name (search s) with
              | Some r => mret r
              | None =>
                  match by_domain s name (routes s) with
                  | Some r => mret r
                  | None =>
                      if HasSuffix query ("." +:+ clusterDomain s) then mret true
                      else by_include s name (IncludeSuffixes s)
                  end
              end
          end
      end
  end.

(** ** Lookup in the cluster *)

Inductive resolve_err := EDeadline | ECanceled | EGrpc (code : Z) (what : string).
Inductive cluster_result :=
| COk (rrs : list RR) (rCode : Z)
| CTimeout
| CErr (rCode : Z) (e : resolve_err).
(** The cluster's reply and the error of the lookup's context afterwards. *)
Abbreviation Cluster := (Question -> cluster_result * option resolve_err) (only parsing).

Definition localhostIPv4 : list Z := [127; 0; 0; 1].
Definition localhostIPv6 : list Z := replicate 15 0 ++ [1].
Definition localHostReply (q : Question) : option (list RR) :=
  if q_Qtype q =? TypeA then Some [mkRR (q_Name q) (q_Qtype q) (q_Qclass q) 0 (rA localhostIPv4)]
  else if q_Qtype q =? TypeAAAA then Some [mkRR (q_Name q) (q_Qtype q) (q_Qclass q) 0 (rAAAA localhostIPv6)]
  else None.

(** [client.CheckTimeout]. *)
Definition CheckTimeout (ctxErr err : option resolve_err) : option resolve_err :=
  match ctxErr, err with
  | Some EDeadline, _ => Some EDeadline
  | Some e, None => Some e
  | _, _ => err
  end.

Definition set_ttl (rr : RR) : RR := mkRR (rr_Name rr) (rr_Rrtype rr) (rr_Class rr) dnsTTL (rr_data rr).

Definition resolveInCluster (cl : Cluster) (s : Server) (q : Question) : Go Empty_set (list RR * Z * option resolve_err) :=
  if bool_decide (q_Name q = "localhost."%string) then
    mret (match localHostReply q with Some rrs => (rrs, RcodeSuccess, None) | None => ([], RcodeNameError, None) end)
  else
    should ← shouldDoClusterLookup s (q_Name q);
    if negb should then mret ([], RcodeNameError, None)
    else
      let '(r, ctxErr) := cl q in
      mret (match r with
            | COk rrs rCode => (map set_ttl rrs, rCode, None)
            | CTimeout => ([], RcodeNameError, CheckTimeout ctxErr None)
            | CErr rCode e => ([], rCode, CheckTimeout ctxErr (Some e))
            end).

(** ** The cache *)

Definition expired (now : Z) (ce : cacheEntry) : bool := cacheTTL <? now - ce_created ce.

(** [copyRRs] on a list of records: those of the types, and the others. *)
Definition copyRRs (rrs : list RR) (qTypes : list Z) : list RR * list RR :=
  (filter (fun rr => rr_Rrtype rr ∈ qTypes) rrs, filter (fun rr => ~ rr_Rrtype rr ∈ qTypes) rrs).

(** New records on the heap, and the references to them. *)
Definition alloc (rrs : list RR) (s : Server) : list ref * Server :=
  (seq (length (sv_heap s)) (length rrs), set_store (sv_cache s) (sv_heap s ++ rrs) s).
Definition deref (s : Server) (rs : list ref) : list RR := omap (fun r => sv_heap s !! r) rs.

Definition isNameCachedWithSuccess (s : Server) (q : Question) : bool :=
  let success qt := existsb (fun n => match sv_cache s !! (n, qt) with Some ce => ce_rCode ce =? RcodeSuccess | None => false end)
    (q_Name q :: if HasSuffix (q_Name q) (namespaceDomain s) then [TrimSuffix (q_Name q) (namespaceDomain s)] else []) in
  if q_Qtype q =? TypeAAAA then success TypeA
  else if q_Qtype q =? TypeA then success TypeAAAA
  else false.

(** Another record of the reply: it replaces the answer of its entry, or gets a new one. *)
Definition cache_other (now rCode : Z) (s : Server) (rr : RR) : Server :=
  let '(rs, s) := if IsEmptyName rr then ([], s) else alloc [rr] s in
  let key := (rr_Name rr, rr_Rrtype rr) in
  set_cache (<[key := match sv_cache s !! key with
                      | Some ce => mkCE (ce_created ce) rs rCode
                      | None => mkCE now rs rCode
                      end]> (sv_cache s)) s.

(** The end of [resolveThruCache] for a reply of the cluster, for an entry created at
    [now].  [dv.answer], which the loop over CNAME records reads, is still empty. *)
Definition cache_reply (now : Z) (q : Question) (s : Server) (answer : list RR) (rCode : Z) (err : option resolve_err)
    : list ref * Z * option resolve_err * Server :=
  let key := (q_Name q, q_Qtype q) in
  let rCode := match err with
               | Some EDeadline => RcodeNameError
               | Some (EGrpc code _) => if code =? grpc_Canceled then RcodeNameError else rCode
               | _ => rCode
               end in
  let '(err, rCode) := if negb (rCode =? RcodeSuccess) && isNameCachedWithSuccess s q then (None, RcodeSuccess) else (err, rCode) in
  let dv_answer : list RR := [] in
  let qTypes := q_Qtype q :: (if negb (q_Qtype q =? TypeCNAME) && existsb (fun rr => rr_Rrtype rr =? TypeCNAME) dv_answer then [TypeCNAME] else []) in
  let '(cp, others) := copyRRs answer qTypes in
  let '(rs, s) := alloc (PruneEmptyNames cp) s in
  let s := set_cache (<[key := mkCE now rs rCode]> (sv_cache s)) s in
  let s := if rCode =? RcodeSuccess then foldl (cache_other now rCode) s others else s in
  let s := if bool_decide (err <> None) || (negb (rCode =? RcodeSuccess) && negb (rCode =? RcodeNameError))
           then set_cache (delete key (sv_cache s)) s else s in
  (rs, rCode, err, s).

Definition resolveThruCache (cl : Cluster) (now : Z) (q : Question) (s : Server) : Go Empty_set (list ref * Z * option resolve_err * Server) :=
  let key := (q_Name q, q_Qtype q) in
  match sv_cache s !! key with
  | Some ce =>
      if negb (expired now ce) then mret (ce_answer ce, ce_rCode ce, None, s)
      else
        let s := set_cache (<[key := mkCE now [] (-1)]> (sv_cache s)) s in
        '(answer, rCode, err) ← resolveInCluster cl s q; mret (cache_reply now q s answer rCode err)
  | None =>
      let s := set_cache (<[key := mkCE now [] (-1)]> (sv_cache s)) s in
      '(answer, rCode, err) ← resolveInCluster cl s q; mret (cache_reply now q s answer rCode err)
  end.

(** ** Configuration *)

Definition purgeRecordsFromCache (keyName : string) (c : gmap cacheKey cacheEntry) : gmap cacheKey cacheEntry :=
  let keyName := TrimSuffix keyName "." +:+ "." in
  delete (keyName, TypeAAAA) (delete (keyName, TypeA) c).

(** [slice.AppendUnique]. *)
Definition AppendUnique {A} `{EqDecision A} (dest src : list A) : list A :=
  foldl (fun dest v => if bool_decide (v ∈ dest) then dest else dest ++ [v]) dest src.

Definition set_config (excludeSfx includeSfx excludes : list string) (ms : list DNSMapping) (mm : gmap string string) (vif : option Addr)
    (rts srch : list string) (cd : string) (s : Server) : Server :=
  mkServer excludeSfx includeSfx excludes ms mm vif (dropSuffixes s) rts srch cd (namespaceDomain s) (hasFallback s) (requestCount s)
    (sv_cache s) (sv_heap s).

Definition SetExcludes (excludes : list string) (s : Server) : Server :=
  let excludes := map ToLower excludes in
  let old := Excludes s in
  let s := set_config (ExcludeSuffixes s) (IncludeSuffixes s) excludes (Mappings s) (mappingsMap s) (VIFAddress s) (routes s) (search s) (clusterDomain s) s in
  set_cache (foldl (fun c e => purgeRecordsFromCache e c) (sv_cache s) (AppendUnique old excludes)) s.

Definition SetMappings (ms : list DNSMapping) (s : Server) : Server :=
  let mm := mappings_map ms in
  let s := set_config (ExcludeSuffixes s) (IncludeSuffixes s) (Excludes s) ms mm (VIFAddress s) (routes s) (search s) (clusterDomain s) s in
  set_cache (foldl (fun c n => purgeRecordsFromCache n c) (sv_cache s) (map_to_list mm).*1) s.

(** [SetClusterDNS]; the traffic-manager's suffixes and cluster domain, if it reports any. *)
Definition SetClusterDNS (dns : option (list string * list string * string)) (vifDNS : option Addr) (s : Server) : Server :=
  let vif := match VIFAddress s with Some a => Some a | None => vifDNS end in
  match dns with
  | None => set_config (ExcludeSuffixes s) (IncludeSuffixes s) (Excludes s) (Mappings s) (mappingsMap s) vif (routes s) (search s) (clusterDomain s) s
  | Some (es, incl, cd) =>
      let excl := if bool_decide (ExcludeSuffixes s = DefaultExcludeSuffixes) && Nat.ltb 0 (length es) then map ToLower es else ExcludeSuffixes s in
      let incl := if Nat.eqb (length (IncludeSuffixes s)) 0 then map ToLower incl else IncludeSuffixes s in
      set_config excl incl (Excludes s) (Mappings s) (mappingsMap s) vif (routes s) (search s) (ToLower cd) s
  end.

(** One update of the top level domains in [processSearchPaths]; [order] is the iteration
    order of the new map. *)
Definition new_routes (s : Server) (domains : list string) : list string :=
  let rs := AppendUnique [] (filter (fun d => d <> ""%string /\ isDomainExcluded s d = false) domains) in
  if negb (isDomainExcluded s "svc") then AppendUnique rs ["svc"%string] else rs.
Definition set_domains (domains : list string) (namespace : string) (s : Server) : Server :=
  set_config (ExcludeSuffixes s) (IncludeSuffixes s) (Excludes s) (Mappings s) (mappingsMap s) (VIFAddress s) (new_routes s domains)
    [Tel2SubDomain; namespace] (clusterDomain s) s.

Definition Flush (s : Server) : Server := set_cache ∅ s.

(** ** Serving a request *)

Definition answer_result : Type := list ref * Z * option resolve_err * Server.

(** [resolveMapping]; [None] inside is errNoMapping. *)
Definition resolveMapping (lookup : Question -> Server -> Go Empty_set answer_result) (q : Question) (s : Server)
    : Go Empty_set (option answer_result) :=
  if negb (bool_decide (q_Qtype q ∈ [TypeA; TypeAAAA; TypeCNAME])) then mret None
  else match mappingsMap s !! q_Name q with
  | None => mret None
  | Some alias =>
      match ParseAddr alias with
      | Some ip =>
          let rrs := if (q_Qtype q =? TypeA) && Is4 ip then [mkRR (q_Name q) TypeA ClassINET dnsTTL (rA (AsSlice ip))]
                     else if (q_Qtype q =? TypeAAAA) && Is6 ip then [mkRR (q_Name q) TypeAAAA ClassINET dnsTTL (rAAAA (AsSlice ip))]
                     else [] in
          let '(rs, s) := alloc rrs s in mret (Some (rs, RcodeSuccess, None, s))
      | None =>
          let '(cname, s) := alloc [mkRR (q_Name q) TypeCNAME ClassINET dnsTTL (rCNAME alias)] s in
          if q_Qtype q =? TypeCNAME then mret (Some (cname, RcodeSuccess, None, s))
          else
            '(rs, rCode, err, s) ← lookup (mkQ alias (q_Qtype q) (q_Qclass q)) s;
            mret (Some (match err with None => cname ++ rs | Some _ => rs end, rCode, err, s))
      end
  end.

(** The name without a drop suffix: the first suffix that leaves a dot at the end. *)
Fixpoint drop_suffix (name : string) (sfxs : list string) : string :=
  match sfxs with
  | [] => name
  | sfx :: sfxs =>
      if HasSuffix name sfx then
        let n := TrimSuffix name sfx in
        if Nat.ltb 1 (String.length n) && HasSuffix n "." then n else drop_suffix name sfxs
      else drop_suffix name sfxs
  end.

(** What a request ends with: a reply with the records referred to, or the fallback
    server is asked for a name. *)
Inductive served := Reply (rCode : Z) (answer : list ref) | Fallback (name : string).

(** The deferred restoration of the original name in the answer's headers. *)
Definition restore_names (from to : string) (rs : list ref) (s : Server) : Server :=
  set_store (sv_cache s)
    (foldl (fun h r => alter (fun rr => if bool_decide (rr_Name rr = from) then mkRR to (rr_Rrtype rr) (rr_Class rr) (rr_Ttl rr) (rr_data rr) else rr) r h)
       (sv_heap s) rs) s.

Definition count_request (s : Server) : Server :=
  mkServer (ExcludeSuffixes s) (IncludeSuffixes s) (Excludes s) (Mappings s) (mappingsMap s) (VIFAddress s) (dropSuffixes s)
    (routes s) (search s) (clusterDomain s) (namespaceDomain s) (hasFallback s) (requestCount s + 1) (sv_cache s) (sv_heap s).

(** The part of [ServeDNS] after the name was changed: [q] has the new name. *)
Definition serve_lookup (clientLookup : Question -> Server -> Go Empty_set answer_result) (q : Question) (s : Server) : Go Empty_set answer_result :=
  if bool_decide (q_Qtype q ∈ [TypeA; TypeAAAA; TypeCNAME]) then
    m ← resolveMapping clientLookup q s;
    match m with Some r => mret r | None => clientLookup q s end
  else if (q_Qtype q =? TypePTR) && bool_decide (VIFAddress s <> None /\ PtrAddress (q_Name q) = VIFAddress s) then
    let '(rs, s) := alloc [NewHeader (q_Name q) (q_Qtype q) (rPTR (clusterDomain s))] s in mret (rs, RcodeSuccess, None, s)
  else clientLookup q s.

Definition ServeDNS (clientLookup : Question -> Server -> Go Empty_set answer_result) (q : Question) (s : Server) : Go Empty_set (served * Server) :=
  let s := count_request s in
  if bool_decide (q_Name q = santiyCheckDot) then
    mret (match localHostReply q with
          | None => (Reply RcodeNotImplemented [], s)
          | Some rrs => let '(rs, s) := alloc rrs s in (Reply RcodeSuccess rs, s)
          end)
  else if negb (SupportedType (q_Qtype q)) then mret (Reply RcodeNotImplemented [], s)
  else
    let origName := q_Name q in
    let name := drop_suffix (ToLower origName) (dropSuffixes s) in
    if bool_decide (q_Qtype q ∈ [TypeA; TypeAAAA; TypeCNAME]) && Contains name tel2SubDomainDot then mret (Reply RcodeNameError [], s)
    else
      '(rs, rCode, err, s) ← serve_lookup clientLookup (mkQ name (q_Qtype q) (q_Qclass q)) s;
      if bool_decide (err = None) && (rCode =? RcodeSuccess) then mret (Reply rCode rs, restore_names name origName rs s)
      else if negb (hasFallback s) || HasSuffix name (clusterDomain s) || HasSuffix origName tel2SubDomainDot
           then mret (Reply rCode [], s)
           else mret (Fallback origName, s).

(** ** The recursion check *)

(** The field [recursive]: unset, not yet received, received, not detected, detected. *)
Inductive rec_state := RecUnset | RecNotYet | RecReceived | RecNotDetected | RecDetected.
(** A query for the check name: its first and second compare-and-swap, the lookup in the
    cluster, and the third compare-and-swap. *)
Inductive rec_pc := RCas1 | RCas2 | RLookup | RCas3 | RDone (detected : bool).
Definition rec_step (pc : rec_pc) (st : rec_state) : rec_pc * rec_state :=
  match pc, st with
  | RCas1, RecReceived => (RDone true, RecDetected)
  | RCas1, _ => (RCas2, st)
  | RCas2, RecNotYet => (RLookup, RecReceived)
  | RCas2, _ => (RDone false, st)
  | RLookup, _ => (RCas3, st)
  | RCas3, RecReceived => (RDone false, RecNotDetected)
  | RCas3, _ => (RDone false, st)
  | RDone b, _ => (RDone b, st)
  end.
Record rec_sys := mkRec { rs_state : rec_state; rs_pcs : list rec_pc; rs_lookups : nat }.
Definition rec_sys_step (i : nat) (s : rec_sys) : option rec_sys :=
  match rs_pcs s !! i with
  | Some (RDone _) | None => None
  | Some pc =>
      let '(pc', st) := rec_step pc (rs_state s) in
      Some (mkRec st (<[i := pc']> (rs_pcs s)) (match pc with RLookup => S (rs_lookups s) | _ => rs_lookups s end))
  end.
Fixpoint rec_run (sched : list nat) (s : rec_sys) : option rec_sys :=
  match sched with
  | [] => Some s
  | i :: sched => match rec_sys_step i s with Some s' => rec_run sched s' | None => None end
  end.
