(* ===== verification/DnsServerSpec.v ===== *)
(** * Correctness of the DNS server

    Which names reach the cluster and which the fallback server; what the cache keeps;
    how the recursion check ends.  Three theorems show defects: records of another type
    are dropped from answers, of several records of another type only the last one is
    cached, and the headers of cached records keep the name of an earlier question. *)
From S2P Require Import Prelude NetIP GoStrings NetParse DnsProxy DnsServer.
From Stdlib Require Import Ascii.
Local Open Scope Z_scope.

(** ** Which names go to the cluster *)

Lemma label_index_spec name sfx li : label_index name sfx = Some li ->
  exists pre, name = pre +:+ "." +:+ sfx /\ li = String.length pre /\ pre <> ""%string.
Proof.
  unfold label_index. destruct (_ && _) eqn:E; [|discriminate]. apply andb_true_iff in E as [El Es]. apply Nat.ltb_lt in El.
  apply HasSuffix_spec in Es as [pre ->]. intros H. injection H as <-. exists pre. split; [done|].
  rewrite !length_str_app in *. change (String.length ".") with 1%nat in *. split; [lia|]. intros ->. cbn in El. lia.
Qed.

(** Two suffixes without dots that both end a name after a dot are the same. *)
Lemma last_label_unique p1 p2 s1 s2 : no_char DOT s1 -> no_char DOT s2 -> p1 +:+ String DOT s1 = p2 +:+ String DOT s2 -> s1 = s2.
Proof.
  assert (Hin : forall p q : string, ~ no_char DOT (p +:+ String DOT q)) by (intros p q [_ H]%no_char_app; apply no_char_cons in H as [H _]; done).
  intros H1 H2. revert p2. induction p1 as [|a p1 IH]; intros [|b p2] E; rewrite ?str_app_cons in E.
  - by injection E.
  - change ("" +:+ String DOT s1) with (String DOT s1) in E. injection E as _ ->. by apply Hin in H1.
  - change ("" +:+ String DOT s2) with (String DOT s2) in E. injection E as _ E. rewrite <- E in H2. by apply Hin in H2.
  - injection E as _ E. eauto.
Qed.

Lemma by_domain_spec s name sfxs r : Forall (no_char DOT) sfxs ->
  by_domain s name sfxs = Some r <-> exists sfx li, sfx ∈ sfxs /\ label_index name sfx = Some li /\ r = default true (suffixExcluded s (str_take li name)).
Proof.
  intros H. induction H as [|x l Hx Hl IH]; cbn [by_domain].
  - split; [discriminate|]. intros (? & ? & E & _). by apply not_elem_of_nil in E.
  - destruct (label_index name x) as [li|] eqn:El.
    + split.
      * intros E. injection E as <-. exists x, li. split_and!; [apply list_elem_of_here|done|done].
      * intros (sfx & li' & Hin & El' & ->). assert (sfx = x) as ->; [|congruence].
        destruct (label_index_spec _ _ _ El) as (p1 & E1 & _). destruct (label_index_spec _ _ _ El') as (p2 & E2 & _).
        apply (last_label_unique p2 p1); [|done|by rewrite E1 in E2]. apply elem_of_cons in Hin as [-> |Hin]; [done|].
        rewrite Forall_forall in Hl. by apply Hl.
    + rewrite IH. split; intros (sfx & li & Hin & El' & ->).
      * exists sfx, li. split_and!; [by apply list_elem_of_further|done|done].
      * exists sfx, li. apply elem_of_cons in Hin as [-> |Hin]; [congruence|done].
Qed.

Lemma by_domain_perm s name l1 l2 : Forall (no_char DOT) l1 -> l1 ≡ₚ l2 -> by_domain s name l1 = by_domain s name l2.
Proof.
  intros H1 Hp. assert (H2 : Forall (no_char DOT) l2) by (by rewrite <- Hp). apply option_eq. intros r.
  rewrite !by_domain_spec by done. by setoid_rewrite Hp.
Qed.

Definition set_routes (rts : list string) (s : Server) : Server :=
  set_config (ExcludeSuffixes s) (IncludeSuffixes s) (Excludes s) (Mappings s) (mappingsMap s) (VIFAddress s) rts (search s) (clusterDomain s) s.

(** The lookup rule [suffixExcluded] only reads the suffixes. *)
Lemma by_domain_routes s name l rts : by_domain (set_routes rts s) name l = by_domain s name l.
Proof. induction l as [|x l IH]; [done|]. cbn [by_domain]. by rewrite IH. Qed.
Lemma by_include_routes s name l rts : by_include (set_routes rts s) name l = by_include s name l.
Proof. induction l as [|x l IH]; [done|]. cbn [by_include]. by rewrite IH. Qed.

(** Routes are namespaces, which have no dots: the decision does not depend on the order
    in which the map of routes is visited. *)
Theorem cluster_lookup_route_order (s : Server) (query : string) (rts1 rts2 : list string) :
  Forall (no_char DOT) rts1 -> rts1 ≡ₚ rts2 ->
  shouldDoClusterLookup (set_routes rts1 s) query = shouldDoClusterLookup (set_routes rts2 s) query.
Proof.
  intros Hn Hp. unfold shouldDoClusterLookup. destruct (existsb _ _); [done|]. destruct (String.length query); [done|].
  change (isExcluded (set_routes rts1 s)) with (isExcluded s). change (isExcluded (set_routes rts2 s)) with (isExcluded s).
  destruct (isExcluded s _); [done|]. destruct (IndexByte _ _); [|done].
  change (suffixExcluded (set_routes rts1 s)) with (suffixExcluded s). change (suffixExcluded (set_routes rts2 s)) with (suffixExcluded s).
  destruct (suffixExcluded s _); [done|]. rewrite !by_domain_routes.
  change (search (set_routes rts1 s)) with (search s). change (search (set_routes rts2 s)) with (search s).
  destruct (by_domain s _ (search s)); [done|]. change (routes (set_routes rts1 s)) with rts1. change (routes (set_routes rts2 s)) with rts2.
  rewrite (by_domain_perm s _ rts1 rts2 Hn Hp). destruct (by_domain s _ rts2); [done|]. rewrite !by_include_routes. done.
Qed.

(** What a positive decision means: the name is not excluded, and it is a single label, or
    an include suffix overrides the first exclude suffix that matches, or no exclude suffix
    matches it and it belongs to the search path, a route, the cluster domain or an
    include suffix. *)
Theorem cluster_lookup_included (s : Server) (query : string) (n : nat) :
  String.length query = S n -> shouldDoClusterLookup s query = Ret true ->
  let name := str_take n query in
  (name ∉ Excludes s) /\ Forall (fun pf => HasPrefix query pf = false) excludePrefixes /\
  (no_char DOT name \/
   (exists es x, es ∈ ExcludeSuffixes s /\ x ∈ IncludeSuffixes s /\ HasSuffix name es = true /\ HasSuffix name x = true /\
      (String.length es <= String.length x)%nat) \/
   (Forall (fun es => HasSuffix name es = false) (ExcludeSuffixes s) /\
    ((exists d li, d ∈ search s ++ routes s /\ label_index name d = Some li) \/ HasSuffix query ("." +:+ clusterDomain s) = true \/
     exists x, x ∈ IncludeSuffixes s /\ HasSuffix name x = true))).
Proof.
  intros Hn H name. unfold shouldDoClusterLookup in H. destruct (existsb _ excludePrefixes) eqn:Ep; [discriminate|]. rewrite Hn in H.
  fold name in H. destruct (isExcluded s name) eqn:Ee; [discriminate|]. apply orb_false_iff in Ee as [Ee _]. bools.
  split; [done|]. split.
  { apply Forall_forall. intros pf Hpf. apply not_true_is_false. intros Ht.
    assert (existsb (fun pf => HasPrefix query pf) excludePrefixes = true) by (apply existsb_exists; exists pf; split; [by apply list_elem_of_In|done]).
    congruence. }
  destruct (IndexByte name ".") eqn:Ei; [|by left]. right. unfold suffixExcluded in H.
  destruct (list_find (fun es => HasSuffix name es = true) (ExcludeSuffixes s)) as [[i es]|] eqn:Ef.
  - left. injection H as H. apply list_find_Some in Ef as (Hl & Hs & _). apply existsb_exists in H as (x & Hx & Hb).
    apply andb_true_iff in Hb as [Hb1 Hb2]. apply Nat.leb_le in Hb1. exists es, x.
    split_and!; [by eapply list_elem_of_lookup_2|by apply list_elem_of_In|done|done|done].
  - right. split.
    { apply list_find_None in Ef. eapply Forall_impl; [exact Ef|]. intros es Hes. by apply not_true_is_false. }
    assert (Hd : forall l r, by_domain s name l = Some r -> exists d li, d ∈ l /\ label_index name d = Some li).
    { clear. induction l as [|x l IH]; cbn [by_domain]; intros r E; [discriminate|]. destruct (label_index name x) eqn:El.
      - exists x. eexists. split; [apply list_elem_of_here|exact El].
      - destruct (IH _ E) as (d & li & Hin & Hl). exists d, li. split; [by apply list_elem_of_further|done]. }
    destruct (by_domain s name (search s)) eqn:E1.
    { left. destruct (Hd _ _ E1) as (d & li & Hin & Hl). exists d, li. split; [by apply elem_of_app; left|done]. }
    destruct (by_domain s name (routes s)) eqn:E2.
    { left. destruct (Hd _ _ E2) as (d & li & Hin & Hl). exists d, li. split; [by apply elem_of_app; right|done]. }
    right. destruct (HasSuffix query _); [by left|]. right. clear -H. induction (IncludeSuffixes s) as [|x l IH]; cbn [by_include] in H; [discriminate|].
    destruct (HasSuffix name x) eqn:Ex; [exists x; split; [apply list_elem_of_here|done]|].
    destruct (IH H) as (y & Hy & Hs). exists y. split; [by apply list_elem_of_further|done].
Qed.

(** ** The cache *)

Lemma set_cache_cache c s : sv_cache (set_cache c s) = c.
Proof. done. Qed.
Lemma set_cache_heap c s : sv_heap (set_cache c s) = sv_heap s.
Proof. done. Qed.

(** Another record of the reply does not touch the entry of the question, and only adds to
    the heap. *)
Lemma cache_other_key now rc s rr key : key <> (rr_Name rr, rr_Rrtype rr) ->
  sv_cache (cache_other now rc s rr) !! key = sv_cache s !! key.
Proof.
  intros Hk. unfold cache_other. destruct (IsEmptyName rr); cbn [alloc]; rewrite set_cache_cache, lookup_insert_ne by congruence; done.
Qed.
Lemma cache_other_heap now rc s rr : exists more, sv_heap (cache_other now rc s rr) = sv_heap s ++ more.
Proof. unfold cache_other. destruct (IsEmptyName rr); cbn; [exists []; by rewrite app_nil_r|by eexists]. Qed.

Lemma cache_others now rc rrs s key : Forall (fun rr => key <> (rr_Name rr, rr_Rrtype rr)) rrs ->
  sv_cache (foldl (cache_other now rc) s rrs) !! key = sv_cache s !! key.
Proof.
  intros H. revert s. induction H as [|rr rrs Hr Hrs IH]; intros s; [done|]. cbn [foldl]. by rewrite IH, cache_other_key.
Qed.
Lemma cache_others_heap now rc rrs s : exists more, sv_heap (foldl (cache_other now rc) s rrs) = sv_heap s ++ more.
Proof.
  revert s. induction rrs as [|rr rrs IH]; intros s; [exists []; by rewrite app_nil_r|]. cbn [foldl].
  destruct (IH (cache_other now rc s rr)) as [m2 ->]. destruct (cache_other_heap now rc s rr) as [m1 ->]. exists (m1 ++ m2). by rewrite app_assoc.
Qed.

Lemma deref_alloc s rrs more : omap (fun r => (sv_heap s ++ rrs ++ more) !! r) (seq (length (sv_heap s)) (length rrs)) = rrs.
Proof.
  generalize (sv_heap s) as h. induction rrs as [|rr rrs IH]; intros h; [done|]. cbn [length seq omap list_omap app].
  rewrite list_lookup_middle by done. f_equal. specialize (IH (h ++ [rr])). rewrite length_app in IH. cbn [length] in IH.
  rewrite Nat.add_1_r in IH. rewrite <- app_assoc in IH. exact IH.
Qed.

(** The final response code and error of a reply of the cluster. *)
Definition final_code (s : Server) (q : Question) (rCode : Z) (err : option resolve_err) : option resolve_err * Z :=
  let rCode := match err with
               | Some EDeadline => RcodeNameError
               | Some (EGrpc code _) => if code =? grpc_Canceled then RcodeNameError else rCode
               | _ => rCode
               end in
  if negb (rCode =? RcodeSuccess) && isNameCachedWithSuccess s q then (None, RcodeSuccess) else (err, rCode).
Definition kept (err : option resolve_err) (rc : Z) : bool :=
  bool_decide (err = None) && ((rc =? RcodeSuccess) || (rc =? RcodeNameError)).

Lemma cache_reply_spec now q s answer rCode err rs rc err' s' :
  cache_reply now q s answer rCode err = (rs, rc, err', s') ->
  (err', rc) = final_code s q rCode err /\
  deref s' rs = PruneEmptyNames (filter (fun rr => rr_Rrtype rr ∈ [q_Qtype q]) answer) /\
  sv_cache s' !! (q_Name q, q_Qtype q) = (if kept err' rc then Some (mkCE now rs rc) else None).
Proof.
  unfold cache_reply, final_code. set (rc1 := match err with Some EDeadline => _ | _ => _ end).
  destruct (if negb (rc1 =? RcodeSuccess) && isNameCachedWithSuccess s q then _ else _) as [e2 rc2] eqn:E2. cbn [existsb andb].
  rewrite andb_false_r. cbn [copyRRs alloc]. intros H. injection H as <- <- <- <-. split; [done|].
  set (cp := PruneEmptyNames _). set (others := filter _ answer).
  set (s0 := set_cache (<[(q_Name q, q_Qtype q) := _]> _) _). set (s1 := if rc2 =? RcodeSuccess then foldl (cache_other now rc2) s0 others else s0).
  assert (Hoth : Forall (fun rr => (q_Name q, q_Qtype q) <> (rr_Name rr, rr_Rrtype rr)) others).
  { apply Forall_forall. intros rr Hrr E. apply list_elem_of_filter in Hrr as [Hn _]. apply Hn. injection E as _ ->. apply list_elem_of_here. }
  assert (Hheap : exists more, sv_heap s1 = sv_heap s ++ cp ++ more).
  { unfold s1. destruct (rc2 =? RcodeSuccess).
    - destruct (cache_others_heap now rc2 others s0) as [more ->]. exists more. by rewrite app_assoc.
    - exists []. by rewrite app_nil_r. }
  assert (Hkey : sv_cache s1 !! (q_Name q, q_Qtype q) = Some (mkCE now (seq (length (sv_heap s)) (length cp)) rc2)).
  { unfold s1. destruct (rc2 =? RcodeSuccess); [rewrite cache_others by done|]; unfold s0; by rewrite set_cache_cache, lookup_insert_eq. }
  set (drop := bool_decide (e2 <> None) || _).
  assert (Hdrop : kept e2 rc2 = negb drop).
  { unfold kept, drop. destruct e2, (rc2 =? RcodeSuccess), (rc2 =? RcodeNameError); reflexivity. }
  rewrite Hdrop. destruct Hheap as [more Hheap]. destruct drop; cbn [negb]; split.
  - unfold deref. rewrite set_cache_heap, Hheap. apply deref_alloc.
  - by rewrite set_cache_cache, lookup_delete_eq.
  - unfold deref. rewrite Hheap. apply deref_alloc.
  - exact Hkey.
Qed.

(** A question that the cache cannot answer. *)
Definition miss (now : Z) (q : Question) (s : Server) : bool :=
  match sv_cache s !! (q_Name q, q_Qtype q) with Some ce => expired now ce | None => true end.
Definition with_entry (now : Z) (q : Question) (s : Server) : Server :=
  set_cache (<[(q_Name q, q_Qtype q) := mkCE now [] (-1)]> (sv_cache s)) s.

Lemma resolve_miss cl now q s : miss now q s = true -> resolveThruCache cl now q s =
  ('(answer, rCode, err) ← resolveInCluster cl (with_entry now q s) q; mret (cache_reply now q (with_entry now q s) answer rCode err)).
Proof.
  unfold miss, resolveThruCache. destruct (sv_cache s !! _) as [ce|]; [|done]. by intros ->.
Qed.
Lemma resolve_hit cl now q s ce : sv_cache s !! (q_Name q, q_Qtype q) = Some ce -> expired now ce = false ->
  resolveThruCache cl now q s = Ret (ce_answer ce, ce_rCode ce, None, s).
Proof. unfold resolveThruCache. intros -> ->. reflexivity. Qed.

(** After a lookup in the cluster, a result that is a success or a name error without an
    error is kept: for a minute every repetition of the question returns the same answer
    without the cluster.  Any other result is not kept: the next question goes to the
    cluster again. *)
Theorem resolveThruCache_caches (cl : Cluster) (now : Z) (q : Question) (s s' : Server) (rs : list ref) (rc : Z) (err : option resolve_err) :
  miss now q s = true -> resolveThruCache cl now q s = Ret (rs, rc, err, s') ->
  (kept err rc = true -> forall cl' now', now' - now <= cacheTTL -> resolveThruCache cl' now' q s' = Ret (rs, rc, None, s')) /\
  (kept err rc = false -> forall now', miss now' q s' = true).
Proof.
  intros Hm H. rewrite resolve_miss in H by done. apply go_bind_ret in H as ([[answer rCode] err0] & _ & H). injection H as H.
  apply cache_reply_spec in H as (_ & _ & Hk). split; intros E; rewrite E in Hk.
  - intros cl' now' Hn. rewrite (resolve_hit _ _ _ _ _ Hk); [done|]. unfold expired. cbn. by apply Z.ltb_ge.
  - intros now'. unfold miss. by rewrite Hk.
Qed.

Definition test_server : Server := NewServer [] [] [] [] "default" true.
Definition test_rr (t : Z) (d : rdata) : RR := mkRR "echo." t ClassINET 30 d.
Definition test_cluster (rrs : list RR) : Cluster := fun _ => (COk rrs RcodeSuccess, None).

Lemma resolveThruCache_caches_witness :
  let s' := set_store {[("echo."%string, TypeA) := mkCE 5 [0%nat] RcodeSuccess]} [mkRR "echo." TypeA ClassINET 4 (rA [10; 0; 0; 1])] test_server in
  resolveThruCache (fun _ => (CTimeout, None)) (5 + cacheTTL) (mkQ "echo." TypeA ClassINET) s' = Ret ([0%nat], RcodeSuccess, None, s').
Proof.
  intros s'. apply (resolveThruCache_caches (test_cluster [test_rr TypeA (rA [10; 0; 0; 1])]) 5 (mkQ "echo." TypeA ClassINET) test_server s' [0%nat] RcodeSuccess None);
    [reflexivity|vm_compute; reflexivity|reflexivity|unfold cacheTTL; lia].
Defined.

(** ** Records of other types *)

(** The answer to a question that goes to the cluster: exactly the records of the type of
    the question.  A CNAME record that the cluster returns with an address is dropped,
    although the code means to allow it: the loop that looks for CNAME records ranges over
    the answer of the new cache entry, which is still empty. *)
Theorem other_records_dropped (cl : Cluster) (now : Z) (q : Question) (s : Server) (rrs : list RR) (ctxErr : option resolve_err) :
  miss now q s = true -> q_Name q <> "localhost."%string -> shouldDoClusterLookup (with_entry now q s) (q_Name q) = Ret true ->
  cl q = (COk rrs RcodeSuccess, ctxErr) ->
  exists rs s', resolveThruCache cl now q s = Ret (rs, RcodeSuccess, None, s') /\
    deref s' rs = PruneEmptyNames (filter (fun rr => rr_Rrtype rr ∈ [q_Qtype q]) (map set_ttl rrs)).
Proof.
  intros Hm Hl Hd Hc. rewrite resolve_miss by done. unfold resolveInCluster. rewrite bool_decide_false, Hd by done. cbn [mbind go_bind negb].
  rewrite Hc. cbn [mbind go_bind mret go_ret].
  destruct (cache_reply now q (with_entry now q s) (map set_ttl rrs) RcodeSuccess None) as [[[rs rc] err] s'] eqn:E.
  pose proof (cache_reply_spec _ _ _ _ _ _ _ _ _ _ E) as (Hf & Hdr & _). injection Hf as -> ->. by exists rs, s'.
Qed.

Lemma other_records_dropped_witness :
  exists rs s', resolveThruCache (test_cluster [test_rr TypeCNAME (rCNAME "real."); test_rr TypeA (rA [10; 0; 0; 1])]) 0 (mkQ "echo." TypeA ClassINET) test_server
      = Ret (rs, RcodeSuccess, None, s') /\
    deref s' rs = [mkRR "echo." TypeA ClassINET 4 (rA [10; 0; 0; 1])].
Proof.
  apply (other_records_dropped (test_cluster [test_rr TypeCNAME (rCNAME "real."); test_rr TypeA (rA [10; 0; 0; 1])]) 0 (mkQ "echo." TypeA ClassINET) test_server
    [test_rr TypeCNAME (rCNAME "real."); test_rr TypeA (rA [10; 0; 0; 1])] None); [reflexivity|done|reflexivity|reflexivity].
Defined.

(** Of several records of another type for one name only the last one is kept: the
    cached answer to the other question is incomplete for a minute. *)
Theorem last_other_record_wins (now rc : Z) (s : Server) (n : string) (t : Z) (rrs : list RR) (rr : RR) :
  Forall (fun r => rr_Name r = n /\ rr_Rrtype r = t) (rrs ++ [rr]) -> IsEmptyName rr = false -> sv_cache s !! (n, t) = None ->
  let s' := foldl (cache_other now rc) s (rrs ++ [rr]) in
  exists r, sv_cache s' !! (n, t) = Some (mkCE now [r] rc) /\ sv_heap s' !! r = Some rr.
Proof.
  intros Hall He Hn. cbn zeta. rewrite foldl_app. cbn [foldl]. set (s1 := foldl (cache_other now rc) s rrs).
  apply Forall_app in Hall as [Hrrs Hrr]. apply Forall_singleton in Hrr as [Hname Htype].
  assert (Hc : match sv_cache s1 !! (n, t) with Some ce => ce_created ce = now | None => True end).
  { unfold s1. assert (H0 : match sv_cache s !! (n, t) with Some ce => ce_created ce = now | None => True end) by (by rewrite Hn).
    clear -Hrrs H0. revert s H0. induction Hrrs as [|r l [Hr1 Hr2] Hl IH]; intros s H0; [done|]. cbn [foldl]. apply IH.
    unfold cache_other. destruct (IsEmptyName r); cbn [alloc]; rewrite set_cache_cache, Hr1, Hr2, lookup_insert_eq;
      cbn [set_store sv_cache]; by destruct (sv_cache s !! (n, t)). }
  unfold cache_other. rewrite He, Hname, Htype. cbn [alloc]. exists (length (sv_heap s1)). rewrite set_cache_cache, set_cache_heap, lookup_insert_eq.
  cbn [set_store sv_cache sv_heap length seq]. split; [|by rewrite list_lookup_middle]. destruct (sv_cache s1 !! (n, t)) as [ce|]; [by rewrite Hc|done].
Qed.

Lemma last_other_record_wins_witness : exists r,
  let s' := foldl (cache_other 0 RcodeSuccess) test_server [test_rr TypeAAAA (rAAAA [1]); test_rr TypeAAAA (rAAAA [2])] in
  sv_cache s' !! ("echo."%string, TypeAAAA) = Some (mkCE 0 [r] RcodeSuccess) /\ sv_heap s' !! r = Some (test_rr TypeAAAA (rAAAA [2])).
Proof.
  apply (last_other_record_wins 0 RcodeSuccess test_server "echo." TypeAAAA [test_rr TypeAAAA (rAAAA [1])] (test_rr TypeAAAA (rAAAA [2])));
    [|reflexivity|reflexivity]. repeat (apply Forall_cons; split; [done|]). apply Forall_nil. exact I.
Defined.

(** ** Serving *)

Definition rename (from to : string) (rr : RR) : RR :=
  if bool_decide (rr_Name rr = from) then mkRR to (rr_Rrtype rr) (rr_Class rr) (rr_Ttl rr) (rr_data rr) else rr.
Lemma rename_idem from to rr : rename from to (rename from to rr) = rename from to rr.
Proof.
  unfold rename. destruct (decide (rr_Name rr = from)) as [E|E].
  - rewrite !(bool_decide_true (rr_Name rr = from)) by done. cbn. destruct (decide (to = from)) as [->|Hn].
    + rewrite bool_decide_true by done. done.
    + by rewrite bool_decide_false.
  - by rewrite !(bool_decide_false (rr_Name rr = from)) by done.
Qed.

Lemma restore_lookup from to rs h r : (foldl (fun h r => alter (rename from to) r h) h rs : list RR) !! r =
  if bool_decide (r ∈ rs) then rename from to <$> h !! r else h !! r.
Proof.
  revert h. induction rs as [|x rs IH]; intros h; cbn [foldl].
  { by rewrite bool_decide_false by (apply not_elem_of_nil). }
  rewrite IH. destruct (decide (r = x)) as [->|Hx].
  - rewrite (bool_decide_true (x ∈ x :: rs)) by (apply list_elem_of_here). rewrite list_lookup_alter_eq.
    destruct (bool_decide _); [|done]. destruct (h !! x); cbn; [by rewrite rename_idem|done].
  - rewrite list_lookup_alter_ne by done. destruct (decide (r ∈ rs)) as [Hr|Hr].
    + rewrite !bool_decide_true; [done|by apply list_elem_of_further|done].
    + rewrite !bool_decide_false; [done|intros [|]%elem_of_cons; done|done].
Qed.

Lemma deref_restore from to rs s : deref (restore_names from to rs s) rs = map (rename from to) (deref s rs).
Proof.
  unfold deref, restore_names. cbn [set_store sv_heap].
  assert (H : forall l, (forall r, r ∈ l -> r ∈ rs) ->
    omap (fun r => (foldl (fun h r => alter (rename from to) r h) (sv_heap s) rs : list RR) !! r) l = map (rename from to) (omap (fun r => sv_heap s !! r) l)).
  { induction l as [|x l IH]; intros Hl; [done|]. cbn [omap list_omap]. rewrite restore_lookup, bool_decide_true by (apply Hl, list_elem_of_here).
    rewrite IH by (intros; apply Hl; by apply list_elem_of_further). by destruct (sv_heap s !! x). }
  apply H. done.
Qed.

(** A question for an address that the cache answers. *)
Lemma ServeDNS_hit cl now orig n qt qc s ce : qt ∈ [TypeA; TypeAAAA] -> orig <> santiyCheckDot ->
  drop_suffix (ToLower orig) (dropSuffixes s) = n -> Contains n tel2SubDomainDot = false -> mappingsMap s !! n = None ->
  sv_cache s !! (n, qt) = Some ce -> expired now ce = false -> ce_rCode ce = RcodeSuccess ->
  ServeDNS (resolveThruCache cl now) (mkQ orig qt qc) s =
    Ret (Reply RcodeSuccess (ce_answer ce), restore_names n orig (ce_answer ce) (count_request s)).
Proof.
  intros Hqt Ho Hn Ht Hm Hc He Hr. assert (Hqt' : qt ∈ [TypeA; TypeAAAA; TypeCNAME]) by set_solver.
  unfold ServeDNS. cbn [q_Name q_Qtype q_Qclass]. rewrite bool_decide_false by done.
  assert (SupportedType qt = true) as -> by (unfold SupportedType; apply bool_decide_true; set_solver). cbn [negb].
  change (dropSuffixes (count_request s)) with (dropSuffixes s). rewrite Hn, Ht, andb_false_r.
  unfold serve_lookup, resolveMapping. cbn [q_Name q_Qtype]. rewrite (bool_decide_true (qt ∈ _)) by done. cbn [negb].
  change (mappingsMap (count_request s)) with (mappingsMap s). rewrite Hm. cbn [mbind go_bind mret go_ret].
  rewrite (resolve_hit cl now _ (count_request s) ce) by done. cbn [mbind go_bind]. rewrite Hr. reflexivity.
Qed.

(** The records of an answer are shared with the cache, and restoring the name of the
    question in them changes the cache: after a question under one name, the same question
    under another spelling gets records with the name of the first one.  For a name of one
    label this is the name with the search domain. *)
Theorem served_names_stick (cl : Cluster) (now now' : Z) (o1 o2 n : string) (qt qc : Z) (s : Server) (ce : cacheEntry) :
  qt ∈ [TypeA; TypeAAAA] -> o1 <> santiyCheckDot -> o2 <> santiyCheckDot ->
  drop_suffix (ToLower o1) (dropSuffixes s) = n -> drop_suffix (ToLower o2) (dropSuffixes s) = n ->
  Contains n tel2SubDomainDot = false -> mappingsMap s !! n = None ->
  sv_cache s !! (n, qt) = Some ce -> expired now ce = false -> expired now' ce = false -> ce_rCode ce = RcodeSuccess ->
  Forall (fun rr => rr_Name rr = n) (deref s (ce_answer ce)) -> o1 <> n ->
  exists s1 s2, ServeDNS (resolveThruCache cl now) (mkQ o1 qt qc) s = Ret (Reply RcodeSuccess (ce_answer ce), s1) /\
    Forall (fun rr => rr_Name rr = o1) (deref s1 (ce_answer ce)) /\
    ServeDNS (resolveThruCache cl now') (mkQ o2 qt qc) s1 = Ret (Reply RcodeSuccess (ce_answer ce), s2) /\
    Forall (fun rr => rr_Name rr = o1) (deref s2 (ce_answer ce)).
Proof.
  intros Hqt Ho1 Ho2 Hn1 Hn2 Ht Hm Hc He He' Hr Hnames Hne.
  exists (restore_names n o1 (ce_answer ce) (count_request s)),
    (restore_names n o2 (ce_answer ce) (count_request (restore_names n o1 (ce_answer ce) (count_request s)))).
  assert (H1 : Forall (fun rr => rr_Name rr = o1) (deref (restore_names n o1 (ce_answer ce) (count_request s)) (ce_answer ce))).
  { rewrite deref_restore. apply Forall_fmap. eapply Forall_impl; [exact Hnames|]. intros rr Hrr. cbn. unfold rename. by rewrite bool_decide_true. }
  split_and!; [by apply ServeDNS_hit|exact H1|by apply ServeDNS_hit|].
  rewrite deref_restore. apply Forall_fmap. eapply Forall_impl; [exact H1|]. intros rr Hrr. cbn. unfold rename.
  rewrite bool_decide_false; [done|]. congruence.
Qed.

Definition alpha_server : Server := set_store {[("alpha."%string, TypeA) := mkCE 0 [0%nat] RcodeSuccess]}
  [mkRR "alpha." TypeA ClassINET 4 (rA [10; 0; 0; 1])] test_server.
Lemma served_names_stick_witness : exists s1 s2,
  ServeDNS (resolveThruCache (test_cluster []) 1) (mkQ "alpha.tel2-search." TypeA ClassINET) alpha_server = Ret (Reply RcodeSuccess [0%nat], s1) /\
  Forall (fun rr => rr_Name rr = "alpha.tel2-search."%string) (deref s1 [0%nat]) /\
  ServeDNS (resolveThruCache (test_cluster []) 2) (mkQ "alpha." TypeA ClassINET) s1 = Ret (Reply RcodeSuccess [0%nat], s2) /\
  Forall (fun rr => rr_Name rr = "alpha.tel2-search."%string) (deref s2 [0%nat]).
Proof.
  apply (served_names_stick (test_cluster []) 1 2 "alpha.tel2-search." "alpha." "alpha." TypeA ClassINET alpha_server (mkCE 0 [0%nat] RcodeSuccess));
    try reflexivity; try discriminate; [apply list_elem_of_here|]. apply Forall_cons. split; [reflexivity|]. apply Forall_nil. exact I.
Defined.

(** A name is passed to the fallback server unchanged, and never one of the cluster domain
    or of the search domain that only this server knows. *)
Theorem fallback_is_private (lookup : Question -> Server -> Go Empty_set answer_result) (q : Question) (s s' : Server) (name : string) :
  (forall q s rs rc e s', lookup q s = Ret (rs, rc, e, s') -> clusterDomain s' = clusterDomain s /\ hasFallback s' = hasFallback s) ->
  ServeDNS lookup q s = Ret (Fallback name, s') ->
  name = q_Name q /\ hasFallback s = true /\ HasSuffix name tel2SubDomainDot = false /\
  HasSuffix (drop_suffix (ToLower name) (dropSuffixes s)) (clusterDomain s) = false.
Proof.
  intros Hl H. unfold ServeDNS in H. destruct (bool_decide (q_Name q = santiyCheckDot)); [destruct (localHostReply q); discriminate|].
  destruct (negb (SupportedType _)); [discriminate|]. destruct (_ && Contains _ _); [discriminate|].
  change (dropSuffixes (count_request s)) with (dropSuffixes s) in H.
  apply go_bind_ret in H as ([[[rs rc] err] s1] & E & H). destruct (_ && (rc =? RcodeSuccess)); [discriminate|].
  assert (Hs : clusterDomain s1 = clusterDomain s /\ hasFallback s1 = hasFallback s).
  { unfold serve_lookup in E. cbn [q_Qtype q_Name] in E. destruct (bool_decide (_ ∈ [TypeA; TypeAAAA; TypeCNAME])).
    - apply go_bind_ret in E as (m & Em & E). destruct m as [r|]; [|by apply Hl in E]. injection E as ->.
      unfold resolveMapping in Em. destruct (negb _); [discriminate|]. destruct (mappingsMap _ !! _) as [alias|]; [|discriminate].
      destruct (ParseAddr alias) as [ip|]; [by injection Em as <- <- <- <-|]. cbn [alloc] in Em.
      destruct (_ =? TypeCNAME); [by injection Em as <- <- <- <-|]. apply go_bind_ret in Em as ([[[rs2 rc2] err2] s2] & Er & Em).
      injection Em as _ _ _ <-. by apply Hl in Er.
    - destruct (_ && bool_decide _); [by injection E as <- <- <- <-|by apply Hl in E]. }
  destruct Hs as [Hcd Hfb]. rewrite Hcd, Hfb in H.
  destruct (negb (hasFallback s)) eqn:E1; [discriminate|].
  destruct (HasSuffix (drop_suffix (ToLower (q_Name q)) (dropSuffixes s)) (clusterDomain s)) eqn:E2; [discriminate|].
  destruct (HasSuffix (q_Name q) tel2SubDomainDot) eqn:E3; [discriminate|]. injection H as <- <-. bools. done.
Qed.

Lemma fallback_is_private_witness : "Example.Com."%string = "Example.Com."%string /\ hasFallback test_server = true /\
  HasSuffix "Example.Com." tel2SubDomainDot = false /\
  HasSuffix (drop_suffix (ToLower "Example.Com.") (dropSuffixes test_server)) (clusterDomain test_server) = false.
Proof.
  apply (fallback_is_private (fun _ s => Ret ([], RcodeNameError, None, s)) (mkQ "Example.Com." TypeA ClassINET) test_server (count_request test_server)).
  - intros q s rs rc e s' H. injection H as _ _ _ <-. done.
  - reflexivity.
Defined.

Lemma AppendUnique_dest {A} `{EqDecision A} (x : A) src dest : x ∈ dest -> x ∈ AppendUnique dest src.
Proof.
  unfold AppendUnique. revert dest. induction src as [|v src IH]; intros dest H; [done|]. cbn [foldl]. apply IH.
  destruct (bool_decide _); [done|]. apply elem_of_app. by left.
Qed.
Lemma AppendUnique_src {A} `{EqDecision A} (x : A) src dest : x ∈ src -> x ∈ AppendUnique dest src.
Proof.
  intros H. revert dest. induction H as [x src|x v src _ IH]; intros dest; unfold AppendUnique; cbn [foldl]; [|apply IH].
  apply AppendUnique_dest. destruct (bool_decide (x ∈ dest)) eqn:E; bools; [done|]. apply elem_of_app. right. apply list_elem_of_here.
Qed.

(** Purging: the records of the name are gone, and no others appear. *)
Lemma purge_none (c : gmap cacheKey cacheEntry) (e : string) (key : cacheKey) : c !! key = None -> purgeRecordsFromCache e c !! key = None.
Proof. intros H. unfold purgeRecordsFromCache. rewrite !lookup_delete_None. auto. Qed.
Lemma purge_all_none (l : list string) (c : gmap cacheKey cacheEntry) (key : cacheKey) : c !! key = None -> foldl (fun c e => purgeRecordsFromCache e c) c l !! key = None.
Proof. revert c. induction l as [|e l IH]; intros c H; [done|]. cbn [foldl]. apply IH. by apply purge_none. Qed.
Lemma purge_name (e : string) (qt : Z) (c : gmap cacheKey cacheEntry) : qt ∈ [TypeA; TypeAAAA] -> HasSuffix e "." = false ->
  purgeRecordsFromCache e c !! (e +:+ ".", qt) = None.
Proof.
  intros Hqt Hd. unfold purgeRecordsFromCache, TrimSuffix. rewrite Hd, !lookup_delete_None.
  apply elem_of_cons in Hqt as [-> |Hqt]; [by right; left|]. apply list_elem_of_singleton in Hqt as ->. by left.
Qed.
Lemma purge_all_name (l : list string) (e : string) (qt : Z) (c : gmap cacheKey cacheEntry) : qt ∈ [TypeA; TypeAAAA] -> HasSuffix e "." = false -> e ∈ l ->
  foldl (fun c e => purgeRecordsFromCache e c) c l !! (e +:+ ".", qt) = None.
Proof.
  intros Hqt Hd H. revert c. induction H as [e l|e x l _ IH]; intros c; cbn [foldl]; [|by apply IH].
  apply purge_all_none. by apply purge_name.
Qed.

(** An excluded name is purged from the cache, and a lookup of it gives a name error
    whatever the cluster would answer, as long as the other family is not cached. *)
Theorem excluded_not_in_cluster (cl : Cluster) (now : Z) (es : list string) (e : string) (qt qc : Z) (s : Server) :
  let q := mkQ (ToLower e +:+ ".") qt qc in
  e ∈ es -> ToLower e <> "localhost"%string -> HasSuffix (ToLower e) "." = false -> qt ∈ [TypeA; TypeAAAA] ->
  isNameCachedWithSuccess (with_entry now q (SetExcludes es s)) q = false ->
  miss now q (SetExcludes es s) = true /\
  exists s', resolveThruCache cl now q (SetExcludes es s) = Ret ([], RcodeNameError, None, s').
Proof.
  intros q Hin Hlh Hdot Hqt Hnc.
  assert (Hm : miss now q (SetExcludes es s) = true).
  { unfold miss, SetExcludes. rewrite set_cache_cache. unfold q. cbn [q_Name q_Qtype]. rewrite purge_all_name; [done|done|done|].
    apply AppendUnique_src. apply list_elem_of_fmap. by exists e. }
  split; [exact Hm|]. rewrite resolve_miss by exact Hm.
  assert (Hr : resolveInCluster cl (with_entry now q (SetExcludes es s)) q = Ret ([], RcodeNameError, None)).
  { unfold resolveInCluster. rewrite bool_decide_false.
    - unfold shouldDoClusterLookup. destruct (existsb _ _); [done|]. unfold q. cbn [q_Name]. rewrite length_str_app, Nat.add_1_r.
      rewrite str_take_app. unfold isExcluded. rewrite bool_decide_true; [done|]. cbn. apply list_elem_of_fmap. by exists e.
    - unfold q. cbn [q_Name]. change "localhost."%string with ("localhost" +:+ "."). intros E. apply Hlh.
      apply (f_equal (fun x => TrimSuffix x ".")) in E. by rewrite !TrimSuffix_app in E. }
  rewrite Hr. cbn [mbind go_bind mret go_ret].
  destruct (cache_reply now q (with_entry now q (SetExcludes es s)) [] RcodeNameError None) as [[[rs rc] err] s'] eqn:E.
  exists s'. pose proof E as E0. apply cache_reply_spec in E as (Hf & _ & _). unfold final_code in Hf. rewrite Hnc in Hf.
  cbn in Hf. injection Hf as -> ->. unfold cache_reply in E0. rewrite Hnc in E0. cbn in E0. by injection E0 as <- _.
Qed.

(** ** The recursion check *)

Definition rec_pending (pc : rec_pc) : nat := match pc with RCas1 => 4 | RCas2 => 3 | RLookup => 2 | RCas3 => 1 | RDone _ => 0 end.
Definition is_lookup (pc : rec_pc) : nat := match pc with RLookup => 1 | _ => 0 end.
Definition is_third (pc : rec_pc) : nat := match pc with RCas3 => 1 | _ => 0 end.
Definition is_owner (pc : rec_pc) : nat := is_lookup pc + is_third pc.
Definition is_done (pc : rec_pc) : nat := match pc with RDone _ => 1 | _ => 0 end.
Definition is_detected (pc : rec_pc) : nat := match pc with RDone true => 1 | _ => 0 end.

Lemma sum_insert (f : rec_pc -> nat) l i x y : l !! i = Some x ->
  (sum_list_with f (<[i := y]> l) + f x = sum_list_with f l + f y)%nat.
Proof.
  intros H. rewrite <- (take_drop_middle l i x H) at 2. rewrite insert_take_drop by (by apply lookup_lt_Some in H).
  rewrite !sum_list_with_app. cbn [sum_list_with]. lia.
Qed.

(** The one query that was received first owns the check until its third step. *)
Definition rec_inv (s : rec_sys) : Prop :=
  match rs_state s with
  | RecUnset => False
  | RecNotYet => (sum_list_with is_owner (rs_pcs s) + rs_lookups s + sum_list_with is_done (rs_pcs s) + sum_list_with is_detected (rs_pcs s) = 0)%nat
  | RecReceived => (sum_list_with is_owner (rs_pcs s) = 1 /\ sum_list_with is_detected (rs_pcs s) = 0)%nat
  | RecNotDetected => (sum_list_with is_owner (rs_pcs s) = 0 /\ sum_list_with is_detected (rs_pcs s) = 0)%nat
  | RecDetected => (sum_list_with is_owner (rs_pcs s) <= 1 /\ sum_list_with is_detected (rs_pcs s) = 1)%nat
  end /\
  (rs_lookups s + sum_list_with is_lookup (rs_pcs s) <= 1)%nat.

Lemma sum_owner l : sum_list_with is_owner l = (sum_list_with is_lookup l + sum_list_with is_third l)%nat.
Proof. induction l as [|pc l IH]; [done|]. cbn. unfold is_owner at 1. lia. Qed.

Lemma rec_step_inv i s s' : rec_inv s -> rec_sys_step i s = Some s' ->
  rec_inv s' /\ (sum_list_with rec_pending (rs_pcs s') < sum_list_with rec_pending (rs_pcs s))%nat.
Proof.
  intros (I1 & I2) H. unfold rec_sys_step in H. destruct (rs_pcs s !! i) as [pc|] eqn:Ei; [|discriminate].
  destruct (rec_step pc (rs_state s)) as [pc' st] eqn:Es.
  pose proof (sum_insert is_third _ _ _ pc' Ei) as H1. pose proof (sum_insert is_detected _ _ _ pc' Ei) as H2.
  pose proof (sum_insert is_done _ _ _ pc' Ei) as H5. pose proof (sum_insert is_lookup _ _ _ pc' Ei) as H3. pose proof (sum_insert rec_pending _ _ _ pc' Ei) as H4.
  unfold rec_inv. rewrite !sum_owner in *. destruct pc, (rs_state s); try discriminate; cbn in Es; injection Es as <- <-; injection H as <-;
    cbn [rs_state rs_pcs rs_lookups is_third is_detected is_done is_lookup rec_pending] in *; try done; (split; [split_and!; lia|lia]).
Qed.

(** C40. However queries for the check name interleave: the cluster is asked at most once;
    a run has at most four steps per query; at most one query reports recursion, and one
    does exactly when the check ends as detected; and when all queries are answered the
    check has a result. *)
Theorem recursion_check_correct (k : nat) (sched : list nat) (s : rec_sys) :
  rec_run sched (mkRec RecNotYet (replicate k RCas1) 0) = Some s ->
  (rs_lookups s <= 1)%nat /\ (length sched <= 4 * k)%nat /\
  (rs_state s = RecDetected <-> sum_list_with is_detected (rs_pcs s) = 1%nat) /\ (sum_list_with is_detected (rs_pcs s) <= 1)%nat /\
  ((0 < k)%nat -> Forall (fun pc => rec_pending pc = 0%nat) (rs_pcs s) -> rs_state s = RecDetected \/ rs_state s = RecNotDetected).
Proof.
  assert (H : forall s0, rec_inv s0 -> rec_run sched s0 = Some s ->
    rec_inv s /\ (length sched + sum_list_with rec_pending (rs_pcs s) <= sum_list_with rec_pending (rs_pcs s0))%nat /\ length (rs_pcs s) = length (rs_pcs s0)).
  { clear k. induction sched as [|i sched IH]; intros s0 I Hr; cbn in Hr.
    - injection Hr as <-. cbn. split_and!; [done|lia|done].
    - destruct (rec_sys_step i s0) as [s1|] eqn:E; [|discriminate]. destruct (rec_step_inv _ _ _ I E) as [I1 Hlt].
      destruct (IH _ I1 Hr) as (I2 & Hw & Hl). split; [done|]. split; [cbn [length]; lia|]. rewrite Hl.
      unfold rec_sys_step in E. destruct (rs_pcs s0 !! i) as [[]|]; try discriminate;
        destruct (rec_step _ _); injection E as <-; apply length_insert. }
  assert (Hz : forall f, f RCas1 = 0%nat -> sum_list_with f (replicate k RCas1) = 0%nat).
  { intros f Hf. clear H. induction k as [|k IH]; [done|]. cbn. rewrite IH. lia. }
  intros Hr. destruct (H (mkRec RecNotYet (replicate k RCas1) 0)) as ((I1 & I2) & Hw & Hl); [|exact Hr|].
  { unfold rec_inv. cbn. rewrite !Hz by done. lia. }
  cbn [rs_pcs rs_state] in *. rewrite length_replicate in Hl.
  assert (Hk : sum_list_with rec_pending (replicate k RCas1) = (4 * k)%nat) by (clear; induction k as [|k IH]; [done|]; cbn [replicate sum_list_with rec_pending]; lia).
  rewrite Hk in Hw. split_and!; [lia|lia| | |].
  - destruct (rs_state s); try done; split; (discriminate || lia || done).
  - destruct (rs_state s); lia || done.
  - intros Hk0 Hdone.
    assert (Hd : forall f, (forall b, f (RDone b) = 1%nat) -> sum_list_with f (rs_pcs s) = length (rs_pcs s)).
    { intros f Hf. clear -Hdone Hf. induction Hdone as [|pc l Hpc _ IH]; [done|]. cbn. rewrite IH. destruct pc; try discriminate. rewrite Hf. lia. }
    assert (Ho : sum_list_with is_owner (rs_pcs s) = 0%nat).
    { clear -Hdone. induction Hdone as [|pc l Hpc _ IH]; [done|]. cbn. rewrite IH. destruct pc; try discriminate. done. }
    specialize (Hd is_done ltac:(done)). destruct (rs_state s); try done; auto; lia.
Qed.

Lemma recursion_check_correct_witness : exists s, rec_run [0; 0; 0; 1; 0]%nat (mkRec RecNotYet (replicate 2 RCas1) 0) = Some s /\
  rs_state s = RecDetected /\ (rs_lookups s <= 1)%nat.
Proof.
  exists (mkRec RecDetected [RDone false; RDone true] 1). assert (Hr : rec_run [0; 0; 0; 1; 0]%nat (mkRec RecNotYet (replicate 2 RCas1) 0) = Some (mkRec RecDetected [RDone false; RDone true] 1)) by reflexivity.
  split; [exact Hr|]. split; [reflexivity|]. apply (recursion_check_correct 2 _ _ Hr).
Defined.

(** The first exclude suffix that matches decides, and an include suffix of the same length
    overrides it: although no include suffix is longer than ".example.com", a name below it
    is looked up in the cluster or not depending on the order of the exclude suffixes. *)
Theorem exclude_suffix_order_matters :
  let server es := NewServer es [".com"%string] [] [] "default" true in
  shouldDoClusterLookup (server [".com"; ".example.com"]%string) "www.example.com." = Ret true /\
  shouldDoClusterLookup (server [".example.com"; ".com"]%string) "www.example.com." = Ret false.
Proof. split; reflexivity. Qed.
