(* ===== verification/PortTypes.v ===== *)
(** * Protocols, ports and port mappings (src/pkg/types)

    [PortIdentifier] and [PortMapping] are Go strings with a syntax; their
    methods parse and print it.  A Go function whose value is used even when it
    returns an error returns the value and the error; the others return [Go].

    The Kubernetes API module is not part of the sources: its constants and its
    label check are the operations of [K8sApi]. *)
From S2P Require Import Prelude NetIP GoStrings.
From Stdlib Require Import Ascii.

(** ** What the sources use of k8s.io/api and k8s.io/apimachinery *)
Class K8sApi := {
  IsDNS1035Label : string -> list string;   (* the violations found *)
  core_ProtocolTCP : string;
  core_ProtocolUDP : string;
  core_ProtocolSCTP : string
}.

(** A DNS-1035 label: lower case alphanumerics and dashes, starting with a letter
    and not ending with a dash, of at most 63 characters. *)
Definition is_lower (a : ascii) : bool := let n := N_of_ascii a in (97 <=? n)%N && (n <=? 122)%N.
Definition is_digit (a : ascii) : bool := let n := N_of_ascii a in (48 <=? n)%N && (n <=? 57)%N.
Definition is_alnum (a : ascii) : bool := is_lower a || is_digit a.
Fixpoint label_tail (s : string) : bool :=
  match s with
  | EmptyString => true
  | String a EmptyString => is_alnum a
  | String a s => (is_alnum a || bool_decide (a = "-"%char)) && label_tail s
  end.
Definition is_label (s : string) : bool :=
  match s with
  | EmptyString => false
  | String a t => is_lower a && label_tail t && Nat.leb (String.length s) 63
  end.

(** The documented behaviour of that module. *)
Class K8sLaws `{K8sApi} : Prop := {
  tcp_name : core_ProtocolTCP = "TCP";
  udp_name : core_ProtocolUDP = "UDP";
  sctp_name : core_ProtocolSCTP = "SCTP";
  label_ok : forall s, IsDNS1035Label s = [] <-> is_label s = true
}.

Inductive types_error :=
  | ErrNotInteger
  | ErrPortRange (s : string)
  | ErrUnsupportedProto (s : string)
  | ErrLabel (violations : list string)
  | ErrNumSyntax
  | ErrSliceSize
  | ErrInvalidEngagement (s : string)
  | ErrAddrPort
  | ErrJson.
Global Instance types_error_eq_dec : EqDecision types_error.
Proof. solve_decision. Defined.

(** JSON values as far as the (un)marshallers look at them. *)
Inductive json := JString (s : string) | JNumber (n : Z) | JOther.

(** ** proto.go *)
Definition ProtoTCP := 6.
Definition ProtoUDP := 17.
Definition ProtoICMP := 1.
Definition ProtoICMPV6 := 58.
Definition ProtoSCTP := 132.

Definition ParseProto (network : string) : Go types_error Z :=
  let n := ToLower network in
  if bool_decide (n ∈ [""; "tcp"; "tcp4"; "tcp6"]) then Ret ProtoTCP
  else if bool_decide (n ∈ ["udp"; "udp4"; "udp6"]) then Ret ProtoUDP
  else if bool_decide (n = "icmp") then Ret ProtoICMP
  else if bool_decide (n = "icmpv6") then Ret ProtoICMPV6
  else if bool_decide (n = "sctp") then Ret ProtoSCTP
  else Fail (ErrUnsupportedProto network).

Definition FromK8sProtocol (protocol : string) : Z :=
  match ParseProto protocol with Ret p => p | _ => ProtoTCP end.

Section Types.
Context `{K8sApi}.

Definition Proto_String (p : Z) : string :=
  if p =? ProtoICMP then "ICMP"
  else if p =? ProtoICMPV6 then "ICMPv6"
  else if (p =? 0) || (p =? ProtoTCP) then core_ProtocolTCP
  else if p =? ProtoUDP then core_ProtocolUDP
  else if p =? ProtoSCTP then core_ProtocolSCTP
  else "IP-protocol " +:+ itoa p.

Definition Proto_MarshalJSON (p : Z) : json := JString (Proto_String p).

(** The new value of the receiver and the error. *)
Definition Proto_UnmarshalJSON (p : Z) (j : json) : Z * option types_error :=
  match j with
  | JNumber n => if (0 <=? n) && (n <=? 255) then (n, None) else (p, Some ErrJson)
  | JString s => match ParseProto s with
                 | Ret p => (p, None)
                 | Fail e => (0, Some e)
                 | Panic => (0, Some ErrJson)
                 end
  | JOther => (p, Some ErrJson)
  end.

(** ** portandproto.go *)
Definition ProtoSeparator : ascii := "/".

Definition ParsePort (portStr : string) : Go types_error Z :=
  match Atoi portStr with
  | None => Fail ErrNotInteger
  | Some port => if (port <? 1) || (65535 <? port) then Fail (ErrPortRange portStr) else Ret (u16 port)
  end.

Record PortAndProto := { pp_Port : Z; pp_Proto : Z }.
Global Instance PortAndProto_eq_dec : EqDecision PortAndProto.
Proof. solve_decision. Defined.

(** The separator test used throughout: [ix > 0]. *)
Definition sep_index (s : string) (c : ascii) : option nat :=
  match IndexByte s c with Some (S i) => Some (S i) | _ => None end.

Definition ParsePortAndProto (s : string) : Go types_error PortAndProto :=
  match sep_index s ProtoSeparator with
  | Some ix =>
      proto ← ParseProto (str_drop (S ix) s);
      port ← ParsePort (str_take ix s);
      Ret {| pp_Port := port; pp_Proto := proto |}
  | None => port ← ParsePort s; Ret {| pp_Port := port; pp_Proto := ProtoTCP |}
  end.

Definition PortAndProto_String (pp : PortAndProto) : string :=
  if pp_Proto pp =? ProtoTCP then itoa (pp_Port pp)
  else itoa (pp_Port pp) +:+ "/" +:+ Proto_String (pp_Proto pp).

Definition PortAndProto_MarshalJSON (pp : PortAndProto) : json := JString (PortAndProto_String pp).
Definition PortAndProto_UnmarshalJSON (j : json) : Go types_error PortAndProto :=
  match j with JString s => ParsePortAndProto s | _ => Fail ErrJson end.

(** ** portidentifier.go *)
Abbreviation PortIdentifier := string.

Definition ValidatePort (s : string) : option types_error :=
  match ParsePort s with
  | Fail ErrNotInteger =>
      match IsDNS1035Label s with [] => None | errs => Some (ErrLabel errs) end
  | Fail e => Some e
  | _ => None
  end.

Definition NewPortIdentifier (proto : Z) (portString : string) : Go types_error PortIdentifier :=
  match ValidatePort portString with
  | Some e => Fail e
  | None => Ret (if proto =? ProtoTCP then portString
                 else portString +:+ String ProtoSeparator (Proto_String proto))
  end.

Definition HasProto (spi : PortIdentifier) : bool :=
  match sep_index spi ProtoSeparator with Some _ => true | None => false end.

Definition PortIdentifier_Validate (spi : PortIdentifier) : option types_error :=
  match sep_index spi ProtoSeparator with
  | Some ix => match ParseProto (str_drop (S ix) spi) with
               | Fail e => Some e
               | _ => ValidatePort (str_take ix spi)
               end
  | None => ValidatePort spi
  end.

Definition ProtoAndNameOrNumber (spi : PortIdentifier) : Z * string * Z :=
  let '(p, s) := match sep_index spi ProtoSeparator with
                 | Some ix => (match ParseProto (str_drop (S ix) spi) with Ret p => p | _ => 0 end, str_take ix spi)
                 | None => (ProtoTCP, spi)
                 end in
  match ParsePort s with
  | Ret n => (p, "", n)
  | _ => (p, s, 0)
  end.

Inductive IntOrString := FromInt32 (n : Z) | FromString (s : string).
Definition AsIntOrStr (spi : PortIdentifier) : IntOrString :=
  let '(_, s, n) := ProtoAndNameOrNumber spi in
  if bool_decide (s = "") then FromInt32 n else FromString s.

Definition PortIdentifier_String (spi : PortIdentifier) : string :=
  let '(p, s, n) := ProtoAndNameOrNumber spi in
  if bool_decide (s = "") && (p =? ProtoTCP) then itoa n
  else if negb (bool_decide (s = "")) && (p =? ProtoTCP) then s
  else if bool_decide (s = "") then itoa n +:+ "/" +:+ Proto_String p
  else s +:+ "/" +:+ Proto_String p.

(** ** portmapping.go *)
Abbreviation PortMapping := string.

Definition NewPortMapping (from : PortIdentifier) (to : Z) : PortMapping :=
  let '(p, s, n) := ProtoAndNameOrNumber from in
  if bool_decide (s = "") && (p =? ProtoTCP) then itoa n +:+ ":" +:+ itoa to
  else if bool_decide (s = "") then itoa n +:+ ":" +:+ itoa to +:+ "/" +:+ Proto_String p
  else if p =? ProtoTCP then s +:+ ":" +:+ itoa to
  else s +:+ ":" +:+ itoa to +:+ "/" +:+ Proto_String p.

Definition FromAndTo (p : PortMapping) : PortIdentifier * PortIdentifier * option types_error :=
  match sep_index p ":" with
  | Some sepIdx =>
      let to := str_drop (S sepIdx) p in
      match PortIdentifier_Validate to with
      | Some e => ("", to, Some e)
      | None =>
          let '(proto, _, _) := ProtoAndNameOrNumber to in
          match NewPortIdentifier proto (str_take sepIdx p) with
          | Ret from => (from, to, None)
          | Fail e => ("", to, Some e)
          | Panic => ("", to, None)
          end
      end
  | None =>
      match PortIdentifier_Validate p with
      | Some e => ("", p, Some e)
      | None => (p, p, PortIdentifier_Validate p)
      end
  end.

Definition PortMapping_From (p : PortMapping) : PortIdentifier := (FromAndTo p).1.1.
Definition PortMapping_To (p : PortMapping) : PortIdentifier := (FromAndTo p).1.2.
Definition PortMapping_Validate (p : PortMapping) : option types_error := (FromAndTo p).2.
Definition FromAsNumeric (p : PortMapping) : PortAndProto :=
  let '(pr, _, n) := ProtoAndNameOrNumber (PortMapping_From p) in {| pp_Port := n; pp_Proto := pr |}.
Definition ToAsNumeric (p : PortMapping) : PortAndProto :=
  let '(pr, _, n) := ProtoAndNameOrNumber (PortMapping_To p) in {| pp_Port := n; pp_Proto := pr |}.
Definition PortMapping_UnmarshalJSON (p : PortMapping) (j : json) : PortMapping * option types_error :=
  match j with
  | JString s => match PortMapping_Validate s with None => (s, None) | Some e => (p, Some e) end
  | _ => (p, Some ErrJson)
  end.

Definition FromNumberAndTo (ps : PortMapping) : Go types_error (Z * PortAndProto) :=
  match sep_index ps ":" with
  | Some sepIdx =>
      to ← ParsePortAndProto (str_drop (S sepIdx) ps);
      match ParseUint16 (str_take sepIdx ps) with
      | Some fi => Ret (u16 fi, to)
      | None => Fail ErrNumSyntax
      end
  | None => to ← ParsePortAndProto ps; Ret (pp_Port to, to)
  end.
End Types.
