(* ===== verification/PortSpec.v ===== *)
(** * Parsing and printing of ports agree (src/pkg/types)

    Printing a port, a port identifier or a port mapping and parsing it again
    gives the value back, in canonical form; what the validators accept is
    exactly a supported protocol with a port in range or a DNS label. *)
From S2P Require Import Prelude NetIP GoStrings PortTypes.
From Stdlib Require Import Ascii.

Definition supported (p : Z) : Prop := p ∈ [ProtoTCP; ProtoUDP; ProtoICMP; ProtoICMPV6; ProtoSCTP].
Definition port_ok (n : Z) : Prop := 1 <= n <= 65535.

Section PortSpec.
Context `{K8sLaws}.

Lemma ParseProto_supported s p : ParseProto s = Ret p -> supported p.
Proof.
  unfold ParseProto, supported. repeat case_bool_decide; intros [= <-]; decide_it.
Qed.

Lemma ParseProto_String p : supported p -> ParseProto (Proto_String p) = Ret p.
Proof.
  unfold supported. rewrite !elem_of_cons, elem_of_nil.
  intros [->|[->|[->|[->|[->|[]]]]]]; unfold Proto_String; simpl; rewrite ?tcp_name, ?udp_name, ?sctp_name; reflexivity.
Qed.

Lemma Proto_String_no_sep p : supported p -> no_char ":" (Proto_String p).
Proof.
  unfold supported. rewrite !elem_of_cons, elem_of_nil.
  intros [->|[->|[->|[->|[->|[]]]]]]; unfold Proto_String; simpl; rewrite ?tcp_name, ?udp_name, ?sctp_name; reflexivity.
Qed.

Lemma ParsePort_itoa n : port_ok n -> ParsePort (itoa n) = Ret n.
Proof.
  intros [? ?]. unfold ParsePort. rewrite Atoi_itoa by lia.
  destruct (Z.ltb_spec n 1), (Z.ltb_spec 65535 n); try lia. simpl. f_equal. apply wrap_id. unfold fits. lia.
Qed.

Lemma ParsePort_ok s n : ParsePort s = Ret n -> port_ok n.
Proof.
  unfold ParsePort. destruct (Atoi s) as [v|]; [|done].
  destruct (Z.ltb_spec v 1), (Z.ltb_spec 65535 v); simpl; try done. intros [= <-].
  unfold port_ok. rewrite wrap_id by (unfold fits; lia). lia.
Qed.

(** ** Separators *)
Lemma sep_index_none s c : no_char c s -> sep_index s c = None.
Proof. unfold sep_index, no_char. by intros ->. Qed.

Lemma sep_index_app s c t : s <> "" -> no_char c s -> sep_index (s +:+ String c t) c = Some (String.length s).
Proof. intros Hne Hs. unfold sep_index. rewrite IndexByte_app by done. by destruct s. Qed.

Lemma sep_index_Some s c i : sep_index s c = Some i ->
  s = str_take i s +:+ String c (str_drop (S i) s) /\ str_take i s <> "" /\ no_char c (str_take i s).
Proof.
  unfold sep_index. destruct (IndexByte s c) as [[|j]|] eqn:E; try done. intros [= <-].
  assert (Hg : forall s j, IndexByte s c = Some j ->
    s = str_take j s +:+ String c (str_drop (S j) s) /\ no_char c (str_take j s)).
  { clear. induction s as [|a s IH]; intros j; [done|]. cbn [IndexByte]. case_bool_decide as Ea.
    - intros [= <-]. subst. done.
    - intros (k & Hk & ->)%fmap_Some. destruct (IH k Hk) as [E1 E2]. split.
      + cbn [str_take str_drop]. change (String a s = String a (str_take k s +:+ String c (str_drop (S k) s))). by f_equal.
      + unfold no_char in *. simpl. rewrite bool_decide_eq_false_2 by done. by rewrite E2. }
  destruct (Hg s (S j) E) as [E1 E2]. split_and!; [done| |done].
  destruct s; [done|]. done.
Qed.

(** ** Labels are not numbers and contain no separator *)
Lemma label_tail_no c s : is_alnum c = false -> c <> "-"%char -> label_tail s = true -> no_char c s.
Proof.
  intros Hc Hd. unfold no_char. induction s as [|a s IH]; [done|]. cbn [IndexByte]. intros Hl.
  assert (Ha : a <> c /\ label_tail s = true).
  { destruct s as [|b s]; simpl in Hl.
    - split; [|done]. intros ->. congruence.
    - apply andb_true_iff in Hl as [Ha Hl]. split; [|done]. intros ->. rewrite Hc in Ha. simpl in Ha.
      apply bool_decide_eq_true in Ha. done. }
  destruct Ha as [Hne Hs]. rewrite bool_decide_eq_false_2 by done. by rewrite IH.
Qed.

Lemma label_props s : is_label s = true -> s <> "" /\ no_char "/" s /\ no_char ":" s /\ ParsePort s = Fail ErrNotInteger.
Proof.
  destruct s as [|a t]; [done|]. unfold is_label. intros Hl. apply andb_true_iff in Hl as [Hl _].
  apply andb_true_iff in Hl as [Ha Ht].
  assert (Hn : forall c, is_alnum c = false -> c <> "-"%char -> no_char c (String a t)).
  { intros c Hc Hd. unfold no_char. cbn [IndexByte]. rewrite bool_decide_eq_false_2.
    - pose proof (label_tail_no c t Hc Hd Ht) as E. unfold no_char in E. by rewrite E.
    - intros ->. unfold is_alnum in Hc. rewrite Ha in Hc. done. }
  split_and!; [done|apply Hn; done|apply Hn; done|].
  unfold ParsePort. replace (Atoi (String a t)) with (@None Z); [done|].
  symmetry. unfold Atoi.
  assert (Hd : nonempty_digits (String a t) = None).
  { cbn [nonempty_digits digits_val]. replace (digit a) with (@None Z); [done|]. symmetry. unfold digit.
    unfold is_lower in Ha. apply andb_true_iff in Ha as [H1 _]. apply N.leb_le in H1.
    destruct (Z.leb_spec (Z.of_N (N_of_ascii a)) 57); [lia|]. by rewrite andb_false_r. }
  destruct a as [[] [] [] [] [] [] [] []]; try (by rewrite Hd); vm_compute in Ha; done.
Qed.

Lemma ValidatePort_spec s : ValidatePort s = None <-> (exists n, ParsePort s = Ret n) \/ is_label s = true.
Proof.
  unfold ValidatePort. split.
  - destruct (ParsePort s) as [n|e|] eqn:E; [eauto|destruct e|]; try done.
    + destruct (IsDNS1035Label s) eqn:EL; [|done]. intros _. right. by apply label_ok.
    + unfold ParsePort in E. destruct (Atoi s); [|done]. destruct (_ || _); done.
  - intros [[n ->]|Hl]; [done|]. destruct (label_props s Hl) as (_ & _ & _ & ->).
    apply label_ok in Hl. by rewrite Hl.
Qed.

(** ** Canonical forms *)
Definition suffix (p : Z) : string := if p =? ProtoTCP then "" else String "/" (Proto_String p).
Definition base (s : string) (n : Z) : string := if bool_decide (s = "") then itoa n else s.
(** A valid protocol with a port number or a name. *)
Definition parts_ok (p : Z) (s : string) (n : Z) : Prop :=
  supported p /\ ((s = "" /\ port_ok n) \/ (is_label s = true /\ n = 0)).



Lemma itoa_base n : port_ok n -> itoa n <> "" /\ no_char "/" (itoa n) /\ no_char ":" (itoa n).
Proof.
  intros [? ?]. split_and!; [|apply itoa_no_char; done || lia..].
  destruct (itoa_nonempty n) as (a & r & ->); [lia|done].
Qed.

Lemma base_props p s n : parts_ok p s n ->
  base s n <> "" /\ no_char "/" (base s n) /\ no_char ":" (base s n) /\ ValidatePort (base s n) = None /\
  match ParsePort (base s n) with Ret m => s = "" /\ m = n | _ => base s n = s /\ n = 0 end.
Proof.
  intros [_ [[-> Hn]|[Hl ->]]]; unfold base.
  - rewrite bool_decide_eq_true_2 by done. destruct (itoa_base n Hn) as (? & ? & ?).
    rewrite ParsePort_itoa by done. split_and!; try done. apply ValidatePort_spec. left. eexists. by apply ParsePort_itoa.
  - destruct (label_props s Hl) as (Hne & ? & ? & Hp). rewrite bool_decide_eq_false_2 by done. rewrite Hp.
    split_and!; try done. apply ValidatePort_spec. by right.
Qed.

Lemma split_canonical b p : b <> "" -> no_char "/" b -> supported p ->
  sep_index (b +:+ suffix p) "/" = if p =? ProtoTCP then None else Some (String.length b).
Proof.
  intros Hb Hn Hp. unfold suffix. destruct (p =? ProtoTCP).
  - rewrite str_app_nil. by apply sep_index_none.
  - by apply sep_index_app.
Qed.

(** Parsing the canonical text. *)
Lemma parse_canonical p s n : parts_ok p s n ->
  ProtoAndNameOrNumber (base s n +:+ suffix p) = (p, s, n) /\ PortIdentifier_Validate (base s n +:+ suffix p) = None.
Proof.
  intros Hok. destruct (base_props p s n Hok) as (Hb & Hs & _ & Hv & Hpp). destruct Hok as [Hp _].
  unfold ProtoAndNameOrNumber, PortIdentifier_Validate. change ProtoSeparator with "/"%char.
  rewrite split_canonical by done. unfold suffix. destruct (Z.eqb_spec p ProtoTCP) as [->|Hne].
  - rewrite str_app_nil. split; [|done].
    destruct (ParsePort (base s n)); [destruct Hpp as [-> ->]; done|destruct Hpp as [E ->]; by rewrite E..].
  - rewrite str_take_app, str_drop_S_app, ParseProto_String by done. split; [|done].
    destruct (ParsePort (base s n)); [destruct Hpp as [-> ->]; done|destruct Hpp as [E ->]; by rewrite E..].
Qed.

(** What the validator accepts. *)
Lemma valid_parts spi : PortIdentifier_Validate spi = None ->
  let '(p, s, n) := ProtoAndNameOrNumber spi in parts_ok p s n.
Proof.
  unfold PortIdentifier_Validate, ProtoAndNameOrNumber.
  destruct (sep_index spi ProtoSeparator) as [ix|] eqn:E.
  - destruct (ParseProto (str_drop (S ix) spi)) as [p| |] eqn:Ep; [|done|].
    2:{ unfold ParseProto in Ep. repeat case_bool_decide; done. }
    intros [(n & Hn)|Hl]%ValidatePort_spec.
    + rewrite Hn. split; [by eapply ParseProto_supported|]. left. split; [done|]. by eapply ParsePort_ok.
    + destruct (label_props _ Hl) as (_ & _ & _ & ->). split; [by eapply ParseProto_supported|]. by right.
  - intros [(n & Hn)|Hl]%ValidatePort_spec.
    + rewrite Hn. split; [decide_it|]. left. split; [done|]. by eapply ParsePort_ok.
    + destruct (label_props _ Hl) as (_ & _ & _ & ->). split; [decide_it|]. by right.
Qed.

Lemma String_canonical spi p s n : ProtoAndNameOrNumber spi = (p, s, n) ->
  PortIdentifier_String spi = base s n +:+ suffix p.
Proof.
  intros E. unfold PortIdentifier_String, base, suffix. rewrite E.
  case_bool_decide; destruct (p =? ProtoTCP); simpl; by rewrite ?str_app_nil.
Qed.

(** Printing a port with its protocol and parsing the text gives the port back, for
    every port in range and every supported protocol. *)
Theorem PortAndProto_roundtrip n p : port_ok n -> supported p ->
  ParsePortAndProto (PortAndProto_String {| pp_Port := n; pp_Proto := p |}) = Ret {| pp_Port := n; pp_Proto := p |}.
Proof.
  intros Hn Hp. destruct (itoa_base n Hn) as (Hne & Hs & _).
  unfold ParsePortAndProto, PortAndProto_String. cbn [pp_Port pp_Proto]. change ProtoSeparator with "/"%char.
  destruct (Z.eqb_spec p ProtoTCP) as [->|].
  - rewrite sep_index_none, ParsePort_itoa by done. done.
  - change ("/" +:+ Proto_String p) with (String "/" (Proto_String p)).
    rewrite sep_index_app, str_drop_S_app, str_take_app, ParseProto_String by done. cbn [mbind go_bind].
    by rewrite ParsePort_itoa.
Qed.

(** [String] yields the canonical text of a valid port identifier: the text is valid,
    denotes the same protocol and name or number, and is its own canonical text. *)
Theorem PortIdentifier_String_canonical spi : PortIdentifier_Validate spi = None ->
  PortIdentifier_Validate (PortIdentifier_String spi) = None /\
  ProtoAndNameOrNumber (PortIdentifier_String spi) = ProtoAndNameOrNumber spi /\
  PortIdentifier_String (PortIdentifier_String spi) = PortIdentifier_String spi.
Proof.
  intros Hv. pose proof (valid_parts spi Hv) as Hok.
  destruct (ProtoAndNameOrNumber spi) as [[p s] n] eqn:E.
  rewrite (String_canonical spi p s n E). destruct (parse_canonical p s n Hok) as [H1 H2].
  split_and!; [done|done|]. by apply String_canonical.
Qed.

Lemma NewPortMapping_eq from to p s n : ProtoAndNameOrNumber from = (p, s, n) ->
  NewPortMapping from to = base s n +:+ String ":" (itoa to +:+ suffix p).
Proof.
  intros E. unfold NewPortMapping, base, suffix. rewrite E.
  case_bool_decide; destruct (p =? ProtoTCP); simpl; by rewrite ?str_app_nil.
Qed.

(** A port mapping made from a valid port identifier and a port number parses back to
    the canonical identifier and to that port with the identifier's protocol. *)
Theorem PortMapping_roundtrip from to : PortIdentifier_Validate from = None -> port_ok to ->
  FromAndTo (NewPortMapping from to) =
    (PortIdentifier_String from, itoa to +:+ suffix (ProtoAndNameOrNumber from).1.1, None) /\
  ToAsNumeric (NewPortMapping from to) = {| pp_Port := to; pp_Proto := (ProtoAndNameOrNumber from).1.1 |}.
Proof.
  intros Hv Hto. pose proof (valid_parts from Hv) as Hok.
  destruct (ProtoAndNameOrNumber from) as [[p s] n] eqn:E. simpl.
  destruct (base_props p s n Hok) as (Hb & _ & Hc & HV & _). pose proof Hok as [Hp _].
  assert (Htok : parts_ok p "" to) by (split; [done|by left]).
  destruct (parse_canonical p "" to Htok) as [HT1 HT2]. change (base "" to) with (itoa to) in HT1, HT2.
  assert (HF : FromAndTo (NewPortMapping from to) = (PortIdentifier_String from, itoa to +:+ suffix p, None)).
  { rewrite (NewPortMapping_eq from to p s n E), (String_canonical from p s n E). unfold FromAndTo.
    rewrite sep_index_app, str_drop_S_app, str_take_app by done. rewrite HT2, HT1. unfold NewPortIdentifier. rewrite HV.
    unfold suffix at 2. destruct (p =? ProtoTCP); [by rewrite str_app_nil|done]. }
  split; [done|]. unfold ToAsNumeric, PortMapping_To. rewrite HF. simpl. by rewrite HT1.
Qed.

(** JSON text of a supported protocol unmarshals to it. *)
Theorem Proto_json_roundtrip p old : supported p -> Proto_UnmarshalJSON old (Proto_MarshalJSON p) = (p, None).
Proof. intros Hp. unfold Proto_MarshalJSON, Proto_UnmarshalJSON. by rewrite ParseProto_String. Qed.
End PortSpec.

(** ** An implementation of the Kubernetes operations, for the examples *)
Definition K8sRef : K8sApi := {|
  IsDNS1035Label s := if is_label s then [] else ["a DNS-1035 label must consist of lower case alphanumeric characters or '-'"];
  core_ProtocolTCP := "TCP"; core_ProtocolUDP := "UDP"; core_ProtocolSCTP := "SCTP" |}.
Lemma K8sRef_laws : @K8sLaws K8sRef.
Proof. split; [done..|]. intros s. simpl. by destruct (is_label s). Qed.

Lemma PortAndProto_roundtrip_witness :
  @ParsePortAndProto (@PortAndProto_String K8sRef {| pp_Port := 8080; pp_Proto := ProtoUDP |}) =
  Ret {| pp_Port := 8080; pp_Proto := ProtoUDP |}.
Proof. apply (@PortAndProto_roundtrip K8sRef K8sRef_laws 8080 ProtoUDP); [split; lia|decide_it]. Defined.

Lemma PortIdentifier_String_canonical_witness :
  @PortIdentifier_String K8sRef "+80/udp4" = "80/UDP" /\
  (@PortIdentifier_Validate K8sRef (@PortIdentifier_String K8sRef "+80/udp4") = None /\
   ProtoAndNameOrNumber (@PortIdentifier_String K8sRef "+80/udp4") = ProtoAndNameOrNumber "+80/udp4" /\
   @PortIdentifier_String K8sRef (@PortIdentifier_String K8sRef "+80/udp4") = @PortIdentifier_String K8sRef "+80/udp4").
Proof.
  split; [vm_compute; reflexivity|].
  apply (@PortIdentifier_String_canonical K8sRef K8sRef_laws "+80/udp4"). vm_compute. reflexivity.
Defined.

Lemma PortMapping_roundtrip_witness :
  @NewPortMapping K8sRef "http/udp" 8080 = "http:8080/UDP" /\
  (@FromAndTo K8sRef (@NewPortMapping K8sRef "http/udp" 8080) =
    (@PortIdentifier_String K8sRef "http/udp", itoa 8080 +:+ @suffix K8sRef (ProtoAndNameOrNumber "http/udp").1.1, None) /\
   @ToAsNumeric K8sRef (@NewPortMapping K8sRef "http/udp" 8080) =
    {| pp_Port := 8080; pp_Proto := (ProtoAndNameOrNumber "http/udp").1.1 |}).
Proof.
  split; [vm_compute; reflexivity|].
  apply (@PortMapping_roundtrip K8sRef K8sRef_laws "http/udp" 8080); [vm_compute; reflexivity|split; lia].
Defined.

Lemma Proto_json_roundtrip_witness : Proto_UnmarshalJSON 0 (@Proto_MarshalJSON K8sRef ProtoICMPV6) = (ProtoICMPV6, None).
Proof. apply (@Proto_json_roundtrip K8sRef K8sRef_laws ProtoICMPV6 0). decide_it. Defined.
