(* ===== verification/ConnId.v ===== *)
(** * Connection identifiers (src/pkg/tunnel/connid.go)

    A [ConnID] is a Go string of 13 bytes (two IPv4 endpoints) or 37 bytes (two
    16-byte addresses): source address and port, destination address and port,
    protocol.  It is the key of every connection table, so what matters is that
    it determines its endpoints and that equal endpoints give equal keys.  The
    accessors slice the string; [None] is a slice out of range, which no
    identifier made by [NewConnID] reaches. *)
From S2P Require Import Prelude NetIP GoStrings PortTypes.

Abbreviation ConnID := (list Z).

(** The [switch] of [NewConnID]: both addresses in the same size. *)
Definition same_size (srcAddr dstAddr : Addr) : Addr * Addr :=
  if Is4 srcAddr then
    if Is4In6 dstAddr then (srcAddr, Unmap dstAddr)
    else if Is6 dstAddr then (AddrFrom16 (As16 srcAddr), dstAddr)
    else (srcAddr, dstAddr)
  else if Is4In6 srcAddr then
    if Is4 dstAddr then (Unmap srcAddr, dstAddr)
    else if Is4In6 dstAddr then (Unmap srcAddr, Unmap dstAddr)
    else (srcAddr, dstAddr)
  else if Is4 dstAddr then (srcAddr, AddrFrom16 (As16 dstAddr))
  else (srcAddr, dstAddr).

Definition NewConnID (proto : Z) (src dst : AddrPort) : Go Empty_set ConnID :=
  let '(srcAddr, dstAddr) := same_size (ap_addr src) (ap_addr dst) in
  if BitLen srcAddr / 8 =? 0 then Panic
  else if BitLen dstAddr / 8 =? 0 then Panic
  else Ret (AsSlice srcAddr ++ be_bytes 2 (ap_port src) ++ AsSlice dstAddr ++ be_bytes 2 (ap_port dst) ++ [u8 proto]).

Definition ConnIDFromUDP (src dst : AddrPort) : Go Empty_set ConnID := NewConnID ProtoUDP src dst.
Definition NewZeroID : ConnID := replicate 13 0.

Definition areBothIPv4 (id : ConnID) : bool := Nat.eqb (length id) 13.

(** [b[i:j]] and [b[i:]]. *)
Definition slice (b : list Z) (i j : nat) : option (list Z) :=
  if Nat.leb i j && Nat.leb j (length b) then Some (take (j - i) (drop i b)) else None.

Definition is_some {A} (o : option A) : bool := match o with Some _ => true | None => false end.

Definition IsSourceIPv4 (id : ConnID) : bool :=
  areBothIPv4 id || (Nat.ltb 16 (length id) && is_some (b ← slice id 0 16; To4 b)).
Definition IsDestinationIPv4 (id : ConnID) : bool :=
  areBothIPv4 id || (Nat.eqb (length id) 37 && is_some (b ← slice id 18 34; To4 b)).

Definition SourceAddr (id : ConnID) : option Addr :=
  if areBothIPv4 id then AddrFrom4 <$> slice id 0 4
  else (fun b => Unmap (AddrFrom16 b)) <$> slice id 0 16.
Definition SourcePort (id : ConnID) : option Z :=
  if areBothIPv4 id then be_val <$> slice id 4 6 else be_val <$> slice id 16 18.
Definition DestinationAddr (id : ConnID) : option Addr :=
  if areBothIPv4 id then AddrFrom4 <$> slice id 6 10
  else (fun b => Unmap (AddrFrom16 b)) <$> slice id 18 34.
Definition DestinationPort (id : ConnID) : option Z :=
  if areBothIPv4 id then be_val <$> slice id 10 12 else be_val <$> slice id 34 36.
Definition Source (id : ConnID) : option AddrPort :=
  a ← SourceAddr id; p ← SourcePort id; Some {| ap_addr := a; ap_port := p |}.
Definition Destination (id : ConnID) : option AddrPort :=
  a ← DestinationAddr id; p ← DestinationPort id; Some {| ap_addr := a; ap_port := p |}.
Definition Protocol (id : ConnID) : option Z := last id.

Definition proto_string (p : Z) (is4 : bool) : string :=
  if p =? ProtoTCP then (if is4 then "tcp4" else "tcp6")
  else if p =? ProtoUDP then (if is4 then "udp4" else "udp6")
  else "unknown-" +:+ itoa p.
Definition SourceProtocolString (id : ConnID) : option string :=
  p ← Protocol id; Some (proto_string p (IsSourceIPv4 id)).
Definition DestinationProtocolString (id : ConnID) : option string :=
  p ← Protocol id; Some (proto_string p (IsDestinationIPv4 id)).
Definition SourceNetwork (id : ConnID) : string := if IsSourceIPv4 id then "ip4" else "ip6".
Definition DestinationNetwork (id : ConnID) : string := if IsDestinationIPv4 id then "ip4" else "ip6".

Definition Reply (id : ConnID) : Go Empty_set ConnID :=
  match Protocol id, Destination id, Source id with
  | Some p, Some d, Some s => NewConnID p d s
  | _, _, _ => Panic
  end.

(** ** Facts *)

(** The address an endpoint denotes: unmapped and without zone. *)
Definition canon (a : Addr) : Addr := Unmap (withoutZone a).

Lemma shiftr_mapped v : fits 32 v -> Z.shiftr (0xffff * 2 ^ 32 + v) 32 = 0xffff /\ (0xffff * 2 ^ 32 + v) mod 2 ^ 32 = v.
Proof.
  intros Hv. unfold fits in Hv. split.
  - rewrite Z.shiftr_div_pow2, Z.div_add_l, Z.div_small by lia. done.
  - rewrite Z.add_comm, Z.mod_add, Z.mod_small by lia. done.
Qed.

Lemma AddrFrom16_As16_4 v : fits 32 v -> AddrFrom16 (As16 (Addr4 v)) = Addr6 (0xffff * 2 ^ 32 + v) "".
Proof.
  intros Hv. unfold AddrFrom16, As16. rewrite be_val_bytes, Z.mod_small; [done|].
  unfold fits in Hv. lia.
Qed.

Lemma canon_4 v : canon (Addr4 v) = Addr4 v.
Proof. done. Qed.

(** What the two addresses have become: both IPv4, or both 16 bytes. *)
Lemma same_size_spec s d : addr_wf s -> addr_wf d -> s <> AddrZero -> d <> AddrZero ->
  let '(s', d') := same_size s d in
  addr_wf s' /\ addr_wf d' /\ canon s' = canon s /\ canon d' = canon d /\
  ((Is4 s' = true /\ Is4 d' = true) \/
   (Is6 s' = true /\ Is6 d' = true /\ (Is4In6 s' = true -> Is4In6 d' = false))).
Proof.
  intros Hs Hd Ns Nd. unfold same_size. destruct s as [|v|v z]; [congruence|..]; (destruct d as [|u|u y]; [congruence|..]).
  - cbn [Is4 Is6 Is4In6]. split_and!; try done. by left.
  - cbn [Is4 Is6]. destruct (Is4In6 (Addr6 u y)) eqn:E.
    + cbn [Unmap]. rewrite E. split_and!; try done; [apply Z.mod_pos_bound; lia| |by left].
      unfold canon. cbn [withoutZone Unmap]. unfold Is4In6 in *. by rewrite E.
    + rewrite AddrFrom16_As16_4 by done. destruct (shiftr_mapped v Hs) as [H1 H2]. split_and!; try done.
      * unfold addr_wf, fits in *. lia.
      * unfold canon. cbn [withoutZone Unmap]. unfold Is4In6. rewrite H1. by rewrite H2.
      * right. by rewrite E.
  - cbn [Is4 Is6]. destruct (Is4In6 (Addr6 v z)) eqn:E.
    + cbn [Unmap]. rewrite E. split_and!; try done; [apply Z.mod_pos_bound; lia| |by left].
      unfold canon. cbn [withoutZone Unmap]. unfold Is4In6 in *. by rewrite E.
    + rewrite AddrFrom16_As16_4 by done. destruct (shiftr_mapped u Hd) as [H1 H2]. split_and!; try done.
      * unfold addr_wf, fits in *. lia.
      * unfold canon. cbn [withoutZone Unmap]. unfold Is4In6. rewrite H1. by rewrite H2.
      * right. split_and!; [done..|]. unfold Is4In6 in *. by rewrite E.
  - cbn [Is4 Is6]. destruct (Is4In6 (Addr6 v z)) eqn:E, (Is4In6 (Addr6 u y)) eqn:E'.
    + cbn [Unmap]. rewrite E, E'. split_and!; try done; try (apply Z.mod_pos_bound; lia); [| |by left];
        unfold canon; cbn [withoutZone Unmap]; unfold Is4In6 in *; by rewrite ?E, ?E'.
    + split_and!; try done. right. by rewrite E'.
    + split_and!; try done. right. split_and!; [done..|]. by rewrite E.
    + split_and!; try done. right. split_and!; [done..|]. by rewrite E.
Qed.

(** ** Layout of an identifier *)
Definition valid_endpoint (e : AddrPort) : Prop := addr_wf (ap_addr e) /\ ap_addr e <> AddrZero /\ fits 16 (ap_port e).
Definition canon_endpoint (e : AddrPort) : AddrPort := {| ap_addr := canon (ap_addr e); ap_port := ap_port e |}.

(** Slicing a concatenation. *)
Lemma slice_app (l m k : list Z) i j : i = length l -> j = (length l + length m)%nat -> slice (l ++ m ++ k) i j = Some m.
Proof.
  intros -> ->. unfold slice. rewrite !length_app.
  destruct (Nat.leb_spec (length l) (length l + length m)), (Nat.leb_spec (length l + length m) (length l + (length m + length k))); try lia.
  simpl. rewrite drop_app_length, take_app_len by lia. done.
Qed.

Lemma slice_all (l m : list Z) i j : i = length l -> j = (length l + length m)%nat -> slice (l ++ m) i j = Some m.
Proof. intros Hi Hj. rewrite <- (app_nil_r m) at 1. by apply slice_app. Qed.

(** An identifier with the given addresses of equal size. *)
Definition layout (s d : Addr) (sp dp p : Z) : ConnID :=
  AsSlice s ++ be_bytes 2 sp ++ AsSlice d ++ be_bytes 2 dp ++ [p].

Lemma be_val_2 p : fits 16 p -> be_val (be_bytes 2 p) = p.
Proof. intros Hp. rewrite be_val_bytes. by apply Z.mod_small. Qed.

Lemma layout_last s d sp dp p : Protocol (layout s d sp dp p) = Some p.
Proof. unfold Protocol, layout. by rewrite !app_assoc, last_snoc. Qed.

Lemma slices_layout n s d sp dp p : length (AsSlice s) = n -> length (AsSlice d) = n ->
  let id := layout s d sp dp p in
  slice id 0 n = Some (AsSlice s) /\ slice id n (n + 2) = Some (be_bytes 2 sp) /\
  slice id (n + 2) (n + 2 + n) = Some (AsSlice d) /\ slice id (n + 2 + n) (n + 2 + n + 2) = Some (be_bytes 2 dp).
Proof.
  intros Hs Hd. unfold layout. split_and!.
  - apply (slice_app []); simpl; lia.
  - apply slice_app; rewrite ?be_bytes_length; lia.
  - rewrite app_assoc. apply slice_app; rewrite !length_app, be_bytes_length; lia.
  - rewrite !app_assoc, <- (app_assoc _ (be_bytes 2 dp)). apply slice_app; rewrite !length_app, !be_bytes_length; lia.
Qed.

Lemma be_val_addr4 v : fits 32 v -> AddrFrom4 (be_bytes 4 v) = Addr4 v.
Proof. intros. unfold AddrFrom4. by rewrite be_val_bytes, Z.mod_small. Qed.
Lemma be_val_addr6 v : fits 128 v -> AddrFrom16 (be_bytes 16 v) = Addr6 v "".
Proof. intros. unfold AddrFrom16. by rewrite be_val_bytes, Z.mod_small. Qed.

(** Both accessors on a layout. *)
Definition decodes (id : ConnID) (s d : Addr) (sp dp p : Z) : Prop :=
  Source id = Some {| ap_addr := s; ap_port := sp |} /\ Destination id = Some {| ap_addr := d; ap_port := dp |} /\
  Protocol id = Some p.

Lemma layout4 v u sp dp p : fits 32 v -> fits 32 u -> fits 16 sp -> fits 16 dp ->
  decodes (layout (Addr4 v) (Addr4 u) sp dp p) (Addr4 v) (Addr4 u) sp dp p.
Proof.
  intros Hv Hu Hsp Hdp. destruct (slices_layout 4 (Addr4 v) (Addr4 u) sp dp p) as (H1 & H2 & H3 & H4); [done..|].
  unfold decodes, Source, Destination, SourceAddr, DestinationAddr, SourcePort, DestinationPort, areBothIPv4.
  change (length (layout (Addr4 v) (Addr4 u) sp dp p)) with 13%nat. simpl Nat.eqb. cbn iota.
  change (4 + 2)%nat with 6%nat in *. change (6 + 4)%nat with 10%nat in *. change (10 + 2)%nat with 12%nat in *.
  rewrite H1, H2, H3, H4. cbn [fmap option_fmap option_map mbind option_bind AsSlice].
  rewrite !be_val_addr4, !be_val_2 by done. by rewrite layout_last.
Qed.

Lemma layout6 v z u y sp dp p : fits 128 v -> fits 128 u -> fits 16 sp -> fits 16 dp ->
  decodes (layout (Addr6 v z) (Addr6 u y) sp dp p) (canon (Addr6 v z)) (canon (Addr6 u y)) sp dp p.
Proof.
  intros Hv Hu Hsp Hdp. destruct (slices_layout 16 (Addr6 v z) (Addr6 u y) sp dp p) as (H1 & H2 & H3 & H4); [done..|].
  unfold decodes, Source, Destination, SourceAddr, DestinationAddr, SourcePort, DestinationPort, areBothIPv4.
  change (length (layout (Addr6 v z) (Addr6 u y) sp dp p)) with 37%nat. simpl Nat.eqb. cbn iota.
  change (16 + 2)%nat with 18%nat in *. change (18 + 16)%nat with 34%nat in *. change (34 + 2)%nat with 36%nat in *.
  rewrite H1, H2, H3, H4. cbn [fmap option_fmap option_map mbind option_bind AsSlice].
  rewrite !be_val_addr6, !be_val_2 by done. by rewrite layout_last.
Qed.

Lemma NewConnID_layout proto src dst : valid_endpoint src -> valid_endpoint dst ->
  let '(s, d) := same_size (ap_addr src) (ap_addr dst) in
  NewConnID proto src dst = Ret (layout s d (ap_port src) (ap_port dst) (u8 proto)).
Proof.
  intros (Ws & Ns & _) (Wd & Nd & _). unfold NewConnID.
  pose proof (same_size_spec _ _ Ws Wd Ns Nd) as H. destruct (same_size _ _) as [s d].
  destruct H as (_ & _ & _ & _ & [[Hs Hd]|(Hs & Hd & _)]); destruct s, d; done.
Qed.

Lemma NewConnID_decodes proto src dst : valid_endpoint src -> valid_endpoint dst -> fits 8 proto ->
  exists id, NewConnID proto src dst = Ret id /\ (length id = 13%nat \/ length id = 37%nat) /\
    decodes id (canon (ap_addr src)) (canon (ap_addr dst)) (ap_port src) (ap_port dst) proto.
Proof.
  intros Vs Vd Hp. pose proof (NewConnID_layout proto src dst Vs Vd) as HL.
  destruct Vs as (Ws & Ns & Ps), Vd as (Wd & Nd & Pd).
  pose proof (same_size_spec _ _ Ws Wd Ns Nd) as H. destruct (same_size _ _) as [s d].
  rewrite (wrap_id 8 proto) in HL by done. eexists. split; [exact HL|].
  destruct H as (Ws' & Wd' & <- & <- & [[Hs Hd]|(Hs & Hd & _)]); destruct s as [|v|v z]; try done; destruct d as [|u|u y]; try done.
  - split; [by left|]. by apply layout4.
  - split; [by right|]. by apply layout6.
Qed.

(** A connection identifier determines its endpoints: source, destination and protocol
    read back from it are those it was made from, with IPv4-mapped addresses unmapped
    and zones dropped, for every pair of valid addresses. *)
Theorem NewConnID_roundtrip proto src dst : valid_endpoint src -> valid_endpoint dst -> fits 8 proto ->
  exists id, NewConnID proto src dst = Ret id /\
    Source id = Some (canon_endpoint src) /\ Destination id = Some (canon_endpoint dst) /\ Protocol id = Some proto.
Proof.
  intros Vs Vd Hp. destruct (NewConnID_decodes proto src dst Vs Vd Hp) as (id & H1 & _ & H2 & H3 & H4). eauto.
Qed.

Definition ep4 : AddrPort := {| ap_addr := Addr4 0x0A010203; ap_port := 8080 |}.
Definition ep6 : AddrPort := {| ap_addr := Addr6 0xfd000000000002460000000000000001 "eth0"; ap_port := 443 |}.
Definition ep4in6 : AddrPort := {| ap_addr := Addr6 (0xffff * 2 ^ 32 + 0x0A010203) ""; ap_port := 53 |}.

Lemma NewConnID_roundtrip_witness : exists id, NewConnID ProtoTCP ep4 ep6 = Ret id /\
  Source id = Some (canon_endpoint ep4) /\ Destination id = Some (canon_endpoint ep6) /\ Protocol id = Some ProtoTCP.
Proof.
  apply (NewConnID_roundtrip ProtoTCP ep4 ep6); [split_and!|split_and!|]; try decide_it; discriminate.
Defined.

(** [NewConnID] panics exactly when one of the addresses is the zero address. *)
Theorem NewConnID_panics proto src dst : addr_wf (ap_addr src) -> addr_wf (ap_addr dst) ->
  NewConnID proto src dst = Panic <-> ap_addr src = AddrZero \/ ap_addr dst = AddrZero.
Proof.
  intros Ws Wd. split.
  - intros H. destruct (decide (ap_addr src = AddrZero)) as [|Ns]; [by left|].
    destruct (decide (ap_addr dst = AddrZero)) as [|Nd]; [by right|]. exfalso. revert H. unfold NewConnID.
    pose proof (same_size_spec _ _ Ws Wd Ns Nd) as H. destruct (same_size _ _) as [s d].
    destruct H as (_ & _ & _ & _ & [[Hs Hd]|(Hs & Hd & _)]); destruct s, d; done.
  - unfold NewConnID, same_size. intros [->| ->].
    + cbn [Is4 Is4In6]. by destruct (Is4 (ap_addr dst)).
    + cbn [Is4 Is4In6 Is6]. destruct (Is4 (ap_addr src)) eqn:E; [by destruct (ap_addr src)|].
      destruct (Is4In6 (ap_addr src)); by destruct (ap_addr src).
Qed.

Lemma NewConnID_panics_witness :
  NewConnID ProtoTCP {| ap_addr := AddrZero; ap_port := 1 |} ep4 = Panic <-> AddrZero = AddrZero \/ ap_addr ep4 = AddrZero.
Proof. apply (NewConnID_panics ProtoTCP {| ap_addr := AddrZero; ap_port := 1 |} ep4); decide_it. Defined.

(** Endpoints that denote the same addresses give the same identifier. *)
Lemma addr6_bytes v z : fits 128 v -> Is4In6 (Addr6 v z) = true -> v = 0xffff * 2 ^ 32 + v mod 2 ^ 32.
Proof.
  intros Hv H. apply Z.eqb_eq in H. rewrite Z.shiftr_div_pow2 in H by lia.
  pose proof (Z.div_mod v (2 ^ 32)). lia.
Qed.

(** The sixteen bytes of an address only depend on what it denotes. *)
Definition wide (a : Addr) : list Z := As16 a.

Lemma wide_canon a : addr_wf a -> wide (canon a) = wide a.
Proof.
  intros Hw. unfold canon, wide. destruct a as [|v|v z]; [done|done|]. cbn [withoutZone Unmap].
  destruct (Is4In6 (Addr6 v "")) eqn:E; [|done]. cbn [As16]. by rewrite <- (addr6_bytes v "" Hw E).
Qed.

Lemma canon_idem a : canon (canon a) = canon a.
Proof.
  unfold canon. destruct a as [|v|v z]; [done|done|]. cbn [withoutZone Unmap].
  destruct (Is4In6 (Addr6 v "")) eqn:E; [done|]. cbn [withoutZone Unmap]. by rewrite E.
Qed.

(** The bytes [NewConnID] stores for the two addresses. *)
Lemma same_size_slices s d : addr_wf s -> addr_wf d -> s <> AddrZero -> d <> AddrZero ->
  let '(s', d') := same_size s d in
  if Is4 (canon s) && Is4 (canon d)
  then AsSlice s' = AsSlice (canon s) /\ AsSlice d' = AsSlice (canon d)
  else AsSlice s' = wide s /\ AsSlice d' = wide d.
Proof.
  intros Ws Wd Ns Nd. pose proof (same_size_spec s d Ws Wd Ns Nd) as H.
  destruct (same_size s d) as [s' d'].
  destruct H as (Ws' & Wd' & Es & Ed & [[Hs Hd]|(Hs & Hd & Hn)]); rewrite <- Es, <- Ed.
  - destruct s' as [|v|v z], d' as [|u|u y]; try (discriminate Hs); try (discriminate Hd). split; reflexivity.
  - destruct s' as [|v|v z], d' as [|u|u y]; try (discriminate Hs); try (discriminate Hd).
    assert (E : Is4 (canon (Addr6 v z)) && Is4 (canon (Addr6 u y)) = false).
    { unfold canon. cbn [withoutZone Unmap]. unfold Is4In6 in *. cbn [Is4].
      destruct (Z.shiftr v 32 =? 65535); [|reflexivity]. cbn [andb Is4]. rewrite Hn by reflexivity. reflexivity. }
    rewrite E. rewrite <- (wide_canon s), <- (wide_canon d), <- Es, <- Ed, !wide_canon by done. done.
Qed.

Lemma NewConnID_canon p s d s' d' :
  valid_endpoint s -> valid_endpoint d -> valid_endpoint s' -> valid_endpoint d' ->
  canon_endpoint s = canon_endpoint s' -> canon_endpoint d = canon_endpoint d' ->
  NewConnID p s d = NewConnID p s' d'.
Proof.
  intros Vs Vd Vs' Vd' Es Ed. unfold canon_endpoint in *. injection Es as Ea Eb. injection Ed as Ec Ef.
  pose proof (NewConnID_layout p s d Vs Vd) as L1. pose proof (NewConnID_layout p s' d' Vs' Vd') as L2.
  destruct Vs as (Ws & Ns & _), Vd as (Wd & Nd & _), Vs' as (Ws' & Ns' & _), Vd' as (Wd' & Nd' & _).
  pose proof (same_size_slices _ _ Ws Wd Ns Nd) as S1. pose proof (same_size_slices _ _ Ws' Wd' Ns' Nd') as S2.
  destruct (same_size (ap_addr s) (ap_addr d)), (same_size (ap_addr s') (ap_addr d')).
  rewrite L1, L2. unfold layout. rewrite Eb, Ef. rewrite Ea, Ec in S1.
  destruct (_ && _); destruct S1 as [-> ->], S2 as [-> ->]; [done|].
  by rewrite <- (wide_canon (ap_addr s)), <- (wide_canon (ap_addr d)), Ea, Ec, !wide_canon.
Qed.

(** Two identifiers are equal exactly when protocol, ports and the addresses they
    denote are equal: a [ConnID] is a faithful map key. *)
Theorem NewConnID_injective p p' s d s' d' :
  valid_endpoint s -> valid_endpoint d -> valid_endpoint s' -> valid_endpoint d' -> fits 8 p -> fits 8 p' ->
  NewConnID p s d = NewConnID p' s' d' <->
  p = p' /\ canon_endpoint s = canon_endpoint s' /\ canon_endpoint d = canon_endpoint d'.
Proof.
  intros Vs Vd Vs' Vd' Hp Hp'. split.
  - intros E. destruct (NewConnID_decodes p s d Vs Vd Hp) as (id & E1 & _ & A1 & A2 & A3).
    destruct (NewConnID_decodes p' s' d' Vs' Vd' Hp') as (id' & E2 & _ & B1 & B2 & B3).
    assert (id = id') by congruence. subst. unfold canon_endpoint. split_and!; congruence.
  - intros (<- & Es & Ed). by apply NewConnID_canon.
Qed.

Lemma NewConnID_injective_witness :
  NewConnID ProtoUDP ep4in6 ep4 = NewConnID ProtoUDP {| ap_addr := Addr4 0x0A010203; ap_port := 53 |} ep4 <->
  ProtoUDP = ProtoUDP /\ canon_endpoint ep4in6 = canon_endpoint {| ap_addr := Addr4 0x0A010203; ap_port := 53 |} /\
  canon_endpoint ep4 = canon_endpoint ep4.
Proof.
  apply (NewConnID_injective ProtoUDP ProtoUDP ep4in6 ep4 {| ap_addr := Addr4 0x0A010203; ap_port := 53 |} ep4);
    try (split_and!; try decide_it; discriminate); decide_it.
Defined.

Lemma canon_wf a : addr_wf a -> addr_wf (canon a).
Proof.
  intros Hw. unfold canon. destruct a as [|v|v z]; [done|done|]. cbn [withoutZone Unmap].
  destruct (Is4In6 (Addr6 v "")); [|done]. apply Z.mod_pos_bound. lia.
Qed.
Lemma canon_nonzero a : a <> AddrZero -> canon a <> AddrZero.
Proof.
  intros Hne. unfold canon. destruct a as [|v|v z]; [done|done|]. cbn [withoutZone Unmap].
  by destruct (Is4In6 (Addr6 v "")).
Qed.
Lemma canon_endpoint_valid e : valid_endpoint e -> valid_endpoint (canon_endpoint e).
Proof. intros (W & N & P). split_and!; [by apply canon_wf|by apply canon_nonzero|exact P]. Qed.
Lemma canon_endpoint_idem e : canon_endpoint (canon_endpoint e) = canon_endpoint e.
Proof. unfold canon_endpoint. simpl ap_addr. by rewrite canon_idem. Qed.

Lemma Reply_eq p s d id : valid_endpoint s -> valid_endpoint d -> fits 8 p ->
  NewConnID p s d = Ret id -> Reply id = NewConnID p d s.
Proof.
  intros Vs Vd Hp E. destruct (NewConnID_decodes p s d Vs Vd Hp) as (id' & E1 & _ & A1 & A2 & A3).
  assert (id' = id) by congruence. subst. unfold Reply. rewrite A1, A2, A3.
  apply NewConnID_canon; [by apply (canon_endpoint_valid d)|by apply (canon_endpoint_valid s)|done|done|..].
  - apply (canon_endpoint_idem d).
  - apply (canon_endpoint_idem s).
Qed.

(** [Reply] swaps source and destination, keeps the protocol, never panics on an
    identifier made by [NewConnID], and replying twice gives the identifier back. *)
Theorem Reply_involutive p s d id : valid_endpoint s -> valid_endpoint d -> fits 8 p ->
  NewConnID p s d = Ret id ->
  exists rid, Reply id = Ret rid /\ Source rid = Destination id /\ Destination rid = Source id /\
    Protocol rid = Protocol id /\ Reply rid = Ret id.
Proof.
  intros Vs Vd Hp E. rewrite (Reply_eq p s d id) by done.
  destruct (NewConnID_decodes p s d Vs Vd Hp) as (id' & E1 & _ & A1 & A2 & A3).
  assert (id' = id) by congruence. subst.
  destruct (NewConnID_decodes p d s Vd Vs Hp) as (rid & E2 & _ & B1 & B2 & B3).
  exists rid. rewrite (Reply_eq p d s rid) by done. split_and!; congruence.
Qed.

Lemma Reply_involutive_witness :
  let id := AsSlice (Addr4 0x0A010203) ++ [31; 144] ++ AsSlice (Addr4 0x0A010204) ++ [0; 80] ++ [6] in
  exists rid, Reply id = Ret rid /\ Source rid = Destination id /\ Destination rid = Source id /\
    Protocol rid = Protocol id /\ Reply rid = Ret id.
Proof.
  apply (Reply_involutive ProtoTCP ep4 {| ap_addr := Addr4 0x0A010204; ap_port := 80 |});
    [split_and!; try decide_it; discriminate|split_and!; try decide_it; discriminate|decide_it|vm_compute; reflexivity].
Defined.

(** The sixteen-byte form is recognised as IPv4 exactly when it is mapped. *)
Lemma To4_be16 v z : fits 128 v -> is_some (To4 (be_bytes 16 v)) = Is4In6 (Addr6 v z).
Proof.
  intros Hv. pose proof (shiftr_fits 128 32 v ltac:(lia) Hv) as Hx. unfold Is4In6. set (x := Z.shiftr v 32) in *.
  assert (E : be_bytes 16 v = be_bytes 12 x ++ be_bytes 4 v) by (apply (be_bytes_app 12 4)).
  assert (E0 : be_bytes 12 0xffff = replicate 10 0 ++ [255; 255]) by reflexivity.
  unfold To4. rewrite E, length_app, !be_bytes_length. cbn [bool_decide decide]. 
  assert (L12 : length (be_bytes 12 x) = 12%nat) by apply be_bytes_length.
  destruct (Z.eqb_spec x 0xffff) as [->|Hne]; [rewrite E0; reflexivity|].
  destruct (bool_decide (take 10 _ = _)) eqn:T, (bool_decide (_ !! 10%nat = _)) eqn:T10, (bool_decide (_ !! 11%nat = _)) eqn:T11;
    try (rewrite ?andb_false_r; reflexivity).
  exfalso. apply Hne. apply bool_decide_eq_true in T, T10, T11.
  rewrite take_app_le in T by lia. rewrite lookup_app_l in T10, T11 by lia.
  apply (be_bytes_inj 12); [exact Hx|lia|]. rewrite E0, <- T.
  rewrite <- (take_drop 10 (be_bytes 12 x)) at 1. f_equal.
  rewrite (drop_S _ _ _ T10). f_equal. by rewrite (drop_S _ _ _ T11).
Qed.

(** The family tests agree with the decoded addresses. *)
Theorem IsIPv4_agrees p s d id : valid_endpoint s -> valid_endpoint d -> fits 8 p ->
  NewConnID p s d = Ret id ->
  IsSourceIPv4 id = Is4 (canon (ap_addr s)) /\ IsDestinationIPv4 id = Is4 (canon (ap_addr d)).
Proof.
  intros Vs Vd Hp E. pose proof (NewConnID_layout p s d Vs Vd) as HL. rewrite E in HL.
  destruct Vs as (Ws & Ns & Ps), Vd as (Wd & Nd & Pd).
  pose proof (same_size_spec _ _ Ws Wd Ns Nd) as H. destruct (same_size _ _) as [s' d']. injection HL as ->.
  destruct H as (Ws' & Wd' & <- & <- & [[Hs Hd]|(Hs & Hd & _)]).
  - destruct s' as [|v|v z]; try (discriminate Hs). destruct d' as [|u|u y]; try (discriminate Hd). split; reflexivity.
  - destruct s' as [|v|v z]; try (discriminate Hs). destruct d' as [|u|u y]; try (discriminate Hd).
    destruct (slices_layout 16 (Addr6 v z) (Addr6 u y) (ap_port s) (ap_port d) (u8 p)) as (H1 & _ & H3 & _); [reflexivity..|].
    change (16 + 2)%nat with 18%nat in H3. change (18 + 16)%nat with 34%nat in H3.
    unfold IsSourceIPv4, IsDestinationIPv4, areBothIPv4.
    change (length (layout (Addr6 v z) (Addr6 u y) (ap_port s) (ap_port d) (u8 p))) with 37%nat.
    rewrite H1, H3. cbn [mbind option_bind AsSlice Nat.eqb Nat.ltb Nat.leb orb andb].
    rewrite (To4_be16 v ""), (To4_be16 u "") by done. unfold canon. cbn [withoutZone Unmap].
    split; destruct (Is4In6 _); reflexivity.
Qed.

Lemma IsIPv4_agrees_witness :
  match NewConnID ProtoTCP ep4 ep6 with
  | Ret id => IsSourceIPv4 id = Is4 (canon (ap_addr ep4)) /\ IsDestinationIPv4 id = Is4 (canon (ap_addr ep6))
  | _ => False
  end.
Proof.
  destruct (NewConnID ProtoTCP ep4 ep6) as [id|e|] eqn:E; [|destruct e|vm_compute in E; discriminate].
  apply (IsIPv4_agrees ProtoTCP ep4 ep6 id); [split_and!; try decide_it; discriminate|split_and!; try decide_it; discriminate|decide_it|exact E].
Defined.
