(* ===== verification/Router.v ===== *)
(** * Routes and the router of the virtual device (src/pkg/routing/routing.go,
      src/pkg/routing/routing_unix.go, src/pkg/routing/routing_linux.go,
      src/pkg/vif/router.go)

    The host is a parameter: [Host W] has the calls that the code makes to the
    operating system on a state [W] (the routing tables, the interfaces, the
    device), each of them possibly failing.  The router logs such a failure and
    goes on, so an operation is modelled by the state it leaves. *)
From S2P Require Import Prelude NetIP Subnet Vip GoStrings.

(** ** Routes *)
Record Route := {
  InterfaceIndex : Z;
  InterfaceName : string;
  LocalIP : Addr;
  RoutedNet : Prefix;
  Gateway : Addr;
  DefaultR : bool
}.
Global Instance Route_eq_dec : EqDecision Route.
Proof. solve_decision. Defined.

Inductive route_error :=
  | ErrInconsistentRT
  | ErrReadTable
  | ErrNoDefaultRoute
  | ErrOsRoute
  | ErrNoRouteFor (sn : Prefix)
  | ErrOverlaps (r : Prefix) (tr : Route).

Definition IPv4Unspecified : Addr := Addr4 0.
Definition IPv6Unspecified : Addr := Addr6 0 "".
Definition IsUnspecified (a : Addr) : bool :=
  bool_decide (a = IPv4Unspecified) || bool_decide (a = IPv6Unspecified).

Definition NewRoute (rn : Prefix) (ifIdx : Z) (ifName : string) : Route :=
  let unSpec := if Is4 (pfx_Addr rn) then IPv4Unspecified else IPv6Unspecified in
  {| RoutedNet := Masked rn; InterfaceIndex := ifIdx; InterfaceName := ifName;
     LocalIP := unSpec; Gateway := unSpec; DefaultR := false |}.

Definition r_Routes (r : Route) (ip : Addr) : bool := p_Contains (RoutedNet r) ip.

(** ** The calls to the operating system *)
Class Host (W : Type) := {
  (** [getConsistentRoutingTable] at the given attempt *)
  h_table : W -> nat -> Go route_error (list Route);
  (** [getOsRoute]; it can return a nil route without an error *)
  h_osRoute : W -> Prefix -> Go route_error (option Route);
  (** [osCompareRoutes]: [None] is an error *)
  h_osCompare : W -> Route -> Route -> option bool;
  (** [Table.Add], [Table.Remove]: the flag tells success *)
  h_Add : W -> Route -> W * bool;
  h_Remove : W -> Route -> W * bool;
  (** [Device.AddSubnet], [Device.RemoveSubnet] where the device claims subnets *)
  h_AddSubnet : W -> Prefix -> W * bool;
  h_RemoveSubnet : W -> Prefix -> W * bool
}.

(** What does not change during a session: the platform, the device and the
    configured virtual subnet ([None] and invalid prefixes alike are "not set"). *)
Record Setting := {
  st_linux : bool;
  dev_Name : string;
  dev_Index : Z;                     (* uint32 *)
  cfg_VirtualSubnet : Prefix;
  DefaultVirtualSubnet : Prefix
}.

(** ** Reading routes *)
Section Reading.
Context {W : Type} `{Host W}.

Definition maxInconsistentRetries : nat := 3.
Fixpoint read_loop (w : W) (n i : nat) : Go route_error (list Route) :=
  match n with
  | O => Fail ErrInconsistentRT
  | S n => match h_table w i with
           | Fail ErrInconsistentRT => read_loop w n (S i)
           | r => r
           end
  end.
Definition GetRoutingTable (w : W) : Go route_error (list Route) := read_loop w maxInconsistentRetries 0.

Fixpoint first_default (rt : list Route) : option Route :=
  match rt with
  | [] => None
  | r :: rt => if DefaultR r then Some r else first_default rt
  end.
Definition DefaultRoute (w : W) : Go route_error Route :=
  rt ← GetRoutingTable w;
  match first_default rt with Some r => Ret r | None => Fail ErrNoDefaultRoute end.

(** [compareRoutes]; a nil [osRoute] is dereferenced. *)
Definition compareRoutes (w : W) (osRoute : option Route) (tableRoute : Route) : Go () bool :=
  match osRoute with
  | None => Panic
  | Some o => if InterfaceIndex o =? InterfaceIndex tableRoute then Ret true
              else match h_osCompare w o tableRoute with Some b => Ret b | None => Fail () end
  end.

Fixpoint get_route_loop (w : W) (osRoute : option Route) (routedNet : Prefix) (rt : list Route)
    (defaultRoute : option Route) : Go route_error Route :=
  match rt with
  | [] => match defaultRoute with Some d => Ret d | None => Fail (ErrNoRouteFor routedNet) end
  | r :: rt =>
      match compareRoutes w osRoute r with
      | Panic => Panic
      | Ret true =>
          if r_Routes r (pfx_Addr routedNet) then Ret r
          else get_route_loop w osRoute routedNet rt (if DefaultR r then Some r else defaultRoute)
      | Ret false | Fail _ => get_route_loop w osRoute routedNet rt defaultRoute
      end
  end.
Definition GetRoute (w : W) (routedNet : Prefix) : Go route_error Route :=
  osRoute ← h_osRoute w routedNet;
  rt ← GetRoutingTable w;
  get_route_loop w osRoute routedNet rt None.
End Reading.

(** The route that [mostSpecificRoute] picks: the longest one that contains [addr]
    and is neither a default, half a default, nor on [ourName]; the first of equals. *)
Definition msr_skip (addr : Addr) (ourName : string) (r : Route) : bool :=
  DefaultR r || IsHalfOfDefault (RoutedNet r) || bool_decide (InterfaceName r = ourName) ||
  negb (p_Contains (RoutedNet r) addr).
Definition msr_step (addr : Addr) (ourName : string) (best : option Route) (r : Route) : option Route :=
  if msr_skip addr ourName r then best
  else match best with
       | None => Some r
       | Some b => if pfx_Bits (RoutedNet b) <? pfx_Bits (RoutedNet r) then Some r else best
       end.
Definition mostSpecificRoute (table : list Route) (addr : Addr) (ourName : string) : option Route :=
  foldl (msr_step addr ourName) None table.

(** ** Building routes *)
Definition sameAddrFamily (addr candidate : Addr) : bool :=
  a_IsValid candidate && Bool.eqb (Is4 addr) (Is4 candidate).

Definition routeVia (sn : Prefix) (base : Route) : Route :=
  let r := NewRoute sn (InterfaceIndex base) (InterfaceName base) in
  {| RoutedNet := RoutedNet r; InterfaceIndex := InterfaceIndex r; InterfaceName := InterfaceName r;
     DefaultR := DefaultR r;
     Gateway := if sameAddrFamily (pfx_Addr sn) (Gateway base) then Gateway base else Gateway r;
     LocalIP := if sameAddrFamily (pfx_Addr sn) (LocalIP base) then LocalIP base else LocalIP r |}.
Definition routeViaDefault (sn : Prefix) (dr : Route) : Route := routeVia sn dr.

Definition is_digit_rune (c : Ascii.ascii) : bool :=
  let n := Z.of_N (Ascii.N_of_ascii c) in (48 <=? n) && (n <=? 57).
(** [strings.TrimRightFunc] on digits, one character at a time from the right. *)
Fixpoint devicePrefix (name : string) : string :=
  match name with
  | EmptyString => EmptyString
  | String c rest =>
      match devicePrefix rest with
      | EmptyString => if is_digit_rune c then EmptyString else String c EmptyString
      | p => String c p
      end
  end.
Definition sameDevicePrefix (a b : string) : bool := bool_decide (devicePrefix a = devicePrefix b).

(** ** The router *)
Record Router := {
  staticOverrides : list Route;
  routedSubnets : list Prefix;
  whitelistedSubnets : list Prefix;
  localDNSRoutes : list Prefix
}.
Definition NewRouter : Router :=
  {| staticOverrides := []; routedSubnets := []; whitelistedSubnets := []; localDNSRoutes := [] |}.
Definition GetRoutedSubnets (rt : Router) : list Prefix := routedSubnets rt.
Definition UpdateWhitelist (rt : Router) (whitelist : list Prefix) : Router :=
  {| staticOverrides := staticOverrides rt; routedSubnets := routedSubnets rt;
     whitelistedSubnets := whitelist; localDNSRoutes := localDNSRoutes rt |}.
Definition SetLocalDNSRoutes (rt : Router) (routes : list Prefix) : Router :=
  {| staticOverrides := staticOverrides rt; routedSubnets := routedSubnets rt;
     whitelistedSubnets := whitelistedSubnets rt; localDNSRoutes := routes |}.
Definition set_routes (rt : Router) (over : list Route) (routed : list Prefix) : Router :=
  {| staticOverrides := over; routedSubnets := routed;
     whitelistedSubnets := whitelistedSubnets rt; localDNSRoutes := localDNSRoutes rt |}.

Definition contains_pfx (l : list Prefix) (p : Prefix) : bool := bool_decide (p ∈ l).

Section Router.
Context {W : Type} `{Host W} (st : Setting).

(** The routes that [ValidateRoutes] does not look at: whitelisted, or already there. *)
Definition settled (rt : Router) (table : list Route) (r : Prefix) : bool :=
  existsb (fun w => Covers w r) (whitelistedSubnets rt) ||
  existsb (fun er => bool_decide (r = RoutedNet er) && bool_decide (InterfaceName er = dev_Name st)) table.

(** The table routes that may be overlapped. *)
Definition overlap_allowed (tr : Route) : bool :=
  let vipSubnet := cfg_VirtualSubnet st in
  let ownedRange := (p_IsValid vipSubnet && p_Overlaps vipSubnet (RoutedNet tr)) ||
                    p_Overlaps TelepresenceULA6 (RoutedNet tr) in
  (pfx_Bits (RoutedNet tr) =? 0) || DefaultR tr || IsHalfOfDefault (RoutedNet tr) ||
  bool_decide (InterfaceName tr = dev_Name st) ||
  (ownedRange && sameDevicePrefix (InterfaceName tr) (dev_Name st)).

Fixpoint overlap_search (table : list Route) (routes : list Prefix) : option (Prefix * Route) :=
  match table with
  | [] => None
  | tr :: table =>
      if overlap_allowed tr then overlap_search table routes
      else match list_find (fun r => p_Overlaps (RoutedNet tr) r = true) routes with
           | Some (_, r) => Some (r, tr)
           | None => overlap_search table routes
           end
  end.

Definition ValidateRoutes (rt : Router) (w : W) (routes : list Prefix) : Go route_error () :=
  table ← GetRoutingTable w;
  match overlap_search table (filter (fun r => settled rt table r = false) routes) with
  | Some (r, tr) => Fail (ErrOverlaps r tr)
  | None => Ret tt
  end.

Definition Routes (rt : Router) (addr : Addr) : bool :=
  existsb (fun sn => p_Contains sn addr) (routedSubnets rt) &&
  negb (existsb (fun rn => p_Contains (RoutedNet rn) addr &&
                           negb (wrap 32 (InterfaceIndex rn) =? dev_Index st)) (staticOverrides rt)).

Definition subnetRoute (sn : Prefix) : Route :=
  let r := NewRoute sn (dev_Index st) (dev_Name st) in
  match ownedAddress (cfg_VirtualSubnet st) (DefaultVirtualSubnet st) (Is4 (pfx_Addr sn)) (dev_Index st) with
  | Some owned => {| RoutedNet := RoutedNet r; InterfaceIndex := InterfaceIndex r;
                     InterfaceName := InterfaceName r; LocalIP := owned; Gateway := Gateway r;
                     DefaultR := DefaultR r |}
  | None => r
  end.

(** [osRoute]: [None] when the host has no answer or routes through our device. *)
Definition osRoute (w : W) (sn : Prefix) : Go () (option Route) :=
  match GetRoute w sn with
  | Panic => Panic
  | Fail _ => Ret None
  | Ret existing =>
      if (InterfaceIndex existing =? dev_Index st) || bool_decide (InterfaceName existing = dev_Name st)
      then Ret None else Ret (Some existing)
  end.

(** [existingRoute]; reading the table does not panic in the sources. *)
Definition existingRoute (w : W) (addr : Addr) : option Route :=
  match GetRoutingTable w with
  | Ret table => mostSpecificRoute table addr (dev_Name st)
  | _ => None
  end.

Definition routeViaExisting (w : W) (sn : Prefix) (dr : Route) : Go () Route :=
  o ← osRoute w sn;
  match o with
  | Some existing => Ret (routeVia sn existing)
  | None => match existingRoute w (pfx_Addr sn) with
            | Some existing => Ret (routeVia sn existing)
            | None => Ret (routeViaDefault sn dr)
            end
  end.

Definition createRoutesDelta (rt : Router) (rs : list Route) : list Route * list Route :=
  (filter (fun r => (r ∉ staticOverrides rt)) rs, filter (fun r => (r ∉ rs)) (staticOverrides rt)).

Definition add_routes (w : W) (rs : list Route) : W := foldl (fun w r => (h_Add w r).1) w rs.
Definition remove_routes (w : W) (rs : list Route) : W := foldl (fun w r => (h_Remove w r).1) w rs.

Definition dropStaticOverrides (rt : Router) (w : W) : Router * W :=
  (set_routes rt [] (routedSubnets rt), remove_routes w (staticOverrides rt)).

(** Subnets taken from and given to the device or, on Linux, the policy table. *)
Definition remove_subnet (w : W) (sn : Prefix) : W :=
  if st_linux st then (h_Remove w (subnetRoute sn)).1 else (h_RemoveSubnet w sn).1.
Definition add_subnet (w : W) (sn : Prefix) : W :=
  if st_linux st then (h_Add w (subnetRoute sn)).1 else (h_AddSubnet w sn).1.

(** The route for a never-proxied subnet. *)
Definition never_route (rt : Router) (w : W) (dr : Route) (sn : Prefix) : Go () Route :=
  if contains_pfx (localDNSRoutes rt) sn then routeViaExisting w sn dr
  else Ret (routeViaDefault sn dr).
Fixpoint never_routes (rt : Router) (w : W) (dr : Route) (sns : list Prefix) : Go () (list Route) :=
  match sns with
  | [] => Ret []
  | sn :: sns => r ← never_route rt w dr sn; rs ← never_routes rt w dr sns; Ret (r :: rs)
  end.

Inductive update_result := Updated | UpdateError (e : route_error) | UpdatePanic.

Definition UpdateRoutes (rt : Router) (w : W) (pleaseProxy dontProxy dontProxyOverrides : list Prefix) :
    Router * W * update_result :=
  let '(rt, w) := dropStaticOverrides rt w in
  let '(kept, removed) := Partition (routedSubnets rt) (fun _ sn => contains_pfx pleaseProxy sn) in
  let added := filter (fun sn => contains_pfx kept sn = false) pleaseProxy in
  let rt := set_routes rt (staticOverrides rt) (kept ++ added) in
  let w := foldl remove_subnet w removed in
  let w := foldl add_subnet w added in
  match DefaultRoute w with
  | Panic => (rt, w, UpdatePanic)
  | Fail e => (rt, w, UpdateError e)
  | Ret dr =>
      match never_routes rt w dr dontProxy with
      | Panic | Fail _ => (rt, w, UpdatePanic)
      | Ret never =>
          let staticRoutes :=
            never ++ ((fun sn => NewRoute sn (dev_Index st) (dev_Name st)) <$> dontProxyOverrides) in
          let '(addRts, removeRts) := createRoutesDelta rt staticRoutes in
          let w := add_routes w addRts in
          let w := remove_routes w removeRts in
          (set_routes rt staticRoutes (routedSubnets rt), w, Updated)
      end
  end.

Definition rt_Close (rt : Router) (w : W) : Router * W :=
  dropStaticOverrides rt (foldl remove_subnet w (routedSubnets rt)).
End Router.

(** ** The policy table of Linux *)
Record Rule := { rule_Table : Z; rule_Priority : Z }.
Definition rule_table_le (a b : Rule) : Prop := rule_Table a <= rule_Table b.
Global Instance rule_table_le_dec : RelDecision rule_table_le.
Proof. intros a b. unfold rule_table_le. apply _. Defined.

Definition open_step (acc : Z * Z) (rule : Rule) : Z * Z :=
  let '(index, priority) := acc in
  if (rule_Table rule =? 0) || (rule_Table rule =? 255) then (index, priority)
  else
    let priority := if rule_Priority rule <=? priority then rule_Priority rule - 1 else priority in
    let index := if rule_Table rule =? index then index + 1 else index in
    (index, priority).
(** Table index and rule priority that [openTable] picks from the rules of the host. *)
Definition openTable (rules : list Rule) : Z * Z :=
  foldl open_step (775, 32766) (merge_sort rule_table_le rules).

(** [RouteToNetlink]: the gateway and the source are given only when specified. *)
Record NetlinkRoute := { nl_Dst : option (list Z * list Z); nl_Table : Z; nl_LinkIndex : Z;
  nl_Gw : option (list Z); nl_Src : option (list Z) }.
Definition specified (a : Addr) : option (list Z) :=
  if a_IsValid a && negb (IsUnspecified a) then Some (AsSlice a) else None.
Definition RouteToNetlink (index : Z) (route : Route) : NetlinkRoute :=
  {| nl_Dst := PrefixToIPNet (RoutedNet route); nl_Table := index; nl_LinkIndex := InterfaceIndex route;
     nl_Gw := specified (Gateway route); nl_Src := specified (LocalIP route) |}.
