(* ===== verification/RouterSpec.v ===== *)
(** * What the router promises (src/pkg/vif/router.go, src/pkg/routing)

    The policy table of the host is a finite map from networks to routes
    ([HostLaws]).  [UpdateRoutes] makes it exactly the routes it is asked for and
    [rt_Close] empties it; [Routes] is sound for longest-prefix routing through that
    table but not complete; [mostSpecificRoute] is a longest match; [openTable] picks
    a free table that is consulted first. *)
From S2P Require Import Prelude NetIP Subnet SubnetSpec Vip GoStrings Router.

(** ** The routing table of the host

    A route is added when its network has none, is refused when there is one
    already, and a route is removed by giving exactly that route. *)
Class HostLaws (W : Type) `{Host W} := {
  h_routes : W -> gmap Prefix Route;
  add_free w r : h_routes w !! RoutedNet r = None ->
    h_routes (h_Add w r).1 = <[RoutedNet r := r]> (h_routes w);
  add_taken w r : is_Some (h_routes w !! RoutedNet r) -> h_routes (h_Add w r).1 = h_routes w;
  remove_same w r : h_routes w !! RoutedNet r = Some r ->
    h_routes (h_Remove w r).1 = delete (RoutedNet r) (h_routes w);
  remove_absent w r : h_routes w !! RoutedNet r = None -> h_routes (h_Remove w r).1 = h_routes w
}.

(** A list of routes with one route for each network. *)
Definition functional (l : list Route) : Prop :=
  forall r r', r ∈ l -> r' ∈ l -> RoutedNet r = RoutedNet r' -> r = r'.

(** No two subnets of the list are the same network with different host bits. *)
Definition mask_inj (l : list Prefix) : Prop :=
  forall p q, p ∈ l -> q ∈ l -> Masked p = Masked q -> p = q.
Lemma mask_inj_sub l k : mask_inj l -> (forall p, p ∈ k -> p ∈ l) -> mask_inj k.
Proof. intros H Hs p q ? ?. apply H; by apply Hs. Qed.

Lemma mask_inj_Forall l : Forall (fun p => Forall (fun q => Masked p = Masked q -> p = q) l) l -> mask_inj l.
Proof. intros H p q Hp Hq. rewrite Forall_forall in H. specialize (H p Hp). rewrite Forall_forall in H. by apply H. Qed.

Lemma Masked_Bits p : pfx_wf p -> pfx_Bits (Masked p) = pfx_Bits p.
Proof.
  intros (_ & _ & [E|[Hb Hn]]); unfold Masked, a_Prefix.
  - by rewrite E.
  - destruct (Z.ltb_spec (pfx_Bits p) 0); [lia|]. destruct (pfx_Addr p) as [|v|v z]; [done|..]; cbn [BitLen] in Hb.
    + destruct (Z.ltb_spec 32 (pfx_Bits p)); [lia|]. cbn.
      by destruct (Z.leb_spec 0 (pfx_Bits p)), (Z.leb_spec (pfx_Bits p) 32); try lia.
    + destruct (Z.ltb_spec 128 (pfx_Bits p)); [lia|]. cbn.
      by destruct (Z.leb_spec 0 (pfx_Bits p)), (Z.leb_spec (pfx_Bits p) 128); try lia.
Qed.
Lemma Masked_Contains p a : pfx_wf p -> p_Contains (Masked p) a = p_Contains p a.
Proof.
  intros Hw. pose proof (Masked_Bits p Hw) as HB. unfold p_Contains, p_IsValid. rewrite HB.
  destruct (Z.leb_spec 0 (pfx_Bits p)) as [Hv|Hv]; [|done].
  destruct (Masked_val p Hw) as (-> & _ & _); [by apply Z.leb_le|].
  destruct Hw as (_ & _ & [E|[Hb Hn]]); [lia|]. f_equal. unfold bottom, with_val.
  destruct (pfx_Addr p) as [|v|v z]; [done|..]; destruct a as [|u|u y]; try done; cbn [BitLen addr_val Is4] in *;
    by rewrite keep_top_shiftr by lia.
Qed.
Lemma Masked_wf p : pfx_wf p -> pfx_wf (Masked p).
Proof.
  intros Hw. pose proof (Masked_Bits p Hw) as HB. destruct (p_IsValid p) eqn:V.
  - destruct (Masked_val p Hw V) as (E & Ha & _). destruct (valid_bits p Hw V) as [Hb Hn].
    destruct Hw as (Hw1 & Hz & _). unfold pfx_wf. rewrite E, HB in *. unfold with_val in *.
    destruct (pfx_Addr p); [done|..]; (split_and!; [done|done|by right]).
  - unfold Masked, a_Prefix. unfold p_IsValid in V. apply Z.leb_gt in V.
    destruct (Z.ltb_spec (pfx_Bits p) 0); [|lia]. cbn. by split_and!; [done|done|left].
Qed.

Lemma functional_sub (l k : list Route) : functional l -> (forall r, r ∈ k -> r ∈ l) -> functional k.
Proof. intros H Hs r r' ? ?. apply H; by apply Hs. Qed.

Section Table.
Context {W : Type} `{HostLaws W}.

(** The table holds exactly the routes of [l]. *)
Definition holds (w : W) (l : list Route) : Prop :=
  forall k r, h_routes w !! k = Some r <-> r ∈ l /\ RoutedNet r = k.

Lemma holds_ext (w : W) l l' : (forall r, r ∈ l <-> r ∈ l') -> holds w l -> holds w l'.
Proof. intros E Hw k r. rewrite (Hw k r). by rewrite E. Qed.

Lemma holds_lookup_None (w : W) l r : holds w l ->
  h_routes w !! RoutedNet r = None <-> forall r', r' ∈ l -> RoutedNet r' <> RoutedNet r.
Proof.
  intros Hw. split.
  - intros E r' Hr' Hk. assert (h_routes w !! RoutedNet r = Some r') as E' by (by apply Hw). congruence.
  - intros Hn. apply eq_None_not_Some. intros [r' [Hr' E]%Hw]. by apply (Hn r').
Qed.

Lemma holds_Add (w : W) l r : holds w l -> functional (l ++ [r]) -> holds (h_Add w r).1 (l ++ [r]).
Proof.
  intros Hw Hf. destruct (h_routes w !! RoutedNet r) as [r0|] eqn:E.
  - assert (r0 = r) as -> by (apply Hw in E as [? ?]; apply Hf; set_solver).
    intros k x. rewrite add_taken by (by rewrite E). rewrite (Hw k x). apply Hw in E as [Hin _]. set_solver.
  - intros k x. rewrite add_free by done. destruct (decide (k = RoutedNet r)) as [->|Hk].
    + rewrite lookup_insert_eq. split.
      * intros [= ->]. set_solver.
      * intros [[Hx|Hx]%elem_of_app Ex].
        -- pose proof (proj1 (holds_lookup_None w l r Hw) E x Hx). done.
        -- apply list_elem_of_singleton in Hx. by subst.
    + rewrite lookup_insert_ne by done. rewrite (Hw k x). split; [set_solver|].
      intros [[Hx|Hx]%elem_of_app Ex]; [done|]. apply list_elem_of_singleton in Hx. by subst.
Qed.

Lemma holds_add_routes (w : W) l rs : holds w l -> functional (l ++ rs) -> holds (add_routes w rs) (l ++ rs).
Proof.
  revert w l. induction rs as [|r rs IH]; intros w l Hw Hf; [by rewrite app_nil_r|].
  change (r :: rs) with ([r] ++ rs). rewrite app_assoc.
  cbn [add_routes foldl app]. apply IH; [|by rewrite <- app_assoc].
  apply holds_Add; [done|]. eapply functional_sub; [exact Hf|]. set_solver.
Qed.

Lemma holds_Remove (w : W) l r : holds w l -> functional (r :: l) ->
  holds (h_Remove w r).1 (filter (fun x => x <> r) l).
Proof.
  intros Hw Hf. destruct (h_routes w !! RoutedNet r) as [r0|] eqn:E.
  - assert (r0 = r) as -> by (apply Hw in E as [? ?]; apply Hf; set_solver).
    intros k x. rewrite remove_same by done. rewrite lookup_delete_Some, (Hw k x), list_elem_of_filter.
    split.
    + intros (Hk & Hx & Ex). split_and!; [|done|done]. intros ->. done.
    + intros ((Hne & Hx) & Ex). split_and!; [|done|done]. intros Ek. apply Hne.
      apply Hf; [set_solver|set_solver|congruence].
  - intros k x. rewrite remove_absent by done. rewrite (Hw k x), list_elem_of_filter.
    pose proof (proj1 (holds_lookup_None w l r Hw) E) as Hn. naive_solver.
Qed.

Lemma holds_remove_routes (w : W) l rs : holds w l -> functional (rs ++ l) ->
  holds (remove_routes w rs) (filter (fun x => (x ∉ rs)) l).
Proof.
  revert w l. induction rs as [|r rs IH]; intros w l Hw Hf.
  { cbn [remove_routes foldl]. eapply holds_ext, Hw. intros x. rewrite list_elem_of_filter. set_solver. }
  change (remove_routes w (r :: rs)) with (remove_routes (h_Remove w r).1 rs).
  apply (holds_ext _ (filter (fun x => (x ∉ rs)) (filter (fun x => x <> r) l))).
  { intros x. rewrite !list_elem_of_filter. set_solver. }
  apply IH.
  - apply holds_Remove; [done|]. eapply functional_sub; [exact Hf|]. set_solver.
  - eapply functional_sub; [exact Hf|]. intros x. rewrite !elem_of_app, list_elem_of_filter. set_solver.
Qed.
End Table.

(** ** Partition *)
Lemma partition_loop_spec {T} (f : nat -> T -> bool) (g : T -> bool) i l m n :
  (forall i x, f i x = g x) ->
  partition_loop i l f m n =
  (m ++ filter (fun x => g x = true) l, n ++ filter (fun x => g x = false) l).
Proof.
  intros E. revert i m n. induction l as [|x l IH]; intros i m n; cbn [partition_loop].
  { by rewrite !app_nil_r. }
  rewrite E. destruct (g x) eqn:G; rewrite IH.
  - rewrite filter_cons_True, filter_cons_False by congruence. by rewrite <- app_assoc.
  - rewrite filter_cons_False, filter_cons_True by congruence. by rewrite <- app_assoc.
Qed.
Lemma Partition_spec {T} (f : nat -> T -> bool) (g : T -> bool) l : (forall i x, f i x = g x) ->
  Partition l f = (filter (fun x => g x = true) l, filter (fun x => g x = false) l).
Proof. intros E. unfold Partition. by rewrite (partition_loop_spec f g). Qed.

(** ** The most specific route *)
Lemma msr_spec addr ourName table best b : foldl (msr_step addr ourName) best table = Some b ->
  (best = Some b \/ (b ∈ table /\ msr_skip addr ourName b = false)) /\
  (forall r, r ∈ table -> msr_skip addr ourName r = false -> pfx_Bits (RoutedNet r) <= pfx_Bits (RoutedNet b)) /\
  (forall b0, best = Some b0 -> pfx_Bits (RoutedNet b0) <= pfx_Bits (RoutedNet b)).
Proof.
  revert best. induction table as [|r table IH]; intros best; cbn [foldl].
  { intros ->. split_and!; [by left|set_solver|]. intros b0 [= ->]. lia. }
  unfold msr_step at 2. destruct (msr_skip addr ourName r) eqn:Sk.
  { intros (H1 & H2 & H3)%IH. split_and!; [set_solver| |done].
    intros x [->|Hx]%elem_of_cons; [congruence|by apply H2]. }
  intros E. destruct best as [b0|]; [destruct (Z.ltb_spec (pfx_Bits (RoutedNet b0)) (pfx_Bits (RoutedNet r)))|];
    apply IH in E as (H1 & H2 & H3);
    (split_and!;
     [set_solver
     |intros x [->|Hx]%elem_of_cons Hs; [try by apply H3|by apply H2]
     |intros ? [= <-]; try by apply H3]).
  - specialize (H3 r eq_refl). lia.
  - specialize (H3 b0 eq_refl). lia.
Qed.

Lemma msr_None addr ourName table best : foldl (msr_step addr ourName) best table = None ->
  best = None /\ forall r, r ∈ table -> msr_skip addr ourName r = true.
Proof.
  revert best. induction table as [|r table IH]; intros best; cbn [foldl]; [set_solver|].
  intros (E & Hs)%IH. unfold msr_step in E.
  destruct (msr_skip addr ourName r) eqn:Sk; [set_solver|].
  destruct best; [by case_match|done].
Qed.

Lemma mostSpecificRoute_spec table addr ourName :
  match mostSpecificRoute table addr ourName with
  | Some b => b ∈ table /\ msr_skip addr ourName b = false /\
      forall r, r ∈ table -> msr_skip addr ourName r = false -> pfx_Bits (RoutedNet r) <= pfx_Bits (RoutedNet b)
  | None => forall r, r ∈ table -> msr_skip addr ourName r = true
  end.
Proof.
  unfold mostSpecificRoute. destruct (foldl _ None table) as [b|] eqn:E.
  - apply msr_spec in E as ([?|[? ?]] & ? & _); [done|by split_and!].
  - by apply msr_None in E as [_ ?].
Qed.

(** [mostSpecificRoute] returns a longest route of the table that contains the
    address, among those that are neither a default route, nor half of one, nor on
    the given interface; it returns nil exactly when there is no such route. *)
Theorem mostSpecificRoute_longest table addr ourName :
  match mostSpecificRoute table addr ourName with
  | Some b => b ∈ table /\ msr_skip addr ourName b = false /\
      forall r, r ∈ table -> msr_skip addr ourName r = false -> pfx_Bits (RoutedNet r) <= pfx_Bits (RoutedNet b)
  | None => forall r, r ∈ table -> msr_skip addr ourName r = true
  end.
Proof. apply mostSpecificRoute_spec. Qed.

(** ** Updating routes *)
Lemma subnetRoute_net st sn : RoutedNet (subnetRoute st sn) = Masked sn.
Proof. unfold subnetRoute. by case_match. Qed.
Lemma subnetRoute_index st sn : InterfaceIndex (subnetRoute st sn) = dev_Index st.
Proof. unfold subnetRoute. by case_match. Qed.

Section Update.
Context {W : Type} `{HostLaws W} (st : Setting).

(** The interfaces of the host: names and indexes correspond, and the default
    route is not on the device. *)
Definition host_sane : Prop := forall (w : W) rt r, GetRoutingTable w = Ret rt -> r ∈ rt ->
  (InterfaceName r = dev_Name st <-> InterfaceIndex r = dev_Index st) /\
  (DefaultR r = true -> InterfaceIndex r <> dev_Index st).

(** The router's books agree with the table of the host. *)
Record router_inv (rt : Router) (w : W) : Prop := {
  ri_holds : holds w ((subnetRoute st <$> routedSubnets rt) ++ staticOverrides rt);
  ri_masked : mask_inj (routedSubnets rt);
  ri_apart : forall r sn, r ∈ staticOverrides rt -> sn ∈ routedSubnets rt -> RoutedNet r <> Masked sn;
  ri_functional : functional (staticOverrides rt)
}.

Lemma elem_of_subnet_routes (l : list Prefix) r : r ∈ subnetRoute st <$> l <-> exists sn, sn ∈ l /\ r = subnetRoute st sn.
Proof. rewrite list_elem_of_fmap. naive_solver. Qed.

Lemma functional_routes l over : mask_inj l -> functional over ->
  (forall r sn, r ∈ over -> sn ∈ l -> RoutedNet r <> Masked sn) -> functional ((subnetRoute st <$> l) ++ over).
Proof.
  intros Hm Hf Ha r r' [Hr|Hr]%elem_of_app [Hr'|Hr']%elem_of_app E.
  - apply elem_of_subnet_routes in Hr as (sn & Hr & ->), Hr' as (sn' & Hr' & ->).
    rewrite !subnetRoute_net in E. by rewrite (Hm sn sn').
  - apply elem_of_subnet_routes in Hr as (sn & Hr & ->). rewrite subnetRoute_net in E. by destruct (Ha r' sn).
  - apply elem_of_subnet_routes in Hr' as (sn & Hr' & ->). rewrite subnetRoute_net in E. by destruct (Ha r sn).
  - by apply Hf.
Qed.

Lemma drop_inv rt w : router_inv rt w ->
  router_inv (dropStaticOverrides rt w).1 (dropStaticOverrides rt w).2.
Proof.
  intros [Hh Hm Ha Hf]. split; cbn [dropStaticOverrides fst snd set_routes routedSubnets staticOverrides];
    [|done|set_solver|by intros ? ? ?%elem_of_nil].
  eapply holds_ext; [|apply holds_remove_routes; [exact Hh|]].
  - intros r. rewrite list_elem_of_filter, !elem_of_app, elem_of_nil. split.
    + intros [Hn [Hr|Hr]]; [by left|done].
    + intros [Hr|[]]. split; [|by left]. intros Hn.
      apply elem_of_subnet_routes in Hr as (sn & Hr & ->). apply (Ha _ sn Hn Hr). apply subnetRoute_net.
  - eapply functional_sub; [by eapply functional_routes|]. set_solver.
Qed.

Context (Hlinux : st_linux st = true).

Lemma foldl_remove_subnet sns (w : W) : foldl (remove_subnet st) w sns = remove_routes w (subnetRoute st <$> sns).
Proof.
  revert w. induction sns as [|sn sns IH]; intros w; [done|]. cbn [foldl fmap list_fmap]. rewrite IH.
  unfold remove_subnet. by rewrite Hlinux.
Qed.
Lemma foldl_add_subnet sns (w : W) : foldl (add_subnet st) w sns = add_routes w (subnetRoute st <$> sns).
Proof.
  revert w. induction sns as [|sn sns IH]; intros w; [done|]. cbn [foldl fmap list_fmap]. rewrite IH.
  unfold add_subnet. by rewrite Hlinux.
Qed.

(** Closing the router leaves no route of its own on the host. *)
Lemma Close_holds rt w : router_inv rt w ->
  holds (rt_Close st rt w).2 [] /\ staticOverrides (rt_Close st rt w).1 = [].
Proof.
  intros [Hh Hm Ha Hf]. split; [|done]. cbn [rt_Close dropStaticOverrides snd]. rewrite foldl_remove_subnet.
  pose proof (functional_routes _ _ Hm Hf Ha) as HF.
  eapply holds_ext; [|apply holds_remove_routes; [apply holds_remove_routes; [exact Hh|]|]].
  - intros r. rewrite !list_elem_of_filter, elem_of_app. set_solver.
  - eapply functional_sub; [exact HF|]. set_solver.
  - eapply functional_sub; [exact HF|]. intros r. rewrite elem_of_app, list_elem_of_filter. set_solver.
Qed.

Lemma contains_pfx_true l p : contains_pfx l p = true <-> p ∈ l.
Proof. apply bool_decide_eq_true. Qed.
Lemma contains_pfx_false l p : contains_pfx l p = false <-> (p ∉ l).
Proof. apply bool_decide_eq_false. Qed.

(** The subnets to keep, to remove and to add. *)
Definition kept_of (rt : Router) (pp : list Prefix) := filter (fun sn => contains_pfx pp sn = true) (routedSubnets rt).
Definition removed_of (rt : Router) (pp : list Prefix) := filter (fun sn => contains_pfx pp sn = false) (routedSubnets rt).
Definition added_of (rt : Router) (pp : list Prefix) := filter (fun sn => contains_pfx (kept_of rt pp) sn = false) pp.

Lemma elem_of_kept rt pp sn : sn ∈ kept_of rt pp <-> sn ∈ pp /\ sn ∈ routedSubnets rt.
Proof. unfold kept_of. by rewrite list_elem_of_filter, contains_pfx_true. Qed.
Lemma elem_of_removed rt pp sn : sn ∈ removed_of rt pp <-> (sn ∉ pp) /\ sn ∈ routedSubnets rt.
Proof. unfold removed_of. by rewrite list_elem_of_filter, contains_pfx_false. Qed.
Lemma elem_of_added rt pp sn : sn ∈ added_of rt pp <-> (sn ∉ kept_of rt pp) /\ sn ∈ pp.
Proof. unfold added_of. by rewrite list_elem_of_filter, contains_pfx_false. Qed.
Lemma elem_of_now_routed rt pp sn : sn ∈ kept_of rt pp ++ added_of rt pp <-> sn ∈ pp.
Proof.
  rewrite elem_of_app, elem_of_added, elem_of_kept.
  destruct (decide (sn ∈ routedSubnets rt)), (decide (sn ∈ pp)); naive_solver.
Qed.

Lemma swap_inv rt w pp : router_inv rt w -> staticOverrides rt = [] -> mask_inj pp ->
  router_inv (set_routes rt [] (kept_of rt pp ++ added_of rt pp))
    (foldl (add_subnet st) (foldl (remove_subnet st) w (removed_of rt pp)) (added_of rt pp)).
Proof.
  intros [Hh Hm _ _] Ho Hp. rewrite Ho, app_nil_r in Hh.
  rewrite foldl_add_subnet, foldl_remove_subnet.
  assert (HF : forall l, mask_inj l -> functional (subnetRoute st <$> l)).
  { intros l Hl. rewrite <- (app_nil_r (_ <$> _)). apply functional_routes; [done|by intros ? ? ?%elem_of_nil|set_solver]. }
  assert (Hnow : mask_inj (kept_of rt pp ++ added_of rt pp)).
  { eapply mask_inj_sub; [exact Hp|]. intros sn. apply elem_of_now_routed. }
  split; cbn [set_routes routedSubnets staticOverrides]; [|done|set_solver|by intros ? ? ?%elem_of_nil].
  rewrite app_nil_r, fmap_app. eapply holds_ext; [|apply holds_add_routes].
  2:{ apply holds_remove_routes; [exact Hh|]. eapply functional_sub; [apply (HF _ Hm)|].
      intros r. rewrite elem_of_app, !elem_of_subnet_routes. setoid_rewrite elem_of_removed. naive_solver. }
  - assert (Hk : forall r, r ∈ filter (fun x => (x ∉ subnetRoute st <$> removed_of rt pp)) (subnetRoute st <$> routedSubnets rt) <->
                 r ∈ subnetRoute st <$> kept_of rt pp).
    { intros r. rewrite list_elem_of_filter, !elem_of_subnet_routes. setoid_rewrite elem_of_kept.
      setoid_rewrite elem_of_removed. split.
      - intros [Hno (sn & Hs & ->)]. exists sn. split; [|done]. split; [|done].
        destruct (decide (sn ∈ pp)); [done|]. destruct Hno. by exists sn.
      - intros (sn & [Hs1 Hs2] & ->). split; [|by exists sn]. intros (sn' & [Hn Hs'] & E).
        destruct Hn. rewrite <- (Hm sn sn'); [done|done|done|]. by rewrite <- !(subnetRoute_net st), E. }
    intros r. rewrite !elem_of_app, Hk. done.
  - eapply functional_sub; [apply (HF _ Hnow)|]. intros r. rewrite fmap_app, !elem_of_app. intros [Hr|Hr]; [left|by right].
    apply list_elem_of_filter in Hr as [Hno Hr]. apply elem_of_subnet_routes in Hr as (sn & Hs & ->).
    apply elem_of_subnet_routes. exists sn. split; [|done]. apply elem_of_kept. split; [|done].
    destruct (decide (sn ∈ pp)); [done|]. destruct Hno. apply elem_of_subnet_routes. exists sn.
    split; [by apply elem_of_removed|done].
Qed.

(** ** Never-proxied subnets *)
Lemma GetRoutingTable_GetRoute (w : W) sn r : GetRoute w sn = Ret r -> exists rt, GetRoutingTable w = Ret rt /\ r ∈ rt.
Proof.
  unfold GetRoute. destruct (h_osRoute w sn) as [o| |]; cbn [mbind go_bind]; [|done|done].
  destruct (GetRoutingTable w) as [rt| |]; cbn [mbind go_bind]; [|done|done]. intros E. exists rt. split; [done|].
  enough (forall d, get_route_loop w o sn rt d = Ret r -> r ∈ rt \/ d = Some r) as Hl.
  { apply Hl in E as [?|?]; done. }
  clear E. induction rt as [|x rt IH]; intros d; cbn [get_route_loop].
  { destruct d; [|done]. intros [= ->]. by right. }
  destruct (compareRoutes w o x) as [[]| |]; [destruct (r_Routes x _)| | |done].
  - intros [= ->]. left. apply list_elem_of_here.
  - intros [?|E]%IH; [left; by apply list_elem_of_further|]. destruct (DefaultR x); [|by right].
    injection E as ->. left. apply list_elem_of_here.
  - intros [?|E]%IH; [left; by apply list_elem_of_further|by right].
  - intros [?|E]%IH; [left; by apply list_elem_of_further|by right].
Qed.

Lemma DefaultRoute_in (w : W) dr : DefaultRoute w = Ret dr ->
  exists rt, GetRoutingTable w = Ret rt /\ dr ∈ rt /\ DefaultR dr = true.
Proof.
  unfold DefaultRoute. destruct (GetRoutingTable w) as [rt| |]; cbn [mbind go_bind]; [|done|done].
  intros E. exists rt. split; [done|]. induction rt as [|x rt IH]; cbn [first_default] in E; [done|].
  destruct (DefaultR x) eqn:D.
  - injection E as ->. split; [apply list_elem_of_here|done].
  - destruct (IH E). split; [by apply list_elem_of_further|done].
Qed.

Context (Hsane : host_sane).

(** A never-proxied subnet is routed through an interface that is not the device. *)
Definition bypass (sn : Prefix) (r : Route) : Prop :=
  exists base, r = routeVia sn base /\ InterfaceIndex base <> dev_Index st.

Lemma bypass_net sn r : bypass sn r -> RoutedNet r = Masked sn.
Proof. by intros (b & -> & _). Qed.
Lemma bypass_index sn r : bypass sn r -> InterfaceIndex r <> dev_Index st.
Proof. by intros (b & -> & Hb). Qed.

Lemma existing_bypass (w : W) dr sn r : InterfaceIndex dr <> dev_Index st ->
  match existingRoute st w (pfx_Addr sn) with
  | Some existing => Ret (E:=()) (routeVia sn existing)
  | None => Ret (routeVia sn dr)
  end = Ret r -> bypass sn r.
Proof.
  intros Hdr. unfold existingRoute. intros E. destruct (GetRoutingTable w) as [t| |] eqn:Ht.
  2,3: by injection E as <-; exists dr.
  pose proof (mostSpecificRoute_spec t (pfx_Addr sn) (dev_Name st)) as Hm.
  destruct (mostSpecificRoute t _ _) as [b|]; injection E as <-; [|by exists dr].
  destruct Hm as (Hin & Sk & _). exists b. split; [done|].
  intros Hi. apply (proj1 (Hsane w t b Ht Hin)) in Hi. unfold msr_skip in Sk. bools. done.
Qed.

Lemma never_route_bypass rt (w : W) dr sn r : DefaultRoute w = Ret dr -> never_route st rt w dr sn = Ret r -> bypass sn r.
Proof.
  intros Hd. assert (InterfaceIndex dr <> dev_Index st) as Hdr.
  { apply DefaultRoute_in in Hd as (t & Ht & Hin & D). by apply (Hsane w t dr Ht Hin). }
  unfold never_route, routeViaExisting, routeViaDefault. destruct (contains_pfx _ sn).
  2:{ intros [= <-]. by exists dr. }
  unfold osRoute. destruct (GetRoute w sn) as [x| |] eqn:G; cbn [mbind go_bind]; [|by apply existing_bypass|done].
  destruct (InterfaceIndex x =? dev_Index st) eqn:Ei; cbn [orb mbind go_bind]; [by apply existing_bypass|].
  case_bool_decide as En; cbn [mbind go_bind].
  - apply GetRoutingTable_GetRoute in G as (t & Ht & Hin). apply (proj1 (Hsane w t x Ht Hin)) in En. bools. done.
  - intros [= <-]. exists x. bools. done.
Qed.
End Update.

Lemma never_routes_spec {W} `{Host W} st rt (w : W) dr sns rs : never_routes st rt w dr sns = Ret rs ->
  (forall r, r ∈ rs <-> exists sn, sn ∈ sns /\ never_route st rt w dr sn = Ret r) /\
  (forall sn, sn ∈ sns -> exists r, never_route st rt w dr sn = Ret r).
Proof.
  revert rs. induction sns as [|sn sns IH]; intros rs; cbn [never_routes].
  { intros [= <-]. set_solver. }
  destruct (never_route st rt w dr sn) as [r0| |] eqn:E0; cbn [mbind go_bind]; [|done|done].
  destruct (never_routes st rt w dr sns) as [rs0| |]; cbn [mbind go_bind]; [|done|done].
  intros [= <-]. destruct (IH rs0 eq_refl) as [H1 H2]. split.
  - intros r. rewrite elem_of_cons, H1. split.
    + intros [->|(s & ? & ?)]; [exists sn|exists s]; (split; [set_solver|done]).
    + intros (s & [->|Hs]%elem_of_cons & E); [left; congruence|right; by exists s].
  - intros s [->|Hs]%elem_of_cons; [by exists r0|by apply H2].
Qed.

(** The table that [UpdateRoutes] is asked for. *)
Record wanted_table {W} `{HostLaws W} (st : Setting) (pp np ov : list Prefix) (w : W) : Prop := {
  wt_routes k r : h_routes w !! k = Some r -> exists sn, k = Masked sn /\
    ((sn ∈ pp /\ r = subnetRoute st sn) \/ (sn ∈ np /\ bypass st sn r) \/
     (sn ∈ ov /\ r = NewRoute sn (dev_Index st) (dev_Name st)));
  wt_all sn : sn ∈ pp \/ sn ∈ np \/ sn ∈ ov -> is_Some (h_routes w !! Masked sn)
}.

Section Wanted.
Context {W : Type} `{HostLaws W} (st : Setting).
Context (Hlinux : st_linux st = true) (Hsane : host_sane (W:=W) st).

Lemma statics_spec rt (w : W) dr np ov never : DefaultRoute w = Ret dr ->
  mask_inj (np ++ ov) -> (forall k, k ∈ np -> (k ∉ ov)) ->
  never_routes st rt w dr np = Ret never ->
  let statics := never ++ ((fun sn => NewRoute sn (dev_Index st) (dev_Name st)) <$> ov) in
  functional statics /\
  (forall r, r ∈ statics -> exists sn, RoutedNet r = Masked sn /\
     ((sn ∈ np /\ bypass st sn r) \/ (sn ∈ ov /\ r = NewRoute sn (dev_Index st) (dev_Name st)))) /\
  (forall sn, sn ∈ np \/ sn ∈ ov -> exists r, r ∈ statics /\ RoutedNet r = Masked sn).
Proof.
  intros Hd Hm Hno Er statics. apply never_routes_spec in Er as [E1 E2].
  assert (Hnever : forall r, r ∈ never -> exists sn, sn ∈ np /\ never_route st rt w dr sn = Ret r /\ bypass st sn r).
  { intros r (sn & Hs & E)%E1. exists sn. split_and!; [done|done|]. by eapply never_route_bypass. }
  assert (Hover : forall r, r ∈ (fun sn => NewRoute sn (dev_Index st) (dev_Name st)) <$> ov ->
                  exists sn, sn ∈ ov /\ r = NewRoute sn (dev_Index st) (dev_Name st)).
  { intros r (sn & -> & Hs)%list_elem_of_fmap. by exists sn. }
  assert (Hmix : forall sn sn', sn ∈ np -> sn' ∈ ov -> Masked sn <> Masked sn').
  { intros sn sn' Hs Hs' E. apply (Hno sn Hs). rewrite (Hm sn sn'); [done|set_solver|set_solver|done]. }
  split_and!.
  - intros r r' [Hr|Hr]%elem_of_app [Hr'|Hr']%elem_of_app Ek.
    + apply Hnever in Hr as (sn & Hs & Er & B), Hr' as (sn' & Hs' & Er' & B').
      rewrite (bypass_net st sn r B), (bypass_net st sn' r' B') in Ek.
      rewrite (Hm sn sn') in Er; [congruence|set_solver|set_solver|done].
    + apply Hnever in Hr as (sn & Hs & _ & B). apply Hover in Hr' as (sn' & Hs' & ->).
      rewrite (bypass_net st sn r B) in Ek. by destruct (Hmix sn sn').
    + apply Hnever in Hr' as (sn & Hs & _ & B). apply Hover in Hr as (sn' & Hs' & ->).
      rewrite (bypass_net st sn r' B) in Ek. by destruct (Hmix sn sn').
    + apply Hover in Hr as (sn & Hs & ->), Hr' as (sn' & Hs' & ->).
      rewrite (Hm sn sn'); [done|set_solver|set_solver|exact Ek].
  - intros r [Hr|Hr]%elem_of_app.
    + apply Hnever in Hr as (sn & Hs & _ & B). exists sn. split; [by apply (bypass_net st)|by left].
    + apply Hover in Hr as (sn & Hs & ->). exists sn. split; [done|by right].
  - intros sn [Hk|Hk].
    + destruct (E2 sn Hk) as [r Er]. exists r. split; [apply elem_of_app; left; apply E1; by exists sn|].
      apply (bypass_net st). by eapply never_route_bypass.
    + exists (NewRoute sn (dev_Index st) (dev_Name st)). split; [|done].
      apply elem_of_app. right. apply list_elem_of_fmap. by exists sn.
Qed.

(** Adding the static routes to the routed subnets. *)
Lemma statics_inv rt w over : router_inv st rt w -> staticOverrides rt = [] -> functional over ->
  (forall r sn, r ∈ over -> sn ∈ routedSubnets rt -> RoutedNet r <> Masked sn) ->
  router_inv st (set_routes rt over (routedSubnets rt)) (add_routes w over).
Proof.
  intros [Hh Hm _ _] Ho Hf Ha. rewrite Ho, app_nil_r in Hh.
  split; cbn [set_routes routedSubnets staticOverrides]; [|done|done|done].
  apply holds_add_routes; [done|]. by apply functional_routes.
Qed.

Lemma UpdateRoutes_spec rt w pp np ov : router_inv st rt w -> mask_inj (pp ++ np ++ ov) ->
  (forall k, k ∈ pp -> (k ∉ np) /\ (k ∉ ov)) -> (forall k, k ∈ np -> (k ∉ ov)) ->
  forall rt' w' res, UpdateRoutes st rt w pp np ov = (rt', w', res) ->
  router_inv st rt' w' /\ (forall sn, sn ∈ routedSubnets rt' <-> sn ∈ pp) /\
  match res with
  | Updated => wanted_table st pp np ov w'
  | _ => wanted_table st pp [] [] w' /\ staticOverrides rt' = []
  end.
Proof.
  intros Hi Hm Hd Hno rt' w' res. unfold UpdateRoutes.
  assert (Hp : mask_inj pp) by (eapply mask_inj_sub; [exact Hm|set_solver]).
  assert (Hn : mask_inj (np ++ ov)) by (eapply mask_inj_sub; [exact Hm|set_solver]).
  pose proof (drop_inv st rt w Hi) as Hi1. cbn [dropStaticOverrides fst snd] in Hi1.
  cbn [dropStaticOverrides].
  set (rt1 := set_routes rt [] (routedSubnets rt)) in *. set (w1 := remove_routes w (staticOverrides rt)) in *.
  rewrite (Partition_spec _ (contains_pfx pp)) by done.
  pose proof (swap_inv st Hlinux rt1 w1 pp Hi1 eq_refl Hp) as Hi2.
  fold (kept_of rt1 pp) (removed_of rt1 pp). fold (added_of rt1 pp).
  set (rt2 := set_routes rt1 (staticOverrides rt1) (kept_of rt1 pp ++ added_of rt1 pp)).
  change (set_routes rt1 [] (kept_of rt1 pp ++ added_of rt1 pp)) with rt2 in Hi2.
  set (w2 := foldl (add_subnet st) _ _) in *.
  assert (Hr : forall sn, sn ∈ routedSubnets rt2 <-> sn ∈ pp) by (intros sn; apply elem_of_now_routed).
  assert (Hbase : wanted_table st pp [] [] w2).
  { destruct Hi2 as [Hh _ _ _]. cbn [rt2 rt1 set_routes staticOverrides] in Hh. rewrite app_nil_r in Hh. split.
    - intros k r [Hx <-]%Hh. apply elem_of_subnet_routes in Hx as (sn & Hx & ->). exists sn.
      split; [apply subnetRoute_net|]. left. split; [by apply Hr|done].
    - intros sn [Hk|[Hk|Hk]]; [|set_solver|set_solver]. exists (subnetRoute st sn). apply Hh.
      split; [|apply subnetRoute_net]. apply elem_of_subnet_routes. exists sn. split; [by apply Hr|done]. }
  destruct (DefaultRoute w2) as [dr| |] eqn:Ed; [|by intros [= <- <- <-]|by intros [= <- <- <-]].
  destruct (never_routes st rt2 w2 dr np) as [never| |] eqn:En; [|by intros [= <- <- <-]|by intros [= <- <- <-]].
  destruct (statics_spec rt2 w2 dr np ov never Ed Hn Hno En) as (Hf & Hs1 & Hs2).
  set (statics := never ++ _) in *. cbn [createRoutesDelta rt2 rt1 set_routes staticOverrides].
  rewrite (filter_all (fun r => (r ∉ []))) by (apply Forall_forall; set_solver).
  cbn [filter list_filter remove_routes foldl]. intros [= <- <- <-].
  assert (Ha : forall r sn, r ∈ statics -> sn ∈ routedSubnets rt2 -> RoutedNet r <> Masked sn).
  { intros r sn Hrs Hx%Hr E. destruct (Hs1 r Hrs) as (sn' & E' & Hs'). destruct (Hd _ Hx) as [Hd1 Hd2].
    assert (sn = sn') as <- by (apply Hm; [set_solver| |congruence]; rewrite !elem_of_app; naive_solver).
    by destruct Hs' as [[? _]|[? _]]. }
  pose proof (statics_inv rt2 w2 statics Hi2 eq_refl Hf Ha) as Hi3.
  split_and!; [exact Hi3|exact Hr|]. destruct Hi3 as [Hh _ _ _]. split.
  - intros k r [[Hx|Hx]%elem_of_app <-]%Hh.
    + apply elem_of_subnet_routes in Hx as (sn & Hx & ->). exists sn. split; [apply subnetRoute_net|].
      left. split; [by apply Hr|done].
    + destruct (Hs1 r Hx) as (sn & E & Hs). exists sn. split; [done|by right].
  - intros sn [Hk|Hk].
    + destruct (wt_all _ _ _ _ _ Hbase sn (or_introl Hk)) as [r Hx].
      apply Hi2 in Hx as [Hx Ek]. rewrite app_nil_r in Hx. exists r. apply Hh. split; [|done].
      apply elem_of_app. by left.
    + destruct (Hs2 sn Hk) as (r & Hx & Ek). exists r. apply Hh. split; [|done]. apply elem_of_app. by right.
Qed.
End Wanted.

(** ** When the host answers *)
Definition host_up (W : Type) `{Host W} : Prop :=
  (forall w : W, exists rt d, GetRoutingTable w = Ret rt /\ d ∈ rt /\ DefaultR d = true) /\
  (forall (w : W) sn, h_osRoute w sn <> Ret None /\ h_osRoute w sn <> Panic).

Lemma first_default_Some rt d : d ∈ rt -> DefaultR d = true -> is_Some (first_default rt).
Proof.
  intros Hd Ed. induction rt as [|r rt IH]; [set_solver|]. cbn [first_default].
  destruct (DefaultR r) eqn:E; [done|]. apply IH. apply elem_of_cons in Hd as [->|?]; [congruence|done].
Qed.

Lemma get_route_loop_no_panic {W} `{Host W} (w : W) o sn rt d : get_route_loop w (Some o) sn rt d <> Panic.
Proof.
  revert d. induction rt as [|r rt IH]; intros d; cbn [get_route_loop]; [by destruct d|].
  unfold compareRoutes. destruct (InterfaceIndex o =? InterfaceIndex r); [by destruct (r_Routes r _)|].
  destruct (h_osCompare w o r) as [[]|]; [by destruct (r_Routes r _)|done|done].
Qed.

Lemma never_route_total {W} `{Host W} st rt (w : W) dr sn : host_up W -> exists r, never_route st rt w dr sn = Ret r.
Proof.
  intros [Hup Hos]. unfold never_route, routeViaExisting, osRoute. destruct (contains_pfx _ sn); [|by eexists].
  destruct (GetRoute w sn) as [x| |] eqn:G; cbn [mbind go_bind].
  - destruct (_ || _); cbn [mbind go_bind]; [by case_match; eexists|by eexists].
  - by case_match; eexists.
  - exfalso. revert G. unfold GetRoute. destruct (Hos w sn) as [H1 H2].
    destruct (h_osRoute w sn) as [[o|]| |]; cbn [mbind go_bind]; try done.
    destruct (Hup w) as (t & _ & Ht & _). rewrite Ht. cbn [mbind go_bind]. apply get_route_loop_no_panic.
Qed.

Lemma UpdateRoutes_total {W} `{Host W} st rt (w : W) pp np ov : host_up W -> (UpdateRoutes st rt w pp np ov).2 = Updated.
Proof.
  intros Hh. unfold UpdateRoutes. cbn [dropStaticOverrides]. destruct (Partition _ _) as [kept removed].
  set (w2 := foldl (add_subnet st) _ _). destruct (proj1 Hh w2) as (t & d & Ht & Hd & Ed).
  unfold DefaultRoute. rewrite Ht. cbn [mbind go_bind].
  destruct (first_default_Some t d Hd Ed) as [dr ->].
  set (rt2 := set_routes _ _ _). enough (exists rs, never_routes st rt2 w2 dr np = Ret rs) as [rs ->] by done.
  induction np as [|sn np [rs IH]]; [by eexists|]. cbn [never_routes].
  destruct (never_route_total st rt2 w2 dr sn Hh) as [r ->]. cbn [mbind go_bind]. rewrite IH. by eexists.
Qed.

(** C24. Updating the routes of the device on Linux: when no two of the given subnets are the
    same network and the three lists have no subnet in common, the policy table then has a
    route through the device for each subnet to proxy, a route through another
    interface for each never-proxied one and a route through the device for each
    override, and no other route.  When the host has no default route the error
    comes after the static routes are dropped: the subnets are routed and nothing is
    excepted.  The router's record of what it has added is right in every case, and a
    host that answers makes the update succeed. *)
Theorem UpdateRoutes_correct {W} `{HostLaws W} st rt (w : W) pp np ov :
  st_linux st = true -> host_sane (W:=W) st -> router_inv st rt w ->
  mask_inj (pp ++ np ++ ov) ->
  (forall k, k ∈ pp -> (k ∉ np) /\ (k ∉ ov)) -> (forall k, k ∈ np -> (k ∉ ov)) ->
  let '(rt', w', res) := UpdateRoutes st rt w pp np ov in
  router_inv st rt' w' /\ (forall sn, sn ∈ routedSubnets rt' <-> sn ∈ pp) /\
  match res with
  | Updated => wanted_table st pp np ov w'
  | _ => wanted_table st pp [] [] w' /\ staticOverrides rt' = []
  end /\
  (host_up W -> res = Updated).
Proof.
  intros Hl Hs Hi Hm Hd Hno. pose proof (UpdateRoutes_total st rt w pp np ov) as Ht.
  destruct (UpdateRoutes st rt w pp np ov) as [[rt' w'] res] eqn:E.
  destruct (UpdateRoutes_spec st Hl Hs rt w pp np ov Hi Hm Hd Hno _ _ _ E) as (? & ? & ?).
  by split_and!.
Qed.

(** Whatever subnets a router has added and removed, closing it leaves none of its
    routes in the policy table. *)
Theorem Close_removes_all {W} `{HostLaws W} st rt (w : W) :
  st_linux st = true -> router_inv st rt w -> h_routes (rt_Close st rt w).2 = ∅.
Proof.
  intros Hl Hi. apply map_empty. intros k. apply eq_None_not_Some.
  intros [r [Hr _]%(proj1 (Close_holds st Hl rt w Hi))]. by apply elem_of_nil in Hr.
Qed.

(** ** Longest-prefix routing *)

(** The route that the kernel takes for an address in a table: a longest one. *)
Definition lpm (m : gmap Prefix Route) (a : Addr) (r : Route) : Prop :=
  m !! RoutedNet r = Some r /\ p_Contains (RoutedNet r) a = true /\
  forall k r', m !! k = Some r' -> p_Contains k a = true -> pfx_Bits k <= pfx_Bits (RoutedNet r).

(** There is a longest one when there is one. *)
Lemma lpm_exists (m : gmap Prefix Route) a k r :
  (forall k r, m !! k = Some r -> RoutedNet r = k) ->
  m !! k = Some r -> p_Contains k a = true -> exists b, lpm m a b /\ pfx_Bits k <= pfx_Bits (RoutedNet b).
Proof.
  intros Hk.
  enough (Hl : forall l : list (Prefix * Route), (forall x, x ∈ l -> m !! x.1 = Some x.2) ->
     (exists x, x ∈ l /\ p_Contains x.1 a = true) ->
     exists b, m !! RoutedNet b = Some b /\ p_Contains (RoutedNet b) a = true /\
       forall x, x ∈ l -> p_Contains x.1 a = true -> pfx_Bits x.1 <= pfx_Bits (RoutedNet b)).
  { intros Hm Hc. destruct (Hl (map_to_list m)) as (b & B1 & B2 & B3).
    - intros [k' r'] Hx. by apply elem_of_map_to_list in Hx.
    - exists (k, r). split; [by apply elem_of_map_to_list|done].
    - exists b. split; [|by apply (B3 (k, r)); [apply elem_of_map_to_list|]].
      split_and!; [done|done|]. intros k' r' Hm' Hc'. apply (B3 (k', r')); [by apply elem_of_map_to_list|done]. }
  intros l Hl. induction l as [|[k' r'] l IH]; intros (x & Hx & Hc); [set_solver|].
  assert (Hnet : RoutedNet r' = k') by (apply Hk, (Hl (k', r')), list_elem_of_here).
  assert (Hm' : m !! RoutedNet r' = Some r') by (rewrite Hnet; apply (Hl (k', r')), list_elem_of_here).
  destruct (decide (Exists (fun y => p_Contains y.1 a = true) l)) as [Hex|Hno]; rewrite Exists_exists in *.
  - destruct IH as (b & B1 & B2 & B3); [intros y Hy; by apply Hl, list_elem_of_further|done|].
    destruct (decide (p_Contains k' a = true /\ pfx_Bits (RoutedNet b) < pfx_Bits k')) as [[Hc' Hlt]|Hge].
    + exists r'. rewrite Hnet in *. split_and!; [done|done|].
      intros y [->|Hy]%elem_of_cons Hcy; cbn; [lia|]. specialize (B3 y Hy Hcy). lia.
    + exists b. split_and!; [done|done|]. intros y [->|Hy]%elem_of_cons Hcy; cbn in *; [|by apply B3].
      destruct (Z.le_gt_cases (pfx_Bits k') (pfx_Bits (RoutedNet b))); [done|]. destruct Hge. split; [done|lia].
  - apply elem_of_cons in Hx as [->|Hx]; [|destruct Hno; by exists x]. exists r'. cbn in Hc. rewrite Hnet in *.
    split_and!; [done|done|]. intros y [->|Hy]%elem_of_cons Hcy; cbn; [lia|]. destruct Hno. by exists y.
Qed.

(** [Routes] is sound for the kernel's choice: an address that it says is routed has a
    route, and every longest route for it goes through the device. *)
Theorem Routes_sound {W} `{HostLaws W} st rt (w : W) a :
  router_inv st rt w -> Forall pfx_wf (routedSubnets rt) ->
  Forall (fun r => fits 32 (InterfaceIndex r)) (staticOverrides rt) -> Routes st rt a = true ->
  (exists r, lpm (h_routes w) a r) /\ forall r, lpm (h_routes w) a r -> InterfaceIndex r = dev_Index st.
Proof.
  intros [Hh Hm Ha Hf] Hwf Hfit. unfold Routes. rewrite andb_true_iff, negb_true_iff.
  intros [(sn & Hsn%list_elem_of_In & Hc)%existsb_exists Hno]. rewrite Forall_forall in Hfit. rewrite Forall_forall in Hwf.
  assert (Hnet : forall k r, h_routes w !! k = Some r -> RoutedNet r = k) by (by intros k r [_ E]%Hh).
  split.
  - destruct (lpm_exists (h_routes w) a (Masked sn) (subnetRoute st sn) Hnet) as (b & Hb & _);
      [|by rewrite Masked_Contains by (by apply Hwf)|by exists b].
    apply Hh. split; [|apply subnetRoute_net]. apply elem_of_app. left. apply list_elem_of_fmap. by exists sn.
  - intros r ([[Hr|Hr]%elem_of_app _]%Hh & Hca & _).
    { apply elem_of_subnet_routes in Hr as (sn' & _ & ->). apply subnetRoute_index. }
    apply not_true_iff_false in Hno. destruct (Z.eqb_spec (wrap 32 (InterfaceIndex r)) (dev_Index st)) as [E|E].
    { rewrite <- E. by rewrite wrap_id by (by apply Hfit). }
    destruct Hno. apply existsb_exists. exists r. split; [by apply list_elem_of_In|].
    rewrite Hca. by apply Z.eqb_neq in E as ->.
Qed.

(** ** Conflicts with routes of the host *)
Lemma overlap_search_spec st table routes :
  match overlap_search st table routes with
  | Some (r, tr) => tr ∈ table /\ r ∈ routes /\ overlap_allowed st tr = false /\ p_Overlaps (RoutedNet tr) r = true
  | None => forall tr r, tr ∈ table -> r ∈ routes -> overlap_allowed st tr = false -> p_Overlaps (RoutedNet tr) r = false
  end.
Proof.
  induction table as [|t table IH]; cbn [overlap_search]; [set_solver|].
  destruct (overlap_allowed st t) eqn:Eo.
  { destruct (overlap_search st table routes) as [[r tr]|].
    - destruct IH as (? & ? & ? & ?). split_and!; [by apply list_elem_of_further|done..].
    - intros tr r [->|?]%elem_of_cons Hr He; [congruence|by apply IH]. }
  destruct (list_find _ routes) as [[i r]|] eqn:Ef.
  - apply list_find_Some in Ef as (Hl & Ho & _).
    split_and!; [apply list_elem_of_here|by eapply list_elem_of_lookup_2|done..].
  - destruct (overlap_search st table routes) as [[r tr]|].
    + destruct IH as (? & ? & ? & ?). split_and!; [by apply list_elem_of_further|done..].
    + intros tr r [->|?]%elem_of_cons Hr He; [|by apply IH]. apply list_find_None in Ef.
      rewrite Forall_forall in Ef. by apply not_true_iff_false, Ef.
Qed.

(** [ValidateRoutes] accepts the subnets exactly when none of them overlaps a route of
    the host that is not a default route, half of one, a route on the device itself or
    a leftover of one of our devices in an owned range, the whitelisted subnets and
    those already routed through the device aside; the error names a conflict. *)
Theorem ValidateRoutes_correct {W} `{Host W} st rt (w : W) table routes :
  GetRoutingTable w = Ret table ->
  match ValidateRoutes st rt w routes with
  | Ret _ => forall tr r, tr ∈ table -> r ∈ routes -> settled st rt table r = false ->
      overlap_allowed st tr = false -> p_Overlaps (RoutedNet tr) r = false
  | Fail e => exists r tr, e = ErrOverlaps r tr /\ tr ∈ table /\ r ∈ routes /\ settled st rt table r = false /\
      overlap_allowed st tr = false /\ p_Overlaps (RoutedNet tr) r = true
  | Panic => False
  end.
Proof.
  intros Ht. unfold ValidateRoutes. rewrite Ht. cbn [mbind go_bind].
  pose proof (overlap_search_spec st table (filter (fun r => settled st rt table r = false) routes)) as Hs.
  destruct (overlap_search _ _ _) as [[r tr]|].
  - destruct Hs as (? & [? ?]%list_elem_of_filter & ? & ?). exists r, tr. by split_and!.
  - intros tr r ? ? ? ?. apply Hs; [done|by apply list_elem_of_filter|done].
Qed.

(** ** Opening the policy table *)
Definition system_rule (r : Rule) : bool := (rule_Table r =? 0) || (rule_Table r =? 255).

Lemma open_fold_high l i p : Forall (fun x => i < rule_Table x) l -> (foldl open_step (i, p) l).1 = i.
Proof.
  revert p. induction l as [|x l IH]; intros p; cbn [foldl]; [done|].
  intros [Hx Hl]%Forall_cons. unfold open_step at 2.
  destruct ((rule_Table x =? 0) || _); [by apply IH|].
  destruct (Z.eqb_spec (rule_Table x) i); [lia|]. by apply IH.
Qed.

Lemma open_fold_spec l i p : 256 <= i -> StronglySorted rule_table_le l ->
  let '(i', p') := foldl open_step (i, p) l in
  i <= i' /\ p' <= p /\ (forall x, x ∈ l -> rule_Table x <> i') /\
  (forall x, x ∈ l -> system_rule x = false -> p' < rule_Priority x) /\
  (forall j, i <= j < i' -> exists x, x ∈ l /\ rule_Table x = j).
Proof.
  revert i p. induction l as [|x l IH]; intros i p Hi Hs; cbn [foldl].
  { split_and!; [lia|lia|set_solver|set_solver|lia]. }
  apply StronglySorted_inv in Hs as [Hs Hx]. unfold open_step at 2. fold (system_rule x).
  destruct (system_rule x) eqn:Es.
  { specialize (IH i p Hi Hs). destruct (foldl open_step (i, p) l) as [i' p'].
    destruct IH as (? & ? & H1 & H2 & H3). split_and!; [lia|lia| | |].
    - intros y [->|?]%elem_of_cons; [|by apply H1]. unfold system_rule in Es. bools; lia.
    - intros y [->|?]%elem_of_cons E; [congruence|by apply H2].
    - intros j Hj. destruct (H3 j Hj) as (y & ? & ?). exists y. split; [by apply list_elem_of_further|done]. }
  set (p1 := if rule_Priority x <=? p then rule_Priority x - 1 else p).
  assert (Hp1 : p1 <= p /\ p1 < rule_Priority x) by (unfold p1; destruct (Z.leb_spec (rule_Priority x) p); lia).
  destruct (Z.eqb_spec (rule_Table x) i) as [E|E].
  - specialize (IH (i + 1) p1 ltac:(lia) Hs). destruct (foldl _ _ l) as [i' p'].
    destruct IH as (? & ? & H1 & H2 & H3). split_and!; [lia|lia| | |].
    + intros y [->|?]%elem_of_cons; [lia|by apply H1].
    + intros y [->|?]%elem_of_cons ?; [lia|by apply H2].
    + intros j Hj. destruct (decide (j = i)) as [->|]; [exists x; split; [apply list_elem_of_here|done]|].
      destruct (H3 j ltac:(lia)) as (y & ? & ?). exists y. split; [by apply list_elem_of_further|done].
  - specialize (IH i p1 Hi Hs). pose proof (open_fold_high l i p1) as Hh.
    destruct (foldl _ _ l) as [i' p']. destruct IH as (? & ? & H1 & H2 & H3). split_and!; [lia|lia| | |].
    + intros y [->|?]%elem_of_cons; [|by apply H1].
      destruct (Z.lt_ge_cases (rule_Table x) i); [lia|]. cbn in Hh. rewrite Hh; [lia|].
      eapply Forall_impl; [exact Hx|]. unfold rule_table_le. cbn. lia.
    + intros y [->|?]%elem_of_cons ?; [lia|by apply H2].
    + intros j Hj. destruct (H3 j Hj) as (y & ? & ?). exists y. split; [by apply list_elem_of_further|done].
Qed.

(** The routing table that [openTable] picks is the first one from 775 that no rule of
    the host uses, and its rule comes before every rule of the host other than those
    of the system tables. *)
Theorem openTable_correct rules :
  let '(index, priority) := openTable rules in
  775 <= index /\ (forall x, x ∈ rules -> rule_Table x <> index) /\
  (forall j, 775 <= j < index -> exists x, x ∈ rules /\ rule_Table x = j) /\
  (forall x, x ∈ rules -> system_rule x = false -> priority < rule_Priority x).
Proof.
  unfold openTable. pose proof (merge_sort_Permutation rule_table_le rules) as HP.
  assert (Hs : StronglySorted rule_table_le (merge_sort rule_table_le rules)).
  { apply StronglySorted_merge_sort; unfold rule_table_le; [intros ? ? ?; lia|intros ? ?; lia]. }
  pose proof (open_fold_spec _ 775 32766 ltac:(lia) Hs) as Ho. destruct (foldl _ _ _) as [i p].
  destruct Ho as (? & ? & H1 & H2 & H3). setoid_rewrite HP in H1. setoid_rewrite HP in H2. setoid_rewrite HP in H3.
  by split_and!.
Qed.

(** ** A host that is a table *)
Module Sim.
Definition eth0 : Route :=
  {| InterfaceIndex := 2; InterfaceName := "eth0"; LocalIP := AddrFrom4 [192; 168; 1; 7];
     RoutedNet := PrefixFrom (AddrFrom4 [0; 0; 0; 0]) 0; Gateway := AddrFrom4 [192; 168; 1; 1]; DefaultR := true |}.
Definition setting : Setting :=
  {| st_linux := true; dev_Name := "tel0"; dev_Index := 7;
     cfg_VirtualSubnet := PrefixZero; DefaultVirtualSubnet := PrefixFrom (AddrFrom4 [211; 55; 48; 0]) 20 |}.
Definition listed (r : Route) : bool :=
  Bool.eqb (bool_decide (InterfaceName r = "tel0")) (InterfaceIndex r =? 7) && negb (DefaultR r).
#[global] Instance host : Host (gmap Prefix Route) := {|
  h_table m _ := Ret (eth0 :: filter (fun r => listed r = true) (map_to_list m).*2);
  h_osRoute _ _ := Ret (Some eth0);
  h_osCompare _ _ _ := Some false;
  h_Add m r := if decide (m !! RoutedNet r = None) then (<[RoutedNet r := r]> m, true) else (m, false);
  h_Remove m r := if decide (m !! RoutedNet r = Some r) then (delete (RoutedNet r) m, true) else (m, false);
  h_AddSubnet m _ := (m, true);
  h_RemoveSubnet m _ := (m, true)
|}.
#[global] Instance host_laws : HostLaws (gmap Prefix Route).
Proof.
  refine {| h_routes := id |}; cbn; intros w r E; rewrite ?E.
  - by rewrite decide_True by done.
  - rewrite decide_False; [done|]. intros E'. rewrite E' in E. by destruct E.
  - by rewrite decide_True by done.
  - by rewrite decide_False by done.
Defined.

Lemma sane : host_sane (W:=gmap Prefix Route) setting.
Proof.
  intros m t r [= <-] [->|[Hl _]%list_elem_of_filter]%elem_of_cons; [by split; [split|]|].
  unfold listed in Hl. apply andb_true_iff in Hl as [Hl Hd]. apply eqb_prop in Hl. cbn.
  split; [|by intros Hr; rewrite Hr in Hd]. destruct (Z.eqb_spec (InterfaceIndex r) 7); bools; naive_solver.
Qed.
Lemma up : host_up (gmap Prefix Route).
Proof.
  split; [|by intros w sn; cbn]. intros w. exists (eth0 :: filter (fun r => listed r = true) (map_to_list w).*2), eth0.
  split_and!; [done|apply list_elem_of_here|done].
Qed.
Lemma new_inv : router_inv (W:=gmap Prefix Route) setting NewRouter ∅.
Proof. split; [|by intros ? ? ?%elem_of_nil|set_solver|by intros ? ? ?%elem_of_nil]. intros k r. cbn. set_solver. Qed.

Definition pods : Prefix := PrefixFrom (AddrFrom4 [10; 42; 0; 0]) 16.
Definition corp : Prefix := PrefixFrom (AddrFrom4 [10; 42; 7; 0]) 24.
Definition keep : Prefix := PrefixFrom (AddrFrom4 [10; 42; 7; 128]) 25.
Definition updated := UpdateRoutes (W:=gmap Prefix Route) setting NewRouter ∅ [pods] [corp] [keep].
Lemma updated_inv : router_inv setting updated.1.1 updated.1.2.
Proof.
  destruct updated as [[rt w] res] eqn:E.
  by apply (UpdateRoutes_spec setting eq_refl sane NewRouter ∅ [pods] [corp] [keep] new_inv
    ltac:(apply mask_inj_Forall; decide_it)
    ltac:(intros k ->%list_elem_of_singleton; split; decide_it)
    ltac:(intros k ->%list_elem_of_singleton; decide_it) _ _ _ E).
Qed.
End Sim.

Lemma UpdateRoutes_correct_witness :
  Sim.updated.2 = Updated /\ (map_to_list Sim.updated.1.2).*1 ≡ₚ [Sim.keep; Sim.corp; Sim.pods] /\
  router_inv Sim.setting Sim.updated.1.1 Sim.updated.1.2 /\
  wanted_table Sim.setting [Sim.pods] [Sim.corp] [Sim.keep] Sim.updated.1.2.
Proof.
  pose proof (UpdateRoutes_correct Sim.setting NewRouter (∅ : gmap Prefix Route) [Sim.pods] [Sim.corp] [Sim.keep]
    eq_refl Sim.sane Sim.new_inv ltac:(apply mask_inj_Forall; decide_it)
    ltac:(intros k ->%list_elem_of_singleton; split; decide_it)
    ltac:(intros k ->%list_elem_of_singleton; decide_it)) as Hu.
  change (UpdateRoutes Sim.setting NewRouter ∅ [Sim.pods] [Sim.corp] [Sim.keep]) with Sim.updated in Hu.
  split; [by vm_compute|]. split; [decide_it|].
  destruct Sim.updated as [[rt w] res] eqn:E. destruct Hu as (H1 & _ & H2 & H3). rewrite (H3 Sim.up) in H2. done.
Defined.

Lemma Close_removes_all_witness :
  (map_to_list Sim.updated.1.2).*1 <> [] /\
  h_routes (rt_Close (W:=gmap Prefix Route) Sim.setting Sim.updated.1.1 Sim.updated.1.2).2 = ∅.
Proof.
  split; [by vm_compute|]. apply (Close_removes_all Sim.setting Sim.updated.1.1 Sim.updated.1.2); [done|].
  exact Sim.updated_inv.
Defined.

Lemma Routes_sound_witness :
  Routes Sim.setting Sim.updated.1.1 (AddrFrom4 [10; 42; 1; 1]) = true /\
  (exists r, lpm (h_routes Sim.updated.1.2) (AddrFrom4 [10; 42; 1; 1]) r) /\
  forall r, lpm (h_routes Sim.updated.1.2) (AddrFrom4 [10; 42; 1; 1]) r -> InterfaceIndex r = 7.
Proof.
  split; [by vm_compute|]. apply (Routes_sound Sim.setting Sim.updated.1.1 Sim.updated.1.2).
  - exact Sim.updated_inv.
  - decide_it.
  - decide_it.
  - by vm_compute.
Defined.

Definition vpn_route : Route := NewRoute (PrefixFrom (AddrFrom4 [10; 0; 0; 0]) 8) 5 "tun0".
Lemma ValidateRoutes_correct_witness :
  ValidateRoutes (W:=gmap Prefix Route) Sim.setting NewRouter {[ RoutedNet vpn_route := vpn_route ]} [Sim.pods] =
    Fail (ErrOverlaps Sim.pods vpn_route) /\
  exists r tr, ErrOverlaps Sim.pods vpn_route = ErrOverlaps r tr /\ tr ∈ [Sim.eth0; vpn_route] /\ r ∈ [Sim.pods] /\
    settled Sim.setting NewRouter [Sim.eth0; vpn_route] r = false /\
    overlap_allowed Sim.setting tr = false /\ p_Overlaps (RoutedNet tr) r = true.
Proof.
  assert (E : ValidateRoutes (W:=gmap Prefix Route) Sim.setting NewRouter {[ RoutedNet vpn_route := vpn_route ]} [Sim.pods] =
    Fail (ErrOverlaps Sim.pods vpn_route)) by (by vm_compute).
  split; [exact E|].
  pose proof (ValidateRoutes_correct Sim.setting NewRouter ({[ RoutedNet vpn_route := vpn_route ]} : gmap Prefix Route)
    [Sim.eth0; vpn_route] [Sim.pods] ltac:(by vm_compute)) as Hv.
  rewrite E in Hv. exact Hv.
Defined.

(** The converse of [Routes_sound] fails: with 10.1.0.0/16 proxied inside the
    never-proxied 10.0.0.0/8, the kernel sends 10.1.2.3 through the device, because
    that route is longer, and [Routes] says that it is not routed. *)
Theorem Routes_incomplete :
  let inner := PrefixFrom (AddrFrom4 [10; 1; 0; 0]) 16 in
  let outer := PrefixFrom (AddrFrom4 [10; 0; 0; 0]) 8 in
  let a := AddrFrom4 [10; 1; 2; 3] in
  let '(rt, w, _) := UpdateRoutes (W:=gmap Prefix Route) Sim.setting NewRouter ∅ [inner] [outer] [] in
  lpm w a (subnetRoute Sim.setting inner) /\ InterfaceIndex (subnetRoute Sim.setting inner) = dev_Index Sim.setting /\
  Routes Sim.setting rt a = false.
Proof.
  cbv zeta. destruct (UpdateRoutes _ _ _ _ _ _) as [[rt w] res] eqn:E.
  assert (Er : Routes Sim.setting rt (AddrFrom4 [10; 1; 2; 3]) = false).
  { change rt with (rt, w, res).1.1. rewrite <- E. by vm_compute. }
  split_and!; [| by vm_compute|exact Er]. 
  assert (Hw : map_to_list w = [(PrefixFrom (AddrFrom4 [10; 1; 0; 0]) 16, subnetRoute Sim.setting (PrefixFrom (AddrFrom4 [10; 1; 0; 0]) 16));
                       (PrefixFrom (AddrFrom4 [10; 0; 0; 0]) 8, routeVia (PrefixFrom (AddrFrom4 [10; 0; 0; 0]) 8) Sim.eth0)] \/
               map_to_list w = [(PrefixFrom (AddrFrom4 [10; 0; 0; 0]) 8, routeVia (PrefixFrom (AddrFrom4 [10; 0; 0; 0]) 8) Sim.eth0);
                       (PrefixFrom (AddrFrom4 [10; 1; 0; 0]) 16, subnetRoute Sim.setting (PrefixFrom (AddrFrom4 [10; 1; 0; 0]) 16))]).
  { change w with (rt, w, res).1.2. rewrite <- E. (left; by vm_compute) || (right; by vm_compute). }
  split_and!.
  - apply elem_of_map_to_list. destruct Hw as [-> | ->]; vm_compute; set_solver.
  - by vm_compute.
  - intros k r Hk%elem_of_map_to_list _. destruct Hw as [Hw|Hw]; rewrite Hw in Hk;
      apply elem_of_cons in Hk as [[= -> _]|[[= -> _]|Hk%elem_of_nil]%elem_of_cons]; by vm_compute.
Qed.
