(* ===== verification/IpUtil.v ===== *)
(** * Addresses on the wire (src/pkg/iputil, src/pkg/types/addrportandproto.go,
      src/pkg/client/bwcompat/clusterinfo.go)

    The binary forms of [net/netip], the prefixes of the traffic-manager's messages,
    the sorting of pod addresses, and addresses with a port and a protocol. *)
From S2P Require Import Prelude NetIP Subnet SubnetSpec Vip GoStrings NetParse PortTypes.

(** ** Binary forms of [net/netip] *)
Definition bytes_of_string (s : string) : list Z := (fun c => Z.of_N (Ascii.N_of_ascii c)) <$> String.list_ascii_of_string s.
Definition string_of_bytes (bs : list Z) : string :=
  String.string_of_list_ascii ((fun b => Ascii.ascii_of_N (Z.to_N b)) <$> bs).

Definition Addr_MarshalBinary (a : Addr) : list Z :=
  AsSlice a ++ match a with Addr6 _ z => bytes_of_string z | _ => [] end.
Definition Addr_UnmarshalBinary (b : list Z) : option Addr :=
  let n := length b in
  if Nat.eqb n 0 then Some AddrZero
  else if Nat.eqb n 4 then Some (AddrFrom4 b)
  else if Nat.eqb n 16 then Some (AddrFrom16 b)
  else if Nat.ltb 16 n then Some (Addr6 (be_val (take 16 b)) (string_of_bytes (drop 16 b)))
  else None.

Definition Prefix_MarshalBinary (p : Prefix) : list Z :=
  Addr_MarshalBinary (withoutZone (pfx_Addr p)) ++ [u8 (pfx_Bits p)].
Definition Prefix_UnmarshalBinary (b : list Z) : option Prefix :=
  match last b with
  | None => None
  | Some bits => a ← Addr_UnmarshalBinary (take (length b - 1) b); Some (PrefixFrom a bits)
  end.

Definition AddrPort_MarshalBinary (ap : AddrPort) : list Z :=
  Addr_MarshalBinary (ap_addr ap) ++ [u8 (ap_port ap); u8 (Z.shiftr (ap_port ap) 8)].
Definition AddrPort_UnmarshalBinary (b : list Z) : option AddrPort :=
  let n := (length b - 2)%nat in
  if Nat.ltb (length b) 2 then None
  else a ← Addr_UnmarshalBinary (take n b);
       Some {| ap_addr := a; ap_port := default 0 (b !! n) + 256 * default 0 (b !! S n) |}.

(** ** iputil *)
Record IPNet := { ipn_Ip : list Z; ipn_Mask : Z }.
Definition PrefixToRPC (n : Prefix) : IPNet := {| ipn_Ip := AsSlice (pfx_Addr n); ipn_Mask := pfx_Bits n |}.
Definition PrefixesToRPC (n : list Prefix) : list IPNet := PrefixToRPC <$> n.
Definition RPCToPrefix (m : IPNet) : Prefix :=
  match AddrFromSlice (ipn_Ip m) with
  | Some a => PrefixFrom a (ipn_Mask m)
  | None => PrefixZero
  end.
Definition RPCsToPrefixes (n : list IPNet) : list Prefix := RPCToPrefix <$> n.

(** [PrefixFromIPNet]; a nil network or an address of a wrong length gives the zero prefix.
    [ones] is the leading-ones count of the mask, 0 when it is not canonical. *)
Definition PrefixFromIPNet (ipNet : option (list Z * Z)) : Prefix :=
  match ipNet with
  | None => PrefixZero
  | Some (ip, ones) =>
      match AddrFromSlice ip with
      | None => PrefixZero
      | Some addr => PrefixFrom (if Is4In6 addr then AddrFrom4 (default [] (As4 addr)) else addr) ones
      end
  end.

Definition Normalize (ip : list Z) : list Z := match To4 ip with Some ip4 => ip4 | None => ip end.

(** [bytes.Compare] as an order. *)
Fixpoint bytes_lt (a b : list Z) : bool :=
  match a, b with
  | _, [] => false
  | [], _ :: _ => true
  | x :: a, y :: b => (x <? y) || ((x =? y) && bytes_lt a b)
  end.
Definition bytes_le (a b : list Z) : Prop := bytes_lt b a = false.
Global Instance bytes_le_dec : RelDecision bytes_le.
Proof. intros a b. unfold bytes_le. apply _. Defined.

(** [net.IP.Equal]: an IPv4 address and its 16-byte form are equal. *)
Definition ip_Equal (a b : list Z) : bool :=
  if Nat.eqb (length a) (length b) then bool_decide (a = b)
  else if Nat.eqb (length a) 4 && Nat.eqb (length b) 16
       then bool_decide (take 12 b = replicate 10 0 ++ [255; 255]) && bool_decide (a = drop 12 b)
  else if Nat.eqb (length a) 16 && Nat.eqb (length b) 4
       then bool_decide (take 12 a = replicate 10 0 ++ [255; 255]) && bool_decide (drop 12 a = b)
  else false.

(** The loop of [UniqueSorted]: an address equal to the one kept last is dropped. *)
Fixpoint uniq_loop (prev : list Z) (ips : list (list Z)) : list (list Z) :=
  match ips with
  | [] => []
  | s :: ips => if ip_Equal s prev then uniq_loop prev ips else s :: uniq_loop s ips
  end.
Definition UniqueSorted (ips : list (list Z)) : list (list Z) :=
  uniq_loop [] (merge_sort bytes_le (Normalize <$> ips)).

(** ** An address, a port and a protocol *)
Record AddrPortProto := { app_AddrPort : AddrPort; app_Proto : Z }.
Global Instance AddrPortProto_eq_dec : EqDecision AddrPortProto.
Proof. solve_decision. Defined.
Global Instance AddrPort_countable : Countable AddrPort.
Proof.
  refine (inj_countable' (fun p => (ap_addr p, ap_port p)) (fun x => {| ap_addr := x.1; ap_port := x.2 |}) _).
  by intros [].
Defined.
Global Instance AddrPortProto_countable : Countable AddrPortProto.
Proof.
  refine (inj_countable' (fun p => (app_AddrPort p, app_Proto p)) (fun x => {| app_AddrPort := x.1; app_Proto := x.2 |}) _).
  by intros [].
Defined.

Inductive app_error := AppProto (e : types_error) | AppAddrPort (s : string) | AppSize.

Definition ParseAddrPortProto (pm : string) : Go app_error AddrPortProto :=
  let addr pm proto := match ParseAddrPort pm with
                       | Some ap => Ret {| app_AddrPort := ap; app_Proto := proto |}
                       | None => Fail (AppAddrPort pm)
                       end in
  match LastIndexByte pm ProtoSeparator with
  | Some (S ix) =>
      match ParseProto (str_drop (S (S ix)) pm) with
      | Ret proto => addr (str_take (S ix) pm) proto
      | Fail e => Fail (AppProto e)
      | Panic => Panic
      end
  | _ => addr pm ProtoTCP
  end.

Definition App_MarshalBinary (p : AddrPortProto) : list Z :=
  AddrPort_MarshalBinary (app_AddrPort p) ++ [u8 (app_Proto p)].
Definition App_UnmarshalBinary (bs : list Z) : Go app_error AddrPortProto :=
  let last := (length bs - 1)%nat in
  if Z.of_nat (length bs) - 1 <? 2 then Fail AppSize
  else match AddrPort_UnmarshalBinary (take last bs) with
       | Some ap => Ret {| app_AddrPort := ap; app_Proto := default 0 (bs !! last) |}
       | None => Fail (AppAddrPort "")
       end.

(** ** bwcompat *)
Record LegacyInfo := { li_ServiceCidrs : list (list Z); li_ServiceSubnet : option IPNet }.
Definition FixLegacyClusterInfo (m : LegacyInfo) : LegacyInfo :=
  match li_ServiceCidrs m with
  | [c] => if Nat.eqb (length c) 4 then
             {| li_ServiceCidrs := match li_ServiceSubnet m with
                                   | Some n => [Prefix_MarshalBinary (RPCToPrefix n)]
                                   | None => []
                                   end;
                li_ServiceSubnet := li_ServiceSubnet m |}
           else m
  | _ => m
  end.

(** ** Round trips *)
Lemma string_bytes s : string_of_bytes (bytes_of_string s) = s.
Proof.
  unfold string_of_bytes, bytes_of_string. rewrite <- list_fmap_compose.
  rewrite (list_fmap_ext _ id), list_fmap_id; [apply String.string_of_list_ascii_of_string|].
  intros i c _. cbn. by rewrite N2Z.id, Ascii.ascii_N_embedding.
Qed.
Lemma bytes_of_string_nil s : length (bytes_of_string s) = 0%nat -> s = ""%string.
Proof. destruct s; [done|]. cbn. lia. Qed.

Lemma be_val_be_bytes n x : 0 <= x < 256 ^ Z.of_nat n -> be_val (be_bytes n x) = x.
Proof. intros Hx. rewrite be_val_bytes. by apply Z.mod_small. Qed.

Lemma AddrFromSlice_AsSlice a : addr_wf a -> a <> AddrZero -> AddrFromSlice (AsSlice a) = Some (withoutZone a).
Proof.
  unfold AddrFromSlice, AddrFrom4, AddrFrom16. destruct a as [|v|v z]; intros Hw Hn; [done|..]; cbn [AsSlice withoutZone].
  - rewrite be_bytes_length, bool_decide_eq_true_2 by done. by rewrite be_val_be_bytes.
  - rewrite be_bytes_length, bool_decide_eq_false_2, bool_decide_eq_true_2 by done. by rewrite be_val_be_bytes.
Qed.

Lemma Addr_binary a : addr_wf a -> Addr_UnmarshalBinary (Addr_MarshalBinary a) = Some a.
Proof.
  unfold Addr_UnmarshalBinary, Addr_MarshalBinary, AddrFrom4, AddrFrom16. intros Hw.
  destruct a as [|v|v z]; cbn [AsSlice]; rewrite ?app_nil_r, ?length_app, ?be_bytes_length.
  - done.
  - cbn [Nat.eqb]. by rewrite be_val_be_bytes.
  - destruct (length (bytes_of_string z)) as [|n] eqn:El; cbn [Nat.eqb Nat.add].
    + apply bytes_of_string_nil in El as ->. cbn [bytes_of_string String.list_ascii_of_string fmap list_fmap].
      by rewrite app_nil_r, be_val_be_bytes.
    + cbn [Nat.ltb Nat.leb]. rewrite take_app_len, drop_app_len by (by rewrite be_bytes_length).
      by rewrite be_val_be_bytes, string_bytes.
Qed.

(** A prefix in a message of the traffic-manager, and a list of them, are read back as
    they were written, invalid ones included. *)
Theorem PrefixesToRPC_roundtrip (ps : list Prefix) : Forall pfx_wf ps -> RPCsToPrefixes (PrefixesToRPC ps) = ps.
Proof.
  intros Hw. unfold RPCsToPrefixes, PrefixesToRPC. rewrite <- list_fmap_compose.
  transitivity (id <$> ps); [|apply list_fmap_id].
  apply list_fmap_ext. intros i p Hp. apply (Forall_lookup_1 _ _ _ _ Hw) in Hp as (Ha & Hz & Hb). cbn.
  unfold RPCToPrefix, PrefixToRPC. cbn [ipn_Ip ipn_Mask].
  destruct (decide (pfx_Addr p = AddrZero)) as [E|E].
  - rewrite E. destruct Hb as [Hb|[_ []]]; [|done]. destruct p; cbn in *. by subst.
  - rewrite AddrFromSlice_AsSlice by done. unfold PrefixFrom.
    assert (withoutZone (withoutZone (pfx_Addr p)) = pfx_Addr p) as HW.
    { destruct (pfx_Addr p); [done..|]. cbn in *. by bools; subst. }
    assert (HB : BitLen (withoutZone (pfx_Addr p)) = BitLen (pfx_Addr p) /\ a_IsValid (withoutZone (pfx_Addr p)) = true)
      by (by destruct (pfx_Addr p)).
    destruct HB as [HB ->]. rewrite HW, HB. destruct p as [a b]. cbn in *. f_equal.
    destruct Hb as [-> |[Hb _]]; [done|].
    by destruct (Z.leb_spec 0 b), (Z.leb_spec b (BitLen a)); try lia.
Qed.
Lemma PrefixesToRPC_roundtrip_witness :
  RPCsToPrefixes (PrefixesToRPC [PrefixFrom (AddrFrom4 [10; 42; 0; 0]) 16; PrefixZero]) =
    [PrefixFrom (AddrFrom4 [10; 42; 0; 0]) 16; PrefixZero].
Proof. apply PrefixesToRPC_roundtrip. decide_it. Defined.

Lemma AddrPort_binary ap : addr_wf (ap_addr ap) -> fits 16 (ap_port ap) -> AddrPort_UnmarshalBinary (AddrPort_MarshalBinary ap) = Some ap.
Proof.
  destruct ap as [a port]. cbn [ap_addr ap_port]. intros Ha Hport. unfold AddrPort_UnmarshalBinary, AddrPort_MarshalBinary. cbn [ap_addr ap_port].
  set (bs := Addr_MarshalBinary a). rewrite !length_app. cbn [length].
  assert (Hl2 : Nat.ltb (length bs + 2) 2 = false) by (apply Nat.ltb_ge; lia). rewrite Hl2.
  rewrite take_app_len by lia. assert (HA : Addr_UnmarshalBinary bs = Some a) by (by apply Addr_binary). rewrite HA. cbn [mbind option_bind].
  rewrite (lookup_app_r bs) by lia. rewrite (lookup_app_r bs) by lia. replace (length bs + 2 - 2 - length bs)%nat with 0%nat by lia.
  replace (S (length bs + 2 - 2) - length bs)%nat with 1%nat by lia. cbn [lookup list_lookup default]. do 2 f_equal.
  unfold u8, wrap, fits in *. rewrite Z.shiftr_div_pow2 by lia. change (2 ^ 8) with 256. change (2 ^ 16) with 65536 in *.
  rewrite (Z.mod_small (port / 256)) by (split; [apply Z.div_pos; lia|apply Z.div_lt_upper_bound; lia]).
  cbn [id]. pose proof (Z.div_mod port 256 ltac:(lia)). lia.
Qed.

(** An address, its port and its protocol survive the binary form, zones included. *)
Theorem AddrPortProto_binary (p : AddrPortProto) :
  addr_wf (ap_addr (app_AddrPort p)) -> fits 16 (ap_port (app_AddrPort p)) -> fits 8 (app_Proto p) ->
  App_UnmarshalBinary (App_MarshalBinary p) = Ret p.
Proof.
  destruct p as [ap proto]. cbn [app_AddrPort app_Proto]. intros Ha Hport Hproto.
  unfold App_UnmarshalBinary, App_MarshalBinary. cbn [app_AddrPort app_Proto]. pose proof (AddrPort_binary ap Ha Hport) as Hap.
  assert (Hlen : (2 <= length (AddrPort_MarshalBinary ap))%nat) by (unfold AddrPort_MarshalBinary; rewrite length_app; cbn [length]; lia).
  set (bs := AddrPort_MarshalBinary ap) in *. rewrite !length_app. cbn [length].
  assert (Hlt : (Z.of_nat (length bs + 1) - 1 <? 2) = false) by (apply Z.ltb_ge; lia). rewrite Hlt.
  rewrite take_app_len by lia. rewrite Hap. rewrite lookup_app_r by lia.
  replace (length bs + 1 - 1 - length bs)%nat with 0%nat by lia. cbn [lookup list_lookup default].
  do 2 f_equal. by apply (wrap_id 8).
Qed.
Lemma AddrPortProto_binary_witness :
  App_UnmarshalBinary (App_MarshalBinary {| app_AddrPort := {| ap_addr := Addr6 0xfe800000000000000000000000000001 "eth0"; ap_port := 8080 |}; app_Proto := 17 |}) =
  Ret {| app_AddrPort := {| ap_addr := Addr6 0xfe800000000000000000000000000001 "eth0"; ap_port := 8080 |}; app_Proto := 17 |}.
Proof. apply AddrPortProto_binary; decide_it. Defined.

(** ** Sorting addresses *)
Lemma bytes_lt_irrefl a : bytes_lt a a = false.
Proof. induction a as [|x a IH]; cbn; [done|]. rewrite Z.ltb_irrefl, Z.eqb_refl. done. Qed.
Lemma bytes_lt_trans a b c : bytes_lt a b = true -> bytes_lt b c = true -> bytes_lt a c = true.
Proof.
  revert b c. induction a as [|x a IH]; intros [|y b] [|z c]; cbn; try done.
  rewrite !orb_true_iff, !andb_true_iff, !Z.ltb_lt, !Z.eqb_eq.
  intros [?|[-> ?]] [?|[-> ?]]; [left; lia|by left|by left|right; eauto].
Qed.
Lemma bytes_lt_total a b : bytes_lt a b = true \/ a = b \/ bytes_lt b a = true.
Proof.
  revert b. induction a as [|x a IH]; intros [|y b]; cbn; [by auto..|].
  rewrite !orb_true_iff, !andb_true_iff, !Z.ltb_lt, !Z.eqb_eq.
  destruct (Z.lt_trichotomy x y) as [?|[-> |?]]; [by auto| |by auto].
  destruct (IH b) as [?|[-> |?]]; auto.
Qed.
Lemma bytes_le_lt a b : bytes_le a b <-> bytes_lt a b = true \/ a = b.
Proof.
  unfold bytes_le. split.
  - destruct (bytes_lt_total a b) as [?|[-> |?]]; [by auto..|congruence].
  - intros [Hl| ->]; [|apply bytes_lt_irrefl]. apply not_true_iff_false. intros Hg.
    pose proof (bytes_lt_trans _ _ _ Hl Hg) as Hc. by rewrite bytes_lt_irrefl in Hc.
Qed.
Global Instance bytes_le_trans : Transitive bytes_le.
Proof.
  intros a b c. rewrite !bytes_le_lt. intros [?| ->] [?| ->]; [left; by eapply bytes_lt_trans|by auto..].
Qed.
Global Instance bytes_le_total : Total bytes_le.
Proof. intros a b. rewrite !bytes_le_lt. destruct (bytes_lt_total a b) as [?|[-> |?]]; auto. Qed.

(** A four-byte address is not also there in sixteen bytes. *)
Lemma To4_length ip ip4 : To4 ip = Some ip4 -> length ip4 = 4%nat.
Proof.
  unfold To4. case_bool_decide; [by intros [= <-]|]. case_bool_decide as E; [|done]. cbn.
  repeat case_bool_decide; cbn; try done. intros [= <-]. rewrite length_take, length_drop. lia.
Qed.
Definition plain (ip : list Z) : Prop := length ip = 16%nat -> take 12 ip <> replicate 10 0 ++ [255; 255].
Lemma Normalize_plain ip : plain (Normalize ip).
Proof.
  unfold Normalize, plain. destruct (To4 ip) as [ip4|] eqn:E.
  - apply To4_length in E. intros. lia.
  - intros El Et. revert E. unfold To4. rewrite bool_decide_eq_false_2 by lia. rewrite bool_decide_eq_true_2 by done.
    assert (H10 : take 10 ip = replicate 10 0).
    { replace (take 10 ip) with (take 10 (take 12 ip)) by (rewrite take_take; done). by rewrite Et. }
    assert (H11 : ip !! 10%nat = Some 255 /\ ip !! 11%nat = Some 255).
    { rewrite <- (lookup_take_lt ip 12 10), <- (lookup_take_lt ip 12 11) by lia. by rewrite Et. }
    destruct H11 as [-> ->]. rewrite H10. by rewrite !bool_decide_eq_true_2 by done.
Qed.
Lemma ip_Equal_plain a b : plain a -> plain b -> ip_Equal a b = true <-> a = b.
Proof.
  intros Ha Hb. unfold ip_Equal. destruct (Nat.eqb_spec (length a) (length b)) as [E|E].
  { apply bool_decide_eq_true. }
  split; [|intros ->; done]. destruct (Nat.eqb_spec (length a) 4), (Nat.eqb_spec (length b) 16); cbn [andb].
  - rewrite andb_true_iff. intros [?%bool_decide_eq_true _]. by destruct (Hb ltac:(done)).
  - destruct (Nat.eqb_spec (length a) 16); [lia|done].
  - destruct (Nat.eqb_spec (length a) 16); [lia|done].
  - destruct (Nat.eqb_spec (length a) 16), (Nat.eqb_spec (length b) 4); cbn [andb]; try done.
    rewrite andb_true_iff. intros [?%bool_decide_eq_true _]. by destruct (Ha ltac:(done)).
Qed.

Lemma uniq_loop_spec l prev : StronglySorted bytes_le l -> Forall (bytes_le prev) l -> Forall plain (prev :: l) ->
  StronglySorted (fun a b => bytes_lt a b = true) (uniq_loop prev l) /\
  Forall (fun a => bytes_lt prev a = true) (uniq_loop prev l) /\
  (forall a, a ∈ uniq_loop prev l <-> a ∈ l /\ a <> prev).
Proof.
  revert prev. induction l as [|s l IH]; intros prev Hs Hp Hpl; cbn [uniq_loop].
  { split_and!; [constructor|constructor|set_solver]. }
  apply StronglySorted_inv in Hs as [Hs Hsl]. apply Forall_cons in Hp as [Hps Hp].
  apply Forall_cons in Hpl as [Hp1 Hpl]. pose proof Hpl as [Hp2 Hp3]%Forall_cons.
  destruct (ip_Equal s prev) eqn:E.
  - apply ip_Equal_plain in E as ->; [|done..]. destruct (IH prev Hs Hsl Hpl) as (H1 & H2 & H3).
    split_and!; [done|done|]. intros a. rewrite H3. set_solver.
  - assert (s <> prev) as Hne by (intros ->; by rewrite (proj2 (ip_Equal_plain prev prev Hp1 Hp1)) in E).
    assert (Hlt : bytes_lt prev s = true) by (apply bytes_le_lt in Hps as [?| ->]; done).
    destruct (IH s Hs Hsl Hpl) as (H1 & H2 & H3). split_and!; [by constructor| |].
    + constructor; [done|]. eapply Forall_impl; [exact H2|]. cbn. intros a. by apply bytes_lt_trans.
    + intros a. rewrite elem_of_cons, H3, elem_of_cons. split; [|destruct (decide (a = s)); naive_solver].
      intros [->|[Ha Has]]; [by auto|]. split; [by auto|]. intros ->.
      rewrite Forall_forall in Hsl. specialize (Hsl prev Ha). apply bytes_le_lt in Hsl as [Hg| ->]; [|done].
      pose proof (bytes_lt_trans _ _ _ Hlt Hg) as Hc. by rewrite bytes_lt_irrefl in Hc.
Qed.

(** [UniqueSorted] returns the addresses, IPv4 ones in four bytes, in strictly
    increasing order: each once; only empty addresses are left out. *)
Theorem UniqueSorted_correct (ips : list (list Z)) :
  StronglySorted (fun a b => bytes_lt a b = true) (UniqueSorted ips) /\
  forall a, a ∈ UniqueSorted ips <-> a <> [] /\ exists ip, ip ∈ ips /\ Normalize ip = a.
Proof.
  unfold UniqueSorted. set (l := merge_sort bytes_le (Normalize <$> ips)).
  pose proof (merge_sort_Permutation bytes_le (Normalize <$> ips)) as HP. fold l in HP.
  destruct (uniq_loop_spec l []) as (H1 & _ & H3).
  - by apply StronglySorted_merge_sort; apply _.
  - apply Forall_forall. intros a _. by destruct a.
  - constructor; [done|]. rewrite HP. apply Forall_fmap, Forall_forall. intros ip _. apply Normalize_plain.
  - split; [done|]. intros a. rewrite H3, HP, list_elem_of_fmap. naive_solver.
Qed.
