(* ===== verification/SessionVip.v ===== *)
(** * Virtual IPs and lookups of the root daemon's session (src/pkg/client/rootd/session.go)

    Addresses in the translated subnets get a virtual IP on their first use
    ([GetLocalIP]); the answers of the cluster's DNS are rewritten with it, and the
    table of virtual IPs leads back to the workload and the address.  The state is the
    part of [session] these operations use. *)
From S2P Require Import Prelude NetIP Subnet SubnetSpec Vip DnsProxy IpUtil.

Record agentSubnet := { as_Prefix : Prefix; as_workload : string }.
Record agentVIP := { av_workload : string; av_destinationIP : Addr }.
Global Instance agentVIP_eq_dec : EqDecision agentVIP.
Proof. solve_decision. Defined.

Record Vips := {
  localTranslationTable : gmap Addr Addr;
  localTranslationSubnets : list agentSubnet;
  virtualIPs : gmap Addr agentVIP;
  vipGenerator : option Generators        (* [None] is nil *)
}.
Definition set_vips (s : Vips) (t : gmap Addr Addr) (v : gmap Addr agentVIP) (g : option Generators) : Vips :=
  {| localTranslationTable := t; localTranslationSubnets := localTranslationSubnets s; virtualIPs := v; vipGenerator := g |}.

(** [nextVirtualIP]; a nil generator is dereferenced. *)
Definition s_nextVirtualIP (s : Vips) (workload : string) (destinationIP : Addr) : Vips * Go vip_error Addr :=
  match vipGenerator s with
  | None => (s, Panic)
  | Some g =>
      let '(g, r) := Next g destinationIP in
      match r with
      | Ret va =>
          (set_vips s (localTranslationTable s)
             (<[va := {| av_workload := workload; av_destinationIP := destinationIP |}]> (virtualIPs s)) (Some g), Ret va)
      | r => (set_vips s (localTranslationTable s) (virtualIPs s) (Some g), r)
      end
  end.

Fixpoint subnet_for (sns : list agentSubnet) (ip : Addr) : option agentSubnet :=
  match sns with
  | [] => None
  | sn :: sns => if p_Contains (as_Prefix sn) ip then Some sn else subnet_for sns ip
  end.

(** [GetLocalIP]; an error comes with the address itself. *)
Definition GetLocalIP (s : Vips) (destinationIP : Addr) : Vips * Go vip_error Addr :=
  match localTranslationTable s !! destinationIP with
  | Some va => (s, Ret (if a_IsValid va then va else destinationIP))
  | None =>
      match subnet_for (localTranslationSubnets s) destinationIP with
      | None => (s, Ret destinationIP)
      | Some sn =>
          let '(s, r) := s_nextVirtualIP s (as_workload sn) destinationIP in
          match r with
          | Ret va => (set_vips s (<[destinationIP := va]> (localTranslationTable s)) (virtualIPs s) (vipGenerator s),
                       Ret (if a_IsValid va then va else destinationIP))
          | r => (s, r)
          end
      end
  end.

Definition getAgentVIP (s : Vips) (dest : Addr) : option agentVIP := virtualIPs s !! dest.

Definition MapsIPv4 (s : Vips) : bool := existsb (fun p => Is4 (pfx_Addr (as_Prefix p))) (localTranslationSubnets s).
Definition MapsIPv6 (s : Vips) : bool := existsb (fun p => Is6 (pfx_Addr (as_Prefix p))) (localTranslationSubnets s).

(** ** Lookups *)
Definition rrHeader (name : string) (rrType : Z) (d : rdata) : RR := mkRR name rrType ClassINET 0 d.

Fixpoint splitNameTypes (name : string) (ips : list Addr) : list RR * list RR :=
  match ips with
  | [] => ([], [])
  | addr :: ips =>
      let '(ips4, ips6) := splitNameTypes name ips in
      if Is6 addr then (ips4, rrHeader name TypeAAAA (rAAAA (AsSlice addr)) :: ips6)
      else (rrHeader name TypeA (rA (AsSlice addr)) :: ips4, ips6)
  end.

Definition ensureBothFamilies (name : string) (ips4 ips6 : list RR) : list RR :=
  match ips4, ips6 with
  | _ :: _, [] => ips4 ++ [rrHeader name TypeAAAA (rAAAA [])]
  | [], _ :: _ => [rrHeader name TypeA (rA [])] ++ ips6
  | _, _ => ips4 ++ ips6
  end.

(** The errors of a lookup: a gRPC status, the context's own errors, a record that
    cannot be read, no virtual IP left. *)
Inductive cl_error :=
  | CStatus (code : Z)
  | CDeadline
  | CCanceled
  | CFormat
  | CVip (e : vip_error).
Definition status_code (e : cl_error) : Z :=
  match e with CStatus c => c | _ => 2 end.

Definition rcodeFromError (e : cl_error) : Z :=
  match e with
  | CDeadline | CCanceled => RcodeNameError
  | CStatus c => if (c =? codes_DeadlineExceeded) || (c =? grpc_Canceled) then RcodeNameError else RcodeServerFailure
  | _ => RcodeServerFailure
  end.

(** Records, response code and error of a lookup; the two counters of the session. *)
Abbreviation cl_result := (list RR * Z * option cl_error)%type.
Record Lookups := { dnsLookups : Z; dnsFailures : Z; lk_vips : Vips }.
Definition lk_fail (s : Lookups) : Lookups :=
  {| dnsLookups := dnsLookups s; dnsFailures := dnsFailures s + 1; lk_vips := lk_vips s |}.
Definition lk_set (s : Lookups) (v : Vips) : Lookups :=
  {| dnsLookups := dnsLookups s; dnsFailures := dnsFailures s; lk_vips := v |}.

(** The translation loop of [simpleLookup]. *)
Fixpoint translate_ips (v : Vips) (ips : list Addr) : Vips * Go vip_error (list Addr) :=
  match ips with
  | [] => (v, Ret [])
  | ip :: ips =>
      let '(v, r) := GetLocalIP v ip in
      match r with
      | Ret ip' => let '(v, r) := translate_ips v ips in (v, (fun ips => ip' :: ips) <$> r)
      | Fail e => (v, Fail e)
      | Panic => (v, Panic)
      end
  end.

(** The loop of [complexClusterLookup] stops at the first error, with the records
    before it already rewritten.  The conversions to arrays panic on other lengths. *)
Definition translate_rr (v : Vips) (rr : RR) : Vips * Go vip_error RR :=
  let set d := mkRR (rr_Name rr) (rr_Rrtype rr) (rr_Class rr) (rr_Ttl rr) d in
  match rr_data rr with
  | rA ip => if Nat.ltb (length ip) 4 then (v, Panic)
             else let '(v, r) := GetLocalIP v (AddrFrom4 (take 4 ip)) in (v, (fun a => set (rA (AsSlice a))) <$> r)
  | rAAAA ip => if Nat.ltb (length ip) 16 then (v, Panic)
                else let '(v, r) := GetLocalIP v (AddrFrom16 (take 16 ip)) in (v, (fun a => set (rAAAA (AsSlice a))) <$> r)
  | _ => (v, Ret rr)
  end.
Fixpoint translate_rrs (v : Vips) (rrs : list RR) : Vips * list RR * option (Go vip_error ()) :=
  match rrs with
  | [] => (v, [], None)
  | rr :: rrs =>
      let '(v, r) := translate_rr v rr in
      match r with
      | Ret rr => let '(v, rrs, e) := translate_rrs v rrs in (v, rr :: rrs, e)
      | Fail e => (v, rr :: rrs, Some (Fail e))
      | Panic => (v, rr :: rrs, Some Panic)
      end
  end.

Section Lookup.
(** The traffic-manager's and the agents' answers: the gRPC calls are parameters. *)
Context `{DnsCodec}.
Context (LookupDNS : string -> Z -> cl_error + (list Z * Z)).
Context (LookupCall : string -> cl_error + list (list Z)).

Definition complexClusterLookup (s : Lookups) (qName : string) (qType : Z) : Lookups * Go () cl_result :=
  match LookupDNS qName qType with
  | inl err => (lk_fail s, Ret ([], rcodeFromError err, Some err))
  | inr (rrb, rc) =>
      let '(answer, rCode, ok) := FromRPC rrb rc in
      if negb ok then (lk_fail s, Ret ([], RcodeServerFailure, Some CFormat))
      else match localTranslationSubnets (lk_vips s) with
           | [] => (s, Ret (answer, rCode, None))
           | _ =>
               let '(v, answer, e) := translate_rrs (lk_vips s) answer in
               match e with
               | None => (lk_set s v, Ret (answer, rCode, None))
               | Some (Fail e) => (lk_set s v, Ret (answer, RcodeServerFailure, Some (CVip e)))
               | Some _ => (lk_set s v, Panic)
               end
           end
  end.

(** [simpleLookup]; addresses that cannot be read are left zero. *)
Definition simpleLookup (s : Lookups) (qName : string) (qType : Z) : Lookups * Go () cl_result :=
  match LookupCall qName with
  | inl err =>
      if status_code err =? codes_Unimplemented then complexClusterLookup s qName qType
      else (lk_fail s, Ret ([], rcodeFromError err, Some err))
  | inr [] => (s, Ret ([], RcodeNameError, None))
  | inr raw =>
      let ips := (fun b => default AddrZero (Addr_UnmarshalBinary b)) <$> raw in
      let answer v ips :=
        let '(ips4, ips6) := splitNameTypes qName ips in
        (lk_set s v, Ret (ensureBothFamilies qName ips4 ips6, RcodeSuccess, None)) in
      match localTranslationSubnets (lk_vips s) with
      | [] => answer (lk_vips s) ips
      | _ => let '(v, r) := translate_ips (lk_vips s) ips in
             match r with
             | Ret ips => answer v ips
             | Fail e => (lk_set s v, Ret ([], RcodeServerFailure, Some (CVip e)))
             | Panic => (lk_set s v, Panic)
             end
      end
  end.

(** The sequencer keeps the result of a name for half a second; [None] when complex
    lookups are used.  Its entries: the time of the result and the result. *)
Definition lookupSequencerTTL : Z := 500.
Abbreviation sequencer := (gmap string (Z * cl_result)).
Definition count_lookup (s : Lookups) : Lookups :=
  {| dnsLookups := dnsLookups s + 1; dnsFailures := dnsFailures s; lk_vips := lk_vips s |}.
Definition clusterLookup (now : Z) (seqr : option sequencer) (s : Lookups) (qName : string) (qType : Z) :
    option sequencer * Lookups * Go () cl_result :=
  let s := count_lookup s in
  let complex := let '(s, r) := complexClusterLookup s qName qType in (seqr, s, r) in
  match seqr with
  | None => complex
  | Some m =>
      if negb ((qType =? TypeA) || (qType =? TypeAAAA)) then complex
      else
        let compute :=
          let '(s, r) := simpleLookup s qName qType in
          match r with
          | Ret res => (Some (<[qName := (now, res)]> m), s, Ret res)
          | r => (seqr, s, r)
          end in
        match m !! qName with
        | Some (created, res) => if now - created <? lookupSequencerTTL then (seqr, s, Ret res) else compute
        | None => compute
        end
  end.
(** One round of the garbage collection. *)
Definition lookupSequencerGC (now : Z) (m : sequencer) : sequencer :=
  filter (fun kv : string * (Z * cl_result) => now - kv.2.1 <= lookupSequencerTTL) m.
End Lookup.
