(* ===== verification/SessionVipSpec.v ===== *)
(** * What the translation of addresses promises (src/pkg/client/rootd/session.go)

    Translation table and virtual IPs are inverse to each other in every state, a
    virtual IP is never given to a second address, and the answers of a lookup lead
    back to the addresses of the cluster. *)
From S2P Require Import Prelude NetIP Subnet SubnetSpec Vip DnsProxy IpUtil SessionVip.

(** ** Generators *)

(** The counters of the generators are machine integers, each generator of its family. *)
Definition gens_typed (g : Generators) : Prop :=
  (pfx_wf (v4Subnet g) /\ Is4 (pfx_Addr (v4Subnet g)) = true) /\
  (pfx_wf (v6Subnet g) /\ Is6 (pfx_Addr (v6Subnet g)) = true) /\
  (forall gen, v4 g = Some gen -> exists g4, gen = G4 g4 /\ fits 32 (nextVirtualIP g4)) /\
  (forall gen, v6 g = Some gen -> exists g6, gen = G6 g6 /\ fits 64 (fixedHi g6) /\ fits 64 (nextLo g6)).

(** No counter is at its last value. *)
Definition room (g : Generators) : Prop :=
  (forall g4, v4 g = Some (G4 g4) -> nextVirtualIP g4 + 1 < 2 ^ 32) /\
  (forall g6, v6 g = Some (G6 g6) -> nextLo g6 + 1 < 2 ^ 64).

(** An address that a generator has handed out: not above its counter. *)
Definition issued (g : Generators) (va : Addr) : Prop :=
  match va with
  | AddrZero => False
  | Addr4 x => exists g4, v4 g = Some (G4 g4) /\ x <= nextVirtualIP g4
  | Addr6 x z => z = ""%string /\ exists g6, v6 g = Some (G6 g6) /\ x <= fixedHi g6 * 2 ^ 64 + nextLo g6
  end.

Lemma NewGenerator_typed sn : pfx_wf sn -> p_IsValid sn = true ->
  (Is4 (pfx_Addr sn) = true -> exists g4, NewGenerator sn = G4 g4 /\ fits 32 (nextVirtualIP g4)) /\
  (Is6 (pfx_Addr sn) = true -> exists g6, NewGenerator sn = G6 g6 /\ fits 64 (fixedHi g6) /\ fits 64 (nextLo g6)).
Proof.
  intros Hw V. destruct (Masked_val sn Hw V) as (HM & _ & Hf). destruct (valid_bits sn Hw V) as [_ Hn].
  unfold NewGenerator. rewrite HM. destruct (with_val_props (pfx_Addr sn) (bottom sn) Hn) as (HL & HV & HZ & Hz0).
  destruct (pfx_Addr sn) as [|v|v z] eqn:Ea; [done|..]; split; try done; intros _; cbn [with_val Is4].
  - eexists. split; [done|]. cbn [nextVirtualIP]. rewrite intFromIPV4_val by exact Hf. exact Hf.
  - rewrite intsFromIPV6_val by exact Hf. eexists. split; [done|]. cbn [fixedHi nextLo].
    split; [|by apply wrap_fits]. apply (shiftr_fits 128 64 (bottom sn)); [lia|exact Hf].
Qed.

Lemma EnsureFamily_typed g a : gens_typed g -> gens_typed (EnsureFamily g a) /\
  (forall va, issued g va -> issued (EnsureFamily g a) va).
Proof.
  intros Hg. pose proof Hg as ((W4 & F4) & (W6 & F6) & T4 & T6). unfold EnsureFamily. destruct (Is4 a).
  - destruct (v4 g) as [x|] eqn:E; [by split|].
    destruct (p_IsValid (v4Subnet g)) eqn:V; [|by split]. split.
    + split_and!; try done. cbn. intros gen [= <-]. by apply (proj1 (NewGenerator_typed _ W4 V)).
    + intros [|x|x z]; cbn; [done| |done]. intros (g4 & E' & _). congruence.
  - destruct (v6 g) as [x|] eqn:E; [by split|].
    destruct (p_IsValid (v6Subnet g)) eqn:V; [|by split]. split.
    + split_and!; try done. cbn. intros gen [= <-]. by apply (proj2 (NewGenerator_typed _ W6 V)).
    + intros [|x|x z]; cbn; [done|done|]. intros (_ & g6 & E' & _). congruence.
Qed.

(** A call to [Next]: everything issued stays so, and the address returned is new. *)
Lemma Next_fresh g d g' r : gens_typed g -> room g -> Next g d = (g', r) ->
  gens_typed g' /\ (forall va, issued g va -> issued g' va) /\
  match r with
  | Ret va => a_IsValid va = true /\ ~ issued g va /\ issued g' va
  | Fail _ => True
  | Panic => False
  end.
Proof.
  intros Hg [R4 R6]. pose proof Hg as (S4 & S6 & T4 & T6). unfold Next. destruct (Is4 d).
  - destruct (v4 g) as [gen|] eqn:E; [|by intros [= <- <-]].
    destruct (T4 gen eq_refl) as (g4 & -> & Hf). specialize (R4 g4 eq_refl). cbn [gen_Next ip4_Next].
    assert (Hn : u32 (nextVirtualIP g4 + 1) = nextVirtualIP g4 + 1) by (apply (wrap_id 32); unfold fits in *; lia).
    rewrite Hn. intros [= <- <-]. split_and!.
    + split; [exact S4|split; [exact S6|split; [|exact T6]]]. cbn. intros gen [= <-]. eexists. split; [done|]. cbn. unfold fits in *. lia.
    + intros [|x|x z]; cbn; [done| |done]. intros (h4 & E' & Hx). rewrite E in E'. injection E' as ->.
      eexists. split; [done|]. cbn. lia.
    + destruct (negb _); [done|]. rewrite ipV4FromInt_val. rewrite (wrap_id 32) by (unfold fits in *; lia).
      split_and!; [done| |cbn; eexists; split; [done|cbn; lia]].
      cbn. rewrite E. intros (h4 & [= <-] & Hx). lia.
  - destruct (v6 g) as [gen|] eqn:E; [|by intros [= <- <-]].
    destruct (T6 gen eq_refl) as (g6 & -> & Hh & Hf). specialize (R6 g6 eq_refl). cbn [gen_Next vip6_Next].
    assert (Hn : u64 (nextLo g6 + 1) = nextLo g6 + 1) by (apply (wrap_id 64); unfold fits in *; lia).
    rewrite Hn. intros [= <- <-]. split_and!.
    + split; [exact S4|split; [exact S6|split; [exact T4|]]]. cbn. intros gen [= <-]. eexists. split; [done|]. cbn. unfold fits in *. lia.
    + intros [|x|x z]; cbn; [done|done|]. intros (-> & h6 & E' & Hx). rewrite E in E'. injection E' as ->.
      split; [done|]. eexists. split; [done|]. cbn [fixedHi nextLo]. lia.
    + destruct (negb _); [done|]. rewrite ipV6FromInts_val.
      rewrite !(wrap_id 64) by (unfold fits in *; lia).
      split_and!; [done| |cbn [issued]; split; [done|]; eexists; split; [done|cbn [fixedHi nextLo]; lia]].
      cbn [issued]. rewrite E. intros (_ & h6 & [= <-] & Hx). lia.
Qed.

(** ** The tables *)
Record vips_inv (s : Vips) : Prop := {
  vi_inverse d va : localTranslationTable s !! d = Some va <->
    exists wl, virtualIPs s !! va = Some {| av_workload := wl; av_destinationIP := d |};
  vi_issued va av g : virtualIPs s !! va = Some av -> vipGenerator s = Some g -> issued g va;
  vi_typed g : vipGenerator s = Some g -> gens_typed g;
  vi_none : vipGenerator s = None -> virtualIPs s = ∅
}.
Definition vips_room (s : Vips) : Prop := forall g, vipGenerator s = Some g -> room g.

(** Later states keep what earlier ones have handed out. *)
Definition extends (s s' : Vips) : Prop :=
  localTranslationTable s ⊆ localTranslationTable s' /\ virtualIPs s ⊆ virtualIPs s' /\
  localTranslationSubnets s' = localTranslationSubnets s.
Lemma extends_refl s : extends s s.
Proof. done. Qed.
Lemma extends_trans s1 s2 s3 : extends s1 s2 -> extends s2 s3 -> extends s1 s3.
Proof. intros (? & ? & ?) (? & ? & ?). split_and!; [by etrans..|congruence]. Qed.

(** What the address given for [d] is: [d] itself, or an address that leads back to it. *)
Definition local_ip (s : Vips) (d a : Addr) : Prop :=
  (a = d /\ subnet_for (localTranslationSubnets s) d = None) \/
  (exists wl, getAgentVIP s a = Some {| av_workload := wl; av_destinationIP := d |}).
Lemma local_ip_mono s s' d a : extends s s' -> local_ip s d a -> local_ip s' d a.
Proof.
  intros (_ & Hv & Hs) [[-> ?]|[wl H]]; [left; by rewrite Hs|right; exists wl]. by eapply lookup_weaken.
Qed.

Lemma vips_inv_valid s d va : vips_inv s -> localTranslationTable s !! d = Some va -> a_IsValid va = true.
Proof.
  intros Hi [wl Hv]%(vi_inverse _ Hi). destruct (vipGenerator s) as [g|] eqn:E.
  - pose proof (vi_issued _ Hi _ _ _ Hv E) as H. by destruct va.
  - rewrite (vi_none _ Hi E) in Hv. done.
Qed.

Lemma subnet_for_Some sns d sn : subnet_for sns d = Some sn -> sn ∈ sns /\ p_Contains (as_Prefix sn) d = true.
Proof.
  induction sns as [|x sns IH]; cbn [subnet_for]; [done|].
  destruct (p_Contains (as_Prefix x) d) eqn:E; [intros [= <-]; split; [apply list_elem_of_here|done]|].
  intros [? ?]%IH. split; [by apply list_elem_of_further|done].
Qed.

Lemma GetLocalIP_spec s d s' r : vips_inv s -> vips_room s -> GetLocalIP s d = (s', r) ->
  vips_inv s' /\ extends s s' /\
  match r with
  | Ret a => local_ip s' d a
  | Fail _ => virtualIPs s' = virtualIPs s
  | Panic => vipGenerator s = None
  end /\
  (forall a wl, r = Ret a -> localTranslationTable s !! d = None ->
     getAgentVIP s' a = Some {| av_workload := wl; av_destinationIP := d |} ->
     exists sn, subnet_for (localTranslationSubnets s) d = Some sn /\ wl = as_workload sn).
Proof.
  intros Hi Hr. unfold GetLocalIP. destruct (localTranslationTable s !! d) as [va|] eqn:Et.
  { intros [= <- <-]. rewrite (vips_inv_valid s d va) by done. split_and!; [done|done| |done].
    right. by apply (vi_inverse _ Hi). }
  destruct (subnet_for _ d) as [sn|] eqn:Es.
  2:{ intros [= <- <-]. split_and!; [done|done|by left|]. intros a wl [= <-] _ Hv.
      assert (localTranslationTable s !! d = Some d) by (apply (vi_inverse _ Hi); by exists wl). congruence. }
  unfold s_nextVirtualIP. destruct (vipGenerator s) as [g|] eqn:Eg; [|by intros [= <- <-]].
  destruct (Next g d) as [g' rn] eqn:En.
  destruct (Next_fresh g d g' rn (vi_typed _ Hi g Eg) (Hr g Eg) En) as (Ht & Hiss & Hn).
  destruct rn as [va|e|]; [| |done].
  2:{ intros [= <- <-]. split_and!; [|done|done|done]. split; cbn.
      - apply (vi_inverse _ Hi).
      - intros va av ? Hv [= <-]. apply Hiss. by eapply (vi_issued _ Hi).
      - by intros ? [= <-].
      - done. }
  destruct Hn as (Hval & Hfresh & Hnew).
  assert (Hva : virtualIPs s !! va = None).
  { destruct (virtualIPs s !! va) as [av|] eqn:E; [|done]. destruct Hfresh. by eapply (vi_issued _ Hi). }
  cbn [set_vips localTranslationTable virtualIPs vipGenerator]. rewrite Hval. intros [= <- <-]. split_and!.
  - split; cbn.
    + intros d0 va0. destruct (decide (d0 = d)) as [->|Hd].
      * rewrite lookup_insert_eq. destruct (decide (va0 = va)) as [->|Hv].
        -- rewrite lookup_insert_eq. split; [intros _; by eexists|done].
        -- rewrite lookup_insert_ne by done. split; [by intros [= ->]|]. intros [wl H]. exfalso.
           assert (localTranslationTable s !! d = Some va0) by (apply (vi_inverse _ Hi); by exists wl). congruence.
      * rewrite lookup_insert_ne by done. rewrite (vi_inverse _ Hi). destruct (decide (va0 = va)) as [->|Hv].
        -- rewrite lookup_insert_eq, Hva. split; [by intros [? ?]|]. intros [wl [= _ ->]]. done.
        -- by rewrite lookup_insert_ne by done.
    + intros va0 av g0 Hv [= <-]. destruct (decide (va0 = va)) as [->|Hne]; [done|].
      rewrite lookup_insert_ne in Hv by done. apply Hiss. by eapply (vi_issued _ Hi).
    + by intros ? [= <-].
    + done.
  - split_and!; [by apply insert_subseteq|by apply insert_subseteq|done].
  - right. exists (as_workload sn). unfold getAgentVIP. cbn. by rewrite lookup_insert_eq.
  - intros a wl [= <-] _. cbn. unfold getAgentVIP. cbn. rewrite lookup_insert_eq. intros [= <-]. by exists sn.
Qed.

(** States of the tables reached by giving out addresses and adding families. *)
Inductive vips_step : Vips -> Vips -> Prop :=
  | vs_get s d : vips_room s -> vips_step s (GetLocalIP s d).1
  | vs_family s g a : vipGenerator s = Some g ->
      vips_step s (set_vips s (localTranslationTable s) (virtualIPs s) (Some (EnsureFamily g a)))
  | vs_subnets s sns : vips_step s {| localTranslationTable := localTranslationTable s; localTranslationSubnets := sns;
      virtualIPs := virtualIPs s; vipGenerator := vipGenerator s |}.

Lemma vips_step_inv s s' : vips_step s s' -> vips_inv s -> vips_inv s'.
Proof.
  intros [s1 d Hr|s1 g a Eg|s1 sns] Hi.
  - destruct (GetLocalIP s1 d) as [s2 r] eqn:E. by eapply GetLocalIP_spec.
  - destruct (EnsureFamily_typed g a (vi_typed _ Hi g Eg)) as [Ht Hiss]. split; cbn.
    + apply (vi_inverse _ Hi).
    + intros va av ? Hv [= <-]. apply Hiss. by eapply (vi_issued _ Hi).
    + by intros ? [= <-].
    + done.
  - destruct Hi. by split.
Qed.

(** The state when the generators are created, before any address is given out. *)
Definition vips_start (sns : list agentSubnet) (s4 s6 : Prefix) : Vips :=
  {| localTranslationTable := ∅; localTranslationSubnets := sns; virtualIPs := ∅;
     vipGenerator := Some (NewGenerators s4 s6) |}.
Lemma vips_start_inv sns s4 s6 : pfx_wf s4 -> Is4 (pfx_Addr s4) = true -> pfx_wf s6 -> Is6 (pfx_Addr s6) = true ->
  vips_inv (vips_start sns s4 s6).
Proof.
  intros W4 F4 W6 F6. split; cbn; [|done| |done].
  - intros d va. split; [done|]. by intros [wl ?].
  - intros g [= <-]. by split_and!.
Qed.

Lemma vips_reach_inv s s' : rtc vips_step s s' -> vips_inv s -> vips_inv s'.
Proof. induction 1; [done|]. intros Hi. eauto using vips_step_inv. Qed.

(** In every state reached from fresh generators, whatever addresses were translated
    before and however the translated subnets have changed: the address that
    [GetLocalIP] gives leads back to the cluster's address through the table of virtual
    IPs (or is that address, when no subnet translates it), earlier virtual IPs keep
    their meaning, and no virtual IP stands for two addresses. *)
Theorem GetLocalIP_correct sns s4 s6 s d s' r :
  pfx_wf s4 -> Is4 (pfx_Addr s4) = true -> pfx_wf s6 -> Is6 (pfx_Addr s6) = true ->
  rtc vips_step (vips_start sns s4 s6) s -> vips_room s -> GetLocalIP s d = (s', r) ->
  extends s s' /\
  match r with
  | Ret a => local_ip s' d a
  | Fail _ => virtualIPs s' = virtualIPs s
  | Panic => vipGenerator s = None
  end /\
  (forall d1 d2 va, localTranslationTable s' !! d1 = Some va -> localTranslationTable s' !! d2 = Some va -> d1 = d2).
Proof.
  intros W4 F4 W6 F6 Hreach Hroom E.
  pose proof (vips_reach_inv _ _ Hreach (vips_start_inv sns s4 s6 W4 F4 W6 F6)) as Hi.
  destruct (GetLocalIP_spec s d s' r Hi Hroom E) as (Hi' & He & Hr & _). split_and!; [done|done|].
  intros d1 d2 va [w1 H1]%(vi_inverse _ Hi') [w2 H2]%(vi_inverse _ Hi'). congruence.
Qed.

Definition sample_subnets : list agentSubnet :=
  [{| as_Prefix := PrefixFrom (AddrFrom4 [10; 42; 0; 0]) 16; as_workload := "echo" |}].
Definition sample_v4 : Prefix := PrefixFrom (AddrFrom4 [246; 246; 0; 0]) 16.
Definition sample_vips : Vips :=
  {| localTranslationTable := ∅; localTranslationSubnets := sample_subnets; virtualIPs := ∅;
     vipGenerator := Some (EnsureFamily (NewGenerators sample_v4 TelepresenceULA6) (AddrFrom4 [10; 42; 0; 1])) |}.
Lemma sample_vips_reach : rtc vips_step (vips_start sample_subnets sample_v4 TelepresenceULA6) sample_vips.
Proof.
  eapply rtc_l; [|apply rtc_refl].
  exact (vs_family (vips_start sample_subnets sample_v4 TelepresenceULA6)
    (NewGenerators sample_v4 TelepresenceULA6) (AddrFrom4 [10; 42; 0; 1]) eq_refl).
Qed.
Lemma sample_vips_room : vips_room sample_vips.
Proof. intros g [= <-]. split; intros h; [intros [= <-]; by vm_compute|done]. Qed.

Lemma GetLocalIP_correct_witness :
  exists s', GetLocalIP sample_vips (AddrFrom4 [10; 42; 0; 9]) = (s', Ret (AddrFrom4 [246; 246; 0; 1])) /\
  local_ip s' (AddrFrom4 [10; 42; 0; 9]) (AddrFrom4 [246; 246; 0; 1]).
Proof.
  exists (GetLocalIP sample_vips (AddrFrom4 [10; 42; 0; 9])).1. split; [by vm_compute|].
  apply (GetLocalIP_correct sample_subnets sample_v4 TelepresenceULA6 sample_vips (AddrFrom4 [10; 42; 0; 9])
    (GetLocalIP sample_vips (AddrFrom4 [10; 42; 0; 9])).1 (Ret (AddrFrom4 [246; 246; 0; 1])));
    [decide_it|reflexivity|decide_it|reflexivity|exact sample_vips_reach|exact sample_vips_room|by vm_compute].
Defined.

(** ** Lookups *)

(** Enough addresses for [n] more translations. *)
Definition room_for (n : nat) (s : Vips) : Prop :=
  forall g, vipGenerator s = Some g ->
    (forall g4, v4 g = Some (G4 g4) -> nextVirtualIP g4 + Z.of_nat n < 2 ^ 32) /\
    (forall g6, v6 g = Some (G6 g6) -> nextLo g6 + Z.of_nat n < 2 ^ 64).
Lemma room_for_room n s : room_for (S n) s -> vips_room s.
Proof. intros Hr g Eg. destruct (Hr g Eg) as [H4 H6]. split; intros h Eh; [specialize (H4 h Eh)|specialize (H6 h Eh)]; lia. Qed.

Lemma Next_room g d n : gens_typed g ->
  (forall g4, v4 g = Some (G4 g4) -> nextVirtualIP g4 + Z.of_nat (S n) < 2 ^ 32) ->
  (forall g6, v6 g = Some (G6 g6) -> nextLo g6 + Z.of_nat (S n) < 2 ^ 64) ->
  (forall g4, v4 (Next g d).1 = Some (G4 g4) -> nextVirtualIP g4 + Z.of_nat n < 2 ^ 32) /\
  (forall g6, v6 (Next g d).1 = Some (G6 g6) -> nextLo g6 + Z.of_nat n < 2 ^ 64).
Proof.
  intros (_ & _ & T4 & T6) R4 R6. unfold Next. destruct (Is4 d).
  - destruct (v4 g) as [gen|] eqn:E.
    + destruct (T4 gen eq_refl) as (g4 & -> & Hf). specialize (R4 g4 eq_refl). cbn [gen_Next ip4_Next fst v4 v6].
      split; [|intros g6 E6; specialize (R6 g6 E6); lia]. intros h [= <-]. cbn [nextVirtualIP].
      change (u32 (nextVirtualIP g4 + 1)) with (wrap 32 (nextVirtualIP g4 + 1)). rewrite wrap_id by (unfold fits in *; lia). lia.
    + cbn [fst]. split; intros h Eh; [by rewrite E in Eh|specialize (R6 h Eh); lia].
  - destruct (v6 g) as [gen|] eqn:E.
    + destruct (T6 gen eq_refl) as (g6 & -> & _ & Hf). specialize (R6 g6 eq_refl). cbn [gen_Next vip6_Next fst v4 v6].
      split; [intros g4 E4; specialize (R4 g4 E4); lia|]. intros h [= <-]. cbn [nextLo].
      change (u64 (nextLo g6 + 1)) with (wrap 64 (nextLo g6 + 1)). rewrite wrap_id by (unfold fits in *; lia). lia.
    + cbn [fst]. split; intros h Eh; [specialize (R4 h Eh); lia|by rewrite E in Eh].
Qed.

Lemma GetLocalIP_room s d n : vips_inv s -> room_for (S n) s -> room_for n (GetLocalIP s d).1.
Proof.
  intros Hi Hr. assert (Hs : room_for n s).
  { intros g Eg. destruct (Hr g Eg) as [H4 H6]. split; intros h Eh; [specialize (H4 h Eh)|specialize (H6 h Eh)]; lia. }
  unfold GetLocalIP. destruct (localTranslationTable s !! d); [done|]. destruct (subnet_for _ d) as [sn|]; [|done].
  unfold s_nextVirtualIP. destruct (vipGenerator s) as [g|] eqn:Eg; [|done].
  destruct (Hr g Eg) as [H4 H6]. pose proof (Next_room g d n (vi_typed _ Hi g Eg) H4 H6) as HN.
  destruct (Next g d) as [g' rn]. cbn [fst] in HN. destruct rn; intros ? [= <-]; exact HN.
Qed.

Lemma translate_ips_spec ips s s' r : vips_inv s -> room_for (length ips) s -> translate_ips s ips = (s', r) ->
  vips_inv s' /\ extends s s' /\
  match r with
  | Ret ips' => Forall2 (local_ip s') ips ips'
  | Fail _ => True
  | Panic => vipGenerator s = None
  end.
Proof.
  revert s s' r. induction ips as [|ip ips IH]; intros s s' r Hi Hr; cbn [translate_ips].
  { intros [= <- <-]. split_and!; [done|done|constructor]. }
  pose proof (GetLocalIP_room s ip (length ips) Hi Hr) as Hr1.
  destruct (GetLocalIP s ip) as [s1 r1] eqn:E1. cbn [fst] in Hr1.
  destruct (GetLocalIP_spec s ip s1 r1 Hi (room_for_room _ _ Hr) E1) as (Hi1 & He1 & Hl & _).
  destruct r1 as [a|e|]; [|by intros [= <- <-]|by intros [= <- <-]].
  destruct (translate_ips s1 ips) as [s2 r2] eqn:E2. destruct (IH s1 s2 r2 Hi1 Hr1 E2) as (Hi2 & He2 & Hl2).
  intros [= <- <-]. split_and!; [done|by eapply extends_trans|]. destruct r2 as [ips'|e|]; cbn; [|done|].
  - constructor; [by eapply local_ip_mono|done].
  - (* a generator does not disappear *)
    revert E1 Hl2. unfold GetLocalIP. destruct (localTranslationTable s !! ip); [by intros [= -> _]|].
    destruct (subnet_for _ ip); [|by intros [= -> _]]. unfold s_nextVirtualIP.
    destruct (vipGenerator s) as [g|]; [|done]. destruct (Next g ip) as [g' []]; by intros [= <- _].
Qed.

(** A lookup through the sequencer's path answers for every address that the cluster has
    for the name, translated or not as the subnets say: the records are those of
    addresses that lead back to the cluster's, IPv4 before IPv6, and a family without
    address has one empty record. *)
Theorem simpleLookup_answers `{DnsCodec} LookupDNS LookupCall s qName qType raw s' rrs :
  vips_inv (lk_vips s) -> room_for (length raw) (lk_vips s) -> localTranslationSubnets (lk_vips s) <> [] ->
  LookupCall qName = inr raw -> raw <> [] ->
  simpleLookup LookupDNS LookupCall s qName qType = (s', Ret (rrs, RcodeSuccess, None)) ->
  exists ips, Forall2 (local_ip (lk_vips s')) ((fun b => default AddrZero (Addr_UnmarshalBinary b)) <$> raw) ips /\
    let ips4 := (fun a => rrHeader qName TypeA (rA (AsSlice a))) <$> filter (fun a => Is6 a = false) ips in
    let ips6 := (fun a => rrHeader qName TypeAAAA (rAAAA (AsSlice a))) <$> filter (fun a => Is6 a = true) ips in
    rrs = (if decide (ips4 = []) then [rrHeader qName TypeA (rA [])] else ips4) ++
          (if decide (ips6 = []) then [rrHeader qName TypeAAAA (rAAAA [])] else ips6).
Proof.
  intros Hi Hr Hsub Hc Hne. unfold simpleLookup. rewrite Hc. destruct raw as [|b raw]; [done|].
  set (ds := (fun b => default AddrZero (Addr_UnmarshalBinary b)) <$> b :: raw).
  destruct (localTranslationSubnets (lk_vips s)) as [|sn sns] eqn:Es; [done|].
  destruct (translate_ips (lk_vips s) ds) as [v r] eqn:Et.
  destruct (translate_ips_spec ds (lk_vips s) v r Hi) as (_ & _ & Hl).
  { unfold ds. by rewrite length_fmap. }
  { done. }
  destruct r as [ips|e|]; [|by intros [=]|done]. intros Ea.
  assert (Hsplit : splitNameTypes qName ips =
    ((fun a => rrHeader qName TypeA (rA (AsSlice a))) <$> filter (fun a => Is6 a = false) ips,
     (fun a => rrHeader qName TypeAAAA (rAAAA (AsSlice a))) <$> filter (fun a => Is6 a = true) ips)).
  { clear. induction ips as [|a ips IH]; cbn [splitNameTypes]; [done|]. rewrite IH. destruct (Is6 a) eqn:E6.
    - by rewrite filter_cons_False, filter_cons_True by congruence.
    - by rewrite filter_cons_True, filter_cons_False by congruence. }
  rewrite Hsplit in Ea. injection Ea as <- <-. exists ips. split; [exact Hl|]. cbv zeta.
  assert (ips <> []) as Hips.
  { intros ->. apply Forall2_length in Hl. unfold ds in Hl. by rewrite length_fmap in Hl. }
  assert (Hex : filter (fun a => Is6 a = false) ips <> [] \/ filter (fun a => Is6 a = true) ips <> []).
  { destruct ips as [|a ips]; [done|]. destruct (Is6 a) eqn:E6; [right|left]; by rewrite filter_cons_True by done. }
  unfold ensureBothFamilies.
  destruct (filter (fun a => Is6 a = false) ips), (filter (fun a => Is6 a = true) ips); cbn [fmap list_fmap app].
  - destruct Hex; done.
  - by rewrite decide_True, decide_False by done.
  - by rewrite decide_False, decide_True by done.
  - by rewrite !decide_False by done.
Qed.
