(* ===== verification/SessionStream.v ===== *)
(** * Dispatch of connections by the root daemon's session
      (src/pkg/client/rootd/stream_creator.go, src/pkg/client/rootd/intercept_shortcuts.go)

    For each connection that the virtual device receives, [streamCreator] decides where
    it goes: the local DNS server, a local intercept handler, a traffic-agent or the
    traffic-manager.  The agents' clients and the outcome of opening a tunnel are
    parameters. *)
From S2P Require Import Prelude NetIP GoStrings PortTypes ConnId IpUtil SessionVip.

(** ** Intercept shortcuts *)
Record workloadPort := { wp_namespace : string; wp_workload : string; wp_proto : Z; wp_port : Z }.
Global Instance workloadPort_eq_dec : EqDecision workloadPort.
Proof. solve_decision. Defined.
Global Instance workloadPort_countable : Countable workloadPort.
Proof.
  refine (inj_countable' (fun p => (wp_namespace p, wp_workload p, wp_proto p, wp_port p))
    (fun x => {| wp_namespace := x.1.1.1; wp_workload := x.1.1.2; wp_proto := x.1.2; wp_port := x.2 |}) _).
  by intros [].
Defined.

Record shortcutTable := { byAddr : gmap AddrPortProto AddrPort; byWorkload : gmap workloadPort AddrPort }.
Record InterceptShortcut := {
  sc_Protocol : string; sc_Target : list Z; sc_ServiceAddrs : list (list Z);
  sc_Workload : string; sc_Namespace : string; sc_ContainerPort : Z      (* int32 *)
}.

Definition validAddrPort (b : list Z) : option AddrPort :=
  ap ← AddrPort_UnmarshalBinary b; if a_IsValid (ap_addr ap) then Some ap else None.

(** The loop over the service addresses; the flag tells that all were valid. *)
Fixpoint add_service_addrs (proto : Z) (target : AddrPort) (addrs : list (list Z)) (m : gmap AddrPortProto AddrPort) :
    gmap AddrPortProto AddrPort * bool :=
  match addrs with
  | [] => (m, true)
  | sab :: addrs =>
      match validAddrPort sab with
      | None => (m, false)
      | Some sa => add_service_addrs proto target addrs (<[{| app_AddrPort := sa; app_Proto := proto |} := target]> m)
      end
  end.

Definition add_shortcut (t : shortcutTable) (sc : InterceptShortcut) : shortcutTable :=
  match ParseProto (sc_Protocol sc) with
  | Ret proto =>
      match validAddrPort (sc_Target sc) with
      | None => t
      | Some target =>
          let '(m, ok) := add_service_addrs proto target (sc_ServiceAddrs sc) (byAddr t) in
          {| byAddr := m;
             byWorkload :=
               if ok && negb (bool_decide (sc_Workload sc = ""%string)) && (0 <? sc_ContainerPort sc)
               then <[{| wp_namespace := sc_Namespace sc; wp_workload := sc_Workload sc; wp_proto := proto;
                         wp_port := wrap 16 (sc_ContainerPort sc) |} := target]> (byWorkload t)
               else byWorkload t |}
      end
  | _ => t
  end.
Definition newShortcutTable (shortcuts : list InterceptShortcut) : option shortcutTable :=
  match shortcuts with
  | [] => None
  | _ => Some (foldl add_shortcut {| byAddr := ∅; byWorkload := ∅ |} shortcuts)
  end.

(** [target]; [podWorkload] is nil when there are no agent clients. *)
Definition sc_target (t : option shortcutTable) (p : Z) (dst : AddrPort)
    (podWorkload : option (Addr -> option (string * string))) : option AddrPort :=
  match t with
  | None => None
  | Some t =>
      match byAddr t !! {| app_AddrPort := dst; app_Proto := p |} with
      | Some lt => Some lt
      | None =>
          match podWorkload with
          | None => None
          | Some f =>
              if bool_decide (byWorkload t = ∅) then None
              else '(wl, ns) ← f (ap_addr dst);
                   byWorkload t !! {| wp_namespace := ns; wp_workload := wl; wp_proto := p; wp_port := ap_port dst |}
          end
      end
  end.

(** ** The stream creator *)
Definition checkRecursion (ip : Addr) (sn : Prefix) : bool :=
  p_Contains sn ip && negb (bool_decide (ip = pfx_Addr (Masked sn))).

(** The clients of the traffic-agents. *)
Record AgentClients (P : Type) := {
  GetWorkloadClient : string -> option P;
  GetClient : Addr -> option P;
  WorkloadForIP : Addr -> option (string * string)
}.
Arguments GetWorkloadClient {P}.
Arguments GetClient {P}.
Arguments WorkloadForIP {P}.

Record StreamSession := {
  ss_podSubnets : list Prefix;
  ss_alsoProxySubnets : list Prefix;
  ss_vifDNS : AddrPort;
  ss_localDNS : AddrPort;
  ss_vips : Vips;
  l4PortMap : gmap AddrPortProto Z;
  interceptShortcuts : option shortcutTable;
  outboundTunnels : Z;
  outboundTunnelErrors : Z
}.

Definition SetInterceptShortcuts (s : StreamSession) (scs : list InterceptShortcut) : StreamSession :=
  {| ss_podSubnets := ss_podSubnets s; ss_alsoProxySubnets := ss_alsoProxySubnets s; ss_vifDNS := ss_vifDNS s;
     ss_localDNS := ss_localDNS s; ss_vips := ss_vips s; l4PortMap := l4PortMap s;
     interceptShortcuts := newShortcutTable scs;
     outboundTunnels := outboundTunnels s; outboundTunnelErrors := outboundTunnelErrors s |}.

(** [rerouteRemotePort]: the map goes from the new port to the original one. *)
Definition rerouteRemotePort (s : StreamSession) (ap : AddrPortProto) (newPort : Z) : StreamSession :=
  if bool_decide (newPort = ap_port (app_AddrPort ap)) then s
  else {| ss_podSubnets := ss_podSubnets s; ss_alsoProxySubnets := ss_alsoProxySubnets s; ss_vifDNS := ss_vifDNS s;
          ss_localDNS := ss_localDNS s; ss_vips := ss_vips s;
          l4PortMap := <[{| app_AddrPort := {| ap_addr := ap_addr (app_AddrPort ap); ap_port := newPort |};
                            app_Proto := app_Proto ap |} := ap_port (app_AddrPort ap)]> (l4PortMap s);
          interceptShortcuts := interceptShortcuts s;
          outboundTunnels := outboundTunnels s; outboundTunnelErrors := outboundTunnelErrors s |}.

Definition isForDNS (s : StreamSession) (ip : Addr) (port : Z) : bool :=
  bool_decide (ap_addr (ss_vifDNS s) = ip) && (ap_port (ss_vifDNS s) =? port).
Definition isAlsoProxyDestination (s : StreamSession) (ip : Addr) : bool :=
  existsb (fun sn => p_Contains sn ip) (ss_alsoProxySubnets s).

Definition count (s : StreamSession) (ok : bool) : StreamSession :=
  {| ss_podSubnets := ss_podSubnets s; ss_alsoProxySubnets := ss_alsoProxySubnets s; ss_vifDNS := ss_vifDNS s;
     ss_localDNS := ss_localDNS s; ss_vips := ss_vips s; l4PortMap := l4PortMap s;
     interceptShortcuts := interceptShortcuts s;
     outboundTunnels := if ok then outboundTunnels s + 1 else outboundTunnels s;
     outboundTunnelErrors := if ok then outboundTunnelErrors s else outboundTunnelErrors s + 1 |}.

Inductive sc_error := ErrRecursive (ip : Addr) (sn : Prefix) | ErrNoAgentFor (workload : string) | ErrTunnel.
Inductive provider (P : Type) := ByManager | ByAgent (p : P).
Arguments ByManager {P}.
Arguments ByAgent {P} p.

(** Where a connection goes: through a pipe to the local DNS server or an intercept
    handler, or through a tunnel; the identifier is the one the far end is given. *)
Inductive stream (P : Type) :=
  | DnsPipe (pipeId : ConnID)
  | LocalPipe (pipeId : ConnID)
  | Tunnel (tp : provider P) (id : ConnID).
Arguments DnsPipe {P} pipeId.
Arguments LocalPipe {P} pipeId.
Arguments Tunnel {P} tp id.

Section StreamCreator.
Context {P : Type}.
(** nil agent clients, and whether a tunnel can be opened *)
Context (agents : option (AgentClients P)) (opens : provider P -> ConnID -> bool).

(** Replace the destination of an identifier; identifiers of the device never panic. *)
Definition redirect (id : ConnID) (dst : AddrPort) : Go Empty_set ConnID :=
  p ← or_panic (Protocol id); src ← or_panic (Source id); NewConnID p src dst.

Definition port_mapped (s : StreamSession) (p : Z) (destAddr : Addr) (destPort : Z) (id : ConnID) : Go Empty_set ConnID :=
  match l4PortMap s !! {| app_AddrPort := {| ap_addr := destAddr; ap_port := destPort |}; app_Proto := p |} with
  | Some mp => redirect id {| ap_addr := destAddr; ap_port := mp |}
  | None => Ret id
  end.

(** The tunnel of last resort: traffic-manager or the agent of the destination. *)
Definition pick_provider (s : StreamSession) (destAddr : Addr) : provider P :=
  if isAlsoProxyDestination s destAddr then ByManager
  else match agents with
       | None => ByManager
       | Some ac => match GetClient ac destAddr with Some p => ByAgent p | None => ByManager end
       end.

Definition open_tunnel (s : StreamSession) (tp : provider P) (id : ConnID) : StreamSession * (sc_error + stream P) :=
  if opens tp id then (count s true, inr (Tunnel tp id)) else (count s false, inl ErrTunnel).

Definition after_vip (s : StreamSession) (p : Z) (destAddr : Addr) (tp : option P) (id : ConnID) :
    Go Empty_set (StreamSession * (sc_error + stream P)) :=
  dst ← or_panic (Destination id);
  match sc_target (interceptShortcuts s) p dst (WorkloadForIP <$> agents) with
  | Some lt => src ← or_panic (Source id); pipeId ← NewConnID p src lt; Ret (s, inr (LocalPipe pipeId))
  | None => Ret (open_tunnel s (match tp with Some tp => ByAgent tp | None => pick_provider s destAddr end) id)
  end.

Definition streamCreator (s : StreamSession) (id : ConnID) : Go Empty_set (StreamSession * (sc_error + stream P)) :=
  p ← or_panic (Protocol id);
  srcIp ← or_panic (SourceAddr id);
  match list_find (fun sn => checkRecursion srcIp sn = true) (ss_podSubnets s) with
  | Some (_, sn) => Ret (count s false, inl (ErrRecursive srcIp sn))
  | None =>
      destAddr ← or_panic (DestinationAddr id);
      destPort ← or_panic (DestinationPort id);
      if (p =? ProtoUDP) && isForDNS s destAddr destPort then
        pipeId ← redirect id (ss_localDNS s); Ret (s, inr (DnsPipe pipeId))
      else
        id ← port_mapped s p destAddr destPort id;
        match getAgentVIP (ss_vips s) destAddr with
        | None => after_vip s p destAddr None id
        | Some a =>
            port ← or_panic (DestinationPort id);
            let dst := {| ap_addr := av_destinationIP a; ap_port := port |} in
            if bool_decide (av_workload a = ""%string) then
              id ← redirect id dst; after_vip s p (av_destinationIP a) None id
            else
              match agents with
              | None => Panic
              | Some ac =>
                  match GetWorkloadClient ac (av_workload a) with
                  | None => Ret (count s false, inl (ErrNoAgentFor (av_workload a)))
                  | Some tp => id ← redirect id dst; after_vip s p destAddr (Some tp) id
                  end
              end
        end
  end.
End StreamCreator.
