(* ===== verification/SessionStreamSpec.v ===== *)
(** * What the dispatch of connections promises (src/pkg/client/rootd/stream_creator.go,
      src/pkg/client/rootd/intercept_shortcuts.go)

    A connection to a virtual IP reaches the address that the virtual IP was made for,
    through the workload that the subnet names; every connection is counted once; the
    shortcuts are those that were declared. *)
From S2P Require Import Prelude NetIP Vip GoStrings DnsProxy PortTypes ConnId IpUtil SessionVip SessionVipSpec SessionStream.

Section Dispatch.
Context {P : Type} (agents : option (AgentClients P)) (opens : provider P -> ConnID -> bool).

(** An identifier as the device makes it. *)
Definition conn (id : ConnID) (p : Z) (src dst : AddrPort) : Prop :=
  decodes id (ap_addr src) (ap_addr dst) (ap_port src) (ap_port dst) p.

Lemma decodes_parts id s d sp dp p : decodes id s d sp dp p ->
  SourceAddr id = Some s /\ DestinationAddr id = Some d /\ DestinationPort id = Some dp /\ Protocol id = Some p /\
  Source id = Some {| ap_addr := s; ap_port := sp |} /\ Destination id = Some {| ap_addr := d; ap_port := dp |}.
Proof.
  intros (Hs & Hd & Hp). pose proof Hs as Hs'. pose proof Hd as Hd'. unfold Source in Hs'. unfold Destination in Hd'.
  destruct (SourceAddr id); [|done]. destruct (SourcePort id); [|done].
  destruct (DestinationAddr id); [|done]. destruct (DestinationPort id); [|done].
  injection Hs' as -> ->. injection Hd' as -> ->. done.
Qed.

(** Changing the destination keeps source and protocol. *)
Lemma redirect_spec id p src dst dst' : conn id p src dst -> valid_endpoint src -> valid_endpoint dst' -> fits 8 p ->
  canon (ap_addr src) = ap_addr src -> canon (ap_addr dst') = ap_addr dst' ->
  exists id', redirect id dst' = Ret id' /\ conn id' p src dst'.
Proof.
  intros Hc Hs Hd Hp Cs Cd. destruct (decodes_parts _ _ _ _ _ _ Hc) as (_ & _ & _ & E1 & E2 & _).
  destruct (NewConnID_decodes p src dst' Hs Hd Hp) as (id' & En & _ & Hdec). rewrite Cs, Cd in Hdec.
  exists id'. unfold redirect. rewrite E1, E2. cbn [or_panic mbind go_bind]. by destruct src.
Qed.

(** The connection is none of those handled before the virtual IPs are looked at. *)
Definition ordinary (s : StreamSession) (p : Z) (src dst : AddrPort) : Prop :=
  list_find (fun sn => checkRecursion (ap_addr src) sn = true) (ss_podSubnets s) = None /\
  (p =? ProtoUDP) && isForDNS s (ap_addr dst) (ap_port dst) = false /\
  l4PortMap s !! {| app_AddrPort := dst; app_Proto := p |} = None.

Lemma streamCreator_ordinary s id p src dst : conn id p src dst -> ordinary s p src dst ->
  streamCreator agents opens s id =
  match getAgentVIP (ss_vips s) (ap_addr dst) with
  | None => after_vip agents opens s p (ap_addr dst) None id
  | Some a =>
      let dst' := {| ap_addr := av_destinationIP a; ap_port := ap_port dst |} in
      if bool_decide (av_workload a = ""%string) then
        id ← redirect id dst'; after_vip agents opens s p (av_destinationIP a) None id
      else match agents with
           | None => Panic
           | Some ac =>
               match GetWorkloadClient ac (av_workload a) with
               | None => Ret (count s false, inl (ErrNoAgentFor (av_workload a)))
               | Some tp => id ← redirect id dst'; after_vip agents opens s p (ap_addr dst) (Some tp) id
               end
           end
  end.
Proof.
  intros Hc (Hr & Hd & Hm). destruct (decodes_parts _ _ _ _ _ _ Hc) as (E1 & E2 & E3 & E4 & _ & _).
  unfold streamCreator. rewrite E1, E2, E3, E4. cbn [or_panic mbind go_bind]. rewrite Hr, Hd.
  unfold port_mapped. destruct dst as [da dp]. cbn [ap_addr ap_port] in *. rewrite Hm. cbn [mbind go_bind].
  destruct (getAgentVIP (ss_vips s) da) as [a|]; [|done]. rewrite E3. cbn [or_panic mbind go_bind]. done.
Qed.

Lemma after_vip_open s p src dst tp id a : conn id p src dst ->
  sc_target (interceptShortcuts s) p dst (WorkloadForIP <$> agents) = None ->
  after_vip agents opens s p a tp id =
  Ret (open_tunnel opens s (match tp with Some tp => ByAgent tp | None => pick_provider agents s a end) id).
Proof.
  intros Hc Ht. destruct (decodes_parts _ _ _ _ _ _ Hc) as (_ & _ & _ & _ & _ & E).
  unfold after_vip. rewrite E. cbn [or_panic mbind go_bind]. destruct dst as [da dp]. cbn [ap_addr ap_port]. by rewrite Ht.
Qed.

(** C7. The whole way of a connection to a translated address. The cluster's DNS answers [d], an
    address that is in a translated subnet and has not been translated yet, while there is a
    virtual address left; [GetLocalIP] gives the application [va] instead. When the
    application connects to [va] and the connection is an ordinary one (it does not come
    from a pod, is no question to the DNS server, has no entry in the port map of the
    session, and no shortcut of an intercept is there for [d] at that port), the tunnel is
    opened with the far end told to dial [d] at the same port: by the provider for [d] when
    the translated subnet has no workload (that is, for the workload "local"), and otherwise
    by an agent of its workload, when there is a client for one. *)
Theorem translated_connection v d v' va sn s id p src port :
  vips_inv v -> vips_room v -> GetLocalIP v d = (v', Ret va) ->
  localTranslationTable v !! d = None -> subnet_for (localTranslationSubnets v) d = Some sn ->
  ss_vips s = v' -> addr_wf d -> d <> AddrZero -> canon d = d -> fits 16 port -> fits 8 p ->
  valid_endpoint src -> canon (ap_addr src) = ap_addr src ->
  let dst := {| ap_addr := va; ap_port := port |} in
  let real := {| ap_addr := d; ap_port := port |} in
  conn id p src dst -> ordinary s p src dst ->
  sc_target (interceptShortcuts s) p real (WorkloadForIP <$> agents) = None ->
  exists id', conn id' p src real /\
    (as_workload sn = ""%string ->
       streamCreator agents opens s id = Ret (open_tunnel opens s (pick_provider agents s d) id')) /\
    (forall ac tp, as_workload sn <> ""%string -> agents = Some ac -> GetWorkloadClient ac (as_workload sn) = Some tp ->
       streamCreator agents opens s id = Ret (open_tunnel opens s (ByAgent tp) id')).
Proof.
  intros Hi Hr Eg Et Es <- Hd Hd0 Hcan Hport Hp Hsrc Hcs dst real Hc Ho Hsc.
  destruct (GetLocalIP_spec v d (ss_vips s) (Ret va) Hi Hr Eg) as (Hi' & (_ & _ & Hsub) & Hl & Hwl).
  assert (Hv : getAgentVIP (ss_vips s) va = Some {| av_workload := as_workload sn; av_destinationIP := d |}).
  { destruct Hl as [[_ Hn]|[wl Hv]]; [congruence|].
    destruct (Hwl va wl eq_refl Et Hv) as (sn' & Es' & ->). congruence. }
  destruct (redirect_spec id p src dst real Hc Hsrc ltac:(done) Hp Hcs Hcan) as (id' & Er & Hc').
  exists id'. split; [done|]. rewrite (streamCreator_ordinary s id p src dst Hc Ho). cbn [dst ap_addr ap_port].
  rewrite Hv. cbn [av_workload av_destinationIP]. fold real. rewrite Er. cbn [mbind go_bind]. split.
  - intros ->. rewrite bool_decide_eq_true_2 by done. by rewrite (after_vip_open s p src real).
  - intros ac tp Hne Ha Hw. rewrite bool_decide_eq_false_2 by done. rewrite Ha, Hw. rewrite <- Ha.
    by rewrite (after_vip_open s p src real).
Qed.

(** Every connection is counted once, as a tunnel or as an error, except those piped to
    the local DNS server or to an intercept handler, which are not counted. *)
Theorem streamCreator_counts s id s' r : streamCreator agents opens s id = Ret (s', r) ->
  match r with
  | inl _ => s' = count s false
  | inr (Tunnel _ _) => s' = count s true
  | inr _ => s' = s
  end.
Proof.
  unfold streamCreator. destruct (Protocol id) as [p|]; cbn [or_panic mbind go_bind]; [|done].
  destruct (SourceAddr id) as [sa|]; cbn [or_panic mbind go_bind]; [|done].
  destruct (list_find _ (ss_podSubnets s)) as [[i sn]|]; [by intros [= <- <-]|].
  destruct (DestinationAddr id) as [da|]; cbn [or_panic mbind go_bind]; [|done].
  destruct (DestinationPort id) as [dp|]; cbn [or_panic mbind go_bind]; [|done].
  assert (Ha : forall q a tp i s' r, after_vip agents opens s q a tp i = Ret (s', r) ->
    match r with inl _ => s' = count s false | inr (Tunnel _ _) => s' = count s true | inr _ => s' = s end).
  { clear. intros q a tp i s' r. unfold after_vip, open_tunnel.
    destruct (Destination i); cbn [or_panic mbind go_bind]; [|done].
    destruct (sc_target _ _ _ _) as [lt|].
    - destruct (Source i); cbn [or_panic mbind go_bind]; [|done].
      destruct (NewConnID _ _ _); cbn [mbind go_bind]; [|done|done]. by intros [= <- <-].
    - intros E. destruct (opens _ i); by injection E as <- <-. }
  destruct (_ && isForDNS s da dp).
  { destruct (redirect id _); cbn [mbind go_bind]; [|done|done]. by intros [= <- <-]. }
  destruct (port_mapped s p da dp id) as [i2|?|]; cbn [mbind go_bind]; [|done|done].
  destruct (getAgentVIP (ss_vips s) da) as [a|]; [|apply Ha].
  destruct (DestinationPort i2) as [port|]; cbn [or_panic mbind go_bind]; [|done].
  case_bool_decide.
  { destruct (redirect i2 _); cbn [mbind go_bind]; [apply Ha|done|done]. }
  destruct agents as [ac|] eqn:Eag; [|done]. rewrite <- Eag in *.
  destruct (GetWorkloadClient ac (av_workload a)); [|by intros [= <- <-]].
  destruct (redirect i2 _); cbn [mbind go_bind]; [apply Ha|done|done].
Qed.
End Dispatch.

(** ** Shortcuts *)

(** The address entries of a table are those that the declared shortcuts give. *)
Definition declared (scs : list InterceptShortcut) (k : AddrPortProto) (target : AddrPort) : Prop :=
  exists sc b, sc ∈ scs /\ ParseProto (sc_Protocol sc) = Ret (app_Proto k) /\ validAddrPort (sc_Target sc) = Some target /\
    b ∈ sc_ServiceAddrs sc /\ validAddrPort b = Some (app_AddrPort k).
Definition declared_port (scs : list InterceptShortcut) (k : workloadPort) (target : AddrPort) : Prop :=
  exists sc, sc ∈ scs /\ ParseProto (sc_Protocol sc) = Ret (wp_proto k) /\ validAddrPort (sc_Target sc) = Some target /\
    sc_Namespace sc = wp_namespace k /\ sc_Workload sc = wp_workload k /\ wp_workload k <> ""%string /\
    0 < sc_ContainerPort sc /\ wp_port k = wrap 16 (sc_ContainerPort sc).

Lemma add_service_addrs_spec proto target addrs m k t :
  (add_service_addrs proto target addrs m).1 !! k = Some t ->
  m !! k = Some t \/ (t = target /\ app_Proto k = proto /\ exists b, b ∈ addrs /\ validAddrPort b = Some (app_AddrPort k)).
Proof.
  revert m. induction addrs as [|b addrs IH]; intros m; cbn [add_service_addrs]; [by left|].
  destruct (validAddrPort b) as [sa|] eqn:E; [|by left]. intros [Hk|(-> & <- & b' & Hb & Ev)]%IH.
  - destruct (decide (k = {| app_AddrPort := sa; app_Proto := proto |})) as [->|Hne].
    + rewrite lookup_insert_eq in Hk. injection Hk as <-. right. split_and!; [done|done|]. exists b.
      split; [apply list_elem_of_here|done].
    + rewrite lookup_insert_ne in Hk by done. by left.
  - right. split_and!; [done|done|]. exists b'. split; [by apply list_elem_of_further|done].
Qed.

Definition table_ok (scs : list InterceptShortcut) (t : shortcutTable) : Prop :=
  (forall k x, byAddr t !! k = Some x -> declared scs k x) /\
  (forall k x, byWorkload t !! k = Some x -> declared_port scs k x).

Lemma add_shortcut_ok scs t sc : sc ∈ scs -> table_ok scs t -> table_ok scs (add_shortcut t sc).
Proof.
  intros Hsc [Ha Hw]. unfold add_shortcut. destruct (ParseProto (sc_Protocol sc)) as [proto| |] eqn:Ep; [|done|done].
  destruct (validAddrPort (sc_Target sc)) as [target|] eqn:Et; [|done].
  pose proof (add_service_addrs_spec proto target (sc_ServiceAddrs sc) (byAddr t)) as Hs.
  destruct (add_service_addrs _ _ _ _) as [m ok]. cbn [fst] in Hs. split; cbn [byAddr byWorkload].
  - intros k x [Hk|(-> & <- & b & Hb & Ev)]%Hs; [by apply Ha|]. by exists sc, b.
  - intros k x. destruct (_ && (0 <? sc_ContainerPort sc)) eqn:E; [|apply Hw].
    apply andb_true_iff in E as [[_ Hwl]%andb_true_iff Hcp]. apply Z.ltb_lt in Hcp.
    apply negb_true_iff, bool_decide_eq_false in Hwl.
    set (key := {| wp_namespace := sc_Namespace sc |}). destruct (decide (k = key)) as [->|Hne].
    + rewrite lookup_insert_eq. intros [= <-]. exists sc. by split_and!.
    + rewrite lookup_insert_ne by done. apply Hw.
Qed.

Lemma table_ok_fold scs l t : (forall sc, sc ∈ l -> sc ∈ scs) -> table_ok scs t -> table_ok scs (foldl add_shortcut t l).
Proof.
  revert t. induction l as [|sc l IH]; intros t Hl Ht; [done|]. cbn [foldl].
  apply IH; [set_solver|]. apply add_shortcut_ok; [set_solver|done].
Qed.
Lemma newShortcutTable_ok scs t : newShortcutTable scs = Some t -> table_ok scs t.
Proof.
  unfold newShortcutTable. destruct scs as [|sc scs]; [done|]. intros Et. injection Et as Et. rewrite <- Et.
  apply (table_ok_fold (sc :: scs) (sc :: scs)); [done|].
  split; intros k x Hk; cbn in Hk; by rewrite lookup_empty in Hk.
Qed.

(** A connection is only ever short-cut to a handler that some declared shortcut names
    for that very destination: its address and port, or the workload of the pod at that
    address and the container port. *)
Theorem shortcut_declared scs p dst podWorkload lt :
  sc_target (newShortcutTable scs) p dst podWorkload = Some lt ->
  declared scs {| app_AddrPort := dst; app_Proto := p |} lt \/
  exists f wl ns, podWorkload = Some f /\ f (ap_addr dst) = Some (wl, ns) /\
    declared_port scs {| wp_namespace := ns; wp_workload := wl; wp_proto := p; wp_port := ap_port dst |} lt.
Proof.
  destruct (newShortcutTable scs) as [t|] eqn:Et; [|done]. destruct (newShortcutTable_ok scs t Et) as [Ha Hw]. cbn [sc_target].
  destruct (byAddr t !! _) as [x|] eqn:E; [intros [= <-]; left; by apply Ha|].
  destruct podWorkload as [f|]; [|done]. case_bool_decide; [done|].
  destruct (f (ap_addr dst)) as [[wl ns]|] eqn:Ef; cbn; [|done]. intros Hk. right. exists f, wl, ns.
  split_and!; [done|done|by apply Hw].
Qed.

Definition addr_bytes (a b c d lo hi : Z) : list Z := [a; b; c; d; lo; hi].
Definition half_bad : InterceptShortcut :=
  {| sc_Protocol := "TCP"; sc_Target := addr_bytes 127 0 0 1 144 31;
     sc_ServiceAddrs := [addr_bytes 10 96 0 7 80 0; [1; 2; 3]]; sc_Workload := "echo"; sc_Namespace := "default";
     sc_ContainerPort := 8080 |}.
Definition ap (a b c d port : Z) : AddrPort := {| ap_addr := AddrFrom4 [a; b; c; d]; ap_port := port |}.

Lemma shortcut_declared_witness :
  sc_target (newShortcutTable [half_bad]) ProtoTCP (ap 10 96 0 7 80) None = Some (ap 127 0 0 1 8080) /\
  (declared [half_bad] {| app_AddrPort := ap 10 96 0 7 80; app_Proto := ProtoTCP |} (ap 127 0 0 1 8080) \/
   exists f wl ns, @None (Addr -> option (string * string)) = Some f /\ f (ap_addr (ap 10 96 0 7 80)) = Some (wl, ns) /\
    declared_port [half_bad] {| wp_namespace := ns; wp_workload := wl; wp_proto := ProtoTCP; wp_port := 80 |} (ap 127 0 0 1 8080)).
Proof.
  split; [by vm_compute|]. apply (shortcut_declared [half_bad] ProtoTCP (ap 10 96 0 7 80) None). by vm_compute.
Defined.

(** A shortcut with an invalid service address is reported as ignored, but the
    addresses before the invalid one stay in the table while the workload's port is
    left out: half of the shortcut is in effect. *)
Theorem shortcut_half_added :
  validAddrPort [1; 2; 3] = None /\
  sc_target (newShortcutTable [half_bad]) ProtoTCP (ap 10 96 0 7 80) None = Some (ap 127 0 0 1 8080) /\
  sc_target (newShortcutTable [half_bad]) ProtoTCP (ap 10 42 0 9 8080) (Some (fun _ => Some ("echo", "default")%string)) = None.
Proof. by vm_compute. Qed.

(** ** Witnesses *)
Definition sample_session (v : Vips) : StreamSession :=
  {| ss_podSubnets := [PrefixFrom (AddrFrom4 [10; 42; 0; 0]) 16]; ss_alsoProxySubnets := [];
     ss_vifDNS := ap 10 43 0 10 53; ss_localDNS := ap 127 0 0 1 5353; ss_vips := v; l4PortMap := ∅;
     interceptShortcuts := None; outboundTunnels := 0; outboundTunnelErrors := 0 |}.
Definition sample_agents : AgentClients string :=
  {| GetWorkloadClient := fun wl => if bool_decide (wl = "echo"%string) then Some "echo-pod"%string else None;
     GetClient := fun _ => None; WorkloadForIP := fun _ => None |}.
Definition sample_conn : ConnID :=
  match NewConnID ProtoTCP (ap 192 168 1 7 40000) (ap 246 246 0 1 80) with Ret id => id | _ => [] end.

Lemma translated_connection_witness :
  let v' := (GetLocalIP sample_vips (AddrFrom4 [10; 42; 0; 9])).1 in
  let s := sample_session v' in
  exists id', conn id' ProtoTCP (ap 192 168 1 7 40000) (ap 10 42 0 9 80) /\
    streamCreator (Some sample_agents) (fun _ _ => true) s sample_conn =
      Ret (count s true, inr (Tunnel (ByAgent "echo-pod"%string) id')).
Proof.
  intros v' s.
  destruct (translated_connection (Some sample_agents) (fun _ _ => true) sample_vips (AddrFrom4 [10; 42; 0; 9]) v'
    (AddrFrom4 [246; 246; 0; 1]) {| as_Prefix := PrefixFrom (AddrFrom4 [10; 42; 0; 0]) 16; as_workload := "echo" |}
    s sample_conn ProtoTCP (ap 192 168 1 7 40000) 80) as (id' & Hc & _ & Hw).
  - eapply vips_reach_inv; [exact sample_vips_reach|]. apply vips_start_inv; [decide_it|reflexivity|decide_it|reflexivity].
  - exact sample_vips_room.
  - by vm_compute.
  - by vm_compute.
  - by vm_compute.
  - reflexivity.
  - decide_it.
  - by vm_compute.
  - by vm_compute.
  - decide_it.
  - decide_it.
  - split_and!; [decide_it|by vm_compute|decide_it].
  - by vm_compute.
  - by vm_compute.
  - split_and!; by vm_compute.
  - by vm_compute.
  - exists id'. split; [exact Hc|]. apply (Hw sample_agents "echo-pod"%string); by vm_compute.
Defined.

Lemma streamCreator_counts_witness :
  streamCreator (Some sample_agents) (fun _ _ => true) (sample_session sample_vips)
    (match NewConnID ProtoUDP (ap 192 168 1 7 40000) (ap 10 43 0 10 53) with Ret id => id | _ => [] end) =
  Ret (sample_session sample_vips, inr (DnsPipe
    (match NewConnID ProtoUDP (ap 192 168 1 7 40000) (ap 127 0 0 1 5353) with Ret id => id | _ => [] end))) /\
  sample_session sample_vips = sample_session sample_vips.
Proof.
  assert (E : streamCreator (Some sample_agents) (fun _ _ => true) (sample_session sample_vips)
    (match NewConnID ProtoUDP (ap 192 168 1 7 40000) (ap 10 43 0 10 53) with Ret id => id | _ => [] end) =
  Ret (sample_session sample_vips, inr (DnsPipe
    (match NewConnID ProtoUDP (ap 192 168 1 7 40000) (ap 127 0 0 1 5353) with Ret id => id | _ => [] end)))) by (by vm_compute).
  split; [exact E|]. exact (streamCreator_counts (Some sample_agents) (fun _ _ => true) _ _ _ _ E).
Defined.
