(* ===== verification/SessionRoutes.v ===== *)
(** * The routed subnets of the root daemon's session (src/pkg/client/rootd/session.go)

    From the traffic-manager's cluster info, the user's also-proxy and never-proxy
    subnets and the subnets to proxy through workloads, the session computes what the
    router is to route ([onClusterInfo], [reconcileSubnets]); subnets that conflict with
    routes of the host are translated to virtual IPs, and the computation starts
    again. *)
From S2P Require Import Prelude NetIP NetParse GoStrings Subnet Vip DnsServer IpUtil Router SessionVip.

(** ** Printing prefixes *)
Definition hex_digits (v : Z) : string :=
  let d n := String.String (Ascii.ascii_of_N (Z.to_N (if n <? 10 then n + 48 else n + 87))) "" in
  let s := d (v / 4096) +:+ d (v / 256 mod 16) +:+ d (v / 16 mod 16) +:+ d (v mod 16) in
  if v <? 16 then str_drop 3 s else if v <? 256 then str_drop 2 s else if v <? 4096 then str_drop 1 s else s.
Definition group16 (v : Z) (i : nat) : Z := Z.shiftr v (16 * (7 - Z.of_nat i)) mod 65536.
Fixpoint zero_run (v : Z) (i n : nat) : nat :=
  match n with O => O | S n => if group16 v i =? 0 then S (zero_run v (S i) n) else O end.
(** The first longest run of at least two zero groups: its start and its length. *)
Fixpoint best_run (v : Z) (i n : nat) (best : nat * nat) : nat * nat :=
  match n with
  | O => best
  | S n => let l := zero_run v i (8 - i) in
           best_run v (S i) n (if Nat.leb 2 l && Nat.ltb best.2 l then (i, l) else best)
  end.
Fixpoint groups_string (v : Z) (i n : nat) (skip : nat * nat) (sep : bool) : string :=
  match n with
  | O => ""
  | S n =>
      if negb (Nat.eqb skip.2 0) && Nat.eqb i skip.1 then "::" +:+ groups_string v (S i) n skip false
      else if Nat.ltb skip.1 i && Nat.ltb i (skip.1 + skip.2) then groups_string v (S i) n skip false
      else (if sep then ":" else "") +:+ hex_digits (group16 v i) +:+ groups_string v (S i) n skip true
  end.
Definition Addr_String (a : Addr) : string :=
  match a with
  | AddrZero => "invalid IP"
  | Addr4 v => dotted (be_bytes 4 v)
  | Addr6 v z =>
      (if Is4In6 a then "::ffff:" +:+ dotted (be_bytes 4 v)
       else groups_string v 0 8 (best_run v 0 8 (0%nat, 0%nat)) false) +:+
      (if bool_decide (z = ""%string) then "" else "%" +:+ z)
  end.
Definition Prefix_String (p : Prefix) : string :=
  if negb (p_IsValid p) then "invalid Prefix" else Addr_String (pfx_Addr p) +:+ "/" +:+ itoa (pfx_Bits p).

Definition IsLoopback (a : Addr) : bool :=
  match Unmap a with
  | AddrZero => false
  | Addr4 v => Z.shiftr v 24 =? 127
  | Addr6 v _ => v =? 1
  end.

(** ** Never-proxied subnets *)
Definition drop_unrouted (subnets nvp : list Prefix) : list Prefix :=
  filter (fun nps => existsb (fun ds => p_Overlaps ds nps) subnets = true) nvp.

(** The filter of [computeNeverProxyOverrides]: true for subnets that are proxied. *)
Definition stays_proxied (subnets neverProxy : list Prefix) (i : nat) (isn : Prefix) : bool :=
  negb (existsb (fun ir : nat * Prefix =>
          negb (Nat.eqb i ir.1) && Covers ir.2 isn && negb (bool_decide (ir.2 = isn)) &&
          existsb (fun dsn => Covers dsn isn) neverProxy)
        (zip (seq 0 (length subnets)) subnets)).

Definition computeNeverProxyOverrides (subnets nvp : list Prefix) : list Prefix * list Prefix * list Prefix :=
  let neverProxy := drop_unrouted subnets nvp in
  let '(proxy, overrides) := Partition subnets (stays_proxied subnets neverProxy) in
  (Unique proxy, neverProxy, overrides).

(** The loop of [appendLocalDNSNeverProxy] over the DNS servers. *)
Definition dns_never_step (subnets : list Prefix) (acc : list Prefix * list Prefix) (dnsIP : Addr) : list Prefix * list Prefix :=
  let '(nvp, dnsRoutes) := acc in
  if negb (a_IsValid dnsIP) || IsLoopback dnsIP || IsUnspecified dnsIP then acc
  else if existsb (fun sn => p_Contains sn dnsIP) subnets then
    let hostRoute := PrefixFrom dnsIP (BitLen dnsIP) in
    (if contains_pfx nvp hostRoute then nvp else nvp ++ [hostRoute], dnsRoutes ++ [hostRoute])
  else acc.
Definition appendLocalDNSNeverProxy (neverProxy subnets : list Prefix) (dnsServers : list Addr) : list Prefix * list Prefix :=
  let '(nvp, dnsRoutes) := foldl (dns_never_step subnets) (neverProxy, []) (AppendUnique [] dnsServers) in
  (Unique nvp, dnsRoutes).

(** ** The session *)
Record Sess := {
  n_serviceSubnets : list Prefix;
  n_podSubnets : list Prefix;
  n_alsoProxySubnets : list Prefix;
  n_neverProxySubnets : list Prefix;
  n_effectiveNeverProxy : list Prefix;
  n_allowConflictingSubnets : list Prefix;
  n_dnsServerSubnet : Prefix;
  n_subnetViaWorkloads : list (string * string);      (* subnet, workload *)
  n_proxyClusterPods : bool;
  n_proxyClusterSvcs : bool;
  n_podDaemon : bool;
  n_vips : Vips;
  n_tunVif : option Router;
  n_dnsServer : Server
}.

(** The cluster info of the traffic-manager. *)
Record ClusterInfo := {
  ci_legacy : LegacyInfo;
  ci_PodSubnets : list IPNet;
  ci_ManagerPodIp : list Z;
  ci_Dns : option (list string * list string * string);
  ci_Routing : option (list IPNet * list IPNet * list IPNet)   (* also, never, allow-conflicting *)
}.

Inductive sess_error :=
  | ErrLoopback (name : string) (sn : Prefix)
  | ErrServiceCidr
  | ErrManagerPodIp
  | ErrVip (e : vip_error)
  | ErrNewDevice
  | ErrAgentsDisabled (wl : string)
  | ErrEnsureAgent (wl : string)
  | ErrRoutes (e : route_error)
  | OutOfDepth.

Definition set_nets (s : Sess) (svc pod : list Prefix) : Sess :=
  {| n_serviceSubnets := svc; n_podSubnets := pod; n_alsoProxySubnets := n_alsoProxySubnets s;
     n_neverProxySubnets := n_neverProxySubnets s; n_effectiveNeverProxy := n_effectiveNeverProxy s;
     n_allowConflictingSubnets := n_allowConflictingSubnets s; n_dnsServerSubnet := n_dnsServerSubnet s;
     n_subnetViaWorkloads := n_subnetViaWorkloads s; n_proxyClusterPods := n_proxyClusterPods s;
     n_proxyClusterSvcs := n_proxyClusterSvcs s; n_podDaemon := n_podDaemon s; n_vips := n_vips s;
     n_tunVif := n_tunVif s; n_dnsServer := n_dnsServer s |}.
Definition set_user (s : Sess) (also never allow : list Prefix) : Sess :=
  {| n_serviceSubnets := n_serviceSubnets s; n_podSubnets := n_podSubnets s; n_alsoProxySubnets := also;
     n_neverProxySubnets := never; n_effectiveNeverProxy := n_effectiveNeverProxy s;
     n_allowConflictingSubnets := allow; n_dnsServerSubnet := n_dnsServerSubnet s;
     n_subnetViaWorkloads := n_subnetViaWorkloads s; n_proxyClusterPods := n_proxyClusterPods s;
     n_proxyClusterSvcs := n_proxyClusterSvcs s; n_podDaemon := n_podDaemon s; n_vips := n_vips s;
     n_tunVif := n_tunVif s; n_dnsServer := n_dnsServer s |}.
Definition set_vip_state (s : Sess) (v : Vips) (via : list (string * string)) (dsn : Prefix) : Sess :=
  {| n_serviceSubnets := n_serviceSubnets s; n_podSubnets := n_podSubnets s; n_alsoProxySubnets := n_alsoProxySubnets s;
     n_neverProxySubnets := n_neverProxySubnets s; n_effectiveNeverProxy := n_effectiveNeverProxy s;
     n_allowConflictingSubnets := n_allowConflictingSubnets s; n_dnsServerSubnet := dsn;
     n_subnetViaWorkloads := via; n_proxyClusterPods := n_proxyClusterPods s;
     n_proxyClusterSvcs := n_proxyClusterSvcs s; n_podDaemon := n_podDaemon s; n_vips := v;
     n_tunVif := n_tunVif s; n_dnsServer := n_dnsServer s |}.
Definition set_device (s : Sess) (tun : option Router) (eff : list Prefix) (dns : Server) : Sess :=
  {| n_serviceSubnets := n_serviceSubnets s; n_podSubnets := n_podSubnets s; n_alsoProxySubnets := n_alsoProxySubnets s;
     n_neverProxySubnets := n_neverProxySubnets s; n_effectiveNeverProxy := eff;
     n_allowConflictingSubnets := n_allowConflictingSubnets s; n_dnsServerSubnet := n_dnsServerSubnet s;
     n_subnetViaWorkloads := n_subnetViaWorkloads s; n_proxyClusterPods := n_proxyClusterPods s;
     n_proxyClusterSvcs := n_proxyClusterSvcs s; n_podDaemon := n_podDaemon s; n_vips := n_vips s;
     n_tunVif := tun; n_dnsServer := dns |}.
Definition set_connectivity (s : Sess) (pods svcs : bool) : Sess :=
  {| n_serviceSubnets := n_serviceSubnets s; n_podSubnets := n_podSubnets s; n_alsoProxySubnets := n_alsoProxySubnets s;
     n_neverProxySubnets := n_neverProxySubnets s; n_effectiveNeverProxy := n_effectiveNeverProxy s;
     n_allowConflictingSubnets := n_allowConflictingSubnets s; n_dnsServerSubnet := n_dnsServerSubnet s;
     n_subnetViaWorkloads := n_subnetViaWorkloads s; n_proxyClusterPods := pods;
     n_proxyClusterSvcs := svcs; n_podDaemon := n_podDaemon s; n_vips := n_vips s;
     n_tunVif := n_tunVif s; n_dnsServer := n_dnsServer s |}.

(** ** The user's subnets *)
Fixpoint loopback_loop (name : string) (allowLoopback : bool) (ns : list Prefix) : Go sess_error (list Prefix) :=
  match ns with
  | [] => Ret []
  | sn :: ns => if IsLoopback (pfx_Addr sn) && negb allowLoopback then Fail (ErrLoopback name sn)
                else (fun rs => sn :: rs) <$> loopback_loop name allowLoopback ns
  end.
Definition validateSubnets (name : string) (ns : list Prefix) (allowLoopback : bool) : Go sess_error (list Prefix) :=
  Unique <$> loopback_loop name allowLoopback (Unique ns).

Definition alsoProxyVia (s : Sess) : bool := existsb (fun pvx => bool_decide (pvx.1 = "also"%string)) (n_subnetViaWorkloads s).

Definition readAdditionalRouting (s : Sess) (m : ClusterInfo) : Sess * option sess_error :=
  match ci_Routing m with
  | None => (s, None)
  | Some (also, never, allow) =>
      match validateSubnets "also-proxy" (RPCsToPrefixes also) (alsoProxyVia s) with
      | Ret sns =>
          let s := set_user s (Unique (n_alsoProxySubnets s ++ sns)) (n_neverProxySubnets s) (n_allowConflictingSubnets s) in
          match validateSubnets "never-proxy" (RPCsToPrefixes never) false with
          | Ret sns =>
              let s := set_user s (n_alsoProxySubnets s) (Unique (n_neverProxySubnets s ++ sns)) (n_allowConflictingSubnets s) in
              match validateSubnets "allow-conflicting" (RPCsToPrefixes allow) false with
              | Ret sns =>
                  (set_user s (n_alsoProxySubnets s) (n_neverProxySubnets s) (Unique (n_allowConflictingSubnets s ++ sns)), None)
              | Fail e => (s, Some e)
              | Panic => (s, None)
              end
          | Fail e => (s, Some e)
          | Panic => (s, None)
          end
      | Fail e => (s, Some e)
      | Panic => (s, None)
      end
  end.

(** The decision of the first never-proxy subnet that covers [sn], if one does. *)
Fixpoint never_covers (nps also : list Prefix) (sn : Prefix) : option bool :=
  match nps with
  | [] => None
  | n :: nps => if Covers n sn then Some (existsb (fun aps => Covers n aps && Covers aps sn) also) else never_covers nps also sn
  end.
Definition shouldProxySubnet (s : Sess) (name : string) (sn : Prefix) : bool :=
  if IsLoopback (pfx_Addr sn) then false
  else if existsb (fun lt => Covers (as_Prefix lt) sn) (localTranslationSubnets (n_vips s)) then false
  else match never_covers (n_neverProxySubnets s) (n_alsoProxySubnets s) sn with
       | Some b => b
       | None => negb (existsb (fun npx =>
                   (bool_decide (name = "service"%string) && bool_decide (npx.1 = "service"%string)) ||
                   (bool_decide (name = "pod"%string) && bool_decide (npx.1 = "pods"%string))) (n_subnetViaWorkloads s))
       end.

(** ** Subnets proxied through workloads *)

(** What does not change during the session. *)
Record RoutingEnv (W : Type) := {
  re_setting : Setting;
  re_container : bool;                 (* proc.RunningInContainer *)
  re_darwin : bool;
  re_autoResolve : bool;               (* Routing().AutoResolveConflicts *)
  re_ifaddrs : option (list (option Prefix));     (* the interface addresses of the host *)
  re_newDevice : W -> option W;        (* vif.NewTunnelingDevice *)
  re_agents : bool;                    (* agentClients is not nil *)
  re_ensureAgent : string -> bool;     (* EnsureAgent succeeds *)
  re_order : list (string * list Prefix) -> list (string * list Prefix);   (* iteration order of a map *)
  re_dnsServers : list Addr            (* configured, settled on, of the host *)
}.
Arguments re_setting {W}.
Arguments re_container {W}.
Arguments re_darwin {W}.
Arguments re_autoResolve {W}.
Arguments re_ifaddrs {W}.
Arguments re_newDevice {W}.
Arguments re_agents {W}.
Arguments re_ensureAgent {W}.
Arguments re_order {W}.
Arguments re_dnsServers {W}.

Definition via_subnets (s : Sess) (subnet : string) : list Prefix :=
  if bool_decide (subnet = "also"%string) then n_alsoProxySubnets s
  else if bool_decide (subnet = "pods"%string) then n_podSubnets s
  else if bool_decide (subnet = "service"%string) then n_serviceSubnets s
  else match ParsePrefix subnet with Some sn => [sn] | None => [] end.

(** [desiredVips]; a subnet that cannot be parsed makes no entry. *)
Definition is_via_keyword (subnet : string) : bool := bool_decide (subnet ∈ ["also"; "pods"; "service"]%string).
Definition desired_step (s : Sess) (m : gmap string (list Prefix)) (pvx : string * string) : gmap string (list Prefix) :=
  if is_via_keyword pvx.1 || match ParsePrefix pvx.1 with Some _ => true | None => false end
  then <[pvx.2 := default [] (m !! pvx.2) ++ via_subnets s pvx.1]> m else m.
Definition desiredVips (s : Sess) : gmap string (list Prefix) := foldl (desired_step s) ∅ (n_subnetViaWorkloads s).

Definition local_name (wl : string) : string := if bool_decide (wl = "local"%string) then "" else wl.
Definition consolidateProxyViaWorkloads {W} (e : RoutingEnv W) (s : Sess) : Sess * list string :=
  let entries := re_order e (map_to_list (desiredVips s)) in
  let lcs := entries ≫= (fun x : string * list Prefix =>
               (fun sn => {| as_Prefix := sn; as_workload := local_name x.1 |}) <$> x.2) in
  let wlNames := filter (fun wl => wl <> "local"%string) entries.*1 in
  let v := n_vips s in
  (set_vip_state s {| localTranslationTable := localTranslationTable v; localTranslationSubnets := lcs;
                      virtualIPs := virtualIPs v; vipGenerator := vipGenerator v |}
     (n_subnetViaWorkloads s) (n_dnsServerSubnet s), wlNames).

(** The subnets that virtual IPs are drawn from. *)
Definition vip_subnets {W} (e : RoutingEnv W) : Prefix * Prefix :=
  let vs := cfg_VirtualSubnet (re_setting e) in
  if p_IsValid vs then
    if Is6 (pfx_Addr vs) then (DefaultVirtualSubnet (re_setting e), vs) else (vs, TelepresenceULA6)
  else (DefaultVirtualSubnet (re_setting e), TelepresenceULA6).

Definition ensure_families (v : Vips) : Vips :=
  match vipGenerator v with
  | None => v
  | Some g => set_vips v (localTranslationTable v) (virtualIPs v)
                (Some (foldl (fun g sn => EnsureFamily g (pfx_Addr (as_Prefix sn))) g (localTranslationSubnets v)))
  end.

Fixpoint ensure_agents {W} (e : RoutingEnv W) (wls : list string) : option sess_error :=
  match wls with
  | [] => None
  | wl :: wls => if negb (re_agents e) then Some (ErrAgentsDisabled wl)
                 else if re_ensureAgent e wl then ensure_agents e wls else Some (ErrEnsureAgent wl)
  end.

Definition activateProxyViaWorkloads {W} (e : RoutingEnv W) (s : Sess) : Sess * option sess_error :=
  match n_subnetViaWorkloads s with
  | [] => (s, None)
  | _ =>
      let '(s, wlNames) := consolidateProxyViaWorkloads e s in
      let '(v4Subnet, v6Subnet) := vip_subnets e in
      let v := n_vips s in
      let v := ensure_families (set_vips v (localTranslationTable v) (virtualIPs v) (Some (NewGenerators v4Subnet v6Subnet))) in
      (set_vip_state s v (n_subnetViaWorkloads s) (n_dnsServerSubnet s), ensure_agents e wlNames)
  end.

(** ** The address of the DNS server *)
Definition createSubnetForDNSOnly {W} (e : RoutingEnv W) (s : Sess) (m : ClusterInfo) : Sess :=
  let avoid := n_alsoProxySubnets s ++ n_neverProxySubnets s ++ n_serviceSubnets s ++ (RPCToPrefix <$> ci_PodSubnets m) in
  let sn := match RandomIPv4Prefix (re_ifaddrs e) 30 avoid with Ret p => p | _ => PrefixZero end in
  set_vip_state s (n_vips s) (n_subnetViaWorkloads s) sn.

(** The workload for the DNS address: the last matching one, "local" being none. *)
Definition dns_workload (s : Sess) (dnsAddr : Addr) : string :=
  foldl (fun wl snw => match ParsePrefix snw.1 with
                       | Some sn => if p_Contains sn dnsAddr then local_name snw.2 else wl
                       | None => wl
                       end) ""%string (n_subnetViaWorkloads s).

Definition ensure_dns_subnet {W} (e : RoutingEnv W) (s : Sess) (m : ClusterInfo) : Sess :=
  if p_IsValid (n_dnsServerSubnet s) then s else createSubnetForDNSOnly e s m.

(** [defaultRouteDNS]; writing the last byte of an empty address panics. *)
Definition defaultRouteDNS {W} (e : RoutingEnv W) (s : Sess) (m : ClusterInfo) (dnsAddr : Addr) (subnets : list Prefix) :
    Sess * Go sess_error (Addr * list Prefix) :=
  let s := ensure_dns_subnet e s m in
  match vipGenerator (n_vips s) with
  | Some _ =>
      let v := n_vips s in
      let v := {| localTranslationTable := localTranslationTable v;
                  localTranslationSubnets := localTranslationSubnets v ++
                    [{| as_Prefix := n_dnsServerSubnet s; as_workload := dns_workload s dnsAddr |}];
                  virtualIPs := virtualIPs v; vipGenerator := vipGenerator v |} in
      let '(v, r) := GetLocalIP v dnsAddr in
      (set_vip_state s v (n_subnetViaWorkloads s) (n_dnsServerSubnet s),
       match r with Ret a => Ret (a, subnets) | Fail e => Fail (ErrVip e) | Panic => Panic end)
  | None =>
      let ip := AsSlice (pfx_Addr (n_dnsServerSubnet s)) in
      match length ip with
      | O => (s, Panic)
      | S last => (s, Ret (default AddrZero (AddrFromSlice (<[last := 2]> ip)), subnets ++ [n_dnsServerSubnet s]))
      end
  end.

(** ** Cluster info *)
(** The service subnets up to the first that cannot be read, and the error. *)
Fixpoint readable (cidrs : list (list Z)) : list Prefix :=
  match cidrs with
  | [] => []
  | sb :: cidrs => match Prefix_UnmarshalBinary sb with None => [] | Some c => c :: readable cidrs end
  end.
Definition all_readable (cidrs : list (list Z)) : bool := Nat.eqb (length (readable cidrs)) (length cidrs).

Section OnClusterInfo.
Context {W : Type} `{Host W} (e : RoutingEnv W).

(** The part of [onClusterInfo] before [reconcileSubnets]: the subnets to route. *)
Definition collect_subnets (s : Sess) (m : ClusterInfo) : Sess * Go sess_error (list Prefix) :=
  let s := set_nets s [] [] in
  let cidrs := li_ServiceCidrs (FixLegacyClusterInfo (ci_legacy m)) in
  let svcs := if n_proxyClusterSvcs s then readable cidrs else [] in
  let fromSvcs := filter (fun c => shouldProxySubnet s "service" c = true) svcs in
  let s := set_nets s svcs [] in
  if n_proxyClusterSvcs s && negb (all_readable cidrs) then (s, Fail ErrServiceCidr)
  else
    let pods := if n_proxyClusterPods s then RPCToPrefix <$> ci_PodSubnets m else [] in
    let fromPods := filter (fun c => shouldProxySubnet s "pod" c = true) pods in
    let s := set_nets s svcs pods in
    let subnets := fromSvcs ++ fromPods in
    let '(s, subnets) :=
      match vipGenerator (n_vips s) with
      | None => (s, subnets)
      | Some _ =>
          let s := (consolidateProxyViaWorkloads e s).1 in
          let v := ensure_families (n_vips s) in
          (set_vip_state s v (n_subnetViaWorkloads s) (n_dnsServerSubnet s),
           subnets ++ match vipGenerator v with Some g => Subnets g | None => [] end)
      end in
    (s, Ret (if alsoProxyVia s then subnets else subnets ++ n_alsoProxySubnets s)).

(** The address of the DNS server, and its subnet when nothing else routes it. *)
Definition place_dns (s : Sess) (m : ClusterInfo) (subnets : list Prefix) : Sess * Go sess_error (list Prefix) :=
  match AddrFromSlice (ci_ManagerPodIp m) with
  | None => (s, Fail ErrManagerPodIp)
  | Some vifDNS =>
      let '(s, r) :=
        match vipGenerator (n_vips s) with
        | None => (s, Ret vifDNS)
        | Some _ => let '(v, r) := GetLocalIP (n_vips s) vifDNS in
                    (set_vip_state s v (n_subnetViaWorkloads s) (n_dnsServerSubnet s), r)
        end in
      match r with
      | Fail x => (s, Fail (ErrVip x))
      | Panic => (s, Panic)
      | Ret vifDNS =>
          let dnsRouted := re_container e || existsb (fun sn => p_Contains sn vifDNS) subnets in
          let '(s, r) := if negb (re_darwin e) && negb dnsRouted
                         then defaultRouteDNS e s m vifDNS subnets else (s, Ret (vifDNS, subnets)) in
          match r with
          | Fail x => (s, Fail x)
          | Panic => (s, Panic)
          | Ret (vifDNS, subnets) =>
              if negb (re_darwin e) || dnsRouted then
                match ci_Dns m with
                | None => (s, Panic)
                | Some d => (set_device s (n_tunVif s) (n_effectiveNeverProxy s)
                               (SetClusterDNS (Some d) (Some vifDNS) (n_dnsServer s)), Ret subnets)
                end
              else (s, Ret subnets)
          end
      end
  end.

(** The subnets that conflict with a route of the host. *)
Definition conflicting (rt : Router) (w : W) (proxy : list Prefix) : list Prefix :=
  filter (fun pp => match ValidateRoutes (re_setting e) rt w [pp] with Ret _ => false | _ => true end = true) proxy.

(** [reconcileSubnets]: either done, or [onClusterInfo] is to be called again. *)
Inductive reconciled := Done (r : Go sess_error ()) | Again.
Definition reconcile_step (s : Sess) (w : W) (subnets : list Prefix) : Sess * W * reconciled :=
  let device :=
    match n_tunVif s with
    | Some rt => Some (Some rt, w)
    | None => if Nat.eqb (length subnets) 0 then Some (None, w)
              else match re_newDevice e w with Some w => Some (Some NewRouter, w) | None => None end
    end in
  match device with
  | None => (s, w, Done (Fail ErrNewDevice))
  | Some (tun, w) =>
      let '(nvp, localDNS) := appendLocalDNSNeverProxy (n_neverProxySubnets s) subnets (re_dnsServers e) in
      let '(proxy, neverProxy, overrides) := computeNeverProxyOverrides subnets nvp in
      let s := set_device s tun neverProxy (n_dnsServer s) in
      match tun with
      | None => (s, w, Done (Ret tt))
      | Some rt =>
          let rt := SetLocalDNSRoutes (UpdateWhitelist rt (n_allowConflictingSubnets s)) localDNS in
          let s := set_device s (Some rt) neverProxy (n_dnsServer s) in
          match ValidateRoutes (re_setting e) rt w proxy with
          | Ret _ =>
              let '(rt, w, res) := UpdateRoutes (re_setting e) rt w proxy neverProxy overrides in
              (set_device s (Some rt) neverProxy (n_dnsServer s), w,
               Done (match res with Updated => Ret tt | UpdateError x => Fail (ErrRoutes x) | UpdatePanic => Panic end))
          | Panic => (s, w, Done Panic)
          | Fail x =>
              if match vipGenerator (n_vips s) with Some _ => true | None => false end || negb (re_autoResolve e)
              then (s, w, Done (Fail (ErrRoutes x)))
              else
                let via := n_subnetViaWorkloads s ++ ((fun pp => (Prefix_String pp, "local"%string)) <$> conflicting rt w proxy) in
                let s := set_vip_state s (n_vips s) via (n_dnsServerSubnet s) in
                match activateProxyViaWorkloads e s with
                | (s, Some _) => (s, w, Done (Fail (ErrRoutes x)))
                | (s, None) => (s, w, Again)
                end
          end
      end
  end.

Fixpoint onClusterInfo (depth : nat) (s : Sess) (w : W) (m : ClusterInfo) : Sess * W * Go sess_error () :=
  match depth with
  | O => (s, w, Fail OutOfDepth)
  | S depth =>
      if n_podDaemon s then (s, w, Ret tt)
      else
        match collect_subnets s m with
        | (s, Ret subnets) =>
            match place_dns s m subnets with
            | (s, Ret subnets) =>
                match reconcile_step s w subnets with
                | (s, w, Done r) => (s, w, r)
                | (s, w, Again) => onClusterInfo depth s w m
                end
            | (s, Fail x) => (s, w, Fail x)
            | (s, Panic) => (s, w, Panic)
            end
        | (s, Fail x) => (s, w, Fail x)
        | (s, Panic) => (s, w, Panic)
        end
  end.

(** [onFirstClusterInfo]; the connectivity checks are parameters. *)
Definition onFirstClusterInfo (depth : nat) (hasPod hasSvc : bool) (teleroutePort : Z) (s : Sess) (w : W) (m : ClusterInfo) :
    Sess * W * Go sess_error () :=
  if n_podDaemon s then (s, w, Ret tt)
  else
    let s := if 0 <? teleroutePort then set_connectivity s true true else set_connectivity s (negb hasPod) (negb hasSvc) in
    onClusterInfo depth s w m.
End OnClusterInfo.
