(* ===== verification/SessionRoutesSpec.v ===== *)
(** * What the routed subnets promise (src/pkg/client/rootd/session.go)

    The routes that the session computes enforce the policy of the longest match between
    routed and never-proxied subnets ([never_proxy_policy]); local DNS servers; the
    address of the DNS server; the computation starts again at most once. *)
From S2P Require Import Prelude NetIP Subnet SubnetSpec Vip GoStrings NetParse DnsServer Router RouterSpec IpUtil SessionVip SessionVipSpec SessionRoutes.

(** ** Prefixes that contain an address *)
Definition usable (p : Prefix) : Prop := pfx_wf p /\ p_IsValid p = true /\ 0 < pfx_Bits p.
Global Instance usable_dec p : Decision (usable p).
Proof. unfold usable. apply _. Defined.

Lemma contain_cover n s a : usable n -> usable s -> p_Contains n a = true -> p_Contains s a = true ->
  pfx_Bits n <= pfx_Bits s -> Covers n s = true.
Proof.
  intros (Wn & Vn & Bn) (Ws & Vs & Bs) Cn Cs Hle.
  apply Contains_val in Cn as (_ & _ & Ln & _ & En); [|done]. apply Contains_val in Cs as (_ & _ & Ls & _ & Es); [|done].
  apply Covers_range_in; [done..|]. split_and!; [congruence|done|].
  rewrite <- En. rewrite <- Ls, Ln in Es. destruct (valid_bits s Ws Vs) as [Hb _], (valid_bits n Wn Vn) as [Hb' _].
  apply (shiftr_mono (BitLen (pfx_Addr n) - pfx_Bits s)); [lia|done].
Qed.

Lemma same_network p q a : pfx_wf p -> pfx_wf q -> p_Contains p a = true -> p_Contains q a = true ->
  pfx_Bits p = pfx_Bits q -> Masked p = Masked q.
Proof.
  intros Wp Wq Cp Cq E. pose proof (Masked_Bits p Wp) as Bp. pose proof (Masked_Bits q Wq) as Bq.
  apply Contains_val in Cp as (Vp & _ & Lp & _ & Ep); [|done]. apply Contains_val in Cq as (Vq & _ & Lq & _ & Eq); [|done].
  destruct (Masked_val p Wp Vp) as (Ap & _ & _), (Masked_val q Wq Vq) as (Aq & _ & _).
  destruct (valid_bits p Wp Vp) as [Hb Hn], (valid_bits q Wq Vq) as [_ Hn'].
  assert (HL : BitLen (pfx_Addr q) = BitLen (pfx_Addr p)) by congruence.
  assert (Hbot : bottom p = bottom q).
  { unfold bottom. rewrite HL, <- E. apply keep_top_eq; [lia|].
    rewrite HL, <- E in Eq. congruence. }
  assert (HA : pfx_Addr (Masked p) = pfx_Addr (Masked q)).
  { rewrite Ap, Aq, Hbot. unfold with_val. clear - HL Hn Hn'.
    destruct (pfx_Addr p), (pfx_Addr q); done. }
  destruct (Masked p), (Masked q). cbn in *. congruence.
Qed.

(** ** Proxied, never-proxied and overriding subnets *)
Lemma Partition_at {T} (f : nat -> T -> bool) (g : T -> bool) l :
  (forall i x, l !! i = Some x -> f i x = g x) ->
  Partition l f = (filter (fun x => g x = true) l, filter (fun x => g x = false) l).
Proof.
  intros Hf. unfold Partition.
  enough (forall k i m n, (forall j x, k !! j = Some x -> f (i + j)%nat x = g x) ->
    partition_loop i k f m n = (m ++ filter (fun x => g x = true) k, n ++ filter (fun x => g x = false) k)) as H
    by (by rewrite (H l 0%nat)).
  clear. induction k as [|x k IH]; intros i m n H; cbn [partition_loop]; [by rewrite !app_nil_r|].
  rewrite <- (Nat.add_0_r i) at 1. rewrite (H 0%nat x eq_refl).
  assert (H' : forall j y, k !! j = Some y -> f (S i + j)%nat y = g y).
  { intros j y Hj. replace (S i + j)%nat with (i + S j)%nat by lia. by apply H. }
  destruct (g x) eqn:G; rewrite (IH (S i) _ _ H').
  - rewrite filter_cons_True, filter_cons_False by congruence. by rewrite <- app_assoc.
  - rewrite filter_cons_False, filter_cons_True by congruence. by rewrite <- app_assoc.
Qed.

(** An override: inside another routed subnet and inside a never-proxied one. *)
Definition overriding (subnets neverProxy : list Prefix) (sn : Prefix) : bool :=
  existsb (fun r => Covers r sn && negb (bool_decide (r = sn))) subnets && existsb (fun d => Covers d sn) neverProxy.

Lemma stays_proxied_at subnets nvp i sn : subnets !! i = Some sn ->
  stays_proxied subnets nvp i sn = negb (overriding subnets nvp sn).
Proof.
  intros Hi. unfold stays_proxied, overriding. f_equal. apply eq_iff_eq_true.
  rewrite andb_true_iff, !existsb_exists. split.
  - intros ([j r] & Hin & Hc). apply list_elem_of_In, elem_of_zip_r in Hin as Hr. cbn [fst snd] in Hc.
    rewrite !andb_true_iff in Hc. destruct Hc as [[[_ Hc] Hn] Hd]. apply existsb_exists in Hd.
    split; [|done]. exists r. split; [by apply list_elem_of_In|]. by rewrite Hc, Hn.
  - intros [(r & Hr & Hc) Hd]. apply andb_true_iff in Hc as [Hc Hn].
    apply list_elem_of_In, list_elem_of_lookup in Hr as [j Hj]. exists (j, r). split.
    + apply list_elem_of_In, list_elem_of_lookup. exists j. rewrite lookup_zip_with.
      rewrite lookup_seq_lt by (by eapply lookup_lt_Some). cbn. by rewrite Hj.
    + cbn [fst snd]. rewrite Hc, Hn. apply existsb_exists in Hd as ->.
      destruct (Nat.eqb_spec i j) as [->|]; [|done]. exfalso.
      assert (r = sn) by congruence. subst. by rewrite bool_decide_eq_true_2 in Hn.
Qed.

Lemma compute_eq subnets nvp : computeNeverProxyOverrides subnets nvp =
  (Unique (filter (fun sn => negb (overriding subnets (drop_unrouted subnets nvp) sn) = true) subnets),
   drop_unrouted subnets nvp,
   filter (fun sn => negb (overriding subnets (drop_unrouted subnets nvp) sn) = false) subnets).
Proof.
  unfold computeNeverProxyOverrides.
  by rewrite (Partition_at _ (fun sn => negb (overriding subnets (drop_unrouted subnets nvp) sn))) by apply stays_proxied_at.
Qed.

Section Policy.
Context (S N : list Prefix) (HS : Forall usable S) (HN : Forall usable N).

(** The policy: an address is proxied when a routed subnet that contains it is longer
    than every never-proxied subnet that contains it. *)
Definition proxied (a : Addr) : Prop :=
  exists s, s ∈ S /\ p_Contains s a = true /\ forall n, n ∈ N -> p_Contains n a = true -> pfx_Bits n < pfx_Bits s.

Lemma usable_S s : s ∈ S -> usable s.
Proof. intros Hs. rewrite Forall_forall in HS. by apply HS. Qed.
Lemma usable_N n : n ∈ N -> usable n.
Proof. intros Hn. rewrite Forall_forall in HN. by apply HN. Qed.

Lemma drop_unrouted_spec n s a : n ∈ N -> s ∈ S -> p_Contains n a = true -> p_Contains s a = true ->
  n ∈ drop_unrouted S N.
Proof.
  intros Hn Hs Cn Cs. apply list_elem_of_filter. split; [|done]. apply existsb_exists. exists s.
  split; [by apply list_elem_of_In|]. apply Overlaps_Contains; [apply (usable_S s Hs)|apply (usable_N n Hn)|by exists a].
Qed.

Context (P N' O : list Prefix) (HC : computeNeverProxyOverrides S N = (P, N', O)).

Lemma compute_parts : N' = drop_unrouted S N /\ (forall x, x ∈ P \/ x ∈ O -> x ∈ S) /\ (forall x, x ∈ N' -> x ∈ N) /\
  (forall x, x ∈ P -> (x ∉ O)) /\
  (forall s a, s ∈ S -> (s ∉ O) -> p_Contains s a = true -> exists p, p ∈ P /\ p_Contains p a = true) /\
  (forall s, s ∈ S -> overriding S N' s = true -> s ∈ O).
Proof.
  rewrite compute_eq in HC. injection HC as HP HN' HO.
  set (P0 := filter _ S) in HP. assert (HP0 : Forall pfx_wf P0).
  { apply Forall_forall. intros x [_ Hx]%list_elem_of_filter. apply (usable_S x Hx). }
  destruct (Unique_post P0 HP0) as ((d & Hperm) & Hu & _).
  assert (Hin : forall x, x ∈ P -> x ∈ P0).
  { intros x Hx. rewrite Hperm. apply elem_of_app. left. by rewrite HP. }
  split_and!; [done| | | | |].
  - intros x [Hx|Hx].
    + apply Hin in Hx. by apply list_elem_of_filter in Hx as [_ ?].
    + rewrite <- HO in Hx. by apply list_elem_of_filter in Hx as [_ ?].
  - intros x Hx. rewrite <- HN' in Hx. by apply list_elem_of_filter in Hx as [_ ?].
  - intros x Hx HxO. apply Hin in Hx. apply list_elem_of_filter in Hx as [H1 _].
    rewrite <- HO in HxO. apply list_elem_of_filter in HxO as [H2 _]. congruence.
  - intros s a Hs HsO Hc. assert (HsP : s ∈ P0).
    { apply list_elem_of_filter. split; [|done]. destruct (negb _) eqn:E; [done|].
      destruct HsO. rewrite <- HO. by apply list_elem_of_filter. }
    destruct (proj1 (Hu a)) as (p & Hp & Cp); [by exists s|]. rewrite HP in Hp. by exists p.
  - intros s Hs Ho. rewrite <- HO. apply list_elem_of_filter. rewrite HN', Ho. done.
Qed.

(** The policy decides which list has the longest match. *)
Lemma policy_longest a :
  (proxied a -> exists x, (x ∈ P \/ x ∈ O) /\ p_Contains x a = true /\
     forall n, n ∈ N' -> p_Contains n a = true -> pfx_Bits n < pfx_Bits x) /\
  (~ proxied a -> forall x, x ∈ P \/ x ∈ O -> p_Contains x a = true ->
     exists n, n ∈ N' /\ p_Contains n a = true /\ pfx_Bits x <= pfx_Bits n).
Proof.
  destruct compute_parts as (HN' & Hsub & HsubN & _ & Hcov & Hover). split.
  - intros (s & Hs & Cs & Hlong). destruct (decide (s ∈ O)) as [HsO|HsO].
    { exists s. split_and!; [by right|done|]. intros n Hn Cn. by apply Hlong; [apply HsubN|]. }
    destruct (Hcov s a Hs HsO Cs) as (p & Hp & Cp). exists p. split_and!; [by left|done|].
    intros n Hn Cn. destruct (Z.lt_ge_cases (pfx_Bits n) (pfx_Bits p)) as [|Hge]; [done|]. exfalso. apply HsO.
    pose proof (Hlong n (HsubN n Hn) Cn) as Hl. pose proof (Hsub p (or_introl Hp)) as HpS.
    apply Hover; [done|]. unfold overriding. apply andb_true_iff. split; apply existsb_exists.
    + exists p. split; [by apply list_elem_of_In|].
      rewrite (contain_cover p s a) by (done || by apply usable_S || lia). cbn [andb].
      apply negb_true_iff, bool_decide_eq_false. intros ->. lia.
    + exists n. split; [by apply list_elem_of_In|].
      apply (contain_cover n s a); [by apply usable_N, HsubN|by apply usable_S|done|done|lia].
  - intros Hno x Hx Cx. destruct (decide (Exists (fun n => p_Contains n a = true /\ pfx_Bits x <= pfx_Bits n) N)) as [He|He].
    + apply Exists_exists in He as (n & Hn & Cn & Hle). exists n. split_and!; [|done|done].
      rewrite HN'. by apply (drop_unrouted_spec n x a); [|apply Hsub| |].
    + exfalso. apply Hno. exists x. split_and!; [by apply Hsub|done|]. intros n Hn Cn.
      destruct (Z.lt_ge_cases (pfx_Bits n) (pfx_Bits x)) as [|Hge]; [done|]. exfalso. apply He, Exists_exists. by exists n.
Qed.
End Policy.

(** A table of proxied, never-proxied and overriding subnets routes as the policy says. *)
Lemma wanted_table_policy {W} `{HostLaws W} st S N P N' O (w : W) a :
  Forall usable S -> Forall usable N -> mask_inj (S ++ N) -> (forall k, k ∈ S -> (k ∉ N)) ->
  computeNeverProxyOverrides S N = (P, N', O) -> wanted_table st P N' O w ->
  (forall k r, h_routes w !! k = Some r -> RoutedNet r = k) ->
  (proxied S N a -> (exists r, lpm (h_routes w) a r) /\ forall r, lpm (h_routes w) a r -> InterfaceIndex r = dev_Index st) /\
  (~ proxied S N a -> forall r, lpm (h_routes w) a r -> InterfaceIndex r <> dev_Index st).
Proof.
  intros HS HN Hm Hdis HC [Hwr Hwa] Hnet.
  destruct (compute_parts S N HS P N' O HC) as (_ & Hsub & HsubN & _ & _ & _).
  destruct (policy_longest S N HS HN P N' O HC a) as [Hp Hnp].
  assert (HwS : forall x, x ∈ P \/ x ∈ O -> pfx_wf x) by (intros x Hx; apply (usable_S S HS), Hsub, Hx).
  assert (HwN : forall n, n ∈ N' -> pfx_wf n) by (intros n Hn; apply (usable_N N HN), HsubN, Hn).
  (* a route of the table: its subnet, and whether it goes through the device *)
  assert (Hroute : forall r, lpm (h_routes w) a r -> exists sn, RoutedNet r = Masked sn /\ p_Contains sn a = true /\
    (((sn ∈ P \/ sn ∈ O) /\ InterfaceIndex r = dev_Index st) \/ (sn ∈ N' /\ InterfaceIndex r <> dev_Index st)) /\
    pfx_Bits (RoutedNet r) = pfx_Bits sn).
  { intros r (Hr & Hc & _). destruct (Hwr _ _ Hr) as (sn & E & Hsn).
    assert (Hwf : pfx_wf sn) by naive_solver. rewrite E, Masked_Contains in Hc by done.
    exists sn. split_and!; [done|done| |rewrite E; by apply Masked_Bits].
    destruct Hsn as [[Hs ->]|[[Hs Hb]|[Hs ->]]].
    - left. split; [by left|apply subnetRoute_index].
    - right. split; [done|by apply (bypass_index st sn)].
    - left. split; [by right|done]. }
  assert (Hlong : forall r x, lpm (h_routes w) a r -> x ∈ P \/ x ∈ N' \/ x ∈ O -> pfx_wf x -> p_Contains x a = true ->
    pfx_Bits x <= pfx_Bits (RoutedNet r)).
  { intros r x (_ & _ & Hmax) Hx Wx Cx. destruct (Hwa x Hx) as [r' Hr'].
    specialize (Hmax _ _ Hr'). rewrite Masked_Contains, Masked_Bits in Hmax by done. by apply Hmax. }
  split.
  - intros (x & Hx & Cx & Hx')%Hp. split.
    + destruct (Hwa x) as [r' Hr']; [naive_solver|].
      destruct (lpm_exists (h_routes w) a (Masked x) r' Hnet Hr') as (b & Hb & _); [|by exists b].
      rewrite Masked_Contains; [done|by apply HwS].
    + intros r Hl. destruct (Hroute r Hl) as (sn & E & Cs & [[_ ?]|[Hn _]] & Hb); [done|]. exfalso.
      pose proof (Hlong r x Hl ltac:(naive_solver) (HwS x Hx) Cx). specialize (Hx' sn Hn Cs). lia.
  - intros Hno r Hl. destruct (Hroute r Hl) as (sn & E & Cs & [[Hs _]|[_ ?]] & Hb); [|done]. exfalso.
    destruct (Hnp Hno sn Hs Cs) as (n & Hn & Cn & Hle).
    pose proof (Hlong r n Hl ltac:(naive_solver) (HwN n Hn) Cn).
    assert (sn = n) as ->.
    { apply Hm; [apply elem_of_app; left; by apply Hsub|apply elem_of_app; right; by apply HsubN|].
      apply (same_network sn n a); [by apply HwS|by apply HwN|done|done|lia]. }
    apply (Hdis n); [by apply Hsub|by apply HsubN].
Qed.

(** C6. The end to end policy of the session's routes on Linux. For the subnets to route and the
    subnets never to proxy, whatever the router had routed before: after
    [computeNeverProxyOverrides] and [UpdateRoutes] the kernel's longest match sends an
    address through the device exactly when a routed subnet that contains it is longer than
    every never-proxied subnet that contains it. It is assumed that no subnet is in both
    lists, that no two of them are the same network with different host bits, that none has
    length 0 ([Covers] does not see that such a subnet covers another), and that the host
    works: names and indexes of its interfaces correspond, it has a default route, which is
    not on the device, and when it is asked for the route of a subnet it does not answer
    without one. *)
Theorem never_proxy_policy {W} `{HostLaws W} st rt (w : W) S N P N' O a :
  st_linux st = true -> host_sane (W:=W) st -> host_up W -> router_inv st rt w ->
  Forall usable S -> Forall usable N -> mask_inj (S ++ N) -> (forall k, k ∈ S -> (k ∉ N)) ->
  computeNeverProxyOverrides S N = (P, N', O) ->
  let '(rt', w', res) := UpdateRoutes st rt w P N' O in
  res = Updated /\ router_inv st rt' w' /\
  (proxied S N a -> (exists r, lpm (h_routes w') a r) /\ forall r, lpm (h_routes w') a r -> InterfaceIndex r = dev_Index st) /\
  (~ proxied S N a -> forall r, lpm (h_routes w') a r -> InterfaceIndex r <> dev_Index st).
Proof.
  intros Hl Hsane Hup Hi HS HN Hm Hdis HC.
  destruct (compute_parts S N HS P N' O HC) as (_ & Hsub & HsubN & HPO & _ & _).
  pose proof (UpdateRoutes_total st rt w P N' O Hup) as Ht.
  destruct (UpdateRoutes st rt w P N' O) as [[rt' w'] res] eqn:E. cbn [snd] in Ht. subst res.
  destruct (UpdateRoutes_spec st Hl Hsane rt w P N' O Hi) with (rt' := rt') (w' := w') (res := Updated) as (Hi' & _ & Hw).
  - eapply mask_inj_sub; [exact Hm|]. intros p. rewrite !elem_of_app. naive_solver.
  - intros k Hk. split; [|by apply HPO]. intros Hn. apply (Hdis k); [by apply Hsub; left|by apply HsubN].
  - intros k Hk HkO. apply (Hdis k); [by apply Hsub; right|by apply HsubN].
  - exact E.
  - destruct (wanted_table_policy st S N P N' O w' a HS HN Hm Hdis HC Hw) as [H1 H2].
    + intros k r [_ Ek]%(ri_holds _ _ _ Hi'). done.
    + by split_and!.
Qed.

Definition pol_S : list Prefix :=
  [PrefixFrom (AddrFrom4 [10; 0; 0; 0]) 8; PrefixFrom (AddrFrom4 [10; 1; 2; 0]) 24].
Definition pol_N : list Prefix := [PrefixFrom (AddrFrom4 [10; 1; 0; 0]) 16; PrefixFrom (AddrFrom4 [172; 16; 0; 0]) 16].
Lemma never_proxy_policy_witness :
  let '(P, N', Ov) := computeNeverProxyOverrides pol_S pol_N in
  P = [PrefixFrom (AddrFrom4 [10; 0; 0; 0]) 8] /\ N' = [PrefixFrom (AddrFrom4 [10; 1; 0; 0]) 16] /\
  Ov = [PrefixFrom (AddrFrom4 [10; 1; 2; 0]) 24] /\
  let '(rt', w', res) := UpdateRoutes Sim.setting NewRouter (∅ : gmap Prefix Route) P N' Ov in
  res = Updated /\ router_inv Sim.setting rt' w' /\
  (proxied pol_S pol_N (AddrFrom4 [10; 1; 2; 3]) ->
     (exists r, lpm (h_routes w') (AddrFrom4 [10; 1; 2; 3]) r) /\
     forall r, lpm (h_routes w') (AddrFrom4 [10; 1; 2; 3]) r -> InterfaceIndex r = 7) /\
  (~ proxied pol_S pol_N (AddrFrom4 [10; 1; 2; 3]) -> forall r, lpm (h_routes w') (AddrFrom4 [10; 1; 2; 3]) r -> InterfaceIndex r <> 7).
Proof.
  destruct (computeNeverProxyOverrides pol_S pol_N) as [[P N'] Ov] eqn:E.
  assert (E' : (P, N', Ov) = ([PrefixFrom (AddrFrom4 [10; 0; 0; 0]) 8], [PrefixFrom (AddrFrom4 [10; 1; 0; 0]) 16],
                             [PrefixFrom (AddrFrom4 [10; 1; 2; 0]) 24])) by (rewrite <- E; by vm_compute).
  split; [congruence|]. split; [congruence|]. split; [congruence|].
  apply (never_proxy_policy Sim.setting NewRouter (∅ : gmap Prefix Route) pol_S pol_N P N' Ov (AddrFrom4 [10; 1; 2; 3])).
  - reflexivity.
  - exact Sim.sane.
  - exact Sim.up.
  - exact Sim.new_inv.
  - decide_it.
  - decide_it.
  - apply mask_inj_Forall. decide_it.
  - apply Forall_forall. decide_it.
  - exact E.
Defined.

(** ** Local DNS servers *)
Lemma elem_of_AppendUnique {A} `{EqDecision A} (dest src : list A) x : x ∈ AppendUnique dest src <-> x ∈ dest \/ x ∈ src.
Proof.
  unfold AppendUnique. revert dest. induction src as [|y src IH]; intros dest; cbn [foldl]; [set_solver|].
  rewrite IH. case_bool_decide; set_solver.
Qed.

(** A DNS server that must not be reached through the device. *)
Definition captured (subnets : list Prefix) (d : Addr) : bool :=
  a_IsValid d && negb (IsLoopback d) && negb (IsUnspecified d) && existsb (fun sn => p_Contains sn d) subnets.
Definition host_route (d : Addr) : Prefix := PrefixFrom d (BitLen d).

Lemma captured_cons subnets d ds p :
  (exists x, x ∈ d :: ds /\ captured subnets x = true /\ p = host_route x) <->
  (captured subnets d = true /\ p = host_route d) \/ (exists x, x ∈ ds /\ captured subnets x = true /\ p = host_route x).
Proof.
  split.
  - intros (x & [->|Hx]%elem_of_cons & Hc & E); [by left|right; by exists x].
  - intros [[Hc E]|(x & Hx & Hc & E)]; [exists d|exists x]; (split; [|done]);
      [apply list_elem_of_here|by apply list_elem_of_further].
Qed.

Lemma dns_never_fold subnets ds nvp routes nvp' routes' :
  foldl (dns_never_step subnets) (nvp, routes) ds = (nvp', routes') ->
  (forall p, p ∈ nvp' <-> p ∈ nvp \/ exists d, d ∈ ds /\ captured subnets d = true /\ p = host_route d) /\
  (forall p, p ∈ routes' <-> p ∈ routes \/ exists d, d ∈ ds /\ captured subnets d = true /\ p = host_route d).
Proof.
  revert nvp routes. induction ds as [|d ds IH]; intros nvp routes; cbn [foldl].
  { intros [= <- <-]. split; intros p; (split; [by left|]); intros [?|(d & ?%elem_of_nil & _)]; done. }
  assert (Hstep : dns_never_step subnets (nvp, routes) d =
    if captured subnets d
    then (if contains_pfx nvp (host_route d) then nvp else nvp ++ [host_route d], routes ++ [host_route d])
    else (nvp, routes)).
  { unfold dns_never_step, captured, host_route.
    destruct (a_IsValid d), (IsLoopback d), (IsUnspecified d); cbn [negb orb andb]; done. }
  rewrite Hstep. destruct (captured subnets d) eqn:Ec.
  2:{ intros [H1 H2]%IH. split; intros p; rewrite ?H1, ?H2, captured_cons, Ec; naive_solver. }
  intros [H1 H2]%IH. split; intros p; rewrite ?H1, ?H2, captured_cons, Ec.
  - destruct (contains_pfx nvp (host_route d)) eqn:Ecn.
    + apply bool_decide_eq_true in Ecn. naive_solver.
    + rewrite elem_of_app, list_elem_of_singleton. naive_solver.
  - rewrite elem_of_app, list_elem_of_singleton. naive_solver.
Qed.

(** The never-proxied subnets with the local DNS servers cover what was never proxied,
    and the host routes of exactly those servers that a routed subnet would capture;
    the router is told the same host routes. *)
Theorem local_dns_never_proxied nvp subnets ds nvp' routes : Forall pfx_wf nvp -> Forall addr_wf ds ->
  appendLocalDNSNeverProxy nvp subnets ds = (nvp', routes) ->
  (forall a, in_union nvp' a <-> in_union nvp a \/
     exists d, d ∈ ds /\ captured subnets d = true /\ p_Contains (host_route d) a = true) /\
  (forall p, p ∈ routes <-> exists d, d ∈ ds /\ captured subnets d = true /\ p = host_route d).
Proof.
  intros Hw Hd. unfold appendLocalDNSNeverProxy.
  destruct (foldl _ _ _) as [l r] eqn:E. intros [= <- <-].
  destruct (dns_never_fold _ _ _ _ _ _ E) as [H1 H2].
  setoid_rewrite elem_of_AppendUnique in H1. setoid_rewrite elem_of_AppendUnique in H2.
  assert (Hl : Forall pfx_wf l).
  { apply Forall_forall. intros p [Hp|(d & [Hin|Hin] & _ & ->)]%H1.
    - rewrite Forall_forall in Hw. by apply Hw.
    - by apply elem_of_nil in Hin.
    - apply PrefixFrom_wf. rewrite Forall_forall in Hd. by apply Hd. }
  split.
  - intros a. rewrite <- (proj1 (proj2 (Unique_post l Hl)) a). unfold in_union. split.
    + intros (p & [Hp|(d & [Hin%elem_of_nil|Hin] & Hc & ->)]%H1 & Ha); [left; by exists p|done|right; by exists d].
    + intros [(p & Hp & Ha)|(d & Hin & Hc & Ha)]; [exists p|exists (host_route d)]; (split; [|done]); apply H1; [by left|].
      right. exists d. split; [by right|done].
  - intros p. rewrite H2. split.
    + intros [Hp%elem_of_nil|(d & [Hin%elem_of_nil|Hin] & Hc & ->)]; [done|done|by exists d].
    + intros (d & Hin & Hc & ->). right. exists d. split; [by right|done].
Qed.

Lemma local_dns_never_proxied_witness :
  exists nvp' routes, appendLocalDNSNeverProxy [] [PrefixFrom (AddrFrom4 [10; 0; 0; 0]) 8]
    [AddrFrom4 [10; 0; 0; 53]; AddrFrom4 [127; 0; 0; 53]; AddrFrom4 [8; 8; 8; 8]] = (nvp', routes) /\
  routes = [host_route (AddrFrom4 [10; 0; 0; 53])] /\
  (in_union nvp' (AddrFrom4 [10; 0; 0; 53]) <-> in_union [] (AddrFrom4 [10; 0; 0; 53]) \/
     exists d, d ∈ [AddrFrom4 [10; 0; 0; 53]; AddrFrom4 [127; 0; 0; 53]; AddrFrom4 [8; 8; 8; 8]] /\
       captured [PrefixFrom (AddrFrom4 [10; 0; 0; 0]) 8] d = true /\ p_Contains (host_route d) (AddrFrom4 [10; 0; 0; 53]) = true).
Proof.
  exists [host_route (AddrFrom4 [10; 0; 0; 53])], [host_route (AddrFrom4 [10; 0; 0; 53])].
  assert (E : appendLocalDNSNeverProxy [] [PrefixFrom (AddrFrom4 [10; 0; 0; 0]) 8]
    [AddrFrom4 [10; 0; 0; 53]; AddrFrom4 [127; 0; 0; 53]; AddrFrom4 [8; 8; 8; 8]] =
    ([host_route (AddrFrom4 [10; 0; 0; 53])], [host_route (AddrFrom4 [10; 0; 0; 53])])) by (by vm_compute).
  split; [exact E|]. split; [reflexivity|].
  assert (Hd : Forall addr_wf [AddrFrom4 [10; 0; 0; 53]; AddrFrom4 [127; 0; 0; 53]; AddrFrom4 [8; 8; 8; 8]]) by decide_it.
  exact (proj1 (local_dns_never_proxied _ _ _ _ _ (Forall_nil_2 _) Hd E) (AddrFrom4 [10; 0; 0; 53])).
Defined.

(** A local DNS server inside a never-proxied subnet loses its host route to [Unique].
    When a longer routed subnet contains the server too (an also-proxy inside a
    never-proxy), the server is proxied all the same: its queries are captured by the
    device. *)
Theorem local_dns_captured :
  let never := [PrefixFrom (AddrFrom4 [10; 0; 0; 0]) 8] in
  let subnets := [PrefixFrom (AddrFrom4 [10; 1; 0; 0]) 16] in
  let server := AddrFrom4 [10; 1; 0; 53] in
  captured subnets server = true /\
  let '(nvp, _) := appendLocalDNSNeverProxy never subnets [server] in
  nvp = never /\ proxied subnets nvp server.
Proof.
  cbv zeta. split; [by vm_compute|].
  destruct (appendLocalDNSNeverProxy _ _ _) as [nvp r] eqn:E.
  assert (nvp = [PrefixFrom (AddrFrom4 [10; 0; 0; 0]) 8]) as ->.
  { change nvp with (nvp, r).1. rewrite <- E. by vm_compute. }
  split; [done|]. exists (PrefixFrom (AddrFrom4 [10; 1; 0; 0]) 16). split_and!; [set_solver|by vm_compute|].
  intros n ->%list_elem_of_singleton _. by vm_compute.
Qed.

(** ** The DNS server's address *)
Lemma dns_only_contains u bits : u mod 256 = 0 -> 0 <= u < 2 ^ 32 -> bits = 30 ->
  p_Contains (PrefixFrom (Addr4 (u + 1)) bits) (Addr4 (u + 2)) = true.
Proof.
  intros Hm Hu ->. cbn. rewrite !Z.shiftr_div_pow2 by lia. apply Z.eqb_eq. change (2 ^ (32 - 30)) with 4.
  Z.div_mod_to_equations. lia.
Qed.

Definition dns_subnet_ok (s : Sess) : Prop :=
  p_IsValid (n_dnsServerSubnet s) = false \/ exists u, private_base u /\ n_dnsServerSubnet s = cand u 30.

Lemma private_base_bounds u : private_base u -> u mod 256 = 0 /\ 0 <= u /\ u + 256 < 2 ^ 32.
Proof.
  intros (Hm & r & Hr & Hb). split; [done|]. unfold private_ranges in Hr.
  apply elem_of_cons in Hr as [-> |[-> |[-> |Hr%elem_of_nil]%elem_of_cons]%elem_of_cons]; cbn in Hb; lia || done.
Qed.

(** The second address of a subnet for the DNS server only. *)
Lemma dns_only_address u : private_base u ->
  let ip := AsSlice (pfx_Addr (cand u 30)) in
  length ip = 4%nat /\ AddrFromSlice (<[3%nat := 2]> ip) = Some (Addr4 (u + 2)) /\ p_Contains (cand u 30) (Addr4 (u + 2)) = true.
Proof.
  intros (Hm & H0 & H1)%private_base_bounds. cbn [cand PrefixFrom pfx_Addr withoutZone AsSlice].
  split; [apply be_bytes_length|]. split; [|apply dns_only_contains; [done|lia|done]].
  assert (Hbs : be_bytes 4 (u + 1) = [u / 2 ^ 24 mod 256; u / 2 ^ 16 mod 256; u / 2 ^ 8 mod 256; 1]).
  { unfold be_bytes. rewrite !Z.shiftr_div_pow2 by lia. cbn [map seq rev app]. cbn.
    change (2 ^ 24) with 16777216. change (2 ^ 16) with 65536. change (2 ^ 8) with 256. change (2 ^ 0) with 1.
    assert (E3 : (u + 1) / 256 = u / 256) by (Z.div_mod_to_equations; lia).
    assert (E2 : (u + 1) / 65536 = u / 65536) by (change 65536 with (256 * 256); rewrite <- !Z.div_div by lia; by rewrite E3).
    assert (E1 : (u + 1) / 16777216 = u / 16777216)
      by (change 16777216 with (256 * 65536); rewrite <- !Z.div_div by lia; by rewrite E3).
    change (2 ^ (8 * Z.of_nat 3)) with 16777216. change (2 ^ (8 * Z.of_nat 2)) with 65536.
    change (2 ^ (8 * Z.of_nat 1)) with 256. change (2 ^ (8 * Z.of_nat 0)) with 1.
    rewrite E1, E2, E3. do 4 f_equal. Z.div_mod_to_equations. lia. }
  rewrite Hbs. cbn [insert list_insert]. unfold AddrFromSlice. rewrite bool_decide_eq_true_2 by done.
  unfold AddrFrom4. rewrite be_val_4. do 2 f_equal.
  change (2 ^ 24) with 16777216. change (2 ^ 16) with 65536. change (2 ^ 8) with 256. Z.div_mod_to_equations. lia.
Qed.

Lemma ensure_dns_subnet_ok {W} (e : RoutingEnv W) s m : dns_subnet_ok s -> dns_subnet_ok (ensure_dns_subnet e s m) /\
  n_vips (ensure_dns_subnet e s m) = n_vips s /\ n_dnsServer (ensure_dns_subnet e s m) = n_dnsServer s.
Proof.
  intros Hok. unfold ensure_dns_subnet. destruct (p_IsValid (n_dnsServerSubnet s)) eqn:V; [done|].
  split; [|done]. unfold dns_subnet_ok, createSubnetForDNSOnly. cbn [set_vip_state n_dnsServerSubnet].
  set (avoid := n_alsoProxySubnets s ++ _).
  unfold RandomIPv4Prefix, RandomIPv4Prefix_fuel. destruct (re_ifaddrs e) as [as_|]; [|by left].
  pose proof (ranges_search_spec 30 (Unique (omap id as_ ++ avoid))) as Hr.
  destruct (ranges_search _ _ _ _) as [p| | |]; [|by left|done|done].
  right. destruct Hr as (u & Hu & -> & _). by exists u.
Qed.

(** On Linux and Windows outside a container, without translated subnets: when the
    placing of the DNS server succeeds, the address that is given to the DNS server is in
    one of the subnets that will be routed, so its queries reach the device. *)
Theorem place_dns_routed {W} (e : RoutingEnv W) s m subnets s' subnets' :
  re_darwin e = false -> re_container e = false -> vipGenerator (n_vips s) = None -> dns_subnet_ok s ->
  place_dns e s m subnets = (s', Ret subnets') ->
  exists a d, n_dnsServer s' = SetClusterDNS (Some d) (Some a) (n_dnsServer s) /\ in_union subnets' a /\
    (forall p, p ∈ subnets -> p ∈ subnets') /\ dns_subnet_ok s'.
Proof.
  intros Hda Hco Hg Hok. unfold place_dns. destruct (AddrFromSlice (ci_ManagerPodIp m)) as [a0|]; [|done].
  rewrite Hg, Hda, Hco. cbn [orb negb andb].
  destruct (existsb (fun sn => p_Contains sn a0) subnets) eqn:Er; cbn [negb].
  - destruct (ci_Dns m) as [d|]; [|done]. intros [= <- <-]. exists a0, d. split_and!; [done| |done|done].
    apply existsb_exists in Er as (p & Hp%list_elem_of_In & Hc). by exists p.
  - unfold defaultRouteDNS. destruct (ensure_dns_subnet_ok e s m Hok) as (Hok1 & Hv & Hd).
    set (s1 := ensure_dns_subnet e s m) in *. rewrite Hv, Hg.
    destruct (length (AsSlice (pfx_Addr (n_dnsServerSubnet s1)))) as [|last] eqn:El; [done|].
    destruct (ci_Dns m) as [d|]; [|done]. intros [= <- <-].
    exists (default AddrZero (AddrFromSlice (<[last := 2]> (AsSlice (pfx_Addr (n_dnsServerSubnet s1)))))), d.
    split_and!; [cbn [set_device n_dnsServer]; by rewrite Hd| |set_solver|done].
    exists (n_dnsServerSubnet s1). split; [set_solver|].
    destruct Hok1 as [Hinv|(u & Hu & E)].
    + exfalso. revert Hinv El. unfold s1, ensure_dns_subnet. destruct (p_IsValid (n_dnsServerSubnet s)) eqn:V; [congruence|].
      cbn [createSubnetForDNSOnly set_vip_state n_dnsServerSubnet].
      unfold RandomIPv4Prefix, RandomIPv4Prefix_fuel. destruct (re_ifaddrs e) as [as_|]; [|done].
      set (avoid := n_alsoProxySubnets s ++ _). pose proof (ranges_search_spec 30 (Unique (omap id as_ ++ avoid))) as Hr.
      destruct (ranges_search _ _ _ _) as [p| | |]; [|done|done|done].
      by destruct Hr as (u & _ & -> & _).
    + rewrite E in El |- *. destruct (dns_only_address u Hu) as (Hlen & Ha & Hc).
      rewrite Hlen in El. injection El as <-. by rewrite Ha.
Qed.

(** When no subnet can be found for the DNS server (the host's interfaces cannot be
    listed, or every candidate is taken), the error is logged and the address of the
    missing subnet is indexed: the session panics. *)
Theorem dns_subnet_missing_panics {W} (e : RoutingEnv W) s m subnets a :
  re_darwin e = false -> re_container e = false -> vipGenerator (n_vips s) = None ->
  n_dnsServerSubnet s = PrefixZero -> re_ifaddrs e = None -> AddrFromSlice (ci_ManagerPodIp m) = Some a ->
  existsb (fun sn => p_Contains sn a) subnets = false -> (place_dns e s m subnets).2 = Panic.
Proof.
  intros Hda Hco Hg Hz Hif Ha Hno. unfold place_dns. rewrite Ha, Hg, Hda, Hco. cbn [orb negb andb]. rewrite Hno. cbn [negb].
  unfold defaultRouteDNS, ensure_dns_subnet. rewrite Hz. cbn [p_IsValid PrefixZero pfx_Bits Z.leb Z.compare].
  cbn [createSubnetForDNSOnly set_vip_state n_vips n_dnsServerSubnet].
  unfold RandomIPv4Prefix, RandomIPv4Prefix_fuel. rewrite Hif, Hg. done.
Qed.

(** With virtual IPs, the subnet that is made for the DNS server is neither routed nor
    used: an address outside of it and of the translated subnets is returned as it is,
    with the subnets unchanged, although nothing routes it. *)
Theorem dns_address_not_routed {W} (e : RoutingEnv W) s m subnets a g :
  vipGenerator (n_vips s) = Some g -> localTranslationTable (n_vips s) !! a = None ->
  subnet_for (localTranslationSubnets (n_vips s)) a = None ->
  p_Contains (n_dnsServerSubnet (ensure_dns_subnet e s m)) a = false ->
  (defaultRouteDNS e s m a subnets).2 = Ret (a, subnets).
Proof.
  intros Hg Ht Hs Hc. unfold defaultRouteDNS.
  assert (Hv : n_vips (ensure_dns_subnet e s m) = n_vips s) by (unfold ensure_dns_subnet; by case_match).
  rewrite Hv, Hg. unfold GetLocalIP. cbn [localTranslationTable localTranslationSubnets]. rewrite Ht.
  enough (forall sns x, subnet_for sns a = None -> p_Contains (as_Prefix x) a = false -> subnet_for (sns ++ [x]) a = None) as H
    by (by rewrite H).
  clear. induction sns as [|y sns IH]; intros x; cbn [subnet_for app]; [by intros _ ->|].
  destruct (p_Contains (as_Prefix y) a); [done|]. apply IH.
Qed.

(** * The session's cluster info: termination and order (src/pkg/client/rootd/session.go)

    [onClusterInfo] and [reconcileSubnets] call each other: when routes conflict, the
    conflicting subnets are translated and the computation starts again.  With a routing
    table that can be read it starts again at most once; with one that cannot, it may
    never stop.  The workload of an address in two translated subnets depends on the
    iteration order of a Go map. *)
Definition has_gen (s : Sess) : Prop := is_Some (vipGenerator (n_vips s)).

Lemma GetLocalIP_gen v d : is_Some (vipGenerator v) -> is_Some (vipGenerator (GetLocalIP v d).1).
Proof.
  intros [g Eg]. unfold GetLocalIP. destruct (localTranslationTable v !! d); [by cbn [fst]; rewrite Eg|].
  destruct (subnet_for _ d); [|by cbn [fst]; rewrite Eg]. unfold s_nextVirtualIP. rewrite Eg.
  by destruct (Next g d) as [g' []].
Qed.

Lemma ensure_families_gen v : is_Some (vipGenerator v) -> is_Some (vipGenerator (ensure_families v)).
Proof. intros [g Eg]. unfold ensure_families. by rewrite Eg. Qed.

Section Termination.
Context {W : Type} `{Host W} (e : RoutingEnv W).

Lemma collect_subnets_gen s m : has_gen s -> has_gen (collect_subnets e s m).1.
Proof.
  intros Hg. unfold collect_subnets. cbn [set_nets n_proxyClusterSvcs n_vips].
  destruct (n_proxyClusterSvcs s && _); [done|]. cbn [set_nets n_vips].
  destruct (vipGenerator (n_vips s)) as [g|] eqn:Eg; [|by destruct Hg; congruence].
  unfold has_gen. cbn [fst set_vip_state n_vips]. apply ensure_families_gen.
  cbn [consolidateProxyViaWorkloads fst set_vip_state n_vips vipGenerator set_nets]. by rewrite Eg.
Qed.

Lemma defaultRouteDNS_gen s m a subnets : has_gen s -> has_gen (defaultRouteDNS e s m a subnets).1.
Proof.
  intros Hg. unfold defaultRouteDNS.
  assert (Hv : n_vips (ensure_dns_subnet e s m) = n_vips s) by (unfold ensure_dns_subnet; by case_match).
  rewrite Hv. pose proof Hg as [g Eg]. rewrite Eg.
  destruct (GetLocalIP _ a) as [v r] eqn:E. unfold has_gen. cbn [fst set_vip_state n_vips].
  change v with (v, r).1. rewrite <- E. apply GetLocalIP_gen. by eexists.
Qed.

Lemma place_dns_gen s m subnets : has_gen s -> has_gen (place_dns e s m subnets).1.
Proof.
  intros Hg. unfold place_dns. destruct (AddrFromSlice _) as [a|]; [|done].
  pose proof Hg as [g Eg]. rewrite Eg. pose proof (GetLocalIP_gen (n_vips s) a Hg) as Hg1.
  destruct (GetLocalIP (n_vips s) a) as [v r]. cbn [fst] in Hg1.
  set (s1 := set_vip_state s v _ _). assert (Hs1 : has_gen s1) by done.
  destruct r as [a1|x|]; [|done|done].
  pose proof (defaultRouteDNS_gen s1 m a1 subnets Hs1) as Hs2.
  destruct (negb (re_darwin e) && _).
  - destruct (defaultRouteDNS e s1 m a1 subnets) as [s2 r2]. cbn [fst] in Hs2.
    destruct r2 as [[a2 sns2]|x|]; [|done|done]. destruct (_ || _); [|done]. by destruct (ci_Dns m).
  - destruct (_ || _); [|done]. by destruct (ci_Dns m).
Qed.

Lemma activate_gen s : n_subnetViaWorkloads s <> [] -> has_gen (activateProxyViaWorkloads e s).1.
Proof.
  unfold activateProxyViaWorkloads. destruct (n_subnetViaWorkloads s); [done|]. intros _.
  destruct (consolidateProxyViaWorkloads e s) as [s1 wls]. destruct (vip_subnets e) as [a b].
  unfold has_gen. cbn [fst set_vip_state n_vips]. apply ensure_families_gen. by eexists.
Qed.

(** With virtual IPs in use, a conflict is an error. *)
Lemma reconcile_gen s w subnets s' w' r : has_gen s -> reconcile_step e s w subnets = (s', w', r) -> r <> Again.
Proof.
  intros [g Eg]. unfold reconcile_step.
  destruct (match n_tunVif s with Some rt => _ | None => _ end) as [[tun w1]|]; [|by intros [= <- <- <-]].
  destruct (appendLocalDNSNeverProxy _ _ _) as [nvp dns]. destruct (computeNeverProxyOverrides _ _) as [[P N'] Ov].
  destruct tun as [rt|]; [|by intros [= <- <- <-]]. cbn [set_device n_vips].
  destruct (ValidateRoutes _ _ _ _); [|by rewrite Eg; intros [= <- <- <-]|by intros [= <- <- <-]].
  destruct (UpdateRoutes _ _ _ _ _ _) as [[? ?] ?]. by intros [= <- <- <-].
Qed.

(** A table that can be read finds the conflict in the subnet by itself. *)
Lemma conflicting_nonempty rt w proxy x t : GetRoutingTable w = Ret t ->
  ValidateRoutes (re_setting e) rt w proxy = Fail x -> conflicting e rt w proxy <> [].
Proof.
  intros Ht Hv. unfold ValidateRoutes in Hv. rewrite Ht in Hv. cbn [mbind go_bind] in Hv.
  pose proof (overlap_search_spec (re_setting e) t (filter (fun r => settled (re_setting e) rt t r = false) proxy)) as Ho.
  destruct (overlap_search _ _ _) as [[r tr]|]; [|done].
  destruct Ho as (Htr & [Hset Hr]%list_elem_of_filter & Hal & Hov).
  enough (Hin : r ∈ conflicting e rt w proxy) by (intros En; rewrite En in Hin; by apply elem_of_nil in Hin). apply list_elem_of_filter. split; [|done].
  unfold ValidateRoutes. rewrite Ht. cbn [mbind go_bind].
  pose proof (overlap_search_spec (re_setting e) t (filter (fun r => settled (re_setting e) rt t r = false) [r])) as Ho'.
  destruct (overlap_search _ _ _) as [[r' tr']|]; [done|]. exfalso.
  rewrite (Ho' tr r Htr) in Hov; [done|apply list_elem_of_filter; split; [done|apply list_elem_of_here]|done].
Qed.

(** None of the errors is that of an exhausted depth. *)
Lemma collect_error s m : (collect_subnets e s m).2 <> Fail OutOfDepth.
Proof.
  unfold collect_subnets. destruct (_ && _); [done|]. by destruct (vipGenerator _).
Qed.
Lemma defaultRouteDNS_error s m a sns : (defaultRouteDNS e s m a sns).2 <> Fail OutOfDepth.
Proof.
  unfold defaultRouteDNS. destruct (vipGenerator _).
  - by destruct (GetLocalIP _ a) as [v []].
  - by destruct (length _).
Qed.
Lemma place_dns_error s m sns : (place_dns e s m sns).2 <> Fail OutOfDepth.
Proof.
  unfold place_dns. destruct (AddrFromSlice _) as [a|]; [|done].
  destruct (match vipGenerator _ with Some _ => _ | None => _ end) as [s1 [a1|x|]]; [|done|done].
  pose proof (defaultRouteDNS_error s1 m a1 sns) as Hd. destruct (negb (re_darwin e) && _).
  - destruct (defaultRouteDNS e s1 m a1 sns) as [s2 [[a2 sns2]|x|]]; [|cbn [snd] in *; congruence|done].
    destruct (_ || _); [by destruct (ci_Dns m)|done].
  - destruct (_ || _); [by destruct (ci_Dns m)|done].
Qed.
Lemma reconcile_error s w sns s' w' r : reconcile_step e s w sns = (s', w', Done r) -> r <> Fail OutOfDepth.
Proof.
  unfold reconcile_step.
  destruct (match n_tunVif s with Some rt => _ | None => _ end) as [[tun w1]|]; [|by intros [= <- <- <-]].
  destruct (appendLocalDNSNeverProxy _ _ _) as [nvp dns]. destruct (computeNeverProxyOverrides _ _) as [[P N'] Ov].
  destruct tun as [rt|]; [|by intros [= <- <- <-]].
  destruct (ValidateRoutes _ _ _ _) as [[]|x|]; [|destruct (_ || negb (re_autoResolve e))|].
  - destruct (UpdateRoutes _ _ _ _ _ _) as [[? ?] []]; by intros [= <- <- <-].
  - by intros [= <- <- <-].
  - destruct (activateProxyViaWorkloads e _) as [s3 [x3|]]; [by intros [= <- <- <-]|done].
  - by intros [= <- <- <-].
Qed.

Context (Hread : forall w : W, exists t, GetRoutingTable w = Ret t).

Lemma reconcile_again s w subnets s' w' : reconcile_step e s w subnets = (s', w', Again) -> has_gen s'.
Proof.
  unfold reconcile_step.
  destruct (match n_tunVif s with Some rt => _ | None => _ end) as [[tun w1]|]; [|done].
  destruct (appendLocalDNSNeverProxy _ _ _) as [nvp dns]. destruct (computeNeverProxyOverrides _ _) as [[P N'] Ov].
  destruct tun as [rt|]; [|done]. set (rt1 := SetLocalDNSRoutes _ _). set (s1 := set_device _ (Some rt1) _ _).
  destruct (ValidateRoutes (re_setting e) rt1 w1 P) as [[]|x|] eqn:Ev; [|destruct (_ || negb (re_autoResolve e)); [done|]|done].
  { destruct (UpdateRoutes _ _ _ _ _ _) as [[? ?] ?]. done. }
  set (s2 := set_vip_state s1 _ _ _). pose proof (activate_gen s2) as Ha.
  destruct (activateProxyViaWorkloads e s2) as [s3 [x3|]]; [done|]. intros [= <- _]. apply Ha.
  destruct (Hread w1) as [t Ht]. cbn [s2 set_vip_state n_subnetViaWorkloads].
  pose proof (conflicting_nonempty rt1 w1 P x t Ht Ev). intros E. apply app_nil in E as [_ E]. by apply fmap_nil_inv in E.
Qed.

Lemma onClusterInfo_gen depth s w m : has_gen s ->
  onClusterInfo e (S depth) s w m = onClusterInfo e 1 s w m /\ (onClusterInfo e 1 s w m).2 <> Fail OutOfDepth.
Proof.
  intros Hg. cbn [onClusterInfo]. destruct (n_podDaemon s); [done|].
  pose proof (collect_subnets_gen s m Hg) as Hg1. pose proof (collect_error s m) as He1.
  destruct (collect_subnets e s m) as [s1 r1]. cbn [fst snd] in *. destruct r1 as [sns|x|]; [|by split; [|cbn; congruence]|done].
  pose proof (place_dns_gen s1 m sns Hg1) as Hg2. pose proof (place_dns_error s1 m sns) as He2.
  destruct (place_dns e s1 m sns) as [s2 r2]. cbn [fst snd] in *. destruct r2 as [sns2|x|]; [|by split; [|cbn; congruence]|done].
  destruct (reconcile_step e s2 w sns2) as [[s3 w3] r3] eqn:E3.
  pose proof (reconcile_gen _ _ _ _ _ _ Hg2 E3). destruct r3 as [r|]; [|done]. split; [done|]. cbn [snd].
  by eapply reconcile_error.
Qed.

Lemma onClusterInfo_twice depth s w m :
  onClusterInfo e (S (S depth)) s w m = onClusterInfo e 2 s w m /\ (onClusterInfo e 2 s w m).2 <> Fail OutOfDepth.
Proof.
  remember (S depth) as n eqn:En. cbn [onClusterInfo]. destruct (n_podDaemon s); [done|].
  pose proof (collect_error s m) as He1.
  destruct (collect_subnets e s m) as [s1 r1]. cbn [fst snd] in *. destruct r1 as [sns|x|]; [|by split; [|cbn; congruence]|done].
  pose proof (place_dns_error s1 m sns) as He2.
  destruct (place_dns e s1 m sns) as [s2 r2]. cbn [fst snd] in *. destruct r2 as [sns2|x|]; [|by split; [|cbn; congruence]|done].
  destruct (reconcile_step e s2 w sns2) as [[s3 w3] r3] eqn:E3. destruct r3 as [r|].
  - split; [done|]. cbn [snd]. by eapply reconcile_error.
  - subst n. apply onClusterInfo_gen. by eapply reconcile_again.
Qed.
End Termination.

(** C27. When the routing table of the host can be read, [onClusterInfo] calls itself at most
    once through [reconcileSubnets], for every cluster info and every state: a depth of
    two is never exhausted, and more depth makes no difference. *)
Theorem onClusterInfo_terminates {W} `{Host W} (e : RoutingEnv W) depth s (w : W) m :
  (forall w : W, exists t, GetRoutingTable w = Ret t) ->
  onClusterInfo e (S (S depth)) s w m = onClusterInfo e 2 s w m /\ (onClusterInfo e 2 s w m).2 <> Fail OutOfDepth.
Proof. intros Hr. by apply onClusterInfo_twice. Qed.

(** ** Samples *)
Definition sample_env {W} (w0 : W -> option W) (container : bool) (order : list (string * list Prefix) -> list (string * list Prefix)) :
    RoutingEnv W :=
  {| re_setting := Sim.setting; re_container := container; re_darwin := false; re_autoResolve := true;
     re_ifaddrs := Some []; re_newDevice := w0; re_agents := true; re_ensureAgent := fun _ => true;
     re_order := order; re_dnsServers := [] |}.
Definition sample_server : Server := NewServer [] [] [] [] "default" false.
Definition sample_sess (via : list (string * string)) (tun : option Router) (pods svcs : bool) : Sess :=
  {| n_serviceSubnets := []; n_podSubnets := []; n_alsoProxySubnets := []; n_neverProxySubnets := [];
     n_effectiveNeverProxy := []; n_allowConflictingSubnets := []; n_dnsServerSubnet := PrefixZero;
     n_subnetViaWorkloads := via; n_proxyClusterPods := pods; n_proxyClusterSvcs := svcs; n_podDaemon := false;
     n_vips := {| localTranslationTable := ∅; localTranslationSubnets := []; virtualIPs := ∅; vipGenerator := None |};
     n_tunVif := tun; n_dnsServer := sample_server |}.
Definition sample_info : ClusterInfo :=
  {| ci_legacy := {| li_ServiceCidrs := []; li_ServiceSubnet := None |};
     ci_PodSubnets := [{| ipn_Ip := [10; 42; 0; 0]; ipn_Mask := 16 |}]; ci_ManagerPodIp := [10; 42; 0; 7];
     ci_Dns := Some ([], [], "cluster.local")%string; ci_Routing := None |}.
Definition vpn8 : Route := NewRoute (PrefixFrom (AddrFrom4 [10; 0; 0; 0]) 8) 5 "tun0".
Definition vpn_world : gmap Prefix Route := {[ RoutedNet vpn8 := vpn8 ]}.
Definition vpn_env : RoutingEnv (gmap Prefix Route) := sample_env Some false id.

(** The pod subnet conflicts with a VPN; it is translated, and the second round succeeds. *)
Lemma onClusterInfo_terminates_witness :
  (onClusterInfo vpn_env 1 (sample_sess [] None true true) vpn_world sample_info).2 = Fail OutOfDepth /\
  (onClusterInfo vpn_env 2 (sample_sess [] None true true) vpn_world sample_info).2 = Ret tt /\
  onClusterInfo vpn_env 7 (sample_sess [] None true true) vpn_world sample_info =
    onClusterInfo vpn_env 2 (sample_sess [] None true true) vpn_world sample_info.
Proof.
  split; [by vm_compute|]. split; [by vm_compute|].
  apply (onClusterInfo_terminates vpn_env 5 (sample_sess [] None true true) vpn_world sample_info).
  intros w. exists (Sim.eth0 :: filter (fun r => Sim.listed r = true) (map_to_list w).*2). reflexivity.
Defined.

(** ** A routing table that cannot be read *)
Module Broken.
Definition host : Host unit :=
  {| h_table _ _ := Fail ErrReadTable; h_osRoute _ _ := Fail ErrOsRoute; h_osCompare _ _ _ := None;
     h_Add w _ := (w, true); h_Remove w _ := (w, true); h_AddSubnet w _ := (w, true); h_RemoveSubnet w _ := (w, true) |}.
Definition env : RoutingEnv unit := sample_env Some true id.
Definition info : ClusterInfo :=
  {| ci_legacy := {| li_ServiceCidrs := []; li_ServiceSubnet := None |}; ci_PodSubnets := [];
     ci_ManagerPodIp := [10; 42; 0; 7]; ci_Dns := Some ([], [], "cluster.local")%string; ci_Routing := None |}.

(** Nothing to route, nothing translated, and a device from before. *)
Definition stuck (s : Sess) : Prop :=
  n_subnetViaWorkloads s = [] /\ vipGenerator (n_vips s) = None /\ is_Some (n_tunVif s) /\
  n_proxyClusterPods s = false /\ n_proxyClusterSvcs s = false /\ n_podDaemon s = false /\ n_alsoProxySubnets s = [].

Lemma compute_nil nvp : computeNeverProxyOverrides [] nvp = ([], [], []).
Proof.
  unfold computeNeverProxyOverrides, drop_unrouted. cbn [Partition partition_loop].
  rewrite filter_none; [done|]. apply Forall_forall. done.
Qed.

Lemma no_routes rt (w : unit) l : ValidateRoutes (H:=host) (re_setting env) rt w l = Fail ErrReadTable.
Proof. reflexivity. Qed.

Lemma reconcile_round s (w : unit) : stuck s -> exists s3, reconcile_step (H:=host) env s w [] = (s3, w, Again) /\ stuck s3.
Proof.
  intros (H1 & H2 & [rt H3] & H4 & H5 & H6 & H7). unfold reconcile_step. rewrite H3.
  destruct (appendLocalDNSNeverProxy _ _ _) as [nvp l]. rewrite compute_nil, no_routes.
  cbn [set_device n_vips]. rewrite H2. cbn [negb orb re_autoResolve env sample_env].
  cbn [set_device n_subnetViaWorkloads]. rewrite H1.
  unfold activateProxyViaWorkloads. cbn [set_vip_state n_subnetViaWorkloads conflicting filter list_filter fmap list_fmap app].
  eexists. split; [reflexivity|]. by split_and!.
Qed.

Lemma round (s : Sess) (w : unit) : stuck s -> exists s1 s2 s3,
  collect_subnets env s info = (s1, Ret []) /\ place_dns env s1 info [] = (s2, Ret []) /\
  reconcile_step (H:=host) env s2 w [] = (s3, w, Again) /\ stuck s3.
Proof.
  intros (H1 & H2 & H3 & H4 & H5 & H6 & H7).
  set (s1 := set_nets s [] []).
  assert (Hc : collect_subnets env s info = (s1, Ret [])).
  { unfold collect_subnets. cbn [set_nets n_proxyClusterSvcs n_proxyClusterPods n_vips n_alsoProxySubnets n_subnetViaWorkloads].
    rewrite H4, H5. cbn [andb]. rewrite H2. unfold alsoProxyVia. cbn [set_nets n_subnetViaWorkloads n_alsoProxySubnets].
    by rewrite H1, H7. }
  set (srv := SetClusterDNS (ci_Dns info) (Some (AddrFrom4 [10; 42; 0; 7])) (n_dnsServer s1)).
  set (s2 := set_device s1 (n_tunVif s1) (n_effectiveNeverProxy s1) srv).
  assert (Hp : place_dns env s1 info [] = (s2, Ret [])).
  { unfold place_dns. cbn [info ci_ManagerPodIp].
    change (AddrFromSlice [10; 42; 0; 7]) with (Some (AddrFrom4 [10; 42; 0; 7])). cbn [s1 set_nets n_vips]. by rewrite H2. }
  destruct (reconcile_round s2 w) as (s3 & Hr & Hs3); [by split_and!|]. by exists s1, s2, s3.
Qed.
End Broken.

(** When the routing table cannot be read, there is nothing to route and a device
    exists from before, each round fails to validate, finds no subnet to translate and
    calls [onClusterInfo] again: no depth is enough. *)
Theorem onClusterInfo_diverges depth :
  (onClusterInfo (H:=Broken.host) Broken.env depth (sample_sess [] (Some NewRouter) false false) tt Broken.info).2 = Fail OutOfDepth.
Proof.
  enough (forall s, Broken.stuck s -> (onClusterInfo (H:=Broken.host) Broken.env depth s tt Broken.info).2 = Fail OutOfDepth) as H
    by (apply H; by split_and!).
  induction depth as [|depth IH]; intros s Hs; [done|]. cbn [onClusterInfo].
  destruct (Broken.round s tt Hs) as (s1 & s2 & s3 & E1 & E2 & E3 & Hs3).
  assert (n_podDaemon s = false) as -> by apply Hs. rewrite E1, E2, E3. by apply IH.
Qed.

(** ** The order of a map *)

(** Two translated subnets that overlap and go through different workloads: the
    workload of an address in both depends on the order in which Go happens to iterate
    over the map of workloads. *)
Theorem translation_depends_on_map_order :
  let s := sample_sess [("10.42.0.0/16", "front"); ("10.42.7.0/24", "back")]%string None true true in
  let a := AddrFrom4 [10; 42; 7; 9] in
  exists order, (forall l, order l ≡ₚ l) /\
  let sub order := subnet_for (localTranslationSubnets (n_vips (consolidateProxyViaWorkloads (sample_env (W:=unit) Some false order) s).1)) a in
  as_workload <$> sub id <> as_workload <$> sub order.
Proof.
  cbv zeta. exists reverse. split; [intros l; apply reverse_Permutation|]. by vm_compute.
Qed.
