(* ===== verification/AgentPf.v ===== *)
(** * Clients of the traffic-agents in the root daemon (src/pkg/client/agentpf/clients.go)

    The root daemon keeps a client for each traffic-agent pod that the traffic-manager
    reports, connects it when it is needed, watches the dial requests of intercepted
    agents and lets others wait for an agent.  Pod infos are shared objects: the map of
    the watch, the snapshot and the clients hold the same pointers, and ending a dial
    watch writes to the info.  Infos and clients are therefore objects of a heap.

    The outcome of connecting to an agent, of asking it for its dial requests and the
    order in which Go visits a map are parameters ([PfEnv]).  Goroutines that run after
    a call has returned (closing a connection, the end of a dial watch, the end of a
    tunnel) are steps of their own. *)
From S2P Require Import Prelude NetIP GoStrings SessionStream.

Record AgentPodInfo := mkPod {
  ai_PodName : string; ai_Namespace : string; ai_WorkloadName : string;
  ai_PodIp : list Z; ai_Intercepted : bool
}.
Definition podIP (ai : AgentPodInfo) : option Addr := AddrFromSlice (ai_PodIp ai).
Definition pod_key (ai : AgentPodInfo) : string := ai_PodName ai +:+ "." +:+ ai_Namespace ai.

(** A client.  [c_key] is the key that its remove function deletes; [c_cli] stands for
    both [cli] and [cancelClient], which are set and cleared together; [c_watch] for
    [cancelDialWatch]; [c_loops] counts its running dial-wait loops and [c_closing] the
    goroutines started by [cancelClient] that have not run yet. *)
Record client := mkClient {
  c_key : string; c_info : nat; c_cli : bool; c_watch : bool; c_loops : nat; c_closing : nat;
  c_err : bool; c_tunnels : Z; c_lastActive : Z
}.
Definition newClient (k : string) (ai : nat) : client := mkClient k ai false false 0 0 false 0 0.

Record clients := mkClients {
  s_Namespace : string;
  infos : list AgentPodInfo;
  objs : list client;
  live : gmap string nat;
  snapshot : gmap string nat;
  ipWaiters : gmap (string * Addr) nat;
  wlWaiters : gmap string nat;
  chans : list bool;                        (* whether a waiter's channel is closed *)
  proxyVias : gset string;
  namespaces : gset string;
  disabled : bool;
  changes : nat                             (* calls of the change listener *)
}.

Record PfEnv := {
  connects : AgentPodInfo -> bool;          (* ConnectToAgent *)
  watches : AgentPodInfo -> bool;           (* WatchDial *)
  order : gmap string nat -> list (string * nat);
  now : Z
}.
Definition env_wf (e : PfEnv) : Prop := forall m, order e m ≡ₚ map_to_list m.

(** ** Construction and namespaces *)
Definition to_set (nss : list string) : gset string := list_to_set (filter (fun ns => ns <> ""%string) nss).
Definition setNamespaces (nss : list string) (s : clients) : clients :=
  mkClients (s_Namespace s) (infos s) (objs s) (live s) (snapshot s) (ipWaiters s) (wlWaiters s) (chans s)
    (proxyVias s) (to_set nss) (disabled s) (changes s).
Definition NewClients (own : string) (nss : list string) : clients :=
  setNamespaces (if Nat.eqb (length nss) 0 then [own] else nss)
    (mkClients own [] [] ∅ ∅ ∅ ∅ [] ∅ ∅ false 0).
Definition watchesNamespace (ns : string) (s : clients) : bool :=
  bool_decide ((if bool_decide (ns = ""%string) then s_Namespace s else ns) ∈ namespaces s).

(** ** Heap access *)
Definition upd_obj (id : nat) (f : client -> client) (s : clients) : clients :=
  mkClients (s_Namespace s) (infos s) (alter f id (objs s)) (live s) (snapshot s) (ipWaiters s) (wlWaiters s) (chans s)
    (proxyVias s) (namespaces s) (disabled s) (changes s).
Definition upd_info (p : nat) (f : AgentPodInfo -> AgentPodInfo) (s : clients) : clients :=
  mkClients (s_Namespace s) (alter f p (infos s)) (objs s) (live s) (snapshot s) (ipWaiters s) (wlWaiters s) (chans s)
    (proxyVias s) (namespaces s) (disabled s) (changes s).
Definition set_live (m : gmap string nat) (s : clients) : clients :=
  mkClients (s_Namespace s) (infos s) (objs s) m (snapshot s) (ipWaiters s) (wlWaiters s) (chans s)
    (proxyVias s) (namespaces s) (disabled s) (changes s).
Definition set_snapshot (m : gmap string nat) (s : clients) : clients :=
  mkClients (s_Namespace s) (infos s) (objs s) (live s) m (ipWaiters s) (wlWaiters s) (chans s)
    (proxyVias s) (namespaces s) (disabled s) (changes s).
Definition set_waiters (ipw : gmap (string * Addr) nat) (wlw : gmap string nat) (ch : list bool) (s : clients) : clients :=
  mkClients (s_Namespace s) (infos s) (objs s) (live s) (snapshot s) ipw wlw ch
    (proxyVias s) (namespaces s) (disabled s) (changes s).
Definition set_flags (pv : gset string) (dis : bool) (ch : nat) (s : clients) : clients :=
  mkClients (s_Namespace s) (infos s) (objs s) (live s) (snapshot s) (ipWaiters s) (wlWaiters s) (chans s)
    pv (namespaces s) dis ch.
Definition new_obj (c : client) (s : clients) : clients :=
  mkClients (s_Namespace s) (infos s) (objs s ++ [c]) (<[c_key c := length (objs s)]> (live s)) (snapshot s)
    (ipWaiters s) (wlWaiters s) (chans s) (proxyVias s) (namespaces s) (disabled s) (changes s).
(** Pod infos that arrive from the traffic-manager. *)
Definition receive (ais : list AgentPodInfo) (s : clients) : clients :=
  mkClients (s_Namespace s) (infos s ++ ais) (objs s) (live s) (snapshot s) (ipWaiters s) (wlWaiters s) (chans s)
    (proxyVias s) (namespaces s) (disabled s) (changes s).

Definition info_of (c : client) (s : clients) : option AgentPodInfo := infos s !! c_info c.
Definition with_info (id : nat) (s : clients) : option (client * AgentPodInfo) :=
  c ← objs s !! id; ai ← info_of c s; Some (c, ai).

Definition set_cli (b : bool) (c : client) : client :=
  mkClient (c_key c) (c_info c) b (c_watch c) (c_loops c) (c_closing c) (c_err c) (c_tunnels c) (c_lastActive c).
Definition set_err (c : client) : client :=
  mkClient (c_key c) (c_info c) (c_cli c) (c_watch c) (c_loops c) (c_closing c) true (c_tunnels c) (c_lastActive c).
Definition set_watch (b : bool) (loops : nat) (c : client) : client :=
  mkClient (c_key c) (c_info c) (c_cli c) b loops (c_closing c) (c_err c) (c_tunnels c) (c_lastActive c).
Definition set_info (p : nat) (c : client) : client :=
  mkClient (c_key c) p (c_cli c) (c_watch c) (c_loops c) (c_closing c) (c_err c) (c_tunnels c) (c_lastActive c).
Definition set_closing (n : nat) (c : client) : client :=
  mkClient (c_key c) (c_info c) (c_cli c) (c_watch c) (c_loops c) n (c_err c) (c_tunnels c) (c_lastActive c).
Definition set_active (tunnels at_ : Z) (c : client) : client :=
  mkClient (c_key c) (c_info c) (c_cli c) (c_watch c) (c_loops c) (c_closing c) (c_err c) tunnels at_.
Definition set_intercepted (b : bool) (ai : AgentPodInfo) : AgentPodInfo :=
  mkPod (ai_PodName ai) (ai_Namespace ai) (ai_WorkloadName ai) (ai_PodIp ai) b.

(** ** One client *)
Section Env.
Context (e : PfEnv).

Definition startDialWatcherLocked (id : nat) (s : clients) : clients * bool :=
  match with_info id s with
  | None => (s, false)
  | Some (c, ai) =>
      if c_watch c then (s, true)
      else if watches e ai then (upd_obj id (set_watch true (S (c_loops c))) s, true)
      else (s, false)
  end.

(** The second half of [ensureConnectLocked], with a connection at hand. *)
Definition connected_then (id : nat) (s : clients) : clients * bool :=
  match with_info id s with
  | None => (s, false)
  | Some (c, ai) =>
      let '(s, ok) := if ai_Intercepted ai then startDialWatcherLocked id s else (s, true) in
      if ok : bool then (upd_obj id (fun c => set_active (c_tunnels c) (now e) c) s, true) else (s, false)
  end.
Definition ensureConnect (id : nat) (s : clients) : clients * bool :=
  match with_info id s with
  | None => (s, false)
  | Some (c, ai) =>
      if c_err c then (s, false)
      else if c_cli c then connected_then id s
      else if connects e ai then connected_then id (upd_obj id (set_cli true) s)
      else (set_live (delete (c_key c) (live s)) (upd_obj id set_err s), false)
  end.

(** The function that [cancelDialWatch] holds. *)
Definition stop_watch (id : nat) (s : clients) : clients :=
  match objs s !! id with
  | None => s
  | Some c => upd_obj id (set_watch false (c_loops c)) (upd_info (c_info c) (set_intercepted false) s)
  end.
(** The end of a dial-wait loop calls whatever [cancelDialWatch] is then. *)
Definition loop_end (id : nat) (s : clients) : clients :=
  match objs s !! id with
  | Some c => match c_loops c with
              | O => s
              | S n => let s := upd_obj id (set_watch (c_watch c) n) s in
                       if c_watch c then stop_watch id s else s
              end
  | None => s
  end.
Definition cancel (id : nat) (s : clients) : clients * bool :=
  match objs s !! id with
  | None => (s, false)
  | Some c =>
      let s := if c_watch c then stop_watch id s else s in
      let s := if c_cli c then upd_obj id (fun c => set_closing (S (c_closing c)) c) s else s in
      (s, c_watch c || c_cli c)
  end.
(** The goroutine of [cancelClient]. *)
Definition close_conn (id : nat) (s : clients) : clients :=
  match objs s !! id with
  | Some c => match c_closing c with
              | O => s
              | S n => upd_obj id (fun c => set_cli false (set_active 0 (c_lastActive c) (set_closing n c))) s
              end
  | None => s
  end.
Definition refresh (id : nat) (p : nat) (s : clients) : clients :=
  match with_info id s, infos s !! p with
  | Some (c, old), Some ai =>
      let s := upd_obj id (set_info p) s in
      if Bool.eqb (ai_Intercepted ai) (ai_Intercepted old) then
        if ai_Intercepted ai && negb (c_watch c) then (ensureConnect id s).1 else s
      else if ai_Intercepted ai then (ensureConnect id s).1
      else if c_watch c then stop_watch id s else s
  | _, _ => s
  end.

(** [Tunnel]; [opens] tells whether the agent opens it. *)
Definition pf_Tunnel (opens : bool) (id : nat) (s : clients) : clients * bool :=
  let '(s, ok) := ensureConnect id s in
  if ok && opens then (upd_obj id (fun c => set_active (wrap 32 (c_tunnels c + 1)) (now e) c) s, true) else (s, false).
(** The goroutine that waits for the end of a tunnel, in its two atomic steps: it loads
    the count, then swaps it if it has not changed. *)
Definition tunnel_load (id : nat) (s : clients) : option Z := c_tunnels <$> objs s !! id.
Definition tunnel_cas (loaded : Z) (id : nat) (s : clients) : clients :=
  match objs s !! id with
  | Some c => if (0 <? loaded) && (c_tunnels c =? loaded)
              then upd_obj id (set_active (loaded - 1) (c_lastActive c)) s else s
  | None => s
  end.

Definition dormantLingerTime : Z := 5 * 10 ^ 9.
Definition dormant (id : nat) (s : clients) : bool :=
  match with_info id s with
  | Some (c, ai) =>
      negb (0 <? c_tunnels c) && negb (now e - c_lastActive c <? dormantLingerTime) &&
      (c_cli c && negb (ai_Intercepted ai))
  | None => false
  end.

(** ** Choice of a client *)
Fixpoint get_client (s : clients) (ip : Addr) (l : list (string * nat)) (secondary ternary : option nat) : option nat :=
  match l with
  | [] => match secondary with Some _ => secondary | None => ternary end
  | (_, id) :: l =>
      match with_info id s with
      | None => get_client s ip l secondary ternary
      | Some (c, ai) =>
          if bool_decide (podIP ai = Some ip) then Some id
          else if ai_Intercepted ai then get_client s ip l (Some id) ternary
          else get_client s ip l secondary (Some id)
      end
  end.
Definition cs_GetClient (ip : Addr) (s : clients) : option nat :=
  if disabled s then None else get_client s ip (order e (live s)) None None.

Definition isProxyVIA (ai : AgentPodInfo) (s : clients) : bool := bool_decide (ai_WorkloadName ai ∈ proxyVias s).
Definition hasWaiterFor (ai : AgentPodInfo) (s : clients) : bool :=
  match podIP ai with
  | Some ip => bool_decide (is_Some (ipWaiters s !! (ai_Namespace ai, ip)))
  | None => false
  end || bool_decide (is_Some (wlWaiters s !! ai_WorkloadName ai)).

Fixpoint random_agent (s : clients) (l : list (string * nat)) (waiting other : option nat) : option nat * option nat * option nat :=
  match l with
  | [] => (None, waiting, other)
  | (_, id) :: l =>
      match with_info id s with
      | None => random_agent s l waiting other
      | Some (c, ai) =>
          if c_cli c then (Some id, waiting, other)
          else if isProxyVIA ai s || hasWaiterFor ai s then random_agent s l (Some id) other
          else random_agent s l waiting (Some id)
      end
  end.
Definition connect_to (id : nat) (s : clients) : clients * option nat :=
  let '(s, ok) := ensureConnect id s in (s, if ok : bool then Some id else None).
Definition GetRandomAgent (s : clients) : clients * option nat :=
  match random_agent s (order e (live s)) None None with
  | (Some id, _, _) => (upd_obj id (fun c => set_active (c_tunnels c) (now e) c) s, Some id)
  | (None, Some id, _) => connect_to id s
  | (None, None, Some id) => connect_to id s
  | (None, None, None) => (s, None)
  end.
Fixpoint workload_client (s : clients) (wl : string) (l : list (string * nat)) : option nat :=
  match l with
  | [] => None
  | (_, id) :: l =>
      match with_info id s with
      | Some (c, ai) => if bool_decide (ai_WorkloadName ai = wl) && bool_decide (ai_Namespace ai = s_Namespace s) then Some id
                        else workload_client s wl l
      | None => workload_client s wl l
      end
  end.
Definition cs_GetWorkloadClient (wl : string) (s : clients) : option nat := workload_client s wl (order e (live s)).
Definition SetProxyVia (wl : string) (s : clients) : clients := set_flags ({[ wl ]} ∪ proxyVias s) (disabled s) (changes s) s.

(** The first pod info of the snapshot that satisfies [f], in the order of the map. *)
Definition snapshot_find (f : AgentPodInfo -> bool) (s : clients) : option (nat * AgentPodInfo) :=
  head (omap (fun kp : string * nat => ai ← infos s !! kp.2; if f ai then Some (kp.2, ai) else None) (order e (snapshot s))).
Definition snapshotInfoForIP (ns : string) (ip : Addr) (s : clients) : option nat :=
  fst <$> snapshot_find (fun ai => bool_decide (podIP ai = Some ip) && bool_decide (ai_Namespace ai = ns)) s.
Definition cs_WorkloadForIP (ip : Addr) (s : clients) : option (string * string) :=
  (fun x => (ai_WorkloadName x.2, ai_Namespace x.2)) <$> snapshot_find (fun ai => bool_decide (podIP ai = Some ip)) s.

(** What the session's dispatch of connections uses. *)
Definition as_AgentClients (s : clients) : AgentClients nat :=
  {| GetWorkloadClient := fun wl => cs_GetWorkloadClient wl s;
     GetClient := fun ip => cs_GetClient ip s;
     WorkloadForIP := fun ip => cs_WorkloadForIP ip s |}.

(** ** Waiting *)
Definition close_chan (ch : nat) (s : clients) : clients :=
  set_waiters (ipWaiters s) (wlWaiters s) (<[ch := true]> (chans s)) s.
Definition notify (id ch : nat) (s : clients) : clients := close_chan ch (ensureConnect id s).1.
Definition notify_ip (id : nat) (ai : AgentPodInfo) (s : clients) : clients :=
  match podIP ai with
  | None => s
  | Some ip =>
      match ipWaiters s !! (ai_Namespace ai, ip) with
      | None => s
      | Some ch => notify id ch (set_waiters (delete (ai_Namespace ai, ip) (ipWaiters s)) (wlWaiters s) (chans s) s)
      end
  end.
Definition notify_wl (id : nat) (ai : AgentPodInfo) (s : clients) : clients :=
  match wlWaiters s !! ai_WorkloadName ai with
  | None => s
  | Some ch => notify id ch (set_waiters (ipWaiters s) (delete (ai_WorkloadName ai) (wlWaiters s)) (chans s) s)
  end.
Definition notify_one (s : clients) (kid : string * nat) : clients :=
  match with_info kid.2 s with
  | None => s
  | Some (_, ai) => notify_wl kid.2 ai (notify_ip kid.2 ai s)
  end.
Definition notifyWaiters (s : clients) : clients := foldl notify_one s (order e (live s)).

Definition loadOrAddClient (p : nat) (s : clients) : clients * nat :=
  match infos s !! p with
  | None => (s, length (objs s))
  | Some ai =>
      match live s !! pod_key ai with
      | Some id => (s, id)
      | None => (new_obj (newClient (pod_key ai) p) s, length (objs s))
      end
  end.

(** [LoadOrCompute] of an IP waiter: the existing channel or a new one. *)
Definition ip_waiter (key : string * Addr) (s : clients) : clients :=
  match ipWaiters s !! key with
  | Some _ => s
  | None => set_waiters (<[key := length (chans s)]> (ipWaiters s)) (wlWaiters s) (chans s ++ [false]) s
  end.
(** One round of the loop of [WaitForIP]; [true] when the agent is reached.  [woken] tells
    that the channel was closed, which makes the function register again. *)
Definition wait_round (ns : string) (ip : Addr) (woken : bool) (s : clients) : clients * bool :=
  match snapshotInfoForIP ns ip s with
  | Some p => let '(s, id) := loadOrAddClient p s in ensureConnect id s
  | None => (if woken then ip_waiter (ns, ip) s else s, false)
  end.

(** [WaitForWorkload].  The flag that [LoadOrCompute] returns tells that the channel was
    there before, and only then the function waits. *)
Inductive wl_wait := WlReturn | WlWait (ch : nat).
Definition has_workload (wl : string) (s : clients) : bool :=
  existsb (fun kid : string * nat => match with_info kid.2 s with
                                     | Some (_, ai) => bool_decide (ai_WorkloadName ai = wl)
                                     | None => false
                                     end) (order e (live s)).
Definition WaitForWorkload (wl : string) (s : clients) : clients * wl_wait :=
  if disabled s then (s, WlReturn)
  else match wlWaiters s !! wl with
       | Some ch => (notifyWaiters s, WlWait ch)
       | None =>
           if has_workload wl s then (s, WlReturn)
           else (set_waiters (ipWaiters s) (<[wl := length (chans s)]> (wlWaiters s)) (chans s ++ [false]) s, WlReturn)
       end.

(** ** The agents that the traffic-manager reports *)
Definition aim_of (s : clients) (ais : list nat) : gmap string nat :=
  foldl (fun m p => match infos s !! p with
                    | Some ai => if bool_decide (ai_PodName ai = ""%string) then m else <[pod_key ai := p]> m
                    | None => m
                    end) ∅ ais.
Definition delete_one (aim : gmap string nat) (sc : clients * bool) (kid : string * nat) : clients * bool :=
  let '(s, changed) := sc in
  match aim !! kid.1, live s !! kid.1 with
  | None, Some id => (set_live (delete kid.1 (live s)) (cancel id s).1, true)
  | _, _ => (s, changed)
  end.
Definition refresh_one (s : clients) (kp : string * nat) : clients :=
  match live s !! kp.1 with Some id => refresh id kp.2 s | None => s end.
Definition add_one (sc : clients * bool) (kp : string * nat) : clients * bool :=
  let '(s, changed) := sc in
  match live s !! kp.1 with
  | Some _ => (s, changed)
  | None =>
      let id := length (objs s) in
      let s := new_obj (newClient kp.1 kp.2) s in
      (match infos s !! kp.2 with
       | Some ai => if ai_Intercepted ai then (ensureConnect id s).1 else s
       | None => s
       end, true)
  end.
(** The end of clients that are not used, except one. *)
Definition idle (id : nat) (s : clients) : bool :=
  dormant id s && match with_info id s with
                  | Some (_, ai) => negb (isProxyVIA ai s) && negb (hasWaiterFor ai s)
                  | None => false
                  end.
Definition dormant_one (sn : clients * nat) (kid : string * nat) : clients * nat :=
  let '(s, n) := sn in
  if idle kid.2 s then (if Nat.leb 1 n then (cancel kid.2 s).1 else s, S n) else (s, n).

Definition updateClients (ais : list nat) (s : clients) : clients :=
  let aim := aim_of s ais in
  if negb (Nat.eqb (length ais) 0) && Nat.eqb (size aim) 0 then
    notifyWaiters (set_flags (proxyVias s) true (changes s) s)
  else
    let s := set_snapshot aim s in
    let '(s, changed) := foldl (delete_one aim) (s, false) (order e (live s)) in
    let s := foldl refresh_one s (order e aim) in
    let '(s, changed) := foldl add_one (s, changed) (order e aim) in
    let s := (foldl dormant_one (s, 0%nat) (order e (live s))).1 in
    notifyWaiters (if changed : bool then set_flags (proxyVias s) (disabled s) (S (changes s)) s else s).

(** A message of the watch: [DeltaUpdate] of its map, then [updateClients]. *)
Definition DeltaUpdate (m ups : gmap string nat) (removals : list string) : gmap string nat :=
  foldl (fun m k => delete k m) (ups ∪ m) removals.
Definition watch_delta (snapMap ups : gmap string nat) (removals : list string) (s : clients) : gmap string nat * clients :=
  let m := DeltaUpdate snapMap ups removals in
  (m, updateClients (order e m).*2 s).
(** The end of [WatchAgentPods]. *)
Definition watch_end (s : clients) : clients :=
  let s := foldl (fun s kid => (cancel kid.2 s).1) s (order e (live s)) in
  set_flags (proxyVias s) true (changes s) s.
End Env.

(** ** The steps of concurrent calls

    The watch, the calls that wait and the goroutines run at the same time.  What one of
    them does under the lock of a client, or in one call of a concurrent map, is one step;
    between two steps of a call any others may run.  A failed dial releases the lock of
    the client before it removes the client from the map, so that the removal is a step
    of its own, and so is the closing of a waiter's channel after the waiter was taken. *)
Section Steps.
Context (e : PfEnv).

(** [ensureConnectLocked] up to where it releases the lock; [true] when the removal of
    the client is due. *)
Definition connect_locked (id : nat) (s : clients) : clients * bool :=
  match with_info id s with
  | None => (s, false)
  | Some (c, ai) =>
      if c_err c then (s, false)
      else if c_cli c then ((connected_then e id s).1, false)
      else if connects e ai then ((connected_then e id (upd_obj id (set_cli true) s)).1, false)
      else (upd_obj id set_err s, true)
  end.
(** The [remove] function of a client deletes whatever the map has under its key. *)
Definition remove_client (id : nat) (s : clients) : clients :=
  match objs s !! id with Some c => set_live (delete (c_key c) (live s)) s | None => s end.
(** [refresh] under the lock; ending the dial watch comes after it. *)
Definition refresh_locked (id p : nat) (s : clients) : clients * bool :=
  match with_info id s, infos s !! p with
  | Some (c, old), Some ai =>
      let s := upd_obj id (set_info p) s in
      if Bool.eqb (ai_Intercepted ai) (ai_Intercepted old) then
        if ai_Intercepted ai && negb (c_watch c) then connect_locked id s else (s, false)
      else if ai_Intercepted ai then connect_locked id s else (s, false)
  | _, _ => (s, false)
  end.

Inductive pf_action :=
  | AReceive (ais : list AgentPodInfo)      (* a message of the watch *)
  | AReport (ais : list nat)                (* the snapshot of a report *)
  | ADisable
  | AChanged
  | ADelete (k : string)                    (* a client leaves the map *)
  | AStopWatch (id : nat)                   (* cancelDialWatch *)
  | ACancelClient (id : nat)                (* cancelClient *)
  | ARefresh (id p : nat)
  | AAdd (p : nat)                          (* LoadOrCompute of a client *)
  | AConnect (id : nat)
  | ARemove (id : nat)                      (* the removal after a failed dial *)
  | ATakeIp (key : string * Addr)           (* LoadAndDelete of a waiter *)
  | ATakeWl (wl : string)
  | AClose (ch : nat)                       (* the close of a waiter that was taken *)
  | AIpWaiter (key : string * Addr)
  | AIpDone (key : string * Addr)
  | AWlWaiter (wl : string)
  | ATouch (id : nat)
  | ATunnel (id : nat)
  | ATunnelEnd (loaded : Z) (id : nat)
  | ALoopEnd (id : nat)
  | ACloseConn (id : nat)
  | AProxyVia (wl : string)
  | ANamespaces (nss : list string).

(** The shared state, and what the calls that are under way know: the pod infos that some
    report carried, the clients whose removal is due and the channels that were taken to
    be closed.  [panicked] tells that a closed channel was closed again. *)
Record pf_conc := mkConc { st : clients; reported : gset nat; due : gset nat; taken : gset nat; panicked : bool }.
Definition set_st (s : clients) (x : pf_conc) : pf_conc := mkConc s (reported x) (due x) (taken x) (panicked x).
Definition when_due (sd : clients * bool) (id : nat) (x : pf_conc) : pf_conc :=
  mkConc sd.1 (reported x) (if sd.2 then {[ id ]} ∪ due x else due x) (taken x) (panicked x).
Definition take (ch : nat) (s : clients) (x : pf_conc) : pf_conc :=
  mkConc s (reported x) (due x) ({[ ch ]} ∪ taken x) (panicked x).
Definition wl_waiter (wl : string) (s : clients) : clients :=
  match wlWaiters s !! wl with
  | Some _ => s
  | None => set_waiters (ipWaiters s) (<[wl := length (chans s)]> (wlWaiters s)) (chans s ++ [false]) s
  end.
Definition key_matches (id p : nat) (s : clients) : bool :=
  match objs s !! id, infos s !! p with
  | Some c, Some ai => bool_decide (c_key c = pod_key ai)
  | _, _ => false
  end.

Definition pf_act (x : pf_conc) (a : pf_action) : pf_conc :=
  let s := st x in
  match a with
  | AReceive ais => set_st (receive ais s) x
  | AReport ais =>
      let aim := aim_of s ais in
      mkConc (set_snapshot aim s) (list_to_set (map_to_list aim).*2 ∪ reported x) (due x) (taken x) (panicked x)
  | ADisable => set_st (set_flags (proxyVias s) true (changes s) s) x
  | AChanged => set_st (set_flags (proxyVias s) (disabled s) (S (changes s)) s) x
  | ADelete k => set_st (set_live (delete k (live s)) s) x
  | AStopWatch id => set_st (stop_watch id s) x
  | ACancelClient id => set_st (upd_obj id (fun c => set_closing (S (c_closing c)) c) s) x
  | ARefresh id p =>
      if bool_decide (p ∈ reported x) && key_matches id p s then when_due (refresh_locked id p s) id x else x
  | AAdd p => if bool_decide (p ∈ reported x) then set_st (loadOrAddClient p s).1 x else x
  | AConnect id => when_due (connect_locked id s) id x
  | ARemove id =>
      if bool_decide (id ∈ due x)
      then mkConc (remove_client id s) (reported x) (due x ∖ {[ id ]}) (taken x) (panicked x) else x
  | ATakeIp key =>
      match ipWaiters s !! key with
      | Some ch => take ch (set_waiters (delete key (ipWaiters s)) (wlWaiters s) (chans s) s) x
      | None => x
      end
  | ATakeWl wl =>
      match wlWaiters s !! wl with
      | Some ch => take ch (set_waiters (ipWaiters s) (delete wl (wlWaiters s)) (chans s) s) x
      | None => x
      end
  | AClose ch =>
      if bool_decide (ch ∈ taken x)
      then mkConc (close_chan ch s) (reported x) (due x) (taken x ∖ {[ ch ]})
             (panicked x || bool_decide (chans s !! ch = Some true)) else x
  | AIpWaiter key => set_st (ip_waiter key s) x
  | AIpDone key => set_st (set_waiters (delete key (ipWaiters s)) (wlWaiters s) (chans s) s) x
  | AWlWaiter wl => set_st (wl_waiter wl s) x
  | ATouch id => set_st (upd_obj id (fun c => set_active (c_tunnels c) (now e) c) s) x
  | ATunnel id => set_st (upd_obj id (fun c => set_active (wrap 32 (c_tunnels c + 1)) (now e) c) s) x
  | ATunnelEnd loaded id => set_st (tunnel_cas loaded id s) x
  | ALoopEnd id => set_st (loop_end id s) x
  | ACloseConn id => set_st (close_conn id s) x
  | AProxyVia wl => set_st (SetProxyVia wl s) x
  | ANamespaces nss => set_st (setNamespaces nss s) x
  end.
End Steps.
Definition pf_acts (acts : list (PfEnv * pf_action)) (x : pf_conc) : pf_conc := foldl (fun x ea => pf_act ea.1 x ea.2) x acts.
Definition new_conc (own : string) (nss : list string) : pf_conc := mkConc (NewClients own nss) ∅ ∅ ∅ false.

(** [WaitForIP]: rounds until the deadline.  A round has the environment, what has
    happened since the last round, and whether the channel wakes it. *)
Record round := { r_env : PfEnv; r_between : clients -> clients; r_woken : bool }.
Inductive ip_wait := IpUnavailable | IpReached | IpTimeout.
Fixpoint wait_rounds (ns : string) (ip : Addr) (rounds : list round) (s : clients) : clients * ip_wait :=
  match rounds with
  | [] => (s, IpTimeout)
  | r :: rounds =>
      let '(s, ok) := wait_round (r_env r) ns ip (r_woken r) (r_between r s) in
      if ok : bool then (s, IpReached) else wait_rounds ns ip rounds s
  end.
Definition WaitForIP (ns : string) (ip : Addr) (rounds : list round) (s : clients) : clients * ip_wait :=
  let ns := if bool_decide (ns = ""%string) then s_Namespace s else ns in
  if disabled s || negb (watchesNamespace ns s) then (s, IpUnavailable)
  else
    let '(s, r) := wait_rounds ns ip rounds (ip_waiter (ns, ip) s) in
    (set_waiters (delete (ns, ip) (ipWaiters s)) (wlWaiters s) (chans s) s, r).
