(* ===== verification/AgentPfInv.v ===== *)
(** * Invariant of the clients of the traffic-agents, and the steps of a report

    The invariant of the heap and of the waiters, what connecting a client can change,
    and the phases of [updateClients]. *)
From S2P Require Import Prelude NetIP GoStrings SessionStream AgentPf.

(** ** The invariant *)
Definition heap_inv (s : clients) : Prop :=
  (forall k id, live s !! k = Some id -> exists c ai, objs s !! id = Some c /\ c_key c = k /\ c_err c = false /\
     infos s !! c_info c = Some ai /\ pod_key ai = k) /\
  (forall id c, objs s !! id = Some c -> is_Some (infos s !! c_info c)) /\
  (forall k p, snapshot s !! k = Some p -> exists ai, infos s !! p = Some ai /\ pod_key ai = k).

(** Waiters have open channels of their own. *)
Definition wait_inv (s : clients) : Prop :=
  (forall k ch, ipWaiters s !! k = Some ch -> chans s !! ch = Some false) /\
  (forall k ch, wlWaiters s !! k = Some ch -> chans s !! ch = Some false) /\
  (forall k k' ch, ipWaiters s !! k = Some ch -> ipWaiters s !! k' = Some ch -> k = k') /\
  (forall k k' ch, wlWaiters s !! k = Some ch -> wlWaiters s !! k' = Some ch -> k = k') /\
  (forall k k' ch, ipWaiters s !! k = Some ch -> wlWaiters s !! k' = Some ch -> False).
Definition pf_inv (s : clients) : Prop := heap_inv s /\ wait_inv s.

Ltac heap_split := split; [|split].

Lemma with_info_Some id s c ai : with_info id s = Some (c, ai) <-> objs s !! id = Some c /\ infos s !! c_info c = Some ai.
Proof.
  unfold with_info, info_of. destruct (objs s !! id) as [c0|] eqn:E; cbn [mbind option_bind]; [|naive_solver].
  destruct (infos s !! c_info c0) eqn:E2; cbn [mbind option_bind]; naive_solver.
Qed.
Lemma with_info_obj id s c : heap_inv s -> objs s !! id = Some c -> exists ai, with_info id s = Some (c, ai) /\ infos s !! c_info c = Some ai.
Proof.
  intros (_ & H & _) Hc. destruct (H _ _ Hc) as [ai Hai]. exists ai. rewrite with_info_Some. auto.
Qed.

(** Updates of a client that keep what the invariant is about. *)
Definition mild (g : client -> client) : Prop := forall c,
  c_key (g c) = c_key c /\ c_info (g c) = c_info c /\ c_err (g c) = c_err c.
(** Those of a connection attempt also keep connections and watches. *)
Definition growing (g : client -> client) : Prop := forall c,
  (c_cli c = true -> c_cli (g c) = true) /\ (c_watch c = true -> c_watch (g c) = true).

Lemma mild_compose f g : mild f -> mild g -> mild (fun c => g (f c)).
Proof. intros Hf Hg c. destruct (Hf c) as (?&?&?), (Hg (f c)) as (?&?&?). split_and!; congruence. Qed.
Lemma mild_set_cli b : mild (set_cli b).
Proof. done. Qed.
Lemma mild_set_watch b n : mild (set_watch b n).
Proof. done. Qed.
Lemma mild_set_closing n : mild (set_closing n).
Proof. done. Qed.
Lemma mild_set_active t a : mild (set_active t a).
Proof. done. Qed.
#[export] Hint Resolve mild_set_cli mild_set_watch mild_set_closing mild_set_active : tele.

Lemma objs_upd_obj id f s j : objs (upd_obj id f s) !! j = if decide (j = id) then f <$> objs s !! j else objs s !! j.
Proof.
  cbn [objs upd_obj]. destruct (decide (j = id)) as [->|Hn]; [by rewrite list_lookup_alter_eq|by rewrite list_lookup_alter_ne].
Qed.
Lemma upd_obj_compose id f g s : upd_obj id g (upd_obj id f s) = upd_obj id (fun c => g (f c)) s.
Proof.
  unfold upd_obj. cbn. f_equal. apply list_eq. intros j. rewrite !list_lookup_alter. destruct (decide (id = j)) as [->|]; [|done].
  by rewrite decide_True, <- option_fmap_compose.
Qed.
Lemma infos_upd_info p f s q : infos (upd_info p f s) !! q = if decide (q = p) then f <$> infos s !! q else infos s !! q.
Proof.
  cbn [infos upd_info]. destruct (decide (q = p)) as [->|Hn]; [by rewrite list_lookup_alter_eq|by rewrite list_lookup_alter_ne].
Qed.

Lemma heap_inv_upd_obj id g s : mild g -> heap_inv s -> heap_inv (upd_obj id g s).
Proof.
  intros Hg (Hl & Ho & Hs). heap_split.
  - intros k j Hk. destruct (Hl _ _ Hk) as (c & ai & Hc & H1 & H2 & H3 & H4). destruct (Hg c) as (?&?&?).
    rewrite objs_upd_obj. destruct (decide (j = id)) as [->|]; [|eauto 10].
    exists (g c), ai. rewrite Hc. cbn. split_and!; congruence.
  - intros j c. rewrite objs_upd_obj. destruct (decide (j = id)) as [->|]; [|apply Ho].
    destruct (objs s !! id) as [c0|] eqn:E; cbn; [|done]. intros [= <-]. destruct (Hg c0) as (_&->&_). by eapply Ho.
  - exact Hs.
Qed.
Lemma heap_inv_upd_info p f s : (forall ai, pod_key (f ai) = pod_key ai) -> heap_inv s -> heap_inv (upd_info p f s).
Proof.
  intros Hf (Hl & Ho & Hs). heap_split.
  - intros k j Hk. destruct (Hl _ _ Hk) as (c & ai & Hc & H1 & H2 & H3 & H4).
    exists c. rewrite infos_upd_info. destruct (decide (c_info c = p)); [|eauto 10].
    exists (f ai). rewrite H3, Hf. cbn. auto.
  - intros j c Hc. rewrite infos_upd_info. destruct (decide (c_info c = p)); [|eauto]. by apply fmap_is_Some, (Ho j).
  - intros k q Hk. destruct (Hs _ _ Hk) as (ai & H1 & H2). rewrite infos_upd_info. destruct (decide (q = p)); [|eauto].
    exists (f ai). rewrite H1, Hf. auto.
Qed.
Lemma heap_inv_stop_watch id s : heap_inv s -> heap_inv (stop_watch id s).
Proof.
  intros H. unfold stop_watch. destruct (objs s !! id); [|done].
  apply heap_inv_upd_obj; [auto with tele|]. by apply heap_inv_upd_info.
Qed.

(** ** Connecting *)
Section Env.
Context (e : PfEnv).

Lemma connected_then_cases id s : exists g b, mild g /\ growing g /\ connected_then e id s = (upd_obj id g s, b) /\
  (b = true -> forall c ai, with_info id s = Some (c, ai) -> ai_Intercepted ai = true -> c_watch (g c) = true) /\
  (forall c ai, with_info id s = Some (c, ai) -> (ai_Intercepted ai = true -> watches e ai = true) -> b = true).
Proof.
  assert (Hid : forall s, s = upd_obj id (fun c => c) s).
  { intros [?????????]. unfold upd_obj. cbn. f_equal. symmetry. by apply list_alter_id. }
  unfold connected_then. destruct (with_info id s) as [[c ai]|] eqn:Hw.
  2:{ exists (fun c => c), false. split_and!; try done. by rewrite <- Hid. }
  destruct (ai_Intercepted ai) eqn:Hi.
  - unfold startDialWatcherLocked. rewrite Hw. destruct (c_watch c) eqn:Hcw; [|destruct (watches e ai) eqn:Hwt].
    + exists (fun c => set_active (c_tunnels c) (now e) c), true. split_and!; try done.
      intros _ c0 ai0 [= <- <-]. done.
    + exists (fun c' => set_active (c_tunnels (set_watch true (S (c_loops c)) c')) (now e) (set_watch true (S (c_loops c)) c')), true.
      rewrite upd_obj_compose. split_and!; try done.
    + exists (fun c => c), false. split_and!; try done; [by rewrite <- Hid|].
      intros c0 ai0 [= <- <-] H. specialize (H Hi). congruence.
  - exists (fun c => set_active (c_tunnels c) (now e) c), true. split_and!; try done.
    intros _ c0 ai0 [= <- <-]. congruence.
Qed.

(** [ensureConnect] either updates the client or marks it broken and removes it. *)
Lemma ensureConnect_cases id s :
  (exists g b, mild g /\ growing g /\ ensureConnect e id s = (upd_obj id g s, b) /\
     (b = true -> forall c ai, with_info id s = Some (c, ai) ->
        c_cli (g c) = true /\ (ai_Intercepted ai = true -> c_watch (g c) = true)) /\
     (forall c ai, with_info id s = Some (c, ai) -> c_err c = false ->
        (ai_Intercepted ai = true -> watches e ai = true) -> b = true)) \/
  (exists c ai, with_info id s = Some (c, ai) /\ c_err c = false /\ connects e ai = false /\
     ensureConnect e id s = (set_live (delete (c_key c) (live s)) (upd_obj id set_err s), false)).
Proof.
  assert (Hid : s = upd_obj id (fun c => c) s).
  { destruct s. unfold upd_obj. cbn. f_equal. symmetry. by apply list_alter_id. }
  unfold ensureConnect. destruct (with_info id s) as [[c ai]|] eqn:Hw.
  2:{ left. exists (fun c => c), false. split_and!; try done. by rewrite <- Hid. }
  destruct (c_err c) eqn:He.
  { left. exists (fun c => c), false. split_and!; try done; [by rewrite <- Hid|]. intros c0 ai0 [= <- <-]. congruence. }
  destruct (c_cli c) eqn:Hc.
  { left. destruct (connected_then_cases id s) as (g & b & Hm & Hg & -> & H1 & H2). exists g, b. split_and!; try done.
    - intros Hb c0 ai0 [= <- <-]. split; [|by eapply H1]. by apply Hg.
    - intros c0 ai0 [= <- <-] _. by eapply H2. }
  destruct (connects e ai) eqn:Hcon; [|right; eauto 10].
  left. apply with_info_Some in Hw as Hw2. destruct Hw2 as [Ho Hi].
  assert (Hw' : with_info id (upd_obj id (set_cli true) s) = Some (set_cli true c, ai)).
  { apply with_info_Some. rewrite objs_upd_obj, decide_True by done. rewrite Ho. done. }
  destruct (connected_then_cases id (upd_obj id (set_cli true) s)) as (g & b & Hm & Hg & -> & H1 & H2).
  exists (fun c => g (set_cli true c)), b. rewrite upd_obj_compose. split_and!; try done.
  - intros c0. destruct (Hm (set_cli true c0)) as (?&?&?). split_and!; auto.
  - intros c0. destruct (Hg (set_cli true c0)) as (?&?). split; auto.
  - intros Hb c0 ai0 [= <- <-]. split; [by apply Hg|]. by eapply H1.
  - intros c0 ai0 [= <- <-] _. by eapply H2.
Qed.

Lemma heap_inv_ensureConnect id s : heap_inv s -> heap_inv (ensureConnect e id s).1.
Proof.
  intros H. destruct (ensureConnect_cases id s) as [(g & b & Hm & _ & -> & _)|(c & ai & Hw & He & Hn & ->)]; cbn [fst].
  { by apply heap_inv_upd_obj. }
  apply with_info_Some in Hw as [Ho Hi]. destruct H as (Hl & Hob & Hs). heap_split.
  - cbn [live set_live upd_obj]. intros k j [Hne Hk]%lookup_delete_Some. destruct (Hl _ _ Hk) as (c' & ai' & H1 & H2 & H3 & H4 & H5).
    exists c', ai'. split_and!; try done. change (objs (set_live _ ?x)) with (objs x). rewrite objs_upd_obj.
    destruct (decide (j = id)) as [->|]; [|done]. assert (c' = c) by congruence. subst. done.
  - intros j c'. change (objs (set_live _ ?x)) with (objs x). rewrite objs_upd_obj. destruct (decide (j = id)) as [->|]; [|apply Hob].
    rewrite Ho. intros [= <-]. cbn. by rewrite Hi.
  - exact Hs.
Qed.

(** ** What connecting leaves alone *)
Definition entry_ok (s : clients) (kid : string * nat) : Prop :=
  live s !! kid.1 = Some kid.2 \/ exists c, objs s !! kid.2 = Some c /\ c_err c = true.

(** Clients keep their pod info and only gain connections and watches; one that is
    removed could not be reached. *)
Definition evolves (s s' : clients) : Prop :=
  infos s' = infos s /\ snapshot s' = snapshot s /\ length (objs s') = length (objs s) /\
  (forall j c, objs s !! j = Some c -> exists c', objs s' !! j = Some c' /\ c_info c' = c_info c /\
     (c_err c = true -> c_err c' = true) /\ (c_cli c = true -> c_cli c' = true) /\ (c_watch c = true -> c_watch c' = true)) /\
  (forall k, live s' !! k = live s !! k \/
     live s' !! k = None /\ exists id c ai c', live s !! k = Some id /\ objs s !! id = Some c /\ infos s !! c_info c = Some ai /\
       connects e ai = false /\ objs s' !! id = Some c' /\ c_err c' = true).

Lemma pf_evolves_refl s : evolves s s.
Proof. split_and!; [done|done|done|eauto 10|auto]. Qed.
Lemma evolves_trans s1 s2 s3 : evolves s1 s2 -> evolves s2 s3 -> evolves s1 s3.
Proof.
  intros (Hi & Hs & Hn & Ho & Hl) (Hi' & Hs' & Hn' & Ho' & Hl'). split_and!; [congruence|congruence|congruence| |].
  - intros j c Hc. destruct (Ho _ _ Hc) as (c2 & Hc2 & ? & ? & ? & ?). destruct (Ho' _ _ Hc2) as (c3 & ? & ? & ? & ? & ?).
    exists c3. split_and!; try done; [congruence|auto|auto|auto].
  - intros k. destruct (Hl k) as [E|(E & id & c & ai & c' & H1 & H2 & H3 & H4 & H5 & H6)].
    + destruct (Hl' k) as [E'|(E' & id & c & ai & c' & H1 & H2 & H3 & H4 & H5 & H6)]; [left; congruence|].
      right. split; [done|]. rewrite E in H1.
      destruct (lookup_lt_is_Some_2 (objs s1) id) as [c1 Hc1]; [rewrite <- Hn; by eapply lookup_lt_Some|].
      destruct (Ho _ _ Hc1) as (c2 & Hc2 & Hii & _). exists id, c1, ai, c'. split_and!; try done. rewrite <- Hi. congruence.
    + right. destruct (Ho' _ _ H5) as (c3 & ? & ? & He & _). split; [|exists id, c, ai, c3; split_and!; auto].
      destruct (Hl' k) as [E'|[E' _]]; congruence.
Qed.
Lemma evolves_upd_obj id g s : mild g -> growing g -> evolves s (upd_obj id g s).
Proof.
  intros Hm Hg. split_and!; [done|done|cbn; by rewrite length_alter| |auto].
  intros j c Hc. rewrite objs_upd_obj, Hc. destruct (decide (j = id)); [|eauto 10].
  destruct (Hm c) as (?&?&?), (Hg c). exists (g c). cbn. split_and!; try done; congruence.
Qed.
Lemma evolves_ensureConnect k id s : heap_inv s -> entry_ok s (k, id) -> evolves s (ensureConnect e id s).1.
Proof.
  intros (Hl & _) Hk. destruct (ensureConnect_cases id s) as [(g & b & Hm & Hg & -> & _)|(c & ai & Hw & He & Hn & ->)]; cbn [fst].
  { by apply evolves_upd_obj. }
  apply with_info_Some in Hw as [Ho Hi]. destruct Hk as [Hk|(c' & Hc' & ?)]; cbn [fst snd] in *; [|congruence].
  destruct (Hl _ _ Hk) as (c0 & ai0 & H1 & H2 & H3 & H4 & H5). assert (c0 = c) by congruence. subst c0 k.
  assert (Hob : objs (set_live (delete (c_key c) (live s)) (upd_obj id set_err s)) = objs (upd_obj id set_err s)) by done.
  split_and!; [done|done|rewrite Hob; cbn; by rewrite length_alter| |].
  - intros j c1 Hc1. rewrite Hob, objs_upd_obj, Hc1. destruct (decide (j = id)); [|eauto 10]. exists (set_err c1). done.
  - intros k. cbn [live set_live upd_obj]. destruct (decide (c_key c = k)) as [<-|Hne]; [|left; by rewrite lookup_delete_ne].
    right. rewrite lookup_delete_eq. split; [done|]. exists id, c, ai, (set_err c). rewrite Hob, objs_upd_obj, decide_True, Ho; auto 10.
Qed.
Lemma evolves_entry_ok s s' kid : evolves s s' -> entry_ok s kid -> entry_ok s' kid.
Proof.
  intros (_ & _ & _ & Ho & Hl) [Hk|(c & Hc & He)].
  - destruct (Hl kid.1) as [E|(E & id & c & ai & c' & H1 & H2 & H3 & H4 & H5 & H6)]; [left; congruence|].
    right. assert (id = kid.2) by congruence. subst. eauto.
  - right. destruct (Ho _ _ Hc) as (c' & ? & ? & ? & _). eauto.
Qed.

(** ** What is true of a reported agent *)
Definition dialable (ai : AgentPodInfo) : Prop := connects e ai = true /\ (ai_Intercepted ai = true -> watches e ai = true).

(** The client of the agent has its pod info and, if the agent is intercepted and can be
    reached, watches its dial requests. *)
Definition fine (s : clients) (k : string) (p : nat) (ai : AgentPodInfo) : Prop :=
  forall id c, live s !! k = Some id -> objs s !! id = Some c ->
    c_info c = p /\ (dialable ai -> ai_Intercepted ai = true -> c_watch c = true).

Lemma evolves_fine s s' k p ai : evolves s s' -> fine s k p ai -> fine s' k p ai.
Proof.
  intros (_ & _ & Hn & Ho & Hl) Hf id c Hid Hc. destruct (Hl k) as [E|[E _]]; [|congruence]. rewrite E in Hid.
  destruct (lookup_lt_is_Some_2 (objs s) id) as [c1 Hc1]; [rewrite <- Hn; by eapply lookup_lt_Some|].
  destruct (Hf _ _ Hid Hc1) as [H1 H2]. destruct (Ho _ _ Hc1) as (c2 & Hc2 & H3 & _ & H4 & H5). assert (c2 = c) by congruence. subst c2.
  split; [congruence|auto].
Qed.
Lemma evolves_live s s' k p ai : evolves s s' -> heap_inv s -> fine s k p ai -> infos s !! p = Some ai -> connects e ai = true ->
  is_Some (live s !! k) -> is_Some (live s' !! k).
Proof.
  intros (_ & _ & Hn & Ho & Hl) Hh Hf Hp Hc Hk. destruct (Hl k) as [->|(E & id & c & ai' & c' & H1 & H2 & H3 & H4 & H5 & H6)]; [done|].
  destruct (Hf _ _ H1 H2) as [<- _]. congruence.
Qed.

(** ** The steps of [updateClients] *)
Definition only (k : string) (s s' : clients) : Prop :=
  snapshot s' = snapshot s /\ infos s' = infos s /\ (forall k', k' <> k -> live s' !! k' = live s !! k') /\
  (forall k' id, k' <> k -> live s !! k' = Some id -> objs s' !! id = objs s !! id).

Lemma live_inj s k k' id : heap_inv s -> live s !! k = Some id -> live s !! k' = Some id -> k = k'.
Proof. intros (Hl & _) H1 H2. destruct (Hl _ _ H1) as (c & ? & ? & <- & _), (Hl _ _ H2) as (c' & ? & ? & <- & _). congruence. Qed.
Lemma only_fine k s s' k' p ai : heap_inv s -> only k s s' -> k' <> k -> fine s k' p ai -> fine s' k' p ai.
Proof. intros Hh (_ & _ & Hl & Ho) Hne Hf id c H1 H2. rewrite Hl in H1 by done. rewrite (Ho k') in H2 by done. exact (Hf id c H1 H2). Qed.

Lemma upd_info_id q f s ai : infos s !! q = Some ai -> f ai = ai -> upd_info q f s = s.
Proof.
  intros H Hf. destruct s. unfold upd_info. cbn in *. f_equal. apply list_eq. intros j. rewrite list_lookup_alter.
  destruct (decide (q = j)) as [->|]; [|done]. rewrite H. cbn. congruence.
Qed.
(** Ending a watch that the pod info already calls ended. *)
Lemma stop_watch_quiet id s c ai : objs s !! id = Some c -> infos s !! c_info c = Some ai -> ai_Intercepted ai = false ->
  stop_watch id s = upd_obj id (set_watch false (c_loops c)) s.
Proof.
  intros Hc Hi Hn. unfold stop_watch. rewrite Hc. f_equal. apply (upd_info_id _ _ _ ai); [done|]. destruct ai. unfold set_intercepted. cbn in *. congruence.
Qed.

Lemma only_upd_obj k id g s : heap_inv s -> live s !! k = Some id -> only k s (upd_obj id g s).
Proof.
  intros Hh Hk. split_and!; try done. intros k' j Hne Hj. rewrite objs_upd_obj. destruct (decide (j = id)) as [->|]; [|done].
  destruct Hne. by eapply live_inj.
Qed.
Lemma only_trans k s1 s2 s3 : only k s1 s2 -> only k s2 s3 -> only k s1 s3.
Proof.
  intros (? & ? & Hl & Ho) (? & ? & Hl' & Ho'). split_and!; [congruence|congruence| |].
  - intros k' Hk. rewrite Hl' by done. by apply Hl.
  - intros k' id Hk Hid. rewrite (Ho' k') by (try done; by rewrite Hl). by apply (Ho k').
Qed.

(** Connecting the client of a reported agent. *)
Lemma ensureConnect_live k id s p ai c : heap_inv s -> live s !! k = Some id -> objs s !! id = Some c -> c_info c = p -> infos s !! p = Some ai ->
  only k s (ensureConnect e id s).1 /\ fine (ensureConnect e id s).1 k p ai /\
  (connects e ai = true -> is_Some (live (ensureConnect e id s).1 !! k)).
Proof.
  intros Hh Hk Hc <- Hi. assert (Hw : with_info id s = Some (c, ai)) by by apply with_info_Some.
  assert (c_key c = k /\ c_err c = false) as [Hkey Herr].
  { destruct Hh as (Hl & _). destruct (Hl _ _ Hk) as (c' & ? & ? & ? & ? & _). assert (c' = c) by congruence. by subst. }
  destruct (ensureConnect_cases id s) as [(g & b & Hm & Hg & -> & H1 & H2)|(c' & ai' & Hw' & He & Hn & ->)]; cbn [fst].
  - split; [by apply only_upd_obj|]. cbn [live upd_obj]. split; [|by rewrite Hk]. intros j cj Hj. assert (j = id) by (cbn in Hj; congruence). subst j.
    rewrite objs_upd_obj, decide_True, Hc by done. intros [= <-]. destruct (Hm c) as (?&?&?). split; [done|].
    intros [_ Hd] Hin. eapply H1; [eapply H2; eauto|done|done].
  - assert (c' = c /\ ai' = ai) as [-> ->] by (rewrite Hw in Hw'; by simplify_eq). rewrite Hkey. split; [|split].
    + eapply only_trans; [apply (only_upd_obj k id set_err s Hh Hk)|]. split_and!; try done.
      intros k' Hne. cbn [live set_live upd_obj]. by rewrite lookup_delete_ne.
    + intros j cj Hj. cbn [live set_live upd_obj] in Hj. rewrite lookup_delete_eq in Hj. done.
    + congruence.
Qed.

Lemma heap_inv_set_info id p s ai c : heap_inv s -> objs s !! id = Some c -> infos s !! p = Some ai -> pod_key ai = c_key c ->
  heap_inv (upd_obj id (set_info p) s).
Proof.
  intros (Hl & Ho & Hs) Hc Hp Hk. heap_split; [| |exact Hs].
  - intros k j Hj. destruct (Hl _ _ Hj) as (cj & aj & H1 & H2 & H3 & H4 & H5). rewrite objs_upd_obj.
    destruct (decide (j = id)) as [->|]; [|eauto 10]. assert (cj = c) by congruence. subst cj. exists (set_info p c), ai.
    rewrite Hc. cbn. split_and!; try done. congruence.
  - intros j cj. rewrite objs_upd_obj. destruct (decide (j = id)) as [->|]; [|apply Ho]. rewrite Hc. intros [= <-]. cbn. by rewrite Hp.
Qed.

Lemma refresh_correct k id p s ai : heap_inv s -> live s !! k = Some id -> infos s !! p = Some ai -> pod_key ai = k ->
  heap_inv (refresh e id p s) /\ only k s (refresh e id p s) /\ fine (refresh e id p s) k p ai /\
  (connects e ai = true -> is_Some (live (refresh e id p s) !! k)).
Proof.
  intros Hh Hk Hp Hkey. destruct (proj1 Hh _ _ Hk) as (c & old & Hc & Hck & He & Hold & _).
  unfold refresh. rewrite (proj2 (with_info_Some id s c old)), Hp by done.
  set (s1 := upd_obj id (set_info p) s).
  assert (Hh1 : heap_inv s1) by (eapply heap_inv_set_info; eauto; congruence).
  assert (Ho1 : only k s s1) by by apply only_upd_obj.
  assert (Hk1 : live s1 !! k = Some id) by done.
  assert (Hc1 : objs s1 !! id = Some (set_info p c)) by (unfold s1; rewrite objs_upd_obj, decide_True, Hc; done).
  assert (Hplain : (ai_Intercepted ai = true -> c_watch c = true) -> heap_inv s1 /\ only k s s1 /\ fine s1 k p ai /\ (connects e ai = true -> is_Some (live s1 !! k))).
  { intros Hw. refine (conj Hh1 (conj Ho1 (conj _ _))); [|by rewrite Hk1]. intros j cj Hj Hcj. assert (j = id) by congruence. subst j.
    assert (cj = set_info p c) by congruence. subst cj. split; [done|]. intros _. exact Hw. }
  assert (Hcon : heap_inv (ensureConnect e id s1).1 /\ only k s (ensureConnect e id s1).1 /\ fine (ensureConnect e id s1).1 k p ai /\
                 (connects e ai = true -> is_Some (live (ensureConnect e id s1).1 !! k))).
  { destruct (ensureConnect_live k id s1 p ai (set_info p c)) as (H1 & H2 & H3); try done.
    refine (conj _ (conj _ (conj H2 H3))); [by apply heap_inv_ensureConnect|by eapply only_trans]. }
  destruct (Bool.eqb (ai_Intercepted ai) (ai_Intercepted old)); [|destruct (ai_Intercepted ai) eqn:Hin; [exact Hcon|]].
  - destruct (ai_Intercepted ai) eqn:Hin, (c_watch c) eqn:Hw; cbn; try exact Hcon; apply Hplain; congruence.
  - destruct (c_watch c) eqn:Hw; [|apply Hplain; congruence].
    rewrite (stop_watch_quiet id s1 (set_info p c) ai) by done. refine (conj _ (conj _ (conj _ _))).
    + apply heap_inv_upd_obj; auto with tele.
    + eapply only_trans; [exact Ho1|]. by apply only_upd_obj.
    + intros j cj Hj. assert (j = id) by (cbn in Hj; congruence). subst j. rewrite objs_upd_obj, decide_True, Hc1 by done.
      intros [= <-]. split; [done|congruence].
    + intros _. by exists id.
Qed.

Lemma heap_inv_new_obj k p s ai : heap_inv s -> live s !! k = None -> infos s !! p = Some ai -> pod_key ai = k ->
  heap_inv (new_obj (newClient k p) s).
Proof.
  intros (Hl & Ho & Hs) Hn Hp Hk. heap_split; [| |exact Hs]; cbn [live objs infos new_obj c_key newClient].
  - intros k' id [[<- <-]|[Hne Hid]]%lookup_insert_Some.
    + exists (newClient k p), ai. rewrite list_lookup_middle by done. auto.
    + destruct (Hl _ _ Hid) as (c & ai' & H1 & H2). exists c, ai'. rewrite lookup_app_l; [auto|by eapply lookup_lt_Some].
  - intros id c [Hc|[_ Hc]]%lookup_app_Some; [by eapply Ho|]. apply list_lookup_singleton_Some in Hc as [_ <-]. cbn. by rewrite Hp.
Qed.
Lemma only_new_obj k p s : heap_inv s -> only k s (new_obj (newClient k p) s).
Proof.
  intros (Hl & _). split_and!; try done; cbn [live objs new_obj c_key newClient].
  - intros k' Hne. by rewrite lookup_insert_ne.
  - intros k' id Hne Hid. destruct (Hl _ _ Hid) as (c & ai' & H1 & H2). rewrite lookup_app_l; [auto|by eapply lookup_lt_Some].
Qed.
Lemma add_one_correct k p s ai b : heap_inv s -> infos s !! p = Some ai -> pod_key ai = k -> fine s k p ai ->
  let s' := (add_one e (s, b) (k, p)).1 in
  heap_inv s' /\ only k s s' /\ fine s' k p ai /\ (connects e ai = true -> is_Some (live s' !! k)).
Proof.
  intros Hh Hp Hk Hf. unfold add_one. cbn [fst snd]. destruct (live s !! k) as [id|] eqn:Hl; cbn [fst].
  { refine (conj Hh (conj _ (conj Hf _))); [by split_and!|]. intros _. by rewrite Hl. }
  set (s1 := new_obj (newClient k p) s). change (infos s1) with (infos s). rewrite Hp.
  assert (Hh1 : heap_inv s1) by by eapply heap_inv_new_obj.
  assert (Hk1 : live s1 !! k = Some (length (objs s))) by apply lookup_insert_eq.
  assert (Hc1 : objs s1 !! length (objs s) = Some (newClient k p)) by by apply list_lookup_middle.
  destruct (ai_Intercepted ai) eqn:Hi.
  - destruct (ensureConnect_live k (length (objs s)) s1 p ai (newClient k p)) as (H1 & H2 & H3); try done.
    refine (conj _ (conj _ (conj H2 H3))); [by apply heap_inv_ensureConnect|]. eapply only_trans; [by apply only_new_obj|done].
  - refine (conj Hh1 (conj (only_new_obj _ _ _ Hh) (conj _ _))); [|by intros _; eexists].
    intros j c Hj Hc. assert (j = length (objs s)) by congruence. subst j. assert (c = newClient k p) by congruence. subst c. split; [done|congruence].
Qed.

Lemma cancel_effect id s c : objs s !! id = Some c ->
  exists g, mild g /\ live (cancel id s).1 = live s /\ snapshot (cancel id s).1 = snapshot s /\
    objs (cancel id s).1 = objs (upd_obj id g s) /\
    (forall q, q <> c_info c -> infos (cancel id s).1 !! q = infos s !! q) /\
    (heap_inv s -> heap_inv (cancel id s).1).
Proof.
  intros Hc. unfold cancel. rewrite Hc. cbn [fst].
  set (g1 := if c_watch c then set_watch false (c_loops c) else fun c => c).
  set (g2 := if c_cli c then fun c => set_closing (S (c_closing c)) c else fun c => c).
  exists (fun c => g2 (g1 c)).
  assert (Hm1 : mild g1) by (unfold g1; destruct (c_watch c); done).
  assert (Hm2 : mild g2) by (unfold g2; destruct (c_cli c); done).
  split; [by apply mild_compose|].
  assert (Hid : forall l : list client, l = alter (fun c => c) id l) by (intros; symmetry; by apply list_alter_id).
  split_and!.
  - unfold stop_watch. destruct (c_watch c), (c_cli c); rewrite ?Hc; done.
  - unfold stop_watch. destruct (c_watch c), (c_cli c); rewrite ?Hc; done.
  - rewrite <- upd_obj_compose. unfold stop_watch, g1, g2. destruct (c_watch c), (c_cli c); rewrite ?Hc; cbn; by rewrite <- ?Hid.
  - intros q Hq. unfold stop_watch. destruct (c_watch c), (c_cli c); rewrite ?Hc; cbn [infos upd_obj upd_info]; try done;
      by rewrite list_lookup_alter_ne by congruence.
  - intros Hh. destruct (c_watch c), (c_cli c); try done; try (apply heap_inv_upd_obj; [done|]); try done; by apply heap_inv_stop_watch.
Qed.

(** ** The phases of [updateClients] *)
Definition aim_wf (aim : gmap string nat) (s : clients) : Prop :=
  forall k p, aim !! k = Some p -> exists ai, infos s !! p = Some ai /\ pod_key ai = k.

Lemma heap_inv_set_live_sub m s : m ⊆ live s -> heap_inv s -> heap_inv (set_live m s).
Proof. intros Hm (Hl & Ho & Hs). heap_split; [|exact Ho|exact Hs]. intros k id Hk. apply Hl. by eapply lookup_weaken. Qed.

Lemma delete_one_step aim s b k id0 : heap_inv s -> aim_wf aim s ->
  let s' := (delete_one aim (s, b) (k, id0)).1 in
  heap_inv s' /\ snapshot s' = snapshot s /\ (forall k' p, aim !! k' = Some p -> infos s' !! p = infos s !! p) /\
  live s' = match aim !! k with None => delete k (live s) | Some _ => live s end.
Proof.
  intros Hh Ha. unfold delete_one. cbn [fst snd]. destruct (aim !! k) as [p|] eqn:Hk; [done|].
  destruct (live s !! k) as [id|] eqn:Hl; cbn [fst].
  2:{ refine (conj Hh (conj eq_refl (conj _ _))); [done|]. by rewrite delete_id. }
  destruct (proj1 Hh _ _ Hl) as (c & ai & Hc & Hck & He & Hi & Hpk).
  destruct (cancel_effect id s c Hc) as (g & Hg & H1 & H2 & H3 & H4 & H5).
  refine (conj _ (conj H2 (conj _ _))); [|intros k' p Hp|done].
  - apply heap_inv_set_live_sub; [|auto]. rewrite H1. apply delete_subseteq.
  - apply H4. intros ->. destruct (Ha _ _ Hp) as (ai' & Hi' & <-). congruence.
Qed.
Lemma delete_phase aim l : forall s b, heap_inv s -> aim_wf aim s ->
  let s' := (foldl (delete_one aim) (s, b) l).1 in
  heap_inv s' /\ snapshot s' = snapshot s /\ (forall k p, aim !! k = Some p -> infos s' !! p = infos s !! p) /\
  live s' ⊆ live s /\ (forall k, k ∈ l.*1 -> aim !! k = None -> live s' !! k = None).
Proof.
  induction l as [|[k0 id0] l IH]; intros s b Hh Ha; cbn [foldl].
  { refine (conj Hh (conj eq_refl (conj _ (conj _ _)))); [done|done|]. intros k Hk. by apply elem_of_nil in Hk. }
  destruct (delete_one_step aim s b k0 id0 Hh Ha) as (H1 & H2 & H3 & H4).
  destruct (delete_one aim (s, b) (k0, id0)) as [s1 b1] eqn:E. cbn [fst] in *.
  assert (Ha1 : aim_wf aim s1) by (intros k p Hk; rewrite (H3 _ _ Hk); auto).
  destruct (IH s1 b1 H1 Ha1) as (H5 & H6 & H7 & H8 & H9).
  assert (Hsub : live s1 ⊆ live s) by (rewrite H4; case_goal; [done|apply delete_subseteq]).
  refine (conj H5 (conj _ (conj _ (conj _ _)))); [congruence| |by etrans|].
  - intros k p Hk. rewrite (H7 _ _ Hk). eauto.
  - intros k Hk Hn. cbn in Hk. apply elem_of_cons in Hk as [->|Hk]; [|auto].
    destruct (live (foldl (delete_one aim) (s1, b1) l).1 !! k0) as [x|] eqn:Hx; [|done].
    eapply lookup_weaken in Hx; [|exact H8]. rewrite H4, Hn, lookup_delete_eq in Hx. done.
Qed.

(** A pass over the reported agents, each step of which concerns one of them. *)
Lemma agents_pass (step : clients -> string * nat -> clients) (pre post : clients -> string -> nat -> AgentPodInfo -> Prop) :
  (forall s s' k k' p ai, heap_inv s -> only k s s' -> k' <> k -> pre s k' p ai -> pre s' k' p ai) ->
  (forall s s' k k' p ai, heap_inv s -> only k s s' -> k' <> k -> post s k' p ai -> post s' k' p ai) ->
  (forall s k p ai, heap_inv s -> infos s !! p = Some ai -> pod_key ai = k -> pre s k p ai ->
     heap_inv (step s (k, p)) /\ only k s (step s (k, p)) /\ post (step s (k, p)) k p ai) ->
  forall l s, heap_inv s -> NoDup l.*1 ->
  (forall k p, (k, p) ∈ l -> exists ai, infos s !! p = Some ai /\ pod_key ai = k /\ pre s k p ai) ->
  let s' := foldl step s l in
  heap_inv s' /\ snapshot s' = snapshot s /\ infos s' = infos s /\
  (forall k, k ∉ l.*1 -> live s' !! k = live s !! k /\ (forall p ai, post s k p ai -> post s' k p ai)) /\
  (forall k p ai, (k, p) ∈ l -> infos s !! p = Some ai -> post s' k p ai).
Proof.
  intros Hpre Hpost Hstep l. induction l as [|[k0 p0] l IH]; intros s Hh Hnd Hl; cbn [foldl].
  { refine (conj Hh (conj eq_refl (conj eq_refl (conj _ _)))); [auto|]. intros k p ai Hk. by apply elem_of_nil in Hk. }
  cbn in Hnd. apply NoDup_cons in Hnd as [Hk0 Hnd].
  destruct (Hl k0 p0) as (ai0 & Hi0 & Hpk0 & Hp0); [left|].
  destruct (Hstep s k0 p0 ai0 Hh Hi0 Hpk0 Hp0) as (H1 & H2 & H3). pose proof H2 as (Hsn & Hin & Hlv & Hob).
  destruct (IH (step s (k0, p0)) H1 Hnd) as (H4 & H5 & H6 & H7 & H8).
  { intros k p Hk. destruct (Hl k p) as (ai & Hi & Hpk & Hp); [by right|]. exists ai. rewrite Hin. split_and!; try done.
    apply (Hpre s _ k0); try done. intros ->. apply Hk0. by apply (list_elem_of_fmap_2 fst) in Hk. }
  refine (conj H4 (conj _ (conj _ (conj _ _)))); [congruence|congruence| |].
  - intros k Hk. cbn in Hk. rewrite not_elem_of_cons in Hk. destruct Hk as [Hne Hk]. destruct (H7 k Hk) as [-> H9]. split; [auto|].
    intros p ai Hq. apply H9. by apply (Hpost s _ k0).
  - intros k p ai Hk Hi. apply elem_of_cons in Hk as [Hk|Hk]; [|apply H8; [done|by rewrite Hin]].
    injection Hk as -> ->. assert (ai = ai0) by congruence. subst ai. destruct (H7 k0 Hk0) as [_ H9]. auto.
Qed.

Definition reached (s : clients) (k : string) (p : nat) (ai : AgentPodInfo) : Prop :=
  fine s k p ai /\ (connects e ai = true -> is_Some (live s !! k)).
Lemma only_reached s s' k k' p ai : heap_inv s -> only k s s' -> k' <> k -> reached s k' p ai -> reached s' k' p ai.
Proof. intros Hh Ho Hne [Hf Hc]. split; [by eapply only_fine|]. destruct Ho as (_ & _ & Hl & _). rewrite Hl; auto. Qed.

Lemma refresh_phase l s : heap_inv s -> NoDup l.*1 -> (forall k p, (k, p) ∈ l -> exists ai, infos s !! p = Some ai /\ pod_key ai = k) ->
  let s' := foldl (refresh_one e) s l in
  heap_inv s' /\ snapshot s' = snapshot s /\ infos s' = infos s /\ (forall k, k ∉ l.*1 -> live s' !! k = live s !! k) /\
  (forall k p ai, (k, p) ∈ l -> infos s !! p = Some ai -> fine s' k p ai).
Proof.
  intros Hh Hnd Hl.
  destruct (agents_pass (refresh_one e) (fun _ _ _ _ => True) fine) with (l := l) (s := s) as (H1 & H2 & H3 & H4 & H5); try done.
  - intros s1 s2 k k' p ai Hh1 Ho Hne Hf. by eapply only_fine.
  - intros s1 k p ai Hh1 Hp Hk _. unfold refresh_one. cbn [fst snd]. destruct (live s1 !! k) as [id|] eqn:Hid.
    + destruct (refresh_correct k id p s1 ai Hh1 Hid Hp Hk) as (?&?&?&_). done.
    + refine (conj Hh1 (conj _ _)); [by split_and!|]. intros id c. congruence.
  - intros k p Hk. destruct (Hl k p Hk) as (ai & ? & ?). eauto.
  - refine (conj H1 (conj H2 (conj H3 (conj _ H5)))). intros k Hk. by destruct (H4 k Hk).
Qed.
Lemma add_fold_state l : forall s b, (foldl (add_one e) (s, b) l).1 = foldl (fun s kp => (add_one e (s, false) kp).1) s l.
Proof.
  induction l as [|kp l IH]; intros s b; [done|]. cbn [foldl].
  destruct (add_one e (s, b) kp) as [s1 b1] eqn:E1. rewrite IH. f_equal.
  revert E1. unfold add_one. destruct (live s !! kp.1); intros [= <- _]; done.
Qed.
Lemma add_phase l s b : heap_inv s -> NoDup l.*1 ->
  (forall k p, (k, p) ∈ l -> exists ai, infos s !! p = Some ai /\ pod_key ai = k /\ fine s k p ai) ->
  let s' := (foldl (add_one e) (s, b) l).1 in
  heap_inv s' /\ snapshot s' = snapshot s /\ infos s' = infos s /\ (forall k, k ∉ l.*1 -> live s' !! k = live s !! k) /\
  (forall k p ai, (k, p) ∈ l -> infos s !! p = Some ai -> reached s' k p ai).
Proof.
  intros Hh Hnd Hl. rewrite add_fold_state.
  destruct (agents_pass (fun s kp => (add_one e (s, false) kp).1) fine reached) with (l := l) (s := s) as (H1 & H2 & H3 & H4 & H5); try done.
  - intros s1 s2 k k' p ai Hh1 Ho Hne Hf. by eapply only_fine.
  - intros s1 s2 k k' p ai Hh1 Ho Hne Hf. by eapply only_reached.
  - intros s1 k p ai Hh1 Hp Hk Hf. destruct (add_one_correct k p s1 ai false Hh1 Hp Hk Hf) as (?&?&?&?). by split_and!.
  - refine (conj H1 (conj H2 (conj H3 (conj _ H5)))). intros k Hk. by destruct (H4 k Hk).
Qed.

(** Ending an idle client keeps what the reported agents need. *)
Lemma cancel_idle id s k c ai : heap_inv s -> live s !! k = Some id -> objs s !! id = Some c -> infos s !! c_info c = Some ai ->
  ai_Intercepted ai = false ->
  let s' := (cancel id s).1 in
  heap_inv s' /\ snapshot s' = snapshot s /\ infos s' = infos s /\ live s' = live s /\
  (forall k' p' ai', infos s !! p' = Some ai' -> fine s k' p' ai' -> fine s' k' p' ai').
Proof.
  intros Hh Hk Hc Hi Hn. destruct (cancel_effect id s c Hc) as (g & Hg & H1 & H2 & H3 & H4 & H5).
  assert (Hinf : infos (cancel id s).1 = infos s).
  { unfold cancel. rewrite Hc. cbn [fst]. destruct (c_watch c); [rewrite (stop_watch_quiet id s c ai) by done|];
      destruct (c_cli c); done. }
  refine (conj (H5 Hh) (conj H2 (conj Hinf (conj H1 _)))). intros k' p' ai' Hp Hf j cj Hj. rewrite H1 in Hj. rewrite H3, objs_upd_obj.
  destruct (decide (j = id)) as [->|]; [|apply Hf; done]. rewrite Hc. intros [= <-]. destruct (Hg c) as (_ & Hgi & _).
  destruct (Hf _ _ Hj Hc) as [Hp' _]. split; [congruence|]. intros _ Hin. congruence.
Qed.
Lemma dormant_phase (aim : gmap string nat) l : forall s n, heap_inv s -> (forall kid, kid ∈ l -> live s !! kid.1 = Some kid.2) ->
  (forall k p ai, aim !! k = Some p -> infos s !! p = Some ai -> reached s k p ai) ->
  let s' := (foldl (dormant_one e) (s, n) l).1 in
  heap_inv s' /\ snapshot s' = snapshot s /\ infos s' = infos s /\ live s' = live s /\
  (forall k p ai, aim !! k = Some p -> infos s !! p = Some ai -> reached s' k p ai).
Proof.
  induction l as [|[k0 id0] l IH]; intros s n Hh Hl Hr; cbn [foldl].
  { exact (conj Hh (conj eq_refl (conj eq_refl (conj eq_refl Hr)))). }
  assert (Hl0 : live s !! k0 = Some id0) by (apply (Hl (k0, id0)); left).
  assert (Hl' : forall kid, kid ∈ l -> live s !! kid.1 = Some kid.2) by (intros kid Hk; apply Hl; by right).
  assert (Hd : dormant_one e (s, n) (k0, id0) = if idle e id0 s then (if Nat.leb 1 n then (cancel id0 s).1 else s, S n) else (s, n)) by done.
  rewrite Hd. clear Hd. destruct (idle e id0 s) eqn:Hidle; [|by apply IH].
  destruct (Nat.leb 1 n); [|by apply IH].
  unfold idle, dormant in Hidle. destruct (with_info id0 s) as [[c ai]|] eqn:Hw; [|done]. bools.
  apply with_info_Some in Hw as [Hc Hi]. destruct (cancel_idle id0 s k0 c ai) as (H1' & H2' & H3' & H4' & H5'); try done.
  destruct (IH (cancel id0 s).1 (S n)) as (H6 & H7 & H8 & H9 & H10); try done.
  - intros kid Hk. rewrite H4'. auto.
  - intros k p ai' Hk Hp. rewrite H3' in Hp. destruct (Hr _ _ _ Hk Hp) as [Hf Hcon]. split; [by apply H5'|by rewrite H4'].
  - refine (conj H6 (conj _ (conj _ (conj _ _)))); [congruence|congruence|congruence|].
    intros k p ai' Hk Hp. apply H10; [done|by rewrite H3'].
Qed.

(** ** Notifying waiters *)
Lemma evolves_set_waiters s ipw wlw ch : evolves s (set_waiters ipw wlw ch s).
Proof. split_and!; try done; [eauto 10|auto]. Qed.
Lemma heap_inv_set_waiters s ipw wlw ch : heap_inv s -> heap_inv (set_waiters ipw wlw ch s).
Proof. done. Qed.
Lemma notify_evolves k id ch s : heap_inv s -> entry_ok s (k, id) -> evolves s (notify e id ch s) /\ heap_inv (notify e id ch s).
Proof.
  intros Hh Hk. unfold notify, close_chan. split.
  - eapply evolves_trans; [by eapply evolves_ensureConnect|apply evolves_set_waiters].
  - apply heap_inv_set_waiters. by apply heap_inv_ensureConnect.
Qed.
Lemma notify_ip_evolves k id ai s : heap_inv s -> entry_ok s (k, id) -> evolves s (notify_ip e id ai s) /\ heap_inv (notify_ip e id ai s).
Proof.
  intros Hh Hk. unfold notify_ip. destruct (podIP ai) as [ip|]; [|split; [apply pf_evolves_refl|done]].
  destruct (ipWaiters s !! _) as [ch|]; [|split; [apply pf_evolves_refl|done]].
  destruct (notify_evolves k id ch (set_waiters (delete (ai_Namespace ai, ip) (ipWaiters s)) (wlWaiters s) (chans s) s)) as [H1 H2]; done.
Qed.
Lemma notify_wl_evolves k id ai s : heap_inv s -> entry_ok s (k, id) -> evolves s (notify_wl e id ai s) /\ heap_inv (notify_wl e id ai s).
Proof.
  intros Hh Hk. unfold notify_wl. destruct (wlWaiters s !! _) as [ch|]; [|split; [apply pf_evolves_refl|done]].
  destruct (notify_evolves k id ch (set_waiters (ipWaiters s) (delete (ai_WorkloadName ai) (wlWaiters s)) (chans s) s)) as [H1 H2]; done.
Qed.
Lemma notify_one_evolves kid s : heap_inv s -> entry_ok s kid -> evolves s (notify_one e s kid) /\ heap_inv (notify_one e s kid).
Proof.
  intros Hh Hk. destruct kid as [k id]. unfold notify_one. cbn [snd]. destruct (with_info id s) as [[c ai]|]; [|split; [apply pf_evolves_refl|done]].
  destruct (notify_ip_evolves k id ai s Hh Hk) as [H1 H2].
  destruct (notify_wl_evolves k id ai (notify_ip e id ai s) H2) as [H3 H4]; [by eapply evolves_entry_ok|].
  split; [by eapply evolves_trans|done].
Qed.
Lemma notify_fold l : forall s, heap_inv s -> (forall kid, kid ∈ l -> entry_ok s kid) ->
  evolves s (foldl (notify_one e) s l) /\ heap_inv (foldl (notify_one e) s l).
Proof.
  induction l as [|kid l IH]; intros s Hh Hl; cbn [foldl]; [split; [apply pf_evolves_refl|done]|].
  destruct (notify_one_evolves kid s Hh) as [H1 H2]; [apply Hl; left|].
  destruct (IH (notify_one e s kid) H2) as [H3 H4].
  - intros kid' Hk. eapply evolves_entry_ok; [exact H1|]. apply Hl. by right.
  - split; [by eapply evolves_trans|done].
Qed.

Definition released (s : clients) (ai : AgentPodInfo) : Prop :=
  (forall ip, podIP ai = Some ip -> ipWaiters s !! (ai_Namespace ai, ip) = None) /\ wlWaiters s !! ai_WorkloadName ai = None.
Definition fewer_waiters (s s' : clients) : Prop :=
  (forall key, ipWaiters s !! key = None -> ipWaiters s' !! key = None) /\ (forall wl, wlWaiters s !! wl = None -> wlWaiters s' !! wl = None).
Lemma waiters_ensureConnect id s : ipWaiters (ensureConnect e id s).1 = ipWaiters s /\ wlWaiters (ensureConnect e id s).1 = wlWaiters s /\
  chans (ensureConnect e id s).1 = chans s.
Proof. destruct (ensureConnect_cases id s) as [(g & b & _ & _ & -> & _)|(c & ai & _ & _ & _ & ->)]; done. Qed.
Lemma waiters_notify id ch s : ipWaiters (notify e id ch s) = ipWaiters s /\ wlWaiters (notify e id ch s) = wlWaiters s /\
  chans (notify e id ch s) = <[ch := true]> (chans s).
Proof. destruct (waiters_ensureConnect id s) as (H1 & H2 & H3). unfold notify, close_chan, set_waiters. cbn. by rewrite H1, H2, H3. Qed.

Lemma waiters_notify_ip id ai s :
  ipWaiters (notify_ip e id ai s) = match podIP ai with Some ip => delete (ai_Namespace ai, ip) (ipWaiters s) | None => ipWaiters s end /\
  wlWaiters (notify_ip e id ai s) = wlWaiters s.
Proof.
  unfold notify_ip. destruct (podIP ai) as [ip|]; [|done]. destruct (ipWaiters s !! _) as [ch|] eqn:E; [|by rewrite delete_id].
  by destruct (waiters_notify id ch (set_waiters (delete (ai_Namespace ai, ip) (ipWaiters s)) (wlWaiters s) (chans s) s)) as (-> & -> & _).
Qed.
Lemma waiters_notify_wl id ai s :
  ipWaiters (notify_wl e id ai s) = ipWaiters s /\ wlWaiters (notify_wl e id ai s) = delete (ai_WorkloadName ai) (wlWaiters s).
Proof.
  unfold notify_wl. destruct (wlWaiters s !! _) as [ch|] eqn:E; [|by rewrite delete_id].
  by destruct (waiters_notify id ch (set_waiters (ipWaiters s) (delete (ai_WorkloadName ai) (wlWaiters s)) (chans s) s)) as (-> & -> & _).
Qed.
Lemma notify_one_waiters kid s : fewer_waiters s (notify_one e s kid) /\
  (forall c ai, with_info kid.2 s = Some (c, ai) -> released (notify_one e s kid) ai).
Proof.
  unfold notify_one. destruct (with_info kid.2 s) as [[c ai]|]; [|done].
  destruct (waiters_notify_ip kid.2 ai s) as [H1 H2], (waiters_notify_wl kid.2 ai (notify_ip e kid.2 ai s)) as [H3 H4].
  split; [split|].
  - intros key Hn. rewrite H3, H1. destruct (podIP ai); [|done]. apply lookup_delete_None. auto.
  - intros wl Hn. rewrite H4, H2. apply lookup_delete_None. auto.
  - intros c' ai' [= <- <-]. split; [|rewrite H4; apply lookup_delete_eq]. intros ip Hip. rewrite H3, H1, Hip. apply lookup_delete_eq.
Qed.
Lemma fewer_released s s' ai : fewer_waiters s s' -> released s ai -> released s' ai.
Proof. intros [H1 H2] [H3 H4]. split; auto. Qed.
Lemma notify_fold_releases l : forall s, heap_inv s -> (forall kid, kid ∈ l -> entry_ok s kid) ->
  fewer_waiters s (foldl (notify_one e) s l) /\
  (forall kid c ai, kid ∈ l -> with_info kid.2 s = Some (c, ai) -> released (foldl (notify_one e) s l) ai).
Proof.
  induction l as [|kid l IH]; intros s Hh Hl; cbn [foldl].
  { split; [done|]. intros kid c ai Hk. by apply elem_of_nil in Hk. }
  destruct (notify_one_evolves kid s Hh) as [H1 H2]; [apply Hl; left|]. destruct (notify_one_waiters kid s) as [H3 H4].
  destruct (IH (notify_one e s kid) H2) as [H5 H6].
  { intros kid' Hk. eapply evolves_entry_ok; [exact H1|]. apply Hl. by right. }
  split; [destruct H3, H5; split; auto|]. intros kid' c ai Hk Hw. apply elem_of_cons in Hk as [->|Hk].
  - eapply fewer_released; [exact H5|]. by eapply H4.
  - destruct H1 as (Hinf & _ & _ & Ho & _). apply with_info_Some in Hw as [Hc Hi]. destruct (Ho _ _ Hc) as (c' & Hc' & Hci & _).
    apply (H6 kid' c'); [done|]. apply with_info_Some. rewrite Hinf, Hci. done.
Qed.

(** ** Who touches the waiters *)
Definition waits (s : clients) := (ipWaiters s, wlWaiters s, chans s).
Lemma waits_ensureConnect id s : waits (ensureConnect e id s).1 = waits s.
Proof. destruct (waiters_ensureConnect id s) as (H1 & H2 & H3). unfold waits. congruence. Qed.
Lemma waits_stop_watch id s : waits (stop_watch id s) = waits s.
Proof. unfold stop_watch. by destruct (objs s !! id). Qed.
Lemma waits_cancel id s : waits (cancel id s).1 = waits s.
Proof.
  unfold cancel. destruct (objs s !! id) as [c|]; [|done]. cbn [fst].
  destruct (c_watch c), (c_cli c); try done; exact (waits_stop_watch id s).
Qed.
Lemma waits_refresh id p s : waits (refresh e id p s) = waits s.
Proof.
  unfold refresh. destruct (with_info id s) as [[c old]|]; [|done]. destruct (infos s !! p) as [ai|]; [|done].
  repeat case_goal; rewrite ?waits_ensureConnect, ?waits_stop_watch; done.
Qed.
Lemma waits_add_one sb kp : waits (add_one e sb kp).1 = waits sb.1.
Proof.
  unfold add_one. destruct sb as [s b]. destruct (live s !! kp.1); [done|]. cbn [fst].
  destruct (infos (new_obj (newClient kp.1 kp.2) s) !! kp.2) as [ai|]; [|done]. destruct (ai_Intercepted ai); [|done]. by rewrite waits_ensureConnect.
Qed.
Lemma waits_delete_one aim sb kp : waits (delete_one aim sb kp).1 = waits sb.1.
Proof.
  unfold delete_one. destruct sb as [s b]. destruct (aim !! kp.1), (live s !! kp.1) as [id|]; try done. cbn [fst].
  exact (waits_cancel id s).
Qed.
Lemma waits_dormant_one sn kp : waits (dormant_one e sn kp).1 = waits sn.1.
Proof.
  unfold dormant_one. destruct sn as [s n]. destruct (idle e kp.2 s); [|done]. destruct (Nat.leb 1 n); [|done]. apply waits_cancel.
Qed.
Lemma wait_inv_waits s s' : waits s' = waits s -> wait_inv s -> wait_inv s'.
Proof. unfold waits, wait_inv. intros [= -> -> ->]. done. Qed.

Lemma wait_inv_notify id ch s : (forall k, ipWaiters s !! k <> Some ch) -> (forall k, wlWaiters s !! k <> Some ch) ->
  wait_inv s -> wait_inv (notify e id ch s).
Proof.
  intros Hi Hw (H1 & H2 & H3 & H4 & H5). destruct (waiters_notify id ch s) as (E1 & E2 & E3). unfold wait_inv. rewrite E1, E2, E3.
  split_and!; try done.
  - intros k c Hk. rewrite list_lookup_insert_ne; [by eapply H1|]. intros ->. by eapply Hi.
  - intros k c Hk. rewrite list_lookup_insert_ne; [by eapply H2|]. intros ->. by eapply Hw.
Qed.
Lemma wait_inv_sub s ipw wlw : ipw ⊆ ipWaiters s -> wlw ⊆ wlWaiters s -> wait_inv s -> wait_inv (set_waiters ipw wlw (chans s) s).
Proof.
  intros Hi Hw (H1 & H2 & H3 & H4 & H5). unfold wait_inv. cbn. pose proof (fun k c => lookup_weaken ipw (ipWaiters s) k c) as Wi.
  pose proof (fun k c => lookup_weaken wlw (wlWaiters s) k c) as Ww. split_and!; eauto 6.
Qed.
Lemma wait_inv_notify_ip id ai s : wait_inv s -> wait_inv (notify_ip e id ai s).
Proof.
  intros Hw. unfold notify_ip. destruct (podIP ai) as [ip|]; [|done]. destruct (ipWaiters s !! _) as [ch|] eqn:E; [|done].
  pose proof Hw as (_ & _ & H3 & _ & H5). apply wait_inv_notify; cbn [ipWaiters wlWaiters set_waiters].
  - intros k [Hne Hk]%lookup_delete_Some. destruct Hne. by eapply H3.
  - intros k Hk. by eapply H5.
  - apply wait_inv_sub; [apply delete_subseteq|done|done].
Qed.
Lemma wait_inv_notify_wl id ai s : wait_inv s -> wait_inv (notify_wl e id ai s).
Proof.
  intros Hw. unfold notify_wl. destruct (wlWaiters s !! _) as [ch|] eqn:E; [|done].
  pose proof Hw as (_ & _ & _ & H4 & H5). apply wait_inv_notify; cbn [ipWaiters wlWaiters set_waiters].
  - intros k Hk. by eapply H5.
  - intros k [Hne Hk]%lookup_delete_Some. destruct Hne. by eapply H4.
  - apply wait_inv_sub; [done|apply delete_subseteq|done].
Qed.
Lemma wait_inv_notifyWaiters s : wait_inv s -> wait_inv (notifyWaiters e s).
Proof.
  intros Hw. unfold notifyWaiters. apply (foldl_inv wait_inv); [|done]. intros s1 [k id] _ H1. unfold notify_one. cbn [snd].
  destruct (with_info id s1) as [[c ai]|]; [|done]. by apply wait_inv_notify_wl, wait_inv_notify_ip.
Qed.

(** A new waiter gets a new channel. *)
Lemma wait_inv_fresh s ch : wait_inv s -> ch = length (chans s) -> (forall k, ipWaiters s !! k <> Some ch) /\ (forall k, wlWaiters s !! k <> Some ch).
Proof.
  intros (H1 & H2 & _) ->. split; intros k Hk; [apply H1 in Hk|apply H2 in Hk]; apply lookup_lt_Some in Hk; lia.
Qed.
Lemma wait_inv_ip_waiter key s : wait_inv s -> wait_inv (ip_waiter key s).
Proof.
  intros Hw. unfold ip_waiter. destruct (ipWaiters s !! key) eqn:E; [done|].
  destruct (wait_inv_fresh s _ Hw eq_refl) as [Hf1 Hf2]. destruct Hw as (H1 & H2 & H3 & H4 & H5).
  unfold wait_inv. cbn [ipWaiters wlWaiters chans set_waiters]. split_and!.
  - intros k c [[_ <-]|[_ Hk]]%lookup_insert_Some; [by apply list_lookup_middle|]. apply lookup_app_l_Some. eauto.
  - intros k c Hk. apply lookup_app_l_Some. eauto.
  - intros k k' c [[<- <-]|[_ Hk]]%lookup_insert_Some [[<- ?]|[_ Hk']]%lookup_insert_Some; try done; try (subst; by edestruct Hf1). by eapply H3.
  - done.
  - intros k k' c [[<- <-]|[_ Hk]]%lookup_insert_Some Hk'; [by edestruct Hf2|by eapply H5].
Qed.
Lemma wait_inv_wl_waiter wl s : wait_inv s -> wlWaiters s !! wl = None ->
  wait_inv (set_waiters (ipWaiters s) (<[wl := length (chans s)]> (wlWaiters s)) (chans s ++ [false]) s).
Proof.
  intros Hw Hn. destruct (wait_inv_fresh s _ Hw eq_refl) as [Hf1 Hf2]. destruct Hw as (H1 & H2 & H3 & H4 & H5).
  unfold wait_inv. cbn [ipWaiters wlWaiters chans set_waiters]. split_and!.
  - intros k c Hk. apply lookup_app_l_Some. eauto.
  - intros k c [[_ <-]|[_ Hk]]%lookup_insert_Some; [by apply list_lookup_middle|]. apply lookup_app_l_Some. eauto.
  - done.
  - intros k k' c [[<- <-]|[_ Hk]]%lookup_insert_Some [[<- ?]|[_ Hk']]%lookup_insert_Some; try done; try (subst; by edestruct Hf2). by eapply H4.
  - intros k k' c Hk [[<- <-]|[_ Hk']]%lookup_insert_Some; [by edestruct Hf1|by eapply H5].
Qed.
End Env.
