(* ===== verification/AgentPfSpec.v ===== *)
(** * Theorems on the clients of the traffic-agents

    What a report of the traffic-manager does ([updateClients_correct]); the invariant
    under any interleaving of the steps of concurrent calls, and that the operations are
    sequences of these steps; the choice of a client; waiting for the agent of an address;
    the promise to the session's dispatch of connections; and findings: [WaitForWorkload]
    does not wait, a dial watch that ends marks the shared pod info, concurrent ends of
    tunnels are not all counted, and two races between a report and other calls. *)
From S2P Require Import Prelude NetIP GoStrings SessionStream AgentPf AgentPfInv.

Lemma order_elem e m k v : env_wf e -> (k, v) ∈ order e m <-> m !! k = Some v.
Proof. intros He. rewrite (He m). apply elem_of_map_to_list. Qed.
Lemma order_keys e m k : env_wf e -> k ∈ (order e m).*1 <-> is_Some (m !! k).
Proof.
  intros He. rewrite list_elem_of_fmap. split.
  - intros ([k' v] & -> & Hv). apply order_elem in Hv; [|done]. cbn. by rewrite Hv.
  - intros [v Hv]. exists (k, v). by rewrite order_elem.
Qed.
Lemma order_nodup e m : env_wf e -> NoDup (order e m).*1.
Proof. intros He. rewrite (He m). apply NoDup_fst_map_to_list. Qed.

(** ** Reports of the traffic-manager *)
Lemma aim_of_wf s ais : aim_wf (aim_of s ais) s.
Proof.
  unfold aim_of. apply (foldl_inv (fun m => aim_wf m s)); [|intros k p; by rewrite lookup_empty].
  intros m p _ Hm. destruct (infos s !! p) as [ai|] eqn:Hp; [|done]. destruct (bool_decide _); [done|].
  intros k q [[<- <-]|[_ Hk]]%lookup_insert_Some; eauto.
Qed.

Section Report.
Context (e : PfEnv) (He : env_wf e).

Lemma notifyWaiters_effect s : heap_inv s -> evolves e s (notifyWaiters e s) /\ heap_inv (notifyWaiters e s) /\
  (forall k id c ai, live s !! k = Some id -> objs s !! id = Some c -> infos s !! c_info c = Some ai -> released (notifyWaiters e s) ai).
Proof.
  intros Hh. assert (Hl : forall kid, kid ∈ order e (live s) -> entry_ok s kid).
  { intros [k id] Hk. left. by apply (order_elem e) in Hk. }
  destruct (notify_fold e _ s Hh Hl) as [H1 H2]. destruct (notify_fold_releases e _ s Hh Hl) as [_ H3].
  refine (conj H1 (conj H2 _)). intros k id c ai Hk Hc Hi. apply (H3 (k, id) c).
  - by apply (order_elem e).
  - by apply with_info_Some.
Qed.
Lemma heap_inv_set_snapshot aim s : aim_wf aim s -> heap_inv s -> heap_inv (set_snapshot aim s).
Proof. intros Ha (H1 & H2 & _). heap_split; [exact H1|exact H2|exact Ha]. Qed.

(** Everything before the waiters are notified. *)
Lemma report_phases aim s : heap_inv s -> aim_wf aim s ->
  let '(s1, ch1) := foldl (delete_one aim) (set_snapshot aim s, false) (order e (live s)) in
  let s2 := foldl (refresh_one e) s1 (order e aim) in
  let '(s3, ch3) := foldl (add_one e) (s2, ch1) (order e aim) in
  let s4 := (foldl (dormant_one e) (s3, 0%nat) (order e (live s3))).1 in
  heap_inv s4 /\ snapshot s4 = aim /\ waits s4 = waits s /\ (forall k, is_Some (live s4 !! k) -> is_Some (aim !! k)) /\
  (forall k p ai, aim !! k = Some p -> infos s !! p = Some ai -> infos s4 !! p = Some ai /\ reached e s4 k p ai).
Proof.
  intros Hh Ha. set (s0 := set_snapshot aim s). assert (Hh0 : heap_inv s0) by by apply heap_inv_set_snapshot.
  pose proof (delete_phase aim (order e (live s)) s0 false Hh0 Ha) as H1.
  pose proof (foldl_inv (fun sb => waits sb.1 = waits s) (delete_one aim) (order e (live s)) (s0, false)) as W1.
  destruct (foldl (delete_one aim) (s0, false) (order e (live s))) as [s1 ch1]. cbn [fst] in H1, W1.
  destruct H1 as (Hh1 & Hs1 & Hi1 & Hl1 & Hd1).
  assert (Haim1 : forall k p, (k, p) ∈ order e aim -> exists ai, infos s1 !! p = Some ai /\ pod_key ai = k).
  { intros k p Hk. apply order_elem in Hk; [|done]. rewrite (Hi1 _ _ Hk). by apply Ha. }
  destruct (refresh_phase e (order e aim) s1 Hh1 (order_nodup e aim He) Haim1) as (Hh2 & Hs2 & Hi2 & Hl2 & Hf2).
  cbv zeta. set (s2 := foldl (refresh_one e) s1 (order e aim)) in *.
  assert (W2 : waits s2 = waits s1).
  { unfold s2. apply (foldl_inv (fun s => waits s = waits s1)); [|done]. intros s' [k p] _ <-. unfold refresh_one. cbn [fst snd].
    destruct (live s' !! k); [apply waits_refresh|done]. }
  pose proof (add_phase e (order e aim) s2 ch1 Hh2 (order_nodup e aim He)) as H3.
  pose proof (foldl_inv (fun sb => waits sb.1 = waits s2) (add_one e) (order e aim) (s2, ch1)) as W3.
  destruct (foldl (add_one e) (s2, ch1) (order e aim)) as [s3 ch3]. cbn [fst] in H3, W3.
  destruct H3 as (Hh3 & Hs3 & Hi3 & Hl3 & Hr3).
  { intros k p Hk. destruct (Haim1 k p Hk) as (ai & ? & ?). exists ai. rewrite Hi2. eauto. }
  destruct (dormant_phase e aim (order e (live s3)) s3 0%nat Hh3) as (Hh4 & Hs4 & Hi4 & Hl4 & Hr4).
  { intros [k id] Hk. by apply (order_elem e) in Hk. }
  { intros k p ai Hk Hp. apply Hr3; [by apply (order_elem e)|by rewrite <- Hi3]. }
  set (s4 := (foldl (dormant_one e) (s3, 0%nat) (order e (live s3))).1) in *.
  assert (W4 : waits s4 = waits s3).
  { unfold s4. apply (foldl_inv (fun sn => waits sn.1 = waits s3)); [|done]. intros sn kp _ <-. apply waits_dormant_one. }
  refine (conj Hh4 (conj _ (conj _ (conj _ _)))).
  - by rewrite Hs4, Hs3, Hs2, Hs1.
  - rewrite W4, W3, W2, W1; try done; intros sb kp _ <-; [apply waits_delete_one|apply waits_add_one].
  - intros k. rewrite Hl4. destruct (aim !! k) as [p|] eqn:Hk; [done|].
    assert (Hn : k ∉ (order e aim).*1) by (rewrite order_keys by done; rewrite Hk; by intros [? ?]).
    rewrite Hl3, Hl2 by done. destruct (live s1 !! k) as [id|] eqn:Hid; [|by intros [? ?]]. intros _. exfalso.
    assert (Hin : k ∈ (order e (live s)).*1) by (rewrite order_keys by done; exists id; by eapply lookup_weaken).
    specialize (Hd1 k Hin Hk). congruence.
  - intros k p ai Hk Hp. assert (Hp3 : infos s3 !! p = Some ai) by (rewrite Hi3, Hi2, (Hi1 _ _ Hk); done).
    split; [by rewrite Hi4|by apply Hr4].
Qed.
End Report.

(** A report of the traffic-manager, whatever clients there were and in whatever order Go
    visits its maps: the snapshot is the report; no client of another pod is left; and
    for each reported pod its info is as reported, its client has that info and, if the
    pod is intercepted and reachable, watches its dial requests; if the pod is reachable
    it has a client and nobody waits for it any more. *)
Theorem updateClients_correct e s ais :
  env_wf e -> heap_inv s -> ais = [] \/ aim_of s ais <> ∅ ->
  let s' := updateClients e ais s in
  let aim := aim_of s ais in
  heap_inv s' /\ snapshot s' = aim /\ (forall k, is_Some (live s' !! k) -> is_Some (aim !! k)) /\
  (forall k p ai, aim !! k = Some p -> infos s !! p = Some ai ->
     infos s' !! p = Some ai /\ fine e s' k p ai /\
     (connects e ai = true -> is_Some (live s' !! k) /\ released s' ai)).
Proof.
  intros He Hh Hne. unfold updateClients.
  assert (negb (length ais =? 0)%nat && (size (aim_of s ais) =? 0)%nat = false) as ->.
  { destruct Hne as [->|Hne]; [done|]. apply andb_false_intro2. apply Nat.eqb_neq. by rewrite map_size_empty_iff. }
  pose proof (report_phases e He (aim_of s ais) s Hh (aim_of_wf s ais)) as Hr. change (live (set_snapshot (aim_of s ais) s)) with (live s).
  destruct (foldl (delete_one _) _ _) as [s1 ch1]. cbv zeta in *. destruct (foldl (add_one e) _ _) as [s3 ch3].
  set (s4 := (foldl (dormant_one e) (s3, 0%nat) (order e (live s3))).1) in *.
  destruct Hr as (Hh4 & Hs4 & _ & Hd4 & Hr4).
  set (s5 := if ch3 then set_flags (proxyVias s4) (disabled s4) (S (changes s4)) s4 else s4).
  assert (Hh5 : heap_inv s5) by (unfold s5; destruct ch3; done).
  assert (E5 : snapshot s5 = snapshot s4 /\ live s5 = live s4 /\ infos s5 = infos s4 /\ objs s5 = objs s4) by (unfold s5; destruct ch3; done).
  destruct E5 as (E1 & E2 & E3 & E4).
  destruct (notifyWaiters_effect e He s5 Hh5) as (Hev & Hh6 & Hrel). pose proof Hev as (Hi6 & Hs6 & _ & _ & Hl6).
  refine (conj Hh6 (conj _ (conj _ _))); [congruence| |].
  - intros k Hk. apply Hd4. rewrite <- E2. destruct (Hl6 k) as [<-|[Hn _]]; [done|]. rewrite Hn in Hk. by destruct Hk.
  - intros k p ai Hk Hp. destruct (Hr4 k p ai Hk Hp) as [Hp4 [Hf4 Hc4]].
    assert (Hf5 : fine e s5 k p ai) by (intros id c; rewrite E2, E4; apply Hf4).
    split; [congruence|]. split; [by eapply evolves_fine|]. intros Hcon. specialize (Hc4 Hcon). rewrite <- E2 in Hc4.
    assert (Hp5 : infos s5 !! p = Some ai) by congruence.
    split; [by eapply evolves_live|]. destruct Hc4 as [id Hid]. destruct (proj1 Hh5 _ _ Hid) as (c & ai' & Hc & _ & _ & Hai' & _).
    destruct (Hf5 _ _ Hid Hc) as [Hci _]. apply (Hrel k id c); [done|done|congruence].
Qed.
(** A sample: an intercepted pod and another one. *)
Definition sample_env : PfEnv := {| connects := fun _ => true; watches := fun _ => true; order := map_to_list; now := 7 |}.
Definition sample_pods : list AgentPodInfo :=
  [mkPod "a" "ns" "wa" [10; 0; 0; 1] true; mkPod "b" "ns" "wb" [10; 0; 0; 2] false].
Definition sample_clients : clients := receive sample_pods (NewClients "ns" []).
Lemma sample_env_wf : env_wf sample_env.
Proof. intros m. reflexivity. Qed.
Lemma updateClients_correct_witness :
  aim_of sample_clients [0; 1]%nat <> ∅ /\ snapshot (updateClients sample_env [0; 1]%nat sample_clients) = aim_of sample_clients [0; 1]%nat.
Proof.
  assert (Hne : aim_of sample_clients [0; 1]%nat <> ∅) by (intros H; apply (f_equal size) in H; vm_compute in H; discriminate).
  split; [exact Hne|].
  refine (proj1 (proj2 (updateClients_correct sample_env sample_clients [0; 1]%nat sample_env_wf _ (or_intror Hne)))).
  split; [|split]; intros *; cbn [live objs snapshot sample_clients receive NewClients setNamespaces]; rewrite ?lookup_empty; discriminate.
Defined.

(** ** The invariant in every state *)
Definition current (s : clients) : Prop := forall k id c,
  live s !! k = Some id -> objs s !! id = Some c -> snapshot s !! k = Some (c_info c).
Definition all_inv (s : clients) : Prop := heap_inv s /\ wait_inv s /\ current s.

(** Operations that add no client and keep the infos of the others. *)
Definition shaped (s s' : clients) : Prop :=
  snapshot s' = snapshot s /\ live s' ⊆ live s /\
  (forall j c', objs s' !! j = Some c' -> exists c, objs s !! j = Some c /\ c_info c' = c_info c).
Lemma shaped_refl s : shaped s s.
Proof. split_and!; [done|done|eauto]. Qed.
Lemma shaped_trans s1 s2 s3 : shaped s1 s2 -> shaped s2 s3 -> shaped s1 s3.
Proof.
  intros (H1 & H2 & H3) (H4 & H5 & H6). split_and!; [congruence|by etrans|].
  intros j c (c2 & Hc2 & E2)%H6. destruct (H3 _ _ Hc2) as (c1 & ? & ?). exists c1. split; [done|congruence].
Qed.
Lemma shaped_upd_obj id g s : mild g -> shaped s (upd_obj id g s).
Proof.
  intros Hg. split_and!; [done|done|]. intros j c'. rewrite objs_upd_obj. destruct (decide (j = id)); [|eauto].
  destruct (objs s !! j) as [c|]; cbn; [|done]. intros [= <-]. exists c. by destruct (Hg c) as (_ & ? & _).
Qed.
Lemma shaped_current s s' : shaped s s' -> current s -> current s'.
Proof.
  intros (H1 & H2 & H3) Hc k id c' Hk Hc'. destruct (H3 _ _ Hc') as (c & Hcc & ->). rewrite H1. eapply Hc; [|done]. by eapply lookup_weaken.
Qed.
Lemma shaped_ensureConnect e id s : shaped s (ensureConnect e id s).1.
Proof.
  destruct (ensureConnect_cases e id s) as [(g & b & Hm & _ & -> & _)|(c & ai & _ & _ & _ & ->)]; cbn [fst]; [by apply shaped_upd_obj|].
  split_and!; [done|apply delete_subseteq|]. intros j c'. change (objs (set_live ?m ?x)) with (objs x). rewrite objs_upd_obj.
  destruct (decide (j = id)); [|eauto]. destruct (objs s !! j) as [c0|]; cbn; [|done]. intros [= <-]. by exists c0.
Qed.
Lemma shaped_stop_watch id s : shaped s (stop_watch id s).
Proof. unfold stop_watch. destruct (objs s !! id); [|apply shaped_refl]. exact (shaped_upd_obj id _ s (mild_set_watch _ _)). Qed.
Lemma shaped_cancel id s : shaped s (cancel id s).1.
Proof.
  unfold cancel. destruct (objs s !! id) as [c|]; [|apply shaped_refl]. cbn [fst].
  destruct (c_cli c), (c_watch c); try apply shaped_refl; try (by apply shaped_upd_obj); try apply shaped_stop_watch.
  eapply shaped_trans; [apply shaped_stop_watch|by apply shaped_upd_obj].
Qed.
Lemma shaped_notify_one e kid s : shaped s (notify_one e s kid).
Proof.
  assert (Hn : forall id ch s', shaped s' (notify e id ch s')) by (intros; exact (shaped_ensureConnect e id s')).
  unfold notify_one. destruct (with_info kid.2 s) as [[c ai]|]; [|apply shaped_refl].
  apply (shaped_trans _ (notify_ip e kid.2 ai s)).
  - unfold notify_ip. destruct (podIP ai); [|apply shaped_refl]. destruct (ipWaiters s !! _); [|apply shaped_refl]. apply (Hn _ _ (set_waiters _ _ _ s)).
  - unfold notify_wl. set (s' := notify_ip e kid.2 ai s). destruct (wlWaiters s' !! _); [|apply shaped_refl]. apply (Hn _ _ (set_waiters _ _ _ s')).
Qed.
Lemma shaped_fold {A} (f : clients -> A -> clients) l s : (forall s a, shaped s (f s a)) -> shaped s (foldl f s l).
Proof.
  intros Hf. apply (foldl_inv (shaped s)); [|apply shaped_refl]. intros s' a _ Hs. by eapply shaped_trans.
Qed.

(** Steps that keep heap and waiters as the invariant wants them. *)
Lemma all_inv_ensureConnect e id s : all_inv s -> all_inv (ensureConnect e id s).1.
Proof.
  intros (H1 & H2 & H3). refine (conj _ (conj _ _)).
  - by apply heap_inv_ensureConnect.
  - by eapply wait_inv_waits; [apply waits_ensureConnect|].
  - by eapply shaped_current; [apply shaped_ensureConnect|].
Qed.
Lemma all_inv_upd_obj id g s : mild g -> all_inv s -> all_inv (upd_obj id g s).
Proof.
  intros Hg (H1 & H2 & H3). refine (conj _ (conj H2 _)); [by apply heap_inv_upd_obj|]. by eapply shaped_current; [apply shaped_upd_obj|].
Qed.
Lemma all_inv_stop_watch id s : all_inv s -> all_inv (stop_watch id s).
Proof.
  intros (H1 & H2 & H3). refine (conj _ (conj _ _)).
  - by apply heap_inv_stop_watch.
  - by eapply wait_inv_waits; [apply waits_stop_watch|].
  - by eapply shaped_current; [apply shaped_stop_watch|].
Qed.
Lemma all_inv_cancel id s : all_inv s -> all_inv (cancel id s).1.
Proof.
  intros (H1 & H2 & H3). refine (conj _ (conj _ _)).
  - unfold cancel in *. destruct (objs s !! id) as [c|] eqn:Hc; [|done]. destruct (cancel_effect id s c Hc) as (g & _ & _ & _ & _ & _ & H).
    specialize (H H1). unfold cancel in H. by rewrite Hc in H.
  - by eapply wait_inv_waits; [apply waits_cancel|].
  - by eapply shaped_current; [apply shaped_cancel|].
Qed.
Lemma all_inv_notifyWaiters e s : env_wf e -> all_inv s -> all_inv (notifyWaiters e s).
Proof.
  intros He (H1 & H2 & H3). refine (conj _ (conj _ _)).
  - by destruct (notifyWaiters_effect e He s H1) as (_ & H & _).
  - by apply wait_inv_notifyWaiters.
  - eapply shaped_current; [|exact H3]. apply shaped_fold. intros. apply shaped_notify_one.
Qed.

(** What can happen to the clients. *)
Inductive pf_op :=
  | OpReceive (ais : list AgentPodInfo)
  | OpUpdate (ais : list nat)
  | OpConnect (id : nat)
  | OpTunnel (opens : bool) (id : nat)
  | OpTunnelEnd (loaded : Z) (id : nat)
  | OpLoopEnd (id : nat)
  | OpCloseConn (id : nat)
  | OpRandomAgent
  | OpWaitWorkload (wl : string)
  | OpWaitIP (ns : string) (ip : Addr)
  | OpWaitRound (ns : string) (ip : Addr) (woken : bool)
  | OpWaitDone (ns : string) (ip : Addr)
  | OpProxyVia (wl : string)
  | OpNamespaces (nss : list string)
  | OpWatchEnd.
Definition run_op (e : PfEnv) (op : pf_op) (s : clients) : clients :=
  match op with
  | OpReceive ais => receive ais s
  | OpUpdate ais => updateClients e ais s
  | OpConnect id => (ensureConnect e id s).1
  | OpTunnel opens id => (pf_Tunnel e opens id s).1
  | OpTunnelEnd loaded id => tunnel_cas loaded id s
  | OpLoopEnd id => loop_end id s
  | OpCloseConn id => close_conn id s
  | OpRandomAgent => (GetRandomAgent e s).1
  | OpWaitWorkload wl => (WaitForWorkload e wl s).1
  | OpWaitIP ns ip => ip_waiter (ns, ip) s
  | OpWaitRound ns ip woken => (wait_round e ns ip woken s).1
  | OpWaitDone ns ip => set_waiters (delete (ns, ip) (ipWaiters s)) (wlWaiters s) (chans s) s
  | OpProxyVia wl => SetProxyVia wl s
  | OpNamespaces nss => setNamespaces nss s
  | OpWatchEnd => watch_end e s
  end.
Definition run_ops (ops : list (PfEnv * pf_op)) (s : clients) : clients := foldl (fun s eo => run_op eo.1 eo.2 s) s ops.

Lemma all_inv_receive ais s : all_inv s -> all_inv (receive ais s).
Proof.
  intros ((H1 & H2 & H3) & Hw & Hc). refine (conj _ (conj Hw Hc)). heap_split.
  - intros k id Hk. destruct (H1 _ _ Hk) as (c & ai & ? & ? & ? & ? & ?). exists c, ai. split_and!; try done. by apply lookup_app_l_Some.
  - intros id c Hid. destruct (H2 _ _ Hid) as [ai Hai]. exists ai. by apply lookup_app_l_Some.
  - intros k p Hk. destruct (H3 _ _ Hk) as (ai & ? & ?). exists ai. split; [by apply lookup_app_l_Some|done].
Qed.
Lemma all_inv_update e ais s : env_wf e -> all_inv s -> all_inv (updateClients e ais s).
Proof.
  intros He (H1 & H2 & H3).
  destruct (negb (length ais =? 0)%nat && (size (aim_of s ais) =? 0)%nat) eqn:Hdis.
  { unfold updateClients. rewrite Hdis. by apply all_inv_notifyWaiters. }
  assert (Hne : ais = [] \/ aim_of s ais <> ∅).
  { destruct ais; [by left|right]. cbn in Hdis. apply Nat.eqb_neq in Hdis. by rewrite map_size_empty_iff in Hdis. }
  destruct (updateClients_correct e s ais He H1 Hne) as (Hh & Hs & Hl & Hf). refine (conj Hh (conj _ _)).
  - unfold updateClients. rewrite Hdis.
    pose proof (report_phases e He (aim_of s ais) s H1 (aim_of_wf s ais)) as Hr. change (live (set_snapshot (aim_of s ais) s)) with (live s).
    destruct (foldl (delete_one _) _ _) as [s1 ch1]. cbv zeta in *. destruct (foldl (add_one e) _ _) as [s3 ch3].
    destruct Hr as (_ & _ & Hw & _). apply wait_inv_notifyWaiters. destruct ch3; by eapply wait_inv_waits.
  - intros k id c Hk Hc. rewrite Hs. destruct (Hl k) as [p Hp]; [by rewrite Hk|]. destruct (aim_of_wf s ais _ _ Hp) as (ai & Hai & _).
    destruct (Hf _ _ _ Hp Hai) as (_ & Hfine & _). destruct (Hfine _ _ Hk Hc) as [-> _]. done.
Qed.
Lemma all_inv_loadOrAdd p s k : all_inv s -> snapshot s !! k = Some p -> all_inv (loadOrAddClient p s).1 /\
  forall ai, infos s !! p = Some ai -> exists c, objs (loadOrAddClient p s).1 !! (loadOrAddClient p s).2 = Some c /\ c_info c = p /\ c_err c = false /\
    infos (loadOrAddClient p s).1 = infos s.
Proof.
  intros Ha Hk. pose proof Ha as (Hh & Hw & Hc). destruct (proj2 (proj2 Hh) _ _ Hk) as (ai & Hp & Hpk).
  unfold loadOrAddClient. rewrite Hp, Hpk. destruct (live s !! k) as [id|] eqn:Hl; cbn [fst snd].
  - split; [done|]. intros ai' _. destruct (proj1 Hh _ _ Hl) as (c & _ & Hcc & _ & He & _). exists c. split_and!; try done.
    specialize (Hc _ _ _ Hl Hcc). congruence.
  - split.
    + refine (conj _ (conj Hw _)); [by eapply heap_inv_new_obj|]. intros k' id c. cbn [live objs snapshot new_obj c_key newClient].
      intros [[<- <-]|[Hne Hid]]%lookup_insert_Some.
      * rewrite list_lookup_middle by done. by intros [= <-].
      * intros [Hc'|[Hlen _]]%lookup_app_Some; [by eapply Hc|]. destruct (proj1 Hh _ _ Hid) as (c0 & _ & Hc0 & _).
        apply lookup_lt_Some in Hc0. lia.
    + intros ai' _. exists (newClient k p). split_and!; try done. by apply list_lookup_middle.
Qed.
Lemma snapshot_find_Some e f s p ai : env_wf e -> snapshot_find e f s = Some (p, ai) ->
  f ai = true /\ infos s !! p = Some ai /\ exists k, snapshot s !! k = Some p.
Proof.
  intros He. unfold snapshot_find. intros Hh. apply head_Some_elem_of, list_elem_of_omap in Hh as ([k q] & Hin & Hx). cbn [snd] in Hx.
  destruct (infos s !! q) as [ai'|] eqn:Hq; [|done]. cbn in Hx. destruct (f ai') eqn:Hf; [|done]. injection Hx as -> ->.
  split_and!; try done. exists k. by apply (order_elem e).
Qed.
Lemma all_inv_wait_round e ns ip woken s : env_wf e -> all_inv s -> all_inv (wait_round e ns ip woken s).1.
Proof.
  intros He Ha. unfold wait_round, snapshotInfoForIP. destruct (snapshot_find _ _ s) as [[p ai]|] eqn:Hf; cbn [fmap option_fmap option_map fst].
  - apply snapshot_find_Some in Hf as (_ & Hp & k & Hk); [|done]. destruct (all_inv_loadOrAdd p s k Ha Hk) as [H1 _].
    destruct (loadOrAddClient p s) as [s1 id]. by apply all_inv_ensureConnect.
  - destruct woken; [|done]. destruct Ha as (H1 & H2 & H3). refine (conj _ (conj _ _)).
    + unfold ip_waiter. by destruct (ipWaiters s !! _).
    + by apply wait_inv_ip_waiter.
    + unfold ip_waiter. by destruct (ipWaiters s !! _).
Qed.

Lemma all_inv_run_op e op s : env_wf e -> all_inv s -> all_inv (run_op e op s).
Proof.
  intros He Ha. destruct op; cbn [run_op].
  - by apply all_inv_receive.
  - by apply all_inv_update.
  - by apply all_inv_ensureConnect.
  - unfold pf_Tunnel. pose proof (all_inv_ensureConnect e id s Ha) as H. destruct (ensureConnect e id s) as [s1 ok]. cbn [fst] in H.
    destruct (ok && opens); [|done]. by apply all_inv_upd_obj.
  - unfold tunnel_cas. destruct (objs s !! id); [|done]. destruct (_ && _); [|done]. by apply all_inv_upd_obj.
  - unfold loop_end. destruct (objs s !! id) as [c|]; [|done]. destruct (c_loops c); [done|].
    assert (all_inv (upd_obj id (set_watch (c_watch c) n) s)) by by apply all_inv_upd_obj.
    destruct (c_watch c); [by apply all_inv_stop_watch|done].
  - unfold close_conn. destruct (objs s !! id) as [c|]; [|done]. destruct (c_closing c); [done|]. by apply all_inv_upd_obj.
  - assert (Hc : forall id, all_inv (connect_to e id s).1).
    { intros id. unfold connect_to. pose proof (all_inv_ensureConnect e id s Ha). by destruct (ensureConnect e id s). }
    unfold GetRandomAgent. destruct (random_agent _ _ _ _) as [[[id|] [id'|]] [id''|]]; cbn [fst]; auto; by apply all_inv_upd_obj.
  - unfold WaitForWorkload. destruct (disabled s); [done|]. destruct (wlWaiters s !! wl) eqn:Hwl; [by apply all_inv_notifyWaiters|].
    destruct (has_workload e wl s); [done|]. destruct Ha as (H1 & H2 & H3). refine (conj H1 (conj _ H3)). by apply wait_inv_wl_waiter.
  - destruct Ha as (H1 & H2 & H3). refine (conj _ (conj _ _)).
    + unfold ip_waiter. by destruct (ipWaiters s !! _).
    + by apply wait_inv_ip_waiter.
    + unfold ip_waiter. by destruct (ipWaiters s !! _).
  - by apply all_inv_wait_round.
  - destruct Ha as (H1 & H2 & H3). refine (conj H1 (conj _ H3)). apply wait_inv_sub; [apply delete_subseteq|done|done].
  - done.
  - done.
  - unfold watch_end. set (s1 := foldl _ s _). assert (H : all_inv s1); [|exact H]. unfold s1.
    apply (foldl_inv all_inv); [|done]. intros s' kid _ Hs. by apply all_inv_cancel.
Qed.

(** ** All interleavings *)

Definition conc_objs (x : pf_conc) : Prop := forall id c, objs (st x) !! id = Some c ->
  c_info c ∈ reported x /\ exists ai, infos (st x) !! c_info c = Some ai /\ pod_key ai = c_key c.
Definition conc_live (x : pf_conc) : Prop := forall k id, live (st x) !! k = Some id ->
  exists c, objs (st x) !! id = Some c /\ c_key c = k /\ (c_err c = true -> id ∈ due x).
Definition conc_snapshot (x : pf_conc) : Prop := forall k p, snapshot (st x) !! k = Some p ->
  p ∈ reported x /\ exists ai, infos (st x) !! p = Some ai /\ pod_key ai = k.
Definition conc_taken (x : pf_conc) : Prop := forall ch, ch ∈ taken x ->
  chans (st x) !! ch = Some false /\ (forall k, ipWaiters (st x) !! k <> Some ch) /\ (forall k, wlWaiters (st x) !! k <> Some ch).
Definition conc_inv (x : pf_conc) : Prop :=
  (conc_objs x /\ conc_live x /\ conc_snapshot x /\ (forall p, p ∈ reported x -> is_Some (infos (st x) !! p))) /\
  (wait_inv (st x) /\ conc_taken x /\ panicked x = false).

(** Steps that touch neither the waiters nor the key, the info and the error of a client. *)
Definition conc_heap (x : pf_conc) : Prop :=
  conc_objs x /\ conc_live x /\ conc_snapshot x /\ (forall p, p ∈ reported x -> is_Some (infos (st x) !! p)).
Definition conc_wait (x : pf_conc) : Prop := wait_inv (st x) /\ conc_taken x /\ panicked x = false.
Lemma conc_wait_waits s x : waits s = waits (st x) -> conc_wait x -> conc_wait (set_st s x).
Proof.
  intros Hw (H1 & H2 & H3). refine (conj _ (conj _ H3)); [by eapply wait_inv_waits|].
  intros ch Hch. cbn [st set_st taken] in *. unfold waits in Hw. injection Hw as -> -> ->. by apply H2.
Qed.

(** A step on the heap: the infos keep their keys, the map loses entries at most, and each
    client keeps its key, has an info of that key that was reported, and has failed only
    when its removal is due. *)
Definition heap_step (x : pf_conc) (s : clients) (d : gset nat) : Prop :=
  (forall p ai, infos (st x) !! p = Some ai -> exists ai', infos s !! p = Some ai' /\ pod_key ai' = pod_key ai) /\
  live s ⊆ live (st x) /\ snapshot s = snapshot (st x) /\
  (forall id c, objs (st x) !! id = Some c -> is_Some (objs s !! id)) /\
  (forall id c', objs s !! id = Some c' -> exists c, objs (st x) !! id = Some c /\ c_key c' = c_key c /\
     (c_info c' = c_info c \/ c_info c' ∈ reported x /\ exists ai, infos (st x) !! c_info c' = Some ai /\ pod_key ai = c_key c) /\
     (c_err c' = true -> c_err c = true \/ id ∈ d)) /\
  due x ⊆ d.
Lemma heap_step_inv x s d : heap_step x s d -> conc_heap x -> conc_heap (mkConc s (reported x) d (taken x) (panicked x)).
Proof.
  intros (Hi & Hl & Hs & Hk & Ho & Hd) (H1 & H2 & H3 & H4). split_and!.
  - intros id c' Hc'. cbn [st reported] in *. destruct (Ho _ _ Hc') as (c & Hc & -> & Hinf & _). destruct (H1 _ _ Hc) as [Hr (ai & Ha & Hp)].
    assert (Hx : exists ai, infos (st x) !! c_info c' = Some ai /\ pod_key ai = c_key c).
    { destruct Hinf as [->|[_ Hx]]; eauto. }
    split; [by destruct Hinf as [->|[? _]]|]. destruct Hx as (ai' & Ha' & Hp'). destruct (Hi _ _ Ha') as (ai2 & ? & ?). exists ai2. split; [done|congruence].
  - intros k id Hid. cbn [st due] in *. destruct (H2 k id) as (c & Hc & Hk' & He); [by eapply lookup_weaken|].
    destruct (Hk _ _ Hc) as [c' Hc']. destruct (Ho _ _ Hc') as (c0 & Hc0 & ? & _ & Herr). assert (c0 = c) as -> by congruence.
    exists c'. split_and!; [done|congruence|]. intros [E| ]%Herr; [|done]. by apply Hd, He.
  - intros k p. cbn [st reported]. rewrite Hs. intros [Hr (ai & Ha & Hp)]%H3. split; [done|]. destruct (Hi _ _ Ha) as (ai' & ? & ?). exists ai'. split; [done|congruence].
  - intros p [ai Ha]%H4. cbn [st]. destruct (Hi _ _ Ha) as (ai' & -> & _). eauto.
Qed.
Lemma heap_step_refl x : heap_step x (st x) (due x).
Proof. split_and!; eauto 10. Qed.

Lemma heap_step_upd x id g d : due x ⊆ d -> (forall c, c_key (g c) = c_key c /\ c_info (g c) = c_info c /\ (c_err (g c) = true -> c_err c = true \/ id ∈ d)) ->
  heap_step x (upd_obj id g (st x)) d.
Proof.
  intros Hd Hg. split_and!; try done; [eauto| |].
  - intros j c Hc. rewrite objs_upd_obj. destruct (decide (j = id)); rewrite Hc; cbn; eauto.
  - intros j c'. rewrite objs_upd_obj. destruct (decide (j = id)) as [->|]; [|eauto 10].
    destruct (objs (st x) !! id) as [c|]; cbn; [|done]. intros [= <-]. destruct (Hg c) as (H1 & H2 & H3). exists c. eauto 10.
Qed.
Lemma heap_step_mild x id g : mild g -> heap_step x (upd_obj id g (st x)) (due x).
Proof. intros Hg. apply heap_step_upd; [done|]. intros c. destruct (Hg c) as (?&?&E). split_and!; [done|done|]. rewrite E. auto. Qed.
Lemma heap_step_stop x id : heap_step x (stop_watch id (st x)) (due x).
Proof.
  unfold stop_watch. destruct (objs (st x) !! id) as [c|] eqn:Hc; [|apply heap_step_refl].
  destruct (heap_step_mild x id (set_watch false (c_loops c)) (mild_set_watch _ _)) as (_ & H2 & H3 & H4 & H5 & H6).
  split_and!; try done. intros p ai Hp. change (infos (upd_obj ?i ?g ?y)) with (infos y). rewrite infos_upd_info.
  destruct (decide (p = c_info c)); [|eauto]. rewrite Hp. by eexists.
Qed.
Lemma heap_step_same_objs x s : infos s = infos (st x) -> live s ⊆ live (st x) -> snapshot s = snapshot (st x) -> objs s = objs (st x) -> heap_step x s (due x).
Proof. intros E1 E2 E3 E4. split_and!; rewrite ?E1, ?E3, ?E4; eauto 10. Qed.

Lemma connect_locked_cases e id s :
  (exists g, mild g /\ connect_locked e id s = (upd_obj id g s, false)) \/ connect_locked e id s = (upd_obj id set_err s, true).
Proof.
  assert (Hid : s = upd_obj id (fun c => c) s).
  { destruct s. unfold upd_obj. cbn. f_equal. symmetry. by apply list_alter_id. }
  unfold connect_locked. destruct (with_info id s) as [[c ai]|]; [|left; exists (fun c => c); split; [done|by rewrite <- Hid]].
  destruct (c_err c); [left; exists (fun c => c); split; [done|by rewrite <- Hid]|].
  destruct (c_cli c).
  { left. destruct (connected_then_cases e id s) as (g & b & Hm & _ & -> & _). by exists g. }
  destruct (connects e ai); [|by right]. left.
  destruct (connected_then_cases e id (upd_obj id (set_cli true) s)) as (g & b & Hm & _ & -> & _).
  exists (fun c => g (set_cli true c)). split; [by apply (mild_compose (set_cli true) g)|]. cbn [fst]. by rewrite upd_obj_compose.
Qed.
Lemma heap_step_when_due x id (sd : clients * bool) : heap_step x sd.1 (if sd.2 then {[ id ]} ∪ due x else due x) -> conc_heap x -> conc_heap (when_due sd id x).
Proof. apply heap_step_inv. Qed.
Lemma set_err_due id c (d : gset nat) : c_key (set_err c) = c_key c /\ c_info (set_err c) = c_info c /\ (c_err (set_err c) = true -> c_err c = true \/ id ∈ ({[ id ]} ∪ d : gset nat)).
Proof. split_and!; [done|done|]. intros _. right. set_solver. Qed.
Lemma heap_step_connect e id x :
  heap_step x (connect_locked e id (st x)).1 (if (connect_locked e id (st x)).2 then {[ id ]} ∪ due x else due x).
Proof.
  destruct (connect_locked_cases e id (st x)) as [(g & Hm & ->)| ->]; cbn [fst snd]; [by apply heap_step_mild|].
  apply heap_step_upd; [set_solver|]. intros c. apply set_err_due.
Qed.
Lemma refresh_locked_cases e id p s : is_Some (with_info id s) -> is_Some (infos s !! p) ->
  (exists g, mild g /\ refresh_locked e id p s = (upd_obj id (fun c => g (set_info p c)) s, false)) \/
  refresh_locked e id p s = (upd_obj id (fun c => set_err (set_info p c)) s, true).
Proof.
  intros [[c old] Hw] [ai Hp]. unfold refresh_locked. rewrite Hw, Hp. cbv zeta.
  assert (Hs : (exists g, mild g /\ (upd_obj id (set_info p) s, false) = (upd_obj id (fun c => g (set_info p c)) s, false))) by (exists (fun c => c); done).
  assert (Hc : (exists g, mild g /\ connect_locked e id (upd_obj id (set_info p) s) = (upd_obj id (fun c => g (set_info p c)) s, false)) \/
               connect_locked e id (upd_obj id (set_info p) s) = (upd_obj id (fun c => set_err (set_info p c)) s, true)).
  { destruct (connect_locked_cases e id (upd_obj id (set_info p) s)) as [(g & Hm & ->)| ->]; rewrite upd_obj_compose; [left; by exists g|by right]. }
  destruct (Bool.eqb _ _), (ai_Intercepted ai), (c_watch c); cbn [andb negb]; auto.
Qed.
Lemma heap_step_refresh e id p x : conc_heap x -> p ∈ reported x -> key_matches id p (st x) = true ->
  heap_step x (refresh_locked e id p (st x)).1 (if (refresh_locked e id p (st x)).2 then {[ id ]} ∪ due x else due x).
Proof.
  intros (H1 & _) Hp Hk. unfold key_matches in Hk. destruct (objs (st x) !! id) as [c|] eqn:Hc; [|done].
  destruct (infos (st x) !! p) as [ai|] eqn:Hai; [|done]. bools.
  assert (Hg : forall g d, due x ⊆ d -> (forall c, c_key (g c) = c_key c /\ c_info (g c) = c_info c /\ (c_err (g c) = true -> c_err c = true \/ id ∈ d)) ->
            heap_step x (upd_obj id (fun c => g (set_info p c)) (st x)) d).
  { intros g d Hd Hg. split_and!; try done; [eauto| |].
    - intros j c0 Hc0. rewrite objs_upd_obj. destruct (decide (j = id)); rewrite Hc0; cbn; eauto.
    - intros j c'. rewrite objs_upd_obj. destruct (decide (j = id)) as [->|]; [|eauto 10].
      rewrite Hc. cbn. intros [= <-]. destruct (Hg (set_info p c)) as (G1 & G2 & G3). exists c. split_and!; [done|by rewrite G1| |done].
      right. rewrite G2. cbn. eauto. }
  destruct (H1 _ _ Hc) as [_ (old & Hold & _)].
  destruct (refresh_locked_cases e id p (st x)) as [(g & Hm & ->)| ->]; cbn [fst snd].
  - exists (c, old). by apply with_info_Some.
  - by rewrite Hai.
  - apply Hg; [done|]. intros c0. destruct (Hm c0) as (?&?&E). split_and!; [done|done|]. rewrite E. auto.
  - apply Hg; [set_solver|]. intros c0. apply set_err_due.
Qed.

Lemma waits_upd_obj id g s : waits (upd_obj id g s) = waits s.
Proof. done. Qed.
Lemma waits_connect_locked e id s : waits (connect_locked e id s).1 = waits s.
Proof. by destruct (connect_locked_cases e id s) as [(g & _ & ->)| ->]. Qed.
Lemma waits_refresh_locked e id p s : waits (refresh_locked e id p s).1 = waits s.
Proof.
  unfold refresh_locked. destruct (with_info id s) as [[c old]|]; [|done]. destruct (infos s !! p) as [ai|]; [|done]. cbv zeta.
  repeat case_goal; rewrite ?waits_connect_locked; done.
Qed.
Lemma waits_loop_end id s : waits (loop_end id s) = waits s.
Proof.
  unfold loop_end. destruct (objs s !! id) as [c|]; [|done]. destruct (c_loops c); [done|]. destruct (c_watch c); [|done]. by rewrite waits_stop_watch.
Qed.

(** The infos that some report carried grow, and the invariant holds in every state. *)
Lemma conc_add p x : conc_heap x -> p ∈ reported x -> conc_heap (set_st (loadOrAddClient p (st x)).1 x).
Proof.
  intros (H1 & H2 & H3 & H4) Hp. unfold loadOrAddClient. destruct (infos (st x) !! p) as [ai|] eqn:Hai; [|done].
  destruct (live (st x) !! pod_key ai) eqn:Hl; [done|]. cbn [fst]. split_and!; try done.
  - intros id c. cbn [st set_st objs new_obj reported infos]. intros [Hc|[_ Hc]]%lookup_app_Some; [by apply (H1 id)|].
    apply list_lookup_singleton_Some in Hc as [_ <-]. cbn. eauto.
  - intros k id. cbn [st set_st live new_obj objs due c_key newClient]. intros [[<- <-]|[Hne Hid]]%lookup_insert_Some.
    + exists (newClient (pod_key ai) p). split_and!; [by apply list_lookup_middle|done|done].
    + destruct (H2 _ _ Hid) as (c & Hc & ? & ?). exists c. split_and!; try done. by apply lookup_app_l_Some.
Qed.
Lemma conc_report ais x : conc_heap x ->
  conc_heap (mkConc (set_snapshot (aim_of (st x) ais) (st x)) (list_to_set (map_to_list (aim_of (st x) ais)).*2 ∪ reported x) (due x) (taken x) (panicked x)).
Proof.
  intros (H1 & H2 & H3 & H4). pose proof (aim_of_wf (st x) ais) as Ha.
  assert (Hin : forall k p, aim_of (st x) ais !! k = Some p -> p ∈ (list_to_set (map_to_list (aim_of (st x) ais)).*2 : gset nat)).
  { intros k p Hk. apply elem_of_list_to_set, list_elem_of_fmap. exists (k, p). split; [done|]. by apply elem_of_map_to_list. }
  split_and!.
  - intros id c Hc. cbn [st reported set_snapshot infos] in *. destruct (H1 _ _ Hc) as [? ?]. split; [set_solver|done].
  - exact H2.
  - intros k p Hk. cbn [st reported set_snapshot infos snapshot] in *. split; [apply elem_of_union_l; eauto|by apply Ha].
  - intros p [Hp|Hp]%elem_of_union; [|by apply H4]. apply elem_of_list_to_set, list_elem_of_fmap in Hp as ([k q] & -> & Hk%elem_of_map_to_list).
    destruct (Ha _ _ Hk) as (ai & Hai & _). cbn. by rewrite Hai.
Qed.
Lemma conc_remove id x : conc_heap x -> conc_heap (mkConc (remove_client id (st x)) (reported x) (due x ∖ {[ id ]}) (taken x) (panicked x)).
Proof.
  intros (H1 & H2 & H3 & H4). unfold remove_client. destruct (objs (st x) !! id) as [c|] eqn:Hc.
  - split_and!; try done. intros k j. cbn [st live set_live due objs]. intros [Hne Hj]%lookup_delete_Some.
    destruct (H2 _ _ Hj) as (c' & Hc' & ? & He). exists c'. split_and!; try done. intros Herr. specialize (He Herr).
    assert (j <> id) by congruence. set_solver.
  - split_and!; try done. intros k j Hj. destruct (H2 _ _ Hj) as (c' & Hc' & ? & He). exists c'. split_and!; try done. intros Herr.
    specialize (He Herr). cbn [due]. assert (j <> id) by congruence. set_solver.
Qed.
Lemma conc_receive ais x : conc_heap x -> conc_heap (set_st (receive ais (st x)) x).
Proof.
  intros H. apply heap_step_inv; [|done]. split_and!; try done; [|eauto 10].
  intros p ai Hp. exists ai. split; [|done]. by apply lookup_app_l_Some.
Qed.

Lemma conc_take ch s x : conc_wait x -> (exists k, ipWaiters (st x) !! k = Some ch /\ s = set_waiters (delete k (ipWaiters (st x))) (wlWaiters (st x)) (chans (st x)) (st x)) \/
    (exists k, wlWaiters (st x) !! k = Some ch /\ s = set_waiters (ipWaiters (st x)) (delete k (wlWaiters (st x))) (chans (st x)) (st x)) ->
  conc_wait (take ch s x).
Proof.
  intros (H1 & H2 & H3) Hs. pose proof H1 as (W1 & W2 & W3 & W4 & W5).
  assert (Hsub : ipWaiters s ⊆ ipWaiters (st x) /\ wlWaiters s ⊆ wlWaiters (st x) /\ chans s = chans (st x) /\ (forall k, ipWaiters s !! k <> Some ch) /\ (forall k, wlWaiters s !! k <> Some ch) /\ chans (st x) !! ch = Some false /\ wait_inv s).
  { destruct Hs as [(k & Hk & ->)|(k & Hk & ->)]; cbn [ipWaiters wlWaiters chans set_waiters].
    - split_and!; try done; [apply delete_subseteq| | |by eapply W1|by apply wait_inv_sub; [apply delete_subseteq|done|done]].
      + intros k' [? ?]%lookup_delete_Some. naive_solver.
      + intros k' ?. naive_solver.
    - split_and!; try done; [apply delete_subseteq| | |by eapply W2|by apply wait_inv_sub; [done|apply delete_subseteq|done]].
      + intros k' ?. naive_solver.
      + intros k' [? ?]%lookup_delete_Some. naive_solver. }
  destruct Hsub as (S1 & S2 & S3 & S4 & S5 & S6 & S7). refine (conj S7 (conj _ H3)).
  intros ch' [->%elem_of_singleton|Hin]%elem_of_union; cbn [st take]; rewrite S3; [done|].
  destruct (H2 _ Hin) as (? & T1 & T2). split_and!; [done| |].
  - intros k Hk. apply (T1 k). by eapply lookup_weaken.
  - intros k Hk. apply (T2 k). by eapply lookup_weaken.
Qed.
Lemma conc_close ch x : conc_wait x -> ch ∈ taken x ->
  conc_wait (mkConc (close_chan ch (st x)) (reported x) (due x) (taken x ∖ {[ ch ]}) (panicked x || bool_decide (chans (st x) !! ch = Some true))).
Proof.
  intros ((W1 & W2 & W3 & W4 & W5) & H2 & H3) Hin. destruct (H2 _ Hin) as (Hf & T1 & T2).
  assert (Hne : forall ch', ch' <> ch -> chans (close_chan ch (st x)) !! ch' = chans (st x) !! ch').
  { intros ch' Hn. cbn. by rewrite list_lookup_insert_ne. }
  split_and!; cbn [panicked].
  - split_and!; try done; intros k ch' Hk; cbn [st] in *; rewrite Hne; eauto; intros ->; [by apply (T1 k)|by apply (T2 k)].
  - intros ch' Hin'. cbn [st taken] in *. assert (ch' <> ch /\ ch' ∈ taken x) as [Hn Hi] by set_solver. rewrite (Hne _ Hn). by apply H2.
  - rewrite H3, Hf. done.
Qed.
Lemma conc_new_ip key x : conc_wait x -> conc_wait (set_st (ip_waiter key (st x)) x).
Proof.
  intros (H1 & H2 & H3). refine (conj _ (conj _ H3)); [by apply wait_inv_ip_waiter|]. intros ch Hin. destruct (H2 _ Hin) as (Hf & T1 & T2).
  cbn [st set_st]. unfold ip_waiter. destruct (ipWaiters (st x) !! key); [done|]. cbn. split_and!; [by apply lookup_app_l_Some| |done].
  intros k [[<- <-]|[_ Hk]]%lookup_insert_Some; [|by apply (T1 k)]. apply lookup_lt_Some in Hf. lia.
Qed.
Lemma conc_new_wl wl x : conc_wait x -> conc_wait (set_st (wl_waiter wl (st x)) x).
Proof.
  intros (H1 & H2 & H3). unfold wl_waiter. destruct (wlWaiters (st x) !! wl) eqn:Hwl; [done|].
  refine (conj _ (conj _ H3)); [by apply wait_inv_wl_waiter|]. intros ch Hin. destruct (H2 _ Hin) as (Hf & T1 & T2).
  cbn. split_and!; [by apply lookup_app_l_Some|done|].
  intros k [[<- <-]|[_ Hk]]%lookup_insert_Some; [|by apply (T2 k)]. apply lookup_lt_Some in Hf. lia.
Qed.
Lemma conc_sub_ip key x : conc_wait x -> conc_wait (set_st (set_waiters (delete key (ipWaiters (st x))) (wlWaiters (st x)) (chans (st x)) (st x)) x).
Proof.
  intros (H1 & H2 & H3). refine (conj _ (conj _ H3)); [by apply wait_inv_sub; [apply delete_subseteq|done|done]|].
  intros ch Hin. destruct (H2 _ Hin) as (Hf & T1 & T2). split_and!; [done| |done]. intros k. cbn. intros [_ Hk]%lookup_delete_Some. by apply (T1 k).
Qed.

Lemma conc_heap_act e a x : conc_heap x -> conc_heap (pf_act e x a).
Proof.
  intros H. assert (Hm : forall id g, mild g -> conc_heap (set_st (upd_obj id g (st x)) x)) by (intros; by apply heap_step_inv; [apply heap_step_mild|]).
  assert (Hs : forall s, infos s = infos (st x) -> live s ⊆ live (st x) -> snapshot s = snapshot (st x) -> objs s = objs (st x) -> conc_heap (set_st s x)).
  { intros. by apply heap_step_inv; [apply heap_step_same_objs|]. }
  destruct a; cbn [pf_act].
  - by apply conc_receive.
  - by apply conc_report.
  - by apply Hs.
  - by apply Hs.
  - apply Hs; try done. apply delete_subseteq.
  - apply heap_step_inv; [apply heap_step_stop|done].
  - by apply Hm.
  - destruct (bool_decide (p ∈ reported x)) eqn:Hp; [|done]. cbn [andb]. destruct (key_matches id p (st x)) eqn:Hk; [|done]. bools.
    apply heap_step_when_due; [by apply heap_step_refresh|done].
  - destruct (bool_decide (p ∈ reported x)) eqn:Hp; [|done]. bools. by apply conc_add.
  - apply heap_step_when_due; [apply heap_step_connect|done].
  - destruct (bool_decide _); [|done]. by apply conc_remove.
  - by destruct (ipWaiters (st x) !! key).
  - by destruct (wlWaiters (st x) !! wl).
  - by destruct (bool_decide (ch ∈ taken x)).
  - unfold ip_waiter. by destruct (ipWaiters (st x) !! key).
  - done.
  - unfold wl_waiter. by destruct (wlWaiters (st x) !! wl).
  - by apply Hm.
  - by apply Hm.
  - unfold tunnel_cas. destruct (objs (st x) !! id); [|done]. destruct (_ && _); [|done]. by apply Hm.
  - unfold loop_end. destruct (objs (st x) !! id) as [c|]; [|done]. destruct (c_loops c); [done|].
    assert (H1 : conc_heap (set_st (upd_obj id (set_watch (c_watch c) n) (st x)) x)) by by apply Hm.
    destruct (c_watch c); [|done]. pose proof (heap_step_inv _ _ _ (heap_step_stop (set_st (upd_obj id (set_watch true n) (st x)) x) id) H1) as H2. exact H2.
  - unfold close_conn. destruct (objs (st x) !! id) as [c|]; [|done]. destruct (c_closing c); [done|]. by apply Hm.
  - by apply Hs.
  - by apply Hs.
Qed.
Lemma conc_wait_act e a x : conc_wait x -> conc_wait (pf_act e x a).
Proof.
  intros H. destruct a; cbn [pf_act]; try exact H.
  - apply (conc_wait_waits _ _ (waits_stop_watch id (st x)) H).
  - destruct (_ && _); [|done]. exact (conc_wait_waits _ _ (waits_refresh_locked e id p (st x)) H).
  - destruct (bool_decide _); [|done]. unfold loadOrAddClient. destruct (infos (st x) !! p); [|done]. by destruct (live (st x) !! _).
  - exact (conc_wait_waits _ _ (waits_connect_locked e id (st x)) H).
  - destruct (bool_decide _); [|done]. unfold remove_client. by destruct (objs (st x) !! id).
  - destruct (ipWaiters (st x) !! key) as [ch|] eqn:E; [|done]. apply conc_take; [done|left; eauto].
  - destruct (wlWaiters (st x) !! wl) as [ch|] eqn:E; [|done]. apply conc_take; [done|right; eauto].
  - destruct (bool_decide (ch ∈ taken x)) eqn:E; [|done]. bools. by apply conc_close.
  - by apply conc_new_ip.
  - by apply conc_sub_ip.
  - by apply conc_new_wl.
  - unfold tunnel_cas. destruct (objs (st x) !! id); [|done]. by destruct (_ && _).
  - exact (conc_wait_waits _ _ (waits_loop_end id (st x)) H).
  - unfold close_conn. destruct (objs (st x) !! id) as [c|]; [|done]. by destruct (c_closing c).
Qed.
Lemma conc_inv_acts acts x : conc_inv x -> conc_inv (pf_acts acts x).
Proof.
  intros H. unfold pf_acts. apply (foldl_inv conc_inv); [|done]. intros y [e a] _ [H1 H2]. split; [by apply conc_heap_act|by apply conc_wait_act].
Qed.

(** *** The operations are made of these steps *)
Section Made.
Context (e : PfEnv) (He : env_wf e).

Definition reaches (x y : pf_conc) : Prop :=
  (exists acts, y = pf_acts (pair e <$> acts) x) /\ reported x ⊆ reported y /\ taken x ⊆ taken y.
Definition made (x : pf_conc) (s : clients) : Prop := exists y, reaches x y /\ st y = s.
Lemma pf_acts_app l1 l2 x : pf_acts (l1 ++ l2) x = pf_acts l2 (pf_acts l1 x).
Proof. unfold pf_acts. apply foldl_app. Qed.
Lemma reaches_trans x y z : reaches x y -> reaches y z -> reaches x z.
Proof.
  intros ([l1 ->] & ? & ?) ([l2 ->] & ? & ?). split_and!; [|by etrans|by etrans]. exists (l1 ++ l2). by rewrite fmap_app, pf_acts_app.
Qed.
Lemma reaches_inv x y : reaches x y -> conc_inv x -> conc_inv y.
Proof. intros ([l ->] & _) Hx. by apply conc_inv_acts. Qed.
Lemma act_inv x a : conc_inv x -> conc_inv (pf_act e x a).
Proof. intros H. exact (conc_inv_acts [(e, a)] x H). Qed.
Lemma made_acts acts x s : let y := pf_acts (pair e <$> acts) x in st y = s /\ reported x ⊆ reported y /\ taken x ⊆ taken y -> made x s.
Proof. intros y (Hs & Hr & Ht). exists y. split; [|done]. split_and!; [by exists acts|done|done]. Qed.
Lemma made_refl x : made x (st x).
Proof. by apply (made_acts []). Qed.
Lemma made_trans x s s' : conc_inv x -> made x s ->
  (forall y, reaches x y -> conc_inv y -> st y = s -> made y s') -> made x s'.
Proof.
  intros Hx (y & H1 & H2) H. destruct (H y) as (z & H3 & H4); [done|by eapply reaches_inv|done|]. exists z. split; [by eapply reaches_trans|done].
Qed.

Lemma made_ensureConnect id x : made x (ensureConnect e id (st x)).1.
Proof.
  unfold ensureConnect. destruct (with_info id (st x)) as [[c ai]|] eqn:Hw; [|apply made_refl].
  destruct (c_err c) eqn:Herr; [apply made_refl|].
  destruct (c_cli c) eqn:Hcli; [|destruct (connects e ai) eqn:Hcon].
  1,2: apply (made_acts [AConnect id]); cbn; unfold connect_locked; rewrite Hw, Herr, Hcli, ?Hcon; cbn; done.
  apply with_info_Some in Hw as Hw'. destruct Hw' as [Hc _].
  apply (made_acts [AConnect id; ARemove id]). cbn [fmap list_fmap pf_acts foldl fst snd pf_act when_due st due].
  unfold connect_locked. rewrite Hw, Herr, Hcli, Hcon. cbn [fst snd st due reported taken when_due].
  rewrite bool_decide_true by set_solver. cbn [st reported taken]. unfold remove_client. rewrite objs_upd_obj, decide_True, Hc by done. done.
Qed.
Lemma made_cancel id x : made x (cancel id (st x)).1.
Proof.
  unfold cancel. destruct (objs (st x) !! id) as [c|] eqn:Hc; [|apply made_refl]. cbn [fst]. destruct (c_watch c), (c_cli c).
  - by apply (made_acts [AStopWatch id; ACancelClient id]).
  - by apply (made_acts [AStopWatch id]).
  - by apply (made_acts [ACancelClient id]).
  - apply made_refl.
Qed.
Definition ok_entry (x : pf_conc) (kp : string * nat) : Prop :=
  kp.2 ∈ reported x /\ exists ai, infos (st x) !! kp.2 = Some ai /\ pod_key ai = kp.1.
Lemma made_refresh k id p x : conc_inv x -> ok_entry x (k, p) -> live (st x) !! k = Some id -> made x (refresh e id p (st x)).
Proof.
  intros [(Ho & Hl & _) _] [Hp (ai & Hai & Hpk)] Hid. cbn [fst snd] in *. destruct (Hl _ _ Hid) as (c & Hc & Hck & _).
  destruct (Ho _ _ Hc) as [_ (old & Hold & _)]. assert (Hw : with_info id (st x) = Some (c, old)) by by apply with_info_Some.
  assert (Hkm : key_matches id p (st x) = true) by (unfold key_matches; rewrite Hc, Hai; apply bool_decide_eq_true; congruence).
  set (s1 := upd_obj id (set_info p) (st x)).
  assert (Hcon : refresh_locked e id p (st x) = connect_locked e id s1 -> made x (ensureConnect e id s1).1).
  { intros E. unfold ensureConnect. unfold connect_locked in E. destruct (with_info id s1) as [[c1 ai1]|] eqn:Hw1.
    2:{ apply (made_acts [ARefresh id p]). cbn. rewrite bool_decide_true, Hkm by done. cbn. rewrite E. done. }
    apply with_info_Some in Hw1 as [Hc1 _].
    destruct (c_err c1), (c_cli c1), (connects e ai1) eqn:?; cbn [fst].
    all: try (apply (made_acts [ARefresh id p]); cbn; rewrite bool_decide_true, Hkm by done; cbn; rewrite E; done).
    apply (made_acts [ARefresh id p; ARemove id]). cbn [fmap list_fmap pf_acts foldl fst snd pf_act when_due st due].
    rewrite (bool_decide_true (p ∈ reported x)) by done. rewrite Hkm. cbn [andb when_due st due reported taken]. rewrite E. cbn [fst snd].
    rewrite bool_decide_true by set_solver. cbn [st reported taken]. unfold remove_client. rewrite objs_upd_obj, decide_True, Hc1 by done. done. }
  assert (Hst : refresh_locked e id p (st x) = (s1, false) -> made x s1 /\ made x (stop_watch id s1)).
  { intros E. split; [apply (made_acts [ARefresh id p])|apply (made_acts [ARefresh id p; AStopWatch id])]; cbn; rewrite bool_decide_true, Hkm by done; cbn; rewrite E; done. }
  unfold refresh. unfold refresh_locked in Hcon, Hst. rewrite Hw, Hai in Hcon, Hst |- *. cbv zeta in Hcon, Hst |- *. fold s1 in Hcon, Hst |- *.
  destruct (Bool.eqb _ _), (ai_Intercepted ai), (c_watch c); cbn [andb negb] in *; try (by apply Hcon); by apply Hst.
Qed.
Lemma made_add k p x : conc_inv x -> ok_entry x (k, p) -> forall b, made x (add_one e (st x, b) (k, p)).1.
Proof.
  intros Hx [Hp (ai & Hai & Hpk)] b. cbn [fst snd] in *. unfold add_one. cbn [fst snd]. destruct (live (st x) !! k) eqn:Hl; [apply made_refl|].
  cbn [fst]. change (infos (new_obj _ (st x))) with (infos (st x)). rewrite Hai.
  assert (Hn : made x (new_obj (newClient k p) (st x))).
  { apply (made_acts [AAdd p]). cbn. rewrite bool_decide_true by done. cbn. unfold loadOrAddClient. rewrite Hai, Hpk, Hl. done. }
  destruct (ai_Intercepted ai); [|done]. eapply made_trans; [done|exact Hn|]. intros y _ _ <-. apply made_ensureConnect.
Qed.
Lemma made_delete aim x kid b : conc_inv x -> made x (delete_one aim (st x, b) kid).1.
Proof.
  intros Hx. unfold delete_one. destruct (aim !! kid.1); [apply made_refl|]. destruct (live (st x) !! kid.1) as [id|]; [|apply made_refl]. cbn [fst].
  eapply made_trans; [done|apply (made_cancel id)|]. intros y _ _ Hy. apply (made_acts [ADelete kid.1]). cbn. rewrite Hy.
  destruct (waits_cancel id (st x)). unfold cancel. destruct (objs (st x) !! id) as [c|]; [|done]. cbn [fst].
  unfold stop_watch. by destruct (objs (st x) !! id), (c_watch c), (c_cli c).
Qed.
Lemma made_take x a y ch id : pf_act e x a = y -> conc_inv x -> reported x ⊆ reported y -> taken y = {[ ch ]} ∪ taken x -> ch ∉ taken x ->
  made x (notify e id ch (st y)).
Proof.
  intros Hy Hx Hr Ht Hn. destruct (made_ensureConnect id y) as (z & ([l ->] & H2 & H3) & H1).
  apply (made_acts (a :: l ++ [AClose ch])); cbn [fmap list_fmap]; change (pf_acts ((e, a) :: ?l) x) with (pf_acts l (pf_act e x a));
    rewrite Hy; change (list_fmap _ _ (pair e) ?l) with (pair e <$> l); rewrite fmap_app, pf_acts_app; set (z := pf_acts (pair e <$> l) y) in *;
    cbn; rewrite bool_decide_true by set_solver; cbn. split_and!.
  - unfold notify. by rewrite H1.
  - by etrans.
  - set_solver.
Qed.
Lemma made_notify_one x kid : conc_inv x -> made x (notify_one e (st x) kid).
Proof.
  intros Hx. unfold notify_one. destruct (with_info kid.2 (st x)) as [[c ai]|]; [|apply made_refl].
  apply (made_trans x (notify_ip e kid.2 ai (st x))); [done| |].
  - unfold notify_ip. destruct (podIP ai) as [ip|]; [|apply made_refl]. destruct (ipWaiters (st x) !! (ai_Namespace ai, ip)) as [ch|] eqn:E; [|apply made_refl].
    assert (Ea : pf_act e x (ATakeIp (ai_Namespace ai, ip)) = take ch (set_waiters (delete (ai_Namespace ai, ip) (ipWaiters (st x))) (wlWaiters (st x)) (chans (st x)) (st x)) x) by (cbn; by rewrite E).
    refine (made_take x (ATakeIp (ai_Namespace ai, ip)) _ ch kid.2 Ea _ _ _ _); [done|done|done|].
    intros Hin. destruct Hx as [_ (_ & Ht & _)]. destruct (Ht _ Hin) as (_ & Hne & _). by apply (Hne (ai_Namespace ai, ip)).
  - intros y _ Hy Ey. rewrite <- Ey. unfold notify_wl. destruct (wlWaiters (st y) !! ai_WorkloadName ai) as [ch|] eqn:E; [|apply made_refl].
    assert (Ea : pf_act e y (ATakeWl (ai_WorkloadName ai)) = take ch (set_waiters (ipWaiters (st y)) (delete (ai_WorkloadName ai) (wlWaiters (st y))) (chans (st y)) (st y)) y) by (cbn; by rewrite E).
    refine (made_take y (ATakeWl (ai_WorkloadName ai)) _ ch kid.2 Ea _ _ _ _); [done|done|done|].
    intros Hin. destruct Hy as [_ (_ & Ht & _)]. destruct (Ht _ Hin) as (_ & _ & Hne). by apply (Hne (ai_WorkloadName ai)).
Qed.

(** Pod infos keep their keys. *)
Lemma infos_connect_locked id s : infos (connect_locked e id s).1 = infos s.
Proof. by destruct (connect_locked_cases e id s) as [(g & _ & ->)| ->]. Qed.
Lemma infos_refresh_locked id p s : infos (refresh_locked e id p s).1 = infos s.
Proof.
  unfold refresh_locked. destruct (with_info id s) as [[c old]|]; [|done]. destruct (infos s !! p) as [ai|]; [|done]. cbv zeta.
  repeat case_goal; rewrite ?infos_connect_locked; done.
Qed.
Definition keeps (s s' : clients) : Prop := forall p ai, infos s !! p = Some ai -> exists ai', infos s' !! p = Some ai' /\ pod_key ai' = pod_key ai.
Lemma keeps_eq s s' : infos s' = infos s -> keeps s s'.
Proof. intros E p ai Hp. rewrite E. eauto. Qed.
Lemma keeps_stop id s : keeps s (stop_watch id s).
Proof.
  unfold stop_watch. destruct (objs s !! id) as [c|]; [|by apply keeps_eq]. intros p ai Hp. change (infos (upd_obj ?i ?g ?y)) with (infos y).
  rewrite infos_upd_info. destruct (decide (p = c_info c)); [|eauto]. rewrite Hp. by eexists.
Qed.
Lemma keeps_act x a : keeps (st x) (st (pf_act e x a)).
Proof.
  destruct a; cbn [pf_act]; try (by apply keeps_eq).
  - intros p ai Hp. exists ai. split; [|done]. by apply lookup_app_l_Some.
  - apply keeps_stop.
  - destruct (_ && _); [|by apply keeps_eq]. apply keeps_eq, infos_refresh_locked.
  - destruct (bool_decide _); [|by apply keeps_eq]. apply keeps_eq. unfold set_st, loadOrAddClient. cbn. destruct (infos (st x) !! p); [|done]. by destruct (live (st x) !! _).
  - apply keeps_eq, infos_connect_locked.
  - destruct (bool_decide _); [|by apply keeps_eq]. apply keeps_eq. unfold remove_client. cbn. by destruct (objs (st x) !! id).
  - apply keeps_eq. by destruct (ipWaiters (st x) !! key).
  - apply keeps_eq. by destruct (wlWaiters (st x) !! wl).
  - apply keeps_eq. by destruct (bool_decide (ch ∈ taken x)).
  - apply keeps_eq. unfold ip_waiter. cbn. by destruct (ipWaiters (st x) !! key).
  - apply keeps_eq. unfold wl_waiter. cbn. by destruct (wlWaiters (st x) !! wl).
  - apply keeps_eq. unfold tunnel_cas. cbn. destruct (objs (st x) !! id); [|done]. by destruct (_ && _).
  - unfold loop_end. cbn [st set_st]. destruct (objs (st x) !! id) as [c|]; [|by apply keeps_eq]. destruct (c_loops c); [by apply keeps_eq|].
    destruct (c_watch c); [|by apply keeps_eq]. exact (keeps_stop id (upd_obj id (set_watch true n) (st x))).
  - apply keeps_eq. unfold close_conn. cbn. destruct (objs (st x) !! id) as [c|]; [|done]. by destruct (c_closing c).
Qed.
Lemma ok_entry_mono acts x kp : reported x ⊆ reported (pf_acts (pair e <$> acts) x) -> ok_entry x kp -> ok_entry (pf_acts (pair e <$> acts) x) kp.
Proof.
  intros Hr [H1 (ai & H2 & H3)]. split; [set_solver|].
  assert (Hk : forall y, keeps (st y) (st (pf_acts (pair e <$> acts) y))).
  { clear Hr. induction acts as [|a l IH]; intros y; [by apply keeps_eq|]. intros p ai' Hp. destruct (keeps_act y a _ _ Hp) as (ai2 & Hp2 & E2).
    cbn [fmap list_fmap]. change (pf_acts ((e, a) :: ?l) y) with (pf_acts l (pf_act e y a)).
    destruct (IH (pf_act e y a)) with (p := p) (ai := ai2) as (ai3 & ? & ?); try done. exists ai3. split; [done|congruence]. }
  destruct (Hk x _ _ H2) as (ai' & ? & ?). exists ai'. split; [done|congruence].
Qed.

Lemma ok_entry_reaches x y kp : reaches x y -> ok_entry x kp -> ok_entry y kp.
Proof. intros ([l ->] & Hr & _). by apply ok_entry_mono. Qed.
(** Folds, also those that compute a flag or a count. *)
Lemma made_fold2 {A B} (f : clients * B -> A -> clients * B) (ok : pf_conc -> A -> Prop) l : forall x b, conc_inv x ->
  (forall y b a, conc_inv y -> ok y a -> made y (f (st y, b) a).1) -> (forall y z a, reaches y z -> ok y a -> ok z a) ->
  (forall a, a ∈ l -> ok x a) -> made x (foldl f (st x, b) l).1.
Proof.
  induction l as [|a l IH]; intros x b Hx Hf Hmono Hok; [apply made_refl|]. cbn [foldl].
  pose proof (Hf x b a Hx (Hok a (list_elem_of_here _ _))) as Ha. destruct (f (st x, b) a) as [s1 b1]. cbn [fst] in Ha.
  eapply made_trans; [done|exact Ha|]. intros y Hr Hy <-. apply IH; try done. intros c Hc. apply (Hmono x); [done|]. apply Hok. by right.
Qed.
Lemma made_fold {A} (f : clients -> A -> clients) (ok : pf_conc -> A -> Prop) l : forall x, conc_inv x ->
  (forall y a, conc_inv y -> ok y a -> made y (f (st y) a)) -> (forall y z a, reaches y z -> ok y a -> ok z a) ->
  (forall a, a ∈ l -> ok x a) -> made x (foldl f (st x) l).
Proof.
  induction l as [|a l IH]; intros x Hx Hf Hmono Hok; [apply made_refl|]. cbn [foldl].
  eapply made_trans; [done|exact (Hf x a Hx (Hok a (list_elem_of_here _ _)))|]. intros y Hr Hy <-. apply IH; try done.
  intros c Hc. apply (Hmono x); [done|]. apply Hok. by right.
Qed.
Lemma made_fold_all {A} (f : clients -> A -> clients) l x : conc_inv x -> (forall y a, conc_inv y -> made y (f (st y) a)) -> made x (foldl f (st x) l).
Proof. intros Hx Hf. by apply (made_fold f (fun _ _ => True)); auto. Qed.
Lemma made_notifyWaiters x : conc_inv x -> made x (notifyWaiters e (st x)).
Proof. intros Hx. apply made_fold_all; [done|]. intros. by apply made_notify_one. Qed.

Lemma made_refresh_one x kp : conc_inv x -> ok_entry x kp -> made x (refresh_one e (st x) kp).
Proof.
  intros Hx Hok. unfold refresh_one. destruct (live (st x) !! kp.1) as [id|] eqn:Hl; [|apply made_refl]. destruct kp as [k p]. by eapply made_refresh.
Qed.
Lemma made_update ais x : conc_inv x -> made x (updateClients e ais (st x)).
Proof.
  intros Hx. unfold updateClients. cbv zeta. destruct (negb _ && _).
  { apply (made_trans x (set_flags (proxyVias (st x)) true (changes (st x)) (st x))); [done|by apply (made_acts [ADisable])|]. intros y _ Hy <-. by apply made_notifyWaiters. }
  set (aim := aim_of (st x) ais). set (x0 := pf_act e x (AReport ais)). assert (Hx0 : conc_inv x0) by by apply act_inv.
  assert (Hok0 : forall kp, kp ∈ order e aim -> ok_entry x0 kp).
  { intros [k p] Hk. apply (order_elem e) in Hk; [|done]. destruct Hx0 as [(_ & _ & Hs & _) _]. exact (Hs k p Hk). }
  assert (Hr0 : reaches x x0) by (split_and!; [by exists [AReport ais]|cbn; set_solver|done]).
  enough (made x0 (let '(s, changed) := foldl (delete_one aim) (st x0, false) (order e (live (st x0))) in
    let s := foldl (refresh_one e) s (order e aim) in
    let '(s, changed) := foldl (add_one e) (s, changed) (order e aim) in
    let s := (foldl (dormant_one e) (s, 0%nat) (order e (live s))).1 in
    notifyWaiters e (if changed : bool then set_flags (proxyVias s) (disabled s) (S (changes s)) s else s))) as (z & Hz & Ez).
  { exists z. split; [by eapply reaches_trans|done]. }
  clearbody x0. pose proof (made_fold2 (delete_one aim) (fun _ _ => True) (order e (live (st x0))) x0 false Hx0) as H1.
  destruct (foldl (delete_one aim) _ _) as [s1 ch1]. cbn [fst] in H1. cbv zeta.
  apply (made_trans x0 s1); [done|apply H1; auto; intros; by apply made_delete|]. intros x1 Hr1 Hx1 <-.
  apply (made_trans x1 (foldl (refresh_one e) (st x1) (order e aim))); [done| |].
  { apply (made_fold _ ok_entry); [done|intros; by apply made_refresh_one|apply ok_entry_reaches|]. intros kp Hkp. eapply ok_entry_reaches; eauto. }
  intros x2 Hr2 Hx2 <-. pose proof (made_fold2 (add_one e) ok_entry (order e aim) x2 ch1 Hx2) as H3.
  destruct (foldl (add_one e) _ _) as [s3 ch3]. cbn [fst] in H3.
  apply (made_trans x2 s3); [done| |].
  { apply H3; [intros ? ? [? ?]; by intros; apply made_add|apply ok_entry_reaches|]. intros kp Hkp. apply (ok_entry_reaches x0); [by eapply reaches_trans|by apply Hok0]. }
  intros x3 Hr3 Hx3 <-. apply (made_trans x3 ((foldl (dormant_one e) (st x3, 0%nat) (order e (live (st x3)))).1)); [done| |].
  { apply (made_fold2 _ (fun _ _ => True)); auto. intros y n kid Hy _. unfold dormant_one. destruct (idle e kid.2 (st y)); [|apply made_refl].
    destruct (Nat.leb 1 n); [|apply made_refl]. apply made_cancel. }
  intros x4 Hr4 Hx4 <-. destruct ch3; [|by apply made_notifyWaiters].
  apply (made_trans x4 (set_flags (proxyVias (st x4)) (disabled (st x4)) (S (changes (st x4))) (st x4))); [done|by apply (made_acts [AChanged])|]. intros y _ Hy <-. by apply made_notifyWaiters.
Qed.
Lemma made_pf_op op x : conc_inv x -> made x (run_op e op (st x)).
Proof.
  intros Hx. destruct op; cbn [run_op].
  - by apply (made_acts [AReceive ais]).
  - by apply made_update.
  - apply made_ensureConnect.
  - unfold pf_Tunnel. pose proof (made_ensureConnect id x) as H. destruct (ensureConnect e id (st x)) as [s1 ok]. cbn [fst] in H.
    destruct (ok && opens); [|done]. eapply made_trans; [done|exact H|]. intros y _ _ <-. by apply (made_acts [ATunnel id]).
  - by apply (made_acts [ATunnelEnd loaded id]).
  - by apply (made_acts [ALoopEnd id]).
  - by apply (made_acts [ACloseConn id]).
  - assert (Hc : forall id, made x (connect_to e id (st x)).1).
    { intros id. unfold connect_to. pose proof (made_ensureConnect id x). by destruct (ensureConnect e id (st x)). }
    unfold GetRandomAgent. destruct (random_agent _ _ _ _) as [[[id|] [id'|]] [id''|]]; cbn [fst]; try apply Hc; try apply made_refl; by apply (made_acts [ATouch id]).
  - unfold WaitForWorkload. destruct (disabled (st x)); [apply made_refl|]. destruct (wlWaiters (st x) !! wl) eqn:Hwl; [by apply made_notifyWaiters|].
    destruct (has_workload e wl (st x)); [apply made_refl|]. apply (made_acts [AWlWaiter wl]). cbn. unfold wl_waiter. by rewrite Hwl.
  - by apply (made_acts [AIpWaiter (ns, ip)]).
  - unfold wait_round, snapshotInfoForIP. destruct (snapshot_find _ _ (st x)) as [[p ai]|] eqn:Hf; cbn [fmap option_fmap option_map fst].
    2:{ destruct woken; [by apply (made_acts [AIpWaiter (ns, ip)])|apply made_refl]. }
    apply snapshot_find_Some in Hf as (_ & Hp & k & Hk); [|done]. destruct Hx as [(Ho & Hl & Hs & Hi) Hw]. destruct (Hs _ _ Hk) as [Hrep _].
    assert (Ha : made x (loadOrAddClient p (st x)).1) by (apply (made_acts [AAdd p]); cbn; by rewrite bool_decide_true).
    destruct (loadOrAddClient p (st x)) as [s1 id]. cbn [fst] in Ha. eapply made_trans; [by split|exact Ha|]. intros y _ _ <-. apply made_ensureConnect.
  - by apply (made_acts [AIpDone (ns, ip)]).
  - by apply (made_acts [AProxyVia wl]).
  - by apply (made_acts [ANamespaces nss]).
  - unfold watch_end. eapply made_trans; [done| |].
    + apply (made_fold_all (fun s (kid : string * nat) => (cancel kid.2 s).1)); [done|]. intros. apply made_cancel.
    + intros y _ _ <-. by apply (made_acts [ADisable]).
Qed.
End Made.

(** Whole operations one after another. *)
Lemma run_ops_inv own nss ops : Forall (fun eo => env_wf eo.1) ops -> all_inv (run_ops ops (NewClients own nss)).
Proof.
  intros Hops. unfold run_ops. rewrite Forall_forall in Hops. apply (foldl_inv all_inv).
  - intros s [e op] Hin Ha. apply all_inv_run_op; [by apply (Hops (e, op))|done].
  - refine (conj _ (conj _ _)); [split_and!|split_and!|]; intros *; cbn; rewrite ?lookup_empty; done.
Qed.

(** C31. The clients of the traffic-agents, when the watch, the calls and their goroutines
    run at the same time.  Steps are what one of them does under the lock of a client or
    in one call of a concurrent map (a failed dial and the removal of its client are two
    steps, and so are finding a pod in the snapshot and adding its client, and taking a
    waiter and closing its channel).  In every state that any interleaving of steps
    reaches: each client in use is stored under the key of its pod, has an info of that
    pod that some report carried, and has failed to connect only if its removal is due;
    each waiter has an open channel of its own that nobody is about to close; and no
    channel is ever closed twice.  Every operation, a whole report included, is a sequence
    of such steps.  If operations run one after another, no client in use has failed to
    connect, and each has the info of the latest report. *)
Theorem pf_invariant own nss :
  (forall acts, conc_inv (pf_acts acts (new_conc own nss))) /\
  (forall e op x, env_wf e -> conc_inv x -> exists acts, st (pf_acts (pair e <$> acts) x) = run_op e op (st x)) /\
  (forall ops, Forall (fun eo => env_wf eo.1) ops -> all_inv (run_ops ops (NewClients own nss))).
Proof.
  split_and!.
  - intros acts. apply conc_inv_acts. split; split_and!; done.
  - intros e op x He Hx. destruct (made_pf_op e He op x Hx) as (y & ([acts ->] & _) & Hy). by exists acts.
  - intros ops. apply run_ops_inv.
Qed.
(** A report without the pod between the lookup and the addition of the waiter. *)
Lemma pf_invariant_witness :
  let x := pf_acts [(sample_env, AReceive sample_pods); (sample_env, AReport [0; 1]%nat); (sample_env, AReport []);
                    (sample_env, AAdd 0); (sample_env, AConnect 0)] (new_conc "ns" []) in
  size (live (st x)) = 1%nat /\ conc_inv x.
Proof. split; [by vm_compute|]. apply (proj1 (pf_invariant "ns" [])). Defined.

(** Interleavings that whole operations exclude.  A waiter adds the client of a pod that a
    newer report lacks, and no later step of that report removes it; and the removal after
    a failed dial deletes the client that took the place of the failed one. *)
Definition deaf_env : PfEnv := {| connects := fun _ => false; watches := fun _ => true; order := map_to_list; now := 7 |}.
Lemma stale_client_added :
  let x := pf_acts [(sample_env, AReceive sample_pods); (sample_env, AReport [0; 1]%nat); (sample_env, AReport [1]%nat);
                    (sample_env, AAdd 0)] (new_conc "ns" []) in
  live (st x) !! "a.ns"%string = Some 0%nat /\ snapshot (st x) !! "a.ns"%string = None.
Proof. vm_compute. done. Qed.
Lemma late_removal_hits_new_client :
  let x := pf_acts [(sample_env, AReceive sample_pods); (sample_env, AReport [0]%nat); (sample_env, AAdd 0); (deaf_env, AConnect 0);
                    (sample_env, ADelete "a.ns"); (sample_env, AAdd 0); (sample_env, AConnect 1)] (new_conc "ns" []) in
  live (st x) !! "a.ns"%string = Some 1%nat /\ (c_cli <$> objs (st x) !! 1%nat) = Some true /\
  live (st (pf_act sample_env x (ARemove 0))) !! "a.ns"%string = None.
Proof. vm_compute. done. Qed.

(** ** Waiting for an address *)
Lemma wait_round_reaches e ns ip woken s p ai : env_wf e -> all_inv s -> snapshotInfoForIP e ns ip s = Some p ->
  infos s !! p = Some ai -> dialable e ai -> (wait_round e ns ip woken s).2 = true.
Proof.
  intros He Ha Hs Hp [Hcon Hwat]. unfold wait_round. rewrite Hs. unfold snapshotInfoForIP in Hs.
  destruct (snapshot_find _ _ s) as [[q ai']|] eqn:Hf; [|done]. cbn in Hs. injection Hs as ->.
  apply snapshot_find_Some in Hf as (_ & Hp' & k & Hk); [|done].
  destruct (all_inv_loadOrAdd p s k Ha Hk) as [H1 H2]. destruct (H2 ai Hp) as (c & Hc & Hci & Herr & Hinf).
  destruct (loadOrAddClient p s) as [s1 id]. cbn [fst snd] in *.
  assert (Hw : with_info id s1 = Some (c, ai)) by (apply with_info_Some; split; [done|]; congruence).
  destruct (ensureConnect_cases e id s1) as [(g & b & _ & _ & -> & _ & H)|(c' & ai2 & Hw' & _ & Hn & _)]; [by eapply H|].
  rewrite Hw in Hw'. injection Hw' as <- <-. congruence.
Qed.
Lemma wait_rounds_app ns ip pre r post : forall s, let s1 := r_between r (wait_rounds ns ip pre s).1 in
  (wait_round (r_env r) ns ip (r_woken r) s1).2 = true -> (wait_rounds ns ip (pre ++ r :: post) s).2 = IpReached.
Proof.
  induction pre as [|r0 pre IH]; intros s; cbn [app wait_rounds fst].
  - cbn zeta. destruct (wait_round _ _ _ _ _) as [s2 ok]. cbn. by intros ->.
  - destruct (wait_round (r_env r0) ns ip (r_woken r0) (r_between r0 s)) as [s2 ok]. destruct ok; [done|]. apply IH.
Qed.

(** C32. Waiting for the agent of an address succeeds whatever failed before: if in some round
    before the deadline the latest report has a pod with that address in the namespace and
    the pod can be reached, the call returns without an error.  Between the rounds the
    clients may change in any way that keeps their invariant. *)
Theorem WaitForIP_reaches ns ip pre r post s p ai :
  Forall (fun x => env_wf (r_env x) /\ forall s, all_inv s -> all_inv (r_between x s)) (pre ++ [r]) ->
  all_inv s -> ns <> ""%string -> disabled s = false -> watchesNamespace ns s = true ->
  let s1 := r_between r (wait_rounds ns ip pre (ip_waiter (ns, ip) s)).1 in
  snapshotInfoForIP (r_env r) ns ip s1 = Some p -> infos s1 !! p = Some ai -> dialable (r_env r) ai ->
  (WaitForIP ns ip (pre ++ r :: post) s).2 = IpReached.
Proof.
  intros Hr Ha Hns Hd Hw s1 Hs Hp Hdial. apply Forall_app in Hr as [Hpre Hr]. apply Forall_singleton in Hr as [He Hb].
  assert (Ha1 : all_inv s1).
  { apply Hb. assert (Ha0 : all_inv (ip_waiter (ns, ip) s)) by exact (all_inv_run_op (r_env r) (OpWaitIP ns ip) s He Ha).
    clear -Hpre Ha0. revert Ha0. generalize (ip_waiter (ns, ip) s). induction Hpre as [|r0 pre [He0 Hb0] _ IH]; intros s2 Ha; cbn [wait_rounds]; [done|].
    pose proof (all_inv_wait_round (r_env r0) ns ip (r_woken r0) (r_between r0 s2) He0 (Hb0 _ Ha)) as H.
    destruct (wait_round _ _ _ _ _) as [s3 ok]. cbn [fst] in H. destruct ok; [done|by apply IH]. }
  unfold WaitForIP. rewrite bool_decide_false by done. rewrite Hd, Hw. cbn [orb negb].
  pose proof (wait_rounds_app ns ip pre r post (ip_waiter (ns, ip) s) (wait_round_reaches _ _ _ _ _ _ _ He Ha1 Hs Hp Hdial)) as H.
  destruct (wait_rounds ns ip (pre ++ r :: post) (ip_waiter (ns, ip) s)) as [s2 res]. exact H.
Qed.
(** The pod is reported before the second round. *)
Definition late_round : round :=
  {| r_env := sample_env; r_between := fun s => run_ops [(sample_env, OpReceive sample_pods); (sample_env, OpUpdate [0; 1]%nat)] s; r_woken := true |}.
Definition first_round : round := {| r_env := sample_env; r_between := id; r_woken := false |}.
Lemma WaitForIP_reaches_witness : (WaitForIP "ns" (Addr4 167772162) [first_round; late_round] (NewClients "ns" [])).2 = IpReached.
Proof.
  apply (WaitForIP_reaches "ns" (Addr4 167772162) [first_round] late_round [] (NewClients "ns" []) 1 (mkPod "b" "ns" "wb" [10; 0; 0; 2] false)).
  - constructor; [|constructor; [|constructor]]; (split; [apply sample_env_wf|]); intros s Hs; [exact Hs|].
    apply all_inv_run_op; [apply sample_env_wf|]. by apply all_inv_run_op; [apply sample_env_wf|].
  - apply (run_ops_inv "ns" [] []). constructor.
  - discriminate.
  - reflexivity.
  - decide_it.
  - vm_compute. reflexivity.
  - vm_compute. reflexivity.
  - split; reflexivity.
Defined.

(** ** Choice of a client *)
Definition live_pod (s : clients) (id : nat) (ai : AgentPodInfo) : Prop :=
  exists k c, live s !! k = Some id /\ objs s !! id = Some c /\ infos s !! c_info c = Some ai.

Lemma get_client_spec s ip l : forall sec ter,
  (forall kid, kid ∈ l -> is_Some (with_info kid.2 s)) ->
  let pod k ai := exists kid c, kid ∈ l /\ kid.2 = k /\ with_info kid.2 s = Some (c, ai) in
  match get_client s ip l sec ter with
  | Some id => (exists ai, pod id ai /\ podIP ai = Some ip) \/
      (forall id' ai, pod id' ai -> podIP ai <> Some ip) /\
      ((exists ai, pod id ai /\ ai_Intercepted ai = true) \/ sec = Some id \/
       sec = None /\ (forall id' ai, pod id' ai -> ai_Intercepted ai = false) /\ ((exists ai, pod id ai) \/ ter = Some id))
  | None => l = [] /\ sec = None /\ ter = None
  end.
Proof.
  induction l as [|[k0 id0] l IH]; intros sec ter Hl; cbn [get_client].
  { destruct sec as [id|]; [|destruct ter as [id|]]; try done; right; (split; [|]).
    1,3: intros id' ai (kid & c & Hin & _); by apply elem_of_nil in Hin.
    - by right; left.
    - right; right. split_and!; [done| |by right]. intros id' ai (kid & c & Hin & _). by apply elem_of_nil in Hin. }
  destruct (Hl (k0, id0)) as [[c ai] Hw]; [left|]. cbn [snd] in Hw. rewrite Hw.
  assert (Hl' : forall kid, kid ∈ l -> is_Some (with_info kid.2 s)) by (intros kid Hk; apply Hl; by right).
  assert (Hhead : exists kid c, kid ∈ (k0, id0) :: l /\ kid.2 = id0 /\ with_info kid.2 s = Some (c, ai)) by (exists (k0, id0), c; split_and!; [left|done|done]).
  assert (Htail : forall id ai', (exists kid c, kid ∈ l /\ kid.2 = id /\ with_info kid.2 s = Some (c, ai')) ->
                  exists kid c, kid ∈ (k0, id0) :: l /\ kid.2 = id /\ with_info kid.2 s = Some (c, ai')).
  { intros id ai' (kid & c' & Hin & ? & ?). exists kid, c'. split_and!; [by right|done|done]. }
  assert (Hinv : forall id ai' (Q : Prop), (ai' = ai -> Q) -> ((exists kid c, kid ∈ l /\ kid.2 = id /\ with_info kid.2 s = Some (c, ai')) -> Q) ->
                 (exists kid c, kid ∈ (k0, id0) :: l /\ kid.2 = id /\ with_info kid.2 s = Some (c, ai')) -> Q).
  { intros id ai' Q H1 H2 (kid & c' & Hin & Hk & Hw'). apply elem_of_cons in Hin as [->|Hin]; [|by apply H2; eauto].
    cbn in Hw'. apply H1. congruence. }
  destruct (bool_decide (podIP ai = Some ip)) eqn:Hip; bools; [left; eauto|].
  destruct (ai_Intercepted ai) eqn:Hint.
  - specialize (IH (Some id0) ter Hl'). cbv zeta in IH |- *. destruct (get_client s ip l (Some id0) ter) as [id|]; [|naive_solver].
    destruct IH as [(ai' & H1 & H2)|(H1 & H2)]; [left; eauto|right].
    split; [intros id' ai' Hx; apply (Hinv id' ai'); [by intros ->|apply H1|exact Hx]|].
    destruct H2 as [(ai' & H2 & H3)|[[= ->]|[? _]]]; [left; eauto|left; eauto|done].
  - specialize (IH sec (Some id0) Hl'). cbv zeta in IH |- *. destruct (get_client s ip l sec (Some id0)) as [id|]; [|naive_solver].
    destruct IH as [(ai' & H1 & H2)|(H1 & H2)]; [left; eauto|right].
    split; [intros id' ai' Hx; apply (Hinv id' ai'); [by intros ->|apply H1|exact Hx]|].
    destruct H2 as [(ai' & H2 & H3)|[->|(-> & H2 & H3)]]; [left; eauto|by right; left|right; right].
    split_and!; [done| |].
    + intros id' ai' Hx. apply (Hinv id' ai'); [by intros ->|apply H2|exact Hx].
    + destruct H3 as [(ai' & H3)|[= ->]]; left; eauto.
Qed.

Lemma order_live_pod e s kid c ai : env_wf e -> kid ∈ order e (live s) -> with_info kid.2 s = Some (c, ai) -> live_pod s kid.2 ai.
Proof.
  intros He Hin Hw. destruct kid as [k id]. apply (order_elem e) in Hin; [|done]. apply with_info_Some in Hw as [? ?]. exists k, c. done.
Qed.
Lemma live_pod_order e s id ai : env_wf e -> live_pod s id ai -> exists kid c, kid ∈ order e (live s) /\ kid.2 = id /\ with_info kid.2 s = Some (c, ai).
Proof.
  intros He (k & c & Hk & Hc & Hi). exists (k, id), c. split_and!; [by apply (order_elem e)|done|by apply with_info_Some].
Qed.

(** The client that opens the tunnel to an address is chosen by the documented rules,
    whatever the order of the map: one whose pod has the address; if there is none, one
    whose pod is intercepted; if there is none, any; and none only when there are no
    clients. *)
Theorem GetClient_correct e ip s :
  env_wf e -> heap_inv s -> disabled s = false ->
  match cs_GetClient e ip s with
  | Some id => (exists ai, live_pod s id ai /\ podIP ai = Some ip) \/
      (forall id' ai, live_pod s id' ai -> podIP ai <> Some ip) /\
      ((exists ai, live_pod s id ai /\ ai_Intercepted ai = true) \/
       (forall id' ai, live_pod s id' ai -> ai_Intercepted ai = false) /\ exists ai, live_pod s id ai)
  | None => live s = ∅
  end.
Proof.
  intros He Hh Hd. unfold cs_GetClient. rewrite Hd.
  assert (Hl : forall kid, kid ∈ order e (live s) -> is_Some (with_info kid.2 s)).
  { intros [k id] Hk. apply (order_elem e) in Hk; [|done]. destruct (proj1 Hh _ _ Hk) as (c & ai & Hc & _ & _ & Hi & _).
    exists (c, ai). by apply with_info_Some. }
  assert (Hp : forall id ai, (exists kid c, kid ∈ order e (live s) /\ kid.2 = id /\ with_info kid.2 s = Some (c, ai)) <-> live_pod s id ai).
  { intros id ai. split; [intros (kid & c & Hin & <- & Hw); by eapply order_live_pod|by apply live_pod_order]. }
  pose proof (get_client_spec s ip (order e (live s)) None None Hl) as H. cbv zeta in H.
  destruct (get_client s ip (order e (live s)) None None) as [id|].
  - setoid_rewrite Hp in H. naive_solver.
  - destruct H as [H _]. apply map_eq. intros k. rewrite lookup_empty. destruct (live s !! k) as [id|] eqn:Hk; [|done].
    apply (order_elem e) in Hk; [|done]. rewrite H in Hk. by apply elem_of_nil in Hk.
Qed.
Lemma GetClient_correct_witness :
  let s := updateClients sample_env [0; 1]%nat sample_clients in
  cs_GetClient sample_env (Addr4 167772162) s = Some 1%nat /\
  ((exists ai, live_pod s 1 ai /\ podIP ai = Some (Addr4 167772162)) \/
   (forall id' ai, live_pod s id' ai -> podIP ai <> Some (Addr4 167772162)) /\
   ((exists ai, live_pod s 1 ai /\ ai_Intercepted ai = true) \/
    (forall id' ai, live_pod s id' ai -> ai_Intercepted ai = false) /\ exists ai, live_pod s 1 ai)).
Proof.
  intros s. assert (E : cs_GetClient sample_env (Addr4 167772162) s = Some 1%nat) by (vm_compute; reflexivity).
  split; [exact E|]. pose proof (GetClient_correct sample_env (Addr4 167772162) s) as H. rewrite E in H. apply H; [apply sample_env_wf| |vm_compute; reflexivity].
  apply (all_inv_run_op sample_env (OpUpdate [0; 1]%nat) sample_clients sample_env_wf).
  apply all_inv_receive. refine (conj _ (conj _ _)); [split_and!|split_and!|]; intros *; cbn; rewrite ?lookup_empty; done.
Defined.

(** ** The promise to the session

    What [streamCreator] may rely on: the client it gets for a workload belongs to a pod
    of that workload in the connected namespace, and the workload it gets for an address
    is that of a reported pod with this address. *)
Record agent_laws {P} (ac : AgentClients P) (serves : P -> string -> Prop) (reported : Addr -> string -> string -> Prop) : Prop := {
  law_workload : forall wl p, GetWorkloadClient ac wl = Some p -> serves p wl;
  law_ip : forall ip wl ns, WorkloadForIP ac ip = Some (wl, ns) -> reported ip wl ns;
  law_ip_total : forall ip wl ns, reported ip wl ns -> is_Some (WorkloadForIP ac ip)
}.
Definition pod_serves (s : clients) (id : nat) (wl : string) : Prop :=
  exists ai, live_pod s id ai /\ ai_WorkloadName ai = wl /\ ai_Namespace ai = s_Namespace s.
Definition pod_reported (s : clients) (ip : Addr) (wl ns : string) : Prop :=
  exists k p ai, snapshot s !! k = Some p /\ infos s !! p = Some ai /\ podIP ai = Some ip /\ ai_WorkloadName ai = wl /\ ai_Namespace ai = ns.

Lemma workload_client_spec s wl l id : workload_client s wl l = Some id ->
  exists kid c ai, kid ∈ l /\ kid.2 = id /\ with_info kid.2 s = Some (c, ai) /\ ai_WorkloadName ai = wl /\ ai_Namespace ai = s_Namespace s.
Proof.
  induction l as [|[k0 id0] l IH]; cbn [workload_client]; [done|].
  assert (Hr : workload_client s wl l = Some id -> exists kid c ai, kid ∈ (k0, id0) :: l /\ kid.2 = id /\ with_info kid.2 s = Some (c, ai) /\ ai_WorkloadName ai = wl /\ ai_Namespace ai = s_Namespace s).
  { intros (kid & c & ai & Hin & ?)%IH. exists kid, c, ai. split; [by right|done]. }
  destruct (with_info id0 s) as [[c ai]|] eqn:Hw; [|exact Hr]. destruct (_ && _) eqn:Hb; [|exact Hr]. bools.
  intros [= <-]. exists (k0, id0), c, ai. split_and!; try done. left.
Qed.
Lemma clients_promise e s : env_wf e -> heap_inv s -> agent_laws (as_AgentClients e s) (pod_serves s) (pod_reported s).
Proof.
  intros He Hh. split; cbn [GetWorkloadClient WorkloadForIP as_AgentClients].
  - intros wl id (kid & c & ai & Hin & <- & Hw & H1 & H2)%workload_client_spec. exists ai. split; [by eapply order_live_pod|done].
  - intros ip wl ns. unfold cs_WorkloadForIP. destruct (snapshot_find _ _ s) as [[p ai]|] eqn:Hf; [|done]. cbn. intros [= <- <-].
    apply snapshot_find_Some in Hf as (Hip & Hp & k & Hk); [|done]. bools. exists k, p, ai. done.
  - intros ip wl ns (k & p & ai & Hk & Hp & Hip & _). unfold cs_WorkloadForIP, snapshot_find.
    destruct (omap _ _) as [|x l] eqn:Ho; [|by eexists]. exfalso.
    assert (Hx : (p, ai) ∈ ([] : list (nat * AgentPodInfo))); [|by apply elem_of_nil in Hx]. rewrite <- Ho.
    apply list_elem_of_omap. exists (k, p). split; [by apply (order_elem e)|]. cbn. rewrite Hp. cbn. by rewrite bool_decide_true.
Qed.

(** ** Findings *)

(** The first caller that waits for the agent of a workload does not wait: the flag that
    [LoadOrCompute] returns tells that the channel existed before, and is taken to tell that
    it was made.  A second caller waits. *)
Lemma WaitForWorkload_does_not_wait e wl s : disabled s = false -> wlWaiters s !! wl = None -> has_workload e wl s = false ->
  exists s', WaitForWorkload e wl s = (s', WlReturn) /\ exists ch, (WaitForWorkload e wl s').2 = WlWait ch.
Proof.
  intros Hd Hn Hw. unfold WaitForWorkload. rewrite Hd, Hn, Hw. eexists. split; [done|]. cbn [disabled wlWaiters set_waiters].
  rewrite Hd, lookup_insert_eq. eauto.
Qed.

(** The end of a dial watch marks the pod info, which the map of the watch shares: a later
    report about another pod passes the marked info on, and the intercepted and reachable
    pod stays without a watch. *)
Definition watch_of (s : clients) (id : nat) : option bool := c_watch <$> objs s !! id.
Definition news_of_b : AgentPodInfo := mkPod "b" "ns" "wb" [10; 0; 0; 3] false.
Lemma ended_watch_not_restarted :
  let s1 := run_ops [(sample_env, OpReceive sample_pods); (sample_env, OpUpdate [0; 1]%nat)] (NewClients "ns" []) in
  let s2 := run_ops [(sample_env, OpLoopEnd 0); (sample_env, OpReceive [news_of_b]); (sample_env, OpUpdate [0; 2]%nat)] s1 in
  watch_of s1 0 = Some true /\ live s2 !! "a.ns"%string = Some 0%nat /\ watch_of s2 0 = Some false.
Proof. vm_compute. done. Qed.

(** When an agent stops being intercepted and is intercepted again before the first
    dial-wait loop has ended, the end of that loop cancels the second watch. *)
Definition quiet_pod : AgentPodInfo := mkPod "a" "ns" "wa" [10; 0; 0; 1] false.
Definition loud_pod : AgentPodInfo := mkPod "a" "ns" "wa" [10; 0; 0; 1] true.
Lemma old_loop_cancels_new_watch :
  let s1 := run_ops [(sample_env, OpReceive [loud_pod; quiet_pod; loud_pod]); (sample_env, OpUpdate [0]%nat);
                     (sample_env, OpUpdate [1]%nat); (sample_env, OpUpdate [2]%nat)] (NewClients "ns" []) in
  watch_of s1 0 = Some true /\ watch_of (loop_end 0 s1) 0 = Some false /\
  watch_of (updateClients sample_env [2]%nat (loop_end 0 s1)) 0 = Some false.
Proof. vm_compute. done. Qed.

(** Two tunnels that end at the same time: both goroutines load the count, one swap fails
    and is not repeated, and the client counts a tunnel that does not exist. *)
Lemma tunnel_end_not_counted :
  let s1 := run_ops [(sample_env, OpReceive [quiet_pod]); (sample_env, OpUpdate [0]%nat);
                     (sample_env, OpTunnel true 0); (sample_env, OpTunnel true 0)] (NewClients "ns" []) in
  tunnel_load 0 s1 = Some 2 /\ tunnel_load 0 (tunnel_cas 2 0 (tunnel_cas 2 0 s1)) = Some 1.
Proof. vm_compute. done. Qed.
