(* ===== verification/Message.v ===== *)
(** * Tunnel messages and the stream handshake (src/pkg/tunnel/message.go, stream.go,
      client_stream.go, server_stream.go)

    A tunnel message is a byte slice: a code byte and a payload.  The first
    message of a stream carries the protocol version, two durations, the
    connection identifier and the session, each as a varint or as a varint
    length followed by bytes.  Go slices keep a capacity beyond their length
    and [s[:v]] may reach into it, so the decoder is modelled on slices that
    carry their spare bytes.  The gRPC transport is a parameter of the two
    handshake functions: the results of its [Send] and [Recv] calls. *)
From S2P Require Import Prelude NetIP GoStrings PortTypes ConnId.
Local Open Scope Z_scope.

(** ** Varints of encoding/binary *)

(** [binary.PutUvarint(buf, x)] where [room] is [len(buf)]: the bytes written,
    or the index-out-of-range panic. *)
Fixpoint PutUvarint {E} (room : nat) (x : Z) : Go E (list Z) :=
  match room with
  | O => Panic
  | S room' =>
      if x <? 128 then Ret [u8 x]
      else b ← PutUvarint room' (Z.shiftr x 7); mret (Z.lor (u8 x) 128 :: b)
  end.

(** [binary.Uvarint]: the value and the number of bytes read; 0 means the
    buffer is too small and a negative count an overflow. *)
Fixpoint uvarint_loop (buf : list Z) (i : nat) (x s : Z) : Z * Z :=
  match buf with
  | [] => (0, 0)
  | b :: rest =>
      if Nat.eqb i 10 then (0, - Z.of_nat (S i))
      else if b <? 128 then
        if Nat.eqb i 9 && (1 <? b) then (0, - Z.of_nat (S i))
        else (Z.lor x (u64 (Z.shiftl b s)), Z.of_nat (S i))
      else uvarint_loop rest (S i) (Z.lor x (u64 (Z.shiftl (Z.land b 127) s))) (s + 7)
  end.
Definition Uvarint (buf : list Z) : Z * Z := uvarint_loop buf 0 0 0.

(** ** Byte slices with capacity *)

(** A Go slice: its elements and the bytes of the backing array after them. *)
Record Slice := mkSlice { sl_vis : list Z; sl_spare : list Z }.

(** [s[i:]], in range up to the length. *)
Definition from_ix {E} (s : Slice) (i : Z) : Go E Slice :=
  if i <=? Z.of_nat (length (sl_vis s)) then Ret (mkSlice (drop (Z.to_nat i) (sl_vis s)) (sl_spare s)) else Panic.
(** [s[:j]], in range up to the capacity. *)
Definition upto_ix {E} (s : Slice) (j : Z) : Go E (list Z) :=
  if j <=? Z.of_nat (length (sl_vis s) + length (sl_spare s)) then Ret (take (Z.to_nat j) (sl_vis s ++ sl_spare s))
  else Panic.

(** ** Message codes and messages *)

Definition Normal : Z := 0.
Definition streamInfo : Z := 1.
Definition streamOK : Z := 2.
Definition closeSend : Z := 3.
Definition DialOK : Z := 4.
Definition DialReject : Z := 5.
Definition Disconnect : Z := 6.
Definition KeepAlive : Z := 7.
Definition Session : Z := 8.

Local Open Scope string_scope.
Definition MessageCode_String (c : Z) : string :=
  if (c =? streamInfo)%Z then "STREAM_INFO"
  else if (c =? streamOK)%Z then "STREAM_OK"
  else if (c =? closeSend)%Z then "CLOSE_SEND"
  else if (c =? DialOK)%Z then "DIAL_OK"
  else if (c =? DialReject)%Z then "DIAL_REJECT"
  else if (c =? Disconnect)%Z then "DISCONNECT_OK"
  else if (c =? KeepAlive)%Z then "KEEP_ALIVE"
  else if (c =? Session)%Z then "SESSION"
  else "** unknown control code: " +:+ itoa c +:+ " **".
Local Close Scope string_scope.

(** [msg.Code] and [msg.Payload]: both panic on an empty message. *)
Definition msg_Code {E} (c : list Z) : Go E Z := match c with [] => Panic | b :: _ => Ret b end.
Definition msg_Payload {E} (c : list Z) : Go E (list Z) := match c with [] => Panic | _ :: pl => Ret pl end.

Definition msg_String {E} (c : list Z) : Go E string :=
  code ← msg_Code c;
  pl ← msg_Payload c;
  let len := itoa (Z.of_nat (length pl)) in
  mret (if code =? Normal then ("len " +:+ len)%string
        else ("code " +:+ MessageCode_String code +:+ ", len " +:+ len)%string).

Definition makeMessage (code : Z) (payloadLength : nat) : list Z := u8 code :: replicate payloadLength 0.

(** [copy(c.Payload(), payload)] overwrites as many bytes as both have. *)
Definition copy_into (dst src : list Z) : list Z := take (length dst) src ++ drop (length src) dst.

Definition NewMessage (code : Z) (payload : list Z) : list Z :=
  if Nat.ltb 0 (length payload) then
    match makeMessage code (length payload) with
    | c0 :: dst => c0 :: copy_into dst payload
    | [] => []
    end
  else [u8 code].

Definition Version : Z := 2.

(** Durations are int64; [uint64(d)] is their two's complement. *)
Definition int64 (x : Z) : Prop := - 2 ^ 63 <= x < 2 ^ 63.
Definition to_int64 (v : Z) : Z := if v <? 2 ^ 63 then v else v - 2 ^ 64.

Definition StreamInfoMessage {E} (id : ConnID) (sessionID : list Z) (callDelay dialTimeout : Z) : Go E (list Z) :=
  v ← PutUvarint 8 Version;
  d ← PutUvarint 8 (u64 callDelay);
  t ← PutUvarint 8 (u64 dialTimeout);
  n ← PutUvarint 8 (Z.of_nat (length id));
  k ← PutUvarint 8 (Z.of_nat (length sessionID));
  mret (u8 streamInfo :: v ++ d ++ t ++ n ++ id ++ k ++ sessionID).

Definition StreamOKMessage {E} : Go E (list Z) :=
  b ← PutUvarint 4 Version;
  mret (take (S (length b)) (u8 streamOK :: copy_into (replicate 4 0) b)).

Definition SessionMessage (sessionID : list Z) : list Z := NewMessage Session sessionID.
Definition GetSession {E} (m : list Z) : Go E (list Z) := msg_Payload m.

Definition getVersion {E} (m : list Z) : Go E Z := pl ← msg_Payload m; mret (u16 (fst (Uvarint pl))).

(** ** The stream and its first message *)

Record stream := mkStream {
  s_tag : string;
  s_id : ConnID;
  dialTimeout : Z;
  roundtripLatency : Z;
  s_sessionID : list Z;
  syncRatio : Z;
  ackWindow : Z;
  peerVersion : Z
}.

Definition newStream (tag : string) : stream := mkStream tag [] 0 0 [] 8 1 0.

Definition set_peerVersion (v : Z) (s : stream) : stream :=
  mkStream (s_tag s) (s_id s) (dialTimeout s) (roundtripLatency s) (s_sessionID s) (syncRatio s) (ackWindow s) v.
Definition set_roundtripLatency (v : Z) (s : stream) : stream :=
  mkStream (s_tag s) (s_id s) (dialTimeout s) v (s_sessionID s) (syncRatio s) (ackWindow s) (peerVersion s).
Definition set_dialTimeout (v : Z) (s : stream) : stream :=
  mkStream (s_tag s) (s_id s) v (roundtripLatency s) (s_sessionID s) (syncRatio s) (ackWindow s) (peerVersion s).
Definition set_id (v : ConnID) (s : stream) : stream :=
  mkStream (s_tag s) v (dialTimeout s) (roundtripLatency s) (s_sessionID s) (syncRatio s) (ackWindow s) (peerVersion s).
Definition set_sessionID (v : list Z) (s : stream) : stream :=
  mkStream (s_tag s) (s_id s) (dialTimeout s) (roundtripLatency s) v (syncRatio s) (ackWindow s) (peerVersion s).

Inductive stream_error :=
| GrpcError (what : string)
| ErrClosed
| MalformedConnect
| NotStreamOK
| NotStreamInfo
| ReadFailed (what : string) (cause : stream_error)
| ParseFailed (cause : stream_error).

(** One varint of the message: its value and the slice after it. *)
Definition next_uvarint (pl : Slice) : Go stream_error (Z * Slice) :=
  let '(v, n) := Uvarint (sl_vis pl) in
  if n <=? 0 then Fail MalformedConnect else rest ← from_ix pl n; mret (v, rest).

(** The length field of a byte string.  It is compared with the length of the
    slice that still holds the length field itself. *)
Definition next_length (pl : Slice) : Go stream_error (Z * Slice) :=
  let '(v, n) := Uvarint (sl_vis pl) in
  if (n <=? 0) || (Z.of_nat (length (sl_vis pl)) <? v) then Fail MalformedConnect
  else rest ← from_ix pl n; mret (v, rest).

(** The fields set before an error are those of a stream both callers drop. *)
Definition setConnectInfo (m : Slice) (s : stream) : Go stream_error stream :=
  _ ← msg_Code (sl_vis m);
  pl ← from_ix m 1;
  '(v, pl) ← next_uvarint pl;
  let s := set_peerVersion (u16 v) s in
  '(v, pl) ← next_uvarint pl;
  let s := set_roundtripLatency (to_int64 v) s in
  '(v, pl) ← next_uvarint pl;
  let s := set_dialTimeout (to_int64 v) s in
  '(v, pl) ← next_length pl;
  id ← upto_ix pl v;
  let s := set_id id s in
  pl ← from_ix pl v;
  '(v, pl) ← next_length pl;
  sid ← upto_ix pl v;
  mret (set_sessionID sid s).

(** What a [Recv] or [Send] of the transport returned. *)
Abbreviation Recv := (string + Slice)%type.
Abbreviation SendErr := (option string).

Definition stream_Receive (r : Recv) : Go stream_error Slice :=
  match r with
  | inl e => Fail (GrpcError e)
  | inr m => code ← msg_Code (sl_vis m); if code =? closeSend then Fail ErrClosed else mret m
  end.

Definition stream_Send (r : SendErr) : Go stream_error () :=
  match r with Some e => Fail (GrpcError e) | None => mret () end.

(** What a handshake does on the transport, in order. *)
Inductive event := Sent (m : list Z) | Closed.

(** [NewClientStream]: the transport calls it makes and what it returns.  A
    stream that fails after the first message is closed. *)
Definition NewClientStream (tag : string) (id : ConnID) (sessionID : list Z) (callDelay dialTimeout : Z)
    (sent : SendErr) (reply : Recv) : list event * Go stream_error stream :=
  let s := set_sessionID sessionID (set_dialTimeout dialTimeout (set_roundtripLatency callDelay (set_id id (newStream tag)))) in
  match StreamInfoMessage id sessionID callDelay dialTimeout with
  | Fail e => ([], Fail e)
  | Panic => ([], Panic)
  | Ret m =>
      match stream_Send sent with
      | Fail e => ([Sent m; Closed], Fail e)
      | Panic => ([Sent m], Panic)
      | Ret _ =>
          match stream_Receive reply with
          | Fail e => ([Sent m; Closed], Fail (ReadFailed "StreamOK" e))
          | Panic => ([Sent m], Panic)
          | Ret r =>
              match msg_Code (sl_vis r) with
              | Ret code =>
                  if negb (code =? streamOK) then ([Sent m; Closed], Fail NotStreamOK)
                  else ([Sent m], v ← getVersion (sl_vis r); mret (set_peerVersion v s))
              | Fail e => ([Sent m], Fail e)
              | Panic => ([Sent m], Panic)
              end
          end
      end
  end.

(** [NewServerStream]: the reply it sends, if it comes that far, and what it
    returns. *)
Definition NewServerStream (tag : string) (first : Recv) (sent : SendErr) : list event * Go stream_error stream :=
  match stream_Receive first with
  | Fail e => ([], Fail (ReadFailed "StreamInfo" e))
  | Panic => ([], Panic)
  | Ret m =>
      match msg_Code (sl_vis m) with
      | Ret code =>
          if negb (code =? streamInfo) then ([], Fail NotStreamInfo)
          else match setConnectInfo m (newStream tag) with
               | Fail e => ([], Fail (ParseFailed e))
               | Panic => ([], Panic)
               | Ret s =>
                   match StreamOKMessage with
                   | Ret ok => ([Sent ok], _ ← stream_Send sent; mret s)
                   | Fail e => ([], Fail e)
                   | Panic => ([], Panic)
                   end
               end
      | Fail e => ([], Fail e)
      | Panic => ([], Panic)
      end
  end.
