(* ===== verification/MessageSpec.v ===== *)
(** * Correctness of the tunnel messages and of the handshake

    Varints decode to what was encoded; the two ends of a stream agree on the
    connection, the session and the timeouts; the encoder panics exactly on
    durations its 8-byte buffer cannot hold; and the decoder's length check is
    one field too generous, so a crafted message makes it panic. *)
From S2P Require Import Prelude NetIP GoStrings PortTypes ConnId Message.
Local Open Scope Z_scope.

(** ** Varints *)

Lemma PutUvarint_fits {E} room x : (0 < room)%nat -> 0 <= x < 2 ^ (7 * Z.of_nat room) ->
  exists b, @PutUvarint E room x = Ret b /\ (0 < length b <= room)%nat.
Proof.
  revert x. induction room as [|room IH]; intros x Hr Hx; [lia|]. cbn [PutUvarint].
  destruct (Z.ltb_spec x 128).
  { eexists. split; [reflexivity|]. simpl. lia. }
  destruct room as [|room].
  { exfalso. change (2 ^ (7 * Z.of_nat 1)) with 128 in Hx. lia. }
  destruct (IH (Z.shiftr x 7)) as (b & Hb & Hlen); [lia| |].
  { rewrite Z.shiftr_div_pow2 by lia. split; [apply Z.div_pos; lia|].
    apply Z.div_lt_upper_bound; [lia|]. rewrite <- Z.pow_add_r by lia.
    replace (7 + 7 * Z.of_nat (S room)) with (7 * Z.of_nat (S (S room))) by lia. lia. }
  rewrite Hb. eexists. split; [reflexivity|]. cbn [length]. lia.
Qed.

Lemma PutUvarint_overflows {E} room x : 2 ^ (7 * Z.of_nat room) <= x -> @PutUvarint E room x = Panic.
Proof.
  revert x. induction room as [|room IH]; intros x Hx; [reflexivity|]. cbn [PutUvarint].
  assert (Hp : 2 ^ (7 * Z.of_nat (S room)) = 128 * 2 ^ (7 * Z.of_nat room)).
  { replace (7 * Z.of_nat (S room)) with (7 + 7 * Z.of_nat room) by lia. rewrite Z.pow_add_r by lia. reflexivity. }
  assert (0 < 2 ^ (7 * Z.of_nat room)) by (apply Z.pow_pos_nonneg; lia).
  destruct (Z.ltb_spec x 128); [lia|].
  rewrite IH; [reflexivity|].
  rewrite Z.shiftr_div_pow2 by lia. apply Z.div_le_lower_bound; lia.
Qed.

(** The low seven bits that a continuation byte carries. *)
Lemma continuation_bits x : Z.land (Z.lor (u8 x) 128) 127 = x mod 128.
Proof.
  rewrite Z.land_lor_distr_l. change (Z.land 128 127) with 0. rewrite Z.lor_0_r.
  change 127 with (Z.ones 7). rewrite Z.land_ones by lia. unfold wrap.
  change (2 ^ 8) with (2 * 2 ^ 7). change (2 ^ 7) with 128.
  rewrite (Z.mul_comm 2), Z.rem_mul_r by lia.
  rewrite (Z.mul_comm 128), Z.mod_add by lia. apply Z.mod_mod. lia.
Qed.

Lemma continuation_high x : 128 <= Z.lor (u8 x) 128.
Proof.
  assert (0 <= u8 x) by (apply Z.mod_pos_bound; lia).
  rewrite <- (Z.sub_0_r (Z.lor _ _)), <- (Z.sub_diag (Z.land (u8 x) 128)).
  pose proof (Z.lor_ldiff_and 128 (u8 x)) as Hl. pose proof (Z.add_nocarry_lxor (Z.ldiff (u8 x) 128) 128) as Hx.
  assert (Hd : Z.lor (u8 x) 128 = Z.lor (Z.ldiff (u8 x) 128) 128).
  { apply Z.bits_inj'. intros n Hn. rewrite !Z.lor_spec, Z.ldiff_spec. by destruct (Z.testbit _ n), (Z.testbit 128 n). }
  assert (Hland : Z.land (Z.ldiff (u8 x) 128) 128 = 0).
  { apply Z.bits_inj'. intros n Hn. rewrite Z.land_spec, Z.ldiff_spec, Z.bits_0. by destruct (Z.testbit _ n), (Z.testbit 128 n). }
  rewrite Hd, <- Z.lxor_lor by exact Hland. rewrite <- Hx by exact Hland.
  assert (0 <= Z.ldiff (u8 x) 128) by (apply Z.ldiff_nonneg; lia). lia.
Qed.

Lemma lor_shiftl x y s : 0 <= s -> 0 <= x < 2 ^ s -> 0 <= y -> y * 2 ^ s < 2 ^ 64 ->
  Z.lor x (u64 (Z.shiftl y s)) = x + y * 2 ^ s.
Proof.
  intros Hs Hx Hy Hb. rewrite Z.shiftl_mul_pow2 by lia. rewrite (wrap_id 64) by (split; [nia|lia]).
  rewrite Z.lor_comm, lor_add by (try split; lia). lia.
Qed.

Lemma uvarint_put {E} room v b rest i x :
  @PutUvarint E room v = Ret b -> 0 <= v < 2 ^ (64 - 7 * Z.of_nat i) -> (i <= 9)%nat -> 0 <= x < 2 ^ (7 * Z.of_nat i) ->
  uvarint_loop (b ++ rest) i x (7 * Z.of_nat i) = (x + v * 2 ^ (7 * Z.of_nat i), Z.of_nat (i + length b)).
Proof.
  revert v b i x. induction room as [|room IH]; intros v b i x Hput Hv Hi Hx; [discriminate Hput|].
  cbn [PutUvarint] in Hput.
  assert (Hp64 : 2 ^ (64 - 7 * Z.of_nat i) * 2 ^ (7 * Z.of_nat i) = 2 ^ 64) by (rewrite <- Z.pow_add_r by lia; f_equal; lia).
  assert (Hpos : 0 < 2 ^ (7 * Z.of_nat i)) by (apply Z.pow_pos_nonneg; lia).
  assert (Hne : Nat.eqb i 10 = false) by (apply Nat.eqb_neq; lia).
  destruct (Z.ltb_spec v 128) as [Hlt|Hge].
  - injection Hput as <-. assert (Hu : u8 v = v) by (apply Z.mod_small; change (2 ^ 8) with 256; lia). rewrite Hu.
    cbn [app uvarint_loop]. rewrite Hne. destruct (Z.ltb_spec v 128); [|lia].
    assert (Hlast : Nat.eqb i 9 && (1 <? v) = false).
    { destruct (Nat.eqb_spec i 9) as [->|]; [|reflexivity]. change (2 ^ (64 - 7 * Z.of_nat 9)) with 2 in Hv.
      simpl. apply Z.ltb_ge. lia. }
    rewrite Hlast, lor_shiftl by nia. f_equal. simpl. lia.
  - destruct (@PutUvarint E room (Z.shiftr v 7)) as [b'| |] eqn:Hb'; try discriminate Hput. injection Hput as <-.
    assert (Hi8 : (i <= 8)%nat).
    { assert (128 < 2 ^ (64 - 7 * Z.of_nat i)) as Hlt by lia. change 128 with (2 ^ 7) in Hlt.
      apply Z.pow_lt_mono_r_iff in Hlt; lia. }
    cbn [app uvarint_loop]. rewrite Hne.
    pose proof (continuation_high v). destruct (Z.ltb_spec (Z.lor (u8 v) 128) 128); [lia|].
    rewrite continuation_bits. pose proof (Z.mod_pos_bound v 128 ltac:(lia)).
    assert (Hdm : v = 128 * (v / 128) + v mod 128) by (apply Z.div_mod; lia).
    assert (0 <= v / 128) by (apply Z.div_pos; lia).
    rewrite lor_shiftl by nia.
    replace (7 * Z.of_nat i + 7) with (7 * Z.of_nat (S i)) by lia.
    assert (Hps : 2 ^ (7 * Z.of_nat (S i)) = 128 * 2 ^ (7 * Z.of_nat i)).
    { replace (7 * Z.of_nat (S i)) with (7 + 7 * Z.of_nat i) by lia. rewrite Z.pow_add_r by lia. reflexivity. }
    assert (Hpv : 2 ^ (64 - 7 * Z.of_nat i) = 128 * 2 ^ (64 - 7 * Z.of_nat (S i))).
    { replace (64 - 7 * Z.of_nat i) with (7 + (64 - 7 * Z.of_nat (S i))) by lia. rewrite Z.pow_add_r by lia. reflexivity. }
    rewrite Z.shiftr_div_pow2 in Hb' by lia. change (2 ^ 7) with 128 in Hb'.
    rewrite (IH (v / 128)) with (b := b') by (try exact Hb'; nia).
    f_equal; [nia|]. cbn [length]. lia.
Qed.

Lemma Uvarint_put {E} room v b rest : @PutUvarint E room v = Ret b -> 0 <= v < 2 ^ 64 ->
  Uvarint (b ++ rest) = (v, Z.of_nat (length b)).
Proof.
  intros Hput Hv. unfold Uvarint. pose proof (uvarint_put room v b rest 0 0 Hput) as H.
  change (7 * Z.of_nat 0) with 0 in H. change (64 - 0) with 64 in H. change (2 ^ 0) with 1 in H.
  rewrite H by lia. f_equal; lia.
Qed.

(** The bytes a decoded varint occupies are bytes of the buffer. *)
Lemma uvarint_loop_count buf i x s v n : uvarint_loop buf i x s = (v, n) -> n <= Z.of_nat (i + length buf).
Proof.
  revert i x s. induction buf as [|b buf IH]; intros i x s; cbn [uvarint_loop].
  - intros [= _ <-]. lia.
  - destruct (Nat.eqb i 10); [intros [= _ <-]; lia|]. destruct (b <? 128).
    + destruct (_ && _); intros [= _ <-]; cbn [length]; lia.
    + intros H%IH. cbn [length]. lia.
Qed.

(** ** The first message *)

Lemma from_ix_app {E} b rest spare n : n = Z.of_nat (length b) ->
  @from_ix E (mkSlice (b ++ rest) spare) n = Ret (mkSlice rest spare).
Proof.
  intros ->. unfold from_ix. cbn [sl_vis sl_spare]. rewrite length_app.
  destruct (Z.leb_spec (Z.of_nat (length b)) (Z.of_nat (length b + length rest))); [|lia].
  by rewrite Nat2Z.id, drop_app_length.
Qed.

Lemma from_ix_cons {E} x rest spare : @from_ix E (mkSlice (x :: rest) spare) 1 = Ret (mkSlice rest spare).
Proof. exact (from_ix_app [x] rest spare 1 eq_refl). Qed.

Lemma upto_ix_app {E} b rest spare n : n = Z.of_nat (length b) ->
  @upto_ix E (mkSlice (b ++ rest) spare) n = Ret b.
Proof.
  intros ->. unfold upto_ix. cbn [sl_vis sl_spare]. rewrite length_app.
  destruct (Z.leb_spec (Z.of_nat (length b)) (Z.of_nat (length b + length rest + length spare))); [|lia].
  by rewrite Nat2Z.id, <- app_assoc, take_app_length.
Qed.

Lemma upto_ix_all {E} b spare : @upto_ix E (mkSlice b spare) (Z.of_nat (length b)) = Ret b.
Proof. rewrite <- (app_nil_r b) at 1. by apply upto_ix_app. Qed.

Lemma next_uvarint_put {E} room v b rest spare : @PutUvarint E room v = Ret b -> 0 <= v < 2 ^ 64 -> b <> [] ->
  next_uvarint (mkSlice (b ++ rest) spare) = Ret (v, mkSlice rest spare).
Proof.
  intros Hput Hv Hb. unfold next_uvarint. cbn [sl_vis]. rewrite (Uvarint_put _ _ _ _ Hput Hv).
  destruct b as [|b0 b]; [done|]. destruct (Z.leb_spec (Z.of_nat (length (b0 :: b))) 0); [cbn [length] in *; lia|].
  by rewrite from_ix_app.
Qed.

Lemma next_length_put {E} room v b rest spare : @PutUvarint E room v = Ret b -> 0 <= v < 2 ^ 64 -> b <> [] ->
  v <= Z.of_nat (length b + length rest) ->
  next_length (mkSlice (b ++ rest) spare) = Ret (v, mkSlice rest spare).
Proof.
  intros Hput Hv Hb Hle. unfold next_length. cbn [sl_vis]. rewrite (Uvarint_put _ _ _ _ Hput Hv).
  destruct b as [|b0 b]; [done|]. destruct (Z.leb_spec (Z.of_nat (length (b0 :: b))) 0); [cbn [length] in *; lia|].
  rewrite length_app. destruct (Z.ltb_spec (Z.of_nat (length (b0 :: b) + length rest)) v); [lia|].
  cbn [orb]. by rewrite from_ix_app.
Qed.

(** What the encoder's 8-byte buffer holds. *)
Definition short (l : list Z) : Prop := Z.of_nat (length l) < 2 ^ 56.

Lemma put8 {E} v : 0 <= v < 2 ^ 56 -> exists b, @PutUvarint E 8 v = Ret b /\ b <> [].
Proof.
  intros Hv. destruct (@PutUvarint_fits E 8 v) as (b & Hb & Hlen); [lia|exact Hv|].
  exists b. split; [exact Hb|]. intros ->. simpl in Hlen. lia.
Qed.

Lemma u64_small d : 0 <= d < 2 ^ 56 -> u64 d = d.
Proof. intros H. apply wrap_id. split; [lia|]. change (2 ^ 64) with 18446744073709551616. lia. Qed.

Lemma to_int64_small d : 0 <= d < 2 ^ 56 -> to_int64 d = d.
Proof. intros H. unfold to_int64. destruct (Z.ltb_spec d (2 ^ 63)); [reflexivity|lia]. Qed.

(** The stream that the server builds from the client's first message. *)
Definition connected (tag : string) (id : ConnID) (sid : list Z) (delay timeout : Z) : stream :=
  mkStream tag id timeout delay sid 8 1 Version.

Lemma setConnectInfo_StreamInfo tag id sid delay timeout m spare :
  short id -> short sid -> 0 <= delay < 2 ^ 56 -> 0 <= timeout < 2 ^ 56 ->
  @StreamInfoMessage stream_error id sid delay timeout = Ret m ->
  setConnectInfo (mkSlice m spare) (newStream tag) = Ret (connected tag id sid delay timeout).
Proof.
  intros Hid Hsid Hd Ht. unfold short in *.
  destruct (@put8 stream_error Version) as (bv & Hv & Hv0); [unfold Version; lia|].
  destruct (@put8 stream_error _ Hd) as (bd & Hbd & Hd0). destruct (@put8 stream_error _ Ht) as (bt & Hbt & Ht0).
  destruct (@put8 stream_error (Z.of_nat (length id))) as (bn & Hbn & Hn0); [lia|].
  destruct (@put8 stream_error (Z.of_nat (length sid))) as (bk & Hbk & Hk0); [lia|].
  unfold StreamInfoMessage. rewrite (u64_small _ Hd), (u64_small _ Ht), Hv, Hbd, Hbt, Hbn, Hbk.
  cbn [mbind go_bind mret go_ret]. intros [= <-]. unfold setConnectInfo. cbn [sl_vis msg_Code mbind go_bind].
  rewrite from_ix_cons. cbn [mbind go_bind].
  rewrite (next_uvarint_put _ _ _ _ _ Hv) by (try exact Hv0; unfold Version; lia). cbn [mbind go_bind].
  rewrite (next_uvarint_put _ _ _ _ _ Hbd) by (try exact Hd0; lia). cbn [mbind go_bind].
  rewrite (next_uvarint_put _ _ _ _ _ Hbt) by (try exact Ht0; lia). cbn [mbind go_bind].
  rewrite (next_length_put _ _ _ _ _ Hbn) by (try exact Hn0; rewrite ?length_app; lia). cbn [mbind go_bind].
  rewrite upto_ix_app by reflexivity. cbn [mbind go_bind]. rewrite from_ix_app by reflexivity. cbn [mbind go_bind].
  rewrite (next_length_put _ _ _ _ _ Hbk) by (try exact Hk0; lia). cbn [mbind go_bind].
  rewrite upto_ix_all. cbn [mbind go_bind mret go_ret].
  rewrite !to_int64_small by assumption. reflexivity.
Qed.

Lemma StreamInfo_ret {E} id sid delay timeout :
  short id -> short sid -> 0 <= delay < 2 ^ 56 -> 0 <= timeout < 2 ^ 56 ->
  exists m, @StreamInfoMessage E id sid delay timeout = Ret (streamInfo :: m).
Proof.
  intros Hid Hsid Hd Ht. unfold short in *.
  destruct (@put8 E Version) as (bv & Hv & _); [unfold Version; lia|].
  destruct (@put8 E _ Hd) as (bd & Hbd & _). destruct (@put8 E _ Ht) as (bt & Hbt & _).
  destruct (@put8 E (Z.of_nat (length id))) as (bn & Hbn & _); [lia|].
  destruct (@put8 E (Z.of_nat (length sid))) as (bk & Hbk & _); [lia|].
  unfold StreamInfoMessage. rewrite (u64_small _ Hd), (u64_small _ Ht), Hv, Hbd, Hbt, Hbn, Hbk.
  eexists. reflexivity.
Qed.

Lemma StreamOK_value {E} : @StreamOKMessage E = Ret [2; 2].
Proof. reflexivity. Qed.

(** The handshake: what the client sends makes the server's stream carry the
    client's connection, session, latency and timeout, and the server's answer
    makes the client's stream carry the same and the server's version.  Neither
    side depends on what lies behind the received bytes in memory. *)
Theorem handshake_agrees (ctag stag : string) (id : ConnID) (sid : list Z) (delay timeout : Z) (sp1 sp2 : list Z) :
  short id -> short sid -> 0 <= delay < 2 ^ 56 -> 0 <= timeout < 2 ^ 56 ->
  exists m ok,
    NewServerStream stag (inr (mkSlice m sp1)) None = ([Sent ok], Ret (connected stag id sid delay timeout)) /\
    NewClientStream ctag id sid delay timeout None (inr (mkSlice ok sp2)) =
      ([Sent m], Ret (connected ctag id sid delay timeout)).
Proof.
  intros Hid Hsid Hd Ht. destruct (@StreamInfo_ret stream_error id sid delay timeout) as [m Hm]; try assumption.
  exists (streamInfo :: m), [2; 2]. split.
  - unfold NewServerStream, stream_Receive. cbn [sl_vis msg_Code mbind go_bind].
    change (streamInfo =? closeSend) with false. cbn iota. cbn [mret go_ret sl_vis msg_Code].
    change (negb (streamInfo =? streamInfo)) with false. cbn iota.
    rewrite (setConnectInfo_StreamInfo _ _ _ _ _ _ _ Hid Hsid Hd Ht Hm). reflexivity.
  - unfold NewClientStream. rewrite Hm. reflexivity.
Qed.

Lemma handshake_agrees_witness : exists m ok,
  NewServerStream "srv" (inr (mkSlice m [9; 9])) None = ([Sent ok], Ret (connected "srv" [1; 2; 3] [65] 300 (2 ^ 55))) /\
  NewClientStream "cli" [1; 2; 3] [65] 300 (2 ^ 55) None (inr (mkSlice ok [7])) =
    ([Sent m], Ret (connected "cli" [1; 2; 3] [65] 300 (2 ^ 55))).
Proof. apply (handshake_agrees "cli" "srv" [1; 2; 3] [65] 300 (2 ^ 55) [9; 9] [7]); vm_compute; intuition congruence. Defined.

(** The 8-byte varint buffer: the first message cannot be built, and the client
    panics, exactly when a duration is negative (its two's complement needs ten
    bytes) or is 2^56 ns (about 2.3 years) or more. *)
Theorem StreamInfoMessage_panics (id : ConnID) (sid : list Z) (delay timeout : Z) :
  short id -> short sid -> int64 delay -> int64 timeout ->
  (@StreamInfoMessage stream_error id sid delay timeout = Panic <->
   ~ (0 <= delay < 2 ^ 56 /\ 0 <= timeout < 2 ^ 56)).
Proof.
  intros Hid Hsid Hd Ht. split.
  - intros Hp [Hd' Ht']. destruct (@StreamInfo_ret stream_error id sid delay timeout) as [m Hm]; try assumption. congruence.
  - intros Hn. unfold StreamInfoMessage.
    assert (Hput : forall d, int64 d -> ~ (0 <= d < 2 ^ 56) -> @PutUvarint stream_error 8 (u64 d) = Panic).
    { intros d Hi Hd'. apply PutUvarint_overflows. change (7 * Z.of_nat 8) with 56. unfold int64 in Hi.
      destruct (decide (0 <= d)).
      - rewrite wrap_id; [lia|]. split; lia.
      - unfold wrap. rewrite <- (Z.mod_unique d (2 ^ 64) (-1) (d + 2 ^ 64)); lia. }
    destruct (decide (0 <= delay < 2 ^ 56)) as [Hd'|Hd'].
    + rewrite (Hput timeout) by (try exact Ht; tauto). destruct (@put8 stream_error _ Hd') as (bd & Hbd & _).
      rewrite (u64_small _ Hd'), Hbd. reflexivity.
    + rewrite (Hput delay) by assumption. reflexivity.
Qed.

Lemma StreamInfoMessage_panics_witness :
  @StreamInfoMessage stream_error [1] [2] (-1) 5 = Panic <-> ~ (0 <= -1 < 2 ^ 56 /\ 0 <= 5 < 2 ^ 56).
Proof. apply (StreamInfoMessage_panics [1] [2] (-1) 5); vm_compute; intuition congruence. Defined.

(** The length of the connection identifier is checked against a slice that
    still contains the length field.  A message whose identifier is cut short by
    no more bytes than that field takes passes the check and panics, whatever
    memory follows it. *)
Theorem setConnectInfo_overrun (a b c k : Z) (ba bb bc bk rest spare : list Z) (s : stream) :
  PutUvarint 8 a = @Ret stream_error _ ba -> PutUvarint 8 b = @Ret stream_error _ bb ->
  PutUvarint 8 c = @Ret stream_error _ bc -> PutUvarint 8 k = @Ret stream_error _ bk ->
  0 <= a < 2 ^ 56 -> 0 <= b < 2 ^ 56 -> 0 <= c < 2 ^ 56 -> 0 <= k < 2 ^ 56 ->
  Z.of_nat (length rest) < k <= Z.of_nat (length bk + length rest) ->
  setConnectInfo (mkSlice (streamInfo :: ba ++ bb ++ bc ++ bk ++ rest) spare) s = Panic.
Proof.
  intros Ha Hb Hc Hk Ra Rb Rc Rk Hlen.
  assert (Hne : forall v bv, 0 <= v < 2 ^ 56 -> @PutUvarint stream_error 8 v = Ret bv -> bv <> []).
  { intros v bv Rv Hv. destruct (@put8 stream_error v Rv) as (bv' & Hv' & ?). congruence. }
  unfold setConnectInfo. cbn [sl_vis msg_Code mbind go_bind].
  rewrite from_ix_cons. cbn [mbind go_bind].
  rewrite (next_uvarint_put _ _ _ _ _ Ha) by (eauto; lia). cbn [mbind go_bind].
  rewrite (next_uvarint_put _ _ _ _ _ Hb) by (eauto; lia). cbn [mbind go_bind].
  rewrite (next_uvarint_put _ _ _ _ _ Hc) by (eauto; lia). cbn [mbind go_bind].
  rewrite (next_length_put _ _ _ _ _ Hk) by (eauto; lia). cbn [mbind go_bind].
  unfold upto_ix. case_match; [|reflexivity]. cbn [mbind go_bind]. unfold from_ix. cbn [sl_vis].
  destruct (Z.leb_spec k (Z.of_nat (length rest))); [lia|reflexivity].
Qed.

Lemma setConnectInfo_overrun_witness :
  setConnectInfo (mkSlice (streamInfo :: [2] ++ [0] ++ [0] ++ [1] ++ []) [7; 7]) (newStream "srv") = Panic.
Proof. apply (setConnectInfo_overrun 2 0 0 1 [2] [0] [0] [1] [] [7; 7] (newStream "srv")); try reflexivity; vm_compute; intuition congruence. Defined.

Lemma from_ix_suffix {E} pl n pl' : @from_ix E pl n = Ret pl' ->
  exists p, sl_vis pl = p ++ sl_vis pl' /\ sl_spare pl' = sl_spare pl /\ length p = Z.to_nat n.
Proof.
  unfold from_ix. destruct (Z.leb_spec n (Z.of_nat (length (sl_vis pl)))); [|discriminate]. intros [= <-]. cbn [sl_vis sl_spare].
  exists (take (Z.to_nat n) (sl_vis pl)). rewrite take_drop, length_take. split_and!; [reflexivity..|lia].
Qed.

Lemma next_uvarint_suffix pl v pl' : next_uvarint pl = Ret (v, pl') ->
  exists p, sl_vis pl = p ++ sl_vis pl' /\ sl_spare pl' = sl_spare pl.
Proof.
  unfold next_uvarint. destruct (Uvarint _) as [w n]. destruct (n <=? 0); [discriminate|].
  intros (q & Hq & [= <- <-])%go_bind_ret. destruct (from_ix_suffix _ _ _ Hq) as (p & ? & ? & _). eauto.
Qed.

Lemma next_length_suffix pl v pl' : next_length pl = Ret (v, pl') ->
  exists p, sl_vis pl = p ++ sl_vis pl' /\ sl_spare pl' = sl_spare pl.
Proof.
  unfold next_length. destruct (Uvarint _) as [w n]. destruct (_ || _); [discriminate|].
  intros (q & Hq & [= <- <-])%go_bind_ret. destruct (from_ix_suffix _ _ _ Hq) as (p & ? & ? & _). eauto.
Qed.

Lemma upto_ix_prefix {E} pl v b : @upto_ix E pl v = Ret b -> sl_spare pl = [] ->
  exists q, sl_vis pl = b ++ q /\ length b = Z.to_nat v.
Proof.
  unfold upto_ix. intros H Hsp. rewrite Hsp, app_nil_r in H. simpl in H. rewrite Nat.add_0_r in H.
  destruct (Z.leb_spec v (Z.of_nat (length (sl_vis pl)))); [|discriminate H]. injection H as <-.
  exists (drop (Z.to_nat v) (sl_vis pl)). rewrite take_drop, length_take. split; [reflexivity|lia].
Qed.

(** Decoding reads the message only: when the received slice has no spare
    capacity, an accepted message contains the identifier and, after it, the
    session that the stream is given. *)
Theorem setConnectInfo_reads_message (m : list Z) (s s' : stream) :
  setConnectInfo (mkSlice m []) s = Ret s' ->
  exists p1 p2 p3, m = p1 ++ s_id s' ++ p2 ++ s_sessionID s' ++ p3.
Proof.
  unfold setConnectInfo. intros H.
  apply go_bind_ret in H as (c & _ & H). apply go_bind_ret in H as (pl0 & H0%from_ix_suffix & H).
  apply go_bind_ret in H as ([v1 pl1] & H1%next_uvarint_suffix & H).
  apply go_bind_ret in H as ([v2 pl2] & H2%next_uvarint_suffix & H).
  apply go_bind_ret in H as ([v3 pl3] & H3%next_uvarint_suffix & H).
  apply go_bind_ret in H as ([v4 pl4] & H4%next_length_suffix & H).
  apply go_bind_ret in H as (id & Hid & H). apply go_bind_ret in H as (pl5 & H5%from_ix_suffix & H).
  apply go_bind_ret in H as ([v6 pl6] & H6%next_length_suffix & H). apply go_bind_ret in H as (sid & Hsid & [= <-]).
  destruct H0 as (q0 & Hq0 & Hs0 & _), H1 as (q1 & Hq1 & Hs1), H2 as (q2 & Hq2 & Hs2), H3 as (q3 & Hq3 & Hs3),
    H4 as (q4 & Hq4 & Hs4), H5 as (q5 & Hq5 & Hs5 & Hl5), H6 as (q6 & Hq6 & Hs6). cbn [sl_vis sl_spare] in *.
  apply upto_ix_prefix in Hid as (r & Hr & Hlr); [|congruence]. apply upto_ix_prefix in Hsid as (t & Ht & _); [|congruence].
  rewrite Hq5 in Hr. apply app_inj_1 in Hr as [-> <-]; [|congruence].
  exists (q0 ++ q1 ++ q2 ++ q3 ++ q4), q6, t. simpl.
  rewrite Hq0, Hq1, Hq2, Hq3, Hq4, Hq5, Hq6, Ht, <- !app_assoc. reflexivity.
Qed.

Lemma setConnectInfo_reads_message_witness : exists p1 p2 p3, [1; 2; 0; 0; 2; 8; 9; 1; 65] = p1 ++ [8; 9] ++ p2 ++ [65] ++ p3.
Proof.
  exact (setConnectInfo_reads_message [1; 2; 0; 0; 2; 8; 9; 1; 65] (newStream "srv")
    (mkStream "srv" [8; 9] 0 0 [65] 8 1 2) eq_refl).
Defined.

(** Messages keep their code and payload, and a session message its session:
    [NewMessage] copies the payload whole, the empty one included. *)
Theorem NewMessage_roundtrip (E : Type) (code : Z) (payload : list Z) :
  @msg_Code E (NewMessage code payload) = Ret (u8 code) /\
  @msg_Payload E (NewMessage code payload) = Ret payload /\
  @GetSession E (SessionMessage payload) = Ret payload.
Proof.
  assert (Hc : forall c, exists c0, NewMessage c payload = c0 :: payload /\ c0 = u8 c).
  { intros c. unfold NewMessage, makeMessage, copy_into. exists (u8 c). destruct payload as [|b pl]; [auto|].
    cbn [Nat.ltb Nat.leb length]. rewrite length_replicate, firstn_all2 by (cbn [length]; lia).
    rewrite drop_ge by (rewrite length_replicate; cbn [length]; lia). rewrite app_nil_r. auto. }
  unfold SessionMessage, GetSession. destruct (Hc code) as (c0 & -> & ->), (Hc Session) as (c1 & -> & _). auto.
Qed.
