(* ===== verification/StreamConn.v ===== *)
(** * Streams as connections (src/pkg/tunnel/stream_conn.go, pipe.go, and [ReadLoop],
      [WriteLoop] and [CloseSend] of stream.go)

    A [streamConn] makes a [net.Conn] of a stream of messages.  Its state is the
    message it is reading from and the offset into it; the model adds what the
    transport will still deliver ([sc_in]), what was sent ([sc_out]), and the
    goroutines that a timed out call leaves behind: a receiver that takes the next
    message of the stream ([sc_orphans]) and senders whose message is not sent yet
    ([sc_late]).  Which branch a [select] takes is an argument. *)
From S2P Require Import Prelude NetIP GoStrings PortTypes ConnId Message.
Local Open Scope Z_scope.

(** ** Errors *)

Inductive conn_error :=
| DeadlineExceeded
| CtxErr (what : string)
| io_EOF
| StreamErr (e : stream_error).
Global Instance stream_error_eq : EqDecision stream_error.
Proof. solve_decision. Defined.
Global Instance conn_error_eq : EqDecision conn_error.
Proof. solve_decision. Defined.

(** The text of the errors that [Receive] returns. *)
Definition stream_error_text (e : stream_error) : string :=
  match e with
  | GrpcError what => what
  | ErrClosed => "use of closed network connection"
  | MalformedConnect => "malformed connect message"
  | NotStreamOK => "initial message was not StreamOK"
  | NotStreamInfo => "initial message was not StreamInfo"
  | ReadFailed what _ => "failed to read initial " +:+ what
  | ParseFailed _ => "failed to parse StreamInfo message"
  end.
Definition conn_error_text (e : conn_error) : string :=
  match e with
  | DeadlineExceeded => "context deadline exceeded"
  | CtxErr what => what
  | io_EOF => "EOF"
  | StreamErr e => stream_error_text e
  end.

(** ** The connection *)

Record streamConn := mkSC {
  sc_offset : nat;
  sc_last : option (list Z);
  sc_closed : bool;
  sc_readDeadline : Z;
  sc_writeDeadline : Z;
  sc_in : list Recv;
  sc_orphans : nat;
  sc_out : list (list Z);
  sc_late : list (list Z);
  sc_readProbe : Z;
  sc_writeProbe : Z
}.

Definition NewStreamConn (q : list Recv) : streamConn := mkSC 0 None false 0 0 q 0 [] [] 0 0.

Definition sc_set_read (offset : nat) (last : option (list Z)) (q : list Recv) (c : streamConn) : streamConn :=
  mkSC offset last (sc_closed c) (sc_readDeadline c) (sc_writeDeadline c) q (sc_orphans c) (sc_out c) (sc_late c)
    (sc_readProbe c) (sc_writeProbe c).
Definition sc_set_orphans (n : nat) (c : streamConn) : streamConn :=
  mkSC (sc_offset c) (sc_last c) (sc_closed c) (sc_readDeadline c) (sc_writeDeadline c) (sc_in c) n (sc_out c)
    (sc_late c) (sc_readProbe c) (sc_writeProbe c).
Definition sc_set_out (out late : list (list Z)) (c : streamConn) : streamConn :=
  mkSC (sc_offset c) (sc_last c) (sc_closed c) (sc_readDeadline c) (sc_writeDeadline c) (sc_in c) (sc_orphans c) out
    late (sc_readProbe c) (sc_writeProbe c).
Definition sc_set_closed (c : streamConn) : streamConn :=
  mkSC (sc_offset c) (sc_last c) true (sc_readDeadline c) (sc_writeDeadline c) (sc_in c) (sc_orphans c) (sc_out c)
    (sc_late c) (sc_readProbe c) (sc_writeProbe c).
Definition sc_set_deadlines (r w : Z) (c : streamConn) : streamConn :=
  mkSC (sc_offset c) (sc_last c) (sc_closed c) r w (sc_in c) (sc_orphans c) (sc_out c) (sc_late c) (sc_readProbe c)
    (sc_writeProbe c).
Definition sc_count (r w : Z) (c : streamConn) : streamConn :=
  mkSC (sc_offset c) (sc_last c) (sc_closed c) (sc_readDeadline c) (sc_writeDeadline c) (sc_in c) (sc_orphans c)
    (sc_out c) (sc_late c) (u64 (sc_readProbe c + r)) (u64 (sc_writeProbe c + w)).

(** The next result of the transport's [Recv]; a finished stream returns io.EOF. *)
Definition next_recv (q : list Recv) : Recv * list Recv :=
  match q with [] => (inl "EOF"%string, []) | r :: q => (r, q) end.

(** The branch of [readMore]'s or [Write]'s [select] that is taken. *)
Inductive wait := WaitDone (what : string) | WaitCancel | WaitResult.

Definition eof_if_closed (e : conn_error) : conn_error :=
  if Contains (conn_error_text e) "use of closed network connection" then io_EOF else e.

(** [readMore] at time [now]; a panic of [Receive] in the goroutine ends the process. *)
Definition readMore (now : Z) (w : wait) (c : streamConn) : Go Empty_set (option conn_error * streamConn) :=
  let c := sc_set_read 0 (sc_last c) (sc_in c) c in
  if negb (sc_readDeadline c =? 0) && (sc_readDeadline c <? now) then mret (Some DeadlineExceeded, c)
  else match w with
       | WaitDone what => mret (Some (eof_if_closed (CtxErr what)), sc_set_orphans (S (sc_orphans c)) c)
       | WaitCancel => mret (Some (eof_if_closed DeadlineExceeded), sc_set_orphans (S (sc_orphans c)) c)
       | WaitResult =>
           let '(r, q) := next_recv (sc_in c) in
           match stream_Receive r with
           | Panic => Panic
           | Ret m => mret (None, sc_set_read 0 (Some (sl_vis m)) q c)
           | Fail e => mret (Some (eof_if_closed (StreamErr e)), sc_set_read 0 None q c)
           end
       end.

(** The last part of [Read]: copy from the message at hand into a buffer of length [n]. *)
Definition read_copy (n : nat) (c : streamConn) : Go Empty_set (list Z * option conn_error * streamConn) :=
  match sc_last c with
  | None => Panic
  | Some m =>
      pl ← msg_Payload m;
      if Nat.ltb (length pl) (sc_offset c) then Panic
      else
        let bytes := take n (drop (sc_offset c) pl) in
        let offset := (sc_offset c + length bytes)%nat in
        let last := if Nat.eqb offset (length pl) then None else Some m in
        mret (bytes, None, sc_count (Z.of_nat (length bytes)) 0 (sc_set_read offset last (sc_in c) c))
  end.

(** [Read] with a message at hand: when nothing of it is left another one is received. *)
Definition read_at_hand (now : Z) (w : wait) (n : nat) (c : streamConn) : Go Empty_set (list Z * option conn_error * streamConn) :=
  match sc_last c with
  | None => Panic
  | Some m =>
      pl ← msg_Payload m;
      if Nat.leb (length pl) (sc_offset c) then
        '(err, c) ← readMore now w c;
        match err with
        | Some e => mret ([], Some e, c)
        | None => read_copy n c
        end
      else read_copy n c
  end.

(** [Read(data)] with [len(data) = n]. *)
Definition sc_Read (now : Z) (w1 w2 : wait) (n : nat) (c : streamConn) : Go Empty_set (list Z * option conn_error * streamConn) :=
  match sc_last c with
  | Some _ => read_at_hand now w2 n c
  | None =>
      '(err, c) ← readMore now w1 c;
      match err with
      | Some e => mret ([], Some e, c)
      | None => read_at_hand now w2 n c
      end
  end.

(** The receiver that an interrupted [readMore] left behind gets its message; nobody
    reads the channel it puts it in. *)
Definition orphan_receives (c : streamConn) : streamConn :=
  match sc_orphans c with
  | O => c
  | S n => sc_set_orphans n (sc_set_read (sc_offset c) (sc_last c) (snd (next_recv (sc_in c))) c)
  end.

(** [Write(b)]; [sent] is what the transport's [Send] returns. *)
Definition sc_Write (now : Z) (w : wait) (sent : SendErr) (b : list Z) (c : streamConn) : Z * option conn_error * streamConn :=
  if negb (sc_writeDeadline c =? 0) && (sc_writeDeadline c <? now) then (0, Some DeadlineExceeded, c)
  else
    let m := NewMessage Normal b in
    match w with
    | WaitDone what => (0, Some (CtxErr what), sc_set_out (sc_out c) (sc_late c ++ [m]) c)
    | WaitCancel => (0, Some DeadlineExceeded, sc_set_out (sc_out c) (sc_late c ++ [m]) c)
    | WaitResult =>
        match sent with
        | Some e => (0, Some (StreamErr (GrpcError e)), c)
        | None =>
            (Z.of_nat (length b), None, sc_count 0 (Z.of_nat (length b)) (sc_set_out (sc_out c ++ [m]) (sc_late c) c))
        end
    end.

(** [stream.CloseSend]: an error is passed on unless the context is done or the
    stream ended. *)
Definition stream_CloseSend (ctxDone : bool) (sent : SendErr) : list (list Z) * option stream_error :=
  match sent with
  | None => ([NewMessage closeSend []], None)
  | Some e =>
      if negb ctxDone && negb (bool_decide (e = "EOF"%string) || bool_decide (e = stream_error_text ErrClosed))
      then ([], Some (GrpcError ("send of closeSend message failed: " +:+ e)))
      else ([], None)
  end.

Definition sc_Close (ctxDone : bool) (sent : SendErr) (c : streamConn) : option stream_error * streamConn :=
  if sc_closed c then (None, c)
  else
    let '(ms, err) := stream_CloseSend ctxDone sent in
    (err, sc_set_out (sc_out c ++ ms) (sc_late c) (sc_set_closed c)).

(** The deadlines: [un] is the time in nanoseconds, 0 for the zero time.  The send on
    the cancel channel panics when the channel is closed; otherwise it wakes a waiting
    call or does nothing. *)
Definition sc_SetReadDeadline (un : Z) (c : streamConn) : Go Empty_set streamConn :=
  if sc_closed c then Panic else mret (sc_set_deadlines un (sc_writeDeadline c) c).
Definition sc_SetWriteDeadline (un : Z) (c : streamConn) : Go Empty_set streamConn :=
  if sc_closed c then Panic else mret (sc_set_deadlines (sc_readDeadline c) un c).
Definition sc_SetDeadline (un : Z) (c : streamConn) : Go Empty_set streamConn :=
  c ← sc_SetReadDeadline un c; sc_SetWriteDeadline un c.

Definition addFromAP (ap : AddrPort) (proto : Z) : string * AddrPort :=
  if proto =? 17 then ("udp"%string, ap) else ("tcp"%string, ap).
Definition sc_LocalAddr (id : ConnID) : option (string * AddrPort) :=
  src ← Source id; proto ← Protocol id; mret (addFromAP src proto).
Definition sc_RemoteAddr (id : ConnID) : option (string * AddrPort) :=
  dst ← Destination id; proto ← Protocol id; mret (addFromAP dst proto).

(** ** Pipes: two channels of capacity one *)

Record chan := mkChan { ch_buf : list (list Z); ch_closed : bool }.
Record pipe := mkPipe { p_out : chan; p_in : chan }.
Definition NewPipe : pipe := mkPipe (mkChan [] false) (mkChan [] false).

(** What a channel operation does: it completes, it has to wait, or it panics. *)
Inductive chan_result (A : Type) := Done (a : A) (c : chan) | Blocked | ChanPanic.
Arguments Done {A} a c.
Arguments Blocked {A}.
Arguments ChanPanic {A}.

(** [Receive] when the context is not done: a message, or io.EOF ([None]). *)
Definition cs_Receive (c : chan) : chan_result (option (list Z)) :=
  match ch_buf c with
  | m :: rest => Done (Some m) (mkChan rest (ch_closed c))
  | [] => if ch_closed c then Done None c else Blocked
  end.
Definition cs_Send (m : list Z) (c : chan) : chan_result () :=
  if ch_closed c then ChanPanic
  else match ch_buf c with
       | [] => Done () (mkChan [m] false)
       | _ :: _ => Blocked
       end.
(** [Send] when the context is done and the branch is taken: no error, and no message. *)
Definition cs_Send_done (c : chan) : chan_result () := Done () c.
Definition cs_CloseSend (c : chan) : chan_result () :=
  if ch_closed c then ChanPanic else Done () (mkChan (ch_buf c) true).

(** ** Read and write loops *)

(** An error of [Receive]: what [errors.Is] finds in it, its gRPC code and its text. *)
Inductive err_kind := IsEOF | IsNetClosed | IsCanceled | IsOther.
Record recv_error := mkRecvErr { re_kind : err_kind; re_code : Z; re_text : string }.
Definition codes_Canceled : Z := 1.
Definition codes_NotFound : Z := 5.
Definition codes_Unavailable : Z := 14.

(** The error that [ReadLoop] puts on its error channel, if any. *)
Definition readloop_error (ctxDone : bool) (e : recv_error) : option string :=
  if ctxDone then None
  else match re_kind e with
       | IsEOF | IsNetClosed | IsCanceled => None
       | IsOther =>
           if re_code e =? codes_NotFound then None
           else if re_code e =? codes_Canceled then None
           else if (re_code e =? codes_Unavailable) && HasSuffix (re_text e) "reading from server: EOF" then None
           else Some (re_text e)
       end.

(** One turn of the loop: the message or error that [Receive] returned, whether the
    context was done at that time, and whether the [select] took the context's branch. *)
Record recv_turn := mkTurn { rt_result : recv_error + list Z; rt_ctxDone : bool; rt_dropped : bool }.

(** [ReadLoop]: the messages put on the channel, the errors, and the probe's count. *)
Fixpoint ReadLoop (turns : list recv_turn) (probe : Z) : list (list Z) * list string * Z :=
  match turns with
  | [] => ([], [], probe)
  | t :: rest =>
      match rt_result t with
      | inr m =>
          let probe := u64 (probe + Z.of_nat (length (tail m))) in
          if rt_dropped t then ([], [], probe)
          else let '(ms, es, p) := ReadLoop rest probe in (m :: ms, es, p)
      | inl e => ([], option_list (readloop_error (rt_ctxDone t) e), probe)
      end
  end.

(** One turn of the write loop: the context's branch, the channel's end, or a message
    with the result of its [Send]. *)
Inductive write_turn := WCtxDone | WChanClosed | WMessage (m : list Z) (sent : SendErr).

Fixpoint write_loop (turns : list write_turn) (probe : Z) : list (list Z) * Z :=
  match turns with
  | [] | WCtxDone :: _ | WChanClosed :: _ => ([], probe)
  | WMessage m sent :: rest =>
      let probe := u64 (probe + Z.of_nat (length (tail m))) in
      match sent with
      | Some _ => ([], probe)
      | None => let '(ms, p) := write_loop rest probe in (m :: ms, p)
      end
  end.
(** [WriteLoop]: the messages that reached the stream, with the deferred [CloseSend]. *)
Definition WriteLoop (turns : list write_turn) (ctxDone : bool) (closeSent : SendErr) (probe : Z) : list (list Z) * Z :=
  let '(ms, p) := write_loop turns probe in (ms ++ fst (stream_CloseSend ctxDone closeSent), p).
