(* ===== verification/StreamConnSpec.v ===== *)
(** * Correctness of streams as connections

    Reading from a [streamConn] delivers the payloads of the stream's messages as one
    sequence of bytes, whatever the sizes of the buffers, and then the error that ended
    the stream.  What one end writes is what the other end reads.  A read that a
    deadline interrupts loses the next message, and a deadline on a closed connection
    panics. *)
From S2P Require Import Prelude NetIP GoStrings PortTypes ConnId Message MessageSpec StreamConn.
Local Open Scope Z_scope.

(** ** The bytes of a stream *)

(** The payloads that arrive before the stream ends, and the error that ends it. *)
Fixpoint in_bytes (q : list Recv) : list Z :=
  match q with
  | inr m :: q =>
      match sl_vis m with
      | code :: pl => if code =? closeSend then [] else pl ++ in_bytes q
      | [] => []
      end
  | _ => []
  end.
Fixpoint in_error (q : list Recv) : conn_error :=
  match q with
  | [] => StreamErr (GrpcError "EOF")
  | inl e :: _ => StreamErr (GrpcError e)
  | inr m :: q =>
      match sl_vis m with
      | code :: _ => if code =? closeSend then StreamErr ErrClosed else in_error q
      | [] => in_error q
      end
  end.

(** What is left of the message at hand, and all that [Read] may still deliver. *)
Definition sc_pending (c : streamConn) : list Z :=
  match sc_last c with Some m => drop (sc_offset c) (tail m) | None => [] end.
Definition sc_bytes (c : streamConn) : list Z := sc_pending c ++ in_bytes (sc_in c).

Definition recv_wf (r : Recv) : Prop := match r with inr m => sl_vis m <> [] | inl _ => True end.
Global Instance recv_wf_dec r : Decision (recv_wf r).
Proof. destruct r; apply _. Defined.
Definition sc_wf (c : streamConn) : Prop :=
  Forall recv_wf (sc_in c) /\ sc_readDeadline c = 0 /\
  match sc_last c with Some m => m <> [] /\ (sc_offset c <= length (tail m))%nat | None => True end.

Lemma readMore_spec now c : sc_wf c -> exists r c', readMore now WaitResult c = Ret (r, c') /\ sc_wf c' /\
  (length (sc_in c') <= length (sc_in c))%nat /\
  match r with
  | None => sc_last c' <> None /\ in_bytes (sc_in c) = sc_bytes c' /\ in_error (sc_in c') = in_error (sc_in c) /\
            (length (sc_in c') < length (sc_in c))%nat
  | Some e => in_bytes (sc_in c) = [] /\ e = eof_if_closed (in_error (sc_in c))
  end.
Proof.
  intros (Hq & Hd & Hl). unfold readMore. cbn [sc_set_read sc_readDeadline sc_in sc_last]. rewrite Hd. cbn [Z.eqb negb andb].
  destruct (sc_in c) as [|[e|m] q] eqn:Eq.
  - do 2 eexists. split; [reflexivity|]. repeat split; try done; cbn; lia.
  - do 2 eexists. split; [reflexivity|]. inversion Hq; subst. repeat split; try done; cbn; lia.
  - inversion Hq as [|? ? Hm Hq']; subst. cbn [next_recv stream_Receive recv_wf] in *.
    destruct (sl_vis m) as [|code pl] eqn:Em; [done|]. unfold mbind, go_bind. cbn [msg_Code].
    destruct (code =? closeSend) eqn:Ec.
    + do 2 eexists. split; [reflexivity|]. cbn [in_bytes in_error]. rewrite Em, Ec. repeat split; try done; cbn; lia.
    + do 2 eexists. split; [reflexivity|]. cbn [in_bytes in_error]. rewrite Em, Ec. unfold sc_bytes, sc_pending.
      cbn [sc_set_read sc_in sc_last sc_offset sc_readDeadline sc_wf]. rewrite ?Em. repeat split; try done; try (cbn; lia).
Qed.

Lemma read_copy_spec n c : sc_wf c -> sc_last c <> None -> exists bs c', read_copy n c = Ret (bs, None, c') /\ sc_wf c' /\
  bs = take n (sc_pending c) /\ sc_bytes c = bs ++ sc_bytes c' /\ sc_in c' = sc_in c.
Proof.
  intros (Hq & Hd & Hl) HN. unfold read_copy. destruct (sc_last c) as [m|] eqn:El; [|done]. destruct Hl as [Hm Ho].
  destruct m as [|code pl]; [done|]. unfold mbind, go_bind. cbn [msg_Payload tail] in *.
  rewrite (proj2 (Nat.ltb_ge _ _)) by lia. do 2 eexists. split; [reflexivity|].
  unfold sc_bytes, sc_pending, sc_wf. rewrite El. cbn [sc_count sc_set_read sc_in sc_last sc_offset sc_readDeadline tail].
  set (bs := take n (drop (sc_offset c) pl)).
  assert (Hb : (length bs <= length pl - sc_offset c)%nat) by (unfold bs; rewrite length_take, length_drop; lia).
  assert (Hdrop : drop (sc_offset c) pl = bs ++ drop (sc_offset c + length bs) pl).
  { rewrite <- drop_drop. unfold bs. rewrite length_take, length_drop.
    destruct (Nat.min_spec n (length pl - sc_offset c)) as [[_ ->]|[Hge ->]].
    - symmetry. apply take_drop.
    - rewrite (take_ge (drop _ _)) by (rewrite length_drop; lia).
      rewrite (drop_ge (drop _ _)) by (rewrite length_drop; lia). by rewrite app_nil_r. }
  destruct (Nat.eqb_spec (sc_offset c + length bs) (length pl)) as [Ee|Ee].
  - repeat split; try done. rewrite Hdrop at 1. rewrite drop_ge by lia. by rewrite app_nil_r.
  - repeat split; try done; [cbn [tail]; lia|]. cbn [tail]. rewrite Hdrop at 1. by rewrite app_assoc.
Qed.

(** What a [Read] that nothing interrupts does to the remaining bytes: it returns the
    next ones, an error only at the end of the stream, and it makes progress when the
    buffer is not empty. *)
Definition read_result (n : nat) (c : streamConn) (bs : list Z) (err : option conn_error) (c' : streamConn) : Prop :=
  sc_wf c' /\ (length bs <= n)%nat /\
  match err with
  | None => sc_bytes c = bs ++ sc_bytes c' /\ in_error (sc_in c') = in_error (sc_in c) /\
            ((0 < n)%nat -> (length (sc_bytes c') + length (sc_in c') < length (sc_bytes c) + length (sc_in c))%nat)
  | Some e => bs = [] /\ sc_bytes c = [] /\ e = eof_if_closed (in_error (sc_in c))
  end.

Lemma read_copy_result n c bs c' : read_copy n c = Ret (bs, None, c') -> sc_wf c -> sc_last c <> None ->
  (sc_pending c <> [] -> read_result n c bs None c') /\
  (sc_wf c' /\ (length bs <= n)%nat /\ sc_bytes c = bs ++ sc_bytes c' /\ sc_in c' = sc_in c).
Proof.
  intros E W L. destruct (read_copy_spec n c W L) as (bs2 & c2 & E2 & W2 & Hbs & Hb & Hi). rewrite E2 in E.
  injection E as <- <-. assert (length bs2 <= n)%nat by (rewrite Hbs, length_take; lia). split; [|done].
  intros Hp. split_and!; [done|done|done|by rewrite Hi|]. intros Hn. rewrite Hb, Hi, length_app.
  assert (0 < length bs2)%nat; [|lia]. rewrite Hbs, length_take. destruct (sc_pending c); [done|]. cbn [length]. lia.
Qed.

Lemma read_at_hand_spec now n c : sc_wf c -> sc_last c <> None ->
  exists bs err c', read_at_hand now WaitResult n c = Ret (bs, err, c') /\ read_result n c bs err c'.
Proof.
  intros W L. pose proof W as (_ & _ & Hl). unfold read_at_hand. destruct (sc_last c) as [m|] eqn:El; [|done].
  destruct Hl as [Hm Ho]. destruct m as [|code pl]; [done|]. unfold mbind, go_bind. cbn [msg_Payload tail] in *.
  assert (Hp : sc_pending c = drop (sc_offset c) pl) by (unfold sc_pending; by rewrite El).
  destruct (Nat.leb_spec (length pl) (sc_offset c)) as [Hle|Hlt].
  - rewrite drop_ge in Hp by lia. destruct (readMore_spec now c W) as (r & c1 & E1 & W1 & Hlen & Hr). rewrite E1.
    destruct r as [e|].
    + destruct Hr as [Hb ->]. do 3 eexists. split; [reflexivity|]. split_and!; try done; [cbn; lia|].
      unfold sc_bytes. by rewrite Hp, Hb.
    + destruct Hr as (L1 & Hb & He & Hlt1). destruct (read_copy_spec n c1 W1 L1) as (bs & c2 & E2 & _).
      destruct (read_copy_result _ _ _ _ E2 W1 L1) as (_ & W2 & Hn & Hb2 & Hi). exists bs, None, c2. split; [done|].
      assert (Hc : sc_bytes c = bs ++ sc_bytes c2) by (rewrite <- Hb2, <- Hb; unfold sc_bytes; by rewrite Hp).
      split_and!; [done|done|done|by rewrite Hi|]. intros _. rewrite Hc, Hi, length_app. lia.
  - destruct (read_copy_spec n c W) as (bs & c2 & E2 & _); [congruence|]. exists bs, None, c2. split; [done|].
    destruct (read_copy_result _ _ _ _ E2 W) as (H & _); [congruence|]. apply H. rewrite Hp. intros Hd.
    apply (f_equal length) in Hd. rewrite length_drop in Hd. cbn in Hd. lia.
Qed.

Lemma sc_Read_spec now n c : sc_wf c ->
  exists bs err c', sc_Read now WaitResult WaitResult n c = Ret (bs, err, c') /\ read_result n c bs err c'.
Proof.
  intros W. unfold sc_Read. destruct (sc_last c) eqn:El; [apply read_at_hand_spec; congruence|].
  assert (Hp : sc_pending c = []) by (unfold sc_pending; by rewrite El).
  destruct (readMore_spec now c W) as (r & c1 & E1 & W1 & Hlen & Hr). rewrite E1. unfold mbind, go_bind.
  destruct r as [e|].
  - destruct Hr as [Hb ->]. do 3 eexists. split; [reflexivity|]. split_and!; try done; [cbn; lia|].
    unfold sc_bytes. by rewrite Hp, Hb.
  - destruct Hr as (L1 & Hb & He & Hlt). destruct (read_at_hand_spec now n c1 W1 L1) as (bs & err & c2 & E2 & W2 & Hn & H2).
    exists bs, err, c2. split; [done|]. assert (Hc : sc_bytes c = sc_bytes c1) by (rewrite <- Hb; unfold sc_bytes; by rewrite Hp).
    split_and!; [done|done|]. rewrite Hc, <- He. destruct err; [done|]. destruct H2 as (-> & Hie & Hpr).
    split_and!; [done|done|]. intros Hn0. specialize (Hpr Hn0). lia.
Qed.

(** A reader that reads with buffers of the sizes [size k], [size (k + 1)], ... until it
    gets an error, as [io.Copy] and [io.ReadAll] do. *)
Fixpoint read_all (fuel : nat) (size : nat -> nat) (k : nat) (c : streamConn) : Go Empty_set (list Z * option conn_error) :=
  match fuel with
  | O => mret ([], None)
  | S fuel =>
      match sc_Read 0 WaitResult WaitResult (size k) c with
      | Ret (bs, Some e, _) => mret (bs, Some e)
      | Ret (bs, None, c') =>
          match read_all fuel size (S k) c' with
          | Ret (rest, err) => mret (bs ++ rest, err)
          | Fail e => Fail e
          | Panic => Panic
          end
      | Fail e => Fail e
      | Panic => Panic
      end
  end.

Lemma read_all_spec size fuel k c : sc_wf c -> (forall i, (0 < size i)%nat) ->
  (length (sc_bytes c) + length (sc_in c) < fuel)%nat ->
  read_all fuel size k c = Ret (sc_bytes c, Some (eof_if_closed (in_error (sc_in c)))).
Proof.
  revert k c. induction fuel as [|fuel IH]; intros k c W Hs Hf; [lia|]. cbn [read_all].
  destruct (sc_Read_spec 0 (size k) c W) as (bs & err & c' & -> & W' & Hn & H). destruct err as [e|].
  - by destruct H as (-> & -> & ->).
  - destruct H as (Hb & He & Hp). specialize (Hp (Hs k)). rewrite IH by (done || lia). rewrite He, Hb. reflexivity.
Qed.

(** ** Delivery *)

(** C25. A reader that keeps reading, without a deadline or [Close] that interrupts a read, gets
    every byte that arrives on the stream, in order and once, for any positive sizes of its
    buffers, and then the error that ended the stream; it gets there within one [Read] per
    byte and message. *)
Theorem read_all_delivers (q : list Recv) (size : nat -> nat) (fuel : nat) :
  Forall recv_wf q -> (forall i, (0 < size i)%nat) -> (length (in_bytes q) + length q < fuel)%nat ->
  read_all fuel size 0 (NewStreamConn q) = Ret (in_bytes q, Some (eof_if_closed (in_error q))).
Proof. intros Hq Hs Hf. by rewrite read_all_spec. Qed.

Lemma read_all_delivers_witness :
  read_all 10 (fun i => S (i mod 2)) 0 (NewStreamConn [inr (mkSlice [0; 1; 2; 3] []); inr (mkSlice [7] [9]); inr (mkSlice [0; 4] []); inr (mkSlice [3] [])])
  = Ret ([1; 2; 3; 4], Some io_EOF).
Proof.
  rewrite read_all_delivers; [reflexivity| |intros i; lia|cbn; lia].
  repeat (apply Forall_cons; split; [done|]). apply Forall_nil. exact I.
Defined.

(** ** Writing *)

(** A sequence of uninterrupted writes and the close of the connection. *)
Definition write_seq (bss : list (list Z)) (c : streamConn) : streamConn :=
  foldl (fun c b => snd (sc_Write 0 WaitResult None b c)) c bss.

Lemma NewMessage_cons code b : NewMessage code b = u8 code :: b.
Proof.
  unfold NewMessage, makeMessage. destruct b as [|x b]; [reflexivity|]. cbn [length Nat.ltb Nat.leb].
  unfold copy_into. rewrite length_replicate, take_ge by done. by rewrite drop_ge, app_nil_r by (rewrite length_replicate; done).
Qed.

Lemma write_seq_out bss c : sc_writeDeadline c = 0 ->
  sc_out (write_seq bss c) = sc_out c ++ map (NewMessage Normal) bss /\ sc_closed (write_seq bss c) = sc_closed c.
Proof.
  revert c. induction bss as [|b bss IH]; intros c Hd; [by rewrite app_nil_r|]. cbn [write_seq foldl].
  fold (write_seq bss (snd (sc_Write 0 WaitResult None b c))).
  assert (Hw : snd (sc_Write 0 WaitResult None b c) = sc_count 0 (Z.of_nat (length b)) (sc_set_out (sc_out c ++ [NewMessage Normal b]) (sc_late c) c)).
  { unfold sc_Write. by rewrite Hd. }
  rewrite Hw. destruct (IH (sc_count 0 (Z.of_nat (length b)) (sc_set_out (sc_out c ++ [NewMessage Normal b]) (sc_late c) c))) as [-> ->]; [done|].
  cbn [sc_count sc_set_out sc_out sc_closed map]. by rewrite <- app_assoc.
Qed.

Lemma in_bytes_normal bss q spare : in_bytes (map (fun m => inr (mkSlice m spare)) (map (NewMessage Normal) bss) ++ q) = concat bss ++ in_bytes q.
Proof.
  induction bss as [|b bss IH]; [reflexivity|]. cbn [map app in_bytes sl_vis concat]. rewrite NewMessage_cons.
  change (u8 Normal =? closeSend) with false. rewrite IH. by rewrite app_assoc.
Qed.
Lemma in_error_normal bss q spare : in_error (map (fun m => inr (mkSlice m spare)) (map (NewMessage Normal) bss) ++ q) = in_error q.
Proof.
  induction bss as [|b bss IH]; [reflexivity|]. cbn [map app in_error sl_vis]. rewrite NewMessage_cons.
  change (u8 Normal =? closeSend) with false. exact IH.
Qed.

(** End to end: when one end writes any sequence of byte strings and closes, and the
    transport delivers its messages, the other end reads exactly their concatenation and
    then io.EOF, for any sizes of its buffers. *)
Theorem write_read_stream (bss : list (list Z)) (size : nat -> nat) (spare : list Z) (fuel : nat) :
  (forall i, (0 < size i)%nat) -> (length (concat bss) + length bss + 1 < fuel)%nat ->
  let sender := snd (sc_Close false None (write_seq bss (NewStreamConn []))) in
  read_all fuel size 0 (NewStreamConn (map (fun m => inr (mkSlice m spare)) (sc_out sender))) = Ret (concat bss, Some io_EOF).
Proof.
  intros Hs Hf sender. destruct (write_seq_out bss (NewStreamConn [])) as [Ho Hc]; [done|].
  assert (Hq : map (fun m => inr (mkSlice m spare)) (sc_out sender) =
    map (fun m => inr (mkSlice m spare)) (map (NewMessage Normal) bss) ++ [inr (mkSlice (NewMessage closeSend []) spare)] :> list Recv).
  { unfold sender, sc_Close. rewrite Hc. cbn [sc_closed NewStreamConn stream_CloseSend snd sc_set_out sc_out]. rewrite Ho.
    cbn [sc_out NewStreamConn app]. by rewrite map_app. }
  rewrite Hq, read_all_spec.
  - unfold sc_bytes. cbn [sc_pending sc_last sc_in NewStreamConn app]. rewrite in_bytes_normal, in_error_normal.
    cbn [in_bytes in_error sl_vis]. rewrite NewMessage_cons. change (u8 closeSend =? closeSend) with true. by rewrite app_nil_r.
  - split; [|done]. apply Forall_app. split; [|by repeat constructor]. apply Forall_fmap, Forall_fmap, Forall_true. intros b. cbn.
    by rewrite NewMessage_cons.
  - exact Hs.
  - unfold sc_bytes. cbn [sc_pending sc_last sc_in NewStreamConn app]. rewrite in_bytes_normal. cbn [in_bytes sl_vis].
    rewrite NewMessage_cons. change (u8 closeSend =? closeSend) with true. rewrite app_nil_r, length_app, !length_map. cbn [length]. lia.
Qed.

Lemma write_read_stream_witness :
  let sender := snd (sc_Close false None (write_seq [[1; 2]; []; [3]] (NewStreamConn []))) in
  read_all 8 (fun _ => 1%nat) 0 (NewStreamConn (map (fun m => inr (mkSlice m [])) (sc_out sender))) = Ret ([1; 2; 3], Some io_EOF).
Proof. apply (write_read_stream [[1; 2]; []; [3]]); [lia|cbn; lia]. Defined.

(** ** What does not work *)

(** A [Read] that its context or a deadline interrupts leaves a receiver behind, and the
    message that receiver gets is dropped: everything that a later reader gets is the
    stream without that message. *)
Theorem interrupted_Read_loses_message (now : Z) (w : wait) (n : nat) (code : Z) (pl spare : list Z) (q : list Recv)
    (size : nat -> nat) (fuel : nat) :
  w <> WaitResult -> code <> closeSend -> Forall recv_wf q -> (forall i, (0 < size i)%nat) ->
  (length (in_bytes q) + length q < fuel)%nat ->
  exists e c, sc_Read now w WaitResult n (NewStreamConn (inr (mkSlice (code :: pl) spare) :: q)) = Ret ([], Some e, c) /\
    sc_bytes c = pl ++ in_bytes q /\
    read_all fuel size 0 (orphan_receives c) = Ret (in_bytes q, Some (eof_if_closed (in_error q))).
Proof.
  intros Hw Hc Hq Hs Hf. destruct w as [what| |]; [| |done]; do 2 eexists; (split; [reflexivity|]); split;
    try (unfold sc_bytes; cbn; by rewrite (proj2 (Z.eqb_neq _ _)) by exact Hc);
    by rewrite read_all_spec.
Qed.

Lemma interrupted_Read_loses_message_witness :
  exists e c, sc_Read 0 WaitCancel WaitResult 4 (NewStreamConn [inr (mkSlice [0; 1; 2] []); inr (mkSlice [0; 3] [])]) = Ret ([], Some e, c) /\
    sc_bytes c = [1; 2; 3] /\ read_all 5 (fun _ => 4%nat) 0 (orphan_receives c) = Ret ([3], Some (StreamErr (GrpcError "EOF"))).
Proof.
  apply (interrupted_Read_loses_message 0 WaitCancel 4 0 [1; 2] [] [inr (mkSlice [0; 3] [])] (fun _ => 4%nat) 5);
    [done|done| |lia|cbn; lia].
  apply Forall_cons; split; [done|]. apply Forall_nil. exact I.
Defined.

(** Setting a deadline on a closed connection panics, for [net.Conn] has to return an
    error; a second [Close] does nothing. *)
Theorem closed_conn_SetDeadline (ctxDone : bool) (sent : SendErr) (c : streamConn) (un : Z) :
  let closed := snd (sc_Close ctxDone sent c) in
  sc_SetReadDeadline un closed = Panic /\ sc_SetWriteDeadline un closed = Panic /\ sc_SetDeadline un closed = Panic /\
  forall d s, sc_Close d s closed = (None, closed).
Proof.
  unfold sc_Close. destruct (sc_closed c) eqn:Ec.
  - cbn. unfold sc_SetDeadline, sc_SetReadDeadline, sc_SetWriteDeadline. rewrite Ec. done.
  - destruct (stream_CloseSend ctxDone sent) as [ms err]. done.
Qed.

(** ** Pipes and loops *)

(** A run of a channel: the messages sent and received so far. *)
Inductive chan_run : chan -> list (list Z) -> list (list Z) -> Prop :=
| run_new : chan_run (mkChan [] false) [] []
| run_send c c' m sent recvd : chan_run c sent recvd -> cs_Send m c = Done () c' -> chan_run c' (sent ++ [m]) recvd
| run_recv c c' m sent recvd : chan_run c sent recvd -> cs_Receive c = Done (Some m) c' -> chan_run c' sent (recvd ++ [m])
| run_close c c' sent recvd : chan_run c sent recvd -> cs_CloseSend c = Done () c' -> chan_run c' sent recvd.

Lemma chan_run_inv c sent recvd : chan_run c sent recvd -> sent = recvd ++ ch_buf c /\ (length (ch_buf c) <= 1)%nat.
Proof.
  induction 1 as [|c c' m sent recvd _ [-> IH] E|c c' m sent recvd _ [-> IH] E|c c' sent recvd _ [-> IH] E].
  - split; [done|cbn; lia].
  - unfold cs_Send in E. destruct (ch_closed c), (ch_buf c); try discriminate. injection E as <-. cbn. rewrite app_nil_r. split; [done|lia].
  - unfold cs_Receive in E. destruct (ch_buf c) as [|m' rest] eqn:Eb; [destruct (ch_closed c); discriminate|].
    injection E as <- <-. cbn in *. split; [by rewrite <- app_assoc|lia].
  - unfold cs_CloseSend in E. destruct (ch_closed c); [discriminate|]. injection E as <-. done.
Qed.

(** Each direction of a pipe is a queue of capacity one: what was received is a prefix of
    what was sent, at most one message is under way, and io.EOF is returned exactly when
    the sender has closed and everything sent was received. *)
Theorem pipe_fifo (c : chan) (sent recvd : list (list Z)) : chan_run c sent recvd ->
  sent = recvd ++ ch_buf c /\ (length (ch_buf c) <= 1)%nat /\
  (cs_Receive c = Done None c <-> ch_closed c = true /\ recvd = sent).
Proof.
  intros R. destruct (chan_run_inv _ _ _ R) as [Hs Hl]. split_and!; [done|done|]. unfold cs_Receive.
  destruct (ch_buf c) as [|m rest] eqn:Eb.
  - rewrite app_nil_r in Hs. destruct (ch_closed c); split; try done. by intros [? _].
  - split; [discriminate|]. intros [_ E]. rewrite E in Hs. apply (f_equal length) in Hs. rewrite length_app in Hs. cbn in Hs. lia.
Qed.

Lemma pipe_fifo_witness : [[1]] = [[1]] ++ [] /\ (cs_Receive (mkChan [] true) = Done None (mkChan [] true) <-> true = true /\ [[1]] = [[1]]).
Proof.
  destruct (pipe_fifo (mkChan [] true) [[1]] [[1]]) as (H1 & _ & H2).
  - apply (run_close (mkChan [] false)); [|reflexivity].
    apply (run_recv (mkChan [[1]] false) _ [1] [[1]] []); [|reflexivity].
    apply (run_send (mkChan [] false) _ [1] [] []); [apply run_new|reflexivity].
  - by split.
Defined.

(** The messages that [ReadLoop] passes on are the first ones the stream returned, in
    order; at most one error follows; and a [WriteLoop] ends with one closing message. *)
Theorem ReadLoop_WriteLoop (turns : list recv_turn) (probe : Z) (wturns : list write_turn) (ctxDone : bool) :
  (let '(ms, es, _) := ReadLoop turns probe in
   (exists rest, omap (fun t => match rt_result t with inr m => Some m | inl _ => None end) turns = ms ++ rest) /\ (length es <= 1)%nat) /\
  (exists ms rest, fst (WriteLoop wturns ctxDone None probe) = ms ++ [NewMessage closeSend []] /\
     omap (fun t => match t with WMessage m None => Some m | _ => None end) wturns = ms ++ rest).
Proof.
  split.
  - revert probe. induction turns as [|t turns IH]; intros probe; cbn [ReadLoop].
    { split; [by exists []|cbn; lia]. }
    destruct (rt_result t) as [e|m] eqn:Et.
    + split; [by eexists|]. destruct (readloop_error _ _); cbn; lia.
    + destruct (rt_dropped t).
      * split; [by eexists|cbn; lia].
      * specialize (IH (u64 (probe + Z.of_nat (length (tail m))))). destruct (ReadLoop turns _) as [[ms es] p].
        destruct IH as [[rest IH] Hes]. split; [|done]. exists rest. cbn [omap list_omap]. by rewrite Et, IH.
  - unfold WriteLoop. destruct (write_loop wturns probe) as [ms p] eqn:Ew. exists ms. cbn [stream_CloseSend fst].
    revert probe ms p Ew. induction wturns as [|t wturns IH]; intros probe ms p Ew; cbn [write_loop] in Ew.
    { injection Ew as <- <-. by exists []. }
    destruct t as [| |m [e|]]; try (injection Ew as <- <-; by eexists).
    destruct (write_loop wturns (u64 (probe + Z.of_nat (length (tail m))))) as [ms' p'] eqn:E'. injection Ew as <- <-.
    destruct (IH _ _ _ E') as (rest & _ & Ho). exists rest. split; [done|]. cbn [omap list_omap]. by rewrite Ho.
Qed.
