(* ===== verification/Pool.v ===== *)
(** * Timed handlers and the pool of handlers (src/pkg/tunnel/timed_handler.go, pool.go,
      udplistener.go)

    A [Pool] maps connection identifiers to handlers.  [GetOrCreate] looks up under the
    read lock, creates a handler without a lock and inserts under the write lock, so
    calls may interleave between these sections: the model is a transition system whose
    steps are the sections.  Handlers are numbers in the order of their creation.

    The UDP listener of an agent keeps one stream for each source address in such a pool. *)
From S2P Require Import Prelude NetIP GoStrings PortTypes ConnId Message StreamConn StreamConnSpec.
Local Open Scope Z_scope.

(** ** Timed handlers *)

(** The timer of [time.NewTimer]: running, or stopped or fired. *)
Inductive timer := Running | Halted.

Record TimedHandler := mkTH {
  th_ttl : Z;
  th_remove : bool;
  th_timer : option timer;
  th_removed : nat
}.
(** [th_remove] is whether [remove] is not nil, [th_removed] how often it was called. *)
Definition NewTimedHandler (ttl : Z) (remove : bool) : TimedHandler := mkTH ttl remove None 0.
Definition th_GetTTL (h : TimedHandler) : Z := th_ttl h.
Definition th_SetTTL (ttl : Z) (h : TimedHandler) : TimedHandler := mkTH ttl (th_remove h) (th_timer h) (th_removed h).
Definition th_set_timer (t : option timer) (h : TimedHandler) : TimedHandler := mkTH (th_ttl h) (th_remove h) t (th_removed h).
Definition th_Start (h : TimedHandler) : TimedHandler := th_set_timer (Some Running) h.
(** The timer fires. *)
Definition th_fire (h : TimedHandler) : TimedHandler := th_set_timer (match th_timer h with Some _ => Some Halted | None => None end) h.

(** [ResetIdle] restarts a running timer; before [Start] the timer is nil. *)
Definition th_ResetIdle (h : TimedHandler) : Go Empty_set (bool * TimedHandler) :=
  match th_timer h with
  | None => Panic
  | Some Running => mret (true, h)
  | Some Halted => mret (false, h)
  end.
Definition th_Stop (h : TimedHandler) : TimedHandler :=
  if th_remove h then mkTH (th_ttl h) false (match th_timer h with Some _ => Some Halted | None => None end) (S (th_removed h))
  else h.

(** ** The pool *)

Abbreviation handler := nat (only parsing).
Abbreviation Pool := (gmap ConnID handler) (only parsing).

Definition NewPool : Pool := ∅.
Definition pool_release (id : ConnID) (p : Pool) : Pool := delete id p.
Definition pool_Get (id : ConnID) (p : Pool) : option handler := p !! id.
(** The locked section in which [GetOrCreate] inserts: the handler found, if any. *)
Definition pool_insert (id : ConnID) (h : handler) (p : Pool) : option handler * Pool :=
  match p !! id with
  | Some old => (Some old, p)
  | None => (None, <[id := h]> p)
  end.
(** The handlers that [CloseAll] stops, in some order. *)
Definition pool_snapshot (p : Pool) : list handler := (map_to_list p).*2.

(** Where a call of [GetOrCreate] is. *)
Inductive goc :=
| GocCreate (id : ConnID)
| GocInsert (id : ConnID) (h : handler)
| GocStart (h : handler)
| GocFound (h : handler)
| GocCreated (h : handler)
| GocFailed.

(** The whole: the pool, the identifier of each handler created, the handlers stored, the
    ones released, the calls of [Start] in order, and the calls of [GetOrCreate]. *)
Record system := mkSystem {
  sy_pool : Pool;
  sy_ids : list ConnID;
  sy_stored : gset nat;
  sy_released : gset nat;
  sy_started : list nat;
  sy_calls : list goc
}.

(** [ACall]: look up; [ACreate]: the creator returns a handler or an error; [AInsert]: the
    locked insert; [AStart]: [handler.Start]; [ARelease]: a stored handler calls the
    [release] function it was created with, which a timed handler does once. *)
Inductive action :=
| ACall (id : ConnID)
| ACreate (k : nat) (ok : bool)
| AInsert (k : nat)
| AStart (k : nat)
| ARelease (h : handler).

Definition sys_step (a : action) (s : system) : option system :=
  let with_call k c := <[k := c]> (sy_calls s) in
  match a with
  | ACall id =>
      Some (mkSystem (sy_pool s) (sy_ids s) (sy_stored s) (sy_released s) (sy_started s)
        (sy_calls s ++ [match pool_Get id (sy_pool s) with Some h => GocFound h | None => GocCreate id end]))
  | ACreate k ok =>
      match sy_calls s !! k with
      | Some (GocCreate id) =>
          Some (if ok : bool
                then mkSystem (sy_pool s) (sy_ids s ++ [id]) (sy_stored s) (sy_released s) (sy_started s)
                       (with_call k (GocInsert id (length (sy_ids s))))
                else mkSystem (sy_pool s) (sy_ids s) (sy_stored s) (sy_released s) (sy_started s) (with_call k GocFailed))
      | _ => None
      end
  | AInsert k =>
      match sy_calls s !! k with
      | Some (GocInsert id h) =>
          match pool_insert id h (sy_pool s) with
          | (Some old, p) => Some (mkSystem p (sy_ids s) (sy_stored s) (sy_released s) (sy_started s) (with_call k (GocFound old)))
          | (None, p) => Some (mkSystem p (sy_ids s) ({[h]} ∪ sy_stored s) (sy_released s) (sy_started s) (with_call k (GocStart h)))
          end
      | _ => None
      end
  | AStart k =>
      match sy_calls s !! k with
      | Some (GocStart h) =>
          Some (mkSystem (sy_pool s) (sy_ids s) (sy_stored s) (sy_released s) (sy_started s ++ [h]) (with_call k (GocCreated h)))
      | _ => None
      end
  | ARelease h =>
      match sy_ids s !! h with
      | Some id =>
          if bool_decide (h ∈ sy_stored s) && bool_decide (h ∉ sy_released s)
          then Some (mkSystem (pool_release id (sy_pool s)) (sy_ids s) (sy_stored s) ({[h]} ∪ sy_released s) (sy_started s) (sy_calls s))
          else None
      | None => None
      end
  end.

Definition sys_new : system := mkSystem NewPool [] ∅ ∅ [] [].
Inductive sys_reach : system -> Prop :=
| reach_new : sys_reach sys_new
| reach_step a s s' : sys_reach s -> sys_step a s = Some s' -> sys_reach s'.

(** ** The UDP listener *)

(** A stream of the listener: whether its read loop runs, what was sent on it and the
    replies that arrived on it and were not read yet. *)
Record udpStream := mkUS { us_reading : bool; us_sent : list (list Z); us_queue : list (list Z) }.

(** The listener: its pool with the streams, and the replies it wrote to its sources. *)
Record udpListener := mkUL { ul_targets : gmap ConnID udpStream; ul_replies : list (ConnID * list Z) }.
Definition NewUDPListener : udpListener := mkUL ∅ [].

(** What happens at a listener: a packet from a source, a reply of the peer on a stream,
    the read loop of a stream takes a reply, its idle timer fires. *)
Inductive udp_event :=
| UPacket (id : ConnID) (payload : list Z)
| UReply (id : ConnID) (m : list Z)
| URead (id : ConnID)
| UIdle (id : ConnID).

(** The [readLoop] of a [udpStream] writes a normal message to the source.  When the idle
    timer fires it ends with [startDisconnect], which does nothing for a [udpStream]: the
    stream stays in the pool.  A control message that hard-closes calls the [Stop] of
    [udpStream], which only closes the sending side. *)
Definition udp_step (e : udp_event) (l : udpListener) : udpListener :=
  match e with
  | UPacket id payload =>
      let us := default (mkUS true [] []) (ul_targets l !! id) in
      mkUL (<[id := mkUS (us_reading us) (us_sent us ++ [NewMessage Normal payload]) (us_queue us)]> (ul_targets l)) (ul_replies l)
  | UReply id m =>
      match ul_targets l !! id with
      | Some us => mkUL (<[id := mkUS (us_reading us) (us_sent us) (us_queue us ++ [m])]> (ul_targets l)) (ul_replies l)
      | None => l
      end
  | URead id =>
      match ul_targets l !! id with
      | Some (mkUS true sent ((code :: pl) :: q)) =>
          mkUL (<[id := mkUS true sent q]> (ul_targets l))
            (if code =? Normal then ul_replies l ++ [(id, pl)] else ul_replies l)
      | _ => l
      end
  | UIdle id =>
      match ul_targets l !! id with
      | Some us => mkUL (<[id := mkUS false (us_sent us) (us_queue us)]> (ul_targets l)) (ul_replies l)
      | None => l
      end
  end.

(** [UdpReader]: one turn is the bytes read with their source, and the error if any; a
    timeout lets the loop continue. *)
Inductive udp_err := UTimeout | UClosedOrEOF | UOther (what : string).
Fixpoint UdpReader {A} (turns : list (list Z * A * option udp_err)) : list (list Z * A) :=
  match turns with
  | [] => []
  | (pl, addr, err) :: rest =>
      (if bool_decide (pl = []) then [] else [(pl, addr)]) ++
      match err with
      | None | Some UTimeout => UdpReader rest
      | Some _ => []
      end
  end.

(** * Correctness of the handler pool

    Under any interleaving of calls at most one live handler is stored for an
    identifier, a handler is started at most once and only if it was stored, and a
    release removes the handler that asks for it.  A handler that loses the race is
    dropped, but its context is never cancelled.  A timed handler calls its removal
    function once.  The streams of a UDP listener never leave its pool. *)
(** ** Timed handlers *)

Inductive th_op := OpStart | OpStop | OpSetTTL (ttl : Z) | OpReset | OpFire.
Definition th_apply (o : th_op) (h : TimedHandler) : TimedHandler :=
  match o with
  | OpStart => th_Start h
  | OpStop => th_Stop h
  | OpSetTTL ttl => th_SetTTL ttl h
  | OpReset => match th_ResetIdle h with Ret (_, h') => h' | _ => h end
  | OpFire => th_fire h
  end.
Definition is_stop (o : th_op) : bool := match o with OpStop => true | _ => false end.

Lemma th_apply_removed o h :
  th_removed (th_apply o h) = (th_removed h + if is_stop o && th_remove h then 1 else 0)%nat /\
  th_remove (th_apply o h) = th_remove h && negb (is_stop o).
Proof.
  destruct o; cbn [th_apply is_stop andb negb]; rewrite ?andb_true_r, ?Nat.add_0_r.
  - done.
  - unfold th_Stop. destruct (th_remove h) eqn:E; cbn; [split; [lia|done]|]. rewrite E. split; [lia|done].
  - done.
  - unfold th_ResetIdle. by destruct (th_timer h) as [[]|].
  - done.
Qed.

(** Whatever operations are applied to a timed handler, [remove] is called once if the
    handler is ever stopped and never otherwise. *)
Theorem TimedHandler_removes_once (ttl : Z) (ops : list th_op) :
  th_removed (foldl (fun h o => th_apply o h) (NewTimedHandler ttl true) ops) = if existsb is_stop ops then 1%nat else 0%nat.
Proof.
  enough (H : forall h, th_removed (foldl (fun h o => th_apply o h) h ops) =
    (th_removed h + if existsb is_stop ops && th_remove h then 1 else 0)%nat).
  { rewrite H. cbn [NewTimedHandler th_removed th_remove]. rewrite andb_true_r. by destruct (existsb _ _). }
  induction ops as [|o ops IH]; intros h; cbn [foldl existsb]; [by rewrite Nat.add_0_r|].
  rewrite IH. destruct (th_apply_removed o h) as [-> ->]. destruct (is_stop o), (existsb is_stop ops), (th_remove h); cbn; lia.
Qed.

(** ** The pool *)

(** The pool holds the handlers that are stored and not released; started, released and
    returned handlers were stored; no two calls hold the same new handler. *)
Record pool_inv (s : system) : Prop := mkPoolInv {
  pi_pool : forall id h, sy_pool s !! id = Some h <-> sy_ids s !! h = Some id /\ h ∈ sy_stored s /\ h ∉ sy_released s;
  pi_ids : forall h, h ∈ sy_stored s -> (h < length (sy_ids s))%nat;
  pi_released : sy_released s ⊆ sy_stored s;
  pi_once : NoDup (sy_started s);
  pi_started : forall h, h ∈ sy_started s -> h ∈ sy_stored s;
  pi_insert : forall k id h, sy_calls s !! k = Some (GocInsert id h) -> sy_ids s !! h = Some id /\ h ∉ sy_stored s;
  pi_start : forall k h, sy_calls s !! k = Some (GocStart h) -> h ∈ sy_stored s /\ h ∉ sy_started s;
  pi_insert_inj : forall j k id id' h, sy_calls s !! j = Some (GocInsert id h) -> sy_calls s !! k = Some (GocInsert id' h) -> j = k;
  pi_start_inj : forall j k h, sy_calls s !! j = Some (GocStart h) -> sy_calls s !! k = Some (GocStart h) -> j = k;
  pi_result : forall k h, sy_calls s !! k = Some (GocFound h) \/ sy_calls s !! k = Some (GocCreated h) -> h ∈ sy_stored s
}.

Lemma call_insert k c (l : list goc) j x : <[k := c]> l !! j = Some x -> (j = k /\ x = c) \/ (j <> k /\ l !! j = Some x).
Proof. intros H. apply list_lookup_insert_Some in H as [(-> & -> & _)|[Hn H]]; [by left|right; split; congruence]. Qed.
Lemma call_snoc c (l : list goc) j x : (l ++ [c]) !! j = Some x -> x = c \/ l !! j = Some x.
Proof.
  intros H. apply lookup_app_Some in H as [H|[_ H]]; [by right|]. left.
  destruct (j - length l)%nat as [|n]; cbn in H; [congruence|]. destruct n; discriminate.
Qed.

(** Split a lookup in the updated list of calls into the new call and the others. *)
Ltac calls :=
  repeat match goal with
  | H : <[_ := _]> (sy_calls _) !! _ = Some _ |- _ => apply call_insert in H as [[-> H]|[? H]]
  | H : (sy_calls _ ++ [_]) !! _ = Some _ |- _ => apply call_snoc in H as [H|H]
  | H : _ \/ _ |- _ => destruct H as [H|H]
  end; simplify_eq.

Lemma inv_call id s s' : pool_inv s -> sys_step (ACall id) s = Some s' -> pool_inv s'.
Proof.
  intros [] H. injection H as <-. unfold pool_Get. destruct (sy_pool s !! id) as [h0|] eqn:Ep;
    split; cbn; try assumption; intros; calls; eauto.
  apply pi_pool0 in Ep. naive_solver.
Qed.

Lemma inv_create k ok s s' : pool_inv s -> sys_step (ACreate k ok) s = Some s' -> pool_inv s'.
Proof.
  intros [] H. cbn in H. destruct (sy_calls s !! k) as [[id| | | | |]|] eqn:Ek; try discriminate. injection H as <-.
  destruct ok; split; cbn; try assumption; intros; calls; eauto.
  - rewrite pi_pool0. split; intros (H1 & H2 & H3); (split; [|done]).
    + by apply lookup_app_l_Some.
    + apply pi_ids0 in H2. by rewrite lookup_app_l in H1.
  - rewrite length_app. apply pi_ids0 in H. cbn. lia.
  - split; [by rewrite lookup_app_r, Nat.sub_diag|]. intros Hs. apply pi_ids0 in Hs. lia.
  - match goal with H : sy_calls s !! _ = Some _ |- _ => destruct (pi_insert0 _ _ _ H) as [Hx Hy] end.
    split; [by apply lookup_app_l_Some|done].
  - match goal with H : sy_calls s !! _ = Some (GocInsert _ _) |- _ => destruct (pi_insert0 _ _ _ H) as [Hx _] end.
    apply lookup_lt_Some in Hx. lia.
  - match goal with H : sy_calls s !! _ = Some (GocInsert _ _) |- _ => destruct (pi_insert0 _ _ _ H) as [Hx _] end.
    apply lookup_lt_Some in Hx. lia.
Qed.

Lemma inv_insert k s s' : pool_inv s -> sys_step (AInsert k) s = Some s' -> pool_inv s'.
Proof.
  intros [] H. cbn in H. destruct (sy_calls s !! k) as [[|id h| | | |]|] eqn:Ek; try discriminate.
  unfold pool_insert in H. destruct (pi_insert0 _ _ _ Ek) as [Hid Hns].
  destruct (sy_pool s !! id) as [old|] eqn:Ep; injection H as <-; split; cbn; try assumption; intros; calls; eauto.
  - apply pi_pool0 in Ep. naive_solver.
  - rewrite lookup_insert_Some, pi_pool0, elem_of_union, elem_of_singleton. split.
    + intros [[<- <-]|[Hne (H1 & H2 & H3)]]; [|naive_solver]. split_and!; [done|by left|]. set_solver.
    + intros (H1 & [->|H2] & H3); [left; split; congruence|right]. split; [|done]. intros <-.
      destruct (proj2 (pi_pool0 id h0)) as []; naive_solver.
  - set_unfold. naive_solver eauto using lookup_lt_Some.
  - set_solver.
  - set_solver.
  - match goal with H : sy_calls s !! _ = Some _ |- _ => destruct (pi_insert0 _ _ _ H) as [Hx Hy] end.
    split; [done|]. rewrite elem_of_union, elem_of_singleton. intros [->|]; [|done]. eauto.
  - split; [set_solver|]. intros Hs. by apply pi_started0 in Hs.
  - match goal with H : sy_calls s !! _ = Some _ |- _ => destruct (pi_start0 _ _ H) end. set_solver.
  - match goal with H : sy_calls s !! _ = Some (GocStart _) |- _ => by destruct (pi_start0 _ _ H) end.
  - match goal with H : sy_calls s !! _ = Some (GocStart _) |- _ => by destruct (pi_start0 _ _ H) end.
  - apply elem_of_union_r. eauto.
  - apply elem_of_union_r. eauto.
Qed.

Lemma inv_start k s s' : pool_inv s -> sys_step (AStart k) s = Some s' -> pool_inv s'.
Proof.
  intros [] H. cbn in H. destruct (sy_calls s !! k) as [[| |h| | |]|] eqn:Ek; try discriminate. injection H as <-.
  destruct (pi_start0 _ _ Ek) as [Hs Hns]. split; cbn; try assumption; intros; calls; eauto.
  - apply NoDup_app. split_and!; [done| |apply NoDup_singleton]. intros x Hx ->%list_elem_of_singleton. done.
  - match goal with H : _ ∈ _ ++ _ |- _ => apply elem_of_app in H as [H| ->%list_elem_of_singleton] end; eauto.
  - match goal with H : sy_calls s !! _ = Some _ |- _ => destruct (pi_start0 _ _ H) as [Hx Hy] end. split; [done|].
    intros [Hi| ->%list_elem_of_singleton]%elem_of_app; eauto.
Qed.

Lemma inv_release h s s' : pool_inv s -> sys_step (ARelease h) s = Some s' -> pool_inv s'.
Proof.
  intros [] H. cbn in H. destruct (sy_ids s !! h) as [id|] eqn:Eh; [|discriminate].
  destruct (bool_decide (h ∈ sy_stored s)) eqn:E1, (bool_decide (h ∉ sy_released s)) eqn:E2; try discriminate.
  injection H as <-. bools. split; cbn; try assumption; [|set_solver].
  intros id' h'. unfold pool_release. rewrite lookup_delete_Some, pi_pool0, not_elem_of_union, not_elem_of_singleton.
  split.
  - intros (Hne & H1 & H2 & H3). split_and!; try done. intros ->. congruence.
  - intros (H1 & H2 & H3 & H4). split_and!; try done. intros <-.
    assert (sy_pool s !! id = Some h) by (by apply pi_pool0). assert (sy_pool s !! id = Some h') by (by apply pi_pool0).
    congruence.
Qed.

Lemma pool_inv_reach s : sys_reach s -> pool_inv s.
Proof.
  induction 1 as [|[] s s' _ IH E]; eauto using inv_call, inv_create, inv_insert, inv_start, inv_release.
  split; cbn; try set_solver; try (intros; by rewrite lookup_nil in *).
  constructor.
Qed.

(** C28. In every interleaving of calls of [GetOrCreate] and of releases: the pool holds
    exactly the handlers that were stored and not released, so two live handlers never
    share an identifier; no handler is started twice; and only handlers that were stored
    are started, returned or have their context cancelled. *)
Theorem pool_safe (s : system) : sys_reach s ->
  (forall id h, pool_Get id (sy_pool s) = Some h <-> sy_ids s !! h = Some id /\ h ∈ sy_stored s /\ h ∉ sy_released s) /\
  NoDup (sy_started s) /\ (forall h, h ∈ sy_started s -> h ∈ sy_stored s) /\ sy_released s ⊆ sy_stored s /\
  (forall k h, sy_calls s !! k = Some (GocFound h) \/ sy_calls s !! k = Some (GocCreated h) -> h ∈ sy_stored s).
Proof. intros R. destruct (pool_inv_reach _ R). done. Qed.

(** Two calls race for one identifier: both create, the second one finds the first one's
    handler and drops its own. *)
Fixpoint run (acts : list action) (s : system) : option system :=
  match acts with [] => Some s | a :: acts => match sys_step a s with Some s' => run acts s' | None => None end end.
Lemma run_reach acts s s' : sys_reach s -> run acts s = Some s' -> sys_reach s'.
Proof.
  revert s. induction acts as [|a acts IH]; intros s R H; cbn in H; [by injection H as <-|].
  destruct (sys_step a s) eqn:E; [|discriminate]. eauto using reach_step.
Qed.
Definition race : list action := [ACall [1]; ACall [1]; ACreate 0 true; ACreate 1 true; AInsert 1; AInsert 0; AStart 1].
Definition raced : system := default sys_new (run race sys_new).
Lemma raced_reach : sys_reach raced.
Proof. apply (run_reach race sys_new); [constructor|reflexivity]. Qed.

Lemma pool_safe_witness : sy_calls raced = [GocFound 1; GocCreated 1] /\ (forall h, h ∈ sy_started raced -> h ∈ sy_stored raced).
Proof. split; [reflexivity|]. apply (pool_safe raced raced_reach). Defined.

(** ** The UDP listener *)

Definition udp_run (es : list udp_event) (l : udpListener) : udpListener := foldl (fun l e => udp_step e l) l es.

(** One event: the streams of the pool stay, a dead one stays dead, and writes no reply. *)
Lemma udp_step_dead e id l us : ul_targets l !! id = Some us -> us_reading us = false ->
  (exists us', ul_targets (udp_step e l) !! id = Some us' /\ us_reading us' = false /\
     exists more, us_sent us' = us_sent us ++ more /\
       more = match e with UPacket id' pl => if bool_decide (id' = id) then [NewMessage Normal pl] else [] | _ => [] end) /\
  filter (fun r => r.1 = id) (ul_replies (udp_step e l)) = filter (fun r => r.1 = id) (ul_replies l).
Proof.
  intros Hl Hr. destruct e as [id' pl|id' m|id'|id']; cbn [udp_step].
  - split; [|done]. cbn. destruct (bool_decide (id' = id)) eqn:E; bools.
    + subst id'. rewrite lookup_insert_eq, Hl. cbn. do 2 eexists; [reflexivity|]. split; [done|]. by eexists.
    + rewrite lookup_insert_ne by done. exists us. split_and!; try done. exists []. by rewrite app_nil_r.
  - split; [|by destruct (ul_targets l !! id')]. destruct (decide (id' = id)) as [->|Hne].
    + rewrite Hl. cbn. rewrite lookup_insert_eq. eexists. split; [reflexivity|]. split; [done|]. exists []. by rewrite app_nil_r.
    + destruct (ul_targets l !! id'); cbn; rewrite ?lookup_insert_ne by done; exists us; (split_and!; [done..|exists []; by rewrite app_nil_r]).
  - destruct (decide (id' = id)) as [->|Hne].
    + rewrite Hl. destruct us as [[] sent q]; [done|]. split; [|done]. eexists. split; [done|]. split; [done|]. exists []. by rewrite app_nil_r.
    + destruct (ul_targets l !! id') as [[[] sent [|[|code pl] q]]|];
        (split; [cbn; rewrite ?lookup_insert_ne by done; exists us; (split_and!; [done..|exists []; by rewrite app_nil_r])|]); try done.
      cbn. destruct (code =? Normal); [|done]. rewrite filter_app, filter_cons, decide_False by done. cbn. by rewrite app_nil_r.
  - split; [|by destruct (ul_targets l !! id')]. destruct (decide (id' = id)) as [->|Hne].
    + rewrite Hl. cbn. rewrite lookup_insert_eq. eexists. split; [reflexivity|]. split; [done|]. exists []. by rewrite app_nil_r.
    + destruct (ul_targets l !! id'); cbn; rewrite ?lookup_insert_ne by done; exists us; (split_and!; [done..|exists []; by rewrite app_nil_r]).
Qed.

(** The packets of a source among the events. *)
Definition packets_of (id : ConnID) (es : list udp_event) : list (list Z) :=
  omap (fun e => match e with UPacket id' pl => if bool_decide (id' = id) then Some (NewMessage Normal pl) else None | _ => None end) es.

(** Once the idle timer of a source's stream has fired, the stream is never removed from
    the pool and never read again: all later packets of the source are sent on it, and
    none of its replies ever reaches the source.  The [release] function that a stream is
    created with is never called. *)
Theorem udp_idle_stream_is_dead (id : ConnID) (es : list udp_event) (l : udpListener) (us : udpStream) :
  ul_targets l !! id = Some us ->
  let l' := udp_run es (udp_step (UIdle id) l) in
  (exists us', ul_targets l' !! id = Some us' /\ us_reading us' = false /\ us_sent us' = us_sent us ++ packets_of id es) /\
  filter (fun r => r.1 = id) (ul_replies l') = filter (fun r => r.1 = id) (ul_replies l).
Proof.
  intros Hl. cbn [udp_step]. rewrite Hl.
  enough (H : forall l us, ul_targets l !! id = Some us -> us_reading us = false ->
    (exists us', ul_targets (udp_run es l) !! id = Some us' /\ us_reading us' = false /\ us_sent us' = us_sent us ++ packets_of id es) /\
    filter (fun r => r.1 = id) (ul_replies (udp_run es l)) = filter (fun r => r.1 = id) (ul_replies l)).
  { apply (H (mkUL (<[id := mkUS false (us_sent us) (us_queue us)]> (ul_targets l)) (ul_replies l)) (mkUS false (us_sent us) (us_queue us)));
      [cbn; by rewrite lookup_insert_eq|done]. }
  clear l us Hl. unfold udp_run. induction es as [|e es IH]; intros l us Hl Hr; cbn [foldl packets_of omap list_omap].
  - split; [|done]. exists us. by rewrite app_nil_r.
  - destruct (udp_step_dead e id l us Hl Hr) as [(us1 & Hl1 & Hr1 & more & Hs1 & Hm) Hf].
    destruct (IH _ _ Hl1 Hr1) as [(us2 & Hl2 & Hr2 & Hs2) Hf2]. split; [|by rewrite Hf2, Hf].
    exists us2. split_and!; [done|done|]. rewrite Hs2, Hs1, Hm, <- app_assoc. f_equal. fold (packets_of id es).
    destruct e; try reflexivity. by destruct (bool_decide _).
Qed.

Lemma udp_idle_stream_is_dead_witness :
  let l := udp_step (UPacket [1] [65]) NewUDPListener in
  let l' := udp_run [UPacket [1] [66]; UReply [1] [0; 67]; URead [1]] (udp_step (UIdle [1]) l) in
  (exists us', ul_targets l' !! [1] = Some us' /\ us_reading us' = false /\ us_sent us' = [[0; 65]; [0; 66]]) /\ ul_replies l' = [].
Proof.
  intros l l'. destruct (udp_idle_stream_is_dead [1] [UPacket [1] [66]; UReply [1] [0; 67]; URead [1]] l (mkUS true [[0; 65]] [])) as [H _];
    [reflexivity|]. split; [exact H|reflexivity].
Defined.

(** While its read loop runs, a stream delivers every reply to its source, in order. *)
Theorem udp_reply_delivered (id : ConnID) (sent : list (list Z)) (pls : list (list Z)) (l : udpListener) :
  ul_targets l !! id = Some (mkUS true sent (map (NewMessage Normal) pls)) ->
  let l' := udp_run (replicate (length pls) (URead id)) l in
  ul_replies l' = ul_replies l ++ map (pair id) pls /\ ul_targets l' !! id = Some (mkUS true sent []).
Proof.
  revert l. induction pls as [|pl pls IH]; intros l Hl; [by rewrite app_nil_r|].
  cbn [length replicate udp_run foldl]. fold (udp_run (replicate (length pls) (URead id)) (udp_step (URead id) l)).
  cbn [map] in Hl. rewrite NewMessage_cons in Hl. cbn [udp_step]. rewrite Hl. change (u8 Normal =? Normal) with true.
  destruct (IH (mkUL (<[id := mkUS true sent (map (NewMessage Normal) pls)]> (ul_targets l)) (ul_replies l ++ [(id, pl)]))) as [H1 H2].
  { cbn. by rewrite lookup_insert_eq. }
  split; [|exact H2]. rewrite H1. cbn. by rewrite <- app_assoc.
Qed.
