(* ===== verification/Dialer.v ===== *)
(** * Endpoints that connect a stream with a connection (src/pkg/tunnel/dialer.go)

    A [dialer] dials (or is given a connection), then runs one loop from the connection
    to the stream and one from the stream to the connection.  Both loops, a control
    message from the peer and the final [Stop] may close halves of the connection; they
    agree by compare-and-swap on the field [connected].  The closing calls are modelled
    as programs of atomic steps that any schedule may interleave.  What the connection,
    the stream and the timers do are arguments. *)
From S2P Require Import Prelude NetIP GoStrings PortTypes ConnId Message StreamConn Pool.
Local Open Scope Z_scope.

(** Durations in nanoseconds. *)
Definition tcpConnTTL : Z := 2 * 3600 * 10 ^ 9.
Definition udpConnTTL : Z := 2 * 10 ^ 9.
Definition localDialTimeout : Z := 2 * 10 ^ 9.
Definition maxConcurrentDialResponders : nat := 256.

Inductive conn_state := notConnected | connecting | connected | readClosed | writeClosed.
Global Instance conn_state_eq : EqDecision conn_state.
Proof. solve_decision. Defined.

(** The int32 values of the constants. *)
Definition conn_state_code (s : conn_state) : Z :=
  match s with notConnected => 0 | connecting => 1 | connected => 2 | readClosed => 3 | writeClosed => 4 end.

(** [NewConnEndpoint] and [NewConnEndpointTTL]: the time to live and the first state. *)
Definition NewConnEndpoint (proto : Z) (hasConn : bool) : Z * conn_state :=
  (if proto =? 17 then udpConnTTL else tcpConnTTL, if hasConn then connecting else notConnected).

(** ** Closing the two halves *)

(** [atomic.CompareAndSwapInt32(&h.connected, old, new)]. *)
Definition cas (old new s : conn_state) : bool * conn_state := if conn_state_code s =? conn_state_code old then (true, new) else (false, s).

(** Atomic steps: the first and the second compare-and-swap of [startReaderDisconnect]
    and its [CloseWrite]; the same for [startWriterDisconnect] and [CloseRead]; the single
    compare-and-swap and [Close] of a connection that is not a [halfCloser]; and the
    call of the cancel function. *)
Inductive mop := R1 | R2 | DoCloseWrite | W1 | W2 | DoCloseRead | N1 | DoClose | DoCancel.
Global Instance mop_eq : EqDecision mop.
Proof. solve_decision. Defined.

(** [startDisconnect] for a [halfCloser] or another connection. *)
Definition startDisconnect (half isReader : bool) : list mop :=
  if half then (if isReader then [R1] else [W1]) else [N1].
Definition dialer_Stop (half : bool) : list mop := startDisconnect half true ++ startDisconnect half false ++ [DoCancel].

(** One step of a program: what runs next in its place, and the new state. *)
Definition mop_step (o : mop) (s : conn_state) : list mop * conn_state :=
  match o with
  | R1 => let '(ok, s') := cas connected readClosed s in (if ok : bool then [DoCloseWrite] else [R2], s')
  | R2 => let '(ok, s') := cas writeClosed notConnected s in (if ok : bool then [DoCloseWrite] else [], s')
  | W1 => let '(ok, s') := cas connected writeClosed s in (if ok : bool then [DoCloseRead] else [W2], s')
  | W2 => let '(ok, s') := cas readClosed notConnected s in (if ok : bool then [DoCloseRead] else [], s')
  | N1 => let '(ok, s') := cas connected notConnected s in (if ok : bool then [DoClose] else [], s')
  | DoCloseWrite | DoCloseRead | DoClose | DoCancel => ([], s)
  end.

(** The goroutines with their programs, the field, and the calls made so far. *)
Record closing := mkClosing { cl_state : conn_state; cl_threads : list (list mop); cl_done : list mop }.
Definition closing_step (i : nat) (c : closing) : option closing :=
  match cl_threads c !! i with
  | Some (o :: rest) =>
      let '(next, s) := mop_step o (cl_state c) in
      Some (mkClosing s (<[i := next ++ rest]> (cl_threads c)) (cl_done c ++ [o]))
  | _ => None
  end.
(** A schedule is the list of goroutines that make a step. *)
Fixpoint closing_run (sched : list nat) (c : closing) : option closing :=
  match sched with
  | [] => Some c
  | i :: sched => match closing_step i c with Some c' => closing_run sched c' | None => None end
  end.

(** ** [Start] *)

Inductive start_event :=
| EDial (proto : Z) (dst : AddrPort) (timeout : Z)
| ESendReject
| ECloseSend
| ESendOK
| ECloseConn
| ETimer
| ELoops.

(** [resolve] is the resolver of synthetic addresses, [dial] whether the dial with its
    retries succeeded, [sendOK] whether the DialOK message could be sent.  The result is
    what happens up to the start of the two loops, and the field [connected]. *)
Definition dialer_Start (resolve : Addr -> option Addr) (dial sendOK : bool) (id : ConnID) (dialTimeout : Z)
    (state : conn_state) : Go Empty_set (list start_event * conn_state) :=
  match state with
  | connecting => mret ([ETimer; ELoops], connected)
  | notConnected =>
      proto ← or_panic (Protocol id);
      src ← or_panic (Source id);
      dst ← or_panic (Destination id);
      let go dst dto :=
        if negb dial then ([EDial proto dst dto; ESendReject; ECloseSend], notConnected)
        else if negb sendOK then ([EDial proto dst dto; ESendOK; ECloseConn], connecting)
        else ([EDial proto dst dto; ESendOK; ETimer; ELoops], connected) in
      if Is6 (ap_addr dst) then
        match resolve (ap_addr dst) with
        | None => mret ([], notConnected)
        | Some addr =>
            if bool_decide (addr = ap_addr dst) then mret (go dst dialTimeout)
            else
              id' ← NewConnID proto src (Build_AddrPort addr (ap_port dst));
              dst' ← or_panic (Destination id');
              mret (go dst' (if localDialTimeout <? dialTimeout then localDialTimeout else dialTimeout))
        end
      else mret (go dst dialTimeout)
  | _ => mret ([], state)
  end.

(** ** From the connection to the stream *)

Inductive read_err := ReadTimeout | ReadEOF | ReadClosed | ReadAborted | ReadFailure (what : string).
(** One turn of [connToStreamLoop]: the bytes read and the error; whether the context's
    branch was taken for them; whether the context is done after a timeout; what
    [ResetIdle] returns. *)
Record ct_turn := mkCT { ct_data : list Z; ct_err : option read_err; ct_ctxBranch : bool; ct_ctxDone : bool; ct_reset : bool }.
Inductive loop_end := EndContext | EndIdle | EndErr (e : read_err).

(** The messages put on the outgoing channel, and why the loop ended ([None] while it runs). *)
Fixpoint connToStreamLoop (turns : list ct_turn) : list (list Z) * option loop_end :=
  match turns with
  | [] => ([], None)
  | t :: rest =>
      if negb (bool_decide (ct_data t = [])) && ct_ctxBranch t then ([], Some EndContext)
      else
        let sent := if bool_decide (ct_data t = []) then [] else [NewMessage Normal (ct_data t)] in
        let '(more, e) :=
          match ct_err t with
          | Some ReadTimeout => if ct_ctxDone t then ([], Some EndContext) else connToStreamLoop rest
          | Some err => ([], Some (EndErr err))
          | None => if ct_reset t then connToStreamLoop rest else ([], Some EndIdle)
          end in
        (sent ++ more, e)
  end.
(** The reading half is closed only after a read error. *)
Definition loop_disconnects (half : bool) (e : option loop_end) : list mop :=
  match e with Some (EndErr _) => startDisconnect half false | _ => [] end.

(** The deferred function: a hard-close message when the handler was idle and the writer
    is ready for it, then the end of the channel. *)
Definition connToStream_deferred (reset writerReady : bool) : list (list Z) :=
  if negb reset && writerReady then [NewMessage Disconnect []] else [].

(** ** From the stream to the connection *)

(** [for n := 0; n < pn;] with the results of [reply]: bytes written, or an error.  The
    result is what reached the connection and whether the loop failed; [None] when the
    results do not suffice. *)
Fixpoint write_payload (results : list (option nat)) (payload : list Z) : option (list Z * bool * list (option nat)) :=
  match payload with
  | [] => Some ([], false, results)
  | _ =>
      match results with
      | [] => None
      | None :: rest => Some ([], true, rest)
      | Some wn :: rest =>
          '(w, failed, rest') ← write_payload rest (drop wn payload);
          Some (take wn payload ++ w, failed, rest')
      end
  end.

Inductive rl_event :=
| RLContext
| RLIdle
| RLError
| RLClosed
| RLMessage (m : list Z) (reset : bool).

(** What [handleControl] does. *)
Inductive control := CtlStop | CtlResetIdle | CtlNothing | CtlUnhandled.
Definition handleControl (code : Z) : control :=
  if (code =? DialReject) || (code =? Disconnect) then CtlStop
  else if code =? KeepAlive then CtlResetIdle
  else if code =? DialOK then CtlNothing
  else CtlUnhandled.

(** The bytes written to the connection, the control actions, and whether the loop ended. *)
Fixpoint readLoop (events : list rl_event) (results : list (option nat)) : option (list Z * list control * bool) :=
  match events with
  | [] => Some ([], [], false)
  | RLContext :: _ | RLIdle :: _ | RLClosed :: _ => Some ([], [], true)
  | RLError :: rest => readLoop rest results
  | RLMessage m reset :: rest =>
      if negb reset then Some ([], [], true)
      else match m with
           | [] => None
           | code :: payload =>
               if code =? Normal then
                 '(w, failed, results) ← write_payload results payload;
                 if failed : bool then Some (w, [], true)
                 else '(w', cs, e) ← readLoop rest results; Some (w ++ w', cs, e)
               else '(w', cs, e) ← readLoop rest results; Some (w', handleControl code :: cs, e)
           end
  end.
(** The programs that close halves: the control messages' and, at the end, the deferred one. *)
Definition readLoop_disconnects (half : bool) (cs : list control) (ended : bool) : list mop :=
  concat (map (fun c => match c with CtlStop => dialer_Stop half | _ => [] end) cs) ++
  (if ended : bool then startDisconnect half true else []).

(** ** Waiting for dial requests *)

(** A request arrives, is served by a new responder if a slot is free, and the responder
    ends; the counters are those of the metrics. *)
Inductive dw_event := DWRequest | DWDone (failed : bool).
Record dial_wait := mkDW { dw_running : nat; dw_waiting : bool; dw_dials : nat; dw_errors : nat }.
Definition dw_step (e : dw_event) (w : dial_wait) : option dial_wait :=
  match e with
  | DWRequest =>
      if dw_waiting w then None
      else if Nat.ltb (dw_running w) maxConcurrentDialResponders
           then Some (mkDW (S (dw_running w)) false (S (dw_dials w)) (dw_errors w))
           else Some (mkDW (dw_running w) true (dw_dials w) (dw_errors w))
  | DWDone failed =>
      match dw_running w with
      | O => None
      | S n =>
          let errs := if failed : bool then S (dw_errors w) else dw_errors w in
          Some (if dw_waiting w then mkDW (S n) false (S (dw_dials w)) errs else mkDW n false (dw_dials w) errs)
      end
  end.

(** How the loop ends after an error of [Recv]: silently, or with the error. *)
Definition dial_wait_error (ctxDone : bool) (e : recv_error) : option string :=
  if ctxDone then None
  else match re_kind e with
       | IsEOF | IsNetClosed => None
       | _ =>
           if bool_decide (re_code e ∈ [codes_Canceled; codes_NotFound; codes_Unavailable]) then None
           else Some ("dial request stream recv: " +:+ re_text e)
       end.

(** [dialRespond]: the calls of the cancel function it makes itself, the errors counted,
    and whether a dialer is started, from the results of the tunnel and the handshake. *)
Definition dialRespond (tunnelOK streamOK : bool) : nat * nat * bool :=
  if negb tunnelOK then (1, 1, false)%nat
  else if negb streamOK then (1, 1, false)%nat
  else (0, 0, true)%nat.
