(* ===== verification/DialerSpec.v ===== *)
(** * Correctness of the endpoints of a tunnel

    However the goroutines that close an endpoint interleave, each half of its connection
    is closed once if anybody asks for it, and all of them finish within three steps per
    request.  The loops carry the bytes of a connection unchanged to the connection at
    the other end.  A dialer answers each dial with one message, and the number of
    responders is bounded. *)
From S2P Require Import Prelude NetIP GoStrings PortTypes ConnId Message StreamConn StreamConnSpec Pool Dialer.
Local Open Scope Z_scope.

(** ** Closing *)

Abbreviation total f l := (sum_list_with f l).
Definition isCloseWrite (o : mop) : nat := match o with DoCloseWrite => 1 | _ => 0 end.
Definition isCloseRead (o : mop) : nat := match o with DoCloseRead => 1 | _ => 0 end.
Definition isClose (o : mop) : nat := match o with DoClose => 1 | _ => 0 end.
Definition isReader (o : mop) : nat := match o with R1 | R2 => 1 | _ => 0 end.
Definition isWriter (o : mop) : nat := match o with W1 | W2 => 1 | _ => 0 end.
Definition isSecond (o : mop) : nat := match o with R2 | W2 => 1 | _ => 0 end.
Definition isWhole (o : mop) : nat := match o with N1 | DoClose => 1 | _ => 0 end.
Definition work (o : mop) : nat := match o with R1 | W1 => 3 | R2 | W2 | N1 => 2 | _ => 1 end.

Definition readerClosed (s : conn_state) : bool := match s with readClosed | notConnected => true | _ => false end.
Definition writerClosed (s : conn_state) : bool := match s with writeClosed | notConnected => true | _ => false end.

(** A step replaces the first operation of one program. *)
Lemma closing_step_inv i c c' : closing_step i c = Some c' -> exists l1 o rest l2,
  cl_threads c = l1 ++ (o :: rest) :: l2 /\
  c' = mkClosing (mop_step o (cl_state c)).2 (l1 ++ ((mop_step o (cl_state c)).1 ++ rest) :: l2) (cl_done c ++ [o]).
Proof.
  unfold closing_step. destruct (cl_threads c !! i) as [[|o rest]|] eqn:E; try discriminate.
  intros H. exists (take i (cl_threads c)), o, rest, (drop (S i) (cl_threads c)). split; [by rewrite take_drop_middle|].
  destruct (mop_step o (cl_state c)) as [next s]. injection H as <-. by rewrite insert_take_drop by (by apply lookup_lt_Some in E).
Qed.

(** The totals over all programs change by the difference of that operation and what
    replaces it. *)
Lemma closing_step_total i c c' : closing_step i c = Some c' -> exists o,
  cl_state c' = (mop_step o (cl_state c)).2 /\ cl_done c' = cl_done c ++ [o] /\
  (forall f, total f (concat (cl_threads c')) + f o = total f (concat (cl_threads c)) + total f (mop_step o (cl_state c)).1)%nat /\
  (forall f, f o <= total f (concat (cl_threads c)))%nat.
Proof.
  intros H. apply closing_step_inv in H as (l1 & o & rest & l2 & Ht & ->). exists o. split_and!; [done|done| |]; intros g; cbn.
  - rewrite Ht, !concat_app, !sum_list_with_app. cbn. rewrite !sum_list_with_app. lia.
  - rewrite Ht, concat_app, sum_list_with_app. cbn. lia.
Qed.

(** The invariant of the closing of a [halfCloser]; [r] and [w] say whether a program
    closes for the reader or for the writer. *)
Record closing_inv (r w : bool) (c : closing) : Prop := mkClosingInv {
  ci_write : (total isCloseWrite (cl_done c) + total isCloseWrite (concat (cl_threads c)) = if readerClosed (cl_state c) then 1 else 0)%nat;
  ci_read : (total isCloseRead (cl_done c) + total isCloseRead (concat (cl_threads c)) = if writerClosed (cl_state c) then 1 else 0)%nat;
  ci_state : cl_state c <> connecting;
  ci_second : cl_state c = connected -> total isSecond (concat (cl_threads c)) = 0%nat;
  ci_half : total isWhole (concat (cl_threads c)) = 0%nat;
  ci_reader : if r then readerClosed (cl_state c) = true \/ (0 < total isReader (concat (cl_threads c)))%nat
              else readerClosed (cl_state c) = false /\ total isReader (concat (cl_threads c)) = 0%nat;
  ci_writer : if w then writerClosed (cl_state c) = true \/ (0 < total isWriter (concat (cl_threads c)))%nat
              else writerClosed (cl_state c) = false /\ total isWriter (concat (cl_threads c)) = 0%nat
}.

Ltac half_cases :=
  repeat match goal with
  | H : connected = connected -> _ |- _ => specialize (H eq_refl)
  | H : _ \/ _ |- _ => destruct H
  | H : _ /\ _ |- _ => destruct H
  end;
  first [congruence | lia | intros _; lia | split; [reflexivity|lia] | left; reflexivity | right; lia].

Lemma closing_inv_step r w i c c' : closing_inv r w c -> closing_step i c = Some c' -> closing_inv r w c'.
Proof.
  intros [] H. apply closing_step_total in H as (o & Hs & Hd & Ht & Hm).
  pose proof (Hm isSecond). pose proof (Hm isWhole). pose proof (Hm isReader). pose proof (Hm isWriter).
  pose proof (Ht isCloseWrite). pose proof (Ht isCloseRead). pose proof (Ht isSecond). pose proof (Ht isWhole).
  pose proof (Ht isReader). pose proof (Ht isWriter). clear Ht Hm.
  destruct (cl_state c) eqn:Es, o; cbn in *; try lia; try congruence;
    (split; rewrite ?Hs, ?Hd, ?sum_list_with_app; cbn; try done; try lia; destruct r, w; half_cases).
Qed.

Lemma closing_inv_run r w sched c c' : closing_inv r w c -> closing_run sched c = Some c' -> closing_inv r w c'.
Proof.
  revert c. induction sched as [|i sched IH]; intros c I H; cbn in H; [by injection H as <-|].
  destruct (closing_step i c) as [c1|] eqn:E; [|discriminate]. eauto using closing_inv_step.
Qed.

(** Every step uses up some of the work that the programs stand for. *)
Lemma closing_run_work sched c c' : closing_run sched c = Some c' ->
  (length sched + total work (concat (cl_threads c')) <= total work (concat (cl_threads c)))%nat.
Proof.
  revert c. induction sched as [|i sched IH]; intros c H; cbn in H; [by injection H as <-|].
  destruct (closing_step i c) as [c1|] eqn:E; [|discriminate]. apply IH in H.
  apply closing_step_total in E as (o & Hs & Hd & Ht & _). specialize (Ht work). cbn [length].
  enough (total work (mop_step o (cl_state c)).1 < work o)%nat by lia.
  destruct o, (cl_state c); cbn; lia.
Qed.

Lemma closing_progress c : concat (cl_threads c) <> [] -> exists i c', closing_step i c = Some c'.
Proof.
  intros H. unfold closing_step. induction (cl_threads c) as [|t ts IH]; [done|]. destruct t as [|o rest].
  - destruct IH as (i & c' & E); [done|]. exists (S i). cbn [lookup list_lookup].
    destruct (ts !! i) as [[|o rest]|] eqn:Ei; try discriminate. destruct (mop_step o (cl_state c)). by eexists.
  - exists 0%nat. cbn. destruct (mop_step o (cl_state c)). by eexists.
Qed.

(** The programs of goroutines that close a [halfCloser]: any number of disconnects of the
    reader and of the writer, and calls of the cancel function. *)
Definition half_program (t : list mop) : Prop := Forall (fun o => o = R1 \/ o = W1 \/ o = DoCancel) t.

Lemma half_program_inv (ts : list (list mop)) : Forall half_program ts ->
  closing_inv (bool_decide (R1 ∈ concat ts)) (bool_decide (W1 ∈ concat ts)) (mkClosing connected ts []).
Proof.
  intros H. assert (Hc : Forall (fun o => o = R1 \/ o = W1 \/ o = DoCancel) (concat ts)) by (by apply Forall_concat).
  assert (Hz : forall f, f R1 = 0%nat -> f W1 = 0%nat -> f DoCancel = 0%nat -> total f (concat ts) = 0%nat).
  { intros f H1 H2 H3. induction Hc as [|o l Ho _ IH]; [done|]. cbn. rewrite IH. destruct Ho as [-> |[-> | ->]]; lia. }
  assert (Hr : forall f o, f o = 1%nat -> (forall o', f o' <> 0%nat -> (o' = R1 \/ o' = W1 \/ o' = DoCancel) -> o' = o) ->
    (if bool_decide (o ∈ concat ts) then (0 < total f (concat ts))%nat else total f (concat ts) = 0%nat)).
  { intros f o Hf Ho. destruct (bool_decide (o ∈ concat ts)) eqn:E; bools.
    - clear -E Hf. induction E as [|o x l _ IH]; cbn; [lia|]. specialize (IH Hf). lia.
    - clear -E Ho Hc. induction Hc as [|x l Hx _ IH]; [done|]. apply not_elem_of_cons in E as [E1 E2]. cbn. rewrite (IH E2).
      destruct (decide (f x = 0%nat)); [lia|]. exfalso. apply E1. symmetry. by apply Ho. }
  assert (Hr1 := Hr isReader R1 eq_refl). assert (Hw1 := Hr isWriter W1 eq_refl).
  split; cbn; rewrite ?Hz by done; try done.
  - specialize (Hr1 ltac:(intros [] ? ?; naive_solver)). destruct (bool_decide (R1 ∈ concat ts)); [by right|done].
  - specialize (Hw1 ltac:(intros [] ? ?; naive_solver)). destruct (bool_decide (W1 ∈ concat ts)); [by right|done].
Qed.

(** C29. However the goroutines that close an endpoint interleave: no half is closed twice;
    the run is over after at most three steps for each request, and until then some
    goroutine can go on; and when it is over, the writing half was closed exactly if the
    reader's side asked for it, the reading half exactly if the writer's side did, and the
    endpoint is not connected exactly if both did. *)
Theorem closing_correct (ts : list (list mop)) (sched : list nat) (c : closing) :
  Forall half_program ts -> closing_run sched (mkClosing connected ts []) = Some c ->
  (total isCloseWrite (cl_done c) <= 1)%nat /\ (total isCloseRead (cl_done c) <= 1)%nat /\
  (length sched <= 3 * length (concat ts))%nat /\
  (concat (cl_threads c) <> [] -> exists i c', closing_step i c = Some c') /\
  (concat (cl_threads c) = [] ->
   total isCloseWrite (cl_done c) = (if bool_decide (R1 ∈ concat ts) then 1 else 0)%nat /\
   total isCloseRead (cl_done c) = (if bool_decide (W1 ∈ concat ts) then 1 else 0)%nat /\
   (cl_state c = notConnected <-> R1 ∈ concat ts /\ W1 ∈ concat ts)).
Proof.
  intros Hts Hrun. destruct (closing_inv_run _ _ _ _ _ (half_program_inv ts Hts) Hrun) as [Iw Ir Is _ _ Irr Iww].
  split_and!.
  - destruct (readerClosed _); lia.
  - destruct (writerClosed _); lia.
  - apply closing_run_work in Hrun. cbn in Hrun.
    assert (Hc : (total work (concat ts) <= 3 * length (concat ts))%nat); [|lia].
    clear. induction (concat ts) as [|o l IH]; cbn; [lia|]. destruct o; cbn; lia.
  - apply closing_progress.
  - intros E. rewrite E in *. cbn in *. clear Hrun.
    destruct (bool_decide (R1 ∈ concat ts)) eqn:E1, (bool_decide (W1 ∈ concat ts)) eqn:E2; bools;
      destruct (cl_state c); cbn in *; split_and!; try lia; try (split; [intros|intros []]; done);
      destruct Irr, Iww; try done; lia.
Qed.

(** The goroutines of an endpoint whose peer disconnects: the loop that reads the
    connection, the control message and the end of the loop that reads the stream, and
    [Stop]. *)
Definition endpoint_threads : list (list mop) := [startDisconnect true false; dialer_Stop true ++ startDisconnect true true; dialer_Stop true].
Definition endpoint_schedule : list nat := [1; 0; 1; 0; 0; 2; 1; 1; 1; 1; 1; 2; 2; 2; 2]%nat.
Lemma closing_correct_witness :
  let c := mkClosing notConnected [[]; []; []] [R1; W1; DoCloseWrite; W2; DoCloseRead; R1; W1; W2; DoCancel; R1; R2; R2; W1; W2; DoCancel] in
  closing_run endpoint_schedule (mkClosing connected endpoint_threads []) = Some c /\
  total isCloseWrite (cl_done c) = 1%nat /\ total isCloseRead (cl_done c) = 1%nat.
Proof.
  intros c. assert (Hr : closing_run endpoint_schedule (mkClosing connected endpoint_threads []) = Some c) by (vm_compute; reflexivity).
  split; [exact Hr|]. destruct (closing_correct endpoint_threads endpoint_schedule c) as (_ & _ & _ & _ & H); [|exact Hr|].
  - repeat (apply Forall_cons; split; [repeat (apply Forall_cons; split; [auto|]); apply Forall_nil; exact I|]). apply Forall_nil. exact I.
  - destruct H as (H1 & H2 & _); [reflexivity|]. 
    assert (E1 : bool_decide (R1 ∈ concat endpoint_threads) = true) by (vm_compute; reflexivity).
    assert (E2 : bool_decide (W1 ∈ concat endpoint_threads) = true) by (vm_compute; reflexivity).
    rewrite E1 in H1. rewrite E2 in H2. split; [exact H1|exact H2].
Defined.

(** A connection that cannot be closed by halves is closed exactly once, if at all. *)
Theorem closing_whole (ts : list (list mop)) (sched : list nat) (c : closing) :
  Forall (Forall (fun o => o = N1 \/ o = DoCancel)) ts -> closing_run sched (mkClosing connected ts []) = Some c ->
  (total isClose (cl_done c) + total isClose (concat (cl_threads c)) = match cl_state c with connected => 0 | _ => 1 end)%nat /\
  (cl_state c = connected \/ cl_state c = notConnected).
Proof.
  intros Hts. assert (H0 : Forall (fun o => o = N1 \/ o = DoCancel \/ o = DoClose) (concat ts) /\ total isClose (concat ts) = 0%nat).
  { assert (Hc : Forall (fun o => o = N1 \/ o = DoCancel) (concat ts)) by (by apply Forall_concat).
    split; [eapply Forall_impl; [exact Hc|]; naive_solver|]. induction Hc as [|o l Ho _ IH]; [done|]. cbn. rewrite IH. by destruct Ho as [-> | ->]. }
  destruct H0 as [H1 H2]. set (c0 := mkClosing connected ts []). change (concat ts) with (concat (cl_threads c0)) in H1, H2.
  assert (H3 : (total isClose (cl_done c0) + total isClose (concat (cl_threads c0)) = match cl_state c0 with connected => 0 | _ => 1 end)%nat) by (cbn; exact H2).
  assert (H4 : cl_state c0 = connected \/ cl_state c0 = notConnected) by (by left).
  clearbody c0. clear H2 Hts ts. revert c0 H1 H3 H4. induction sched as [|i sched IH]; intros c0 H1 H3 H4 Hr; cbn in Hr; [by injection Hr as <-|].
  destruct (closing_step i c0) as [c1|] eqn:E; [|discriminate]. apply (IH c1); try assumption; clear IH Hr.
  all: apply closing_step_inv in E as (l1 & o & rest & l2 & Ht & ->); cbn [cl_state cl_threads cl_done].
  all: rewrite Ht, concat_app, Forall_app in H1; cbn [concat app] in H1; rewrite Forall_cons, Forall_app in H1; destruct H1 as (Ha & Ho & Hb & Hc).
  - rewrite concat_app, Forall_app. cbn [concat]. rewrite !Forall_app. split_and!; try assumption.
    destruct Ho as [-> |[-> | ->]], H4 as [-> | ->]; cbn; rewrite ?Forall_singleton; auto.
  - rewrite Ht, concat_app, sum_list_with_app in H3. rewrite concat_app, !sum_list_with_app. cbn [concat app sum_list_with] in *.
    rewrite !sum_list_with_app in *. destruct Ho as [-> |[-> | ->]], H4 as [H4|H4]; rewrite H4 in *; cbn in *; lia.
  - destruct Ho as [-> |[-> | ->]], H4 as [-> | ->]; cbn; auto.
Qed.

(** ** The loops *)

(** The chunks that a connection delivers are sent as one message each, in order; and if
    the write loop passes them on and the peer's read loop gets them, the peer's connection
    receives the same bytes, whatever its [Write] calls accept at a time. *)
Definition chunks (turns : list ct_turn) : list (list Z) := filter (fun d => d <> []) (map ct_data turns).

Lemma connToStream_messages turns ms e : connToStreamLoop turns = (ms, e) ->
  exists sent, ms = map (NewMessage Normal) sent /\ (exists rest, chunks turns = sent ++ rest) /\ (e = None -> sent = chunks turns).
Proof.
  revert ms e. induction turns as [|t turns IH]; intros ms e H; cbn [connToStreamLoop] in H.
  { injection H as <- <-. exists []. split_and!; try done. by exists []. }
  unfold chunks. cbn [map]. fold (chunks turns). rewrite filter_cons. fold (chunks turns).
  destruct (decide (ct_data t = [])) as [Ed|Ed].
  - rewrite (bool_decide_true (ct_data t = [])), decide_False in * by naive_solver. cbn [negb andb app] in H.
    destruct (ct_err t) as [[]|]; try (injection H as <- <-; exists []; split_and!; [done|by eexists|done]).
    + destruct (ct_ctxDone t); [injection H as <- <-; exists []; split_and!; [done|by eexists|done]|].
      destruct (connToStreamLoop turns) as [ms' e'] eqn:E'. injection H as <- <-. eauto.
    + destruct (ct_reset t); [|injection H as <- <-; exists []; split_and!; [done|by eexists|done]].
      destruct (connToStreamLoop turns) as [ms' e'] eqn:E'. injection H as <- <-. eauto.
  - rewrite (bool_decide_false (ct_data t = [])), decide_True in * by done. cbn [negb andb] in H.
    destruct (ct_ctxBranch t); [injection H as <- <-; exists []; split_and!; [done|by eexists|done]|].
    destruct (ct_err t) as [[]|]; try (injection H as <- <-; exists [ct_data t]; split_and!; [done|by eexists|done]).
    + destruct (ct_ctxDone t); [injection H as <- <-; exists [ct_data t]; split_and!; [done|by eexists|done]|].
      destruct (connToStreamLoop turns) as [ms' e'] eqn:E'. injection H as <- <-.
      destruct (IH _ _ eq_refl) as (sent & -> & [rest Hr] & He). exists (ct_data t :: sent). split_and!; [done|exists rest; by rewrite Hr|].
      intros ->. by rewrite He.
    + destruct (ct_reset t); [|injection H as <- <-; exists [ct_data t]; split_and!; [done|by eexists|done]].
      destruct (connToStreamLoop turns) as [ms' e'] eqn:E'. injection H as <- <-.
      destruct (IH _ _ eq_refl) as (sent & -> & [rest Hr] & He). exists (ct_data t :: sent). split_and!; [done|exists rest; by rewrite Hr|].
      intros ->. by rewrite He.
Qed.

(** A [Write] that accepts something. *)
Definition accepts (r : option nat) : Prop := match r with Some (S _) => True | _ => False end.

Lemma write_payload_all results payload : Forall accepts results -> (length payload <= length results)%nat ->
  exists rest, write_payload results payload = Some (payload, false, rest) /\ Forall accepts rest /\
    (length results <= length rest + length payload)%nat.
Proof.
  revert payload. induction results as [|r results IH]; intros payload Hr Hl.
  - destruct payload; [|cbn in Hl; lia]. exists []. repeat split; [constructor|cbn; lia].
  - destruct payload as [|b pl]; [exists (r :: results); repeat split; [done|lia]|].
    inversion Hr as [|? ? H1 H2]; subst. destruct r as [[|n]|]; try done. cbn [length] in Hl.
    destruct (IH (drop (S n) (b :: pl)) H2) as (rest & E & Hf & Hlen).
    { rewrite length_drop. cbn [length]. lia. }
    exists rest. cbn [write_payload]. rewrite E. cbn [mbind option_bind]. rewrite take_drop. repeat split; [done|].
    rewrite length_drop in Hlen. cbn [length] in *. lia.
Qed.

Lemma readLoop_normal sent results : Forall accepts results -> (length (concat sent) <= length results)%nat ->
  readLoop (map (fun pl => RLMessage (NewMessage Normal pl) true) sent ++ [RLClosed]) results = Some (concat sent, [], true).
Proof.
  revert results. induction sent as [|pl sent IH]; intros results Hr Hl; [reflexivity|].
  cbn [map app readLoop negb concat] in *. rewrite NewMessage_cons. change (u8 Normal =? Normal) with true. cbv iota.
  rewrite length_app in Hl.
  destruct (write_payload_all results pl Hr) as (rest & E & Hf & Hlen); [lia|]. rewrite E. cbn [mbind option_bind].
  rewrite IH; [reflexivity|done|lia].
Qed.

(** C30. From connection to connection: what one endpoint reads from its connection while its
    loop runs is written to the connection of the peer's endpoint, in order and unchanged,
    whatever the sizes of reads and writes; the peer then closes its writing side. *)
Theorem tunnel_carries_bytes (turns : list ct_turn) (ms : list (list Z)) (results : list (option nat)) :
  connToStreamLoop turns = (ms, None) -> Forall accepts results -> (length (concat (map ct_data turns)) <= length results)%nat ->
  readLoop (map (fun m => RLMessage m true) ms ++ [RLClosed]) results = Some (concat (map ct_data turns), [], true) /\
  readLoop_disconnects true [] true = [R1].
Proof.
  intros H Hr Hl. split; [|reflexivity]. apply connToStream_messages in H as (sent & -> & _ & Hs). specialize (Hs eq_refl).
  assert (Hc : concat (map ct_data turns) = concat sent).
  { rewrite Hs. unfold chunks. clear. induction (map ct_data turns) as [|d l IH]; [done|]. rewrite filter_cons.
    destruct d as [|b d]; [rewrite decide_False by naive_solver|rewrite decide_True by done]; cbn [concat]; by rewrite IH. }
  rewrite Hc in *. rewrite map_map. by apply readLoop_normal.
Qed.

Lemma tunnel_carries_bytes_witness :
  readLoop (map (fun m => RLMessage m true) [NewMessage Normal [1; 2; 3]; NewMessage Normal [4]] ++ [RLClosed]) [Some 2; Some 1; Some 9; Some 1]%nat
  = Some ([1; 2; 3; 4], [], true).
Proof.
  apply (tunnel_carries_bytes [mkCT [1; 2; 3] None false false true; mkCT [] (Some ReadTimeout) false false true; mkCT [4] None false false true]).
  - reflexivity.
  - repeat (apply Forall_cons; split; [exact I|]). apply Forall_nil. exact I.
  - cbn. lia.
Defined.

(** ** Dialing *)

(** [Start] in the state notConnected: a dial is answered with exactly one DialOK or
    DialReject, the loops run exactly when DialOK was sent, and the state is then
    connected.  When a synthetic address cannot be resolved nothing is sent at all, and
    when the DialOK message fails the state stays connecting. *)
Theorem dialer_Start_correct (resolve : Addr -> option Addr) (dial sendOK : bool) (id : ConnID) (dto : Z)
    (evs : list start_event) (s : conn_state) :
  dialer_Start resolve dial sendOK id dto notConnected = Ret (evs, s) ->
  exists dst, Destination id = Some dst /\
  match evs with
  | [] => s = notConnected /\ Is6 (ap_addr dst) = true /\ resolve (ap_addr dst) = None
  | EDial proto dst' dto' :: rest =>
      Protocol id = Some proto /\ dto' <= dto /\ (dst' <> dst -> dto' <= localDialTimeout /\ resolve (ap_addr dst) <> Some (ap_addr dst)) /\
      (if dial then if sendOK then rest = [ESendOK; ETimer; ELoops] /\ s = connected
                    else rest = [ESendOK; ECloseConn] /\ s = connecting
       else rest = [ESendReject; ECloseSend] /\ s = notConnected)
  | _ => False
  end.
Proof.
  unfold dialer_Start. intros H. apply go_bind_ret in H as (proto & Hp & H). apply go_bind_ret in H as (src & Hs & H).
  apply go_bind_ret in H as (dst & Hd & H). destruct (Protocol id) eqn:Ep; [|discriminate]. injection Hp as <-.
  destruct (Destination id) as [dst0|] eqn:Ed; [|discriminate]. injection Hd as <-. exists dst0. split; [done|].
  assert (Hgo : forall d t, dial = dial -> Ret (if negb dial then ([EDial z d t; ESendReject; ECloseSend], notConnected)
        else if negb sendOK then ([EDial z d t; ESendOK; ECloseConn], connecting)
        else ([EDial z d t; ESendOK; ETimer; ELoops], connected)) = Ret (evs, s) :> Go Empty_set _ ->
      t <= dto -> (d <> dst0 -> t <= localDialTimeout /\ resolve (ap_addr dst0) <> Some (ap_addr dst0)) ->
      match evs with
      | [] => s = notConnected /\ Is6 (ap_addr dst0) = true /\ resolve (ap_addr dst0) = None
      | EDial proto dst' dto' :: rest => Some z = Some proto /\ dto' <= dto /\
          (dst' <> dst0 -> dto' <= localDialTimeout /\ resolve (ap_addr dst0) <> Some (ap_addr dst0)) /\
          (if dial then if sendOK then rest = [ESendOK; ETimer; ELoops] /\ s = connected else rest = [ESendOK; ECloseConn] /\ s = connecting
           else rest = [ESendReject; ECloseSend] /\ s = notConnected)
      | _ => False
      end).
  { intros d t _ E H1 H2. destruct dial, sendOK; injection E as <- <-; done. }
  destruct (Is6 (ap_addr dst0)) eqn:E6; [|by apply (Hgo dst0 dto eq_refl H)].
  destruct (resolve (ap_addr dst0)) as [addr|] eqn:Er; [|by injection H as <- <-].
  destruct (bool_decide (addr = ap_addr dst0)) eqn:Ea; [by apply (Hgo dst0 dto eq_refl H)|]. bools.
  apply go_bind_ret in H as (id' & _ & H). apply go_bind_ret in H as (dst' & _ & H).
  apply (Hgo _ _ eq_refl H); destruct (Z.ltb_spec localDialTimeout dto); try lia; intros _; split; try lia; congruence.
Qed.

(** At most 256 dial responders run, each accepted request is counted, and a request that
    waits for a slot gets the next one that is free. *)
Theorem dial_responders_bounded (es : list dw_event) (w : dial_wait) :
  foldl (fun ow e => w ← ow; dw_step e w) (Some (mkDW 0 false 0 0)) es = Some w ->
  (dw_running w <= maxConcurrentDialResponders)%nat /\ (dw_errors w <= dw_dials w)%nat /\
  (dw_waiting w = true -> dw_running w = maxConcurrentDialResponders).
Proof.
  enough (H : forall w0, (dw_running w0 <= maxConcurrentDialResponders)%nat /\ (dw_errors w0 + dw_running w0 <= dw_dials w0)%nat /\
      (dw_waiting w0 = true -> dw_running w0 = maxConcurrentDialResponders) ->
    foldl (fun ow e => w ← ow; dw_step e w) (Some w0) es = Some w ->
    (dw_running w <= maxConcurrentDialResponders)%nat /\ (dw_errors w + dw_running w <= dw_dials w)%nat /\
    (dw_waiting w = true -> dw_running w = maxConcurrentDialResponders)).
  { intros E. apply H in E as (H1 & H2 & H3); [split_and!; [done|lia|done]|]. cbn. split_and!; [lia|lia|done]. }
  induction es as [|e es IH]; intros w0 I E; cbn [foldl] in E; [by injection E as <-|].
  destruct (dw_step e w0) as [w1|] eqn:E1.
  - apply (IH w1); [|rewrite <- E; cbn [mbind option_bind]; by rewrite E1]. clear IH E. destruct I as (H1 & H2 & H3).
    destruct e as [|failed]; cbn [dw_step] in E1.
    + destruct (dw_waiting w0); [discriminate|]. destruct (Nat.ltb_spec (dw_running w0) maxConcurrentDialResponders); injection E1 as <-;
        cbn [dw_running dw_errors dw_dials dw_waiting]; split_and!; try lia; done || (intros _; lia).
    + destruct (dw_running w0) as [|n]; [discriminate|]. injection E1 as <-.
      destruct failed, (dw_waiting w0); cbn [dw_running dw_errors dw_dials dw_waiting]; split_and!; try lia; done || (intros _; lia) || auto.
  - exfalso. cbn [mbind option_bind] in E. rewrite E1 in E. clear -E. induction es as [|e es IH]; [discriminate|]. by apply IH.
Qed.
