(* ===== verification/Shellquote.v ===== *)
(** * Shell quoting (src/pkg/shellquote/shellstring.go, shellstring_unix.go)

    [ShellString] renders a command line for a shell and [Split] takes one apart.  A
    text is the list of its runes: the code ranges over runes and every character that it
    treats specially is a rune of one byte, so for valid UTF-8 positions in bytes and
    positions in runes select the same parts.  The main theorem is the round trip. *)
From S2P Require Import Prelude.
Local Open Scope Z_scope.

Abbreviation text := (list Z) (only parsing).
Definition SQ : Z := 39.
Definition DQ : Z := 34.
Definition BSL : Z := 92.
Definition SP : Z := 32.
Definition NL : Z := 10.

(** ** Quoting *)

(** The runes that [UnixEscape] does not match: \w and !%+,-./:=@^ *)
Definition unix_safe (r : Z) : bool :=
  ((48 <=? r) && (r <=? 57)) || ((65 <=? r) && (r <=? 90)) || ((97 <=? r) && (r <=? 122)) ||
  bool_decide (r ∈ [95; 33; 37; 43; 44; 45; 46; 47; 58; 61; 64; 94]).
Definition UnixEscape_MatchString (arg : text) : bool := existsb (fun r => negb (unix_safe r)) arg.

Fixpoint index_sq (s : text) : option nat :=
  match s with
  | [] => None
  | r :: s => if r =? SQ then Some O else S <$> index_sq s
  end.

(** The loop over the single quotes of [arg]; [unix] is the recursive call. *)
Fixpoint unix_loop (unix : text -> text) (fuel : nat) (arg : text) (qp : nat) : text :=
  match fuel with
  | O => []
  | S fuel =>
      (if Nat.ltb 0 qp then unix (take qp arg) else []) ++ [BSL; SQ] ++
      (let qp := S qp in
       if Nat.leb (length arg) qp then []
       else
         let arg := drop qp arg in
         match index_sq arg with
         | None => if Nat.ltb 0 (length arg) then unix arg else []
         | Some qp => unix_loop unix fuel arg qp
         end)
  end.

(** [Unix]; the recursion is two deep, since the parts have no single quote, and the loop
    shortens its argument. *)
Fixpoint Unix_n (depth : nat) (arg : text) : text :=
  match depth with
  | O => []
  | S depth =>
      if bool_decide (arg = []) then [SQ; SQ]
      else if negb (UnixEscape_MatchString arg) then arg
      else match index_sq arg with
           | None => [SQ] ++ arg ++ [SQ]
           | Some qp => unix_loop (Unix_n depth) (length arg) arg qp
           end
  end.
Definition Unix (arg : text) : text := Unix_n 2 arg.
Definition quoteArg (arg : text) : text := Unix arg.

Definition ShellString (exe : text) (args : list text) : text := quoteArg exe ++ concat (map (fun a => SP :: quoteArg a) args).
Definition ShellArgsString (args : list text) : text :=
  match args with [] => [] | a :: args => quoteArg a ++ concat (map (fun a => SP :: quoteArg a) args) end.

(** ** Splitting *)

(** The segments: the builder after the segment and the number of runes up to its end, or
    [None] when a quoted segment does not end. *)
Fixpoint parseDQSegment (s : text) (escaped : bool) (i : nat) (sb : text) : option (text * nat) :=
  match s with
  | [] => None
  | r :: s =>
      if escaped then
        if (r =? DQ) || (r =? 36) || (r =? BSL) then parseDQSegment s false (S i) (sb ++ [r])
        else if r =? NL then parseDQSegment s false (S i) sb
        else parseDQSegment s false (S i) (sb ++ [BSL; r])
      else if r =? DQ then Some (sb, i + 2)%nat
      else if r =? BSL then parseDQSegment s true (S i) sb
      else parseDQSegment s false (S i) (sb ++ [r])
  end.

Fixpoint parseSQSegment (s : text) (i : nat) (sb : text) : option (text * nat) :=
  match s with
  | [] => None
  | r :: s => if r =? SQ then Some (sb, i + 2)%nat else parseSQSegment s (S i) (sb ++ [r])
  end.

Definition is_space (r : Z) : bool := (r =? SP) || (r =? 9) || (r =? 13) || (r =? NL).

Fixpoint parseUQSegment (s : text) (escaped : bool) (i : nat) (sb : text) : text * nat :=
  match s with
  | [] => (sb, i)
  | r :: s =>
      if escaped then
        if r =? NL then parseUQSegment s false (S i) sb else parseUQSegment s false (S i) (sb ++ [r])
      else if (r =? DQ) || (r =? SQ) || is_space r then (sb, i)
      else if r =? BSL then parseUQSegment s true (S i) sb
      else parseUQSegment s false (S i) (sb ++ [r])
  end.

(** Append a new argument, or replace the last one. *)
Definition put_arg (newArg : bool) (ss : list text) (s : text) : list text :=
  if newArg then ss ++ [s] else take (length ss - 1) ss ++ [s].

(** The loop over the line; [skip] is how many runes belong to the segment just parsed,
    [e - i] in the code.  [None] is io.ErrUnexpectedEOF. *)
Fixpoint split_loop (line : text) (skip : nat) (sb : text) (newArg : bool) (ss : list text) : option (list text) :=
  match line with
  | [] => Some ss
  | r :: rest =>
      match skip with
      | S skip => split_loop rest skip sb newArg ss
      | O =>
          if is_space r then split_loop rest 0 [] true ss
          else
            match (if r =? DQ then parseDQSegment rest false 0 sb
                   else if r =? SQ then parseSQSegment rest 0 sb
                   else Some (parseUQSegment (r :: rest) false 0 sb)) with
            | None => None
            | Some (s, x) => split_loop rest (x - 1) s false (put_arg newArg ss s)
            end
      end
  end.
Definition Split (line : text) : option (list text) := if bool_decide (line = []) then Some [] else split_loop line 0 [] true [].

(** ** Proofs *)

Lemma put_arg_put b ss s s' : put_arg false (put_arg b ss s) s' = put_arg b ss s'.
Proof.
  unfold put_arg. destruct b; rewrite length_app; cbn [length].
  - rewrite Nat.add_sub. by rewrite take_app_length.
  - f_equal. rewrite length_take. rewrite take_app_le by (rewrite length_take; lia). rewrite take_take. f_equal. lia.
Qed.

Lemma split_skip p t sb b ss : split_loop (p ++ t) (length p) sb b ss = split_loop t 0 sb b ss.
Proof. induction p as [|r p IH]; [reflexivity|]. cbn. exact IH. Qed.

(** The number of runes of a segment does not depend on where the count starts. *)
Lemma parseUQ_shift s esc i sb : parseUQSegment s esc (S i) sb =
  ((parseUQSegment s esc i sb).1, S (parseUQSegment s esc i sb).2).
Proof.
  revert esc i sb. induction s as [|r s IH]; intros esc i sb; [reflexivity|]. cbn [parseUQSegment].
  destruct esc; repeat case_match; try rewrite IH; reflexivity.
Qed.
Lemma parseSQ_end a t i sb : SQ ∉ a -> parseSQSegment (a ++ SQ :: t) i sb = Some (sb ++ a, (i + length a + 2)%nat).
Proof.
  revert i sb. induction a as [|r a IH]; intros i sb Ha; cbn [app parseSQSegment].
  - rewrite Z.eqb_refl, app_nil_r. do 2 f_equal. cbn. lia.
  - apply not_elem_of_cons in Ha as [Hr Ha]. rewrite (proj2 (Z.eqb_neq r SQ)) by done. rewrite IH by done.
    rewrite <- app_assoc. do 2 f_equal. cbn. lia.
Qed.

(** Reading an unquoted segment in two parts gives the same arguments. *)
Lemma uq_resume t sb b ss s x : parseUQSegment t false 0 sb = (s, x) ->
  split_loop t x s false (put_arg b ss s) = split_loop t 0 sb false (put_arg b ss sb).
Proof.
  destruct t as [|r t]; intros E; [by cbn in *; injection E as <- <-|].
  pose proof E as E0. cbn [parseUQSegment] in E. destruct ((r =? DQ) || (r =? SQ) || is_space r) eqn:Eq; [by injection E as <- <-|].
  apply orb_false_iff in Eq as [Eq Es]. apply orb_false_iff in Eq as [Ed Eq].
  assert (exists y, x = S y) as [y ->].
  { destruct (r =? BSL); rewrite parseUQ_shift in E; injection E as _ <-; by eexists. }
  cbn [split_loop]. rewrite Es, Ed, Eq, E0, put_arg_put. cbn [Nat.sub]. by rewrite Nat.sub_0_r.
Qed.

(** The three ways in which [Unix] writes something, in front of any text. *)
Lemma split_safe r t sb b ss : unix_safe r = true -> split_loop (r :: t) 0 sb b ss = split_loop t 0 (sb ++ [r]) false (put_arg b ss (sb ++ [r])).
Proof.
  intros Hr. assert (is_space r = false /\ (r =? DQ) = false /\ (r =? SQ) = false /\ (r =? BSL) = false) as (H1 & H2 & H3 & H4).
  { unfold is_space. destruct (decide (r ∈ [SP; 9; 13; NL; DQ; SQ; BSL])) as [Hi|Hn].
    - exfalso. revert Hr. repeat (apply elem_of_cons in Hi as [->|Hi]; [by vm_compute|]). by apply not_elem_of_nil in Hi.
    - repeat (apply not_elem_of_cons in Hn as [? Hn]). rewrite !(proj2 (Z.eqb_neq r _)) by done. done. }
  cbn [split_loop]. rewrite H1, H2, H3. destruct (parseUQSegment t false 0 (sb ++ [r])) as [s x] eqn:E.
  cbn [parseUQSegment]. rewrite H1, H2, H3, H4. cbn [orb]. rewrite parseUQ_shift, E. cbn [fst snd Nat.sub]. rewrite Nat.sub_0_r.
  by apply uq_resume.
Qed.
Lemma split_escaped t sb b ss : split_loop (BSL :: SQ :: t) 0 sb b ss = split_loop t 0 (sb ++ [SQ]) false (put_arg b ss (sb ++ [SQ])).
Proof.
  cbn [split_loop]. change (is_space BSL) with false. change (BSL =? DQ) with false. change (BSL =? SQ) with false. cbv iota.
  destruct (parseUQSegment t false 0 (sb ++ [SQ])) as [s x] eqn:E.
  change (parseUQSegment (BSL :: SQ :: t) false 0 sb) with (parseUQSegment t false 2 (sb ++ [SQ])).
  rewrite !parseUQ_shift, E. cbn [fst snd Nat.sub]. by apply uq_resume.
Qed.
Lemma split_quoted a t sb b ss : SQ ∉ a -> split_loop (SQ :: a ++ SQ :: t) 0 sb b ss = split_loop t 0 (sb ++ a) false (put_arg b ss (sb ++ a)).
Proof.
  intros Ha. cbn [split_loop]. change (is_space SQ) with false. change (SQ =? DQ) with false. change (SQ =? SQ) with true. cbv iota.
  rewrite parseSQ_end by done. cbn [fst snd]. replace (0 + length a + 2 - 1)%nat with (length (a ++ [SQ])) by (rewrite length_app; cbn; lia).
  replace (a ++ SQ :: t) with ((a ++ [SQ]) ++ t) by (by rewrite <- app_assoc). apply split_skip.
Qed.

(** [enc p a]: reading [p] in front of any text adds [a] to the current argument. *)
Definition enc (p a : text) : Prop := forall t sb b ss,
  split_loop (p ++ t) 0 sb b ss = split_loop t 0 (sb ++ a) false (put_arg b ss (sb ++ a)).

Lemma enc_app p q a c : enc p a -> enc q c -> enc (p ++ q) (a ++ c).
Proof. intros Hp Hq t sb b ss. by rewrite <- app_assoc, Hp, Hq, put_arg_put, <- app_assoc. Qed.
Lemma enc_safe a : a <> [] -> forallb unix_safe a = true -> enc a a.
Proof.
  induction a as [|r a IH]; intros Hn Ha; [done|]. cbn in Ha. apply andb_true_iff in Ha as [Hr Ha].
  destruct (decide (a = [])) as [->|Hne]; [intros t sb b ss; by apply split_safe|].
  apply (enc_app [r] a [r] a); [|by apply IH]. intros t sb b ss. by apply split_safe.
Qed.
Lemma enc_quoted a : SQ ∉ a -> enc ([SQ] ++ a ++ [SQ]) a.
Proof. intros Ha t sb b ss. cbn [app]. rewrite <- app_assoc. by apply split_quoted. Qed.
Lemma enc_escaped : enc [BSL; SQ] [SQ].
Proof. intros t sb b ss. apply split_escaped. Qed.

Lemma safe_of_nomatch a : UnixEscape_MatchString a = false -> forallb unix_safe a = true.
Proof.
  unfold UnixEscape_MatchString. induction a as [|r a IH]; [done|]. cbn. intros H. apply orb_false_iff in H as [H1 H2].
  apply negb_false_iff in H1. by rewrite H1, IH.
Qed.
Lemma index_sq_spec s : match index_sq s with
  | None => SQ ∉ s
  | Some qp => (qp < length s)%nat /\ (SQ ∉ take qp s) /\ s = take qp s ++ SQ :: drop (S qp) s
  end.
Proof.
  induction s as [|r s IH]; cbn [index_sq]; [apply not_elem_of_nil|]. destruct (Z.eqb_spec r SQ) as [->|Hr].
  - cbn. rewrite drop_0. split_and!; [lia|apply not_elem_of_nil|done].
  - destruct (index_sq s) as [qp|]; cbn [fmap option_fmap option_map].
    + destruct IH as (H1 & H2 & H3). cbn [length take drop app]. split_and!; [lia|by apply not_elem_of_cons|by rewrite <- H3].
    + by apply not_elem_of_cons.
Qed.

Lemma Unix_S n arg : Unix_n (S n) arg =
  if bool_decide (arg = []) then [SQ; SQ]
  else if negb (UnixEscape_MatchString arg) then arg
  else match index_sq arg with
       | None => [SQ] ++ arg ++ [SQ]
       | Some qp => unix_loop (Unix_n n) (length arg) arg qp
       end.
Proof. reflexivity. Qed.

(** [Unix] on a part without single quotes. *)
Lemma unix_part n a : a <> [] -> SQ ∉ a -> enc (Unix_n (S n) a) a.
Proof.
  intros Hn Ha. rewrite Unix_S, bool_decide_false by done. destruct (UnixEscape_MatchString a) eqn:Em; cbn [negb].
  - pose proof (index_sq_spec a) as Hi. destruct (index_sq a) as [qp|]; [|by apply enc_quoted].
    destruct Hi as (_ & _ & Hi). exfalso. apply Ha. rewrite Hi. apply elem_of_app. right. apply list_elem_of_here.
  - apply enc_safe; [done|]. by apply safe_of_nomatch.
Qed.

Lemma unix_loop_enc n fuel arg qp : (length arg <= fuel)%nat -> index_sq arg = Some qp -> enc (unix_loop (Unix_n (S n)) fuel arg qp) arg.
Proof.
  revert arg qp. induction fuel as [|fuel IH]; intros arg qp Hf Hq; pose proof (index_sq_spec arg) as Hi; rewrite Hq in Hi;
    destruct Hi as (Hlt & Hns & Harg); [lia|]. cbn [unix_loop].
  match goal with |- enc ?p _ => enough (E : enc p (take qp arg ++ [SQ] ++ drop (S qp) arg)) by (cbn [app] in E; by rewrite <- Harg in E) end.
  assert (Hrest : enc ([BSL; SQ] ++ (if Nat.leb (length arg) (S qp) then [] else
      match index_sq (drop (S qp) arg) with
      | Some qp' => unix_loop (Unix_n (S n)) fuel (drop (S qp) arg) qp'
      | None => if Nat.ltb 0 (length (drop (S qp) arg)) then Unix_n (S n) (drop (S qp) arg) else []
      end)) ([SQ] ++ drop (S qp) arg)).
  { destruct (Nat.leb_spec (length arg) (S qp)) as [Hle|Hgt].
    - rewrite drop_ge by done. rewrite !app_nil_r. apply enc_escaped.
    - apply enc_app; [apply enc_escaped|]. assert (0 < length (drop (S qp) arg))%nat by (rewrite length_drop; lia).
      pose proof (index_sq_spec (drop (S qp) arg)) as Hi. destruct (index_sq (drop (S qp) arg)) as [qp'|] eqn:E'.
      + apply IH; [rewrite length_drop; lia|done].
      + rewrite (proj2 (Nat.ltb_lt _ _)) by done. apply unix_part; [|done]. intros E. rewrite E in *. cbn in *. lia. }
  destruct (Nat.ltb_spec 0 qp).
  - apply enc_app; [|exact Hrest]. apply unix_part; [|done]. intros E. apply (f_equal length) in E. rewrite length_take in E. cbn in E. lia.
  - assert (qp = 0%nat) as -> by lia. rewrite take_0. exact Hrest.
Qed.

(** What [Unix] writes stands for its argument, wherever it appears in a line. *)
Lemma Unix_enc arg : enc (Unix arg) arg.
Proof.
  unfold Unix. rewrite Unix_S. destruct (decide (arg = [])) as [->|Hn].
  - rewrite bool_decide_true by done. apply (enc_quoted []). apply not_elem_of_nil.
  - rewrite bool_decide_false by done. destruct (UnixEscape_MatchString arg) eqn:Em; cbn [negb].
    + pose proof (index_sq_spec arg) as Hi. destruct (index_sq arg) as [qp|] eqn:Eq; [by apply unix_loop_enc|by apply enc_quoted].
    + apply enc_safe; [done|]. by apply safe_of_nomatch.
Qed.

Lemma split_args args ss sb b : split_loop (concat (map (fun a => SP :: quoteArg a) args)) 0 sb b ss = Some (ss ++ args).
Proof.
  revert ss sb b. induction args as [|a args IH]; intros ss sb b; cbn [map concat]; [by rewrite app_nil_r|].
  cbn [app split_loop]. change (is_space SP) with true. cbv iota. unfold quoteArg. rewrite (Unix_enc a).
  fold quoteArg. rewrite IH. cbn [put_arg app]. by rewrite <- app_assoc.
Qed.
Lemma split_shell exe args : split_loop (ShellString exe args) 0 [] true [] = Some (exe :: args).
Proof. unfold ShellString, quoteArg at 1. rewrite (Unix_enc exe). by rewrite split_args. Qed.
Lemma Unix_nonempty arg : Unix arg <> [].
Proof.
  intros E. pose proof (Unix_enc arg [] [] true []) as H. rewrite E in H. cbn in H. discriminate.
Qed.

(** Quoting and splitting are inverse: the line that [ShellString] renders for an
    executable and its arguments is split into exactly these, whatever they contain, empty
    arguments, quotes, blanks and backslashes included; the same holds for
    [ShellArgsString]. *)
Theorem ShellString_Split (exe : text) (args : list text) :
  Split (ShellString exe args) = Some (exe :: args) /\ Split (ShellArgsString args) = Some args.
Proof.
  assert (H : forall exe args, Split (ShellString exe args) = Some (exe :: args)).
  { clear. intros exe args. unfold Split. rewrite bool_decide_false; [apply split_shell|].
    unfold ShellString. intros E. apply app_eq_nil in E as [E _]. by apply Unix_nonempty in E. }
  split; [apply H|]. destruct args as [|a args]; [reflexivity|]. apply (H a args).
Qed.

(** Quoting keeps different command lines apart. *)
Theorem ShellString_injective (exe exe' : text) (args args' : list text) :
  ShellString exe args = ShellString exe' args' -> exe = exe' /\ args = args'.
Proof.
  intros E. pose proof (split_shell exe args) as H. rewrite E, split_shell in H. by injection H as -> ->.
Qed.
