(* ===== verification/EnvSyntax.v ===== *)
(** * Files of environment variables (src/pkg/client/cli/env/syntax.go)

    The environment of an intercepted container is written in the syntax of a shell, of
    docker or of docker compose.  Texts are lists of runes, as in [Shellquote].  Theorems:
    a shell reads back exactly the variables that were written, in order; quoting for
    PowerShell is reversible; quoting for docker compose is so only for values without a
    backslash. *)
From S2P Require Import Prelude Shellquote.
Local Open Scope Z_scope.

Inductive Syntax := SyntaxDocker | SyntaxCompose | SyntaxSh | SyntaxShExport | SyntaxCsh | SyntaxCshExport | SyntaxPS | SyntaxPSExport | SyntaxCmd | SyntaxJSON.
Global Instance Syntax_eq_dec : EqDecision Syntax.
Proof. solve_decision. Defined.
Definition all_syntaxes : list Syntax :=
  [SyntaxDocker; SyntaxCompose; SyntaxSh; SyntaxShExport; SyntaxCsh; SyntaxCshExport; SyntaxPS; SyntaxPSExport; SyntaxCmd; SyntaxJSON].
Definition syntaxNames : list string :=
  ["docker"; "compose"; "sh"; "sh:export"; "csh"; "csh:export"; "ps"; "ps:export"; "cmd"; "json"]%string.
Definition ordinal (e : Syntax) : nat := match list_find (fun x => x = e) all_syntaxes with Some (i, _) => i | None => 0 end.
Definition syntax_Set (n : string) : option Syntax :=
  '(ex, _) ← list_find (fun x => x = n) syntaxNames; all_syntaxes !! ex.
Definition syntax_String (e : Syntax) : string :=
  if Nat.leb (ordinal e) (ordinal SyntaxCmd) then default ""%string (syntaxNames !! ordinal e) else "unknown"%string.

(** ** Quoting *)
Definition TAB : Z := 9.
Definition RET : Z := 13.
Definition quotePS (s : text) : text := SQ :: (s ≫= fun c => if c =? SQ then [SQ; SQ] else [c]) ++ [SQ].
Definition compose_rune (q c : Z) : text :=
  if c =? q then [BSL; c] else if c =? NL then [BSL; 110] else if c =? TAB then [BSL; 116] else if c =? RET then [BSL; 114] else [c].
Definition quoteCompose (s : text) : text :=
  if bool_decide (s = []) then []
  else
    let special := existsb (fun c => (c =? NL) || (c =? TAB) || (c =? RET)) s in
    if negb special && negb (UnixEscape_MatchString s) then s
    else let q := if special then DQ else SQ in [q] ++ (s ≫= compose_rune q) ++ [q].

(** ** Entries *)
Definition runes (s : string) : text := Z.of_N ∘ Ascii.N_of_ascii <$> String.list_ascii_of_string s.
Definition EQ : Z := 61.
Definition WriteEntry (e : Syntax) (k v : text) : option text :=
  match e with
  | SyntaxDocker => if bool_decide (NL ∈ v) then None else Some (k ++ [EQ] ++ v)
  | SyntaxCompose => Some (k ++ [EQ] ++ quoteCompose v)
  | SyntaxSh => Some (k ++ [EQ] ++ Unix v)
  | SyntaxShExport => Some (runes "export " ++ k ++ [EQ] ++ Unix v)
  | SyntaxCsh => Some (runes "set " ++ k ++ [EQ] ++ Unix v)
  | SyntaxCshExport => Some (runes "setenv " ++ k ++ [SP] ++ Unix v)
  | SyntaxPS => Some (runes "$Env:" ++ k ++ [EQ] ++ quotePS v)
  | SyntaxPSExport => Some (runes "[Environment]::SetEnvironmentVariable(" ++ quotePS k ++ runes ", " ++ quotePS v ++ runes ", 'User')")
  | SyntaxCmd => if bool_decide (NL ∈ v) then None else Some (runes "set " ++ k ++ [EQ] ++ v)
  | SyntaxJSON => None
  end.

(** The order of the keys: that of their bytes, which is the one of their runes. *)
Fixpoint lex_le (a b : text) : bool :=
  match a, b with
  | [], _ => true
  | _ :: _, [] => false
  | x :: a, y :: b => if x <? y then true else if y <? x then false else lex_le a b
  end.
Definition key_order (a b : text) : Prop := lex_le a b = true.
Global Instance key_order_dec : RelDecision key_order.
Proof. intros a b. unfold key_order. apply _. Defined.
Definition sorted_keys (env : gmap (list Z) (list Z)) : list (list Z) := merge_sort key_order (map_to_list env).*1.

(** The loop of [WriteToFileAndClose]: an entry per line, [None] at the first error. *)
Fixpoint write_entries (e : Syntax) (env : gmap (list Z) (list Z)) (ks : list (list Z)) : option text :=
  match ks with
  | [] => Some []
  | k :: ks => r ← WriteEntry e k (default [] (env !! k)); rest ← write_entries e env ks; Some (r ++ NL :: rest)
  end.
Definition WriteToFile (e : Syntax) (env : gmap (list Z) (list Z)) : option text := write_entries e env (sorted_keys env).

(** ** What a shell reads *)
Definition var_name (k : text) : Prop := k <> [] /\ forallb unix_safe k = true.
Definition assignment (k v : text) : text := k ++ [EQ] ++ v.
Lemma assignment_enc k v : var_name k -> enc (k ++ [EQ] ++ Unix v) (assignment k v).
Proof. intros [Hn Hk]. apply enc_app; [by apply enc_safe|]. apply enc_app; [|apply Unix_enc]. by apply enc_safe. Qed.

Definition words_of (e : Syntax) (k v : text) : list text :=
  match e with
  | SyntaxShExport => [runes "export"; assignment k v]
  | SyntaxCsh => [runes "set"; assignment k v]
  | SyntaxCshExport => [runes "setenv"; k; v]
  | _ => [assignment k v]
  end.
Definition is_unix (e : Syntax) : bool :=
  match e with SyntaxSh | SyntaxShExport | SyntaxCsh | SyntaxCshExport => true | _ => false end.
Lemma command_enc w t ss : var_name w -> split_loop ((w ++ [SP]) ++ t) 0 [] true ss = split_loop t 0 [] true (ss ++ [w]).
Proof.
  intros [Hn Hs]. rewrite <- app_assoc, (enc_safe w) by done. cbn [app put_arg]. cbn [split_loop]. change (is_space SP) with true. cbv iota. done.
Qed.
Lemma entry_split e k v r t ss : is_unix e = true -> var_name k -> WriteEntry e k v = Some r ->
  split_loop (r ++ NL :: t) 0 [] true ss = split_loop t 0 [] true (ss ++ words_of e k v).
Proof.
  intros He Hk Hw. pose proof (assignment_enc k v Hk) as Ha.
  assert (Hnl : forall sb b ss, split_loop (NL :: t) 0 sb b ss = split_loop t 0 [] true ss) by done.
  destruct e; try done; cbn [WriteEntry] in Hw; apply (inj Some) in Hw; subst r; cbn [words_of].
  - rewrite Ha, Hnl. done.
  - change (runes "export " ++ ?x) with ((runes "export" ++ [SP]) ++ x). rewrite <- app_assoc, command_enc, Ha, Hnl by done.
    cbn [put_arg]. by rewrite <- app_assoc.
  - change (runes "set " ++ ?x) with ((runes "set" ++ [SP]) ++ x). rewrite <- app_assoc, command_enc, Ha, Hnl by done.
    cbn [put_arg]. by rewrite <- app_assoc.
  - change (runes "setenv " ++ ?x) with ((runes "setenv" ++ [SP]) ++ x).
    rewrite <- app_assoc, command_enc by done. replace ((k ++ [SP] ++ Unix v) ++ NL :: t) with ((k ++ [SP]) ++ (Unix v ++ NL :: t)) by by rewrite <- !app_assoc.
    rewrite command_enc by done. rewrite (Unix_enc v), Hnl. cbn [put_arg app]. by rewrite <- !app_assoc.
Qed.
Lemma entries_split e env ks : forall r ss, is_unix e = true -> Forall var_name ks -> write_entries e env ks = Some r ->
  split_loop r 0 [] true ss = Some (ss ++ (ks ≫= fun k => words_of e k (default [] (env !! k)))).
Proof.
  induction ks as [|k ks IH]; intros r ss He Hks; cbn [write_entries].
  { intros [= <-]. cbn. by rewrite app_nil_r. }
  apply Forall_cons in Hks as [Hk Hks]. destruct (WriteEntry e k _) as [x|] eqn:Ex; cbn [mbind option_bind]; [|done].
  destruct (write_entries e env ks) as [rest|] eqn:Er; cbn [mbind option_bind]; [|done]. intros [= <-].
  rewrite (entry_split e k _ x rest ss He Hk Ex), (IH rest) by done. cbn [mbind list_bind]. by rewrite <- app_assoc.
Qed.

(** A file for a Unix shell is always written, and a shell that reads it gets exactly the
    variables of the environment, in the order of their names, whatever the values
    contain. *)
Theorem sh_file_roundtrip e env : is_unix e = true -> (forall k, is_Some (env !! k) -> var_name k) ->
  exists file, WriteToFile e env = Some file /\
    Split file = Some (sorted_keys env ≫= fun k => words_of e k (default [] (env !! k))) /\
    (forall k, k ∈ sorted_keys env <-> is_Some (env !! k)).
Proof.
  intros He Hk. assert (Hin : forall k, k ∈ sorted_keys env <-> is_Some (env !! k)).
  { intros k. unfold sorted_keys. rewrite merge_sort_Permutation, list_elem_of_fmap. split.
    - intros ([k' v] & -> & Hv%elem_of_map_to_list). by exists v.
    - intros [v Hv]. exists (k, v). split; [done|]. by apply elem_of_map_to_list. }
  assert (Hall : Forall var_name (sorted_keys env)) by (apply Forall_forall; intros k Hin'; by apply Hk, Hin).
  assert (Hw : forall ks, exists r, write_entries e env ks = Some r).
  { induction ks as [|k ks [r Hr]]; [by exists []|]. cbn [write_entries]. rewrite Hr. destruct e; try done; by eexists. }
  destruct (Hw (sorted_keys env)) as [file Hf]. exists file. split_and!; [done| |done].
  unfold Split. destruct (decide (file = [])) as [->|Hne].
  - rewrite bool_decide_true by done. pose proof (entries_split e env _ [] [] He Hall Hf) as H. cbn in H. by injection H as <-.
  - rewrite bool_decide_false by done. by rewrite (entries_split e env _ file [] He Hall Hf).
Qed.
Definition env_sample : gmap (list Z) (list Z) := <[runes "PATH" := runes "/bin:it's"]> (<[runes "EMPTY" := []]> ∅).
Lemma sh_file_roundtrip_witness :
  exists file, WriteToFile SyntaxShExport env_sample = Some file /\
    Split file = Some [runes "export"; runes "EMPTY="; runes "export"; runes "PATH=/bin:it's"].
Proof.
  destruct (sh_file_roundtrip SyntaxShExport env_sample) as (file & Hf & Hs & _); [done| |exists file; split; [exact Hf|]; rewrite Hs; vm_compute; reflexivity].
  unfold env_sample. intros k [v [[<- _]|[_ [[<- _]|[_ Hv]]%lookup_insert_Some]]%lookup_insert_Some]; [split; [done|reflexivity]..|].
  by rewrite lookup_empty in Hv.
Defined.

(** ** PowerShell and docker compose *)

(** A PowerShell string in single quotes: pairs of quotes stand for one. *)
Fixpoint unquote_ps (s : text) : option text :=
  match s with
  | [] => None
  | c :: s' =>
      if c =? SQ then match s' with
                      | [] => Some []
                      | d :: s'' => if d =? SQ then cons SQ <$> unquote_ps s'' else None
                      end
      else cons c <$> unquote_ps s'
  end.
Theorem quotePS_roundtrip s : exists r, quotePS s = SQ :: r /\ unquote_ps r = Some s.
Proof.
  eexists. split; [reflexivity|]. induction s as [|c s IH]; [done|]. cbn [mbind list_bind]. destruct (Z.eqb_spec c SQ) as [->|Hc].
  - cbn. by rewrite IH.
  - cbn. rewrite (proj2 (Z.eqb_neq _ _)) by done. by rewrite IH.
Qed.

Lemma compose_rune_inj q c d r r' : q = DQ \/ q = SQ -> c <> BSL -> d <> BSL -> compose_rune q c ++ r = compose_rune q d ++ r' -> c = d /\ r = r'.
Proof.
  intros Hq Hc Hd. unfold compose_rune. assert (q <> BSL /\ q <> NL /\ q <> TAB /\ q <> RET /\ q <> 110 /\ q <> 116 /\ q <> 114) as Hqs.
  { destruct Hq as [->| ->]; done. }
  unfold BSL, NL, TAB, RET in *.
  destruct (Z.eqb_spec c q), (Z.eqb_spec c 10), (Z.eqb_spec c 9), (Z.eqb_spec c 13), (Z.eqb_spec d q), (Z.eqb_spec d 10), (Z.eqb_spec d 9), (Z.eqb_spec d 13);
    cbn [app]; intros [=]; subst; try lia; auto.
Qed.
Lemma compose_body_inj q s t : q = DQ \/ q = SQ -> BSL ∉ s -> BSL ∉ t -> (s ≫= compose_rune q) ++ [q] = (t ≫= compose_rune q) ++ [q] -> s = t.
Proof.
  intros Hq. assert (Hqb : q <> BSL) by (destruct Hq as [->| ->]; done).
  assert (Hstart : forall c r, [q] = (compose_rune q c ++ r) ++ [q] -> False).
  { intros c r E. apply (f_equal length) in E. rewrite !length_app in E. unfold compose_rune in E. repeat case_match; cbn in E; lia. }
  revert t. induction s as [|c s IH]; intros [|d t] Hs Ht; cbn [mbind list_bind]; [done|intros E; by destruct (Hstart d (t ≫= compose_rune q))
    |intros E; by destruct (Hstart c (s ≫= compose_rune q))|].
  apply not_elem_of_cons in Hs as [Hc Hs], Ht as [Hd Ht]. rewrite <- !app_assoc. intros E.
  apply compose_rune_inj in E as [-> E]; [|done|congruence|congruence]. f_equal. by apply IH.
Qed.
(** Different values without a backslash have different texts in a compose file. *)
Theorem quoteCompose_injective s t : BSL ∉ s -> BSL ∉ t -> quoteCompose s = quoteCompose t -> s = t.
Proof.
  assert (Hplain : forall s, s <> [] -> UnixEscape_MatchString s = false -> exists c r, s = c :: r /\ c <> SQ /\ c <> DQ).
  { intros u Hn Hu. destruct u as [|c r]; [done|]. exists c, r. apply safe_of_nomatch in Hu. cbn in Hu. bools. split_and!; [done|intros ->; done|intros ->; done]. }
  assert (Hform : forall s, BSL ∉ s -> s = [] /\ quoteCompose s = [] \/ quoteCompose s = s /\ (exists c r, s = c :: r /\ c <> SQ /\ c <> DQ) \/
    exists q, (q = DQ \/ q = SQ) /\ quoteCompose s = q :: (s ≫= compose_rune q) ++ [q]).
  { intros u Hu. unfold quoteCompose. destruct (decide (u = [])) as [->|Hn]; [by left|]. rewrite bool_decide_false by done. right.
    destruct (existsb _ u); cbn [negb andb]; [right; exists DQ; auto|]. destruct (UnixEscape_MatchString u) eqn:Em; cbn [negb].
    - right. exists SQ. auto.
    - left. split; [done|]. by apply Hplain. }
  intros Hs Ht E. destruct (Hform s Hs) as [[-> Es]|[[Es (c & r & Er & Hc1 & Hc2)]|(q & Hq & Es)]], (Hform t Ht) as [[-> Et]|[[Et (d & r' & Er' & Hd1 & Hd2)]|(q' & Hq' & Et)]];
    rewrite ?Es, ?Et in E; subst; try done; try (by destruct Hq as [->| ->]; destruct Hq'; congruence); try congruence.
  - exfalso. injection Er as -> _. destruct Hq'; congruence.
  - exfalso. injection Er' as -> _. destruct Hq; congruence.
  - injection E as -> E. by eapply compose_body_inj.
Qed.
Lemma quoteCompose_injective_witness : [97; 32; 98] = [97; 32; 98].
Proof. apply (quoteCompose_injective [97; 32; 98] [97; 32; 98]); [decide_it|decide_it|reflexivity]. Defined.
(** With a backslash they need not: a value that has a tab, a backslash and an n is
    written like one that has a tab and a line feed. *)
Theorem quoteCompose_confuses_backslash : quoteCompose [TAB; BSL; 110] = quoteCompose [TAB; NL] /\ [TAB; BSL; 110] <> [TAB; NL].
Proof. done. Qed.
(** The name of every syntax but that of JSON is what selects it. *)
Theorem syntax_String_Set e : (e <> SyntaxJSON -> syntax_Set (syntax_String e) = Some e) /\
  syntax_Set "json" = Some SyntaxJSON /\ syntax_String SyntaxJSON = "unknown"%string.
Proof. split; [by destruct e|done]. Qed.
