(* ===== verification/Matcher.v ===== *)
(** * Request matchers (src/pkg/matcher: value.go, headers.go, paths.go, request.go)

    A [Value] matches a string exactly, by prefix or with a regular expression.
    [Paths] match when one of them does, [HeaderMap]s when all of them do, and a
    [request] when both do.  Go's [regexp.Compile] is a parameter (a class): a
    pattern either fails to compile or gives its [MatchString] function.  The
    other library functions used here ([QuoteMeta], [CanonicalMIMEHeaderKey],
    [Header.Get], [strings.Split] and [Join]) are defined.

    A Go map that is ranged over is given as the list of its entries in the
    order of the iteration, which Go leaves open. *)
From S2P Require Import Prelude GoStrings.
From Stdlib Require Import Ascii.

Class GoRegexp := Compile : string -> option (string -> bool).

(** ** Library functions *)

Definition is_meta (a : ascii) : bool :=
  bool_decide (a ∈ String.list_ascii_of_string "\.+*?()|[]{}^$").

(** [regexp.QuoteMeta]. *)
Fixpoint QuoteMeta (s : string) : string :=
  match s with
  | EmptyString => EmptyString
  | String a s => if is_meta a then String "\" (String a (QuoteMeta s)) else String a (QuoteMeta s)
  end.

Definition in_range (lo hi : N) (a : ascii) : bool := (lo <=? N_of_ascii a)%N && (N_of_ascii a <=? hi)%N.
Definition lower_letter := in_range 97 122.
Definition upper_letter := in_range 65 90.

(** The token bytes of RFC 7230. *)
Definition validHeaderFieldByte (a : ascii) : bool :=
  lower_letter a || upper_letter a || in_range 48 57 a || bool_decide (a ∈ String.list_ascii_of_string "!#$%&'*+-.^_`|~").

Definition to_upper (a : ascii) : ascii := if lower_letter a then ascii_of_N (N_of_ascii a - 32) else a.
Definition to_lower (a : ascii) : ascii := if upper_letter a then ascii_of_N (N_of_ascii a + 32) else a.

Fixpoint canonical_loop (upper : bool) (s : string) : string :=
  match s with
  | EmptyString => EmptyString
  | String a s => String (if upper then to_upper a else to_lower a) (canonical_loop (bool_decide (a = "-"%char)) s)
  end.

Fixpoint all_chars (f : ascii -> bool) (s : string) : bool :=
  match s with EmptyString => true | String a s => f a && all_chars f s end.

(** [textproto.CanonicalMIMEHeaderKey]: a key with a byte that is no token byte
    is returned unchanged. *)
Definition CanonicalMIMEHeaderKey (s : string) : string :=
  if all_chars validHeaderFieldByte s then canonical_loop true s else s.

(** [http.Header] and its [Get]. *)
Abbreviation Header := (gmap string (list string)).
Definition Header_Get (h : Header) (name : string) : string :=
  match h !! CanonicalMIMEHeaderKey name with Some (v :: _) => v | _ => ""%string end.

(** [strings.Split] by one character and [strings.Join]. *)
Fixpoint split_loop (c : ascii) (s : string) : string * list string :=
  match s with
  | EmptyString => (EmptyString, [])
  | String a s =>
      let '(w, ws) := split_loop c s in
      if bool_decide (a = c) then (EmptyString, w :: ws) else (String a w, ws)
  end.
Definition Split (c : ascii) (s : string) : list string := let '(w, ws) := split_loop c s in w :: ws.

Fixpoint Join (sep : string) (l : list string) : string :=
  match l with
  | [] => EmptyString
  | [s] => s
  | s :: l => s +:+ sep +:+ Join sep l
  end.

(** ** value.go *)

Inductive ValueOp := ValueOpEqual | ValueOpRegex | ValueOpPrefix.
Global Instance ValueOp_eq : EqDecision ValueOp.
Proof. solve_decision. Defined.

(** The three implementations of the [Value] interface. *)
Inductive Value := textValue (t : string) | rxValue (r : string) | prefixValue (p : string).
Global Instance Value_eq : EqDecision Value.
Proof. solve_decision. Defined.

Local Open Scope string_scope.
Definition ValueOp_String (op : ValueOp) : string :=
  match op with ValueOpEqual => "==" | ValueOpRegex => "=~" | ValueOpPrefix => "prefix" end.
Local Close Scope string_scope.

Abbreviation HeaderMap := (gmap string Value).
Abbreviation Paths := (list Value).

Section Matcher.
Context {RX : GoRegexp}.

Definition MatchString (r v : string) : bool := match Compile r with Some m => m v | None => false end.

Definition Value_Matches (x : Value) (v : string) : bool :=
  match x with
  | textValue t => bool_decide (t = v)
  | rxValue r => negb (bool_decide (v = ""%string)) && MatchString r v
  | prefixValue p => HasPrefix v p
  end.
Definition Value_String (x : Value) : string := match x with textValue s | rxValue s | prefixValue s => s end.
Definition Op (x : Value) : ValueOp :=
  match x with textValue _ => ValueOpEqual | rxValue _ => ValueOpRegex | prefixValue _ => ValueOpPrefix end.

Definition NewEqual (v : string) : Value := textValue v.
Definition NewPrefix (v : string) : Value := prefixValue v.
Definition NewRegex (v : string) : Value := match Compile v with Some _ => rxValue v | None => NewEqual v end.
Definition NewValue (v : string) : Value := if bool_decide (QuoteMeta v = v) then NewEqual v else NewRegex v.
Definition NewOpValue (op : ValueOp) (v : string) : Value :=
  match op with ValueOpRegex => NewRegex v | ValueOpPrefix => NewPrefix v | ValueOpEqual => NewEqual v end.

(** ** headers.go *)

Definition add_header (hm : HeaderMap) (kv : string * string) : HeaderMap :=
  <[CanonicalMIMEHeaderKey kv.1 := NewValue kv.2]> hm.
Definition NewHeaders (hs : list (string * string)) : HeaderMap := foldl add_header ∅ hs.

Definition HeaderMap_Map (m : HeaderMap) : gmap string string := Value_String <$> m.

Definition HeaderMap_Matches (m : HeaderMap) (h : Header) : bool :=
  forallb (fun kv : string * Value => Value_Matches kv.2 (Header_Get h kv.1)) (map_to_list m).

(** ** paths.go *)

Definition PathEqual : string := ":path-equal:".
Definition PathPrefix : string := ":path-prefix:".
Definition PathRegex : string := ":path-regex:".

Definition splitPath (path : string) : string * string :=
  match path with
  | String ":" rest =>
      match IndexByte rest ":" with
      | Some (S n) => (str_take (S n + 2) path, str_drop (S n + 2) path)
      | _ => (PathEqual, path)
      end
  | _ => (PathEqual, path)
  end.

Definition PathValue (path : string) : Value :=
  let '(p, v) := splitPath path in
  if bool_decide (p = PathPrefix) then NewPrefix v
  else if bool_decide (p = PathRegex) then NewRegex v
  else NewEqual v.

Definition NewPaths (paths : list string) : Paths := PathValue <$> paths.

Definition path_pfx (op : ValueOp) : string :=
  match op with ValueOpRegex => PathRegex | ValueOpPrefix => PathPrefix | ValueOpEqual => PathEqual end.
Definition Paths_Slice (ps : Paths) : list string := (fun p => path_pfx (Op p) +:+ Value_String p) <$> ps.

Definition Paths_Matches (ps : Paths) (path : string) : bool :=
  Nat.eqb (length ps) 0 || existsb (fun v => Value_Matches v path) ps.

(** ** request.go *)

Record request := mkRequest { r_paths : Paths; r_headers : HeaderMap }.

(** The map of [NewRequestFromMap], by its entries in iteration order. *)
Definition add_entry (r : request) (kv : string * string) : request :=
  if bool_decide (kv.1 = ":paths:"%string) then mkRequest (NewPaths (Split ";" kv.2)) (r_headers r)
  else mkRequest (r_paths r) (add_header (r_headers r) kv).
Definition NewRequestFromMap (m : list (string * string)) : request := foldl add_entry (mkRequest [] ∅) m.

Definition NewRequest (paths : list string) (hdrs : list (string * string)) : request :=
  mkRequest (if Nat.ltb 0 (length paths) then NewPaths paths else [])
            (if Nat.ltb 0 (length hdrs) then NewHeaders hdrs else ∅).

(** [maps.Merge(pm, m)]: the header entries win over [:paths:]. *)
Definition request_Map (r : request) : gmap string string :=
  let m := if Nat.ltb 0 (size (r_headers r)) then HeaderMap_Map (r_headers r) else ∅ in
  if Nat.ltb 0 (length (r_paths r)) then m ∪ {[":paths:"%string := Join ";" (Paths_Slice (r_paths r))]} else m.

Definition IsGlobal (r : request) : bool := Nat.eqb (length (r_paths r)) 0 && Nat.eqb (size (r_headers r)) 0.

Definition MatchesPathAndHeader (r : request) (path : string) (header : Header) : bool :=
  Paths_Matches (r_paths r) path && (Nat.eqb (size (r_headers r)) 0 || HeaderMap_Matches (r_headers r) header).
End Matcher.

(** ** Printing *)

(** [maps.SortedKeys]. *)
Definition SortedKeys {A} (m : gmap string A) : list string := merge_sort String.le (map_to_list m).*1.

Definition nl : string := String "010" EmptyString.

Local Open Scope string_scope.

Definition header_item (m : HeaderMap) (indent k : string) : string :=
  match m !! k with
  | Some v =>
      if bool_decide (Op v = ValueOpEqual) then indent +:+ "'" +:+ k +:+ ": " +:+ Value_String v +:+ "'"
      else indent +:+ "'" +:+ k +:+ " " +:+ ValueOp_String (Op v) +:+ " " +:+ Value_String v +:+ "'"
  | None => ""
  end.

Definition HeaderMap_appendString (m : HeaderMap) (indent : string) : string :=
  if Nat.eqb (size m) 0 then ""
  else
    let '(head, indent') := if Nat.ltb 1 (size m) then ("s" +:+ nl, indent +:+ " ") else (" ", "") in
    indent +:+ "header" +:+ head +:+ Join nl (header_item m indent' <$> SortedKeys m).

Definition Paths_appendString (ps : Paths) (indent : string) : string :=
  if Nat.eqb (length ps) 0 then ""
  else
    let '(head, indent') := if Nat.ltb 1 (length ps) then ("s" +:+ nl, indent +:+ " ") else (" ", "") in
    indent +:+ "path" +:+ head +:+
    Join nl ((fun p => indent' +:+ ValueOp_String (Op p) +:+ " " +:+ Value_String p) <$> ps).

Definition request_String (r : request) : string :=
  if IsGlobal r then "all TCP connections"
  else
    let many :=
      if Nat.ltb 0 (size (r_headers r)) then
        nl +:+ Paths_appendString (r_paths r) " " +:+ nl +:+ HeaderMap_appendString (r_headers r) " "
      else " " +:+ Paths_appendString (r_paths r) "" in
    "HTTP requests with" +:+
    match length (r_paths r) with
    | O => " " +:+ HeaderMap_appendString (r_headers r) ""
    | 1%nat =>
        if Nat.ltb (size (r_headers r)) 2 then
          " " +:+ Paths_appendString (r_paths r) "" +:+
          (if Nat.ltb 0 (size (r_headers r)) then " and " +:+ HeaderMap_appendString (r_headers r) "" else "")
        else many
    | _ => many
    end.
Local Close Scope string_scope.

(** ** A reference instance for the examples

    The fragment of Go's syntax with literal characters, [.], a postfix [*], a
    leading [^] and a trailing [$].  Patterns outside of it are not accepted. *)
Definition single (p a : ascii) : bool :=
  if bool_decide (p = "."%char) then negb (bool_decide (a = "010"%char)) else bool_decide (p = a).

Section Star.
Context (here : string -> bool) (p : ascii).
Fixpoint match_star (text : string) : bool :=
  here text || match text with String a t => single p a && match_star t | EmptyString => false end.
End Star.

Fixpoint match_here (re : string) (text : string) : bool :=
  match re with
  | EmptyString => true
  | String p re' =>
      match re' with
      | String "*" re'' => match_star (match_here re'') p text
      | _ =>
          if bool_decide (p = "$"%char) && bool_decide (re' = EmptyString) then bool_decide (text = EmptyString)
          else match text with String a t => single p a && match_here re' t | EmptyString => false end
      end
  end.

Fixpoint match_anywhere (re text : string) : bool :=
  match_here re text || match text with String _ t => match_anywhere re t | EmptyString => false end.

(** Literal characters and [.], each with an optional [*], then an optional [$]. *)
Fixpoint simple_syntax (re : string) : bool :=
  match re with
  | EmptyString | String "$" EmptyString => true
  | String p re' =>
      (bool_decide (p = "."%char) || negb (is_meta p)) &&
      match re' with String "*" re'' => simple_syntax re'' | _ => simple_syntax re' end
  end.

Definition simple_regexp : GoRegexp := fun re =>
  match re with
  | String "^" re' => if simple_syntax re' then Some (match_here re') else None
  | _ => if simple_syntax re then Some (match_anywhere re) else None
  end.
