(* ===== verification/MatcherSpec.v ===== *)
(** * Correctness of the request matchers

    Header names are compared in canonical form, the order in which Go iterates
    over the filter map does not matter as long as no two names have the same
    canonical form, and a request matcher survives the trip through its map
    representation unless a path contains the separator. *)
From S2P Require Import Prelude GoStrings Matcher.
From Stdlib Require Import Ascii.

(** ** Canonical header names *)

Lemma to_upper_idem a : to_upper (to_upper a) = to_upper a.
Proof. destruct a as [[] [] [] [] [] [] [] []]; reflexivity. Qed.
Lemma to_lower_idem a : to_lower (to_lower a) = to_lower a.
Proof. destruct a as [[] [] [] [] [] [] [] []]; reflexivity. Qed.
Lemma to_upper_dash a : bool_decide (to_upper a = "-"%char) = bool_decide (a = "-"%char).
Proof. destruct a as [[] [] [] [] [] [] [] []]; reflexivity. Qed.
Lemma to_lower_dash a : bool_decide (to_lower a = "-"%char) = bool_decide (a = "-"%char).
Proof. destruct a as [[] [] [] [] [] [] [] []]; reflexivity. Qed.
Lemma to_upper_valid a : validHeaderFieldByte (to_upper a) = validHeaderFieldByte a.
Proof. destruct a as [[] [] [] [] [] [] [] []]; reflexivity. Qed.
Lemma to_lower_valid a : validHeaderFieldByte (to_lower a) = validHeaderFieldByte a.
Proof. destruct a as [[] [] [] [] [] [] [] []]; reflexivity. Qed.

Lemma canonical_loop_idem s u : canonical_loop u (canonical_loop u s) = canonical_loop u s.
Proof.
  revert u. induction s as [|a s IH]; intros u; [reflexivity|]. cbn [canonical_loop].
  destruct u; rewrite ?to_upper_idem, ?to_lower_idem, ?to_upper_dash, ?to_lower_dash, IH; reflexivity.
Qed.

Lemma canonical_loop_valid s u :
  all_chars validHeaderFieldByte (canonical_loop u s) = all_chars validHeaderFieldByte s.
Proof.
  revert u. induction s as [|a s IH]; intros u; [reflexivity|]. cbn [canonical_loop all_chars].
  destruct u; rewrite ?to_upper_valid, ?to_lower_valid, IH; reflexivity.
Qed.

Lemma Canonical_idem s : CanonicalMIMEHeaderKey (CanonicalMIMEHeaderKey s) = CanonicalMIMEHeaderKey s.
Proof.
  unfold CanonicalMIMEHeaderKey. destruct (all_chars validHeaderFieldByte s) eqn:H.
  - rewrite canonical_loop_valid, H. apply canonical_loop_idem.
  - rewrite H. reflexivity.
Qed.
#[export] Hint Rewrite Canonical_idem : tele.

(** ** Splitting *)

Lemma split_loop_no_char c s : no_char c s -> split_loop c s = (s, []).
Proof.
  induction s as [|a s IH]; intros H; [reflexivity|]. cbn [split_loop]. apply no_char_cons in H as [Ha Hs].
  rewrite IH by exact Hs. by rewrite bool_decide_eq_false_2.
Qed.

Lemma split_loop_app c s t : no_char c s ->
  split_loop c (s +:+ String c t) = (s, Split c t).
Proof.
  induction s as [|a s IH]; intros H; unfold Split.
  - change ("" +:+ String c t) with (String c t). cbn [split_loop]. destruct (split_loop c t).
    by rewrite bool_decide_eq_true_2.
  - apply no_char_cons in H as [Ha Hs]. change (String a s +:+ String c t) with (String a (s +:+ String c t)).
    cbn [split_loop]. rewrite IH by exact Hs. by rewrite bool_decide_eq_false_2.
Qed.

Lemma Split_Join c l : Forall (no_char c) l -> l <> [] -> Split c (Join (String c EmptyString) l) = l.
Proof.
  induction 1 as [|s l Hs Hl IH]; intros Hne; [done|]. destruct l as [|s' l].
  - unfold Split. cbn [Join]. by rewrite split_loop_no_char.
  - change (Join (String c "") (s :: s' :: l)) with (s +:+ String c (Join (String c "") (s' :: l))).
    unfold Split at 1. rewrite split_loop_app by exact Hs. f_equal. by apply IH.
Qed.

Lemma no_char_drop c n s : no_char c s -> no_char c (str_drop n s).
Proof.
  revert s. induction n as [|n IH]; intros [|a s] H; cbn [str_drop]; try exact H. apply no_char_cons in H as [_ Hs]. by apply IH.
Qed.

Section Spec.
Context {RX : GoRegexp}.

Lemma NewValue_String s : Value_String (NewValue s) = s.
Proof. unfold NewValue, NewRegex, NewEqual. repeat case_match; reflexivity. Qed.

Lemma PathValue_no_char c s : no_char c s -> no_char c (Value_String (PathValue s)).
Proof.
  intros H. unfold PathValue. assert (Hs : no_char c (splitPath s).2).
  { unfold splitPath. repeat case_match; try exact H; apply no_char_drop; exact H. }
  destruct (splitPath s) as [p v]. unfold NewPrefix, NewRegex, NewEqual. repeat case_match; exact Hs.
Qed.

Lemma PathValue_again s : PathValue (path_pfx (Op (PathValue s)) +:+ Value_String (PathValue s)) = PathValue s.
Proof.
  assert (Hc : (exists v, PathValue s = textValue v) \/ (exists v, PathValue s = prefixValue v) \/
               (exists v, PathValue s = rxValue v /\ Compile v <> None)).
  { unfold PathValue, NewPrefix, NewRegex, NewEqual. destruct (splitPath s) as [p v].
    destruct (bool_decide (p = PathPrefix)); [eauto|]. destruct (bool_decide (p = PathRegex)); [|eauto].
    destruct (Compile v) eqn:E; [|eauto]. right. right. exists v. split; [done|congruence]. }
  destruct Hc as [[v Hv]|[[v Hv]|[v [Hv Hcv]]]]; rewrite Hv; cbn [Op path_pfx Value_String].
  - reflexivity.
  - reflexivity.
  - change (PathValue (PathRegex +:+ v)) with (NewRegex v). unfold NewRegex. destruct (Compile v); [reflexivity|done].
Qed.

Lemma NewPaths_Slice l : NewPaths (Paths_Slice (NewPaths l)) = NewPaths l.
Proof.
  unfold NewPaths, Paths_Slice. induction l as [|s l IH]; [reflexivity|].
  cbn [fmap list_fmap] in *. rewrite PathValue_again, IH. reflexivity.
Qed.

Lemma Slice_no_char l : Forall (no_char ";") l -> Forall (no_char ";") (Paths_Slice (NewPaths l)).
Proof.
  unfold NewPaths, Paths_Slice. induction 1 as [|s l Hs Hl IH]; [constructor|]. cbn [fmap list_fmap].
  constructor; [|exact IH]. apply no_char_app. split; [|by apply PathValue_no_char].
  by destruct (Op _); repeat split.
Qed.

(** ** Header maps *)

Lemma add_headers_lookup hs hm k :
  NoDup ((fun kv => CanonicalMIMEHeaderKey kv.1) <$> hs) ->
  foldl add_header hm hs !! k =
    match list_find (fun kv => CanonicalMIMEHeaderKey kv.1 = k) hs with
    | Some (_, kv) => Some (NewValue kv.2)
    | None => hm !! k
    end.
Proof.
  revert hm. induction hs as [|[n v] hs IH]; intros hm Hnd; [reflexivity|]. cbn [foldl list_find fmap list_fmap] in *.
  apply NoDup_cons in Hnd as [Hni Hnd]. rewrite IH by exact Hnd. unfold add_header at 1. cbn [fst snd].
  destruct (decide (CanonicalMIMEHeaderKey n = k)) as [Hk|Hk].
  - subst k. rewrite lookup_insert_eq. cbn [fst snd].
    destruct (list_find _ hs) as [[i kv]|] eqn:Hf; [|reflexivity]. exfalso.
    apply list_find_Some in Hf as (Hi & Hp & _). apply Hni. apply list_elem_of_fmap. exists kv. split; [done|].
    by eapply list_elem_of_lookup_2.
  - rewrite lookup_insert_ne by exact Hk. destruct (list_find _ hs) as [[i kv]|]; reflexivity.
Qed.

Lemma add_headers_Some hs hm k x :
  NoDup ((fun kv => CanonicalMIMEHeaderKey kv.1) <$> hs) -> hm = ∅ ->
  (foldl add_header hm hs !! k = Some x <-> exists kv, kv ∈ hs /\ CanonicalMIMEHeaderKey kv.1 = k /\ x = NewValue kv.2).
Proof.
  intros Hnd ->. rewrite add_headers_lookup by exact Hnd. split.
  - destruct (list_find _ hs) as [[i kv]|] eqn:Hf; [|by rewrite lookup_empty]. intros [= <-].
    apply list_find_Some in Hf as (Hi & Hp & _). exists kv. split_and!; [by eapply list_elem_of_lookup_2|done|done].
  - intros (kv & Hin & Hk & ->). apply list_elem_of_lookup in Hin as [i Hi].
    destruct (list_find (fun kv => CanonicalMIMEHeaderKey kv.1 = k) hs) as [[j kv']|] eqn:Hf.
    + apply list_find_Some in Hf as (Hj & Hp & _). assert (i = j) as ->; [|congruence].
      apply (NoDup_lookup _ _ _ k Hnd); rewrite list_lookup_fmap; [rewrite Hi|rewrite Hj]; simpl; congruence.
    + apply list_find_None in Hf. rewrite Forall_forall in Hf. exfalso. apply (Hf kv); [|exact Hk].
      by eapply list_elem_of_lookup_2.
Qed.

(** The header matcher that [NewHeaders] builds does not depend on the order in
    which Go iterates over the filter map, provided that no two names have the
    same canonical form, and it matches exactly the requests in which every
    filter matches the first value of the header it names. *)
Theorem NewHeaders_correct (hs hs' : list (string * string)) (h : Header) :
  NoDup ((fun kv => CanonicalMIMEHeaderKey kv.1) <$> hs) -> hs' ≡ₚ hs ->
  NewHeaders hs' = NewHeaders hs /\
  (HeaderMap_Matches (NewHeaders hs) h = true <->
   forall k v, (k, v) ∈ hs -> Value_Matches (NewValue v) (Header_Get h k) = true).
Proof.
  intros Hnd Hp. assert (Hnd' : NoDup ((fun kv => CanonicalMIMEHeaderKey kv.1) <$> hs')) by by rewrite Hp.
  split.
  - unfold NewHeaders. apply map_eq. intros k. apply option_eq. intros x.
    rewrite !add_headers_Some by auto. by setoid_rewrite Hp.
  - unfold HeaderMap_Matches, NewHeaders. rewrite forallb_forall. setoid_rewrite <- list_elem_of_In.
    setoid_rewrite elem_of_map_to_list'. split.
    + intros H k v Hin. specialize (H (CanonicalMIMEHeaderKey k, NewValue v)). cbn [fst snd] in H.
      unfold Header_Get in *. rewrite Canonical_idem in H. apply H. rewrite add_headers_Some by auto. by exists (k, v).
    + intros H [k x]. cbn [fst snd]. rewrite add_headers_Some by auto. intros ([n v] & Hin & <- & ->). cbn [fst snd].
      specialize (H _ _ Hin). unfold Header_Get in *. by rewrite Canonical_idem.
Qed.

(** ** The map representation *)

Lemma entries_headers l r :
  r_headers (foldl add_entry r l) =
    foldl add_header (r_headers r) (filter (fun kv : string * string => kv.1 <> ":paths:"%string) l).
Proof.
  revert r. induction l as [|[k v] l IH]; intros r; [reflexivity|]. cbn [foldl]. rewrite IH, filter_cons.
  unfold add_entry. cbn [fst snd]. case_bool_decide as Hk.
  - rewrite decide_False by (cbn [fst]; tauto). reflexivity.
  - rewrite decide_True by exact Hk. reflexivity.
Qed.

Lemma entries_paths l r :
  NoDup l.*1 ->
  r_paths (foldl add_entry r l) =
    match (list_to_map l : gmap string string) !! ":paths:"%string with
    | Some v => NewPaths (Split ";" v)
    | None => r_paths r
    end.
Proof.
  revert r. induction l as [|[k v] l IH]; intros r Hnd; [reflexivity|].
  cbn [fmap list_fmap fst] in Hnd. apply NoDup_cons in Hnd as [Hni Hnd].
  cbn [foldl]. rewrite IH, list_to_map_cons by exact Hnd. unfold add_entry. cbn [fst snd].
  case_bool_decide as Hk.
  - subst k. rewrite lookup_insert_eq. by rewrite (not_elem_of_list_to_map_1 _ _ Hni).
  - rewrite lookup_insert_ne by exact Hk. reflexivity.
Qed.

Lemma foldl_add_header_inv (Q : string -> Value -> Prop) hs hm :
  (forall k x, hm !! k = Some x -> Q k x) ->
  (forall kv, kv ∈ hs -> Q (CanonicalMIMEHeaderKey kv.1) (NewValue kv.2)) ->
  forall k x, foldl add_header hm hs !! k = Some x -> Q k x.
Proof.
  revert hm. induction hs as [|kv hs IH]; intros hm H0 Hhs; [exact H0|]. cbn [foldl]. apply IH.
  - intros k x. unfold add_header. rewrite lookup_insert_Some. intros [[<- <-]|[_ Hk]]; [|by apply H0].
    apply Hhs. by apply list_elem_of_here.
  - intros kv' Hin. apply Hhs. by apply list_elem_of_further.
Qed.

Lemma NewHeaders_canonical hs k x : NewHeaders hs !! k = Some x ->
  CanonicalMIMEHeaderKey k = k /\ NewValue (Value_String x) = x /\
  exists kv, kv ∈ hs /\ CanonicalMIMEHeaderKey kv.1 = k.
Proof.
  revert k x. apply (foldl_add_header_inv (fun k x => CanonicalMIMEHeaderKey k = k /\ NewValue (Value_String x) = x /\
    exists kv, kv ∈ hs /\ CanonicalMIMEHeaderKey kv.1 = k)).
  - intros k x. by rewrite lookup_empty.
  - intros kv Hin. rewrite Canonical_idem, NewValue_String. eauto.
Qed.

Definition header_names_ok (hs : list (string * string)) : Prop :=
  Forall (fun kv => CanonicalMIMEHeaderKey kv.1 <> ":paths:"%string) hs.

Lemma NewRequest_fields paths hdrs : NewRequest paths hdrs = mkRequest (NewPaths paths) (NewHeaders hdrs).
Proof. unfold NewRequest. by destruct paths, hdrs. Qed.

Lemma headers_no_paths hdrs : header_names_ok hdrs -> NewHeaders hdrs !! ":paths:"%string = None.
Proof.
  intros Hok. destruct (NewHeaders hdrs !! _) eqn:E; [|done]. exfalso.
  apply NewHeaders_canonical in E as (_ & _ & kv & Hin & Hk). unfold header_names_ok in Hok.
  rewrite Forall_forall in Hok. exact (Hok kv Hin Hk).
Qed.

Lemma request_Map_lookup paths hdrs k v : header_names_ok hdrs ->
  request_Map (NewRequest paths hdrs) !! k = Some v <->
  (k <> ":paths:"%string /\ exists x, NewHeaders hdrs !! k = Some x /\ Value_String x = v) \/
  (k = ":paths:"%string /\ paths <> [] /\ v = Join ";" (Paths_Slice (NewPaths paths))).
Proof.
  intros Hok. pose proof (headers_no_paths _ Hok) as Hnp. unfold request_Map. rewrite NewRequest_fields. cbn [r_paths r_headers].
  set (m := if Nat.ltb 0 _ then HeaderMap_Map _ else ∅).
  assert (Hm : forall k v, m !! k = Some v <-> exists x, NewHeaders hdrs !! k = Some x /\ Value_String x = v).
  { intros k' v'. unfold m. destruct (Nat.ltb_spec 0 (size (NewHeaders hdrs))) as [Hs|Hs].
    - unfold HeaderMap_Map. rewrite lookup_fmap, fmap_Some. naive_solver.
    - assert (Hz : size (NewHeaders hdrs) = 0%nat) by lia. apply map_size_empty_inv in Hz. rewrite Hz, !lookup_empty.
      split; [done|]. by intros (x & Hx & _). }
  assert (Hmn : m !! ":paths:"%string = None).
  { destruct (m !! _) eqn:E; [|done]. apply Hm in E as (x & Hx & _). congruence. }
  destruct paths as [|p paths]; cbn [NewPaths fmap list_fmap length Nat.ltb Nat.leb].
  - rewrite Hm. split; [|naive_solver]. intros (x & Hx & Hv). left. split; [congruence|eauto].
  - rewrite lookup_union_Some_raw, Hm. destruct (decide (k = ":paths:"%string)) as [->|Hk].
    + rewrite lookup_singleton_eq. naive_solver.
    + rewrite lookup_singleton_ne by congruence. naive_solver.
Qed.

(** A request matcher built from path and header filters is the same after the
    trip through its map representation, whatever the iteration order [l] of
    that map, as long as no path contains the separator [;] and no header is
    called [:paths:]. *)
Theorem request_Map_roundtrip (paths : list string) (hdrs l : list (string * string)) :
  Forall (no_char ";") paths -> header_names_ok hdrs ->
  l ≡ₚ map_to_list (request_Map (NewRequest paths hdrs)) ->
  NewRequestFromMap l = NewRequest paths hdrs.
Proof.
  intros Hpaths Hok Hl. pose proof (request_Map_lookup paths hdrs) as HM.
  assert (Hin : forall k v, (k, v) ∈ l <-> request_Map (NewRequest paths hdrs) !! k = Some v).
  { intros k v. by rewrite Hl, elem_of_map_to_list. }
  assert (Hnd : NoDup l.*1) by (rewrite Hl; apply NoDup_fst_map_to_list).
  unfold NewRequestFromMap. rewrite NewRequest_fields. set (r := foldl _ _ _).
  assert (r = mkRequest (r_paths r) (r_headers r)) as -> by by destruct r. subst r. f_equal.
  - rewrite entries_paths by exact Hnd. destruct (list_to_map l !! _) as [v|] eqn:E.
    + apply elem_of_list_to_map_2, Hin, HM in E as [[? _]|(_ & Hne & ->)]; [done| |exact Hok].
      rewrite Split_Join; [apply NewPaths_Slice|by apply Slice_no_char|].
      intros Hnil. apply Hne. by destruct paths.
    + destruct paths as [|p paths]; [reflexivity|]. exfalso. apply not_elem_of_list_to_map_2 in E.
      apply E, list_elem_of_fmap. eexists (_, _). split; [reflexivity|]. apply Hin, HM; [exact Hok|]. right.
      split_and!; [done|done|reflexivity].
  - rewrite entries_headers. set (hs := filter _ l).
    assert (Hhs : forall k v, (k, v) ∈ hs <-> exists x, NewHeaders hdrs !! k = Some x /\ Value_String x = v).
    { intros k v. unfold hs. rewrite list_elem_of_filter, Hin, HM by exact Hok. cbn [fst]. pose proof (headers_no_paths _ Hok). split.
      - naive_solver.
      - intros (x & Hx & Hv). assert (k <> ":paths:"%string) by congruence. split; [done|left; eauto]. }
    assert (Hc : (fun kv => CanonicalMIMEHeaderKey kv.1) <$> hs = hs.*1).
    { apply list_fmap_ext. intros i [k v] Hi. cbn [fst]. apply list_elem_of_lookup_2, Hhs in Hi as (x & Hx & _).
      by apply NewHeaders_canonical in Hx as [? _]. }
    apply map_eq. intros k. apply option_eq. intros x. rewrite add_headers_Some; [|rewrite Hc; unfold hs|reflexivity].
    + split.
      * intros ([k' v] & Hi & Hk & ->). cbn [fst snd] in *. apply Hhs in Hi as (y & Hy & Hv).
        destruct (NewHeaders_canonical _ _ _ Hy) as (Hck & Hval & _). rewrite <- Hv, Hval. congruence.
      * intros Hx. destruct (NewHeaders_canonical _ _ _ Hx) as (Hck & Hval & _).
        exists (k, Value_String x). cbn [fst snd]. split_and!; [apply Hhs; eauto|exact Hck|done].
    + eapply sublist_NoDup; [exact Hnd|]. apply fmap_sublist, sublist_filter.
Qed.
End Spec.

(** A path that contains the separator does not survive the trip: the map of the
    matcher for [/a;b] stands for the two paths [/a] and [b]. *)
Theorem request_Map_semicolon (RX : GoRegexp) :
  let r := NewRequest ["/a;b"%string] [] in
  let r' := NewRequestFromMap (map_to_list (request_Map r)) in
  r_paths r' = [textValue "/a"; textValue "b"] /\
  MatchesPathAndHeader r "/a;b" ∅ = true /\ MatchesPathAndHeader r' "/a;b" ∅ = false /\
  MatchesPathAndHeader r "/a" ∅ = false /\ MatchesPathAndHeader r' "/a" ∅ = true.
Proof. vm_compute. auto. Qed.

Local Existing Instance simple_regexp.

Lemma NewHeaders_correct_witness :
  NewHeaders [("X-B", "2"); ("x-a", "1")]%string = NewHeaders [("x-a", "1"); ("X-B", "2")]%string /\
  (HeaderMap_Matches (NewHeaders [("x-a", "1"); ("X-B", "2")]%string) {["X-A"%string := ["1"%string]]} = true <->
   forall k v, (k, v) ∈ [("x-a", "1"); ("X-B", "2")]%string ->
     Value_Matches (NewValue v) (Header_Get {["X-A"%string := ["1"%string]]} k) = true).
Proof.
  apply (NewHeaders_correct [("x-a", "1"); ("X-B", "2")]%string [("X-B", "2"); ("x-a", "1")]%string
    {["X-A"%string := ["1"%string]]}); [decide_it|apply perm_swap].
Defined.

Lemma request_Map_roundtrip_witness :
  NewRequestFromMap (map_to_list (request_Map (NewRequest
    [":path-prefix:/api"; "/x"]%string [("x-user", "me")]%string))) =
  NewRequest [":path-prefix:/api"; "/x"]%string [("x-user", "me")]%string.
Proof.
  apply (request_Map_roundtrip [":path-prefix:/api"; "/x"]%string [("x-user", "me")]%string).
  - repeat constructor.
  - repeat constructor. decide_it.
  - reflexivity.
Defined.
