(* ===== verification/Icept.v ===== *)
(** * Intercept specifications and their conflicts (src/pkg/icept/conflicts.go)

    Two intercepts on the same port conflict when they would route the same
    traffic to different clients.  The manager refuses a conflicting intercept
    when it is created and the agent when it is reviewed, both with
    [IsInConflict]. *)
From S2P Require Import Prelude NetIP GoStrings PortTypes Matcher MatcherSpec.
From Stdlib Require Import Ascii.

(** ** The messages, as far as the modelled code reads them *)

Inductive Disposition :=
  | UNSPECIFIED | ACTIVE | WAITING | REMOVED | NO_CLIENT | NO_AGENT | NO_MECHANISM | NO_PORTS | AGENT_ERROR | BAD_ARGS.
Global Instance Disposition_eq : EqDecision Disposition.
Proof. solve_decision. Defined.

Record InterceptSpec := mkSpec {
  sp_Name : string;
  sp_Client : string;
  sp_Agent : string;
  sp_Namespace : string;
  sp_ServiceName : string;
  sp_ContainerName : string;
  sp_PortIdentifier : string;
  sp_ContainerPort : Z;
  sp_Protocol : string;
  sp_Replace : bool;
  sp_Wiretap : bool;
  sp_NoDefaultPort : bool;
  sp_HeaderFilters : list (string * string);   (* in the order of an iteration *)
  sp_PathFilters : list string;
  sp_PodPorts : list string;
  sp_Mechanism : string;
  sp_TargetPort : Z;
  sp_ServiceUid : string;
  sp_ServicePortName : string;
  sp_ServicePort : Z
}.
Global Instance InterceptSpec_eq : EqDecision InterceptSpec.
Proof. solve_decision. Defined.

Record InterceptInfo := mkInfo {
  ii_Id : string;
  ii_Disposition : Disposition;
  ii_Spec : InterceptSpec
}.
Global Instance InterceptInfo_eq : EqDecision InterceptInfo.
Proof. solve_decision. Defined.

(** ** Values *)

(** The characters at which [regexLiteralPrefix] stops. *)
Definition stops (a : ascii) : bool := bool_decide (a ∈ String.list_ascii_of_string "[](){}?+*|$.\^").

(** The range loop.  A pattern here has compiled, so it is valid UTF-8; the
    stop characters are ASCII and runes are copied, so bytes can be. *)
Fixpoint literal_loop (s : string) : string :=
  match s with
  | EmptyString => EmptyString
  | String a s => if stops a then EmptyString else String a (literal_loop s)
  end.

Definition regexLiteralPrefix (pattern : string) : string :=
  if bool_decide (pattern = ""%string) then ""%string
  else literal_loop (TrimSuffix (TrimPrefix pattern "^") ".*").

Section Conflicts.
Context {RX : GoRegexp}.

Definition regexCanMatchValue (regexPattern : string) (op : ValueOp) (value : string) : bool :=
  if bool_decide (value = ""%string) then true
  else
    let anchored := HasPrefix regexPattern "^" in
    match op with
    | ValueOpEqual =>
        if anchored then match Compile regexPattern with None => true | Some m => m value end else true
    | ValueOpPrefix =>
        if anchored then
          let prefix := regexLiteralPrefix regexPattern in
          if bool_decide (prefix = ""%string) then true else HasPrefix value prefix || HasPrefix prefix value
        else true
    | ValueOpRegex => true
    end.

Definition valuesCanMatch (v1 v2 : Value) : bool :=
  let pattern1 := Value_String v1 in
  let pattern2 := Value_String v2 in
  match Op v1, Op v2 with
  | ValueOpEqual, ValueOpEqual => bool_decide (pattern1 = pattern2)
  | ValueOpPrefix, ValueOpPrefix => HasPrefix pattern1 pattern2 || HasPrefix pattern2 pattern1
  | ValueOpPrefix, ValueOpEqual => HasPrefix pattern2 pattern1
  | ValueOpEqual, ValueOpPrefix => HasPrefix pattern1 pattern2
  | ValueOpRegex, ValueOpRegex =>
      if bool_decide (pattern1 = pattern2) then true
      else
        let prefix1 := regexLiteralPrefix pattern1 in
        let prefix2 := regexLiteralPrefix pattern2 in
        if HasPrefix pattern1 "^" && HasPrefix pattern2 "^"
        then HasPrefix prefix1 prefix2 || HasPrefix prefix2 prefix1
        else true
  | ValueOpRegex, op2 => regexCanMatchValue pattern1 op2 pattern2
  | op1, ValueOpRegex => regexCanMatchValue pattern2 op1 pattern1
  end.

Definition pathsCanMatch (filter1 filter2 : string) : bool := valuesCanMatch (PathValue filter1) (PathValue filter2).

Definition pathFiltersOverlap (paths1 paths2 : list string) : bool :=
  existsb (fun path1 => existsb (fun path2 => pathsCanMatch path1 path2) paths2) paths1.

Definition isHeaderSubset (subset superset : HeaderMap) : bool :=
  forallb (fun kv : string * Value =>
    match superset !! kv.1 with Some superValue => valuesCanMatch kv.2 superValue | None => false end)
    (map_to_list subset).

(** ** Specifications *)

Definition hasHeaders (s : InterceptSpec) : bool := Nat.ltb 0 (length (sp_HeaderFilters s)).
Definition hasPaths (s : InterceptSpec) : bool := Nat.ltb 0 (length (sp_PathFilters s)).
Definition spec_isGlobal (s : InterceptSpec) : bool := negb (hasHeaders s) && negb (hasPaths s).

Definition header_subset (s1 s2 : InterceptSpec) : bool :=
  let headers1 := NewHeaders (sp_HeaderFilters s1) in
  let headers2 := NewHeaders (sp_HeaderFilters s2) in
  isHeaderSubset headers1 headers2 || isHeaderSubset headers2 headers1.

Definition IsInConflict (spec1 spec2 : InterceptSpec) : bool :=
  if spec_isGlobal spec1 || spec_isGlobal spec2 then true
  else if hasHeaders spec1 && negb (hasHeaders spec2) then false
  else if hasHeaders spec2 && negb (hasHeaders spec1) then false
  else if hasHeaders spec1 then
    if negb (header_subset spec1 spec2) then false
    else if negb (hasPaths spec1) || negb (hasPaths spec2) then true
    else pathFiltersOverlap (sp_PathFilters spec1) (sp_PathFilters spec2)
  else pathFiltersOverlap (sp_PathFilters spec1) (sp_PathFilters spec2).

Local Open Scope string_scope.
Definition ExplainConflict (spec1 spec2 : InterceptSpec) : string :=
  if spec_isGlobal spec1 || spec_isGlobal spec2 then "one intercept has no filters (intercepts all traffic)"
  else if hasHeaders spec1 && hasHeaders spec2 && header_subset spec1 spec2 &&
          (negb (hasPaths spec1) || negb (hasPaths spec2) ||
           pathFiltersOverlap (sp_PathFilters spec1) (sp_PathFilters spec2))
  then "header filters" +:+ (if hasPaths spec1 && hasPaths spec2 then " and paths" else "") +:+ " overlap"
  else if hasPaths spec1 && hasPaths spec2 && negb (hasHeaders spec1) && negb (hasHeaders spec2)
  then "path filters overlap"
  else "filters would route the same traffic to different destinations".
Local Close Scope string_scope.

Definition PotentialConflict (agentName namespace : string) (containerPorts : list PortAndProto) (info : InterceptInfo) : bool :=
  match ii_Disposition info with
  | ACTIVE | WAITING | NO_AGENT =>
      let spec := ii_Spec info in
      negb (sp_Wiretap spec) && bool_decide (sp_Agent spec = agentName) && bool_decide (sp_Namespace spec = namespace) &&
      bool_decide ({| pp_Port := u16 (sp_ContainerPort spec); pp_Proto := FromK8sProtocol (sp_Protocol spec) |} ∈ containerPorts)
  | _ => false
  end.
End Conflicts.

(** * Correctness of the conflict rules

    Conflict detection is symmetric; for exact and prefix filters the overlap
    test is exact (it answers yes if and only if some path matches both), and a
    header-tier conflict comes with a request that both specifications match.
    For regular expressions the literal-prefix test is not conservative, and two
    header filters that are not subsets of each other are not reported although
    one request can match both. *)
Section Spec.
Context {RX : GoRegexp}.

(** ** Values *)

Definition plain (v : Value) : bool := match v with rxValue _ => false | _ => true end.

Lemma valuesCanMatch_comm v1 v2 : valuesCanMatch v1 v2 = valuesCanMatch v2 v1.
Proof.
  destruct v1 as [s|s|s], v2 as [t|t|t]; unfold valuesCanMatch; cbn [Op Value_String]; try reflexivity.
  - apply bool_decide_ext. naive_solver.
  - rewrite (bool_decide_ext (s = t) (t = s)) by naive_solver. rewrite andb_comm. case_match; [reflexivity|].
    case_match; [|reflexivity]. by rewrite orb_comm.
  - by rewrite orb_comm.
Qed.

Lemma valuesCanMatch_plain v1 v2 : plain v1 = true -> plain v2 = true ->
  valuesCanMatch v1 v2 = true <-> exists s, Value_Matches v1 s = true /\ Value_Matches v2 s = true.
Proof.
  intros H1 H2. destruct v1 as [s|s|s], v2 as [t|t|t]; try done; unfold valuesCanMatch; cbn [Op Value_String Value_Matches].
  - rewrite bool_decide_eq_true. setoid_rewrite bool_decide_eq_true. naive_solver.
  - setoid_rewrite bool_decide_eq_true. naive_solver.
  - setoid_rewrite bool_decide_eq_true. naive_solver.
  - rewrite orb_true_iff. split.
    + intros [H|H]; [exists s|exists t]; by rewrite ?HasPrefix_refl.
    + intros (u & Hs & Ht). eapply prefixes_comparable; eauto.
Qed.

(** ** Path filters *)

Definition plain_paths (l : list string) : Prop := Forall (fun p => plain (PathValue p) = true) l.

Lemma pathFiltersOverlap_iff l1 l2 :
  pathFiltersOverlap l1 l2 = true <-> exists p1 p2, p1 ∈ l1 /\ p2 ∈ l2 /\ pathsCanMatch p1 p2 = true.
Proof.
  unfold pathFiltersOverlap. rewrite existsb_exists. setoid_rewrite existsb_exists.
  setoid_rewrite <- list_elem_of_In. naive_solver.
Qed.

Lemma pathFiltersOverlap_comm l1 l2 : pathFiltersOverlap l1 l2 = pathFiltersOverlap l2 l1.
Proof.
  apply eq_true_iff_eq. rewrite !pathFiltersOverlap_iff. unfold pathsCanMatch.
  split; intros (p1 & p2 & ? & ? & H); exists p2, p1; by rewrite valuesCanMatch_comm.
Qed.

Lemma Paths_Matches_iff l path : l <> [] ->
  Paths_Matches (NewPaths l) path = true <-> exists p, p ∈ l /\ Value_Matches (PathValue p) path = true.
Proof.
  intros Hne. unfold Paths_Matches, NewPaths. destruct (Nat.eqb_spec (length (PathValue <$> l)) 0) as [H0|_].
  { rewrite length_fmap in H0. by destruct l. }
  cbn [orb]. rewrite existsb_exists. setoid_rewrite <- list_elem_of_In. setoid_rewrite list_elem_of_fmap. naive_solver.
Qed.

(** ** Specifications *)

Definition spec_request (s : InterceptSpec) : request := NewRequest (sp_PathFilters s) (sp_HeaderFilters s).

Lemma header_subset_comm s1 s2 : header_subset s1 s2 = header_subset s2 s1.
Proof. unfold header_subset. apply orb_comm. Qed.

Lemma conflict_comm s1 s2 : IsInConflict s1 s2 = IsInConflict s2 s1.
Proof.
  unfold IsInConflict. rewrite (orb_comm (spec_isGlobal s2)), (header_subset_comm s2), (pathFiltersOverlap_comm (sp_PathFilters s2)).
  destruct (spec_isGlobal s1 || spec_isGlobal s2); [reflexivity|].
  destruct (hasHeaders s1), (hasHeaders s2); try reflexivity. cbn [andb negb].
  destruct (header_subset s1 s2); [|reflexivity]. cbn [negb]. by rewrite orb_comm.
Qed.

(** Conflicts are symmetric: it does not matter which of two intercepts came
    first, nor which of the manager and the agent asks. *)
Theorem IsInConflict_sym (s1 s2 : InterceptSpec) : IsInConflict s1 s2 = IsInConflict s2 s1.
Proof. apply conflict_comm. Qed.

Lemma global_false s : spec_isGlobal s = false -> hasHeaders s = false -> sp_PathFilters s <> [].
Proof. unfold spec_isGlobal, hasPaths. intros H1 H2 H3. rewrite H2, H3 in H1. discriminate H1. Qed.

Lemma paths_conflict_iff (s1 s2 : InterceptSpec) (h : Header) :
  sp_HeaderFilters s1 = [] -> sp_HeaderFilters s2 = [] -> sp_PathFilters s1 <> [] -> sp_PathFilters s2 <> [] ->
  plain_paths (sp_PathFilters s1) -> plain_paths (sp_PathFilters s2) ->
  (IsInConflict s1 s2 = true <->
   exists path, MatchesPathAndHeader (spec_request s1) path h = true /\ MatchesPathAndHeader (spec_request s2) path h = true).
Proof.
  intros Hh1 Hh2 Hp1 Hp2 Pl1 Pl2. unfold IsInConflict, spec_isGlobal, hasHeaders, hasPaths. rewrite Hh1, Hh2.
  destruct (Nat.ltb_spec 0 (length (sp_PathFilters s1))) as [_|H]; [|destruct (sp_PathFilters s1); simpl in *; [done|lia]].
  destruct (Nat.ltb_spec 0 (length (sp_PathFilters s2))) as [_|H]; [|destruct (sp_PathFilters s2); simpl in *; [done|lia]].
  cbn [length Nat.ltb Nat.leb andb orb negb].
  assert (Hm : forall s path, sp_HeaderFilters s = [] -> MatchesPathAndHeader (spec_request s) path h = Paths_Matches (NewPaths (sp_PathFilters s)) path).
  { intros s path Hs. unfold MatchesPathAndHeader, spec_request. rewrite NewRequest_fields, Hs. cbn [r_paths r_headers].
    by rewrite andb_true_r. }
  setoid_rewrite Hm; [|exact Hh1|exact Hh2]. setoid_rewrite Paths_Matches_iff; [|exact Hp1|exact Hp2].
  rewrite pathFiltersOverlap_iff. unfold pathsCanMatch, plain_paths in *. rewrite Forall_forall in Pl1, Pl2. split.
  - intros (p1 & p2 & I1 & I2 & H). apply valuesCanMatch_plain in H as (s & ? & ?); [|auto..]. naive_solver.
  - intros (path & (p1 & I1 & M1) & (p2 & I2 & M2)). exists p1, p2. split_and!; try done.
    apply valuesCanMatch_plain; eauto.
Qed.

(** Among intercepts that filter on paths only, with exact and prefix filters,
    conflict detection is exact: two of them conflict if and only if some
    request path is matched by both. *)
Theorem IsInConflict_paths_exact (s1 s2 : InterceptSpec) (h : Header) :
  sp_HeaderFilters s1 = [] -> sp_HeaderFilters s2 = [] -> sp_PathFilters s1 <> [] -> sp_PathFilters s2 <> [] ->
  plain_paths (sp_PathFilters s1) -> plain_paths (sp_PathFilters s2) ->
  (IsInConflict s1 s2 = true <->
   exists path, MatchesPathAndHeader (spec_request s1) path h = true /\ MatchesPathAndHeader (spec_request s2) path h = true).
Proof. apply paths_conflict_iff. Qed.

(** ** Header filters *)

(** The request headers that a header map describes. *)
Definition headers_of (m : HeaderMap) : Header := (fun x => [Value_String x]) <$> m.

Lemma headers_of_match m m' :
  (forall k x, m !! k = Some x -> CanonicalMIMEHeaderKey k = k) ->
  (forall k x, m !! k = Some x -> exists y, m' !! k = Some y /\ Value_Matches x (Value_String y) = true) ->
  HeaderMap_Matches m (headers_of m') = true.
Proof.
  intros Hc Hm. unfold HeaderMap_Matches. apply forallb_forall. intros [k x] Hin. cbn [fst snd].
  apply list_elem_of_In, elem_of_map_to_list in Hin. unfold Header_Get, headers_of. rewrite (Hc _ _ Hin), lookup_fmap.
  destruct (Hm _ _ Hin) as (y & -> & Hy). exact Hy.
Qed.

Definition text_headers (hs : list (string * string)) : Prop := Forall (fun kv => QuoteMeta kv.2 = kv.2) hs.

Lemma text_headers_text hs k x : text_headers hs -> NewHeaders hs !! k = Some x -> exists t, x = textValue t.
Proof.
  intros Ht. revert k x. apply (foldl_add_header_inv (fun _ x => exists t, x = textValue t)).
  - intros k x. by rewrite lookup_empty.
  - intros kv Hin. exists kv.2. unfold NewValue, text_headers in *. rewrite Forall_forall in Ht.
    by rewrite bool_decide_eq_true_2 by auto.
Qed.

Lemma isHeaderSubset_spec m m' : isHeaderSubset m m' = true <->
  forall k x, m !! k = Some x -> exists y, m' !! k = Some y /\ valuesCanMatch x y = true.
Proof.
  unfold isHeaderSubset. rewrite forallb_forall. setoid_rewrite <- list_elem_of_In. setoid_rewrite elem_of_map_to_list'.
  split.
  - intros H k x Hk. specialize (H (k, x) Hk). cbn [fst snd] in H. destruct (m' !! k) as [y|]; [eauto|discriminate].
  - intros H [k x] Hk. cbn [fst snd] in *. destruct (H _ _ Hk) as (y & -> & Hy). exact Hy.
Qed.

Lemma subset_match hs1 hs2 : text_headers hs1 -> text_headers hs2 ->
  isHeaderSubset (NewHeaders hs1) (NewHeaders hs2) = true ->
  HeaderMap_Matches (NewHeaders hs1) (headers_of (NewHeaders hs2)) = true /\
  HeaderMap_Matches (NewHeaders hs2) (headers_of (NewHeaders hs2)) = true.
Proof.
  intros T1 T2 Hs. rewrite isHeaderSubset_spec in Hs. split; apply headers_of_match.
  - intros k x Hk. by apply NewHeaders_canonical in Hk as [? _].
  - intros k x Hk. destruct (Hs _ _ Hk) as (y & Hy & Hm). exists y. split; [exact Hy|].
    destruct (text_headers_text _ _ _ T1 Hk) as [t ->], (text_headers_text _ _ _ T2 Hy) as [u ->].
    exact Hm.
  - intros k x Hk. by apply NewHeaders_canonical in Hk as [? _].
  - intros k x Hk. exists x. split; [exact Hk|]. destruct (text_headers_text _ _ _ T2 Hk) as [t ->].
    cbn [Value_Matches Value_String]. by apply bool_decide_eq_true_2.
Qed.

(** A conflict reported between two intercepts with literal header filters and
    no paths is real: there are request headers that both match, on any path. *)
Theorem IsInConflict_headers_real (s1 s2 : InterceptSpec) (path : string) :
  sp_PathFilters s1 = [] -> sp_PathFilters s2 = [] -> text_headers (sp_HeaderFilters s1) -> text_headers (sp_HeaderFilters s2) ->
  hasHeaders s1 = true -> hasHeaders s2 = true ->
  IsInConflict s1 s2 = true ->
  exists h, MatchesPathAndHeader (spec_request s1) path h = true /\ MatchesPathAndHeader (spec_request s2) path h = true.
Proof.
  intros P1 P2 T1 T2 H1 H2 Hc. unfold IsInConflict, spec_isGlobal, hasPaths in Hc. rewrite P1, P2, H1, H2 in Hc.
  cbn [length Nat.ltb Nat.leb andb orb negb] in Hc. destruct (header_subset s1 s2) eqn:Hs; [|discriminate]. clear Hc.
  assert (Hr : forall s h, sp_PathFilters s = [] -> HeaderMap_Matches (NewHeaders (sp_HeaderFilters s)) h = true ->
            MatchesPathAndHeader (spec_request s) path h = true).
  { intros s h Hp Hh. unfold MatchesPathAndHeader, spec_request. rewrite NewRequest_fields, Hp. cbn [r_paths r_headers].
    rewrite Hh. by rewrite orb_true_r. }
  unfold header_subset in Hs. apply orb_true_iff in Hs as [Hs|Hs]; apply subset_match in Hs as [M1 M2]; try assumption; eauto.
Qed.
End Spec.

(** A specification with nothing but filters. *)
Definition filters (headers : list (string * string)) (paths : list string) : InterceptSpec :=
  mkSpec "" "" "" "" "" "" "" 0 "" false false false headers paths [] "" 0 "" "" 0.

(** The literal prefix of a regular expression is not conservative: a quantifier
    applies to the last literal character, which the prefix keeps.  [^/api*]
    matches [/apx], and so does the prefix [/apx], yet no conflict is reported. *)
Theorem regex_prefix_conflict_missed (RX : GoRegexp) (m : string -> bool) :
  Compile "^/api*" = Some m -> m "/apx"%string = true ->
  let s1 := filters [] [":path-regex:^/api*"%string] in
  let s2 := filters [] [":path-prefix:/apx"%string] in
  IsInConflict s1 s2 = false /\
  MatchesPathAndHeader (spec_request s1) "/apx" ∅ = true /\ MatchesPathAndHeader (spec_request s2) "/apx" ∅ = true.
Proof.
  intros Hc Hm s1 s2.
  assert (Hp : PathValue ":path-regex:^/api*" = rxValue "^/api*").
  { change (PathValue ":path-regex:^/api*") with (NewRegex "^/api*"). unfold NewRegex. by rewrite Hc. }
  split_and!.
  - unfold IsInConflict, s1, s2, filters, pathFiltersOverlap, pathsCanMatch.
    cbn [sp_HeaderFilters sp_PathFilters existsb spec_isGlobal hasHeaders hasPaths length]. rewrite Hp. reflexivity.
  - unfold MatchesPathAndHeader, spec_request, s1, filters. rewrite NewRequest_fields.
    cbn [sp_HeaderFilters sp_PathFilters r_paths r_headers NewPaths fmap list_fmap]. rewrite Hp.
    unfold Paths_Matches. cbn [existsb Value_Matches]. unfold MatchString. rewrite Hc, Hm. reflexivity.
  - reflexivity.
Qed.

Lemma regex_prefix_conflict_missed_witness :
  let s1 := filters [] [":path-regex:^/api*"%string] in
  let s2 := filters [] [":path-prefix:/apx"%string] in
  @IsInConflict simple_regexp s1 s2 = false /\
  @MatchesPathAndHeader simple_regexp (@spec_request simple_regexp s1) "/apx" ∅ = true /\
  @MatchesPathAndHeader simple_regexp (@spec_request simple_regexp s2) "/apx" ∅ = true.
Proof. apply (regex_prefix_conflict_missed simple_regexp (match_here "/api*")); reflexivity. Defined.

(** Header filters that are not subsets of each other are not in conflict, yet
    one request can carry both headers and match both intercepts. *)
Theorem disjoint_headers_conflict_missed (RX : GoRegexp) :
  let s1 := filters [("x-user", "adam")]%string [] in
  let s2 := filters [("x-session", "xyz")]%string [] in
  let h : Header := {["X-User"%string := ["adam"%string]; "X-Session"%string := ["xyz"%string]]} in
  IsInConflict s1 s2 = false /\
  MatchesPathAndHeader (spec_request s1) "/" h = true /\ MatchesPathAndHeader (spec_request s2) "/" h = true.
Proof. vm_compute. auto. Qed.

Local Existing Instance simple_regexp.

Lemma IsInConflict_paths_exact_witness :
  IsInConflict (filters [] [":path-prefix:/api"%string]) (filters [] ["/api/v1"%string]) = true <->
  exists path, MatchesPathAndHeader (spec_request (filters [] [":path-prefix:/api"%string])) path ∅ = true /\
               MatchesPathAndHeader (spec_request (filters [] ["/api/v1"%string])) path ∅ = true.
Proof.
  apply (IsInConflict_paths_exact (filters [] [":path-prefix:/api"%string]) (filters [] ["/api/v1"%string]) ∅);
    try reflexivity; try discriminate; repeat constructor.
Defined.

Lemma IsInConflict_headers_real_witness :
  exists h, MatchesPathAndHeader (spec_request (filters [("x-a", "1")]%string [])) "/" h = true /\
            MatchesPathAndHeader (spec_request (filters [("X-A", "1"); ("x-b", "2")]%string [])) "/" h = true.
Proof.
  apply (IsInConflict_headers_real (filters [("x-a", "1")]%string []) (filters [("X-A", "1"); ("x-b", "2")]%string []) "/");
    try reflexivity; repeat constructor.
Defined.
