(* ===== verification/Policies.v ===== *)
(** * Annotations, mount policies and engagement types (src/pkg/annotation/annotation.go,
      src/pkg/types/mountpolicy.go, engagement.go)

    A Go map that may be nil is an option of a finite map; writing to a nil map panics.
    A range over a map visits its entries in an arbitrary order: an operation whose result
    depends on it takes the list of the entries as they are visited. *)
From S2P Require Import Prelude GoStrings GoText GoJson PortTypes Matcher Icept.
From Stdlib Require Import Ascii.
Local Open Scope Z_scope.

(** ** annotation.go *)
Definition DomainPrefix : string := "telepresence.io/".
Definition LegacyDomainPrefix : string := "telepresence.getambassador.io/".
Definition ann_Config : string := DomainPrefix +:+ "agent-config".
Definition InjectContainerPorts : string := DomainPrefix +:+ "inject-container-ports".
Definition InjectIgnoreVolumeMounts : string := DomainPrefix +:+ "inject-ignore-volume-mounts".
Definition InjectServiceName : string := DomainPrefix +:+ "inject-service-name".
Definition InjectServicePorts : string := DomainPrefix +:+ "inject-service-ports".
Definition InjectTrafficAgent : string := DomainPrefix +:+ "inject-traffic-agent".
Definition ManuallyInjected : string := DomainPrefix +:+ "manually-injected".
Definition ReplacedContainerPrefix : string := DomainPrefix +:+ "replaced-container.".
Definition RestartedAt : string := DomainPrefix +:+ "restartedAt".
Definition VolumeMountPolicies : string := DomainPrefix +:+ "mount-policies".
Definition DownstreamTLSSecret : string := DomainPrefix +:+ "downstream-tls-secret".
Definition DownstreamCertificatePath : string := DomainPrefix +:+ "downstream-tls-path".
Definition UpstreamTLSSecret : string := DomainPrefix +:+ "upstream-tls-secret".
Definition UpstreamCertificatePath : string := DomainPrefix +:+ "upstream-tls-path".
Definition LegacyInjectContainerPorts : string := LegacyDomainPrefix +:+ "inject-container-ports".
Definition LegacyInjectIgnoreVolumeMounts : string := LegacyDomainPrefix +:+ "inject-ignore-volume-mounts".
Definition LegacyInjectServiceName : string := LegacyDomainPrefix +:+ "inject-service-name".
Definition LegacyInjectServicePort : string := LegacyDomainPrefix +:+ "inject-service-port".
Definition LegacyInjectTrafficAgent : string := LegacyDomainPrefix +:+ "inject-traffic-agent".
Definition LegacyManuallyInjected : string := LegacyDomainPrefix +:+ "manually-injected".

(** Reading a nil map is reading an empty one. *)
Definition entries {A} (m : option (gmap string A)) : gmap string A := default ∅ m.
Definition GetAnnotation (annotations : option (gmap string string)) (key deprecatedKey : string) : string :=
  match entries annotations !! key with
  | Some value => value
  | None => default "" (entries annotations !! deprecatedKey)
  end.
Definition ReplaceAnnotationKey (cn : string) : string := ReplacedContainerPrefix +:+ cn.

(** ** mountpolicy.go *)
Definition MountPolicyRemote := 0.
Definition MountPolicyRemoteReadOnly := 1.
Definition MountPolicyLocal := 2.
Definition MountPolicyIgnore := 3.
Definition mountPolicyNames : list string := ["Remote"; "RemoteReadOnly"; "Local"; "Ignore"].
Abbreviation MountPolicies := (option (gmap string Z)).

Definition MountPolicy_String (mp : Z) : string :=
  if (0 <=? mp) && (mp <? Z.of_nat (length mountPolicyNames)) then default "" (mountPolicyNames !! Z.to_nat mp) else "Unknown".

Inductive policy_error := ErrInvalidMountPolicy (s : string) | ErrPolicyJson | ErrIgnoreJson | ErrEngagement (s : string).
Global Instance policy_error_eq_dec : EqDecision policy_error.
Proof. solve_decision. Defined.

(** The value is used with an error too. *)
Definition ParseMountPolicy (s : string) : Z * option policy_error :=
  match list_find (fun pn => EqualFold pn s = true) mountPolicyNames with
  | Some (ix, _) => (Z.of_nat ix, None)
  | None => (MountPolicyIgnore, Some (ErrInvalidMountPolicy s))
  end.

(** [json.Unmarshal] into a policy: a string, [null] standing for the empty one. *)
Definition MountPolicy_UnmarshalJSON (j : jval) : Go policy_error Z :=
  match j with
  | JStr s => match ParseMountPolicy s with (mp, None) => Ret mp | (_, Some e) => Fail e end
  | JNull => match ParseMountPolicy "" with (mp, None) => Ret mp | (_, Some e) => Fail e end
  | _ => Fail ErrPolicyJson
  end.
Definition MountPolicy_MarshalJSON (mp : Z) : jval := JStr (MountPolicy_String mp).

Fixpoint unmarshal_policies (ms : list (string * jval)) : Go policy_error (gmap string Z) :=
  match ms with
  | [] => Ret ∅
  | (k, j) :: ms => mp ← MountPolicy_UnmarshalJSON j; m ← unmarshal_policies ms; Ret (<[k := mp]> m)
  end.
(** Absent and blank annotations give a nil map. *)
Definition getPolicyAnnotations (anns : option (gmap string string)) : Go policy_error MountPolicies :=
  match entries anns !! VolumeMountPolicies with
  | None => Ret None
  | Some vma =>
      let vma := TrimSpace vma in
      if bool_decide (vma = EmptyString) then Ret None
      else match parse_json vma with
           | Some (JObj ms) => m ← unmarshal_policies ms; Ret (Some m)
           | Some JNull => Ret None
           | _ => Fail ErrPolicyJson
           end
  end.

Fixpoint unmarshal_strings (l : list jval) : Go policy_error (list string) :=
  match l with
  | [] => Ret []
  | JStr s :: l => ss ← unmarshal_strings l; Ret (s :: ss)
  | JNull :: l => ss ← unmarshal_strings l; Ret (""%string :: ss)
  | _ => Fail ErrIgnoreJson
  end.
Definition getIgnoreAnnotations (anns : option (gmap string string)) : Go policy_error (list string) :=
  let vma := TrimSpace (GetAnnotation anns InjectIgnoreVolumeMounts LegacyInjectIgnoreVolumeMounts) in
  match vma with
  | EmptyString => Ret []
  | String "[" _ => match parse_json vma with Some (JArr l) => unmarshal_strings l | _ => Fail ErrIgnoreJson end
  | _ => Ret (TrimSpace <$> SplitByte vma ",")
  end.

(** Assignments to the clone of a map: the clone of a nil map is nil. *)
Definition assign_all (mps : MountPolicies) (l : list (string * Z)) : Go policy_error MountPolicies :=
  match l, mps with
  | [], _ => Ret mps
  | _, None => Panic
  | _, Some m => Ret (Some (foldl (fun m '(k, v) => <[k := v]> m) m l))
  end.
Definition AddAnnotations (iv : MountPolicies) (annotations : option (gmap string string)) : Go policy_error MountPolicies :=
  ignores ← getIgnoreAnnotations annotations;
  policies ← getPolicyAnnotations annotations;
  if bool_decide (ignores = []) && bool_decide (entries policies = ∅) then Ret iv
  else
    mps ← assign_all iv (map_to_list (entries policies));
    assign_all mps ((fun key => (key, MountPolicyIgnore)) <$> ignores).

Definition MountPoliciesFromRPC (mr : option (gmap string Z)) : MountPolicies := mr.
Definition i32 (x : Z) : Z := wrap 32 (x + 2 ^ 31) - 2 ^ 31.
Definition ToRPC (iv : MountPolicies) : option (gmap string Z) :=
  if bool_decide (entries iv = ∅) then None else Some (i32 <$> entries iv).

Definition policy_matches (volumeName mountPath key : string) : bool := bool_decide (key = volumeName) || HasPrefix mountPath key.
(** [visited]: the entries of the map in the order in which the range visits them. *)
Fixpoint Policies_Get (visited : list (string * Z)) (volumeName mountPath : string) : Z :=
  match visited with
  | [] => MountPolicyRemote
  | (key, policy) :: visited => if policy_matches volumeName mountPath key then policy else Policies_Get visited volumeName mountPath
  end.
(** The orders in which a range may visit a map. *)
Definition visits (m : MountPolicies) (l : list (string * Z)) : Prop := l ≡ₚ map_to_list (entries m).

(** ** engagement.go *)
Definition engagementTypes : list string := ["connect"; "ingest"; "wiretap"; "intercept"; "replace"; "proxy"].
Definition EngagementTypeWiretap := 2.
Definition EngagementTypeIntercept := 3.
Definition EngagementTypeReplace := 4.
Definition egStrings : list (list string) :=
  [ ["connect"; "Connecting"; "Connected"; "Disconnecting"; "Disconnected"];
    ["ingest"; "Ingesting"; "Ingested"; "Leaving ingest"; "Left ingest"];
    ["wiretap"; "Wiretapping"; "Wiretapped"; "Removing wiretap"; "Removed wiretap"];
    ["intercept"; "Intercepting"; "Intercepted"; "Leaving intercept"; "Left intercept"];
    ["replace"; "Replacing"; "Replaced"; "Restoring"; "Restored"];
    ["proxy"; "Proxying"; "Proxied"; "Removing proxy"; "Removed proxy"] ].
Definition ParseEngagementType (s : string) : Go policy_error Z :=
  match list_find (fun n => n = ToLower s) engagementTypes with
  | Some (i, _) => Ret (Z.of_nat i)
  | None => Fail (ErrEngagement s)
  end.
Definition EngagementTypeFromSpec (wiretap noDefaultPort : bool) : Z :=
  if wiretap then EngagementTypeWiretap else if noDefaultPort then EngagementTypeReplace else EngagementTypeIntercept.
Definition eg_strings (e : Z) : list string :=
  if (0 <=? e) && (e <? 6) then default [] (egStrings !! Z.to_nat e)
  else let en := "invalid engagement type " +:+ itoa e in [en; en; en; en; en].
Definition Engagement_String (e : Z) : option string := eg_strings e !! 0%nat.
Definition Engagement_Working (e : Z) : option string := eg_strings e !! 1%nat.
Definition Engagement_WorkDone (e : Z) : option string := eg_strings e !! 2%nat.
Definition Engagement_Leaving (e : Z) : option string := eg_strings e !! 3%nat.
Definition Engagement_Left (e : Z) : option string := eg_strings e !! 4%nat.

(** ** Theorems *)

Lemma assign_reverse (l : list (string * Z)) (m : gmap string Z) :
  foldl (fun m '(k, v) => <[k := v]> m) m l = (list_to_map (reverse l) : gmap string Z) ∪ m.
Proof.
  revert m. induction l as [|[k v] l IH]; intros m; [rewrite reverse_nil, list_to_map_nil; by rewrite (left_id_L ∅ (∪))|].
  cbn [foldl]. rewrite IH, reverse_cons, list_to_map_app. cbn [list_to_map foldr fst snd].
  by rewrite insert_empty, <- (assoc_L (∪)), insert_union_singleton_l.
Qed.
Lemma assign_policies (p m : gmap string Z) : foldl (fun m '(k, v) => <[k := v]> m) m (map_to_list p) = p ∪ m.
Proof.
  rewrite assign_reverse. f_equal. rewrite <- (list_to_map_to_list p) at 2. apply list_to_map_proper.
  - rewrite reverse_Permutation. apply NoDup_fst_map_to_list.
  - apply reverse_Permutation.
Qed.
Lemma assign_ignores (l : list string) (m : gmap string Z) k :
  foldl (fun m '(k, v) => <[k := v]> m) m ((fun key => (key, MountPolicyIgnore)) <$> l) !! k =
    if bool_decide (k ∈ l) then Some MountPolicyIgnore else m !! k.
Proof.
  revert m. induction l as [|k' l IH]; intros m; [reflexivity|]. cbn [fmap list_fmap foldl]. rewrite IH.
  destruct (decide (k' = k)) as [->|Hne].
  - rewrite (bool_decide_true (k ∈ k :: l)), lookup_insert_eq by apply list_elem_of_here. by case_bool_decide.
  - rewrite lookup_insert_ne by done. rewrite (bool_decide_ext (k ∈ k' :: l) (k ∈ l)); [done|].
    rewrite elem_of_cons. naive_solver.
Qed.

(** A policy given by an annotation overrides the configured one, and a volume named by
    the annotation that ignores volumes is ignored whatever the policies say. *)
Theorem AddAnnotations_priority (iv : gmap string Z) (anns : option (gmap string string)) (ignores : list string)
    (policies : MountPolicies) :
  getIgnoreAnnotations anns = Ret ignores -> getPolicyAnnotations anns = Ret policies ->
  exists m, AddAnnotations (Some iv) anns = Ret (Some m) /\
    forall k, m !! k = if bool_decide (k ∈ ignores) then Some MountPolicyIgnore
                       else match entries policies !! k with Some mp => Some mp | None => iv !! k end.
Proof.
  intros Hi Hp. unfold AddAnnotations. rewrite Hi, Hp. cbn [mbind go_bind].
  destruct (bool_decide (ignores = []) && bool_decide (entries policies = ∅)) eqn:E.
  - bools. exists iv. split; [done|]. intros k. subst ignores. match goal with H : entries _ = _ |- _ => rewrite H end.
    rewrite bool_decide_false by apply not_elem_of_nil. by rewrite lookup_empty.
  - assert (Hu : assign_all (Some iv) (map_to_list (entries policies)) = Ret (Some (entries policies ∪ iv))).
    { unfold assign_all. rewrite <- assign_policies. by destruct (map_to_list (entries policies)). }
    rewrite Hu. cbn [mbind go_bind].
    exists (foldl (fun m '(k, v) => <[k := v]> m) (entries policies ∪ iv) ((fun key => (key, MountPolicyIgnore)) <$> ignores)).
    split; [by destruct ignores|]. intros k. rewrite assign_ignores.
    destruct (decide (k ∈ ignores)); [by rewrite !bool_decide_true by done|]. rewrite !bool_decide_false by done.
    rewrite lookup_union. by destruct (entries policies !! k), (iv !! k).
Qed.

(** Adding annotations to policies that were never set panics as soon as an annotation
    says anything. *)
Theorem AddAnnotations_nil (anns : option (gmap string string)) (ignores : list string) (policies : MountPolicies) :
  getIgnoreAnnotations anns = Ret ignores -> getPolicyAnnotations anns = Ret policies ->
  AddAnnotations None anns = if bool_decide (ignores = []) && bool_decide (entries policies = ∅) then Ret None else Panic.
Proof.
  intros Hi Hp. unfold AddAnnotations. rewrite Hi, Hp. cbn [mbind go_bind].
  destruct (bool_decide (ignores = []) && bool_decide (entries policies = ∅)) eqn:E; [done|].
  apply andb_false_iff in E. destruct (map_to_list (entries policies)) as [|e l] eqn:El; [|done].
  apply map_to_list_empty_iff in El. destruct E as [E|E]; apply bool_decide_eq_false_1 in E; [|done].
  by destruct ignores.
Qed.

Lemma Get_match (l : list (string * Z)) v p :
  (exists k mp, (k, mp) ∈ l /\ policy_matches v p k = true /\ Policies_Get l v p = mp) \/
  ((forall k mp, (k, mp) ∈ l -> policy_matches v p k = false) /\ Policies_Get l v p = MountPolicyRemote).
Proof.
  induction l as [|[k mp] l IH]; [right; split; [intros ? ? H; by apply not_elem_of_nil in H|done]|].
  cbn [Policies_Get]. destruct (policy_matches v p k) eqn:E.
  - left. exists k, mp. split; [apply list_elem_of_here|done].
  - destruct IH as [(k' & mp' & ? & ? & ?)|[Hno ?]].
    + left. exists k', mp'. split; [by apply list_elem_of_further|done].
    + right. split; [|done]. intros k' mp' Hin. apply elem_of_cons in Hin as [[= -> ->]|Hin]; eauto.
Qed.

(** The policy of a mount does not depend on the order in which the map is visited if and
    only if all keys that match the mount, by the name of its volume or as a prefix of its
    path, have the same policy. *)
Theorem Get_order (m : MountPolicies) (v p : string) :
  (forall l1 l2, visits m l1 -> visits m l2 -> Policies_Get l1 v p = Policies_Get l2 v p) <->
  (forall k1 k2 mp1 mp2, entries m !! k1 = Some mp1 -> entries m !! k2 = Some mp2 ->
     policy_matches v p k1 = true -> policy_matches v p k2 = true -> mp1 = mp2).
Proof.
  split.
  - intros H. assert (Hfirst : forall k mp, entries m !! k = Some mp -> policy_matches v p k = true ->
      exists l, visits m l /\ Policies_Get l v p = mp).
    { intros k mp Hk Hm. exists ((k, mp) :: map_to_list (delete k (entries m))). split.
      - unfold visits. by apply map_to_list_delete.
      - cbn [Policies_Get]. by rewrite Hm. }
    intros k1 k2 mp1 mp2 H1 H2 M1 M2. destruct (Hfirst _ _ H1 M1) as (l1 & V1 & <-).
    destruct (Hfirst _ _ H2 M2) as (l2 & V2 & <-). by apply H.
  - intros H l1 l2 V1 V2.
    assert (Hin : forall l k mp, visits m l -> (k, mp) ∈ l <-> entries m !! k = Some mp).
    { intros l k mp V. unfold visits in V. by rewrite V, elem_of_map_to_list. }
    destruct (Get_match l1 v p) as [(k1 & mp1 & I1 & M1 & ->)|[N1 ->]].
    + apply (Hin l1) in I1; [|done]. destruct (Get_match l2 v p) as [(k2 & mp2 & I2 & M2 & ->)|[N2 _]].
      * apply (Hin l2) in I2; [|done]. by apply (H k1 k2).
      * apply (Hin l2) in I1; [|done]. rewrite (N2 _ _ I1) in M1. discriminate.
    + destruct (Get_match l2 v p) as [(k2 & mp2 & I2 & M2 & _)|[_ ->]]; [|done].
      apply (Hin l2), (Hin l1) in I2; [|done..]. rewrite (N1 _ _ I2) in M2. discriminate.
Qed.

(** Names are read back, in any case of their letters. *)
Theorem MountPolicy_roundtrip mp : 0 <= mp < 4 ->
  ParseMountPolicy (MountPolicy_String mp) = (mp, None) /\ ParseMountPolicy (ToLower (MountPolicy_String mp)) = (mp, None).
Proof. intros H. assert (mp = 0 \/ mp = 1 \/ mp = 2 \/ mp = 3) as [->|[->|[->| ->]]] by lia; by vm_compute. Qed.
Theorem Engagement_roundtrip e : 0 <= e < 6 -> exists s, Engagement_String e = Some s /\ ParseEngagementType s = Ret e.
Proof.
  intros H. assert (e = 0 \/ e = 1 \/ e = 2 \/ e = 3 \/ e = 4 \/ e = 5) as [->|[->|[->|[->|[->| ->]]]]] by lia;
    (eexists; split; [vm_compute; reflexivity|by vm_compute]).
Qed.
Lemma i32_id x : - 2 ^ 31 <= x < 2 ^ 31 -> i32 x = x.
Proof. intros H. unfold i32. rewrite wrap_id; [lia|]. unfold fits. lia. Qed.
(** Policies survive the trip to the client, except that empty ones arrive as nil. *)
Theorem Policies_RPC_roundtrip (iv : MountPolicies) :
  map_Forall (fun _ mp => - 2 ^ 31 <= mp < 2 ^ 31) (entries iv) ->
  MountPoliciesFromRPC (ToRPC iv) = if bool_decide (entries iv = ∅) then None else Some (entries iv).
Proof.
  intros H. unfold MountPoliciesFromRPC, ToRPC. case_bool_decide; [done|]. f_equal. apply map_eq. intros k.
  rewrite lookup_fmap. destruct (entries iv !! k) as [mp|] eqn:E; [|done]. cbn. f_equal. apply i32_id. by apply (H k).
Qed.

(** Two keys that match with different policies: the answer is that of the one visited
    first. *)
Example Get_depends_on_order :
  Policies_Get [("/tmp", MountPolicyLocal); ("/tmp/secrets", MountPolicyIgnore)] "vol" "/tmp/secrets" = MountPolicyLocal /\
  Policies_Get [("/tmp/secrets", MountPolicyIgnore); ("/tmp", MountPolicyLocal)] "vol" "/tmp/secrets" = MountPolicyIgnore.
Proof. vm_compute. done. Qed.
Definition ignoring (v : string) : option (gmap string string) := Some {[ InjectIgnoreVolumeMounts := v ]}.
Example ignore_formats : getIgnoreAnnotations (ignoring " a, b ") = Ret ["a"; "b"] /\
  getIgnoreAnnotations (ignoring (String "[" (String DQUOTE ("a" +:+ String DQUOTE "]")))) = Ret ["a"].
Proof. by vm_compute. Qed.
