(* ===== verification/AgentConfig.v ===== *)
(** * The traffic-agent's configuration (src/pkg/agentconfig: sidecar.go, util.go,
      intercepttarget.go, injectpolicy.go; src/pkg/icept/find.go)

    A [Sidecar] lists the containers of a workload and for each the ports that
    can be intercepted.  The functions here look intercepts up, group them into
    targets and compute proxy ports. *)
From S2P Require Import Prelude NetIP GoStrings PortTypes Matcher Icept.
From Stdlib Require Import Ascii.

(** ** sidecar.go: data *)

Inductive ReplacePolicy := ReplacePolicyIntercept | ReplacePolicyContainer | ReplacePolicyInactive.
Global Instance ReplacePolicy_eq : EqDecision ReplacePolicy.
Proof. solve_decision. Defined.

Record Intercept := mkIntercept {
  ic_ContainerPortName : string;
  ic_ServiceName : string;
  ic_ServiceUID : string;
  ic_ServicePortName : string;
  ic_TargetPortNumeric : bool;
  ic_Protocol : Z;
  ic_AppProtocol : string;
  ic_ContainerPort : Z;
  ic_ServicePort : Z;
  ic_AgentPort : Z
}.
Global Instance Intercept_eq : EqDecision Intercept.
Proof. solve_decision. Defined.

Record Container := mkContainer {
  cn_Name : string;
  cn_Intercepts : list Intercept;
  cn_Replace : ReplacePolicy
}.
Global Instance Container_eq : EqDecision Container.
Proof. solve_decision. Defined.

Record Sidecar := mkSidecar {
  sc_AgentName : string;
  sc_Namespace : string;
  sc_WorkloadName : string;
  sc_WorkloadKind : string;
  sc_Containers : list Container
}.

(** ** util.go *)

Definition IsInterceptForService (pi : string) (ic : Intercept) : bool :=
  let '(proto, name, num) := ProtoAndNameOrNumber pi in
  if HasProto pi && negb (proto =? ic_Protocol ic) then false
  else if bool_decide (name = "") then num =? ic_ServicePort ic
  else bool_decide (name = ic_ServicePortName ic).

Definition IsInterceptForContainer (pi : string) (ic : Intercept) : bool :=
  let '(proto, name, num) := ProtoAndNameOrNumber pi in
  if HasProto pi && negb (proto =? ic_Protocol ic) then false
  else if bool_decide (name = "") then num =? ic_ContainerPort ic
  else bool_decide (name = ic_ContainerPortName ic).

Definition agent_key (ic : Intercept) : Z * Z := (ic_AgentPort ic, ic_Protocol ic).
Fixpoint port_unique_loop (um : list (Z * Z)) (ics : list Intercept) : list Intercept :=
  match ics with
  | [] => []
  | ic :: ics =>
      if bool_decide (agent_key ic ∈ um) then port_unique_loop um ics
      else ic :: port_unique_loop (agent_key ic :: um) ics
  end.
Definition PortUniqueIntercepts (cn : Container) : list Intercept := port_unique_loop [] (cn_Intercepts cn).

Definition numberOfPossibleIntercepts (s : Sidecar) : Z :=
  foldl (fun count c => count + Z.of_nat (length (cn_Intercepts c))) 0 (sc_Containers s).
Definition ProxyPort (s : Sidecar) (agentPort : Z) : Z := u16 (agentPort + 11 + u16 (numberOfPossibleIntercepts s)).

(** ** intercepttarget.go *)

Abbreviation InterceptTarget := (list Intercept).

Definition same_target (z ic : Intercept) : bool :=
  (ic_AgentPort z =? ic_AgentPort ic) && (ic_ContainerPort z =? ic_ContainerPort ic) && (ic_Protocol z =? ic_Protocol ic).
(** The assertion on its argument panics. *)
Definition NewInterceptTarget (ics : list Intercept) : option InterceptTarget :=
  match ics with
  | [] => None
  | z :: rest => if forallb (same_target z) rest then Some ics else None
  end.

(** [MakeInterceptStates] of the traffic-agent: the intercepts of a container by the port that
    the agent listens to and the protocol. *)
Definition state_key (cn : Container) (ic : Intercept) : Z * Z :=
  let ap := ic_AgentPort ic in
  let ap := if bool_decide (cn_Replace cn = ReplacePolicyContainer) then ic_ContainerPort ic else ap in
  (ap, ic_Protocol ic).
Definition MakeInterceptStates (cn : Container) : gmap (Z * Z) InterceptTarget :=
  foldl (fun icStates ic => let k := state_key cn ic in <[k := default [] (icStates !! k) ++ [ic]]> icStates) ∅ (cn_Intercepts cn).

(** The accessors index [cp[0]]; [None] is the panic on an empty target. *)
Definition MatchForSpec (cp : InterceptTarget) (spec : InterceptSpec) : option bool :=
  ic ← head cp;
  Some ((u16 (sp_ContainerPort spec) =? ic_ContainerPort ic) && (ic_Protocol ic =? FromK8sProtocol (sp_Protocol spec))).
Definition it_AgentPort (cp : InterceptTarget) : option Z := ic_AgentPort <$> head cp.
Definition it_ContainerPort (cp : InterceptTarget) : option Z := ic_ContainerPort <$> head cp.
Definition it_Protocol (cp : InterceptTarget) : option Z := ic_Protocol <$> head cp.
Definition it_TargetPortNumeric (cp : InterceptTarget) : bool := existsb ic_TargetPortNumeric cp.
Definition it_HasServicePortName (cp : InterceptTarget) (name : string) : bool :=
  existsb (fun sv => bool_decide (ic_ServicePortName sv = name)) cp.
Definition it_HasServicePort (cp : InterceptTarget) (port : Z) : bool := existsb (fun sv => ic_ServicePort sv =? port) cp.

(** The first non-empty application protocol; the others are only warned about. *)
Fixpoint it_AppProtocol (cp : InterceptTarget) : string :=
  match cp with
  | [] => ""
  | ic :: cp => if bool_decide (ic_AppProtocol ic = "") then it_AppProtocol cp else ic_AppProtocol ic
  end.

(** ** sidecar.go: lookup *)

Definition on_port (containerPort proto : Z) (ic : Intercept) : bool :=
  (ic_ContainerPort ic =? containerPort) && (ic_Protocol ic =? proto).

(** The inner loops: the first intercept on the port and those after it. *)
Fixpoint target_loop (containerPort proto : Z) (ics : list Intercept) : option InterceptTarget :=
  match ics with
  | [] => None
  | ic :: ics =>
      if on_port containerPort proto ic then Some (ic :: filter (fun x => on_port containerPort proto x = true) ics)
      else target_loop containerPort proto ics
  end.
Fixpoint containers_loop (containerPort proto : Z) (cs : list Container) : option (Container * InterceptTarget) :=
  match cs with
  | [] => None
  | c :: cs =>
      match target_loop containerPort proto (cn_Intercepts c) with
      | Some it => Some (c, it)
      | None => containers_loop containerPort proto cs
      end
  end.
Definition sc_InterceptTarget (s : Sidecar) (containerPort proto : Z) : option (Container * InterceptTarget) :=
  containers_loop containerPort proto (sc_Containers s).

Definition InterceptorInactivePort (s : Sidecar) (containerPort proto : Z) : Z :=
  match sc_InterceptTarget s containerPort proto with
  | Some (_, it) =>
      if it_TargetPortNumeric it
      then match it_AgentPort it with Some p => ProxyPort s p | None => containerPort end
      else containerPort
  | None => containerPort
  end.

Inductive find_error :=
  | MultiplePorts
  | MultipleServicesWithPort (port : string)
  | MultiplePortsInService (service : string)
  | DeclaredTwice (service port : string)
  | NoInterceptablePort (service port : string)
  | MoreThanOneContainer
  | NoContainerNamed (name : string)
  | NoPortMatching (container port : string).
Global Instance find_error_eq : EqDecision find_error.
Proof. solve_decision. Defined.

Definition selected (serviceName port : string) (ic : Intercept) : bool :=
  (bool_decide (serviceName = "") || bool_decide (serviceName = ic_ServiceName ic)) &&
  (bool_decide (port = "") ||
   (if negb (bool_decide (ic_ServiceUID ic = "")) then IsInterceptForService port ic else IsInterceptForContainer port ic)).

Definition multiple_error (serviceName port : string) : find_error :=
  if bool_decide (serviceName = "") && bool_decide (port = "") then MultiplePorts
  else if bool_decide (serviceName = "") then MultipleServicesWithPort port
  else if bool_decide (port = "") then MultiplePortsInService serviceName
  else DeclaredTwice serviceName port.

Definition named_container (s : Sidecar) (containerName : string) (cn : Container) : Container :=
  if bool_decide (containerName = "") then cn
  else match list_find (fun cx => cn_Name cx = containerName) (sc_Containers s) with Some (_, cx) => cx | None => cn end.

(** The two nested loops as one loop over the pairs they visit. *)
Fixpoint find_loop (s : Sidecar) (serviceName containerName port : string) (pairs : list (Container * Intercept))
    (found : option (Container * Intercept)) : Go find_error (Container * Intercept) :=
  match pairs with
  | [] => match found with Some r => Ret r | None => Fail (NoInterceptablePort serviceName port) end
  | (cn, ic) :: pairs =>
      if negb (selected serviceName port ic) then find_loop s serviceName containerName port pairs found
      else match found with
           | None => find_loop s serviceName containerName port pairs (Some (named_container s containerName cn, ic))
           | Some _ => Fail (multiple_error serviceName port)
           end
  end.
Definition all_intercepts (s : Sidecar) : list (Container * Intercept) :=
  cn ← sc_Containers s; ic ← cn_Intercepts cn; mret (cn, ic).
Definition sc_FindIntercept (s : Sidecar) (serviceName containerName port : string) : Go find_error (Container * Intercept) :=
  find_loop s serviceName containerName port (all_intercepts s) None.

(** ** icept/find.go *)

Definition FindContainer (ac : Sidecar) (spec : InterceptSpec) : Go find_error Container :=
  if bool_decide (sp_ContainerName spec = "") then
    match sc_Containers ac with [c] => Ret c | _ => Fail MoreThanOneContainer end
  else match list_find (fun cn => sp_ContainerName spec = cn_Name cn) (sc_Containers ac) with
       | Some (_, cn) => Ret cn
       | None => Fail (NoContainerNamed (sp_ContainerName spec))
       end.

Definition FindIntercept (ac : Sidecar) (spec : InterceptSpec) : Go find_error (Container * Intercept) :=
  sc_FindIntercept ac (sp_ServiceName spec) (sp_ContainerName spec) (sp_PortIdentifier spec).

Definition FindContainerIntercept (cn : Container) (pi : string) : Go find_error Intercept :=
  match list_find (fun ic => IsInterceptForContainer pi ic = true) (cn_Intercepts cn) with
  | Some (_, ic) => Ret ic
  | None => Fail (NoPortMatching (cn_Name cn) pi)
  end.

(** ** injectpolicy.go *)

Definition epNames : list string := ["OnDemand"; "WhenEnabled"; "Never"].
Definition InjectPolicy_String (aps : nat) : option string := epNames !! aps.   (* None: the index panic *)
Definition NewEnablePolicy (s : string) : option nat := fst <$> list_find (fun n => s = n) epNames.
Definition InjectPolicy_EnvDecode (val : string) : option nat :=
  if bool_decide (val = "") then Some 0%nat else NewEnablePolicy val.

(** * Building the agent's container (src/pkg/agentconfig/container.go, volumes.go) and
      cloning its configuration (sidecar.go)

    Names of the agent's ports, its group id, the rewriting of environment
    references, and [Sidecar.Clone] on a store of pointers and arrays. *)
(** ** Port names *)

(** One intercept of [AgentContainer]'s loop: the counts of the names seen and the
    name given to the port. *)
Definition port_name (names : gmap string Z) (name : string) : gmap string Z * string :=
  if bool_decide (name = "") then (names, name)
  else match names !! name with
       | Some n =>
           let n := n + 1 in
           let suffix := "-" +:+ itoa n in
           let base := if Nat.ltb 15 (String.length name + String.length suffix)
                       then str_take (15 - String.length suffix) name else name in
           (<[name := n]> names, base +:+ suffix)
       | None => (<[name := 1]> names, name)
       end.

Record ContainerPort := mkPort { port_Name : string; port_Number : Z; port_Protocol : Z }.

Fixpoint intercept_ports (names : gmap string Z) (ics : list Intercept) : gmap string Z * list ContainerPort :=
  match ics with
  | [] => (names, [])
  | ic :: ics =>
      let '(names, name) := port_name names (ic_ContainerPortName ic) in
      let '(names, ports) := intercept_ports names ics in
      (names, mkPort name (ic_AgentPort ic) (ic_Protocol ic) :: ports)
  end.

(** The ports of the agent: those of the replaced containers and those of the
    intercepted ones.  Each configured container comes with the ports of the pod
    container of the same name. *)
Fixpoint agent_ports (names : gmap string Z) (ccs : list (Container * list ContainerPort)) : list ContainerPort :=
  match ccs with
  | [] => []
  | (cc, app_ports) :: ccs =>
      match cn_Replace cc with
      | ReplacePolicyContainer => app_ports ++ agent_ports names ccs
      | ReplacePolicyIntercept =>
          let '(names, ports) := intercept_ports names (PortUniqueIntercepts cc) in
          ports ++ agent_ports names ccs
      | ReplacePolicyInactive => agent_ports names ccs
      end
  end.

(** ** The group id *)

Definition DefaultAgentGID : Z := 7439.
Definition own_container (name : string) : bool := bool_decide (name ∈ ["traffic-agent"; "tel-agent-init"]).

(** The groups that the pod and its containers declare; a container is its name
    and its [runAsGroup]. *)
Definition used_gids (pod : option Z) (cns initCns : list (string * option Z)) : list Z :=
  let of_container (cn : string * option Z) :=
    if own_container cn.1 then [] else match cn.2 with Some g => [g] | None => [] end in
  match pod with Some g => [g] | None => [] end ++ concat (of_container <$> cns) ++ concat (of_container <$> initCns).

Fixpoint gid_loop (fuel : nat) (used : list Z) (gid : Z) : option Z :=
  match fuel with
  | O => None
  | S fuel => if bool_decide (gid ∈ used) then gid_loop fuel used (gid + 1) else Some gid
  end.
(** A loop that finds one of [length used + 1] numbers not used. *)
Definition distinctAgentGID (pod : option Z) (cns initCns : list (string * option Z)) : option Z :=
  let used := used_gids pod cns initCns in gid_loop (S (length used)) used DefaultAgentGID.

(** The security context: user id, group id, and the capabilities that are added and dropped. *)
Record SecurityContext := mkSC { RunAsUser : option Z; RunAsGroup : option Z; Capabilities : option (list string * list string) }.
Definition AgentSecurityContext (configured : option SecurityContext) (firstApp : option SecurityContext)
    (pod : option Z) (cns initCns : list (string * option Z)) : option SecurityContext :=
  let distinct sc := gid ← distinctAgentGID pod cns initCns; Some (mkSC (RunAsUser sc) (Some gid) (Capabilities sc)) in
  match configured with
  | Some sc => match RunAsGroup sc with Some _ => Some sc | None => distinct sc end
  | None => distinct (match firstApp with Some sc => sc | None => mkSC None None None end)
  end.

(** ** Environment references *)

Inductive interp_state := stNormal | stDollarSeen | stDollarParenSeen.

(** One character of [prefixInterpolated]: the state, the output and the pending
    variable name, both as the text written so far. *)
Definition interp_step (pfx : string) (c : ascii) (x : interp_state * string * string) : interp_state * string * string :=
  let '(st, bd, ev) := x in
  if bool_decide (c = "$"%char) then
    match st with
    | stDollarParenSeen => (stDollarSeen, bd +:+ ev +:+ "$", "")
    | stDollarSeen => (stNormal, bd +:+ "$", ev)
    | stNormal => (stDollarSeen, bd +:+ "$", ev)
    end
  else if bool_decide (c = "("%char) then
    match st with
    | stDollarParenSeen => (stNormal, bd +:+ ev +:+ "(", "")
    | stDollarSeen => (stDollarParenSeen, bd +:+ "(", ev)
    | stNormal => (stNormal, bd +:+ "(", ev)
    end
  else if bool_decide (c = ")"%char) then
    match st with
    | stDollarParenSeen =>
        if negb (bool_decide (ev = "")) then (stNormal, bd +:+ pfx +:+ ev +:+ ")", "") else (stNormal, bd +:+ ")", ev)
    | _ => (stNormal, bd +:+ ")", ev)
    end
  else match st with
       | stDollarParenSeen => (st, bd, ev +:+ String c "")
       | _ => (stNormal, bd +:+ String c "", ev)
       end.

Fixpoint interp_loop (pfx s : string) (x : interp_state * string * string) : interp_state * string * string :=
  match s with
  | EmptyString => x
  | String c s => interp_loop pfx s (interp_step pfx c x)
  end.

Definition prefixInterpolated (str pfx : string) : string :=
  let '(_, bd, ev) := interp_loop pfx str (stNormal, "", "") in bd +:+ ev.

(** ** Sidecar.Clone on a store *)
(** Pointers and array identifiers are numbers.  A slice of pointers names its
    backing array. *)
Record ContainerObj := mkCO { co_Name : string; co_Intercepts : nat; co_Replace : ReplacePolicy }.
Record store := mkStore {
  arrays : gmap nat (list nat);
  containers : gmap nat ContainerObj;
  intercepts : gmap nat Intercept;
  next : nat
}.
(** The part of the [Sidecar] struct that [Clone] follows. *)
Record SidecarObj := mkSO { so_AgentName : string; so_Containers : nat }.

Definition set_elem (st : store) (arr i p : nat) : store :=
  mkStore (alter (fun l => <[i := p]> l) arr (arrays st)) (containers st) (intercepts st) (next st).
Definition new_container (st : store) (c : ContainerObj) : nat * store :=
  (next st, mkStore (arrays st) (<[next st := c]> (containers st)) (intercepts st) (S (next st))).
Definition new_intercept (st : store) (ic : Intercept) : nat * store :=
  (next st, mkStore (arrays st) (containers st) (<[next st := ic]> (intercepts st)) (S (next st))).

(** [for ii, ic := range ccn.Intercepts { cic := *ic; ccn.Intercepts[ii] = &cic }] *)
Fixpoint clone_intercepts (st : store) (arr i n : nat) : option store :=
  match n with
  | O => Some st
  | S n =>
      l ← arrays st !! arr; p ← l !! i; ic ← intercepts st !! p;
      let '(q, st) := new_intercept st ic in
      clone_intercepts (set_elem st arr i q) arr (S i) n
  end.
(** [for ci, cn := range cs.Containers { ccn := *cn; cs.Containers[ci] = &ccn; ... }] *)
Fixpoint clone_containers (st : store) (arr i n : nat) : option store :=
  match n with
  | O => Some st
  | S n =>
      l ← arrays st !! arr; p ← l !! i; c ← containers st !! p;
      let '(q, st) := new_container st c in
      let st := set_elem st arr i q in
      ics ← arrays st !! co_Intercepts c;
      st ← clone_intercepts st (co_Intercepts c) 0 (length ics);
      clone_containers st arr (S i) n
  end.
(** [cs := *s] copies the struct; the slice still names the array of [s]. *)
Definition sc_Clone (st : store) (s : SidecarObj) : option (SidecarObj * store) :=
  l ← arrays st !! so_Containers s;
  st' ← clone_containers st (so_Containers s) 0 (length l);
  Some (mkSO (so_AgentName s) (so_Containers s), st').

(** What [s.Containers[i]] points to, and an assignment to a field of it. *)
Definition container_at (st : store) (s : SidecarObj) (i : nat) : option ContainerObj :=
  l ← arrays st !! so_Containers s; p ← l !! i; containers st !! p.
Definition set_replace (st : store) (s : SidecarObj) (i : nat) (r : ReplacePolicy) : option store :=
  l ← arrays st !! so_Containers s; p ← l !! i; c ← containers st !! p;
  Some (mkStore (arrays st) (<[p := mkCO (co_Name c) (co_Intercepts c) r]> (containers st)) (intercepts st) (next st)).
