(* ===== verification/AgentSpec.v ===== *)
(** * Correctness of the agent's configuration and container *)
From S2P Require Import Prelude NetIP GoStrings PortTypes Matcher Icept AgentConfig.
From Stdlib Require Import Ascii.

(** ** Lookup *)

Lemma find_loop_found s svc cn port pairs r :
  find_loop s svc cn port pairs (Some r) =
    match filter (fun p => selected svc port p.2 = true) pairs with [] => Ret r | _ => Fail (multiple_error svc port) end.
Proof.
  revert r. induction pairs as [|[c ic] pairs IH]; intros r; [reflexivity|]. cbn [find_loop]. rewrite filter_cons. cbn [snd].
  destruct (selected svc port ic); cbn [negb].
  - by rewrite decide_True.
  - rewrite decide_False by discriminate. apply IH.
Qed.

(** [FindIntercept] returns an intercept if and only if exactly one port of the
    workload is selected by the service and port, together with the container
    that was asked for; otherwise its error tells none from several. *)
Theorem FindIntercept_correct (s : Sidecar) (svc cn port : string) :
  sc_FindIntercept s svc cn port =
    match filter (fun p => selected svc port p.2 = true) (all_intercepts s) with
    | [] => Fail (NoInterceptablePort svc port)
    | [(c, ic)] => Ret (named_container s cn c, ic)
    | _ => Fail (multiple_error svc port)
    end.
Proof.
  unfold sc_FindIntercept. induction (all_intercepts s) as [|[c ic] pairs IH]; [reflexivity|].
  cbn [find_loop]. rewrite filter_cons. cbn [snd]. destruct (selected svc port ic); cbn [negb].
  - rewrite decide_True by reflexivity. rewrite find_loop_found. by case_match.
  - rewrite decide_False by discriminate. exact IH.
Qed.

Lemma target_loop_filter port proto ics :
  target_loop port proto ics =
    match filter (fun x => on_port port proto x = true) ics with [] => None | it => Some it end.
Proof.
  induction ics as [|ic ics IH]; [reflexivity|]. cbn [target_loop]. rewrite filter_cons.
  destruct (on_port port proto ic); [by rewrite decide_True|by rewrite decide_False].
Qed.

(** An intercept target is never empty, belongs to one container of the sidecar
    and holds exactly that container's intercepts on the port, so all of its
    entries have the container port and the protocol asked for. *)
Theorem InterceptTarget_correct (s : Sidecar) (port proto : Z) (c : Container) (it : InterceptTarget) :
  sc_InterceptTarget s port proto = Some (c, it) ->
  c ∈ sc_Containers s /\ it <> [] /\
  it = filter (fun x => on_port port proto x = true) (cn_Intercepts c) /\
  it_ContainerPort it = Some port /\ it_Protocol it = Some proto.
Proof.
  unfold sc_InterceptTarget. induction (sc_Containers s) as [|c' cs IH]; [discriminate|]. cbn [containers_loop].
  rewrite target_loop_filter. destruct (filter _ (cn_Intercepts c')) as [|ic rest] eqn:Hf.
  - intros H. destruct (IH H) as (? & ?). split; [by apply list_elem_of_further|done].
  - intros [= <- <-]. assert (Hic : ic ∈ filter (fun x => on_port port proto x = true) (cn_Intercepts c')).
    { rewrite Hf. apply list_elem_of_here. }
    apply list_elem_of_filter in Hic as [Hon _]. unfold on_port in Hon. bools.
    split_and!; [apply list_elem_of_here|discriminate|by rewrite Hf|..]; cbn; congruence.
Qed.

Definition example_sidecar : Sidecar :=
  mkSidecar "echo" "default" "echo" "Deployment"
    [mkContainer "app" [mkIntercept "http" "echo" "uid1" "web" true 6 "" 8080 80 9900;
                        mkIntercept "http" "echo2" "uid2" "web" false 6 "http" 8080 81 9900] ReplacePolicyIntercept].

Lemma InterceptTarget_correct_witness :
  let c := mkContainer "app" [mkIntercept "http" "echo" "uid1" "web" true 6 "" 8080 80 9900;
                        mkIntercept "http" "echo2" "uid2" "web" false 6 "http" 8080 81 9900] ReplacePolicyIntercept in
  c ∈ sc_Containers example_sidecar /\ cn_Intercepts c <> [] /\
  cn_Intercepts c = filter (fun x => on_port 8080 6 x = true) (cn_Intercepts c) /\
  it_ContainerPort (cn_Intercepts c) = Some 8080 /\ it_Protocol (cn_Intercepts c) = Some 6.
Proof.
  intros c. apply (InterceptTarget_correct example_sidecar 8080 6 c (cn_Intercepts c)). reflexivity.
Defined.

(** ** Unique ports *)

Lemma port_unique_key um ics ic : ic ∈ port_unique_loop um ics -> agent_key ic ∉ um /\ ic ∈ ics.
Proof.
  revert um. induction ics as [|i ics IH]; intros um; cbn [port_unique_loop]; [intros []%not_elem_of_nil|].
  case_bool_decide as Hu.
  - intros [? ?]%IH. split; [done|]. by apply list_elem_of_further.
  - intros [->|[H1 H2]%IH]%elem_of_cons; [split; [done|apply list_elem_of_here]|].
    split; [|by apply list_elem_of_further]. intros Hin. apply H1. by apply list_elem_of_further.
Qed.

(** [PortUniqueIntercepts] keeps intercepts of the container with pairwise
    different agent port and protocol, and for each intercept one that has its
    agent port and protocol. *)
Theorem PortUniqueIntercepts_correct (cn : Container) :
  NoDup (agent_key <$> PortUniqueIntercepts cn) /\
  (forall ic, ic ∈ PortUniqueIntercepts cn -> ic ∈ cn_Intercepts cn) /\
  (forall ic, ic ∈ cn_Intercepts cn -> exists ic', ic' ∈ PortUniqueIntercepts cn /\ agent_key ic' = agent_key ic).
Proof.
  unfold PortUniqueIntercepts. generalize (cn_Intercepts cn). intros l. split_and!.
  - generalize (@nil (Z * Z)). induction l as [|i l IH]; intros um; cbn [port_unique_loop]; [constructor|].
    case_bool_decide; [apply IH|]. rewrite fmap_cons. constructor; [|apply IH].
    rewrite list_elem_of_fmap. intros (ic & Hk & [Hn _]%port_unique_key). apply Hn. rewrite <- Hk. apply list_elem_of_here.
  - intros ic. by intros [_ ?]%port_unique_key.
  - assert (Hg : forall um ic, ic ∈ l -> agent_key ic ∈ um \/ exists ic', ic' ∈ port_unique_loop um l /\ agent_key ic' = agent_key ic).
    { induction l as [|i l IH]; intros um ic Hin; [by apply not_elem_of_nil in Hin|]. cbn [port_unique_loop].
      apply elem_of_cons in Hin as [->|Hin]; case_bool_decide as Hu.
      - by left.
      - right. exists i. split; [apply list_elem_of_here|done].
      - by apply IH.
      - destruct (IH (agent_key i :: um) ic Hin) as [[->|?]%elem_of_cons|(ic' & ? & ?)]; [|by left|].
        + right. exists i. split; [apply list_elem_of_here|congruence].
        + right. exists ic'. split; [by apply list_elem_of_further|done]. }
    intros ic Hin. destruct (Hg [] ic Hin) as [H|H]; [by apply not_elem_of_nil in H|exact H].
Qed.

(** ** Proxy ports *)

Lemma intercepts_count_nonneg s : 0 <= numberOfPossibleIntercepts s.
Proof.
  unfold numberOfPossibleIntercepts.
  assert (H : forall cs z, 0 <= z -> 0 <= foldl (fun count c => count + Z.of_nat (length (cn_Intercepts c))) z cs).
  { induction cs as [|c cs IH]; intros z Hz; cbn [foldl]; [exact Hz|]. apply IH. lia. }
  apply H. lia.
Qed.

(** A sidecar whose agent ports lie in a window of [n + 11] consecutive ports ([n]
    the number of its intercepts) that ends early enough: no proxy port is an
    agent port, and different agent ports have different proxy ports. *)
Theorem ProxyPort_disjoint (s : Sidecar) (base p q : Z) :
  let n := numberOfPossibleIntercepts s in
  0 <= base -> base + 2 * (n + 11) <= 65536 ->
  base <= p < base + n + 11 -> base <= q < base + n + 11 ->
  ProxyPort s p <> q /\ (ProxyPort s p = ProxyPort s q -> p = q) /\ 0 < ProxyPort s p < 65536.
Proof.
  intros n Hb Hw Hp Hq. pose proof (intercepts_count_nonneg s). fold n in H. unfold ProxyPort. fold n.
  assert (Hn : wrap 16 n = n) by (apply wrap_id; split; [lia|change (2 ^ 16) with 65536; lia]).
  rewrite Hn. rewrite !(wrap_id 16) by (split; change (2 ^ 16) with 65536; lia). lia.
Qed.

Lemma ProxyPort_disjoint_witness :
  ProxyPort example_sidecar 9900 <> 9901 /\
  (ProxyPort example_sidecar 9900 = ProxyPort example_sidecar 9901 -> 9900 = 9901) /\
  0 < ProxyPort example_sidecar 9900 < 65536.
Proof.
  apply (ProxyPort_disjoint example_sidecar 9900 9900 9901);
    change (numberOfPossibleIntercepts example_sidecar) with 2; lia.
Defined.

(** ** The group id *)

Lemma gid_loop_spec fuel (used : list Z) (gid : Z) :
  (length (filter (fun g => (gid <= g)%Z) used) < fuel)%nat ->
  exists g, gid_loop fuel used gid = Some g /\ gid <= g /\ g ∉ used /\ forall h, gid <= h < g -> h ∈ used.
Proof.
  revert gid. induction fuel as [|fuel IH]; intros gid Hf; [lia|]. cbn [gid_loop].
  case_bool_decide as Hin.
  - destruct (IH (gid + 1)) as (g & Hg & Hle & Hni & Hmin).
    { assert (Hlt : (length (filter (fun g => (gid + 1 <= g)%Z) used) < length (filter (fun g => (gid <= g)%Z) used))%nat); [|lia].
      clear -Hin. induction used as [|u used IHu]; [by apply not_elem_of_nil in Hin|]. rewrite !filter_cons.
      assert (Hmono : (length (filter (fun g => (gid + 1 <= g)%Z) used) <= length (filter (fun g => (gid <= g)%Z) used))%nat).
      { clear. induction used as [|u used IHu]; [done|]. rewrite !filter_cons. repeat case_decide; cbn [length]; lia. }
      apply elem_of_cons in Hin as [->|Hin].
      - rewrite decide_False, decide_True by lia. cbn [length]. lia.
      - specialize (IHu Hin). repeat case_decide; cbn [length]; lia. }
    exists g. split_and!; [done|lia|done|]. intros h Hh. destruct (decide (h = gid)) as [->|]; [done|]. apply Hmin. lia.
  - exists gid. split_and!; [done|lia|done|lia].
Qed.

(** The agent's group id always exists and is the first one from the default that
    neither the pod nor a container of the application declares. *)
Theorem distinctAgentGID_correct (pod : option Z) (cns initCns : list (string * option Z)) :
  exists g, distinctAgentGID pod cns initCns = Some g /\ DefaultAgentGID <= g /\
    pod <> Some g /\
    (forall name, (name, Some g) ∈ cns ++ initCns -> own_container name = true) /\
    (forall h, DefaultAgentGID <= h < g -> h ∈ used_gids pod cns initCns).
Proof.
  unfold distinctAgentGID. destruct (gid_loop_spec (S (length (used_gids pod cns initCns))) (used_gids pod cns initCns) DefaultAgentGID)
    as (g & Hg & Hle & Hni & Hmin).
  { pose proof (length_filter (fun g => DefaultAgentGID <= g) (used_gids pod cns initCns)). lia. }
  exists g. split_and!; try done.
  - intros ->. apply Hni. unfold used_gids. apply elem_of_app. left. by apply list_elem_of_singleton.
  - intros name Hin. destruct (own_container name) eqn:Ho; [done|]. exfalso. apply Hni. unfold used_gids.
    rewrite app_assoc, <- app_assoc, <- concat_app, <- fmap_app. apply elem_of_app. right. apply list_elem_of_In, in_concat.
    exists [g]. split; [|by left]. apply list_elem_of_In, list_elem_of_fmap. exists (name, Some g). cbn [fst snd]. by rewrite Ho.
Qed.

(** ** Environment references *)

(** Text with references: literal text without a dollar sign, a reference
    [$(NAME)] and an escaped one, [$$(NAME)]. *)
Inductive token := Lit (s : string) | Ref (name : string) | Esc (name : string).
Definition plain_name (s : string) : Prop := no_char "$" s /\ no_char "(" s /\ no_char ")" s.
Definition token_ok (t : token) : Prop :=
  match t with Lit s => no_char "$" s | Ref name => plain_name name /\ name <> "" | Esc name => no_char "$" name end.
Definition render (t : token) : string :=
  match t with Lit s => s | Ref name => "$(" +:+ name +:+ ")" | Esc name => "$$(" +:+ name +:+ ")" end.
Definition prefix_token (pfx : string) (t : token) : token :=
  match t with Ref name => Ref (pfx +:+ name) | t => t end.
Definition render_all (ts : list token) : string := foldr (fun t s => render t +:+ s) "" ts.

Lemma interp_loop_app pfx s t x : interp_loop pfx (s +:+ t) x = interp_loop pfx t (interp_loop pfx s x).
Proof. revert x. induction s as [|c s IH]; intros x; [reflexivity|]. rewrite str_app_cons. cbn [interp_loop]. apply IH. Qed.

Lemma interp_literal pfx s bd : no_char "$" s -> interp_loop pfx s (stNormal, bd, "") = (stNormal, bd +:+ s, "").
Proof.
  revert bd. induction s as [|c s IH]; intros bd H.
  - cbn [interp_loop]. by rewrite str_app_nil.
  - apply no_char_cons in H as [Hc Hs]. cbn [interp_loop].
    assert (Hstep : interp_step pfx c (stNormal, bd, "") = (stNormal, bd +:+ String c "", "")).
    { unfold interp_step. rewrite bool_decide_eq_false_2 by exact Hc. repeat case_bool_decide; subst; reflexivity. }
    rewrite Hstep, IH by exact Hs. by rewrite str_app_assoc.
Qed.

Lemma interp_name pfx name bd ev : plain_name name ->
  interp_loop pfx name (stDollarParenSeen, bd, ev) = (stDollarParenSeen, bd, ev +:+ name).
Proof.
  revert ev. induction name as [|c s IH]; intros ev H.
  - cbn [interp_loop]. by rewrite str_app_nil.
  - destruct H as ([H1 H2]%no_char_cons & [H3 H4]%no_char_cons & [H5 H6]%no_char_cons). cbn [interp_loop].
    assert (Hstep : interp_step pfx c (stDollarParenSeen, bd, ev) = (stDollarParenSeen, bd, ev +:+ String c "")).
    { unfold interp_step. by rewrite !bool_decide_eq_false_2. }
    rewrite Hstep, IH by done. by rewrite str_app_assoc.
Qed.

Lemma interp_token pfx t bd : token_ok t ->
  interp_loop pfx (render t) (stNormal, bd, "") = (stNormal, bd +:+ render (prefix_token pfx t), "").
Proof.
  destruct t as [s|name|name]; cbn [token_ok render prefix_token].
  - apply interp_literal.
  - intros [Hn Hne]. rewrite !interp_loop_app. cbn [interp_loop].
    change (interp_step pfx "(" (interp_step pfx "$" (stNormal, bd, ""))) with (stDollarParenSeen, (bd +:+ "$") +:+ "(", "").
    rewrite interp_name by exact Hn. unfold interp_step. cbn [bool_decide]. change ("" +:+ name) with name.
    rewrite !(bool_decide_eq_false_2 (")"%char = _)) by discriminate. rewrite (bool_decide_eq_true_2 (")"%char = _)) by done.
    rewrite bool_decide_eq_false_2 by exact Hne. cbn [negb]. by rewrite !str_app_assoc.
  - intros Hn. rewrite interp_loop_app. cbn [interp_loop].
    change (interp_step pfx "(" (interp_step pfx "$" (interp_step pfx "$" (stNormal, bd, ""))))
      with (stNormal, ((bd +:+ "$") +:+ "$") +:+ "(", "").
    rewrite interp_literal.
    + by rewrite !str_app_assoc.
    + apply no_char_app. split; [exact Hn|reflexivity].
Qed.

(** Every reference gets the prefix; literal text and escaped references stay as
    they are. *)
Theorem prefixInterpolated_correct (pfx : string) (ts : list token) :
  Forall token_ok ts ->
  prefixInterpolated (render_all ts) pfx = render_all (prefix_token pfx <$> ts).
Proof.
  intros Hok. unfold prefixInterpolated.
  assert (H : forall bd, interp_loop pfx (render_all ts) (stNormal, bd, "") = (stNormal, bd +:+ render_all (prefix_token pfx <$> ts), "")).
  { induction Hok as [|t ts Ht Hts IH]; intros bd; cbn [render_all foldr fmap list_fmap].
    - cbn [interp_loop]. by rewrite str_app_nil.
    - rewrite interp_loop_app, interp_token by exact Ht. fold (render_all ts). rewrite IH. by rewrite str_app_assoc. }
  rewrite H. by rewrite str_app_nil.
Qed.

Lemma prefixInterpolated_correct_witness :
  prefixInterpolated (render_all [Lit "a(b) "; Ref "HOME"; Esc "X"]) "_TEL_A_" = "a(b) $(_TEL_A_HOME)$$(X)".
Proof.
  rewrite (prefixInterpolated_correct "_TEL_A_" [Lit "a(b) "; Ref "HOME"; Esc "X"]); [reflexivity|].
  repeat constructor; discriminate.
Defined.

(** ** Clone *)

(** [Sidecar.Clone] is no deep copy: the clone's container slice has the array of
    the original, so an assignment to a container of the clone is an assignment
    to the container of the original. *)
Theorem Clone_shares_containers (st st' st'' : store) (s cs : SidecarObj) (i : nat) (r : ReplacePolicy) :
  sc_Clone st s = Some (cs, st') ->
  set_replace st' cs i r = Some st'' ->
  exists c, container_at st'' s i = Some c /\ co_Replace c = r.
Proof.
  unfold sc_Clone, set_replace, container_at. intros (l & Hl & (st1 & _ & [= <- <-])%bind_Some)%bind_Some.
  cbn [so_Containers]. intros (l' & Hl' & (p & Hp & (c & Hc & [= <-])%bind_Some)%bind_Some)%bind_Some.
  cbn [arrays containers]. rewrite Hl'. cbn [mbind option_bind]. rewrite Hp. cbn [mbind option_bind].
  rewrite lookup_insert_eq. eexists. split; reflexivity.
Qed.

(** One sidecar with one container without intercepts. *)
Definition example_store : store :=
  mkStore {[0%nat := [0%nat]; 1%nat := []]} {[0%nat := mkCO "app" 1 ReplacePolicyIntercept]} ∅ 1.

Lemma Clone_shares_containers_witness :
  exists c, container_at
    (mkStore {[0%nat := [1%nat]; 1%nat := []]}
       {[0%nat := mkCO "app" 1 ReplacePolicyIntercept; 1%nat := mkCO "app" 1 ReplacePolicyContainer]} ∅ 2)
    (mkSO "a" 0) 0 = Some c /\ co_Replace c = ReplacePolicyContainer.
Proof.
  eapply (Clone_shares_containers example_store); vm_compute; reflexivity.
Defined.

(** ** Port names *)

(** The numbering of equal port names does not look at the names of other ports:
    with ports called [http-2], [http] and [http], two ports are called [http-2]. *)
Theorem port_names_collide :
  let ic name port := mkIntercept name "" "" "" false 6 "" port 0 port in
  let cn := mkContainer "app" [ic "http-2" 1; ic "http" 2; ic "http" 3] ReplacePolicyIntercept in
  port_Name <$> agent_ports ∅ [(cn, [])] = ["http-2"; "http"; "http-2"].
Proof. reflexivity. Qed.
