(* ===== verification/Kube.v ===== *)
(** * Kubernetes objects (as far as src/pkg/agentmap, src/pkg/agentconfig, src/pkg/k8sapi and
      src/cmd/traffic/cmd/manager/mutator read or write them)

    The objects are those of k8s.io/api.  The cluster is what informers and the API server
    answer: operations of [Cluster].  Label selectors are those of k8s.io/apimachinery. *)
From S2P Require Import Prelude GoStrings PortTypes AgentConfig.
Local Open Scope Z_scope.

(** ** core/v1 *)
Record CPort := mkCPort { cp_Name : string; cp_ContainerPort : Z; cp_Protocol : string }.
Global Instance CPort_eq_dec : EqDecision CPort.
Proof. solve_decision. Defined.
Record VolumeMount := mkVM {
  vm_Name : string; vm_MountPath : string; vm_SubPath : string; vm_SubPathExpr : string;
  vm_ReadOnly : bool; vm_RecursiveReadOnly : option string
}.
Global Instance VolumeMount_eq_dec : EqDecision VolumeMount.
Proof. solve_decision. Defined.
(** [ValueFrom] is the path of the field or key referred to. *)
Record EnvVar := mkEnv { env_Name : string; env_Value : string; env_ValueFrom : option string }.
Global Instance EnvVar_eq_dec : EqDecision EnvVar.
Proof. solve_decision. Defined.
Record EnvFrom := mkEF { ef_Prefix : string; ef_Source : string }.
Global Instance EnvFrom_eq_dec : EqDecision EnvFrom.
Proof. solve_decision. Defined.
Global Instance IntOrString_eq_dec : EqDecision IntOrString.
Proof. solve_decision. Defined.
Record Probe := mkProbe { pr_HTTPGet : option IntOrString; pr_TCPSocket : option IntOrString; pr_Exec : option (list string) }.
Global Instance Probe_eq_dec : EqDecision Probe.
Proof. solve_decision. Defined.
Global Instance SecurityContext_eq_dec : EqDecision SecurityContext.
Proof. solve_decision. Defined.

Record KContainer := mkKC {
  kc_Name : string;
  kc_Image : string;
  kc_Args : list string;
  kc_Ports : list CPort;
  kc_Env : option (list EnvVar);
  kc_EnvFrom : list EnvFrom;
  kc_VolumeMounts : list VolumeMount;
  kc_LivenessProbe : option Probe;
  kc_ReadinessProbe : option Probe;
  kc_StartupProbe : option Probe;
  kc_SecurityContext : option SecurityContext
}.
Global Instance KContainer_eq_dec : EqDecision KContainer.
Proof. solve_decision. Defined.

Record ServicePort := mkSP { spt_Name : string; spt_Protocol : string; spt_Port : Z; spt_TargetPort : IntOrString; spt_AppProtocol : option string }.
Record Service := mkSvc { svc_Name : string; svc_Namespace : string; svc_UID : string; svc_Selector : gmap string string; svc_Ports : list ServicePort }.

(** ** meta/v1 *)
Record OwnerReference := mkOR { or_Kind : string; or_Name : string; or_Controller : option bool }.
Record ObjectMeta := mkMeta {
  m_Name : string; m_Namespace : string; m_UID : string;
  m_Labels : option (gmap string string); m_Annotations : option (gmap string string); m_Owners : list OwnerReference
}.
Record PodSpec := mkPodSpec {
  ps_Containers : list KContainer; ps_InitContainers : list KContainer;
  ps_Volumes : option (list string); ps_PullSecrets : list string; ps_RunAsGroup : option Z
}.
Record PodTemplateSpec := mkPT { pt_Meta : ObjectMeta; pt_Spec : PodSpec }.
Record Workload := mkWL { wl_Kind : string; wl_Meta : ObjectMeta; wl_Template : PodTemplateSpec; wl_Replicas : Z }.

(** ** src/pkg/k8sapi/kind.go *)
Definition DeploymentKind : string := "Deployment".
Definition ReplicaSetKind : string := "ReplicaSet".
Definition StatefulSetKind : string := "StatefulSet".
Definition RolloutKind : string := "Rollout".
Definition KnownWorkloadKinds : list string := [DeploymentKind; ReplicaSetKind; StatefulSetKind; RolloutKind].
Definition Kinds_Contains (ks : list string) (kind : string) : bool := bool_decide (kind ∈ ks).

(** ** The cluster *)
Inductive k8s_error := NotFound (what : string) | OwnerNotFound (what : string) | UnsupportedKind (kind : string) | AnnotationControlled (kind : string) | OtherError (text : string).
Global Instance k8s_error_eq_dec : EqDecision k8s_error.
Proof. solve_decision. Defined.
(** An owner that is not found carries the status of an object that is not found. *)
Definition IsNotFound (e : k8s_error) : bool := match e with NotFound _ | OwnerNotFound _ => true | _ => false end.

Class Cluster := {
  has_informer : string -> bool;                                        (* by namespace *)
  cache_workload : string -> string -> string -> k8s_error + Workload;   (* kind, name, namespace *)
  api_workload : string -> string -> string -> k8s_error + Workload;
  get_service : string -> string -> k8s_error + Service;               (* name, namespace *)
  list_services : string -> k8s_error + list Service;
  selector_matches : gmap string string -> gmap string string -> bool   (* selector, labels *)
}.
(** The documented behaviour of a selector made from a set. *)
Class SelectorLaws `{Cluster} : Prop := selector_spec : forall sel lbs, selector_matches sel lbs = true <-> sel ⊆ lbs.
