(* ===== verification/Discovery.v ===== *)
(** * Finding workloads, services and containers (src/pkg/agentmap/discorvery.go,
      src/pkg/k8sapi/workload.go)

    [FindOwnerWorkload] follows controllers from a pod to the workload that owns it.  Its
    recursion is along the owners, which the cluster keeps: it takes fuel, and
    [FindOwner_terminates] gives the amount that is enough when owners form no cycle. *)
From S2P Require Import Prelude NetIP GoStrings PortTypes Policies AgentConfig Kube.
From Stdlib Require Import Ascii.
Local Open Scope Z_scope.

Definition ContainerName : string := "traffic-agent".
Definition InitContainerName : string := "tel-agent-init".
Definition WorkloadNameLabel : string := DomainPrefix +:+ "workloadName".
Definition WorkloadKindLabel : string := DomainPrefix +:+ "workloadKind".
Definition WorkloadEnabledLabel : string := DomainPrefix +:+ "workloadEnabled".

(** The expression [\A(.+)-[a-f0-9]+\z]: its first group ends at the last dash. *)
Definition hex_lower (a : ascii) : bool := let n := N_of_ascii a in ((97 <=? n) && (n <=? 102) || (48 <=? n) && (n <=? 57))%N.
Fixpoint all_chars (f : ascii -> bool) (s : string) : bool :=
  match s with EmptyString => true | String a s => f a && all_chars f s end.
Definition ReplicaSetNameRx (name : string) : option string :=
  match LastIndexByte name "-" with
  | Some ix =>
      let base := str_take ix name in
      let hash := str_drop (S ix) name in
      if negb (bool_decide (base = EmptyString)) && all_chars (fun c => negb (bool_decide (c = "010"%char))) base
         && negb (bool_decide (hash = EmptyString)) && all_chars hex_lower hash
      then Some base else None
  | None => None
  end.

Section Discovery.
Context `{Cluster}.

(** ** Workloads by name *)
Fixpoint first_found (get : string -> k8s_error + Workload) (ks : list string) (name namespace : string) : k8s_error + Workload :=
  match ks with
  | [] => inl (NotFound (name +:+ "." +:+ namespace))
  | k :: ks =>
      match get k with
      | inr wl => inr wl
      | inl e => if IsNotFound e then first_found get ks name namespace else inl e
      end
  end.
Definition by_kind (get : string -> k8s_error + Workload) (name namespace kind : string) : k8s_error + Workload :=
  if Kinds_Contains KnownWorkloadKinds kind then get kind
  else if bool_decide (kind = EmptyString) then first_found get KnownWorkloadKinds name namespace
  else inl (UnsupportedKind kind).
Definition getWorkload (name namespace kind : string) : k8s_error + Workload :=
  by_kind (fun k => cache_workload k name namespace) name namespace kind.
Definition k8sapi_GetWorkload (name namespace kind : string) : k8s_error + Workload :=
  by_kind (fun k => api_workload k name namespace) name namespace kind.
Definition GetWorkload (name namespace kind : string) : k8s_error + Workload :=
  if negb (has_informer namespace) then k8sapi_GetWorkload name namespace kind
  else match getWorkload name namespace kind with
       | inl e => if IsNotFound e then match k8sapi_GetWorkload name namespace kind with inr wl => inr wl | inl _ => inl e end else inl e
       | r => r
       end.

(** ** Owners *)
Inductive Object := ObjPod (m : ObjectMeta) | ObjWorkload (wl : Workload).
Definition obj_meta (o : Object) : ObjectMeta := match o with ObjPod m => m | ObjWorkload wl => wl_Meta wl end.
Definition controller (m : ObjectMeta) : option OwnerReference :=
  snd <$> list_find (fun r => or_Controller r = Some true) (m_Owners m).
Definition no_owner (o : Object) : k8s_error + Workload :=
  match o with ObjWorkload wl => inr wl | ObjPod m => inl (OwnerNotFound (m_Name m +:+ "." +:+ m_Namespace m)) end.
(** The owner that the labels of an object name. *)
Definition labelled_owner (m : ObjectMeta) (kinds : list string) : option (k8s_error + Workload) :=
  let lbs := entries (m_Labels m) in
  match lbs !! WorkloadNameLabel with
  | Some wlName =>
      Some (match lbs !! WorkloadKindLabel with
            | Some kind => if negb (Kinds_Contains kinds kind) then inl (AnnotationControlled kind) else GetWorkload wlName (m_Namespace m) kind
            | None => GetWorkload wlName (m_Namespace m) EmptyString
            end)
  | None => None
  end.
(** "Try the common case first": the deployment whose name is that of the replica set
    without its hash. *)
Definition common_case (ns : string) (r : OwnerReference) (kinds : list string) : option Workload :=
  if bool_decide (or_Kind r = ReplicaSetKind) && Kinds_Contains kinds DeploymentKind then
    match ReplicaSetNameRx (or_Name r) with
    | Some base => match GetWorkload base ns DeploymentKind with inr wl => Some wl | inl _ => None end
    | None => None
    end
  else None.
Fixpoint FindOwnerWorkload (fuel : nat) (obj : Object) (kinds : list string) : option (k8s_error + Workload) :=
  match fuel with
  | O => None
  | S fuel =>
      let m := obj_meta obj in
      match labelled_owner m kinds with
      | Some r => Some r
      | None =>
          match controller m with
          | Some r =>
              match common_case (m_Namespace m) r kinds with
              | Some wl => Some (inr wl)
              | None =>
                  if Kinds_Contains kinds (or_Kind r) then
                    match GetWorkload (or_Name r) (m_Namespace m) (or_Kind r) with
                    | inl e => Some (inl e)
                    | inr wl => FindOwnerWorkload fuel (ObjWorkload wl) kinds
                    end
                  else Some (no_owner obj)
              end
          | None => Some (no_owner obj)
          end
      end
  end.

(** ** Services of a pod *)
Inductive service_error := ServiceNotFound (name : string) | NoLabels (pod : string) | ServiceError (e : k8s_error).
Global Instance service_error_eq_dec : EqDecision service_error.
Proof. solve_decision. Defined.
Definition svc_name_le (a b : Service) : Prop := String.le (svc_Name a) (svc_Name b).
Global Instance svc_name_le_dec : RelDecision svc_name_le.
Proof. intros a b. unfold svc_name_le. apply _. Defined.
Global Instance svc_name_le_total : Total svc_name_le.
Proof. intros a b. apply (total String.le). Qed.
Global Instance svc_name_le_trans : Transitive svc_name_le.
Proof. intros a b c. unfold svc_name_le. intros; by transitivity (svc_Name b). Qed.
Definition selects (lbs : gmap string string) (s : Service) : Prop := svc_Selector s <> ∅ /\ selector_matches (svc_Selector s) lbs = true.
Global Instance selects_dec lbs s : Decision (selects lbs s).
Proof. unfold selects. apply _. Defined.
Definition findServicesSelecting (namespace : string) (lbs : gmap string string) : service_error + list Service :=
  match list_services namespace with
  | inl e => inl (ServiceError e)
  | inr ss => inr (merge_sort svc_name_le (filter (selects lbs) ss))
  end.
Definition FindServicesForPod (pod : PodTemplateSpec) (svcName : string) : service_error + list Service :=
  let m := pt_Meta pod in
  if negb (bool_decide (svcName = EmptyString)) then
    match get_service svcName (m_Namespace m) with
    | inr svc => inr [svc]
    | inl e => inl (if IsNotFound e then ServiceNotFound svcName else ServiceError e)
    end
  else if negb (bool_decide (entries (m_Labels m) = ∅)) then findServicesSelecting (m_Namespace m) (entries (m_Labels m))
  else inl (NoLabels (m_Name m)).

End Discovery.

(** [objectsStringer.String]: the text that is logged for the services found. *)
Fixpoint names_from (i l : nat) (names : list string) : string :=
  match names with
  | [] => EmptyString
  | n :: names =>
      (if Nat.ltb 0 i then (if Nat.eqb l 2 then "" else ", ") +:+ (if Nat.eqb i (l - 1) then " and " else "") else "")
      +:+ n +:+ names_from (S i) l names
  end.
Definition objectsStringer_String (names : list string) : string :=
  if bool_decide (names = []) then "no services" else names_from 0 (length names) names.

(** ** Containers *)
Section Containers.
Context `{K8sApi}.
Definition proto_equal (svcProto p : string) : bool :=
  let proto := if bool_decide (svcProto = EmptyString) then core_ProtocolTCP else svcProto in
  bool_decide (p = proto) || (bool_decide (p = EmptyString) && bool_decide (proto = core_ProtocolTCP)).
(** The first container with a port that satisfies [f], and the index of that port. *)
Fixpoint find_port (f : CPort -> bool) (cns : list KContainer) : option (KContainer * nat) :=
  match cns with
  | [] => None
  | cn :: cns =>
      match list_find (fun p => f p = true) (kc_Ports cn) with
      | Some (i, _) => Some (cn, i)
      | None => find_port f cns
      end
  end.
(** [None] for the index: the container declares no port at all. *)
Definition findContainerMatchingPort (port : ServicePort) (cns : list KContainer) : option (KContainer * option nat) :=
  match spt_TargetPort port with
  | FromString portName =>
      '(cn, i) ← find_port (fun p => bool_decide (cp_Name p = portName) && proto_equal (spt_Protocol port) (cp_Protocol p)) cns;
      Some (cn, Some i)
  | FromInt32 n =>
      let portNum := if n =? 0 then spt_Port port else n in
      match find_port (fun p => (cp_ContainerPort p =? portNum) && proto_equal (spt_Protocol port) (cp_Protocol p)) cns with
      | Some (cn, i) => Some (cn, Some i)
      | None => '(_, cn) ← list_find (fun cn => kc_Ports cn = []) cns; Some (cn, None)
      end
  end.
End Containers.
Definition containerByName (name : string) (cns : list KContainer) : option KContainer :=
  snd <$> list_find (fun cn => kc_Name cn = name) cns.
Definition AgentContainerOf (ps : PodSpec) : option KContainer := containerByName ContainerName (ps_Containers ps).
Definition InitContainerOf (ps : PodSpec) : option KContainer := containerByName InitContainerName (ps_InitContainers ps).
(** The containers' states: [Some t] for a container that runs since [t]. *)
Definition IsPodRunning (statuses : list (option Z)) : bool :=
  existsb (fun st => match st with Some startedAt => negb (startedAt =? 0) | None => false end) statuses.

(** ** Theorems *)
Section Facts.
Context `{Cluster}.

Lemma first_found_get (get : string -> k8s_error + Workload) ks name ns wl : first_found get ks name ns = inr wl -> exists k, get k = inr wl.
Proof.
  induction ks as [|k ks IH]; [discriminate|]. cbn [first_found]. destruct (get k) as [e|w] eqn:E.
  - destruct (IsNotFound e); [exact IH|discriminate].
  - intros [= ->]. by exists k.
Qed.
Lemma FindOwner_mono fuel fuel' obj kinds r :
  (fuel <= fuel')%nat -> FindOwnerWorkload fuel obj kinds = Some r -> FindOwnerWorkload fuel' obj kinds = Some r.
Proof.
  revert fuel' obj. induction fuel as [|fuel IH]; intros fuel' obj Hle; [discriminate|].
  destruct fuel' as [|fuel']; [lia|]. cbn [FindOwnerWorkload].
  repeat case_match; try done. apply IH. lia.
Qed.

(** The workload that controls an object, when its kind is a supported one. *)
Definition controlled_by (kinds : list string) (o : Object) (wl : Workload) : Prop :=
  exists r, controller (obj_meta o) = Some r /\ Kinds_Contains kinds (or_Kind r) = true /\
    GetWorkload (or_Name r) (m_Namespace (obj_meta o)) (or_Kind r) = inr wl.

Definition in_cluster (wl : Workload) : Prop := exists name ns kind, GetWorkload name ns kind = inr wl.
(** When the owners in the cluster form no cycle the search ends, with an answer that more
    fuel does not change. *)
Theorem FindOwner_terminates (kinds : list string) (rank : Workload -> nat) (obj : Object) :
  (forall wl wl', in_cluster wl -> controlled_by kinds (ObjWorkload wl) wl' -> (rank wl' < rank wl)%nat) ->
  exists n r, forall fuel, (n <= fuel)%nat -> FindOwnerWorkload fuel obj kinds = Some r.
Proof.
  intros Hrank.
  assert (Hwl : forall n wl, in_cluster wl -> (rank wl < n)%nat -> exists r, FindOwnerWorkload n (ObjWorkload wl) kinds = Some r).
  { intros n. induction n as [|n IH]; intros wl Hin Hn; [lia|]. cbn [FindOwnerWorkload].
    destruct (labelled_owner _ _); [eauto|]. destruct (controller _) as [r|] eqn:Hc; [|eauto].
    destruct (common_case _ _ _); [eauto|]. destruct (Kinds_Contains kinds (or_Kind r)) eqn:Hk; [|eauto].
    destruct (GetWorkload _ _ _) as [e|wl'] eqn:Hg; [eauto|]. apply IH; [by do 3 eexists|].
    assert (rank wl' < rank wl)%nat; [|lia]. apply Hrank; [done|]. by exists r. }
  assert (Hany : exists n r, FindOwnerWorkload n obj kinds = Some r).
  { destruct (controller (obj_meta obj)) as [r|] eqn:Hc; [|exists 1%nat; cbn [FindOwnerWorkload]; rewrite Hc; case_match; eauto].
    destruct (GetWorkload (or_Name r) (m_Namespace (obj_meta obj)) (or_Kind r)) as [e|wl] eqn:Hg.
    - exists 1%nat. cbn [FindOwnerWorkload]. rewrite Hc, Hg. repeat case_match; eauto.
    - destruct (Hwl (S (rank wl)) wl) as [q Hq]; [by do 3 eexists|lia|].
      exists (S (S (rank wl))). remember (S (rank wl)) as n. cbn [FindOwnerWorkload]. rewrite Hc, Hg, Hq. repeat case_match; eauto. }
  destruct Hany as (n & r & Hr). exists n, r. intros fuel Hf. by apply (FindOwner_mono n).
Qed.

(** ** The shortcut for deployments *)
(** The search without it. *)
Fixpoint FindOwner_ref (fuel : nat) (obj : Object) (kinds : list string) : option (k8s_error + Workload) :=
  match fuel with
  | O => None
  | S fuel =>
      let m := obj_meta obj in
      match labelled_owner m kinds, controller m with
      | Some r, _ => Some r
      | None, Some r =>
          if Kinds_Contains kinds (or_Kind r) then
            match GetWorkload (or_Name r) (m_Namespace m) (or_Kind r) with
            | inl e => Some (inl e)
            | inr wl => FindOwner_ref fuel (ObjWorkload wl) kinds
            end
          else Some (no_owner obj)
      | None, None => Some (no_owner obj)
      end
  end.
(** What Kubernetes promises of names: a replica set whose name is that of a deployment and
    a hash was made by that deployment, which nothing supported controls. *)
Definition hash_convention (kinds : list string) : Prop :=
  forall ns name base d, ReplicaSetNameRx name = Some base -> GetWorkload base ns DeploymentKind = inr d ->
    exists rs, GetWorkload name ns ReplicaSetKind = inr rs /\ m_Namespace (wl_Meta rs) = ns /\ labelled_owner (wl_Meta rs) kinds = None /\
      (exists r, controller (wl_Meta rs) = Some r /\ or_Kind r = DeploymentKind /\ or_Name r = base) /\
      labelled_owner (wl_Meta d) kinds = None /\
      (forall r, controller (wl_Meta d) = Some r -> or_Kind r <> ReplicaSetKind /\ Kinds_Contains kinds (or_Kind r) = false).
(** Then the shortcut changes no answer: it finds the workload that following the owners
    finds. *)
Theorem FindOwner_shortcut_correct (kinds : list string) (fuel : nat) (obj : Object) (r : k8s_error + Workload) :
  hash_convention kinds -> Kinds_Contains kinds ReplicaSetKind = true ->
  FindOwner_ref fuel obj kinds = Some r -> FindOwnerWorkload fuel obj kinds = Some r.
Proof.
  intros Hconv Hrs. revert obj. induction fuel as [|fuel IH]; intros obj; [discriminate|].
  cbn [FindOwner_ref FindOwnerWorkload]. destruct (labelled_owner (obj_meta obj) kinds); [done|].
  destruct (controller (obj_meta obj)) as [o|] eqn:Hc; [|done].
  destruct (common_case _ o kinds) as [d|] eqn:Hcc.
  - unfold common_case in Hcc. destruct (bool_decide (or_Kind o = ReplicaSetKind) && Kinds_Contains kinds DeploymentKind) eqn:Hb; [|done].
    bools. destruct (ReplicaSetNameRx (or_Name o)) as [base|] eqn:Hrx; [|done].
    destruct (GetWorkload base _ _) as [|d'] eqn:Hd; [done|]. apply (inj Some) in Hcc. subst d'.
    destruct (Hconv _ _ _ _ Hrx Hd) as (rs & Hget & Hns & Hl & (q & Hq & Hqk & Hqn) & Hld & Hnd).
    match goal with Hk : or_Kind o = _ |- _ => rewrite Hk end. rewrite Hrs, Hget.
    destruct fuel as [|fuel]; [discriminate|]. cbn [FindOwner_ref obj_meta]. rewrite Hl, Hq, Hqk, Hqn, Hns.
    match goal with Hk : Kinds_Contains kinds DeploymentKind = true |- _ => rewrite Hk end. rewrite Hd.
    destruct fuel as [|fuel]; [discriminate|]. cbn [FindOwner_ref obj_meta no_owner]. rewrite Hld.
    destruct (controller (wl_Meta d)) as [r'|] eqn:Hr'; [|done]. destruct (Hnd _ eq_refl) as [_ Hk']. by rewrite Hk'.
  - destruct (Kinds_Contains kinds (or_Kind o)); [|done]. destruct (GetWorkload _ _ _); [done|]. apply IH.
Qed.

(** ** Services *)
Context `{!SelectorLaws}.
Lemma merge_sort_svcs (l1 l2 : list Service) :
  NoDup (svc_Name <$> l1) -> l1 ≡ₚ l2 -> merge_sort svc_name_le l1 = merge_sort svc_name_le l2.
Proof.
  intros Hnd HP.
  apply (StronglySorted_unique_strong svc_name_le).
  - intros a b Ha Hb Hab Hba. rewrite merge_sort_Permutation in Ha, Hb. rewrite <- HP in Hb.
    apply list_elem_of_lookup_1 in Ha as [i Hi]. apply list_elem_of_lookup_1 in Hb as [j Hj].
    assert (i = j); [|congruence]. apply (NoDup_lookup _ i j (svc_Name a) Hnd).
    + by rewrite list_lookup_fmap, Hi.
    + rewrite list_lookup_fmap, Hj. cbn. f_equal. by apply (anti_symm String.le).
  - apply StronglySorted_merge_sort; apply _.
  - apply StronglySorted_merge_sort; apply _.
  - by rewrite !merge_sort_Permutation.
Qed.

(** The services of a pod are those of its namespace with a selector that the labels of the
    pod satisfy, a service without a selector excluded; they come in the order of their
    names, whatever the order in which the cluster lists them. *)
Theorem services_of_pod (pod : PodTemplateSpec) (ss : list Service) :
  entries (m_Labels (pt_Meta pod)) <> ∅ -> list_services (m_Namespace (pt_Meta pod)) = inr ss ->
  exists svcs, FindServicesForPod pod "" = inr svcs /\
    (forall s, s ∈ svcs <-> s ∈ ss /\ svc_Selector s <> ∅ /\ svc_Selector s ⊆ entries (m_Labels (pt_Meta pod))) /\
    StronglySorted svc_name_le svcs /\
    (forall ss', NoDup (svc_Name <$> ss) -> ss ≡ₚ ss' -> svcs = merge_sort svc_name_le (filter (selects (entries (m_Labels (pt_Meta pod)))) ss')).
Proof.
  intros Hl Hs. unfold FindServicesForPod. rewrite bool_decide_true by done. cbn [negb].
  rewrite bool_decide_false by done. cbn [negb]. unfold findServicesSelecting. rewrite Hs. eexists. split; [done|]. split_and!.
  - intros s. rewrite merge_sort_Permutation, list_elem_of_filter. unfold selects. rewrite selector_spec. naive_solver.
  - apply StronglySorted_merge_sort; apply _.
  - intros ss' Hnd HP. apply merge_sort_svcs; [|by rewrite HP].
    eapply sublist_NoDup; [exact Hnd|]. apply fmap_sublist, sublist_filter.
Qed.
End Facts.
