(* ===== verification/Generator.v ===== *)
(** * Generating the configuration of a traffic-agent (src/pkg/agentmap/generator.go,
      capsbase26.go)

    [Generate] computes the agent's configuration from a workload, the services that select
    its pods and the annotations of its pod template.  It takes and returns the generator's
    own configuration, since the code assigns to it.  The map from container ports to agent
    ports that its closures share is passed along. *)
From S2P Require Import Prelude NetIP GoStrings GoText GoJson PortTypes Matcher Icept Policies AgentConfig Kube Discovery.
From Stdlib Require Import Ascii.
Local Open Scope Z_scope.

(** ** capsbase26.go *)
(** The digits are written from the end of a buffer of 14 bytes; a panic when it is full
    would be the case [O], which [base26_buffer] excludes. *)
Fixpoint addBase26_loop (i : nat) (c v : Z) (acc : string) : string :=
  match i with
  | O => acc
  | S i =>
      let acc := String (chr (c + v mod 26)) acc in
      if v <? 26 then acc else addBase26_loop i c (v / 26) acc
  end.
Definition addBase26 (c v : Z) : string := addBase26_loop 14 c v EmptyString.
Definition CapsBase26 (v : Z) : string := addBase26 65 v.
Definition Base26 (v : Z) : string := addBase26 97 v.

(** ** Data *)
(** What [Generate] copies unchanged into the configuration. *)
Record AgentSettings := mkSettings {
  st_LogLevel : Z; st_InitResources : option (gmap string string); st_Resources : option (gmap string string);
  st_PullPolicy : string; st_PullSecrets : list string;
  st_SecurityContext : option SecurityContext; st_InitSecurityContext : option SecurityContext;
  st_MeshDialSubnets : list Prefix; st_ClientConnectionTTL : Z; st_WatchRetryInterval : Z;
  st_EnableH2cProbing : bool; st_EnableMetrics : bool
}.
Global Instance AgentSettings_eq_dec : EqDecision AgentSettings.
Proof. solve_decision. Defined.
Record GeneratorConfig := mkGC {
  gc_ManagerPort : Z; gc_AgentPort : Z; gc_APIPort : Z; gc_QualifiedAgentImage : string;
  gc_ManagerNamespace : string; gc_ClusterDomain : string; gc_MountPolicies : MountPolicies; gc_Settings : AgentSettings
}.
Definition set_policies (cfg : GeneratorConfig) (mps : MountPolicies) : GeneratorConfig :=
  mkGC (gc_ManagerPort cfg) (gc_AgentPort cfg) (gc_APIPort cfg) (gc_QualifiedAgentImage cfg) (gc_ManagerNamespace cfg)
    (gc_ClusterDomain cfg) mps (gc_Settings cfg).

(** src/pkg/agentconfig/sidecar.go: the container with all of its fields. *)
Record ContainerConfig := mkCC {
  cc_Name : string; cc_EnvPrefix : string; cc_MountPoint : string; cc_MountPaths : list string;
  cc_Mounts : MountPolicies; cc_Intercepts : list Intercept; cc_Replace : ReplacePolicy
}.
Global Instance ContainerConfig_eq_dec : EqDecision ContainerConfig.
Proof. solve_decision. Defined.
Record SidecarConfig := mkSidecarConfig {
  sf_Manual : bool; sf_AgentImage : string; sf_AgentName : string; sf_Namespace : string; sf_WorkloadName : string; sf_WorkloadKind : string;
  sf_ManagerHost : string; sf_ManagerPort : Z; sf_APIPort : Z; sf_MountPolicies : MountPolicies;
  sf_Containers : list ContainerConfig; sf_Settings : AgentSettings
}.
Global Instance SidecarConfig_eq_dec : EqDecision SidecarConfig.
Proof. solve_decision. Defined.
(** The parts that [AgentConfig] is about. *)
Definition plain_container (cc : ContainerConfig) : Container := mkContainer (cc_Name cc) (cc_Intercepts cc) (cc_Replace cc).
Definition plain (sf : SidecarConfig) : Sidecar :=
  mkSidecar (sf_AgentName sf) (sf_Namespace sf) (sf_WorkloadName sf) (sf_WorkloadKind sf) (plain_container <$> sf_Containers sf).

Inductive gen_error :=
  | IsTrafficManager
  | AgentPortTaken (container : string)
  | GenService (e : service_error)
  | BadPortAnnotation (e : types_error)
  | GenPolicy (e : policy_error)
  | NoContainerPort (p : string).
Global Instance gen_error_eq_dec : EqDecision gen_error.
Proof. solve_decision. Defined.
(** [errcat.GetCategory(err) == errcat.User] *)
Definition is_user_error (e : gen_error) : bool := match e with GenService _ => false | _ => true end.

Definition ManagerAppName : string := "traffic-manager".
Definition MountPrefixApp : string := "/tel_app_mounts".
Definition TrafficManagerSelector : gmap string string := {[ "app" := ManagerAppName; "telepresence" := "manager" ]}.

(** [strings.Trim(s, ".")] *)
Fixpoint trim_dots_left (s : string) : string := match s with String "." r => trim_dots_left r | _ => s end.
Fixpoint trim_dots_right (s : string) : string :=
  match s with
  | EmptyString => EmptyString
  | String a r => match trim_dots_right r with EmptyString => if bool_decide (a = "."%char) then EmptyString else String a EmptyString | r => String a r end
  end.
Definition ManagerHost (managerNamespace clusterDomain : string) : string :=
  let host := ManagerAppName +:+ "." +:+ managerNamespace in
  let clusterDomain := trim_dots_right (trim_dots_left clusterDomain) in
  if bool_decide (clusterDomain = EmptyString) || Contains managerNamespace "." then host
  else host +:+ ".svc." +:+ clusterDomain.

(** The order in which a range visits the policies, for a container and one of its mounts. *)
Class MapOrder := visit_order : string -> nat -> gmap string Z -> list (string * Z).
Class MapOrderLaws `{MapOrder} : Prop := visit_perm : forall cn i m, visit_order cn i m ≡ₚ map_to_list m.

Section Generator.
Context `{K8sApi, Cluster, MapOrder}.

(** ** Ports from annotations *)
Fixpoint portsFromAnnotationValue (cps : list string) : Go gen_error (list string) :=
  match cps with
  | [] => Ret []
  | pi :: cps =>
      match PortIdentifier_Validate pi with
      | Some e => Fail (BadPortAnnotation e)
      | None => ports ← portsFromAnnotationValue cps; Ret (pi :: ports)
      end
  end.
Definition port_text (pn : CPort) : string :=
  let pi := if bool_decide (cp_Name pn = EmptyString) then itoa (cp_ContainerPort pn) else cp_Name pn in
  if bool_decide (cp_Protocol pn = core_ProtocolTCP) then pi else pi +:+ "/" +:+ cp_Protocol pn.
Definition portsFromContainerPortsAnnotation (pod : PodTemplateSpec) : Go gen_error (list string) :=
  let cpa := GetAnnotation (m_Annotations (pt_Meta pod)) InjectContainerPorts LegacyInjectContainerPorts in
  if bool_decide (cpa = EmptyString) then Ret []
  else if bool_decide (cpa = "all"%string) then Ret (cn ← ps_Containers (pt_Spec pod); pn ← kc_Ports cn; [port_text pn])
  else portsFromAnnotationValue (SplitByte cpa ",").

(** The container with a port that collides with the agent's. *)
Definition port_conflict (cfg : GeneratorConfig) (cns : list KContainer) : option KContainer :=
  snd <$> list_find (fun cn => kc_Name cn <> ContainerName /\ existsb (fun p => cp_ContainerPort p =? gc_AgentPort cfg) (kc_Ports cn) = true) cns.

(** [agentPortNumberFunc] and the map it keeps. *)
Definition agentPortNumberFunc (cfg : GeneratorConfig) (pns : gmap Z Z) (cnPort : Z) : gmap Z Z * Z :=
  match pns !! cnPort with
  | Some p => (pns, p)
  | None => let p := u16 (gc_AgentPort cfg + u16 (Z.of_nat (size pns))) in (<[cnPort := p]> pns, p)
  end.

(** ** Containers *)
Definition containerReplacePolicy (existing : option SidecarConfig) (cn : KContainer) : ReplacePolicy :=
  match existing with
  | Some sc => match list_find (fun cc => cc_Name cc = kc_Name cn) (sf_Containers sc) with Some (_, cc) => cc_Replace cc | None => ReplacePolicyIntercept end
  | None => ReplacePolicyIntercept
  end.

(** The policies by mount path; nil while no mount is kept. *)
Fixpoint container_mounts (cfg : GeneratorConfig) (cn : string) (i : nat) (vms : list VolumeMount) (mps : MountPolicies) : MountPolicies :=
  match vms with
  | [] => mps
  | vm :: vms =>
      let vp := Policies_Get (visit_order cn i (entries (gc_MountPolicies cfg))) (vm_Name vm) (vm_MountPath vm) in
      container_mounts cfg cn (S i) vms
        (if vp =? MountPolicyIgnore then mps else Some (<[vm_MountPath vm := vp]> (entries mps)))
  end.
Definition is_remote (kv : string * Z) : Prop := kv.2 = MountPolicyRemote \/ kv.2 = MountPolicyRemoteReadOnly.
Global Instance is_remote_dec kv : Decision (is_remote kv).
Proof. unfold is_remote. apply _. Defined.
Definition newContainerConfig (cfg : GeneratorConfig) (cn : KContainer) (index : nat) (ics : list Intercept) (rp : ReplacePolicy) : ContainerConfig :=
  let mps := container_mounts cfg (kc_Name cn) 0 (kc_VolumeMounts cn) None in
  let mounts := merge_sort String.le (filter is_remote (map_to_list (entries mps))).*1 in
  mkCC (kc_Name cn) (CapsBase26 (Z.of_nat index) +:+ "_") (MountPrefixApp +:+ "/" +:+ kc_Name cn) mounts mps ics rp.

(** [cc.Intercepts = append(cc.Intercepts, ic)] for the first container of the name, if any. *)
Fixpoint add_to_container (name : string) (ic : Intercept) (ccs : list ContainerConfig) : option (list ContainerConfig) :=
  match ccs with
  | [] => None
  | cc :: ccs =>
      if bool_decide (cc_Name cc = name)
      then Some (mkCC (cc_Name cc) (cc_EnvPrefix cc) (cc_MountPoint cc) (cc_MountPaths cc) (cc_Mounts cc) (cc_Intercepts cc ++ [ic]) (cc_Replace cc) :: ccs)
      else ccs ← add_to_container name ic ccs; Some (cc :: ccs)
  end.
Definition place_intercept (cfg : GeneratorConfig) (existing : option SidecarConfig) (cn : KContainer) (ic : Intercept)
    (ccs : list ContainerConfig) : list ContainerConfig :=
  match add_to_container (kc_Name cn) ic ccs with
  | Some ccs => ccs
  | None => ccs ++ [newContainerConfig cfg cn (length ccs) [ic] (containerReplacePolicy existing cn)]
  end.

(** ** Services *)
Definition target_number (p : ServicePort) : Z :=
  let pn := match spt_TargetPort p with FromInt32 n => n | FromString _ => 0 end in if pn =? 0 then spt_Port p else pn.
Definition port_selected (pi : string) (p : ServicePort) : Prop :=
  let '(proto, name, num) := ProtoAndNameOrNumber pi in
  if bool_decide (name = EmptyString) then u16 (target_number p) = num /\ FromK8sProtocol (spt_Protocol p) = proto
  else spt_Name p = name.
Global Instance port_selected_dec pi p : Decision (port_selected pi p).
Proof. unfold port_selected. destruct (ProtoAndNameOrNumber pi) as [[? ?] ?]. destruct (bool_decide _); apply _. Defined.
Definition filterServicePorts (svc : Service) (portAnnotations : list string) : list ServicePort :=
  match portAnnotations with
  | [] => svc_Ports svc
  | _ => pi ← portAnnotations; filter (port_selected pi) (svc_Ports svc)
  end.

(** The container port that a service port leads to. *)
Definition app_port (port : ServicePort) (cn : KContainer) (i : option nat) : CPort :=
  match i with
  | None => mkCPort EmptyString (match spt_TargetPort port with FromInt32 n => n | FromString _ => 0 end) (spt_Protocol port)
  | Some i => default (mkCPort EmptyString 0 EmptyString) (kc_Ports cn !! i)
  end.
Definition service_intercept (svc : Service) (port : ServicePort) (appPort : CPort) (agentPort : Z) : Intercept :=
  mkIntercept (cp_Name appPort) (svc_Name svc) (svc_UID svc) (spt_Name port)
    (match spt_TargetPort port with FromInt32 _ => true | FromString _ => false end)
    (FromK8sProtocol (spt_Protocol port)) (default EmptyString (spt_AppProtocol port))
    (u16 (cp_ContainerPort appPort)) (u16 (spt_Port port)) agentPort.
Definition svc_port_step (cfg : GeneratorConfig) (existing : option SidecarConfig) (cns : list KContainer) (svc : Service)
    (st : gmap Z Z * list ContainerConfig) (port : ServicePort) : gmap Z Z * list ContainerConfig :=
  let '(pns, ccs) := st in
  match findContainerMatchingPort port cns with
  | Some (cn, i) =>
      if bool_decide (kc_Name cn = ContainerName) then (pns, ccs)
      else
        let appPort := app_port port cn i in
        let '(pns, agentPort) := agentPortNumberFunc cfg pns (cp_ContainerPort appPort) in
        (pns, place_intercept cfg existing cn (service_intercept svc port appPort agentPort) ccs)
  | None => (pns, ccs)
  end.
Definition appendAgentContainerConfigs (cfg : GeneratorConfig) (existing : option SidecarConfig) (cns : list KContainer) (portAnnotations : list string)
    (st : gmap Z Z * list ContainerConfig) (svc : Service) : gmap Z Z * list ContainerConfig :=
  foldl (svc_port_step cfg existing cns svc) st (filterServicePorts svc portAnnotations).

(** ** Ports without a service *)
Definition port_found (proto : Z) (name : string) (num : Z) (appPort : CPort) : Prop :=
  (name <> EmptyString /\ name = cp_Name appPort \/ num = u16 (cp_ContainerPort appPort)) /\
  (Proto_String proto = cp_Protocol appPort \/ proto = ProtoTCP /\ cp_Protocol appPort = EmptyString).
Global Instance port_found_dec proto name num p : Decision (port_found proto name num p).
Proof. unfold port_found. apply _. Defined.
Definition findContainerPort (cns : list KContainer) (p : string) : option (KContainer * CPort) :=
  let '(proto, name, num) := ProtoAndNameOrNumber p in
  (fix go cns :=
     match cns with
     | [] => None
     | cn :: cns =>
         if bool_decide (kc_Name cn = ContainerName) then go cns
         else match list_find (port_found proto name num) (kc_Ports cn) with
              | Some (_, appPort) => Some (cn, appPort)
              | None => go cns
              end
     end) cns.
Definition serviceless_intercept (appPort : CPort) (agentPort : Z) : Intercept :=
  mkIntercept (cp_Name appPort) EmptyString EmptyString EmptyString true (FromK8sProtocol (cp_Protocol appPort)) EmptyString
    (u16 (cp_ContainerPort appPort)) 0 agentPort.
(** The first container of the name gets the intercept unless it has one for the port. *)
Definition place_serviceless (cfg : GeneratorConfig) (existing : option SidecarConfig) (cn : KContainer) (ic : Intercept)
    (ccs : list ContainerConfig) : list ContainerConfig :=
  match list_find (fun cc => cc_Name cc = kc_Name cn) ccs with
  | Some (_, cc) =>
      if existsb (fun eic => ic_ContainerPort eic =? ic_ContainerPort ic) (cc_Intercepts cc) then ccs
      else place_intercept cfg existing cn ic ccs
  | None => place_intercept cfg existing cn ic ccs
  end.
Fixpoint appendServiceLessAgentContainerConfigs (cfg : GeneratorConfig) (existing : option SidecarConfig) (cns : list KContainer)
    (portAnnotations : list string) (st : gmap Z Z * list ContainerConfig) : Go gen_error (gmap Z Z * list ContainerConfig) :=
  match portAnnotations with
  | [] => Ret st
  | p :: portAnnotations =>
      match findContainerPort cns p with
      | Some (cn, appPort) =>
          let '(pns, agentPort) := agentPortNumberFunc cfg st.1 (cp_ContainerPort appPort) in
          appendServiceLessAgentContainerConfigs cfg existing cns portAnnotations
            (pns, place_serviceless cfg existing cn (serviceless_intercept appPort agentPort) st.2)
      | None =>
          (* a port is made up for a number, but there is no container: [cn.Name] panics *)
          let '(_, name, _) := ProtoAndNameOrNumber p in
          if negb (bool_decide (name = EmptyString)) then Fail (NoContainerPort p) else Panic
      end
  end.

(** The containers that no port leads to. *)
Definition append_other (cfg : GeneratorConfig) (existing : option SidecarConfig) (ccs : list ContainerConfig) (cn : KContainer) : list ContainerConfig :=
  if bool_decide (kc_Name cn = ContainerName) || existsb (fun cc => bool_decide (cc_Name cc = kc_Name cn)) ccs then ccs
  else ccs ++ [newContainerConfig cfg cn (length ccs) [] (containerReplacePolicy existing cn)].

(** ** Generate *)
Definition pod_of (wl : Workload) : PodTemplateSpec :=
  let m := pt_Meta (wl_Template wl) in
  mkPT (mkMeta (m_Name m) (m_Namespace (wl_Meta wl)) (m_UID m) (m_Labels m) (m_Annotations m) (m_Owners m)) (pt_Spec (wl_Template wl)).
Definition generate_containers (cfg : GeneratorConfig) (pod : PodTemplateSpec) (existing : option SidecarConfig) (svcs : list Service)
    (ports : list string) : Go gen_error (list ContainerConfig) :=
  let cns := ps_Containers (pt_Spec pod) in
  let st := foldl (appendAgentContainerConfigs cfg existing cns ports) (∅, []) svcs in
  cports ← portsFromContainerPortsAnnotation pod;
  '(_, ccs) ← (if bool_decide (cports = []) then Ret st else appendServiceLessAgentContainerConfigs cfg existing cns cports st);
  Ret (foldl (append_other cfg existing) ccs cns).
Definition sidecar_of (cfg : GeneratorConfig) (wl : Workload) (ccs : list ContainerConfig) : SidecarConfig :=
  mkSidecarConfig false (gc_QualifiedAgentImage cfg) (m_Name (wl_Meta wl)) (m_Namespace (wl_Meta wl)) (m_Name (wl_Meta wl)) (wl_Kind wl)
    (ManagerHost (gc_ManagerNamespace cfg) (gc_ClusterDomain cfg)) (gc_ManagerPort cfg) (gc_APIPort cfg) (gc_MountPolicies cfg) ccs (gc_Settings cfg).
Definition service_port_annotation (pod : PodTemplateSpec) : Go gen_error (list string) :=
  let ann := GetAnnotation (m_Annotations (pt_Meta pod)) InjectServicePorts LegacyInjectServicePort in
  if bool_decide (ann = EmptyString) then Ret [] else portsFromAnnotationValue (SplitByte ann ",").

Definition Generate (cfg : GeneratorConfig) (wl : Workload) (existing : option SidecarConfig) : GeneratorConfig * Go gen_error SidecarConfig :=
  if selector_matches TrafficManagerSelector (entries (m_Labels (wl_Meta wl))) then (cfg, Fail IsTrafficManager)
  else
    let pod := pod_of wl in
    let anns := m_Annotations (pt_Meta pod) in
    match port_conflict cfg (ps_Containers (pt_Spec pod)) with
    | Some cn => (cfg, Fail (AgentPortTaken (kc_Name cn)))
    | None =>
        match FindServicesForPod pod (GetAnnotation anns InjectServiceName LegacyInjectServiceName) with
        | inl e => (cfg, Fail (GenService e))
        | inr svcs =>
            match service_port_annotation pod with
            | Fail e => (cfg, Fail e)
            | Panic => (cfg, Panic)
            | Ret ports =>
                (* the policies with the annotations become the generator's own, nil on an error *)
                match AddAnnotations (gc_MountPolicies cfg) anns with
                | Fail e => (set_policies cfg None, Fail (GenPolicy e))
                | Panic => (cfg, Panic)
                | Ret mps =>
                    let cfg := set_policies cfg mps in
                    (cfg, sidecar_of cfg wl <$> generate_containers cfg pod existing svcs ports)
                end
            end
        end
    end.
End Generator.
