(* ===== verification/GeneratorSpec.v ===== *)
(** * Correctness of the generated configuration

    Each container configuration belongs to one container of the pod, with a prefix for its
    environment that no other has; agent ports and container ports correspond one to one;
    what the ports of the services and the annotations lead to is covered, and nothing else. *)
From S2P Require Import Prelude NetIP GoStrings GoText GoJson PortTypes PortSpec Matcher Icept Policies AgentConfig AgentSpec Kube Discovery Generator.
From Stdlib Require Import Ascii.
Local Open Scope Z_scope.

(** ** Base 26 *)
Lemma addBase26_app n c v acc : addBase26_loop n c v acc = addBase26_loop n c v EmptyString +:+ acc.
Proof.
  revert v acc. induction n as [|n IH]; intros v acc; [done|]. cbn [addBase26_loop]. case_match; [done|].
  rewrite IH, (IH _ (String _ _)). by rewrite str_app_assoc.
Qed.
Lemma base26_more n c v : 0 <= v < 26 ^ Z.of_nat n -> (0 < n)%nat -> addBase26_loop (S n) c v EmptyString = addBase26_loop n c v EmptyString.
Proof.
  revert v. induction n as [|n IH]; intros v Hv Hn; [lia|].
  change (addBase26_loop (S (S n)) c v EmptyString) with
    (if v <? 26 then String (chr (c + v mod 26)) EmptyString else addBase26_loop (S n) c (v / 26) (String (chr (c + v mod 26)) EmptyString)).
  change (addBase26_loop (S n) c v EmptyString) with
    (if v <? 26 then String (chr (c + v mod 26)) EmptyString else addBase26_loop n c (v / 26) (String (chr (c + v mod 26)) EmptyString)).
  destruct (v <? 26) eqn:E; [done|]. bools.
  rewrite Nat2Z.inj_succ, Z.pow_succ_r in Hv by lia.
  destruct n as [|n]; [rewrite Z.pow_0_r in Hv; lia|].
  rewrite addBase26_app, (addBase26_app (S n)). f_equal. apply IH; [|lia]. split; [apply Z.div_pos; lia|apply Z.div_lt_upper_bound; lia].
Qed.
(** The buffer of 14 bytes is enough for every 64-bit number: a longer one changes nothing. *)
Lemma base26_buffer c v n : 0 <= v < 2 ^ 64 -> addBase26_loop (14 + n) c v EmptyString = addBase26 c v.
Proof.
  intros Hv. induction n as [|n IH]; [done|]. rewrite <- IH, Nat.add_succ_r. apply base26_more; [|lia].
  assert (2 ^ 64 <= 26 ^ Z.of_nat 14) by (vm_compute; discriminate).
  assert (26 ^ Z.of_nat 14 <= 26 ^ Z.of_nat (14 + n)) by (apply Z.pow_le_mono_r; lia). lia.
Qed.
Lemma chr_inj x y : 0 <= x < 256 -> 0 <= y < 256 -> chr x = chr y -> x = y.
Proof.
  intros Hx Hy He. unfold chr in He. apply (f_equal N_of_ascii) in He. rewrite !N_ascii_embedding in He by lia. lia.
Qed.
Lemma app_last_inj (s t : string) a b : s +:+ String a EmptyString = t +:+ String b EmptyString -> s = t /\ a = b.
Proof.
  revert t. induction s as [|x s IH]; intros t He.
  - destruct t as [|y t]; [by injection He|]. exfalso. injection He as _ He. by destruct t.
  - destruct t as [|y t]; [exfalso; injection He as _ He; by destruct s|].
    rewrite !str_app_cons in He. injection He as -> He. apply IH in He as [-> ->]. done.
Qed.
Lemma base26_nonempty n c v : (0 < n)%nat -> addBase26_loop n c v EmptyString <> EmptyString.
Proof. destruct n as [|n]; [lia|]. intros _. cbn [addBase26_loop]. case_match; [done|]. rewrite addBase26_app. by destruct (addBase26_loop _ _ _ _). Qed.
Lemma base26_inj n c v w : 0 <= c <= 200 -> 0 <= v < 26 ^ Z.of_nat n -> 0 <= w < 26 ^ Z.of_nat n -> (0 < n)%nat ->
  addBase26_loop n c v EmptyString = addBase26_loop n c w EmptyString -> v = w.
Proof.
  intros Hc. revert v w. induction n as [|n IH]; intros v w Hv Hw Hn; [lia|]. cbn [addBase26_loop].
  pose proof (Z.mod_pos_bound v 26 eq_refl). pose proof (Z.mod_pos_bound w 26 eq_refl).
  pose proof (Z.div_mod v 26). pose proof (Z.div_mod w 26).
  rewrite Nat2Z.inj_succ, Z.pow_succ_r in Hv, Hw by lia.
  destruct (v <? 26) eqn:Ev, (w <? 26) eqn:Ew; bools; intros He.
  - injection He as He. apply chr_inj in He; [|lia..]. rewrite !Z.mod_small in He by lia. lia.
  - rewrite addBase26_app in He. change (String (chr (c + v mod 26)) "") with ("" +:+ String (chr (c + v mod 26)) "") in He.
    apply app_last_inj in He as [He _]. symmetry in He. apply base26_nonempty in He; [done|].
    destruct n; [rewrite Z.pow_0_r in Hw; lia|lia].
  - rewrite addBase26_app in He. change (String (chr (c + w mod 26)) "") with ("" +:+ String (chr (c + w mod 26)) "") in He.
    apply app_last_inj in He as [He _]. apply base26_nonempty in He; [done|].
    destruct n; [rewrite Z.pow_0_r in Hv; lia|lia].
  - rewrite addBase26_app, (addBase26_app n c (w / 26)) in He. apply app_last_inj in He as [He Hl].
    apply chr_inj in Hl; [|lia..].
    assert (v / 26 = w / 26); [|lia]. destruct n as [|n]; [rewrite Z.pow_0_r in Hv; lia|].
    apply IH in He; [done|..|lia]; (split; [apply Z.div_pos; lia|apply Z.div_lt_upper_bound; lia]).
Qed.
Lemma CapsBase26_inj v w : 0 <= v < 2 ^ 64 -> 0 <= w < 2 ^ 64 -> CapsBase26 v = CapsBase26 w -> v = w.
Proof.
  intros Hv Hw. apply base26_inj; [lia|..|lia]; assert (2 ^ 64 <= 26 ^ Z.of_nat 14) by (vm_compute; discriminate); lia.
Qed.

(** ** Containers and their intercepts *)
(** A container configuration without its intercepts. *)
Definition cc_head (cc : ContainerConfig) : ContainerConfig :=
  mkCC (cc_Name cc) (cc_EnvPrefix cc) (cc_MountPoint cc) (cc_MountPaths cc) (cc_Mounts cc) [] (cc_Replace cc).
Definition ics_of (ccs : list ContainerConfig) : list (string * Intercept) := ccs ≫= fun cc => pair (cc_Name cc) <$> cc_Intercepts cc.

Lemma ics_of_app l1 l2 : ics_of (l1 ++ l2) = ics_of l1 ++ ics_of l2.
Proof. apply bind_app. Qed.
Lemma ics_of_elem ccs n ic : (n, ic) ∈ ics_of ccs <-> exists cc, cc ∈ ccs /\ cc_Name cc = n /\ ic ∈ cc_Intercepts cc.
Proof.
  unfold ics_of. rewrite list_elem_of_bind. split.
  - intros (cc & Hin & Hcc). apply list_elem_of_fmap in Hin as (ic' & [= -> ->] & Hic). eauto.
  - intros (cc & Hcc & <- & Hic). exists cc. split; [|done]. apply list_elem_of_fmap. eauto.
Qed.
Lemma ics_of_length ccs : length (ics_of ccs) = sum_list ((length ∘ cc_Intercepts) <$> ccs).
Proof.
  induction ccs as [|cc ccs IH]; [done|]. change (ics_of (cc :: ccs)) with ((pair (cc_Name cc) <$> cc_Intercepts cc) ++ ics_of ccs).
  by rewrite length_app, length_fmap, IH.
Qed.

Lemma add_to_container_None name ic ccs : add_to_container name ic ccs = None <-> name ∉ cc_Name <$> ccs.
Proof.
  induction ccs as [|cc ccs IH]; [split; [intros _; apply not_elem_of_nil|done]|]. cbn [add_to_container fmap list_fmap].
  rewrite not_elem_of_cons. case_bool_decide as Hn; [split; [done|intros [? _]; congruence]|].
  destruct (add_to_container name ic ccs) as [ccs'|]; cbn [mbind option_bind].
  - split; [done|]. intros [_ Hno]. apply IH in Hno. discriminate.
  - split; [|done]. intros _. split; [congruence|by apply IH].
Qed.
Lemma add_to_container_Some name ic ccs ccs' : add_to_container name ic ccs = Some ccs' ->
  cc_head <$> ccs' = cc_head <$> ccs /\ (forall p, p ∈ ics_of ccs' <-> p ∈ ics_of ccs \/ p = (name, ic)) /\
  length (ics_of ccs') = S (length (ics_of ccs)).
Proof.
  revert ccs'. induction ccs as [|cc ccs IH]; intros ccs' Ha; [discriminate|]. cbn [add_to_container] in Ha.
  assert (Hc : forall c l, ics_of (c :: l) = (pair (cc_Name c) <$> cc_Intercepts c) ++ ics_of l) by done.
  case_bool_decide as Hn.
  - apply (inj Some) in Ha. subst ccs' name. split; [done|]. rewrite !Hc. cbn [cc_Name cc_Intercepts]. split.
    + intros p. rewrite fmap_app, !elem_of_app. cbn [fmap list_fmap]. rewrite list_elem_of_singleton. naive_solver.
    + rewrite fmap_app, !length_app, !length_fmap. cbn. lia.
  - destruct (add_to_container name ic ccs) as [l|]; [|discriminate]. apply (inj Some) in Ha. subst ccs'.
    destruct (IH l eq_refl) as (Hh & Hp & Hl). split; [by rewrite !fmap_cons, Hh|]. rewrite !Hc. split.
    + intros p. rewrite !elem_of_app, Hp. naive_solver.
    + rewrite !length_app, Hl. lia.
Qed.
Lemma heads_names (ccs ccs' : list ContainerConfig) : cc_head <$> ccs' = cc_head <$> ccs -> cc_Name <$> ccs' = cc_Name <$> ccs.
Proof.
  intros H. assert (Hn : forall l : list ContainerConfig, cc_Name <$> l = cc_Name <$> (cc_head <$> l)) by (intros l; by rewrite <- list_fmap_compose).
  by rewrite Hn, H, <- Hn.
Qed.

(** ** Numbering of ports *)
Definition agent_nr (cfg : GeneratorConfig) (i : nat) : Z := u16 (gc_AgentPort cfg + u16 (Z.of_nat i)).
(** [ks] lists the container ports in the order in which they were numbered. *)
Definition numbered (cfg : GeneratorConfig) (ks : list Z) (pns : gmap Z Z) : Prop :=
  NoDup ks /\ size pns = length ks /\ forall k v, pns !! k = Some v <-> exists i, ks !! i = Some k /\ v = agent_nr cfg i.

Lemma numbered_step cfg ks pns k pns' v :
  numbered cfg ks pns -> agentPortNumberFunc cfg pns k = (pns', v) ->
  exists ks', numbered cfg ks' pns' /\ (ks' = ks /\ k ∈ ks \/ ks' = ks ++ [k] /\ k ∉ ks) /\ pns' !! k = Some v /\ pns ⊆ pns'.
Proof.
  intros (Hnd & Hsz & Hk) Ha. unfold agentPortNumberFunc in Ha. destruct (pns !! k) as [p|] eqn:E.
  - injection Ha as <- <-. exists ks. split; [done|]. split; [|done]. left. split; [done|].
    apply Hk in E as (i & Hi & _). by apply list_elem_of_lookup_2 in Hi.
  - injection Ha as <- <-. rewrite Hsz.
    assert (Hnot : k ∉ ks).
    { intros Hin. apply list_elem_of_lookup_1 in Hin as [i Hi].
      assert (pns !! k = Some (agent_nr cfg i)) by (apply Hk; eauto). congruence. }
    exists (ks ++ [k]). split; [|split; [by right|split; [by rewrite lookup_insert_eq|by apply insert_subseteq]]]. split_and!.
    + apply NoDup_app. split; [done|]. split; [|apply NoDup_singleton]. intros x Hx ->%list_elem_of_singleton. done.
    + rewrite map_size_insert_None, length_app by done. cbn. lia.
    + intros k' v'. rewrite lookup_insert_Some. split.
      * intros [[-> <-]|[Hne Hl]].
        -- exists (length ks). split; [|done]. by rewrite lookup_app_r, Nat.sub_diag by lia.
        -- apply Hk in Hl as (i & Hi & ->). exists i. split; [by apply lookup_app_l_Some|done].
      * intros (i & Hi & ->). apply lookup_app_Some in Hi as [Hi|[Hge Hi]].
        -- right. split; [intros ->; apply Hnot; by apply list_elem_of_lookup_2 in Hi|]. apply Hk. eauto.
        -- apply list_lookup_singleton_Some in Hi as [Hi ->]. left. split; [done|]. unfold agent_nr. do 4 f_equal. lia.
Qed.

Section Built.
Context `{K8sApi, Cluster, MapOrder}.
Context (cfg : GeneratorConfig) (existing : option SidecarConfig) (cns : list KContainer).

(** The [i]-th configuration is that of a container of the pod other than the agent's. *)
Definition of_container (i : nat) (h : ContainerConfig) : Prop :=
  exists cn, cn ∈ cns /\ kc_Name cn <> ContainerName /\ h = newContainerConfig cfg cn i [] (containerReplacePolicy existing cn).
Definition shaped (ccs : list ContainerConfig) : Prop :=
  NoDup (cc_Name <$> ccs) /\ forall i h, (cc_head <$> ccs) !! i = Some h -> of_container i h.
Definition ported (pns : gmap Z Z) (ccs : list ContainerConfig) : Prop :=
  exists ks, numbered cfg ks pns /\
    (forall n ic, (n, ic) ∈ ics_of ccs -> fits 16 (ic_ContainerPort ic) /\ pns !! ic_ContainerPort ic = Some (ic_AgentPort ic)) /\
    (forall k, k ∈ ks -> exists n ic, (n, ic) ∈ ics_of ccs /\ ic_ContainerPort ic = k).
Definition built (st : gmap Z Z * list ContainerConfig) : Prop := shaped st.2 /\ ported st.1 st.2.

Lemma shaped_heads ccs ccs' : cc_head <$> ccs' = cc_head <$> ccs -> shaped ccs -> shaped ccs'.
Proof. intros Hh [Hn Hc]. split; [by rewrite (heads_names _ _ Hh)|by rewrite Hh]. Qed.
Lemma shaped_append ccs cn ics : cn ∈ cns -> kc_Name cn <> ContainerName -> kc_Name cn ∉ cc_Name <$> ccs -> shaped ccs ->
  shaped (ccs ++ [newContainerConfig cfg cn (length ccs) ics (containerReplacePolicy existing cn)]).
Proof.
  intros Hin Hne Hno [Hn Hc]. split.
  - rewrite fmap_app. apply NoDup_app. split; [done|]. split; [|apply NoDup_singleton].
    intros x Hx Hs. apply list_elem_of_singleton in Hs. subst x. done.
  - intros i h. rewrite fmap_app, lookup_app_Some, length_fmap. intros [Hi|[Hge Hi]]; [eauto|].
    apply list_lookup_singleton_Some in Hi as [Hi <-]. exists cn. replace i with (length ccs) by lia. done.
Qed.
Lemma place_shaped cn ic ccs : cn ∈ cns -> kc_Name cn <> ContainerName -> shaped ccs -> shaped (place_intercept cfg existing cn ic ccs).
Proof.
  intros Hin Hne Hs. unfold place_intercept. destruct (add_to_container (kc_Name cn) ic ccs) as [ccs'|] eqn:E.
  - apply add_to_container_Some in E as (Hh & _). by apply (shaped_heads ccs).
  - apply add_to_container_None in E. by apply shaped_append.
Qed.
Lemma place_ics cn ic ccs p : p ∈ ics_of (place_intercept cfg existing cn ic ccs) <-> p ∈ ics_of ccs \/ p = (kc_Name cn, ic).
Proof.
  unfold place_intercept. destruct (add_to_container (kc_Name cn) ic ccs) as [ccs'|] eqn:E.
  - by apply add_to_container_Some in E as (_ & Hp & _).
  - rewrite ics_of_app, elem_of_app. change (ics_of [newContainerConfig cfg cn (length ccs) [ic] (containerReplacePolicy existing cn)]) with [(kc_Name cn, ic)].
    by rewrite list_elem_of_singleton.
Qed.
Lemma place_ported pns ccs cn ic pns' : ported pns ccs -> fits 16 (ic_ContainerPort ic) ->
  agentPortNumberFunc cfg pns (ic_ContainerPort ic) = (pns', ic_AgentPort ic) -> ported pns' (place_intercept cfg existing cn ic ccs).
Proof.
  intros (ks & Hnb & Hics & Hks) Hf Ha. destruct (numbered_step _ _ _ _ _ _ Hnb Ha) as (ks' & Hnb' & Hcase & Hk & Hsub).
  exists ks'. split; [done|]. split.
  - intros n ic' Hin. apply place_ics in Hin as [Hin|[= -> ->]]; [|done]. apply Hics in Hin as [? Hl]. split; [done|].
    by apply (lookup_weaken _ _ _ _ Hl).
  - intros k Hin. assert (k ∈ ks \/ k = ic_ContainerPort ic) as [Hin'| ->].
    { destruct Hcase as [[-> ?]|[-> ?]]; [by left|]. apply elem_of_app in Hin as [?|Hin]; [by left|].
      apply list_elem_of_singleton in Hin. by right. }
    + destruct (Hks _ Hin') as (n & ic' & Hi & He). exists n, ic'. split; [|done]. apply place_ics. by left.
    + exists (kc_Name cn), ic. split; [|done]. apply place_ics. by right.
Qed.
(** A port that an intercept has is numbered already. *)
Lemma known_port pns ccs n ic k pns' v : ported pns ccs -> (n, ic) ∈ ics_of ccs -> ic_ContainerPort ic = k ->
  agentPortNumberFunc cfg pns k = (pns', v) -> pns' = pns.
Proof.
  intros (ks & _ & Hics & _) Hin <- Ha. apply Hics in Hin as [_ Hl]. unfold agentPortNumberFunc in Ha. rewrite Hl in Ha. congruence.
Qed.
Lemma append_other_built pns ccs cn : cn ∈ cns -> built (pns, ccs) -> built (pns, append_other cfg existing ccs cn).
Proof.
  intros Hin [Hs Hp]. unfold append_other. destruct (_ || _) eqn:E; [done|]. bools.
  assert (Hno : kc_Name cn ∉ cc_Name <$> ccs).
  { intros (cc & He & Hcc)%list_elem_of_fmap. assert (Hx : existsb (fun cc => bool_decide (cc_Name cc = kc_Name cn)) ccs = true); [|congruence].
    apply existsb_exists. exists cc. split; [by apply list_elem_of_In|by apply bool_decide_eq_true_2]. }
  split; [by apply shaped_append|]. destruct Hp as (ks & Hnb & Hics & Hks). exists ks. split; [done|].
  cbn [snd]. rewrite ics_of_app. change (ics_of [newContainerConfig cfg cn (length ccs) [] (containerReplacePolicy existing cn)]) with (@nil (string * Intercept)).
  by rewrite app_nil_r.
Qed.
Lemma append_others_built pns ccs l : (forall cn, cn ∈ l -> cn ∈ cns) -> built (pns, ccs) -> built (pns, foldl (append_other cfg existing) ccs l).
Proof.
  revert ccs. induction l as [|cn l IH]; intros ccs Hl Hb; [done|]. cbn [foldl]. apply IH.
  - intros cn' Hin. apply Hl. by apply list_elem_of_further.
  - apply append_other_built; [|done]. apply Hl, list_elem_of_here.
Qed.
Lemma append_other_ics ccs cn : ics_of (append_other cfg existing ccs cn) = ics_of ccs.
Proof.
  unfold append_other. destruct (_ || _); [done|]. rewrite ics_of_app. apply app_nil_r.
Qed.
Lemma append_others_ics ccs l : ics_of (foldl (append_other cfg existing) ccs l) = ics_of ccs.
Proof. revert ccs. induction l as [|cn l IH]; intros ccs; [done|]. cbn [foldl]. by rewrite IH, append_other_ics. Qed.
Lemma append_other_names ccs cn n : n ∈ cc_Name <$> append_other cfg existing ccs cn <-> n ∈ cc_Name <$> ccs \/ n = kc_Name cn /\ n <> ContainerName.
Proof.
  unfold append_other. destruct (_ || _) eqn:E.
  - split; [by left|]. intros [?|[-> Hne]]; [done|]. apply orb_true_iff in E as [E|E]; [by apply bool_decide_eq_true_1 in E|].
    apply existsb_exists in E as (cc & Hin & Hb). apply bool_decide_eq_true_1 in Hb. rewrite <- Hb. apply list_elem_of_fmap_2. by apply list_elem_of_In.
  - bools. rewrite fmap_app, elem_of_app. cbn [fmap list_fmap newContainerConfig cc_Name]. rewrite list_elem_of_singleton. naive_solver.
Qed.
Lemma append_others_names ccs l n : n ∈ cc_Name <$> foldl (append_other cfg existing) ccs l <->
  n ∈ cc_Name <$> ccs \/ n ∈ kc_Name <$> l /\ n <> ContainerName.
Proof.
  revert ccs. induction l as [|cn l IH]; intros ccs; cbn [foldl fmap list_fmap].
  - rewrite elem_of_nil. naive_solver.
  - rewrite IH, append_other_names, elem_of_cons. naive_solver.
Qed.

(** ** Services and annotated ports *)
Definition cports_ok : Prop := forall cn p, cn ∈ cns -> p ∈ kc_Ports cn -> fits 16 (cp_ContainerPort p).
Definition svc_ok (svc : Service) : Prop := forall p, p ∈ svc_Ports svc -> match spt_TargetPort p with FromInt32 n => fits 16 n | FromString _ => True end.

Lemma find_port_spec f l cn i : find_port f l = Some (cn, i) -> cn ∈ l /\ exists p, kc_Ports cn !! i = Some p /\ f p = true.
Proof.
  induction l as [|c l IH]; [discriminate|]. cbn [find_port]. destruct (list_find _ (kc_Ports c)) as [[j p]|] eqn:E.
  - intros [= -> ->]. apply list_find_Some in E as (Hl & Hf & _). split; [apply list_elem_of_here|eauto].
  - intros Hf. destruct (IH Hf) as [? ?]. split; [by apply list_elem_of_further|done].
Qed.
Lemma findContainerMatchingPort_in port cn i : findContainerMatchingPort port cns = Some (cn, i) -> cn ∈ cns /\
  match i with Some i => is_Some (kc_Ports cn !! i) | None => exists n, spt_TargetPort port = FromInt32 n end.
Proof.
  unfold findContainerMatchingPort. destruct (spt_TargetPort port) as [n|s].
  - destruct (find_port _ cns) as [[c j]|] eqn:E.
    + intros [= -> <-]. apply find_port_spec in E as (? & p & Hp & _). eauto.
    + destruct (list_find _ cns) as [[j c]|] eqn:E'; [|discriminate]. cbn. intros [= -> <-].
      apply list_find_Some in E' as (Hl & _). split; [by apply list_elem_of_lookup_2 in Hl|eauto].
  - destruct (find_port _ cns) as [[c j]|] eqn:E; [|discriminate]. cbn. intros [= -> <-].
    apply find_port_spec in E as (? & p & Hp & _). eauto.
Qed.
Lemma findContainerPort_in p cn a : findContainerPort cns p = Some (cn, a) -> cn ∈ cns /\ kc_Name cn <> ContainerName /\ a ∈ kc_Ports cn.
Proof.
  unfold findContainerPort. destruct (ProtoAndNameOrNumber p) as [[proto name] num]. clear. induction cns as [|c l IH]; [discriminate|].
  case_bool_decide as Hn; [intros Hf; destruct (IH Hf); split; [by apply list_elem_of_further|done]|].
  destruct (list_find _ (kc_Ports c)) as [[j q]|] eqn:E.
  - intros [= -> ->]. apply list_find_Some in E as (Hl & _). apply list_elem_of_lookup_2 in Hl. split; [apply list_elem_of_here|done].
  - intros Hf. destruct (IH Hf). split; [by apply list_elem_of_further|done].
Qed.
Lemma filterServicePorts_in svc pas p : p ∈ filterServicePorts svc pas -> p ∈ svc_Ports svc.
Proof.
  unfold filterServicePorts. destruct pas; [done|]. intros (pi & Hin & _)%list_elem_of_bind. by apply list_elem_of_filter in Hin as [_ ?].
Qed.
Lemma app_port_ok svc port cn i : cports_ok -> svc_ok svc -> port ∈ svc_Ports svc -> findContainerMatchingPort port cns = Some (cn, i) ->
  fits 16 (cp_ContainerPort (app_port port cn i)).
Proof.
  intros Hc Hs Hp Hf. apply findContainerMatchingPort_in in Hf as [Hin Hi]. unfold app_port. destruct i as [i|].
  - destruct Hi as [p Hl]. rewrite Hl. cbn. apply (Hc cn); [done|by apply list_elem_of_lookup_2 in Hl].
  - destruct Hi as [n Hn]. apply Hs in Hp. rewrite Hn in Hp |- *. done.
Qed.

(** The port of a service leads to the intercept [ic] of the container [n]. *)
Definition from_service (svc : Service) (port : ServicePort) (p : string * Intercept) : Prop :=
  exists cn i, findContainerMatchingPort port cns = Some (cn, i) /\ kc_Name cn <> ContainerName /\
    p = (kc_Name cn, service_intercept svc port (app_port port cn i) (ic_AgentPort p.2)).
Definition from_annotation (a : string) (p : string * Intercept) : Prop :=
  exists cn appPort, findContainerPort cns a = Some (cn, appPort) /\ p = (kc_Name cn, serviceless_intercept appPort (ic_AgentPort p.2)).

Lemma svc_step_built svc port st : cports_ok -> svc_ok svc -> port ∈ svc_Ports svc -> built st -> built (svc_port_step cfg existing cns svc st port).
Proof.
  intros Hc Hs Hp Hb. destruct st as [pns ccs]. unfold svc_port_step. destruct (findContainerMatchingPort port cns) as [[cn i]|] eqn:Hf; [|done].
  case_bool_decide as Hn; [done|]. pose proof (app_port_ok _ _ _ _ Hc Hs Hp Hf) as Hok.
  destruct (agentPortNumberFunc cfg pns _) as [pns' v] eqn:Ha. destruct Hb as [Hsh Hpo]. split; cbn [fst snd].
  - apply place_shaped; [by apply findContainerMatchingPort_in in Hf as [? _]|done|done].
  - apply (place_ported pns); cbn [service_intercept ic_ContainerPort ic_AgentPort]; [done|..]; by rewrite wrap_id.
Qed.
Lemma svc_step_ics svc port st p :
  (p ∈ ics_of (svc_port_step cfg existing cns svc st port).2 -> p ∈ ics_of st.2 \/ from_service svc port p) /\
  (p ∈ ics_of st.2 -> p ∈ ics_of (svc_port_step cfg existing cns svc st port).2).
Proof.
  destruct st as [pns ccs]. unfold svc_port_step. destruct (findContainerMatchingPort port cns) as [[cn i]|] eqn:Hf; [|by split; [left|]].
  case_bool_decide as Hn; [by split; [left|]|]. destruct (agentPortNumberFunc cfg pns _) as [pns' v]. cbn [snd]. rewrite place_ics.
  split; [|by left]. intros [?| ->]; [by left|]. right. exists cn, i. done.
Qed.
Lemma svc_step_covers svc port st cn i : findContainerMatchingPort port cns = Some (cn, i) -> kc_Name cn <> ContainerName ->
  exists v, (kc_Name cn, service_intercept svc port (app_port port cn i) v) ∈ ics_of (svc_port_step cfg existing cns svc st port).2.
Proof.
  intros Hf Hn. destruct st as [pns ccs]. unfold svc_port_step. rewrite Hf, bool_decide_false by done.
  destruct (agentPortNumberFunc cfg pns _) as [pns' v]. exists v. cbn [snd]. apply place_ics. by right.
Qed.

Lemma serviceless_step_built a cn appPort pns ccs pns' v : cports_ok -> findContainerPort cns a = Some (cn, appPort) ->
  agentPortNumberFunc cfg pns (cp_ContainerPort appPort) = (pns', v) -> built (pns, ccs) ->
  built (pns', place_serviceless cfg existing cn (serviceless_intercept appPort v) ccs).
Proof.
  intros Hc Hf Ha [Hsh Hpo]. apply findContainerPort_in in Hf as (Hin & Hn & Hp). pose proof (Hc _ _ Hin Hp) as Hok.
  assert (Hplace : built (pns', place_intercept cfg existing cn (serviceless_intercept appPort v) ccs)).
  { split; cbn [fst snd]; [by apply place_shaped|]. apply (place_ported pns); cbn [serviceless_intercept ic_ContainerPort ic_AgentPort]; [done|..]; by rewrite wrap_id. }
  unfold place_serviceless. destruct (list_find _ ccs) as [[j cc]|] eqn:Hl; [|done]. destruct (existsb _ _) eqn:He; [|done].
  apply existsb_exists in He as (eic & Hine & Heq). bools. apply list_elem_of_In in Hine. apply list_find_Some in Hl as (Hl & Hname & _).
  apply list_elem_of_lookup_2 in Hl. cbn [serviceless_intercept ic_ContainerPort] in Heq. rewrite wrap_id in Heq by done.
  assert (pns' = pns) as -> by (eapply (known_port pns ccs (cc_Name cc) eic); [done|apply ics_of_elem; eauto|exact Heq|exact Ha]). done.
Qed.
Lemma serviceless_step_ics cn ic ccs p :
  (p ∈ ics_of (place_serviceless cfg existing cn ic ccs) -> p ∈ ics_of ccs \/ p = (kc_Name cn, ic)) /\
  (p ∈ ics_of ccs -> p ∈ ics_of (place_serviceless cfg existing cn ic ccs)) /\
  (exists ic', (kc_Name cn, ic') ∈ ics_of (place_serviceless cfg existing cn ic ccs) /\ ic_ContainerPort ic' = ic_ContainerPort ic).
Proof.
  unfold place_serviceless. destruct (list_find _ ccs) as [[j cc]|] eqn:Hl.
  - destruct (existsb _ _) eqn:He.
    + split; [by left|]. split; [done|]. apply existsb_exists in He as (eic & Hine & Heq). bools. apply list_elem_of_In in Hine.
      apply list_find_Some in Hl as (Hl & Hname & _). apply list_elem_of_lookup_2 in Hl. exists eic. split; [|done]. apply ics_of_elem. eauto.
    + rewrite place_ics. split; [done|]. split; [by left|]. exists ic. split; [|done]. apply place_ics. by right.
  - rewrite place_ics. split; [done|]. split; [by left|]. exists ic. split; [|done]. apply place_ics. by right.
Qed.
End Built.

(** ** Generate *)
Section Theorems.
Context `{K8sApi, Cluster, MapOrder}.

Lemma svcs_built cfg existing cns pas svcs st : cports_ok cns -> (forall svc, svc ∈ svcs -> svc_ok svc) -> built cfg existing cns st ->
  built cfg existing cns (foldl (appendAgentContainerConfigs cfg existing cns pas) st svcs).
Proof.
  intros Hc Hs Hb. apply (foldl_inv (built cfg existing cns)); [|done]. intros st' svc Hin Hb'.
  apply (foldl_inv (built cfg existing cns)); [|done]. intros st2 port Hp Hb2.
  apply svc_step_built; [done|by apply Hs|by apply filterServicePorts_in in Hp|done].
Qed.
Lemma serviceless_built cfg existing cns pas st st' : cports_ok cns -> built cfg existing cns st ->
  appendServiceLessAgentContainerConfigs cfg existing cns pas st = Ret st' -> built cfg existing cns st'.
Proof.
  intros Hc. revert st. induction pas as [|a pas IH]; intros st Hb; [by intros [= <-]|].
  cbn [appendServiceLessAgentContainerConfigs]. destruct (findContainerPort cns a) as [[cn appPort]|] eqn:Hf.
  - destruct st as [pns ccs]. cbn [fst snd]. destruct (agentPortNumberFunc cfg pns _) as [pns' v] eqn:Ha. apply IH.
    by apply (serviceless_step_built cfg existing cns a cn appPort pns).
  - destruct (ProtoAndNameOrNumber a) as [[? ?] ?]. by case_match.
Qed.

(** The intercepts of a step come from its argument, and none is lost. *)
Lemma foldl_ics {B} (f : gmap Z Z * list ContainerConfig -> B -> gmap Z Z * list ContainerConfig) (Q : B -> string * Intercept -> Prop) l st :
  (forall st b p, (p ∈ ics_of (f st b).2 -> p ∈ ics_of st.2 \/ Q b p) /\ (p ∈ ics_of st.2 -> p ∈ ics_of (f st b).2)) ->
  (forall p, p ∈ ics_of (foldl f st l).2 -> p ∈ ics_of st.2 \/ exists b, b ∈ l /\ Q b p) /\
  (forall p, p ∈ ics_of st.2 -> p ∈ ics_of (foldl f st l).2) /\
  (forall b, b ∈ l -> exists st0, forall p, p ∈ ics_of (f st0 b).2 -> p ∈ ics_of (foldl f st l).2).
Proof.
  intros Hf. revert st. induction l as [|b l IH]; intros st; cbn [foldl].
  - split; [by left|]. split; [done|]. intros b Hb. by apply not_elem_of_nil in Hb.
  - destruct (IH (f st b)) as (Hs & Hk & Hc). split_and!.
    + intros p Hp. destruct (Hs p Hp) as [Hp'|(b' & Hb & Hq)].
      * apply Hf in Hp' as [?|?]; [by left|]. right. exists b. split; [apply list_elem_of_here|done].
      * right. exists b'. split; [by apply list_elem_of_further|done].
    + intros p Hp. by apply Hk, Hf.
    + intros b' [->|Hb]%elem_of_cons; [exists st; apply Hk|by apply Hc].
Qed.
Lemma svcs_ics cfg existing cns pas svcs st :
  let st' := foldl (appendAgentContainerConfigs cfg existing cns pas) st svcs in
  (forall p, p ∈ ics_of st'.2 -> p ∈ ics_of st.2 \/ exists svc port, svc ∈ svcs /\ port ∈ filterServicePorts svc pas /\ from_service cns svc port p) /\
  (forall svc port cn i, svc ∈ svcs -> port ∈ filterServicePorts svc pas -> findContainerMatchingPort port cns = Some (cn, i) -> kc_Name cn <> ContainerName ->
     exists v, (kc_Name cn, service_intercept svc port (app_port port cn i) v) ∈ ics_of st'.2).
Proof.
  cbv zeta.
  pose proof (foldl_ics (appendAgentContainerConfigs cfg existing cns pas)
    (fun svc p => exists port, port ∈ filterServicePorts svc pas /\ from_service cns svc port p) svcs st) as Hout.
  assert (Hin : forall st svc, _) by (intros st0 svc; exact (foldl_ics (svc_port_step cfg existing cns svc) (from_service cns svc) (filterServicePorts svc pas) st0 (fun st' port p => svc_step_ics cfg existing cns svc port st' p))).
  destruct Hout as (Hs & _ & Hc).
  { intros st0 svc p. destruct (Hin st0 svc) as (Hq1 & Hq2 & _). split; [apply Hq1|apply Hq2]. }
  split.
  - intros p Hp. destruct (Hs p Hp) as [?|(svc & ? & port & ? & ?)]; [by left|]. right. eauto.
  - intros svc port cn i Hsvc Hport Hf Hn. destruct (Hc svc Hsvc) as [st0 Hk0]. destruct (Hin st0 svc) as (_ & _ & Hc2).
    destruct (Hc2 port Hport) as [st1 Hk1]. destruct (svc_step_covers cfg existing cns svc port st1 cn i Hf Hn) as [v Hv].
    exists v. apply Hk0, Hk1, Hv.
Qed.
Lemma serviceless_ics cfg existing cns pas st st' : appendServiceLessAgentContainerConfigs cfg existing cns pas st = Ret st' ->
  (forall p, p ∈ ics_of st'.2 -> p ∈ ics_of st.2 \/ exists a, a ∈ pas /\ from_annotation cns a p) /\
  (forall p, p ∈ ics_of st.2 -> p ∈ ics_of st'.2) /\
  (forall a, a ∈ pas -> exists cn appPort ic, findContainerPort cns a = Some (cn, appPort) /\ (kc_Name cn, ic) ∈ ics_of st'.2 /\
     ic_ContainerPort ic = u16 (cp_ContainerPort appPort)).
Proof.
  revert st. induction pas as [|a pas IH]; intros st.
  - intros [= <-]. split; [by left|]. split; [done|]. intros a Ha. by apply not_elem_of_nil in Ha.
  - cbn [appendServiceLessAgentContainerConfigs]. destruct (findContainerPort cns a) as [[cn appPort]|] eqn:Hf.
    2: { destruct (ProtoAndNameOrNumber a) as [[? ?] ?]. by case_match. }
    destruct st as [pns ccs]. cbn [fst snd]. destruct (agentPortNumberFunc cfg pns _) as [pns' v] eqn:Ha. intros Hr.
    destruct (IH _ Hr) as (Hs & Hk & Hc). cbn [fst snd] in *. clear IH.
    pose proof (serviceless_step_ics cfg existing cn (serviceless_intercept appPort v) ccs) as Hst. split_and!.
    + intros p Hp. destruct (Hs p Hp) as [Hp'|(b & Hb & Hq)].
      * apply Hst in Hp' as [?| ->]; [by left|]. right. exists a. split; [apply list_elem_of_here|]. exists cn, appPort. done.
      * right. exists b. split; [by apply list_elem_of_further|done].
    + intros p Hp. by apply Hk, Hst.
    + intros b [->|Hb]%elem_of_cons; [|by apply Hc]. destruct (Hst (""%string, serviceless_intercept appPort v)) as (_ & _ & ic & Hin & He).
      exists cn, appPort, ic. split; [done|]. split; [by apply Hk|done].
Qed.

Definition pod_containers (wl : Workload) : list KContainer := ps_Containers (pt_Spec (wl_Template wl)).
Definition services_for (wl : Workload) : service_error + list Service :=
  FindServicesForPod (pod_of wl) (GetAnnotation (m_Annotations (pt_Meta (pod_of wl))) InjectServiceName LegacyInjectServiceName).
(** Ports as the cluster validates them. *)
Definition ports_valid (wl : Workload) : Prop :=
  cports_ok (pod_containers wl) /\ forall svcs svc, services_for wl = inr svcs -> svc ∈ svcs -> svc_ok svc.

Lemma Generate_Ret cfg wl existing cfg' sc : Generate cfg wl existing = (cfg', Ret sc) ->
  exists svcs ports cports st, let cns := pod_containers wl in
    services_for wl = inr svcs /\ service_port_annotation (pod_of wl) = Ret ports /\ portsFromContainerPortsAnnotation (pod_of wl) = Ret cports /\
    cfg' = set_policies cfg (gc_MountPolicies cfg') /\ AddAnnotations (gc_MountPolicies cfg) (m_Annotations (pt_Meta (wl_Template wl))) = Ret (gc_MountPolicies cfg') /\
    appendServiceLessAgentContainerConfigs cfg' existing cns cports (foldl (appendAgentContainerConfigs cfg' existing cns ports) (∅, []) svcs) = Ret st /\
    sc = sidecar_of cfg' wl (foldl (append_other cfg' existing) st.2 cns).
Proof.
  unfold Generate. destruct (selector_matches _ _); [discriminate|]. destruct (port_conflict _ _); [discriminate|].
  fold (services_for wl). destruct (services_for wl) as [e|svcs]; [discriminate|].
  destruct (service_port_annotation _) as [ports| |]; [|discriminate..].
  change (m_Annotations (pt_Meta (pod_of wl))) with (m_Annotations (pt_Meta (wl_Template wl))).
  destruct (AddAnnotations _ _) as [mps| |] eqn:Ea; [|discriminate..]. intros [= <- Hg].
  destruct (generate_containers _ _ _ _ _) as [ccs| |] eqn:Eg; [|discriminate..].
  unfold generate_containers in Eg. destruct (portsFromContainerPortsAnnotation _) as [cports| |]; [|discriminate..]. cbn [mbind go_bind] in Eg.
  set (st0 := foldl _ _ svcs) in *.
  assert (Hst : exists st, appendServiceLessAgentContainerConfigs (set_policies cfg mps) existing (pod_containers wl) cports st0 = Ret st /\ ccs = foldl (append_other (set_policies cfg mps) existing) st.2 (pod_containers wl)).
  { case_bool_decide as Hc.
    - subst cports. exists st0. split; [done|]. cbn [mbind go_bind] in Eg. destruct st0. by injection Eg.
    - change (ps_Containers (pt_Spec (pod_of wl))) with (pod_containers wl) in *.
      destruct (appendServiceLessAgentContainerConfigs _ _ _ _ _) as [[pns l]| |]; [|discriminate..]. cbn [mbind go_bind] in Eg. injection Eg as <-. by eexists. }
  destruct Hst as (st & Hst & ->). exists svcs, ports, cports, st. cbv zeta. split_and!; try done. by injection Hg.
Qed.

Lemma built_empty cfg existing cns : built cfg existing cns (∅, []).
Proof.
  split; [split; [apply NoDup_nil_2|done]|]. exists []. refine (conj (conj _ (conj _ _)) (conj _ _)); [apply NoDup_nil_2|done|..]; cbn [fst snd].
  - intros k v. rewrite lookup_empty. split; [done|]. by intros (i & Hi & _).
  - intros n ic Hin. by apply not_elem_of_nil in Hin.
  - intros k Hin. by apply not_elem_of_nil in Hin.
Qed.
Lemma Generate_built cfg wl existing cfg' sc : ports_valid wl -> Generate cfg wl existing = (cfg', Ret sc) ->
  exists pns, built cfg' existing (pod_containers wl) (pns, sf_Containers sc) /\ gc_AgentPort cfg' = gc_AgentPort cfg.
Proof.
  intros [Hc Hs] Hg. destruct (Generate_Ret _ _ _ _ _ Hg) as (svcs & ports & cports & st & Hsv & _ & _ & Hcfg & _ & Hst & ->).
  exists st.1. split; [|by rewrite Hcfg]. apply append_others_built; [done|]. rewrite <- surjective_pairing.
  apply (serviceless_built _ _ _ _ _ _ Hc) in Hst; [done|]. apply svcs_built; [done| |apply built_empty]. intros svc. by apply Hs.
Qed.

Lemma replace_policy_kept existing cn :
  (forall old cc0, existing = Some old -> NoDup (cc_Name <$> sf_Containers old) -> cc0 ∈ sf_Containers old -> cc_Name cc0 = kc_Name cn ->
     containerReplacePolicy existing cn = cc_Replace cc0) /\
  ((forall old, existing = Some old -> kc_Name cn ∉ cc_Name <$> sf_Containers old) -> containerReplacePolicy existing cn = ReplacePolicyIntercept).
Proof.
  unfold containerReplacePolicy. split.
  - intros old cc0 -> Hn [i Hi]%list_elem_of_lookup E. destruct (list_find _ _) as [[j cc]|] eqn:F.
    + apply list_find_Some in F as (Hj & Ej & _). assert (i = j) as ->; [|congruence].
      apply (NoDup_lookup (cc_Name <$> sf_Containers old) i j (kc_Name cn) Hn); rewrite list_lookup_fmap; [by rewrite Hi, <- E|by rewrite Hj, <- Ej].
    + apply list_find_None in F. rewrite Forall_forall in F. destruct (F cc0); [by apply list_elem_of_lookup_2 in Hi|done].
  - intros Hno. destruct existing as [old|]; [|done]. specialize (Hno old eq_refl). destruct (list_find _ _) as [[j cc]|] eqn:F; [|done].
    apply list_find_Some in F as (Hj & Ej & _). destruct Hno. rewrite <- Ej. apply list_elem_of_fmap_2. by eapply list_elem_of_lookup_2.
Qed.
(** C38. A configuration that is generated for a workload whose port numbers are in range and
    fewer than 2^64 containers has one entry for each container of the pod other than the
    agent's, under its name, with its own mount point and a prefix for environment variables
    that no other container has.  Its replace policy is that of the entry of the same name in
    the earlier configuration, when names are unique there, and "intercept" when there is no
    such entry. *)
Theorem Generate_containers (cfg : GeneratorConfig) (wl : Workload) (existing : option SidecarConfig) (cfg' : GeneratorConfig) (sc : SidecarConfig) :
  ports_valid wl -> Z.of_nat (length (sf_Containers sc)) < 2 ^ 64 -> Generate cfg wl existing = (cfg', Ret sc) ->
  NoDup (cc_Name <$> sf_Containers sc) /\ NoDup (cc_EnvPrefix <$> sf_Containers sc) /\
  (forall n, n ∈ cc_Name <$> sf_Containers sc <-> n ∈ kc_Name <$> pod_containers wl /\ n <> ContainerName) /\
  (forall cc, cc ∈ sf_Containers sc -> exists cn, cn ∈ pod_containers wl /\ cc_Name cc = kc_Name cn /\
     cc_MountPoint cc = MountPrefixApp +:+ "/" +:+ kc_Name cn /\
     (forall old cc0, existing = Some old -> NoDup (cc_Name <$> sf_Containers old) -> cc0 ∈ sf_Containers old -> cc_Name cc0 = cc_Name cc -> cc_Replace cc = cc_Replace cc0) /\
     ((forall old, existing = Some old -> cc_Name cc ∉ cc_Name <$> sf_Containers old) -> cc_Replace cc = ReplacePolicyIntercept)).
Proof.
  intros Hv Hlen Hg. destruct (Generate_built _ _ _ _ _ Hv Hg) as (pns & [[Hn Hh] _] & _). cbn [fst snd] in *.
  assert (Hof : forall i cc, sf_Containers sc !! i = Some cc -> of_container cfg' existing (pod_containers wl) i (cc_head cc)).
  { intros i cc Hi. apply Hh. by rewrite list_lookup_fmap, Hi. }
  assert (Hmem : forall cc, cc ∈ sf_Containers sc -> exists i, of_container cfg' existing (pod_containers wl) i (cc_head cc)).
  { intros cc [i Hi]%list_elem_of_lookup_1. eauto. }
  split_and!; [done|..].
  - apply NoDup_alt. intros i j x Hi Hj. rewrite list_lookup_fmap_Some in Hi, Hj. destruct Hi as (ci & -> & Hi), Hj as (cj & He & Hj).
    pose proof (lookup_lt_Some _ _ _ Hi). pose proof (lookup_lt_Some _ _ _ Hj).
    apply Hof in Hi as (cn & _ & _ & Hi). apply Hof in Hj as (cn' & _ & _ & Hj).
    apply (f_equal cc_EnvPrefix) in Hi, Hj. cbn [cc_head cc_EnvPrefix newContainerConfig] in Hi, Hj. rewrite Hi, Hj in He.
    apply app_last_inj in He as [He _]. apply CapsBase26_inj in He; lia.
  - destruct (Generate_Ret _ _ _ _ _ Hg) as (svcs & ports & cports & st & _ & _ & _ & _ & _ & _ & Hsc). intros n. split.
    + intros (cc & -> & Hcc)%list_elem_of_fmap. destruct (Hmem _ Hcc) as (i & cn & Hin & Hne & He). apply (f_equal cc_Name) in He. cbn in He.
      rewrite He. split; [by apply list_elem_of_fmap_2|done].
    + intros Hn'. rewrite Hsc. cbn [sf_Containers sidecar_of]. apply append_others_names. by right.
  - intros cc Hcc. destruct (Hmem _ Hcc) as (i & cn & Hin & _ & He). exists cn. split; [done|].
    assert (cc_Name cc = kc_Name cn) as En by (by apply (f_equal cc_Name) in He). assert (cc_Replace cc = containerReplacePolicy existing cn) as Er by (by apply (f_equal cc_Replace) in He).
    rewrite En, Er. destruct (replace_policy_kept existing cn) as [R1 R2]. split_and!; [done|by apply (f_equal cc_MountPoint) in He|exact R1|exact R2].
Qed.

Definition intercepts_of (sc : SidecarConfig) : list (string * Intercept) := ics_of (sf_Containers sc).
Lemma possible_intercepts sc : numberOfPossibleIntercepts (plain sc) = Z.of_nat (length (intercepts_of sc)).
Proof.
  unfold numberOfPossibleIntercepts, intercepts_of, plain. cbn [sc_Containers].
  assert (Hacc : forall l a, foldl (fun count c => count + Z.of_nat (length (cn_Intercepts c))) a (plain_container <$> l) = a + Z.of_nat (length (ics_of l))).
  { intros l. induction l as [|cc l IH]; intros a; cbn [fmap list_fmap foldl]; [cbn; lia|]. rewrite IH.
    change (ics_of (cc :: l)) with ((pair (cc_Name cc) <$> cc_Intercepts cc) ++ ics_of l). rewrite length_app, length_fmap. cbn [plain_container cn_Intercepts]. lia. }
  rewrite Hacc. lia.
Qed.
(** The numbering, when the agent's ports do not run past the last port number. *)
Lemma Generate_numbering cfg wl existing cfg' sc : ports_valid wl -> Generate cfg wl existing = (cfg', Ret sc) ->
  0 <= gc_AgentPort cfg -> gc_AgentPort cfg + Z.of_nat (length (intercepts_of sc)) <= 2 ^ 16 ->
  exists ks : list Z, NoDup ks /\ (length ks <= length (intercepts_of sc))%nat /\
    forall n ic, (n, ic) ∈ intercepts_of sc -> fits 16 (ic_ContainerPort ic) /\
      exists i, ks !! i = Some (ic_ContainerPort ic) /\ ic_AgentPort ic = gc_AgentPort cfg + Z.of_nat i.
Proof.
  intros Hv Hg Hap Hle. destruct (Generate_built _ _ _ _ _ Hv Hg) as (pns & [_ (ks & (Hnd & Hsz & Hk) & Hics & Hks)] & HAP). cbn [fst snd] in *.
  exists ks. assert (Hlen : (length ks <= length (intercepts_of sc))%nat).
  { rewrite <- (length_fmap (ic_ContainerPort ∘ snd) (intercepts_of sc)). apply submseteq_length, NoDup_submseteq; [done|].
    intros k Hin. destruct (Hks k Hin) as (n & ic & Hi & <-). apply list_elem_of_fmap. by exists (n, ic). }
  split_and!; [done|done|]. intros n ic Hin. destruct (Hics _ _ Hin) as [Hf Hl]. split; [done|]. apply Hk in Hl as (i & Hi & ->).
  exists i. split; [done|]. apply lookup_lt_Some in Hi. unfold agent_nr. rewrite HAP. rewrite (wrap_id 16 (Z.of_nat i)), wrap_id; unfold fits; lia.
Qed.


(** A target holds the intercepts of one container on the port. *)
Lemma target_of_container sc port proto c it : sc_InterceptTarget (plain sc) port proto = Some (c, it) ->
  exists cc, cc ∈ sf_Containers sc /\ it <> [] /\
    forall ic, ic ∈ it -> ic ∈ cc_Intercepts cc /\ ic_ContainerPort ic = port /\ ic_Protocol ic = proto.
Proof.
  unfold sc_InterceptTarget. cbn [plain sc_Containers]. induction (sf_Containers sc) as [|cc l IH]; [discriminate|].
  cbn [fmap list_fmap containers_loop]. rewrite target_loop_filter. cbn [plain_container cn_Intercepts].
  destruct (filter _ (cc_Intercepts cc)) as [|z rest] eqn:Hf.
  - intros Ht. destruct (IH Ht) as (cc' & ? & ?). exists cc'. split; [by apply list_elem_of_further|done].
  - intros [= _ <-]. exists cc. split; [apply list_elem_of_here|]. split; [done|]. intros ic Hin. rewrite <- Hf in Hin.
    apply list_elem_of_filter in Hin as [Hon Hin]. unfold on_port in Hon. by bools.
Qed.

(** The groups of a container are its intercepts on a port, in their order. *)
Lemma MakeInterceptStates_groups cn k it :
  MakeInterceptStates cn !! k = Some it <-> it = filter (fun ic => state_key cn ic = k) (cn_Intercepts cn) /\ it <> [].
Proof.
  unfold MakeInterceptStates. revert it. induction (cn_Intercepts cn) as [|ic l IH] using rev_ind; intros it.
  { cbn. rewrite lookup_empty. split; [done|]. by intros [-> ?]. }
  rewrite foldl_app, filter_app. cbn [foldl]. set (m := foldl _ ∅ l) in *.
  assert (default [] (m !! k) = filter (fun ic => state_key cn ic = k) l) as Hd.
  { clearbody m. pose proof (fun g => proj1 (IH g)) as Hto. pose proof (fun Hne => proj2 (IH _) (conj eq_refl Hne)) as Hfrom.
    destruct (m !! k) as [g|]; [by destruct (Hto g eq_refl) as [-> _]|]. cbn [default from_option].
    destruct (filter _ l) as [|x g]; [done|]. by specialize (Hfrom ltac:(done)). }
  destruct (decide (state_key cn ic = k)) as [E|Hne].
  - rewrite E, lookup_insert_eq, Hd, filter_cons_True by done. change (filter _ []) with (@nil Intercept).
    split; [intros [= <-]; split; [done|by destruct (filter _ l)]|by intros [-> _]].
  - rewrite lookup_insert_ne by done. rewrite filter_cons_False by done. change (filter _ []) with (@nil Intercept). rewrite app_nil_r. apply IH.
Qed.

(** The intercepts are those that the ports of the services and the annotated container
    ports lead to: each such port of a service has its intercept in the container that
    declares the port, each annotated port has an intercept for its number, and no
    intercept has another origin. *)
Theorem Generate_intercepts (cfg : GeneratorConfig) (wl : Workload) (existing : option SidecarConfig) (cfg' : GeneratorConfig) (sc : SidecarConfig) :
  Generate cfg wl existing = (cfg', Ret sc) ->
  exists svcs ports cports, services_for wl = inr svcs /\ service_port_annotation (pod_of wl) = Ret ports /\
    portsFromContainerPortsAnnotation (pod_of wl) = Ret cports /\
    (forall svc port cn i, svc ∈ svcs -> port ∈ filterServicePorts svc ports -> findContainerMatchingPort port (pod_containers wl) = Some (cn, i) ->
       kc_Name cn <> ContainerName -> exists v, (kc_Name cn, service_intercept svc port (app_port port cn i) v) ∈ intercepts_of sc) /\
    (forall a, a ∈ cports -> exists cn appPort ic, findContainerPort (pod_containers wl) a = Some (cn, appPort) /\
       (kc_Name cn, ic) ∈ intercepts_of sc /\ ic_ContainerPort ic = u16 (cp_ContainerPort appPort)) /\
    (forall p, p ∈ intercepts_of sc ->
       (exists svc port, svc ∈ svcs /\ port ∈ filterServicePorts svc ports /\ from_service (pod_containers wl) svc port p) \/
       (exists a, a ∈ cports /\ from_annotation (pod_containers wl) a p)).
Proof.
  intros Hg. destruct (Generate_Ret _ _ _ _ _ Hg) as (svcs & ports & cports & st & Hsv & Hpo & Hcp & _ & _ & Hst & Hsc).
  exists svcs, ports, cports. unfold intercepts_of. rewrite Hsc. cbn [sf_Containers sidecar_of]. rewrite append_others_ics.
  apply serviceless_ics in Hst as (Hs & Hk & Hc).
  destruct (svcs_ics cfg' existing (pod_containers wl) ports svcs (∅, [])) as (Hs' & Hc'). split_and!; [done..| | |].
  - intros svc port cn i Hq1 Hq2 Hq3 Hq4. destruct (Hc' svc port cn i Hq1 Hq2 Hq3 Hq4) as [v Hv]. exists v. by apply Hk.
  - exact Hc.
  - intros p Hp. destruct (Hs p Hp) as [Hp'|?]; [|by right]. left. destruct (Hs' p Hp') as [Hn|?]; [by apply not_elem_of_nil in Hn|done].
Qed.
End Theorems.

(** * A cluster on which the theorems about discovery and generation apply, and the inputs on
      which the code does what it does not mean to *)
Local Existing Instance K8sRef.

Definition no_settings : AgentSettings := mkSettings 0 None None "" [] None None [] 0 0 false false.
Definition sample_cfg : GeneratorConfig := mkGC 8081 9900 0 "tel2:2.20" "ambassador" "cluster.local." (Some {[ "/tmp" := MountPolicyLocal ]}) no_settings.
Definition plain_cn (name : string) (ports : list CPort) (vms : list VolumeMount) : KContainer :=
  mkKC name "img" [] ports None [] vms None None None None.
Definition vol (name path : string) : VolumeMount := mkVM name path "" "" false None.
Definition web_cn : KContainer := plain_cn "web" [mkCPort "http" 8080 "TCP"; mkCPort "admin" 8081 "TCP"] [vol "data" "/data"; vol "scratch" "/tmp"].
Definition db_cn : KContainer := plain_cn "db" [] [].
Definition wl_with (anns : gmap string string) (cns : list KContainer) : Workload :=
  mkWL DeploymentKind (mkMeta "shop" "ns" "u1" None None [])
    (mkPT (mkMeta "shop" "" "" (Some {[ "app" := "shop" ]}) (Some anns) []) (mkPodSpec cns [] None [] None)) 1.
Definition shop : Workload := wl_with ∅ [web_cn; db_cn].
Definition shop_svc : Service :=
  mkSvc "shop" "ns" "svc-1" {[ "app" := "shop" ]}
    [mkSP "http" "TCP" 80 (FromString "http") None; mkSP "alt" "TCP" 8000 (FromInt32 8080) (Some "http"); mkSP "admin" "TCP" 81 (FromInt32 8081) None].

Definition cluster_with (svcs : list Service) (wls : list Workload) : Cluster := {|
  has_informer := fun _ => true;
  cache_workload := fun kind name ns =>
    match list_find (fun wl => wl_Kind wl = kind /\ m_Name (wl_Meta wl) = name /\ m_Namespace (wl_Meta wl) = ns) wls with
    | Some (_, wl) => inr wl | None => inl (NotFound name) end;
  api_workload := fun _ name _ => inl (NotFound name);
  get_service := fun name ns => match list_find (fun s => svc_Name s = name /\ svc_Namespace s = ns) svcs with Some (_, s) => inr s | None => inl (NotFound name) end;
  list_services := fun ns => inr (filter (fun s => svc_Namespace s = ns) svcs);
  selector_matches := fun sel lbs => bool_decide (map_Forall (fun k v => lbs !! k = Some v) sel)
|}.
Lemma cluster_with_laws svcs wls : @SelectorLaws (cluster_with svcs wls).
Proof.
  intros sel lbs. cbn [selector_matches cluster_with]. rewrite bool_decide_eq_true, map_subseteq_spec. done.
Qed.
Definition sorted_visits : MapOrder := fun _ _ m => map_to_list m.

Definition sample_run (svcs : list Service) (cfg : GeneratorConfig) (wl : Workload) : GeneratorConfig * Go gen_error SidecarConfig :=
  @Generate K8sRef (cluster_with svcs []) sorted_visits cfg wl None.
Definition shop_cfg : GeneratorConfig := (sample_run [shop_svc] sample_cfg shop).1.
Definition shop_sidecar : SidecarConfig :=
  match (sample_run [shop_svc] sample_cfg shop).2 with Ret sc => sc | _ => sidecar_of sample_cfg shop [] end.
Lemma shop_run : @Generate K8sRef (cluster_with [shop_svc] []) sorted_visits sample_cfg shop None = (shop_cfg, Ret shop_sidecar).
Proof. vm_compute. reflexivity. Qed.
Example shop_summary :
  (fun '(n, ic) => (n, ic_ServicePort ic, ic_ContainerPort ic, ic_AgentPort ic)) <$> intercepts_of shop_sidecar =
    [("web", 80, 8080, 9900); ("web", 8000, 8080, 9900); ("web", 81, 8081, 9901)] /\
  (fun cc => (cc_Name cc, cc_EnvPrefix cc, cc_MountPaths cc)) <$> sf_Containers shop_sidecar = [("web", "A_", ["/data"]); ("db", "B_", [])] /\
  sf_ManagerHost shop_sidecar = "traffic-manager.ambassador.svc.cluster.local".
Proof. vm_compute. done. Qed.

Definition list_ok {A} (f : A -> bool) (l : list A) : forallb f l = true -> forall x, x ∈ l -> f x = true.
Proof. intros H x Hx. rewrite forallb_forall in H. by apply H, list_elem_of_In. Defined.
Definition fits16b (k : Z) : bool := (0 <=? k) && (k <? 65536).
Lemma fits16b_spec k : fits16b k = true -> fits 16 k.
Proof. unfold fits16b, fits. intros H. bools. lia. Qed.
Lemma shop_ports_valid : @ports_valid (cluster_with [shop_svc] []) shop.
Proof.
  split.
  - intros cn p Hcn Hp. apply fits16b_spec. revert p Hp. apply list_ok. revert cn Hcn.
    apply (list_ok (fun cn => forallb (fun p => fits16b (cp_ContainerPort p)) (kc_Ports cn))). vm_compute. reflexivity.
  - intros svcs svc Hs Hin. assert (Hs' : @services_for (cluster_with [shop_svc] []) shop = inr [shop_svc]) by (vm_compute; reflexivity).
    rewrite Hs' in Hs. injection Hs as <-. apply list_elem_of_singleton in Hin. subst svc. intros p Hp.
    assert (Hb : (match spt_TargetPort p with FromInt32 n => fits16b n | FromString _ => true end) = true).
    { revert p Hp. apply list_ok. vm_compute. reflexivity. }
    destruct (spt_TargetPort p); [by apply fits16b_spec|done].
Qed.

Lemma Generate_containers_witness :
  NoDup (cc_EnvPrefix <$> sf_Containers shop_sidecar) /\ "web" ∈ cc_Name <$> sf_Containers shop_sidecar.
Proof.
  destruct (@Generate_containers K8sRef (cluster_with [shop_svc] []) sorted_visits sample_cfg shop None shop_cfg shop_sidecar) as (_ & Hp & Hn & _).
  - exact shop_ports_valid.
  - vm_compute. reflexivity.
  - exact shop_run.
  - split; [exact Hp|]. apply Hn. decide_it.
Defined.
Lemma Generate_intercepts_witness : exists v, ("web", service_intercept shop_svc (mkSP "http" "TCP" 80 (FromString "http") None) (mkCPort "http" 8080 "TCP") v) ∈ intercepts_of shop_sidecar.
Proof.
  destruct (@Generate_intercepts K8sRef (cluster_with [shop_svc] []) sorted_visits sample_cfg shop None shop_cfg shop_sidecar shop_run) as (svcs & ports & cports & Hs & Hp & _ & Hc & _).
  apply (Hc shop_svc (mkSP "http" "TCP" 80 (FromString "http") None) web_cn (Some 0%nat)).
  - assert (Hs' : @services_for (cluster_with [shop_svc] []) shop = inr [shop_svc]) by (vm_compute; reflexivity).
    rewrite Hs' in Hs. injection Hs as <-. apply list_elem_of_here.
  - assert (Hp' : @service_port_annotation K8sRef (pod_of shop) = Ret []) by (vm_compute; reflexivity).
    rewrite Hp' in Hp. injection Hp as <-. apply list_elem_of_here.
  - vm_compute. reflexivity.
  - discriminate.
Defined.

(** ** Where the code does not do what it means to *)
Definition annotated (k v : string) : gmap string string := {[ k := v ]}.

(** A port number that no container declares: "if possible, we synthesize one", but there
    is no container to add it to. *)
Example unknown_port_panics : (sample_run [shop_svc] sample_cfg (wl_with (annotated InjectContainerPorts "9090") [web_cn; db_cn])).2 = Panic.
Proof. vm_compute. reflexivity. Qed.

(** One generator is used for all workloads of a namespace: the annotation of the first
    becomes a policy of the next, which has none. *)
Definition hide_data : gmap string string := annotated InjectIgnoreVolumeMounts "data".
Example policies_leak :
  let cfg := (sample_run [shop_svc] sample_cfg (wl_with hide_data [web_cn])).1 in
  (exists sc, (sample_run [shop_svc] sample_cfg shop).2 = Ret sc /\ (cc_MountPaths <$> sf_Containers sc) = [["/data"]; []]) /\
  (exists sc, (sample_run [shop_svc] cfg shop).2 = Ret sc /\ (cc_MountPaths <$> sf_Containers sc) = [[]; []]).
Proof. vm_compute. split; eexists; done. Qed.

(** An invalid annotation makes the generator forget all policies, and the next workload
    with a valid one panics. *)
Definition bad_policies : gmap string string := annotated VolumeMountPolicies "{".
Example bad_annotation_clears_policies :
  let '(cfg, r) := sample_run [shop_svc] sample_cfg (wl_with bad_policies [web_cn]) in
  r = Fail (GenPolicy ErrPolicyJson) /\ gc_MountPolicies cfg = None /\
  (sample_run [shop_svc] cfg (wl_with hide_data [web_cn])).2 = Panic.
Proof. vm_compute. done. Qed.

(** Only the agent's first port is compared with those of the containers. *)
Definition busy_cn : KContainer := plain_cn "busy" [mkCPort "metrics" 9901 "TCP"] [].
Example second_agent_port_collides :
  exists sc, (sample_run [shop_svc] sample_cfg (wl_with ∅ [web_cn; busy_cn])).2 = Ret sc /\
    9901 ∈ (ic_AgentPort ∘ snd) <$> intercepts_of sc /\ 9901 ∈ cp_ContainerPort <$> kc_Ports busy_cn.
Proof. eexists. split; [vm_compute; reflexivity|]. split; decide_it. Qed.

(** An annotated UDP port is left out when the container has a TCP port of that number. *)
Definition dns_cn : KContainer := plain_cn "web" [mkCPort "http" 8080 "TCP"; mkCPort "udp" 8080 "UDP"] [].
Example annotated_udp_port_dropped :
  exists sc, (sample_run [shop_svc] sample_cfg (wl_with (annotated InjectContainerPorts "8080/UDP") [dns_cn])).2 = Ret sc /\
    Forall (fun p => ic_Protocol p.2 = ProtoTCP) (intercepts_of sc) /\ findContainerPort [dns_cn] "8080/UDP" = Some (dns_cn, mkCPort "udp" 8080 "UDP").
Proof. eexists. split; [vm_compute; reflexivity|]. split; [decide_it|vm_compute; reflexivity]. Qed.

(** A service port without a target port, and a container that declares none: the port
    number of the intercept is 0, not that of the service. *)
Definition default_svc : Service := mkSvc "db" "ns" "svc-2" {[ "app" := "shop" ]} [mkSP "" "TCP" 5432 (FromInt32 0) None].
Example default_target_port_lost :
  exists sc, (sample_run [default_svc] sample_cfg (wl_with ∅ [db_cn])).2 = Ret sc /\ (ic_ContainerPort ∘ snd) <$> intercepts_of sc = [0].
Proof. eexists. split; vm_compute; reflexivity. Qed.

(** ** Discovery *)
Definition rs_meta (owners : list OwnerReference) (name : string) : ObjectMeta := mkMeta name "ns" "" None None owners.
Definition shop_rs : Workload := mkWL ReplicaSetKind (rs_meta [mkOR DeploymentKind "shop" (Some true)] "shop-5d9c") (wl_Template shop) 1.
Definition shop_pod : Object := ObjPod (rs_meta [mkOR ReplicaSetKind "shop-5d9c" (Some true)] "shop-5d9c-x1").
Definition shop_cluster : Cluster := cluster_with [shop_svc] [shop; shop_rs].
Definition kinds3 : list string := [DeploymentKind; ReplicaSetKind; StatefulSetKind].
(** Replica sets are owned by deployments, and those by nothing. *)
Definition kind_rank (wl : Workload) : nat := if bool_decide (controller (wl_Meta wl) = None) then 0 else 1.
Lemma shop_lookup name ns kind wl : @GetWorkload shop_cluster name ns kind = inr wl -> wl = shop \/ wl = shop_rs.
Proof.
  assert (Hc : forall k, @cache_workload shop_cluster k name ns = inr wl -> wl = shop \/ wl = shop_rs).
  { intros k. cbn [cache_workload shop_cluster cluster_with]. destruct (list_find _ _) as [[i w]|] eqn:E; [|discriminate].
    intros [= <-]. apply list_find_Some in E as (Hl & _). apply list_elem_of_lookup_2 in Hl.
    apply elem_of_cons in Hl as [?|Hl]; [by left|]. apply list_elem_of_singleton in Hl. by right. }
  unfold GetWorkload. cbn [has_informer shop_cluster cluster_with negb]. unfold getWorkload, k8sapi_GetWorkload, by_kind.
  destruct (Kinds_Contains KnownWorkloadKinds kind).
  - destruct (cache_workload kind name ns) as [e|w] eqn:E; [destruct (IsNotFound e); discriminate|]. intros Hr. apply (Hc kind). rewrite E. exact Hr.
  - case_bool_decide; [|discriminate]. destruct (first_found _ KnownWorkloadKinds name ns) as [e|w] eqn:E; [destruct (IsNotFound e); discriminate|].
    intros Hr. assert (w = wl) as -> by congruence. apply first_found_get in E as [k Hk]. exact (Hc k Hk).
Qed.
Lemma FindOwner_terminates_witness : exists n r, forall fuel, (n <= fuel)%nat -> @FindOwnerWorkload shop_cluster fuel shop_pod kinds3 = Some r.
Proof.
  apply (@FindOwner_terminates shop_cluster kinds3 kind_rank). intros wl wl' Hin (r & Hc & Hk & Hg).
  destruct Hin as (name & ns & kind & Hwl). apply shop_lookup in Hwl as [->| ->]; [vm_compute in Hc; discriminate|].
  vm_compute in Hc. injection Hc as <-. vm_compute in Hg. injection Hg as <-. vm_compute. lia.
Defined.
Example shop_owner : @FindOwnerWorkload shop_cluster 3 shop_pod kinds3 = Some (inr shop).
Proof. vm_compute. reflexivity. Qed.
