(* ===== verification/AgentContainer.v ===== *)
(** * The containers and volumes that are injected (src/pkg/agentconfig/container.go,
      initcontainer.go, volumes.go, sidecar.go)

    [AgentContainer] builds the traffic-agent's container from the configuration and the
    pod; [AgentVolumes] the volumes it mounts; [InitContainer] the container that sets up
    the routing of numeric ports.  Port names, group ids and [prefixInterpolated] are those
    of [AgentBuild].  The texts that a container or a configuration has as JSON are
    operations of [ObjectJson]. *)
From S2P Require Import Prelude NetIP GoStrings GoText GoJson PortTypes Matcher Icept Policies AgentConfig Kube Discovery Generator.
From Stdlib Require Import Ascii.
Local Open Scope Z_scope.

Class ObjectJson := {
  container_json : KContainer -> string;
  container_of_json : string -> option KContainer;
  sidecar_json : SidecarConfig -> string;
  sidecar_of_json : string -> option SidecarConfig
}.
(** Writing and reading are inverse. *)
Class ObjectJsonLaws `{ObjectJson} : Prop := {
  container_json_roundtrip : forall c, container_of_json (container_json c) = Some c;
  sidecar_json_roundtrip : forall s, sidecar_of_json (sidecar_json s) = Some s
}.

Definition EnvPrefixAgent : string := "_TEL_AGENT_".
Definition EnvPrefixApp : string := "_TEL_APP_".
Definition EnvAPIHost : string := "TELEPRESENCE_API_HOST".
Definition EnvAPIPort : string := "TELEPRESENCE_API_PORT".
Definition PodInfoVolumeName : string := "pod-info".
Definition ExportsVolumeName : string := "export-volume".
Definition TempVolumeName : string := "tel-agent-tmp".
Definition DownstreamTLSVolumePath : string := "/downstream-tls".
Definition zero_container : KContainer := mkKC "" "" [] [] None [] [] None None None None.

(** [MarshalTight]: what is not needed once the container exists is left out. *)
Definition tight (sc : SidecarConfig) : SidecarConfig :=
  let s := sf_Settings sc in
  mkSidecarConfig (sf_Manual sc) EmptyString (sf_AgentName sc) (sf_Namespace sc) (sf_WorkloadName sc) (sf_WorkloadKind sc)
    (sf_ManagerHost sc) (sf_ManagerPort sc) (sf_APIPort sc) (sf_MountPolicies sc) (sf_Containers sc)
    (mkSettings (st_LogLevel s) None (st_Resources s) EmptyString [] None None (st_MeshDialSubnets s) (st_ClientConnectionTTL s)
       (st_WatchRetryInterval s) (st_EnableH2cProbing s) (st_EnableMetrics s)).
Definition MarshalTight `{ObjectJson} (sc : SidecarConfig) : string := sidecar_json (tight sc).

(** ** Environment *)
(** The text up to the next closing parenthesis, and the rest after it. *)
Definition upto_paren (s : string) : option (string * string) :=
  ix ← IndexByte s ")"; Some (str_take ix s, str_drop (S ix) s).
(** [envRxReplace.ReplaceAllString(s, "$(" + pfx + "$1)")]: matches of "$(", one or more
    characters that do not close, ")". *)
Fixpoint env_replace_loop (fuel : nat) (pfx s : string) : string :=
  match fuel, s with
  | S fuel, String a r =>
      match a, r with
      | "$"%char, String "(" r' =>
          match upto_paren r' with
          | Some (String b name, rest) => "$(" +:+ pfx +:+ String b name +:+ ")" +:+ env_replace_loop fuel pfx rest
          | _ => String a (env_replace_loop fuel pfx r)
          end
      | _, _ => String a (env_replace_loop fuel pfx r)
      end
  | _, _ => s
  end.
Definition env_replace (pfx s : string) : string := env_replace_loop (String.length s) pfx s.

Definition appendAppContainerEnv (app : KContainer) (cc : ContainerConfig) (es : list EnvVar) : list EnvVar :=
  let pfx := EnvPrefixApp +:+ cc_EnvPrefix cc in
  es ++ ((fun e => mkEnv (pfx +:+ env_Name e) (env_replace pfx (env_Value e)) (env_ValueFrom e)) <$> default [] (kc_Env app)).
Definition appendAppContainerEnvFrom (app : KContainer) (cc : ContainerConfig) (es : list EnvFrom) : list EnvFrom :=
  es ++ ((fun e => mkEF (EnvPrefixApp +:+ cc_EnvPrefix cc +:+ ef_Prefix e) (ef_Source e)) <$> kc_EnvFrom app).

(** ** Mounts and secrets *)
Section Build.
Context `{K8sApi, ObjectJson, MapOrder}.

Definition RecursiveReadOnlyIfPossible : string := "IfPossible".
Fixpoint appendVolumeMounts (policies : MountPolicies) (cc : ContainerConfig) (i : nat) (vms : list VolumeMount) : list VolumeMount :=
  match vms with
  | [] => []
  | m :: vms =>
      let mp := Policies_Get (visit_order (cc_Name cc) i (entries policies)) (vm_Name m) (vm_MountPath m) in
      let rest := appendVolumeMounts policies cc (S i) vms in
      if (mp =? MountPolicyIgnore) || (mp =? MountPolicyLocal) then rest
      else
        let pfx := EnvPrefixApp +:+ cc_EnvPrefix cc in
        let '(ro, rro) := if (mp =? MountPolicyRemoteReadOnly) && negb (vm_ReadOnly m) then (true, Some RecursiveReadOnlyIfPossible)
                          else (vm_ReadOnly m, vm_RecursiveReadOnly m) in
        mkVM (prefixInterpolated (vm_Name m) pfx)
          (prefixInterpolated (cc_MountPoint cc +:+ "/" +:+ TrimPrefix (vm_MountPath m) "/") pfx)
          (prefixInterpolated (vm_SubPath m) pfx) (prefixInterpolated (vm_SubPathExpr m) pfx) ro rro :: rest
  end.

Inductive build_error := MissingPortSuffix (prefix : string) | EmptyPortSuffix (key : string) | InvalidPortSuffix (key : string).
(** The annotations [<prefix>.<port>]: for each value (a secret) its ports. *)
Definition add_port (m : gmap string (list Z)) (secret : string) (p : Z) : gmap string (list Z) :=
  <[secret := default [] (m !! secret) ++ [p]]> m.
Fixpoint prefixed_ports (prefix : string) (anns : list (string * string)) (m : gmap string (list Z)) : Go build_error (gmap string (list Z)) :=
  match anns with
  | [] => Ret m
  | (k, v) :: anns =>
      if negb (HasPrefix k prefix) then prefixed_ports prefix anns m
      else
        let ps := str_drop (String.length prefix) k in
        if bool_decide (ps = EmptyString) then Fail (EmptyPortSuffix k)
        else match ParseUint16 ps with
             | None => Fail (InvalidPortSuffix k)
             | Some pn => prefixed_ports prefix anns (add_port m v (u16 pn))
             end
  end.
Definition annotationPrefixedPorts (anns : option (gmap string string)) (prefix : string) : Go build_error (gmap string (list Z)) :=
  if bool_decide (is_Some (entries anns !! prefix)) then Fail (MissingPortSuffix prefix)
  else prefixed_ports (prefix +:+ ".") (map_to_list (entries anns)) ∅.

(** The mounts of the secrets and the annotations that tell where they are. *)
Definition mountSecrets (podAnns : option (gmap string string)) (annotation certPath : string) (anns : gmap string string)
    (mounts : list VolumeMount) : Go build_error (gmap string string * list VolumeMount) :=
  m ← annotationPrefixedPorts podAnns annotation;
  Ret (foldl (fun '(anns, mounts) secret =>
         let volPath := DownstreamTLSVolumePath +:+ "/" +:+ secret in
         (foldl (fun anns p => <[certPath +:+ "." +:+ itoa p := volPath]> anns) anns (default [] (m !! secret)),
          mounts ++ [mkVM (secret +:+ "-vol") volPath "" "" false None]))
       (anns, mounts) (SortedKeys m)).

(** ** Containers of the pod *)
(** For each configured container the container of the pod, by name, or the one that an
    earlier injection replaced, from the pod's annotations. *)
Fixpoint configured_container (podAnns : option (gmap string string)) (cc : ContainerConfig) (cns : list KContainer) : option KContainer :=
  match cns with
  | [] => None
  | app :: cns =>
      if bool_decide (kc_Name app = ContainerName) then
        match entries podAnns !! (ReplacedContainerPrefix +:+ cc_Name cc) with
        | Some appJson => Some (default zero_container (container_of_json appJson))
        | None => configured_container podAnns cc cns
        end
      else if bool_decide (kc_Name app = cc_Name cc) then Some app
      else configured_container podAnns cc cns
  end.
(** [eachConfiguredContainer] visits these pairs. *)
Definition configuredContainers (pod : PodTemplateSpec) (config : SidecarConfig) : list (KContainer * ContainerConfig) :=
  omap (fun cc => app ← configured_container (m_Annotations (pt_Meta pod)) cc (ps_Containers (pt_Spec pod)); Some (app, cc)) (sf_Containers config).

Definition to_cport (p : ContainerPort) : CPort := mkCPort (port_Name p) (port_Number p) (Proto_String (port_Protocol p)).
Fixpoint container_ports (names : gmap string Z) (l : list (KContainer * ContainerConfig)) : list CPort :=
  match l with
  | [] => []
  | (app, cc) :: l =>
      match cc_Replace cc with
      | ReplacePolicyContainer => kc_Ports app ++ container_ports names l
      | ReplacePolicyIntercept =>
          let '(names, ports) := intercept_ports names (PortUniqueIntercepts (plain_container cc)) in
          (to_cport <$> ports) ++ container_ports names l
      | ReplacePolicyInactive => container_ports names l
      end
  end.

(** The security context of the first container that has intercepts and sets one. *)
Definition firstAppSecurityContext (pod : PodTemplateSpec) (config : SidecarConfig) : option SecurityContext :=
  head (omap (fun cc =>
    match cc_Intercepts cc with
    | [] => None
    | _ => app ← containerByName (cc_Name cc) (ps_Containers (pt_Spec pod)); kc_SecurityContext app
    end) (sf_Containers config)).
Definition gid_of (cn : KContainer) : string * option Z := (kc_Name cn, sc ← kc_SecurityContext cn; RunAsGroup sc).
Definition agent_security_context (pod : PodTemplateSpec) (config : SidecarConfig) : option SecurityContext :=
  AgentSecurityContext (st_SecurityContext (sf_Settings config)) (firstAppSecurityContext pod config)
    (ps_RunAsGroup (pt_Spec pod)) (gid_of <$> ps_Containers (pt_Spec pod)) (gid_of <$> ps_InitContainers (pt_Spec pod)).

(** The volumes of the agent itself and its environment. *)
Definition own_mounts : list VolumeMount :=
  [mkVM PodInfoVolumeName "/etc/podinfo" "" "" false None; mkVM ExportsVolumeName "/tel_app_exports" "" "" false None; mkVM TempVolumeName "/tmp" "" "" false None].
Definition own_env : list EnvVar :=
  [mkEnv (EnvPrefixAgent +:+ "POD_IP") "" (Some "status.podIP"%string); mkEnv (EnvPrefixAgent +:+ "POD_UID") "" (Some "metadata.uid"%string);
   mkEnv (EnvPrefixAgent +:+ "NAME") "" (Some "metadata.name"%string)].
Definition agent_env (config : SidecarConfig) (l : list (KContainer * ContainerConfig)) : list EnvVar :=
  foldl (fun es '(app, cc) => appendAppContainerEnv app cc es) [] l ++
  (if 0 <? sf_APIPort config then [mkEnv EnvAPIPort (itoa (sf_APIPort config)) None] else []) ++ own_env.

Definition AgentContainer (pod : PodTemplateSpec) (config : SidecarConfig) : Go build_error (KContainer * gmap string string) :=
  let l := configuredContainers pod config in
  let mounts := (l ≫= fun '(app, cc) => appendVolumeMounts (sf_MountPolicies config) cc 0 (kc_VolumeMounts app)) ++ own_mounts in
  '(anns, mounts) ← mountSecrets (m_Annotations (pt_Meta pod)) DownstreamTLSSecret DownstreamCertificatePath ∅ mounts;
  '(anns, mounts) ← mountSecrets (m_Annotations (pt_Meta pod)) UpstreamTLSSecret UpstreamCertificatePath anns mounts;
  let anns := foldl (fun anns '(app, cc) =>
    match cc_Replace cc with ReplacePolicyContainer => <[ReplaceAnnotationKey (cc_Name cc) := container_json app]> anns | _ => anns end) anns l in
  let anns := <[ann_Config := MarshalTight config]> anns in
  Ret (mkKC ContainerName (sf_AgentImage config) ["agent"] (container_ports ∅ l) (Some (agent_env config l))
         (foldl (fun es '(app, cc) => appendAppContainerEnvFrom app cc es) [] l) mounts
         None (Some (mkProbe None None (Some ["/usr/local/bin/traffic"; "agent-ready"]))) None (agent_security_context pod config), anns).

(** ** initcontainer.go *)
(** [slog.Level.String] *)
Definition level_string (l : Z) : string :=
  let str base val := if val =? 0 then base else base +:+ (if 0 <? val then "+" +:+ itoa val else itoa val) in
  if l <? 0 then str "DEBUG"%string (l + 4) else if l <? 4 then str "INFO"%string l else if l <? 8 then str "WARN"%string (l - 4) else str "ERROR"%string (l - 8).
Definition InitContainer (config : SidecarConfig) (agentSC : option SecurityContext) : KContainer :=
  let num name (o : option Z) := match o with Some n => [mkEnv name (itoa n) None] | None => [] end in
  mkKC InitContainerName (sf_AgentImage config) ["agent-init"] []
    (Some ([mkEnv "LOG_LEVEL" (level_string (st_LogLevel (sf_Settings config))) None;
            mkEnv "AGENT_CONFIG" "" (Some ("metadata.annotations['" +:+ ann_Config +:+ "']"));
            mkEnv "POD_IP" "" (Some "status.podIP"%string)] ++
           match agentSC with Some sc => num "AGENT_UID"%string (RunAsUser sc) ++ num "AGENT_GID"%string (RunAsGroup sc) | None => [] end))
    [] [] None None None (match st_InitSecurityContext (sf_Settings config) with Some s => Some s | None => Some (mkSC None None (Some (["NET_ADMIN"%string], []))) end).

(** ** volumes.go: the names of the volumes *)
Definition appendSecretVolume (annotation : string) (podAnns : option (gmap string string)) (volumes : list string) : Go build_error (list string) :=
  m ← annotationPrefixedPorts podAnns annotation; Ret (volumes ++ ((fun secret => secret +:+ "-vol") <$> SortedKeys m)).
Definition AgentVolumes (podAnns : option (gmap string string)) : Go build_error (list string) :=
  vs ← appendSecretVolume DownstreamTLSSecret podAnns [PodInfoVolumeName; ExportsVolumeName; TempVolumeName];
  appendSecretVolume UpstreamTLSSecret podAnns vs.
End Build.
