(* ===== verification/AgentInit.v ===== *)
(** * The init container of the traffic-agent (src/cmd/traffic/cmd/agentinit/agent_init.go)

    The init container installs rules in the nat table of the pod, so that traffic for an
    application port reaches the traffic-agent.  A rule is a record of the arguments that
    the code passes to iptables; the iptables command is the type class [Iptables], of the
    interface that the code declares for it. *)
From S2P Require Import Prelude NetIP GoStrings GoText GoJson NetParse PortTypes Matcher Icept Policies AgentConfig Kube Discovery Generator AgentContainer.
From Stdlib Require Import Ascii.
Local Open Scope Z_scope.

(** ** Rules *)
Inductive target :=
  | REDIRECT (toPorts : Z)                    (* -j REDIRECT --to-ports *)
  | DNAT (toDestination : AddrPort)           (* -j DNAT --to-destination *)
  | RETURN | ACCEPT
  | JumpTo (chain : string).
Global Instance target_eq_dec : EqDecision target.
Proof. solve_decision. Defined.
Inductive owner_flag := GidOwner | UidOwner.   (* --gid-owner, --uid-owner *)
Global Instance owner_flag_eq_dec : EqDecision owner_flag.
Proof. solve_decision. Defined.
(** A boolean tells that the option follows a "!". *)
Record rule := mkRule {
  r_out : option string;                       (* -o *)
  r_proto : option string;                     (* -p *)
  r_dst : option (bool * (Addr + Prefix));     (* -d *)
  r_owner : option (bool * owner_flag * Z);    (* -m owner *)
  r_dport : option (bool * Z);                 (* --dport *)
  r_target : target
}.
Global Instance rule_eq_dec : EqDecision rule.
Proof. solve_decision. Defined.

(** The interface iptablesConfigurer, on the chains of the nat table; [None] is an error. *)
Class Iptables := {
  ipt : Type;
  ClearChain : ipt -> string -> option ipt;
  AppendUnique : ipt -> string -> rule -> option ipt;
  Insert : ipt -> string -> Z -> rule -> option ipt
}.

Inductive init_error :=
  | InvalidID (name value : string)
  | FailedToClear (chain : string)
  | FailedToAppend (chain : string)
  | FailedToInsert
  | NoAgentConfig | BadAgentConfig | NoLoopback | BadPodIP (text : string).

(** ** The owner of the agent's traffic *)
Definition EnvAgentConfig : string := "AGENT_CONFIG".
Definition EnvAgentUID : string := "AGENT_UID".
Definition EnvAgentGID : string := "AGENT_GID".
(** [strconv.ParseUint(s, 10, 32)] *)
Definition ParseUint32 (s : string) : option Z := v ← nonempty_digits s; if v <? 2 ^ 32 then Some v else None.
(** A variable that is set and not empty. *)
Definition lookup_id (env : string -> option string) (name : string) : Go init_error (option Z) :=
  match env name with
  | None | Some EmptyString => Ret None
  | Some s => match ParseUint32 s with Some v => Ret (Some v) | None => Fail (InvalidID name s) end
  end.
Definition trafficAgentUID (env : string -> option string) (getuid : Z) : Go init_error Z :=
  uid ← lookup_id env EnvAgentUID; Ret (default getuid uid).
Definition trafficAgentOwner (env : string -> option string) (getuid : Z) : Go init_error (owner_flag * Z) :=
  gid ← lookup_id env EnvAgentGID;
  match gid with
  | Some id => Ret (GidOwner, id)
  | None => id ← trafficAgentUID env getuid; Ret (UidOwner, id)
  end.

(** ** configureIptables *)
Definition or_fail {E A} (e : E) (o : option A) : Go E A := match o with Some a => Ret a | None => Fail e end.
Fixpoint go_foldl {E A B} (f : B -> A -> Go E B) (b : B) (l : list A) : Go E B :=
  match l with [] => Ret b | a :: l => b ← f b a; go_foldl f b l end.

Section Configure.
Context `{K8sApi, Iptables}.

(** The intercepts of a protocol, in the order in which the loops visit them. *)
Definition proto_intercepts (c : SidecarConfig) (proto : Z) : list Intercept :=
  sf_Containers c ≫= fun cn => filter (fun ic => proto = ic_Protocol ic) (PortUniqueIntercepts (plain_container cn)).
Definition preRoutingChain (proto : Z) : string := "TEL_PREROUTING_" +:+ Proto_String proto.
Definition outputChain (proto : Z) : string := "TEL_OUTPUT_" +:+ Proto_String proto.
Definition lcProto (proto : Z) : string := ToLower (Proto_String proto).

Definition redirect_rule (proto : Z) (ic : Intercept) : rule :=
  mkRule None (Some (lcProto proto)) None None (Some (false, ic_ContainerPort ic)) (REDIRECT (ic_AgentPort ic)).
Definition proxy_rule (c : SidecarConfig) (podIP : Addr) (proto : Z) (ic : Intercept) : rule :=
  mkRule None (Some (lcProto proto)) (Some (false, inl podIP)) None (Some (false, ProxyPort (plain c) (ic_AgentPort ic)))
    (DNAT {| ap_addr := podIP; ap_port := ic_ContainerPort ic |}).
Definition append_intercept (c : SidecarConfig) (podIP : Addr) (proto : Z) (t : ipt) (ic : Intercept) : Go init_error ipt :=
  t ← or_fail (FailedToAppend (preRoutingChain proto)) (AppendUnique t (preRoutingChain proto) (redirect_rule proto ic));
  t ← or_fail (FailedToAppend (outputChain proto)) (AppendUnique t (outputChain proto) (redirect_rule proto ic));
  if ic_TargetPortNumeric ic
  then or_fail (FailedToAppend (outputChain proto)) (AppendUnique t (outputChain proto) (proxy_rule c podIP proto ic))
  else Ret t.

(** The four rules that lead from OUTPUT to the chain of a protocol, in the order of their
    insertion. *)
Definition output_jumps (loopback : string) (localHostCIDR : Prefix) (podIP : Addr) (owner : owner_flag * Z) (proto : Z) : list rule :=
  let p := Some (lcProto proto) in
  let j := JumpTo (outputChain proto) in
  [mkRule (Some loopback) p None (Some (true, owner.1, owner.2)) None j;
   mkRule None p (Some (false, inl podIP)) (Some (true, owner.1, owner.2)) None j;
   mkRule (Some loopback) p (Some (true, inr localHostCIDR)) (Some (false, owner.1, owner.2)) None j;
   mkRule None p (Some (false, inl podIP)) (Some (false, owner.1, owner.2)) None j].
Definition insert_jump (tc : ipt * Z) (r : rule) : Go init_error (ipt * Z) :=
  t ← or_fail FailedToInsert (Insert tc.1 "OUTPUT" 1 r); Ret (t, tc.2 + 1).
Definition configure_proto (c : SidecarConfig) (owner : owner_flag * Z) (loopback : string) (localHostCIDR : Prefix) (podIP : Addr)
    (tc : ipt * Z) (proto : Z) : Go init_error (ipt * Z) :=
  let '(t, outputInsertCount) := tc in
  if Nat.eqb (length (proto_intercepts c proto)) 0 then Ret tc
  else
    t ← or_fail (FailedToClear (preRoutingChain proto)) (ClearChain t (preRoutingChain proto));
    t ← or_fail (FailedToClear (outputChain proto)) (ClearChain t (outputChain proto));
    t ← go_foldl (append_intercept c podIP proto) t (proto_intercepts c proto);
    t ← or_fail (FailedToAppend (preRoutingChain proto))
          (AppendUnique t "PREROUTING" (mkRule None (Some (lcProto proto)) None None None (JumpTo (preRoutingChain proto))));
    go_foldl insert_jump (t, outputInsertCount) (output_jumps loopback localHostCIDR podIP owner proto).

Definition familySubnets (subnets : list Prefix) (v4 : bool) : list Prefix := filter (fun sn => Is4 (pfx_Addr sn) = v4) subnets.
Definition meshBypassChain : string := "TEL_MESH_BYPASS".
Definition meshBypassTarget (c : SidecarConfig) (t : ipt) (v4 : bool) : Go init_error (ipt * target) :=
  let meshSubnets := familySubnets (st_MeshDialSubnets (sf_Settings c)) v4 in
  if Nat.eqb (length meshSubnets) 0 then Ret (t, RETURN)
  else
    t ← or_fail (FailedToClear meshBypassChain) (ClearChain t meshBypassChain);
    t ← go_foldl (fun t sn => or_fail (FailedToAppend meshBypassChain) (AppendUnique t meshBypassChain (mkRule None None (Some (false, inr sn)) None None RETURN))) t meshSubnets;
    t ← or_fail (FailedToAppend meshBypassChain) (AppendUnique t meshBypassChain (mkRule None None None None None ACCEPT));
    Ret (t, JumpTo meshBypassChain).
Definition bypass_rule (owner : owner_flag * Z) (bypassTarget : target) (lcProto : string) : rule :=
  mkRule None (Some lcProto) None (Some (false, owner.1, owner.2)) (Some (true, 53)) bypassTarget.
Definition insertMeshBypassRules (c : SidecarConfig) (t : ipt) (owner : owner_flag * Z) (pos : Z) (v4 : bool) : Go init_error ipt :=
  '(t, bypassTarget) ← meshBypassTarget c t v4;
  tp ← go_foldl (fun tp lcProto => t ← or_fail FailedToInsert (Insert tp.1 "OUTPUT" tp.2 (bypass_rule owner bypassTarget lcProto)); Ret (t, tp.2 + 1))
         (t, pos) ["tcp"; "udp"]%string;
  Ret tp.1.

Definition configureIptables (c : SidecarConfig) (env : string -> option string) (getuid : Z) (t : ipt) (loopback : string) (localHostCIDR : Prefix) (podIP : Addr) :
    Go init_error ipt :=
  owner ← trafficAgentOwner env getuid;
  '(t, outputInsertCount) ← go_foldl (configure_proto c owner loopback localHostCIDR podIP) (t, 0) [ProtoTCP; ProtoUDP];
  insertMeshBypassRules c t owner (1 + outputInsertCount) (Is4 podIP).

(** ** Main *)
Record iface := mkIface { if_Name : string; if_Up : bool; if_Loopback : bool }.
Definition findLoopback (ifaces : list iface) : option string :=
  '(_, i) ← list_find (fun i => if_Up i = true /\ if_Loopback i = true) ifaces; Some (if_Name i).
Definition loadConfig `{ObjectJson} (env : string -> option string) : Go init_error SidecarConfig :=
  cfgTight ← or_fail NoAgentConfig (env EnvAgentConfig); or_fail BadAgentConfig (sidecar_of_json cfgTight).
(** [nat]: the table of the pod's address family. *)
Definition Main `{ObjectJson} (env : string -> option string) (getuid : Z) (ifaces : list iface) (nat : bool -> ipt) : Go init_error ipt :=
  cfg ← loadConfig env;
  lo ← or_fail NoLoopback (findLoopback ifaces);
  let text := default EmptyString (env "POD_IP"%string) in
  podIP ← or_fail (BadPodIP text) (ParseAddr text);
  let localhostCIDR := if Is6 podIP then PrefixFrom (Addr6 1 EmptyString) 128 else PrefixFrom (AddrFrom4 [127; 0; 0; 1]) 32 in
  configureIptables cfg env getuid (nat (negb (Is6 podIP))) lo localhostCIDR podIP.
End Configure.
