(* ===== verification/AgentInitSpec.v ===== *)
(** * What the rules of the init container do to the traffic of a pod *)
From S2P Require Import Prelude NetIP GoStrings GoText GoJson NetParse PortTypes PortSpec Matcher Icept Policies AgentConfig AgentSpec Kube Discovery Generator GeneratorSpec AgentContainer AgentInit.
From Stdlib Require Import Ascii.
Local Open Scope Z_scope.

(** ** iptables *)
(** A successful command has its documented effect on the chains of the table. *)
Definition add_unique (l : list rule) (r : rule) : list rule := if bool_decide (r ∈ l) then l else l ++ [r].
Class IptablesLaws `{Iptables} := {
  chains : ipt -> gmap string (list rule);
  ClearChain_effect : forall t c t', ClearChain t c = Some t' -> chains t' = <[c := []]> (chains t);
  AppendUnique_effect : forall t c r t', AppendUnique t c r = Some t' ->
    exists l, chains t !! c = Some l /\ chains t' = <[c := add_unique l r]> (chains t);
  Insert_effect : forall t c pos r t', Insert t c pos r = Some t' ->
    exists l, chains t !! c = Some l /\ 1 <= pos <= Z.of_nat (length l) + 1 /\
      chains t' = <[c := take (Z.to_nat (pos - 1)) l ++ r :: drop (Z.to_nat (pos - 1)) l]> (chains t)
}.

(** ** Packets *)
(** A packet that a process of the pod sends, or that arrives (then [pk_out] is empty and
    no rule asks for the owner). *)
Record packet := mkPacket { pk_out : string; pk_proto : string; pk_dst : Addr; pk_dport : Z; pk_uid : Z; pk_gid : Z }.
Definition dst_matches (d : Addr + Prefix) (a : Addr) : bool := match d with inl x => bool_decide (x = a) | inr n => p_Contains n a end.
Definition owned_by (f : owner_flag) (id : Z) (p : packet) : bool := (match f with GidOwner => pk_gid p | UidOwner => pk_uid p end) =? id.
Definition opt_test {A} (o : option A) (f : A -> bool) : bool := match o with None => true | Some a => f a end.
Definition rule_matches (r : rule) (p : packet) : bool :=
  opt_test (r_out r) (fun o => bool_decide (o = pk_out p)) && opt_test (r_proto r) (fun o => bool_decide (o = pk_proto p)) &&
  opt_test (r_dst r) (fun '(neg, d) => xorb neg (dst_matches d (pk_dst p))) &&
  opt_test (r_owner r) (fun '(neg, f, id) => xorb neg (owned_by f id p)) &&
  opt_test (r_dport r) (fun '(neg, n) => xorb neg (n =? pk_dport p)).

(** What a list of rules decides: nothing, to leave the chain, or the fate of the packet. *)
Inductive verdict := Fallthrough | Returned | Accepted | Redirected (port : Z) | Rewritten (dest : AddrPort).
Definition flat (l : list rule) : Prop := Forall (fun r => match r_target r with JumpTo _ => False | _ => True end) l.
Definition target_verdict (t : target) : verdict :=
  match t with REDIRECT k => Redirected k | DNAT ap => Rewritten ap | RETURN => Returned | ACCEPT => Accepted | JumpTo _ => Fallthrough end.

(** The traversal of rules by the kernel: in order, up to the first that decides; after a
    jump the traversal goes on behind it unless the other chain decided. *)
Class Netfilter := { nat_chain : gmap string (list rule) -> list rule -> packet -> verdict }.
Class NetfilterLaws `{Netfilter} : Prop := {
  nat_nil : forall m p, nat_chain m [] p = Fallthrough;
  nat_app : forall m l k p, nat_chain m (l ++ k) p = match nat_chain m l p with Fallthrough => nat_chain m k p | v => v end;
  nat_skip : forall m r p, rule_matches r p = false -> nat_chain m [r] p = Fallthrough;
  nat_target : forall m r p, rule_matches r p = true -> (forall c, r_target r <> JumpTo c) -> nat_chain m [r] p = target_verdict (r_target r);
  nat_jump : forall m r p c l, rule_matches r p = true -> r_target r = JumpTo c -> m !! c = Some l -> flat l ->
    nat_chain m [r] p = match nat_chain m l p with Returned => Fallthrough | v => v end
}.
(** The outcome at a hook: a built-in chain that does not decide accepts the packet as it is. *)
Inductive outcome := ToLocal (port : Z) | ToAddress (dest : AddrPort) | Untouched.
Definition hook_outcome (v : verdict) : outcome := match v with Redirected k => ToLocal k | Rewritten ap => ToAddress ap | _ => Untouched end.

(** ** Chains without jumps *)
Definition first_match (l : list rule) (p : packet) : verdict :=
  match list_find (fun r => rule_matches r p = true) l with Some (_, r) => target_verdict (r_target r) | None => Fallthrough end.
Lemma first_match_cons r l p : first_match (r :: l) p = if rule_matches r p then target_verdict (r_target r) else first_match l p.
Proof. unfold first_match. cbn [list_find]. destruct (rule_matches r p) eqn:E; [by rewrite decide_True|]. rewrite decide_False by congruence. by destruct (list_find _ l) as [[? ?]|]. Qed.
Lemma first_match_app l k p : flat l -> first_match (l ++ k) p = match first_match l p with Fallthrough => first_match k p | v => v end.
Proof.
  intros Hf. induction Hf as [|r l Hr Hf IH]; [done|]. rewrite <- app_comm_cons, !first_match_cons. destruct (rule_matches r p); [|done].
  destruct (r_target r); done.
Qed.
Lemma first_match_dup l r p : flat l -> r ∈ l -> first_match (l ++ [r]) p = first_match l p.
Proof.
  intros Hf Hin. rewrite first_match_app by done. destruct (first_match l p) eqn:E; try done. rewrite first_match_cons. destruct (rule_matches r p) eqn:Em; [|done].
  unfold first_match in E. destruct (list_find _ l) as [[i r']|] eqn:Ef.
  - apply list_find_Some in Ef as (Hl & _). apply list_elem_of_lookup_2 in Hl. unfold flat in Hf. rewrite Forall_forall in Hf. specialize (Hf r' Hl). by destruct (r_target r').
  - apply list_find_None in Ef. rewrite Forall_forall in Ef. by destruct (Ef r Hin).
Qed.
Lemma flat_add_unique l r : flat l -> flat [r] -> flat (add_unique l r).
Proof. intros Hl Hr. unfold add_unique. case_bool_decide; [done|]. by apply Forall_app. Qed.
(** Rules that are added once each decide like the list with duplicates. *)
Lemma first_match_unique rs p : forall l, flat l -> flat rs -> flat (foldl add_unique l rs) /\ first_match (foldl add_unique l rs) p = first_match (l ++ rs) p.
Proof.
  induction rs as [|r rs IH]; intros l Hl Hrs; cbn [foldl]; [by rewrite app_nil_r|]. apply Forall_cons in Hrs as [Hr Hrs].
  assert (Hr' : flat [r]) by (by constructor). destruct (IH (add_unique l r)) as [Hf He]; [by apply flat_add_unique|done|]. split; [done|]. rewrite He.
  unfold add_unique. case_bool_decide as Hin.
  - replace (l ++ r :: rs) with ((l ++ [r]) ++ rs) by (by rewrite <- app_assoc).
    rewrite (first_match_app (l ++ [r])) by (by apply Forall_app). rewrite first_match_dup by done. by apply first_match_app.
  - by rewrite <- app_assoc.
Qed.
Section Kernel.
Context `{Netfilter, !NetfilterLaws}.
Lemma nat_flat m l p : flat l -> nat_chain m l p = first_match l p.
Proof.
  intros Hf. induction Hf as [|r l Hr Hf IH]; [apply nat_nil|]. change (r :: l) with ([r] ++ l). rewrite nat_app. rewrite <- app_comm_cons, app_nil_l, first_match_cons.
  destruct (rule_matches r p) eqn:E.
  - rewrite nat_target by (done || intros c Hc; by rewrite Hc in Hr). destruct (r_target r); done.
  - by rewrite nat_skip.
Qed.
End Kernel.

(** ** The table that results *)
Lemma or_fail_Ret {E A} (e : E) (o : option A) a : or_fail e o = Ret a -> o = Some a.
Proof. destruct o; cbn; congruence. Qed.

Section Table.
Context `{K8sApi, !K8sLaws, Iptables, !IptablesLaws}.

Lemma proto_names : Proto_String ProtoTCP = "TCP"%string /\ Proto_String ProtoUDP = "UDP"%string.
Proof. split; [exact tcp_name|exact udp_name]. Qed.
Definition is_proto (proto : Z) : Prop := proto = ProtoTCP \/ proto = ProtoUDP.
Lemma proto_chain_names proto : is_proto proto ->
  preRoutingChain proto <> outputChain proto /\ preRoutingChain proto <> "PREROUTING"%string /\ preRoutingChain proto <> "OUTPUT"%string /\
  outputChain proto <> "PREROUTING"%string /\ outputChain proto <> "OUTPUT"%string /\ preRoutingChain proto <> meshBypassChain /\ outputChain proto <> meshBypassChain.
Proof.
  intros [->| ->]; unfold preRoutingChain, outputChain; destruct proto_names as [Ht Hu]; rewrite ?Ht, ?Hu; vm_compute; split_and!; discriminate.
Qed.
Lemma other_proto_names p q : is_proto p -> is_proto q -> p <> q -> preRoutingChain p <> preRoutingChain q /\ preRoutingChain p <> outputChain q /\ outputChain p <> outputChain q.
Proof.
  intros [->| ->] [->| ->] Hne; try done; unfold preRoutingChain, outputChain; destruct proto_names as [Ht Hu]; rewrite ?Ht, ?Hu; vm_compute; split_and!; discriminate.
Qed.

Context (c : SidecarConfig) (podIP : Addr).
Definition out_rules (proto : Z) (ic : Intercept) : list rule :=
  redirect_rule proto ic :: (if ic_TargetPortNumeric ic then [proxy_rule c podIP proto ic] else []).

Lemma append_intercepts_effect proto ics : preRoutingChain proto <> outputChain proto -> forall t t' lp lo,
  go_foldl (append_intercept c podIP proto) t ics = Ret t' ->
  chains t !! preRoutingChain proto = Some lp -> chains t !! outputChain proto = Some lo ->
  chains t' !! preRoutingChain proto = Some (foldl add_unique lp (redirect_rule proto <$> ics)) /\
  chains t' !! outputChain proto = Some (foldl add_unique lo (ics ≫= out_rules proto)) /\
  forall k, k <> preRoutingChain proto -> k <> outputChain proto -> chains t' !! k = chains t !! k.
Proof.
  intros Hne. induction ics as [|ic ics IH]; intros t t' lp lo Hf Hp Ho; cbn [go_foldl] in Hf.
  { injection Hf as <-. done. }
  apply go_bind_ret in Hf as (t3 & Ha & Hf). unfold append_intercept in Ha.
  apply go_bind_ret in Ha as (t1 & Ht1 & Ha). apply or_fail_Ret, AppendUnique_effect in Ht1 as (l1 & Hl1 & E1).
  apply go_bind_ret in Ha as (t2 & Ht2 & Ha). apply or_fail_Ret, AppendUnique_effect in Ht2 as (l2 & Hl2 & E2).
  assert (l1 = lp) as -> by congruence. rewrite E1, lookup_insert_ne in Hl2 by done. assert (l2 = lo) as -> by congruence.
  assert (Ht3 : chains t3 !! preRoutingChain proto = Some (add_unique lp (redirect_rule proto ic)) /\
               chains t3 !! outputChain proto = Some (foldl add_unique lo (out_rules proto ic)) /\
               forall k, k <> preRoutingChain proto -> k <> outputChain proto -> chains t3 !! k = chains t !! k).
  { unfold out_rules. destruct (ic_TargetPortNumeric ic); cbn [foldl].
    - apply or_fail_Ret, AppendUnique_effect in Ha as (l3 & Hl3 & ->). rewrite E2, lookup_insert_eq in Hl3. injection Hl3 as <-.
      rewrite E2, E1. split_and!; [by rewrite lookup_insert_ne, lookup_insert_ne, lookup_insert_eq by done|by rewrite lookup_insert_eq|].
      intros k Hk1 Hk2. by rewrite !lookup_insert_ne.
    - injection Ha as <-. rewrite E2, E1. split_and!; [by rewrite lookup_insert_ne, lookup_insert_eq by done|by rewrite lookup_insert_eq|].
      intros k Hk1 Hk2. by rewrite !lookup_insert_ne. }
  destruct Ht3 as (Hp3 & Ho3 & Hk3). destruct (IH _ _ _ _ Hf Hp3 Ho3) as (HP & HO & HK). rewrite bind_cons, foldl_app. split_and!; [done|done|].
  intros k Hk1 Hk2. rewrite HK by done. by apply Hk3.
Qed.

Lemma insert_jumps_effect js : forall t n t' n' out, go_foldl insert_jump (t, n) js = Ret (t', n') -> chains t !! "OUTPUT"%string = Some out ->
  chains t' = <["OUTPUT"%string := reverse js ++ out]> (chains t) /\ n' = n + Z.of_nat (length js).
Proof.
  induction js as [|r js IH]; intros t n t' n' out Hf Ho; cbn [go_foldl] in Hf.
  { injection Hf as <- <-. cbn. rewrite insert_id by done. split; [done|lia]. }
  apply go_bind_ret in Hf as ([t1 n1] & Hi & Hf). unfold insert_jump in Hi. apply go_bind_ret in Hi as (t2 & Hi & E). injection E as -> <-. cbn [fst snd] in *.
  apply or_fail_Ret, Insert_effect in Hi as (l & Hl & _ & E). rewrite Ho in Hl. injection Hl as <-. cbn [Z.to_nat Z.sub Z.opp Z.add Z.pos_sub take drop] in E.
  change (Z.to_nat (1 - 1)) with 0%nat in E. cbn [take drop app] in E.
  destruct (IH _ _ _ _ (r :: out) Hf) as [E' ->]; [by rewrite E, lookup_insert_eq|]. rewrite E', E, insert_insert_eq, reverse_cons, <- app_assoc. split; [done|]. cbn. lia.
Qed.

(** The chains of a protocol, once its rules are there. *)
Definition proto_done (m : gmap string (list rule)) (proto : Z) : Prop :=
  proto_intercepts c proto <> [] ->
  m !! preRoutingChain proto = Some (foldl add_unique [] (redirect_rule proto <$> proto_intercepts c proto)) /\
  m !! outputChain proto = Some (foldl add_unique [] (proto_intercepts c proto ≫= out_rules proto)).
Definition pre_jump (proto : Z) : rule := mkRule None (Some (lcProto proto)) None None None (JumpTo (preRoutingChain proto)).
Context (owner : owner_flag * Z) (loopback : string) (localHostCIDR : Prefix).
Definition our_pre_jumps (proto : Z) : list rule := if Nat.eqb (length (proto_intercepts c proto)) 0 then [] else [pre_jump proto].
Definition our_jumps (proto : Z) : list rule :=
  if Nat.eqb (length (proto_intercepts c proto)) 0 then [] else reverse (output_jumps loopback localHostCIDR podIP owner proto).
Lemma configure_proto_effect proto t n t' n' pre out : is_proto proto ->
  configure_proto c owner loopback localHostCIDR podIP (t, n) proto = Ret (t', n') ->
  chains t !! "PREROUTING"%string = Some pre -> chains t !! "OUTPUT"%string = Some out ->
  chains t' !! "PREROUTING"%string = Some (foldl add_unique pre (our_pre_jumps proto)) /\
  chains t' !! "OUTPUT"%string = Some (our_jumps proto ++ out) /\ n' = n + Z.of_nat (length (our_jumps proto)) /\ proto_done (chains t') proto /\
  forall k, k <> "PREROUTING"%string -> k <> "OUTPUT"%string -> k <> preRoutingChain proto -> k <> outputChain proto -> chains t' !! k = chains t !! k.
Proof.
  intros Hpr Hc Hpre Hout. destruct (proto_chain_names proto Hpr) as (Hn1 & Hn2 & Hn3 & Hn4 & Hn5 & _). unfold configure_proto in Hc.
  unfold our_pre_jumps, our_jumps. destruct (Nat.eqb_spec (length (proto_intercepts c proto)) 0) as [E|E].
  { injection Hc as <- <-. cbn [foldl app length]. split_and!; [done|done|lia| |done]. intros Hne. apply length_zero_iff_nil in E. done. }
  apply go_bind_ret in Hc as (t1 & Ht1 & Hc). apply or_fail_Ret, ClearChain_effect in Ht1.
  apply go_bind_ret in Hc as (t2 & Ht2 & Hc). apply or_fail_Ret, ClearChain_effect in Ht2.
  apply go_bind_ret in Hc as (t3 & Ht3 & Hc). apply (append_intercepts_effect _ _ Hn1 _ _ [] []) in Ht3 as (Hp3 & Ho3 & Hk3).
  2: by rewrite Ht2, Ht1, lookup_insert_ne, lookup_insert_eq by done. 2: by rewrite Ht2, lookup_insert_eq.
  assert (Hk3' : forall k, k <> preRoutingChain proto -> k <> outputChain proto -> chains t3 !! k = chains t !! k).
  { intros k Hk1 Hk2. rewrite Hk3 by done. by rewrite Ht2, Ht1, !lookup_insert_ne by done. }
  apply go_bind_ret in Hc as (t4 & Ht4 & Hc). apply or_fail_Ret, AppendUnique_effect in Ht4 as (l4 & Hl4 & Ht4).
  rewrite Hk3', Hpre in Hl4 by done. injection Hl4 as <-.
  apply (insert_jumps_effect _ _ _ _ _ out) in Hc as [Ht5 ->].
  2: { rewrite Ht4, lookup_insert_ne by done. by rewrite Hk3' by done. }
  rewrite length_reverse, Ht5, Ht4. split_and!.
  - rewrite lookup_insert_ne by done. by rewrite lookup_insert_eq.
  - by rewrite lookup_insert_eq.
  - done.
  - intros _. rewrite !(lookup_insert_ne _ "OUTPUT"%string), !(lookup_insert_ne _ "PREROUTING"%string) by done. done.
  - intros k Hk1 Hk2 Hk3'' Hk4. rewrite !lookup_insert_ne by done. by apply Hk3'.
Qed.

(** The rules of the bypass chain. *)
Definition mesh_rules (v4 : bool) : list rule :=
  ((fun sn => mkRule None None (Some (false, inr sn)) None None RETURN) <$> familySubnets (st_MeshDialSubnets (sf_Settings c)) v4) ++ [mkRule None None None None None ACCEPT].
Lemma append_mesh_effect sns : forall t t' l,
  go_foldl (fun t sn => or_fail (FailedToAppend meshBypassChain) (AppendUnique t meshBypassChain (mkRule None None (Some (false, inr sn)) None None RETURN))) t sns = Ret t' ->
  chains t !! meshBypassChain = Some l ->
  chains t' = <[meshBypassChain := foldl add_unique l ((fun sn => mkRule None None (Some (false, inr sn)) None None RETURN) <$> sns)]> (chains t).
Proof.
  induction sns as [|sn sns IH]; intros t t' l Hf Hl; cbn [go_foldl] in Hf; [injection Hf as <-; by rewrite insert_id|].
  apply go_bind_ret in Hf as (t1 & Ht1 & Hf). apply or_fail_Ret, AppendUnique_effect in Ht1 as (l1 & Hl1 & Ht1). rewrite Hl in Hl1. injection Hl1 as <-.
  rewrite (IH _ _ _ Hf ltac:(by rewrite Ht1, lookup_insert_eq)). by rewrite Ht1, insert_insert_eq.
Qed.
Lemma meshBypassTarget_effect t v4 t' bt : meshBypassTarget c t v4 = Ret (t', bt) ->
  (forall k, k <> meshBypassChain -> chains t' !! k = chains t !! k) /\
  ((familySubnets (st_MeshDialSubnets (sf_Settings c)) v4 = [] /\ bt = RETURN) \/
   (bt = JumpTo meshBypassChain /\ chains t' !! meshBypassChain = Some (foldl add_unique [] (mesh_rules v4)))).
Proof.
  unfold meshBypassTarget. destruct (Nat.eqb_spec (length (familySubnets (st_MeshDialSubnets (sf_Settings c)) v4)) 0) as [E|E].
  { intros [= <- <-]. split; [done|]. left. by apply length_zero_iff_nil in E. }
  intros Hm. apply go_bind_ret in Hm as (t1 & Ht1 & Hm). apply or_fail_Ret, ClearChain_effect in Ht1.
  apply go_bind_ret in Hm as (t2 & Ht2 & Hm). apply (append_mesh_effect _ _ _ []) in Ht2; [|by rewrite Ht1, lookup_insert_eq].
  apply go_bind_ret in Hm as (t3 & Ht3 & Hm). apply or_fail_Ret, AppendUnique_effect in Ht3 as (l3 & Hl3 & Ht3).
  injection Hm as <- <-. rewrite Ht2, lookup_insert_eq in Hl3. injection Hl3 as <-. rewrite Ht3, Ht2, Ht1. split.
  - intros k Hk. by rewrite !lookup_insert_ne.
  - right. split; [done|]. rewrite lookup_insert_eq. unfold mesh_rules. by rewrite foldl_app.
Qed.
End Table.

Section Final.
Context `{K8sApi, !K8sLaws, Iptables, !IptablesLaws}.

Lemma insertMeshBypassRules_effect c t owner v4 t' ours out : insertMeshBypassRules c t owner (1 + Z.of_nat (length ours)) v4 = Ret t' ->
  chains t !! "OUTPUT"%string = Some (ours ++ out) ->
  exists bt, chains t' !! "OUTPUT"%string = Some (ours ++ [bypass_rule owner bt "tcp"; bypass_rule owner bt "udp"] ++ out) /\
    (forall k, k <> meshBypassChain -> k <> "OUTPUT"%string -> chains t' !! k = chains t !! k) /\
    ((familySubnets (st_MeshDialSubnets (sf_Settings c)) v4 = [] /\ bt = RETURN) \/
     (bt = JumpTo meshBypassChain /\ chains t' !! meshBypassChain = Some (foldl add_unique [] (mesh_rules c v4)))).
Proof.
  intros Hi Ho. unfold insertMeshBypassRules in Hi. apply go_bind_ret in Hi as ([t1 bt] & Ht1 & Hi). apply meshBypassTarget_effect in Ht1 as [Hk1 Hm].
  assert (Ho1 : chains t1 !! "OUTPUT"%string = Some (ours ++ out)) by (rewrite Hk1; [done|vm_compute; discriminate]).
  apply go_bind_ret in Hi as ([t3 n3] & Hf & E). injection E as <-. cbn [go_foldl fst snd] in Hf.
  apply go_bind_ret in Hf as ([t2 n2] & Ht2 & Hf). apply go_bind_ret in Ht2 as (t2' & Ht2 & E). injection E as <- <-. cbn [fst snd] in Hf.
  apply or_fail_Ret, Insert_effect in Ht2 as (l & Hl & _ & E2). rewrite Ho1 in Hl. injection Hl as <-.
  replace (Z.to_nat (1 + Z.of_nat (length ours) - 1)) with (length ours) in E2 by lia. rewrite take_app_length, drop_app_length in E2.
  apply go_bind_ret in Hf as ([t4 n4] & Ht4 & Hf). injection Hf as <- <-. apply go_bind_ret in Ht4 as (t4' & Ht4 & E). injection E as <- <-.
  apply or_fail_Ret, Insert_effect in Ht4 as (l & Hl & _ & E4). rewrite E2, lookup_insert_eq in Hl. injection Hl as <-.
  replace (Z.to_nat (1 + Z.of_nat (length ours) + 1 - 1)) with (length (ours ++ [bypass_rule owner bt "tcp"])) in E4 by (rewrite length_app; cbn; lia).
  change (bypass_rule owner bt "tcp" :: out) with ([bypass_rule owner bt "tcp"] ++ out) in E4. rewrite app_assoc, take_app_length, drop_app_length in E4.
  exists bt. rewrite E4, E2. split_and!.
  - rewrite lookup_insert_eq. by rewrite <- app_assoc.
  - intros k Hk Hko. rewrite !lookup_insert_ne by done. by apply Hk1.
  - destruct Hm as [?|[-> Hm]]; [by left|right]. split; [done|]. by rewrite !lookup_insert_ne by (vm_compute; discriminate).
Qed.

Lemma configureIptables_table c env getuid t loopback cidr podIP t' pre out :
  configureIptables c env getuid t loopback cidr podIP = Ret t' -> chains t !! "PREROUTING"%string = Some pre -> chains t !! "OUTPUT"%string = Some out ->
  exists owner bt, trafficAgentOwner env getuid = Ret owner /\
    chains t' !! "PREROUTING"%string = Some (foldl add_unique pre (our_pre_jumps c ProtoTCP ++ our_pre_jumps c ProtoUDP)) /\
    chains t' !! "OUTPUT"%string = Some (our_jumps c podIP owner loopback cidr ProtoUDP ++ our_jumps c podIP owner loopback cidr ProtoTCP ++
                                         [bypass_rule owner bt "tcp"; bypass_rule owner bt "udp"] ++ out) /\
    (forall proto, is_proto proto -> proto_done c podIP (chains t') proto) /\
    ((familySubnets (st_MeshDialSubnets (sf_Settings c)) (Is4 podIP) = [] /\ bt = RETURN) \/
     (bt = JumpTo meshBypassChain /\ chains t' !! meshBypassChain = Some (foldl add_unique [] (mesh_rules c (Is4 podIP))))).
Proof.
  intros Hc Hpre Hout. unfold configureIptables in Hc. apply go_bind_ret in Hc as (owner & Hown & Hc).
  apply go_bind_ret in Hc as ([t2 n2] & Hf & Hc). cbn [go_foldl] in Hf. apply go_bind_ret in Hf as ([t1 n1] & Ht1 & Hf).
  apply go_bind_ret in Hf as ([t2' n2'] & Ht2 & E). injection E as -> ->.
  apply (configure_proto_effect c podIP owner loopback cidr ProtoTCP _ _ _ _ pre out) in Ht1 as (HP1 & HO1 & -> & HD1 & HK1); [|by left|done|done].
  apply (configure_proto_effect c podIP owner loopback cidr ProtoUDP _ _ _ _ (foldl add_unique pre (our_pre_jumps c ProtoTCP)) (our_jumps c podIP owner loopback cidr ProtoTCP ++ out)) in Ht2 as (HP2 & HO2 & -> & HD2 & HK2); [|by right|done|done].
  rewrite app_assoc in HO2. set (ours := our_jumps c podIP owner loopback cidr ProtoUDP ++ our_jumps c podIP owner loopback cidr ProtoTCP) in *.
  replace (1 + (0 + Z.of_nat (length (our_jumps c podIP owner loopback cidr ProtoTCP)) + Z.of_nat (length (our_jumps c podIP owner loopback cidr ProtoUDP))))
    with (1 + Z.of_nat (length ours)) in Hc by (unfold ours; rewrite length_app; lia).
  destruct (insertMeshBypassRules_effect _ _ _ _ _ _ _ Hc HO2) as (bt & HO & HK & Hm). exists owner, bt.
  destruct (other_proto_names ProtoTCP ProtoUDP) as (Hd1 & Hd2 & Hd3); [by left|by right|done|]. destruct (other_proto_names ProtoUDP ProtoTCP) as (_ & Hd4 & _); [by right|by left|done|].
  assert (HD1' : proto_done c podIP (chains t2) ProtoTCP).
  { intros Hne. destruct (proto_chain_names ProtoTCP) as (_ & ? & ? & ? & ? & _); [by left|]. rewrite !HK2 by done. by apply HD1. }
  split_and!; [done| | | |done].
  - rewrite HK, HP2 by (vm_compute; discriminate). by rewrite foldl_app.
  - rewrite HO. unfold ours. by rewrite <- app_assoc.
  - intros proto Hpr Hne. destruct (proto_chain_names proto Hpr) as (_ & ? & ? & ? & ? & ? & ?). rewrite !HK by done.
    destruct Hpr as [->| ->]; [by apply HD1'|by apply HD2].
Qed.
End Final.

(** ** The policy that the rules implement *)
Section Policy.
Context `{K8sApi, !K8sLaws, Iptables, !IptablesLaws, Netfilter, !NetfilterLaws}.
Context (c : SidecarConfig) (podIP : Addr) (owner : owner_flag * Z) (loopback : string) (cidr : Prefix).

Definition port_is (n : Z) (ic : Intercept) : Prop := ic_ContainerPort ic = n.
Definition proxy_is (n : Z) (ic : Intercept) : Prop := ic_TargetPortNumeric ic = true /\ ProxyPort (plain c) (ic_AgentPort ic) = n.
Global Instance port_is_dec n ic : Decision (port_is n ic).
Proof. unfold port_is. apply _. Defined.
Global Instance proxy_is_dec n ic : Decision (proxy_is n ic).
Proof. unfold proxy_is. apply _. Defined.
(** A container port leads to the agent, the proxy port at the pod's address to the
    container. *)
Definition port_policy (ics : list Intercept) (p : packet) : option outcome :=
  match list_find (port_is (pk_dport p)) ics with
  | Some (_, ic) => Some (ToLocal (ic_AgentPort ic))
  | None =>
      if bool_decide (podIP = pk_dst p) then
        '(_, ic) ← list_find (proxy_is (pk_dport p)) ics; Some (ToAddress {| ap_addr := podIP; ap_port := ic_ContainerPort ic |})
      else None
  end.
Definition from_agent (p : packet) : bool := owned_by owner.1 owner.2 p.
(** What is sent to the pod's address or over the loopback, unless the agent sends it to
    the local host. *)
Definition caught (p : packet) : bool :=
  bool_decide (podIP = pk_dst p) || (bool_decide (loopback = pk_out p) && negb (from_agent p && p_Contains cidr (pk_dst p))).
Definition mesh_dialled (p : packet) : bool := existsb (fun sn => p_Contains sn (pk_dst p)) (familySubnets (st_MeshDialSubnets (sf_Settings c)) (Is4 podIP)).
(** [None]: the rules of a service mesh decide. *)
Definition output_policy (proto : Z) (p : packet) : option outcome :=
  match (if caught p then port_policy (proto_intercepts c proto) p else None) with
  | Some o => Some o
  | None => if from_agent p && negb (pk_dport p =? 53) && negb (mesh_dialled p) then Some Untouched else None
  end.
Definition proxy_ports_free (ics : list Intercept) : Prop :=
  forall ic1 ic2, ic1 ∈ ics -> ic2 ∈ ics -> ic_TargetPortNumeric ic1 = true -> ProxyPort (plain c) (ic_AgentPort ic1) <> ic_ContainerPort ic2.

Lemma redirect_matches proto ic p : pk_proto p = lcProto proto -> rule_matches (redirect_rule proto ic) p = bool_decide (port_is (pk_dport p) ic).
Proof.
  intros Hp. unfold rule_matches, redirect_rule. cbn [r_out r_proto r_dst r_owner r_dport opt_test]. rewrite Hp, bool_decide_true by done. cbn [andb xorb].
  unfold port_is. case_bool_decide; [by apply Z.eqb_eq|by apply Z.eqb_neq].
Qed.
Lemma proxy_matches proto ic p : pk_proto p = lcProto proto ->
  rule_matches (proxy_rule c podIP proto ic) p = bool_decide (podIP = pk_dst p) && (ProxyPort (plain c) (ic_AgentPort ic) =? pk_dport p).
Proof.
  intros Hp. unfold rule_matches, proxy_rule. cbn [r_out r_proto r_dst r_owner r_dport opt_test dst_matches]. rewrite Hp, (bool_decide_true (lcProto proto = lcProto proto)) by done.
  cbn [andb xorb]. by rewrite andb_true_r.
Qed.
Lemma pre_chain_policy proto ics p : pk_proto p = lcProto proto ->
  first_match (redirect_rule proto <$> ics) p = match list_find (port_is (pk_dport p)) ics with Some (_, ic) => Redirected (ic_AgentPort ic) | None => Fallthrough end.
Proof.
  intros Hp. induction ics as [|ic ics IH]; [done|]. cbn [fmap list_fmap]. rewrite first_match_cons, redirect_matches by done. cbn [list_find].
  case_bool_decide as Hd; [by rewrite decide_True|]. rewrite decide_False by done. rewrite IH. by destruct (list_find _ ics) as [[? ?]|].
Qed.
Definition as_verdict (o : option outcome) : verdict :=
  match o with Some (ToLocal k) => Redirected k | Some (ToAddress ap) => Rewritten ap | Some Untouched => Accepted | None => Fallthrough end.
Lemma out_chain_policy proto ics p : pk_proto p = lcProto proto -> proxy_ports_free ics ->
  first_match (ics ≫= out_rules c podIP proto) p = as_verdict (port_policy ics p).
Proof.
  intros Hp. induction ics as [|ic ics IH]; intros Hfree; [unfold port_policy; cbn; by case_bool_decide|]. rewrite bind_cons. unfold out_rules at 1.
  rewrite <- app_comm_cons, first_match_cons, redirect_matches by done. unfold port_policy. cbn [list_find].
  case_bool_decide as Hd; [by rewrite decide_True|]. rewrite decide_False by done.
  assert (Hfree' : proxy_ports_free ics) by (intros i j Hi Hj; apply Hfree; by apply list_elem_of_further). specialize (IH Hfree').
  destruct (ic_TargetPortNumeric ic) eqn:En; cbn [app].
  2: { rewrite IH. unfold port_policy. rewrite (decide_False (P := proxy_is (pk_dport p) ic)) by (intros [Hx _]; congruence).
       destruct (list_find (port_is _) ics) as [[? ?]|]; [done|]. case_bool_decide; [|done]. by destruct (list_find (proxy_is _) ics) as [[? ?]|]. }
  rewrite first_match_cons, proxy_matches by done. case_bool_decide as Hip; cbn [andb].
  2: { rewrite IH. unfold port_policy. rewrite (bool_decide_false (podIP = pk_dst p)) by done. by destruct (list_find (port_is _) ics) as [[? ?]|]. }
  destruct (Z.eqb_spec (ProxyPort (plain c) (ic_AgentPort ic)) (pk_dport p)) as [Hx|Hx].
  - rewrite (decide_True (P := proxy_is (pk_dport p) ic)) by done. destruct (list_find (port_is (pk_dport p)) ics) as [[i ic']|] eqn:Ef; [|done].
    apply list_find_Some in Ef as (Hl & Hpi & _). exfalso. apply (Hfree ic ic'); [apply list_elem_of_here|apply list_elem_of_further; by apply list_elem_of_lookup_2 in Hl|done|].
    by rewrite Hx.
  - rewrite (decide_False (P := proxy_is (pk_dport p) ic)) by (intros [_ Hy]; done). rewrite IH. unfold port_policy. rewrite (bool_decide_true (podIP = pk_dst p)) by done.
    destruct (list_find (port_is _) ics) as [[? ?]|]; [done|]. by destruct (list_find (proxy_is _) ics) as [[? ?]|].
Qed.

(** Rules that all jump to one chain. *)
Lemma jumps_decide m ch l rs p : m !! ch = Some l -> flat l -> Forall (fun r => r_target r = JumpTo ch) rs ->
  nat_chain m rs p = if existsb (fun r => rule_matches r p) rs then match first_match l p with Returned => Fallthrough | v => v end else Fallthrough.
Proof.
  intros Hm Hl Hrs. induction Hrs as [|r rs Hr Hrs IH]; [apply nat_nil|]. change (r :: rs) with ([r] ++ rs). rewrite nat_app. cbn [app existsb].
  destruct (rule_matches r p) eqn:E; cbn [orb].
  - rewrite (nat_jump m r p ch l) by done. rewrite nat_flat by done. rewrite IH. destruct (first_match l p); try done; by destruct (existsb _ rs).
  - by rewrite nat_skip.
Qed.
Lemma output_jumps_match proto p : existsb (fun r => rule_matches r p) (reverse (output_jumps loopback cidr podIP owner proto)) = bool_decide (lcProto proto = pk_proto p) && caught p.
Proof.
  unfold output_jumps, caught, from_agent. rewrite !reverse_cons, reverse_nil. cbn [app existsb]. unfold rule_matches. cbn [r_out r_proto r_dst r_owner r_dport opt_test dst_matches].
  destruct (bool_decide (lcProto proto = pk_proto p)), (bool_decide (podIP = pk_dst p)), (bool_decide (loopback = pk_out p)), (owned_by owner.1 owner.2 p), (p_Contains cidr (pk_dst p)); done.
Qed.
Lemma output_jumps_target proto : Forall (fun r => r_target r = JumpTo (outputChain proto)) (reverse (output_jumps loopback cidr podIP owner proto)).
Proof. apply Forall_reverse. by repeat constructor. Qed.
Lemma lcProto_names : lcProto ProtoTCP = "tcp"%string /\ lcProto ProtoUDP = "udp"%string.
Proof. unfold lcProto. destruct proto_names as [-> ->]. done. Qed.
Lemma lcProto_inj p q : is_proto p -> is_proto q -> lcProto p = lcProto q -> p = q.
Proof. destruct lcProto_names as [Ht Hu]. intros [->| ->] [->| ->]; rewrite ?Ht, ?Hu; done. Qed.
Lemma flat_out_rules proto ics : flat (ics ≫= out_rules c podIP proto).
Proof.
  induction ics as [|ic ics IH]; [constructor|]. rewrite bind_cons. apply Forall_app. split; [|done]. unfold out_rules.
  destruct (ic_TargetPortNumeric ic); by repeat constructor.
Qed.
Lemma flat_pre_rules proto ics : flat (redirect_rule proto <$> ics).
Proof. induction ics; constructor; done. Qed.

Lemma our_jumps_verdict m proto p : is_proto proto -> proto_done c podIP m proto -> proxy_ports_free (proto_intercepts c proto) -> pk_proto p = lcProto proto ->
  nat_chain m (our_jumps c podIP owner loopback cidr proto) p = as_verdict (if caught p then port_policy (proto_intercepts c proto) p else None).
Proof.
  intros Hpr Hd Hfree Hp. unfold our_jumps. destruct (Nat.eqb_spec (length (proto_intercepts c proto)) 0) as [E|E].
  { apply length_zero_iff_nil in E. rewrite nat_nil, E. unfold port_policy. cbn. destruct (caught p); [by case_bool_decide|done]. }
  destruct Hd as [_ Hd]; [intros Hn; by rewrite Hn in E|].
  destruct (first_match_unique (proto_intercepts c proto ≫= out_rules c podIP proto) p []) as [Hf He]; [constructor|apply flat_out_rules|].
  rewrite (jumps_decide _ _ _ _ _ Hd Hf) by apply output_jumps_target. rewrite output_jumps_match, He, app_nil_l, out_chain_policy by done.
  rewrite bool_decide_true by done. cbn [andb]. destruct (caught p); [|done]. destruct (port_policy _ p) as [[| |]|]; done.
Qed.
Lemma other_jumps_verdict m proto q p : is_proto proto -> is_proto q -> q <> proto -> pk_proto p = lcProto proto -> proto_done c podIP m q ->
  nat_chain m (our_jumps c podIP owner loopback cidr q) p = Fallthrough.
Proof.
  intros Hpr Hq Hne Hp Hd. unfold our_jumps. destruct (Nat.eqb_spec (length (proto_intercepts c q)) 0) as [E|E]; [apply nat_nil|].
  destruct Hd as [_ Hd]; [intros Hn; by rewrite Hn in E|].
  destruct (first_match_unique (proto_intercepts c q ≫= out_rules c podIP q) p []) as [Hf _]; [constructor|apply flat_out_rules|].
  rewrite (jumps_decide _ _ _ _ _ Hd Hf) by apply output_jumps_target. rewrite output_jumps_match, bool_decide_false; [done|]. rewrite Hp. intros He. by apply lcProto_inj in He.
Qed.
Lemma mesh_first_match v4 p : first_match (mesh_rules c v4) p =
  if existsb (fun sn => p_Contains sn (pk_dst p)) (familySubnets (st_MeshDialSubnets (sf_Settings c)) v4) then Returned else Accepted.
Proof.
  unfold mesh_rules. induction (familySubnets _ v4) as [|sn sns IH]; [done|]. cbn [fmap list_fmap existsb]. rewrite <- app_comm_cons, first_match_cons, IH.
  unfold rule_matches. cbn [r_out r_proto r_dst r_owner r_dport opt_test dst_matches xorb]. by destruct (p_Contains sn (pk_dst p)).
Qed.
Lemma flat_mesh v4 : flat (mesh_rules c v4).
Proof. apply Forall_app. split; [|by repeat constructor]. apply Forall_fmap, Forall_true. done. Qed.
Lemma bypass_verdict m bt proto p : is_proto proto -> pk_proto p = lcProto proto ->
  ((familySubnets (st_MeshDialSubnets (sf_Settings c)) (Is4 podIP) = [] /\ bt = RETURN) \/
   (bt = JumpTo meshBypassChain /\ m !! meshBypassChain = Some (foldl add_unique [] (mesh_rules c (Is4 podIP))))) ->
  exists v, (v = Returned \/ v = Accepted) /\ nat_chain m [bypass_rule owner bt "tcp"; bypass_rule owner bt "udp"] p =
    if from_agent p && negb (pk_dport p =? 53) && negb (mesh_dialled p) then v else Fallthrough.
Proof.
  intros Hpr Hp Hbt.
  assert (Hm : forall x, rule_matches (bypass_rule owner bt x) p = bool_decide (x = pk_proto p) && (from_agent p && negb (pk_dport p =? 53))).
  { intros x. unfold rule_matches, bypass_rule, from_agent. cbn [r_out r_proto r_dst r_owner r_dport opt_test]. rewrite (Z.eqb_sym 53).
    destruct (bool_decide (x = pk_proto p)), (owned_by owner.1 owner.2 p), (pk_dport p =? 53); done. }
  assert (Hex : existsb (fun r => rule_matches r p) [bypass_rule owner bt "tcp"; bypass_rule owner bt "udp"] = from_agent p && negb (pk_dport p =? 53)).
  { cbn [existsb]. rewrite !Hm, Hp. destruct lcProto_names as [Ht Hu]. destruct Hpr as [->| ->]; rewrite ?Ht, ?Hu;
      destruct (from_agent p && negb (pk_dport p =? 53)); done. }
  destruct Hbt as [[Hn ->]|[-> Hch]].
  - exists Returned. split; [by left|]. unfold mesh_dialled. rewrite Hn. cbn [existsb negb]. rewrite andb_true_r, <- Hex.
    rewrite nat_flat by (by repeat constructor). rewrite !first_match_cons. cbn [existsb r_target bypass_rule target_verdict].
    destruct (rule_matches _ p), (rule_matches (bypass_rule owner RETURN "udp") p); done.
  - exists Accepted. split; [by right|]. destruct (first_match_unique (mesh_rules c (Is4 podIP)) p []) as [Hf He]; [constructor|apply flat_mesh|].
    rewrite (jumps_decide _ _ _ _ _ Hch Hf) by (by repeat constructor). rewrite Hex, He, app_nil_l, mesh_first_match. fold (mesh_dialled p).
    destruct (from_agent p && negb (pk_dport p =? 53)), (mesh_dialled p); done.
Qed.
End Policy.

Section Main.
Context `{K8sApi, !K8sLaws, Iptables, !IptablesLaws, Netfilter, !NetfilterLaws}.

Definition inbound_policy (c : SidecarConfig) (proto : Z) (p : packet) : outcome :=
  match list_find (port_is (pk_dport p)) (proto_intercepts c proto) with Some (_, ic) => ToLocal (ic_AgentPort ic) | None => Untouched end.

Lemma pre_jump_matches q p : rule_matches (pre_jump q) p = bool_decide (lcProto q = pk_proto p).
Proof. unfold rule_matches, pre_jump. cbn [r_out r_proto r_dst r_owner r_dport opt_test]. by rewrite !andb_true_r. Qed.
Lemma other_pre_verdict m c proto q l p : is_proto proto -> is_proto q -> q <> proto -> pk_proto p = lcProto proto ->
  nat_chain m (foldl add_unique l (our_pre_jumps c q)) p = nat_chain m l p.
Proof.
  intros Hpr Hq Hne Hp. unfold our_pre_jumps. destruct (Nat.eqb _ 0); [done|]. cbn [foldl]. unfold add_unique. case_bool_decide; [done|].
  rewrite nat_app, nat_skip; [by destruct (nat_chain m l p)|]. rewrite pre_jump_matches, bool_decide_false; [done|]. rewrite Hp. intros He. by apply lcProto_inj in He.
Qed.
Lemma own_pre_verdict m c podIP proto l p : is_proto proto -> proto_done c podIP m proto -> pk_proto p = lcProto proto -> pre_jump proto ∉ l -> nat_chain m l p = Fallthrough ->
  hook_outcome (nat_chain m (foldl add_unique l (our_pre_jumps c proto)) p) = inbound_policy c proto p.
Proof.
  intros Hpr Hd Hp Hno Hl. unfold our_pre_jumps, inbound_policy. destruct (Nat.eqb_spec (length (proto_intercepts c proto)) 0) as [E|E].
  { apply length_zero_iff_nil in E. cbn [foldl]. by rewrite Hl, E. }
  destruct Hd as [Hd _]; [intros Hn; by rewrite Hn in E|]. cbn [foldl]. unfold add_unique at 1. rewrite bool_decide_false by done. rewrite nat_app, Hl.
  destruct (first_match_unique (redirect_rule proto <$> proto_intercepts c proto) p []) as [Hf He]; [constructor|apply flat_pre_rules|].
  rewrite (jumps_decide m (preRoutingChain proto) _ [pre_jump proto] p Hd Hf) by (by repeat constructor). cbn [existsb]. rewrite pre_jump_matches, bool_decide_true by done. cbn [orb].
  rewrite He, app_nil_l, pre_chain_policy by done. by destruct (list_find _ _) as [[? ?]|].
Qed.
Lemma pre_jumps_differ : pre_jump ProtoTCP <> pre_jump ProtoUDP.
Proof. intros He. apply (f_equal r_proto) in He. unfold pre_jump in He. cbn [r_proto] in He. destruct lcProto_names as [Ht Hu]. rewrite Ht, Hu in He. discriminate. Qed.
Lemma own_jump_fresh c l : pre_jump ProtoUDP ∉ l -> pre_jump ProtoUDP ∉ foldl add_unique l (our_pre_jumps c ProtoTCP).
Proof.
  intros Hno. unfold our_pre_jumps. destruct (Nat.eqb _ 0); [done|]. cbn [foldl]. unfold add_unique. case_bool_decide; [done|].
  rewrite elem_of_app, list_elem_of_singleton. intros [?|He]; [done|]. by apply pre_jumps_differ.
Qed.

(** C11. The rules implement the policy, when no proxy port of the agent is a container port.  At the hook OUTPUT: traffic to the pod's address, and
    local traffic other than the agent's to the local host, goes to the agent when it is for
    a container port, and from the agent's proxy port to the container; other traffic of the
    agent is left alone, with the exception of names and of the subnets that a service mesh
    serves; the rest is for the rules that were there.  At the hook PREROUTING the rules
    that were there come first, and then a container port leads to the agent. *)
Theorem configureIptables_correct (c : SidecarConfig) (env : string -> option string) (getuid : Z) (t t' : ipt) (loopback : string) (cidr : Prefix) (podIP : Addr)
    (pre out : list rule) (proto : Z) (p : packet) :
  configureIptables c env getuid t loopback cidr podIP = Ret t' ->
  chains t !! "PREROUTING"%string = Some pre -> chains t !! "OUTPUT"%string = Some out ->
  proto = ProtoTCP \/ proto = ProtoUDP -> pk_proto p = lcProto proto -> proxy_ports_free c (proto_intercepts c proto) ->
  exists owner pre' out', trafficAgentOwner env getuid = Ret owner /\
    chains t' !! "PREROUTING"%string = Some pre' /\ chains t' !! "OUTPUT"%string = Some out' /\
    hook_outcome (nat_chain (chains t') out' p) =
      default (hook_outcome (nat_chain (chains t') out p)) (output_policy c podIP owner loopback cidr proto p) /\
    (pre_jump proto ∉ pre -> nat_chain (chains t') pre p = Fallthrough -> hook_outcome (nat_chain (chains t') pre' p) = inbound_policy c proto p).
Proof.
  intros Hc Hpre Hout Hpr Hp Hfree.
  destruct (configureIptables_table _ _ _ _ _ _ _ _ _ _ Hc Hpre Hout) as (owner & bt & Hown & HP & HO & HD & Hbt). eexists owner, _, _. split_and!; [done|exact HP|exact HO| |].
  - rewrite !nat_app. destruct (bypass_verdict c podIP owner _ bt proto p Hpr Hp Hbt) as (v & Hv & Hby). rewrite Hby. clear Hby HO.
    assert (Hj : nat_chain (chains t') (our_jumps c podIP owner loopback cidr ProtoUDP) p = Fallthrough /\
                 nat_chain (chains t') (our_jumps c podIP owner loopback cidr ProtoTCP) p = as_verdict (if caught podIP owner loopback cidr p then port_policy c podIP (proto_intercepts c proto) p else None) \/
                 nat_chain (chains t') (our_jumps c podIP owner loopback cidr ProtoUDP) p = as_verdict (if caught podIP owner loopback cidr p then port_policy c podIP (proto_intercepts c proto) p else None) /\
                 nat_chain (chains t') (our_jumps c podIP owner loopback cidr ProtoTCP) p = Fallthrough).
    { destruct (decide (proto = ProtoTCP)) as [->|Hne]; [left|right; assert (proto = ProtoUDP) as -> by naive_solver].
      - split; [apply (other_jumps_verdict _ _ _ _ _ _ ProtoTCP); try done; [by right|apply HD; by right]|apply our_jumps_verdict; [done|by apply HD|done|done]].
      - split; [apply our_jumps_verdict; [done|by apply HD|done|done]|apply (other_jumps_verdict _ _ _ _ _ _ ProtoUDP); try done; [by left|apply HD; by left]]. }
    unfold output_policy. destruct (if caught podIP owner loopback cidr p then _ else None) as [o|] eqn:Eo.
    + assert (Hres : hook_outcome (as_verdict (Some o)) = o /\ as_verdict (Some o) <> Fallthrough) by (by destruct o). destruct Hres as [Hres Hnf].
      destruct Hj as [[-> ->]|[-> ->]]; cbn [default]; destruct (as_verdict (Some o)); done.
    + destruct Hj as [[-> ->]|[-> ->]]; cbn [as_verdict]; destruct (from_agent owner p && negb (pk_dport p =? 53) && negb (mesh_dialled c podIP p)); try done;
        by destruct Hv as [->| ->].
  - intros Hno Hfall. rewrite foldl_app. destruct Hpr as [->| ->].
    + rewrite (other_pre_verdict _ c ProtoTCP ProtoUDP) by (done || (by left) || by right). apply (own_pre_verdict _ c podIP); try done; [by left|apply HD; by left].
    + apply (own_pre_verdict _ c podIP); try done; [by right|apply HD; by right|by apply own_jump_fresh|].
      rewrite (other_pre_verdict _ c ProtoUDP ProtoTCP) by (done || (by left) || by right). done.
Qed.
End Main.

(** * The traffic of a pod whose configuration was generated: the configuration, the rules of
      the init container and the ports of the traffic-agent together; a table and a kernel
      on which the theorems apply, and the pods on which the rules fail *)
(** ** The rules are installed *)
(** An iptables that fails only where it must. *)
Class ReliableIptables `{IptablesLaws} : Prop := {
  clear_ok : forall t c, is_Some (ClearChain t c);
  append_ok : forall t c r, is_Some (chains t !! c) -> is_Some (AppendUnique t c r);
  insert_ok : forall t c pos r l, chains t !! c = Some l -> 1 <= pos <= Z.of_nat (length l) + 1 -> is_Some (Insert t c pos r)
}.
Lemma go_bind_Ret {E A B} (f : A -> Go E B) a : (Ret a ≫= f) = f a.
Proof. done. Qed.
Section Reliable.
Context `{K8sApi, !K8sLaws, Iptables, !IptablesLaws, !ReliableIptables}.
Lemma append_does {E} (e : E) t c r l : chains t !! c = Some l -> exists t', or_fail e (AppendUnique t c r) = Ret t' /\ chains t' = <[c := add_unique l r]> (chains t).
Proof.
  intros Hl. destruct (append_ok t c r) as [t' Ht]; [by rewrite Hl|]. exists t'. rewrite Ht. split; [done|].
  apply AppendUnique_effect in Ht as (l' & Hl' & ->). rewrite Hl in Hl'. by injection Hl' as <-.
Qed.
Lemma clear_does {E} (e : E) t c : exists t', or_fail e (ClearChain t c) = Ret t' /\ chains t' = <[c := []]> (chains t).
Proof. destruct (clear_ok t c) as [t' Ht]. exists t'. rewrite Ht. split; [done|]. by apply ClearChain_effect. Qed.
Lemma insert_does {E} (e : E) t c pos r l : chains t !! c = Some l -> 1 <= pos <= Z.of_nat (length l) + 1 ->
  exists t', or_fail e (Insert t c pos r) = Ret t' /\ chains t' = <[c := take (Z.to_nat (pos - 1)) l ++ r :: drop (Z.to_nat (pos - 1)) l]> (chains t).
Proof.
  intros Hl Hpos. destruct (insert_ok t c pos r l Hl Hpos) as [t' Ht]. exists t'. rewrite Ht. split; [done|].
  apply Insert_effect in Ht as (l' & Hl' & _ & ->). rewrite Hl in Hl'. by injection Hl' as <-.
Qed.
(** A loop whose steps all succeed in the states that satisfy an invariant. *)
Lemma go_foldl_does {E A B} (f : B -> A -> Go E B) (P : B -> Prop) (l : list A) : (forall b a, a ∈ l -> P b -> exists b', f b a = Ret b' /\ P b') ->
  forall b, P b -> exists b', go_foldl f b l = Ret b' /\ P b'.
Proof.
  induction l as [|a l IH]; intros Hf b Hb; [by exists b|]. destruct (Hf b a (list_elem_of_here _ _) Hb) as (b1 & H1' & Hb1). cbn [go_foldl]. rewrite H1', go_bind_Ret.
  apply IH; [|done]. intros b2 a2 Hin. apply Hf. by apply list_elem_of_further.
Qed.
Lemma is_Some_insert (m : gmap string (list rule)) k k' v : is_Some (m !! k) -> is_Some (<[k' := v]> m !! k).
Proof. intros Hm. destruct (decide (k' = k)) as [->|Hne]; [by rewrite lookup_insert_eq|by rewrite lookup_insert_ne]. Qed.
Definition has_chains (ks : list string) (t : ipt) : Prop := Forall (fun k => is_Some (chains t !! k)) ks.
Lemma has_chains_insert ks t t' k v : chains t' = <[k := v]> (chains t) -> has_chains ks t -> has_chains ks t'.
Proof. intros He Ht. unfold has_chains in *. rewrite Forall_forall in Ht |- *. intros x Hx. rewrite He. by apply is_Some_insert, Ht. Qed.
Definition output_length (t : ipt) : Z := match chains t !! "OUTPUT"%string with Some l => Z.of_nat (length l) | None => 0 end.
(** The chains [ks] are there, and OUTPUT has at least [n] rules. *)
Definition ready (ks : list string) (n : Z) (t : ipt) : Prop := has_chains ks t /\ n <= output_length t.
Lemma ready_chain ks n t c : ready ks n t -> c ∈ ks -> is_Some (chains t !! c).
Proof. intros [Ht _] Hc. unfold has_chains in Ht. rewrite Forall_forall in Ht. by apply Ht. Qed.
Lemma append_keeps {E} (e : E) ks n t c r : c ∈ ks -> ready ks n t -> exists t', or_fail e (AppendUnique t c r) = Ret t' /\ ready ks n t'.
Proof.
  intros Hc Ht. destruct (ready_chain _ _ _ _ Ht Hc) as [l Hl].
  destruct (append_does e t c r l Hl) as (t' & Hr & He). exists t'. split; [done|]. split; [by apply (has_chains_insert _ _ _ _ _ He), Ht|].
  destruct Ht as [_ Ht]. unfold output_length in *. rewrite He. destruct (decide (c = "OUTPUT"%string)) as [->|Hne]; [|by rewrite lookup_insert_ne].
  rewrite lookup_insert_eq. rewrite Hl in Ht. unfold add_unique. case_bool_decide; [done|]. rewrite length_app. cbn [length]. lia.
Qed.
Lemma clear_keeps {E} (e : E) ks n t c : c <> "OUTPUT"%string -> ready ks n t -> exists t', or_fail e (ClearChain t c) = Ret t' /\ ready (c :: ks) n t'.
Proof.
  intros Hne [Ht Hn]. destruct (clear_does e t c) as (t' & Hr & He). exists t'. split; [done|]. split.
  - constructor; [by rewrite He, lookup_insert_eq|]. by apply (has_chains_insert _ _ _ _ _ He).
  - unfold output_length in *. by rewrite He, lookup_insert_ne.
Qed.
Lemma insert_keeps {E} (e : E) ks n t pos r : "OUTPUT"%string ∈ ks -> ready ks n t -> 1 <= pos <= n + 1 ->
  exists t', or_fail e (Insert t "OUTPUT" pos r) = Ret t' /\ ready ks (n + 1) t'.
Proof.
  intros Hin Ht Hpos. destruct (ready_chain _ _ _ _ Ht Hin) as [l Hl]. destruct Ht as [Ht Hn]. unfold output_length in Hn. rewrite Hl in Hn.
  destruct (insert_does e t "OUTPUT" pos r l Hl) as (t' & Hr & He); [lia|]. exists t'. split; [done|]. split; [by apply (has_chains_insert _ _ _ _ _ He)|].
  unfold output_length. rewrite He, lookup_insert_eq, length_app, length_take. cbn [length]. rewrite length_drop. lia.
Qed.
Lemma ready_weaken ks ks' n t : ks' ⊆ ks -> ready ks n t -> ready ks' n t.
Proof. intros Hs [Ht Hn]. split; [|done]. unfold has_chains in *. rewrite Forall_forall in Ht |- *. auto. Qed.

Definition builtin : list string := ["PREROUTING"; "OUTPUT"]%string.
Definition counted (tc : ipt * Z) : Prop := 0 <= tc.2 /\ ready builtin tc.2 tc.1.
Lemma append_intercept_ok c podIP proto ks n ic t : preRoutingChain proto ∈ ks -> outputChain proto ∈ ks -> ready ks n t ->
  exists t', append_intercept c podIP proto t ic = Ret t' /\ ready ks n t'.
Proof.
  intros Hp Ho Ht. unfold append_intercept. destruct (append_keeps (FailedToAppend (preRoutingChain proto)) ks n t _ (redirect_rule proto ic) Hp Ht) as (t1 & -> & Ht1).
  rewrite go_bind_Ret. destruct (append_keeps (FailedToAppend (outputChain proto)) ks n t1 _ (redirect_rule proto ic) Ho Ht1) as (t2 & -> & Ht2). rewrite go_bind_Ret.
  destruct (ic_TargetPortNumeric ic); [by apply append_keeps|by exists t2].
Qed.
Lemma configure_proto_ok c owner lo cidr podIP proto tc : is_proto proto -> counted tc -> exists tc', configure_proto c owner lo cidr podIP tc proto = Ret tc' /\ counted tc'.
Proof.
  intros Hpr Hc. destruct tc as [t n], Hc as [Hn Ht]. cbn [fst snd] in *. unfold configure_proto. destruct (Nat.eqb _ 0); [by exists (t, n)|].
  destruct (proto_chain_names proto Hpr) as (_ & _ & Hno1 & _ & Hno2 & _).
  destruct (clear_keeps (FailedToClear (preRoutingChain proto)) _ _ t _ Hno1 Ht) as (t1 & -> & Ht1). rewrite go_bind_Ret.
  destruct (clear_keeps (FailedToClear (outputChain proto)) _ _ t1 _ Hno2 Ht1) as (t2 & -> & Ht2). rewrite go_bind_Ret.
  set (ks := outputChain proto :: preRoutingChain proto :: builtin) in *.
  destruct (go_foldl_does (append_intercept c podIP proto) (ready ks n) (proto_intercepts c proto)) with (b := t2) as (t3 & -> & Ht3); [|done|].
  { intros t' ic _. apply append_intercept_ok; unfold ks; rewrite !elem_of_cons; auto. }
  rewrite go_bind_Ret.
  destruct (append_keeps (FailedToAppend (preRoutingChain proto)) ks n t3 "PREROUTING" (pre_jump proto)) as (t4 & Hr4 & Ht4); [unfold ks, builtin; rewrite !elem_of_cons; auto|done|].
  unfold pre_jump in Hr4. rewrite Hr4, go_bind_Ret. apply go_foldl_does.
  - intros [t' n'] r _ [Hn' Ht']. cbn [fst snd] in *. unfold insert_jump. cbn [fst snd].
    destruct (insert_keeps FailedToInsert builtin n' t' 1 r) as (t5 & -> & Ht5); [unfold builtin; rewrite !elem_of_cons; auto|done|lia|]. rewrite go_bind_Ret.
    exists (t5, n' + 1). split; [done|]. split; [cbn; lia|done].
  - split; [done|]. cbn [fst snd]. apply (ready_weaken ks); [|done]. intros x Hx. unfold ks. rewrite !elem_of_cons. auto.
Qed.
Lemma meshBypassTarget_ok c t v4 n : ready builtin n t -> exists t' bt, meshBypassTarget c t v4 = Ret (t', bt) /\ ready builtin n t'.
Proof.
  intros Ht. unfold meshBypassTarget. destruct (Nat.eqb _ 0); [by exists t, RETURN|].
  destruct (clear_keeps (FailedToClear meshBypassChain) _ _ t meshBypassChain ltac:(vm_compute; discriminate) Ht) as (t1 & -> & Ht1). rewrite go_bind_Ret.
  edestruct (go_foldl_does (fun t sn => or_fail (FailedToAppend meshBypassChain) (AppendUnique t meshBypassChain (mkRule None None (Some (false, inr sn)) None None RETURN)))
               (ready (meshBypassChain :: builtin) n) (familySubnets (st_MeshDialSubnets (sf_Settings c)) v4)) with (b := t1) as (t2 & -> & Ht2); [|done|].
  { intros t' sn _ Ht'. apply append_keeps; [apply list_elem_of_here|done]. }
  rewrite go_bind_Ret. destruct (append_keeps (FailedToAppend meshBypassChain) _ n t2 meshBypassChain (mkRule None None None None None ACCEPT) (list_elem_of_here _ _) Ht2) as (t3 & -> & Ht3).
  rewrite go_bind_Ret. exists t3, (JumpTo meshBypassChain). split; [done|]. apply (ready_weaken (meshBypassChain :: builtin)); [|done]. intros x Hx. by apply list_elem_of_further.
Qed.

(** With an iptables that does what it is asked, the rules are installed: the number at
    which the bypass is inserted is never beyond the end of the chain. *)
Theorem configureIptables_succeeds (c : SidecarConfig) (env : string -> option string) (getuid : Z) (t : ipt) (loopback : string) (cidr : Prefix) (podIP : Addr) (owner : owner_flag * Z) :
  trafficAgentOwner env getuid = Ret owner -> is_Some (chains t !! "PREROUTING"%string) -> is_Some (chains t !! "OUTPUT"%string) ->
  exists t', configureIptables c env getuid t loopback cidr podIP = Ret t'.
Proof.
  intros Hown Hpre Hout. unfold configureIptables. rewrite Hown, go_bind_Ret.
  destruct (go_foldl_does (configure_proto c owner loopback cidr podIP) counted [ProtoTCP; ProtoUDP]) with (b := (t, 0)) as ([t1 n1] & -> & Hn1 & Ht1).
  { intros tc proto Hin. apply configure_proto_ok. rewrite !elem_of_cons, elem_of_nil in Hin. unfold is_proto. naive_solver. }
  { split; [done|]. split; [by repeat constructor|]. cbn [fst snd]. unfold output_length. destruct (chains t !! "OUTPUT"%string); lia. }
  rewrite go_bind_Ret. cbn [fst snd] in *. unfold insertMeshBypassRules.
  destruct (meshBypassTarget_ok c t1 (Is4 podIP) n1 Ht1) as (t2 & bt & -> & Ht2). rewrite go_bind_Ret. cbn [go_foldl fst snd].
  assert (Ho : "OUTPUT"%string ∈ builtin) by (unfold builtin; rewrite !elem_of_cons; auto).
  destruct (insert_keeps FailedToInsert builtin n1 t2 (1 + n1) (bypass_rule owner bt "tcp") Ho Ht2) as (t3 & -> & Ht3); [lia|]. rewrite !go_bind_Ret. cbn [fst snd].
  destruct (insert_keeps FailedToInsert builtin (n1 + 1) t3 (1 + n1 + 1) (bypass_rule owner bt "udp") Ho Ht3) as (t4 & -> & Ht4); [lia|]. rewrite !go_bind_Ret. by eexists.
Qed.
End Reliable.

(** ** Generated configurations *)
Lemma target_first sc port proto cn ic rest : sc_InterceptTarget (plain sc) port proto = Some (cn, ic :: rest) ->
  exists cc before after, cc ∈ sf_Containers sc /\ cc_Intercepts cc = before ++ ic :: after /\ on_port port proto ic = true /\ Forall (fun x => on_port port proto x = false) before.
Proof.
  assert (Hloop : forall ics ic rest, target_loop port proto ics = Some (ic :: rest) ->
    exists before after, ics = before ++ ic :: after /\ on_port port proto ic = true /\ Forall (fun x => on_port port proto x = false) before).
  { induction ics as [|x ics IH]; intros i r; [discriminate|]. cbn [target_loop]. destruct (on_port port proto x) eqn:E.
    - intros Hs. apply (inj Some) in Hs. apply (inj2 cons) in Hs as [-> _]. exists [], ics. by split_and!.
    - intros Hs. destruct (IH i r Hs) as (b & a & -> & ? & ?). exists (x :: b), a. split_and!; [done|done|by constructor]. }
  unfold sc_InterceptTarget. cbn [plain sc_Containers]. induction (sf_Containers sc) as [|cc l IH]; [discriminate|]. cbn [fmap list_fmap containers_loop].
  destruct (target_loop port proto (cn_Intercepts (plain_container cc))) as [it|] eqn:E.
  - intros Hs. apply (inj Some) in Hs. apply (f_equal snd) in Hs. cbn [snd] in Hs. subst it. destruct (Hloop _ _ _ E) as (b & a & Hb & ? & ?).
    exists cc, b, a. split_and!; [apply list_elem_of_here|exact Hb|done|done].
  - intros Hs. destruct (IH Hs) as (cc' & b & a & ? & ?). exists cc', b, a. split; [by apply list_elem_of_further|done].
Qed.
Lemma unique_keeps um before ic after : agent_key ic ∉ um -> Forall (fun x => agent_key x <> agent_key ic) before -> ic ∈ port_unique_loop um (before ++ ic :: after).
Proof.
  revert um. induction before as [|x before IH]; intros um Hu Hb; cbn [app port_unique_loop].
  - rewrite bool_decide_false by done. apply list_elem_of_here.
  - apply Forall_cons in Hb as [Hx Hb]. case_bool_decide; [by apply IH|]. apply list_elem_of_further, IH; [|done]. rewrite elem_of_cons. intros [?|?]; [by apply Hx|done].
Qed.
Lemma proto_intercepts_elem sc proto ic : ic ∈ proto_intercepts sc proto <->
  exists cc, cc ∈ sf_Containers sc /\ ic ∈ PortUniqueIntercepts (plain_container cc) /\ ic_Protocol ic = proto.
Proof.
  unfold proto_intercepts. rewrite list_elem_of_bind. split.
  - intros (cc & Hin & Hcc). apply list_elem_of_filter in Hin as [-> Hin]. eauto.
  - intros (cc & Hcc & Hin & <-). exists cc. split; [by apply list_elem_of_filter|done].
Qed.
Lemma proto_intercepts_of sc proto ic : ic ∈ proto_intercepts sc proto -> exists n, (n, ic) ∈ intercepts_of sc.
Proof.
  intros (cc & Hcc & Hin & _)%proto_intercepts_elem. exists (cc_Name cc). unfold intercepts_of. apply ics_of_elem. exists cc. split_and!; [done|done|].
  unfold PortUniqueIntercepts in Hin. apply port_unique_key in Hin as [_ Hin]. done.
Qed.

Section Flow.
Context `{K8sApi, !K8sLaws, Cluster, MapOrder, Iptables, !IptablesLaws, Netfilter, !NetfilterLaws}.

(** The ports that the agent may use for itself. *)
Definition agent_range (cfg : GeneratorConfig) (sc : SidecarConfig) (k : Z) : Prop :=
  gc_AgentPort cfg <= k < gc_AgentPort cfg + 2 * Z.of_nat (length (intercepts_of sc)) + 11.

(** C10. The init container runs with a generated configuration, for a workload whose ports are
    in range and an agent port that leaves room for twice the intercepts and eleven; no
    container port of an intercept is among those the agent uses. When the rules that were
    in PREROUTING let a packet fall through, and the jump to the agent's chain was not yet
    there, a connection to the pod at the port of an intercept goes to the port at which the
    agent serves that intercept. And when the first intercept of the port has a numeric
    target port, the connection that the agent makes to the application through its proxy
    port ends at the container port, so it does not loop. *)
Theorem generated_traffic (cfg : GeneratorConfig) (wl : Workload) (existing : option SidecarConfig) (cfg' : GeneratorConfig) (sc : SidecarConfig)
    (env : string -> option string) (getuid : Z) (t t' : ipt) (loopback : string) (cidr : Prefix) (podIP : Addr) (pre out : list rule)
    (port proto : Z) (cn : Container) (ic : Intercept) (rest : list Intercept) :
  ports_valid wl -> Generate cfg wl existing = (cfg', Ret sc) ->
  0 <= gc_AgentPort cfg -> gc_AgentPort cfg + 2 * Z.of_nat (length (intercepts_of sc)) + 11 <= 2 ^ 16 ->
  (forall n ic, (n, ic) ∈ intercepts_of sc -> ~ agent_range cfg sc (ic_ContainerPort ic)) ->
  configureIptables (tight sc) env getuid t loopback cidr podIP = Ret t' ->
  chains t !! "PREROUTING"%string = Some pre -> chains t !! "OUTPUT"%string = Some out ->
  proto = ProtoTCP \/ proto = ProtoUDP -> sc_InterceptTarget (plain sc) port proto = Some (cn, ic :: rest) ->
  exists pre' out', chains t' !! "PREROUTING"%string = Some pre' /\ chains t' !! "OUTPUT"%string = Some out' /\
    (forall p, pk_proto p = lcProto proto -> pk_dport p = port -> pre_jump proto ∉ pre -> nat_chain (chains t') pre p = Fallthrough ->
       hook_outcome (nat_chain (chains t') pre' p) = ToLocal (ic_AgentPort ic)) /\
    (ic_TargetPortNumeric ic = true -> forall p, pk_proto p = lcProto proto -> pk_dst p = podIP ->
       pk_dport p = InterceptorInactivePort (plain sc) port proto ->
       hook_outcome (nat_chain (chains t') out' p) = ToAddress {| ap_addr := podIP; ap_port := port |}).
Proof.
  intros Hv Hg Hap Hle Hfree Hc Hpre Hout Hpr Ht. destruct (Generate_numbering _ _ _ _ _ Hv Hg Hap) as (ks & Hnd & Hlen & Hks); [lia|].
  assert (Hproxy : forall n x, (n, x) ∈ intercepts_of sc -> ProxyPort (plain sc) (ic_AgentPort x) = ic_AgentPort x + 11 + Z.of_nat (length (intercepts_of sc)) /\ gc_AgentPort cfg <= ic_AgentPort x < gc_AgentPort cfg + Z.of_nat (length (intercepts_of sc))).
  { intros n x Hx. destruct (Hks _ _ Hx) as (_ & i & Hi & ->). apply lookup_lt_Some in Hi. unfold ProxyPort. rewrite possible_intercepts.
    rewrite (wrap_id 16 (Z.of_nat (length (intercepts_of sc)))) by (unfold fits; lia). rewrite (wrap_id 16) by (unfold fits; lia). lia. }
  assert (Hsame : forall n1 x n2 y, (n1, x) ∈ intercepts_of sc -> (n2, y) ∈ intercepts_of sc -> (ic_AgentPort x = ic_AgentPort y <-> ic_ContainerPort x = ic_ContainerPort y)).
  { intros n1 x n2 y Hx Hy. destruct (Hks _ _ Hx) as (_ & i & Hi & ->), (Hks _ _ Hy) as (_ & j & Hj & ->). split.
    - intros He. assert (i = j) by lia. congruence.
    - intros He. rewrite He in Hi. by rewrite (NoDup_lookup _ _ _ _ Hnd Hi Hj). }
  destruct (target_first _ _ _ _ _ _ Ht) as (cc & before & after & Hcc & Hics & Hon & Hbef). unfold on_port in Hon. bools.
  assert (Hall : forall x, x ∈ cc_Intercepts cc -> (cc_Name cc, x) ∈ intercepts_of sc) by (intros x Hx; apply ics_of_elem; eauto).
  assert (Hicin : ic ∈ cc_Intercepts cc) by (rewrite Hics, elem_of_app, elem_of_cons; auto).
  assert (Hin : ic ∈ proto_intercepts (tight sc) proto).
  { apply (proto_intercepts_elem (tight sc)). exists cc. split_and!; [done| |done]. unfold PortUniqueIntercepts. cbn [plain_container cn_Intercepts]. rewrite Hics.
    apply unique_keeps; [apply not_elem_of_nil|]. rewrite Forall_forall in Hbef |- *. intros x Hx He. specialize (Hbef x Hx). unfold agent_key in He. injection He as Hka Hkp.
    assert (Hxin : x ∈ cc_Intercepts cc) by (rewrite Hics, elem_of_app; by left).
    apply (Hsame _ _ _ _ (Hall x Hxin) (Hall ic Hicin)) in Hka. apply not_true_iff_false in Hbef. apply Hbef. unfold on_port.
    apply andb_true_iff. split; apply Z.eqb_eq; congruence. }
  assert (Hpf : proxy_ports_free (tight sc) (proto_intercepts (tight sc) proto)).
  { intros x y Hx Hy _ He. apply (proto_intercepts_of sc) in Hx as [n1 Hx], Hy as [n2 Hy]. change (plain (tight sc)) with (plain sc) in He. destruct (Hproxy _ _ Hx) as [Hpx Hrx].
    apply (Hfree _ _ Hy). unfold agent_range. rewrite <- He, Hpx. lia. }
  destruct (configureIptables_table _ _ _ _ _ _ _ _ _ _ Hc Hpre Hout) as (owner & bt & _ & HP & HO & _). eexists _, _.
  split_and!; [exact HP|exact HO| |].
  - intros p Hp Hdp Hno Hfall. destruct (configureIptables_correct _ _ _ _ _ _ _ _ _ _ proto p Hc Hpre Hout Hpr Hp Hpf) as (o & pre2 & out2 & _ & HP2 & _ & _ & Hin2).
    rewrite HP in HP2. apply (inj Some) in HP2. rewrite <- HP2 in Hin2. rewrite Hin2 by done. unfold inbound_policy. destruct (list_find _ _) as [[i x]|] eqn:Ef.
    + apply list_find_Some in Ef as (Hl & Hx & _). unfold port_is in Hx. apply list_elem_of_lookup_2, (proto_intercepts_of sc) in Hl as [n Hl]. f_equal.
      apply (Hsame _ _ _ _ Hl (Hall ic Hicin)). congruence.
    + apply list_find_None in Ef. rewrite Forall_forall in Ef. destruct (Ef ic Hin). unfold port_is. congruence.
  - intros Hnum p Hp Hdst Hdp. destruct (configureIptables_correct _ _ _ _ _ _ _ _ _ _ proto p Hc Hpre Hout Hpr Hp Hpf) as (o & pre2 & out2 & _ & _ & HO2 & Hout2 & _).
    rewrite HO in HO2. apply (inj Some) in HO2. rewrite <- HO2 in Hout2. rewrite Hout2. assert (Hdp' : pk_dport p = ProxyPort (plain sc) (ic_AgentPort ic)).
    { rewrite Hdp. unfold InterceptorInactivePort. rewrite Ht. unfold it_TargetPortNumeric. cbn [existsb]. by rewrite Hnum. }
    unfold output_policy, caught. rewrite (bool_decide_true (podIP = pk_dst p)) by done. cbn [orb]. unfold port_policy. rewrite (bool_decide_true (podIP = pk_dst p)) by done.
    destruct (list_find (port_is (pk_dport p)) _) as [[i x]|] eqn:Ef.
    { exfalso. apply list_find_Some in Ef as (Hl & Hx & _). unfold port_is in Hx. apply list_elem_of_lookup_2 in Hl. apply (Hpf ic x Hin Hl Hnum). change (plain (tight sc)) with (plain sc). congruence. }
    destruct (list_find (proxy_is _ (pk_dport p)) _) as [[i x]|] eqn:Eq.
    + apply list_find_Some in Eq as (Hl & [_ Hx] & _). apply list_elem_of_lookup_2, (proto_intercepts_of sc) in Hl as [n Hl]. change (plain (tight sc)) with (plain sc) in Hx.
      rewrite Hdp' in Hx. destruct (Hproxy _ _ Hl) as [Hpx _], (Hproxy _ _ (Hall ic Hicin)) as [Hpi _]. cbn. f_equal. f_equal.
      transitivity (ic_ContainerPort ic); [|done]. apply (Hsame _ _ _ _ Hl (Hall ic Hicin)). lia.
    + apply list_find_None in Eq. rewrite Forall_forall in Eq. destruct (Eq ic Hin). split; [done|]. change (plain (tight sc)) with (plain sc). by rewrite Hdp'.
Qed.
End Flow.

(** ** A table and a kernel *)
Definition t_append (m : gmap string (list rule)) (c : string) (r : rule) : option (gmap string (list rule)) := l ← m !! c; Some (<[c := add_unique l r]> m).
Definition t_insert (m : gmap string (list rule)) (c : string) (pos : Z) (r : rule) : option (gmap string (list rule)) :=
  l ← m !! c;
  if (1 <=? pos) && (pos <=? Z.of_nat (length l) + 1) then Some (<[c := take (Z.to_nat (pos - 1)) l ++ r :: drop (Z.to_nat (pos - 1)) l]> m) else None.
Local Instance table : Iptables := {|
  ipt := gmap string (list rule); ClearChain := fun m c => Some (<[c := []]> m); AppendUnique := t_append; Insert := t_insert
|}.
Lemma t_append_effect m c r m' : t_append m c r = Some m' -> exists l, m !! c = Some l /\ m' = <[c := add_unique l r]> m.
Proof. unfold t_append. destruct (m !! c) as [l|]; cbn; [|discriminate]. intros [= <-]. by exists l. Qed.
Lemma t_insert_effect m c pos r m' : t_insert m c pos r = Some m' ->
  exists l, m !! c = Some l /\ 1 <= pos <= Z.of_nat (length l) + 1 /\ m' = <[c := take (Z.to_nat (pos - 1)) l ++ r :: drop (Z.to_nat (pos - 1)) l]> m.
Proof.
  unfold t_insert. destruct (m !! c) as [l|]; cbn; [|discriminate]. destruct ((1 <=? pos) && (pos <=? Z.of_nat (length l) + 1)) eqn:E; [|discriminate].
  intros [= <-]. exists l. bools. split_and!; [done|lia|lia|done].
Qed.
Local Instance table_laws : IptablesLaws.
Proof.
  refine (@Build_IptablesLaws table (fun t => t) _ t_append_effect t_insert_effect).
  intros m c m' Hc. cbn in Hc. by injection Hc as <-.
Defined.
Local Instance table_reliable : ReliableIptables.
Proof.
  split.
  - intros m c. by eexists.
  - intros m c r [l Hl]. change (is_Some (t_append m c r)). unfold t_append. cbn [chains table_laws] in Hl. rewrite Hl. by eexists.
  - intros m c pos r l Hl Hpos. change (is_Some (t_insert m c pos r)). unfold t_insert. cbn [chains table_laws] in Hl. rewrite Hl. cbn [mbind option_bind].
    replace ((1 <=? pos) && (pos <=? Z.of_nat (length l) + 1)) with true; [by eexists|]. symmetry. apply andb_true_iff. split; apply Z.leb_le; lia.
Qed.
Fixpoint traverse (m : gmap string (list rule)) (l : list rule) (p : packet) : verdict :=
  match l with
  | [] => Fallthrough
  | r :: l =>
      if rule_matches r p then
        match r_target r with
        | JumpTo c => match first_match (default [] (m !! c)) p with Fallthrough | Returned => traverse m l p | v => v end
        | t => target_verdict t
        end
      else traverse m l p
  end.
Local Instance kernel : Netfilter := {| nat_chain := traverse |}.
Lemma traverse_flat m l p : flat l -> traverse m l p = first_match l p.
Proof.
  intros Hf. induction Hf as [|r l Hr Hf IH]; [done|]. cbn [traverse]. rewrite first_match_cons. destruct (rule_matches r p); [|done]. by destruct (r_target r).
Qed.
Local Instance kernel_laws : NetfilterLaws.
Proof.
  split; cbn [nat_chain kernel].
  - done.
  - intros m l k p. induction l as [|r l IH]; [done|]. cbn [app traverse]. destruct (rule_matches r p); [|done]. destruct (r_target r); try done.
    by destruct (first_match _ p).
  - intros m r p E. cbn [traverse]. by rewrite E.
  - intros m r p E Hj. cbn [traverse]. rewrite E. destruct (r_target r) eqn:Et; try done. by destruct (Hj chain).
  - intros m r p c l E Et Hl Hf. cbn [traverse]. rewrite E, Et, Hl, traverse_flat by done. change (default [] (Some l)) with l. by destruct (first_match l p).
Qed.

(** ** The pod of the sample cluster *)
Local Existing Instances K8sRef K8sRef_laws sorted_visits.
Definition pod_ip : Addr := AddrFrom4 [10; 1; 2; 3].
Definition local_net : Prefix := PrefixFrom (AddrFrom4 [127; 0; 0; 1]) 32.
Definition gid_env (name : string) : option string := if bool_decide (name = EnvAgentGID) then Some "7439"%string else None.
Definition empty_table : gmap string (list rule) := {[ "PREROUTING" := []; "OUTPUT" := [] ]}.
Definition rules_for (sc : SidecarConfig) : gmap string (list rule) :=
  match configureIptables (tight sc) gid_env 1000 empty_table "lo" local_net pod_ip with Ret t => t | _ => ∅ end.
Definition at_hook (hook : string) (sc : SidecarConfig) (p : packet) : outcome := hook_outcome (traverse (rules_for sc) (default [] (rules_for sc !! hook)) p).
(** A packet of the agent to the pod's address. *)
Definition agent_packet (dport : Z) : packet := mkPacket "eth0" "tcp" pod_ip dport 1000 7439.
Definition client_packet (dport : Z) : packet := mkPacket "" "tcp" pod_ip dport 0 0.

Lemma configureIptables_correct_witness :
  exists owner pre' out', trafficAgentOwner gid_env 1000 = Ret owner /\
    rules_for shop_sidecar !! "PREROUTING"%string = Some pre' /\ rules_for shop_sidecar !! "OUTPUT"%string = Some out' /\
    hook_outcome (traverse (rules_for shop_sidecar) out' (agent_packet 8081)) =
      default Untouched (output_policy (tight shop_sidecar) pod_ip owner "lo" local_net ProtoTCP (agent_packet 8081)).
Proof.
  destruct (@configureIptables_correct K8sRef K8sRef_laws table table_laws kernel kernel_laws (tight shop_sidecar) gid_env 1000 empty_table (rules_for shop_sidecar) "lo" local_net pod_ip [] [] ProtoTCP (agent_packet 8081))
    as (owner & pre' & out' & Hown & HP & HO & Hout & _).
  - vm_compute. reflexivity.
  - vm_compute. reflexivity.
  - vm_compute. reflexivity.
  - left. reflexivity.
  - vm_compute. reflexivity.
  - intros ic1 ic2 Hi1 Hi2 _. revert ic2 Hi2. apply (proj1 (Forall_forall _ _)). revert ic1 Hi1. apply (proj1 (Forall_forall _ _)). decide_it.
  - exists owner, pre', out'. split; [exact Hown|]. split; [exact HP|]. split; [exact HO|exact Hout].
Defined.
Definition admin_intercept : Intercept := mkIntercept "admin" "shop" "svc-1" "admin" true 6 "" 8081 81 9901.
Lemma generated_traffic_witness :
  exists out', rules_for shop_sidecar !! "OUTPUT"%string = Some out' /\
    hook_outcome (traverse (rules_for shop_sidecar) out' (agent_packet (InterceptorInactivePort (plain shop_sidecar) 8081 6))) = ToAddress {| ap_addr := pod_ip; ap_port := 8081 |}.
Proof.
  destruct (@generated_traffic K8sRef K8sRef_laws (cluster_with [shop_svc] []) sorted_visits table table_laws kernel kernel_laws sample_cfg shop None shop_cfg shop_sidecar
      gid_env 1000 empty_table (rules_for shop_sidecar) "lo" local_net pod_ip [] [] 8081 6 (plain_container (default (mkCC "" "" "" [] None [] ReplacePolicyInactive) (head (sf_Containers shop_sidecar)))) admin_intercept [])
    as (pre' & out' & _ & HO & _ & Hout).
  - exact shop_ports_valid.
  - exact shop_run.
  - vm_compute. discriminate.
  - vm_compute. discriminate.
  - intros n ic Hin. assert (Hb : ic_ContainerPort ic < 9900).
    { apply Z.ltb_lt. revert n ic Hin. assert (Hb : forallb (fun x => ic_ContainerPort x.2 <? 9900) (intercepts_of shop_sidecar) = true) by (vm_compute; reflexivity).
      intros n ic Hin. exact (list_ok _ _ Hb _ Hin). }
    intros [Hr _]. change (gc_AgentPort sample_cfg) with 9900 in Hr. lia.
  - vm_compute. reflexivity.
  - vm_compute. reflexivity.
  - vm_compute. reflexivity.
  - left. reflexivity.
  - vm_compute. reflexivity.
  - exists out'. split; [exact HO|]. apply Hout; vm_compute; reflexivity.
Defined.
Lemma configureIptables_succeeds_witness : exists t', configureIptables (tight shop_sidecar) gid_env 1000 empty_table "lo" local_net pod_ip = Ret t'.
Proof.
  apply (@configureIptables_succeeds K8sRef K8sRef_laws table table_laws table_reliable (tight shop_sidecar) gid_env 1000 empty_table "lo" local_net pod_ip (GidOwner, 7439)).
  - vm_compute. reflexivity.
  - exists []. vm_compute. reflexivity.
  - exists []. vm_compute. reflexivity.
Defined.

(** ** Where the rules fail *)
(** A port with a symbolic target port first and a numeric one after it: the agent uses the
    proxy port because one of them is numeric, but the init container makes its rule only
    when the first one is. *)
Example proxy_port_without_rule :
  InterceptorInactivePort (plain shop_sidecar) 8080 6 = 9914 /\ at_hook "PREROUTING" shop_sidecar (client_packet 8080) = ToLocal 9900 /\
  at_hook "OUTPUT" shop_sidecar (agent_packet 9914) = Untouched.
Proof. vm_compute. done. Qed.
(** A pod with a numeric target port gets the init container, whose rules redirect its
    symbolic ports too: the agent's connection to the application comes back to the agent. *)
Definition mixed_svc : Service :=
  mkSvc "shop" "ns" "svc-1" {[ "app" := "shop" ]} [mkSP "http" "TCP" 80 (FromString "http") None; mkSP "admin" "TCP" 81 (FromInt32 8081) None].
Definition mixed_sidecar : SidecarConfig := match (sample_run [mixed_svc] sample_cfg shop).2 with Ret sc => sc | _ => shop_sidecar end.
Example symbolic_port_loops :
  InterceptorInactivePort (plain mixed_sidecar) 8080 6 = 8080 /\ at_hook "OUTPUT" mixed_sidecar (agent_packet 8080) = ToLocal 9900 /\
  (exists cn ic, sc_InterceptTarget (plain mixed_sidecar) 8080 6 = Some (cn, [ic]) /\ ic_AgentPort ic = 9900).
Proof. split_and!; [vm_compute; reflexivity|vm_compute; reflexivity|]. eexists _, _. split; vm_compute; reflexivity. Qed.
