(* ===== verification/Injector.v ===== *)
(** * The patch that injects a traffic-agent into a pod
      (src/cmd/traffic/cmd/manager/mutator/agent_injector.go, service.go)

    [createPatch] computes the operations of a JSON patch.  Paths are the strings of the
    code, built from their segments by [ptr]. *)
From S2P Require Import Prelude NetIP GoStrings GoText GoJson PortTypes Matcher Icept Policies AgentConfig Kube Discovery Generator AgentContainer.
From Stdlib Require Import Ascii.
Local Open Scope Z_scope.

(** ** Patches *)
Inductive PatchValue :=
  | VNone | VContainer (c : KContainer) | VContainers (l : list KContainer) | VVolume (v : string) | VVolumes (l : list string)
  | VSecret (s : string) | VSecrets (l : list string) | VText (s : string) | VMap (m : gmap string string) | VEnv (e : EnvVar) | VEnvs (l : list EnvVar).
Record PatchOperation := mkOp { op_Op : string; op_Path : string; op_Value : PatchValue }.
Fixpoint ptr (segs : list string) : string := match segs with [] => EmptyString | s :: segs => "/" +:+ s +:+ ptr segs end.
Definition idx (i : nat) : string := itoa (Z.of_nat i).

Section Injector.
Context `{K8sApi, ObjectJson, MapOrder}.

(** Containers of the pod with their configuration and their index. *)
Definition EachContainer (config : SidecarConfig) (pod : PodTemplateSpec) : list (nat * KContainer * ContainerConfig) :=
  omap (fun cc => '(i, app) ← list_find (fun app => kc_Name app = cc_Name cc) (ps_Containers (pt_Spec pod)); Some (i, app, cc)) (sf_Containers config).

(** ** The init container *)
(** No code sets an intercept's [Headless]. *)
Definition needInitContainer (enabled : bool) (config : SidecarConfig) : bool :=
  enabled && existsb (fun cc => bool_decide (cc_Replace cc = ReplacePolicyIntercept) && existsb ic_TargetPortNumeric (cc_Intercepts cc)) (sf_Containers config).

(** [None]: the dereference of a nil security context. *)
Definition compareCapabilities (a b : option SecurityContext) : option bool :=
  a ← a; b ← b;
  Some (match Capabilities a, Capabilities b with
        | None, None => true
        | Some (aadd, adrop), Some (badd, bdrop) => bool_decide (aadd = badd) && bool_decide (adrop = bdrop)
        | _, _ => false
        end).
Definition stripKubeAPI (vs : list VolumeMount) : list VolumeMount :=
  filter (fun v => HasPrefix (vm_Name v) "kube-api-access-" = false /\ HasPrefix (vm_MountPath v) "/var/run/secrets/kubernetes.io/" = false) vs.
Definition compareVolumeMounts (a b : list VolumeMount) : bool := bool_decide (stripKubeAPI a = stripKubeAPI b).
Definition envValue (evs : option (list EnvVar)) (name : string) : option string :=
  env_Value ∘ snd <$> list_find (fun ev => env_Name ev = name) (default [] evs).
Definition compareAgentOwnerEnv (a b : option (list EnvVar)) : bool :=
  forallb (fun name => bool_decide (envValue a name = envValue b name)) ["AGENT_UID"; "AGENT_GID"]%string.

Definition addInitContainer (enabled : bool) (pod wlTpl : PodTemplateSpec) (config : SidecarConfig) : Go build_error (list PatchOperation) :=
  let pis := ps_InitContainers (pt_Spec pod) in
  if negb (needInitContainer enabled config) then
    match list_find (fun oc => kc_Name oc = InitContainerName) pis with
    | Some (i, _) => Ret [mkOp "remove" (ptr ["spec"; "initContainers"; idx i]%string) VNone]
    | None => Ret []
    end
  else
    let ic := InitContainer config (agent_security_context wlTpl config) in
    if bool_decide (pis = []) then Ret [mkOp "replace" (ptr ["spec"; "initContainers"]%string) (VContainers [ic])]
    else match list_find (fun oc => kc_Name oc = kc_Name ic) pis with
         | Some (i, oc) =>
             let replace := Ret [mkOp "replace" (ptr ["spec"; "initContainers"; idx i]%string) (VContainer ic)] in
             if bool_decide (kc_Image ic = kc_Image oc) && bool_decide (kc_Args ic = kc_Args oc) && compareAgentOwnerEnv (kc_Env ic) (kc_Env oc)
                && compareVolumeMounts (kc_VolumeMounts ic) (kc_VolumeMounts oc)
             then match compareCapabilities (kc_SecurityContext ic) (kc_SecurityContext oc) with
                  | None => Panic
                  | Some true => Ret []
                  | Some false => replace
                  end
             else replace
         | None => Ret [mkOp "add" (ptr ["spec"; "initContainers"; "-"]%string) (VContainer ic)]
         end.

(** ** The agent's container *)
Definition compareProbes (a b : option Probe) : bool :=
  match a, b with
  | None, None => true
  | Some a, Some b => match pr_Exec a, pr_Exec b with None, None => true | Some ca, Some cb => bool_decide (ca = cb) | _, _ => false end
  | _, _ => false
  end.
(** The fields that are compared; the others of the code's options are no part of the model. *)
Definition containerEqual (a b : KContainer) : bool :=
  bool_decide (kc_Name a = kc_Name b) && bool_decide (kc_Image a = kc_Image b) && bool_decide (kc_Args a = kc_Args b) &&
  bool_decide (kc_Ports a = kc_Ports b) && bool_decide (kc_Env a = kc_Env b) && bool_decide (kc_EnvFrom a = kc_EnvFrom b) &&
  compareVolumeMounts (kc_VolumeMounts a) (kc_VolumeMounts b) && compareProbes (kc_LivenessProbe a) (kc_LivenessProbe b) &&
  compareProbes (kc_ReadinessProbe a) (kc_ReadinessProbe b) && compareProbes (kc_StartupProbe a) (kc_StartupProbe b) &&
  bool_decide (kc_SecurityContext a = kc_SecurityContext b).
Definition agent_container_patch (pod : PodTemplateSpec) (acn : KContainer) : list PatchOperation :=
  match list_find (fun pcn => kc_Name pcn = ContainerName) (ps_Containers (pt_Spec pod)) with
  | Some (i, pcn) => if containerEqual pcn acn then [] else [mkOp "replace" (ptr ["spec"; "containers"; idx i]%string) (VContainer acn)]
  | None => [mkOp "add" (ptr ["spec"; "containers"; "-"]%string) (VContainer acn)]
  end.
Definition addAgentContainer (pod wlTpl : PodTemplateSpec) (config : SidecarConfig) : Go build_error (list PatchOperation * gmap string string) :=
  '(acn, anns) ← AgentContainer wlTpl config; Ret (agent_container_patch pod acn, anns).

(** ** Secrets, volumes, annotations and labels *)
Definition addPullSecrets (pod : PodTemplateSpec) (config : SidecarConfig) : list PatchOperation :=
  let secrets := st_PullSecrets (sf_Settings config) in
  if bool_decide (secrets = []) then []
  else if bool_decide (ps_PullSecrets (pt_Spec pod) = []) then [mkOp "replace" (ptr ["spec"; "imagePullSecrets"]%string) (VSecrets secrets)]
  else (fun nps => mkOp "add" (ptr ["spec"; "imagePullSecrets"; "-"]%string) (VSecret nps)) <$> filter (.∉ ps_PullSecrets (pt_Spec pod)) secrets.
Definition addAgentVolumes (pod : PodTemplateSpec) : Go build_error (list PatchOperation) :=
  if bool_decide (ExportsVolumeName ∈ default [] (ps_Volumes (pt_Spec pod))) then Ret []
  else
    avs ← AgentVolumes (m_Annotations (pt_Meta pod));
    if bool_decide (avs = []) then Ret []
    else match ps_Volumes (pt_Spec pod) with
         | None => Ret [mkOp "replace" (ptr ["spec"; "volumes"]%string) (VVolumes avs)]
         | Some _ => Ret ((fun av => mkOp "add" (ptr ["spec"; "volumes"; "-"]%string) (VVolume av)) <$> avs)
         end.
(** The entries that the map has not are added. *)
Definition add_missing (m : option (gmap string string)) (new : gmap string string) (path : string) : list PatchOperation :=
  if bool_decide (new ∖ entries m = ∅) then []
  else [mkOp (match m with None => "add" | Some _ => "replace" end) path (VMap (entries m ∪ new))].
Definition addPodAnnotations (pod : PodTemplateSpec) (anns : gmap string string) : list PatchOperation :=
  add_missing (m_Annotations (pt_Meta pod)) anns (ptr ["metadata"; "annotations"]%string).
Definition addPodLabels (pod : PodTemplateSpec) (config : SidecarConfig) : list PatchOperation :=
  add_missing (m_Labels (pt_Meta pod))
    {[ WorkloadNameLabel := sf_WorkloadName config; WorkloadKindLabel := sf_WorkloadKind config; WorkloadEnabledLabel := "true"%string ]}
    (ptr ["metadata"; "labels"]%string).

(** ** Application containers *)
Definition maxPortNameLen : nat := 15.
(** [strconv.FormatInt(n, 16)] of a positive 64-bit number: at most sixteen digits. *)
Fixpoint hex_digits (fuel : nat) (n : Z) (acc : string) : string :=
  match fuel with
  | O => acc
  | S fuel => let acc := String (hex_digit (Z.to_N (n mod 16))) acc in if n / 16 =? 0 then acc else hex_digits fuel (n / 16) acc
  end.
Definition hiddenPortName (name : string) (ordinal : Z) : string :=
  let hiddenName := "tm-" +:+ name in
  if Nat.ltb maxPortNameLen (String.length hiddenName) then
    if 0 <? ordinal then str_take (maxPortNameLen - 2) hiddenName +:+ hex_digits 16 ordinal EmptyString
    else str_take maxPortNameLen hiddenName
  else hiddenName.
Definition probe_port (p : option IntOrString) (portName : string) : bool :=
  match p with Some (FromString s) => bool_decide (s = portName) | Some (FromInt32 _) => bool_decide (portName = EmptyString) | None => false end.
Definition hideContainerPorts (i : nat) (app : KContainer) (portName : string) : list PatchOperation :=
  let hidePort segs := mkOp "replace" (ptr ("spec"%string :: "containers"%string :: idx i :: segs)) (VText (hiddenPortName portName 0)) in
  let probe name (p : option Probe) :=
    match p with
    | None => []
    | Some p => (if probe_port (pr_HTTPGet p) portName then [hidePort [name; "httpGet"; "port"]%string] else []) ++
                (if probe_port (pr_TCPSocket p) portName then [hidePort [name; "tcpSocket"; "port"]%string] else [])
    end in
  match list_find (fun p => cp_Name p = portName) (kc_Ports app) with
  | Some (j, _) => [hidePort ["ports"; idx j; "name"]%string]
  | None => []
  end ++ probe "livenessProbe"%string (kc_LivenessProbe app) ++ probe "readinessProbe"%string (kc_ReadinessProbe app) ++
  probe "startupProbe"%string (kc_StartupProbe app).
Definition hidden_names (cc : ContainerConfig) : list string :=
  match cc_Replace cc with
  | ReplacePolicyIntercept => ic_ContainerPortName <$> filter (fun ic => ic_TargetPortNumeric ic = false) (PortUniqueIntercepts (plain_container cc))
  | _ => []
  end.
Definition hidePorts (pod : PodTemplateSpec) (config : SidecarConfig) : list PatchOperation :=
  EachContainer config pod ≫= fun '(i, app, cc) => hidden_names cc ≫= hideContainerPorts i app.

(** "Extremely important to remove in reverse order" *)
Definition replaced (config : SidecarConfig) (cn : KContainer) : list ContainerConfig :=
  filter (fun cc => cc_Name cc = kc_Name cn /\ cc_Replace cc = ReplacePolicyContainer) (sf_Containers config).
Definition maybeRemoveAppContainer (pod : PodTemplateSpec) (config : SidecarConfig) : list PatchOperation :=
  reverse (imap (fun i cn => (i, cn)) (ps_Containers (pt_Spec pod))) ≫= fun '(i, cn) =>
    (fun _ => mkOp "remove" (ptr ["spec"; "containers"; idx i]%string) VNone) <$> replaced config cn.

(** The map [env] is shared by all containers: what one of them has already is deleted
    from it. *)
Definition drop_present (env : gmap string string) (e : EnvVar) : gmap string string :=
  if bool_decide (env_ValueFrom e = None /\ default EmptyString (env !! env_Name e) = env_Value e) then delete (env_Name e) env else env.
Definition addContainerTPEnv (i : nat) (cn : KContainer) (env : gmap string string) : gmap string string * list PatchOperation :=
  let env := foldl drop_present env (default [] (kc_Env cn)) in
  if bool_decide (env = ∅) then (env, [])
  else (env,
        match kc_Env cn with None => [mkOp "replace" (ptr ["spec"; "containers"; idx i; "env"]%string) (VEnvs [])] | Some _ => [] end ++
        ((fun k => mkOp "add" (ptr ["spec"; "containers"; idx i; "env"; "-"]%string) (VEnv (mkEnv k (default EmptyString (env !! k)) None))) <$> SortedKeys env)).
Fixpoint tp_env_loop (l : list (nat * KContainer * ContainerConfig)) (env : gmap string string) : list PatchOperation :=
  match l with
  | [] => []
  | (i, app, cc) :: l =>
      match cc_Replace cc with
      | ReplacePolicyContainer => tp_env_loop l env
      | _ => let '(env, ops) := addContainerTPEnv i app env in ops ++ tp_env_loop l env
      end
  end.
Definition addTPEnv (pod : PodTemplateSpec) (config : SidecarConfig) (env : gmap string string) : list PatchOperation :=
  tp_env_loop (EachContainer config pod) env.

(** ** createPatch *)
Definition createPatch (initEnabled : bool) (config : SidecarConfig) (pod wlTpl : PodTemplateSpec) : Go build_error (list PatchOperation) :=
  p_init ← addInitContainer initEnabled pod wlTpl config;
  '(p_agent, anns) ← addAgentContainer pod wlTpl config;
  p_vols ← addAgentVolumes pod;
  Ret (p_init ++ p_agent ++ addPullSecrets pod config ++ p_vols ++ hidePorts pod config ++
       addPodAnnotations pod (<[InjectTrafficAgent := "enabled"%string]> anns) ++ addPodLabels pod config ++ maybeRemoveAppContainer pod config ++
       (if negb (sf_APIPort config =? 0)
        then addTPEnv pod config {[ EnvAPIHost := "localhost"%string; EnvAPIPort := itoa (sf_APIPort config) ]} else [])).
End Injector.
