(* ===== verification/InjectorSpec.v ===== *)
(** * Correctness of the injected patch

    The meaning of a patch is that of RFC 6902, restricted to the paths that occur: [apply_op]
    applies an operation to a pod ([replace] of an absent member adds it, as the API server
    has it).  The theorems say what pod results. *)
From S2P Require Import Prelude NetIP GoStrings GoText GoJson PortTypes PortSpec Matcher Icept Policies AgentConfig AgentSpec Kube Discovery Generator GeneratorSpec AgentContainer Injector.
From Stdlib Require Import Ascii.
Local Open Scope Z_scope.

(** ** Patches *)
Definition segments (path : string) : list string := tail (SplitByte path "/").
Definition nat_of (s : string) : option nat := Z.to_nat <$> nonempty_digits s.

(** An array: [-] is the place after its end. *)
Definition array_op {A} (op ix : string) (v : option A) (l : list A) : option (list A) :=
  if bool_decide (op = "add" /\ ix = "-")%string then v ← v; Some (l ++ [v])
  else
    i ← nat_of ix;
    if negb (Nat.ltb i (length l)) then None
    else if bool_decide (op = "remove"%string) then Some (delete i l)
    else if bool_decide (op = "replace"%string) then v ← v; Some (<[i := v]> l)
    else None.

Definition set_ports (c : KContainer) (ports : list CPort) : KContainer :=
  mkKC (kc_Name c) (kc_Image c) (kc_Args c) ports (kc_Env c) (kc_EnvFrom c) (kc_VolumeMounts c) (kc_LivenessProbe c) (kc_ReadinessProbe c) (kc_StartupProbe c) (kc_SecurityContext c).
Definition set_env (c : KContainer) (env : option (list EnvVar)) : KContainer :=
  mkKC (kc_Name c) (kc_Image c) (kc_Args c) (kc_Ports c) env (kc_EnvFrom c) (kc_VolumeMounts c) (kc_LivenessProbe c) (kc_ReadinessProbe c) (kc_StartupProbe c) (kc_SecurityContext c).
Definition set_probes (c : KContainer) (l r s : option Probe) : KContainer :=
  mkKC (kc_Name c) (kc_Image c) (kc_Args c) (kc_Ports c) (kc_Env c) (kc_EnvFrom c) (kc_VolumeMounts c) l r s (kc_SecurityContext c).
Definition set_http (n : string) (p : Probe) : Probe := mkProbe (Some (FromString n)) (pr_TCPSocket p) (pr_Exec p).
Definition set_tcp (n : string) (p : Probe) : Probe := mkProbe (pr_HTTPGet p) (Some (FromString n)) (pr_Exec p).
Definition upd_probe (name : string) (f : Probe -> Probe) (c : KContainer) : KContainer :=
  let at_ n p := if bool_decide (name = n) then f <$> p else p in
  set_probes c (at_ "livenessProbe"%string (kc_LivenessProbe c)) (at_ "readinessProbe"%string (kc_ReadinessProbe c)) (at_ "startupProbe"%string (kc_StartupProbe c)).

(** A member of a container. *)
Definition container_op (op : string) (segs : list string) (v : PatchValue) (c : KContainer) : option KContainer :=
  match segs, v with
  | [a; x; y], VText n =>
      if bool_decide (a = "ports" /\ y = "name")%string then
        j ← nat_of x; if Nat.ltb j (length (kc_Ports c)) then Some (set_ports c (alter (fun p => mkCPort n (cp_ContainerPort p) (cp_Protocol p)) j (kc_Ports c))) else None
      else if bool_decide (x = "httpGet" /\ y = "port")%string then Some (upd_probe a (set_http n) c)
      else if bool_decide (x = "tcpSocket" /\ y = "port")%string then Some (upd_probe a (set_tcp n) c)
      else None
  | [a], VEnvs l => if bool_decide (a = "env"%string) then Some (set_env c (Some l)) else None
  | [a; x], VEnv e => if bool_decide (a = "env" /\ x = "-")%string then es ← kc_Env c; Some (set_env c (Some (es ++ [e]))) else None
  | _, _ => None
  end.

Definition with_spec (pod : PodTemplateSpec) (cns inits : list KContainer) (vols : option (list string)) (secrets : list string) : PodTemplateSpec :=
  mkPT (pt_Meta pod) (mkPodSpec cns inits vols secrets (ps_RunAsGroup (pt_Spec pod))).
Definition set_containers (pod : PodTemplateSpec) (cns : list KContainer) : PodTemplateSpec :=
  with_spec pod cns (ps_InitContainers (pt_Spec pod)) (ps_Volumes (pt_Spec pod)) (ps_PullSecrets (pt_Spec pod)).
Definition set_inits (pod : PodTemplateSpec) (inits : list KContainer) : PodTemplateSpec :=
  with_spec pod (ps_Containers (pt_Spec pod)) inits (ps_Volumes (pt_Spec pod)) (ps_PullSecrets (pt_Spec pod)).
Definition set_volumes (pod : PodTemplateSpec) (vols : option (list string)) : PodTemplateSpec :=
  with_spec pod (ps_Containers (pt_Spec pod)) (ps_InitContainers (pt_Spec pod)) vols (ps_PullSecrets (pt_Spec pod)).
Definition set_secrets (pod : PodTemplateSpec) (secrets : list string) : PodTemplateSpec :=
  with_spec pod (ps_Containers (pt_Spec pod)) (ps_InitContainers (pt_Spec pod)) (ps_Volumes (pt_Spec pod)) secrets.
Definition set_meta (pod : PodTemplateSpec) (labels anns : option (gmap string string)) : PodTemplateSpec :=
  let m := pt_Meta pod in mkPT (mkMeta (m_Name m) (m_Namespace m) (m_UID m) labels anns (m_Owners m)) (pt_Spec pod).
Definition as_container (v : PatchValue) : option KContainer := match v with VContainer c => Some c | _ => None end.
Definition as_secret (v : PatchValue) : option string := match v with VSecret s => Some s | _ => None end.
Definition as_volume (v : PatchValue) : option string := match v with VVolume s => Some s | _ => None end.

Definition member_op (name : string) (v : PatchValue) (pod : PodTemplateSpec) : option PodTemplateSpec :=
  match v with
  | VContainers l => if bool_decide (name = "initContainers"%string) then Some (set_inits pod l) else None
  | VSecrets l => if bool_decide (name = "imagePullSecrets"%string) then Some (set_secrets pod l) else None
  | VVolumes l => if bool_decide (name = "volumes"%string) then Some (set_volumes pod (Some l)) else None
  | _ => None
  end.
Definition element_op (op name ix : string) (v : PatchValue) (pod : PodTemplateSpec) : option PodTemplateSpec :=
  let spec := pt_Spec pod in
  if bool_decide (name = "containers"%string) then set_containers pod <$> array_op op ix (as_container v) (ps_Containers spec)
  else if bool_decide (name = "initContainers"%string) then set_inits pod <$> array_op op ix (as_container v) (ps_InitContainers spec)
  else if bool_decide (name = "imagePullSecrets"%string) then set_secrets pod <$> array_op op ix (as_secret v) (ps_PullSecrets spec)
  else if bool_decide (name = "volumes"%string) then vs ← ps_Volumes spec; vs ← array_op op ix (as_volume v) vs; Some (set_volumes pod (Some vs))
  else None.
Definition meta_op (name : string) (v : PatchValue) (pod : PodTemplateSpec) : option PodTemplateSpec :=
  match v with
  | VMap m =>
      if bool_decide (name = "annotations"%string) then Some (set_meta pod (m_Labels (pt_Meta pod)) (Some m))
      else if bool_decide (name = "labels"%string) then Some (set_meta pod (Some m) (m_Annotations (pt_Meta pod)))
      else None
  | _ => None
  end.
Definition pod_op (op : string) (segs : list string) (v : PatchValue) (pod : PodTemplateSpec) : option PodTemplateSpec :=
  match segs with
  | [a; b] => if bool_decide (a = "metadata"%string) then meta_op b v pod else if bool_decide (a = "spec"%string) then member_op b v pod else None
  | [a; b; ix] => if bool_decide (a = "spec"%string) then element_op op b ix v pod else None
  | a :: b :: ix :: segs =>
      if bool_decide (a = "spec" /\ b = "containers")%string then
        i ← nat_of ix; c ← ps_Containers (pt_Spec pod) !! i; c ← container_op op segs v c;
        Some (set_containers pod (<[i := c]> (ps_Containers (pt_Spec pod))))
      else None
  | _ => None
  end.
Definition apply_op (pod : PodTemplateSpec) (o : PatchOperation) : option PodTemplateSpec := pod_op (op_Op o) (segments (op_Path o)) (op_Value o) pod.
Fixpoint apply_ops (ops : list PatchOperation) (pod : PodTemplateSpec) : option PodTemplateSpec :=
  match ops with [] => Some pod | o :: ops => pod ← apply_op pod o; apply_ops ops pod end.

Lemma apply_ops_app ops1 ops2 pod : apply_ops (ops1 ++ ops2) pod = apply_ops ops1 pod ≫= apply_ops ops2.
Proof.
  revert pod. induction ops1 as [|o ops1 IH]; intros pod; [done|]. cbn [app apply_ops]. destruct (apply_op pod o); [apply IH|done].
Qed.

(** ** Paths *)
Lemma segments_ptr segs : Forall (no_char "/") segs -> segments (ptr segs) = segs.
Proof.
  assert (Hp : forall l s, no_char "/" s -> Forall (no_char "/") l -> SplitByte (s +:+ ptr l) "/" = s :: l).
  { intros l. induction l as [|t l IH]; intros s Hs Hl; cbn [ptr].
    - rewrite str_app_nil. by apply SplitByte_no_char.
    - apply Forall_cons in Hl as [Ht Hl]. change ("/" +:+ t +:+ ptr l) with (String "/" (t +:+ ptr l)). rewrite SplitByte_app by done. by rewrite IH. }
  intros H. unfold segments. change (ptr segs) with (EmptyString +:+ ptr segs). by rewrite Hp.
Qed.
Lemma idx_no_slash i : no_char "/" (idx i).
Proof. apply itoa_no_char; [lia|done]. Qed.
Lemma nat_of_idx i : nat_of (idx i) = Some i.
Proof. unfold nat_of, idx. rewrite itoa_digits by lia. cbn. by rewrite Nat2Z.id. Qed.
Lemma idx_not_dash i : idx i <> "-"%string.
Proof. intros H. pose proof (itoa_digits (Z.of_nat i) ltac:(lia)) as Hd. fold (idx i) in Hd. rewrite H in Hd. discriminate. Qed.
Lemma array_replace {A} i (v : A) (l : list A) : (i < length l)%nat -> array_op "replace" (idx i) (Some v) l = Some (<[i := v]> l).
Proof. intros Hi. unfold array_op. rewrite bool_decide_false by naive_solver. rewrite nat_of_idx. cbn [mbind option_bind]. apply Nat.ltb_lt in Hi. by rewrite Hi. Qed.
Lemma array_remove {A} i (v : option A) (l : list A) : (i < length l)%nat -> array_op "remove" (idx i) v l = Some (delete i l).
Proof. intros Hi. unfold array_op. rewrite bool_decide_false by naive_solver. rewrite nat_of_idx. cbn [mbind option_bind]. apply Nat.ltb_lt in Hi. by rewrite Hi. Qed.
Lemma array_add {A} (v : A) (l : list A) : array_op "add" "-" (Some v) l = Some (l ++ [v]).
Proof. unfold array_op. by rewrite bool_decide_true. Qed.
Ltac no_slash := repeat (constructor; [first [apply idx_no_slash|assumption|vm_compute; reflexivity]|]); constructor.
Lemma apply_op_ptr pod op segs v : Forall (no_char "/") segs -> apply_op pod (mkOp op (ptr segs) v) = pod_op op segs v pod.
Proof. intros H. unfold apply_op. cbn [op_Op op_Path op_Value]. by rewrite segments_ptr. Qed.


Section Effect.
Context `{K8sApi, ObjectJson, MapOrder}.

Lemma set_containers_id pod : set_containers pod (ps_Containers (pt_Spec pod)) = pod.
Proof. by destruct pod as [m []]. Qed.
Lemma set_containers_twice pod l1 l2 : set_containers (set_containers pod l1) l2 = set_containers pod l2.
Proof. done. Qed.

(** ** Operations on one container *)
Definition in_container (i : nat) (o : list string * PatchValue) : PatchOperation :=
  mkOp "replace" (ptr ("spec"%string :: "containers"%string :: idx i :: o.1)) o.2.
Fixpoint run_container (ops : list (list string * PatchValue)) (c : KContainer) : option KContainer :=
  match ops with [] => Some c | (segs, v) :: ops => c ← container_op "replace" segs v c; run_container ops c end.
Definition long_path (o : list string * PatchValue) : Prop := o.1 <> [] /\ Forall (no_char "/") o.1.

Lemma container_op_effect cur i o c c' : long_path o -> ps_Containers (pt_Spec cur) !! i = Some c -> container_op "replace" o.1 o.2 c = Some c' ->
  apply_op cur (in_container i o) = Some (set_containers cur (<[i := c']> (ps_Containers (pt_Spec cur)))).
Proof.
  intros [Hne Hs] Hl Hc. destruct o as [segs v]. cbn [fst snd] in *. unfold in_container. cbn [fst snd].
  rewrite apply_op_ptr by (repeat constructor; [vm_compute; reflexivity..|apply idx_no_slash|done]).
  destruct segs as [|s segs]; [done|]. cbn [pod_op]. rewrite nat_of_idx. cbn [mbind option_bind]. rewrite Hl. cbn [mbind option_bind]. by rewrite Hc.
Qed.
Lemma run_container_effect cur i ops c c' : Forall long_path ops -> ps_Containers (pt_Spec cur) !! i = Some c -> run_container ops c = Some c' ->
  apply_ops (in_container i <$> ops) cur = Some (set_containers cur (<[i := c']> (ps_Containers (pt_Spec cur)))).
Proof.
  intros Hp. revert cur c. induction Hp as [|[segs v] ops Ho Hp IH]; intros cur c Hl Hr.
  - injection Hr as ->. cbn [fmap list_fmap apply_ops]. by rewrite list_insert_id, set_containers_id.
  - cbn [run_container] in Hr. destruct (container_op "replace" segs v c) as [c1|] eqn:Hc; [|discriminate]. cbn [fmap list_fmap apply_ops].
    rewrite (container_op_effect cur i (segs, v) c c1) by done. cbn [mbind option_bind].
    pose proof (lookup_lt_Some _ _ _ Hl). rewrite (IH _ c1); [|cbn; by rewrite list_lookup_insert_eq|done].
    cbn [set_containers with_spec pt_Spec ps_Containers]. by rewrite list_insert_insert_eq.
Qed.

(** ** Hiding one port *)
Definition hide_probe (pname portName : string) (p : option Probe) (c : KContainer) : KContainer :=
  match p with
  | None => c
  | Some p =>
      let c := if probe_port (pr_HTTPGet p) portName then upd_probe pname (set_http (hiddenPortName portName 0)) c else c in
      if probe_port (pr_TCPSocket p) portName then upd_probe pname (set_tcp (hiddenPortName portName 0)) c else c
  end.
Definition rename_port (n : string) (p : CPort) : CPort := mkCPort n (cp_ContainerPort p) (cp_Protocol p).
Definition hide_named (app : KContainer) (portName : string) (c : KContainer) : KContainer :=
  match list_find (fun p => cp_Name p = portName) (kc_Ports app) with
  | Some (j, _) => set_ports c (alter (rename_port (hiddenPortName portName 0)) j (kc_Ports c))
  | None => c
  end.
(** The container after a port and the references of its probes to it are renamed; the
    places are those of the container [app] as it was. *)
Definition hide_one (app : KContainer) (c : KContainer) (portName : string) : KContainer :=
  hide_probe "startupProbe" portName (kc_StartupProbe app)
    (hide_probe "readinessProbe" portName (kc_ReadinessProbe app)
       (hide_probe "livenessProbe" portName (kc_LivenessProbe app) (hide_named app portName c))).

Lemma hide_probe_ports pname n p c : kc_Ports (hide_probe pname n p c) = kc_Ports c.
Proof. unfold hide_probe. destruct p as [p|]; [|done]. by destruct (probe_port (pr_HTTPGet p) n), (probe_port (pr_TCPSocket p) n). Qed.
Lemma hide_probe_name pname n p c : kc_Name (hide_probe pname n p c) = kc_Name c.
Proof. unfold hide_probe. destruct p as [p|]; [|done]. by destruct (probe_port (pr_HTTPGet p) n), (probe_port (pr_TCPSocket p) n). Qed.
Lemma hide_one_ports app c n : kc_Ports (hide_one app c n) = kc_Ports (hide_named app n c).
Proof. unfold hide_one. by rewrite !hide_probe_ports. Qed.
Lemma hide_one_name app c n : kc_Name (hide_one app c n) = kc_Name c.
Proof. unfold hide_one. rewrite !hide_probe_name. unfold hide_named. by destruct (list_find _ _) as [[? ?]|]. Qed.
Lemma hide_one_length app c n : length (kc_Ports (hide_one app c n)) = length (kc_Ports c).
Proof. rewrite hide_one_ports. unfold hide_named. destruct (list_find _ _) as [[? ?]|]; [|done]. apply length_alter. Qed.

Definition probe_ops (portName pname : string) (p : option Probe) : list (list string * PatchValue) :=
  match p with
  | None => []
  | Some p => (if probe_port (pr_HTTPGet p) portName then [([pname; "httpGet"; "port"]%string, VText (hiddenPortName portName 0))] else []) ++
              (if probe_port (pr_TCPSocket p) portName then [([pname; "tcpSocket"; "port"]%string, VText (hiddenPortName portName 0))] else [])
  end.
Definition hide_ops (app : KContainer) (portName : string) : list (list string * PatchValue) :=
  match list_find (fun p => cp_Name p = portName) (kc_Ports app) with
  | Some (j, _) => [(["ports"; idx j; "name"]%string, VText (hiddenPortName portName 0))]
  | None => []
  end ++ probe_ops portName "livenessProbe" (kc_LivenessProbe app) ++ probe_ops portName "readinessProbe" (kc_ReadinessProbe app) ++
  probe_ops portName "startupProbe" (kc_StartupProbe app).
Lemma hide_ops_eq i app n : hideContainerPorts i app n = in_container i <$> hide_ops app n.
Proof.
  unfold hideContainerPorts, hide_ops, probe_ops. rewrite !fmap_app.
  f_equal; [by destruct (list_find _ _) as [[? ?]|]|]. f_equal; [|f_equal];
  (match goal with |- context [match ?x with Some _ => _ | None => _ end] => destruct x as [pr|] end; [|done]);
  by destruct (probe_port (pr_HTTPGet pr) n), (probe_port (pr_TCPSocket pr) n).
Qed.
Lemma run_container_app ops1 ops2 c : run_container (ops1 ++ ops2) c = run_container ops1 c ≫= run_container ops2.
Proof. revert c. induction ops1 as [|[segs v] ops1 IH]; intros c; [done|]. cbn [app run_container]. destruct (container_op _ segs v c); [apply IH|done]. Qed.
Lemma run_probe n pname p c : pname <> "ports"%string -> run_container (probe_ops n pname p) c = Some (hide_probe pname n p c).
Proof.
  intros Hn. unfold probe_ops, hide_probe. destruct p as [p|]; [|done].
  assert (Hh : forall v c, container_op "replace" [pname; "httpGet"; "port"]%string (VText v) c = Some (upd_probe pname (set_http v) c)).
  { intros v c0. unfold container_op. by rewrite bool_decide_false by (intros [? ?]; done). }
  assert (Ht : forall v c, container_op "replace" [pname; "tcpSocket"; "port"]%string (VText v) c = Some (upd_probe pname (set_tcp v) c)).
  { intros v c0. unfold container_op. by rewrite bool_decide_false by (intros [? ?]; done). }
  destruct (probe_port (pr_HTTPGet p) n), (probe_port (pr_TCPSocket p) n); cbn [app run_container]; rewrite ?Hh, ?Ht; cbn [mbind option_bind]; rewrite ?Hh, ?Ht; done.
Qed.
Lemma run_hide app n c : length (kc_Ports c) = length (kc_Ports app) -> run_container (hide_ops app n) c = Some (hide_one app c n).
Proof.
  intros Hlen. unfold hide_ops, hide_one. rewrite run_container_app.
  assert (Hn : run_container match list_find (fun p => cp_Name p = n) (kc_Ports app) with
                 | Some (j, _) => [(["ports"; idx j; "name"]%string, VText (hiddenPortName n 0))] | None => [] end c = Some (hide_named app n c)).
  { unfold hide_named. destruct (list_find _ _) as [[j p]|] eqn:Hf; [|done]. cbn [run_container container_op].
    rewrite bool_decide_true by done. rewrite nat_of_idx. cbn [mbind option_bind].
    apply list_find_Some in Hf as (Hl & _). apply lookup_lt_Some in Hl. rewrite <- Hlen in Hl. apply Nat.ltb_lt in Hl. by rewrite Hl. }
  rewrite Hn. cbn [mbind option_bind]. rewrite run_container_app, run_probe by done. cbn [mbind option_bind].
  rewrite run_container_app, run_probe by done. cbn [mbind option_bind]. by rewrite run_probe.
Qed.
Lemma hide_ops_paths app n : Forall long_path (hide_ops app n).
Proof.
  assert (Hp : forall pname p, no_char "/" pname -> Forall long_path (probe_ops n pname p)).
  { intros pname p Hs. unfold probe_ops. destruct p as [p|]; [|constructor].
    assert (Hlp : forall x, no_char "/" x -> forall v, long_path ([pname; x; "port"]%string, v)).
    { intros x Hx v. split; [done|]. cbn [fst]. no_slash. }
    apply Forall_app_2; (case_match; [constructor; [apply Hlp; vm_compute; reflexivity|constructor]|constructor]). }
  unfold hide_ops. apply Forall_app_2.
  - destruct (list_find _ _) as [[j p]|]; [|constructor]. constructor; [|constructor]. split; [done|]. cbn [fst]. no_slash.
  - repeat apply Forall_app_2; apply Hp; vm_compute; reflexivity.
Qed.
Definition hide_all (app : KContainer) (names : list string) (c : KContainer) : KContainer := foldl (hide_one app) c names.
Lemma hide_all_effect cur i app names c : ps_Containers (pt_Spec cur) !! i = Some c -> length (kc_Ports c) = length (kc_Ports app) ->
  apply_ops (names ≫= hideContainerPorts i app) cur = Some (set_containers cur (<[i := hide_all app names c]> (ps_Containers (pt_Spec cur)))).
Proof.
  revert cur c. induction names as [|n names IH]; intros cur c Hl Hlen.
  - cbn [mbind list_bind apply_ops hide_all foldl]. by rewrite list_insert_id, set_containers_id.
  - change ((n :: names) ≫= hideContainerPorts i app) with (hideContainerPorts i app n ++ (names ≫= hideContainerPorts i app)).
    rewrite apply_ops_app, hide_ops_eq, (run_container_effect cur i _ c (hide_one app c n)); [|apply hide_ops_paths|done|by apply run_hide].
    cbn [mbind option_bind]. pose proof (lookup_lt_Some _ _ _ Hl).
    rewrite (IH _ (hide_one app c n)); [|by cbn; rewrite list_lookup_insert_eq|by rewrite hide_one_length].
    cbn [set_containers with_spec pt_Spec ps_Containers]. by rewrite list_insert_insert_eq.
Qed.

(** ** Hiding the ports of all containers *)
Definition config_of (ccs : list ContainerConfig) (name : string) : option ContainerConfig := snd <$> list_find (fun cc => cc_Name cc = name) ccs.
(** A container after its symbolic ports are hidden. *)
Definition hide_container (ccs : list ContainerConfig) (c : KContainer) : KContainer :=
  match config_of ccs (kc_Name c) with Some cc => hide_all c (hidden_names cc) c | None => c end.
Definition container_ops (cns : list KContainer) (cc : ContainerConfig) : list PatchOperation :=
  match list_find (fun app => kc_Name app = cc_Name cc) cns with Some (i, app) => hidden_names cc ≫= hideContainerPorts i app | None => [] end.
Lemma hidePorts_eq pod config : hidePorts pod config = sf_Containers config ≫= container_ops (ps_Containers (pt_Spec pod)).
Proof.
  unfold hidePorts, EachContainer, container_ops. induction (sf_Containers config) as [|cc ccs IH]; [done|].
  cbn [omap list_omap mbind list_bind]. destruct (list_find _ _) as [[i app]|]; cbn [mbind option_bind]; [|exact IH].
  cbn [mbind list_bind]. f_equal. exact IH.
Qed.
Lemma config_of_snoc ccs cc name : config_of (ccs ++ [cc]) name = match config_of ccs name with Some c => Some c | None => if bool_decide (cc_Name cc = name) then Some cc else None end.
Proof.
  unfold config_of. induction ccs as [|c ccs IH]; cbn [app list_find].
  - rewrite <- decide_bool_decide. by destruct (decide (cc_Name cc = name)).
  - destruct (decide (cc_Name c = name)); [done|].
    destruct (list_find _ (ccs ++ [cc])) as [[? ?]|], (list_find _ ccs) as [[? ?]|]; cbn in *; congruence.
Qed.
Lemma config_of_None ccs name : config_of ccs name = None <-> name ∉ cc_Name <$> ccs.
Proof.
  unfold config_of. rewrite fmap_None, list_find_None, Forall_forall, list_elem_of_fmap. split.
  - intros Hn (cc & -> & Hin). by apply (Hn cc).
  - intros Hn cc Hin He. apply Hn. by exists cc.
Qed.
Lemma config_of_Some ccs name cc : config_of ccs name = Some cc -> cc ∈ ccs /\ cc_Name cc = name.
Proof.
  unfold config_of. intros ([i c] & Hf & ->)%fmap_Some. apply list_find_Some in Hf as (Hl & ? & _). split; [by apply list_elem_of_lookup_2 in Hl|done].
Qed.
Lemma hidePorts_effect cns ccs rest cur : NoDup (kc_Name <$> cns) -> NoDup (cc_Name <$> ccs) ->
  ps_Containers (pt_Spec cur) = cns ++ rest ->
  apply_ops (ccs ≫= container_ops cns) cur = Some (set_containers cur ((hide_container ccs <$> cns) ++ rest)).
Proof.
  intros Hcn. revert cur. induction ccs as [|cc ccs IH] using rev_ind; intros cur Hcc Hcur.
  - cbn [mbind list_bind apply_ops]. assert (He : hide_container [] <$> cns = cns) by (rewrite <- (list_fmap_id cns) at 2; done).
    by rewrite He, <- Hcur, set_containers_id.
  - rewrite fmap_app in Hcc. apply NoDup_app in Hcc as (Hcc & Hdis & _). 
    assert (Hone : [cc] ≫= container_ops cns = container_ops cns cc) by (cbn; apply app_nil_r).
    rewrite bind_app, Hone, apply_ops_app, IH by done. cbn [mbind option_bind].
    assert (Hnew : cc_Name cc ∉ cc_Name <$> ccs) by (intros Hin; apply (Hdis _ Hin); apply list_elem_of_here).
    unfold container_ops.
    assert (Hoth : forall c, kc_Name c <> cc_Name cc -> hide_container (ccs ++ [cc]) c = hide_container ccs c).
    { intros c Hne. unfold hide_container. rewrite config_of_snoc. destruct (config_of ccs (kc_Name c)); [done|]. by rewrite bool_decide_false. }
    destruct (list_find _ cns) as [[i app]|] eqn:Hf.
    + apply list_find_Some in Hf as (Hl & Hname & _). pose proof (lookup_lt_Some _ _ _ Hl) as Hlt.
      assert (Happ : hide_container ccs app = app).
      { unfold hide_container. rewrite Hname. by rewrite (proj2 (config_of_None ccs (cc_Name cc)) Hnew). }
      rewrite (hide_all_effect _ i app (hidden_names cc) app); [| |done].
      2: { cbn. rewrite lookup_app_l by (by rewrite length_fmap). by rewrite list_lookup_fmap, Hl; cbn; rewrite Happ. }
      cbn [set_containers with_spec pt_Spec ps_Containers ps_InitContainers ps_Volumes ps_PullSecrets ps_RunAsGroup pt_Meta]. do 3 f_equal.
      rewrite insert_app_l by (by rewrite length_fmap). f_equal. apply list_eq. intros j.
      destruct (decide (j = i)) as [->|Hne].
      * rewrite list_lookup_insert_eq by (by rewrite length_fmap). rewrite list_lookup_fmap, Hl. cbn. f_equal. unfold hide_container.
        rewrite config_of_snoc, Hname, (proj2 (config_of_None ccs (cc_Name cc)) Hnew). by rewrite bool_decide_true.
      * rewrite list_lookup_insert_ne, !list_lookup_fmap by done. destruct (cns !! j) as [c|] eqn:Hj; [|done]. cbn. f_equal. symmetry. apply Hoth.
        intros He. apply Hne. apply (NoDup_lookup _ _ _ (kc_Name c) Hcn); [by rewrite list_lookup_fmap, Hj|]. rewrite list_lookup_fmap, Hl. cbn. congruence.
    + apply list_find_None in Hf. rewrite Forall_forall in Hf. cbn [apply_ops]. do 3 f_equal. apply list_fmap_ext.
      intros j c Hj. symmetry. apply Hoth. apply Hf. by apply list_elem_of_lookup_2 in Hj.
Qed.

(** ** Removing the replaced containers *)
Lemma replaced_cases config cn : NoDup (cc_Name <$> sf_Containers config) -> replaced config cn = [] \/ exists cc, replaced config cn = [cc].
Proof.
  unfold replaced. induction (sf_Containers config) as [|cc ccs IH]; [by left|]. intros Hnd. cbn [fmap list_fmap] in Hnd. apply NoDup_cons in Hnd as [Hno Hnd].
  rewrite filter_cons. destruct (decide _) as [[Hn _]|_]; [|by apply IH]. right. exists cc. f_equal. apply filter_none, Forall_forall.
  intros cc' Hin [Hn' _]. apply Hno. rewrite Hn, <- Hn'. by apply list_elem_of_fmap_2.
Qed.
Definition removal_ops (config : SidecarConfig) (p : nat * KContainer) : list PatchOperation :=
  (fun _ => mkOp "remove" (ptr ["spec"; "containers"; idx p.1]%string) VNone) <$> replaced config p.2.
Lemma removal_eq pod config : maybeRemoveAppContainer pod config = reverse (imap pair (ps_Containers (pt_Spec pod))) ≫= removal_ops config.
Proof. unfold maybeRemoveAppContainer. apply list_bind_ext; [|done]. by intros [? ?]. Qed.
Lemma removal_effect config cns (f : KContainer -> KContainer) rest cur : NoDup (cc_Name <$> sf_Containers config) ->
  ps_Containers (pt_Spec cur) = (f <$> cns) ++ rest ->
  apply_ops (reverse (imap pair cns) ≫= removal_ops config) cur = Some (set_containers cur ((f <$> filter (fun c => replaced config c = []) cns) ++ rest)).
Proof.
  intros Hnd. revert cur rest. induction cns as [|c cns IH] using rev_ind; intros cur rest Hcur.
  - cbn [imap reverse rev_append mbind list_bind apply_ops filter list_filter fmap list_fmap app] in *. by rewrite <- Hcur, set_containers_id.
  - rewrite imap_app. cbn [imap]. rewrite reverse_app, reverse_singleton. cbn [app].
    rewrite bind_cons, apply_ops_app, filter_app, fmap_app.
    rewrite fmap_app, <- app_assoc in Hcur. destruct (replaced_cases config c Hnd) as [Hr|[cc Hr]];
      (eassert (Hop : removal_ops config ((length cns + 0)%nat, c) = _) by (unfold removal_ops; cbn [fst snd]; rewrite Hr; reflexivity));
      rewrite Hop, ?Nat.add_0_r; clear Hop.
    + cbn [fmap list_fmap apply_ops mbind option_bind]. rewrite (IH cur _ Hcur). do 2 f_equal.
      rewrite filter_cons_True by done. by rewrite <- app_assoc.
    + cbn [fmap list_fmap apply_ops]. rewrite apply_op_ptr by no_slash. cbn [pod_op]. rewrite bool_decide_true by done. unfold element_op.
      rewrite bool_decide_true by done. rewrite Hcur.
      rewrite array_remove by (rewrite length_app, length_fmap; cbn; lia). cbn [fmap option_fmap option_map mbind option_bind].
      assert (Hdel : delete (length cns) ((f <$> cns) ++ (f <$> [c]) ++ rest) = (f <$> cns) ++ rest).
      { rewrite <- (length_fmap f cns). apply delete_middle. }
      change (list_fmap KContainer KContainer f [c]) with (f <$> [c]). rewrite Hdel.
      rewrite (IH _ rest) by done. rewrite set_containers_twice. do 2 f_equal. rewrite filter_cons_False by (by rewrite Hr). by rewrite app_nil_r.
Qed.

(** ** The other members of the pod *)
Lemma set_inits_id pod : set_inits pod (ps_InitContainers (pt_Spec pod)) = pod.
Proof. by destruct pod as [m []]. Qed.
Lemma set_secrets_id pod : set_secrets pod (ps_PullSecrets (pt_Spec pod)) = pod.
Proof. by destruct pod as [m []]. Qed.
Lemma set_volumes_id pod : set_volumes pod (ps_Volumes (pt_Spec pod)) = pod.
Proof. by destruct pod as [m []]. Qed.
Lemma set_meta_id pod : set_meta pod (m_Labels (pt_Meta pod)) (m_Annotations (pt_Meta pod)) = pod.
Proof. by destruct pod as [[] ?]. Qed.
Lemma element_step cur op name ix v : no_char "/" name -> no_char "/" ix ->
  apply_op cur (mkOp op (ptr ["spec"%string; name; ix]) v) = element_op op name ix v cur.
Proof. intros Hn Hi. rewrite apply_op_ptr by no_slash. cbn [pod_op]. by rewrite bool_decide_true. Qed.
Lemma member_step cur op name v : no_char "/" name -> apply_op cur (mkOp op (ptr ["spec"%string; name]) v) = member_op name v cur.
Proof. intros Hn. rewrite apply_op_ptr by no_slash. cbn [pod_op]. rewrite bool_decide_false by done. by rewrite bool_decide_true. Qed.

Lemma init_effect enabled pod wlTpl config ops cur : addInitContainer enabled pod wlTpl config = Ret ops ->
  ps_InitContainers (pt_Spec cur) = ps_InitContainers (pt_Spec pod) ->
  exists inits, apply_ops ops cur = Some (set_inits cur inits) /\
    (forall c, kc_Name c <> InitContainerName -> c ∈ inits <-> c ∈ ps_InitContainers (pt_Spec pod)) /\
    (needInitContainer enabled config = true -> InitContainerName ∈ kc_Name <$> inits).
Proof.
  unfold addInitContainer. set (pis := ps_InitContainers (pt_Spec pod)). intros Ho Hc.
  assert (Hsame : exists inits, apply_ops [] cur = Some (set_inits cur inits) /\ inits = pis).
  { exists pis. split; [|done]. cbn [apply_ops]. by rewrite <- Hc, set_inits_id. }
  destruct (needInitContainer enabled config); cbn [negb] in Ho.
  - set (ic := InitContainer config (agent_security_context wlTpl config)) in *. case_bool_decide as Hn.
    { apply Ret_inj in Ho; subst ops. exists [ic]. cbn [apply_ops]. rewrite member_step by (vm_compute; reflexivity). split; [done|].
      split; [|intros _; apply list_elem_of_here]. intros c Hne. rewrite Hn, list_elem_of_singleton. split; [intros ->; by destruct Hne|intros Hin; by apply not_elem_of_nil in Hin]. }
    change (kc_Name ic) with InitContainerName in Ho. destruct (list_find _ pis) as [[i oc]|] eqn:Hf.
    + apply list_find_Some in Hf as (Hl & Hname & _). pose proof (lookup_lt_Some _ _ _ Hl) as Hlt.
      assert (Hrep : exists inits, apply_ops [mkOp "replace" (ptr ["spec"; "initContainers"; idx i]%string) (VContainer ic)] cur = Some (set_inits cur inits) /\ inits = <[i := ic]> pis).
      { eexists. split; [|reflexivity]. cbn [apply_ops]. rewrite element_step by (first [apply idx_no_slash|vm_compute; reflexivity]).
        unfold element_op. rewrite bool_decide_false, bool_decide_true by done. rewrite Hc. fold pis. cbn [as_container]. by rewrite array_replace. }
      assert (Hkeep : forall inits, inits = pis \/ inits = <[i := ic]> pis ->
        (forall c, kc_Name c <> InitContainerName -> c ∈ inits <-> c ∈ pis) /\ InitContainerName ∈ kc_Name <$> inits).
      { intros inits [->| ->].
        - split; [done|]. rewrite <- Hname. apply list_elem_of_fmap_2. by apply list_elem_of_lookup_2 in Hl.
        - split.
          + intros c Hne. rewrite !list_elem_of_lookup. split; intros [j Hj].
            * apply list_lookup_insert_Some in Hj as [(_ & <- & _)|[_ Hj]]; [by destruct Hne|eauto].
            * exists j. rewrite list_lookup_insert_ne; [done|]. intros ->. rewrite Hl in Hj. injection Hj as ->. congruence.
          + change InitContainerName with (kc_Name ic). apply list_elem_of_fmap_2, list_elem_of_lookup. exists i. by apply list_lookup_insert_eq. }
      assert (Hops : ops = [] \/ ops = [mkOp "replace" (ptr ["spec"; "initContainers"; idx i]%string) (VContainer ic)]).
      { destruct (_ && _); [destruct (compareCapabilities _ _) as [[|]|]|]; try (apply Ret_inj in Ho; subst ops; auto); discriminate. }
      destruct Hops as [->| ->]; [destruct Hsame as (inits & Ha & Hi)|destruct Hrep as (inits & Ha & Hi)]; exists inits; (split; [exact Ha|]);
        destruct (Hkeep inits) as [Hk1 Hk2]; [by left|split; [exact Hk1|done]|by right|split; [exact Hk1|done]].
    + apply Ret_inj in Ho; subst ops. exists (pis ++ [ic]). cbn [apply_ops]. rewrite element_step by (vm_compute; reflexivity).
      unfold element_op. rewrite bool_decide_false, bool_decide_true by done. rewrite Hc. fold pis. cbn [as_container]. rewrite array_add. split; [done|]. split.
      * intros c Hne. rewrite elem_of_app, list_elem_of_singleton. split; [intros [?| ->]; [done|by destruct Hne]|by left].
      * intros _. rewrite fmap_app. apply elem_of_app. right. apply list_elem_of_here.
  - destruct (list_find _ pis) as [[i oc]|] eqn:Hf.
    + apply list_find_Some in Hf as (Hl & Hname & _). pose proof (lookup_lt_Some _ _ _ Hl) as Hlt. apply Ret_inj in Ho; subst ops. exists (delete i pis). cbn [apply_ops].
      rewrite element_step by (first [apply idx_no_slash|vm_compute; reflexivity]). unfold element_op. rewrite bool_decide_false, bool_decide_true by done.
      rewrite Hc. fold pis. rewrite array_remove by done. split; [done|]. split; [|done]. intros c Hne.
      rewrite <- (take_drop_middle pis i oc Hl) at 2. rewrite delete_take_drop, !elem_of_app, elem_of_cons. naive_solver.
    + apply Ret_inj in Ho; subst ops. destruct Hsame as (inits & Ha & ->). exists pis. split; [exact Ha|done].
Qed.

Lemma secrets_effect pod config cur : ps_PullSecrets (pt_Spec cur) = ps_PullSecrets (pt_Spec pod) ->
  exists secrets, apply_ops (addPullSecrets pod config) cur = Some (set_secrets cur secrets) /\
    forall s, s ∈ secrets <-> s ∈ ps_PullSecrets (pt_Spec pod) \/ s ∈ st_PullSecrets (sf_Settings config).
Proof.
  intros Hc. unfold addPullSecrets. set (old := ps_PullSecrets (pt_Spec pod)) in *. set (new := st_PullSecrets (sf_Settings config)). case_bool_decide as Hn.
  { exists old. cbn [apply_ops]. rewrite <- Hc at 1. rewrite set_secrets_id. split; [done|]. rewrite Hn. intros s. rewrite elem_of_nil. naive_solver. }
  case_bool_decide as Ho.
  { exists new. cbn [apply_ops]. rewrite member_step by (vm_compute; reflexivity). split; [done|]. rewrite Ho. intros s. rewrite elem_of_nil. naive_solver. }
  assert (Hadd : forall l cur, apply_ops ((fun nps => mkOp "add" (ptr ["spec"; "imagePullSecrets"; "-"]%string) (VSecret nps)) <$> l) cur =
                               Some (set_secrets cur (ps_PullSecrets (pt_Spec cur) ++ l))).
  { intros l. induction l as [|x l IH]; intros cur'; cbn [fmap list_fmap apply_ops]; [by rewrite app_nil_r, set_secrets_id|].
    rewrite element_step by (vm_compute; reflexivity). unfold element_op. rewrite !bool_decide_false by done. rewrite bool_decide_true by done.
    cbn [as_secret]. rewrite array_add. cbn [fmap option_fmap option_map mbind option_bind]. rewrite IH. cbn. by rewrite <- app_assoc. }
  rewrite Hadd, Hc. eexists. split; [done|]. intros s. rewrite elem_of_app, list_elem_of_filter. destruct (decide (s ∈ old)); naive_solver.
Qed.

Lemma volumes_effect pod ops cur : addAgentVolumes pod = Ret ops -> ps_Volumes (pt_Spec cur) = ps_Volumes (pt_Spec pod) ->
  exists vols, apply_ops ops cur = Some (set_volumes cur vols) /\ ExportsVolumeName ∈ default [] vols /\
    (forall v, v ∈ default [] (ps_Volumes (pt_Spec pod)) -> v ∈ default [] vols).
Proof.
  intros Ho Hc. unfold addAgentVolumes in Ho. set (old := ps_Volumes (pt_Spec pod)) in *. case_bool_decide as He.
  { apply Ret_inj in Ho; subst ops. exists old. cbn [apply_ops]. by rewrite <- Hc, set_volumes_id, Hc. }
  destruct (AgentVolumes _) as [avs| |] eqn:Ha; [|discriminate..]. cbn [mbind go_bind] in Ho.
  assert (Hex : ExportsVolumeName ∈ avs).
  { unfold AgentVolumes, appendSecretVolume in Ha. destruct (annotationPrefixedPorts _ DownstreamTLSSecret) as [m1| |]; [|discriminate..].
    destruct (annotationPrefixedPorts _ UpstreamTLSSecret) as [m2| |]; [|discriminate..]. cbn [mbind go_bind] in Ha. apply Ret_inj in Ha. subst avs.
    rewrite !elem_of_app. left. left. apply list_elem_of_further, list_elem_of_here. }
  rewrite bool_decide_false in Ho by (intros ->; by apply not_elem_of_nil in Hex).
  assert (Hadd : forall l cur vs, ps_Volumes (pt_Spec cur) = Some vs -> apply_ops ((fun av => mkOp "add" (ptr ["spec"; "volumes"; "-"]%string) (VVolume av)) <$> l) cur =
                               Some (set_volumes cur (Some (vs ++ l)))).
  { intros l. induction l as [|x l IH]; intros cur' vs Hv; cbn [fmap list_fmap apply_ops]; [by rewrite app_nil_r, <- Hv, set_volumes_id|].
    rewrite element_step by (vm_compute; reflexivity). unfold element_op. rewrite !bool_decide_false by done. rewrite bool_decide_true by done.
    rewrite Hv. cbn [as_volume mbind option_bind]. rewrite array_add. cbn [mbind option_bind]. rewrite (IH _ (vs ++ [x])) by done. by rewrite <- app_assoc. }
  destruct old as [vs|] eqn:Hold; apply Ret_inj in Ho; subst ops.
  - exists (Some (vs ++ avs)). rewrite (Hadd avs cur vs Hc). split; [done|]. cbn. rewrite elem_of_app. split; [by right|]. intros v Hin. apply elem_of_app. by left.
  - exists (Some avs). cbn [apply_ops]. rewrite member_step by (vm_compute; reflexivity). split; [done|]. split; [done|]. intros v Hin. by apply not_elem_of_nil in Hin.
Qed.

(** What a map lacks is added to it. *)
Lemma add_missing_union (m : option (gmap string string)) new : new ∖ entries m = ∅ -> entries m ∪ new = entries m.
Proof.
  intros H2. apply map_eq. intros k. rewrite lookup_union. destruct (entries m !! k) as [v|] eqn:E; [by destruct (new !! k)|].
  destruct (new !! k) as [w|] eqn:E'; [|done]. exfalso. assert (Hd : (new ∖ entries m) !! k = Some w) by (by apply lookup_difference_Some).
  rewrite H2, lookup_empty in Hd. discriminate.
Qed.
Lemma meta_step cur op name v : no_char "/" name -> apply_op cur (mkOp op (ptr ["metadata"%string; name]) v) = meta_op name v cur.
Proof. intros Hn. rewrite apply_op_ptr by no_slash. cbn [pod_op]. by rewrite bool_decide_true. Qed.
Lemma annotations_effect pod new cur : m_Annotations (pt_Meta cur) = m_Annotations (pt_Meta pod) ->
  exists anns, apply_ops (addPodAnnotations pod new) cur = Some (set_meta cur (m_Labels (pt_Meta cur)) anns) /\ entries anns = entries (m_Annotations (pt_Meta pod)) ∪ new.
Proof.
  intros Hc. unfold addPodAnnotations, add_missing. case_bool_decide as Hn.
  - exists (m_Annotations (pt_Meta pod)). cbn [apply_ops]. rewrite <- Hc at 1. rewrite set_meta_id. split; [done|]. by rewrite add_missing_union.
  - eexists. cbn [apply_ops]. rewrite meta_step by (vm_compute; reflexivity). split; [reflexivity|done].
Qed.
Lemma labels_effect pod config cur : m_Labels (pt_Meta cur) = m_Labels (pt_Meta pod) ->
  exists lbs, apply_ops (addPodLabels pod config) cur = Some (set_meta cur lbs (m_Annotations (pt_Meta cur))) /\
    entries lbs = entries (m_Labels (pt_Meta pod)) ∪ {[ WorkloadNameLabel := sf_WorkloadName config; WorkloadKindLabel := sf_WorkloadKind config; WorkloadEnabledLabel := "true"%string ]}.
Proof.
  intros Hc. unfold addPodLabels, add_missing. case_bool_decide as Hn.
  - exists (m_Labels (pt_Meta pod)). cbn [apply_ops]. rewrite <- Hc at 1. rewrite set_meta_id. split; [done|]. by rewrite add_missing_union.
  - eexists. cbn [apply_ops]. rewrite meta_step by (vm_compute; reflexivity). split; [reflexivity|done].
Qed.

(** ** The injected pod *)
Definition kept (config : SidecarConfig) (cns : list KContainer) : list KContainer := filter (fun c => replaced config c = []) cns.
Lemma createPatch_effect initEnabled config pod wlTpl ops acn anns :
  createPatch initEnabled config pod wlTpl = Ret ops -> AgentContainer wlTpl config = Ret (acn, anns) ->
  NoDup (kc_Name <$> ps_Containers (pt_Spec pod)) -> NoDup (cc_Name <$> sf_Containers config) ->
  ContainerName ∉ kc_Name <$> ps_Containers (pt_Spec pod) -> sf_APIPort config = 0 ->
  exists pod', apply_ops ops pod = Some pod' /\
    ps_Containers (pt_Spec pod') = (hide_container (sf_Containers config) <$> kept config (ps_Containers (pt_Spec pod))) ++ [acn] /\
    entries (m_Annotations (pt_Meta pod')) = entries (m_Annotations (pt_Meta pod)) ∪ <[InjectTrafficAgent := "enabled"%string]> anns /\
    entries (m_Labels (pt_Meta pod')) = entries (m_Labels (pt_Meta pod)) ∪
      {[ WorkloadNameLabel := sf_WorkloadName config; WorkloadKindLabel := sf_WorkloadKind config; WorkloadEnabledLabel := "true"%string ]} /\
    (ExportsVolumeName ∈ default [] (ps_Volumes (pt_Spec pod')) /\ forall v, v ∈ default [] (ps_Volumes (pt_Spec pod)) -> v ∈ default [] (ps_Volumes (pt_Spec pod'))) /\
    (forall s, s ∈ ps_PullSecrets (pt_Spec pod') <-> s ∈ ps_PullSecrets (pt_Spec pod) \/ s ∈ st_PullSecrets (sf_Settings config)) /\
    (needInitContainer initEnabled config = true -> InitContainerName ∈ kc_Name <$> ps_InitContainers (pt_Spec pod')).
Proof.
  intros Hp Ha Hcn Hcc Hno Hapi. unfold createPatch in Hp. destruct (addInitContainer _ _ _ _) as [p_init| |] eqn:Hinit; [|discriminate..].
  cbn [mbind go_bind] in Hp. unfold addAgentContainer in Hp. rewrite Ha in Hp. cbn [mbind go_bind] in Hp.
  destruct (addAgentVolumes pod) as [p_vols| |] eqn:Hvols; [|discriminate..]. cbn [mbind go_bind] in Hp. apply Ret_inj in Hp. subst ops.
  rewrite Hapi. cbn [Z.eqb negb]. rewrite app_nil_r.
  assert (Hadd : agent_container_patch pod acn = [mkOp "add" (ptr ["spec"; "containers"; "-"]%string) (VContainer acn)]).
  { unfold agent_container_patch. destruct (list_find _ _) as [[i c]|] eqn:Hf; [|done]. apply list_find_Some in Hf as (Hl & Hname & _).
    exfalso. apply Hno. rewrite <- Hname. apply list_elem_of_fmap_2. by apply list_elem_of_lookup_2 in Hl. }
  rewrite Hadd, hidePorts_eq, removal_eq.
  destruct (init_effect _ _ _ _ _ pod Hinit eq_refl) as (inits & Hi & _ & Hneed). rewrite apply_ops_app, Hi. cbn [mbind option_bind].
  set (pod1 := set_inits pod inits). rewrite apply_ops_app. cbn [apply_ops]. rewrite element_step by (vm_compute; reflexivity).
  unfold element_op. rewrite bool_decide_true by done. cbn [as_container]. rewrite array_add. cbn [fmap option_fmap option_map mbind option_bind].
  set (pod2 := set_containers pod1 _). destruct (secrets_effect pod config pod2 eq_refl) as (secrets & Hs & Hsec). rewrite apply_ops_app, Hs. cbn [mbind option_bind].
  set (pod3 := set_secrets pod2 secrets). destruct (volumes_effect pod p_vols pod3 Hvols eq_refl) as (vols & Hv & Hvol). rewrite apply_ops_app, Hv. cbn [mbind option_bind].
  set (pod4 := set_volumes pod3 vols).
  rewrite apply_ops_app, (hidePorts_effect (ps_Containers (pt_Spec pod)) (sf_Containers config) [acn] pod4 Hcn Hcc eq_refl). cbn [mbind option_bind].
  set (pod5 := set_containers pod4 _).
  destruct (annotations_effect pod (<[InjectTrafficAgent := "enabled"%string]> anns) pod5 eq_refl) as (anns' & Han & Hann). rewrite apply_ops_app, Han. cbn [mbind option_bind].
  set (pod6 := set_meta pod5 _ anns'). destruct (labels_effect pod config pod6 eq_refl) as (lbs & Hla & Hlab). rewrite apply_ops_app, Hla. cbn [mbind option_bind].
  set (pod7 := set_meta pod6 lbs _).
  rewrite (removal_effect config (ps_Containers (pt_Spec pod)) (hide_container (sf_Containers config)) [acn] pod7 Hcc eq_refl).
  eexists. split; [reflexivity|]. split; [reflexivity|]. split; [exact Hann|]. split; [exact Hlab|]. split; [exact Hvol|]. split; [exact Hsec|exact Hneed].
Qed.

(** Applied to a pod without an agent, the patch leaves the application containers that are
    not replaced in their order, with their symbolic ports hidden, and adds the agent after
    them; the pod gets the annotations, labels, volumes and pull secrets of the agent, and
    keeps its own; where a port is reached by number it has the init container. *)
Theorem injection_result (initEnabled : bool) (config : SidecarConfig) (pod wlTpl : PodTemplateSpec) (ops : list PatchOperation) (acn : KContainer) (anns : gmap string string) :
  createPatch initEnabled config pod wlTpl = Ret ops -> AgentContainer wlTpl config = Ret (acn, anns) ->
  NoDup (kc_Name <$> ps_Containers (pt_Spec pod)) -> NoDup (cc_Name <$> sf_Containers config) ->
  ContainerName ∉ kc_Name <$> ps_Containers (pt_Spec pod) -> sf_APIPort config = 0 ->
  exists pod', apply_ops ops pod = Some pod' /\
    ps_Containers (pt_Spec pod') = (hide_container (sf_Containers config) <$> kept config (ps_Containers (pt_Spec pod))) ++ [acn] /\
    entries (m_Annotations (pt_Meta pod')) = entries (m_Annotations (pt_Meta pod)) ∪ <[InjectTrafficAgent := "enabled"%string]> anns /\
    entries (m_Labels (pt_Meta pod')) = entries (m_Labels (pt_Meta pod)) ∪
      {[ WorkloadNameLabel := sf_WorkloadName config; WorkloadKindLabel := sf_WorkloadKind config; WorkloadEnabledLabel := "true"%string ]} /\
    (ExportsVolumeName ∈ default [] (ps_Volumes (pt_Spec pod')) /\ forall v, v ∈ default [] (ps_Volumes (pt_Spec pod)) -> v ∈ default [] (ps_Volumes (pt_Spec pod'))) /\
    (forall s, s ∈ ps_PullSecrets (pt_Spec pod') <-> s ∈ ps_PullSecrets (pt_Spec pod) \/ s ∈ st_PullSecrets (sf_Settings config)) /\
    (needInitContainer initEnabled config = true -> InitContainerName ∈ kc_Name <$> ps_InitContainers (pt_Spec pod')).
Proof. apply createPatch_effect. Qed.
End Effect.

(** * Named ports after an injection

    A service with a symbolic target port reached a container of the pod by the name of its
    port; in the injected pod that name belongs to the agent.  The file ends with a pod on
    which the theorems apply and with the inputs on which a patch goes wrong. *)
Lemma find_port_app f l1 l2 : find_port f (l1 ++ l2) = match find_port f l1 with Some r => Some r | None => find_port f l2 end.
Proof. induction l1 as [|c l1 IH]; [done|]. cbn [app find_port]. destruct (list_find _ _) as [[? ?]|]; [done|exact IH]. Qed.
Lemma find_port_None f l : (forall c p, c ∈ l -> p ∈ kc_Ports c -> f p = false) -> find_port f l = None.
Proof.
  induction l as [|c l IH]; intros Hf; [done|]. cbn [find_port]. destruct (list_find _ _) as [[i p]|] eqn:E.
  - apply list_find_Some in E as (Hl & Hp & _). apply list_elem_of_lookup_2 in Hl. rewrite (Hf c p) in Hp; [discriminate|apply list_elem_of_here|done].
  - apply IH. intros c' p Hc. apply Hf. by apply list_elem_of_further.
Qed.

(** ** The ports of a container after hiding *)
(** A port keeps its name, unless that is hidden and the port is the first of the name. *)
Definition hid (app : KContainer) (names : list string) (c : KContainer) : Prop :=
  length (kc_Ports c) = length (kc_Ports app) /\
  forall j p', kc_Ports c !! j = Some p' -> exists p, kc_Ports app !! j = Some p /\
    (cp_Name p' = cp_Name p /\ (forall i q, cp_Name p ∈ names -> list_find (fun q => cp_Name q = cp_Name p) (kc_Ports app) = Some (i, q) -> i <> j) \/
     exists n, n ∈ names /\ cp_Name p' = hiddenPortName n 0).
Lemma hide_all_hid app names : hid app names (hide_all app names app).
Proof.
  induction names as [|n names IH] using rev_ind.
  - split; [done|]. intros j p' Hj. exists p'. split; [done|]. left. split; [done|]. intros i q Hin. by apply not_elem_of_nil in Hin.
  - unfold hide_all in *. rewrite foldl_snoc. set (c := foldl (hide_one app) app names) in *. destruct IH as [Hlen IH].
    split; [by rewrite hide_one_length|]. intros j p'. rewrite hide_one_ports. unfold hide_named.
    destruct (list_find (fun p => cp_Name p = n) (kc_Ports app)) as [[i q]|] eqn:Hf.
    + cbn [kc_Ports set_ports]. destruct (decide (i = j)) as [->|Hne].
      * rewrite list_lookup_alter_eq. intros (p0 & Hp0 & ->)%fmap_Some. destruct (IH j p0 Hp0) as (p & Hp & _). exists p. split; [done|].
        right. exists n. split; [apply elem_of_app; right; apply list_elem_of_here|done].
      * rewrite list_lookup_alter_ne by done. intros Hp0. destruct (IH j p' Hp0) as (p & Hp & [[He Hno]|(m & Hm & He)]); exists p; (split; [done|]).
        -- left. split; [done|]. intros i' q' Hin Hf'. apply elem_of_app in Hin as [Hin|Hin]; [by apply (Hno i' q')|].
           apply list_elem_of_singleton in Hin. subst n. rewrite Hf in Hf'. by injection Hf' as <- <-.
        -- right. exists m. split; [apply elem_of_app; by left|done].
    + intros Hp0. destruct (IH j p' Hp0) as (p & Hp & [[He Hno]|(m & Hm & He)]); exists p; (split; [done|]).
      * left. split; [done|]. intros i' q' Hin Hf'. apply elem_of_app in Hin as [Hin|Hin]; [by apply (Hno i' q')|].
        apply list_elem_of_singleton in Hin. subst n. rewrite Hf in Hf'. discriminate.
      * right. exists m. split; [apply elem_of_app; by left|done].
Qed.
(** With distinct names in a container, a hidden name is gone. *)
Lemma hide_all_gone app names n p' : (forall i j p q, kc_Ports app !! i = Some p -> kc_Ports app !! j = Some q -> cp_Name p = n -> cp_Name q = n -> i = j) ->
  n ∈ names -> Forall (fun m => hiddenPortName m 0 <> n) names -> p' ∈ kc_Ports (hide_all app names app) -> cp_Name p' <> n.
Proof.
  intros Huniq Hn Hfresh [j Hj]%list_elem_of_lookup_1 He. rewrite Forall_forall in Hfresh.
  destruct (proj2 (hide_all_hid app names) j p' Hj) as (p & Hp & [[Hsame Hno]|(m & Hm & Hh)]); [|apply (Hfresh m Hm); congruence].
  assert (Hpn : cp_Name p = n) by congruence.
  destruct (list_find (fun q => cp_Name q = cp_Name p) (kc_Ports app)) as [[i q]|] eqn:Hf.
  - assert (Hnin : cp_Name p ∈ names) by (by rewrite Hpn). apply (Hno i q Hnin eq_refl).
    apply list_find_Some in Hf as (Hl & Hq & _). apply (Huniq i j q p); congruence.
  - apply list_find_None in Hf. rewrite Forall_forall in Hf. apply list_elem_of_lookup_2 in Hp. exact (Hf p Hp eq_refl).
Qed.
Lemma hide_all_other app names n p' : (forall p, p ∈ kc_Ports app -> cp_Name p <> n) -> Forall (fun m => hiddenPortName m 0 <> n) names ->
  p' ∈ kc_Ports (hide_all app names app) -> cp_Name p' <> n.
Proof.
  intros Hno Hfresh [j Hj]%list_elem_of_lookup_1 He. rewrite Forall_forall in Hfresh.
  destruct (proj2 (hide_all_hid app names) j p' Hj) as (p & Hp & [[Hsame _]|(m & Hm & Hh)]); [|apply (Hfresh m Hm); congruence].
  apply list_elem_of_lookup_2 in Hp. apply (Hno p Hp). congruence.
Qed.

Lemma names_inj (l : list CPort) p q : NoDup (filter (.≠ EmptyString) (cp_Name <$> l)) -> p ∈ l -> q ∈ l -> cp_Name q <> EmptyString -> cp_Name p = cp_Name q -> p = q.
Proof.
  intros Hnd Hp Hq Hne He. induction l as [|x l IH]; [by apply not_elem_of_nil in Hp|]. cbn [fmap list_fmap] in Hnd. rewrite filter_cons in Hnd.
  assert (Hin : forall y, y ∈ l -> cp_Name y <> EmptyString -> cp_Name y ∈ filter (.≠ EmptyString) (cp_Name <$> l)).
  { intros y Hy Hny. apply list_elem_of_filter. split; [done|]. by apply list_elem_of_fmap_2. }
  apply elem_of_cons in Hp as [->|Hp], Hq as [->|Hq]; [done|..].
  - rewrite decide_True in Hnd by congruence. apply NoDup_cons in Hnd as [Hno _]. destruct Hno. rewrite He. by apply Hin.
  - rewrite decide_True in Hnd by done. apply NoDup_cons in Hnd as [Hno _]. destruct Hno. rewrite <- He. apply Hin; [done|congruence].
  - apply IH; [|done|done]. destruct (decide _); [by apply NoDup_cons in Hnd as [_ ?]|done].
Qed.

Section Ports.
Context `{K8sLaws} `{!ObjectJson, !MapOrder}.

(** ** The ports of the agent *)
Definition entry_ports (x : KContainer * ContainerConfig) : list CPort :=
  match cc_Replace x.2 with
  | ReplacePolicyContainer => kc_Ports x.1
  | ReplacePolicyIntercept => (fun ic => mkCPort (ic_ContainerPortName ic) (ic_AgentPort ic) (Proto_String (ic_Protocol ic))) <$> PortUniqueIntercepts (plain_container x.2)
  | ReplacePolicyInactive => []
  end.
(** Names that no two ports share are given as they are. *)
Definition intercept_names (x : KContainer * ContainerConfig) : list string :=
  match cc_Replace x.2 with
  | ReplacePolicyIntercept => filter (.≠ EmptyString) (ic_ContainerPortName <$> PortUniqueIntercepts (plain_container x.2))
  | _ => []
  end.
Lemma intercept_ports_fresh names ics : NoDup (filter (.≠ EmptyString) (ic_ContainerPortName <$> ics)) ->
  (forall n, n ∈ filter (.≠ EmptyString) (ic_ContainerPortName <$> ics) -> names !! n = None) ->
  exists names', intercept_ports names ics = (names', (fun ic => mkPort (ic_ContainerPortName ic) (ic_AgentPort ic) (ic_Protocol ic)) <$> ics) /\
    forall n, is_Some (names' !! n) <-> is_Some (names !! n) \/ n ∈ filter (.≠ EmptyString) (ic_ContainerPortName <$> ics).
Proof.
  revert names. induction ics as [|ic ics IH]; intros names Hnd Hf.
  - exists names. split; [done|]. intros n. cbn. rewrite elem_of_nil. naive_solver.
  - cbn [fmap list_fmap] in *. rewrite filter_cons in Hnd, Hf |- *. cbn [intercept_ports]. unfold port_name.
    case_bool_decide as He.
    + rewrite decide_False in Hnd, Hf |- * by (intros Hx; by apply Hx). destruct (IH names Hnd Hf) as (names' & Hi & Hn). exists names'. split; [by rewrite Hi|exact Hn].
    + rewrite decide_True in Hnd, Hf |- * by done. apply NoDup_cons in Hnd as [Hno Hnd].
      rewrite (Hf (ic_ContainerPortName ic)) by apply list_elem_of_here.
      destruct (IH (<[ic_ContainerPortName ic := 1]> names) Hnd) as (names' & Hi & Hn).
      { intros n Hin. rewrite lookup_insert_ne by (intros <-; done). apply Hf. by apply list_elem_of_further. }
      exists names'. rewrite Hi. split; [done|]. intros n. rewrite Hn, elem_of_cons.
      destruct (decide (ic_ContainerPortName ic = n)) as [<-|Hne]; [rewrite lookup_insert_eq; naive_solver|]. rewrite lookup_insert_ne by done. naive_solver.
Qed.
Lemma container_ports_fresh names l : NoDup (l ≫= intercept_names) -> (forall n, n ∈ l ≫= intercept_names -> names !! n = None) ->
  container_ports names l = l ≫= entry_ports.
Proof.
  revert names. induction l as [|[app cc] l IH]; intros names Hnd Hf; [done|]. rewrite bind_cons in Hnd. setoid_rewrite bind_cons in Hf. rewrite bind_cons. cbn [container_ports].
  apply NoDup_app in Hnd as (Hnd1 & Hdis & Hnd2).
  destruct (cc_Replace cc) eqn:Hr; (eassert (He : entry_ports (app, cc) = _) by (unfold entry_ports; cbn [fst snd]; rewrite Hr; reflexivity)); rewrite He; clear He.
  - assert (Hi0 : intercept_names (app, cc) = filter (.≠ EmptyString) (ic_ContainerPortName <$> PortUniqueIntercepts (plain_container cc)))
      by (unfold intercept_names; cbn [snd]; by rewrite Hr).
    rewrite Hi0 in Hnd1, Hdis. destruct (intercept_ports_fresh names (PortUniqueIntercepts (plain_container cc)) Hnd1) as (names' & Hi & Hn).
    { intros n Hin. apply Hf, elem_of_app. left. by rewrite Hi0. }
    rewrite Hi. rewrite <- list_fmap_compose. f_equal. apply IH; [done|]. intros n Hin. apply eq_None_not_Some. rewrite Hn. intros [Hs|Hs]; [|by apply (Hdis n Hs)].
    rewrite Hf in Hs; [by destruct Hs|]. apply elem_of_app. by right.
  - f_equal. apply IH; [done|]. intros n Hin. apply Hf, elem_of_app. by right.
  - apply IH; [done|]. intros n Hin. apply Hf, elem_of_app. by right.
Qed.
Lemma AgentContainer_ports wlTpl config acn anns : AgentContainer wlTpl config = Ret (acn, anns) ->
  kc_Ports acn = container_ports ∅ (configuredContainers wlTpl config) /\ kc_Name acn = ContainerName.
Proof.
  unfold AgentContainer. destruct (mountSecrets _ DownstreamTLSSecret _ _ _) as [[a1 m1]| |]; [|discriminate..]. cbn [mbind go_bind].
  destruct (mountSecrets _ UpstreamTLSSecret _ _ _) as [[a2 m2]| |]; [|discriminate..]. cbn [mbind go_bind].
  intros Hr. apply Ret_inj in Hr. apply (f_equal fst) in Hr. cbn [fst] in Hr. by rewrite <- Hr.
Qed.

(** A protocol of a service and the one its intercept is given denote the same. *)
Lemma proto_equal_refl p : p ∈ [EmptyString; "TCP"; "UDP"; "SCTP"]%string -> proto_equal p (Proto_String (FromK8sProtocol p)) = true.
Proof.
  intros Hp. unfold proto_equal. rewrite !elem_of_cons, elem_of_nil in Hp.
  destruct Hp as [->|[->|[->|[->|[]]]]].
  - change (Proto_String (FromK8sProtocol "")) with core_ProtocolTCP. rewrite tcp_name. done.
  - change (Proto_String (FromK8sProtocol "TCP")) with core_ProtocolTCP. rewrite tcp_name. done.
  - change (Proto_String (FromK8sProtocol "UDP")) with core_ProtocolUDP. rewrite udp_name. done.
  - change (Proto_String (FromK8sProtocol "SCTP")) with core_ProtocolSCTP. rewrite sctp_name. done.
Qed.

Lemma config_of_in ccs cc : NoDup (cc_Name <$> ccs) -> cc ∈ ccs -> config_of ccs (cc_Name cc) = Some cc.
Proof.
  intros Hnd Hin. destruct (config_of ccs (cc_Name cc)) as [cc'|] eqn:E.
  - apply config_of_Some in E as [Hin' Hn]. apply list_elem_of_lookup_1 in Hin as [i Hi]. apply list_elem_of_lookup_1 in Hin' as [j Hj].
    assert (i = j); [|congruence]. apply (NoDup_lookup _ _ _ (cc_Name cc) Hnd); [by rewrite list_lookup_fmap, Hi|rewrite list_lookup_fmap, Hj; cbn; congruence].
  - apply config_of_None in E. exfalso. apply E. by apply list_elem_of_fmap_2.
Qed.

(** The names of the ports of a pod: those of one container differ, the one in question
    belongs to one container, and is not what another is renamed to. *)
Definition port_names_ok (config : SidecarConfig) (pod : PodTemplateSpec) (owner n : string) : Prop :=
  (forall c p, c ∈ ps_Containers (pt_Spec pod) -> p ∈ kc_Ports c -> cp_Name p = n -> kc_Name c = owner) /\
  (forall c i j p q, c ∈ ps_Containers (pt_Spec pod) -> kc_Ports c !! i = Some p -> kc_Ports c !! j = Some q -> cp_Name p = n -> cp_Name q = n -> i = j) /\
  (forall cc m, cc ∈ sf_Containers config -> m ∈ hidden_names cc -> hiddenPortName m 0 <> n).

(** C3. A service whose port leads to an intercepted container by the name of a port leads to
    the agent after the injection, to the port at which the agent serves the intercept. This
    is for a pod that has no agent yet and a configuration without an API port, both with
    distinct names of containers; for a container with the policy of an intercept, and for
    the first intercept of its port, not one with a numeric target port, with the name and
    protocol of the service's port. The name of the port is not empty, belongs to that
    container only and to one port of it, and is not a name that a hidden port gets; and the
    named ports that the agent takes over have distinct names. *)
Theorem named_port_reaches_agent (initEnabled : bool) (config : SidecarConfig) (pod wlTpl pod' : PodTemplateSpec) (ops : list PatchOperation)
    (acn : KContainer) (anns : gmap string string) (app : KContainer) (cc : ContainerConfig) (ic : Intercept) (sp : ServicePort) :
  createPatch initEnabled config pod wlTpl = Ret ops -> AgentContainer wlTpl config = Ret (acn, anns) -> apply_ops ops pod = Some pod' ->
  NoDup (kc_Name <$> ps_Containers (pt_Spec pod)) -> NoDup (cc_Name <$> sf_Containers config) ->
  ContainerName ∉ kc_Name <$> ps_Containers (pt_Spec pod) -> sf_APIPort config = 0 ->
  (app, cc) ∈ configuredContainers wlTpl config -> cc_Replace cc = ReplacePolicyIntercept ->
  ic ∈ PortUniqueIntercepts (plain_container cc) -> ic_TargetPortNumeric ic = false ->
  spt_TargetPort sp = FromString (ic_ContainerPortName ic) -> ic_Protocol ic = FromK8sProtocol (spt_Protocol sp) -> ic_ContainerPortName ic <> EmptyString ->
  spt_Protocol sp ∈ [EmptyString; "TCP"; "UDP"; "SCTP"]%string ->
  port_names_ok config pod (cc_Name cc) (ic_ContainerPortName ic) ->
  NoDup (filter (.≠ EmptyString) (cp_Name <$> (configuredContainers wlTpl config ≫= entry_ports))) ->
  exists k p, findContainerMatchingPort sp (ps_Containers (pt_Spec pod')) = Some (acn, Some k) /\ kc_Ports acn !! k = Some p /\ cp_ContainerPort p = ic_AgentPort ic.
Proof.
  intros Hp Ha Hap Hcn Hcc Hno Hapi Hconf Hrep Hic Hsym Htp Hproto Hne Hpr (Hown & Huniq & Hfresh) Hnd. set (n := ic_ContainerPortName ic) in *.
  destruct (createPatch_effect _ _ _ _ _ _ _ Hp Ha Hcn Hcc Hno Hapi) as (pod1 & Hap1 & Hcs & _). rewrite Hap in Hap1. injection Hap1 as <-. rewrite Hcs.
  assert (Hccin : cc ∈ sf_Containers config).
  { unfold configuredContainers in Hconf. apply list_elem_of_omap in Hconf as (cc' & Hin & Hm). destruct (configured_container _ cc' _); [|discriminate]. injection Hm as _ ->. done. }
  assert (Hhid : n ∈ hidden_names cc).
  { unfold hidden_names. rewrite Hrep. apply list_elem_of_fmap. exists ic. split; [done|]. by apply list_elem_of_filter. }
  set (f := fun p => bool_decide (cp_Name p = n) && proto_equal (spt_Protocol sp) (cp_Protocol p)).
  assert (Hnone : find_port f (hide_container (sf_Containers config) <$> kept config (ps_Containers (pt_Spec pod))) = None).
  { apply find_port_None. intros c' p' Hc' Hp'. apply list_elem_of_fmap in Hc' as (c & -> & Hc). apply list_elem_of_filter in Hc as [_ Hc].
    unfold f. apply andb_false_iff. left. apply bool_decide_eq_false_2. unfold hide_container in Hp'.
    destruct (config_of (sf_Containers config) (kc_Name c)) as [cc0|] eqn:E.
    - apply config_of_Some in E as [Hin0 Hn0]. assert (Hf0 : Forall (fun m => hiddenPortName m 0 <> n) (hidden_names cc0)) by (apply Forall_forall; intros m; by apply Hfresh).
      destruct (decide (kc_Name c = cc_Name cc)) as [Heq|Hneq].
      + assert (cc0 = cc) as -> by (pose proof (config_of_in _ _ Hcc Hin0); pose proof (config_of_in _ _ Hcc Hccin); congruence).
        apply (hide_all_gone c (hidden_names cc)); [|done|done|done]. intros i j p q. by apply (Huniq c).
      + apply (hide_all_other c (hidden_names cc0)); [|done|done]. intros p Hpin He. apply Hneq. by apply (Hown c p).
    - intros He. apply config_of_None in E. apply E. rewrite (Hown c p' Hc Hp' He). by apply list_elem_of_fmap_2. }
  destruct (AgentContainer_ports _ _ _ _ Ha) as [Hports _]. rewrite container_ports_fresh in Hports.
  2: { set (l := configuredContainers wlTpl config) in *. clear -Hnd. assert (Hsub : l ≫= intercept_names `sublist_of` filter (.≠ EmptyString) (cp_Name <$> (l ≫= entry_ports))).
       { clear Hnd. induction l as [|[a c] l IH]; [constructor|]. rewrite !bind_cons, fmap_app, filter_app. apply sublist_app; [|exact IH].
         unfold intercept_names, entry_ports. cbn [fst snd]. destruct (cc_Replace c); [|apply sublist_nil_l|apply sublist_nil_l].
         rewrite <- list_fmap_compose. done. }
       exact (sublist_NoDup _ _ Hnd Hsub). }
  2: { intros m _. apply lookup_empty. }
  set (agentPort := mkCPort n (ic_AgentPort ic) (Proto_String (ic_Protocol ic))).
  assert (Hin : agentPort ∈ kc_Ports acn).
  { rewrite Hports. apply list_elem_of_bind. exists (app, cc). split; [|done]. unfold entry_ports. cbn [fst snd]. rewrite Hrep. apply list_elem_of_fmap. by exists ic. }
  assert (Hfa : f agentPort = true).
  { unfold f, agentPort. cbn [cp_Name cp_Protocol]. rewrite bool_decide_true by done. rewrite Hproto. by rewrite proto_equal_refl. }
  destruct (list_find (fun p => f p = true) (kc_Ports acn)) as [[k p]|] eqn:Hf.
  2: { apply list_find_None in Hf. rewrite Forall_forall in Hf. by destruct (Hf _ Hin). }
  exists k, p. unfold findContainerMatchingPort. rewrite Htp. fold f. rewrite find_port_app, Hnone. cbn [find_port]. rewrite Hf. split; [done|].
  apply list_find_Some in Hf as (Hl & Hfp & _). split; [done|]. unfold f in Hfp. bools.
  assert (p = agentPort) as ->; [|done]. apply list_elem_of_lookup_2 in Hl. rewrite Hports in Hin, Hl.
  apply (names_inj (configuredContainers wlTpl config ≫= entry_ports)); [done|done|done|done|]. unfold agentPort. cbn [cp_Name]. done.
Qed.
End Ports.

(** ** A pod on which the theorems apply *)
Definition sample_json : ObjectJson := {|
  container_json := kc_Name; container_of_json := fun _ => None; sidecar_json := sf_AgentName; sidecar_of_json := fun _ => None
|}.
Local Existing Instances K8sRef sample_json sorted_visits.
Definition sample_patch (config : SidecarConfig) (pod : PodTemplateSpec) : Go build_error (list PatchOperation) := createPatch true config pod pod.
Definition shop_tpl : PodTemplateSpec := pod_of shop.
Definition shop_ops : list PatchOperation := match sample_patch shop_sidecar shop_tpl with Ret ops => ops | _ => [] end.
Definition shop_agent : KContainer * gmap string string := match AgentContainer shop_tpl shop_sidecar with Ret r => r | _ => (zero_container, ∅) end.
Definition shop_injected : PodTemplateSpec := default shop_tpl (apply_ops shop_ops shop_tpl).
Definition http_port : ServicePort := mkSP "http" "TCP" 80 (FromString "http") None.
Definition http_intercept : Intercept := mkIntercept "http" "shop" "svc-1" "http" false 6 "" 8080 80 9900.
Definition web_config : ContainerConfig := default (mkCC "" "" "" [] None [] ReplacePolicyInactive) (head (sf_Containers shop_sidecar)).

Example shop_patched : (fun c => (kc_Name c, (fun p => (cp_Name p, cp_ContainerPort p)) <$> kc_Ports c)) <$> ps_Containers (pt_Spec shop_injected) =
  [("web", [("tm-http", 8080); ("admin", 8081)]); ("db", []); ("traffic-agent", [("http", 9900); ("admin", 9901)])].
Proof. vm_compute. reflexivity. Qed.

Lemma injection_result_witness : exists pod', apply_ops shop_ops shop_tpl = Some pod' /\ InitContainerName ∈ kc_Name <$> ps_InitContainers (pt_Spec pod').
Proof.
  destruct (injection_result true shop_sidecar shop_tpl shop_tpl shop_ops shop_agent.1 shop_agent.2) as (pod' & Hap & _ & _ & _ & _ & _ & Hinit).
  - vm_compute. reflexivity.
  - vm_compute. reflexivity.
  - decide_it.
  - decide_it.
  - decide_it.
  - vm_compute. reflexivity.
  - exists pod'. split; [exact Hap|]. apply Hinit. vm_compute. reflexivity.
Defined.
Lemma shop_names_ok : port_names_ok shop_sidecar shop_tpl "web" "http".
Proof.
  assert (Hb : forallb (fun c => forallb (fun p => negb (bool_decide (cp_Name p = "http"%string)) || bool_decide (kc_Name c = "web"%string)) (kc_Ports c) &&
                                bool_decide (NoDup (cp_Name <$> kc_Ports c))) (ps_Containers (pt_Spec shop_tpl)) = true) by (vm_compute; reflexivity).
  assert (Hc : forallb (fun cc => forallb (fun m => negb (bool_decide (hiddenPortName m 0 = "http"%string))) (hidden_names cc)) (sf_Containers shop_sidecar) = true)
    by (vm_compute; reflexivity).
  split; [|split].
  - intros c p Hin Hp Hn. apply (list_ok _ _ Hb) in Hin. bools. match goal with Hf : forallb _ (kc_Ports c) = true |- _ => apply (list_ok _ _ Hf) in Hp end.
    apply orb_true_iff in Hp as [Hp|Hp]; bools; [congruence|done].
  - intros c i j p q Hin Hi Hj Hp Hq. apply (list_ok _ _ Hb) in Hin. bools.
    match goal with Hd : NoDup _ |- _ => apply (NoDup_lookup _ i j "http"%string Hd) end; rewrite list_lookup_fmap; [rewrite Hi|rewrite Hj]; cbn; congruence.
  - intros cc m Hin Hm. apply (list_ok _ _ Hc) in Hin. apply (list_ok _ _ Hin) in Hm. by bools.
Qed.
Lemma named_port_reaches_agent_witness : exists k p, findContainerMatchingPort http_port (ps_Containers (pt_Spec shop_injected)) = Some (shop_agent.1, Some k) /\
  kc_Ports shop_agent.1 !! k = Some p /\ cp_ContainerPort p = 9900.
Proof.
  apply (@named_port_reaches_agent K8sRef K8sRef_laws sample_json sorted_visits true shop_sidecar shop_tpl shop_tpl shop_injected shop_ops shop_agent.1 shop_agent.2 web_cn web_config http_intercept http_port).
  - vm_compute. reflexivity.
  - vm_compute. reflexivity.
  - vm_compute. reflexivity.
  - decide_it.
  - decide_it.
  - decide_it.
  - vm_compute. reflexivity.
  - vm_compute. apply list_elem_of_here.
  - vm_compute. reflexivity.
  - decide_it.
  - reflexivity.
  - reflexivity.
  - vm_compute. reflexivity.
  - discriminate.
  - decide_it.
  - exact shop_names_ok.
  - decide_it.
Defined.

(** ** Where a patch goes wrong *)
Definition with_api (ccs : list ContainerConfig) : SidecarConfig := mkSidecarConfig false "tel2" "shop" "ns" "shop" DeploymentKind "tm" 8081 9000 (Some ∅) ccs no_settings.
Definition bare_cc (name : string) (rp : ReplacePolicy) : ContainerConfig := mkCC name "A_" "/tel_app_mounts" [] None [] rp.
Definition env_names (pod : option PodTemplateSpec) : option (list (string * list string)) :=
  (fun pod => (fun c => (kc_Name c, env_Name <$> default [] (kc_Env c))) <$> ps_Containers (pt_Spec pod)) <$> pod.
Definition patched (config : SidecarConfig) (pod : PodTemplateSpec) : option PodTemplateSpec :=
  match sample_patch config pod with Ret ops => apply_ops ops pod | _ => None end.

(** The variables of the API server are added by index after a replaced container was
    removed: they end up in the container after the one they are meant for. *)
Example api_env_in_wrong_container : exists l,
  env_names (patched (with_api [bare_cc "web" ReplacePolicyContainer; bare_cc "db" ReplacePolicyIntercept]) shop_tpl) = Some [("db", []); ("traffic-agent", l)] /\
  EnvAPIHost ∈ l.
Proof. eexists. split; [vm_compute; reflexivity|decide_it]. Qed.

(** A variable that one container has already is not added to the containers after it. *)
Definition has_host (c : KContainer) : KContainer := set_env c (Some [mkEnv EnvAPIHost "localhost" None]).
Definition two_containers : PodTemplateSpec := pod_of (wl_with ∅ [has_host web_cn; db_cn]).
Example api_env_missing_in_second_container : exists l,
  env_names (patched (with_api [bare_cc "web" ReplacePolicyIntercept; bare_cc "db" ReplacePolicyIntercept]) two_containers) =
    Some [("web", [EnvAPIHost; EnvAPIPort]); ("db", [EnvAPIPort]); ("traffic-agent", l)].
Proof. eexists. vm_compute. reflexivity. Qed.

(** Names that agree in their first twelve characters are hidden under one name. *)
Example hidden_names_collide : hiddenPortName "http-frontend-a" 0 = hiddenPortName "http-frontend-b" 0.
Proof. vm_compute. reflexivity. Qed.

(** An init container without a security context. *)
Definition old_init : KContainer := mkKC InitContainerName "tel2:2.20" ["agent-init"] [] (kc_Env (InitContainer shop_sidecar (agent_security_context shop_tpl shop_sidecar))) [] [] None None None None.
Definition tpl_with_init : PodTemplateSpec := set_inits shop_tpl [old_init].
Example init_without_security_context_panics : sample_patch shop_sidecar tpl_with_init = Panic.
Proof. vm_compute. reflexivity. Qed.

(** One secret for both directions: its volume and its mount are there twice. *)
Definition tls_anns : option (gmap string string) := Some {[ DownstreamTLSSecret +:+ ".443" := "cert"%string; UpstreamTLSSecret +:+ ".443" := "cert"%string ]}.
Example shared_secret_mounted_twice : AgentVolumes tls_anns = Ret [PodInfoVolumeName; ExportsVolumeName; TempVolumeName; "cert-vol"; "cert-vol"]%string.
Proof. vm_compute. reflexivity. Qed.

(** An escaped reference is rewritten in the agent's copy of a variable, although the same
    text elsewhere is left alone. *)
Example escaped_reference_rewritten : env_replace "P_" "$$(HOME)" = "$$(P_HOME)"%string /\ prefixInterpolated "$$(HOME)" "P_" = "$$(HOME)"%string.
Proof. vm_compute. done. Qed.
