(* ===== verification/ConfigWatcher.v ===== *)
(** * The agent configurations of the traffic-manager and the webhook
      (src/cmd/traffic/cmd/manager/mutator: watcher.go, service_watcher.go,
      workload_watcher.go, eviction.go, agent_injector.go; restoreAppContainer of
      state/intercept.go)

    The watcher keeps a configuration per workload and the pods it has made inactive.  An
    operation returns the new state and what it did to the cluster.  Answers of the API
    server to evictions and patches are operations of [EvictApi]. *)
From S2P Require Import Prelude NetIP GoStrings GoText GoJson PortTypes Matcher Icept Policies AgentConfig Kube Discovery Generator AgentContainer Injector.
From Stdlib Require Import Ascii.
Local Open Scope Z_scope.

(** ** State *)
Record inactivation := mkInact { in_Time : Z; in_deleted : bool }.
Record configWatcher := mkCW {
  cw_agentConfigs : gmap string (gmap string SidecarConfig);   (* by namespace and name *)
  cw_inactivePods : gmap string inactivation;                   (* by UID *)
  cw_configured : bool
}.
Definition NewWatcher : configWatcher := mkCW ∅ ∅ false.
Definition set_configs (c : configWatcher) (m : gmap string (gmap string SidecarConfig)) : configWatcher := mkCW m (cw_inactivePods c) (cw_configured c).
Definition set_inactive (c : configWatcher) (m : gmap string inactivation) : configWatcher := mkCW (cw_agentConfigs c) m (cw_configured c).
Definition SetConfigured (c : configWatcher) : configWatcher := mkCW (cw_agentConfigs c) (cw_inactivePods c) true.

(** ** Configurations *)
Definition cw_Get (c : configWatcher) (key ns : string) : option SidecarConfig := scMap ← cw_agentConfigs c !! ns; scMap !! key.
Definition cw_Delete (c : configWatcher) (name namespace : string) : configWatcher :=
  set_configs c (match cw_agentConfigs c !! namespace with
                 | Some sceMap =>
                     let sceMap := delete name sceMap in
                     if bool_decide (sceMap = ∅) then delete namespace (cw_agentConfigs c) else <[namespace := sceMap]> (cw_agentConfigs c)
                 | None => delete namespace (cw_agentConfigs c)
                 end).
Definition put_config (m : gmap string (gmap string SidecarConfig)) (ns name : string) (sc : SidecarConfig) : gmap string (gmap string SidecarConfig) :=
  <[ns := <[name := sc]> (default ∅ (m !! ns))]> m.
Definition cw_Store (c : configWatcher) (sc : SidecarConfig) : configWatcher := set_configs c (put_config (cw_agentConfigs c) (sf_Namespace sc) (sf_AgentName sc) sc).
(** The updater gets a copy of the configuration, if there is one; a nil result deletes. *)
Definition cw_Update {E} (c : configWatcher) (name namespace : string) (updater : option SidecarConfig -> Go E (option SidecarConfig)) :
    configWatcher * Go E (option SidecarConfig) :=
  match cw_agentConfigs c !! namespace with
  | Some scMap =>
      match updater (scMap !! name) with
      | Ret None => (set_configs c (<[namespace := delete name scMap]> (cw_agentConfigs c)), Ret None)
      | Ret (Some sc) => (set_configs c (<[namespace := <[name := sc]> scMap]> (cw_agentConfigs c)), Ret (Some sc))
      | r => (c, r)
      end
  | None =>
      match updater None with
      | Ret (Some sc) => (set_configs c (<[namespace := {[ name := sc ]}]> (cw_agentConfigs c)), Ret (Some sc))
      | r => (c, r)
      end
  end.

(** [GetOrGenerate] in three steps, the second outside of any lock: look up, generate, and
    store unless another goroutine has stored meanwhile.  Each attempt to generate sees
    the cluster as it is then. *)
Section Retry.
Context `{K8sApi, MapOrder}.
Fixpoint retry_generate (attempts : list Cluster) (gc : GeneratorConfig) (wl : Workload) : option (Go gen_error SidecarConfig) :=
  match attempts with
  | [] => None
  | cl :: attempts =>
      let '(gc, r) := @Generate _ cl _ gc wl None in
      match r, attempts with
      | Fail e, _ :: _ => if is_user_error e then Some (Fail e) else retry_generate attempts gc wl
      | _, _ => Some r
      end
  end.
End Retry.
(** Ten retries. *)
Definition max_attempts : nat := 11.
Definition gog_store (c : configWatcher) (wl : Workload) (ac : SidecarConfig) : configWatcher * SidecarConfig :=
  let name := m_Name (wl_Meta wl) in let ns := m_Namespace (wl_Meta wl) in
  match cw_Get c name ns with
  | Some existing => (c, existing)
  | None => (set_configs c (put_config (cw_agentConfigs c) ns name ac), ac)
  end.

(** ** Inactive pods *)
Definition Inactivate (c : configWatcher) (now : Z) (podID : string) : configWatcher :=
  set_inactive c (match cw_inactivePods c !! podID with Some _ => cw_inactivePods c | None => <[podID := mkInact now false]> (cw_inactivePods c) end).
Definition IsInactive (c : configWatcher) (podID : string) : bool := bool_decide (is_Some (cw_inactivePods c !! podID)).
Definition isEvicted (c : configWatcher) (podID : string) : bool := match cw_inactivePods c !! podID with Some v => in_deleted v | None => false end.

(** ** eviction.go *)
Record Pod := mkPod { pod_Meta : ObjectMeta; pod_Phase : string }.
Definition podIsPendingOrRunning (pod : Pod) : bool := bool_decide (pod_Phase pod ∈ ["Pending"; "Running"]%string).

Inductive evict_result := EvictOk | EvictBudget | EvictError (text : string).
Class EvictApi := {
  evict_api : Pod -> evict_result;
  patch_ok : Workload -> bool;                     (* the restart annotation *)
  scale_ok : Workload -> Z -> bool;
  replicas_reached : Workload -> Z -> bool;        (* before the context ends *)
  evict_retries : Pod -> list evict_result         (* the answers until the context ends *)
}.
(** What happens in the cluster. *)
Inductive effect := Evicted (pod : string) | EvictLater (pod : string) | Restarted (workload : string) | Scaled (workload : string) (n : Z).
Global Instance effect_eq_dec : EqDecision effect.
Proof. solve_decision. Defined.
Inductive evict_error := FailedToEvict (pod : string) | UnableToPatch (workload : string) | UnableToScale (workload : string) | NeverScaled (workload : string) | EvictTimeout (pod : string).

Section Eviction.
Context `{EvictApi}.
Definition pod_name (pod : Pod) : string := m_Name (pod_Meta pod).
Definition wl_name (wl : Workload) : string := m_Name (wl_Meta wl).

Fixpoint retry_loop (answers : list evict_result) (pod : Pod) : list effect * option evict_error :=
  match answers with
  | [] => ([], Some (EvictTimeout (pod_name pod)))
  | EvictOk :: _ => ([Evicted (pod_name pod)], None)
  | EvictBudget :: answers => retry_loop answers pod
  | EvictError _ :: _ => ([], Some (FailedToEvict (pod_name pod)))
  end.
Definition retryEvictPod (wl : Workload) (pod : Pod) (replicas : Z) : list effect * option evict_error :=
  if negb (replicas_reached wl replicas) then ([], Some (NeverScaled (wl_name wl))) else retry_loop (evict_retries pod) pod.
(** The original count is restored when it returns. *)
Definition triggerScalingEviction (wl : Workload) (pod : Pod) : list effect * option evict_error :=
  let replicas := wl_Replicas wl in
  if negb (scale_ok wl (replicas + 1)) then ([], Some (UnableToScale (wl_name wl)))
  else
    let '(effs, err) := retryEvictPod wl pod (replicas + 1) in
    ([Scaled (wl_name wl) (replicas + 1)] ++ effs ++ (if scale_ok wl replicas then [Scaled (wl_name wl) replicas] else []), err).
Definition evictOrRollout (wl : Workload) (pod : Pod) (counter : nat) : list effect * (evict_error + bool) :=
  match evict_api pod with
  | EvictOk => ([Evicted (pod_name pod)], inr false)
  | EvictError _ => ([], inl (FailedToEvict (pod_name pod)))
  | EvictBudget =>
      if Nat.ltb 0 counter then ([EvictLater (pod_name pod)], inr false)
      else if bool_decide (wl_Kind wl ∈ [StatefulSetKind; ReplicaSetKind]) then
        let '(effs, err) := triggerScalingEviction wl pod in (effs, match err with Some e => inl e | None => inr false end)
      else if patch_ok wl then ([Restarted (wl_name wl)], inr true)
      else ([], inl (UnableToPatch (wl_name wl)))
  end.

Definition managed_manually (pod : Pod) : bool :=
  bool_decide (GetAnnotation (m_Annotations (pod_Meta pod)) ManuallyInjected LegacyManuallyInjected = "true"%string).
Definition mark_deleted (c : configWatcher) (now : Z) (uid : string) : configWatcher := set_inactive c (<[uid := mkInact now true]> (cw_inactivePods c)).
Fixpoint evict_loop (c : configWatcher) (now : Z) (wl : Workload) (pods : list Pod) (didRollout : bool) (counter : nat) :
    configWatcher * list effect * option evict_error :=
  match pods with
  | [] => (c, [], None)
  | pod :: pods =>
      let uid := m_UID (pod_Meta pod) in
      if isEvicted c uid || managed_manually pod then evict_loop c now wl pods didRollout counter
      else if didRollout then evict_loop (mark_deleted c now uid) now wl pods didRollout counter
      else
        let '(effs, r) := evictOrRollout wl pod counter in
        match r with
        | inl e => (c, effs, Some e)
        | inr didRollout =>
            let '(c, effs', err) := evict_loop (mark_deleted c now uid) now wl pods didRollout (S counter) in (c, effs ++ effs', err)
        end
  end.
Definition evictPods (c : configWatcher) (now : Z) (wl : Workload) (pods : list Pod) := evict_loop c now wl pods false 0.
Definition pod_config (pod : Pod) : string := default EmptyString (entries (m_Annotations (pod_Meta pod)) !! ann_Config).
Definition evictPodsWithAgentConfigMismatch (c : configWatcher) (now : Z) (wl : Workload) (pods : list Pod) (cfgJSON : string) :=
  evictPods c now wl (filter (fun pod => pod_config pod <> cfgJSON) pods).

(** [pods]: the pods that the workload's selector selects. *)
Definition workloadPods (pods : list Pod) : list Pod := filter (fun pod => podIsPendingOrRunning pod = true) pods.
Definition EvictPodsWithAgentConfig (c : configWatcher) (now : Z) (wl : Workload) (pods : list Pod) :=
  evictPodsWithAgentConfigMismatch c now wl (workloadPods pods) EmptyString.
Definition EvictPodsWithAgentConfigMismatch `{ObjectJson} (c : configWatcher) (now : Z) (wl : Workload) (pods : list Pod) (sc : SidecarConfig) :=
  evictPodsWithAgentConfigMismatch c now wl (workloadPods pods) (MarshalTight sc).
(** [evictMap]: the workloads with their pods, in the order of the range. *)
Fixpoint evict_all_loop (c : configWatcher) (now : Z) (evictMap : list (Workload * list Pod)) : configWatcher * list effect * list evict_error :=
  match evictMap with
  | [] => (c, [], [])
  | (wl, pods) :: evictMap =>
      let '(c, effs, err) := evictPodsWithAgentConfigMismatch c now wl pods EmptyString in
      let '(c, effs', errs) := evict_all_loop c now evictMap in
      (c, effs ++ effs', match err with Some e => e :: errs | None => errs end)
  end.
Definition EvictAllPodsWithAgentConfig (c : configWatcher) (now : Z) (namespace : string) (evictMap : list (Workload * list Pod)) :=
  evict_all_loop (set_configs c (delete namespace (cw_agentConfigs c))) now evictMap.
End Eviction.

(** ** Restoring the application container (state/intercept.go), when an intercept ends *)
Definition with_replace (rp : ReplacePolicy) (cc : ContainerConfig) : ContainerConfig :=
  mkCC (cc_Name cc) (cc_EnvPrefix cc) (cc_MountPoint cc) (cc_MountPaths cc) (cc_Mounts cc) (cc_Intercepts cc) rp.
Definition with_containers (l : list ContainerConfig) (sc : SidecarConfig) : SidecarConfig :=
  mkSidecarConfig (sf_Manual sc) (sf_AgentImage sc) (sf_AgentName sc) (sf_Namespace sc) (sf_WorkloadName sc) (sf_WorkloadKind sc)
    (sf_ManagerHost sc) (sf_ManagerPort sc) (sf_APIPort sc) (sf_MountPolicies sc) l (sf_Settings sc).
Definition desiredPolicy (spec : InterceptSpec) : ReplacePolicy := if sp_NoDefaultPort spec then ReplacePolicyInactive else ReplacePolicyIntercept.
(** The position of the container that the specification leads to. *)
Definition restore_target (spec : InterceptSpec) (sc : SidecarConfig) : option nat :=
  match (if sp_NoDefaultPort spec then FindContainer (plain sc) spec else fst <$> FindIntercept (plain sc) spec) with
  | Ret cn => fst <$> list_find (fun cc => plain_container cc = cn) (sf_Containers sc)
  | _ => None
  end.
(** The changed configuration, if a change is needed. *)
Definition restored_config (spec : InterceptSpec) (sc : SidecarConfig) : option SidecarConfig :=
  i ← restore_target spec sc; cc ← sf_Containers sc !! i;
  if bool_decide (cc_Replace cc = desiredPolicy spec) then None
  else Some (with_containers (<[i := with_replace (desiredPolicy spec) cc]> (sf_Containers sc)) sc).
Definition restoreAppContainer `{EvictApi, ObjectJson} (c : configWatcher) (now : Z) (wl : Workload) (pods : list Pod) (spec : InterceptSpec) :
    configWatcher * list effect * option evict_error :=
  let n := sp_Agent spec in
  let ns := sp_Namespace spec in
  let '(c, effs, err) :=
    match sc ← cw_Get c n ns; restored_config spec sc with
    | Some sc => EvictPodsWithAgentConfigMismatch c now wl pods sc
    | None => (c, [], None)
    end in
  let updater (osc : option SidecarConfig) : Go evict_error (option SidecarConfig) :=
    match osc with
    | None => Ret None
    | Some sc =>
        match restored_config spec sc, err with
        | None, _ => Ret (Some sc)
        | Some sc, None => Ret (Some sc)
        | Some _, Some e => Fail e
        end
    end in
  ((cw_Update c n ns updater).1, effs, err).

(** The patch that restarts a workload: operation, pointer and value. *)
Definition escaped_restartedAt : string := "telepresence.io~1restartedAt".
Definition generateRestartAnnotationPatch (anns : option (gmap string string)) (now : string) : list (string * string * option string) :=
  let base := "/spec/template/metadata/annotations"%string in
  let pointer := base +:+ "/" +:+ escaped_restartedAt in
  if bool_decide (is_Some (entries anns !! RestartedAt)) then [("replace"%string, pointer, Some now)]
  else if bool_decide (entries anns = ∅) then [("add"%string, base, None); ("add"%string, pointer, Some now)]
  else [("add"%string, pointer, Some now)].

Section Watcher.
Context `{K8sApi, Cluster, MapOrder, ObjectJson, EvictApi}.

(** ** Pods by workload *)
Definition WorkloadKey (wl : Workload) : string * string * string := (wl_Kind wl, m_Name (wl_Meta wl), m_Namespace (wl_Meta wl)).
Definition wlPodMap_add (em : list (Workload * list Pod)) (wl : Workload) (pod : Pod) : list (Workload * list Pod) :=
  match list_find (fun wp => WorkloadKey wp.1 = WorkloadKey wl) em with
  | Some (i, (w, pods)) => <[i := (w, pods ++ [pod])]> em
  | None => em ++ [(wl, [pod])]
  end.
(** [None]: the search for an owner does not end. *)
Fixpoint podList (fuel : nat) (enabled : list string) (pods : list Pod) (em : list (Workload * list Pod)) : option (k8s_error + list (Workload * list Pod)) :=
  match pods with
  | [] => Some (inr em)
  | pod :: pods =>
      if negb (podIsPendingOrRunning pod) then podList fuel enabled pods em
      else
        let lbs := entries (m_Labels (pod_Meta pod)) in
        r ← match lbs !! WorkloadKindLabel with
            | Some podKind =>
                if negb (Kinds_Contains enabled podKind)
                then Some (k8sapi_GetWorkload (default EmptyString (lbs !! WorkloadNameLabel)) (m_Namespace (pod_Meta pod)) podKind)
                else FindOwnerWorkload fuel (ObjPod (pod_Meta pod)) enabled
            | None => FindOwnerWorkload fuel (ObjPod (pod_Meta pod)) enabled
            end;
        match r with
        | inl e => if IsNotFound e then podList fuel enabled pods em else Some (inl e)
        | inr wl => podList fuel enabled pods (wlPodMap_add em wl pod)
        end
  end.

(** ** Regeneration *)
Definition sc_key (sc : SidecarConfig) : string * string * string := (sf_WorkloadName sc, sf_Namespace sc, sf_WorkloadKind sc).
(** One pod: the configurations made so far, and whether the pod is to be evicted. *)
Definition regenerate_pod (enabled : list string) (wl : Workload) (x : configWatcher * GeneratorConfig * gmap (string * string * string) SidecarConfig * list Pod) (pod : Pod) :
    Go gen_error (configWatcher * GeneratorConfig * gmap (string * string * string) SidecarConfig * list Pod) :=
  let '(c, gc, wls, poi) := x in
  match entries (m_Annotations (pod_Meta pod)) !! ann_Config with
  | None => Ret x
  | Some cfgJSON =>
      match sidecar_of_json cfgJSON with
      | None => Ret x
      | Some sc =>
          if negb (cw_configured c) then Ret (cw_Store c sc, gc, wls, poi)
          else
            let judge c gc wls (newSc : option SidecarConfig) :=
              Ret (c, gc, wls, if bool_decide (newSc = Some sc) then poi else poi ++ [pod]) in
            match wls !! sc_key sc with
            | Some newSc => judge c gc wls (Some newSc)
            | None =>
                if Kinds_Contains enabled (sf_WorkloadKind sc) then
                  let '(gc, r) := Generate gc wl (Some sc) in
                  match r with
                  | Ret newSc => judge (cw_Store c newSc) gc (<[sc_key sc := newSc]> wls) (Some newSc)
                  | Fail _ => Ret (c, gc, wls, poi)
                  | Panic => Panic
                  end
                else judge c gc wls None
            end
      end
  end.
Fixpoint regenerate_pods (enabled : list string) (wl : Workload) (x : configWatcher * GeneratorConfig * gmap (string * string * string) SidecarConfig * list Pod) (pods : list Pod) :
    Go gen_error (configWatcher * GeneratorConfig * gmap (string * string * string) SidecarConfig * list Pod) :=
  match pods with [] => Ret x | pod :: pods => x ← regenerate_pod enabled wl x pod; regenerate_pods enabled wl x pods end.
Fixpoint regenerateAgentConfigs (c : configWatcher) (now : Z) (gc : GeneratorConfig) (enabled : list string) (evictMap : list (Workload * list Pod)) :
    Go gen_error (configWatcher * GeneratorConfig * list effect) :=
  match evictMap with
  | [] => Ret (c, gc, [])
  | (wl, pods) :: evictMap =>
      '(c, gc, _, poi) ← regenerate_pods enabled wl (c, gc, ∅, []) pods;
      let '(c, effs, _) := if bool_decide (poi = []) then (c, [], None) else evictPods c now wl poi in
      '(c, gc, effs') ← regenerateAgentConfigs c now gc enabled evictMap;
      Ret (c, gc, effs ++ effs')
  end.

(** ** Services *)
Definition references (svc : Service) (trustUID : bool) (ac : SidecarConfig) : bool * option Workload :=
  if existsb (fun cc => existsb (fun ic => bool_decide (ic_ServiceUID ic = svc_UID svc)) (cc_Intercepts cc)) (sf_Containers ac) then (true, None)
  else if trustUID then (false, None)
  else match GetWorkload (sf_WorkloadName ac) (sf_Namespace ac) (sf_WorkloadKind ac) with
       | inl _ => (false, None)
       | inr wl => (selector_matches (svc_Selector svc) (entries (m_Labels (pt_Meta (wl_Template wl)))), Some wl)
       end.
(** An error of a lookup comes with [false], so no affected configuration has one. *)
Definition configsAffectedBySvc (c : configWatcher) (svc : Service) (trustUID : bool) : list (SidecarConfig * option Workload) :=
  omap (fun '(_, sc) => match references svc trustUID sc with (true, wl) => Some (sc, wl) | (false, _) => None end)
    (map_to_list (default ∅ (cw_agentConfigs c !! svc_Namespace svc))).
(** "unable to find" occurs in the text of these errors. *)
Definition is_unable_to_find (e : gen_error) : bool :=
  match e with GenService (ServiceNotFound _) | GenService (NoLabels _) => true | _ => false end.
Definition pods_of (pods : Workload -> list Pod) (wl : Workload) : list Pod := pods wl.
Definition update_affected (now : Z) (pods : Workload -> list Pod) (x : configWatcher * GeneratorConfig * list effect) (ax : SidecarConfig * option Workload) :
    Go gen_error (configWatcher * GeneratorConfig * list effect) :=
  let '(c, gc, effs) := x in
  let '(ac, wl) := ax in
  match (match wl with Some wl => inr wl | None => GetWorkload (sf_WorkloadName ac) (sf_Namespace ac) (sf_WorkloadKind ac) end) with
  | inl e => Ret (if IsNotFound e then cw_Delete c (sf_AgentName ac) (sf_Namespace ac) else c, gc, effs)
  | inr wl =>
      let '(gc, r) := Generate gc wl (Some ac) in
      match r with
      | Fail e => Ret (if is_unable_to_find e then cw_Delete c (sf_AgentName ac) (sf_Namespace ac) else c, gc, effs)
      | Panic => Panic
      | Ret acn =>
          let '(c, effs', _) := EvictPodsWithAgentConfigMismatch (cw_Store c acn) now wl (pods_of pods wl) acn in
          Ret (c, gc, effs ++ effs')
      end
  end.
Fixpoint update_all (now : Z) (pods : Workload -> list Pod) (x : configWatcher * GeneratorConfig * list effect) (l : list (SidecarConfig * option Workload)) :
    Go gen_error (configWatcher * GeneratorConfig * list effect) :=
  match l with [] => Ret x | ax :: l => x ← update_affected now pods x ax; update_all now pods x l end.
Definition updateSvc (c : configWatcher) (now : Z) (gc : GeneratorConfig) (img : string) (pods : Workload -> list Pod) (svc : Service) (trustUID : bool) :
    Go gen_error (configWatcher * GeneratorConfig * list effect) :=
  if bool_decide (img = EmptyString) then Ret (c, gc, []) else update_all now pods (c, gc, []) (configsAffectedBySvc c svc trustUID).
Inductive svc_event := SvcAdded (svc : Service) | SvcDeleted (svc : Service) | SvcUpdated (old new : Service).
Definition watchServices (c : configWatcher) (now : Z) (gc : GeneratorConfig) (img : string) (pods : Workload -> list Pod) (ev : svc_event) :=
  match ev with
  | SvcAdded svc => updateSvc c now gc img pods svc false
  | SvcDeleted svc => updateSvc c now gc img pods svc true
  | SvcUpdated _ svc => updateSvc c now gc img pods svc true
  end.

(** ** Workloads *)
Inductive wl_state := StateUnknown | StateProgressing | StateAvailable | StateFailure.
Definition inject_annotation (m : ObjectMeta) : string := GetAnnotation (m_Annotations m) InjectTrafficAgent LegacyInjectTrafficAgent.
(** [same_template]: no change but the annotation of a restart and the times. *)
Definition updateWorkload (c : configWatcher) (now : Z) (gc : GeneratorConfig) (img : string) (enabled : list string) (pods : Workload -> list Pod)
    (wl : Workload) (oldWl : option Workload) (same_template : bool) (state : wl_state) : Go gen_error (configWatcher * list effect) :=
  let name := m_Name (wl_Meta wl) in let ns := m_Namespace (wl_Meta wl) in
  let ia := inject_annotation (pt_Meta (wl_Template wl)) in
  match state with
  | StateFailure => Ret (c, [])
  | _ =>
      if bool_decide (ia = EmptyString) || (bool_decide (is_Some oldWl) && same_template) then Ret (c, [])
      else if bool_decide (ia = "enabled"%string) then
        if negb (Kinds_Contains enabled (wl_Kind wl)) || bool_decide (img = EmptyString) then Ret (c, [])
        else
          let sc := match oldWl with Some _ => cw_Get c name ns | None => None end in
          match (Generate gc wl sc).2 with
          | Fail e => Ret (if is_unable_to_find e then cw_Delete c name ns else c, [])
          | Panic => Panic
          | Ret sc => let '(c, effs, _) := EvictPodsWithAgentConfigMismatch (cw_Store c sc) now wl (pods_of pods wl) sc in Ret (c, effs)
          end
      else if bool_decide (ia ∈ ["false"; "disabled"]%string) then
        let '(c, effs, _) := EvictPodsWithAgentConfig (cw_Delete c name ns) now wl (pods_of pods wl) in Ret (c, effs)
      else Ret (c, [])
  end.

(** ** Admission *)
Record InjectEnv := mkEnvCfg { ie_AgentInjectPolicy : nat; ie_EnabledKinds : list string; ie_MutationAware : bool; ie_InitEnabled : bool; ie_Image : string }.
Definition OnDemand : nat := 0.
Inductive inject_error := InvalidAnnotation (value : string) | GenerateFailed (e : gen_error) | PatchFailed (e : build_error).
Inductive admission := AdmitDelete (pod : PodTemplateSpec) | AdmitPod (pod : PodTemplateSpec).

(** [attempts]: the clusters that the attempts to generate see, at least one; [others]:
    what other goroutines do to the watcher meanwhile. *)
Definition GetOrGenerate (c : configWatcher) (attempts : list Cluster) (others : configWatcher -> configWatcher) (gc : GeneratorConfig) (wl : Workload) :
    configWatcher * Go gen_error SidecarConfig :=
  match cw_Get c (m_Name (wl_Meta wl)) (m_Namespace (wl_Meta wl)) with
  | Some ac => (c, Ret ac)
  | None =>
      let c := others c in
      match retry_generate (take max_attempts attempts) gc wl with
      | Some (Ret ac) => let '(c, ac) := gog_store c wl ac in (c, Ret ac)
      | Some (Fail e) => (c, Fail e)
      | _ => (c, Panic)
      end
  end.
Definition patch_for (env : InjectEnv) (sc : SidecarConfig) (pod : PodTemplateSpec) (wl : Workload) : Go inject_error (list PatchOperation) :=
  if sf_Manual sc then Ret []
  else
    let podTpl := mkPT (pt_Meta pod) (if ie_MutationAware env then pt_Spec pod else pt_Spec (wl_Template wl)) in
    match createPatch (ie_InitEnabled env) sc pod podTpl with Ret ops => Ret ops | Fail e => Fail (PatchFailed e) | Panic => Panic end.
Definition Inject (c : configWatcher) (terminating : bool) (now : Z) (fuel : nat) (attempts : list Cluster) (others : configWatcher -> configWatcher)
    (env : InjectEnv) (gc : GeneratorConfig) (req : admission) : configWatcher * Go inject_error (list PatchOperation) :=
  if terminating then (c, Ret [])
  else
    match req with
    | AdmitDelete pod => (Inactivate c now (m_UID (pt_Meta pod)), Ret [])
    | AdmitPod pod =>
        let ia := inject_annotation (pt_Meta pod) in
        if bool_decide (ia ∈ ["false"; "disabled"]%string) then (c, Ret [])
        else if negb (bool_decide (ia ∈ [EmptyString; "enabled"]%string)) then (c, Fail (InvalidAnnotation ia))
        else if bool_decide (ia = EmptyString) && negb (bool_decide (ie_AgentInjectPolicy env = OnDemand)) then (c, Ret [])
        else if bool_decide (ie_Image env = EmptyString) then (c, Ret [])
        else match FindOwnerWorkload fuel (ObjPod (pt_Meta pod)) (ie_EnabledKinds env) with
             | Some (inr wl) =>
                 if bool_decide (ia = "enabled"%string) then
                   let '(c, r) := GetOrGenerate c attempts others gc wl in
                   (c, match r with Ret sc => patch_for env sc pod wl | Fail e => Fail (GenerateFailed e) | Panic => Panic end)
                 else match cw_Get c (m_Name (wl_Meta wl)) (m_Namespace (wl_Meta wl)) with
                      | Some sc => (c, patch_for env sc pod wl)
                      | None => (c, Ret [])
                      end
             | _ => (c, Ret [])
             end
    end.
End Watcher.
