(* ===== verification/ConfigWatcherSpec.v ===== *)
(** * Correctness of the configuration watcher and the webhook *)
From S2P Require Import Prelude NetIP GoStrings GoText GoJson PortTypes PortSpec Matcher Icept Policies AgentConfig AgentSpec Kube Discovery Generator GeneratorSpec AgentContainer Injector InjectorSpec ConfigWatcher.
From Stdlib Require Import Ascii.
Local Open Scope Z_scope.

(** ** The map of configurations *)
Lemma Get_put m c ns name sc ns' name' :
  cw_Get (set_configs c (put_config m ns name sc)) name' ns' =
    if bool_decide (ns' = ns /\ name' = name) then Some sc else cw_Get (set_configs c m) name' ns'.
Proof.
  unfold cw_Get, put_config. cbn [cw_agentConfigs set_configs]. destruct (decide (ns = ns')) as [->|Hne].
  - rewrite lookup_insert_eq. cbn [mbind option_bind]. destruct (decide (name = name')) as [->|Hn].
    + by rewrite lookup_insert_eq, bool_decide_true.
    + rewrite lookup_insert_ne, bool_decide_false by naive_solver. by destruct (m !! ns').
  - by rewrite lookup_insert_ne, bool_decide_false by naive_solver.
Qed.
Lemma set_configs_same c : set_configs c (cw_agentConfigs c) = c.
Proof. by destruct c. Qed.
Lemma Get_Store c sc name ns : cw_Get (cw_Store c sc) name ns = if bool_decide (ns = sf_Namespace sc /\ name = sf_AgentName sc) then Some sc else cw_Get c name ns.
Proof. unfold cw_Store. by rewrite Get_put, set_configs_same. Qed.
Lemma Get_Delete c name ns name' ns' : cw_Get (cw_Delete c name ns) name' ns' = if bool_decide (ns' = ns /\ name' = name) then None else cw_Get c name' ns'.
Proof.
  unfold cw_Get, cw_Delete. cbn [cw_agentConfigs set_configs]. destruct (decide (ns' = ns)) as [->|Hne].
  - destruct (cw_agentConfigs c !! ns) as [m|] eqn:E.
    + case_bool_decide as Hd.
      * rewrite lookup_delete_eq. cbn [mbind option_bind]. destruct (decide (name' = name)) as [->|Hn]; [by rewrite bool_decide_true|].
        rewrite bool_decide_false by naive_solver. assert (Hl : delete name m !! name' = None) by (by rewrite Hd, lookup_empty).
        by rewrite lookup_delete_ne in Hl.
      * rewrite lookup_insert_eq. cbn [mbind option_bind]. destruct (decide (name' = name)) as [->|Hn].
        -- by rewrite lookup_delete_eq, bool_decide_true.
        -- by rewrite lookup_delete_ne, bool_decide_false by naive_solver.
    + rewrite lookup_delete_eq. cbn. by case_bool_decide.
  - rewrite bool_decide_false by naive_solver. destruct (cw_agentConfigs c !! ns) as [m|]; [case_bool_decide|];
      rewrite ?lookup_delete_ne, ?lookup_insert_ne by done; done.
Qed.

(** ** Eviction *)
Section Evict.
Context `{EvictApi}.

Lemma isEvicted_mark c now uid uid' : isEvicted (mark_deleted c now uid) uid' = bool_decide (uid' = uid) || isEvicted c uid'.
Proof.
  unfold isEvicted, mark_deleted. cbn [cw_inactivePods set_inactive]. destruct (decide (uid' = uid)) as [->|Hne].
  - by rewrite lookup_insert_eq, bool_decide_true.
  - by rewrite lookup_insert_ne, bool_decide_false.
Qed.
Definition uid_of (pod : Pod) : string := m_UID (pod_Meta pod).
(** The pods that the loop has to deal with. *)
Definition pending (c : configWatcher) (pod : Pod) : Prop := isEvicted c (uid_of pod) = false /\ managed_manually pod = false.
Definition settled (c : configWatcher) (pod : Pod) : Prop := isEvicted c (uid_of pod) = true \/ managed_manually pod = true.

Lemma settled_mono c c' pod : (forall uid, isEvicted c uid = true -> isEvicted c' uid = true) -> settled c pod -> settled c' pod.
Proof. intros Hm [?|?]; [left; by apply Hm|by right]. Qed.
Lemma evictOrRollout_effects wl pod counter effs r e : evictOrRollout wl pod counter = (effs, r) -> e ∈ effs ->
  e = Evicted (pod_name pod) \/ e = EvictLater (pod_name pod) \/ e = Restarted (wl_name wl) \/ exists n, e = Scaled (wl_name wl) n.
Proof.
  assert (Hretry : forall l, forall e, e ∈ (retry_loop l pod).1 -> e = Evicted (pod_name pod)).
  { intros l. induction l as [|a l IH]; intros e'; cbn; [intros Hin; by apply not_elem_of_nil in Hin|].
    destruct a; cbn; [by intros ->%list_elem_of_singleton|apply IH|intros Hin; by apply not_elem_of_nil in Hin]. }
  unfold evictOrRollout. destruct (evict_api pod).
  - intros [= <- <-] ->%list_elem_of_singleton. by left.
  - destruct (Nat.ltb 0 counter); [intros [= <- <-] ->%list_elem_of_singleton; auto|]. case_bool_decide.
    + unfold triggerScalingEviction. destruct (scale_ok wl (wl_Replicas wl + 1)); cbn [negb]; [|intros [= <- <-] Hin; by apply not_elem_of_nil in Hin].
      unfold retryEvictPod. destruct (replicas_reached wl _); cbn [negb].
      * destruct (retry_loop (evict_retries pod) pod) as [re er] eqn:Er. intros [= <- _]. rewrite elem_of_cons, elem_of_app. intros [Hin|[Hin|Hin]].
        -- naive_solver.
        -- left. apply (Hretry (evict_retries pod)). by rewrite Er.
        -- destruct (scale_ok wl _); [apply list_elem_of_singleton in Hin; naive_solver|by apply not_elem_of_nil in Hin].
      * intros [= <- _]. rewrite elem_of_cons. intros [Hin|Hin]; [naive_solver|].
        destruct (scale_ok wl _); [apply list_elem_of_singleton in Hin; naive_solver|by apply not_elem_of_nil in Hin].
    + destruct (patch_ok wl); [intros [= <- <-] ->%list_elem_of_singleton; auto|intros [= <- <-] Hin; by apply not_elem_of_nil in Hin].
  - intros [= <- <-] Hin. by apply not_elem_of_nil in Hin.
Qed.

Lemma evict_loop_correct c now wl pods did counter c' effs err : evict_loop c now wl pods did counter = (c', effs, err) ->
  (err = None -> Forall (settled c') pods) /\
  (forall uid, isEvicted c uid = true -> isEvicted c' uid = true) /\
  (forall uid, isEvicted c' uid = true -> isEvicted c uid = true \/ exists pod, pod ∈ pods /\ pending c pod /\ uid_of pod = uid) /\
  cw_agentConfigs c' = cw_agentConfigs c /\
  (forall n, Evicted n ∈ effs \/ EvictLater n ∈ effs -> exists pod, pod ∈ pods /\ pending c pod /\ pod_name pod = n).
Proof.
  revert c did counter effs. induction pods as [|pod pods IH]; intros c did counter effs Hl.
  - injection Hl as <- <- <-. split; [by constructor|]. split; [done|]. split; [by left|]. split; [done|]. intros n [Hin|Hin]; by apply not_elem_of_nil in Hin.
  - cbn [evict_loop] in Hl. destruct (isEvicted c _ || managed_manually pod) eqn:Eskip.
    { destruct (IH _ _ _ _ Hl) as (Hset & Hm & Hb & Hc & He). split_and!; [|done| |done|].
      - intros Hn. constructor; [|by apply Hset]. apply (settled_mono c); [done|]. by apply orb_true_iff in Eskip.
      - intros uid Hu. destruct (Hb uid Hu) as [?|(p & Hp & ?)]; [by left|]. right. exists p. split; [by apply list_elem_of_further|done].
      - intros n Hn. destruct (He n Hn) as (p & Hp & ?). exists p. split; [by apply list_elem_of_further|done]. }
    assert (Hpend : pending c pod) by (unfold pending, uid_of; bools; done).
    assert (Hback : forall p, pending (mark_deleted c now (uid_of pod)) p -> pending c p).
    { intros p [Hu Hm]. split; [|done]. rewrite isEvicted_mark in Hu. by bools. }
    assert (Hrest : forall did' counter' effs', evict_loop (mark_deleted c now (uid_of pod)) now wl pods did' counter' = (c', effs', err) ->
      (err = None -> Forall (settled c') (pod :: pods)) /\ (forall uid, isEvicted c uid = true -> isEvicted c' uid = true) /\
      (forall uid, isEvicted c' uid = true -> isEvicted c uid = true \/ exists p, p ∈ pod :: pods /\ pending c p /\ uid_of p = uid) /\
      cw_agentConfigs c' = cw_agentConfigs c /\ (forall n, Evicted n ∈ effs' \/ EvictLater n ∈ effs' -> exists p, p ∈ pod :: pods /\ pending c p /\ pod_name p = n)).
    { intros did' counter' effs' Hl'. destruct (IH _ _ _ _ Hl') as (Hset & Hm & Hb & Hc & He). split_and!.
      - intros Hn. constructor; [|by apply Hset]. left. apply Hm. rewrite isEvicted_mark, bool_decide_true by done. done.
      - intros uid Hu. apply Hm. rewrite isEvicted_mark, Hu. apply orb_true_r.
      - intros uid Hu. destruct (Hb uid Hu) as [Hu'|(p & Hp & Hpp & Hpu)].
        + rewrite isEvicted_mark in Hu'. apply orb_true_iff in Hu' as [Hu'|Hu']; [|by left]. apply bool_decide_eq_true_1 in Hu'. subst uid.
          right. exists pod. split; [apply list_elem_of_here|done].
        + right. exists p. split; [by apply list_elem_of_further|]. split; [by apply Hback|done].
      - done.
      - intros n Hn. destruct (He n Hn) as (p & Hp & Hpp & Hpn). exists p. split; [by apply list_elem_of_further|]. split; [by apply Hback|done]. }
    fold (uid_of pod) in Hl. destruct did; [by apply (Hrest true counter)|].
    destruct (evictOrRollout wl pod counter) as [effs1 r] eqn:Er. destruct r as [e|did'].
    { injection Hl as <- <- <-. split_and!; [done|done|by left|done|]. intros n Hn.
      assert (Hname : pod_name pod = n) by (destruct Hn as [Hn|Hn]; apply (evictOrRollout_effects _ _ _ _ _ _ Er) in Hn; naive_solver).
      exists pod. split; [apply list_elem_of_here|done]. }
    destruct (evict_loop _ _ _ _ _ _) as [[c1 effs'] err'] eqn:El. injection Hl as -> <- ->.
    destruct (Hrest _ _ _ El) as (Hset & Hm & Hb & Hc & He). split_and!; [done..|]. intros n Hn. rewrite !elem_of_app in Hn.
    destruct Hn as [[Hn|Hn]|[Hn|Hn]]; [|by apply He; left| |by apply He; right];
      apply (evictOrRollout_effects _ _ _ _ _ _ Er) in Hn; (exists pod; split; [apply list_elem_of_here|split; [done|naive_solver]]).
Qed.
Lemma evict_loop_settled c now wl pods did counter : Forall (settled c) pods -> evict_loop c now wl pods did counter = (c, [], None).
Proof.
  intros Hs. revert did counter. induction Hs as [|pod pods Hp Hs IH]; intros did counter; [done|]. cbn [evict_loop].
  replace (isEvicted c _ || managed_manually pod) with true; [apply IH|]. symmetry. apply orb_true_iff. exact Hp.
Qed.

(** An eviction that reports no error has dealt with every pod: each is marked as deleted,
    or managed manually.  It evicts only pods that were not marked yet and are not managed
    manually, it changes no configuration, and to repeat it does nothing. *)
Theorem evictPods_correct (c : configWatcher) (now : Z) (wl : Workload) (pods : list Pod) (c' : configWatcher) (effs : list effect) :
  evictPods c now wl pods = (c', effs, None) ->
  Forall (settled c') pods /\ cw_agentConfigs c' = cw_agentConfigs c /\
  (forall n, Evicted n ∈ effs -> exists pod, pod ∈ pods /\ pending c pod /\ pod_name pod = n) /\
  forall now' wl', evictPods c' now' wl' pods = (c', [], None).
Proof.
  intros He. destruct (evict_loop_correct _ _ _ _ _ _ _ _ _ He) as (Hs & _ & _ & Hc & Hev). split_and!; [by apply Hs|done|auto|].
  intros now' wl'. by apply evict_loop_settled, Hs.
Qed.
(** The end of an intercept puts its application container back: when the container that
    the intercept is for is found and no eviction fails, the configuration of the workload
    afterwards has that container with the policy of an intercept, or inactive when the
    intercept had no port, every other container is as it was, and so are the
    configurations of all other workloads.  Every running pod with another
    configuration is marked as deleted or managed manually when that made a change. *)
Theorem restoreAppContainer_correct `{ObjectJson} (c : configWatcher) (now : Z) (wl : Workload) (pods : list Pod) (spec : InterceptSpec)
    (sc : SidecarConfig) (i : nat) (cc : ContainerConfig) (c' : configWatcher) (effs : list effect) :
  cw_Get c (sp_Agent spec) (sp_Namespace spec) = Some sc -> restore_target spec sc = Some i -> sf_Containers sc !! i = Some cc ->
  restoreAppContainer c now wl pods spec = (c', effs, None) ->
  let sc' := with_containers (<[i := with_replace (desiredPolicy spec) cc]> (sf_Containers sc)) sc in
  cw_Get c' (sp_Agent spec) (sp_Namespace spec) = Some sc' /\
  (forall n ns, (n, ns) <> (sp_Agent spec, sp_Namespace spec) -> cw_Get c' n ns = cw_Get c n ns) /\
  (cc_Replace cc <> desiredPolicy spec -> forall pod, pod ∈ workloadPods pods -> pod_config pod <> MarshalTight sc' -> settled c' pod).
Proof.
  intros Hg Ht Hcc Hr sc'. unfold restoreAppContainer in Hr. rewrite Hg in Hr. cbn [mbind option_bind] in Hr.
  assert (Hrc : restored_config spec sc = if bool_decide (cc_Replace cc = desiredPolicy spec) then None else Some sc').
  { unfold restored_config. rewrite Ht. cbn [mbind option_bind]. rewrite Hcc. done. }
  assert (Hsame : cc_Replace cc = desiredPolicy spec -> sc' = sc).
  { intros He. unfold sc'. rewrite list_insert_id; [by destruct sc|]. rewrite Hcc, <- He. by destruct cc. }
  assert (Hup : forall c1 osc', cw_agentConfigs c1 = cw_agentConfigs c ->
            let c2 := (cw_Update c1 (sp_Agent spec) (sp_Namespace spec) (fun o : option SidecarConfig => match o with None => @Ret evict_error _ None | Some _ => Ret (Some osc') end)).1 in
            cw_Get c2 (sp_Agent spec) (sp_Namespace spec) = Some osc' /\ cw_inactivePods c2 = cw_inactivePods c1 /\
            forall n ns, (n, ns) <> (sp_Agent spec, sp_Namespace spec) -> cw_Get c2 n ns = cw_Get c n ns).
  { intros c1 osc' Hc. unfold cw_Update. rewrite Hc. unfold cw_Get in Hg |- *. destruct (cw_agentConfigs c !! sp_Namespace spec) as [scm|] eqn:Es; [|done].
    cbn [mbind option_bind] in Hg. rewrite Hg. cbn [fst set_configs cw_agentConfigs cw_inactivePods]. rewrite lookup_insert_eq. cbn [mbind option_bind]. rewrite lookup_insert_eq.
    split_and!; [done..|]. intros n ns Hne. destruct (decide (ns = sp_Namespace spec)) as [->|Hns].
    - rewrite lookup_insert_eq, Es. cbn [mbind option_bind]. rewrite lookup_insert_ne by congruence. done.
    - by rewrite lookup_insert_ne by congruence. }
  case_bool_decide as Hp; rewrite Hrc in Hr.
  - injection Hr as <- <-. rewrite (Hsame Hp). specialize (Hup c sc eq_refl).
    unfold cw_Update in *. destruct (cw_agentConfigs c !! sp_Namespace spec) as [scm|] eqn:Es; [|by unfold cw_Get in Hg; rewrite Es in Hg].
    unfold cw_Get in Hg. rewrite Es in Hg. cbn [mbind option_bind] in Hg. rewrite Hg in Hup |- *. rewrite Hrc. destruct Hup as (U1 & _ & U3). split_and!; done.
  - destruct (EvictPodsWithAgentConfigMismatch c now wl pods sc') as [[c1 effs1] err1] eqn:Ev. injection Hr as <- <- ->.
    destruct (evict_loop_correct _ _ _ _ _ _ _ _ _ Ev) as (Hset & _ & _ & Hc & _). specialize (Hup c1 sc' Hc).
    unfold cw_Update in *. rewrite Hc in *. destruct (cw_agentConfigs c !! sp_Namespace spec) as [scm|] eqn:Es; [|by unfold cw_Get in Hg; rewrite Es in Hg].
    unfold cw_Get in Hg. rewrite Es in Hg. cbn [mbind option_bind] in Hg. rewrite Hg in Hup |- *. rewrite Hrc. destruct Hup as (U1 & U2 & U3). split_and!; [done..|].
    intros _ pod Hpod Hne. specialize (Hset eq_refl). rewrite Forall_forall in Hset. apply Hset. by apply list_elem_of_filter.
Qed.
End Evict.

(** ** Generation on demand *)
Section Demand.
Context `{K8sApi, MapOrder}.
Definition wl_config (c : configWatcher) (wl : Workload) : option SidecarConfig := cw_Get c (m_Name (wl_Meta wl)) (m_Namespace (wl_Meta wl)).

Lemma gog_store_get c wl ac c' ac' : gog_store c wl ac = (c', ac') -> wl_config c' wl = Some ac' /\ (forall existing, wl_config c wl = Some existing -> ac' = existing).
Proof.
  unfold gog_store, wl_config. destruct (cw_Get c _ _) as [e|] eqn:E.
  - intros [= <- <-]. split; [done|congruence].
  - intros [= <- <-]. split; [|done]. rewrite Get_put. by rewrite bool_decide_true.
Qed.
(** Whatever other goroutines do between the lookup and the store, the configuration that a
    caller gets is the one that is stored when it returns, and a caller that finds one
    leaves it. *)
Theorem GetOrGenerate_stored (c : configWatcher) (attempts : list Cluster) (others : configWatcher -> configWatcher) (gc : GeneratorConfig) (wl : Workload)
    (c' : configWatcher) (ac : SidecarConfig) :
  GetOrGenerate c attempts others gc wl = (c', Ret ac) ->
  wl_config c' wl = Some ac /\ (forall e, wl_config c wl = Some e -> c' = c /\ ac = e) /\
  (wl_config c wl = None -> forall e, wl_config (others c) wl = Some e -> c' = others c /\ ac = e).
Proof.
  unfold GetOrGenerate. fold (wl_config c wl). destruct (wl_config c wl) as [e|] eqn:E.
  - intros [= <- <-]. split_and!; [done| |done]. by intros e' [= <-].
  - destruct (retry_generate _ gc wl) as [[ac0| |]|]; try discriminate. destruct (gog_store (others c) wl ac0) as [c1 ac1] eqn:Eg.
    intros [= <- <-]. destruct (gog_store_get _ _ _ _ _ Eg) as [Hs He]. split_and!; [done|done|]. intros _ e Ho. split; [|by apply He].
    unfold gog_store in Eg. fold (wl_config (others c) wl) in Eg. rewrite Ho in Eg. congruence.
Qed.

(** Attempts stop at the first success, and at an error that the user has to mend; an error
    of the lookup of services is tried again while attempts remain. *)
Theorem retry_generate_spec (attempts : list Cluster) (gc : GeneratorConfig) (wl : Workload) (sc : SidecarConfig) :
  retry_generate attempts gc wl = Some (Ret sc) ->
  exists before cl after gc', attempts = before ++ cl :: after /\ (@Generate _ cl _ gc' wl None).2 = Ret sc /\
    gc_AgentPort gc' = gc_AgentPort gc /\
    Forall (fun cl' => exists gc1 e, (@Generate _ cl' _ gc1 wl None).2 = Fail e /\ is_user_error e = false) before.
Proof.
  assert (Hport : forall cl gc gc' wl ex r, @Generate _ cl _ gc wl ex = (gc', r) -> gc_AgentPort gc' = gc_AgentPort gc).
  { intros cl g g' w ex r. unfold Generate. repeat case_match; intros [= <- _]; done. }
  revert gc. induction attempts as [|cl attempts IH]; intros gc; [discriminate|]. cbn [retry_generate].
  destruct (Generate gc wl None) as [gc1 r] eqn:Eg. pose proof (Hport _ _ _ _ _ _ Eg) as Hp.
  assert (Hret : r = Ret sc -> exists before cl0 after gc', cl :: attempts = before ++ cl0 :: after /\ (@Generate _ cl0 _ gc' wl None).2 = Ret sc /\
    gc_AgentPort gc' = gc_AgentPort gc /\ Forall (fun cl' => exists gc1 e, (@Generate _ cl' _ gc1 wl None).2 = Fail e /\ is_user_error e = false) before).
  { intros ->. exists [], cl, attempts, gc. split; [done|]. split; [by rewrite Eg|]. split; [done|constructor]. }
  destruct r as [sc'|e|]; [intros [= ->]; by apply Hret| |intros [=]].
  destruct attempts as [|cl2 attempts]; [intros [=]|]. destruct (is_user_error e) eqn:Eu; [intros [=]|]. intros Hr.
  destruct (IH gc1 Hr) as (before & cl0 & after & gc' & Hat & Hg & Hgp & Hb). exists (cl :: before), cl0, after, gc'. rewrite Hat. split; [done|].
  split; [done|]. split; [congruence|]. constructor; [|done]. exists gc, e. by rewrite Eg.
Qed.
End Demand.

(** ** The webhook and the watcher *)
Section Webhook.
Context `{K8sApi, Cluster, MapOrder, ObjectJson, EvictApi}.

Lemma AgentContainer_config wlTpl config acn anns : AgentContainer wlTpl config = Ret (acn, anns) -> anns !! ann_Config = Some (MarshalTight config).
Proof.
  unfold AgentContainer. destruct (mountSecrets _ DownstreamTLSSecret _ _ _) as [[a1 m1]| |]; [|discriminate..]. cbn [mbind go_bind].
  destruct (mountSecrets _ UpstreamTLSSecret _ _ _) as [[a2 m2]| |]; [|discriminate..]. cbn [mbind go_bind].
  intros Hr. apply Ret_inj in Hr. apply (f_equal snd) in Hr. cbn [snd] in Hr. rewrite <- Hr. by rewrite lookup_insert_eq.
Qed.
(** A configuration that can be injected: distinct containers, no API server. *)
Definition injectable (sc : SidecarConfig) : Prop := NoDup (cc_Name <$> sf_Containers sc) /\ sf_APIPort sc = 0.
Definition fresh_pod (pod : PodTemplateSpec) : Prop :=
  NoDup (kc_Name <$> ps_Containers (pt_Spec pod)) /\ ContainerName ∉ kc_Name <$> ps_Containers (pt_Spec pod) /\ entries (m_Annotations (pt_Meta pod)) !! ann_Config = None.


(** ** Workloads that change *)
(** When a workload with the annotation "enabled" changes, the configuration generated for
    it is stored, and every running pod of the workload has it, is managed manually, or is
    marked as deleted, unless an eviction failed. *)
Theorem updateWorkload_reconciles (c : configWatcher) (now : Z) (gc : GeneratorConfig) (img : string) (enabled : list string) (pods : Workload -> list Pod)
    (wl : Workload) (oldWl : option Workload) (same : bool) (state : wl_state) (sc : SidecarConfig) :
  let old := match oldWl with Some _ => wl_config c wl | None => None end in
  inject_annotation (pt_Meta (wl_Template wl)) = "enabled"%string -> state <> StateFailure -> (is_Some oldWl -> same = false) ->
  Kinds_Contains enabled (wl_Kind wl) = true -> img <> EmptyString -> (Generate gc wl old).2 = Ret sc ->
  exists c' effs err, EvictPodsWithAgentConfigMismatch (cw_Store c sc) now wl (pods wl) sc = (c', effs, err) /\
    updateWorkload c now gc img enabled pods wl oldWl same state = Ret (c', effs) /\ wl_config c' wl = Some sc /\
    (err = None -> Forall (fun pod => pod_config pod = MarshalTight sc \/ settled c' pod) (workloadPods (pods wl))).
Proof.
  cbv zeta. intros Hia Hst Hsame Hk Himg Hg.
  destruct (EvictPodsWithAgentConfigMismatch (cw_Store c sc) now wl (pods wl) sc) as [[c' effs] err] eqn:Ee. exists c', effs, err. split; [done|].
  assert (Hev := Ee). unfold EvictPodsWithAgentConfigMismatch, evictPodsWithAgentConfigMismatch, evictPods in Hev.
  destruct (evict_loop_correct _ _ _ _ _ _ _ _ _ Hev) as (Hset & _ & _ & Hc & _).
  assert (Hkey : sf_AgentName sc = m_Name (wl_Meta wl) /\ sf_Namespace sc = m_Namespace (wl_Meta wl)).
  { destruct (Generate gc wl _) as [gc' r] eqn:E. cbn [snd] in Hg. subst r. apply Generate_Ret in E as (? & ? & ? & ? & _ & _ & _ & _ & _ & _ & ->). done. }
  split_and!.
  - unfold updateWorkload. fold (wl_config c wl). rewrite Hia, Hk, Hg. rewrite (bool_decide_false (img = EmptyString)) by done.
    assert (Hns : bool_decide (is_Some oldWl) && same = false).
    { case_bool_decide as Ho; [|done]. by rewrite (Hsame Ho). }
    rewrite Hns. unfold pods_of. rewrite Ee. destruct state; try done.
  - unfold wl_config, cw_Get. rewrite Hc. fold (cw_Get (cw_Store c sc) (m_Name (wl_Meta wl)) (m_Namespace (wl_Meta wl))).
    rewrite Get_Store. destruct Hkey as [-> ->]. by rewrite bool_decide_true.
  - intros Hn. specialize (Hset Hn). rewrite Forall_forall in Hset |- *. intros pod Hin. destruct (decide (pod_config pod = MarshalTight sc)) as [?|Hne]; [by left|].
    right. apply Hset. by apply list_elem_of_filter.
Qed.
End Webhook.

(** * A cluster on which the theorems about the watcher and the webhook apply, and histories
      in which they do what they do not mean to *)
(** An API server that answers every eviction with [answer]. *)
Definition evictions (answer : evict_result) : EvictApi := {|
  evict_api := fun _ => answer; patch_ok := fun _ => true; scale_ok := fun _ _ => true; replicas_reached := fun _ _ => true;
  evict_retries := fun _ => [EvictBudget; EvictOk]
|}.
Local Existing Instances K8sRef sample_json sorted_visits shop_cluster.

(** ** Eviction *)
Definition shop_pod_named (name uid cfg : string) : Pod := mkPod (mkMeta name "ns" uid None (Some {[ ann_Config := cfg ]}) []) "Running".
Definition two_pods : list Pod := [shop_pod_named "p1" "u-1" "old"; shop_pod_named "p2" "u-2" "old"].
Definition after_evict : configWatcher := mark_deleted (mark_deleted NewWatcher 7 "u-1") 7 "u-2".
Lemma evictPods_correct_witness :
  isEvicted after_evict "u-1" = true /\ forall now wl, @evictPods (evictions EvictOk) after_evict now wl two_pods = (after_evict, [], None).
Proof.
  destruct (@evictPods_correct (evictions EvictOk) NewWatcher 7 shop two_pods after_evict [Evicted "p1"; Evicted "p2"]) as (Hs & _ & _ & Hr).
  - vm_compute. reflexivity.
  - split; [|exact Hr]. apply Forall_cons in Hs as [[Hs|Hs] _]; [exact Hs|vm_compute in Hs; discriminate].
Defined.
(** A budget that allows no disruption: a deployment is restarted, which deals with all
    pods; a replica set is scaled up and down again around the eviction. *)
Example budget_restarts : (@evictPods (evictions EvictBudget) NewWatcher 7 shop two_pods).1.2 = [Restarted "shop"].
Proof. vm_compute. reflexivity. Qed.
Example budget_scales : (@evictPods (evictions EvictBudget) NewWatcher 7 shop_rs two_pods).1.2 =
  [Scaled "shop-5d9c" 2; Evicted "p1"; Scaled "shop-5d9c" 1; EvictLater "p2"].
Proof. vm_compute. reflexivity. Qed.

(** ** Generation on demand *)
(** Another goroutine stores a configuration while this one generates. *)
Definition other_sidecar : SidecarConfig := sidecar_of sample_cfg shop [].
Lemma GetOrGenerate_stored_witness :
  wl_config (cw_Store NewWatcher other_sidecar) shop = Some other_sidecar.
Proof.
  refine (proj1 (GetOrGenerate_stored NewWatcher [shop_cluster] (fun c => cw_Store c other_sidecar) sample_cfg shop (cw_Store NewWatcher other_sidecar) other_sidecar _)).
  vm_compute. reflexivity.
Defined.

(** ** Admission *)
Definition sample_env : InjectEnv := mkEnvCfg OnDemand kinds3 false true "tel2:2.20".
Definition enabled_anns : gmap string string := {[ InjectTrafficAgent := "enabled"%string ]}.
Definition new_pod : PodTemplateSpec :=
  mkPT (mkMeta "shop-5d9c-x1" "ns" "u-9" None (Some enabled_anns) [mkOR ReplicaSetKind "shop-5d9c" (Some true)]) (pt_Spec (pod_of shop)).
Definition shop_watcher : configWatcher := cw_Store NewWatcher shop_sidecar.
Definition new_pod_ops : list PatchOperation :=
  match (Inject NewWatcher false 7 3 [shop_cluster] (fun c => c) sample_env sample_cfg (AdmitPod new_pod)).2 with Ret ops => ops | _ => [] end.
Lemma shop_watcher_only name ns sc : cw_Get shop_watcher name ns = Some sc -> sc = shop_sidecar.
Proof. unfold shop_watcher. rewrite Get_Store. case_bool_decide; [congruence|]. unfold cw_Get. cbn [cw_agentConfigs NewWatcher]. rewrite lookup_empty. discriminate. Qed.

(** ** Workloads that change *)
Definition enabled_shop : Workload := wl_with enabled_anns [web_cn; db_cn].
Definition enabled_sidecar : SidecarConfig := match (Generate sample_cfg enabled_shop None).2 with Ret sc => sc | _ => other_sidecar end.
Lemma updateWorkload_reconciles_witness :
  exists c' effs, @updateWorkload _ shop_cluster _ _ (evictions EvictOk) NewWatcher 7 sample_cfg "tel2:2.20" kinds3 (fun _ => two_pods) enabled_shop None false StateAvailable = Ret (c', effs) /\
    wl_config c' enabled_shop = Some enabled_sidecar.
Proof.
  destruct (@updateWorkload_reconciles _ shop_cluster _ _ (evictions EvictOk) NewWatcher 7 sample_cfg "tel2:2.20" kinds3 (fun _ => two_pods) enabled_shop None false StateAvailable enabled_sidecar)
    as (c' & effs & err & _ & Hu & Hg & _).
  - vm_compute. reflexivity.
  - discriminate.
  - intros [x Hx]. discriminate.
  - vm_compute. reflexivity.
  - discriminate.
  - vm_compute. reflexivity.
  - exists c', effs. split; [exact Hu|exact Hg].
Defined.

(** ** Where the watcher does not do what it means to *)
(** Writing and reading a configuration that is tight already. *)
Definition reading (sc : SidecarConfig) : ObjectJson := {|
  container_json := kc_Name; container_of_json := fun _ => None; sidecar_json := sf_AgentName; sidecar_of_json := fun s => if bool_decide (s = sf_AgentName sc) then Some sc else None
|}.
(** "evict all pods whose config has changed": the configuration in the annotation has no
    image, the generated one has, so a pod that is up to date is evicted too. *)
Example up_to_date_pod_evicted :
  let sc := tight shop_sidecar in
  let pod := shop_pod_named "p1" "u-1" "shop" in
  let c := SetConfigured NewWatcher in
  exists c' gc' effs, @regenerateAgentConfigs _ shop_cluster _ (reading sc) (evictions EvictOk) c 7 sample_cfg kinds3 [(shop, [pod])] = Ret (c', gc', effs) /\
    effs = [Evicted "p1"] /\ (tight <$> wl_config c' shop) = Some sc /\ pod_config pod = @MarshalTight (reading sc) sc.
Proof. eexists _, _, _. split; [vm_compute; reflexivity|]. vm_compute. done. Qed.

(** After a restart the configurations are those of the annotations: a pod that is admitted
    then gets an agent container without an image. *)
Definition empty_image (r : Go inject_error (list PatchOperation)) (pod : PodTemplateSpec) : option string :=
  match r with
  | Ret ops => pod' ← apply_ops ops pod; c ← list_find (fun c => kc_Name c = ContainerName) (ps_Containers (pt_Spec pod')); Some (kc_Image c.2)
  | _ => None
  end.
Example agent_without_image :
  let sc := tight shop_sidecar in
  let pod := shop_pod_named "p1" "u-1" "shop" in
  exists c' gc', @regenerateAgentConfigs _ shop_cluster _ (reading sc) (evictions EvictOk) NewWatcher 7 sample_cfg kinds3 [(shop, [pod])] = Ret (c', gc', []) /\
    empty_image (@Inject _ shop_cluster _ (reading sc) c' false 8 3 [shop_cluster] (fun c => c) sample_env sample_cfg (AdmitPod new_pod)).2 new_pod = Some ""%string /\
    empty_image (@Inject _ shop_cluster _ (reading sc) NewWatcher false 8 3 [shop_cluster] (fun c => c) sample_env sample_cfg (AdmitPod new_pod)).2 new_pod = Some "tel2:2.20"%string.
Proof. eexists _, _. split; [vm_compute; reflexivity|]. vm_compute. done. Qed.

(** A service that is changed so that it selects a workload does not reach the workload's
    configuration; a service that is added with the same selector does. *)
Definition alone : configWatcher := cw_Store NewWatcher other_sidecar.
Example modified_service_not_noticed :
  @watchServices _ shop_cluster _ _ (evictions EvictOk) alone 7 sample_cfg "tel2:2.20" (fun _ => []) (SvcUpdated default_svc shop_svc) = Ret (alone, sample_cfg, []) /\
  exists c' gc', @watchServices _ shop_cluster _ _ (evictions EvictOk) alone 7 sample_cfg "tel2:2.20" (fun _ => []) (SvcAdded shop_svc) = Ret (c', gc', []) /\
    wl_config c' shop = Some shop_sidecar.
Proof. split; [vm_compute; reflexivity|]. eexists _, _. split; [vm_compute; reflexivity|vm_compute; reflexivity]. Qed.

(** The configuration of a workload that is gone is to be deleted when a service is added,
    but the error of the lookup hides it. *)
Example missing_workload_kept :
  @updateSvc _ (cluster_with [shop_svc] []) _ _ (evictions EvictOk) alone 7 sample_cfg "tel2:2.20" (fun _ => []) shop_svc false = Ret (alone, sample_cfg, []) /\
  @GetWorkload (cluster_with [shop_svc] []) "shop" "ns" DeploymentKind = inl (NotFound "shop").
Proof. split; vm_compute; reflexivity. Qed.
