(* ===== verification/WorkloadExposure.v ===== *)
(** * How a workload is exposed (src/cmd/traffic/cmd/manager/state/workload_exposure.go,
      src/pkg/workload, and the replicas of src/pkg/k8sapi/workload.go)

    The traffic-manager describes a workload to the clients: its state, its replicas, the
    service ports that its agent configuration knows, and the ingress routes that lead to
    them.  The informers hand out ingresses in any order, and the loops range over maps;
    [visit] is the order of a range. *)
From S2P Require Import Prelude NetIP GoStrings GoText GoJson PortTypes Matcher Icept Policies AgentConfig AgentSpec Kube Discovery Generator GeneratorSpec AgentContainer Injector ConfigWatcher.
From Stdlib Require Import Ascii.
Local Open Scope Z_scope.

(** ** State and replicas *)
Record Condition := mkCond { cond_Type : string; cond_Status : string }.
Record WlStatus := mkStatus { ws_SpecReplicas : option Z; ws_Replicas : Z; ws_ReadyReplicas : Z; ws_Conditions : list Condition }.
Definition has_true (t : string) (conds : list Condition) : bool := existsb (fun c => bool_decide (cond_Status c = "True"%string) && bool_decide (cond_Type c = t)) conds.
Definition deploymentState (conds : list Condition) : wl_state :=
  if has_true "ReplicaFailure" conds then StateFailure
  else if has_true "Available" conds then StateAvailable
  else if has_true "Progressing" conds then StateProgressing else StateUnknown.
Definition replicaSetState (conds : list Condition) : wl_state := if has_true "ReplicaFailure" conds then StateFailure else StateAvailable.
Definition statefulSetState : wl_state := StateAvailable.
(** The conditions of a rollout have the names of those of a deployment. *)
Definition rolloutSetState (conds : list Condition) : wl_state :=
  if has_true "ReplicaFailure" conds then StateFailure
  else if has_true "Available" conds then StateAvailable
  else if has_true "Progressing" conds then StateProgressing else StateUnknown.
Definition GetWorkloadState (kind : string) (st : WlStatus) : wl_state :=
  if bool_decide (kind = DeploymentKind) then deploymentState (ws_Conditions st)
  else if bool_decide (kind = ReplicaSetKind) then replicaSetState (ws_Conditions st)
  else if bool_decide (kind = StatefulSetKind) then statefulSetState
  else if bool_decide (kind = RolloutKind) then rolloutSetState (ws_Conditions st)
  else StateUnknown.
Definition State_String (s : wl_state) : string :=
  match s with StateProgressing => "Progressing" | StateAvailable => "Available" | StateFailure => "Failure" | StateUnknown => "Unknown" end.
Inductive rpc_state := RPC_UNKNOWN | RPC_PROGRESSING | RPC_AVAILABLE | RPC_FAILURE.
Global Instance rpc_state_eq_dec : EqDecision rpc_state.
Proof. solve_decision. Defined.
Definition rpcWorkloadState (s : wl_state) : rpc_state :=
  match s with StateFailure => RPC_FAILURE | StateAvailable => RPC_AVAILABLE | StateProgressing => RPC_PROGRESSING | StateUnknown => RPC_UNKNOWN end.
Definition StateFromRPC (s : rpc_state) : wl_state :=
  match s with RPC_AVAILABLE => StateAvailable | RPC_FAILURE => StateFailure | RPC_PROGRESSING => StateProgressing | RPC_UNKNOWN => StateUnknown end.
Inductive rpc_kind := RPC_UNSPECIFIED | RPC_DEPLOYMENT | RPC_REPLICASET | RPC_STATEFULSET | RPC_ROLLOUT.
Global Instance rpc_kind_eq_dec : EqDecision rpc_kind.
Proof. solve_decision. Defined.
Definition RpcKind (s : string) : rpc_kind :=
  if bool_decide (s = DeploymentKind) then RPC_DEPLOYMENT
  else if bool_decide (s = ReplicaSetKind) then RPC_REPLICASET
  else if bool_decide (s = StatefulSetKind) then RPC_STATEFULSET
  else if bool_decide (s = RolloutKind) then RPC_ROLLOUT
  else RPC_UNSPECIFIED.
Definition DesiredReplicas (st : WlStatus) : Z := default (ws_Replicas st) (ws_SpecReplicas st).
Definition ReadyReplicas (st : WlStatus) : Z := ws_ReadyReplicas st.

(** ** Services of an agent configuration *)
Record SvcPort := mkSvcPort { asp_Name : string; asp_Port : Z; asp_TargetPort : string }.
Record Route := mkRoute {
  rt_Name : string; rt_Hosts : list string; rt_Paths : list string; rt_Tls : bool; rt_PortName : string; rt_Port : Z; rt_Addresses : list string
}.
Record ServiceAssociation := mkSA { sa_Name : string; sa_Ports : list SvcPort; sa_Routes : list Route }.
Global Instance SvcPort_eq_dec : EqDecision SvcPort.
Proof. solve_decision. Defined.
Global Instance Route_eq_dec : EqDecision Route.
Proof. solve_decision. Defined.
Global Instance ServiceAssociation_eq_dec : EqDecision ServiceAssociation.
Proof. solve_decision. Defined.

Definition servicePortKey (ic : Intercept) : string * string * Z := (ic_ServiceName ic, ic_ServicePortName ic, ic_ServicePort ic).
Definition target_of (ic : Intercept) : string := if ic_TargetPortNumeric ic then itoa (ic_ContainerPort ic) else ic_ContainerPortName ic.
Definition associate (x : gmap string ServiceAssociation * gset (string * string * Z)) (ic : Intercept) : gmap string ServiceAssociation * gset (string * string * Z) :=
  let '(svcMap, seen) := x in
  if bool_decide (ic_ServiceName ic = EmptyString) || bool_decide (servicePortKey ic ∈ seen) then x
  else
    let service := default (mkSA (ic_ServiceName ic) [] []) (svcMap !! ic_ServiceName ic) in
    (<[ic_ServiceName ic := mkSA (sa_Name service) (sa_Ports service ++ [mkSvcPort (ic_ServicePortName ic) (ic_ServicePort ic) (target_of ic)]) (sa_Routes service)]> svcMap,
     {[ servicePortKey ic ]} ∪ seen).
(** The order by number and then by name. *)
Definition lex_order (n1 n2 : Z) (s1 s2 : string) : Prop := n1 < n2 \/ (n1 = n2 /\ String.le s1 s2).
Definition port_le (a b : SvcPort) : Prop := lex_order (asp_Port a) (asp_Port b) (asp_Name a) (asp_Name b).
Definition sa_le (a b : ServiceAssociation) : Prop := String.le (sa_Name a) (sa_Name b).
Definition route_le (a b : Route) : Prop :=
  if decide (rt_Name a = rt_Name b) then lex_order (rt_Port a) (rt_Port b) (rt_PortName a) (rt_PortName b) else String.le (rt_Name a) (rt_Name b).
Global Instance lex_order_dec n1 n2 s1 s2 : Decision (lex_order n1 n2 s1 s2).
Proof. unfold lex_order. apply _. Defined.
Global Instance port_le_dec : RelDecision port_le.
Proof. intros a b. unfold port_le. apply _. Defined.
Global Instance sa_le_dec : RelDecision sa_le.
Proof. intros a b. unfold sa_le. apply _. Defined.
Global Instance route_le_dec : RelDecision route_le.
Proof. intros a b. unfold route_le. destruct (decide (rt_Name a = rt_Name b)); apply _. Defined.
Definition all_ics (sc : SidecarConfig) : list Intercept := sf_Containers sc ≫= cc_Intercepts.
Definition serviceAssociationsForSidecar (sc : SidecarConfig) : list ServiceAssociation :=
  let svcMap := (foldl associate (∅, ∅) (all_ics sc)).1 in
  merge_sort sa_le ((fun service => mkSA (sa_Name service) (merge_sort port_le (sa_Ports service)) (sa_Routes service)) <$> (map_to_list svcMap).*2).

(** ** Ingresses *)
(** The service of a backend: its name, and the name and number of its port. *)
Record Backend := mkBackend { bk_Service : option (string * string * Z) }.
Record Ingress := mkIngress {
  ing_Name : string; ing_DefaultBackend : option Backend;
  ing_Rules : list (string * option (list (string * Backend)));   (* host; paths with their backends *)
  ing_TLS : nat; ing_Annotations : option (gmap string string); ing_LoadBalancers : list (string * string)  (* hostname, IP *)
}.
Definition serviceIndex (services : list ServiceAssociation) : gmap string ServiceAssociation :=
  foldl (fun index service => if bool_decide (sa_Name service = EmptyString) then index else <[sa_Name service := service]> index) ∅ services.
Definition ingressBackendMatch (backend : option Backend) (services : gmap string ServiceAssociation) : option (ServiceAssociation * string * Z) :=
  b ← backend; '(name, bkPortName, bkPortNumber) ← bk_Service b; service ← services !! name;
  let '(portName, portNumber) :=
    match bool_decide (bkPortName = EmptyString) && (bkPortNumber =? 0), sa_Ports service with
    | true, [p] => (asp_Name p, asp_Port p)
    | _, _ => (bkPortName, bkPortNumber)
    end in
  let by_name := if bool_decide (portName = EmptyString) then None else list_find (fun p => asp_Name p = portName) (sa_Ports service) in
  let by_number := if portNumber =? 0 then None else list_find (fun p => asp_Port p = portNumber) (sa_Ports service) in
  match by_name, by_number with
  | Some (_, p), _ => Some (service, portName, asp_Port p)
  | None, Some (_, p) => Some (service, asp_Name p, portNumber)
  | None, None => Some (service, portName, portNumber)
  end.
(** Hosts and paths by service, port name and port. *)
Definition aggregates := gmap (string * string * Z) (gset string * gset string).
Definition add_text (s : string) (l : gset string) : gset string := if bool_decide (s = EmptyString) then l else {[ s ]} ∪ l.
Definition appendMatch (m : option (ServiceAssociation * string * Z)) (host path : string) (a : aggregates) : aggregates :=
  match m with
  | None => a
  | Some (service, portName, port) =>
      if bool_decide (sa_Name service = EmptyString) then a
      else
        let key := (sa_Name service, portName, port) in
        let '(hosts, paths) := default (∅, ∅) (a !! key) in
        <[key := (add_text host hosts, add_text path paths)]> a
  end.
Definition ingress_aggregates (ingress : Ingress) (services : gmap string ServiceAssociation) : aggregates :=
  let a := appendMatch (ingressBackendMatch (ing_DefaultBackend ingress) services) EmptyString "/" ∅ in
  foldl (fun a '(host, http) => foldl (fun a '(path, backend) => appendMatch (ingressBackendMatch (Some backend) services) host path a) a (default [] http)) a (ing_Rules ingress).
Definition tls_annotations : list string :=
  ["networking.gke.io/managed-certificates"; "ingress.gcp.kubernetes.io/pre-shared-cert"; "ingress.kubernetes.io/https-forwarding-rule";
   "ingress.kubernetes.io/https-target-proxy"; "ingress.kubernetes.io/ssl-cert"].
Definition ingressUsesTLS (ingress : Ingress) : bool :=
  Nat.ltb 0 (ing_TLS ingress) ||
  existsb (fun key => negb (bool_decide (default EmptyString (entries (ing_Annotations ingress) !! key) = EmptyString))) tls_annotations.
Definition sortedKeys (values : gset string) : list string := merge_sort String.le (base.elements values).
Definition ingressAddresses (ingress : Ingress) : list string :=
  merge_sort String.le (omap (fun '(hostname, ip) => if negb (bool_decide (hostname = EmptyString)) then Some hostname
                                                    else if negb (bool_decide (ip = EmptyString)) then Some ip else None) (ing_LoadBalancers ingress)).
Definition route_of (ingress : Ingress) (ka : (string * string * Z) * (gset string * gset string)) : Route :=
  let '(_, portName, port, (hosts, paths)) := ka in
  mkRoute (ing_Name ingress) (sortedKeys hosts) (sortedKeys paths) (ingressUsesTLS ingress) portName port (ingressAddresses ingress).
Definition add_route (ingress : Ingress) (services : list ServiceAssociation) (ka : (string * string * Z) * (gset string * gset string)) : list ServiceAssociation :=
  (fun service => if bool_decide (sa_Name service = ka.1.1.1) then mkSA (sa_Name service) (sa_Ports service) (sa_Routes service ++ [route_of ingress ka]) else service) <$> services.
Definition attachRoutesForIngress (visit : aggregates -> list ((string * string * Z) * (gset string * gset string))) (index : gmap string ServiceAssociation)
    (services : list ServiceAssociation) (ingress : Ingress) : list ServiceAssociation :=
  foldl (add_route ingress) services (visit (ingress_aggregates ingress index)).
(** [ingresses]: what the lister returns, [None] when it fails. *)
Definition attachRouteAssociations (visit : aggregates -> list ((string * string * Z) * (gset string * gset string))) (ingresses : option (list Ingress))
    (services : list ServiceAssociation) : list ServiceAssociation :=
  match services, ingresses with
  | [], _ | _, None => services
  | _, Some ingresses =>
      (fun service => mkSA (sa_Name service) (sa_Ports service) (merge_sort route_le (sa_Routes service))) <$>
        foldl (attachRoutesForIngress visit (serviceIndex services)) services ingresses
  end.
Record workloadExposure := mkWE { we_desiredReplicas : Z; we_readyReplicas : Z; we_services : list ServiceAssociation }.
Definition describeWorkloadExposure (c : configWatcher) (visit : aggregates -> list ((string * string * Z) * (gset string * gset string)))
    (listIngresses : string -> option (list Ingress)) (wl : Workload) (st : WlStatus) : workloadExposure :=
  mkWE (DesiredReplicas st) (ReadyReplicas st)
    match cw_Get c (m_Name (wl_Meta wl)) (m_Namespace (wl_Meta wl)) with
    | Some sc => attachRouteAssociations visit (listIngresses (sf_Namespace sc)) (serviceAssociationsForSidecar sc)
    | None => []
    end.

(** * The exposure of a workload: what it lists, and that it does not depend on the order of
      ranges and listers *)
(** ** Orders *)
Lemma merge_sort_unique {A K} (R : relation A) `{!RelDecision R, !Total R, !Transitive R} (f : A -> K) (l1 l2 : list A) :
  (forall a b, R a b -> R b a -> f a = f b) -> NoDup (f <$> l1) -> l1 ≡ₚ l2 -> merge_sort R l1 = merge_sort R l2.
Proof.
  intros Hf Hnd HP. apply (StronglySorted_unique_strong R).
  - intros a b Ha Hb Hab Hba. rewrite merge_sort_Permutation in Ha, Hb. rewrite <- HP in Hb.
    apply list_elem_of_lookup_1 in Ha as [i Hi]. apply list_elem_of_lookup_1 in Hb as [j Hj].
    assert (i = j); [|congruence]. apply (NoDup_lookup _ i j (f a) Hnd); rewrite list_lookup_fmap; [by rewrite Hi|rewrite Hj; cbn; f_equal; symmetry; auto].
  - apply StronglySorted_merge_sort; apply _.
  - apply StronglySorted_merge_sort; apply _.
  - by rewrite !merge_sort_Permutation.
Qed.
Lemma lex_total n1 n2 s1 s2 : lex_order n1 n2 s1 s2 \/ lex_order n2 n1 s2 s1.
Proof.
  unfold lex_order. destruct (Z.lt_trichotomy n1 n2) as [?|[->|?]]; [auto| |auto]. destruct (total String.le s1 s2); auto.
Qed.
Lemma lex_trans n1 n2 n3 s1 s2 s3 : lex_order n1 n2 s1 s2 -> lex_order n2 n3 s2 s3 -> lex_order n1 n3 s1 s3.
Proof. unfold lex_order. intros [?|[-> ?]] [?|[-> ?]]; try (left; lia). right. split; [done|]. by transitivity s2. Qed.
Lemma lex_anti n1 n2 s1 s2 : lex_order n1 n2 s1 s2 -> lex_order n2 n1 s2 s1 -> n1 = n2 /\ s1 = s2.
Proof. unfold lex_order. intros [?|[-> ?]] [?|[? ?]]; try lia. split; [done|]. by apply (anti_symm String.le). Qed.
Global Instance port_le_total : Total port_le.
Proof. intros a b. apply lex_total. Qed.
Global Instance port_le_trans : Transitive port_le.
Proof. intros a b c. apply lex_trans. Qed.
Global Instance sa_le_total : Total sa_le.
Proof. intros a b. apply (total String.le). Qed.
Global Instance sa_le_trans : Transitive sa_le.
Proof. intros a b c Hab Hbc. unfold sa_le in *. by transitivity (sa_Name b). Qed.
Global Instance route_le_total : Total route_le.
Proof.
  intros a b. unfold route_le. destruct (decide (rt_Name a = rt_Name b)) as [E|E].
  - rewrite decide_True by done. apply lex_total.
  - rewrite decide_False by congruence. apply (total String.le).
Qed.
Global Instance route_le_trans : Transitive route_le.
Proof.
  intros a b c. unfold route_le. destruct (decide (rt_Name a = rt_Name b)) as [E1|E1], (decide (rt_Name b = rt_Name c)) as [E2|E2].
  - rewrite decide_True by congruence. apply lex_trans.
  - intros _ Hbc. rewrite decide_False by congruence. by rewrite E1.
  - intros Hab _. rewrite decide_False by congruence. by rewrite <- E2.
  - intros Hab Hbc. assert (Hac : String.le (rt_Name a) (rt_Name c)) by (by transitivity (rt_Name b)).
    destruct (decide (rt_Name a = rt_Name c)) as [E3|E3]; [|done]. exfalso. apply E1. apply (anti_symm String.le); [done|]. by rewrite E3.
Qed.
Definition route_key (r : Route) : string * Z * string := (rt_Name r, rt_Port r, rt_PortName r).
Lemma route_le_key a b : route_le a b -> route_le b a -> route_key a = route_key b.
Proof.
  unfold route_le, route_key. destruct (decide (rt_Name a = rt_Name b)) as [E|E].
  - rewrite decide_True by done. intros H1 H2. destruct (lex_anti _ _ _ _ H1 H2) as [-> ->]. by rewrite E.
  - rewrite decide_False by congruence. intros H1 H2. exfalso. apply E. by apply (anti_symm String.le).
Qed.

(** ** The services *)
Definition port_key (p : SvcPort) : string * Z := (asp_Name p, asp_Port p).
(** What the loop has found after the intercepts [l]. *)
Definition assoc_inv (l : list Intercept) (x : gmap string ServiceAssociation * gset (string * string * Z)) : Prop :=
  (forall n s, x.1 !! n = Some s -> sa_Name s = n /\ n <> EmptyString /\ sa_Routes s = [] /\ NoDup (port_key <$> sa_Ports s) /\
     forall p, p ∈ sa_Ports s -> (n, asp_Name p, asp_Port p) ∈ x.2 /\ exists ic, ic ∈ l /\ servicePortKey ic = (n, asp_Name p, asp_Port p) /\ target_of ic = asp_TargetPort p) /\
  (forall ic, ic ∈ l -> ic_ServiceName ic <> EmptyString -> servicePortKey ic ∈ x.2) /\
  (forall n pn k, (n, pn, k) ∈ x.2 -> exists s p, x.1 !! n = Some s /\ p ∈ sa_Ports s /\ port_key p = (pn, k)).
Lemma associate_inv l x ic : assoc_inv l x -> assoc_inv (l ++ [ic]) (associate x ic).
Proof.
  destruct x as [svcMap seen]. intros (H1 & H2 & H3). cbn [fst snd] in *. unfold associate.
  destruct (bool_decide (ic_ServiceName ic = EmptyString) || bool_decide (servicePortKey ic ∈ seen)) eqn:E.
  - split_and!; cbn [fst snd].
    + intros n s Hs. destruct (H1 n s Hs) as (? & ? & ? & ? & Hp). split_and!; [done..|]. intros p Hpin. destruct (Hp p Hpin) as (? & ic' & ? & ?).
      split; [done|]. exists ic'. split; [apply elem_of_app; by left|done].
    + intros ic' [Hin|Hin%list_elem_of_singleton]%elem_of_app Hne; [by apply H2|]. subst ic'. apply orb_true_iff in E as [E|E]; apply bool_decide_eq_true_1 in E; [done|done].
    + done.
  - apply orb_false_iff in E as [E1 E2]. apply bool_decide_eq_false_1 in E1, E2.
    set (n0 := ic_ServiceName ic) in *. set (service := default (mkSA n0 [] []) (svcMap !! n0)).
    set (np := mkSvcPort (ic_ServicePortName ic) (ic_ServicePort ic) (target_of ic)).
    assert (Hsv : sa_Name service = n0 /\ sa_Routes service = [] /\ NoDup (port_key <$> sa_Ports service) /\
      forall p, p ∈ sa_Ports service -> (n0, asp_Name p, asp_Port p) ∈ seen /\ exists ic, ic ∈ l /\ servicePortKey ic = (n0, asp_Name p, asp_Port p) /\ target_of ic = asp_TargetPort p).
    { unfold service. destruct (svcMap !! n0) as [s|] eqn:Es; cbn [default].
      - destruct (H1 n0 s Es) as (? & _ & ? & ? & ?). done.
      - cbn. split_and!; [done|done|constructor|]. intros p Hp. by apply not_elem_of_nil in Hp. }
    destruct Hsv as (Hname & Hroutes & Hnd & Hports). split_and!; cbn [fst snd].
    + intros n s. destruct (decide (n0 = n)) as [<-|Hne].
      * rewrite lookup_insert_eq. intros [= <-]. cbn [sa_Name sa_Routes sa_Ports]. split_and!; [done|done|done| |].
        -- rewrite fmap_app. apply NoDup_app. split_and!; [done| |apply NoDup_singleton]. intros k Hk Hk2. cbn [fmap list_fmap] in Hk2. apply list_elem_of_singleton in Hk2. subst k.
           apply list_elem_of_fmap in Hk as (p & Hpk & Hp). destruct (Hports p Hp) as [Hseen _]. apply E2. unfold port_key in Hpk. cbn in Hpk. injection Hpk as Hpn Hpp.
           unfold servicePortKey. fold n0. by rewrite Hpn, Hpp.
        -- intros p [Hp|Hp%list_elem_of_singleton]%elem_of_app.
           ++ destruct (Hports p Hp) as (Hs & ic' & Hin & Hk). split; [set_solver|]. exists ic'. split; [apply elem_of_app; by left|done].
           ++ subst p. split; [unfold np; cbn; apply elem_of_union; left; apply elem_of_singleton; done|]. exists ic. split; [apply elem_of_app; right; apply list_elem_of_here|done].
      * rewrite lookup_insert_ne by done. intros Hs. destruct (H1 n s Hs) as (? & ? & ? & ? & Hp). split_and!; [done..|]. intros p Hpin. destruct (Hp p Hpin) as (? & ic' & ? & ?).
        split; [set_solver|]. exists ic'. split; [apply elem_of_app; by left|done].
    + intros ic' [Hin|Hin%list_elem_of_singleton]%elem_of_app Hne; [apply elem_of_union; right; by apply H2|]. subst ic'. apply elem_of_union. left. by apply elem_of_singleton.
    + intros n pn k [Hk%elem_of_singleton|Hk]%elem_of_union.
      * unfold servicePortKey in Hk. fold n0 in Hk. injection Hk as -> -> ->. rewrite lookup_insert_eq. eexists _, np. split; [done|]. cbn [sa_Ports].
        split; [apply elem_of_app; right; apply list_elem_of_here|done].
      * destruct (H3 n pn k Hk) as (s & p & Hs & Hp & Hpk). destruct (decide (n0 = n)) as [<-|Hne].
        -- rewrite lookup_insert_eq. eexists _, p. split; [done|]. cbn [sa_Ports]. split; [|done]. apply elem_of_app. left. unfold service. by rewrite Hs.
        -- rewrite lookup_insert_ne by done. by exists s, p.
Qed.
Lemma associate_all l : assoc_inv l (foldl associate (∅, ∅) l).
Proof.
  induction l as [|ic l IH] using rev_ind.
  - split_and!; cbn [foldl fst snd].
    + intros n s Hs. by rewrite lookup_empty in Hs.
    + intros ic Hin. by apply not_elem_of_nil in Hin.
    + intros n pn k Hk. by apply not_elem_of_empty in Hk.
  - rewrite foldl_app. cbn [foldl]. by apply associate_inv.
Qed.

(** A workload lists the service ports of its agent configuration: every service that an
    intercept names is there once, in the order of names, each of its ports once, in order,
    and every entry is that of an intercept. *)
Theorem serviceAssociations_correct (sc : SidecarConfig) :
  let l := serviceAssociationsForSidecar sc in
  NoDup (sa_Name <$> l) /\ StronglySorted sa_le l /\
  (forall ic, ic ∈ all_ics sc -> ic_ServiceName ic <> EmptyString ->
     exists s p, s ∈ l /\ p ∈ sa_Ports s /\ sa_Name s = ic_ServiceName ic /\ asp_Name p = ic_ServicePortName ic /\ asp_Port p = ic_ServicePort ic) /\
  (forall s, s ∈ l -> sa_Routes s = [] /\ NoDup (port_key <$> sa_Ports s) /\ StronglySorted port_le (sa_Ports s) /\
     forall p, p ∈ sa_Ports s -> exists ic, ic ∈ all_ics sc /\ servicePortKey ic = (sa_Name s, asp_Name p, asp_Port p) /\ target_of ic = asp_TargetPort p).
Proof.
  cbv zeta. unfold serviceAssociationsForSidecar. destruct (associate_all (all_ics sc)) as (H1 & H2 & H3).
  set (m := (foldl associate (∅, ∅) (all_ics sc)).1) in *. set (g := fun service => mkSA (sa_Name service) (merge_sort port_le (sa_Ports service)) (sa_Routes service)).
  assert (Hin : forall s, s ∈ merge_sort sa_le (g <$> (map_to_list m).*2) <-> exists n s0, m !! n = Some s0 /\ s = g s0).
  { intros s. rewrite merge_sort_Permutation, list_elem_of_fmap. split.
    - intros (s0 & -> & Hs). apply list_elem_of_fmap in Hs as ([n s1] & -> & Hs). apply elem_of_map_to_list in Hs. eauto.
    - intros (n & s0 & Hs & ->). exists s0. split; [done|]. apply list_elem_of_fmap. exists (n, s0). split; [done|]. by apply elem_of_map_to_list. }
  split_and!.
  - rewrite merge_sort_Permutation, <- list_fmap_compose. assert (He : sa_Name ∘ g <$> (map_to_list m).*2 = (map_to_list m).*1).
    { rewrite <- list_fmap_compose. apply list_fmap_ext. intros i [n s] Hl. apply list_elem_of_lookup_2, elem_of_map_to_list in Hl. cbn. apply (H1 n s Hl). }
    rewrite He. apply NoDup_fst_map_to_list.
  - apply StronglySorted_merge_sort; apply _.
  - intros ic Hic Hne. assert (Hk := H2 ic Hic Hne). unfold servicePortKey in Hk. destruct (H3 _ _ _ Hk) as (s & p & Hs & Hp & Hpk). exists (g s), p.
    split; [apply Hin; eauto|]. unfold g. cbn [sa_Ports sa_Name]. split; [by rewrite merge_sort_Permutation|]. split; [by apply H1|]. unfold port_key in Hpk. by injection Hpk as -> ->.
  - intros s Hs. apply Hin in Hs as (n & s0 & Hs0 & ->). destruct (H1 n s0 Hs0) as (Hn & _ & Hr & Hnd & Hp). unfold g. cbn [sa_Routes sa_Ports sa_Name]. split_and!.
    + done.
    + by rewrite merge_sort_Permutation.
    + apply StronglySorted_merge_sort; apply _.
    + intros p Hpin. rewrite merge_sort_Permutation in Hpin. destruct (Hp p Hpin) as (_ & ic & Hic & Hk & Ht). exists ic. by rewrite Hn.
Qed.

(** ** The routes *)
Definition visit_fn := aggregates -> list ((string * string * Z) * (gset string * gset string)).
Definition any_order (visit : visit_fn) : Prop := forall a, visit a ≡ₚ map_to_list a.
(** The routes of one service, in the order in which they are found. *)
Definition routes_for (visit : visit_fn) (index : gmap string ServiceAssociation) (l : list Ingress) (n : string) : list Route :=
  l ≫= fun ing => route_of ing <$> filter (fun ka => ka.1.1.1 = n) (visit (ingress_aggregates ing index)).
Definition with_routes (f : string -> list Route) (s : ServiceAssociation) : ServiceAssociation := mkSA (sa_Name s) (sa_Ports s) (sa_Routes s ++ f (sa_Name s)).
Lemma add_routes ing kas services :
  foldl (add_route ing) services kas = with_routes (fun n => route_of ing <$> filter (fun ka => ka.1.1.1 = n) kas) <$> services.
Proof.
  revert services. induction kas as [|ka kas IH]; intros services; cbn [foldl].
  - symmetry. rewrite <- (list_fmap_id services) at 2. apply list_fmap_ext. intros i s _. unfold with_routes. cbn. rewrite app_nil_r. by destruct s.
  - rewrite IH. unfold add_route. rewrite <- list_fmap_compose. apply list_fmap_ext. intros i s _. cbn [compose]. unfold with_routes at 2. rewrite filter_cons.
    case_bool_decide as Hd.
    + rewrite decide_True by done. unfold with_routes. cbn [sa_Name sa_Ports sa_Routes]. rewrite fmap_cons, <- app_assoc. done.
    + by rewrite decide_False by congruence.
Qed.
Lemma attach_all visit index l services : foldl (attachRoutesForIngress visit index) services l = with_routes (routes_for visit index l) <$> services.
Proof.
  revert services. induction l as [|ing l IH]; intros services; cbn [foldl].
  - symmetry. rewrite <- (list_fmap_id services) at 2. apply list_fmap_ext. intros i s _. unfold with_routes. cbn. rewrite app_nil_r. by destruct s.
  - rewrite IH. unfold attachRoutesForIngress. rewrite add_routes, <- list_fmap_compose. apply list_fmap_ext. intros i s _. unfold with_routes, routes_for. cbn [compose sa_Name sa_Ports sa_Routes].
    by rewrite bind_cons, <- app_assoc.
Qed.
Lemma visited_routes_perm visit1 visit2 ing index n : any_order visit1 -> any_order visit2 ->
  route_of ing <$> filter (fun ka => ka.1.1.1 = n) (visit1 (ingress_aggregates ing index)) ≡ₚ route_of ing <$> filter (fun ka => ka.1.1.1 = n) (visit2 (ingress_aggregates ing index)).
Proof. intros Hv1 Hv2. apply fmap_Permutation, filter_Permutation. by rewrite (Hv1 _), (Hv2 _). Qed.
Lemma routes_for_visit visit1 visit2 index l n : any_order visit1 -> any_order visit2 -> routes_for visit1 index l n ≡ₚ routes_for visit2 index l n.
Proof.
  intros Hv1 Hv2. induction l as [|ing l IH]; [done|]. unfold routes_for. rewrite !bind_cons. apply Permutation_app; [by apply visited_routes_perm|exact IH].
Qed.
Lemma routes_for_perm visit1 visit2 index l1 l2 n : any_order visit1 -> any_order visit2 -> l1 ≡ₚ l2 -> routes_for visit1 index l1 n ≡ₚ routes_for visit2 index l2 n.
Proof.
  intros Hv1 Hv2 HP. etrans; [|by apply (routes_for_visit visit1 visit2)]. unfold routes_for. by apply bind_Permutation.
Qed.
Lemma route_of_name ing ka : rt_Name (route_of ing ka) = ing_Name ing.
Proof. destruct ka as [[[? ?] ?] [? ?]]. done. Qed.
Lemma routes_for_keys visit index l n : any_order visit -> NoDup (ing_Name <$> l) -> NoDup (route_key <$> routes_for visit index l n).
Proof.
  intros Hv. induction l as [|ing l IH]; intros Hnd; [constructor|]. cbn [fmap list_fmap] in Hnd. apply NoDup_cons in Hnd as [Hno Hnd].
  unfold routes_for. rewrite bind_cons, fmap_app. apply NoDup_app. split_and!.
  - rewrite <- list_fmap_compose. set (kas := visit (ingress_aggregates ing index)).
    assert (Hk : NoDup kas.*1) by (unfold kas; rewrite (Hv _); apply NoDup_fst_map_to_list). clearbody kas. clear -Hk. induction kas as [|ka kas IH]; [constructor|].
    cbn [fmap list_fmap] in Hk. apply NoDup_cons in Hk as [Hno Hk]. rewrite filter_cons. case_decide as Hd; [|by apply IH]. cbn [fmap list_fmap]. constructor; [|by apply IH].
    intros Hin. apply list_elem_of_fmap in Hin as (kb & Hkey & Hkb). apply list_elem_of_filter in Hkb as [Hnb Hkb]. apply Hno. apply list_elem_of_fmap. exists kb. split; [|done].
    destruct ka as [[[? ?] ?] [? ?]], kb as [[[? ?] ?] [? ?]]. unfold route_key in Hkey. cbn in *. injection Hkey as -> ->. congruence.
  - intros k Hk1 Hk2. apply list_elem_of_fmap in Hk1 as (r1 & -> & Hr1). apply list_elem_of_fmap in Hr1 as (ka & -> & _).
    apply list_elem_of_fmap in Hk2 as (r2 & Hk & Hr2). apply list_elem_of_bind in Hr2 as (ing2 & Hr2 & Hin2). apply list_elem_of_fmap in Hr2 as (kb & -> & _).
    apply Hno. apply list_elem_of_fmap. exists ing2. split; [|done]. unfold route_key in Hk. rewrite !route_of_name in Hk. congruence.
  - by apply IH.
Qed.

(** The description does not depend on the order in which the lister returns the ingresses,
    nor on the order in which maps are ranged over. *)
Theorem attachRoutes_order_irrelevant (visit1 visit2 : visit_fn) (l1 l2 : list Ingress) (sc : SidecarConfig) :
  any_order visit1 -> any_order visit2 -> NoDup (ing_Name <$> l1) -> l1 ≡ₚ l2 ->
  attachRouteAssociations visit1 (Some l1) (serviceAssociationsForSidecar sc) = attachRouteAssociations visit2 (Some l2) (serviceAssociationsForSidecar sc).
Proof.
  intros Hv1 Hv2 Hnd HP. destruct (serviceAssociations_correct sc) as (_ & _ & _ & Hr). set (services := serviceAssociationsForSidecar sc) in *.
  unfold attachRouteAssociations. rewrite !attach_all. destruct services as [|s0 ss] eqn:Es; [done|]. rewrite <- Es in *. rewrite <- !list_fmap_compose. apply list_fmap_ext.
  intros i s Hl. unfold with_routes. cbn [compose sa_Name sa_Ports sa_Routes]. f_equal. apply list_elem_of_lookup_2 in Hl. destruct (Hr s Hl) as [-> _]. cbn [app].
  apply (merge_sort_unique route_le route_key); [apply route_le_key|by apply routes_for_keys|by apply routes_for_perm].
Qed.

(** ** States *)
Lemma state_rpc_roundtrip s : StateFromRPC (rpcWorkloadState s) = s.
Proof. by destruct s. Qed.

(** ** A sample *)
Definition shop_ingress (name path : string) : Ingress :=
  mkIngress name None [("shop.example.com", Some [(path, mkBackend (Some ("shop", "http", 0)))])] 1 None [("", "192.0.2.1")].
Lemma attachRoutes_order_irrelevant_witness :
  attachRouteAssociations map_to_list (Some [shop_ingress "a" "/a"; shop_ingress "b" "/b"]) (serviceAssociationsForSidecar shop_sidecar) =
  attachRouteAssociations (fun a => reverse (map_to_list a)) (Some [shop_ingress "b" "/b"; shop_ingress "a" "/a"]) (serviceAssociationsForSidecar shop_sidecar).
Proof.
  apply (attachRoutes_order_irrelevant map_to_list (fun a => reverse (map_to_list a)) [shop_ingress "a" "/a"; shop_ingress "b" "/b"] [shop_ingress "b" "/b"; shop_ingress "a" "/a"] shop_sidecar).
  - intros a. reflexivity.
  - intros a. apply reverse_Permutation.
  - decide_it.
  - apply Permutation_swap.
Defined.
Example shop_exposure :
  (fun s => (sa_Name s, (fun p => (asp_Name p, asp_Port p, asp_TargetPort p)) <$> sa_Ports s, (fun r => (rt_Name r, rt_Paths r, rt_Port r)) <$> sa_Routes s)) <$>
    attachRouteAssociations map_to_list (Some [shop_ingress "b" "/b"; shop_ingress "a" "/a"]) (serviceAssociationsForSidecar shop_sidecar) =
  [("shop", [("http", 80, "http"); ("admin", 81, "8081"); ("alt", 8000, "8080")], [("a", ["/a"], 80); ("b", ["/b"], 80)])]%string.
Proof. vm_compute. reflexivity. Qed.
