(* ===== verification/AgentFwd.v ===== *)
(** * The traffic-agent's port handlers (src/cmd/traffic/cmd/agent: fwdstate.go, state.go,
      containerstate.go; fwd/interceptcontroller.go, interceptor.go, tcp.go, http.go)

    The agent gets snapshots of the intercepts of its workload.  Each port's
    [fwdState] reviews the waiting ones, refusing those in conflict, and hands
    the active ones to its forwarder, which keeps one cancellable controller per
    intercept and routes connections and HTTP requests.  A controller's context
    is a number; a cancelled context is listed. *)
From S2P Require Import Prelude NetIP GoStrings PortTypes Matcher Icept AgentConfig.

(** ** interceptcontroller.go *)

Record controller := mkController { c_info : InterceptInfo; c_ctx : nat }.
Abbreviation controllers := (gmap string controller).

Definition ctl_isHTTP (ic : controller) : bool :=
  let spec := ii_Spec (c_info ic) in
  Nat.ltb 0 (length (sp_HeaderFilters spec)) || Nat.ltb 0 (length (sp_PathFilters spec)).

(** The entries sorted by id. *)
Definition sorted (im : controllers) : list controller := omap (fun k => im !! k) (SortedKeys im).
Definition sortedInfos (im : controllers) : list InterceptInfo := c_info <$> sorted im.

(** The first loop of [reconcile]; [next] is the next context. *)
Definition upsert (x : controllers * nat) (ii : InterceptInfo) : controllers * nat :=
  let '(im, next) := x in
  match im !! ii_Id ii with
  | Some ic => (<[ii_Id ii := mkController ii (c_ctx ic)]> im, next)
  | None => (<[ii_Id ii := mkController ii next]> im, S next)
  end.

(** [reconcile]: the new map, the next context and the contexts cancelled. *)
Definition reconcile (im : controllers) (next : nat) (iis : list InterceptInfo) : controllers * nat * list nat :=
  let '(im, next) := foldl upsert (im, next) iis in
  let ids := ii_Id <$> iis in
  let keep := filter (fun kv : string * controller => kv.1 ∈ ids) im in
  let gone := filter (fun kv : string * controller => kv.1 ∉ ids) im in
  (keep, next, c_ctx <$> (map_to_list gone).*2).

Definition global_controller (im : controllers) : option (option controller) :=
  if Nat.ltb 1 (size im) then None else Some (head (sorted im)).

Definition ctls_isHTTP (im : controllers) : bool := existsb (fun kv => ctl_isHTTP kv.2) (map_to_list im).

(** ** interceptor.go and tcp.go *)

Record forwarder := mkFwd {
  f_intercepts : controllers;
  f_wiretaps : controllers;
  f_next : nat;
  f_cancelled : list nat;
  f_provider : bool;            (* the stream provider has been set *)
  f_http : option bool          (* the listener switch, once there is one *)
}.

Definition IsHTTP (f : forwarder) : bool := ctls_isHTTP (f_intercepts f) || ctls_isHTTP (f_wiretaps f).
Definition setListenerSwitch (f : forwarder) : forwarder :=
  mkFwd (f_intercepts f) (f_wiretaps f) (f_next f) (f_cancelled f) (f_provider f) ((fun _ => IsHTTP f) <$> f_http f).
Definition SetIntercepting (f : forwarder) (infos : list InterceptInfo) : forwarder :=
  let '(im, next, gone) := reconcile (f_intercepts f) (f_next f) infos in
  setListenerSwitch (mkFwd im (f_wiretaps f) next (f_cancelled f ++ gone) (f_provider f) (f_http f)).
Definition SetWiretapping (f : forwarder) (infos : list InterceptInfo) : forwarder :=
  let '(im, next, gone) := reconcile (f_wiretaps f) (f_next f) infos in
  setListenerSwitch (mkFwd (f_intercepts f) im next (f_cancelled f ++ gone) (f_provider f) (f_http f)).
Definition SetStreamProvider (f : forwarder) : forwarder :=
  mkFwd (f_intercepts f) (f_wiretaps f) (f_next f) (f_cancelled f) true (f_http f).
(** [Serve] creates the switch. *)
Definition start_switch (f : forwarder) : forwarder :=
  setListenerSwitch (mkFwd (f_intercepts f) (f_wiretaps f) (f_next f) (f_cancelled f) (f_provider f) (Some false)).
Definition InterceptInfos (f : forwarder) : list InterceptInfo := sortedInfos (f_intercepts f).

(** Where a connection goes: to a client's intercept, to the application, or
    nowhere because there are several intercepts for a plain connection. *)
Inductive route := ToIntercept (ii : InterceptInfo) | ToApplication | TooMany.

(** [tcp.Forward] on a plain connection: the intercept and the taps. *)
Definition tcp_Forward (f : forwarder) (target_port : Z) : route * list InterceptInfo :=
  match global_controller (f_intercepts f) with
  | None => (TooMany, [])
  | Some ic =>
      (match ic with Some ic => ToIntercept (c_info ic) | None => ToApplication end,
       if 0 <? target_port then sortedInfos (f_wiretaps f) else [])
  end.

Section Http.
Context {RX : GoRegexp}.

Definition shouldInterceptRequest (path : string) (h : Header) (spec : InterceptSpec) : bool :=
  MatchesPathAndHeader (NewRequest (sp_PathFilters spec) (sp_HeaderFilters spec)) path h.

(** The two passes of [handleHTTPRequest]. *)
Definition header_tier (path : string) (h : Header) (ii : InterceptInfo) : bool :=
  Nat.ltb 0 (length (sp_HeaderFilters (ii_Spec ii))) && shouldInterceptRequest path h (ii_Spec ii).
Definition path_tier (path : string) (h : Header) (ii : InterceptInfo) : bool :=
  Nat.eqb (length (sp_HeaderFilters (ii_Spec ii))) 0 && Nat.ltb 0 (length (sp_PathFilters (ii_Spec ii))) &&
  shouldInterceptRequest path h (ii_Spec ii).

Definition route_http (intercepts : list InterceptInfo) (path : string) (h : Header) : route :=
  match list_find (fun ii => header_tier path h ii = true) intercepts with
  | Some (_, ii) => ToIntercept ii
  | None =>
      match list_find (fun ii => path_tier path h ii = true) intercepts with
      | Some (_, ii) => ToIntercept ii
      | None => ToApplication
      end
  end.

Definition handleHTTPRequest (f : forwarder) (path : string) (h : Header) : route * list InterceptInfo :=
  (route_http (sortedInfos (f_intercepts f)) path h,
   filter (fun ii => shouldInterceptRequest path h (ii_Spec ii) = true) (sortedInfos (f_wiretaps f))).

(** ** fwdstate.go *)

Record ContainerState := mkCS { cs_MountPoint : string; cs_Mounts : list (string * Z); cs_Env : list (string * string) }.

Inductive review_message :=
  | NoMessage
  | NoMatchForContainer (container : string)
  | ConflictsWith (d : Disposition) (id client reason : string).

Record Review := mkReview {
  rv_Id : string;
  rv_Disposition : Disposition;
  rv_Message : review_message;
  rv_PodIp : string;
  rv_FtpPort : Z;
  rv_SftpPort : Z;
  rv_MountPoint : string;
  rv_Mounts : list (string * Z);
  rv_MechanismArgsDesc : string;
  rv_Environment : list (string * string)
}.

Record fwdState := mkFwdState {
  fs_intercept : InterceptTarget;
  fs_container : string;
  fs_forwarder : forwarder;
  fs_containerStates : gmap string ContainerState;
  fs_PodIP : string;
  fs_FtpPort : Z;
  fs_SftpPort : Z;
  fs_hasSession : bool
}.

Definition generateMechanismDescription (spec : InterceptSpec) : string :=
  request_String (NewRequest (sp_PathFilters spec) (sp_HeaderFilters spec)).

Definition error_review (ii : InterceptInfo) (m : review_message) : Review :=
  mkReview (ii_Id ii) AGENT_ERROR m "" 0 0 "" [] (generateMechanismDescription (ii_Spec ii)) [].
Definition active_review (fs : fwdState) (ii : InterceptInfo) (cs : ContainerState) : Review :=
  mkReview (ii_Id ii) ACTIVE NoMessage (fs_PodIP fs) (fs_FtpPort fs) (fs_SftpPort fs) (cs_MountPoint cs) (cs_Mounts cs)
    (generateMechanismDescription (ii_Spec ii)) (cs_Env cs).

(** The container part shared by both kinds of intercept. *)
Definition processWiretapIntercept (fs : fwdState) (ii : InterceptInfo) : Review :=
  let container := if bool_decide (sp_ContainerName (ii_Spec ii) = ""%string) then fs_container fs else sp_ContainerName (ii_Spec ii) in
  match fs_containerStates fs !! container with
  | None => error_review ii (NoMatchForContainer container)
  | Some cs => active_review fs ii cs
  end.

Definition conflicts_with (ii other : InterceptInfo) : bool :=
  negb (sp_Wiretap (ii_Spec other)) && IsInConflict (ii_Spec ii) (ii_Spec other).

Definition findConflictingIntercept (ii : InterceptInfo) (index : nat) (active candidates : list InterceptInfo) : option InterceptInfo :=
  match list_find (fun a => conflicts_with ii a = true) active with
  | Some (_, a) => Some a
  | None => snd <$> list_find (fun o => conflicts_with ii o = true) (take index candidates)
  end.

Definition processRegularIntercept (fs : fwdState) (ii : InterceptInfo) (index : nat) (active candidates : list InterceptInfo) : Review :=
  match findConflictingIntercept ii index active candidates with
  | Some c => error_review ii (ConflictsWith (ii_Disposition c) (ii_Id c) (sp_Client (ii_Spec c)) (ExplainConflict (ii_Spec ii) (ii_Spec c)))
  | None => processWiretapIntercept fs ii
  end.

Definition review_waiting (fs : fwdState) (active waiting : list InterceptInfo) (i : nat) (ii : InterceptInfo) : Review :=
  if sp_Wiretap (ii_Spec ii) then processWiretapIntercept fs ii else processRegularIntercept fs ii i active waiting.

Definition with_disposition (d : Disposition) (cepts : list InterceptInfo) : list InterceptInfo :=
  filter (fun ii => ii_Disposition ii = d) cepts.

Definition HandlePort (fs : fwdState) (cepts : list InterceptInfo) : forwarder * list Review :=
  let active := with_disposition ACTIVE cepts in
  let waiting := with_disposition WAITING cepts in
  let f := if fs_hasSession fs then SetStreamProvider (fs_forwarder fs) else fs_forwarder fs in
  let f := SetWiretapping f (filter (fun ii => sp_Wiretap (ii_Spec ii) = true) active) in
  let f := SetIntercepting f (filter (fun ii => sp_Wiretap (ii_Spec ii) = false) active) in
  (f, imap (review_waiting fs active waiting) waiting).

(** [fwdState.InterceptInfo]: the first active intercept that matches. *)
Definition fs_InterceptInfo (fs : fwdState) (callerID path : string) (containerPort : Z) (headers : Header) : option InterceptInfo :=
  if negb (containerPort =? 0) && negb (bool_decide (it_ContainerPort (fs_intercept fs) = Some containerPort)) then None
  else snd <$> list_find (fun ii =>
         (bool_decide (callerID = ""%string) || bool_decide (callerID = ii_Id ii)) &&
         bool_decide (ii_Disposition ii = ACTIVE) && shouldInterceptRequest path headers (ii_Spec ii) = true)
         (InterceptInfos (fs_forwarder fs)).

(** ** state.go and containerstate.go *)

Definition HandleContainer (c : Container) (cs : ContainerState) (podIP : string) (ftp sftp : Z) (iis : list InterceptInfo) : list Review :=
  (fun ii => mkReview (ii_Id ii) ACTIVE NoMessage podIP ftp sftp (cs_MountPoint cs) (cs_Mounts cs) "" (cs_Env cs)) <$>
  filter (fun ii => ii_Disposition ii = WAITING /\ cn_Replace c = ReplacePolicyContainer /\
                    cn_Name c = sp_ContainerName (ii_Spec ii) /\ sp_ContainerPort (ii_Spec ii) = 0) iis.

Definition matches_target (fs : fwdState) (ii : InterceptInfo) : bool :=
  match MatchForSpec (fs_intercept fs) (ii_Spec ii) with Some b => b | None => false end.

(** The loop over the port handlers: each takes the intercepts for its port that
    no earlier one took. *)
Fixpoint handle_ports (ists : list fwdState) (iis : list InterceptInfo) : list (fwdState * list Review) * list InterceptInfo :=
  match ists with
  | [] => ([], iis)
  | ist :: ists =>
      let ms := filter (fun ii => matches_target ist ii = true) iis in
      let rest := filter (fun ii => matches_target ist ii = false) iis in
      let '(f, rs) := HandlePort ist ms in
      let ist' := mkFwdState (fs_intercept ist) (fs_container ist) f (fs_containerStates ist) (fs_PodIP ist)
                    (fs_FtpPort ist) (fs_SftpPort ist) (fs_hasSession ist) in
      let '(out, unhandled) := handle_ports ists rest in
      ((ist', rs) :: out, unhandled)
  end.

(** The containers in the order of Go's iteration over the map of their states. *)
Definition HandleIntercepts (ists : list fwdState) (cns : list (Container * ContainerState)) (podIP : string) (ftp sftp : Z)
    (iis : list InterceptInfo) : list fwdState * list Review :=
  let '(out, unhandled) := handle_ports ists iis in
  (out.*1,
   concat out.*2 ++
   (if Nat.ltb 0 (length unhandled)
    then concat ((fun cc : Container * ContainerState => HandleContainer cc.1 cc.2 podIP ftp sftp unhandled) <$> cns)
    else [])).
End Http.
