(* ===== verification/AgentFwdSpec.v ===== *)
(** * Correctness of the agent's port handlers

    Intercepts that the agent lets become active are pairwise free of conflict
    and free of conflict with the active ones; with exact and prefix path filters
    that makes the routing of a request independent of the order of the
    intercepts.  Reconciliation keeps the contexts of the intercepts that stay
    and cancels exactly those that go. *)
From S2P Require Import Prelude NetIP GoStrings PortTypes Matcher MatcherSpec Icept AgentConfig AgentFwd.

Lemma filter_split {A} (P Q : A -> bool) (W : A -> Prop) `{!forall x, Decision (W x)} (l : list A) :
  filter W (filter (fun x => P x = true) l) ++ filter W (filter (fun x => Q x = true) (filter (fun x => P x = false) l)) ≡ₚ
  filter W (filter (fun x => P x || Q x = true) l).
Proof.
  induction l as [|x l IH]; [done|]. rewrite !(filter_cons _ x l).
  destruct (P x) eqn:HP; [|destruct (Q x) eqn:HQ].
  - rewrite (decide_True (P := true = true)), (decide_False (P := true = false)), (decide_True (P := true || Q x = true)) by done.
    rewrite !filter_cons. destruct (decide (W x)); [cbn [app]; by rewrite IH|exact IH].
  - rewrite (decide_False (P := false = true)), (decide_True (P := false = false)), (decide_True (P := false || true = true)) by done.
    rewrite (filter_cons _ x (filter _ l)), (decide_True (P := Q x = true)) by exact HQ. rewrite !filter_cons.
    destruct (decide (W x)); [rewrite <- Permutation_middle; by rewrite IH|exact IH].
  - rewrite (decide_False (P := false = true)), (decide_True (P := false = false)), (decide_False (P := false || false = true)) by done.
    rewrite (filter_cons _ x (filter _ l)), (decide_False (P := Q x = true)) by congruence. exact IH.
Qed.

(** ** Reconciliation *)

Definition last_info (iis : list InterceptInfo) (k : string) : option InterceptInfo :=
  last (filter (fun ii => ii_Id ii = k) iis).

Lemma last_info_cons ii iis k :
  last_info (ii :: iis) k =
    match last_info iis k with Some x => Some x | None => if decide (ii_Id ii = k) then Some ii else None end.
Proof.
  unfold last_info. rewrite filter_cons. destruct (decide (ii_Id ii = k)).
  - rewrite last_cons. by destruct (last _).
  - by destruct (last _).
Qed.

Lemma last_info_elem iis k : is_Some (last_info iis k) <-> k ∈ ii_Id <$> iis.
Proof.
  induction iis as [|ii iis IH].
  - split; [by intros [? ?]|by intros ?%not_elem_of_nil].
  - rewrite last_info_cons, fmap_cons, elem_of_cons, <- IH. destruct (last_info iis k) as [x|].
    + split; [by right; eexists|by eexists].
    + destruct (decide (ii_Id ii = k)) as [->|Hne].
      * split; [by left|by eexists].
      * split; [by intros [? ?]|]. intros [->|[? ?]]; done.
Qed.

Lemma upsert_lookup iis im next k :
  let '(im', next') := foldl upsert (im, next) iis in
  (next <= next')%nat /\
  match last_info iis k with
  | None => im' !! k = im !! k
  | Some ii => exists ctx, im' !! k = Some (mkController ii ctx) /\
      match im !! k with Some c => ctx = c_ctx c | None => (next <= ctx < next')%nat end
  end.
Proof.
  revert im next. induction iis as [|ii iis IH]; intros im next; [split; [lia|reflexivity]|].
  cbn [foldl]. rewrite last_info_cons. unfold upsert at 2.
  destruct (im !! ii_Id ii) as [c|] eqn:Hc.
  - specialize (IH (<[ii_Id ii := mkController ii (c_ctx c)]> im) next). destruct (foldl _ _ _) as [im' next'].
    destruct IH as [Hle IH]. split; [lia|]. destruct (decide (ii_Id ii = k)) as [<-|Hne].
    + rewrite lookup_insert_eq in IH. rewrite Hc. destruct (last_info iis _); [exact IH|]. eauto.
    + rewrite lookup_insert_ne in IH by exact Hne. by destruct (last_info iis k).
  - specialize (IH (<[ii_Id ii := mkController ii next]> im) (S next)). destruct (foldl _ _ _) as [im' next'].
    destruct IH as [Hle IH]. split; [lia|]. destruct (decide (ii_Id ii = k)) as [<-|Hne].
    + rewrite lookup_insert_eq in IH. rewrite Hc. destruct (last_info iis _) as [x|].
      * destruct IH as (ctx & H1 & H2). exists ctx. cbn [c_ctx] in H2. split; [done|lia].
      * exists next. split; [done|lia].
    + rewrite lookup_insert_ne in IH by exact Hne. destruct (last_info iis k) as [x|]; [|exact IH].
      destruct IH as (ctx & H1 & H2). exists ctx. split; [done|]. destruct (im !! k); [done|lia].
Qed.

(** [reconcile] leaves a controller for exactly the given intercepts, each with the
    information given last for its id; an intercept that had a controller keeps
    that controller's context, a new one gets a fresh context; and the contexts
    cancelled are those of the controllers that are gone. *)
Theorem reconcile_correct (im : controllers) (next : nat) (iis : list InterceptInfo) :
  let '(im', next', cancelled) := reconcile im next iis in
  (forall k, match last_info iis k with
             | None => im' !! k = None
             | Some ii => exists ctx, im' !! k = Some (mkController ii ctx) /\
                 match im !! k with Some c => ctx = c_ctx c | None => (next <= ctx < next')%nat end
             end) /\
  (forall ctx, ctx ∈ cancelled <-> exists k c, im !! k = Some c /\ im' !! k = None /\ c_ctx c = ctx).
Proof.
  unfold reconcile. pose proof (upsert_lookup iis im next) as Hup. destruct (foldl upsert (im, next) iis) as [im1 next1].
  assert (Hkeep : forall k, filter (fun kv : string * controller => kv.1 ∈ ii_Id <$> iis) im1 !! k =
            match last_info iis k with None => None | Some _ => im1 !! k end).
  { intros k. destruct (last_info iis k) eqn:E.
    - assert (Hin : k ∈ ii_Id <$> iis) by (apply last_info_elem; eauto). destruct (im1 !! k) eqn:E1.
      + by apply map_lookup_filter_Some.
      + apply map_lookup_filter_None. by left.
    - apply map_lookup_filter_None. right. intros x _ Hin. cbn [fst] in Hin. apply last_info_elem in Hin as [? ?]. congruence. }
  split.
  - intros k. rewrite Hkeep. destruct (Hup k) as [_ Hk]. by destruct (last_info iis k).
  - intros ctx. rewrite list_elem_of_fmap. split.
    + intros (c & -> & ([k c'] & -> & Hin)%list_elem_of_fmap). cbn [snd]. apply elem_of_map_to_list, map_lookup_filter_Some in Hin as [Hc Hn].
      cbn [fst] in Hn. exists k, c'. destruct (Hup k) as [_ Hk]. rewrite Hkeep.
      destruct (last_info iis k) eqn:E; [exfalso; apply Hn, last_info_elem; eauto|]. split_and!; congruence.
    + intros (k & c & Hc & Hk & <-). exists c. split; [done|]. apply list_elem_of_fmap. exists (k, c). split; [done|].
      apply elem_of_map_to_list, map_lookup_filter_Some. destruct (Hup k) as [_ Hu]. rewrite Hkeep in Hk.
      destruct (last_info iis k) as [x|] eqn:E.
      * destruct Hu as (ctx & Hx & _). congruence.
      * split; [congruence|]. cbn [fst]. intros Hin. apply last_info_elem in Hin as [? ?]. congruence.
Qed.

(** ** Reviews *)

Section Spec.
Context {RX : GoRegexp}.

Lemma review_id fs active waiting i ii : rv_Id (review_waiting fs active waiting i ii) = ii_Id ii.
Proof.
  unfold review_waiting, processRegularIntercept, processWiretapIntercept. repeat case_match; reflexivity.
Qed.

Lemma review_active fs active waiting i ii :
  sp_Wiretap (ii_Spec ii) = false -> rv_Disposition (review_waiting fs active waiting i ii) = ACTIVE ->
  findConflictingIntercept ii i active waiting = None.
Proof.
  intros Hw. unfold review_waiting, processRegularIntercept. rewrite Hw.
  destruct (findConflictingIntercept _ _ _ _); [discriminate|done].
Qed.

Lemma no_conflict_found ii i active waiting : findConflictingIntercept ii i active waiting = None ->
  (forall a, a ∈ active -> conflicts_with ii a = false) /\
  (forall j o, (j < i)%nat -> waiting !! j = Some o -> conflicts_with ii o = false).
Proof.
  unfold findConflictingIntercept. destruct (list_find _ active) as [[? ?]|] eqn:Ha; [discriminate|].
  intros Hw%fmap_None. apply list_find_None in Ha, Hw. rewrite Forall_forall in Ha, Hw. split.
  - intros a Hin. apply not_true_iff_false. by apply Ha.
  - intros j o Hj Ho. apply not_true_iff_false, Hw. apply list_elem_of_lookup. exists j. by rewrite lookup_take_lt.
Qed.

Definition regular (ii : InterceptInfo) : Prop := sp_Wiretap (ii_Spec ii) = false.

(** The reviews of a port: one for each waiting intercept, in order, and the
    regular intercepts that are let become active conflict neither with a
    regular active intercept nor with each other. *)
Theorem HandlePort_no_conflicts (fs : fwdState) (cepts : list InterceptInfo) :
  let waiting := with_disposition WAITING cepts in
  let reviews := (HandlePort fs cepts).2 in
  rv_Id <$> reviews = ii_Id <$> waiting /\
  (forall i ii rv, waiting !! i = Some ii -> reviews !! i = Some rv -> regular ii -> rv_Disposition rv = ACTIVE ->
     (forall a, a ∈ cepts -> ii_Disposition a = ACTIVE -> regular a -> IsInConflict (ii_Spec ii) (ii_Spec a) = false) /\
     (forall j jj rv', waiting !! j = Some jj -> reviews !! j = Some rv' -> regular jj -> rv_Disposition rv' = ACTIVE ->
        j <> i -> IsInConflict (ii_Spec ii) (ii_Spec jj) = false)).
Proof.
  cbn zeta. unfold HandlePort. cbn [snd]. set (active := with_disposition ACTIVE cepts). set (waiting := with_disposition WAITING cepts).
  assert (Hone : forall i ii, waiting !! i = Some ii -> regular ii ->
    rv_Disposition (review_waiting fs active waiting i ii) = ACTIVE ->
    (forall a, a ∈ active -> regular a -> IsInConflict (ii_Spec ii) (ii_Spec a) = false) /\
    (forall j o, (j < i)%nat -> waiting !! j = Some o -> regular o -> IsInConflict (ii_Spec ii) (ii_Spec o) = false)).
  { intros i ii Hi Hreg Hact. apply review_active in Hact; [|exact Hreg]. apply no_conflict_found in Hact as [Ha Hw].
    unfold conflicts_with, regular in *. split.
    - intros a Hin Hr. specialize (Ha a Hin). by rewrite Hr in Ha.
    - intros j o Hj Ho Hr. specialize (Hw j o Hj Ho). by rewrite Hr in Hw. }
  split.
  - apply list_eq. intros i. rewrite !list_lookup_fmap, list_lookup_imap. destruct (waiting !! i); [|done]. cbn. by rewrite review_id.
  - intros i ii rv Hi. rewrite list_lookup_imap, Hi. cbn. intros [= <-] Hreg Hact. destruct (Hone i ii Hi Hreg Hact) as [Ha Hw]. split.
    + intros a Hin Hd Hr. apply Ha; [|done]. unfold active, with_disposition. by apply list_elem_of_filter.
    + intros j jj rv' Hj. rewrite list_lookup_imap, Hj. cbn. intros [= <-] Hr' Hact' Hne.
      destruct (decide (j < i)%nat); [by apply (Hw j)|]. rewrite conflict_comm.
      destruct (Hone j jj Hj Hr' Hact') as [_ Hw']. apply (Hw' i); [lia|done|done].
Qed.

(** ** Routing *)

(** Regular intercepts with exact and prefix path filters and no headers. *)
Definition path_only (ii : InterceptInfo) : Prop :=
  sp_HeaderFilters (ii_Spec ii) = [] /\ sp_PathFilters (ii_Spec ii) <> [] /\ plain_paths (sp_PathFilters (ii_Spec ii)).

Definition conflict_free (l : list InterceptInfo) : Prop :=
  forall i j a b, l !! i = Some a -> l !! j = Some b -> i <> j -> IsInConflict (ii_Spec a) (ii_Spec b) = false.

Lemma path_tier_unique l path h a b : Forall path_only l -> conflict_free l -> a ∈ l -> b ∈ l ->
  path_tier path h a = true -> path_tier path h b = true -> a = b.
Proof.
  intros Hpo Hcf [i Ha]%list_elem_of_lookup [j Hb]%list_elem_of_lookup Ta Tb.
  destruct (decide (i = j)) as [->|Hne]; [congruence|]. exfalso. specialize (Hcf i j a b Ha Hb Hne).
  rewrite Forall_lookup in Hpo. destruct (Hpo i a Ha) as (A1 & A2 & A3), (Hpo j b Hb) as (B1 & B2 & B3).
  apply not_true_iff_false in Hcf. apply Hcf. apply (paths_conflict_iff _ _ h); try done.
  unfold path_tier, shouldInterceptRequest in Ta, Tb. bools. exists path. done.
Qed.

(** C35. Intercepts that filter by the path alone, by equality or prefix and not by a regular
    expression, and of which no two are in conflict: whichever order they are tried in, a
    request goes to the same place, and there is at most one intercept it can go to. *)
Theorem route_order_irrelevant (l l' : list InterceptInfo) (path : string) (h : Header) :
  Forall path_only l -> conflict_free l -> l' ≡ₚ l ->
  route_http l' path h = route_http l path h /\
  (forall a, a ∈ l -> shouldInterceptRequest path h (ii_Spec a) = true -> route_http l path h = ToIntercept a).
Proof.
  intros Hpo Hcf Hp.
  assert (Hht : forall k, (forall a, a ∈ k -> a ∈ l) -> list_find (fun ii => header_tier path h ii = true) k = None).
  { intros k Hk. apply list_find_None, Forall_forall. intros a Ha. rewrite Forall_forall in Hpo.
    destruct (Hpo a (Hk a Ha)) as [H0 _]. unfold header_tier. rewrite H0. discriminate. }
  unfold route_http. rewrite (Hht l), (Hht l') by (intros a; by rewrite ?Hp). split.
  - destruct (list_find _ l) as [[i a]|] eqn:Hl, (list_find _ l') as [[j b]|] eqn:Hl'; try done.
    + apply list_find_Some in Hl as (Ha & Ta & _), Hl' as (Hb & Tb & _). do 2 f_equal.
      apply list_elem_of_lookup_2 in Ha, Hb. rewrite Hp in Hb. by eapply path_tier_unique.
    + exfalso. apply list_find_Some in Hl as (Ha & Ta & _). apply list_find_None in Hl'. rewrite Forall_forall in Hl'.
      apply (Hl' a); [|exact Ta]. rewrite Hp. by eapply list_elem_of_lookup_2.
    + exfalso. apply list_find_Some in Hl' as (Hb & Tb & _). apply list_find_None in Hl. rewrite Forall_forall in Hl.
      apply (Hl b); [|exact Tb]. rewrite <- Hp. by eapply list_elem_of_lookup_2.
  - intros a Ha Hs. assert (Ta : path_tier path h a = true).
    { pose proof Hpo as Hpo'. rewrite Forall_forall in Hpo'. destruct (Hpo' a Ha) as (H1 & H2 & _). unfold path_tier. rewrite H1, Hs.
      by destruct (sp_PathFilters (ii_Spec a)). }
    destruct (list_find _ l) as [[i b]|] eqn:Hl.
    + apply list_find_Some in Hl as (Hb & Tb & _). f_equal. apply list_elem_of_lookup_2 in Hb. by eapply path_tier_unique.
    + exfalso. apply list_find_None in Hl. rewrite Forall_forall in Hl. by apply (Hl a).
Qed.

(** An intercept without filters takes every plain connection, but as soon as a
    wiretap with a filter switches the port to HTTP, no request reaches it: the
    two passes look only at intercepts with filters. *)
Theorem global_intercept_bypassed (f : forwarder) (id : string) (c : controller) (port : Z) (path : string) (h : Header) :
  f_intercepts f = {[id := c]} -> spec_isGlobal (ii_Spec (c_info c)) = true -> ctls_isHTTP (f_wiretaps f) = true ->
  (tcp_Forward f port).1 = ToIntercept (c_info c) /\
  IsHTTP f = true /\ (handleHTTPRequest f path h).1 = ToApplication.
Proof.
  intros Hf Hg Hw. unfold spec_isGlobal, hasHeaders, hasPaths in Hg.
  destruct (sp_HeaderFilters (ii_Spec (c_info c))) eqn:Hh; [|discriminate].
  destruct (sp_PathFilters (ii_Spec (c_info c))) eqn:Hpth; [|discriminate].
  assert (Hs : sorted (f_intercepts f) = [c]).
  { rewrite Hf. unfold sorted, SortedKeys. rewrite map_to_list_singleton. cbn. by rewrite lookup_singleton_eq. }
  split_and!.
  - unfold tcp_Forward, global_controller. rewrite Hs, Hf, map_size_singleton. reflexivity.
  - unfold IsHTTP. rewrite Hw. apply orb_true_r.
  - unfold handleHTTPRequest, route_http, sortedInfos. rewrite Hs. cbn [fmap list_fmap fst].
    assert (H1 : header_tier path h (c_info c) = false) by (unfold header_tier; by rewrite Hh).
    assert (H2 : path_tier path h (c_info c) = false) by (unfold path_tier; by rewrite Hh, Hpth).
    cbn [list_find]. rewrite H1, H2. reflexivity.
Qed.

(** ** All ports *)

(** Every intercept is handled by at most one port, the first that matches it:
    what is left unhandled matches no port, and the reviews of all ports are
    those of the waiting intercepts that match some port, one each. *)
Theorem handle_ports_once (ists : list fwdState) (iis : list InterceptInfo) :
  let handled ii := existsb (fun ist => matches_target ist ii) ists in
  (handle_ports ists iis).2 = filter (fun ii => handled ii = false) iis /\
  (rv_Id <$> concat (handle_ports ists iis).1.*2) ≡ₚ
  (ii_Id <$> with_disposition WAITING (filter (fun ii => handled ii = true) iis)).
Proof.
  cbn zeta. revert iis. induction ists as [|ist ists IH]; intros iis.
  - cbn [handle_ports existsb fst snd fmap list_fmap concat]. split.
    + symmetry. apply filter_all. by apply Forall_forall.
    + rewrite (filter_none _ iis); [done|]. by apply Forall_forall.
  - cbn [handle_ports]. destruct (HandlePort ist _) as [f rs] eqn:Hhp.
    set (rest := filter (fun ii => matches_target ist ii = false) iis).
    specialize (IH rest). destruct (handle_ports ists rest) as [out unh]. cbn [fst snd fmap list_fmap concat] in *.
    destruct IH as [IH1 IH2]. split.
    + rewrite IH1. unfold rest. rewrite list_filter_filter. apply list_filter_iff. intros ii. cbn [existsb].
      rewrite orb_false_iff. tauto.
    + rewrite fmap_app, IH2.
      assert (Hrs : rv_Id <$> rs = ii_Id <$> with_disposition WAITING (filter (fun ii => matches_target ist ii = true) iis)).
      { change rs with (f, rs).2. rewrite <- Hhp. unfold HandlePort. cbn [snd].
        apply list_eq. intros i. rewrite !list_lookup_fmap, list_lookup_imap.
        destruct (_ !! i); [|done]. cbn. by rewrite review_id. }
      rewrite Hrs, <- fmap_app. apply fmap_Permutation. apply filter_split.
Qed.
End Spec.

(** A waiting intercept that is refused still blocks the ones behind it.  The
    comment of [findConflictingIntercept] speaks of those that would become
    active; here [b] is refused because of the active [a], and [c] is refused
    because of [b] although it conflicts with no intercept that is or becomes
    active. *)
Definition info (id : string) (d : Disposition) (paths : list string) : InterceptInfo :=
  mkInfo id d (filters [] paths).

Theorem refused_candidate_blocks (RX : GoRegexp) (fs : fwdState) :
  let a := info "a" ACTIVE [":path-prefix:/a"%string] in
  let b := info "b" WAITING ["/a/x"; "/b"]%string in
  let c := info "c" WAITING ["/b"]%string in
  rv_Disposition <$> (HandlePort fs [a; b; c]).2 = [AGENT_ERROR; AGENT_ERROR] /\
  IsInConflict (ii_Spec c) (ii_Spec a) = false.
Proof. split; reflexivity. Qed.

Local Existing Instance simple_regexp.

Definition two_paths : list InterceptInfo := [info "a" ACTIVE [":path-prefix:/a"%string]; info "b" ACTIVE ["/b"%string]].

Lemma route_order_irrelevant_witness :
  route_http (reverse two_paths) "/a/x" ∅ = route_http two_paths "/a/x" ∅ /\
  (forall a, a ∈ two_paths -> shouldInterceptRequest "/a/x" ∅ (ii_Spec a) = true -> route_http two_paths "/a/x" ∅ = ToIntercept a).
Proof.
  apply (route_order_irrelevant two_paths (reverse two_paths) "/a/x" ∅).
  - repeat constructor; try discriminate; repeat constructor.
  - intros [|[|i]] [|[|j]] a b Ha Hb Hne; try done; injection Ha as <-; injection Hb as <-; reflexivity.
  - apply reverse_Permutation.
Defined.

Definition tapped : forwarder :=
  mkFwd {["g"%string := mkController (mkInfo "g" ACTIVE (filters [] [])) 0]}
        {["w"%string := mkController (info "w" ACTIVE ["/x"%string]) 1]} 2 [] true (Some false).

Lemma global_intercept_bypassed_witness :
  (tcp_Forward tapped 80).1 = ToIntercept (mkInfo "g" ACTIVE (filters [] [])) /\
  IsHTTP tapped = true /\ (handleHTTPRequest tapped "/y" ∅).1 = ToApplication.
Proof.
  apply (global_intercept_bypassed tapped "g" (mkController (mkInfo "g" ACTIVE (filters [] [])) 0) 80 "/y" ∅); reflexivity.
Defined.
