(* ===== verification/CacheMap.v ===== *)
(** * The subscribable map (src/pkg/cache/map.go)

    The manager keeps its agents and intercepts in a [Map] that tells subscribers
    about changes.  A modification marks the subscribers it concerns and arms a
    timer; when the timer fires, [notify] compares the map with the snapshot of
    the last notification and sends the difference to the marked subscribers.

    The concurrent map underneath (xsync.Map) is not part of the sources.  It is
    the class [XsyncMap] with the laws [XsyncLaws] of its documentation; every
    theorem holds for any implementation of them. *)
From S2P Require Import Prelude.

(** ** The underlying map *)

Inductive ComputeOp (V : Type) := CancelOp | UpdateOp (v : V) | DeleteOp.
Arguments CancelOp {V}.
Arguments UpdateOp {V} v.
Arguments DeleteOp {V}.

Class XsyncMap (K V M : Type) := {
  x_new : M;
  x_Load : M -> K -> option V;
  x_Compute : M -> K -> (option V -> ComputeOp V) -> M;
  x_Range : M -> list (K * V)              (* the entries in the order of a Range *)
}.

Definition computed {V} (old : option V) (op : ComputeOp V) : option V :=
  match op with CancelOp => old | UpdateOp v => Some v | DeleteOp => None end.

Class XsyncLaws (K V M : Type) `{EqDecision K} {X : XsyncMap K V M} : Prop := {
  load_new : forall k, x_Load (x_new : M) k = None;
  load_compute : forall (m : M) k f k',
    x_Load (x_Compute m k f) k' = if decide (k = k') then computed (x_Load m k) (f (x_Load m k)) else x_Load m k';
  range_load : forall (m : M) k v, (k, v) ∈ x_Range m <-> x_Load m k = Some v;
  range_nodup : forall m : M, NoDup (x_Range m).*1
}.

(** ** Deltas *)

Section Cache.
Context {K V M : Type} `{Countable K} {X : XsyncMap K V M}.
Variable equal : V -> V -> bool.

Record Delta := mkDelta { Upserts : gmap K V; Removals : gmap K V }.

(** [Delta.Merge]. *)
Definition Merge (delta other : Delta) : Delta :=
  mkDelta
    (if Nat.eqb (size (Upserts delta)) 0 then Upserts other
     else (Upserts other ∪ Upserts delta) ∖ Removals other)
    (if Nat.eqb (size (Removals delta)) 0 then Removals other
     else (Removals other ∪ Removals delta) ∖ Upserts other).

(** A subscriber; [chan] is its channel of capacity one. *)
Record subscription := mkSub {
  include : option (K -> V -> bool);
  initialized : bool;
  mark : bool;
  chan : option Delta
}.

Record Map := mkMap {
  m_map : M;
  snapshot : gmap K V;
  subscribers : gmap nat subscription;
  armed : bool                             (* the notifier will fire *)
}.

Definition NewMap : Map := mkMap x_new ∅ ∅ false.

Definition included (sb : subscription) (k : K) (v : V) : bool :=
  match include sb with None => true | Some f => f k v end.
Definition set_mark (b : bool) (sb : subscription) : subscription := mkSub (include sb) (initialized sb) b (chan sb).

Definition markSubscribers (key : K) (value : V) (subs : gmap nat subscription) : gmap nat subscription :=
  (fun sb => if negb (mark sb) && included sb key value then set_mark true sb else sb) <$> subs.

(** [Compute]: the operation the function asks for, turned into a cancel when it
    would store a value equal to the one present. *)
Definition effective (old : option V) (op : ComputeOp V) : ComputeOp V :=
  match op, old with
  | UpdateOp fv, Some v => if equal fv v then CancelOp else op
  | _, _ => op
  end.
Definition Compute (m : Map) (key : K) (f : option V -> ComputeOp V) : Map :=
  let g old := effective old (f old) in
  let mm := x_Compute (m_map m) key g in
  match g (x_Load (m_map m) key), x_Load (m_map m) key with
  | CancelOp, _ => mkMap mm (snapshot m) (subscribers m) (armed m)
  | UpdateOp fv, _ => mkMap mm (snapshot m) (markSubscribers key fv (subscribers m)) true
  | DeleteOp, Some v => mkMap mm (snapshot m) (markSubscribers key v (subscribers m)) true
  | DeleteOp, None => mkMap mm (snapshot m) (subscribers m) true
  end.

Definition Load (m : Map) (k : K) : option V := x_Load (m_map m) k.
Definition CompareAndSwap (m : Map) (key : K) (oldValue newValue : V) : Map * bool :=
  (Compute m key (fun cur => match cur with
                             | Some v => if equal v oldValue then UpdateOp newValue else CancelOp
                             | None => CancelOp
                             end),
   match Load m key with Some v => equal v oldValue | None => false end).
Definition Delete (m : Map) (key : K) : Map :=
  Compute m key (fun old => match old with None => CancelOp | Some _ => DeleteOp end).
Definition LoadAndDelete (m : Map) (key : K) : Map * option V :=
  (Compute m key (fun old => match old with Some _ => DeleteOp | None => CancelOp end), Load m key).
Definition LoadAndStore (m : Map) (key : K) (value : V) : Map * option V :=
  (Compute m key (fun _ => UpdateOp value), Load m key).
Definition LoadOrCompute (m : Map) (key : K) (valueFn : V) : Map * V * bool :=
  (Compute m key (fun old => match old with Some _ => CancelOp | None => UpdateOp valueFn end),
   match Load m key with Some v => v | None => valueFn end,
   match Load m key with Some _ => true | None => false end).
Definition LoadOrStore (m : Map) (key : K) (value : V) : Map * V * bool := LoadOrCompute m key value.
Definition Store (m : Map) (key : K) (value : V) : Map := Compute m key (fun _ => UpdateOp value).

Definition LoadAll (m : Map) : gmap K V := list_to_map (x_Range (m_map m)).
Definition LoadMatching (m : Map) (filt : K -> V -> bool) : gmap K V :=
  list_to_map (filter (fun kv => filt kv.1 kv.2 = true) (x_Range (m_map m))).

(** ** Notification *)

Record allDelta := mkAll { ad_snapshot : gmap K V; ad_upserts : gmap K V; ad_removals : gmap K V }.

(** [makeDelta]: the difference to the last snapshot, and the map with the new one. *)
Definition makeDelta (m : Map) : allDelta * Map :=
  let previous := snapshot m in
  let current := LoadAll m in
  (mkAll current
     (filter (fun kv : K * V => match previous !! kv.1 with Some prev => negb (equal prev kv.2) | None => true end = true) current)
     (filter (fun kv : K * V => match current !! kv.1 with Some _ => false | None => true end = true) previous),
   mkMap (m_map m) current (subscribers m) (armed m)).

Definition filteredMap (m : gmap K V) (inc : option (K -> V -> bool)) : gmap K V :=
  match inc with None => m | Some f => filter (fun kv : K * V => f kv.1 kv.2 = true) m end.

Definition filteredDelta (ad : allDelta) (init : bool) (inc : option (K -> V -> bool)) : Delta :=
  if init then mkDelta (filteredMap (ad_upserts ad) inc) (filteredMap (ad_removals ad) inc)
  else mkDelta (filteredMap (ad_snapshot ad) inc) (filteredMap ∅ inc).

(** [send], to a subscriber that is not done. *)
Definition send (ad : allDelta) (sb : subscription) : subscription :=
  let fd := filteredDelta ad (initialized sb) (include sb) in
  if initialized sb && Nat.eqb (size (Upserts fd)) 0 && Nat.eqb (size (Removals fd)) 0 then
    mkSub (include sb) true (mark sb) (chan sb)
  else
    mkSub (include sb) true (mark sb) (Some (match chan sb with Some prev => Merge prev fd | None => fd end)).

(** The loop of [notify] over the subscribers, once: those marked are unmarked
    and sent the delta. *)
Definition send_marked (ad : allDelta) (m : Map) : Map :=
  mkMap (m_map m) (snapshot m)
    ((fun sb => if mark sb then send ad (set_mark false sb) else sb) <$> subscribers m) (armed m).

(** [notify] when nothing else happens while it runs: the second round of its
    loop finds no mark. *)
Definition notify (m : Map) : Map := let '(ad, m) := makeDelta m in send_marked ad m.

Definition disarm (m : Map) : Map := mkMap (m_map m) (snapshot m) (subscribers m) false.
(** The timer fires. *)
Definition fire (m : Map) : Map := notify (disarm m).

(** [Subscribe] under a fresh identifier, with a channel that is not done. *)
Definition Subscribe (m : Map) (id : nat) (inc : option (K -> V -> bool)) : Map :=
  let m := disarm m in
  notify (mkMap (m_map m) (snapshot m) (<[id := mkSub inc false true None]> (subscribers m)) (armed m)).

(** The subscriber reads its channel. *)
Definition receive (m : Map) (id : nat) : option Delta * Map :=
  match subscribers m !! id with
  | Some sb => (chan sb, mkMap (m_map m) (snapshot m) (<[id := mkSub (include sb) (initialized sb) (mark sb) None]> (subscribers m)) (armed m))
  | None => (None, m)
  end.
(** [<-done]: the subscriber is removed. *)
Definition unsubscribe (m : Map) (id : nat) : Map := mkMap (m_map m) (snapshot m) (delete id (subscribers m)) (armed m).

(** What a client that keeps a copy does with a delta (maps.DeltaUpdate). *)
Definition apply_delta (d : Delta) (view : gmap K V) : gmap K V := (Upserts d ∪ view) ∖ Removals d.
End Cache.

Arguments Delta K V {_ _}.
Arguments subscription K V {_ _}.
Arguments Map K V M {_ _}.
Arguments NewMap {K V M _ _ X}.

(** ** A reference implementation of the underlying map *)

Definition gmap_compute {K V} `{Countable K} (m : gmap K V) (k : K) (f : option V -> ComputeOp V) : gmap K V :=
  match f (m !! k) with CancelOp => m | UpdateOp v => <[k := v]> m | DeleteOp => delete k m end.

Global Instance gmap_xsync {K V} `{Countable K} : XsyncMap K V (gmap K V) :=
  {| x_new := ∅; x_Load m k := m !! k; x_Compute := gmap_compute; x_Range := map_to_list |}.

Global Instance gmap_xsync_laws {K V} `{Countable K} : XsyncLaws K V (gmap K V).
Proof.
  split; cbn [x_new x_Load x_Compute x_Range gmap_xsync].
  - intros k. apply lookup_empty.
  - intros m k f k'. unfold gmap_compute, computed. destruct (decide (k = k')) as [<-|Hne].
    + destruct (f (m !! k)); [done|apply lookup_insert_eq|apply lookup_delete_eq].
    + destruct (f (m !! k)); [done|by rewrite lookup_insert_ne|by rewrite lookup_delete_ne].
  - intros m k v. apply elem_of_map_to_list.
  - intros m. apply NoDup_fst_map_to_list.
Qed.
