(* ===== verification/CacheMapSpec.v ===== *)
(** * Correctness of the subscribable map

    The operations are those of a finite map; merging two deltas is applying one
    after the other; and a subscriber that applies the deltas it gets has, once the timer
    has fired and its channel is empty, what its filter selects of the map, and besides
    only entries under keys whose value has left the filter.  That last theorem needs
    notifications not to overlap with modifications: with an overlap an update can be lost
    for good. *)
From S2P Require Import Prelude CacheMap.

Section Deltas.
Context {K V : Type} `{Countable K}.

Implicit Types d : Delta K V.

(** ** Deltas *)

Lemma apply_delta_lookup d (view : gmap K V) k :
  apply_delta d view !! k =
    match Removals d !! k with Some _ => None | None => match Upserts d !! k with Some x => Some x | None => view !! k end end.
Proof.
  unfold apply_delta. destruct (Removals d !! k) as [y|] eqn:E.
  - apply lookup_difference_None. right. eauto.
  - rewrite lookup_difference, E, lookup_union. by destruct (Upserts d !! k), (view !! k).
Qed.

(** A delta does not both upsert and remove a key. *)
Definition delta_wf d : Prop := forall k x, Upserts d !! k = Some x -> Removals d !! k = None.

Lemma empty_of_size (g : gmap K V) : Nat.eqb (size g) 0 = true -> g = ∅.
Proof. intros E%Nat.eqb_eq. by apply map_size_empty_inv. Qed.

Lemma merge_side (own_now own_new other_new : gmap K V) k :
  (forall x, own_new !! k = Some x -> other_new !! k = None) ->
  (if Nat.eqb (size own_now) 0 then own_new else (own_new ∪ own_now) ∖ other_new) !! k =
    match other_new !! k with Some _ => None | None => match own_new !! k with Some x => Some x | None => own_now !! k end end.
Proof.
  intros Hd. destruct (Nat.eqb (size own_now) 0) eqn:E.
  - apply empty_of_size in E as ->. rewrite lookup_empty. destruct (own_new !! k) as [x|] eqn:Ex; [by rewrite (Hd x eq_refl)|by destruct (other_new !! k)].
  - destruct (other_new !! k) as [y|] eqn:Ey.
    + apply lookup_difference_None. right. eauto.
    + rewrite lookup_difference, Ey, lookup_union. by destruct (own_new !! k), (own_now !! k).
Qed.

Lemma merge_lookup a b k : delta_wf b ->
  Upserts (Merge a b) !! k =
    match Removals b !! k with Some _ => None | None => match Upserts b !! k with Some x => Some x | None => Upserts a !! k end end /\
  Removals (Merge a b) !! k =
    match Upserts b !! k with Some _ => None | None => match Removals b !! k with Some x => Some x | None => Removals a !! k end end.
Proof.
  intros Hb. unfold Merge. cbn [Upserts Removals]. split; apply merge_side.
  - intros x. apply Hb.
  - intros x Hx. destruct (Upserts b !! k) as [y|] eqn:Ey; [|done]. apply Hb in Ey. congruence.
Qed.

Lemma merge_wf a b : delta_wf a -> delta_wf b -> delta_wf (Merge a b).
Proof.
  intros Ha Hb k x. destruct (merge_lookup a b k Hb) as [-> ->]. pose proof (Hb k) as Hbk. pose proof (Ha k) as Hak.
  destruct (Removals b !! k), (Upserts b !! k); naive_solver.
Qed.

Lemma merge_apply a b (view : gmap K V) : delta_wf b -> apply_delta (Merge a b) view = apply_delta b (apply_delta a view).
Proof.
  intros Hb. apply map_eq. intros k. rewrite !apply_delta_lookup. destruct (merge_lookup a b k Hb) as [-> ->].
  pose proof (Hb k) as Hbk. destruct (Upserts b !! k) as [u|]; [by rewrite (Hbk u eq_refl)|]. by destruct (Removals b !! k).
Qed.

(** Merging an unread delta with the next one is applying them one after the
    other, and keeps upserts and removals apart. *)
Theorem Merge_correct (a b : Delta K V) (view : gmap K V) :
  delta_wf a -> delta_wf b ->
  delta_wf (Merge a b) /\ apply_delta (Merge a b) view = apply_delta b (apply_delta a view).
Proof. intros Ha Hb. split; [by apply merge_wf|by apply merge_apply]. Qed.
End Deltas.

Section Spec.
Context {K V M : Type} `{Countable K} {X : XsyncMap K V M} {XL : XsyncLaws K V M}.
Variable equal : V -> V -> bool.

Implicit Types m : Map K V M.

(** ** Operations *)

Lemma LoadAll_lookup m k : LoadAll m !! k = Load m k.
Proof.
  unfold LoadAll, Load. apply option_eq. intros v. rewrite <- elem_of_list_to_map by apply range_nodup. apply range_load.
Qed.

Lemma LoadMatching_lookup m f k v : LoadMatching m f !! k = Some v <-> Load m k = Some v /\ f k v = true.
Proof.
  unfold LoadMatching, Load. rewrite <- elem_of_list_to_map.
  - rewrite list_elem_of_filter, range_load. cbn [fst snd]. tauto.
  - eapply sublist_NoDup; [apply (range_nodup (m_map m))|]. apply fmap_sublist, sublist_filter.
Qed.

Section Equal.
Hypothesis equal_eq : forall a b, equal a b = true <-> a = b.

Lemma effective_computed old op : computed old (effective equal old op) = computed old op.
Proof.
  destruct op as [|fv|], old as [v|]; try done. cbn [effective]. destruct (equal fv v) eqn:E; [|done].
  apply equal_eq in E as ->. done.
Qed.

Lemma Compute_lookup m k f k' :
  Load (Compute equal m k f) k' = if decide (k = k') then computed (Load m k) (f (Load m k)) else Load m k'.
Proof.
  assert (Hm : m_map (Compute equal m k f) = x_Compute (m_map m) k (fun old => effective equal old (f old))).
  { unfold Compute. by repeat case_match. }
  unfold Load. rewrite Hm, load_compute. destruct (decide (k = k')); [|done]. apply effective_computed.
Qed.

(** The operations of the cache are those of a finite map: store, delete, load
    and delete, load or store (the first value wins), compare and swap, and
    selection by a filter. *)
Theorem cache_operations (m : Map K V M) (k : K) (v w : V) (k' : K) (f : K -> V -> bool) (x : V) :
  Load (Store equal m k v) k' = (if decide (k = k') then Some v else Load m k') /\
  Load (Delete equal m k) k' = (if decide (k = k') then None else Load m k') /\
  (let '(m', old) := LoadAndDelete equal m k in
   old = Load m k /\ Load m' k' = if decide (k = k') then None else Load m k') /\
  (let '(m', actual, loaded) := LoadOrStore equal m k v in
   Load m' k = Some actual /\ (loaded = true -> Load m k = Some actual) /\ (loaded = false -> actual = v)) /\
  (let '(m', swapped) := CompareAndSwap equal m k v w in
   (swapped = true <-> Load m k = Some v) /\
   Load m' k' = if swapped && bool_decide (k = k') then Some w else Load m k') /\
  (LoadMatching m f !! k' = Some x <-> Load m k' = Some x /\ f k' x = true).
Proof.
  unfold Store, Delete, LoadAndDelete, LoadOrStore, LoadOrCompute, CompareAndSwap. rewrite !Compute_lookup.
  split; [|split; [|split; [|split; [|split]]]].
  - done.
  - destruct (decide (k = k')); [|done]. by destruct (Load m k).
  - split; [done|]. destruct (decide (k = k')); [|done]. by destruct (Load m k).
  - rewrite decide_True by done. by destruct (Load m k).
  - split.
    + destruct (Load m k) as [u|]; [|done]. rewrite equal_eq. naive_solver.
    + destruct (decide (k = k')) as [<-|Hne].
      * rewrite bool_decide_eq_true_2, andb_true_r by done. destruct (Load m k) as [u|]; [|done]. by destruct (equal u v).
      * by rewrite bool_decide_eq_false_2, andb_false_r.
  - apply LoadMatching_lookup.
Qed.
End Equal.

(** ** Subscribers *)

Definition pending (sb : subscription K V) (view : gmap K V) : gmap K V :=
  match chan sb with Some d => apply_delta d view | None => view end.

(** What a filter makes of an entry. *)
Definition sel (inc : option (K -> V -> bool)) (k : K) (v : option V) : option V :=
  match v with
  | Some x => if match inc with None => true | Some f => f k x end then Some x else None
  | None => None
  end.
Lemma filteredMap_lookup (g : gmap K V) inc k : filteredMap g inc !! k = sel inc k (g !! k).
Proof.
  unfold filteredMap, sel. destruct inc as [f|]; [|by destruct (g !! k)]. destruct (g !! k) as [x|] eqn:Ex.
  - destruct (f k x) eqn:Ef; [by apply map_lookup_filter_Some|]. apply map_lookup_filter_None. right. intros y Hy. cbn. congruence.
  - apply map_lookup_filter_None. by left.
Qed.
Lemma sel_Some inc k v x : sel inc k v = Some x -> v = Some x.
Proof. unfold sel. destruct v as [y|]; [|done]. by destruct (match inc with None => true | Some f => f k y end). Qed.

Section Views.
Hypothesis equal_eq : forall a b, equal a b = true <-> a = b.

#[local] Instance value_eq_dec : EqDecision V.
Proof. refine (fun a b => cast_if (decide (equal a b = true))); by rewrite <- equal_eq. Defined.

(** The difference to the last snapshot, at one key. *)
Lemma ad_upserts_lookup m k : ad_upserts (makeDelta equal m).1 !! k =
  if decide (snapshot m !! k = LoadAll m !! k) then None else LoadAll m !! k.
Proof.
  unfold makeDelta. cbn [fst ad_upserts]. destruct (filter _ _ !! k) as [x|] eqn:E.
  - apply map_lookup_filter_Some in E as [Hx Hp]. cbn [fst snd] in Hp. rewrite Hx. rewrite decide_False; [done|].
    intros Hs. rewrite Hs in Hp. by rewrite (proj2 (equal_eq x x) eq_refl) in Hp.
  - apply map_lookup_filter_None in E as [Hn|Hp]; [rewrite Hn; by destruct (decide _)|].
    destruct (LoadAll m !! k) as [x|] eqn:Hx; [|by destruct (decide _)]. specialize (Hp x eq_refl). cbn [fst snd] in Hp.
    destruct (snapshot m !! k) as [y|]; [|done]. destruct (equal y x) eqn:Ee; [|done]. apply equal_eq in Ee as ->. by rewrite decide_True.
Qed.
Lemma ad_removals_lookup m k : ad_removals (makeDelta equal m).1 !! k = match LoadAll m !! k with Some _ => None | None => snapshot m !! k end.
Proof.
  unfold makeDelta. cbn [fst ad_removals]. destruct (LoadAll m !! k) as [x|] eqn:Hx.
  - apply map_lookup_filter_None. right. intros y _. cbn [fst]. by rewrite Hx.
  - destruct (snapshot m !! k) as [y|] eqn:Hy; [|apply map_lookup_filter_None; by left].
    apply map_lookup_filter_Some. split; [done|]. cbn [fst]. by rewrite Hx.
Qed.

Lemma makeDelta_wf m init inc : delta_wf (filteredDelta (makeDelta equal m).1 init inc).
Proof.
  unfold filteredDelta. destruct init; intros k x; cbn [Upserts Removals]; rewrite !filteredMap_lookup; [|by rewrite lookup_empty].
  intros Hu%sel_Some. rewrite ad_upserts_lookup in Hu. rewrite ad_removals_lookup. destruct (LoadAll m !! k); [done|]. by destruct (decide _).
Qed.
(** What applying the difference does at one key. *)
Lemma delta_lookup m inc (view : gmap K V) k : apply_delta (filteredDelta (makeDelta equal m).1 true inc) view !! k =
  match LoadAll m !! k with
  | Some x => match (if decide (snapshot m !! k = Some x) then None else sel inc k (Some x)) with Some y => Some y | None => view !! k end
  | None => match sel inc k (snapshot m !! k) with Some _ => None | None => view !! k end
  end.
Proof.
  rewrite apply_delta_lookup. unfold filteredDelta. cbn [Upserts Removals]. rewrite !filteredMap_lookup, ad_upserts_lookup, ad_removals_lookup.
  destruct (LoadAll m !! k) as [x|]; cbn [sel]; [by destruct (decide (snapshot m !! k = Some x))|].
  destruct (decide (snapshot m !! k = None)) as [->|]; cbn [sel]; by destruct (sel inc k (snapshot m !! k)).
Qed.

(** What links a subscriber's copy to the map, with [refused] the keys that have had,
    since it subscribed, a value that its filter does not select: what is in the copy and
    the channel is selected; it has what the filter selects of the last snapshot, and,
    under keys that were not refused, nothing else; and a subscriber that is not marked
    has missed nothing since. *)
Definition sub_ok (m : Map K V M) (sb : subscription K V) (view : gmap K V) (refused : gset K) : Prop :=
  initialized sb = true /\ match chan sb with Some d => delta_wf d | None => True end /\
  (forall k v, pending sb view !! k = Some v -> included sb k v = true) /\
  (forall k v, snapshot m !! k = Some v -> included sb k v = true -> pending sb view !! k = Some v) /\
  (forall k, k ∉ refused -> pending sb view !! k = sel (include sb) k (snapshot m !! k)) /\
  (forall k v, k ∉ refused -> LoadAll m !! k = Some v -> included sb k v = false -> sel (include sb) k (snapshot m !! k) = None) /\
  (forall k, k ∈ refused -> exists v, included sb k v = false) /\
  (mark sb = false ->
     (forall k v, LoadAll m !! k = Some v -> included sb k v = true -> snapshot m !! k = Some v) /\
     (forall k, k ∉ refused -> sel (include sb) k (LoadAll m !! k) = sel (include sb) k (snapshot m !! k))).

Definition subs_ok (m : Map K V M) (views : gmap nat (gmap K V)) (refused : nat -> gset K) : Prop :=
  forall id sb, subscribers m !! id = Some sb -> exists view, views !! id = Some view /\ sub_ok m sb view (refused id).
Definition inv (m : Map K V M) (views : gmap nat (gmap K V)) (refused : nat -> gset K) : Prop :=
  (armed m = false -> forall id sb, subscribers m !! id = Some sb -> mark sb = false) /\ subs_ok m views refused.

Lemma pending_send ad sb view : initialized sb = true -> delta_wf (filteredDelta ad true (include sb)) ->
  pending (send ad (set_mark false sb)) view = apply_delta (filteredDelta ad true (include sb)) (pending sb view).
Proof.
  intros Hin Hwf. unfold send, set_mark. cbn [initialized include mark chan]. rewrite Hin. cbn [andb].
  set (fd := filteredDelta ad true (include sb)) in *. unfold pending at 2.
  destruct (Nat.eqb (size (Upserts fd)) 0 && Nat.eqb (size (Removals fd)) 0) eqn:E.
  - apply andb_true_iff in E as [E1%empty_of_size E2%empty_of_size]. unfold pending. cbn [chan].
    assert (Hid : forall v : gmap K V, apply_delta fd v = v).
    { intros v. apply map_eq. intros k. rewrite apply_delta_lookup, E1, E2, !lookup_empty. done. }
    destruct (chan sb); by rewrite Hid.
  - unfold pending. cbn [chan]. destruct (chan sb) as [p|]; [by apply merge_apply|done].
Qed.
Lemma send_fields ad (sb : subscription K V) : let sb' := send ad (set_mark false sb) in
  include sb' = include sb /\ initialized sb' = true /\ mark sb' = false.
Proof. unfold send, set_mark. cbn [include initialized mark chan]. by destruct (_ && _). Qed.
Lemma send_wf ad (sb : subscription K V) : match chan sb with Some d => delta_wf d | None => True end -> delta_wf (filteredDelta ad (initialized sb) (include sb)) ->
  match chan (send ad (set_mark false sb)) with Some d => delta_wf d | None => True end.
Proof.
  intros Hc Hd. unfold send, set_mark. cbn [include initialized mark chan]. destruct (_ && _); cbn [chan]; [done|]. destruct (chan sb); [by apply merge_wf|done].
Qed.
Lemma sel_included (sb : subscription K V) k v : sel (include sb) k (Some v) = if included sb k v then Some v else None.
Proof. done. Qed.

Lemma notify_sub m sb view r : sub_ok m sb view r ->
  sub_ok (notify equal m) (if mark sb then send (makeDelta equal m).1 (set_mark false sb) else sb) view r.
Proof.
  intros (Hin & Hwf & Hsnd & Hcmp & Hex & Hold & Href & Hm).
  unfold sub_ok. change (snapshot (notify equal m)) with (LoadAll m). change (LoadAll (notify equal m)) with (LoadAll m).
  destruct (mark sb) eqn:Hmark.
  2:{ destruct (Hm eq_refl) as [M1 M2]. split_and!; try done; [eauto| |].
      - intros k Hk. rewrite Hex, M2 by done. done.
      - intros k v Hk Hv Hf. rewrite Hv, sel_included, Hf. done. }
  set (ad := (makeDelta equal m).1). destruct (send_fields ad sb) as (E1 & E2 & E3). set (sb' := send ad (set_mark false sb)) in *.
  assert (Ei : forall k v, included sb' k v = included sb k v) by (intros; unfold included; by rewrite E1).
  setoid_rewrite Ei. rewrite E1.
  assert (Hp : forall k, pending sb' view !! k = apply_delta (filteredDelta ad true (include sb)) (pending sb view) !! k).
  { intros k. unfold sb'. rewrite pending_send; [done|done|apply makeDelta_wf]. }
  setoid_rewrite Hp. unfold ad. setoid_rewrite delta_lookup. split_and!; try done.
  - apply send_wf; [done|]. rewrite Hin. apply makeDelta_wf.
  - intros k v. destruct (LoadAll m !! k) as [x|].
    + destruct (decide (snapshot m !! k = Some x)); [by apply Hsnd|]. rewrite sel_included. destruct (included sb k x) eqn:Ex; [|by apply Hsnd].
      by intros [= <-].
    + destruct (sel (include sb) k (snapshot m !! k)); [done|]. apply Hsnd.
  - intros k v Hv Hf. rewrite Hv. destruct (decide _); [by apply Hcmp|]. by rewrite sel_included, Hf.
  - intros k Hk. destruct (LoadAll m !! k) as [x|] eqn:Hx.
    + rewrite sel_included. destruct (decide (snapshot m !! k = Some x)) as [Hs|].
      * by rewrite Hex, Hs, sel_included.
      * destruct (included sb k x) eqn:Ef; [done|]. rewrite Hex by done. by eapply Hold.
    + destruct (sel (include sb) k (snapshot m !! k)) eqn:Es; [done|]. by rewrite Hex.
  - intros k v Hk Hv Hf. by rewrite Hv, sel_included, Hf.
Qed.

Lemma notify_marks m id sb : subscribers (notify equal m) !! id = Some sb -> mark sb = false.
Proof.
  assert (Hsub : subscribers (notify equal m) = (fun sb => if mark sb then send (makeDelta equal m).1 (set_mark false sb) else sb) <$> subscribers m) by reflexivity.
  rewrite Hsub, lookup_fmap. intros (sb0 & _ & ->)%fmap_Some. destruct (mark sb0) eqn:E; [|exact E].
  unfold send, set_mark. cbn [include initialized mark chan]. by destruct (_ && _).
Qed.

Lemma notify_inv m views r : subs_ok m views r -> inv (notify equal m) views r.
Proof.
  intros Hs. split; [intros _; apply notify_marks|].
  assert (Hsub : subscribers (notify equal m) = (fun sb => if mark sb then send (makeDelta equal m).1 (set_mark false sb) else sb) <$> subscribers m) by reflexivity.
  intros id sb. rewrite Hsub, lookup_fmap. intros (sb0 & H0 & ->)%fmap_Some.
  destruct (Hs _ _ H0) as (view & Hv & Hok). exists view. split; [done|]. by apply notify_sub.
Qed.

(** The keys that get, by an operation on the map, a value that a subscriber's filter does
    not select. *)
Definition refuse (m : Map K V M) (k : K) (f : option V -> ComputeOp V) (refused : nat -> gset K) (id : nat) : gset K :=
  match effective equal (Load m k) (f (Load m k)), subscribers m !! id with
  | UpdateOp v, Some sb => if included sb k v then refused id else {[ k ]} ∪ refused id
  | _, _ => refused id
  end.

(** A change at one key: the subscriber is marked if its filter selects the value that is
    stored or deleted, and a value that is stored and not selected makes the key refused. *)
Lemma change_sub m m' k x sb view r r' : snapshot m' = snapshot m -> (forall k', k' <> k -> LoadAll m' !! k' = LoadAll m !! k') ->
  (LoadAll m' !! k = Some x /\ r' = (if included sb k x then r else {[ k ]} ∪ r)) \/ (LoadAll m' !! k = None /\ LoadAll m !! k = Some x /\ r' = r) ->
  sub_ok m sb view r -> sub_ok m' (if negb (mark sb) && included sb k x then set_mark true sb else sb) view r'.
Proof.
  intros Hsn Hne Hcase (Hin & Hwf & Hsnd & Hcmp & Hex & Hold & Href & Hm).
  assert (Hr : r ⊆ r') by (destruct Hcase as [[_ ->]|(_ & _ & ->)]; [destruct (included sb k x); set_solver|done]).
  assert (Hfix : (mark sb = false -> included sb k x = true -> False) ->
    (forall k v, LoadAll m' !! k = Some v -> included sb k v = true -> mark sb = false -> snapshot m' !! k = Some v) /\
    (forall k, k ∉ r' -> mark sb = false -> sel (include sb) k (LoadAll m' !! k) = sel (include sb) k (snapshot m' !! k))).
  { intros Hnm. rewrite Hsn. split.
    - intros k' v Hv Hi Hmk. destruct (Hm Hmk) as [M1 _]. destruct (decide (k' = k)) as [->|Hk]; [|apply M1; [by rewrite <- Hne|done]].
      exfalso. destruct Hcase as [[E _]|(E & _)]; rewrite E in Hv; [|done]. injection Hv as <-. by apply Hnm.
    - intros k' Hk' Hmk. destruct (Hm Hmk) as [_ M2]. rewrite <- M2 by set_solver. destruct (decide (k' = k)) as [->|Hk]; [|by rewrite Hne].
      destruct (included sb k x) eqn:Ei; [by destruct (Hnm Hmk)|].
      destruct Hcase as [[_ ->]|(-> & -> & _)]; [set_solver|]. by rewrite sel_included, Ei. }
  assert (Hold' : forall k' v, k' ∉ r' -> LoadAll m' !! k' = Some v -> included sb k' v = false -> sel (include sb) k' (snapshot m' !! k') = None).
  { intros k' v Hk' Hv Hi. rewrite Hsn. destruct (decide (k' = k)) as [->|Hk]; [|eapply Hold; [set_solver|by rewrite <- Hne|done]].
    destruct Hcase as [[E ->]|(E & _)]; rewrite E in Hv; [|done]. injection Hv as <-. rewrite Hi in Hk'. set_solver. }
  assert (Href' : forall k', k' ∈ r' -> exists v, included sb k' v = false).
  { intros k'. destruct Hcase as [[_ ->]|(_ & _ & ->)]; [|apply Href]. destruct (included sb k x) eqn:Ei; [apply Href|].
    intros [->%elem_of_singleton|Hk]%elem_of_union; [eauto|by apply Href]. }
  destruct (negb (mark sb) && included sb k x) eqn:Emk; unfold sub_ok; cbn [initialized include chan mark set_mark];
    change (pending (set_mark true sb) view) with (pending sb view); change (included (set_mark true sb)) with (included sb);
    rewrite ?Hsn in *; split_and!; try done; try (intros k' Hk'; apply Hex; set_solver).
  intros Hmk. destruct Hfix as [F1 F2]; [|split; eauto]. intros _ Hi. by rewrite Hmk, Hi in Emk.
Qed.
Lemma same_sub m m' sb view r : snapshot m' = snapshot m -> LoadAll m' = LoadAll m -> sub_ok m sb view r -> sub_ok m' sb view r.
Proof. intros E1 E2 Hok. unfold sub_ok. by rewrite E1, E2. Qed.

Lemma Compute_inv m views r k f : inv m views r -> inv (Compute equal m k f) views (refuse m k f r).
Proof.
  intros [Ha Hs].
  assert (Hne : forall k', k' <> k -> LoadAll (Compute equal m k f) !! k' = LoadAll m !! k').
  { intros k' Hk. rewrite !LoadAll_lookup, Compute_lookup by exact equal_eq. by rewrite decide_False by congruence. }
  assert (Heq : LoadAll (Compute equal m k f) !! k = computed (Load m k) (effective equal (Load m k) (f (Load m k)))).
  { rewrite LoadAll_lookup, Compute_lookup, effective_computed by exact equal_eq. by rewrite decide_True. }
  assert (Hsame : computed (Load m k) (effective equal (Load m k) (f (Load m k))) = Load m k -> LoadAll (Compute equal m k f) = LoadAll m).
  { intros E. apply map_eq. intros k'. destruct (decide (k' = k)) as [->|]; [by rewrite Heq, E, LoadAll_lookup|by apply Hne]. }
  assert (Hsn : snapshot (Compute equal m k f) = snapshot m) by (unfold Compute; by repeat case_match).
  pose proof (LoadAll_lookup m k) as Hl. set (m1 := Compute equal m k f) in *. unfold refuse.
  unfold Compute in m1. unfold Load in *. destruct (effective equal (x_Load (m_map m) k) (f (x_Load (m_map m) k))) as [|fv|] eqn:Hop.
  - split; [exact Ha|]. intros id sb Hsb. destruct (Hs id sb Hsb) as (view & Hv & Hok). exists view. split; [exact Hv|]. by apply (same_sub m); auto.
  - split; [discriminate|]. intros id sb. unfold m1 at 1. cbn [subscribers]. unfold markSubscribers. rewrite lookup_fmap.
    intros (sb0 & H0 & ->)%fmap_Some. destruct (Hs id sb0 H0) as (view & Hv & Hok). exists view. split; [exact Hv|]. rewrite H0.
    apply (change_sub m m1 k fv sb0 view (r id)); auto.
  - destruct (x_Load (m_map m) k) as [v|] eqn:Hlv.
    + split; [discriminate|]. intros id sb. unfold m1 at 1. cbn [subscribers]. unfold markSubscribers. rewrite lookup_fmap.
      intros (sb0 & H0 & ->)%fmap_Some. destruct (Hs id sb0 H0) as (view & Hv & Hok). exists view. split; [exact Hv|].
      apply (change_sub m m1 k v sb0 view (r id)); auto.
    + split; [discriminate|]. intros id sb Hsb. destruct (Hs id sb Hsb) as (view & Hv & Hok). exists view. split; [exact Hv|]. by apply (same_sub m); auto.
Qed.

Lemma sub_ok_new m id inc : let m0 := mkMap (m_map m) (snapshot m) (<[id := mkSub inc false true None]> (subscribers m)) false in
  sub_ok (notify equal m0) (send (makeDelta equal m0).1 (set_mark false (mkSub inc false true None))) ∅ ∅.
Proof.
  intros m0. set (sb := send _ _). assert (Hp : forall k, pending sb ∅ !! k = sel inc k (LoadAll m0 !! k)).
  { intros k. unfold pending, sb, send, set_mark. cbn [chan initialized include andb]. rewrite apply_delta_lookup. unfold filteredDelta. cbn [Upserts Removals].
    rewrite !filteredMap_lookup, !lookup_empty. cbn [sel]. change (ad_snapshot (makeDelta equal m0).1) with (LoadAll m0).
    by destruct (sel inc k (LoadAll m0 !! k)). }
  unfold sub_ok. change (snapshot (notify equal m0)) with (LoadAll m0). change (LoadAll (notify equal m0)) with (LoadAll m0).
  change (include sb) with inc. change (included sb) with (included (mkSub inc false true None)).
  split_and!; try done.
  - exact (makeDelta_wf m0 false inc).
  - intros k v. rewrite Hp. intros Hv. pose proof (sel_Some _ _ _ _ Hv) as E. rewrite E in Hv. unfold sel in Hv. unfold included. cbn [include].
    by destruct (match inc with None => true | Some f => f k v end).
  - intros k v Hv Hi. rewrite Hp, Hv. unfold sel. unfold included in Hi. cbn [include] in Hi. by rewrite Hi.
  - intros k v _ Hv Hi. rewrite Hv. unfold sel. unfold included in Hi. cbn [include] in Hi. by rewrite Hi.
Qed.
Lemma Subscribe_inv m views r id inc : subs_ok m views r -> subscribers m !! id = None ->
  inv (Subscribe equal m id inc) (<[id := ∅]> views) (fun j => if decide (j = id) then ∅ else r j).
Proof.
  intros Hs Hid. unfold Subscribe. set (m0 := mkMap _ _ _ _). split; [intros _; apply notify_marks|].
  assert (Hsub : subscribers (notify equal m0) = (fun sb => if mark sb then send (makeDelta equal m0).1 (set_mark false sb) else sb) <$> <[id := mkSub inc false true None]> (subscribers m)) by reflexivity.
  intros id' sb. rewrite Hsub, lookup_fmap. intros (sb0 & H0 & ->)%fmap_Some.
  destruct (decide (id' = id)) as [->|Hne].
  - rewrite lookup_insert_eq in H0. injection H0 as <-. exists ∅. rewrite lookup_insert_eq. split; [done|]. apply (sub_ok_new m id inc).
  - rewrite lookup_insert_ne in H0 by congruence. rewrite lookup_insert_ne by congruence.
    destruct (Hs _ _ H0) as (view & Hv & Hok). exists view. split; [done|]. by apply (notify_sub m0).
Qed.

(** What can happen to a cache and the copies its subscribers keep, one event
    after another, and the keys that are refused to each subscriber. *)
Inductive cache_event :=
  | EvCompute (k : K) (f : option V -> ComputeOp V)
  | EvFire
  | EvSubscribe (id : nat) (inc : option (K -> V -> bool))
  | EvReceive (id : nat)
  | EvUnsubscribe (id : nat).

Record cache_state := mkCache { cs_map : Map K V M; cs_views : gmap nat (gmap K V); cs_refused : nat -> gset K }.
Definition cache_step (x : cache_state) (e : cache_event) : cache_state :=
  let '(mkCache m views refused) := x in
  match e with
  | EvCompute k f => mkCache (Compute equal m k f) views (refuse m k f refused)
  | EvFire => mkCache (if armed m then fire equal m else m) views refused
  | EvSubscribe id inc =>
      match subscribers m !! id with
      | Some _ => x
      | None => mkCache (Subscribe equal m id inc) (<[id := ∅]> views) (fun j => if decide (j = id) then ∅ else refused j)
      end
  | EvReceive id =>
      let '(d, m') := receive m id in
      mkCache m' (match d with Some d => alter (apply_delta d) id views | None => views end) refused
  | EvUnsubscribe id => mkCache (unsubscribe m id) views refused
  end.
Definition new_cache : cache_state := mkCache NewMap ∅ (fun _ => ∅).
Definition cache_inv (x : cache_state) : Prop := inv (cs_map x) (cs_views x) (cs_refused x).

Lemma receive_inv m views r id : inv m views r ->
  let '(d, m') := receive m id in
  inv m' (match d with Some d => alter (apply_delta d) id views | None => views end) r.
Proof.
  intros [Ha Hs]. unfold receive. destruct (subscribers m !! id) as [sb|] eqn:Hid; [|by split].
  split; cbn [armed subscribers].
  - intros Harm id' sb'. rewrite lookup_insert_Some. intros [[<- <-]|[_ H']]; [cbn [mark]|]; eapply Ha; eauto.
  - intros id' sb'. cbn [subscribers]. rewrite lookup_insert_Some. intros [[<- <-]|[Hne H']].
    + destruct (Hs _ _ Hid) as (view & Hv & (Hin & Hwf & Hok)). exists (pending sb view). split.
      * unfold pending. destruct (chan sb); [by rewrite lookup_alter_eq, Hv|done].
      * split; [exact Hin|]. split; [done|exact Hok].
    + destruct (Hs _ _ H') as (view & Hv & Hok). exists view. split; [|exact Hok].
      destruct (chan sb); [by rewrite lookup_alter_ne|done].
Qed.

Lemma cache_step_inv x e : cache_inv x -> cache_inv (cache_step x e).
Proof.
  destruct x as [m views r]. intros Hinv. unfold cache_inv in *. destruct e as [k f| |id f|id|id]; cbn [cache_step cs_map cs_views cs_refused] in *.
  - by apply Compute_inv.
  - destruct (armed m); [|done]. destruct Hinv as [_ Hs]. apply (notify_inv (disarm m)). exact Hs.
  - destruct (subscribers m !! id) eqn:E; [done|]. destruct Hinv as [_ Hs]. by apply Subscribe_inv.
  - pose proof (receive_inv m views r id Hinv) as Hr. by destruct (receive m id).
  - destruct Hinv as [Ha Hs]. split; cbn [unsubscribe armed subscribers].
    + intros Harm id' sb. rewrite lookup_delete_Some. intros [_ Hsb]. by eapply Ha.
    + intros id' sb. cbn [unsubscribe subscribers]. rewrite lookup_delete_Some. intros [_ Hsb]. by apply Hs.
Qed.
Lemma cache_run_inv events : cache_inv (foldl cache_step new_cache events).
Proof.
  apply (foldl_inv cache_inv); [intros; by apply cache_step_inv|]. split; [done|]. intros id sb Hsb. done.
Qed.

(** C36. Subscribers of the map, when notifications do not overlap with modifications and the
    comparison of values that the map was given tells whether they are equal: after any events, once the timer is not pending any more, what a subscriber has, together
    with the delta in its channel, contains the current value of every key whose value
    its filter selects, and only values that the filter selects; under a key that has had
    no value since the subscription that the filter does not select, it is exactly what the
    filter selects of the map.  (A value that leaves the filter is not removed from the
    subscriber's view, and that entry may stay there.)  A subscriber without a filter, or
    with one that depends on the key only, has exactly what is selected of the map. *)
Theorem subscribers_see_map (events : list cache_event) :
  let '(mkCache m views refused) := foldl cache_step new_cache events in
  armed m = false -> forall id sb, subscribers m !! id = Some sb ->
  exists view, views !! id = Some view /\
  (forall k v, LoadAll m !! k = Some v -> included sb k v = true -> pending sb view !! k = Some v) /\
  (forall k v, pending sb view !! k = Some v -> included sb k v = true) /\
  (forall k, k ∉ refused id -> pending sb view !! k = filteredMap (LoadAll m) (include sb) !! k) /\
  ((forall k v w, included sb k v = included sb k w) -> pending sb view = filteredMap (LoadAll m) (include sb)).
Proof.
  pose proof (cache_run_inv events) as Hi. destruct (foldl cache_step new_cache events) as [m views r]. destruct Hi as [Ha Hs].
  cbn [cs_map cs_views cs_refused] in *. intros Harm id sb Hsb. destruct (Hs _ _ Hsb) as (view & Hv & (_ & _ & Hsnd & Hcmp & Hex & _ & Href & Hm)).
  destruct (Hm (Ha Harm _ _ Hsb)) as [M1 M2]. exists view.
  assert (Hx : forall k, k ∉ r id -> pending sb view !! k = filteredMap (LoadAll m) (include sb) !! k).
  { intros k Hk. by rewrite filteredMap_lookup, M2, Hex. }
  split_and!; [done|eauto|done|done|]. intros Hkey. apply map_eq. intros k. destruct (decide (k ∈ r id)) as [Hk|Hk]; [|by apply Hx].
  destruct (Href _ Hk) as [w Hw]. assert (Hno : forall v, included sb k v = false) by (intros v; by rewrite (Hkey k v w)).
  rewrite filteredMap_lookup. destruct (pending sb view !! k) as [v|] eqn:Hpv; [apply Hsnd in Hpv; by rewrite Hno in Hpv|].
  destruct (LoadAll m !! k) as [v|]; [|done]. by rewrite sel_included, Hno.
Qed.
End Views.
End Spec.

(** A store that happens between [makeDelta] and the round of sends of the same
    [notify] is lost for the subscriber: its mark, set by the store or still set,
    is consumed by the send of the older delta, and the next notification, which
    has the change, finds no mark.  The timer is not pending any more, and the
    subscriber, having read everything, does not have the entry. *)
Theorem notification_lost :
  let m0 : Map nat Z (gmap nat Z) := Subscribe Z.eqb NewMap 0 None in
  let m1 := Store Z.eqb m0 1%nat 10 in
  let '(ad, m2) := makeDelta Z.eqb (disarm m1) in
  let m3 := Store Z.eqb m2 2%nat 20 in
  let m4 := send_marked ad m3 in
  let m5 := fire Z.eqb m4 in
  armed m5 = false /\ LoadAll m5 !! 2%nat = Some 20 /\
  exists sb, subscribers m5 !! 0%nat = Some sb /\ mark sb = false /\ pending sb ∅ !! 1%nat = Some 10 /\ pending sb ∅ !! 2%nat = None.
Proof. vm_compute. split_and!; try done. eexists. split_and!; reflexivity. Qed.

Lemma Zeqb_eq (a b : Z) : Z.eqb a b = true <-> a = b.
Proof. apply Z.eqb_eq. Qed.

Lemma cache_operations_witness :
  let m : Map nat Z (gmap nat Z) := Store Z.eqb NewMap 1%nat 10 in
  Load (Store Z.eqb m 2%nat 20) 1%nat = (if decide (2%nat = 1%nat) then Some 20 else Load m 1%nat).
Proof. intros m. apply (cache_operations Z.eqb Zeqb_eq m 2%nat 20 0 1%nat (fun _ _ => true) 0). Defined.

Lemma Merge_correct_witness :
  let a : Delta nat Z := mkDelta {[1%nat := 10]} ∅ in
  let b : Delta nat Z := mkDelta {[2%nat := 20]} {[1%nat := 10]} in
  delta_wf (Merge a b) /\ apply_delta (Merge a b) ∅ = apply_delta b (apply_delta a ∅).
Proof.
  intros a b. apply (Merge_correct a b ∅).
  - intros k x _. reflexivity.
  - intros k x Hk. destruct (decide (k = 1%nat)) as [->|Hne]; [vm_compute in Hk; discriminate|]. cbn [b Removals].
    by rewrite lookup_singleton_ne by congruence.
Defined.

(** A filter on values: the subscriber wants even numbers.  The entry that becomes odd
    stays in its view, also when it is deleted afterwards. *)
Definition even_only : option (nat -> Z -> bool) := Some (fun _ v => Z.even v).
Lemma subscribers_see_map_witness :
  let events := [EvSubscribe 0 even_only; EvCompute 1%nat (fun _ => UpdateOp 10); EvFire; EvReceive 0;
                 EvCompute 2%nat (fun _ => UpdateOp 21); EvCompute 3%nat (fun _ => UpdateOp 30); EvFire] in
  let '(mkCache m views refused) := foldl (cache_step (M := gmap nat Z) Z.eqb) new_cache events in
  armed m = false -> forall id sb, subscribers m !! id = Some sb ->
  exists view, views !! id = Some view /\
  (forall k v, LoadAll m !! k = Some v -> included sb k v = true -> pending sb view !! k = Some v) /\
  (forall k v, pending sb view !! k = Some v -> included sb k v = true) /\
  (forall k, k ∉ refused id -> pending sb view !! k = filteredMap (LoadAll m) (include sb) !! k) /\
  ((forall k v w, included sb k v = included sb k w) -> pending sb view = filteredMap (LoadAll m) (include sb)).
Proof. intros events. apply (subscribers_see_map (M := gmap nat Z) Z.eqb Zeqb_eq events). Defined.
Lemma value_leaves_filter :
  let events := [EvSubscribe 0 even_only; EvCompute 1%nat (fun _ => UpdateOp 10); EvFire; EvReceive 0;
                 EvCompute 1%nat (fun _ => UpdateOp 11); EvFire; EvReceive 0; EvCompute 1%nat (fun _ => DeleteOp); EvFire; EvReceive 0] in
  let '(mkCache m views refused) := foldl (cache_step (M := gmap nat Z) Z.eqb) new_cache events in
  armed m = false /\ LoadAll m !! 1%nat = None /\ (views !! 0%nat ≫= fun view => view !! 1%nat) = Some 10.
Proof. vm_compute. done. Qed.
