(* ===== verification/ManagerState.v ===== *)
(** * The traffic-manager's state (src/cmd/traffic/cmd/manager/state: state.go,
      intercept.go, session.go, consumption.go, data.go; managerutil/data.go; service.go)

    The manager keeps client sessions, agent sessions and intercepts.  Intercepts
    are objects that the map holds by pointer: an update stores a clone, and a
    finalizer is appended to an object in place, so the state has a store of
    objects and a map from ids to pointers.  Go maps ranged over are visited in
    the order of [map_to_list]; no theorem depends on it.  The cluster is outside
    of the model: whether an agent could be ensured is an argument.  The map of
    inactivated pods, which the mutating webhook owns, is part of the state. *)
From S2P Require Import Prelude NetIP GoStrings PortTypes Matcher Icept AgentConfig.
From Stdlib Require Import Ascii.

(** ** Agents (managerutil/data.go, state/data.go) *)

Record Mechanism := mkMech { mech_Name : string; mech_Product : string; mech_Version : string }.
Record AgentInfo := mkAgent {
  ag_Name : string;
  ag_Namespace : string;
  ag_PodUid : string;
  ag_PodName : string;
  ag_PodIp : string;
  ag_Product : string;
  ag_Version : string;
  ag_Mechanisms : list Mechanism
}.

Definition mechanismsAreTheSame (a b : list Mechanism) : bool :=
  if negb (Nat.eqb (length a) (length b)) || Nat.eqb (length a) 0 then false
  else
    let goldenMap : gmap string Mechanism := foldl (fun m x => <[mech_Name x := x]> m) ∅ a in
    if negb (Nat.eqb (size goldenMap) (length a)) then false
    else forallb (fun x => match goldenMap !! mech_Name x with
                           | None => false
                           | Some g => bool_decide (mech_Product g = mech_Product x) && bool_decide (mech_Version g = mech_Version x)
                           end) b.

Definition AgentsAreCompatible (agents : list AgentInfo) : bool :=
  match agents with
  | [] => false
  | golden :: rest =>
      forallb (fun a => bool_decide (ag_Name golden = ag_Name a) && bool_decide (ag_Product golden = ag_Product a) &&
                        bool_decide (ag_Version golden = ag_Version a) &&
                        mechanismsAreTheSame (ag_Mechanisms golden) (ag_Mechanisms a)) rest
  end.

Definition agentHasMechanism (agent : AgentInfo) (mechName : string) : bool :=
  existsb (fun m => bool_decide (mech_Name m = mechName)) (ag_Mechanisms agent).

(** ** Sessions (session.go, consumption.go) *)

Record AgentSession := mkAS { as_info : AgentInfo; as_timestamp : Z }.
Record ClientSession := mkCSn {
  cl_Namespace : string;
  cl_timestamp : Z;
  cl_fromClient : Z;      (* bytes, uint64 *)
  cl_toClient : Z
}.

(** [Mark] with no concurrent mark: the new time stamp and whether it was set. *)
Definition Mark (timestamp lastMarked : Z) : Z * bool :=
  if timestamp <? lastMarked then (lastMarked, true) else (timestamp, false).
Definition adjustMark (timestamp diff : Z) : Z := timestamp + diff.

(** [AddTimeSpent]: connect duration and last update. *)
Definition ClientRemainTick : Z := 5 * 1000000000.
Definition ConnectionStaleTimeout : Z := ClientRemainTick * 6.
Definition AddTimeSpent (connectDuration lastUpdate now : Z) : Z * Z :=
  let timeSpent := now - lastUpdate in
  (connectDuration + (if ConnectionStaleTimeout <? timeSpent then ClientRemainTick else timeSpent), now).

(** ** The state *)

Inductive finalizer := RemoveChild (id : string) | RestoreAppContainer.

Record MIntercept := mkMI {
  mi_info : InterceptInfo;
  mi_Message : string;
  mi_Session : string;
  mi_PodIp : string;
  mi_PodName : string;
  mi_finalizers : list finalizer
}.
Definition mi_Disposition (x : MIntercept) : Disposition := ii_Disposition (mi_info x).
Definition mi_Spec (x : MIntercept) : InterceptSpec := ii_Spec (mi_info x).
Definition set_disposition (d : Disposition) (msg : string) (x : MIntercept) : MIntercept :=
  mkMI (mkInfo (ii_Id (mi_info x)) d (ii_Spec (mi_info x))) msg (mi_Session x) (mi_PodIp x) (mi_PodName x) (mi_finalizers x).
Definition set_pod (ip name : string) (x : MIntercept) : MIntercept :=
  mkMI (mi_info x) (mi_Message x) (mi_Session x) ip name (mi_finalizers x).
Definition addFinalizer (f : finalizer) (x : MIntercept) : MIntercept :=
  mkMI (mi_info x) (mi_Message x) (mi_Session x) (mi_PodIp x) (mi_PodName x) (mi_finalizers x ++ [f]).

Record State := mkState {
  objs : gmap nat MIntercept;          (* the intercept objects by pointer *)
  fresh_ptr : nat;
  intercepts : gmap string nat;
  agents : gmap string AgentSession;
  clients : gmap string ClientSession;
  inactive : list string;              (* the pod UIDs in the mutator's map of inactivated pods *)
  restored : list string;              (* intercepts whose app container was restored *)
  finalized : list (string * option string);  (* calls of the two finalizer hooks *)
  ingress : Z;
  egress : Z
}.

Definition set_objs (o : gmap nat MIntercept) (n : nat) (i : gmap string nat) (s : State) : State :=
  mkState o n i (agents s) (clients s) (inactive s) (restored s) (finalized s) (ingress s) (egress s).
Definition set_agents (a : gmap string AgentSession) (ina : list string) (s : State) : State :=
  mkState (objs s) (fresh_ptr s) (intercepts s) a (clients s) ina (restored s) (finalized s) (ingress s) (egress s).
Definition set_clients (c : gmap string ClientSession) (s : State) : State :=
  mkState (objs s) (fresh_ptr s) (intercepts s) (agents s) c (inactive s) (restored s) (finalized s) (ingress s) (egress s).

(** mutator/watcher.go: pods are inactivated by the manager and by the webhook's
    evictions, and forgotten by a garbage collection when they are old ([old]). *)
Definition Inactivate (uid : string) (s : State) : State :=
  set_agents (agents s) (if bool_decide (uid ∈ inactive s) then inactive s else uid :: inactive s) s.
Definition IsInactive (uid : string) (s : State) : bool := bool_decide (uid ∈ inactive s).
Definition GC (old : string -> bool) (s : State) : State :=
  set_agents (agents s) (filter (fun uid => old uid = false) (inactive s)) s.

(** [s.intercepts.Load(id)]: the object stored under an id. *)
Definition GetIntercept (s : State) (id : string) : option MIntercept := p ← intercepts s !! id; objs s !! p.
(** A new object. *)
Definition alloc (x : MIntercept) (s : State) : nat * State :=
  (fresh_ptr s, set_objs (<[fresh_ptr s := x]> (objs s)) (S (fresh_ptr s)) (intercepts s) s).
Definition store_ptr (id : string) (p : nat) (s : State) : State :=
  set_objs (objs s) (fresh_ptr s) (<[id := p]> (intercepts s)) s.
Definition mutate (p : nat) (f : MIntercept -> MIntercept) (s : State) : State :=
  set_objs (alter f p (objs s)) (fresh_ptr s) (intercepts s) s.

Definition EachAgent (s : State) : list AgentInfo :=
  filter (fun a => ag_PodUid a ∉ inactive s) (as_info <$> (map_to_list (agents s)).*2).

(** [checkAgentsForIntercept]: the disposition that the agents impose,
    [UNSPECIFIED] when they are fine. *)
Definition check_agents (spec : InterceptSpec) (all : list AgentInfo) : Disposition :=
  match filter (fun a => ag_Name a = sp_Agent spec /\ ag_Namespace a = sp_Namespace spec) all with
  | [] => NO_AGENT
  | a :: rest =>
      if negb (AgentsAreCompatible (a :: rest)) then NO_AGENT
      else if negb (agentHasMechanism a (sp_Mechanism spec)) then NO_MECHANISM
      else UNSPECIFIED
  end.
Definition checkAgentsForIntercept (s : State) (x : MIntercept) : Disposition :=
  match mi_Disposition x with
  | NO_CLIENT | NO_PORTS | BAD_ARGS | REMOVED => mi_Disposition x
  | _ => check_agents (mi_Spec x) (EachAgent s)
  end.
(** The message that goes with it; a kept disposition keeps its message. *)
Definition check_message (spec : InterceptSpec) (all : list AgentInfo) : string :=
  match filter (fun a => ag_Name a = sp_Agent spec /\ ag_Namespace a = sp_Namespace spec) all with
  | [] => "No agent found for " +:+ Quote (sp_Agent spec)
  | a :: rest =>
      if negb (AgentsAreCompatible (a :: rest)) then "Agents for " +:+ Quote (sp_Agent spec) +:+ " are not consistent"
      else if negb (agentHasMechanism a (sp_Mechanism spec))
      then "Agents for " +:+ Quote (sp_Agent spec) +:+ " do not have mechanism " +:+ Quote (sp_Mechanism spec)
      else ""
  end%string.
Definition agents_message (s : State) (x : MIntercept) : string :=
  match mi_Disposition x with
  | NO_CLIENT | NO_PORTS | BAD_ARGS | REMOVED => mi_Message x
  | _ => check_message (mi_Spec x) (EachAgent s)
  end.

(** ** Updating and removing *)

(** [UpdateIntercept] when no other update interferes: the compare-and-swap
    succeeds at the first try and a clone is stored. *)
Definition UpdateIntercept (id : string) (apply : MIntercept -> MIntercept) (s : State) : State :=
  match GetIntercept s id with
  | None => s
  | Some cur => let '(p, s) := alloc (apply cur) s in store_ptr id p s
  end.

Definition delete_id (id : string) (s : State) : State := set_objs (objs s) (fresh_ptr s) (delete id (intercepts s)) s.

(** One finalizer; [restoreAppContainer] changes the agent's configuration. *)
Definition run_finalizer (id : string) (s : State) (f : finalizer) : State :=
  match f with
  | RemoveChild child => delete_id child s
  | RestoreAppContainer =>
      mkState (objs s) (fresh_ptr s) (intercepts s) (agents s) (clients s) (inactive s) (restored s ++ [id]) (finalized s) (ingress s) (egress s)
  end.
(** [terminate] runs the finalizers, the last added first. *)
Definition RemoveIntercept (id : string) (s : State) : State :=
  match GetIntercept s id with
  | None => s
  | Some x => foldl (run_finalizer id) (delete_id id s) (reverse (mi_finalizers x))
  end.

(** ** Sessions: agents *)

Definition ids (s : State) : list string := (map_to_list (intercepts s)).*1.

(** The body of [consolidateAgentSessionIntercepts] for one intercept. *)
Definition consolidate_one (agent : AgentInfo) (s : State) (id : string) : State :=
  match GetIntercept s id with
  | None => s
  | Some x =>
      if bool_decide (mi_Disposition x = REMOVED) || negb (bool_decide (ag_PodIp agent = mi_PodIp x)) then s
      else
        let errCode := checkAgentsForIntercept s x in
        if negb (bool_decide (errCode = UNSPECIFIED))
        then UpdateIntercept id (fun x' => set_disposition errCode (agents_message s x) (set_pod "" "" x')) s
        else UpdateIntercept id (fun x' => set_disposition WAITING (mi_Message x') (set_pod "" "" x')) s
  end.
Definition consolidateAgentSessionIntercepts (agent : AgentInfo) (s : State) : State :=
  foldl (consolidate_one agent) s (ids s).

Definition removeAgentSession (id : string) (s : State) : State :=
  match agents s !! id with
  | None => s
  | Some a =>
      let s := Inactivate (ag_PodUid (as_info a)) (set_agents (delete id (agents s)) (inactive s) s) in
      consolidateAgentSessionIntercepts (as_info a) s
  end.

(** The body of [RestoreAgent]'s iteration. *)
Definition agent_arrived_one (s : State) (id : string) : State :=
  match GetIntercept s id with
  | None => s
  | Some x =>
      if bool_decide (mi_Disposition x = REMOVED) then s
      else
        let errCode := checkAgentsForIntercept s x in
        if negb (bool_decide (errCode = UNSPECIFIED))
        then UpdateIntercept id (set_disposition errCode (agents_message s x)) s
        else if bool_decide (mi_Disposition x = NO_AGENT) then UpdateIntercept id (set_disposition WAITING "") s
        else s
  end.
Definition RestoreAgent (id : string) (agent : AgentInfo) (now : Z) (s : State) : State * bool :=
  match agents s !! id with
  | Some _ => (s, false)
  | None =>
      let s := set_agents (<[id := mkAS agent now]> (agents s)) (inactive s) s in
      (foldl agent_arrived_one s (ids s), true)
  end.

Definition AgentSessionIDPrefix : string := "agent:".
Inductive agent_result := InactivatedPod | Registered | AlreadyRegistered.
Definition AddAgent (agent : AgentInfo) (now : Z) (s : State) : State * agent_result :=
  if IsInactive (ag_PodUid agent) s then (s, InactivatedPod)
  else let '(s, new) := RestoreAgent (AgentSessionIDPrefix +:+ ag_PodUid agent) agent now s in
       (s, if new then Registered else AlreadyRegistered).

(** ** Sessions: clients *)

(** [addClient] panics when the id is taken. *)
Definition addClient (id : string) (ns : string) (now : Z) (s : State) : option State :=
  match clients s !! id with
  | Some _ => None
  | None => Some (set_clients (<[id := mkCSn ns now 0 0]> (clients s)) s)
  end.

(** The workload part of an intercept id, after the colon that every id has. *)
Definition after_colon (id : string) : string :=
  match IndexByte id ":" with Some n => str_drop (S n) id | None => id end.

Definition gc_one (session : string) (s : State) (id : string) : State :=
  match GetIntercept s id with
  | None => s
  | Some x =>
      if bool_decide (mi_Disposition x = REMOVED) then s
      else if bool_decide (mi_Session x = session) then
        RemoveIntercept id
          (mkState (objs s) (fresh_ptr s) (intercepts s) (agents s) (clients s) (inactive s) (restored s)
             (finalized s ++ [(session, Some (after_colon id))]) (ingress s) (egress s))
      else s
  end.
Definition gcClientSessionIntercepts (session : string) (s : State) : State := foldl (gc_one session) s (ids s).

Definition removeClientSession (id : string) (cs : ClientSession) (s : State) : State :=
  let s := gcClientSessionIntercepts id s in
  mkState (objs s) (fresh_ptr s) (intercepts s) (agents s) (clients s) (inactive s) (restored s)
    (finalized s ++ [(id, None)]) (u64 (ingress s + cl_fromClient cs)) (u64 (egress s + cl_toClient cs)).

Definition delete_client (id : string) (s : State) : State := set_clients (delete id (clients s)) s.

Definition RemoveSession (id : string) (s : State) : State :=
  match clients s !! id with
  | Some cs => removeClientSession id cs (delete_client id s)
  | None => removeAgentSession id s
  end.

Definition expire_client (moment : Z) (s : State) (id : string) : State :=
  match clients s !! id with
  | Some cs => if cl_timestamp cs <? moment then removeClientSession id cs (delete_client id s) else s
  | None => s
  end.
Definition expire_agent (moment : Z) (s : State) (id : string) : State :=
  match agents s !! id with
  | Some a => if as_timestamp a <? moment then removeAgentSession id s else s
  | None => s
  end.
Definition expireSessions (clientMoment agentMoment : Z) (s : State) : State :=
  let s := foldl (expire_client clientMoment) s (map_to_list (clients s)).*1 in
  foldl (expire_agent agentMoment) s (map_to_list (agents s)).*1.

(** Sessions in namespaces that are not managed any more are removed. *)
Definition prune_client (nss : list string) (s : State) (id : string) : State :=
  match clients s !! id with
  | Some cs => if bool_decide (cl_Namespace cs ∈ nss) then s else removeClientSession id cs (delete_client id s)
  | None => s
  end.
Definition pruneSessions (nss : list string) (s : State) : State :=
  let s := foldl (prune_client nss) s (map_to_list (clients s)).*1 in
  foldl (fun s id => removeAgentSession id s) s
    (map_to_list (filter (fun kv : string * AgentSession => ag_Namespace (as_info kv.2) ∉ nss) (agents s))).*1.

(** One tick of [runSessionGCLoop], at [now] by the wall clock: after a sleep of the
    computer all marks are moved by its length; the new value of [lastTick]. *)
Definition tickInterval : Z := 5 * 1000000000.
Definition agentSessionTTL : Z := 70 * 1000000000.
Definition adjust_client (diff : Z) (c : ClientSession) : ClientSession :=
  mkCSn (cl_Namespace c) (adjustMark (cl_timestamp c) diff) (cl_fromClient c) (cl_toClient c).
Definition adjust_agent (diff : Z) (a : AgentSession) : AgentSession := mkAS (as_info a) (adjustMark (as_timestamp a) diff).
Definition gc_tick (now lastTick clientTTL : Z) (s : State) : State * Z :=
  let diff := now - lastTick - tickInterval in
  let s := if tickInterval <? diff
           then set_clients (adjust_client diff <$> clients s) (set_agents (adjust_agent diff <$> agents s) (inactive s) s)
           else s in
  (expireSessions (now - clientTTL) (now - agentSessionTTL) s, now).

(** ** Intercepts *)

Inductive manager_error := SessionNotFound (id : string) | NoAgentEnsured (why : string) | AlreadyExists (name : string) | InvalidPodPort (p : string).

Definition NewInterceptInfo (id session : string) (spec : InterceptSpec) : MIntercept :=
  mkMI (mkInfo id WAITING spec) "Waiting for Agent approval" session "" "" [].

Definition addIntercept (id session : string) (spec : InterceptSpec) (s : State) : State * Go manager_error nat :=
  let obj := NewInterceptInfo id session spec in
  let errCode := checkAgentsForIntercept s obj in
  let obj := if negb (bool_decide (errCode = UNSPECIFIED)) then set_disposition errCode (agents_message s obj) obj else obj in
  match GetIntercept s id with
  | Some old =>
      if negb (bool_decide (mi_Disposition old = REMOVED)) then (s, Fail (AlreadyExists (sp_Name spec)))
      else let '(p, s) := alloc obj s in (store_ptr id p s, Ret p)
  | None => let '(p, s) := alloc obj s in (store_ptr id p s, Ret p)
  end.

(** Go's conversion [string(b)] of a byte: the UTF-8 encoding of that code point. *)
Definition string_of_byte (n : Z) : string :=
  if n <? 128 then String (ascii_of_N (Z.to_N n)) EmptyString
  else String (ascii_of_N (Z.to_N (192 + n / 64))) (String (ascii_of_N (Z.to_N (128 + n mod 64))) EmptyString).

Definition intercept_id (session name : string) : string := session +:+ ":" +:+ name.

Section Children.
Context `{K8sApi}.

(** The specification of the child intercept for one pod port. *)
Definition child_spec (spec : InterceptSpec) (pm : string) (from : Z) (to : PortAndProto) : InterceptSpec :=
  mkSpec (sp_Name spec +:+ "-" +:+ itoa from +:+ "-" +:+ ToLower (string_of_byte (pp_Proto to)))
    ("child " +:+ pm +:+ " " +:+ sp_Name spec +:+ " " +:+ sp_Client spec)
    (sp_Agent spec) (sp_Namespace spec) (sp_ServiceName spec) (sp_ContainerName spec)
    (PortIdentifier_String (PortMapping_From pm)) from (string_of_byte (pp_Proto to))
    (sp_Replace spec) (sp_Wiretap spec) (sp_NoDefaultPort spec) (sp_HeaderFilters spec) (sp_PathFilters spec)
    [] (sp_Mechanism spec) (pp_Port (ToAsNumeric pm)) "" "" 0.

(** The loop over the pod ports; [parent] is the parent's object. *)
Fixpoint add_children (session : string) (spec : InterceptSpec) (parent : nat) (pms : list string) (s : State) : State * option manager_error :=
  match pms with
  | [] => (s, None)
  | pm :: pms =>
      match FromNumberAndTo pm with
      | Ret (from, to) =>
          let pmSpec := child_spec spec pm from to in
          let pmId := intercept_id session (sp_Name pmSpec) in
          match addIntercept pmId session pmSpec s with
          | (s, Ret _) => add_children session spec parent pms (mutate parent (addFinalizer (RemoveChild pmId)) s)
          | (s, Fail e) => (s, Some e)
          | (s, Panic) => (s, None)
          end
      | _ => (s, Some (InvalidPodPort pm))
      end
  end.

(** [AddIntercept]; [ensured] is the error of finding the workload and ensuring
    its agent, if any. *)
Definition AddIntercept (session : string) (spec : InterceptSpec) (ensured : option string) (s : State) : State * Go manager_error nat :=
  match clients s !! session with
  | None => (s, Fail (SessionNotFound session))
  | Some _ =>
      match ensured with
      | Some e => (s, Fail (NoAgentEnsured e))
      | None =>
          let id := intercept_id session (sp_Name spec) in
          match addIntercept id session spec s with
          | (s, Ret p) =>
              match add_children session spec p (sp_PodPorts spec) s with
              | (s, Some e) => (s, Fail e)
              | (s, None) =>
                  (match intercepts s !! id with
                   | Some q => mutate q (addFinalizer RestoreAppContainer) s
                   | None => s
                   end, Ret p)
              end
          | (s, Fail e) => (s, Fail e)
          | (s, Panic) => (s, Panic)
          end
      end
  end.

(** The same call step by step, as it runs next to other requests: nothing is locked between
    the check of the client and the last finalizer, and the call may wait long for an agent
    after that check.  A call that has passed the check and has an agent is to store the
    intercept ([CrStore]), a child for the next pod port ([CrChildren]), or the finalizer of a
    child that is stored ([CrLink]).  No step looks at the client again. *)
Inductive creation :=
  | CrStore (session : string) (spec : InterceptSpec)
  | CrChildren (session : string) (spec : InterceptSpec) (parent : nat) (pms : list string)
  | CrLink (session : string) (spec : InterceptSpec) (parent : nat) (child : string) (pms : list string).
Definition create_step (c : creation) (s : State) : State * option creation :=
  match c with
  | CrStore session spec =>
      match addIntercept (intercept_id session (sp_Name spec)) session spec s with
      | (s, Ret p) => (s, Some (CrChildren session spec p (sp_PodPorts spec)))
      | (s, _) => (s, None)
      end
  | CrChildren session spec p [] =>
      (match intercepts s !! intercept_id session (sp_Name spec) with
       | Some q => mutate q (addFinalizer RestoreAppContainer) s
       | None => s
       end, None)
  | CrChildren session spec p (pm :: pms) =>
      match FromNumberAndTo pm with
      | Ret (from, to) =>
          let pmSpec := child_spec spec pm from to in
          let pmId := intercept_id session (sp_Name pmSpec) in
          match addIntercept pmId session pmSpec s with
          | (s, Ret _) => (s, Some (CrLink session spec p pmId pms))
          | (s, _) => (s, None)
          end
      | _ => (s, None)
      end
  | CrLink session spec p pmId pms => (mutate p (addFinalizer (RemoveChild pmId)) s, Some (CrChildren session spec p pms))
  end.
End Children.

Definition IsChildIntercept (spec : InterceptSpec) : bool := HasPrefix (sp_Client spec) "child ".
Definition GetParentIntercept (s : State) (session : string) (spec : InterceptSpec) : option MIntercept :=
  match Split " " (sp_Client spec) with
  | [_; _; name; _] => GetIntercept s (intercept_id session name)
  | _ => None
  end.

(** [service.ReviewIntercept]: what an agent's review changes. *)
Definition review (agent : AgentInfo) (inactive_pods : list string) (d : Disposition) (msg podIp : string) (x : MIntercept) : MIntercept :=
  if negb (bool_decide (sp_Namespace (mi_Spec x) = ag_Namespace agent)) || negb (bool_decide (sp_Agent (mi_Spec x) = ag_Name agent)) then x
  else if bool_decide (ag_PodUid agent ∈ inactive_pods) then x
  else if bool_decide (mi_Disposition x = NO_AGENT) || bool_decide (mi_Disposition x = WAITING)
  then set_disposition d msg (set_pod podIp (ag_PodName agent) x)
  else x.
(** [GetAgent]. *)
Definition GetAgent (s : State) (id : string) : option AgentInfo :=
  a ← agents s !! id; if IsInactive (ag_PodUid (as_info a)) s then None else Some (as_info a).
(** The second component tells whether the intercept was found. *)
Definition ReviewIntercept (session ceptID : string) (d : Disposition) (msg podIp : string) (s : State) : State * bool :=
  match GetAgent s session with
  | None => (s, true)
  | Some agent =>
      (UpdateIntercept ceptID (review agent (inactive s) d msg podIp) s, bool_decide (is_Some (GetIntercept s ceptID)))
  end.

(** ** Restoring sessions after a restart of the manager, queries (state.go) *)

Definition RestoreAgents (l : list AgentInfo) (now : Z) (s : State) : State :=
  foldl (fun s a =>
    let id := AgentSessionIDPrefix +:+ ag_PodUid a in
    match agents s !! id with
    | Some _ => s
    | None => set_agents (<[id := mkAS a now]> (agents s)) (inactive s) s
    end) s l.

(** The first loop of [RestoreIntercepts]: the new state and the children that
    were stored.  [workload] tells whether the workload of a spec was found. *)
Definition restore_one (workload : InterceptSpec -> bool) (acc : State * list MIntercept) (i : MIntercept) : State * list MIntercept :=
  let '(s, children) := acc in
  let id := ii_Id (mi_info i) in
  match intercepts s !! id with
  | Some _ => acc
  | None =>
      let bare := mkMI (mi_info i) (mi_Message i) (mi_Session i) (mi_PodIp i) (mi_PodName i) [] in
      let child := IsChildIntercept (mi_Spec i) in
      let x := if negb child && workload (mi_Spec i) then addFinalizer RestoreAppContainer bare else bare in
      let '(p, s) := alloc x s in
      (store_ptr id p s, if child then children ++ [x] else children)
  end.
(** The second loop: the finalizer of a child goes to its parent's object. *)
Definition link_child (s : State) (child : MIntercept) : State :=
  match Split " " (sp_Client (mi_Spec child)) with
  | [_; _; name; _] =>
      match intercepts s !! intercept_id (mi_Session child) name with
      | Some p => mutate p (addFinalizer (RemoveChild (ii_Id (mi_info child)))) s
      | None => s
      end
  | _ => s
  end.
Definition RestoreIntercepts (workload : InterceptSpec -> bool) (l : list MIntercept) (s : State) : State :=
  let '(s, children) := foldl (restore_one workload) (s, []) l in foldl link_child s children.

Definition HasAgent (s : State) (name namespace : string) : bool :=
  existsb (fun a => bool_decide (ag_Name a = name) && bool_decide (ag_Namespace a = namespace)) (EachAgent s).

Definition interceptNeedsDialWatcherOnAllPods (spec : InterceptSpec) : bool :=
  if IsChildIntercept spec || sp_Replace spec then false
  else if bool_decide (sp_Mechanism spec = "http") then true
  else Nat.ltb 0 (length (sp_HeaderFilters spec)) || Nat.ltb 0 (length (sp_PathFilters spec)).

Definition intercepted_by (podIP agentName namespace client : string) (x : MIntercept) : bool :=
  bool_decide (mi_Session x = client) && bool_decide (mi_Disposition x = ACTIVE) &&
  bool_decide (sp_Namespace (mi_Spec x) = namespace) && bool_decide (sp_Agent (mi_Spec x) = agentName) &&
  (bool_decide (mi_PodIp x = podIP) || interceptNeedsDialWatcherOnAllPods (mi_Spec x)).
(** [podIP] is the agent's address as text. *)
Definition IsInterceptedBy (s : State) (podIP agentName namespace client : string) : bool :=
  existsb (fun id => match GetIntercept s id with Some x => intercepted_by podIP agentName namespace client x | None => false end) (ids s).
