(* ===== verification/ManagerPrepare.v ===== *)
(** * Preparing an intercept (src/cmd/traffic/cmd/manager/state/intercept.go)

    [PrepareIntercept] resolves the ports of a requested intercept against the
    agent configuration of its workload and refuses what would conflict with a
    live intercept.  The cluster is outside of the model: the lookup of a
    workload, the agent configuration that [ensureAgent] returns and the cluster
    IPs of a service are arguments. *)
From S2P Require Import Prelude NetIP GoStrings PortTypes Matcher Icept AgentConfig ManagerState.
From Stdlib Require Import Ascii.

Inductive consistency_error := FindFailed (e : find_error) | TargetTwice (p : PortAndProto) | ContainerPortTwice (p : PortAndProto).

Section PortConsistency.
Context `{K8sApi}.

(** The loop over the pod ports: targets and container ports used so far. *)
Fixpoint pod_ports_loop (find : string -> Go find_error Intercept) (to_string : PortAndProto -> string)
    (pms : list string) (targets ports : list PortAndProto) : Go consistency_error (list string * list PortAndProto) :=
  match pms with
  | [] => Ret ([], ports)
  | pm :: pms =>
      match find (PortMapping_From pm) with
      | Ret pmIc =>
          let to := ToAsNumeric pm in
          if bool_decide (to ∈ targets) then Fail (TargetTwice to)
          else
            let from := {| pp_Port := ic_ContainerPort pmIc; pp_Proto := ic_Protocol pmIc |} in
            if bool_decide (from ∈ ports) then Fail (ContainerPortTwice from)
            else match pod_ports_loop find to_string pms (to :: targets) (from :: ports) with
                 | Ret (out, ports) => Ret ((itoa (ic_ContainerPort pmIc) +:+ ":" +:+ to_string to) :: out, ports)
                 | Fail e => Fail e
                 | Panic => Panic
                 end
      | Fail e => Fail (FindFailed e)
      | Panic => Panic
      end
  end.

(** [checkPortConsistency]: the resolved pod ports and the container ports; [cn]
    is the container when only its ports count. *)
Definition checkPortConsistency (ac : Sidecar) (cn : option Container) (ic : Intercept) (spec : InterceptSpec) :
    Go consistency_error (list string * list PortAndProto) :=
  let cp := {| pp_Port := ic_ContainerPort ic; pp_Proto := ic_Protocol ic |} in
  match sp_PodPorts spec with
  | [] => Ret ([], [cp])
  | pms =>
      let find pi := match cn with
                     | Some cn => FindContainerIntercept cn pi
                     | None => snd <$> sc_FindIntercept ac (sp_ServiceName spec) (sp_ContainerName spec) pi
                     end in
      pod_ports_loop find PortAndProto_String pms [{| pp_Port := u16 (sp_TargetPort spec); pp_Proto := ic_Protocol ic |}] [cp]
  end.
End PortConsistency.

Section ConflictCheck.
Context {RX : GoRegexp}.

(** The client of an intercept is gone or has not been heard of for [timeout]. *)
Definition client_inactive (s : State) (session : string) (now timeout : Z) : bool :=
  match clients s !! session with None => true | Some c => timeout <? now - cl_timestamp c end.

Definition port_text (o : InterceptSpec) : string :=
  if bool_decide (sp_ServiceUid o = "") then "container " +:+ sp_ContainerName o +:+ ", port " +:+ itoa (sp_ContainerPort o)
  else if 0 <? sp_ServicePort o then "port " +:+ itoa (sp_ServicePort o)
  else "port " +:+ Quote (sp_ServicePortName o).

Definition override_message (client : string) (spec o : InterceptSpec) : string :=
  "conflict with intercept " +:+ client +:+ ":" +:+ sp_Name spec +:+ " on " +:+ port_text o +:+ " created by client " +:+
  Quote (sp_Client spec) +:+ ": " +:+ ExplainConflict spec o.

(** The stored intercepts that may conflict, in iteration order. *)
Definition potential_conflicts (agentName namespace : string) (ports : list PortAndProto) (s : State) : list MIntercept :=
  filter (fun x => PotentialConflict agentName namespace ports (mi_info x) = true) (omap (GetIntercept s) (ids s)).

(** [checkInterceptConflicts]: the id of the intercept that blocks, or the state
    with the overridden intercepts of inactive clients marked. *)
Definition checkInterceptConflicts (agentName namespace client : string) (ports : list PortAndProto) (spec : InterceptSpec)
    (now timeout : Z) (s : State) : State * option string :=
  if sp_Wiretap spec then (s, None)
  else
    let conflicting := filter (fun x => IsInConflict spec (mi_Spec x) = true) (potential_conflicts agentName namespace ports s) in
    match list_find (fun x => client_inactive s (mi_Session x) now timeout = false) conflicting with
    | Some (_, x) => (s, Some (ii_Id (mi_info x)))
    | None =>
        (foldl (fun s x => UpdateIntercept (ii_Id (mi_info x))
                             (set_disposition AGENT_ERROR (override_message client spec (mi_Spec x))) s) s conflicting, None)
    end.

End ConflictCheck.

(** ** The answer to the client *)

Record PreparedIntercept := mkPI {
  pi_Namespace : string;
  pi_WorkloadKind : string;
  pi_ContainerName : string;
  pi_ServiceName : string;
  pi_ServiceUid : string;
  pi_ServicePortName : string;
  pi_ServicePort : Z;
  pi_Protocol : string;
  pi_ContainerPort : Z;
  pi_PodPorts : list string;
  pi_ServiceIps : list string
}.

Inductive prepare_error :=
  | KindNotEnabled (kind : string) | WorkloadNotFound | WorkloadError (e : string) | EnsureFailed (e : string)
  | GlobalNotAllowed | Inconsistent (e : consistency_error) | NotFound (e : find_error) | ConflictWith (id : string).

(** What the cluster answers for a workload of one kind. *)
Inductive workload_lookup := WlFound | WlNotFound | WlError (e : string).

(** [client.Mark] on the session object. *)
Definition mark_client (id : string) (now : Z) (s : State) : State :=
  match clients s !! id with
  | Some c => set_clients (<[id := mkCSn (cl_Namespace c) (Mark (cl_timestamp c) now).1 (cl_fromClient c) (cl_toClient c)]> (clients s)) s
  | None => s
  end.

Section Prepare.
Context `{K8sApi} {RX : GoRegexp}.

(** The first port goes to the intercept itself, the others to the pod ports. *)
Definition prepareAllContainerPorts (cn : Container) (pi : PreparedIntercept) : PreparedIntercept :=
  match PortUniqueIntercepts cn with
  | [] => pi
  | i0 :: rest =>
      mkPI (pi_Namespace pi) (pi_WorkloadKind pi) (pi_ContainerName pi) (pi_ServiceName pi) (pi_ServiceUid pi) (pi_ServicePortName pi)
        (pi_ServicePort pi) (Proto_String (ic_Protocol i0)) (ic_ContainerPort i0)
        ((fun ic => itoa (ic_ContainerPort ic) +:+ ":" +:+ itoa (ic_ContainerPort ic) +:+ "/" +:+ Proto_String (ic_Protocol ic)) <$> rest)
        (pi_ServiceIps pi)
  end.

Definition checkInterceptConsistency (allowGlobal : bool) (ac : Sidecar) (cn : option Container) (spec : InterceptSpec) (client : string)
    (now timeout : Z) (pi : PreparedIntercept) (s : State) : State * Go prepare_error PreparedIntercept :=
  if negb allowGlobal && (sp_Replace spec || negb (sp_Wiretap spec || bool_decide (sp_Mechanism spec = "http")))
  then (s, Fail GlobalNotAllowed)
  else
    let found := match cn with
                 | Some c => (fun ic => (c, ic)) <$> FindContainerIntercept c (sp_PortIdentifier spec)
                 | None => sc_FindIntercept ac (pi_ServiceName pi) (pi_ContainerName pi) (sp_PortIdentifier spec)
                 end in
    match found with
    | Panic => (s, Panic)
    | Fail e => (s, Fail (NotFound e))
    | Ret (c, ic) =>
        match checkPortConsistency ac cn ic spec with
        | Panic => (s, Panic)
        | Fail e => (s, Fail (Inconsistent e))
        | Ret (podPorts, containerPorts) =>
            match checkInterceptConflicts (sc_AgentName ac) (sc_Namespace ac) client containerPorts spec now timeout s with
            | (s, Some id) => (s, Fail (ConflictWith id))
            | (s, None) =>
                (s, Ret (mkPI (pi_Namespace pi) (pi_WorkloadKind pi) (cn_Name c) (ic_ServiceName ic) (ic_ServiceUID ic)
                           (ic_ServicePortName ic) (ic_ServicePort ic) (Proto_String (ic_Protocol ic)) (ic_ContainerPort ic)
                           podPorts (pi_ServiceIps pi)))
            end
        end
    end.

(** The lookup of the workload: with its kind when the request names one, else
    with the enabled kinds in order until one is found. *)
Fixpoint find_kind (get : string -> workload_lookup) (kinds : list string) : Go prepare_error string :=
  match kinds with
  | [] => Fail WorkloadNotFound
  | k :: kinds =>
      match get k with
      | WlFound => Ret k
      | WlNotFound => find_kind get kinds
      | WlError e => Fail (WorkloadError e)
      end
  end.
Definition get_workload (enabled : list string) (get : string -> workload_lookup) (kind : string) : Go prepare_error string :=
  if bool_decide (kind = "") then find_kind get enabled
  else if negb (bool_decide (kind ∈ enabled)) then Fail (KindNotEnabled kind)
  else match get kind with WlFound => Ret kind | WlNotFound => Fail WorkloadNotFound | WlError e => Fail (WorkloadError e) end.

(** The resolution of the ports, by the branches on [NoDefaultPort]. *)
Definition prepare_ports (allowGlobal : bool) (ac : Sidecar) (spec : InterceptSpec) (client : string) (now timeout : Z) (s : State) :
    State * Go prepare_error PreparedIntercept :=
  let pi := mkPI (sc_Namespace ac) (sc_WorkloadKind ac) (sp_ContainerName spec) (sp_ServiceName spec) "" "" 0 "" 0 [] [] in
  if sp_NoDefaultPort spec then
    match FindContainer ac spec with
    | Panic => (s, Panic)
    | Fail e => (s, Fail (NotFound e))
    | Ret cn =>
        let pi := mkPI (pi_Namespace pi) (pi_WorkloadKind pi) (cn_Name cn) "" "" "" 0 "" 0 [] [] in
        if bool_decide (sp_PortIdentifier spec = "all") then (s, Ret (prepareAllContainerPorts cn pi))
        else if negb (bool_decide (sp_PortIdentifier spec = ""))
        then checkInterceptConsistency allowGlobal ac (Some cn) spec client now timeout pi s
        else (s, Ret pi)
    end
  else checkInterceptConsistency allowGlobal ac None spec client now timeout pi s.

(** [PrepareIntercept] for the client session [client]; the client is marked as
    active at the end. *)
Definition PrepareIntercept (enabled : list string) (get : string -> workload_lookup) (ensure : string -> Go string Sidecar)
    (serviceIPs : string -> list string) (allowGlobal : bool) (kind : string) (spec : InterceptSpec) (client : string)
    (now timeout : Z) (s : State) : State * Go prepare_error PreparedIntercept :=
  match get_workload enabled get kind with
  | Panic => (s, Panic)
  | Fail e => (s, Fail e)
  | Ret k =>
      match ensure k with
      | Panic => (s, Panic)
      | Fail e => (s, Fail (EnsureFailed e))
      | Ret ac =>
          match prepare_ports allowGlobal ac spec client now timeout s with
          | (s, Ret pi) =>
              (mark_client client now s,
               Ret (mkPI (pi_Namespace pi) (pi_WorkloadKind pi) (pi_ContainerName pi) (pi_ServiceName pi) (pi_ServiceUid pi)
                      (pi_ServicePortName pi) (pi_ServicePort pi) (pi_Protocol pi) (pi_ContainerPort pi) (pi_PodPorts pi)
                      (if bool_decide (pi_ServiceName pi = "") then [] else serviceIPs (pi_ServiceName pi))))
          | r => r
          end
      end
  end.
End Prepare.
