(* ===== verification/ManagerSpec.v ===== *)
(** * Theorems on the traffic-manager's state

    The invariant of the store of intercepts, the effect of arriving and leaving
    agents and clients on every intercept, and what a removed intercept takes with
    it.  The steps of the manager are a relation; its invariants are shown by
    induction on the steps. *)
From S2P Require Import Prelude NetIP GoStrings PortTypes PortSpec Matcher Icept AgentConfig ManagerState.
From Stdlib Require Import Ascii.

(** ** The store *)

(** Every id points to an allocated object that carries that id. *)
Definition wf (s : State) : Prop :=
  forall id p, intercepts s !! id = Some p -> (p < fresh_ptr s)%nat /\ exists x, objs s !! p = Some x /\ ii_Id (mi_info x) = id.

Lemma wf_inj s id id' p : wf s -> intercepts s !! id = Some p -> intercepts s !! id' = Some p -> id = id'.
Proof. intros W H H'. destruct (W _ _ H) as (_ & x & Hx & <-), (W _ _ H') as (_ & y & Hy & <-). congruence. Qed.

Lemma GetIntercept_Some s id x :
  GetIntercept s id = Some x <-> exists p, intercepts s !! id = Some p /\ objs s !! p = Some x.
Proof. unfold GetIntercept. destruct (intercepts s !! id) eqn:E; simpl; naive_solver. Qed.

Lemma GetIntercept_None s id : wf s -> GetIntercept s id = None <-> intercepts s !! id = None.
Proof.
  intros W. unfold GetIntercept. destruct (intercepts s !! id) as [p|] eqn:E; simpl; [|done].
  destruct (W _ _ E) as (_ & x & -> & _). done.
Qed.

Lemma GetIntercept_id s id x : wf s -> GetIntercept s id = Some x -> ii_Id (mi_info x) = id.
Proof. intros W (p & Hp & Hx)%GetIntercept_Some. destruct (W _ _ Hp) as (_ & y & Hy & <-). congruence. Qed.

(** Two states with the same store agree on every intercept. *)
Lemma GetIntercept_frame s t : objs s = objs t -> intercepts s = intercepts t -> forall id, GetIntercept s id = GetIntercept t id.
Proof. intros H1 H2 id. unfold GetIntercept. by rewrite H1, H2. Qed.
Lemma wf_frame s t : objs s = objs t -> fresh_ptr s = fresh_ptr t -> intercepts s = intercepts t -> wf s -> wf t.
Proof. unfold wf. intros <- <- <-. done. Qed.

(** A new object under an id. *)
Lemma store_new s id x i : wf s ->
  GetIntercept (store_ptr id (alloc x s).1 (alloc x s).2) i = if decide (i = id) then Some x else GetIntercept s i.
Proof.
  intros W. unfold GetIntercept, alloc, store_ptr. cbn [set_objs intercepts objs fst snd].
  destruct (decide (i = id)) as [->|N].
  - rewrite lookup_insert_eq. cbn. by rewrite lookup_insert_eq.
  - rewrite lookup_insert_ne by done. destruct (intercepts s !! i) as [p|] eqn:E; [|done]. cbn.
    destruct (W _ _ E) as [Hp _]. rewrite lookup_insert_ne by lia. done.
Qed.
Lemma wf_store_new s id x : wf s -> ii_Id (mi_info x) = id -> wf (store_ptr id (alloc x s).1 (alloc x s).2).
Proof.
  intros W Hid i p. unfold alloc, store_ptr. cbn [set_objs intercepts objs fst snd fresh_ptr]. intros H.
  destruct (decide (i = id)) as [->|N].
  - rewrite lookup_insert_eq in H. injection H as <-. split; [lia|]. rewrite lookup_insert_eq. eauto.
  - rewrite lookup_insert_ne in H by done. destruct (W _ _ H) as (Hp & y & Hy & Hi). split; [lia|].
    rewrite lookup_insert_ne by lia. eauto.
Qed.

Lemma UpdateIntercept_eq s id f :
  UpdateIntercept id f s = match GetIntercept s id with
                           | None => s
                           | Some x => store_ptr id (alloc (f x) s).1 (alloc (f x) s).2
                           end.
Proof. reflexivity. Qed.

Lemma GetIntercept_Update s id f i : wf s ->
  GetIntercept (UpdateIntercept id f s) i = if decide (i = id) then f <$> GetIntercept s i else GetIntercept s i.
Proof.
  intros W. rewrite UpdateIntercept_eq. destruct (GetIntercept s id) as [x|] eqn:E.
  - rewrite store_new by done. destruct (decide (i = id)) as [->|]; [by rewrite E|done].
  - destruct (decide (i = id)) as [->|]; [by rewrite E|done].
Qed.
(** The updates of the manager keep the id. *)
Definition keeps_id (f : MIntercept -> MIntercept) : Prop := forall x, ii_Id (mi_info (f x)) = ii_Id (mi_info x).
Lemma wf_Update s id f : wf s -> keeps_id f -> wf (UpdateIntercept id f s).
Proof.
  intros W K. rewrite UpdateIntercept_eq. destruct (GetIntercept s id) as [x|] eqn:E; [|done].
  apply wf_store_new; [done|]. rewrite K. by apply GetIntercept_id with s.
Qed.

Lemma GetIntercept_mutate s id p f i : wf s -> intercepts s !! id = Some p ->
  GetIntercept (mutate p f s) i = if decide (i = id) then f <$> GetIntercept s i else GetIntercept s i.
Proof.
  intros W Hp. unfold GetIntercept, mutate. cbn [set_objs intercepts objs].
  destruct (decide (i = id)) as [->|N].
  - rewrite Hp. cbn. by rewrite lookup_alter_eq.
  - destruct (intercepts s !! i) as [q|] eqn:E; [|done]. cbn.
    rewrite lookup_alter_ne; [done|]. intros ->. apply N. by apply (wf_inj s i id q).
Qed.
Lemma wf_mutate s p f : wf s -> keeps_id f -> wf (mutate p f s).
Proof.
  intros W K i q. unfold mutate. cbn [set_objs intercepts objs fresh_ptr]. intros H.
  destruct (W _ _ H) as (Hq & x & Hx & Hi). split; [done|]. destruct (decide (q = p)) as [->|N].
  - rewrite lookup_alter_eq, Hx. exists (f x). by rewrite K.
  - rewrite lookup_alter_ne by done. eauto.
Qed.
Lemma GetIntercept_delete s id i : GetIntercept (delete_id id s) i = if decide (i = id) then None else GetIntercept s i.
Proof.
  unfold GetIntercept, delete_id. cbn [set_objs intercepts objs]. destruct (decide (i = id)) as [->|N].
  - by rewrite lookup_delete_eq.
  - by rewrite lookup_delete_ne by done.
Qed.
Lemma wf_delete s id : wf s -> wf (delete_id id s).
Proof. intros W i p. unfold delete_id. cbn [set_objs intercepts objs fresh_ptr]. intros [_ H]%lookup_delete_Some. by apply W. Qed.

Lemma elem_of_ids s id : id ∈ ids s <-> is_Some (intercepts s !! id).
Proof.
  unfold ids. rewrite list_elem_of_fmap. split.
  - intros ([k p] & -> & H). apply elem_of_map_to_list in H. eauto.
  - intros [p H]. exists (id, p). by rewrite elem_of_map_to_list.
Qed.
Lemma NoDup_ids s : NoDup (ids s).
Proof. apply NoDup_fst_map_to_list. Qed.
#[export] Hint Resolve wf_Update wf_mutate wf_delete : tele.

(** ** Iterating over the intercepts *)

(** A loop whose body maps its own intercept maps every intercept that it visits. *)
Lemma foldl_pointwise (step : State -> string -> State) (g : MIntercept -> MIntercept) (P : State -> Prop) :
  (forall s id, P s -> P (step s id)) ->
  (forall s id i, P s -> GetIntercept (step s id) i = if decide (i = id) then g <$> GetIntercept s i else GetIntercept s i) ->
  forall l s, NoDup l -> P s ->
  P (foldl step s l) /\
  forall i, GetIntercept (foldl step s l) i = if decide (i ∈ l) then g <$> GetIntercept s i else GetIntercept s i.
Proof.
  intros HP Hstep l. induction l as [|id l IH]; intros s HN Hs.
  - split; [done|]. intros i. cbn [foldl]. rewrite decide_False by apply not_elem_of_nil. done.
  - apply NoDup_cons in HN as [Hn HN]. cbn [foldl]. destruct (IH (step s id) HN (HP _ _ Hs)) as [H1 H2]. split; [done|].
    intros i. rewrite H2, Hstep by done. destruct (decide (i = id)) as [->|N].
    + rewrite (decide_False (P := id ∈ l)), decide_True; [done|apply list_elem_of_here|done].
    + destruct (decide (i ∈ l)) as [Hi|Hi].
      * by rewrite decide_True by (by apply list_elem_of_further).
      * rewrite decide_False; [done|]. rewrite elem_of_cons. naive_solver.
Qed.

Lemma foldl_ids (step : State -> string -> State) g P s :
  (forall s id, P s -> P (step s id)) ->
  (forall s id i, P s -> GetIntercept (step s id) i = if decide (i = id) then g <$> GetIntercept s i else GetIntercept s i) ->
  P s -> P (foldl step s (ids s)) /\ forall i, GetIntercept (foldl step s (ids s)) i = g <$> GetIntercept s i.
Proof.
  intros HP Hstep Hs. destruct (foldl_pointwise step g P HP Hstep (ids s) s (NoDup_ids s) Hs) as [H1 H2].
  split; [done|]. intros i. rewrite H2. case_decide as D; [done|].
  unfold GetIntercept. rewrite elem_of_ids in D. apply eq_None_not_Some in D. by rewrite D.
Qed.

(** What a leaving agent does to one intercept, given the agents that remain. *)
Definition consolidated (agent : AgentInfo) (all : list AgentInfo) (x : MIntercept) : MIntercept :=
  if bool_decide (mi_Disposition x = REMOVED) || negb (bool_decide (ag_PodIp agent = mi_PodIp x)) then x
  else
    match mi_Disposition x with
    | NO_CLIENT | NO_PORTS | BAD_ARGS => set_pod "" "" x
    | _ => if bool_decide (check_agents (mi_Spec x) all = UNSPECIFIED)
           then set_disposition WAITING (mi_Message x) (set_pod "" "" x)
           else set_disposition (check_agents (mi_Spec x) all) (check_message (mi_Spec x) all) (set_pod "" "" x)
    end.
(** What an arriving agent does to one intercept, given the agents with it. *)
Definition arrived (all : list AgentInfo) (x : MIntercept) : MIntercept :=
  match mi_Disposition x with
  | REMOVED | NO_CLIENT | NO_PORTS | BAD_ARGS => x
  | d => if bool_decide (check_agents (mi_Spec x) all = UNSPECIFIED)
         then if bool_decide (d = NO_AGENT) then set_disposition WAITING "" x else x
         else set_disposition (check_agents (mi_Spec x) all) (check_message (mi_Spec x) all) x
  end.

(** The parts of the state that updates leave alone. *)
Definition same_rest (s t : State) : Prop :=
  agents s = agents t /\ clients s = clients t /\ inactive s = inactive t /\ restored s = restored t /\
  finalized s = finalized t /\ ingress s = ingress t /\ egress s = egress t.
Lemma same_rest_Update s id f : same_rest (UpdateIntercept id f s) s.
Proof. rewrite UpdateIntercept_eq. destruct (GetIntercept s id); repeat split. Qed.
Lemma same_rest_trans s t u : same_rest s t -> same_rest t u -> same_rest s u.
Proof. unfold same_rest. intros (?&?&?&?&?&?&?) (?&?&?&?&?&?&?). repeat split; congruence. Qed.
Lemma EachAgent_frame s t : same_rest s t -> EachAgent s = EachAgent t.
Proof. intros (H1 & _ & H2 & _). unfold EachAgent. by rewrite H1, H2. Qed.
#[export] Hint Resolve same_rest_Update same_rest_trans : tele.

(** The state in a loop that started in [s0]. *)
Definition in_loop (s0 s : State) : Prop := wf s /\ same_rest s s0.

Lemma in_loop_Update s0 s id f : keeps_id f -> in_loop s0 s -> in_loop s0 (UpdateIntercept id f s).
Proof. intros K [W R]. split; eauto with tele. Qed.
#[export] Hint Resolve in_loop_Update : tele.

Ltac mi_crush := repeat case_goal; try done; simpl in *; try congruence.

Lemma set_disposition_id x : set_disposition (mi_Disposition x) (mi_Message x) x = x.
Proof. destruct x as [[] ? ? ? ? ?]. reflexivity. Qed.

Lemma consolidate_one_spec agent s0 s id :
  in_loop s0 s -> in_loop s0 (consolidate_one agent s id) /\
  forall i, GetIntercept (consolidate_one agent s id) i =
            if decide (i = id) then consolidated agent (EachAgent s0) <$> GetIntercept s i else GetIntercept s i.
Proof.
  intros L. pose proof L as [W R]. pose proof (EachAgent_frame _ _ R) as HE.
  unfold consolidate_one. destruct (GetIntercept s id) as [x|] eqn:E.
  2:{ split; [done|]. intros i. destruct (decide (i = id)) as [->|]; [by rewrite E|done]. }
  destruct (bool_decide _ || _) eqn:B.
  { split; [done|]. intros i. destruct (decide (i = id)) as [->|]; [|done]. rewrite E. cbn. unfold consolidated. by rewrite B. }
  case_goal; (split; [apply in_loop_Update; [by intros []|done]|]);
    intros i; rewrite GetIntercept_Update by done; (destruct (decide (i = id)) as [->|]; [|done]); rewrite E; cbn [fmap option_fmap option_map];
    f_equal; unfold consolidated; rewrite B; unfold checkAgentsForIntercept, agents_message in *; rewrite <- HE; bools;
    destruct (mi_Disposition x) eqn:D; simpl in *; try done; try congruence;
    try (by rewrite bool_decide_eq_true_2); try (by rewrite bool_decide_eq_false_2);
    rewrite <- D; by destruct x as [[] ? ? ? ? ?].
Qed.

Lemma arrived_one_spec s0 s id :
  in_loop s0 s -> in_loop s0 (agent_arrived_one s id) /\
  forall i, GetIntercept (agent_arrived_one s id) i =
            if decide (i = id) then arrived (EachAgent s0) <$> GetIntercept s i else GetIntercept s i.
Proof.
  intros L. pose proof L as [W R]. pose proof (EachAgent_frame _ _ R) as HE.
  unfold agent_arrived_one. destruct (GetIntercept s id) as [x|] eqn:E.
  2:{ split; [done|]. intros i. destruct (decide (i = id)) as [->|]; [by rewrite E|done]. }
  destruct (bool_decide (mi_Disposition x = REMOVED)) eqn:B.
  { split; [done|]. intros i. destruct (decide (i = id)) as [->|]; [|done]. bools. rewrite E. cbn. unfold arrived. by rewrite B. }
  repeat case_goal; (split; [first [exact L|apply in_loop_Update; [by intros []|done]]|]);
    intros i; rewrite ?GetIntercept_Update by done; (destruct (decide (i = id)) as [->|]; [|done]); rewrite E; cbn [fmap option_fmap option_map];
    f_equal; unfold arrived, checkAgentsForIntercept, agents_message in *; rewrite <- HE; bools;
    destruct (mi_Disposition x) eqn:D; simpl in *; try done; try congruence;
    rewrite ?bool_decide_eq_true_2 by done; rewrite ?bool_decide_eq_false_2 by done; try done;
    rewrite <- D; by destruct x as [[] ? ? ? ? ?].
Qed.

(** ** Arriving and leaving agents *)

(** The registered agents of an intercept's workload. *)
Definition agents_for (s : State) (spec : InterceptSpec) : list AgentInfo :=
  filter (fun a => ag_Name a = sp_Agent spec /\ ag_Namespace a = sp_Namespace spec) (EachAgent s).
(** They can serve it: there is one, they are alike and have the mechanism. *)
Definition agents_ok (s : State) (spec : InterceptSpec) : Prop :=
  AgentsAreCompatible (agents_for s spec) = true /\
  exists a, hd_error (agents_for s spec) = Some a /\ agentHasMechanism a (sp_Mechanism spec) = true.
(** Dispositions that the agents do not change. *)
Definition sticky (d : Disposition) : bool := match d with NO_CLIENT | NO_PORTS | BAD_ARGS | REMOVED => true | _ => false end.

Lemma check_agents_ok s spec : check_agents spec (EachAgent s) = UNSPECIFIED <-> agents_ok s spec.
Proof.
  unfold check_agents, agents_ok. fold (agents_for s spec). destruct (agents_for s spec) as [|a rest].
  - split; [done|]. intros [H _]. done.
  - destruct (AgentsAreCompatible _), (agentHasMechanism a _) eqn:M; simpl; split; try done; try (intros [? ?]; done).
    + intros _. eauto.
    + intros (_ & b & [= <-] & Hb). congruence.
Qed.
Lemma check_agents_error s spec :
  ~ agents_ok s spec ->
  check_agents spec (EachAgent s) = (if AgentsAreCompatible (agents_for s spec) then NO_MECHANISM else NO_AGENT).
Proof.
  intros N. unfold agents_ok, check_agents in *. fold (agents_for s spec). destruct (agents_for s spec) as [|a rest]; [done|].
  destruct (AgentsAreCompatible _); simpl; [|done]. destruct (agentHasMechanism a _) eqn:M; [|done].
  destruct N. eauto.
Qed.

Lemma consolidate_all agent s : wf s ->
  in_loop s (consolidateAgentSessionIntercepts agent s) /\
  forall i, GetIntercept (consolidateAgentSessionIntercepts agent s) i = consolidated agent (EachAgent s) <$> GetIntercept s i.
Proof.
  intros W. apply (foldl_ids _ _ (in_loop s)).
  - intros t id L. apply (consolidate_one_spec agent s t id L).
  - intros t id i L. apply (consolidate_one_spec agent s t id L).
  - split; [done|]. repeat split.
Qed.

(** Removing an agent session leaves a well-formed store; the agents left are known. *)
Lemma removeAgentSession_spec id a s : wf s -> agents s !! id = Some a ->
  let s' := removeAgentSession id s in
  wf s' /\ agents s' = delete id (agents s) /\ clients s' = clients s /\
  ag_PodUid (as_info a) ∈ inactive s' /\ restored s' = restored s /\
  forall i, GetIntercept s' i = consolidated (as_info a) (EachAgent s') <$> GetIntercept s i.
Proof.
  intros W Ha. unfold removeAgentSession. rewrite Ha.
  set (t := Inactivate _ _). assert (Wt : wf t) by exact W.
  destruct (consolidate_all (as_info a) t Wt) as [[H1 R] H2]. cbn zeta.
  rewrite (EachAgent_frame _ _ R). destruct R as (-> & -> & -> & -> & _).
  split; [exact H1|]. split; [done|]. split; [done|]. split; [|split; done].
  unfold t, Inactivate. cbn [set_agents inactive]. case_bool_decide; [done|apply list_elem_of_here].
Qed.
Lemma removeAgentSession_none id s : agents s !! id = None -> removeAgentSession id s = s.
Proof. unfold removeAgentSession. by intros ->. Qed.

Lemma consolidated_fields agent all x :
  let x' := consolidated agent all x in
  ii_Id (mi_info x') = ii_Id (mi_info x) /\ mi_Spec x' = mi_Spec x /\ mi_Session x' = mi_Session x /\ mi_finalizers x' = mi_finalizers x /\
  (mi_Disposition x' = REMOVED <-> mi_Disposition x = REMOVED).
Proof.
  unfold consolidated. destruct (bool_decide (mi_Disposition x = REMOVED) || _) eqn:B; [done|]. bools.
  assert (C : check_agents (mi_Spec x) all <> REMOVED) by (unfold check_agents; by repeat case_goal).
  destruct (mi_Disposition x) eqn:D; try done; repeat case_goal; repeat split; try done; unfold mi_Disposition in *; simpl in *; congruence.
Qed.
Lemma arrived_fields all x :
  let x' := arrived all x in
  ii_Id (mi_info x') = ii_Id (mi_info x) /\ mi_Spec x' = mi_Spec x /\ mi_Session x' = mi_Session x /\ mi_finalizers x' = mi_finalizers x /\
  (mi_Disposition x' = REMOVED <-> mi_Disposition x = REMOVED).
Proof.
  assert (C : check_agents (mi_Spec x) all <> REMOVED) by (unfold check_agents; by repeat case_goal).
  unfold arrived. destruct (mi_Disposition x) eqn:D; try (by rewrite D);
    repeat case_goal; repeat split; try done; unfold mi_Disposition in *; simpl in *; congruence.
Qed.

(** [removeAgentSession]: the session is gone and its pod inactivated.  An intercept
    that the pod served loses the pod and is never left active: it waits for
    another agent exactly when the agents that remain can serve it, and otherwise
    reports why not, unless it was in an error that agents do not change.  Every
    other intercept is left as it is. *)
Theorem removeAgentSession_correct (id : string) (a : AgentSession) (s : State) :
  wf s -> agents s !! id = Some a ->
  let s' := removeAgentSession id s in
  agents s' = delete id (agents s) /\ clients s' = clients s /\
  (forall b, b ∈ EachAgent s' -> ag_PodUid b <> ag_PodUid (as_info a)) /\
  (forall i, GetIntercept s i = None -> GetIntercept s' i = None) /\
  forall i x, GetIntercept s i = Some x -> exists x', GetIntercept s' i = Some x' /\
    mi_Spec x' = mi_Spec x /\ mi_Session x' = mi_Session x /\ mi_finalizers x' = mi_finalizers x /\
    (mi_Disposition x = REMOVED \/ mi_PodIp x <> ag_PodIp (as_info a) -> x' = x) /\
    (mi_Disposition x <> REMOVED -> mi_PodIp x = ag_PodIp (as_info a) ->
       mi_PodIp x' = "" /\ mi_PodName x' = "" /\
       (if sticky (mi_Disposition x) then mi_Disposition x' = mi_Disposition x
        else (agents_ok s' (mi_Spec x) -> mi_Disposition x' = WAITING) /\
             (~ agents_ok s' (mi_Spec x) ->
                mi_Disposition x' = if AgentsAreCompatible (agents_for s' (mi_Spec x)) then NO_MECHANISM else NO_AGENT))).
Proof.
  intros W Ha s'. destruct (removeAgentSession_spec id a s W Ha) as (_ & H1 & H2 & H3 & _ & H4). fold s' in H1, H2, H3, H4.
  split; [done|]. split; [done|]. split; [|split].
  - unfold EachAgent. intros b [Hb _]%list_elem_of_filter Heq. by rewrite Heq in Hb.
  - intros i Hi. by rewrite H4, Hi.
  - intros i x Hx. exists (consolidated (as_info a) (EachAgent s') x). rewrite H4, Hx. split; [done|].
    destruct (consolidated_fields (as_info a) (EachAgent s') x) as (_ & F1 & F2 & F3 & _). split; [done|]. split; [done|]. split; [done|].
    clear F1 F2 F3. split.
    + intros C. unfold consolidated. destruct (bool_decide _ || _) eqn:B; [done|]. bools. naive_solver.
    + intros N P. unfold consolidated. rewrite P, (bool_decide_eq_false_2 (mi_Disposition x = REMOVED)), bool_decide_eq_true_2 by done. simpl.
      destruct (mi_Disposition x) eqn:D; try done; simpl;
        (split; [by repeat case_goal|split; [by repeat case_goal|]]); try done; split; intros O; case_goal; bools; try done;
        rewrite ?check_agents_ok in *; try done; by rewrite <- check_agents_error.
Qed.

(** [AddAgent]: a pod that was inactivated is refused and nothing changes, and so
    is a session that exists.  Otherwise the agent is registered, and every
    intercept is moved by the agents that are now present: out of [NO_AGENT] when
    they can serve it, into the error that applies when they cannot; intercepts
    in an error that agents do not change, and the others that can still be
    served, stay as they are. *)
Theorem AddAgent_correct (agent : AgentInfo) (now : Z) (s : State) :
  wf s ->
  let id := AgentSessionIDPrefix +:+ ag_PodUid agent in
  let '(s', r) := AddAgent agent now s in
  (ag_PodUid agent ∈ inactive s -> s' = s /\ r = InactivatedPod) /\
  (ag_PodUid agent ∉ inactive s -> is_Some (agents s !! id) -> s' = s /\ r = AlreadyRegistered) /\
  (ag_PodUid agent ∉ inactive s -> agents s !! id = None ->
     r = Registered /\ agents s' = <[id := mkAS agent now]> (agents s) /\ agent ∈ EachAgent s' /\
     (forall i, GetIntercept s i = None -> GetIntercept s' i = None) /\
     forall i x, GetIntercept s i = Some x -> exists x', GetIntercept s' i = Some x' /\
       mi_Spec x' = mi_Spec x /\ mi_Session x' = mi_Session x /\ mi_PodIp x' = mi_PodIp x /\
       (if sticky (mi_Disposition x) then x' = x
        else (agents_ok s' (mi_Spec x) -> mi_Disposition x = NO_AGENT -> mi_Disposition x' = WAITING) /\
             (agents_ok s' (mi_Spec x) -> mi_Disposition x <> NO_AGENT -> x' = x) /\
             (~ agents_ok s' (mi_Spec x) ->
                mi_Disposition x' = if AgentsAreCompatible (agents_for s' (mi_Spec x)) then NO_MECHANISM else NO_AGENT))).
Proof.
  intros W id. unfold AddAgent, IsInactive. destruct (bool_decide _) eqn:B; bools.
  { split; [done|]. split; intros N; done. }
  fold id. unfold RestoreAgent. destruct (agents s !! id) as [a|] eqn:Ha.
  { split; [done|]. split; [done|]. done. }
  set (t := set_agents _ _ s). assert (Wt : wf t) by exact W.
  destruct (foldl_ids agent_arrived_one (arrived (EachAgent t)) (in_loop t) t) as [[_ R] H].
  { intros u k L. apply (arrived_one_spec t u k L). }
  { intros u k i L. apply (arrived_one_spec t u k L). }
  { split; [done|repeat split]. }
  set (s' := foldl agent_arrived_one t (ids t)) in *.
  split; [done|]. split; [intros _ [? [=]]|]. intros _ _. split; [done|].
  assert (HA : agents s' = <[id := mkAS agent now]> (agents s)) by apply R. split; [done|].
  rewrite <- (EachAgent_frame _ _ R) in H. split; [|split].
  - unfold EachAgent. rewrite HA. apply list_elem_of_filter. split; [by replace (inactive s') with (inactive s) by (symmetry; apply R)|].
    apply list_elem_of_fmap. exists (mkAS agent now). split; [done|]. apply list_elem_of_fmap. exists (id, mkAS agent now). split; [done|].
    apply elem_of_map_to_list. apply lookup_insert_eq.
  - intros i Hi. rewrite H. change (GetIntercept t i) with (GetIntercept s i). by rewrite Hi.
  - intros i x Hx. exists (arrived (EachAgent s') x). rewrite H. change (GetIntercept t i) with (GetIntercept s i). rewrite Hx.
    split; [done|]. destruct (arrived_fields (EachAgent s') x) as (_ & F1 & F2 & _). split; [done|]. split; [done|]. clear F1 F2.
    unfold arrived. destruct (mi_Disposition x) eqn:D; simpl; try done;
      (split; [by repeat case_goal|]); split_and!; intros; repeat case_goal; bools; try done;
      rewrite ?check_agents_ok in *; try done; pose proof (check_agents_error s' (mi_Spec x)) as C;
      unfold mi_Disposition; simpl; rewrite C by done; case_goal; congruence.
Qed.

(** ** Removing intercepts and clients *)

Global Instance finalizer_eq : EqDecision finalizer.
Proof. solve_decision. Defined.

(** What the finalizers of an intercept leave alone. *)
Definition same_sessions (s t : State) : Prop :=
  agents s = agents t /\ clients s = clients t /\ inactive s = inactive t /\ ingress s = ingress t /\ egress s = egress t.
Lemma same_sessions_trans s t u : same_sessions s t -> same_sessions t u -> same_sessions s u.
Proof. unfold same_sessions. intros (?&?&?&?&?) (?&?&?&?&?). repeat split; congruence. Qed.

Lemma run_finalizers_spec id fs : forall s,
  let s' := foldl (run_finalizer id) s fs in
  same_sessions s' s /\ objs s' = objs s /\ fresh_ptr s' = fresh_ptr s /\
  (forall i, intercepts s' !! i = if decide (RemoveChild i ∈ fs) then None else intercepts s !! i) /\
  (forall i, i ∈ restored s' <-> i ∈ restored s \/ (i = id /\ RestoreAppContainer ∈ fs)).
Proof.
  induction fs as [|f fs IH]; intros s; cbn [foldl].
  - split; [done|]. split; [done|]. split; [done|]. split; intros i.
    + by rewrite decide_False by apply not_elem_of_nil.
    + split; [by left|]. intros [?|[_ H]]; [done|]. by apply not_elem_of_nil in H.
  - destruct (IH (run_finalizer id s f)) as (H1 & H2 & H3 & H4 & H5). cbn zeta in *.
    split; [eapply same_sessions_trans; [exact H1|by destruct f]|]. rewrite H2, H3. split; [by destruct f|]. split; [by destruct f|]. split.
    + intros i. rewrite H4. destruct f as [c|]; simpl.
      * destruct (decide (i = c)) as [->|N].
        -- rewrite lookup_delete_eq, (decide_True (P := RemoveChild c ∈ RemoveChild c :: fs)) by apply list_elem_of_here. by case_decide.
        -- rewrite lookup_delete_ne by done. apply decide_ext. rewrite elem_of_cons. naive_solver.
      * apply decide_ext. rewrite elem_of_cons. naive_solver.
    + intros i. rewrite H5. destruct f as [c|]; simpl; rewrite ?elem_of_app, ?list_elem_of_singleton, elem_of_cons; naive_solver.
Qed.

(** [RemoveIntercept] deletes the intercept and the children that its finalizers name. *)
Lemma RemoveIntercept_spec id s :
  let s' := RemoveIntercept id s in
  same_sessions s' s /\ objs s' = objs s /\ fresh_ptr s' = fresh_ptr s /\
  (forall i, intercepts s' !! i =
     match GetIntercept s id with
     | Some x => if decide (i = id \/ RemoveChild i ∈ mi_finalizers x) then None else intercepts s !! i
     | None => intercepts s !! i
     end) /\
  (forall i, i ∈ restored s' <-> i ∈ restored s \/ (i = id /\ exists x, GetIntercept s id = Some x /\ RestoreAppContainer ∈ mi_finalizers x)).
Proof.
  unfold RemoveIntercept. destruct (GetIntercept s id) as [x|] eqn:E; cbn zeta.
  2:{ split; [done|]. split; [done|]. split; [done|]. split; intros i; [done|]. split; [by left|]. intros [?|(_ & y & [=] & _)]. done. }
  destruct (run_finalizers_spec id (reverse (mi_finalizers x)) (delete_id id s)) as (H1 & H2 & H3 & H4 & H5). cbn zeta in *.
  split; [exact H1|]. split; [exact H2|]. split; [exact H3|]. split.
  - intros i. rewrite H4, (decide_ext (RemoveChild i ∈ reverse _) (RemoveChild i ∈ mi_finalizers x)) by apply elem_of_reverse.
    unfold delete_id. cbn [set_objs intercepts]. destruct (decide (i = id)) as [->|N].
    + rewrite lookup_delete_eq, (decide_True (P := id = id \/ _)) by auto. by case_decide.
    + rewrite lookup_delete_ne by done. apply decide_ext. naive_solver.
  - intros i. rewrite H5, elem_of_reverse. naive_solver.
Qed.

Lemma GetIntercept_Remove id s i :
  GetIntercept (RemoveIntercept id s) i =
  match GetIntercept s id with
  | Some x => if decide (i = id \/ RemoveChild i ∈ mi_finalizers x) then None else GetIntercept s i
  | None => GetIntercept s i
  end.
Proof.
  destruct (RemoveIntercept_spec id s) as (_ & H1 & _ & H2 & _). cbn zeta in *. unfold GetIntercept at 1. rewrite H1, H2.
  destruct (GetIntercept s id); [|done]. by case_decide.
Qed.
Lemma wf_Remove id s : wf s -> wf (RemoveIntercept id s).
Proof.
  intros W. destruct (RemoveIntercept_spec id s) as (_ & H1 & H2 & H3 & _). cbn zeta in *. intros i p Hp. rewrite H1, H2. apply W.
  rewrite H3 in Hp. destruct (GetIntercept s id); [|done]. by case_decide.
Qed.
#[export] Hint Resolve wf_Remove : tele.

(** Ids name their session: a session id has no colon. *)
Lemma intercept_id_inj a b n m : no_char ":" a -> no_char ":" b -> intercept_id a n = intercept_id b m -> a = b /\ n = m.
Proof.
  intros Ha Hb H. unfold intercept_id in H.
  change (":" +:+ n)%string with (String ":" n) in H. change (":" +:+ m)%string with (String ":" m) in H.
  pose proof (IndexByte_app a ":" n Ha) as Ia. rewrite H, (IndexByte_app b ":" m Hb) in Ia. injection Ia as L.
  revert b Hb H L. induction a as [|c a IH]; intros [|d b] Hb H L; try discriminate L.
  - by injection H.
  - injection H as -> H. injection L as L. apply no_char_cons in Ha as [_ Ha]. apply no_char_cons in Hb as [_ Hb].
    destruct (IH Ha b Hb H L) as [-> ->]. done.
Qed.

(** Every intercept is stored under its session and its name, its finalizers only
    name intercepts of the same session, and session ids have no colon. *)
Definition named (s : State) : Prop :=
  (forall id x, GetIntercept s id = Some x ->
     (exists name, id = intercept_id (mi_Session x) name) /\ no_char ":" (mi_Session x) /\
     forall c, RemoveChild c ∈ mi_finalizers x -> exists name, c = intercept_id (mi_Session x) name) /\
  (forall id, is_Some (clients s !! id) -> no_char ":" id).
(** Every intercept that is not removed belongs to a client that is there, those with the
    ids [late] excepted. *)
Definition owned (late : gset string) (s : State) : Prop :=
  forall id x, GetIntercept s id = Some x -> mi_Disposition x <> REMOVED -> is_Some (clients s !! mi_Session x) \/ id ∈ late.

Lemma named_child s id x c y : named s ->
  GetIntercept s id = Some x -> RemoveChild c ∈ mi_finalizers x -> GetIntercept s c = Some y -> mi_Session y = mi_Session x.
Proof.
  intros [N _] Hx Hc Hy. destruct (N _ _ Hx) as (_ & Nx & F), (N _ _ Hy) as ([n Hn] & Ny & _).
  destruct (F c Hc) as [m Hm]. rewrite Hm in Hn. by destruct (intercept_id_inj _ _ _ _ Nx Ny Hn) as [-> _].
Qed.

(** The states during the collection of a client's intercepts. *)
Definition collected (session : string) (s0 s : State) : Prop :=
  wf s /\ same_sessions s s0 /\
  forall i, GetIntercept s i = GetIntercept s0 i \/
            (GetIntercept s i = None /\ exists x, GetIntercept s0 i = Some x /\ mi_Session x = session).
Definition no_live (session : string) (s : State) (i : string) : Prop :=
  forall x, GetIntercept s i = Some x -> mi_Disposition x = REMOVED \/ mi_Session x <> session.

Lemma gc_one_eq session s id : exists t, objs t = objs s /\ fresh_ptr t = fresh_ptr s /\ intercepts t = intercepts s /\ same_sessions t s /\
  gc_one session s id = match GetIntercept s id with
                        | Some x => if bool_decide (mi_Disposition x = REMOVED) then s
                                    else if bool_decide (mi_Session x = session) then RemoveIntercept id t else s
                        | None => s
                        end.
Proof.
  unfold gc_one. destruct (GetIntercept s id) as [x|]; [|by exists s].
  destruct (bool_decide _); [by exists s|]. destruct (bool_decide _); [|by exists s]. eexists. split; [|split; [|split; [|split; [|reflexivity]]]]; done.
Qed.

Lemma gc_one_spec session s0 s id : named s0 -> collected session s0 s ->
  collected session s0 (gc_one session s id) /\ no_live session (gc_one session s id) id /\
  forall i, GetIntercept s i = None -> GetIntercept (gc_one session s id) i = None.
Proof.
  intros N C. pose proof C as (W & S & H). destruct (gc_one_eq session s id) as (t & T1 & T2 & T3 & T4 & ->).
  pose proof (GetIntercept_frame t s T1 T3) as TG.
  destruct (GetIntercept s id) as [x|] eqn:E; [|split; [done|split; [|done]]; intros y; congruence].
  destruct (bool_decide (mi_Disposition x = REMOVED)) eqn:B; bools; [split; [done|split; [|done]]; intros y; left; congruence|].
  destruct (bool_decide (mi_Session x = session)) eqn:B2; bools; [|split; [done|split; [|done]]; intros y; right; congruence].
  pose proof (GetIntercept_Remove id t) as R. rewrite (TG id), E in R. split; [|split].
  - split; [by apply wf_Remove, (wf_frame s)|]. split.
    { eapply same_sessions_trans; [apply RemoveIntercept_spec|]. by eapply same_sessions_trans. }
    intros i. rewrite R, TG. case_decide as D; [|done]. destruct (GetIntercept s0 i) as [y|] eqn:Ey; [|by left].
    right. split; [done|]. exists y. split; [done|]. destruct D as [->|D].
    + destruct (H id) as [G|[G _]]; congruence.
    + destruct (H id) as [G|[G _]]; [|congruence]. rewrite <- B2. apply (named_child s0 id x i y N); [congruence|done|done].
  - intros y. rewrite R, decide_True by auto. done.
  - intros i Hi. rewrite R, TG, Hi. by case_decide.
Qed.

Lemma gc_spec session s0 l : named s0 -> forall s, collected session s0 s ->
  collected session s0 (foldl (gc_one session) s l) /\ (forall i, i ∈ l -> no_live session (foldl (gc_one session) s l) i) /\
  forall i, GetIntercept s i = None -> GetIntercept (foldl (gc_one session) s l) i = None.
Proof.
  intros N. induction l as [|id l IH]; intros s C; cbn [foldl].
  - split; [done|]. split; [|done]. by intros i []%not_elem_of_nil.
  - destruct (gc_one_spec session s0 s id N C) as (C1 & L1 & M1). destruct (IH _ C1) as (C2 & L2 & M2).
    split; [done|]. split; [|auto]. intros i [->|Hi]%elem_of_cons; [|auto].
    intros x Hx. destruct C2 as (_ & _ & H2). destruct C1 as (_ & _ & H1).
    destruct (GetIntercept (gc_one session s id) id) as [y|] eqn:Ey; [|by rewrite M2 in Hx].
    apply L1. rewrite Ey. destruct (H2 id) as [G|[G _]], (H1 id) as [K|[K _]]; congruence.
Qed.

Lemma gcClient_spec session s : wf s -> named s ->
  let s' := gcClientSessionIntercepts session s in
  wf s' /\ same_sessions s' s /\
  (forall i x, GetIntercept s i = Some x -> mi_Session x <> session -> GetIntercept s' i = Some x) /\
  (forall i x, GetIntercept s' i = Some x -> GetIntercept s i = Some x /\ (mi_Disposition x = REMOVED \/ mi_Session x <> session)).
Proof.
  intros W N. destruct (gc_spec session s (ids s) N s) as ((W' & S & H) & L & M); [split; [done|split; [by repeat split|by left]]|].
  cbn zeta. fold (gcClientSessionIntercepts session s) in *. split; [done|]. split; [done|]. split.
  - intros i x Hx Hs. destruct (H i) as [G|(_ & y & Hy & ?)]; congruence.
  - intros i x Hx. destruct (H i) as [G|[G _]]; [|congruence]. split; [congruence|]. apply (L i); [|done].
    apply elem_of_ids. rewrite G in Hx. apply GetIntercept_Some in Hx as (p & Hp & _). eauto.
Qed.

Lemma named_delete_client id s : named s -> named (delete_client id s).
Proof.
  intros [N1 N2]. split; [exact N1|]. unfold delete_client, set_clients. cbn [clients]. intros k [c [_ Hk]%lookup_delete_Some]. eauto.
Qed.

(** [RemoveSession] of a client: the session is gone and with it every intercept of
    the session that was not removed already; intercepts of other sessions, and the
    agents, are untouched; the session's traffic is added to the totals, which are
    64-bit counters. *)
Theorem RemoveSession_client_correct (id : string) (cs : ClientSession) (s : State) :
  wf s -> named s -> clients s !! id = Some cs ->
  let s' := RemoveSession id s in
  clients s' = delete id (clients s) /\ agents s' = agents s /\
  (forall i x, GetIntercept s' i = Some x -> mi_Session x = id -> mi_Disposition x = REMOVED) /\
  (forall i x, mi_Session x <> id -> GetIntercept s' i = Some x <-> GetIntercept s i = Some x) /\
  ingress s' = u64 (ingress s + cl_fromClient cs) /\ egress s' = u64 (egress s + cl_toClient cs) /\
  last (finalized s') = Some (id, None).
Proof.
  intros W N Hc. unfold RemoveSession. rewrite Hc. cbn zeta. unfold removeClientSession.
  set (t := delete_client id s). destruct (gcClient_spec id t) as (_ & (S1 & S2 & _ & S3 & S4) & H1 & H2); [exact W|by apply named_delete_client|].
  cbn [clients agents GetIntercept]. split; [by rewrite S2|]. split; [by rewrite S1|]. split; [|split].
  - intros i x Hx Hs. by destruct (H2 i x Hx) as [_ [?|?]].
  - intros i x Hs. split; [intros Hx; apply (H2 i x Hx)|intros Hx; by apply (H1 i x)].
  - cbn [ingress egress finalized]. rewrite S3, S4. split; [done|]. split; [done|]. apply last_snoc.
Qed.

(** ** The steps of the manager *)

(** [s'] comes from [s] by changing and deleting intercepts and by removing clients. *)
Definition evolves (s s' : State) : Prop :=
  wf s' /\ (forall id, is_Some (clients s' !! id) -> is_Some (clients s !! id)) /\
  forall i x', GetIntercept s' i = Some x' ->
    exists x, GetIntercept s i = Some x /\ mi_Session x' = mi_Session x /\ mi_finalizers x' ⊆ mi_finalizers x /\
    (mi_Disposition x' <> REMOVED -> mi_Disposition x <> REMOVED /\
       (is_Some (clients s !! mi_Session x) -> is_Some (clients s' !! mi_Session x))).
Definition inv (late : gset string) (s : State) : Prop := wf s /\ named s /\ owned late s.

Section Late.
Context {late : gset string}.

Lemma evolves_inv s s' : inv late s -> evolves s s' -> inv late s'.
Proof.
  intros (W & [N1 N2] & O) (W' & C & H). split; [done|]. split; [split|].
  - intros i x' Hx'. destruct (H i x' Hx') as (x & Hx & Hs & Hf & _). rewrite Hs. destruct (N1 i x Hx) as (A & B & F).
    split; [done|]. split; [done|]. intros c Hc. auto.
  - intros k Hk. auto.
  - intros i x' Hx' Hd. destruct (H i x' Hx') as (x & Hx & Hs & _ & G). rewrite Hs. destruct (G Hd) as [G1 G2]. destruct (O i x Hx G1); eauto.
Qed.
Lemma evolves_refl s : wf s -> evolves s s.
Proof. intros W. split; [done|]. split; [done|]. intros i x Hx. exists x. split_and!; done. Qed.

Lemma evolves_same s s' : wf s' -> clients s' = clients s ->
  (forall i x', GetIntercept s' i = Some x' ->
     exists x, GetIntercept s i = Some x /\ mi_Session x' = mi_Session x /\ mi_finalizers x' ⊆ mi_finalizers x /\
     (mi_Disposition x = REMOVED -> mi_Disposition x' = REMOVED)) ->
  evolves s s'.
Proof.
  intros W C H. split; [done|]. rewrite C. split; [done|]. intros i x' Hx'. destruct (H i x' Hx') as (x & Hx & Hs & Hf & Hd).
  exists x. split; [done|]. split; [done|]. split; [done|]. intros Hn. split; [naive_solver|done].
Qed.

Lemma inv_foldl {A} (step : State -> A -> State) : (forall s a, inv late s -> inv late (step s a)) -> forall l s, inv late s -> inv late (foldl step s l).
Proof. intros H l. induction l; simpl; auto. Qed.

Lemma inv_Update id f s : inv late s -> keeps_id f ->
  (forall x, mi_Session (f x) = mi_Session x /\ mi_finalizers (f x) = mi_finalizers x) ->
  (forall x, GetIntercept s id = Some x -> mi_Disposition x = REMOVED -> mi_Disposition (f x) = REMOVED) ->
  inv late (UpdateIntercept id f s).
Proof.
  intros I K F D. pose proof I as (W & _). apply (evolves_inv s); [done|]. apply evolves_same; [by apply wf_Update|apply same_rest_Update|].
  intros i x'. rewrite GetIntercept_Update by done. case_decide as Di; [subst i|].
  - intros (x & Hx & ->)%fmap_Some. exists x. destruct (F x) as [-> ->]. split_and!; eauto.
  - intros Hx. exists x'. split_and!; eauto.
Qed.

Lemma inv_removeAgent id s : inv late s -> inv late (removeAgentSession id s).
Proof.
  intros I. pose proof I as (W & _). destruct (agents s !! id) as [a|] eqn:Ha; [|by rewrite removeAgentSession_none].
  destruct (removeAgentSession_spec id a s W Ha) as (W' & _ & C & _ & _ & H). cbn zeta in *.
  apply (evolves_inv s); [done|]. apply evolves_same; [done|done|]. intros i x'. rewrite H.
  intros (x & Hx & ->)%fmap_Some. exists x.
  destruct (consolidated_fields (as_info a) (EachAgent (removeAgentSession id s)) x) as (_ & _ & F1 & F2 & F3). cbn zeta in *.
  rewrite F1, F2. split_and!; naive_solver.
Qed.

Lemma inv_removeClient id cs s : inv late s -> inv late (removeClientSession id cs (delete_client id s)).
Proof.
  intros I. pose proof I as (W & N & _). unfold removeClientSession. set (t := delete_client id s).
  destruct (gcClient_spec id t) as (W' & (_ & S2 & _) & _ & H2); [exact W|by apply named_delete_client|].
  apply (evolves_inv s); [done|]. split; [exact W'|]. cbn [clients]. rewrite S2. split.
  - unfold t, delete_client, set_clients. cbn [clients]. intros k [c [_ Hk]%lookup_delete_Some]. eauto.
  - intros i x' Hx'. exists x'. destruct (H2 i x' Hx') as [Hx L]. split; [exact Hx|]. split; [done|]. split; [done|].
    intros Hn. split; [done|]. unfold t, delete_client, set_clients. cbn [clients]. destruct L as [|L]; [done|]. by rewrite lookup_delete_ne by done.
Qed.

Lemma inv_Remove id s : inv late s -> inv late (RemoveIntercept id s).
Proof.
  intros I. pose proof I as (W & _). apply (evolves_inv s); [done|]. apply evolves_same; [by apply wf_Remove|apply RemoveIntercept_spec|].
  intros i x' Hx'. rewrite GetIntercept_Remove in Hx'. exists x'. split; [|done].
  destruct (GetIntercept s id); [|done]. by case_decide.
Qed.
End Late.
#[export] Hint Resolve inv_removeAgent inv_removeClient inv_Remove : tele.
