(* ===== verification/ManagerInv.v ===== *)
(** * The manager as a state machine

    The steps of the manager's interface as a relation, with the creation of intercepts and
    the restoring of a client's intercepts as threads that run next to the other requests;
    in every state that they reach the store is well formed, intercepts are named after
    their session and no intercept outlives its client, unless the client was gone when the
    intercept was stored.  Creating an intercept and removing it again
    is shown to leave no trace, and the ways in which this fails are exhibited. *)
From S2P Require Import Prelude NetIP GoStrings PortTypes PortSpec Matcher Icept AgentConfig ManagerState ManagerPrepare ManagerSpec.
From Stdlib Require Import Ascii.

(** ** Adding intercepts *)

Definition added (id session : string) (spec : InterceptSpec) (s : State) : MIntercept :=
  let obj := NewInterceptInfo id session spec in
  let errCode := checkAgentsForIntercept s obj in
  if negb (bool_decide (errCode = UNSPECIFIED)) then set_disposition errCode (agents_message s obj) obj else obj.

Lemma added_fields id session spec s :
  ii_Id (mi_info (added id session spec s)) = id /\ mi_Session (added id session spec s) = session /\
  mi_finalizers (added id session spec s) = [] /\ mi_Disposition (added id session spec s) <> REMOVED.
Proof.
  unfold added. assert (C : checkAgentsForIntercept s (NewInterceptInfo id session spec) <> REMOVED).
  { unfold checkAgentsForIntercept, check_agents. simpl. by repeat case_goal. }
  case_goal; repeat split; done.
Qed.

(** [addIntercept] refuses a name in use, and else stores a new object. *)
Lemma addIntercept_eq id session spec s :
  addIntercept id session spec s =
  match GetIntercept s id with
  | Some old => if negb (bool_decide (mi_Disposition old = REMOVED)) then (s, Fail (AlreadyExists (sp_Name spec)))
                else (store_ptr id (fresh_ptr s) (alloc (added id session spec s) s).2, Ret (fresh_ptr s))
  | None => (store_ptr id (fresh_ptr s) (alloc (added id session spec s) s).2, Ret (fresh_ptr s))
  end.
Proof. reflexivity. Qed.

(** A successful [addIntercept]: a new object under an id that was free. *)
Lemma addIntercept_ok id session spec s t p : wf s -> addIntercept id session spec s = (t, Ret p) ->
  p = fresh_ptr s /\ fresh_ptr t = S p /\ wf t /\ same_rest t s /\
  intercepts t = <[id := p]> (intercepts s) /\ objs t = <[p := added id session spec s]> (objs s) /\
  (forall i, GetIntercept t i = if decide (i = id) then Some (added id session spec s) else GetIntercept s i) /\
  (forall x, GetIntercept s id = Some x -> mi_Disposition x = REMOVED).
Proof.
  intros W H. rewrite addIntercept_eq in H.
  assert (G : (t, Ret p) = (store_ptr id (fresh_ptr s) (alloc (added id session spec s) s).2, @Ret manager_error nat (fresh_ptr s)) /\
              forall x, GetIntercept s id = Some x -> mi_Disposition x = REMOVED).
  { destruct (GetIntercept s id) as [old|]; [|split; [by rewrite H|done]]. destruct (negb _) eqn:B; [done|]. bools. split; [by rewrite H|]. naive_solver. }
  destruct G as [G R]. injection G as -> ->. split; [done|]. split; [done|]. split; [|split; [|split; [|split; [|split]]]]; try done.
  - apply (wf_store_new s id (added id session spec s) W). apply added_fields.
  - intros i. apply (store_new s id (added id session spec s) i W).
Qed.
Lemma addIntercept_fail id session spec s t e : addIntercept id session spec s = (t, Fail e) -> t = s.
Proof. rewrite addIntercept_eq. repeat case_goal; congruence. Qed.
Lemma addIntercept_panic id session spec s t : addIntercept id session spec s <> (t, Panic).
Proof. rewrite addIntercept_eq. repeat case_goal; congruence. Qed.

Section Late.
Context {late : gset string}.
Lemma client_named session s : inv late s -> is_Some (clients s !! session) -> no_char ":" session.
Proof. intros (_ & [_ N] & _). apply N. Qed.
Lemma inv_addIntercept session name spec s : inv late s -> no_char ":" session ->
  is_Some (clients s !! session) \/ intercept_id session name ∈ late ->
  inv late (addIntercept (intercept_id session name) session spec s).1.
Proof.
  intros I Hns C. pose proof I as (W & [N1 N2] & O). destruct (addIntercept _ _ _ _) as [t [p|e|]] eqn:E; cbn [fst].
  2:{ by apply addIntercept_fail in E as ->. }
  2:{ by apply addIntercept_panic in E. }
  destruct (addIntercept_ok _ _ _ _ _ _ W E) as (_ & _ & Wt & R & _ & _ & G & _). destruct R as (_ & RC & _).
  destruct (added_fields (intercept_id session name) session spec s) as (_ & F1 & F2 & _).
  split; [done|]. split; [split|].
  - intros i x. rewrite G. case_decide as D; [|apply N1]. intros [= <-]. rewrite F1, F2. split; [by exists name|]. split; [auto|].
    by intros c []%not_elem_of_nil.
  - rewrite RC. done.
  - intros i x. rewrite G, RC. case_decide as D; [|apply O]. intros [= <-] _. rewrite F1. subst i. done.
Qed.

(** A finalizer added to an object of the session. *)
Lemma inv_addFinalizer p f session s : inv late s ->
  (forall x, objs s !! p = Some x -> mi_Session x = session) ->
  (forall c, f = RemoveChild c -> exists name, c = intercept_id session name) ->
  inv late (mutate p (addFinalizer f) s).
Proof.
  intros (W & [N1 N2] & O) P F.
  assert (G : forall i x', GetIntercept (mutate p (addFinalizer f) s) i = Some x' ->
                exists x, GetIntercept s i = Some x /\ (x' = x \/ x' = addFinalizer f x /\ mi_Session x = session)).
  { intros i x' (q & Hq & Hx)%GetIntercept_Some. unfold mutate in Hq, Hx. cbn [set_objs intercepts objs] in Hq, Hx.
    destruct (W _ _ Hq) as (_ & x & Hqx & _). exists x. split; [apply GetIntercept_Some; eauto|].
    destruct (decide (q = p)) as [->|Hn].
    - rewrite lookup_alter_eq, Hqx in Hx. injection Hx as <-. right. auto.
    - rewrite lookup_alter_ne, Hqx in Hx by done. left. congruence. }
  split; [by apply wf_mutate|]. split; [split; [|exact N2]|].
  - intros i x' (x & Hx & E)%G. destruct (N1 i x Hx) as (A & B & C). destruct E as [->|[-> E]]; [done|].
    split; [done|]. split; [done|]. intros c [Hc|Hc]%elem_of_app; [by apply C|].
    apply list_elem_of_singleton in Hc. rewrite <- E in F. by apply F.
  - intros i x' (x & Hx & E)%G. change (clients (mutate p (addFinalizer f) s)) with (clients s).
    destruct E as [->|[-> _]]; apply (O i x Hx).
Qed.

Section Steps.
Context `{K8sApi} {RX : GoRegexp}.

Lemma inv_add_children session spec p pms : forall s, inv late s -> is_Some (clients s !! session) ->
  (p < fresh_ptr s)%nat -> (forall x, objs s !! p = Some x -> mi_Session x = session) ->
  inv late (add_children session spec p pms s).1.
Proof.
  induction pms as [|pm pms IH]; intros s I C L P; cbn [add_children]; [done|].
  destruct (FromNumberAndTo pm) as [[from to]| |]; try done.
  set (pmSpec := child_spec spec pm from to). pose proof (inv_addIntercept session (sp_Name pmSpec) pmSpec s I (client_named session s I C) (or_introl C)) as It.
  destruct (addIntercept _ _ pmSpec s) as [t [q|e|]] eqn:E; cbn [fst] in *; try done.
  pose proof I as (W & _). destruct (addIntercept_ok _ _ _ _ _ _ W E) as (Hq & Hf & _ & (_ & RC & _) & _ & HO & _).
  assert (P' : forall x, objs t !! p = Some x -> mi_Session x = session).
  { intros x. rewrite HO, lookup_insert_ne by (subst q; lia). apply P. }
  apply IH.
  - apply inv_addFinalizer with session; [done|done|]. intros c [= <-]. eauto.
  - by rewrite <- RC in C.
  - change (fresh_ptr (mutate p _ t)) with (fresh_ptr t). lia.
  - intros x. unfold mutate. cbn [set_objs objs]. rewrite lookup_alter_eq. intros (y & Hy & ->)%fmap_Some. simpl. eauto.
Qed.

Lemma inv_AddIntercept session spec ensured s : inv late s -> inv late (AddIntercept session spec ensured s).1.
Proof.
  intros I. unfold AddIntercept. destruct (clients s !! session) as [cs|] eqn:C; [|done]. destruct ensured; [done|].
  assert (Cs : is_Some (clients s !! session)) by (by rewrite C). pose proof (inv_addIntercept session (sp_Name spec) spec s I (client_named session s I Cs) (or_introl Cs)) as It.
  destruct (addIntercept _ _ spec s) as [t [p|e|]] eqn:E; try done. cbn [fst] in It.
  pose proof I as (W & _). destruct (addIntercept_ok _ _ _ _ _ _ W E) as (Hq & Hf & _ & (_ & RC & _) & _ & HO & _).
  pose proof (inv_add_children session spec p (sp_PodPorts spec) t It) as Ic.
  destruct (add_children _ _ _ _ t) as [u [e|]] eqn:Ec; cbn [fst] in *.
  all: assert (Iu : inv late u) by (apply Ic; [by rewrite RC, C|lia|intros x; rewrite HO, lookup_insert_eq; intros [= <-]; apply added_fields]).
  - done.
  - destruct (intercepts u !! _) as [q|] eqn:Eq; [|done].
    destruct Iu as (Wu & Nu & Ou). destruct (Wu _ _ Eq) as (_ & x & Hx & _).
    apply inv_addFinalizer with (mi_Session x); [done| |done]. intros y. congruence.
Qed.

Lemma review_fields agent ina d msg ip x :
  ii_Id (mi_info (review agent ina d msg ip x)) = ii_Id (mi_info x) /\ mi_Session (review agent ina d msg ip x) = mi_Session x /\
  mi_finalizers (review agent ina d msg ip x) = mi_finalizers x /\
  (mi_Disposition x = REMOVED -> mi_Disposition (review agent ina d msg ip x) = REMOVED).
Proof.
  unfold review. repeat case_goal; repeat split; try done.
  intros D. rewrite D in *. discriminate.
Qed.

(** No intercept of the list is removed. *)
Definition none_removed (s : State) (l : list MIntercept) : Prop :=
  forall x y, x ∈ l -> GetIntercept s (ii_Id (mi_info x)) = Some y -> mi_Disposition y <> REMOVED.

Lemma inv_override (msg : MIntercept -> string) l : forall l' s, l' ⊆ l -> inv late s -> none_removed s l ->
  inv late (foldl (fun s x => UpdateIntercept (ii_Id (mi_info x)) (set_disposition AGENT_ERROR (msg x)) s) s l').
Proof.
  induction l' as [|x l' IH]; intros s Hl I HN; cbn [foldl]; [done|]. apply IH.
  - set_solver.
  - apply inv_Update; [done|done|done|]. intros y Hy D. exfalso. apply (HN x y); [apply Hl, list_elem_of_here|done|done].
  - intros z y Hz. pose proof I as (W & _). rewrite GetIntercept_Update by done. case_decide as D; [|by apply HN].
    intros (w & _ & ->)%fmap_Some. done.
Qed.

Lemma potential_conflicts_spec agentName ns ports s x : wf s -> x ∈ potential_conflicts agentName ns ports s ->
  GetIntercept s (ii_Id (mi_info x)) = Some x /\ PotentialConflict agentName ns ports (mi_info x) = true.
Proof.
  intros W [HP (i & Hi & Hx)%list_elem_of_omap]%list_elem_of_filter. split; [|done].
  by rewrite (GetIntercept_id s i x).
Qed.

Lemma inv_conflicts agentName ns client ports spec now timeout s : inv late s ->
  inv late (checkInterceptConflicts agentName ns client ports spec now timeout s).1.
Proof.
  intros I. unfold checkInterceptConflicts. destruct (sp_Wiretap spec); [done|].
  destruct (list_find _ _) as [[]|]; [done|]. cbn [fst].
  eapply (inv_override (fun x => override_message client spec (mi_Spec x))); [reflexivity|done|].
  intros x y [_ Hx]%list_elem_of_filter Hy. pose proof I as (W & _).
  destruct (potential_conflicts_spec _ _ _ _ _ W Hx) as [Hx' HP]. rewrite Hx' in Hy. injection Hy as <-.
  unfold PotentialConflict in HP. unfold mi_Disposition. intros D. by rewrite D in HP.
Qed.

Lemma inv_set_clients m s : inv late s -> (forall id, is_Some (m !! id) <-> is_Some (clients s !! id)) -> inv late (set_clients m s).
Proof.
  intros I Hm. pose proof I as (W & _). apply (evolves_inv s); [done|]. split; [exact W|]. unfold set_clients. cbn [clients].
  split; [intros id; apply Hm|]. intros i x Hx. exists x. split; [exact Hx|]. split; [done|]. split; [done|]. intros D. split; [done|apply Hm].
Qed.

Lemma inv_prepare enabled get ensure ips allow kind spec client now timeout s : inv late s ->
  inv late (PrepareIntercept enabled get ensure ips allow kind spec client now timeout s).1.
Proof.
  intros I. unfold PrepareIntercept. destruct (get_workload _ _ _); try done. destruct (ensure _) as [ac| |]; try done.
  assert (K : forall cn pi, inv late (checkInterceptConsistency allow ac cn spec client now timeout pi s).1).
  { intros cn pi. unfold checkInterceptConsistency. destruct (negb allow && _); [done|].
    destruct (match cn with Some c => _ | None => _ end) as [[c ic]| |]; try done.
    destruct (checkPortConsistency _ _ _ _) as [[pp cp]| |]; try done.
    pose proof (inv_conflicts (sc_AgentName ac) (sc_Namespace ac) client cp spec now timeout s I) as Hc.
    by destruct (checkInterceptConflicts _ _ _ _ _ _ _ s) as [t [id|]]. }
  assert (P : inv late (prepare_ports allow ac spec client now timeout s).1).
  { unfold prepare_ports. repeat (case_goal; try done). }
  destruct (prepare_ports _ _ _ _ _ _ s) as [t [pi|e|]]; cbn [fst] in *; try done.
  unfold mark_client. destruct (clients t !! client) as [c|] eqn:Ec; [|done]. apply inv_set_clients; [done|].
  intros id. destruct (decide (client = id)) as [<-|N]; [rewrite lookup_insert_eq, Ec; split; intros _; by eexists|by rewrite lookup_insert_ne].
Qed.

Lemma inv_RestoreAgent id agent now s : inv late s -> inv late (RestoreAgent id agent now s).1.
Proof.
  intros I. pose proof I as (W & _). unfold RestoreAgent. destruct (agents s !! id); [done|]. set (t := set_agents _ _ s). cbn [fst].
  destruct (foldl_ids agent_arrived_one (arrived (EachAgent t)) (in_loop t) t) as [[W' R] G].
  { intros u k L. apply (arrived_one_spec t u k L). }
  { intros u k i L. apply (arrived_one_spec t u k L). }
  { split; [exact W|repeat split]. }
  apply (evolves_inv s); [done|]. apply evolves_same; [done|apply R|]. intros i x'. rewrite G.
  intros (x & Hx & ->)%fmap_Some. exists x. split; [exact Hx|]. destruct (arrived_fields (EachAgent t) x) as (_ & _ & F1 & F2 & F3).
  cbn zeta in *. rewrite F1, F2. split_and!; naive_solver.
Qed.

End Steps.

(** ** Restored intercepts *)

(** An intercept of the session, under its own name. *)
Definition own_intercept (session : string) (i : MIntercept) : Prop := mi_Session i = session /\ exists name, ii_Id (mi_info i) = intercept_id session name.

Section Restoring.
Context (session : string) (workload : InterceptSpec -> bool) (Hns : no_char ":" session).

Definition bare (i : MIntercept) : MIntercept :=
  let b := mkMI (mi_info i) (mi_Message i) (mi_Session i) (mi_PodIp i) (mi_PodName i) [] in
  if negb (IsChildIntercept (mi_Spec i)) && workload (mi_Spec i) then addFinalizer RestoreAppContainer b else b.
Lemma bare_fields i : mi_info (bare i) = mi_info i /\ mi_Session (bare i) = mi_Session i /\ (forall c, RemoveChild c ∉ mi_finalizers (bare i)).
Proof.
  unfold bare. destruct (negb _ && _); (split; [done|]; split; [done|]); intros c; cbn; [intros Hc%list_elem_of_singleton; done|by intros ?%not_elem_of_nil].
Qed.

(** It may be stored: the client is there, or the intercept counts as late. *)
Definition covered (st : State) (i : MIntercept) : Prop :=
  own_intercept session i /\ (is_Some (clients st !! session) \/ ii_Id (mi_info i) ∈ late \/ is_Some (intercepts st !! ii_Id (mi_info i))).

Lemma inv_store_own id x st : inv late st -> is_Some (clients st !! session) \/ id ∈ late -> intercepts st !! id = None ->
  own_intercept session x -> ii_Id (mi_info x) = id -> (forall c, RemoveChild c ∉ mi_finalizers x) ->
  inv late (store_ptr id (alloc x st).1 (alloc x st).2).
Proof.
  intros I C Hn [Hs [name Hid]] He Hf. pose proof I as (W & [N1 N2] & O). split; [by apply wf_store_new|].
  assert (G : forall i, GetIntercept (store_ptr id (alloc x st).1 (alloc x st).2) i = if decide (i = id) then Some x else GetIntercept st i) by (intros i; by apply store_new).
  split; [split|].
  - intros i y. rewrite G. case_decide as D; [|apply N1]. intros [= <-]. rewrite Hs. split; [exists name; congruence|]. split; [done|].
    intros c Hc. by destruct (Hf c).
  - exact N2.
  - intros i y. rewrite G. case_decide as D; [|apply O]. intros [= <-] _. rewrite Hs. by subst i.
Qed.

Lemma restore_one_inv i st ch : inv late st -> covered st i -> Forall (own_intercept session) ch ->
  let '(st', ch') := restore_one workload (st, ch) i in inv late st' /\ Forall (own_intercept session) ch' /\ forall j, covered st j -> covered st' j.
Proof.
  intros I [Ho C] Hch. unfold restore_one. destruct (intercepts st !! _) eqn:E; [done|]. fold (bare i). destruct (bare_fields i) as (B1 & B2 & B3).
  assert (Hb : own_intercept session (bare i)) by (destruct Ho as [H1 H2]; split; [by rewrite B2|by rewrite B1]).
  assert (C' : is_Some (clients st !! session) \/ ii_Id (mi_info i) ∈ late) by (destruct C as [?|[?|[? ?]]]; naive_solver).
  pose proof (inv_store_own (ii_Id (mi_info i)) (bare i) st I C' E Hb) as I'. rewrite B1 in I'. specialize (I' eq_refl B3).
  cbn [alloc fst snd] in *. split; [done|]. split.
  - destruct (IsChildIntercept _); [|done]. apply Forall_app. split; [done|]. by apply Forall_singleton.
  - intros j [Hj Cj]. split; [done|]. destruct Cj as [?|[?|Hs]]; [by left|by right; left|right; right]. unfold store_ptr. cbn [set_objs intercepts].
    destruct (decide (ii_Id (mi_info i) = ii_Id (mi_info j))) as [<-|Hne]; [by rewrite lookup_insert_eq|by rewrite lookup_insert_ne].
Qed.
Lemma link_child_inv x st : own_intercept session x -> inv late st -> inv late (link_child st x).
Proof.
  intros [Hs [name Hid]] I. unfold link_child. destruct (Split _ _) as [|a [|b [|pn [|d [|]]]]]; try done.
  destruct (intercepts st !! _) as [p|] eqn:E; [|done]. rewrite Hs in E. pose proof I as (W & [N1 N2] & O).
  destruct (W _ _ E) as (_ & y & Hy & _). destruct (N1 (intercept_id session pn) y) as ([m Hm] & Hc & _); [apply GetIntercept_Some; eauto|].
  destruct (intercept_id_inj _ _ _ _ Hns Hc Hm) as [He _]. apply inv_addFinalizer with session; [done|naive_solver|].
  intros c [= <-]. rewrite Hid. by exists name.
Qed.
Lemma RestoreIntercepts_inv l st : inv late st -> Forall (covered st) l -> inv late (RestoreIntercepts workload l st).
Proof.
  intros I Hl. unfold RestoreIntercepts.
  assert (H1 : forall l st ch, inv late st -> Forall (covered st) l -> Forall (own_intercept session) ch ->
    let '(st', ch') := foldl (restore_one workload) (st, ch) l in inv late st' /\ Forall (own_intercept session) ch').
  { clear -Hns. induction l as [|i l IH]; intros st ch I Hl Hch; cbn [foldl]; [done|]. apply Forall_cons in Hl as [Hi Hl].
    pose proof (restore_one_inv i st ch I Hi Hch) as R. destruct (restore_one _ _ _) as [st' ch']. destruct R as (I' & Hch' & Hc).
    apply IH; [done| |done]. eapply Forall_impl; [exact Hl|exact Hc]. }
  specialize (H1 l st [] I Hl (Forall_nil_2 _)). destruct (foldl _ _ l) as [st' ch]. destruct H1 as (I' & Hch). clear -I' Hns Hch.
  revert st' I'. induction Hch as [|x ch Hx Hch IH]; intros st' I'; cbn [foldl]; [done|]. apply IH. by apply link_child_inv.
Qed.
End Restoring.

(** ** Agents and clients *)

(** The invariant says nothing about agents. *)
Lemma inv_frame s t : objs t = objs s -> fresh_ptr t = fresh_ptr s -> intercepts t = intercepts s -> clients t = clients s -> inv late s -> inv late t.
Proof.
  intros H1 H2 H3 H4 I. pose proof I as (W & _). apply (evolves_inv s); [done|]. apply evolves_same; [by apply (wf_frame s)|done|].
  intros i x'. rewrite (GetIntercept_frame t s) by done. intros Hx. by exists x'.
Qed.
Lemma RestoreAgents_frame l now : forall st, inv late st -> inv late (RestoreAgents l now st) /\
  clients (RestoreAgents l now st) = clients st /\ objs (RestoreAgents l now st) = objs st /\
  fresh_ptr (RestoreAgents l now st) = fresh_ptr st /\ intercepts (RestoreAgents l now st) = intercepts st.
Proof.
  unfold RestoreAgents. induction l as [|a l IH]; intros st I; cbn [foldl]; [done|]. destruct (agents st !! _); [by apply IH|].
  apply (IH (set_agents _ _ st)). by apply (inv_frame st).
Qed.
Lemma inv_addClient id ns now s s' : no_char ":" id -> inv late s -> addClient id ns now s = Some s' -> inv late s'.
Proof.
  intros Hn I E. unfold addClient in E. destruct (clients s !! id) eqn:Ec; [done|]. injection E as <-.
  destruct I as (W & [N1 N2] & O). split; [exact W|]. unfold set_clients. split; [split; [exact N1|]|]; cbn [clients].
  - intros k [c [[-> _]|[_ Hk]]%lookup_insert_Some]; [done|eauto].
  - intros i x Hx D. destruct (O i x Hx D) as [[c Hc]|?]; [left|by right]. cbn [clients]. destruct (decide (id = mi_Session x)) as [->|Hne].
    + rewrite lookup_insert_eq. eauto.
    + rewrite lookup_insert_ne by done. eauto.
Qed.
End Late.

Lemma inv_mono late late' s : late ⊆ late' -> inv late s -> inv late' s.
Proof. intros Hl (W & N & O). split_and!; [done..|]. intros i x Hx Hd. destruct (O i x Hx Hd); [by left|right; set_solver]. Qed.

(** ** Objects stay where they are *)

(** The objects of [s] are there in [s'], and belong to the same sessions. *)
Definition grows (s s' : State) : Prop :=
  (fresh_ptr s <= fresh_ptr s')%nat /\
  forall p x', (p < fresh_ptr s)%nat -> objs s' !! p = Some x' -> exists x, objs s !! p = Some x /\ mi_Session x' = mi_Session x.

Lemma grows_same s s' : objs s' = objs s -> fresh_ptr s' = fresh_ptr s -> grows s s'.
Proof. intros H1 H2. split; [lia|]. rewrite H1. eauto. Qed.
Lemma grows_trans s t u : grows s t -> grows t u -> grows s u.
Proof.
  intros [F1 G1] [F2 G2]. split; [lia|]. intros p x' L (y & Hy & ->)%G2; [|lia]. by apply G1.
Qed.
Lemma grows_foldl {A} (step : State -> A -> State) : (forall s a, grows s (step s a)) -> forall l s, grows s (foldl step s l).
Proof. intros Hs l. induction l as [|a l IH]; intros s; [by apply grows_same|]. cbn [foldl]. eapply grows_trans; [apply Hs|apply IH]. Qed.
Lemma grows_store id x s : grows s (store_ptr id (alloc x s).1 (alloc x s).2).
Proof.
  split; [cbn; lia|]. intros p x' L. cbn. rewrite lookup_insert_ne by lia. eauto.
Qed.
Lemma grows_Update id f s : grows s (UpdateIntercept id f s).
Proof. rewrite UpdateIntercept_eq. destruct (GetIntercept s id); [apply grows_store|by apply grows_same]. Qed.
Lemma grows_addFinalizer p f s : grows s (mutate p (addFinalizer f) s).
Proof.
  split; [done|]. intros q x' L. unfold mutate. cbn [set_objs objs]. destruct (decide (p = q)) as [<-|Hn].
  - rewrite lookup_alter_eq. intros (x & -> & ->)%fmap_Some. eauto.
  - rewrite lookup_alter_ne by done. eauto.
Qed.
Lemma grows_Remove id s : grows s (RemoveIntercept id s).
Proof. apply grows_same; apply RemoveIntercept_spec. Qed.
#[export] Hint Resolve grows_store grows_Update grows_addFinalizer grows_Remove : tele.

Lemma grows_removeAgent id s : grows s (removeAgentSession id s).
Proof.
  unfold removeAgentSession. destruct (agents s !! id) as [a|]; [|by apply grows_same]. set (t := Inactivate _ _). apply (grows_trans _ t); [by apply grows_same|].
  apply grows_foldl. clear t. intros t k. unfold consolidate_one. repeat case_goal; auto with tele; by apply grows_same.
Qed.
Lemma grows_removeClient id cs s : grows s (removeClientSession id cs (delete_client id s)).
Proof.
  unfold removeClientSession. apply (grows_trans _ (gcClientSessionIntercepts id (delete_client id s))); [|by apply grows_same].
  apply (grows_trans _ (delete_client id s)); [by apply grows_same|].
  apply grows_foldl. intros t k. destruct (gc_one_eq id t k) as (u & U1 & U2 & _ & _ & ->). repeat case_goal; try by apply grows_same.
  apply (grows_trans _ u); [by apply grows_same|apply grows_Remove].
Qed.
Lemma grows_RestoreAgent id agent now s : grows s (RestoreAgent id agent now s).1.
Proof.
  unfold RestoreAgent. destruct (agents s !! id); [by apply grows_same|]. cbn [fst]. set (t := set_agents _ _ s). apply (grows_trans _ t); [by apply grows_same|].
  apply grows_foldl. clear t. intros t k. unfold agent_arrived_one. repeat case_goal; auto with tele; by apply grows_same.
Qed.
#[export] Hint Resolve grows_removeAgent grows_removeClient grows_RestoreAgent : tele.
Lemma grows_RestoreIntercepts workload l s : grows s (RestoreIntercepts workload l s).
Proof.
  unfold RestoreIntercepts.
  assert (H1 : forall l s ch, grows s (foldl (restore_one workload) (s, ch) l).1).
  { clear. induction l as [|i l IH]; intros s ch; [by apply grows_same|]. cbn [foldl]. unfold restore_one at 2. destruct (intercepts s !! _); [apply IH|].
    eapply grows_trans; [|apply IH]. apply grows_store. }
  specialize (H1 l s []). destruct (foldl _ _ l) as [t ch]. eapply grows_trans; [exact H1|]. apply grows_foldl. intros u x. unfold link_child.
  repeat case_goal; auto with tele; by apply grows_same.
Qed.

(** ** The manager *)

Section Machine.
Context `{K8sApi} {RX : GoRegexp}.

(** The requests that are handled in one step, and the timers.  [AddClient] makes a session
    id from a UUID, which has no colon. *)
Inductive astep : State -> State -> Prop :=
  | st_client id ns now s s' : no_char ":" id -> addClient id ns now s = Some s' -> astep s s'
  | st_agent agent now s : astep s (AddAgent agent now s).1
  | st_restore_agent id agent now s : astep s (RestoreAgent id agent now s).1
  | st_remove id s : astep s (RemoveSession id s)
  | st_expire clientMoment agentMoment s : astep s (expireSessions clientMoment agentMoment s)
  | st_prune nss s : astep s (pruneSessions nss s)
  | st_prepare enabled get ensure ips allow kind spec client now timeout s :
      astep s (PrepareIntercept enabled get ensure ips allow kind spec client now timeout s).1
  | st_review session id d msg podIp s : astep s (ReviewIntercept session id d msg podIp s).1
  | st_remove_intercept id s : astep s (RemoveIntercept id s)
  | st_inactivate uid s : astep s (Inactivate uid s)
  | st_gc old s : astep s (GC old s).

(** The requests that are under way: the creation of an intercept, and a client that
    reconnects, whose session is restored and whose agents and intercepts are not yet. *)
Inductive thread :=
  | ThCreate (c : creation)
  | ThRestore (session : string) (workload : InterceptSpec -> bool) (ags : list AgentInfo) (ics : list MIntercept) (now : Z).
Definition th_session (th : thread) : string :=
  match th with
  | ThCreate (CrStore session _) | ThCreate (CrChildren session _ _ _) | ThCreate (CrLink session _ _ _ _) => session
  | ThRestore session _ _ _ _ => session
  end.
Definition thread_step (th : thread) (s : State) : State * list thread :=
  match th with
  | ThCreate c => let '(s, c) := create_step c s in (s, ThCreate <$> option_list c)
  | ThRestore _ workload ags ics now => (RestoreIntercepts workload ics (RestoreAgents ags now s), [])
  end.

(** The ids under which [s'] has an object that [s] has not. *)
Definition stored (s s' : State) : gset string := dom (filter (fun kv : string * nat => intercepts s !! kv.1 <> Some kv.2) (intercepts s')).

(** [m_late] holds the ids of the intercepts that were stored when their client was gone. *)
Record manager := mkManager { m_state : State; m_threads : list thread; m_late : gset string }.

Inductive mstep : manager -> manager -> Prop :=
  | ms_request s s' ths late : astep s s' -> mstep (mkManager s ths late) (mkManager s' ths late)
  | ms_create session spec s ths late : is_Some (clients s !! session) ->
      mstep (mkManager s ths late) (mkManager s (ThCreate (CrStore session spec) :: ths) late)
  | ms_reconnect session ns workload ags ics now s s' ths late : no_char ":" session -> Forall (own_intercept session) ics ->
      addClient session ns now s = Some s' ->
      mstep (mkManager s ths late) (mkManager s' (ThRestore session workload ags ics now :: ths) late)
  | ms_failed th ths1 ths2 s late : mstep (mkManager s (ths1 ++ th :: ths2) late) (mkManager s (ths1 ++ ths2) late)
  | ms_thread th ths1 ths2 s late s' ths : thread_step th s = (s', ths) ->
      mstep (mkManager s (ths1 ++ th :: ths2) late)
        (mkManager s' (ths1 ++ ths ++ ths2) (if bool_decide (is_Some (clients s !! th_session th)) then late else late ∪ stored s s')).

Definition NewState : State := mkState ∅ 0 ∅ ∅ ∅ [] [] [] 0 0.

Inductive reachable : manager -> Prop :=
  | r_init : reachable (mkManager NewState [] ∅)
  | r_step m m' : reachable m -> mstep m m' -> reachable m'.

Lemma inv_new late : inv late NewState.
Proof.
  split; [|split; [split|]]; intros id.
  - intros p. cbn [intercepts NewState]. by rewrite lookup_empty.
  - intros x. unfold GetIntercept. cbn [intercepts NewState]. by rewrite lookup_empty.
  - intros [c Hc]. cbn [clients NewState] in Hc. by rewrite lookup_empty in Hc.
  - intros x. unfold GetIntercept. cbn [intercepts NewState]. by rewrite lookup_empty.
Qed.

Lemma inv_step late s s' : inv late s -> astep s s' -> inv late s'.
Proof.
  intros I St. revert I.
  destruct St as [id ns now s s' Hn E|agent now s|id agent now s|id s|cm am s|nss s|enabled get ensure ips allow kind spec client now timeout s
                 |session id d msg ip s|id s|uid s|old s]; intros I; auto with tele.
  - by eapply inv_addClient.
  - unfold AddAgent. case_goal; [done|]. pose proof (inv_RestoreAgent (AgentSessionIDPrefix +:+ ag_PodUid agent) agent now s I) as IR.
    by destruct (RestoreAgent _ _ _ s).
  - by apply inv_RestoreAgent.
  - unfold RemoveSession. case_goal; auto with tele.
  - unfold expireSessions. apply inv_foldl; [|apply inv_foldl; [|done]]; intros t k It; unfold expire_agent, expire_client;
      repeat case_goal; auto with tele.
  - unfold pruneSessions. apply inv_foldl; [|apply inv_foldl; [|done]]; intros t k It; unfold prune_client;
      repeat case_goal; auto with tele.
  - by apply inv_prepare.
  - unfold ReviewIntercept. destruct (GetAgent s session) as [agent|]; [|done]. cbn [fst].
    pose proof (review_fields agent (inactive s) d msg ip) as F.
    apply inv_Update; [done|intros x; apply F|intros x; split; apply F|intros x _; apply F].
Qed.

Lemma grows_prepare enabled get ensure ips allow kind spec client now timeout s :
  grows s (PrepareIntercept enabled get ensure ips allow kind spec client now timeout s).1.
Proof.
  unfold PrepareIntercept. destruct (get_workload _ _ _); try by apply grows_same. destruct (ensure _) as [ac| |]; try by apply grows_same.
  assert (K : forall cn pi, grows s (checkInterceptConsistency allow ac cn spec client now timeout pi s).1).
  { intros cn pi. unfold checkInterceptConsistency. destruct (negb allow && _); [by apply grows_same|].
    destruct (match cn with Some c => _ | None => _ end) as [[c ic]| |]; try by apply grows_same.
    destruct (checkPortConsistency _ _ _ _) as [[pp cp]| |]; try by apply grows_same. unfold checkInterceptConflicts.
    repeat case_goal; try (by apply grows_same); cbn [fst]; apply grows_foldl; auto with tele. }
  assert (P : grows s (prepare_ports allow ac spec client now timeout s).1).
  { unfold prepare_ports. repeat (case_goal; try by apply grows_same); apply K. }
  destruct (prepare_ports _ _ _ _ _ _ s) as [t [pi|e|]]; cbn [fst] in *; try done.
  unfold mark_client. destruct (clients t !! client) as [c|]; [|done]. eapply grows_trans; [exact P|by apply grows_same].
Qed.
Lemma grows_step s s' : astep s s' -> grows s s'.
Proof.
  intros St. destruct St as [id ns now s s' Hn E|agent now s|id agent now s|id s|cm am s|nss s|enabled get ensure ips allow kind spec client now timeout s
                 |session id d msg ip s|id s|uid s|old s]; auto with tele; try by apply grows_same.
  - unfold addClient in E. destruct (clients s !! id); [done|]. injection E as <-. by apply grows_same.
  - unfold AddAgent. case_goal; [by apply grows_same|]. pose proof (grows_RestoreAgent (AgentSessionIDPrefix +:+ ag_PodUid agent) agent now s) as IR.
    by destruct (RestoreAgent _ _ _ s).
  - unfold RemoveSession. case_goal; auto with tele.
  - unfold expireSessions. eapply grows_trans; [|apply grows_foldl]; [apply grows_foldl|]; intros t k; unfold expire_agent, expire_client;
      repeat case_goal; auto with tele; by apply grows_same.
  - unfold pruneSessions. eapply grows_trans; [|apply grows_foldl]; [apply grows_foldl|]; intros t k; unfold prune_client; repeat case_goal; auto with tele; by apply grows_same.
  - apply grows_prepare.
  - unfold ReviewIntercept. case_goal; [apply grows_Update|by apply grows_same].
Qed.

(** What holds of a request that is under way. *)
Definition parent_ok (session : string) (p : nat) (s : State) : Prop :=
  (p < fresh_ptr s)%nat /\ forall x, objs s !! p = Some x -> mi_Session x = session.
Definition thread_ok (s : State) (th : thread) : Prop :=
  no_char ":" (th_session th) /\
  match th with
  | ThCreate (CrStore _ _) => True
  | ThCreate (CrChildren session _ p _) => parent_ok session p s
  | ThCreate (CrLink session _ p child _) => parent_ok session p s /\ exists name, child = intercept_id session name
  | ThRestore session _ _ ics _ => Forall (own_intercept session) ics
  end.
Lemma thread_ok_grows s s' th : grows s s' -> thread_ok s th -> thread_ok s' th.
Proof.
  intros [F G] [Hn Hth]. split; [done|].
  assert (P : forall session p, parent_ok session p s -> parent_ok session p s').
  { intros session p [L Hs]. split; [lia|]. intros x' Hx'. destruct (G _ _ L Hx') as (x & Hx & ->). by apply Hs. }
  destruct th as [[]|]; [done|by apply P| |done]. destruct Hth as [Hp Hth]. split; [by apply P|done].
Qed.

Lemma stored_new s id p : wf s -> (fresh_ptr s <= p)%nat -> forall s', intercepts s' !! id = Some p -> id ∈ stored s s'.
Proof.
  intros W L s' Hs. unfold stored. apply elem_of_dom. exists p. apply map_lookup_filter_Some. split; [done|]. cbn. intros Hp. destruct (W _ _ Hp). lia.
Qed.
Lemma stored_absent s id s' : intercepts s !! id = None -> is_Some (intercepts s' !! id) -> id ∈ stored s s'.
Proof. intros Hn [p Hp]. unfold stored. apply elem_of_dom. exists p. apply map_lookup_filter_Some. split; [done|]. cbn. by rewrite Hn. Qed.

Definition late_after (session : string) (s s' : State) (late : gset string) : gset string :=
  if bool_decide (is_Some (clients s !! session)) then late else late ∪ stored s s'.
Lemma late_after_sub session s s' late : late ⊆ late_after session s s' late.
Proof. unfold late_after. case_goal; set_solver. Qed.
Lemma late_after_in session s s' late id : id ∈ stored s s' -> is_Some (clients s !! session) \/ id ∈ late_after session s s' late.
Proof. intros Hi. unfold late_after. case_bool_decide; [by left|right; set_solver]. Qed.

(** A step that stores an intercept of the session. *)
Lemma inv_add_step late session name spec s t p : inv late s -> no_char ":" session ->
  addIntercept (intercept_id session name) session spec s = (t, Ret p) ->
  inv (late_after session s t late) t /\ grows s t /\ parent_ok session p t.
Proof.
  intros I Hn E. pose proof I as (W & _). destruct (addIntercept_ok _ _ _ _ _ _ W E) as (Ep & Ef & _ & _ & Ei & Eo & _).
  pose proof (inv_addIntercept (late := late_after session s t late) session name spec s) as It. rewrite E in It. split; [|split].
  - apply It; [by apply (inv_mono late); [apply late_after_sub|]|done|]. apply late_after_in. apply (stored_new s _ p); [done|lia|]. by rewrite Ei, lookup_insert_eq.
  - split; [lia|]. intros q x' L. rewrite Eo, lookup_insert_ne by lia. eauto.
  - split; [lia|]. intros x. rewrite Eo, Ep, lookup_insert_eq. intros [= <-]. apply added_fields.
Qed.

Lemma create_step_ok late c s s' o : inv late s -> thread_ok s (ThCreate c) -> create_step c s = (s', o) ->
  inv (late_after (th_session (ThCreate c)) s s' late) s' /\ grows s s' /\ Forall (thread_ok s') (ThCreate <$> option_list o).
Proof.
  intros I [Hn Hc] E.
  assert (Id : forall session, inv (late_after session s s late) s) by (intros; by apply (inv_mono late); [apply late_after_sub|]).
  destruct c as [session spec|session spec p [|pm pms]|session spec p child pms]; cbn [create_step th_session] in *.
  - destruct (addIntercept _ _ _ s) as [t [p|e|]] eqn:Ea.
    + injection E as <- <-. destruct (inv_add_step _ _ _ _ _ _ _ I Hn Ea) as (It & G & P). split_and!; [done..|]. apply Forall_singleton. by split.
    + injection E as <- <-. apply addIntercept_fail in Ea as ->. split_and!; [done|by apply grows_same|apply Forall_nil_2].
    + by apply addIntercept_panic in Ea.
  - injection E as <- <-. destruct (intercepts s !! _) as [q|] eqn:Eq.
    2:{ split_and!; [done|by apply grows_same|apply Forall_nil_2]. }
    split_and!; [|apply grows_addFinalizer|apply Forall_nil_2]. apply (inv_mono late); [apply late_after_sub|].
    pose proof I as (W & N & O). destruct (W _ _ Eq) as (_ & x & Hx & _). apply inv_addFinalizer with (mi_Session x); [done| |done]. intros y. congruence.
  - destruct (FromNumberAndTo pm) as [[from to]| |];
      try (injection E as <- <-; split_and!; [done|by apply grows_same|apply Forall_nil_2]).
    destruct (addIntercept _ _ _ s) as [t [q|e|]] eqn:Ea.
    + injection E as <- <-. destruct (inv_add_step _ _ _ _ _ _ _ I Hn Ea) as (It & G & _). split_and!; [done..|]. apply Forall_singleton.
      destruct (thread_ok_grows s t (ThCreate (CrChildren session spec p pms)) G (conj Hn Hc)) as [_ P]. split; [done|]. split; [done|]. eauto.
    + injection E as <- <-. apply addIntercept_fail in Ea as ->. split_and!; [done|by apply grows_same|apply Forall_nil_2].
    + by apply addIntercept_panic in Ea.
  - injection E as <- <-. destruct Hc as [P [name ->]].
    assert (G : grows s (mutate p (addFinalizer (RemoveChild (intercept_id session name))) s)) by apply grows_addFinalizer.
    split_and!; [|done|].
    + apply (inv_mono late); [apply late_after_sub|]. apply inv_addFinalizer with session; [done|apply P|]. intros c [= <-]. eauto.
    + apply Forall_singleton. by apply (thread_ok_grows s _ (ThCreate (CrChildren session spec p pms))).
Qed.

Lemma link_child_intercepts s x : intercepts (link_child s x) = intercepts s.
Proof. unfold link_child. by repeat case_goal. Qed.
Lemma RestoreIntercepts_stores workload l s i : i ∈ l -> is_Some (intercepts (RestoreIntercepts workload l s) !! ii_Id (mi_info i)).
Proof.
  intros Hi. unfold RestoreIntercepts.
  assert (H1 : forall l s ch id, is_Some (intercepts s !! id) \/ (exists i, i ∈ l /\ ii_Id (mi_info i) = id) ->
                 is_Some (intercepts (foldl (restore_one workload) (s, ch) l).1 !! id)).
  { clear. induction l as [|j l IH]; intros s ch id Hid; cbn [foldl].
    - destruct Hid as [?|(i & []%not_elem_of_nil & _)]. done.
    - unfold restore_one at 2. destruct (intercepts s !! ii_Id (mi_info j)) eqn:E.
      + apply IH. destruct Hid as [?|(i & [->|Hi]%elem_of_cons & <-)]; [by left|by left|right; eauto].
      + apply IH. unfold store_ptr. cbn [set_objs intercepts]. destruct (decide (ii_Id (mi_info j) = id)) as [->|Hne]; [left; by rewrite lookup_insert_eq|].
        rewrite lookup_insert_ne by done. destruct Hid as [?|(i & [->|Hi]%elem_of_cons & <-)]; [by left|done|right; eauto]. }
  specialize (H1 l s [] _ (or_intror (ex_intro _ i (conj Hi eq_refl)))). destruct (foldl _ _ l) as [t ch]. cbn [fst] in H1.
  revert t H1. induction ch as [|x ch IH]; intros t H1; cbn [foldl]; [done|]. apply IH. by rewrite link_child_intercepts.
Qed.

Lemma thread_step_ok late th s s' ths : inv late s -> thread_ok s th -> thread_step th s = (s', ths) ->
  inv (late_after (th_session th) s s' late) s' /\ grows s s' /\ Forall (thread_ok s') ths.
Proof.
  intros I Hth E. destruct th as [c|session workload ags ics now]; cbn [thread_step] in E.
  - destruct (create_step c s) as [t o] eqn:Ec. injection E as <- <-. by apply create_step_ok.
  - injection E as <- <-. destruct Hth as [Hn Hics]. cbn [th_session] in *.
    destruct (RestoreAgents_frame ags now s (inv_mono late _ s (late_after_sub session s (RestoreIntercepts workload ics (RestoreAgents ags now s)) late) I)) as (Ia & Ca & Oa & Fa & Na).
    set (t := RestoreAgents ags now s) in *. split_and!; [|eapply grows_trans; [by apply (grows_same s t)|apply grows_RestoreIntercepts]|apply Forall_nil_2].
    apply RestoreIntercepts_inv with session; [done|done|]. apply Forall_forall. intros i Hi. split; [by eapply Forall_forall in Hics|]. rewrite Ca, Na.
    destruct (intercepts s !! ii_Id (mi_info i)) eqn:En; [right; by right|]. destruct (late_after_in session s (RestoreIntercepts workload ics t) late (ii_Id (mi_info i))) as [?|?].
    + apply stored_absent; [done|]. by apply RestoreIntercepts_stores.
    + by left.
    + right. by left.
Qed.

Lemma manager_step_ok m m' : inv (m_late m) (m_state m) -> Forall (thread_ok (m_state m)) (m_threads m) -> mstep m m' ->
  inv (m_late m') (m_state m') /\ Forall (thread_ok (m_state m')) (m_threads m').
Proof.
  intros I T St. assert (K : forall s s' ths, grows s s' -> Forall (thread_ok s) ths -> Forall (thread_ok s') ths).
  { intros s s' ths G Hf. eapply Forall_impl; [exact Hf|]. intros th. by apply thread_ok_grows. }
  destruct St as [s s' ths late St|session spec s ths late C|session ns workload ags ics now s s' ths late Hn Ho E|th ths1 ths2 s late|th ths1 ths2 s late s' ths E];
    cbn [m_state m_threads m_late] in *.
  - split; [by eapply inv_step|]. eapply K; [by apply grows_step|done].
  - split; [done|]. apply Forall_cons. split; [|done]. split; [|done]. destruct I as (_ & [_ N] & _). by apply N.
  - split; [by eapply inv_addClient|]. apply Forall_cons. split; [by split|]. eapply K; [|done]. apply grows_step. by eapply st_client.
  - split; [done|]. apply Forall_app in T as [T1 T2]. apply Forall_cons in T2 as [_ T2]. by apply Forall_app.
  - apply Forall_app in T as [T1 T2]. apply Forall_cons in T2 as [Tt T2]. destruct (thread_step_ok late th s s' ths I Tt E) as (I' & G & T').
    split; [exact I'|]. rewrite !Forall_app. split_and!; [by apply (K s)|done|by apply (K s)].
Qed.

(** C1. In every state that the manager reaches, whatever requests come and however the creation
    of intercepts and the restoring of a client's intercepts, which nothing protects from
    other requests, are interleaved with them: the store of intercepts is well formed, every
    id leads to an object with that id, which is named after its session, and its finalizers
    remove intercepts of that session only.  No intercept outlives its client: one that is
    not removed belongs to a client session that is there, unless the client was gone already
    when the intercept was stored, since the code does not look at the client again after it
    has waited for an agent.  It is assumed that session ids have no colon and that a client
    that reconnects hands in intercepts of its own session, under the ids they had; the other
    requests are handled in one step each. *)
Theorem manager_invariant (m : manager) : reachable m -> wf (m_state m) /\ named (m_state m) /\ owned (m_late m) (m_state m).
Proof.
  intros R. enough (inv (m_late m) (m_state m) /\ Forall (thread_ok (m_state m)) (m_threads m)) as [I _] by exact I.
  induction R as [|m m' _ [I T] St]; [|by apply (manager_step_ok m)]. split; [apply inv_new|apply Forall_nil_2].
Qed.

(** Without other requests in between, the steps are [AddIntercept]. *)
Fixpoint create_run (n : nat) (c : option creation) (s : State) : State :=
  match n, c with
  | S n, Some c => let '(s, c) := create_step c s in create_run n c s
  | _, _ => s
  end.
Lemma create_children_alone session spec p pms : forall s n, (2 * length pms < n)%nat ->
  create_run n (Some (CrChildren session spec p pms)) s =
  match add_children session spec p pms s with
  | (s, Some e) => s
  | (s, None) => match intercepts s !! intercept_id session (sp_Name spec) with Some q => mutate q (addFinalizer RestoreAppContainer) s | None => s end
  end.
Proof.
  induction pms as [|pm pms IH]; intros s [|[|n]] L; cbn [length] in L; try lia; cbn [create_run create_step add_children].
  - done.
  - by destruct n.
  - destruct (FromNumberAndTo pm) as [[from to]| |]; [|by destruct n..]. destruct (addIntercept _ _ _ s) as [t [q|e|]] eqn:E; [|by destruct n|by apply addIntercept_panic in E].
    cbn [create_run create_step]. apply IH. lia.
Qed.
Lemma create_alone session spec s : is_Some (clients s !! session) ->
  create_run (2 * length (sp_PodPorts spec) + 2) (Some (CrStore session spec)) s = (AddIntercept session spec None s).1.
Proof.
  intros [c Hc]. unfold AddIntercept. rewrite Hc. replace (2 * _ + 2)%nat with (S (S (2 * length (sp_PodPorts spec)))) by lia.
  cbn [create_run create_step]. destruct (addIntercept _ _ spec s) as [t [p|e|]]; [|done..].
  etrans; [apply (create_children_alone session spec p (sp_PodPorts spec) t (S (2 * length (sp_PodPorts spec)))); lia|].
  by destruct (add_children _ _ _ _ t) as [u [e|]].
Qed.
End Machine.

(** ** Expiry *)

Lemma gc_clients session s : same_sessions (gcClientSessionIntercepts session s) s.
Proof.
  unfold gcClientSessionIntercepts. generalize (ids s). intros l. revert s. induction l as [|id l IH]; intros s; cbn [foldl]; [by repeat split|].
  eapply same_sessions_trans; [apply IH|]. destruct (gc_one_eq session s id) as (t & _ & _ & _ & T & ->).
  repeat case_goal; try (by repeat split). eapply same_sessions_trans; [apply RemoveIntercept_spec|done].
Qed.

(** A loop over distinct keys that deletes the keys with some property. *)
Lemma foldl_expire {V} (get : State -> gmap string V) (old : V -> bool) (step : State -> string -> State) (P : State -> Prop) :
  (forall s k, P s -> P (step s k)) ->
  (forall s k, P s -> get (step s k) = match get s !! k with Some v => if old v then delete k (get s) else get s | None => get s end) ->
  forall l s, P s -> P (foldl step s l) /\
  forall k v, get (foldl step s l) !! k = Some v <-> get s !! k = Some v /\ (k ∈ l -> old v = false).
Proof.
  intros HP H l. induction l as [|a l IH]; intros s Hs; cbn [foldl].
  - split; [done|]. intros k v. split; [|tauto]. intros E. split; [done|]. by intros []%not_elem_of_nil.
  - destruct (IH _ (HP _ a Hs)) as [H1 H2]. split; [done|]. intros k v. rewrite H2, H by done. setoid_rewrite elem_of_cons.
    destruct (get s !! a) as [w|] eqn:E; [destruct (old w) eqn:O|].
    + rewrite lookup_delete_Some. split; [naive_solver|]. intros [Hk Hl]. split; [|by auto]. split; [|done].
      intros ->. rewrite E in Hk. injection Hk as ->. rewrite Hl in O; [done|by left].
    + split; [|by naive_solver]. intros [Hk Hl]. split; [done|]. intros [->|?]; [congruence|auto].
    + split; [|by naive_solver]. intros [Hk Hl]. split; [done|]. intros [->|?]; [congruence|auto].
Qed.

Lemma expire_clients late moment s : inv late s ->
  let s' := foldl (expire_client moment) s (map_to_list (clients s)).*1 in
  inv late s' /\ agents s' = agents s /\
  forall k cs, clients s' !! k = Some cs <-> clients s !! k = Some cs /\ moment <= cl_timestamp cs.
Proof.
  intros I. destruct (foldl_expire clients (fun cs => cl_timestamp cs <? moment) (expire_client moment) (fun t => inv late t /\ agents t = agents s)) with
    (l := (map_to_list (clients s)).*1) (s := s) as [[H1 H2] H3].
  - intros t k [It At]. unfold expire_client. destruct (clients t !! k) as [cs|]; [|done]. destruct (_ <? _); [|done].
    split; [by apply inv_removeClient|]. unfold removeClientSession. cbn [agents]. rewrite <- At.
    by destruct (gc_clients k (delete_client k t)) as (-> & _).
  - intros t k [It At]. unfold expire_client. destruct (clients t !! k) as [cs|]; [|done]. destruct (_ <? _); [|done].
    unfold removeClientSession. cbn [clients]. destruct (gc_clients k (delete_client k t)) as (_ & -> & _). done.
  - done.
  - cbn zeta. split; [exact H1|]. split; [exact H2|]. intros k cs. rewrite H3. split; intros [Hk L]; (split; [done|]).
    + apply Z.ltb_ge, L. apply list_elem_of_fmap. exists (k, cs). split; [done|]. by apply elem_of_map_to_list.
    + intros _. by apply Z.ltb_ge.
Qed.
Lemma expire_agents late moment s : inv late s ->
  let s' := foldl (expire_agent moment) s (map_to_list (agents s)).*1 in
  inv late s' /\ clients s' = clients s /\
  forall k a, agents s' !! k = Some a <-> agents s !! k = Some a /\ moment <= as_timestamp a.
Proof.
  intros I. destruct (foldl_expire agents (fun a => as_timestamp a <? moment) (expire_agent moment) (fun t => inv late t /\ clients t = clients s)) with
    (l := (map_to_list (agents s)).*1) (s := s) as [[H1 H2] H3].
  - intros t k [It Ct]. unfold expire_agent. destruct (agents t !! k) as [a|] eqn:E; [|done]. destruct (_ <? _); [|done].
    split; [by apply inv_removeAgent|]. rewrite <- Ct. by apply (removeAgentSession_spec k a t (proj1 It)).
  - intros t k [It Ct]. unfold expire_agent. destruct (agents t !! k) as [a|] eqn:E; [|done]. destruct (_ <? _); [|done].
    by apply (removeAgentSession_spec k a t (proj1 It)).
  - done.
  - cbn zeta. split; [exact H1|]. split; [exact H2|]. intros k a. rewrite H3. split; intros [Hk L]; (split; [done|]).
    + apply Z.ltb_ge, L. apply list_elem_of_fmap. exists (k, a). split; [done|]. by apply elem_of_map_to_list.
    + intros _. by apply Z.ltb_ge.
Qed.

(** One tick of the garbage collection keeps exactly the sessions that were marked
    recently enough.  When the ticks show that the computer slept, the marks are
    moved by the length of the sleep first, so that no session expires for it. *)
Theorem gc_tick_correct (now lastTick clientTTL : Z) (late : gset string) (s : State) :
  wf s -> named s -> owned late s ->
  let slept := if tickInterval <? now - lastTick - tickInterval then now - lastTick - tickInterval else 0 in
  let '(s', tick) := gc_tick now lastTick clientTTL s in
  tick = now /\ (wf s' /\ named s' /\ owned late s') /\
  (forall k, is_Some (clients s' !! k) <-> exists cs, clients s !! k = Some cs /\ now - (cl_timestamp cs + slept) <= clientTTL) /\
  (forall k, is_Some (agents s' !! k) <-> exists a, agents s !! k = Some a /\ now - (as_timestamp a + slept) <= agentSessionTTL).
Proof.
  intros W N O slept. unfold gc_tick. split; [done|]. set (t := if _ <? _ then _ else s).
  assert (It : inv late t /\ (forall k, cl_timestamp <$> clients t !! k = (fun cs => cl_timestamp cs + slept) <$> clients s !! k) /\
               (forall k, as_timestamp <$> agents t !! k = (fun a => as_timestamp a + slept) <$> agents s !! k)).
  { unfold t, slept. destruct (_ <? _).
    - split; [|split; intros k; cbn [clients agents set_clients set_agents]; rewrite lookup_fmap, <- option_fmap_compose; done].
      apply (inv_set_clients _ (set_agents _ _ s)); [by split_and!|]. intros k. cbn [clients set_agents]. by rewrite lookup_fmap, fmap_is_Some.
    - split; [by split_and!|]. split; intros k; destruct (_ !! k); simpl; try done; by rewrite Z.add_0_r. }
  destruct It as (It & Ct & At). unfold expireSessions.
  destruct (expire_clients late (now - clientTTL) t It) as (I1 & A1 & C1). cbn zeta in *. set (u := foldl (expire_client _) t _) in *.
  destruct (expire_agents late (now - agentSessionTTL) u I1) as (I2 & C2 & A2). cbn zeta in *. split; [exact I2|]. rewrite C2. split; intros k.
  - specialize (Ct k). split.
    + intros [c [Hc L]%C1]. rewrite Hc in Ct. destruct (clients s !! k) as [cs|]; [|done]. injection Ct as E. exists cs. split; [done|]. lia.
    + intros (cs & Hk & L). rewrite Hk in Ct. destruct (clients t !! k) as [c|] eqn:E; [|done]. injection Ct as E'. exists c. apply C1. split; [done|lia].
  - specialize (At k). split.
    + intros [c [Hc L]%A2]. rewrite A1 in Hc. rewrite Hc in At. destruct (agents s !! k) as [a|]; [|done]. injection At as E. exists a. split; [done|]. lia.
    + intros (a & Hk & L). rewrite Hk in At. destruct (agents t !! k) as [c|] eqn:E; [|done]. injection At as E'. exists c. apply A2. rewrite A1. split; [done|lia].
Qed.

(** ** Creating an intercept and removing it *)

Definition with_children (x : MIntercept) (cs : list string) : MIntercept :=
  mkMI (mi_info x) (mi_Message x) (mi_Session x) (mi_PodIp x) (mi_PodName x) (mi_finalizers x ++ (RemoveChild <$> cs)).

(** The state [u] differs from [t] by the children [cs] of the intercept [id], whose object is [x] at [p]. *)
Record kids (t : State) (id : string) (p : nat) (x : MIntercept) (cs : list string) (u : State) : Prop := mkKids {
  k_wf : wf u;
  k_rest : same_rest u t;
  k_fresh : (fresh_ptr t <= fresh_ptr u)%nat;
  k_parent : intercepts u !! id = Some p;
  k_obj : objs u !! p = Some (with_children x cs);
  k_id : id ∉ cs;
  k_same : forall i, i ∉ cs -> intercepts u !! i = intercepts t !! i;
  k_objs : forall q, (q < fresh_ptr t)%nat -> q <> p -> objs u !! q = objs t !! q;
  k_free : forall i y, i ∈ cs -> GetIntercept t i = Some y -> mi_Disposition y = REMOVED
}.

Lemma kids_step t id p x cs u c session spec v q : wf t -> mi_Disposition x <> REMOVED -> kids t id p x cs u ->
  addIntercept c session spec u = (v, Ret q) -> kids t id p x (cs ++ [c]) (mutate p (addFinalizer (RemoveChild c)) v).
Proof.
  intros Wt D [Kw Kr Kf Kp Ko Ki Ks Kb Kc] E.
  destruct (addIntercept_ok _ _ _ _ _ _ Kw E) as (-> & Hf & Wv & Rv & Iv & Ov & _ & Hfree).
  destruct (Kw _ _ Kp) as (Lp & _).
  assert (Nc : c <> id).
  { intros ->. specialize (Hfree (with_children x cs)). unfold GetIntercept in Hfree. rewrite Kp in Hfree. simpl in Hfree.
    apply D, Hfree. exact Ko. }
  constructor.
  - by apply wf_mutate.
  - eapply same_rest_trans; [|exact Kr]. exact Rv.
  - change (fresh_ptr (mutate p _ v)) with (fresh_ptr v). lia.
  - change (intercepts (mutate p _ v)) with (intercepts v). by rewrite Iv, lookup_insert_ne.
  - unfold mutate. cbn [set_objs objs]. rewrite lookup_alter_eq, Ov, lookup_insert_ne, Ko by lia. simpl. f_equal.
    unfold addFinalizer, with_children. simpl. f_equal. by rewrite fmap_app, app_assoc.
  - rewrite elem_of_app, list_elem_of_singleton. naive_solver.
  - intros i Hi. rewrite elem_of_app, list_elem_of_singleton in Hi. change (intercepts (mutate p _ v)) with (intercepts v).
    rewrite Iv, lookup_insert_ne by naive_solver. apply Ks. naive_solver.
  - intros k Lk Nk. unfold mutate. cbn [set_objs objs]. rewrite lookup_alter_ne, Ov, lookup_insert_ne by (done || lia). auto.
  - intros i y Hi Hy. destruct (decide (i ∈ cs)) as [|Hn]; [by apply (Kc i)|].
    rewrite elem_of_app, list_elem_of_singleton in Hi. destruct Hi as [| ->]; [done|].
    apply Hfree. apply GetIntercept_Some in Hy as (k & Hk & Hy). apply GetIntercept_Some. exists k. rewrite (Ks c Hn). split; [done|].
    destruct (Wt _ _ Hk) as (Lk & _). rewrite Kb; [done|done|]. intros ->. apply Nc. apply (wf_inj u c id p); [done| |done]. by rewrite Ks.
Qed.

Section Roundtrip.
Context `{K8sApi}.

Lemma kids_all t id p x session spec pms : wf t -> mi_Disposition x <> REMOVED -> forall cs u v,
  kids t id p x cs u -> add_children session spec p pms u = (v, None) -> exists cs', kids t id p x cs' v.
Proof.
  intros Wt D. induction pms as [|pm pms IH]; intros cs u v K E; cbn [add_children] in E.
  - injection E as <-. eauto.
  - destruct (FromNumberAndTo pm) as [[from to]| |]; try done.
    destruct (addIntercept _ _ _ u) as [w [q|e|]] eqn:Ea; try done; [|by apply addIntercept_panic in Ea].
    eapply IH; [|exact E]. by eapply kids_step.
Qed.

(** What a successful [AddIntercept] has stored: the intercept and its children. *)
Lemma AddIntercept_ok session spec s t p : wf s -> AddIntercept session spec None s = (t, Ret p) ->
  let id := intercept_id session (sp_Name spec) in
  exists cs x, GetIntercept t id = Some x /\ mi_finalizers x = (RemoveChild <$> cs) ++ [RestoreAppContainer] /\ same_rest t s /\
  (forall i y, i = id \/ i ∈ cs -> GetIntercept s i = Some y -> mi_Disposition y = REMOVED) /\
  forall i, i <> id -> i ∉ cs -> intercepts t !! i = intercepts s !! i /\ GetIntercept t i = GetIntercept s i.
Proof.
  intros W E id. unfold AddIntercept in E. destruct (clients s !! session); [|done].
  fold id in E. destruct (addIntercept id session spec s) as [t0 [p0|e|]] eqn:Ea; [|done|done].
  destruct (add_children session spec p0 (sp_PodPorts spec) t0) as [t1 [e|]] eqn:Ec; [done|].
  destruct (addIntercept_ok _ _ _ _ _ _ W Ea) as (Ep & Hf & W0 & R0 & I0 & O0 & G0 & F0).
  destruct (added_fields id session spec s) as (_ & _ & Ff & Fd). set (x := added id session spec s) in *.
  assert (K0 : kids t0 id p0 x [] t0).
  { constructor; try done; [by rewrite I0, lookup_insert_eq| |apply not_elem_of_nil|by intros i y []%not_elem_of_nil].
    rewrite O0, lookup_insert_eq. unfold with_children. simpl. rewrite app_nil_r. by destruct x. }
  destruct (kids_all t0 id p0 x session spec _ W0 Fd [] t0 t1 K0 Ec) as (cs & [Kw Kr Kfr Kp Ko Ki Ks Kb Kc]).
  rewrite Kp in E. injection E as <- <-. exists cs, (addFinalizer RestoreAppContainer (with_children x cs)).
  split; [|split; [|split; [|split]]].
  - rewrite (GetIntercept_mutate t1 id p0) by done. rewrite decide_True by done. unfold GetIntercept. rewrite Kp. simpl. by rewrite Ko.
  - simpl. by rewrite Ff.
  - apply (same_rest_trans _ t0); [exact Kr|exact R0].
  - intros i y [->|Hi] Hy; [by apply F0|]. apply (Kc i y Hi). rewrite G0, decide_False; [done|congruence].
  - intros i N1 N2. assert (HI : intercepts t1 !! i = intercepts s !! i) by (rewrite Ks by done; by rewrite I0, lookup_insert_ne).
    split; [exact HI|]. rewrite (GetIntercept_mutate t1 id p0) by done. rewrite decide_False by done. unfold GetIntercept. rewrite HI.
    destruct (intercepts s !! i) as [k|] eqn:Ek; [|done]. simpl. destruct (W _ _ Ek) as (Lk & _).
    rewrite Kb by lia. by rewrite O0, lookup_insert_ne by lia.
Qed.

Lemma finalizers_restored id cs : forall s, restored (foldl (run_finalizer id) s (RemoveChild <$> cs)) = restored s.
Proof. induction cs as [|c cs IH]; intros s; [done|]. cbn [fmap list_fmap foldl]. by rewrite IH. Qed.

(** C26. When no stored intercept is marked as removed and no other request comes in between:
    creating an intercept, with its children for the pod ports, and removing it again
    leaves the manager with the intercepts, agents and clients that it had, and the
    finalizer that restores the application container of the workload has run for
    it, once. *)
Theorem AddIntercept_RemoveIntercept (session : string) (spec : InterceptSpec) (s t : State) (p : nat) :
  wf s -> (forall i x, GetIntercept s i = Some x -> mi_Disposition x <> REMOVED) ->
  AddIntercept session spec None s = (t, Ret p) ->
  let id := intercept_id session (sp_Name spec) in
  let u := RemoveIntercept id t in
  GetIntercept s id = None /\ is_Some (GetIntercept t id) /\
  intercepts u = intercepts s /\ (forall i, GetIntercept u i = GetIntercept s i) /\
  agents u = agents s /\ clients u = clients s /\
  restored u = restored s ++ [id].
Proof.
  intros W L E id u. destruct (AddIntercept_ok session spec s t p W E) as (cs & x & Gx & Fx & (R1 & R2 & _ & R4 & _) & Free & Same). fold id in Gx, Free, Same.
  destruct (RemoveIntercept_spec id t) as ((S1 & S2 & _) & _ & _ & H4 & _). fold u in S1, S2, H4. rewrite Gx in H4.
  assert (Hn : forall i, i = id \/ i ∈ cs -> GetIntercept s i = None).
  { intros i Hi. destruct (GetIntercept s i) as [y|] eqn:Ey; [|done]. by destruct (L i y Ey); apply (Free i). }
  assert (Hin : forall i, i = id \/ RemoveChild i ∈ mi_finalizers x <-> i = id \/ i ∈ cs).
  { intros i. rewrite Fx, elem_of_app, list_elem_of_singleton, list_elem_of_fmap. naive_solver. }
  split; [by apply Hn; left|]. split; [by rewrite Gx|]. split; [|split; [|split; [|split]]].
  - apply map_eq. intros i. rewrite H4. case_decide as Di; rewrite Hin in Di; [|apply Same; naive_solver].
    symmetry. by apply (GetIntercept_None s i W), Hn.
  - intros i. unfold u. rewrite GetIntercept_Remove, Gx. case_decide as Di; rewrite Hin in Di; [|apply Same; naive_solver].
    symmetry. by apply Hn.
  - by rewrite S1.
  - by rewrite S2.
  - unfold u, RemoveIntercept. rewrite Gx, Fx, reverse_app, foldl_app. cbn [reverse rev_append foldl].
    rewrite <- fmap_reverse, finalizers_restored. cbn [run_finalizer restored delete_id set_objs]. by rewrite R4.
Qed.
End Roundtrip.

(** ** Conflicts *)

Section Conflict.
Context {RX : GoRegexp}.

Lemma override_spec (msg : MIntercept -> string) l : forall s, wf s ->
  let s' := foldl (fun s x => UpdateIntercept (ii_Id (mi_info x)) (set_disposition AGENT_ERROR (msg x)) s) s l in
  forall i x', GetIntercept s' i = Some x' ->
    mi_Disposition x' = AGENT_ERROR \/ (GetIntercept s i = Some x' /\ forall x, x ∈ l -> ii_Id (mi_info x) <> i).
Proof.
  induction l as [|x l IH]; intros s W; cbn [foldl].
  - intros i x' Hx. right. split; [done|]. by intros y []%not_elem_of_nil.
  - assert (W' : wf (UpdateIntercept (ii_Id (mi_info x)) (set_disposition AGENT_ERROR (msg x)) s)) by (by apply wf_Update).
    intros i x' Hx. destruct (IH _ W' i x' Hx) as [?|[G N]]; [by left|].
    rewrite GetIntercept_Update in G by done. case_decide as D.
    + apply fmap_Some in G as (y & _ & ->). by left.
    + right. split; [done|]. intros y [->|Hy]%elem_of_cons; [congruence|auto].
Qed.

(** [checkInterceptConflicts]: a refusal names an intercept of the same workload and
    port that is in conflict and whose client is active, and changes nothing.
    After an acceptance no intercept that is in conflict remains live: those of
    inactive clients were put in error, and all others are as they were. *)
Theorem checkInterceptConflicts_correct (agentName ns client : string) (ports : list PortAndProto) (spec : InterceptSpec)
    (now timeout : Z) (s : State) :
  wf s -> sp_Wiretap spec = false ->
  match checkInterceptConflicts agentName ns client ports spec now timeout s with
  | (s', Some id) =>
      s' = s /\ exists x c, GetIntercept s id = Some x /\ PotentialConflict agentName ns ports (mi_info x) = true /\
      IsInConflict spec (mi_Spec x) = true /\ clients s !! mi_Session x = Some c /\ now - cl_timestamp c <= timeout
  | (s', None) =>
      forall i x, GetIntercept s' i = Some x ->
        (PotentialConflict agentName ns ports (mi_info x) && IsInConflict spec (mi_Spec x)) = false /\
        (GetIntercept s i = Some x \/ mi_Disposition x = AGENT_ERROR)
  end.
Proof.
  intros W Wt. unfold checkInterceptConflicts. rewrite Wt. destruct (list_find _ _) as [[k x]|] eqn:F.
  - split; [done|]. apply list_find_Some in F as (Hk & Hx & _). apply list_elem_of_lookup_2, list_elem_of_filter in Hk as [Hc Hp].
    destruct (potential_conflicts_spec _ _ _ _ _ W Hp) as [G P]. exists x.
    unfold client_inactive in Hx. destruct (clients s !! mi_Session x) as [c|]; [|done]. exists c. bools. split_and!; try done.
  - intros i x Hx.
    destruct (override_spec (fun x => override_message client spec (mi_Spec x)) _ s W i x Hx) as [D|[G N]].
    + split; [|by right]. unfold PotentialConflict. unfold mi_Disposition in D. by rewrite D.
    + split; [|by left]. destruct (_ && _) eqn:B; [|done]. bools. exfalso. apply (N x); [|by apply GetIntercept_id with s].
      apply list_elem_of_filter. split; [done|]. apply list_elem_of_filter. split; [done|]. apply list_elem_of_omap. exists i.
      split; [|done]. apply elem_of_ids. apply GetIntercept_Some in G as (p & Hp & _). eauto.
Qed.
End Conflict.

(** ** Where the protocol of a child is lost *)

Lemma string_of_byte_proto n : fits 8 n -> FromK8sProtocol (string_of_byte n) = ProtoTCP.
Proof.
  intros Hn. assert (A : forallb (fun n => FromK8sProtocol (string_of_byte n) =? ProtoTCP) (seqZ 0 256) = true) by (vm_compute; reflexivity).
  rewrite forallb_forall in A. apply Z.eqb_eq, A, list_elem_of_In, elem_of_seqZ. unfold fits in Hn. lia.
Qed.

(** The protocol of a child intercept is set with Go's conversion of a byte to a
    string, which is not the name of the protocol: the child of a UDP pod port counts
    as a TCP intercept.  No agent target on that UDP port serves it, and it is never
    taken for a conflict with another intercept of the port. *)
Theorem child_protocol_lost `{K8sApi} (spec : InterceptSpec) (pm : string) (from : Z) (to : PortAndProto)
    (agentName ns id : string) (d : Disposition) (cp : InterceptTarget) :
  pp_Proto to = ProtoUDP -> it_Protocol cp = Some ProtoUDP ->
  MatchForSpec cp (child_spec spec pm from to) = Some false /\
  PotentialConflict agentName ns [{| pp_Port := from; pp_Proto := ProtoUDP |}] (mkInfo id d (child_spec spec pm from to)) = false.
Proof.
  intros Hp Ht. assert (E : FromK8sProtocol (sp_Protocol (child_spec spec pm from to)) = ProtoTCP).
  { cbn [child_spec sp_Protocol]. rewrite Hp. by apply string_of_byte_proto. }
  split.
  - unfold MatchForSpec. unfold it_Protocol in Ht. destruct cp as [|ic cp]; [done|]. cbn in Ht |- *. injection Ht as ->.
    cbn [child_spec sp_Protocol] in E. rewrite E. cbn. by rewrite andb_false_r.
  - unfold PotentialConflict. cbn [ii_Disposition ii_Spec]. rewrite E.
    assert (N : {| pp_Port := u16 (sp_ContainerPort (child_spec spec pm from to)); pp_Proto := ProtoTCP |} ∉ [{| pp_Port := from; pp_Proto := ProtoUDP |}]).
    { rewrite list_elem_of_singleton. intros [=]. }
    destruct d; try done; rewrite (bool_decide_eq_false_2 _ N); by rewrite andb_false_r.
Qed.

(** * Concrete executions of the traffic-manager

    Runs of the modelled manager on small inputs: the instances of its theorems, and
    executions in which it does not do what its comments promise. *)
Definition ex_mechanism : Mechanism := mkMech "tcp" "telepresence" "2.0".
Definition ex_agent (uid pod ip : string) : AgentInfo := mkAgent "echo" "default" uid pod ip "telepresence" "2.0" [ex_mechanism].
Definition ex_spec (name : string) (podPorts : list string) : InterceptSpec :=
  mkSpec name "user@host" "echo" "default" "echo" "app" "80" 8080 "TCP" false false false [] [] podPorts "tcp" 9090 "uid" "http" 80.

(** A client, two agents of one workload and one intercept served by the first. *)
Definition ex_base : State :=
  let s := default NewState (addClient "c1" "default" 100 NewState) in
  let s := (AddAgent (ex_agent "u1" "echo-1" "10.0.0.1") 100 s).1 in
  (AddAgent (ex_agent "u2" "echo-2" "10.0.0.2") 100 s).1.
Definition ex_added : State := (@AddIntercept K8sRef "c1" (ex_spec "echo" []) None ex_base).1.
Definition ex_active : State := (ReviewIntercept "agent:u1" "c1:echo" ACTIVE "" "10.0.0.1" ex_added).1.

(** The same requests with the steps of the creation, as far as the client being there. *)
Definition ex_running (s : State) (ths : list thread) : manager := mkManager s ths ∅.
Lemma ex_base_reachable : @reachable K8sRef simple_regexp (ex_running ex_base []).
Proof.
  eapply r_step; [eapply r_step; [eapply r_step; [apply r_init|]|]|]; apply ms_request.
  - apply (st_client "c1" "default" 100); vm_compute; reflexivity.
  - apply st_agent.
  - apply st_agent.
Qed.
Definition ex_stored : State := (@create_step K8sRef (CrStore "c1" (ex_spec "echo" [])) ex_base).1.
Lemma ex_active_reachable : @reachable K8sRef simple_regexp (ex_running ex_active []).
Proof.
  eapply r_step; [eapply r_step; [eapply r_step; [eapply r_step; [exact ex_base_reachable|]|]|]|].
  - apply (ms_create "c1" (ex_spec "echo" [])). vm_compute. by eexists.
  - apply (ms_thread _ [] [] ex_base ∅ ex_stored). vm_compute. reflexivity.
  - apply (ms_thread _ [] [] ex_stored ∅ ex_added []). vm_compute. reflexivity.
  - apply ms_request. apply (st_review "agent:u1" "c1:echo" ACTIVE "" "10.0.0.1" ex_added).
Qed.

Lemma manager_invariant_witness :
  @reachable K8sRef simple_regexp (ex_running ex_active []) /\ (wf ex_active /\ named ex_active /\ owned ∅ ex_active) /\
  mi_Disposition <$> GetIntercept ex_active "c1:echo" = Some ACTIVE.
Proof.
  split; [exact ex_active_reachable|]. split; [exact (@manager_invariant K8sRef simple_regexp (ex_running ex_active []) ex_active_reachable)|].
  vm_compute. reflexivity.
Defined.

(** A client that leaves while the manager waits for the agent: the intercept is stored
    nevertheless, and nothing removes it.  It counts as late. *)
Definition ex_orphan : State := (@create_step K8sRef (CrStore "c1" (ex_spec "echo" [])) (RemoveSession "c1" ex_base)).1.
Definition ex_orphan_done : State := (@create_step K8sRef (CrChildren "c1" (ex_spec "echo" []) 0 []) ex_orphan).1.
Theorem client_gone_intercept_stored :
  @reachable K8sRef simple_regexp (mkManager ex_orphan_done [] {["c1:echo"]}) /\
  clients ex_orphan_done = ∅ /\ mi_Disposition <$> GetIntercept ex_orphan_done "c1:echo" = Some WAITING /\
  ids (expireSessions 1000000 0 ex_orphan_done) = ["c1:echo"].
Proof.
  split; [|vm_compute; auto].
  eapply r_step; [eapply r_step; [eapply r_step; [eapply r_step; [exact ex_base_reachable|]|]|]|].
  - apply (ms_create "c1" (ex_spec "echo" [])). vm_compute. by eexists.
  - apply ms_request. apply (st_remove "c1" ex_base).
  - apply (ms_thread _ [] [] (RemoveSession "c1" ex_base) ∅ ex_orphan). vm_compute. reflexivity.
  - set (l := if bool_decide _ then _ else _). replace ({["c1:echo"]} : gset string) with (if bool_decide (is_Some (clients ex_orphan !! "c1")) then l else l ∪ stored ex_orphan ex_orphan_done).
    + apply (ms_thread _ [] [] ex_orphan _ ex_orphan_done []). vm_compute. reflexivity.
    + vm_compute. reflexivity.
Qed.

(** Invariants by the steps, without the theorem on reachable states. *)
Lemma ex_inv : inv ∅ ex_active.
Proof.
  pose proof (@inv_step K8sRef simple_regexp ∅) as St.
  unfold ex_active, ex_added, ex_base.
  eapply St; [apply (@inv_AddIntercept ∅ K8sRef); eapply St; [eapply St; [eapply St; [apply inv_new|]|]|]|].
  - apply (st_client "c1" "default" 100); vm_compute; reflexivity.
  - apply st_agent.
  - apply st_agent.
  - apply st_review.
Qed.

Definition ex_agent_session : AgentSession := mkAS (ex_agent "u1" "echo-1" "10.0.0.1") 100.
Lemma removeAgentSession_correct_witness :
  let s' := removeAgentSession "agent:u1" ex_active in
  agents s' = delete "agent:u1" (agents ex_active) /\ mi_Disposition <$> GetIntercept s' "c1:echo" = Some WAITING.
Proof.
  assert (Ha : agents ex_active !! "agent:u1" = Some ex_agent_session) by (vm_compute; reflexivity).
  destruct (removeAgentSession_correct "agent:u1" ex_agent_session ex_active (proj1 ex_inv) Ha) as (A & _).
  split; [exact A|]. vm_compute. reflexivity.
Defined.

Lemma AddAgent_correct_witness :
  let '(s', r) := AddAgent (ex_agent "u3" "echo-3" "10.0.0.3") 200 ex_active in
  r = Registered /\ agents s' = <["agent:u3" := mkAS (ex_agent "u3" "echo-3" "10.0.0.3") 200]> (agents ex_active).
Proof.
  pose proof (AddAgent_correct (ex_agent "u3" "echo-3" "10.0.0.3") 200 ex_active (proj1 ex_inv)) as T. cbv zeta in T.
  destruct (AddAgent _ _ _) as [s' r]. destruct T as (_ & _ & T).
  destruct T as (R & A & _); [|vm_compute; reflexivity|split; [exact R|exact A]].
  vm_compute. intros H. inversion H.
Defined.

Lemma RemoveSession_client_correct_witness :
  clients (RemoveSession "c1" ex_active) = delete "c1" (clients ex_active) /\ GetIntercept (RemoveSession "c1" ex_active) "c1:echo" = None.
Proof.
  destruct (RemoveSession_client_correct "c1" (mkCSn "default" 100 0 0) ex_active) as (A & _);
    [exact (proj1 ex_inv)|exact (proj1 (proj2 ex_inv))|vm_compute; reflexivity|].
  split; [exact A|]. vm_compute. reflexivity.
Defined.

(** The computer slept for a day: nothing expires, with a timeout of a minute. *)
Lemma gc_tick_correct_witness :
  let '(s', _) := gc_tick (86400 * 1000000000) 100 (60 * 1000000000) ex_active in is_Some (clients s' !! "c1") /\ is_Some (agents s' !! "agent:u1").
Proof.
  destruct ex_inv as (W & N & O). pose proof (gc_tick_correct (86400 * 1000000000) 100 (60 * 1000000000) ∅ ex_active W N O) as T.
  destruct (gc_tick _ _ _ _) as [s' t]. destruct T as (_ & _ & C & A). split.
  - apply C. exists (mkCSn "default" 100 0 0). split; [vm_compute; reflexivity|]. vm_compute. discriminate.
  - apply A. exists ex_agent_session. split; [vm_compute; reflexivity|]. vm_compute. discriminate.
Defined.

Definition ex_multi : InterceptSpec := ex_spec "multi" ["8081:9091"; "8082:9092"].
Definition ex_multi_added : State := (@AddIntercept K8sRef "c1" ex_multi None ex_base).1.
Lemma AddIntercept_RemoveIntercept_witness :
  size (intercepts ex_multi_added) = 3%nat /\ intercepts (RemoveIntercept "c1:multi" ex_multi_added) = intercepts ex_base.
Proof.
  split; [vm_compute; reflexivity|].
  destruct (@AddIntercept_RemoveIntercept K8sRef "c1" ex_multi ex_base ex_multi_added 0) as (_ & _ & A & _).
  - intros id p H. apply elem_of_map_to_list in H. vm_compute in H. inversion H.
  - intros i x H. apply GetIntercept_Some in H as (p & H & _). apply elem_of_map_to_list in H. vm_compute in H. inversion H.
  - vm_compute. reflexivity.
  - exact A.
Defined.

Lemma checkInterceptConflicts_correct_witness :
  exists x, GetIntercept ex_active "c1:echo" = Some x /\ @IsInConflict simple_regexp (ex_spec "other" []) (mi_Spec x) = true.
Proof.
  pose proof (@checkInterceptConflicts_correct simple_regexp "echo" "default" "c2" [{| pp_Port := 8080; pp_Proto := ProtoTCP |}]
    (ex_spec "other" []) 150 60 ex_active (proj1 ex_inv) eq_refl) as T.
  assert (E : @checkInterceptConflicts simple_regexp "echo" "default" "c2" [{| pp_Port := 8080; pp_Proto := ProtoTCP |}]
    (ex_spec "other" []) 150 60 ex_active = (ex_active, Some "c1:echo")) by (vm_compute; reflexivity).
  rewrite E in T. destruct T as (_ & x & c & Hx & _ & Hc & _). exists x. split; [exact Hx|exact Hc].
Defined.

Definition ex_udp : PortAndProto := {| pp_Port := 9091; pp_Proto := ProtoUDP |}.
Lemma child_protocol_lost_witness :
  FromNumberAndTo "8081:9091/udp" = Ret (8081, ex_udp) /\
  MatchForSpec [mkIntercept "dns" "" "" "" false ProtoUDP "" 8081 0 9900] (@child_spec K8sRef (ex_spec "u" []) "8081:9091/udp" 8081 ex_udp) = Some false.
Proof.
  split; [vm_compute; reflexivity|].
  exact (proj1 (@child_protocol_lost K8sRef (ex_spec "u" []) "8081:9091/udp" 8081 ex_udp "echo" "default" "c1:u" WAITING
    [mkIntercept "dns" "" "" "" false ProtoUDP "" 8081 0 9900] eq_refl eq_refl)).
Defined.

(** ** Executions that leave something behind *)

(** [AddIntercept] step by step, with an agent's review between the creation of the
    intercept and that of its child. *)
Definition ex_race : State :=
  let '(s, r) := addIntercept "c1:multi" "c1" (ex_spec "multi" ["8081:9091"]) ex_base in
  match r with
  | Ret p =>
      let s := (ReviewIntercept "agent:u1" "c1:multi" ACTIVE "" "10.0.0.1" s).1 in
      let s := (@add_children K8sRef "c1" (ex_spec "multi" ["8081:9091"]) p ["8081:9091"] s).1 in
      RemoveIntercept "c1:multi" s
  | _ => s
  end.

(** When an agent reviews the intercept before its children are added, their
    finalizers go to an object that is no longer stored: removing the intercept
    leaves the child in the map. *)
Theorem child_finalizer_lost :
  GetIntercept ex_race "c1:multi" = None /\ ids ex_race = ["c1:multi-8081-" +:+ string_of_byte ProtoTCP] /\
  mi_Disposition <$> (head (ids ex_race) ≫= GetIntercept ex_race) = Some WAITING.
Proof. vm_compute. auto. Qed.

(** When a child cannot be added, the request fails but the intercept and the
    children added before stay, and removing it does not restore the container. *)
Theorem AddIntercept_leaves_parent :
  let spec := ex_spec "multi" ["8081:9091"; "8081:9092"] in
  let '(s, r) := @AddIntercept K8sRef "c1" spec None ex_base in
  r = Fail (AlreadyExists (sp_Name (@child_spec K8sRef spec "8081:9092" 8081 {| pp_Port := 9092; pp_Proto := ProtoTCP |}))) /\
  mi_Disposition <$> GetIntercept s "c1:multi" = Some WAITING /\ size (intercepts s) = 2%nat /\
  restored (RemoveIntercept "c1:multi" s) = [].
Proof. vm_compute. auto. Qed.

(** [mechanismsAreTheSame] only checks that the names of its first list are
    distinct: the answer depends on the order of its arguments. *)
Theorem mechanisms_asymmetric :
  let x := mkMech "tcp" "telepresence" "2.0" in
  let y := mkMech "http" "telepresence" "2.0" in
  mechanismsAreTheSame [x; y] [x; x] = true /\ mechanismsAreTheSame [x; x] [x; y] = false.
Proof. vm_compute. auto. Qed.
