(* ===== verification/ManagerService.v ===== *)
(** * The traffic-manager's service (src/cmd/traffic/cmd/manager/service.go, data.go)

    The requests of clients and agents: validation, sessions, intercepts, the streams that
    tell clients and agents what concerns them, lookups of names, and the removal of agents
    that nobody uses.  The state behind it is that of [ManagerState]; this file adds what
    the state leaves out of an agent ([AgentDetail]), the time a client has spent, and the
    file of engagement times.

    The file is YAML: what the library reads from the bytes is a value ([StateYAML]).  The
    versions are read by a library ([Semver]); the resolver of the host is that of
    [DnsProxy].  Time is an argument. *)
From S2P Require Import Prelude NetIP GoStrings NetParse DnsProxy PortTypes IpUtil SessionRoutes Matcher Icept AgentConfig CacheMap ManagerState ManagerPrepare.
From Stdlib Require Import Ascii.
Local Open Scope Z_scope.

(** ** Validation (data.go) *)

Record ClientInfo := mkCI { ci_Name : string; ci_Namespace : string; ci_InstallId : string; ci_Product : string; ci_Version : string }.

(** [semver.Parse]: an error's text, or the major and the minor version. *)
Class Semver := semver_Parse : string -> string + Z * Z.

Definition is_empty (s : string) : bool := bool_decide (s = EmptyString).

(** The empty text tells that a value is valid. *)
Definition validateClient `{Semver} (c : ClientInfo) : string :=
  if is_empty (ci_Name c) then "name must not be empty"
  else if is_empty (ci_Namespace c) then "namespace must not be empty"
  else if is_empty (ci_InstallId c) then "install ID must not be empty"
  else if is_empty (ci_Product c) then "product must not be empty"
  else if is_empty (ci_Version c) then "version must not be empty"
  else match semver_Parse (TrimPrefix (ci_Version c) "v") with
       | inl err => err
       | inr (major, minor) => if (major <? 2) || (major =? 2) && (minor <? 6) then "client version must be at least 2.6.0" else ""
       end.
Definition validateMechanism (m : Mechanism) : string :=
  if is_empty (mech_Name m) then "name must not be empty"
  else if is_empty (mech_Product m) then "product must not be empty"
  else if is_empty (mech_Version m) then "version must not be empty"
  else "".
Fixpoint validate_mechanisms (idx : Z) (ms : list Mechanism) : string :=
  match ms with
  | [] => ""
  | m :: ms => if is_empty (validateMechanism m) then validate_mechanisms (idx + 1) ms
               else "mechanism " +:+ itoa (idx + 1) +:+ ": " +:+ validateMechanism m
  end.
Definition validateAgent (a : AgentInfo) : string :=
  if is_empty (ag_Name a) then "name must not be empty"
  else if is_empty (ag_Namespace a) then "namespace must not be empty"
  else if is_empty (ag_Product a) then "product must not be empty"
  else if is_empty (ag_Version a) then "version must not be empty"
  else if Nat.eqb (length (ag_Mechanisms a)) 0 then "mechanisms must not be empty"
  else validate_mechanisms 0 (ag_Mechanisms a).
Definition validateIntercept (spec : InterceptSpec) : string :=
  if is_empty (sp_Client spec) then "client must not be empty"
  else if is_empty (sp_Agent spec) then "agent must not be empty"
  else if is_empty (sp_Namespace spec) then "namespace must not be empty"
  else if is_empty (sp_Mechanism spec) then "mechanism must not be empty"
  else "".

(** ** The state of the service *)

(** What an agent tells besides [AgentInfo]: its kind, the port of its API and the
    environment of its containers. *)
Record AgentDetail := mkAD { ad_Kind : string; ad_ApiPort : Z; ad_Containers : gmap string (gmap string string) }.

(** A workload: kind, name and namespace (mutator.WorkloadKey). *)
Definition wl_key : Type := string * string * string.
Definition wl_key_String (k : wl_key) : string := k.1.1 +:+ "." +:+ k.1.2 +:+ "." +:+ k.2.

(** The bytes of the state file as YAML: none, no YAML of the right form, or the times by
    the text of their key.  The zero time is 0. *)
Inductive StateYAML := NoYAML | BadYAML | TimesYAML (m : gmap string Z).

Record service := mkSv {
  sv_state : State;
  sv_details : gmap string AgentDetail;   (* by the session of the agent *)
  sv_spent : gmap string (Z * Z);         (* connect duration and last update of a client *)
  sv_agentStateYAML : StateYAML;
  sv_tmConfigMapUpdated : bool
}.
Definition set_state (st : State) (s : service) : service := mkSv st (sv_details s) (sv_spent s) (sv_agentStateYAML s) (sv_tmConfigMapUpdated s).
Definition set_yaml (y : StateYAML) (s : service) : service := mkSv (sv_state s) (sv_details s) (sv_spent s) y true.

Record ServiceEnv := mkSEnv {
  env_namespaces : list string;           (* the managed ones *)
  env_ManagerNamespace : string;
  env_Excluded : list string;             (* variables that agents must not share *)
  env_AgentMaxIdleTime : Z;
  env_installID : string
}.

Inductive svc_error :=
| SessionMissing (session : string) | InterceptMissing (name : string) | NotManaged (namespace : string) | InvalidArgument (why : string) | Aborted | NoAgents
| BadStateFile | UnknownWorkload | NotEvicted | OfState (e : manager_error) | OfPrepare (e : prepare_error) | OfEnsure (why : string).

Record SessionInfo := mkSI { si_SessionId : string; si_ManagerInstallId : string; si_InstallId : option string }.

Definition ManagesNamespace (env : ServiceEnv) (ns : string) : bool := bool_decide (ns ∈ env_namespaces env).
Definition GetClient (s : service) (id : string) : option ClientSession := clients (sv_state s) !! id.

Definition ensureClientSession (s : service) (session : string) : Go svc_error ClientSession :=
  match GetClient s session with Some c => Ret c | None => Fail (SessionMissing session) end.
Definition managedTargetNamespace (env : ServiceEnv) (c : ClientSession) (namespace : string) : Go svc_error string :=
  let namespace := if is_empty namespace then cl_Namespace c else namespace in
  if ManagesNamespace env namespace then Ret namespace else Fail (NotManaged namespace).

Definition removeExcludedEnvVars (env : ServiceEnv) (vars : gmap string string) : gmap string string :=
  foldl (fun vars key => delete key vars) vars (env_Excluded env).

(** [Mark] on the session of a client or an agent. *)
Definition mark_client_at (id : string) (t : Z) (st : State) : State :=
  set_clients (alter (fun c => mkCSn (cl_Namespace c) (Mark (cl_timestamp c) t).1 (cl_fromClient c) (cl_toClient c)) id (clients st)) st.
Definition mark_agent_at (id : string) (t : Z) (st : State) : State :=
  set_agents (alter (fun a => mkAS (as_info a) (Mark (as_timestamp a) t).1) id (agents st)) (inactive st) st.

(** ** Sessions *)

Section Sessions.
Context `{Semver}.

(** A client that is added also gets its metrics, with [now] as the last update. *)
Definition add_client (id : string) (c : ClientInfo) (now : Z) (s : service) : option service :=
  st ← addClient id (ci_Namespace c) now (sv_state s);
  Some (mkSv st (sv_details s) (<[id := (0, now)]> (sv_spent s)) (sv_agentStateYAML s) (sv_tmConfigMapUpdated s)).

(** [uuid] is the new session id. *)
Definition ArriveAsClient (env : ServiceEnv) (c : ClientInfo) (uuid : string) (now : Z) (s : service) : service * Go svc_error SessionInfo :=
  if negb (ManagesNamespace env (ci_Namespace c)) then (s, Fail (NotManaged (ci_Namespace c)))
  else if negb (is_empty (validateClient c)) then (s, Fail (InvalidArgument (validateClient c)))
  else match add_client uuid c now s with
       | Some s => (s, Ret (mkSI uuid (env_installID env) (Some (ci_InstallId c))))
       | None => (s, Panic)
       end.

(** An agent is stored with its details unless its session is known. *)
Definition keep_detail (id : string) (known : bool) (d : AgentDetail) (m : gmap string AgentDetail) : gmap string AgentDetail :=
  if known then m else <[id := d]> m.
Definition agent_known (id : string) (s : service) : bool := bool_decide (is_Some (agents (sv_state s) !! id)).
Definition agent_id (a : AgentInfo) : string := AgentSessionIDPrefix +:+ ag_PodUid a.

Definition restore_agents (l : list (AgentInfo * AgentDetail)) (now : Z) (s : service) : service :=
  foldl (fun s a =>
    mkSv (RestoreAgents [a.1] now (sv_state s)) (keep_detail (agent_id a.1) (agent_known (agent_id a.1) s) a.2 (sv_details s))
      (sv_spent s) (sv_agentStateYAML s) (sv_tmConfigMapUpdated s)) s l.

(** [client] is nil when the request has none; [workload] tells whether the workload of an
    intercept was found. *)
Definition ReconnectClient (env : ServiceEnv) (workload : InterceptSpec -> bool) (session : string) (client : option ClientInfo)
    (ags : list (AgentInfo * AgentDetail)) (ics : list MIntercept) (now : Z) (s : service) : service * Go svc_error () :=
  match GetClient s session, client with
  | Some _, _ => (s, Ret ())
  | None, None => (s, Panic)
  | None, Some c =>
      if negb (ManagesNamespace env (ci_Namespace c)) then (s, Fail (NotManaged (ci_Namespace c)))
      else if negb (is_empty (validateClient c)) then (s, Fail (InvalidArgument (validateClient c)))
      else match add_client session c now s with
           | None => (s, Panic)
           | Some s =>
               let s := restore_agents (filter (fun a => ag_Namespace a.1 ∈ env_namespaces env) ags) now s in
               (set_state (RestoreIntercepts workload (filter (fun i => sp_Namespace (mi_Spec i) ∈ env_namespaces env) ics) (sv_state s)) s, Ret ())
           end
  end.

(** The session id is empty when the agent's session is known already. *)
Definition ArriveAsAgent (env : ServiceEnv) (a : AgentInfo) (d : AgentDetail) (now : Z) (s : service) : service * Go svc_error SessionInfo :=
  if negb (is_empty (validateAgent a)) then (s, Fail (InvalidArgument (validateAgent a)))
  else
    let d := mkAD (ad_Kind d) (ad_ApiPort d) (removeExcludedEnvVars env <$> ad_Containers d) in
    match AddAgent a now (sv_state s) with
    | (_, InactivatedPod) => (s, Fail Aborted)
    | (st, r) =>
        let known := match r with AlreadyRegistered => true | _ => false end in
        (mkSv st (keep_detail (agent_id a) known d (sv_details s)) (sv_spent s) (sv_agentStateYAML s) (sv_tmConfigMapUpdated s),
         Ret (mkSI (if known then EmptyString else agent_id a) (env_installID env) None))
    end.
Definition ReconnectAgent (session : string) (a : AgentInfo) (d : AgentDetail) (now : Z) (s : service) : service * Go svc_error () :=
  (mkSv (RestoreAgent session a now (sv_state s)).1 (keep_detail session (agent_known session s) d (sv_details s)) (sv_spent s) (sv_agentStateYAML s) (sv_tmConfigMapUpdated s), Ret ()).

(** The removal runs in a goroutine of its own; this is its effect. *)
Definition Depart (session : string) (s : service) : service := set_state (RemoveSession session (sv_state s)) s.
End Sessions.

(** ** Engagement times and idle agents *)

Definition CountActiveInterceptsForWorkload (s : service) (k : wl_key) : nat :=
  length (filter (fun x => mi_Disposition x = ACTIVE /\ sp_Agent (mi_Spec x) = k.1.2 /\ sp_Namespace (mi_Spec x) = k.2)
            (omap (GetIntercept (sv_state s)) (ids (sv_state s)))).

(** [AgentStateFile.MarshalJSON] and [UnmarshalJSON]: a key is a text of three parts. *)
Definition MarshalStates (f : gmap wl_key Z) : gmap string Z := list_to_map ((fun kv => (wl_key_String kv.1, kv.2)) <$> map_to_list f).
Definition parse_wl_key (s : string) : option wl_key :=
  match SplitByte s "." with [kind; name; namespace] => Some (kind, name, namespace) | _ => None end.
Definition UnmarshalStates (raw : gmap string Z) : option (gmap wl_key Z) :=
  list_to_map <$> mapM (fun kv : string * Z => (fun k => (k, kv.2)) <$> parse_wl_key kv.1) (map_to_list raw).
Definition read_states (y : StateYAML) : option (gmap wl_key Z) :=
  match y with NoYAML => Some ∅ | BadYAML => None | TimesYAML m => UnmarshalStates m end.

Definition UpdateLastEngagementTime (k : wl_key) (now : Z) (s : service) : service * Go svc_error () :=
  let stored f := (set_yaml (TimesYAML (MarshalStates (<[k := now]> f))) s, Ret ()) in
  match sv_agentStateYAML s with
  | NoYAML => stored ∅
  | y =>
      match read_states y with
      | None => (s, Fail BadStateFile)
      | Some f =>
          if negb (default 0 (f !! k) =? 0) && Nat.eqb (CountActiveInterceptsForWorkload s k) 0 then (s, Ret ()) else stored f
      end
  end.

(** Whether the configuration of the workload is deleted and its pods are evicted, and the
    error.  [found] tells whether the workload exists, [evicted] whether the eviction
    succeeds. *)
Definition removeUnusedAgent (env : ServiceEnv) (found evicted : bool) (k : wl_key) (now : Z) (s : service) : bool * Go svc_error () :=
  if env_AgentMaxIdleTime env =? 0 then (false, Ret ())
  else if negb (Nat.eqb (CountActiveInterceptsForWorkload s k) 0) then (false, Ret ())
  else match read_states (sv_agentStateYAML s) with
       | None => (false, Fail BadStateFile)
       | Some f =>
           match f !! k with
           | None => (false, Fail UnknownWorkload)
           | Some lastEngagementTime =>
               if lastEngagementTime =? 0 then (false, Ret ())
               else if env_AgentMaxIdleTime env <? now - lastEngagementTime then
                 if negb found then (false, Fail UnknownWorkload) else (true, if evicted then Ret () else Fail NotEvicted)
               else (false, Ret ())
           end
       end.

(** The result of a call of [Remain]: whether the agent's workload is rid of its agent, and
    the error.  The error of [UpdateLastEngagementTime] is logged. *)
Definition Remain (env : ServiceEnv) (found evicted : bool) (session : string) (lastActivity : option Z) (now : Z) (s : service) : service * bool * Go svc_error () :=
  match GetAgent (sv_state s) session with
  | None =>
      match GetClient s session with
      | None => (s, false, Fail (SessionMissing session))
      | Some _ =>
          (mkSv (mark_client_at session (default now lastActivity) (sv_state s)) (sv_details s)
             (alter (fun x => AddTimeSpent x.1 x.2 now) session (sv_spent s)) (sv_agentStateYAML s) (sv_tmConfigMapUpdated s), false, Ret ())
      end
  | Some a =>
      let k : wl_key := (default EmptyString (ad_Kind <$> sv_details s !! session), ag_Name a, ag_Namespace a) in
      let s := set_state (mark_agent_at session now (sv_state s)) s in
      let s := (UpdateLastEngagementTime k now s).1 in
      let '(removed, r) := removeUnusedAgent env found evicted k now s in (s, removed, r)
  end.

(** [updateTrafficManagerConfigMap] in two steps: the file is read; when the patch of the
    config map has succeeded, the flag is cleared. *)
Definition flush_read (s : service) : StateYAML := sv_agentStateYAML s.
Definition flush_done (s : service) : service := mkSv (sv_state s) (sv_details s) (sv_spent s) (sv_agentStateYAML s) false.
(** A tick of [runUpdateTrafficManagerConfigMapLoop]; [during] happens while the patch is
    under way, and the second component is the file in the config map. *)
Definition config_map_tick (patched : bool) (during : service -> service) (x : service * StateYAML) : service * StateYAML :=
  let '(s, cm) := x in
  if sv_tmConfigMapUpdated s then
    let y := flush_read s in
    let s := during s in
    if patched then (flush_done s, y) else (s, cm)
  else (during s, cm).

(** ** Intercepts *)

Section Intercepts.
Context `{K8sApi} {RX : GoRegexp}.

Definition with_namespace (ns : string) (spec : InterceptSpec) : InterceptSpec :=
  mkSpec (sp_Name spec) (sp_Client spec) (sp_Agent spec) ns (sp_ServiceName spec) (sp_ContainerName spec) (sp_PortIdentifier spec) (sp_ContainerPort spec)
    (sp_Protocol spec) (sp_Replace spec) (sp_Wiretap spec) (sp_NoDefaultPort spec) (sp_HeaderFilters spec) (sp_PathFilters spec) (sp_PodPorts spec)
    (sp_Mechanism spec) (sp_TargetPort spec) (sp_ServiceUid spec) (sp_ServicePortName spec) (sp_ServicePort spec).

(** What the state's [PrepareIntercept] asks the cluster and the configuration for. *)
Record PrepareArgs := mkPArgs {
  pr_enabled : list string; pr_get : string -> workload_lookup; pr_ensure : string -> Go string Sidecar; pr_serviceIPs : string -> list string;
  pr_allowGlobal : bool; pr_kind : string; pr_timeout : Z
}.
Definition svc_PrepareIntercept (env : ServiceEnv) (p : PrepareArgs) (session : string) (spec : InterceptSpec) (now : Z) (s : service) : service * Go svc_error PreparedIntercept :=
  match (c ← ensureClientSession s session; managedTargetNamespace env c (sp_Namespace spec)) with
  | Ret ns =>
      let '(st, r) := PrepareIntercept (pr_enabled p) (pr_get p) (pr_ensure p) (pr_serviceIPs p) (pr_allowGlobal p) (pr_kind p) (with_namespace ns spec) session now (pr_timeout p) (sv_state s) in
      (set_state st s, match r with Ret x => Ret x | Fail e => Fail (OfPrepare e) | Panic => Panic end)
  | Fail e => (s, Fail e)
  | Panic => (s, Panic)
  end.

(** [ensured] is the outcome of the state's [EnsureAgent] for the workload. *)
Definition EnsureAgent (env : ServiceEnv) (ensured : string -> string -> Go string (list AgentInfo)) (session name namespace : string) (now : Z) (s : service) : service * Go svc_error (list AgentInfo) :=
  match (c ← ensureClientSession s session; managedTargetNamespace env c namespace) with
  | Ret ns =>
      match ensured name ns with
      | Ret [] => (s, Fail NoAgents)
      | Ret l => (set_state (mark_client_at session now (sv_state s)) s, Ret l)
      | Fail why => (s, Fail (OfEnsure why))
      | Panic => (s, Panic)
      end
  | Fail e => (s, Fail e)
  | Panic => (s, Panic)
  end.

(** [ensured] is why no agent could be ensured, if so. *)
Definition CreateIntercept (env : ServiceEnv) (session : string) (spec : InterceptSpec) (ensured : option string) (now : Z) (s : service) : service * Go svc_error string :=
  match (c ← ensureClientSession s session; managedTargetNamespace env c (sp_Namespace spec)) with
  | Ret ns =>
      let spec := with_namespace ns spec in
      if negb (is_empty (validateIntercept spec)) then (s, Fail (InvalidArgument (validateIntercept spec)))
      else match AddIntercept session spec ensured (sv_state s) with
           | (st, Ret p) => (set_state (mark_client_at session now st) s, Ret (default EmptyString ((fun x => ii_Id (mi_info x)) <$> objs st !! p)))
           | (st, Fail e) => (set_state st s, Fail (OfState e))
           | (st, Panic) => (set_state st s, Panic)
           end
  | Fail e => (s, Fail e)
  | Panic => (s, Panic)
  end.
End Intercepts.

Definition MakeInterceptID (s : service) (session name : string) : Go svc_error string :=
  if is_empty session then Ret name
  else match GetClient s session with None => Fail (SessionMissing session) | Some _ => Ret (intercept_id session name) end.
Definition svc_RemoveIntercept (session name : string) (s : service) : service * Go svc_error () :=
  match GetClient s session with
  | None => (s, Fail (SessionMissing session))
  | Some _ => (set_state (RemoveIntercept (intercept_id session name) (sv_state s)) s, Ret ())
  end.
Definition svc_GetIntercept (s : service) (session name : string) : Go svc_error InterceptInfo :=
  id ← MakeInterceptID s session name;
  match GetIntercept (sv_state s) id with Some x => Ret (mi_info x) | None => Fail (InterceptMissing name) end.
Definition svc_ReviewIntercept (session ceptID : string) (d : Disposition) (msg podIp : string) (s : service) : service * Go svc_error () :=
  let '(st, found) := ReviewIntercept session ceptID d msg podIp (sv_state s) in
  (set_state st s, if found then Ret () else Fail (InterceptMissing ceptID)).

(** ** Streams *)

(** [ClientMap.Watch] (pkg/cache/client.go): a delta is applied to the map. *)
Definition watch_delta {V} (d : Delta string V) (m : gmap string V) : gmap string V := foldl (fun m k => delete k m) (Upserts d ∪ m) (map_to_list (Removals d)).*1.

(** [watchIntercepts]: the filter of a stream.  The empty session is one of a client
    without a session.  For an agent the filter looks its session up when it is applied. *)
Definition watchIntercepts (s : service) (session : string) : Go svc_error (State -> MIntercept -> bool) :=
  let alive x := negb (bool_decide (mi_Disposition x = REMOVED)) && negb (IsChildIntercept (mi_Spec x)) in
  if is_empty session then Ret (fun _ x => alive x)
  else if bool_decide (GetClient s session = None) && bool_decide (agents (sv_state s) !! session = None) then Fail (SessionMissing session)
  else match GetAgent (sv_state s) session with
       | Some a =>
           Ret (fun cur x =>
             if negb (bool_decide (sp_Namespace (mi_Spec x) = ag_Namespace a)) || negb (bool_decide (sp_Agent (mi_Spec x) = ag_Name a)) then false
             else if bool_decide (GetAgent cur session = None) then false
             else bool_decide (mi_Disposition x ∈ [WAITING; ACTIVE; AGENT_ERROR; REMOVED]))
       | None => Ret (fun _ x => bool_decide (mi_Session x = session) && alive x)
       end.
(** The snapshot that [WatchIntercepts] sends after a delta. *)
Definition id_le (a b : InterceptInfo) : Prop := String.le (ii_Id a) (ii_Id b).
Global Instance id_le_dec : RelDecision id_le.
Proof. intros a b. unfold id_le. apply _. Defined.
Definition intercepts_snapshot (m : gmap string MIntercept) : list InterceptInfo := merge_sort id_le (mi_info <$> (map_to_list m).*2).

(** The stream of [watchAgents]: what it has got and what it sent last. *)
Record agentWatch := mkAW { aw_snapshot : gmap string AgentInfo; aw_first : bool; aw_last : list AgentInfo }.
Definition newAgentWatch : agentWatch := mkAW ∅ true [].
Definition active_agents (inactive : list string) (m : gmap string AgentInfo) : list AgentInfo :=
  filter (fun a => ag_PodUid a ∉ inactive) (omap (fun id => m !! id) (merge_sort String.le (map_to_list m).*1)).
Global Instance Mechanism_eq : EqDecision Mechanism.
Proof. solve_decision. Defined.
Global Instance AgentInfo_eq : EqDecision AgentInfo.
Proof. solve_decision. Defined.
Definition watchAgents (inactive : list string) (d : Delta string AgentInfo) (w : agentWatch) : agentWatch * option (list AgentInfo) :=
  let m := watch_delta d (aw_snapshot w) in
  let l := active_agents inactive m in
  if negb (aw_first w) && bool_decide (l = aw_last w) then (mkAW m false (aw_last w), None) else (mkAW m false l, Some l).

(** *** The pods of agents *)

Record PodMsg := mkPM {
  pm_WorkloadName : string; pm_PodId : string; pm_PodName : string; pm_Namespace : string; pm_PodIp : list Z; pm_ApiPort : Z; pm_Intercepted : bool
}.
Definition pod_msg (st : State) (client : string) (a : AgentInfo) (port : Z) (aip : Addr) : PodMsg :=
  mkPM (ag_Name a) (ag_PodUid a) (ag_PodName a) (ag_Namespace a) (AsSlice aip) port (IsInterceptedBy st (Addr_String aip) (ag_Name a) (ag_Namespace a) client).

(** [slices.Compact]. *)
Fixpoint compact (l : list string) : list string :=
  match l with
  | x :: ((y :: _) as r) => if bool_decide (x = y) then compact r else x :: compact r
  | l => l
  end.
Fixpoint targets (env : ServiceEnv) (c : ClientSession) (namespaces : list string) : Go svc_error (list string) :=
  match namespaces with
  | [] => Ret []
  | ns :: nss => ns ← managedTargetNamespace env c ns; nss ← targets env c nss; Ret (ns :: nss)
  end.
Definition agentPodNamespaces (env : ServiceEnv) (c : ClientSession) (namespaces : list string) : Go svc_error (list string) :=
  nss ← targets env c (if Nat.eqb (length namespaces) 0 then [EmptyString] else namespaces);
  Ret (compact (merge_sort String.le nss)).

(** An agent's session in the streams: its info and the port of its API. *)
Definition agentPod : Type := AgentInfo * Z.
(** [onChanged] of [watchAgentPods], the agents in the order of the map.  The messages are
    compared by their pointers, which are new ones: two lists are equal when both are
    empty.  An address that cannot be parsed is logged, and the zero address used. *)
Definition pods_onChanged (st : State) (client : string) (m : list agentPod) (lastAgents : list PodMsg) : list PodMsg * option (list PodMsg) :=
  let l := (fun x : agentPod => pod_msg st client x.1 x.2 (default AddrZero (ParseAddr (ag_PodIp x.1)))) <$>
             filter (fun x : agentPod => IsInactive (ag_PodUid x.1) st = false) m in
  if Nat.eqb (length lastAgents) 0 && Nat.eqb (length l) 0 then (lastAgents, None) else (l, Some l).

(** [watchAgentPodsDelta]: an upsert of its goroutine computes a message and stores it. *)
Definition pod_upsert (st : State) (client : string) (x : agentPod) : option PodMsg :=
  if IsInactive (ag_PodUid x.1) st then None
  else match ParseAddr (ag_PodIp x.1) with None => None | Some aip => Some (pod_msg st client x.1 x.2 aip) end.
Definition store_pod (k : string) (m : option PodMsg) (pods : gmap string PodMsg) : gmap string PodMsg :=
  match m with Some m => <[k := m]> pods | None => pods end.
Definition agents_delta (st : State) (client : string) (order : gmap string agentPod -> list (string * agentPod)) (d : Delta string agentPod) (pods : gmap string PodMsg) : gmap string PodMsg :=
  foldl (fun pods k => delete k pods) (foldl (fun pods kx => store_pod kx.1 (pod_upsert st client kx.2) pods) pods (order (Upserts d))) (map_to_list (Removals d)).*1.
Definition set_intercepted (b : bool) (m : PodMsg) : PodMsg :=
  mkPM (pm_WorkloadName m) (pm_PodId m) (pm_PodName m) (pm_Namespace m) (pm_PodIp m) (pm_ApiPort m) b.
(** [refreshIntercepted], after a change of the client's intercepts. *)
Definition refresh_pod (st : State) (client : string) (m : PodMsg) : PodMsg :=
  if IsInactive (pm_PodId m) st then m
  else set_intercepted (IsInterceptedBy st (Addr_String (default AddrZero (AddrFromSlice (pm_PodIp m)))) (pm_WorkloadName m) (pm_Namespace m) client) m.
Definition refreshIntercepted (st : State) (client : string) (pods : gmap string PodMsg) : gmap string PodMsg := refresh_pod st client <$> pods.

(** ** Lookups *)

Definition last_byte (s : string) : option ascii := String.get (String.length s - 1) s.
Definition DOT : ascii := "."%char.
(** Whether the suffix is found at a position, at the start or after a dot. *)
Definition suffix_at (name suffix : string) (sfp : nat) : bool :=
  if Nat.eqb sfp 0 then bool_decide (name = suffix)
  else bool_decide (String.get (sfp - 1) name = Some DOT) && bool_decide (str_drop sfp name = suffix).
(** The positions are in range: the name is not shorter than the suffix. *)
Definition hasDomainSuffix (name suffix : string) : bool :=
  let sl := String.length suffix in
  let nl := String.length name in
  if Nat.eqb sl 0 || Nat.ltb nl sl then false
  else if negb (bool_decide (last_byte name = Some DOT)) then false
  else
    let sfp := (nl - sl)%nat in
    if negb (bool_decide (last_byte suffix = Some DOT)) then
      if Nat.eqb sfp 0 then false else suffix_at (str_take (nl - 1) name) suffix (sfp - 1)
    else suffix_at name suffix sfp.

(** The names that [NewService] makes: of the manager's service and of the cluster's domain. *)
Record Names := mkNames { serviceNameNs : string; serviceNameFQN : string; dotClusterDomain : string }.
Definition NewService_names (clusterDomain ns : string) : Names :=
  let dot := "." +:+ clusterDomain in
  mkNames ("traffic-manager." +:+ ns +:+ ".") ("traffic-manager." +:+ ns +:+ ".svc" +:+ dot) dot.

Definition resolveSelfDNS (nm : Names) (svcIP : list Z) (name : string) (qType : Z) : list RR :=
  let rr d := [mkRR name qType ClassINET 0 d] in
  if qType =? TypeA then rr (rA (default [] (To4 svcIP)))
  else if qType =? TypeAAAA then rr (rAAAA (match To4 svcIP with None => default [] (To16 svcIP) | Some _ => [] end))
  else if qType =? TypeCNAME then rr (rCNAME (serviceNameFQN nm))
  else [].

Definition is_self (nm : Names) (name : string) : bool := bool_decide (name = serviceNameNs nm) || bool_decide (name = serviceNameFQN nm).
(** A name of one label is one of the client's namespace. *)
Definition in_client_ns (env : ServiceEnv) (c : ClientSession) (name : string) : bool :=
  Nat.eqb (CountByte name ".") 1 && negb (bool_decide (cl_Namespace c = env_ManagerNamespace env)).

Inductive lookup_outcome := LookupIPs (ips : list (list Z)) | LookupFailed (code : Z) (text : string).
(** [LookupNetIP] is the resolver of the host for both families. *)
Definition svc_Lookup (env : ServiceEnv) (nm : Names) (LookupNetIP : string -> lookup_error + list Addr) (svcIP : option (list Z))
    (session name : string) (s : service) : Go svc_error lookup_outcome :=
  c ← ensureClientSession s session;
  match svcIP, is_self nm name with
  | Some ip, true => Ret (LookupIPs [Addr_MarshalBinary (default AddrZero (AddrFromSlice ip))])
  | _, _ =>
      let nl := String.length name in
      if Nat.ltb nl 2 || negb (bool_decide (last_byte name = Some DOT)) then Fail (InvalidArgument "empty name")
      else
        let query := if in_client_ns env c name then name +:+ cl_Namespace c else str_take (nl - 1) name in
        match LookupNetIP query with
        | inl e => Ret (match (MakeDNSError e).2 with Some (code, text) => LookupFailed code text | None => LookupIPs [] end)
        | inr ips => Ret (LookupIPs ((fun ip => Addr_MarshalBinary (if Is4In6 ip then Unmap ip else ip)) <$> ips))
        end
  end.

Section Dns.
Context `{Resolver}.
Definition rename (name : string) (rr : RR) : RR := mkRR name (rr_Rrtype rr) (rr_Class rr) (rr_Ttl rr) (rr_data rr).

(** Whether a name that was not found is tried in the client's namespace. *)
Definition retry_in_ns (env : ServiceEnv) (nm : Names) (c : ClientSession) (qName name : string) : bool :=
  Nat.ltb 1 (CountByte qName ".") && negb (bool_decide (cl_Namespace c = env_ManagerNamespace env)) &&
  negb (HasSuffix name (dotClusterDomain nm)) && negb (hasDomainSuffix name (cl_Namespace c)).
(** [None] is a panic of the lookup. *)
Definition lookupFromManager (env : ServiceEnv) (nm : Names) (client : option ClientSession) (qType : Z) (qName : string) : option (list RR * Z) :=
  let noSearchDomain := dotClusterDomain nm in
  let appended := match client with Some c => in_client_ns env c qName | None => false end in
  let name := match client with Some c => if in_client_ns env c qName then qName +:+ cl_Namespace c +:+ "." else qName | None => qName end in
  match DnsProxy.Lookup qType name noSearchDomain with
  | None => None
  | Some first =>
      let retried := match client, first with
                     | Some c, (_, rCode, None) => if (rCode =? RcodeNameError) && retry_in_ns env nm c qName name then Some (name +:+ cl_Namespace c +:+ ".") else None
                     | _, _ => None
                     end in
      match (match retried with Some again => (fun r => (r, true)) <$> DnsProxy.Lookup qType again noSearchDomain | None => Some (first, appended) end) with
      | None => None
      | Some ((_, rCode, Some _), _) => Some ([], rCode)
      | Some ((rrs, rCode, None), restoreName) => Some (if restoreName : bool then rename qName <$> rrs else rrs, rCode)
      end
  end.
(** What [ToRPC] packs. *)
Definition LookupDNS (env : ServiceEnv) (nm : Names) (svcIP : option (list Z)) (session : string) (qType : Z) (qName : string) (s : service) : option (list RR * Z) :=
  let self := match svcIP with Some ip => if is_self nm qName then resolveSelfDNS nm ip qName qType else [] | None => [] end in
  if Nat.ltb 0 (length self) then Some (self, RcodeSuccess) else lookupFromManager env nm (GetClient s session) qType qName.
End Dns.
