(* ===== verification/ManagerServiceSpec.v ===== *)
(** * The traffic-manager's service: theorems

    Whatever the clients and agents ask for, one request after another, the state keeps its
    invariant; idle agents are
    removed when the recorded times say so, and the file that holds them is read back as
    what was written; the streams send what they are meant to; a lookup answers the
    question that was asked.  The ways in which the service fails are exhibited. *)
From S2P Require Import Prelude NetIP GoStrings NetParse DnsProxy PortTypes PortSpec IpUtil SessionRoutes Matcher Icept AgentConfig CacheMap ManagerState ManagerPrepare ManagerSpec ManagerInv ManagerService.
From Stdlib Require Import Ascii.
Local Open Scope Z_scope.

(** ** The invariant of the state *)

Lemma inv_mark_client id t st : inv ∅ st -> inv ∅ (mark_client_at id t st).
Proof.
  intros I. apply inv_set_clients; [done|]. intros k. destruct (decide (id = k)) as [<-|Hne]; [|by rewrite lookup_alter_ne].
  rewrite lookup_alter_eq. destruct (clients st !! id); [|done]. split; intros _; by eexists.
Qed.
Lemma inv_mark_agent id t st : inv ∅ st -> inv ∅ (mark_agent_at id t st).
Proof. by apply (inv_frame st). Qed.

Lemma restore_agents_frame l now : forall s, inv ∅ (sv_state s) ->
  inv ∅ (sv_state (restore_agents l now s)) /\ clients (sv_state (restore_agents l now s)) = clients (sv_state s).
Proof.
  induction l as [|a l IH]; intros s I; [done|]. unfold restore_agents. cbn [foldl]. destruct (RestoreAgents_frame [a.1] now (sv_state s) I) as (I' & C' & _).
  match goal with |- context [foldl _ ?s' l] => destruct (IH s' I') as [I'' C''] end. split; [exact I''|]. etrans; [exact C''|exact C'].
Qed.

(** ** Requests *)

Section Requests.
Context `{K8sApi} {RX : GoRegexp} {SV : Semver}.

(** The requests of clients and agents and the timers of the state. *)
Inductive request :=
| RqArriveAsClient (c : ClientInfo) (uuid : string) (now : Z)
| RqReconnectClient (workload : InterceptSpec -> bool) (session : string) (client : option ClientInfo) (ags : list (AgentInfo * AgentDetail)) (ics : list MIntercept) (now : Z)
| RqArriveAsAgent (a : AgentInfo) (d : AgentDetail) (now : Z)
| RqReconnectAgent (session : string) (a : AgentInfo) (d : AgentDetail) (now : Z)
| RqRemain (found evicted : bool) (session : string) (lastActivity : option Z) (now : Z)
| RqDepart (session : string)
| RqPrepareIntercept (p : PrepareArgs) (session : string) (spec : InterceptSpec) (now : Z)
| RqEnsureAgent (ensured : string -> string -> Go string (list AgentInfo)) (session name namespace : string) (now : Z)
| RqCreateIntercept (session : string) (spec : InterceptSpec) (ensured : option string) (now : Z)
| RqRemoveIntercept (session name : string)
| RqReviewIntercept (session ceptID : string) (d : Disposition) (msg podIp : string)
| RqTimers (clientMoment agentMoment : Z).
Definition handle (env : ServiceEnv) (s : service) (r : request) : service :=
  match r with
  | RqArriveAsClient c uuid now => (ArriveAsClient env c uuid now s).1
  | RqReconnectClient workload session client ags ics now => (ReconnectClient env workload session client ags ics now s).1
  | RqArriveAsAgent a d now => (ArriveAsAgent env a d now s).1
  | RqReconnectAgent session a d now => (ReconnectAgent session a d now s).1
  | RqRemain found evicted session la now => (Remain env found evicted session la now s).1.1
  | RqDepart session => Depart session s
  | RqPrepareIntercept p session spec now => (svc_PrepareIntercept env p session spec now s).1
  | RqEnsureAgent ensured session name ns now => (EnsureAgent env ensured session name ns now s).1
  | RqCreateIntercept session spec ensured now => (CreateIntercept env session spec ensured now s).1
  | RqRemoveIntercept session name => (svc_RemoveIntercept session name s).1
  | RqReviewIntercept session ceptID d msg podIp => (svc_ReviewIntercept session ceptID d msg podIp s).1
  | RqTimers cm am => set_state (expireSessions cm am (sv_state s)) s
  end.
(** Session ids have no colon, and a client that reconnects restores its own intercepts. *)
Definition request_ok (r : request) : Prop :=
  match r with
  | RqArriveAsClient _ uuid _ => no_char ":" uuid
  | RqReconnectClient _ session _ _ ics _ => no_char ":" session /\ Forall (own_intercept session) ics
  | _ => True
  end.

Lemma add_client_inv id c now s s' : no_char ":" id -> inv ∅ (sv_state s) -> add_client id c now s = Some s' -> inv ∅ (sv_state s') /\ is_Some (clients (sv_state s') !! id).
Proof.
  intros Hn I E. unfold add_client in E. destruct (addClient _ _ _ _) as [st|] eqn:Ea; [|done]. injection E as <-. cbn [sv_state]. split.
  - by eapply inv_addClient.
  - unfold addClient in Ea. destruct (clients _ !! id); [done|]. injection Ea as <-. cbn [set_clients clients]. rewrite lookup_insert_eq. by eexists.
Qed.
Lemma engagement_state k now s : sv_state (UpdateLastEngagementTime k now s).1 = sv_state s.
Proof. unfold UpdateLastEngagementTime. destruct (sv_agentStateYAML s); cbn [read_states]; repeat case_match; done. Qed.
Lemma Remain_inv env found evicted session la now s : inv ∅ (sv_state s) -> inv ∅ (sv_state (Remain env found evicted session la now s).1.1).
Proof.
  intros I. unfold Remain. destruct (GetAgent _ _).
  - destruct (removeUnusedAgent _ _ _ _ _ _). cbn [fst]. rewrite engagement_state. by apply inv_mark_agent.
  - destruct (GetClient s session); [|done]. by apply inv_mark_client.
Qed.
Lemma handle_inv env s r : request_ok r -> inv ∅ (sv_state s) -> inv ∅ (sv_state (handle env s r)).
Proof.
  intros Hr I. destruct r as [c uuid now|workload session client ags ics now|a d now|session a d now|found evicted session la now|session|p session spec now
                             |ensured session name ns now|session spec ensured now|session name|session ceptID d msg podIp|cm am]; cbn [handle].
  - unfold ArriveAsClient. destruct (negb _); [done|]. destruct (negb _); [done|]. destruct (add_client _ _ _ _) as [s'|] eqn:E; [|done]. by eapply add_client_inv.
  - destruct Hr as [Hn Ho]. unfold ReconnectClient. destruct (GetClient s session); [done|]. destruct client as [c|]; [|done]. destruct (negb _); [done|]. destruct (negb _); [done|].
    destruct (add_client _ _ _ _) as [s'|] eqn:E; [|done]. destruct (add_client_inv _ _ _ _ _ Hn I E) as [I' C'].
    match goal with |- context [restore_agents ?l now s'] => destruct (restore_agents_frame l now s' I') as [I2 C2] end.
    cbn [fst set_state sv_state]. apply RestoreIntercepts_inv with session; [done|done|].
    apply Forall_forall. intros i [_ Hi]%list_elem_of_filter. split; [by eapply Forall_forall in Ho|]. left. by rewrite C2.
  - unfold ArriveAsAgent. destruct (negb _); [done|]. pose proof (inv_step ∅ _ _ I (st_agent a now (sv_state s))) as Ia. by destruct (AddAgent a now (sv_state s)) as [st []].
  - cbn. by apply inv_RestoreAgent.
  - by apply Remain_inv.
  - cbn. apply (inv_step ∅ _ _ I). constructor.
  - unfold svc_PrepareIntercept. destruct (_ ≫= _) as [ns| |]; try done.
    match goal with |- context [PrepareIntercept ?a ?b ?c ?d ?e ?f ?g ?h ?i ?j ?k] => pose proof (inv_prepare a b c d e f g h i j k I) as Ip; destruct (PrepareIntercept a b c d e f g h i j k) as [st x] end. done.
  - unfold EnsureAgent. destruct (_ ≫= _) as [ns'| |]; try done. destruct (ensured name ns') as [[|a l]| |]; try done. by apply inv_mark_client.
  - unfold CreateIntercept. destruct (_ ≫= _) as [ns'| |]; try done. destruct (negb _); [done|].
    pose proof (inv_AddIntercept session (with_namespace ns' spec) ensured (sv_state s) I) as Ia. destruct (AddIntercept _ _ _ _) as [st [q|e|]]; try done. by apply inv_mark_client.
  - unfold svc_RemoveIntercept. destruct (GetClient s session); [|done]. by apply inv_Remove.
  - unfold svc_ReviewIntercept. pose proof (inv_step ∅ _ _ I (st_review session ceptID d msg podIp (sv_state s))) as Ir. by destruct (ReviewIntercept _ _ _ _ _ _).
  - cbn. apply (inv_step ∅ _ _ I). constructor.
Qed.

End Requests.

(** ** Engagement times *)

Definition dotless (k : wl_key) : Prop := no_char "." k.1.1 /\ no_char "." k.1.2 /\ no_char "." k.2.

Lemma parse_wl_key_String k : dotless k -> parse_wl_key (wl_key_String k) = Some k.
Proof.
  destruct k as [[kind name] ns]. intros (H1 & H2 & H3). cbn in H1, H2, H3. unfold parse_wl_key, wl_key_String. cbn [fst snd].
  change ("." +:+ name +:+ "." +:+ ns) with (String "." (name +:+ String "." ns)). rewrite (SplitByte_app kind _ _ H1), (SplitByte_app name _ _ H2), (SplitByte_no_char ns _ H3). done.
Qed.

(** The file of engagement times is read back as what was written. *)
Theorem states_roundtrip (f : gmap wl_key Z) : (forall k, is_Some (f !! k) -> dotless k) -> UnmarshalStates (MarshalStates f) = Some f.
Proof.
  intros Hd. unfold UnmarshalStates. set (g := fun kv : wl_key * Z => (wl_key_String kv.1, kv.2)).
  assert (Hdl : forall kv, kv ∈ map_to_list f -> dotless kv.1) by (intros [k v] Hk%elem_of_map_to_list; apply Hd; by exists v).
  assert (Hp : map_to_list (MarshalStates f) ≡ₚ g <$> map_to_list f).
  { unfold MarshalStates. fold g. apply map_to_list_to_map. rewrite <- list_fmap_compose. apply NoDup_fmap_2_strong.
    - intros [k1 v1] [k2 v2] H1 H2 He. assert (Hs : parse_wl_key (wl_key_String k1) = parse_wl_key (wl_key_String k2)) by (f_equal; exact He).
      rewrite (parse_wl_key_String k1 (Hdl _ H1)), (parse_wl_key_String k2 (Hdl _ H2)) in Hs. injection Hs as ->. apply elem_of_map_to_list in H1, H2. congruence.
    - apply NoDup_map_to_list. }
  destruct (Permutation_map_inv _ _ Hp) as (l & -> & Hl).
  assert (Hm : mapM (fun kv : string * Z => (fun k => (k, kv.2)) <$> parse_wl_key kv.1) (map g l) = Some l).
  { apply mapM_Some. assert (Hall : Forall (fun kv => dotless kv.1) l) by (apply Forall_forall; intros kv Hkv; apply Hdl; by rewrite Hl).
    clear Hp Hl. induction Hall as [|[k v] l Hk Hl IH]; cbn [map]; constructor; [|exact IH]. cbn [g fst snd]. by rewrite parse_wl_key_String. }
  rewrite Hm. cbn. f_equal. rewrite <- (list_to_map_to_list f). apply list_to_map_proper; [|by symmetry].
  rewrite <- Hl. apply NoDup_fst_map_to_list.
Qed.

(** The abstract view: a time per workload. *)
Definition engaged (E : gmap wl_key Z) (k : wl_key) (active : bool) (now : Z) : gmap wl_key Z :=
  if active || bool_decide (E !! k = None) then <[k := now]> E else E.
Definition idle (maxIdle : Z) (E : gmap wl_key Z) (k : wl_key) (active : bool) (now : Z) : bool :=
  negb (maxIdle =? 0) && negb active && (maxIdle <? now - default now (E !! k)).

Definition times_of (s : service) (E : gmap wl_key Z) : Prop :=
  (sv_agentStateYAML s = NoYAML /\ E = ∅ \/ sv_agentStateYAML s = TimesYAML (MarshalStates E)) /\
  forall k t, E !! k = Some t -> dotless k /\ t <> 0.
Lemma times_read s E : times_of s E -> read_states (sv_agentStateYAML s) = Some E.
Proof.
  intros [[[-> ->]| ->] Hk]; [done|]. cbn [read_states]. apply states_roundtrip. intros k [t Ht]. by eapply Hk.
Qed.
Definition active (s : service) (k : wl_key) : bool := negb (Nat.eqb (CountActiveInterceptsForWorkload s k) 0).
Lemma update_engaged s E k now : times_of s E -> dotless k -> now <> 0 ->
  exists s', UpdateLastEngagementTime k now s = (s', Ret ()) /\ sv_state s' = sv_state s /\ sv_details s' = sv_details s /\ times_of s' (engaged E k (active s k) now).
Proof.
  intros Ht Hk Hn. pose proof (times_read s E Ht) as Hr. destruct Ht as [Hy He]. unfold UpdateLastEngagementTime.
  assert (Hst : forall f, f = E -> exists s', (set_yaml (TimesYAML (MarshalStates (<[k := now]> f))) s, Ret ()) = (s', @Ret svc_error () ()) /\ sv_state s' = sv_state s /\
            sv_details s' = sv_details s /\ times_of s' (<[k := now]> E)).
  { intros f ->. eexists. split; [done|]. split; [done|]. split; [done|]. split; [by right|]. intros k' t [[<- <-]|[_ Hk']]%lookup_insert_Some; [done|by apply He]. }
  destruct Hy as [[Hy ->]|Hy]; rewrite Hy.
  - unfold engaged. rewrite lookup_empty, bool_decide_eq_true_2, orb_true_r by done. by apply Hst.
  - rewrite Hy in Hr. rewrite Hr. unfold engaged, active.  destruct (E !! k) as [t|] eqn:Ek.
    + change (default 0 (Some t)) with t. destruct (He _ _ Ek) as [_ Hz]. rewrite (proj2 (Z.eqb_neq t 0) Hz), bool_decide_eq_false_2, orb_false_r by done. cbn [negb andb].
      destruct (Nat.eqb _ 0); cbn [negb]; [|by apply Hst]. exists s. split; [done|]. split; [done|]. split; [done|]. split; [by right|done].
    + cbn. rewrite orb_true_r. by apply Hst.
Qed.
Lemma remove_idle env s E k now : times_of s E -> is_Some (E !! k) -> removeUnusedAgent env true true k now s = (idle (env_AgentMaxIdleTime env) E k (active s k) now, Ret ()).
Proof.
  intros Ht [t Hk]. unfold removeUnusedAgent, idle, active. rewrite (times_read s E Ht), Hk. change (default now (Some t)) with t. cbn [negb].
  destruct (_ =? 0); [done|]. destruct (Nat.eqb _ 0); cbn [negb andb]; [|done]. destruct Ht as [_ He]. destruct (He _ _ Hk) as [_ Hz].
  rewrite (proj2 (Z.eqb_neq t 0) Hz). by destruct (_ <? _).
Qed.

(** A call of [Remain] by the agent of a session, in a state. *)
Definition remain_event : Type := State * string * Z.
Definition event_key (details : gmap string AgentDetail) (e : remain_event) : wl_key :=
  let '(st, session, _) := e in
  match GetAgent st session with
  | Some a => (default EmptyString (ad_Kind <$> details !! session), ag_Name a, ag_Namespace a)
  | None => (EmptyString, EmptyString, EmptyString)
  end.
Definition event_ok (details : gmap string AgentDetail) (e : remain_event) : Prop :=
  is_Some (GetAgent e.1.1 e.1.2) /\ dotless (event_key details e) /\ 0 < e.2.
Fixpoint remains (env : ServiceEnv) (evs : list remain_event) (s : service) : list bool :=
  match evs with
  | [] => []
  | (st, session, now) :: evs => let '(s, removed, _) := Remain env true true session None now (set_state st s) in removed :: remains env evs s
  end.
Fixpoint expected (env : ServiceEnv) (details : gmap string AgentDetail) (evs : list remain_event) (E : gmap wl_key Z) (s : service) : list bool :=
  match evs with
  | [] => []
  | ev :: evs =>
      let k := event_key details ev in
      let a := active (set_state ev.1.1 s) k in
      let E := engaged E k a ev.2 in
      idle (env_AgentMaxIdleTime env) E k a ev.2 :: expected env details evs E s
  end.
Lemma engaged_some E k a now : is_Some (engaged E k a now !! k).
Proof.
  unfold engaged. destruct a; cbn [orb]; [rewrite lookup_insert_eq; by eexists|]. case_bool_decide as Hb; [rewrite lookup_insert_eq; by eexists|].
  destruct (E !! k); [by eexists|done].
Qed.
Lemma Remain_engaged env s E st session now : times_of s E -> event_ok (sv_details s) (st, session, now) ->
  let k := event_key (sv_details s) (st, session, now) in
  let a := active (set_state st s) k in
  exists s', Remain env true true session None now (set_state st s) = (s', idle (env_AgentMaxIdleTime env) (engaged E k a now) k a now, Ret ()) /\
    sv_details s' = sv_details s /\ times_of s' (engaged E k a now).
Proof.
  intros Ht ([ag Hag] & Hd & Hn) k a. cbn [fst snd] in *. unfold Remain. cbn [set_state sv_state sv_details]. rewrite Hag.
  assert (Hk : (default EmptyString (ad_Kind <$> sv_details s !! session), ag_Name ag, ag_Namespace ag) = k) by (unfold k; cbn [event_key]; by rewrite Hag).
  rewrite Hk. set (s1 := set_state (mark_agent_at session now st) (set_state st s)).
  assert (Ha : active s1 k = a) by done.
  destruct (update_engaged s1 E k now) as (s2 & E2 & S2 & D2 & T2); [exact Ht|exact Hd|lia|]. fold s1 in E2. rewrite Ha in T2.
  change (mkSv (mark_agent_at session now st) (sv_details s) (sv_spent s) (sv_agentStateYAML s) (sv_tmConfigMapUpdated s)) with s1. rewrite E2. cbn [fst].
  rewrite (remove_idle env s2 _ k now T2) by apply engaged_some.
  assert (Ha2 : active s2 k = a) by (unfold active, CountActiveInterceptsForWorkload; by rewrite S2). rewrite Ha2. exists s2. by rewrite D2.
Qed.


(** ** The stream of agents *)

Lemma elem_of_active_agents ina m a : a ∈ active_agents ina m <-> ((ag_PodUid a ∉ ina) /\ exists id, m !! id = Some a).
Proof.
  unfold active_agents. rewrite list_elem_of_filter, list_elem_of_omap. split; intros [H1 (id & H2)]; (split; [done|]); exists id; [by destruct H2|].
  split; [|done]. rewrite (merge_sort_Permutation String.le). apply list_elem_of_fmap. exists (id, a). split; [done|]. by apply elem_of_map_to_list.
Qed.
Definition watch_run (evs : list (list string * Delta string AgentInfo)) : agentWatch * list (list AgentInfo) :=
  foldl (fun acc e => let '(w, o) := watchAgents e.1 e.2 acc.1 in (w, acc.2 ++ option_list o)) (newAgentWatch, []) evs.
Definition watched (evs : list (list string * Delta string AgentInfo)) : gmap string AgentInfo := foldl (fun m e => watch_delta e.2 m) ∅ evs.

(** After every change the client's last snapshot has exactly the agents that are left and
    whose pods are active; no snapshot is sent twice in a row, and the first one is sent
    even when it is empty. *)
Theorem watchAgents_sends_current (evs : list (list string * Delta string AgentInfo)) (ina : list string) (d : Delta string AgentInfo) :
  let evs' := evs ++ [(ina, d)] in
  let sent := (watch_run evs').2 in
  exists l, last sent = Some l /\ (forall a, a ∈ l <-> ((ag_PodUid a ∉ ina) /\ exists id, watched evs' !! id = Some a)) /\
    (forall i x y, sent !! i = Some x -> sent !! S i = Some y -> x <> y).
Proof.
  assert (H : forall evs, let r := watch_run evs in aw_snapshot r.1 = watched evs /\ aw_first r.1 = bool_decide (evs = []) /\
            (evs <> [] -> last r.2 = Some (aw_last r.1)) /\ (evs = [] -> r.2 = []) /\ (forall i x y, r.2 !! i = Some x -> r.2 !! S i = Some y -> x <> y) /\
            (forall e evs0, evs = evs0 ++ [e] -> aw_last r.1 = active_agents e.1 (watched evs))).
  { clear. induction evs as [|e evs IH] using rev_ind; [split_and!; try done; by intros ? [|]|]. cbn zeta in *. unfold watch_run, watched in *. rewrite !foldl_snoc.
    destruct (foldl _ (newAgentWatch, []) evs) as [w sent]. destruct IH as (H1 & H2 & H3 & H4 & H5 & _). cbn [fst snd] in *. unfold watchAgents. rewrite H1.
    set (m := watch_delta e.2 (foldl _ ∅ evs)). set (l := active_agents e.1 m). rewrite H2.
    assert (Hne : evs ++ [e] <> []) by (by destruct evs).
    assert (Hlast : forall (e0 : list string * Delta string AgentInfo) evs0, evs ++ [e] = evs0 ++ [e0] -> l = active_agents e0.1 m) by (by intros e0 evs0 [_ <-]%app_inj_tail).
    rewrite (bool_decide_eq_false_2 (evs ++ [e] = [])) by done. destruct (negb _ && _) eqn:Eb; cbn [fst snd aw_snapshot aw_first aw_last].
    - apply andb_true_iff in Eb as [Eb%negb_true_iff El%bool_decide_eq_true]. apply bool_decide_eq_false in Eb. rewrite app_nil_r.
      split_and!; try done; [intros _; by apply H3|]. rewrite <- El. exact Hlast.
    - split_and!; try done; [intros _; apply last_snoc|]. intros i x y Hx Hy. cbn [option_list] in *.
      apply lookup_app_Some in Hy as [Hy|[Hlen Hy]].
      + apply (H5 i x y); [|done]. apply lookup_lt_Some in Hy. rewrite lookup_app_l in Hx by lia. done.
      + assert (Hi : (S i - length sent)%nat = 0%nat) by (apply lookup_lt_Some in Hy; cbn in Hy; lia). rewrite Hi in Hy. injection Hy as <-.
        rewrite lookup_app_l in Hx by lia. apply andb_false_iff in Eb. assert (Hs : evs <> []) by (intros ->; rewrite H4 in Hx by done; done).
        rewrite bool_decide_eq_false_2 in Eb by done. destruct Eb as [|Eb]; [done|]. apply bool_decide_eq_false in Eb.
        specialize (H3 Hs). rewrite last_lookup in H3. replace (pred (length sent)) with i in H3 by lia. congruence. }
  cbn zeta. destruct (H (evs ++ [(ina, d)])) as (_ & _ & H3 & _ & H5 & H6). exists (aw_last (watch_run (evs ++ [(ina, d)])).1).
  split; [apply H3; by destruct evs|]. split; [|exact H5]. intros a. rewrite (H6 (ina, d) evs eq_refl). apply elem_of_active_agents.
Qed.

(** ** Names *)

Lemma str_get_app_l s t n : (n < String.length s)%nat -> String.get n (s +:+ t) = String.get n s.
Proof.
  revert n. induction s as [|a s IH]; intros n Hn; cbn [String.length] in Hn; [lia|]. rewrite str_app_cons.
  destruct n as [|n]; [done|]. cbn [String.get]. apply IH. lia.
Qed.
Lemma last_byte_snoc s c : last_byte (s +:+ String c "") = Some c.
Proof.
  unfold last_byte. rewrite length_str_app. cbn [String.length]. replace (String.length s + 1 - 1)%nat with (String.length s) by lia.
  induction s as [|a s IH]; [done|]. rewrite str_app_cons. cbn [String.length String.get]. exact IH.
Qed.
Lemma last_byte_Some s c : last_byte s = Some c -> exists p, s = p +:+ String c "".
Proof.
  unfold last_byte. induction s as [|a s IH]; [done|]. cbn [String.length]. replace (S (String.length s) - 1)%nat with (String.length s) by lia.
  destruct s as [|b s]; [intros [= ->]; by exists EmptyString|]. intros H. destruct IH as [p Hp].
  - cbn [String.length] in *. replace (S (String.length s) - 1)%nat with (String.length s) by lia. exact H.
  - exists (String a p). rewrite Hp. by rewrite str_app_cons.
Qed.
Lemma sent_take_last s c : str_take (String.length (s +:+ String c "") - 1) (s +:+ String c "") = s.
Proof. rewrite length_str_app. cbn [String.length]. replace (String.length s + 1 - 1)%nat with (String.length s) by lia. apply str_take_app. Qed.

(** The part before the suffix is empty or ends with a dot. *)
Definition labels_before (p : string) : Prop := p = EmptyString \/ exists q, p = q +:+ ".".
Lemma suffix_at_spec name suffix : (String.length suffix <= String.length name)%nat ->
  suffix_at name suffix (String.length name - String.length suffix) = true <-> exists p, name = p +:+ suffix /\ labels_before p.
Proof.
  intros Hl. unfold suffix_at. split.
  - case_match eqn:E.
    + intros ->%bool_decide_eq_true. exists EmptyString. split; [done|by left].
    + intros [Hg%bool_decide_eq_true Hd%bool_decide_eq_true]%andb_true_iff. set (n := (_ - _)%nat) in *. exists (str_take n name).
      split; [by rewrite <- Hd, str_take_drop|]. right. apply last_byte_Some. unfold last_byte.
      assert (Hn : String.length (str_take n name) = n).
      { pose proof (str_take_drop n name) as Ht. apply (f_equal String.length) in Ht. rewrite length_str_app, Hd in Ht. lia. }
      rewrite Hn. apply Nat.eqb_neq in E. transitivity (String.get (n - 1) (str_take n name +:+ str_drop n name)); [rewrite str_get_app_l by lia; done|by rewrite str_take_drop].
  - intros (p & -> & Hp). rewrite length_str_app. replace (_ + _ - _)%nat with (String.length p) by lia. destruct Hp as [->|[q ->]].
    + cbn. by rewrite bool_decide_eq_true_2.
    + rewrite length_str_app. cbn [String.length]. rewrite (proj2 (Nat.eqb_neq _ _)) by lia. apply andb_true_iff. split; apply bool_decide_eq_true.
      * rewrite str_get_app_l by (rewrite length_str_app; cbn; lia). pose proof (last_byte_snoc q DOT) as Hq. unfold last_byte in Hq. rewrite length_str_app in Hq. exact Hq.
      * replace (String.length q + 1)%nat with (String.length (q +:+ ".")) by (by rewrite length_str_app). apply str_drop_app.
Qed.

(** A suffix that a name must have, with the dot that ends it. *)
Definition dotted_suffix (suffix : string) : string := if bool_decide (last_byte suffix = Some DOT) then suffix else suffix +:+ ".".

(** [hasDomainSuffix] does what its comment says: the suffix, completed with a dot, is the
    whole name or what follows a dot. *)
Theorem hasDomainSuffix_correct (name suffix : string) :
  hasDomainSuffix name suffix = true <-> suffix <> EmptyString /\ exists p, name = p +:+ dotted_suffix suffix /\ labels_before p.
Proof.
  unfold hasDomainSuffix, dotted_suffix. destruct (Nat.eqb (String.length suffix) 0) eqn:E0; cbn [orb].
  { split; [done|]. intros [H _]. by destruct suffix. }
  assert (Hne : suffix <> EmptyString) by (by intros ->). destruct (Nat.ltb_spec (String.length name) (String.length suffix)) as [Hlt|Hge].
  { split; [done|]. intros [_ (p & Hp & _)]. apply (f_equal String.length) in Hp. rewrite length_str_app in Hp. case_bool_decide; rewrite ?length_str_app in Hp; lia. }
  case_bool_decide as Hn; cbn [negb]; last first.
  { split; [done|]. intros [_ (p & Hp & _)]. exfalso. apply Hn. rewrite Hp. case_bool_decide as Hs; [|rewrite <- str_app_assoc; apply last_byte_snoc].
    apply last_byte_Some in Hs as [q ->]. rewrite <- str_app_assoc. apply last_byte_snoc. }
  case_bool_decide as Hs; cbn [negb].
  { rewrite suffix_at_spec by done. naive_solver. }
  apply last_byte_Some in Hn as [b ->]. rewrite sent_take_last.
  assert (Hb : forall p, b +:+ String DOT "" = p +:+ suffix +:+ "." <-> b = p +:+ suffix).
  { intros p. rewrite <- str_app_assoc. split; [|by intros ->]. intros H. apply (f_equal (fun s => str_take (String.length s - 1) s)) in H. by rewrite !sent_take_last in H. }
  destruct (Nat.eqb_spec (String.length (b +:+ String DOT "") - String.length suffix) 0) as [Hz|Hz].
  { split; [done|]. intros [_ (p & Hp & _)]. apply Hb in Hp. subst b. rewrite !length_str_app in *. cbn in *. lia. }
  rewrite length_str_app in Hz, Hge |- *. cbn [String.length] in Hz, Hge |- *.
  replace (String.length b + 1 - String.length suffix - 1)%nat with (String.length b - String.length suffix)%nat by lia.
  rewrite suffix_at_spec by lia. setoid_rewrite Hb. naive_solver.
Qed.

Section Lookups.
Context {R : Resolver} (env : ServiceEnv) (nm : Names).

(** A name that ends with the domain of the cluster, or with the namespace as its last label. *)
Definition has_domain (ns qName : string) : Prop :=
  (exists p, qName = p +:+ dotClusterDomain nm) \/ ns <> EmptyString /\ exists p, qName = p +:+ dotted_suffix ns /\ labels_before p.
(** The names that stand for a question of a client, in order. *)
Definition search_path (client : option ClientSession) (qName : string) (path : list string) : Prop :=
  match client with
  | None => path = [qName]
  | Some c =>
      let ns := cl_Namespace c in
      let dots := length (filter (fun a => a = "."%char) (String.list_ascii_of_string qName)) in
      let inNs := qName +:+ ns +:+ "." in
      (ns = env_ManagerNamespace env \/ dots = 0%nat -> path = [qName]) /\
      (ns <> env_ManagerNamespace env -> dots = 1%nat -> path = [inNs]) /\
      (ns <> env_ManagerNamespace env -> (1 < dots)%nat -> has_domain ns qName -> path = [qName]) /\
      (ns <> env_ManagerNamespace env -> (1 < dots)%nat -> ~ has_domain ns qName -> path = [qName; inNs])
  end.
(** The answer for the first name that exists, or for the last. *)
Fixpoint search (qType : Z) (names : list string) : option lookup_result :=
  match names with
  | [] => None
  | [n] => DnsProxy.Lookup qType n (dotClusterDomain nm)
  | n :: names =>
      match DnsProxy.Lookup qType n (dotClusterDomain nm) with
      | Some (rrs, rc, None) => if rc =? RcodeNameError then search qType names else Some (rrs, rc, None)
      | r => r
      end
  end.
Definition answer (qName : string) (r : lookup_result) : list RR * Z := match r with (_, rc, Some _) => ([], rc) | (rrs, rc, None) => (rename qName <$> rrs, rc) end.

Lemma rename_same qType qName rrs rc st : DnsProxy.Lookup qType qName (dotClusterDomain nm) = Some (rrs, rc, st) -> rename qName <$> rrs = rrs.
Proof.
  intros (H & _)%Lookup_records. induction H as [|rr rrs [Hn _] _ IH]; [done|]. cbn. rewrite IH. f_equal. destruct rr. cbn in Hn. by subst.
Qed.

Lemma CountByte_filter q c : CountByte q c = length (filter (fun a => a = c) (String.list_ascii_of_string q)).
Proof. induction q as [|a q IH]; [done|]. cbn. rewrite IH. case_bool_decide; case_decide; done. Qed.
Lemma retry_in_ns_spec c qName :
  retry_in_ns env nm c qName qName = true <-> (1 < CountByte qName ".")%nat /\ cl_Namespace c <> env_ManagerNamespace env /\ ~ has_domain (cl_Namespace c) qName.
Proof.
  unfold retry_in_ns, has_domain. rewrite !andb_true_iff, !negb_true_iff, Nat.ltb_lt, <- HasSuffix_spec, <- hasDomainSuffix_correct, bool_decide_eq_false.
  destruct (HasSuffix _ _), (hasDomainSuffix _ _); naive_solver.
Qed.
(** The path that the code follows. *)
Lemma search_path_code c qName :
  search_path (Some c) qName (if in_client_ns env c qName then [qName +:+ cl_Namespace c +:+ "."]
                              else if retry_in_ns env nm c qName qName then [qName; qName +:+ cl_Namespace c +:+ "."] else [qName]).
Proof.
  unfold search_path. rewrite <- CountByte_filter. unfold in_client_ns.
  destruct (bool_decide_reflect (cl_Namespace c = env_ManagerNamespace env)) as [Hm|Hm]; cbn [negb]; rewrite ?andb_false_r, ?andb_true_r.
  - assert (Hr : retry_in_ns env nm c qName qName = false) by (apply not_true_iff_false; rewrite retry_in_ns_spec; naive_solver). rewrite Hr. naive_solver.
  - destruct (Nat.eqb_spec (CountByte qName ".") 1) as [H1|H1]; [split_and!; intros; naive_solver lia|].
    destruct (retry_in_ns env nm c qName qName) eqn:Er.
    + apply retry_in_ns_spec in Er as (H2 & _ & H3). split_and!; intros; naive_solver lia.
    + apply not_true_iff_false in Er. rewrite retry_in_ns_spec in Er. split_and!; intros; try done. by destruct Er.
Qed.

(** C19. A name is looked up along the search path of the client, and the answer has the name
    that was asked for.  Without a session, for a client in the namespace of the
    traffic-manager and for a name without a dot that is the name itself.  For the other
    clients a name with one dot is looked up only in the client's namespace, and a name
    with more dots as it is, and then, when it does not exist and ends neither with the
    cluster's domain nor with that namespace, in the client's namespace. *)
Theorem lookupFromManager_correct (client : option ClientSession) (qType : Z) (qName : string) :
  exists path, search_path client qName path /\ lookupFromManager env nm client qType qName = answer qName <$> search qType path.
Proof.
  destruct client as [c|].
  - eexists. split; [apply search_path_code|]. unfold lookupFromManager. cbn zeta. destruct (in_client_ns env c qName) eqn:Ens.
    + assert (Hr : forall n, retry_in_ns env nm c qName n = false).
      { intros n. unfold in_client_ns in Ens. apply andb_true_iff in Ens as [Hc%Nat.eqb_eq _]. unfold retry_in_ns. by rewrite Hc. }
      cbn [search]. destruct (DnsProxy.Lookup _ _ _) as [[[rrs rc] [e|]]|]; try done. by rewrite Hr, andb_false_r.
    + destruct (retry_in_ns env nm c qName qName) eqn:Er; cbn [search].
      * destruct (DnsProxy.Lookup qType qName _) as [[[rrs rc] [e|]]|] eqn:El; try done. rewrite andb_true_r. destruct (rc =? RcodeNameError).
        -- destruct (DnsProxy.Lookup qType (qName +:+ _) _) as [[[rrs2 rc2] [e|]]|]; done.
        -- cbn. by rewrite (rename_same _ _ _ _ _ El).
      * destruct (DnsProxy.Lookup qType qName _) as [[[rrs rc] [e|]]|] eqn:El; try done. rewrite andb_false_r. cbn. by rewrite (rename_same _ _ _ _ _ El).
  - exists [qName]. split; [done|]. unfold lookupFromManager. cbn [search]. destruct (DnsProxy.Lookup qType qName _) as [[[rrs rc] [e|]]|] eqn:El; try done. cbn. by rewrite (rename_same _ _ _ _ _ El).
Qed.
End Lookups.

(** ** The stream of pods *)

Definition flags_right (client : string) (st : State) (pods : gmap string PodMsg) : Prop :=
  forall k m, pods !! k = Some m -> IsInactive (pm_PodId m) st = false ->
  pm_Intercepted m = IsInterceptedBy st (Addr_String (default AddrZero (AddrFromSlice (pm_PodIp m)))) (pm_WorkloadName m) (pm_Namespace m) client.

(** A delta of the agents, or a change of the client's intercepts, with the state that is
    asked while it is handled. *)
Inductive pods_event := PodsAgents (st : State) (d : Delta string agentPod) | PodsIntercepts (st : State).
Definition event_state (e : pods_event) : State := match e with PodsAgents st _ | PodsIntercepts st => st end.
Definition pods_step (client : string) (order : gmap string agentPod -> list (string * agentPod)) (pods : gmap string PodMsg) (e : pods_event) : gmap string PodMsg :=
  match e with PodsAgents st d => agents_delta st client order d pods | PodsIntercepts st => refreshIntercepted st client pods end.
(** While agents are handled the intercepts are those of the last refresh; pods do not
    become active again, and their addresses have no zone. *)
Fixpoint steady_events (client : string) (st : State) (evs : list pods_event) : Prop :=
  match evs with
  | [] => True
  | PodsAgents st' d :: evs =>
      (forall ip name ns, IsInterceptedBy st' ip name ns client = IsInterceptedBy st ip name ns client) /\ inactive st ⊆ inactive st' /\
      (forall k x a, Upserts d !! k = Some x -> ParseAddr (ag_PodIp x.1) = Some a -> withoutZone a = a) /\ steady_events client st' evs
  | PodsIntercepts st' :: evs => steady_events client st' evs
  end.

Lemma refresh_right client st pods : flags_right client st (refreshIntercepted st client pods).
Proof.
  intros k m. unfold refreshIntercepted. rewrite lookup_fmap_Some. intros (m0 & <- & _). unfold refresh_pod. destruct (IsInactive (pm_PodId m0) st) eqn:E; [congruence|]. done.
Qed.
Lemma flags_mono client st st' pods : (forall ip name ns, IsInterceptedBy st' ip name ns client = IsInterceptedBy st ip name ns client) -> inactive st ⊆ inactive st' ->
  flags_right client st pods -> flags_right client st' pods.
Proof.
  intros Hi Hs Hf k m Hm Hn. rewrite Hi. apply (Hf k m Hm). unfold IsInactive in *. apply bool_decide_eq_false in Hn. apply bool_decide_eq_false. set_solver.
Qed.
Lemma agents_right client order st d pods : (forall m, order m ≡ₚ map_to_list m) ->
  (forall k x a, Upserts d !! k = Some x -> ParseAddr (ag_PodIp x.1) = Some a -> withoutZone a = a) ->
  flags_right client st pods -> flags_right client st (agents_delta st client order d pods).
Proof.
  intros Ho Hz Hf. unfold agents_delta. apply (foldl_inv (flags_right client st)); [|apply (foldl_inv (flags_right client st)); [|done]].
  - intros pods' k _ Hp k' m [_ Hm]%lookup_delete_Some. by apply Hp with k'.
  - intros pods' [k x] Hkx Hp. cbn [fst snd]. unfold pod_upsert. destruct (IsInactive _ _) eqn:Ei; [done|].
    destruct (ParseAddr _) as [a|] eqn:Ea; [|done]. cbn [store_pod]. intros k' m [[<- <-]|[_ Hm]]%lookup_insert_Some; [|by apply Hp with k'].
    intros _. unfold pod_msg. cbn [pm_Intercepted pm_PodIp pm_WorkloadName pm_Namespace]. destruct (ParseAddr_wf _ _ Ea) as [Hw Hnz].
    rewrite AddrFromSlice_AsSlice by done. cbn. rewrite (Ho (Upserts d)), elem_of_map_to_list in Hkx. by rewrite (Hz k x a Hkx Ea).
Qed.

(** When the goroutine of the agents and the handler of the intercepts do not overlap: the
    pods that are active are marked as intercepted exactly when the client intercepts them. *)
Theorem pod_flags_right (client : string) (order : gmap string agentPod -> list (string * agentPod)) (st : State) (pods : gmap string PodMsg) (evs : list pods_event) :
  (forall m, order m ≡ₚ map_to_list m) -> flags_right client st pods -> steady_events client st evs ->
  flags_right client (default st (event_state <$> last evs)) (foldl (pods_step client order) pods evs).
Proof.
  intros Ho. revert st pods. induction evs as [|e evs IH]; intros st pods Hf Hs; [done|]. cbn [foldl].
  assert (Hl : default st (event_state <$> last (e :: evs)) = default (event_state e) (event_state <$> last evs)) by (destruct evs as [|e' evs]; [done|]; rewrite last_cons_cons; destruct (last (e' :: evs)) eqn:El; [done|by apply last_None in El]).
  rewrite Hl. destruct e as [st' d|st']; cbn [event_state pods_step steady_events] in *.
  - destruct Hs as (Hi & Hm & Hz & Hs). apply IH; [|done]. apply agents_right; [done|done|]. by apply flags_mono with st.
  - apply IH; [|done]. apply refresh_right.
Qed.

(** ** Variables that agents must not share *)

Definition shares_none (env : ServiceEnv) (m : gmap string AgentDetail) : Prop :=
  forall session d container vars key, m !! session = Some d -> ad_Containers d !! container = Some vars -> key ∈ env_Excluded env -> vars !! key = None.
Lemma removeExcluded_none env vars key : key ∈ env_Excluded env -> removeExcludedEnvVars env vars !! key = None.
Proof.
  unfold removeExcludedEnvVars. revert vars. induction (env_Excluded env) as [|x l IH]; intros vars Hk; [by apply not_elem_of_nil in Hk|]. cbn [foldl].
  destruct (decide (key ∈ l)) as [Hl|Hl]; [by apply IH|]. apply elem_of_cons in Hk as [->|Hk]; [|done].
  apply (foldl_inv (fun v : gmap string string => v !! x = None)); [|apply lookup_delete_eq]. intros v y _ Hv. apply lookup_delete_None. by right.
Qed.
(** An agent that arrives never brings a variable that is excluded. *)
Theorem excluded_not_stored (env : ServiceEnv) (a : AgentInfo) (d : AgentDetail) (now : Z) (s : service) :
  shares_none env (sv_details s) -> shares_none env (sv_details (ArriveAsAgent env a d now s).1).
Proof.
  intros Hs. unfold ArriveAsAgent. destruct (negb _); [done|].
  assert (Hk : forall known, shares_none env (keep_detail (agent_id a) known (mkAD (ad_Kind d) (ad_ApiPort d) (removeExcludedEnvVars env <$> ad_Containers d)) (sv_details s))).
  { intros [|]; [exact Hs|]. unfold keep_detail. intros session d' container vars key [[_ <-]|[_ Hd]]%lookup_insert_Some; [|by apply (Hs session d')].
    cbn [ad_Containers]. rewrite lookup_fmap_Some. intros (v & <- & _). apply removeExcluded_none. }
  destruct (AddAgent a now (sv_state s)) as [st []]; [done|apply Hk|apply Hk].
Qed.

(** ** Samples *)

Definition any_version : Semver := fun _ => inr (2, 20).
Definition sample_env : ServiceEnv := mkSEnv ["default"%string] "ambassador" ["SECRET"%string] 100 "install".
Definition sample_detail : AgentDetail := mkAD "Deployment" 9900 {[ "app"%string := {[ "SECRET"%string := "x"%string; "PORT"%string := "80"%string ]} ]}.
Definition sample_service : service := mkSv ex_active {[ "agent:u1"%string := sample_detail; "agent:u2"%string := sample_detail ]} {[ "c1"%string := (0, 100) ]} NoYAML false.

Lemma states_roundtrip_witness : UnmarshalStates (MarshalStates {[ ("Deployment", "web", "default")%string := 7 ]}) = Some {[ ("Deployment", "web", "default")%string := 7 ]}.
Proof. apply states_roundtrip. intros k [t [<- _]%lookup_singleton_Some]. split; [|split]; vm_compute; reflexivity. Defined.

Lemma pod_flags_right_witness :
  flags_right "c1" ex_active
    (foldl (pods_step "c1" map_to_list) ∅
       [PodsAgents ex_base (mkDelta {[ "agent:u1"%string := (ex_agent "u1" "echo-1" "10.0.0.1", 9900) ]} ∅); PodsIntercepts ex_active]).
Proof.
  apply (pod_flags_right "c1" map_to_list ex_base ∅ [PodsAgents ex_base (mkDelta {[ "agent:u1"%string := (ex_agent "u1" "echo-1" "10.0.0.1", 9900) ]} ∅); PodsIntercepts ex_active]).
  - done.
  - intros k m. by rewrite lookup_empty.
  - split; [done|]. split; [done|]. split; [|done]. cbn [Upserts]. intros k x a [<- <-]%lookup_singleton_Some Ha. vm_compute in Ha. injection Ha as <-. reflexivity.
Defined.
Lemma excluded_not_stored_witness : shares_none sample_env (sv_details (ArriveAsAgent sample_env (ex_agent "u9" "echo-9" "10.0.0.9") sample_detail 100 (mkSv ex_base ∅ ∅ NoYAML false)).1).
Proof. apply excluded_not_stored. intros session d container vars key Hd. cbn [sv_details] in Hd. by rewrite lookup_empty in Hd. Defined.

(** ** What goes wrong *)

(** An agent whose container restarts within its pod is told an empty session id, with which
    it watches the intercepts of all workloads. *)
Example restarted_agent_without_session :
  (si_SessionId <$> match (ArriveAsAgent sample_env (ex_agent "u1" "echo-1" "10.0.0.1") sample_detail 160 sample_service).2 with Ret i => Some i | _ => None end) = Some EmptyString /\
  match watchIntercepts sample_service EmptyString with Ret f => f ex_active (NewInterceptInfo "c1:other" "c1" (with_namespace "elsewhere" (ex_spec "other" []))) = true | _ => False end.
Proof. vm_compute. split; reflexivity. Qed.

(** An agent that reconnects brings the variables that are excluded. *)
Example reconnected_agent_shares_excluded :
  let s := (ReconnectAgent "agent:u1" (ex_agent "u1" "echo-1" "10.0.0.1") sample_detail 160 (mkSv NewState ∅ ∅ NoYAML false)).1 in
  (sv_details s !! "agent:u1"%string ≫= fun d => ad_Containers d !! "app"%string) ≫= (fun v => v !! "SECRET"%string) = Some "x"%string.
Proof. vm_compute. reflexivity. Qed.

(** The name of a workload may have dots: once such a workload has been engaged the file
    cannot be read any more, and no agent is removed. *)
Example dotted_name_breaks_file :
  let s := (UpdateLastEngagementTime ("Deployment", "web.v1", "default")%string 10 sample_service).1 in
  read_states (sv_agentStateYAML s) = None /\ (UpdateLastEngagementTime ("Deployment", "echo", "default")%string 20 s).2 = Fail BadStateFile /\
  (Remain sample_env true true "agent:u2" None 100000 (set_state ex_base s)).1.2 = false.
Proof. vm_compute. split; [|split]; reflexivity. Qed.

(** The time of an agent that was removed stays: when the workload gets an agent again, the
    first call of [Remain] removes it. *)
Example returning_agent_removed :
  remains sample_env [(ex_base, "agent:u1"%string, 10); (ex_base, "agent:u1"%string, 200); (ex_base, "agent:u2"%string, 300)] sample_service = [false; true; true].
Proof. vm_compute. reflexivity. Qed.

(** A time that is stored while the config map is patched is not written to it: the flag is
    cleared after the patch. *)
Example update_during_patch_lost :
  let s := set_yaml (TimesYAML {[ "Deployment.echo.default"%string := 5 ]}) sample_service in
  let '(s', cm) := config_map_tick true (fun s => (UpdateLastEngagementTime ("Deployment", "web", "default")%string 10 s).1) (s, NoYAML) in
  sv_tmConfigMapUpdated s' = false /\ cm = TimesYAML {[ "Deployment.echo.default"%string := 5 ]} /\ size <$> read_states (sv_agentStateYAML s') = Some 2%nat.
Proof. vm_compute. split; [|split]; reflexivity. Qed.

(** A client without agents gets no first snapshot of pods, and one that has some gets the
    same snapshot again with every change of its intercepts. *)
Example empty_pods_not_sent : (pods_onChanged ex_active "c1" [] []).2 = None.
Proof. reflexivity. Qed.
Example unchanged_pods_sent_again :
  let pods := [(ex_agent "u1" "echo-1" "10.0.0.1", 9900)] in
  let last := (pods_onChanged ex_active "c1" pods []).1 in
  (pods_onChanged ex_active "c1" pods last).2 = Some last.
Proof. vm_compute. reflexivity. Qed.

(** The goroutine of the agents asks whether a pod is intercepted before it stores the pod;
    an intercept that becomes active in between is refreshed too early, and the pod stays
    marked as not intercepted. *)
Example refreshed_before_stored :
  let m := pod_upsert ex_added "c1" (ex_agent "u1" "echo-1" "10.0.0.1", 9900) in
  let pods := store_pod "agent:u1" m (refreshIntercepted ex_active "c1" ∅) in
  pm_Intercepted <$> pods !! "agent:u1"%string = Some false /\ IsInterceptedBy ex_active "10.0.0.1" "echo" "default" "c1" = true.
Proof. vm_compute. split; reflexivity. Qed.

(** The manager's own name has an address of the other family in an answer without address. *)
Example self_without_address :
  let nm := NewService_names "cluster.local." "ambassador" in
  rr_data <$> resolveSelfDNS nm [10; 0; 0; 7] "traffic-manager.ambassador." TypeAAAA = [rAAAA []].
Proof. vm_compute. reflexivity. Qed.
