(* ===== verification/Namespaces.v ===== *)
(** * The managed namespaces (src/pkg/labels/selector.go,
      src/cmd/traffic/cmd/manager/namespaces/watcher.go, config/config.go)

    The traffic-manager serves the namespaces that a label selector in its config map
    selects.  The file models selectors and what they select, the watcher that keeps the
    list of namespaces and tells subscribers when it changes, and the handler of the config
    map's events.  The labels package of Kubernetes is a class with the laws of its
    documentation; what the API server answers is an argument.  The theorems: the
    requirements of a selector do not depend on the order of a map; what a selector
    selects; that static and dynamic selection agree; that the list follows the selector
    and the cluster; that no subscriber misses a change. *)
From S2P Require Import Prelude GoStrings.
From Stdlib Require Import Ascii.
Local Open Scope Z_scope.

(** ** Selectors *)

Definition NameLabelKey : string := "kubernetes.io/metadata.name".
Definition Operator : Type := string.
Definition OperatorIn : Operator := "In".
Definition OperatorNotIn : Operator := "NotIn".
Definition OperatorExists : Operator := "Exists".
Definition OperatorNotExists : Operator := "DoesNotExist".
Definition AsSelectionOperator (op : Operator) : string := ToLower op.

Record Requirement := mkReq { rq_Key : string; rq_Operator : Operator; rq_Values : list string }.
Record Selector := mkSel { MatchLabels : gmap string string; MatchExpressions : list Requirement }.
Global Instance Requirement_eq : EqDecision Requirement.
Proof. solve_decision. Defined.

(** [slices.Compare] and [rqCmp], as the relation that the first is not greater. *)
Fixpoint values_le (a b : list string) : Prop :=
  match a, b with
  | [], _ => True
  | _ :: _, [] => False
  | x :: a, y :: b => x <> y /\ String.le x y \/ x = y /\ values_le a b
  end.
Definition rqCmp_le (a b : Requirement) : Prop :=
  rq_Key a <> rq_Key b /\ String.le (rq_Key a) (rq_Key b) \/ rq_Key a = rq_Key b /\
  (rq_Operator a <> rq_Operator b /\ String.le (rq_Operator a) (rq_Operator b) \/ rq_Operator a = rq_Operator b /\ values_le (rq_Values a) (rq_Values b)).
Global Instance values_le_dec : RelDecision values_le.
Proof. intros a. induction a as [|x a IH]; intros [|y b]; cbn [values_le]; try apply _. Defined.
Global Instance rqCmp_le_dec : RelDecision rqCmp_le.
Proof. intros a b. unfold rqCmp_le. apply _. Defined.

(** The labels, in the order in which the map is ranged over. *)
Definition label_requirement (kv : string * string) : Requirement := mkReq kv.1 OperatorIn [kv.2].
Definition GetAllRequirements (order : gmap string string -> list (string * string)) (sel : option Selector) : list Requirement :=
  match sel with
  | None => []
  | Some sel => merge_sort rqCmp_le (MatchExpressions sel ++ (label_requirement <$> order (MatchLabels sel)))
  end.

(** [Static] and [StaticNames] look at the same cases. *)
Definition StaticNames (sel : option Selector) : option (list string) :=
  match sel with
  | None => None
  | Some sel =>
      match size (MatchLabels sel), MatchExpressions sel with
      | O, [m] => if bool_decide (rq_Key m = NameLabelKey) && bool_decide (rq_Operator m = OperatorIn) then Some (rq_Values m) else None
      | 1%nat, _ => (fun n => [n]) <$> MatchLabels sel !! NameLabelKey
      | _, _ => None
      end
  end.
Definition Static (sel : option Selector) : bool :=
  match sel with
  | None => false
  | Some sel =>
      match size (MatchLabels sel), MatchExpressions sel with
      | O, [m] => bool_decide (rq_Key m = NameLabelKey) && bool_decide (rq_Operator m = OperatorIn)
      | 1%nat, _ => bool_decide (is_Some (MatchLabels sel !! NameLabelKey))
      | _, _ => false
      end
  end.
Definition SelectorFromNames (names : list string) : option Selector :=
  match names with [] => None | _ => Some (mkSel ∅ [mkReq NameLabelKey OperatorIn names]) end.

(** [labels.NewRequirement] and [Requirement.Matches] of Kubernetes: operators other than
    those of the selection package are refused. *)
Definition selection_operators : list string := ["!"; "="; "=="; "in"; "!="; "notin"; "exists"; "gt"; "lt"]%string.
Class K8sLabels := { label_req : Type; NewRequirement : string -> string -> list string -> option label_req; req_Matches : label_req -> gmap string string -> bool }.
Class K8sLabelsLaws `{K8sLabels} := {
  unknown_operator : forall key op vals, op ∉ selection_operators -> NewRequirement key op vals = None;
  matches_in : forall key vals r ls, NewRequirement key "in" vals = Some r -> req_Matches r ls = true <-> exists v, ls !! key = Some v /\ v ∈ vals;
  matches_notin : forall key vals r ls, NewRequirement key "notin" vals = Some r -> req_Matches r ls = true <-> forall v, ls !! key = Some v -> v ∉ vals;
  matches_exists : forall key vals r ls, NewRequirement key "exists" vals = Some r -> req_Matches r ls = true <-> is_Some (ls !! key)
}.

Section Selection.
Context `{K8sLabels}.
(** [NewSelector().Add]: all requirements must match. *)
Definition NewLabelsSelector (es : list Requirement) : option (list label_req) :=
  mapM (fun ns => NewRequirement (rq_Key ns) (AsSelectionOperator (rq_Operator ns)) (rq_Values ns)) es.
Definition sel_Matches (rqs : list label_req) (ls : gmap string string) : bool := forallb (fun r => req_Matches r ls) rqs.
Context (order : gmap string string -> list (string * string)).
Definition LabelsSelector (sel : option Selector) : option (list label_req) := NewLabelsSelector (GetAllRequirements order sel).

(** ** The watcher *)

(** The namespaces of the cluster with their labels. *)
Definition Cluster : Type := list (string * gmap string string).
(** How the API server answers a request to list them. *)
Inductive list_answer := Listed | Forbidden | ListFailed.

(** A subscriber: whether a notification is in its channel. *)
Record handle := mkH { h_selector : option Selector; h_namespaces : list string; h_parties : gmap nat bool; h_lister : bool }.
Inductive ns_error := ErrSelector | ErrListing | ErrNotStatic | ErrClosed.

Definition set (names : list string) (h : handle) : handle :=
  let names := merge_sort String.le names in
  if bool_decide (names = h_namespaces h) then h else mkH (h_selector h) names ((fun _ => true) <$> h_parties h) (h_lister h).
Definition set_selector (sel : option Selector) (h : handle) : handle := mkH sel (h_namespaces h) (h_parties h) (h_lister h).
Definition newWatcher (h : handle) : handle := mkH (h_selector h) (h_namespaces h) (h_parties h) true.

Definition select (cl : Cluster) (rqs : list label_req) : list string := (filter (fun n => sel_Matches rqs n.2 = true) cl).*1.
Definition updateSelection (cl : Cluster) (h : handle) : Go ns_error handle :=
  match LabelsSelector (h_selector h) with None => Fail ErrSelector | Some rqs => Ret (set (select cl rqs) h) end.
Definition computeNamesStatic (h : handle) : Go ns_error handle :=
  match StaticNames (h_selector h) with Some ((_ :: _) as names) => Ret (set names h) | _ => Fail ErrNotStatic end.
Definition computeNames (canWatch : bool) (answer : list_answer) (cl : Cluster) (h : handle) : Go ns_error (handle * bool) :=
  if negb canWatch then h ← computeNamesStatic h; Ret (h, false)
  else match LabelsSelector (h_selector h) with
       | None => Fail ErrSelector
       | Some rqs =>
           match answer with
           | Listed => Ret (set (select cl rqs) h, true)
           | Forbidden => match computeNamesStatic h with Ret h => Ret (h, false) | _ => Fail ErrListing end
           | ListFailed => Fail ErrListing
           end
       end.

(** [InitContext] when the channel has a selector; [None] is a context without a handle. *)
Definition InitContext (canWatch : bool) (answer : list_answer) (cl : Cluster) (sel : option Selector) : Go ns_error (option handle) :=
  match sel with
  | None => Ret None
  | Some _ =>
      '(h, dynamic) ← computeNames canWatch answer cl (mkH sel [] ∅ false);
      Ret (Some (if dynamic : bool then newWatcher h else h))
  end.
(** One round of [listen]: a selector arrives. *)
Definition listen (canWatch : bool) (answer : list_answer) (cl : Cluster) (sel : option Selector) (h : handle) : Go ns_error handle :=
  let h := set_selector sel h in
  match sel with
  | None => Ret (set [] h)
  | Some _ =>
      if negb (h_lister h) then
        '(h, dynamic) ← computeNames canWatch answer cl h; Ret (if dynamic : bool then newWatcher h else h)
      else match updateSelection cl h with Ret h => Ret h | _ => Ret h end
  end.
(** The timer that an event of the informer resets. *)
Definition timer_fires (cl : Cluster) (h : handle) : handle := match updateSelection cl h with Ret h => h | _ => h end.

Definition Get (h : option handle) : list string := match h with Some h => h_namespaces h | None => [] end.
Definition GetOrGlobal (maxWatchers : Z) (h : option handle) : list string :=
  match h with
  | Some h => if (maxWatchers <? Z.of_nat (length (h_namespaces h))) && negb (Static (h_selector h)) then [EmptyString] else h_namespaces h
  | None => []
  end.
End Selection.

(** *** Subscribers *)

(** [addSubscriber] registers a channel of one place and then sends to it: the send blocks
    ([None]) when a notification came in between. *)
Definition register (id : nat) (h : handle) : handle := mkH (h_selector h) (h_namespaces h) (<[id := false]> (h_parties h)) (h_lister h).
Definition initial_notification (id : nat) (h : handle) : option handle :=
  match h_parties h !! id with
  | Some false => Some (mkH (h_selector h) (h_namespaces h) (<[id := true]> (h_parties h)) (h_lister h))
  | _ => None
  end.
Definition removeSubscriber (id : nat) (h : handle) : handle := mkH (h_selector h) (h_namespaces h) (delete id (h_parties h)) (h_lister h).
(** A subscriber takes its notification and gets the namespaces. *)
Definition receive (id : nat) (h : handle) : option (handle * list string) :=
  match h_parties h !! id with
  | Some true => Some (mkH (h_selector h) (h_namespaces h) (<[id := false]> (h_parties h)) (h_lister h), h_namespaces h)
  | _ => None
  end.

(** ** The config map *)

(** A file of the config map: absent, or its bytes with what they are read as. *)
Inductive file (A : Type) := Absent | Present (bytes : string) (value : option A).
Arguments Absent {A}.
Arguments Present {A} bytes value.

Record config := mkCfg {
  cf_clientYAML : string; cf_agentStateYAML : string; cf_adminCommandsYAML : string; cf_Excluded : list string;
  cf_namespaceSelector : list (option Requirement);
  cf_selectorChannel : option (option Selector);     (* one place *)
  cf_commandsChannel : option string                 (* one place *)
}.
(** [NewWatcher]: the nil entry forces a first event. *)
Definition NewWatcher : config := mkCfg EmptyString EmptyString EmptyString [] [None] None None.

Definition file_bytes {A} (f : file A) : string := match f with Present b _ => b | Absent => EmptyString end.
Definition refresh_env (f : file (list string)) (old : list string) : list string :=
  match f with
  | Present _ (Some excluded) => merge_sort String.le excluded
  | Present _ None => old
  | Absent => []
  end.
Definition refresh_selector (order : gmap string string -> list (string * string)) (f : file Selector) (cur : list (option Requirement)) (ch : option (option Selector)) :
    list (option Requirement) * option (option Selector) :=
  match f with
  | Present _ None => (cur, ch)
  | Present _ (Some sel) =>
      let es := GetAllRequirements order (Some sel) in
      if bool_decide (Some <$> es = cur) then (cur, ch)
      else match ch with None => (Some <$> es, Some (Some (mkSel ∅ es))) | Some _ => (cur, ch) end
  | Absent =>
      match cur, ch with
      | [], _ | _, Some _ => (cur, ch)
      | _, None => ([], Some None)
      end
  end.
Definition refresh_commands (f : file ()) (cur : string) (ch : option string) : string * option string :=
  match f with
  | Absent => (EmptyString, ch)
  | Present b v => if bool_decide (b = cur) then (cur, ch) else match v, ch with Some _, None => (b, Some b) | _, _ => (cur, ch) end
  end.
Record files := mkFiles { fl_client : file (); fl_env : file (list string); fl_selector : file Selector; fl_state : file (); fl_commands : file () }.
Definition refreshFile (order : gmap string string -> list (string * string)) (m : files) (c : config) : config :=
  let '(ns, ch) := refresh_selector order (fl_selector m) (cf_namespaceSelector c) (cf_selectorChannel c) in
  let '(cmds, cch) := refresh_commands (fl_commands m) (cf_adminCommandsYAML c) (cf_commandsChannel c) in
  mkCfg (file_bytes (fl_client m)) (file_bytes (fl_state m)) cmds (refresh_env (fl_env m) (cf_Excluded c)) ns ch cch.

(** ** The order of requirements *)

Definition lexp {A} (R : A -> A -> Prop) (x y : A) (next : Prop) : Prop := x <> y /\ R x y \/ x = y /\ next.
Section Lex.
Context {A} (R : A -> A -> Prop) `{!Total R, !Transitive R, !AntiSymm (=) R, !EqDecision A}.
Lemma lexp_total x y (P Q : Prop) : (x = y -> P \/ Q) -> lexp R x y P \/ lexp R y x Q.
Proof. intros H. unfold lexp. destruct (decide (x = y)) as [->|Hne]; [destruct (H eq_refl); auto|]. destruct (total R x y); auto. Qed.
Lemma lexp_trans x y z (P Q S : Prop) : (x = y -> y = z -> P -> Q -> S) -> lexp R x y P -> lexp R y z Q -> lexp R x z S.
Proof.
  unfold lexp. intros H [[H1 H2]|[<- H1]] [[H3 H4]|[<- H3]]; auto. left. split; [|by transitivity y]. intros <-. apply H1. by apply (anti_symm R).
Qed.
Lemma lexp_anti x y (P Q : Prop) : lexp R x y P -> lexp R y x Q -> x = y /\ P /\ Q.
Proof. unfold lexp. intros [[H1 H2]|[<- H1]] [[H3 H4]|[? H3]]; try done. exfalso. apply H1. by apply (anti_symm R). Qed.
End Lex.

Global Instance values_le_total : Total values_le.
Proof. intros a. induction a as [|x a IH]; intros [|y b]; cbn [values_le]; auto. apply (lexp_total String.le). auto. Qed.
Global Instance values_le_trans : Transitive values_le.
Proof.
  intros a. induction a as [|x a IH]; intros [|y b] [|z c]; cbn [values_le]; try done. apply (lexp_trans String.le). intros _ _. apply IH.
Qed.
Lemma values_le_anti a : forall b, values_le a b -> values_le b a -> a = b.
Proof.
  induction a as [|x a IH]; intros [|y b]; cbn [values_le]; try done. intros H1 H2. destruct (lexp_anti String.le _ _ _ _ H1 H2) as (-> & H3 & H4). f_equal. by apply IH.
Qed.
Global Instance rqCmp_le_total : Total rqCmp_le.
Proof. intros a b. apply (lexp_total String.le). intros _. apply (lexp_total String.le). intros _. apply (total values_le). Qed.
Global Instance rqCmp_le_trans : Transitive rqCmp_le.
Proof.
  intros a b c. apply (lexp_trans String.le). intros _ _. apply (lexp_trans String.le). intros _ _ H1 H2. by transitivity (rq_Values b).
Qed.
Global Instance rqCmp_le_anti : AntiSymm (=) rqCmp_le.
Proof.
  intros a b H1 H2. destruct (lexp_anti String.le _ _ _ _ H1 H2) as (E1 & H3 & H4). destruct (lexp_anti String.le _ _ _ _ H3 H4) as (E2 & H5 & H6).
  destruct a, b. cbn in *. subst. f_equal. by apply values_le_anti.
Qed.

Definition any_label_order (order : gmap string string -> list (string * string)) : Prop := forall m, order m ≡ₚ map_to_list m.

(** The requirements of a selector do not depend on the order in which its labels are
    ranged over. *)
Theorem GetAllRequirements_order (order1 order2 : gmap string string -> list (string * string)) (sel : option Selector) :
  any_label_order order1 -> any_label_order order2 -> GetAllRequirements order1 sel = GetAllRequirements order2 sel.
Proof.
  intros H1 H2. destruct sel as [sel|]; [|done]. cbn [GetAllRequirements]. apply (StronglySorted_unique rqCmp_le).
  - apply StronglySorted_merge_sort; apply _.
  - apply StronglySorted_merge_sort; apply _.
  - rewrite !merge_sort_Permutation. by rewrite (H1 _), (H2 _).
Qed.

(** ** What a selector selects *)

Section SelectionSpec.
Context `{K8sLabelsLaws} (order : gmap string string -> list (string * string)) (Horder : any_label_order order).

Definition satisfies (r : Requirement) (ls : gmap string string) : Prop :=
  if bool_decide (rq_Operator r = OperatorIn) then exists v, ls !! rq_Key r = Some v /\ v ∈ rq_Values r
  else if bool_decide (rq_Operator r = OperatorNotIn) then forall v, ls !! rq_Key r = Some v -> v ∉ rq_Values r
  else is_Some (ls !! rq_Key r).
Definition known_operators (sel : Selector) : Prop := Forall (fun r => rq_Operator r ∈ [OperatorIn; OperatorNotIn; OperatorExists]) (MatchExpressions sel).

Lemma requirement_matches r rq ls : rq_Operator r ∈ [OperatorIn; OperatorNotIn; OperatorExists] ->
  NewRequirement (rq_Key r) (AsSelectionOperator (rq_Operator r)) (rq_Values r) = Some rq -> req_Matches rq ls = true <-> satisfies r ls.
Proof.
  intros Hop Hr. unfold satisfies. apply elem_of_cons in Hop as [Ho|[Ho|Ho%list_elem_of_singleton]%elem_of_cons]; rewrite Ho in Hr |- *.
  - apply (matches_in _ _ _ _ Hr).
  - apply (matches_notin _ _ _ _ Hr).
  - apply (matches_exists _ _ _ _ Hr).
Qed.
Lemma NewLabelsSelector_matches es rqs ls : Forall (fun r => rq_Operator r ∈ [OperatorIn; OperatorNotIn; OperatorExists]) es ->
  NewLabelsSelector es = Some rqs -> sel_Matches rqs ls = true <-> forall r, r ∈ es -> satisfies r ls.
Proof.
  intros Hk Hs. apply mapM_Some in Hs. unfold sel_Matches. induction Hs as [|r rq es rqs Hr Hs IH]; cbn [forallb].
  - split; [|done]. by intros _ r ?%not_elem_of_nil.
  - apply Forall_cons in Hk as [Hop Hk]. rewrite andb_true_iff, (IH Hk), (requirement_matches r rq ls Hop Hr). setoid_rewrite elem_of_cons. naive_solver.
Qed.

(** A selector selects what has all of its labels and satisfies all of its expressions. *)
Theorem LabelsSelector_correct (sel : Selector) (rqs : list label_req) (ls : gmap string string) :
  known_operators sel -> LabelsSelector order (Some sel) = Some rqs ->
  sel_Matches rqs ls = true <-> MatchLabels sel ⊆ ls /\ forall r, r ∈ MatchExpressions sel -> satisfies r ls.
Proof.
  intros Hk Hs. unfold LabelsSelector in Hs. cbn [GetAllRequirements] in Hs.
  assert (Hel : forall r, r ∈ merge_sort rqCmp_le (MatchExpressions sel ++ (label_requirement <$> order (MatchLabels sel))) <->
            r ∈ MatchExpressions sel \/ exists k v, r = mkReq k OperatorIn [v] /\ MatchLabels sel !! k = Some v).
  { intros r. rewrite merge_sort_Permutation, elem_of_app, (Horder _), list_elem_of_fmap. apply or_iff_compat_l. split.
    - intros ([k v] & -> & Hkv%elem_of_map_to_list). by exists k, v.
    - intros (k & v & -> & Hkv). exists (k, v). split; [done|]. by apply elem_of_map_to_list. }
  rewrite (NewLabelsSelector_matches _ rqs ls) by (first [exact Hs|apply Forall_forall; intros r [Hr|(k & v & -> & _)]%Hel; [by eapply Forall_forall in Hk|apply list_elem_of_here]]).
  setoid_rewrite Hel. rewrite map_subseteq_spec. split.
  - intros Hall. split; [|auto]. intros k v Hkv. destruct (Hall (mkReq k OperatorIn [v])) as (w & Hw & ->%list_elem_of_singleton); [eauto|done].
  - intros [Hl He] r [Hr|(k & v & -> & Hkv)]; [auto|]. exists v. split; [by apply Hl|]. by apply list_elem_of_singleton.
Qed.

(** Every namespace has its name as a label. *)
Definition named_cluster (cl : Cluster) : Prop := forall n ls, (n, ls) ∈ cl -> ls !! NameLabelKey = Some n.
(** C21. A selector that is static names the namespaces: when it is accepted as a selector of labels,
    has either labels or expressions but not both, and the namespaces of the cluster have their names as label, listing the
    cluster with it gives those of the names that exist. *)
Theorem static_dynamic_agree (sel : Selector) (names : list string) (rqs : list label_req) (cl : Cluster) :
  StaticNames (Some sel) = Some names -> (MatchLabels sel = ∅ \/ MatchExpressions sel = []) -> LabelsSelector order (Some sel) = Some rqs -> named_cluster cl ->
  forall n, n ∈ select cl rqs <-> n ∈ cl.*1 /\ n ∈ names.
Proof.
  intros Hn Hsh Hs Hc n.
  assert (Hsel : known_operators sel /\ forall n ls, ls !! NameLabelKey = Some n -> (MatchLabels sel ⊆ ls /\ forall r, r ∈ MatchExpressions sel -> satisfies r ls) <-> n ∈ names).
  { cbn [StaticNames] in Hn. destruct (size (MatchLabels sel)) as [|[|s]] eqn:Es; [| |by destruct (MatchExpressions sel) as [|? []]].
    - apply map_size_empty_inv in Es. unfold known_operators. rewrite Es. destruct (MatchExpressions sel) as [|m [|]]; try done.
      destruct (bool_decide (rq_Key m = _)) eqn:Ek; [|done]. destruct (bool_decide (rq_Operator m = _)) eqn:Eo; [|done]. cbn in Hn. injection Hn as <-.
      apply bool_decide_eq_true in Ek, Eo. split; [apply Forall_singleton; rewrite Eo; apply list_elem_of_here|]. intros n' ls Hl. setoid_rewrite list_elem_of_singleton.
      split.
      + intros [_ Hm]. specialize (Hm m eq_refl). unfold satisfies in Hm. rewrite Eo, Ek, bool_decide_eq_true_2 in Hm by done. destruct Hm as (v & Hv & Hin). congruence.
      + intros Hin. split; [apply map_empty_subseteq|]. intros r ->. unfold satisfies. rewrite Eo, Ek, bool_decide_eq_true_2 by done. by exists n'.
    - assert (Hn' : (fun n => [n]) <$> MatchLabels sel !! NameLabelKey = Some names) by (destruct (MatchExpressions sel) as [|? []]; exact Hn).
      destruct Hsh as [He|He]; [rewrite He in Es; done|]. unfold known_operators. rewrite He. split; [done|]. apply fmap_Some in Hn' as (nm & Hnm & ->). intros n' ls Hl.
      assert (Ex : MatchLabels sel = {[ NameLabelKey := nm ]}).
      { rewrite <- (insert_delete_id _ _ _ Hnm). assert (Hz : delete NameLabelKey (MatchLabels sel) = ∅) by (apply map_size_empty_inv; rewrite map_size_delete_Some by eauto; by rewrite Es). by rewrite Hz. }
      rewrite Ex, map_singleton_subseteq_l, list_elem_of_singleton, Hl.
      split; [by intros [[= ->] _]|]. intros ->. split; [done|]. by intros r ?%not_elem_of_nil. }
  destruct Hsel as [Hk Hsel]. unfold select. rewrite !list_elem_of_fmap. split.
  - intros ([n' ls] & -> & [Hm Hin]%list_elem_of_filter). cbn [fst snd] in *. apply (LabelsSelector_correct sel rqs ls Hk Hs) in Hm. split; [by exists (n', ls)|].
    apply (Hsel n' ls); [by apply Hc|done].
  - intros [([n' ls] & -> & Hin) Hnm]. exists (n', ls). split; [done|]. apply list_elem_of_filter. split; [|done]. cbn [fst snd] in *.
    apply (LabelsSelector_correct sel rqs ls Hk Hs). apply (Hsel n' ls); [by apply Hc|done].
Qed.
End SelectionSpec.

(** ** The list follows the selector and the cluster *)

Lemma set_namespaces names h : h_namespaces (set names h) = merge_sort String.le names /\ h_selector (set names h) = h_selector h /\ h_lister (set names h) = h_lister h.
Proof. unfold set. case_bool_decide as E; [by rewrite E|done]. Qed.

Section Following.
Context `{K8sLabels} (order : gmap string string -> list (string * string)).

(** The watcher in a cluster it may watch; [wt_armed] tells that the timer will fire. *)
Record watching := mkWatching { wt_h : handle; wt_cl : Cluster; wt_armed : bool }.
Inductive ns_event := NsSelector (sel : option Selector) | NsCluster (cl : Cluster) | NsTimer.
Definition ns_step (x : watching) (e : ns_event) : watching :=
  match e with
  | NsSelector sel => match listen order true Listed (wt_cl x) sel (wt_h x) with Ret h => mkWatching h (wt_cl x) (wt_armed x) | _ => x end
  | NsCluster cl => mkWatching (wt_h x) cl true
  | NsTimer => if wt_armed x then mkWatching (timer_fires order (wt_cl x) (wt_h x)) (wt_cl x) false else x
  end.
Definition current_selector (sel : option Selector) (evs : list ns_event) : option Selector :=
  foldl (fun sel e => match e with NsSelector sel' => sel' | _ => sel end) sel evs.

Definition follows (x : watching) : Prop :=
  h_lister (wt_h x) = true /\
  (wt_armed x = false -> forall sel rqs, h_selector (wt_h x) = Some sel -> LabelsSelector order (Some sel) = Some rqs -> h_namespaces (wt_h x) = merge_sort String.le (select (wt_cl x) rqs)).
Lemma update_follows cl h sel : h_selector h = Some sel ->
  let h' := match updateSelection order cl h with Ret h' => h' | _ => h end in
  h_lister h' = h_lister h /\ h_selector h' = Some sel /\ forall rqs, LabelsSelector order (Some sel) = Some rqs -> h_namespaces h' = merge_sort String.le (select cl rqs).
Proof.
  intros Hs. cbn zeta. unfold updateSelection. rewrite Hs. destruct (LabelsSelector order (Some sel)) as [rqs|]; [|done].
  destruct (set_namespaces (select cl rqs) h) as (H1 & H2 & H3). rewrite H1, H2, H3. split; [done|]. split; [done|]. by intros rqs' [= <-].
Qed.
Lemma timer_selector cl h : h_selector (timer_fires order cl h) = h_selector h /\ h_lister (timer_fires order cl h) = h_lister h.
Proof. unfold timer_fires, updateSelection. destruct (LabelsSelector _ _) as [rqs|]; [|done]. destruct (set_namespaces (select cl rqs) h) as (_ & H2 & H3). done. Qed.
Lemma ns_step_follows x e : follows x -> follows (ns_step x e) /\ h_selector (wt_h (ns_step x e)) = match e with NsSelector sel => sel | _ => h_selector (wt_h x) end.
Proof.
  intros [Hl Hf]. destruct e as [sel|cl|]; cbn [ns_step].
  - unfold listen. cbn [set_selector h_lister]. rewrite Hl. cbn [negb]. destruct sel as [sel|].
    + pose proof (update_follows (wt_cl x) (set_selector (Some sel) (wt_h x)) sel eq_refl) as (H1 & H2 & H3). cbn zeta in *.
      assert (E : (match updateSelection order (wt_cl x) (set_selector (Some sel) (wt_h x)) with Ret h => Ret h | _ => Ret (set_selector (Some sel) (wt_h x)) end : Go ns_error handle) =
                  Ret (match updateSelection order (wt_cl x) (set_selector (Some sel) (wt_h x)) with Ret h => h | _ => set_selector (Some sel) (wt_h x) end)) by (by destruct (updateSelection _ _ _)).
      rewrite E. split; [|exact H2]. split; cbn [wt_h]; [rewrite H1; exact Hl|]. intros _ sel' rqs. rewrite H2. intros [= <-] Hr. by apply H3.
    + destruct (set_namespaces [] (set_selector None (wt_h x))) as (_ & H2 & H3). cbn [wt_h]. rewrite H2. split; [|done].
      split; cbn [wt_h]; [by rewrite H3|]. intros _ sel rqs. by rewrite H2.
  - split; [|done]. split; [exact Hl|intros [=]].
  - destruct (wt_armed x) eqn:Ea; [|split; [|done]; split; [done|rewrite Ea; exact Hf]]. destruct (timer_selector (wt_cl x) (wt_h x)) as [H1 H2]. split; [|exact H1]. split; cbn [wt_h wt_cl]; [by rewrite H2|].
    intros _ sel rqs. rewrite H1. intros Hs Hr. by apply (update_follows (wt_cl x) (wt_h x) sel Hs).
Qed.

(** C20. Whatever selectors arrive and however the cluster changes: once the timer has fired, the
    namespaces are those that the last selector selects, sorted, when the selector is one
    that Kubernetes accepts. *)
Theorem namespaces_follow (cl : Cluster) (sel0 sel : Selector) (h0 : handle) (evs : list ns_event) (rqs : list label_req) :
  InitContext order true Listed cl (Some sel0) = Ret (Some h0) ->
  let x := foldl ns_step (mkWatching h0 cl true) evs in
  wt_armed x = false -> current_selector (Some sel0) evs = Some sel -> LabelsSelector order (Some sel) = Some rqs ->
  Get (Some (wt_h x)) = merge_sort String.le (select (wt_cl x) rqs).
Proof.
  intros Hi x Ha Hc Hr.
  assert (H0 : follows (mkWatching h0 cl true) /\ h_selector h0 = Some sel0).
  { unfold InitContext, computeNames in Hi. cbn [negb h_selector] in Hi. destruct (LabelsSelector order (Some sel0)) as [rqs0|]; [|done]. injection Hi as <-.
    destruct (set_namespaces (select cl rqs0) (mkH (Some sel0) [] ∅ false)) as (_ & H2 & _). split; [|exact H2]. split; [done|intros [=]]. }
  assert (Hall : forall evs x, follows x -> follows (foldl ns_step x evs) /\ h_selector (wt_h (foldl ns_step x evs)) = current_selector (h_selector (wt_h x)) evs).
  { clear. induction evs as [|e evs IH]; intros x Hx; [done|]. cbn [foldl current_selector]. destruct (ns_step_follows x e Hx) as [Hn Hs]. destruct (IH _ Hn) as [H1 H2].
    split; [done|]. rewrite H2, Hs. by destruct e. }
  destruct H0 as [H0 Hs0]. destruct (Hall evs _ H0) as [[_ Hf] Hs]. cbn [wt_h] in Hs. rewrite Hs0, Hc in Hs. by apply (Hf Ha sel).
Qed.
End Following.

(** ** Subscribers *)

(** The watcher and what each subscriber has got last. *)
Inductive sub_event := SubSet (names : list string) | SubAdd (id : nat) | SubRemove (id : nat) | SubReceive (id : nat).
Definition sub_step (x : handle * gmap nat (list string)) (e : sub_event) : handle * gmap nat (list string) :=
  let '(h, seen) := x in
  match e with
  | SubSet names => (set names h, seen)
  | SubAdd id => (default h (initial_notification id (register id h)), seen)
  | SubRemove id => (removeSubscriber id h, seen)
  | SubReceive id => match receive id h with Some (h, ns) => (h, <[id := ns]> seen) | None => x end
  end.
(** However the namespaces change: a subscriber has a notification in its channel, or what
    it has got last are the current namespaces. *)
Theorem subscribers_never_miss (h : handle) (evs : list sub_event) :
  h_parties h = ∅ ->
  let '(h', seen) := foldl sub_step (h, ∅) evs in
  forall id b, h_parties h' !! id = Some b -> b = true \/ seen !! id = Some (h_namespaces h').
Proof.
  intros Hp. set (I := fun x : handle * gmap nat (list string) => forall id b, h_parties x.1 !! id = Some b -> b = true \/ x.2 !! id = Some (h_namespaces x.1)).
  assert (Hall : I (foldl sub_step (h, ∅) evs)); [|by destruct (foldl sub_step (h, ∅) evs)].
  apply (foldl_inv I); [|intros id b; cbn [fst snd]; rewrite Hp; by rewrite lookup_empty]. intros [h1 seen] e _ Hi. unfold I in *. cbn [fst snd] in *. destruct e as [names|id|id|id]; cbn [sub_step fst snd].
  - unfold set. case_bool_decide; [done|]. cbn [h_parties]. intros id b. rewrite lookup_fmap_Some. intros (b0 & <- & _). by left.
  - unfold initial_notification, register. cbn [h_parties]. rewrite lookup_insert_eq. cbn. intros id' b. rewrite insert_insert_eq, lookup_insert_Some. intros [[<- <-]|[_ Hb]]; [by left|by apply Hi].
  - cbn [removeSubscriber h_parties]. intros id' b [_ Hb]%lookup_delete_Some. by apply Hi.
  - unfold receive. destruct (h_parties h1 !! id) as [[|]|] eqn:E; cbn [fst snd h_parties h_namespaces]; [|by apply Hi|by apply Hi].
    intros id' b [[<- <-]|[Hne Hb]]%lookup_insert_Some; [right; by rewrite lookup_insert_eq|]. rewrite lookup_insert_ne by done. by apply Hi.
Qed.

(** ** The config map *)

Definition drained (c : config) : config := mkCfg (cf_clientYAML c) (cf_agentStateYAML c) (cf_adminCommandsYAML c) (cf_Excluded c) (cf_namespaceSelector c) None None.
(** A selector that is read is kept and emitted once: the same config map, seen again after
    the event was taken, emits no other one, whatever the order of maps. *)
Theorem refresh_emits_once (order1 order2 : gmap string string -> list (string * string)) (m : files) (c : config) :
  any_label_order order1 -> any_label_order order2 -> cf_selectorChannel c = None ->
  let c1 := refreshFile order1 m c in
  let c2 := refreshFile order2 m (drained c1) in
  (forall b sel, fl_selector m = Present b (Some sel) -> cf_namespaceSelector c1 = Some <$> GetAllRequirements order1 (Some sel) /\
     (cf_namespaceSelector c1 <> cf_namespaceSelector c -> cf_selectorChannel c1 = Some (Some (mkSel ∅ (GetAllRequirements order1 (Some sel)))))) /\
  cf_selectorChannel c2 = None /\ cf_namespaceSelector c2 = cf_namespaceSelector c1.
Proof.
  intros H1 H2 Hc c1 c2.
  assert (Hsel : forall o m c, cf_namespaceSelector (refreshFile o m c) = (refresh_selector o (fl_selector m) (cf_namespaceSelector c) (cf_selectorChannel c)).1 /\
            cf_selectorChannel (refreshFile o m c) = (refresh_selector o (fl_selector m) (cf_namespaceSelector c) (cf_selectorChannel c)).2).
  { clear. intros o m c. unfold refreshFile. by destruct (refresh_selector _ _ _ _), (refresh_commands _ _ _). }
  destruct (Hsel order1 m c) as [Hn1 Hc1]. destruct (Hsel order2 m (drained c1)) as [Hn2 Hc2]. fold c1 in Hn1, Hc1. fold c2 in Hn2, Hc2. cbn [drained cf_namespaceSelector cf_selectorChannel] in Hn2, Hc2.
  rewrite Hc in Hn1, Hc1. unfold refresh_selector in *. destruct (fl_selector m) as [|b [sel|]].
  - split; [done|]. rewrite Hn2, Hc2. assert (Hz : cf_namespaceSelector c1 = []) by (rewrite Hn1; by destruct (cf_namespaceSelector c)). by rewrite Hz.
  - rewrite (GetAllRequirements_order order1 order2 (Some sel) H1 H2) in *. set (es := GetAllRequirements order2 (Some sel)) in *.
    assert (He : cf_namespaceSelector c1 = Some <$> es) by (rewrite Hn1; destruct (decide (Some <$> es = cf_namespaceSelector c)) as [Hb|Hb]; [rewrite bool_decide_eq_true_2 by done; symmetry; exact Hb|rewrite bool_decide_eq_false_2 by done; done]). rewrite He in Hn2, Hc2. rewrite bool_decide_eq_true_2 in Hn2, Hc2 by done. rewrite Hn2, Hc2, He.
    split; [|done]. intros b' sel' [= <- <-]. rewrite (GetAllRequirements_order order1 order2 (Some sel) H1 H2). fold es. split; [done|]. intros Hne. rewrite Hc1. case_bool_decide as Hb; [|done]. by rewrite Hb in Hne.
  - split; [done|]. rewrite Hn2, Hc2. done.
Qed.

(** ** An implementation of the labels package, and samples *)

Definition ref_labels : K8sLabels := {|
  label_req := string * string * list string;
  NewRequirement key op vals := if bool_decide (op ∈ selection_operators) then Some (key, op, vals) else None;
  req_Matches r ls :=
    let '(key, op, vals) := r in
    if bool_decide (op = "in"%string) then existsb (fun v => bool_decide (ls !! key = Some v)) vals
    else if bool_decide (op = "notin"%string) then negb (existsb (fun v => bool_decide (ls !! key = Some v)) vals)
    else if bool_decide (op = "exists"%string) then bool_decide (is_Some (ls !! key))
    else false
|}.
Lemma existsb_value ls key vals : existsb (fun v => bool_decide (ls !! key = Some v)) vals = true <-> exists v : string, (ls : gmap string string) !! key = Some v /\ v ∈ vals.
Proof.
  rewrite existsb_exists. split; intros (v & H1 & H2); exists v.
  - apply bool_decide_eq_true in H2. split; [done|]. by apply list_elem_of_In.
  - split; [by apply list_elem_of_In|]. by apply bool_decide_eq_true.
Qed.
Lemma ref_labels_laws : @K8sLabelsLaws ref_labels.
Proof.
  split; cbn [ref_labels NewRequirement req_Matches].
  - intros key op vals Hop. by rewrite bool_decide_eq_false_2.
  - intros key vals r ls Hr. vm_compute in Hr. injection Hr as <-. rewrite bool_decide_eq_true_2 by done. apply existsb_value.
  - intros key vals r ls Hr. vm_compute in Hr. injection Hr as <-. rewrite bool_decide_eq_false_2, bool_decide_eq_true_2 by done. rewrite negb_true_iff, <- not_true_iff_false, existsb_value. naive_solver.
  - intros key vals r ls Hr. vm_compute in Hr. injection Hr as <-. apply (bool_decide_eq_true (is_Some (ls !! key))).
Qed.

Definition ns_labels (name : string) (extra : gmap string string) : string * gmap string string := (name, <[NameLabelKey := name]> extra).
Definition sample_cluster : Cluster := [ns_labels "prod" {[ "env"%string := "p"%string ]}; ns_labels "dev" {[ "env"%string := "d"%string ]}; ns_labels "kube-system" ∅].
Definition names_selector : Selector := mkSel ∅ [mkReq NameLabelKey OperatorIn ["prod"; "dev"]%string].
Definition env_selector : Selector := mkSel {[ "env"%string := "d"%string ]} [mkReq NameLabelKey OperatorNotIn ["prod"%string]].
Lemma map_order_ok : any_label_order map_to_list.
Proof. by intros m. Qed.
Lemma reverse_order_ok : any_label_order (fun m => reverse (map_to_list m)).
Proof. intros m. apply reverse_Permutation. Qed.
Definition selected_reqs (sel : Selector) : list (string * string * list string) := default [] (@LabelsSelector ref_labels map_to_list (Some sel)).

Lemma GetAllRequirements_order_witness :
  let sel := Some (mkSel {[ "a"%string := "1"%string; "b"%string := "2"%string ]} []) in
  GetAllRequirements map_to_list sel = GetAllRequirements (fun m => reverse (map_to_list m)) sel /\ length (GetAllRequirements map_to_list sel) = 2%nat.
Proof. split; [apply (GetAllRequirements_order _ _ _ map_order_ok reverse_order_ok)|vm_compute; reflexivity]. Defined.
Lemma LabelsSelector_correct_witness :
  @sel_Matches ref_labels (selected_reqs env_selector) (ns_labels "dev" {[ "env"%string := "d"%string ]}).2 = true.
Proof.
  apply (@LabelsSelector_correct ref_labels ref_labels_laws map_to_list map_order_ok env_selector).
  - apply Forall_singleton. vm_compute. right. left.
  - vm_compute. reflexivity.
  - split; [apply map_singleton_subseteq_l; vm_compute; reflexivity|]. intros r ->%list_elem_of_singleton. unfold satisfies.
    rewrite bool_decide_eq_false_2, bool_decide_eq_true_2 by done. intros v Hv. vm_compute in Hv. injection Hv as <-. intros Hin%list_elem_of_singleton. discriminate Hin.
Defined.
Lemma static_dynamic_agree_witness : "dev"%string ∈ @select ref_labels sample_cluster (selected_reqs names_selector).
Proof.
  apply (@static_dynamic_agree ref_labels ref_labels_laws map_to_list map_order_ok names_selector ["prod"; "dev"]%string).
  - vm_compute. reflexivity.
  - left. reflexivity.
  - vm_compute. reflexivity.
  - intros n ls Hn. unfold sample_cluster in Hn. rewrite !elem_of_cons in Hn. destruct Hn as [[= -> ->]|[[= -> ->]|[[= -> ->]|Hn%not_elem_of_nil]]]; [| | |done]; vm_compute; reflexivity.
  - split; [|right; left]. vm_compute. right. left.
Defined.

Definition start_handle : handle := match @InitContext ref_labels map_to_list true Listed sample_cluster (Some names_selector) with Ret (Some h) => h | _ => mkH None [] ∅ false end.
Lemma namespaces_follow_witness :
  let evs := [NsTimer; NsSelector (Some env_selector); NsCluster (ns_labels "dev2" {[ "env"%string := "d"%string ]} :: sample_cluster); NsTimer] in
  Get (Some (wt_h (foldl (@ns_step ref_labels map_to_list) (mkWatching start_handle sample_cluster true) evs))) = ["dev"; "dev2"]%string.
Proof.
  cbn zeta. rewrite (@namespaces_follow ref_labels map_to_list sample_cluster names_selector env_selector start_handle _ (selected_reqs env_selector)); vm_compute; reflexivity.
Defined.
Lemma subscribers_never_miss_witness :
  let '(h', seen) := foldl sub_step (start_handle, ∅) [SubAdd 0; SubReceive 0; SubSet ["x"%string]] in
  forall id b, h_parties h' !! id = Some b -> b = true \/ seen !! id = Some (h_namespaces h').
Proof. apply (subscribers_never_miss start_handle [SubAdd 0; SubReceive 0; SubSet ["x"%string]]). vm_compute. reflexivity. Defined.

Definition sample_files (sel : file Selector) : files := mkFiles Absent Absent sel (Present "state" (Some ())) Absent.
Lemma refresh_emits_once_witness :
  let m := sample_files (Present "sel" (Some env_selector)) in
  cf_selectorChannel (refreshFile map_to_list m (drained (refreshFile map_to_list m NewWatcher))) = None.
Proof. apply (refresh_emits_once map_to_list map_to_list (sample_files (Present "sel" (Some env_selector))) NewWatcher map_order_ok map_order_ok eq_refl). Defined.

(** ** What goes wrong *)

(** The operator of a requirement that a label is absent is not one of the selection
    package in lower case: a selector that uses it is always refused. *)
Theorem DoesNotExist_refused `{K8sLabelsLaws} (order : gmap string string -> list (string * string)) (sel : Selector) (r : Requirement) :
  r ∈ MatchExpressions sel -> rq_Operator r = OperatorNotExists -> LabelsSelector order (Some sel) = None.
Proof.
  intros Hr Ho. unfold LabelsSelector, NewLabelsSelector. destruct (mapM _ _) as [rqs|] eqn:E; [|done]. exfalso. apply mapM_Some in E.
  assert (Hin : r ∈ GetAllRequirements order (Some sel)) by (cbn [GetAllRequirements]; rewrite merge_sort_Permutation; apply elem_of_app; by left).
  apply list_elem_of_lookup_1 in Hin as [i Hi]. destruct (Forall2_lookup_l _ _ _ _ _ E Hi) as (rq & _ & Hrq).
  rewrite Ho, unknown_operator in Hrq; [done|]. apply (bool_decide_unpack (_ ∉ _)). vm_compute. exact I.
Qed.
Lemma DoesNotExist_refused_witness : @LabelsSelector ref_labels map_to_list (Some (mkSel ∅ [mkReq "private" OperatorNotExists []])) = None.
Proof. apply (@DoesNotExist_refused ref_labels ref_labels_laws map_to_list _ (mkReq "private" OperatorNotExists [])); [left|reflexivity]. Defined.

(** When the selector is cleared nothing is managed, until the next event of the informer:
    the nil selector then selects every namespace. *)
Example cleared_selector_manages_all :
  match @listen ref_labels map_to_list true Listed sample_cluster None start_handle with
  | Ret h => h_namespaces h = [] /\ h_namespaces (@timer_fires ref_labels map_to_list sample_cluster h) = ["dev"; "kube-system"; "prod"]%string
  | _ => False
  end.
Proof. vm_compute. split; reflexivity. Qed.
(** Without a selector no namespace is managed, although that is said to mean all of them. *)
Example no_selector_manages_nothing : match @InitContext ref_labels map_to_list true Listed sample_cluster None with Ret h => Get h = [] | _ => False end.
Proof. reflexivity. Qed.
(** A change between the registration of a subscriber and its initial notification fills the
    channel, and the notification blocks for ever. *)
Example subscription_blocks : initial_notification 0 (set ["x"%string] (register 0 start_handle)) = None.
Proof. vm_compute. reflexivity. Qed.
(** A selector that arrives while the previous one has not been taken is dropped. *)
Example selector_dropped :
  let c := refreshFile map_to_list (sample_files (Present "a" (Some names_selector))) NewWatcher in
  let c' := refreshFile map_to_list (sample_files (Present "b" (Some env_selector))) c in
  cf_selectorChannel c' = cf_selectorChannel c /\ cf_namespaceSelector c' = cf_namespaceSelector c.
Proof. vm_compute. split; reflexivity. Qed.
(** An event of the config map replaces the state file in memory, also when that is newer. *)
Example event_replaces_newer_state :
  let c := mkCfg EmptyString "newer" EmptyString [] [] None None in cf_agentStateYAML (refreshFile map_to_list (sample_files Absent) c) = "state"%string.
Proof. reflexivity. Qed.
(** A selector with the label of the name is static whatever its expressions are. *)
Example static_ignores_expressions :
  let sel := mkSel {[ NameLabelKey := "prod"%string ]} [mkReq "env" OperatorIn ["d"%string]] in
  StaticNames (Some sel) = Some ["prod"%string] /\ @select ref_labels sample_cluster (selected_reqs sel) = [].
Proof. vm_compute. split; reflexivity. Qed.
