(* ===== verification/WorkloadWatch.v ===== *)
(** * Workloads on their way to the client (src/cmd/traffic/cmd/manager/state/watcher.go and
      workload_info_watcher.go, src/pkg/client/userd/trafficmgr/session.go)

    A watcher per namespace turns the events of the informers into batches for its
    subscribers.  The info watcher of a client merges them with the changes of agents and
    intercepts into one pending event per workload name; a timer sends the pending events.
    The client keeps a map of workloads per namespace and lists them with a filter.

    [World] is what a handler reads when it runs: the state of the manager, the agent
    configurations, the cluster, and the orders in which maps are ranged over. *)
From S2P Require Import Prelude NetIP GoStrings GoText GoJson PortTypes Matcher Icept Policies AgentConfig AgentSpec Kube Discovery Generator GeneratorSpec AgentContainer Injector ConfigWatcher WorkloadExposure ManagerState.
From Stdlib Require Import Ascii.
Local Open Scope Z_scope.

Record World := mkWorld {
  wd_state : State;
  wd_config : configWatcher;
  wd_cluster : Cluster;
  wd_status : Workload -> WlStatus;                       (* of an object that a lister returns *)
  wd_list : string -> option (list (Workload * WlStatus));   (* the lister of a kind *)
  wd_ingresses : string -> option (list Ingress);
  wd_aggregates : aggregates -> list ((string * string * Z) * (gset string * gset string));
  wd_intercepts : gmap string nat -> list (string * nat)
}.
(** The ranges visit every entry once. *)
Record world_ok (w : World) : Prop := mkWorldOk {
  wok_aggregates : forall a, wd_aggregates w a ≡ₚ map_to_list a;
  wok_intercepts : forall m, wd_intercepts w m ≡ₚ map_to_list m
}.

(** ** The watcher of a namespace *)
Inductive EventType := EventTypeAdd | EventTypeUpdate | EventTypeDelete.
Global Instance EventType_eq_dec : EqDecision EventType.
Proof. solve_decision. Defined.
Definition EventType_String (e : EventType) : string := match e with EventTypeAdd => "add" | EventTypeUpdate => "update" | EventTypeDelete => "delete" end.
Record Event := mkEvent { we_Type : EventType; we_Workload : Workload; we_Status : WlStatus }.

Fixpoint valid_owner (refs : list OwnerReference) (enabledKinds : list string) : bool :=
  match refs with
  | [] => false
  | ref :: refs =>
      if bool_decide (or_Controller ref = Some true) && (bool_decide (or_Kind ref = DeploymentKind) || bool_decide (or_Kind ref = RolloutKind))
      then Kinds_Contains enabledKinds (or_Kind ref)
      else valid_owner refs enabledKinds
  end.
Definition hasValidReplicasetOwner (wl : Workload) (enabledKinds : list string) : bool := valid_owner (m_Owners (wl_Meta wl)) enabledKinds.

(** A channel of batches, as its reader sees it. *)
Record subscription := mkSub { sub_items : list (list Event); sub_closed : bool }.
Record watcher := mkWatcher {
  w_namespace : string;
  w_subscriptions : gmap nat subscription;      (* by an id that is never used twice *)
  w_timer : bool;                               (* armed *)
  w_events : list Event;
  w_enabledWorkloadKinds : list string
}.
Definition set_subs (m : gmap nat subscription) (w : watcher) : watcher := mkWatcher (w_namespace w) m (w_timer w) (w_events w) (w_enabledWorkloadKinds w).
Definition newWatcher (ns : string) (kinds : list string) : watcher := mkWatcher ns ∅ false [] kinds.
(** The function of the timer.  [None]: a send on a closed channel, which panics. *)
Definition timer_fires (w : watcher) : option watcher :=
  if existsb (fun kv => sub_closed kv.2) (map_to_list (w_subscriptions w)) then None
  else Some (mkWatcher (w_namespace w) ((fun s => mkSub (sub_items s ++ [w_events w]) (sub_closed s)) <$> w_subscriptions w) false [] (w_enabledWorkloadKinds w)).

(** What an informer hands to a handler: an object of a workload kind, the last known
    state of an object that was deleted unnoticed, as a value or as a pointer, or an object
    of another kind. *)
Inductive any := AnyWorkload (wl : Workload) (st : WlStatus) | AnyUnknown (pointer : bool) (obj : any) | AnyOther.
Definition FromAny (obj : any) : option (Workload * WlStatus) :=
  match obj with AnyWorkload wl st => if Kinds_Contains KnownWorkloadKinds (wl_Kind wl) then Some (wl, st) else None | _ => None end.

Section Cluster.
Context `{Cluster}.
Definition is_manager (wl : Workload) : bool := selector_matches TrafficManagerSelector (entries (m_Labels (wl_Meta wl))).
Definition handleEvent (we : Event) (w : watcher) : watcher :=
  if bool_decide (wl_Kind (we_Workload we) = DeploymentKind) && is_manager (we_Workload we) then w
  else mkWatcher (w_namespace w) (w_subscriptions w) true (w_events w ++ [we]) (w_enabledWorkloadKinds w).

(** cmp.Equal with the options of [compareOptions], on the fields that are modelled. *)
Definition RestartedAt : string := DomainPrefix +:+ "restartedAt".
Definition RevisionAnnotation : string := "deployment.kubernetes.io/revision".
Definition cmp_map (m : option (gmap string string)) : gmap string string := delete RevisionAnnotation (delete RestartedAt (entries m)).
Definition cmp_meta (a b : ObjectMeta) : bool :=
  bool_decide (m_Name a = m_Name b) && bool_decide (m_UID a = m_UID b) && bool_decide (cmp_map (m_Labels a) = cmp_map (m_Labels b)) &&
  bool_decide (cmp_map (m_Annotations a) = cmp_map (m_Annotations b)) &&
  bool_decide ((fun r => (or_Kind r, or_Name r, or_Controller r)) <$> m_Owners a = (fun r => (or_Kind r, or_Name r, or_Controller r)) <$> m_Owners b).
Definition cmp_container (c : KContainer) : KContainer :=
  mkKC (kc_Name c) (kc_Image c) (kc_Args c) (kc_Ports c) (Some (default [] (kc_Env c))) (kc_EnvFrom c) (kc_VolumeMounts c)
    (kc_LivenessProbe c) (kc_ReadinessProbe c) (kc_StartupProbe c) (kc_SecurityContext c).
Definition cmp_podspec (a b : PodSpec) : bool :=
  bool_decide (cmp_container <$> ps_Containers a = cmp_container <$> ps_Containers b) && bool_decide (cmp_container <$> ps_InitContainers a = cmp_container <$> ps_InitContainers b) &&
  bool_decide (default [] (ps_Volumes a) = default [] (ps_Volumes b)) && bool_decide (ps_PullSecrets a = ps_PullSecrets b) && bool_decide (ps_RunAsGroup a = ps_RunAsGroup b).
Definition cmp_conditions (a b : list Condition) : bool :=
  bool_decide ((fun c => (cond_Type c, cond_Status c)) <$> a = (fun c => (cond_Type c, cond_Status c)) <$> b).
(** The status of a deployment is compared by its conditions only. *)
Definition cmp_status (kind : string) (a b : WlStatus) : bool :=
  bool_decide (ws_SpecReplicas a = ws_SpecReplicas b) && cmp_conditions (ws_Conditions a) (ws_Conditions b) &&
  (bool_decide (kind = DeploymentKind) || bool_decide (ws_Replicas a = ws_Replicas b) && bool_decide (ws_ReadyReplicas a = ws_ReadyReplicas b)).
Definition cmp_workload (a b : Workload * WlStatus) : bool :=
  bool_decide (wl_Kind a.1 = wl_Kind b.1) && cmp_meta (wl_Meta a.1) (wl_Meta b.1) && cmp_meta (pt_Meta (wl_Template a.1)) (pt_Meta (wl_Template b.1)) &&
  cmp_podspec (pt_Spec (wl_Template a.1)) (pt_Spec (wl_Template b.1)) && cmp_status (wl_Kind a.1) a.2 b.2.

(** The handlers of [watch]. *)
Definition of_interest (w : watcher) (wl : Workload) : bool :=
  bool_decide (w_namespace w = m_Namespace (wl_Meta wl)) && negb (hasValidReplicasetOwner wl (w_enabledWorkloadKinds w)).
Definition AddFunc (obj : any) (w : watcher) : watcher :=
  match FromAny obj with
  | Some (wl, st) => if of_interest w wl then handleEvent (mkEvent EventTypeAdd wl st) w else w
  | None => w
  end.
Definition DeleteFunc (obj : any) (w : watcher) : watcher :=
  match FromAny obj, obj with
  | Some (wl, st), _ => if of_interest w wl then handleEvent (mkEvent EventTypeDelete wl st) w else w
  | None, AnyUnknown true obj' =>
      match FromAny obj' with
      | Some (wl, st) => if of_interest w wl then handleEvent (mkEvent EventTypeDelete wl st) w else w
      | None => w
      end
  | None, _ => w
  end.
Definition UpdateFunc (oldObj newObj : any) (w : watcher) : watcher :=
  match FromAny newObj, FromAny oldObj with
  | Some (wl, st), Some (oldWl, oldSt) =>
      if of_interest w wl && negb (cmp_workload (wl, st) (oldWl, oldSt)) then handleEvent (mkEvent EventTypeUpdate wl st) w else w
  | _, _ => w
  end.

(** The events with which a subscription starts.  [lister]: the listers of the kinds. *)
Definition initial_of (w : watcher) (lister : string -> option (list (Workload * WlStatus))) (kind : string) : list Event :=
  if Kinds_Contains (w_enabledWorkloadKinds w) kind then
    (fun x => mkEvent EventTypeAdd x.1 x.2) <$>
      filter (fun x : Workload * WlStatus => is_Some (FromAny (AnyWorkload x.1 x.2)) /\ hasValidReplicasetOwner x.1 (w_enabledWorkloadKinds w) = false /\
                      bool_decide (kind = DeploymentKind) && is_manager x.1 = false) (default [] (lister kind))
  else [].
Definition initialEvents (w : watcher) (lister : string -> option (list (Workload * WlStatus))) : list Event :=
  KnownWorkloadKinds ≫= initial_of w lister.
End Cluster.

(** [Subscribe]: the snapshot is taken first, and the subscription registered afterwards. *)
Definition register (id : nat) (initial : list Event) (w : watcher) : watcher := set_subs (<[id := mkSub [initial] false]> (w_subscriptions w)) w.
Definition Subscribe (wd : World) (id : nat) (w : watcher) : watcher := register id (@initialEvents (wd_cluster wd) w (wd_list wd)) w.
(** The end of a subscription: the channel is closed, and then forgotten. *)
Definition close_sub (id : nat) (w : watcher) : watcher := set_subs (alter (fun s => mkSub (sub_items s) true) id (w_subscriptions w)) w.
Definition forget_sub (id : nat) (w : watcher) : watcher := set_subs (delete id (w_subscriptions w)) w.

(** ** The info watcher of a client *)
Inductive AgentState := NO_AGENT_UNSPECIFIED | INSTALLED | INTERCEPTED.
Global Instance AgentState_eq_dec : EqDecision AgentState.
Proof. solve_decision. Defined.
Inductive RpcType := ADDED_UNSPECIFIED | MODIFIED | DELETED.
Global Instance RpcType_eq_dec : EqDecision RpcType.
Proof. solve_decision. Defined.
Record WorkloadInfo := mkWI {
  wi_Kind : rpc_kind; wi_Name : string; wi_Namespace : string; wi_Uid : string; wi_DesiredReplicas : Z; wi_ReadyReplicas : Z;
  wi_Services : list ServiceAssociation; wi_State : rpc_state; wi_AgentState : AgentState; wi_InterceptClients : list string
}.
Global Instance WorkloadInfo_eq_dec : EqDecision WorkloadInfo.
Proof. solve_decision. Defined.
Record WorkloadEvent := mkWE' { ev_Type : RpcType; ev_Workload : WorkloadInfo }.
Global Instance WorkloadEvent_eq_dec : EqDecision WorkloadEvent.
Proof. solve_decision. Defined.
(** The numbers of the two enumerations are the same. *)
Definition rpc_type (t : EventType) : RpcType := match t with EventTypeAdd => ADDED_UNSPECIFIED | EventTypeUpdate => MODIFIED | EventTypeDelete => DELETED end.

Record workloadInfoWatcher := mkWf {
  wf_namespace : string;
  wf_workloadEvents : gmap string WorkloadEvent;
  wf_lastEvents : gmap string WorkloadEvent;
  wf_start : Z;
  wf_sendTimer : bool                            (* armed *)
}.
Definition NewWorkloadInfoWatcher (namespace : string) (now : Z) : workloadInfoWatcher := mkWf namespace ∅ ∅ now false.
Definition set_events (m : gmap string WorkloadEvent) (wf : workloadInfoWatcher) : workloadInfoWatcher :=
  mkWf (wf_namespace wf) m (wf_lastEvents wf) (wf_start wf) (wf_sendTimer wf).
Definition resetSendTimer (wf : workloadInfoWatcher) : workloadInfoWatcher := mkWf (wf_namespace wf) (wf_workloadEvents wf) (wf_lastEvents wf) (wf_start wf) true.
Definition stopSendTimer (wf : workloadInfoWatcher) : workloadInfoWatcher := mkWf (wf_namespace wf) (wf_workloadEvents wf) (wf_lastEvents wf) (wf_start wf) false.

Definition engaging (d : Disposition) : bool := match d with ACTIVE | WAITING | NO_AGENT => true | _ => false end.
(** The intercepts of the manager in the order of a range. *)
Definition ranged (w : World) : list MIntercept := omap (fun kp => objs (wd_state w) !! kp.2) (wd_intercepts w (intercepts (wd_state w))).
Definition getIntercepts (w : World) (name namespace : string) : list string :=
  (fun x => sp_Client (mi_Spec x)) <$> filter (fun x => name = sp_Agent (mi_Spec x) /\ namespace = sp_Namespace (mi_Spec x) /\ engaging (mi_Disposition x) = true) (ranged w).
Definition rpcWorkload (w : World) (wl : Workload) (st : WlStatus) (as_ : AgentState) (iClients : list string) : WorkloadInfo :=
  let exposure := describeWorkloadExposure (wd_config w) (wd_aggregates w) (wd_ingresses w) wl st in
  mkWI (RpcKind (wl_Kind wl)) (m_Name (wl_Meta wl)) (m_Namespace (wl_Meta wl)) (m_UID (wl_Meta wl)) (we_desiredReplicas exposure) (we_readyReplicas exposure)
    (we_services exposure) (rpcWorkloadState (GetWorkloadState (wl_Kind wl) st)) as_ iClients.

(** [sendEvents] collects the events in the order of a range, and then clears the map.  The
    result is what is given to the stream; [sent] tells if the stream took it. *)
Definition range_fn := gmap string WorkloadEvent -> list (string * WorkloadEvent).
Definition collect (evs : list (string * WorkloadEvent)) (wf : workloadInfoWatcher) : list WorkloadEvent :=
  omap (fun kv => if bool_decide (wf_lastEvents wf !! kv.1 = Some kv.2) then None else Some kv.2) evs.
Definition clear (evm : gmap string WorkloadEvent) (wf : workloadInfoWatcher) : workloadInfoWatcher := mkWf (wf_namespace wf) ∅ evm (wf_start wf) (wf_sendTimer wf).
Definition sendEvents (now : Z) (sent : bool) (range : range_fn) (sendEmpty : bool) (wf : workloadInfoWatcher) : workloadInfoWatcher * option (Z * list WorkloadEvent) :=
  let evm := range (wf_workloadEvents wf) in
  let evs := collect evm wf in
  let wf1 := clear (list_to_map evm) wf in
  if negb sendEmpty && Nat.eqb (length evs) 0 then (wf1, None)
  else (if sent then mkWf (wf_namespace wf1) (wf_workloadEvents wf1) (wf_lastEvents wf1) now (wf_sendTimer wf1) else wf1, Some (wf_start wf, evs)).

(** The [Compute] of the pending event of a name: [None] cancels. *)
Definition compute (name : string) (f : option WorkloadEvent -> option WorkloadEvent) (wf : workloadInfoWatcher) : workloadInfoWatcher :=
  match f (wf_workloadEvents wf !! name) with
  | Some w => set_events (<[name := w]> (wf_workloadEvents wf)) wf
  | None => wf
  end.
Definition workload_event (w : World) (we : Event) (cur : option WorkloadEvent) : option WorkloadEvent :=
  match cur with
  | Some e =>
      if bool_decide (we_Type we = EventTypeDelete) && negb (bool_decide (ev_Type e = DELETED)) then Some (mkWE' DELETED (ev_Workload e))
      else None
  | None =>
      let wl := we_Workload we in
      let iClients := getIntercepts w (m_Name (wl_Meta wl)) (m_Namespace (wl_Meta wl)) in
      let as_ := if Nat.ltb 0 (length iClients) then INTERCEPTED
                 else if HasAgent (wd_state w) (m_Name (wl_Meta wl)) (m_Namespace (wl_Meta wl)) then INSTALLED else NO_AGENT_UNSPECIFIED in
      Some (mkWE' (rpc_type (we_Type we)) (rpcWorkload w wl (we_Status we) as_ iClients))
  end.
Definition in_namespace (wf : workloadInfoWatcher) (wl : Workload) : bool :=
  bool_decide (wf_namespace wf = EmptyString) || bool_decide (m_Namespace (wl_Meta wl) = wf_namespace wf).
Definition one_event (w : World) (wf : workloadInfoWatcher) (we : Event) : workloadInfoWatcher :=
  if in_namespace wf (we_Workload we) then compute (m_Name (wl_Meta (we_Workload we))) (workload_event w we) wf else wf.
Definition handleWorkloadEvents (now : Z) (sent : bool) (range : range_fn) (w : World) (wes : list Event) (initial : bool) (wf : workloadInfoWatcher) : workloadInfoWatcher * option (Z * list WorkloadEvent) :=
  match wes with
  | [] => if initial then sendEvents now sent range true wf else (wf, None)
  | _ => (resetSendTimer (foldl (one_event w) (stopSendTimer wf) wes), None)
  end.

Definition with_agent (as_ : AgentState) (iClients : list string) (i : WorkloadInfo) : WorkloadInfo :=
  mkWI (wi_Kind i) (wi_Name i) (wi_Namespace i) (wi_Uid i) (wi_DesiredReplicas i) (wi_ReadyReplicas i) (wi_Services i) (wi_State i) as_ iClients.
(** A workload found by its name becomes a new event. *)
Definition fetched (w : World) (name namespace : string) (t : RpcType) (as_ : AgentState) (iClients : list string) : option WorkloadEvent :=
  match @GetWorkload (wd_cluster w) name namespace EmptyString with
  | inl _ => None
  | inr wl => Some (mkWE' t (rpcWorkload w wl (wd_status w wl) as_ iClients))
  end.
Definition agent_deleted (w : World) (a : AgentInfo) (cur : option WorkloadEvent) : option WorkloadEvent :=
  match cur with
  | Some e => if bool_decide (ev_Type e = DELETED) then None else Some (mkWE' (ev_Type e) (with_agent NO_AGENT_UNSPECIFIED [] (ev_Workload e)))
  | None => fetched w (ag_Name a) (ag_Namespace a) MODIFIED NO_AGENT_UNSPECIFIED []
  end.
Definition onDeleted (w : World) (a : AgentInfo) (wf : workloadInfoWatcher) : workloadInfoWatcher := compute (ag_Name a) (agent_deleted w a) wf.
Definition agent_upserted (w : World) (a : AgentInfo) (cur : option WorkloadEvent) : option WorkloadEvent :=
  let iClients := getIntercepts w (ag_Name a) (ag_Namespace a) in
  let as_ := if Nat.ltb 0 (length iClients) then INTERCEPTED else INSTALLED in
  match cur with
  | Some e =>
      if bool_decide (ev_Type e = DELETED) || bool_decide (wi_AgentState (ev_Workload e) = as_) then None
      else Some (mkWE' (ev_Type e) (with_agent as_ iClients (ev_Workload e)))
  | None => fetched w (ag_Name a) (ag_Namespace a) ADDED_UNSPECIFIED as_ iClients
  end.
Definition one_upsert (w : World) (wf : workloadInfoWatcher) (a : AgentInfo) : workloadInfoWatcher :=
  if IsInactive (ag_PodUid a) (wd_state w) then onDeleted w a wf else compute (ag_Name a) (agent_upserted w a) wf.
Definition handleAgentDelta (w : World) (removals upserts : list AgentInfo) (wf : workloadInfoWatcher) : workloadInfoWatcher :=
  resetSendTimer (foldl (one_upsert w) (foldl (fun wf a => onDeleted w a wf) (stopSendTimer wf) removals) upserts).

(** The clients of the intercepts of an agent, of any namespace. *)
Definition ipc (w : World) (name : string) : list string :=
  (fun x => sp_Client (mi_Spec x)) <$> filter (fun x => engaging (mi_Disposition x) = true /\ sp_Agent (mi_Spec x) = name) (ranged w).
Definition intercept_removed (w : World) (namespace name : string) (cur : option WorkloadEvent) : option WorkloadEvent :=
  match cur with
  | Some e => if bool_decide (ev_Type e = DELETED) then None else Some (mkWE' (ev_Type e) (with_agent INSTALLED (ipc w name) (ev_Workload e)))
  | None => fetched w name namespace MODIFIED (if Nat.ltb 0 (length (ipc w name)) then INTERCEPTED else INSTALLED) (ipc w name)
  end.
Definition intercept_upserted (w : World) (namespace name : string) (cur : option WorkloadEvent) : option WorkloadEvent :=
  let as_ := if Nat.eqb (length (ipc w name)) 0 then INSTALLED else INTERCEPTED in
  match cur with
  | Some e => if bool_decide (ev_Type e = DELETED) then None else Some (mkWE' (ev_Type e) (with_agent as_ (ipc w name) (ev_Workload e)))
  | None => fetched w name namespace MODIFIED as_ (ipc w name)
  end.
Definition handleInterceptDelta (w : World) (removals upserts : list MIntercept) (wf : workloadInfoWatcher) : workloadInfoWatcher :=
  let agent (x : MIntercept) := sp_Agent (mi_Spec x) in
  let wf1 := foldl (fun wf x => compute (agent x) (intercept_removed w (wf_namespace wf) (agent x)) wf) (stopSendTimer wf) removals in
  resetSendTimer (foldl (fun wf x => compute (agent x) (intercept_upserted w (wf_namespace wf) (agent x)) wf) wf1 upserts).

(** ** The client *)
Record workloadInfo := mkInfoC {
  wk_uid : string; wk_state : wl_state; wk_agentState : AgentState; wk_interceptClients : list string;
  wk_desiredReplicas : Z; wk_readyReplicas : Z; wk_services : list ServiceAssociation
}.
Global Instance rpc_kind_countable : Countable rpc_kind.
Proof.
  apply (inj_countable' (fun k => match k with RPC_UNSPECIFIED => 0 | RPC_DEPLOYMENT => 1 | RPC_REPLICASET => 2 | RPC_STATEFULSET => 3 | RPC_ROLLOUT => 4 end)
    (fun n => match n with 1 => RPC_DEPLOYMENT | 2 => RPC_REPLICASET | 3 => RPC_STATEFULSET | 4 => RPC_ROLLOUT | _ => RPC_UNSPECIFIED end)).
  by intros [].
Defined.
Definition workloadInfoKey : Type := rpc_kind * string.
Definition view := gmap workloadInfoKey workloadInfo.
Definition event_key (e : WorkloadEvent) : workloadInfoKey := (wi_Kind (ev_Workload e), wi_Name (ev_Workload e)).
Definition info_of (i : WorkloadInfo) : workloadInfo :=
  mkInfoC (wi_Uid i) (StateFromRPC (wi_State i)) (wi_AgentState i) (wi_InterceptClients i) (wi_DesiredReplicas i) (wi_ReadyReplicas i) (wi_Services i).
Definition apply_event (m : view) (e : WorkloadEvent) : view :=
  if bool_decide (ev_Type e = DELETED) then delete (event_key e) m else <[event_key e := info_of (ev_Workload e)]> m.
(** The handler of [workloadsWatcher], on the map of all namespaces. *)
Definition workloadsWatcher_handler (namespace : string) (events : list WorkloadEvent) (workloads : gmap string view) : gmap string view :=
  <[namespace := foldl apply_event (default ∅ (workloads !! namespace)) events]> workloads.

(** ** The loop of [Watch]
    One action is one turn of the loop, or the timer.  The client applies what the stream
    delivers. *)
Inductive action :=
  | OnWorkloads (w : World) (wes : list Event)
  | OnAgents (w : World) (removals upserts : list AgentInfo)
  | OnIntercepts (w : World) (removals upserts : list MIntercept)
  | OnTimer.
Record watching := mkWatching { wt_wf : workloadInfoWatcher; wt_initial : bool; wt_client : gmap string view }.
Definition deliver (ns : string) (d : option (Z * list WorkloadEvent)) (c : gmap string view) : gmap string view :=
  match d with Some (_, evs) => workloadsWatcher_handler ns evs c | None => c end.
Definition Watch_step (range : range_fn) (now : Z) (x : watching) (a : action) : watching :=
  let wf := wt_wf x in
  match a with
  | OnWorkloads w wes =>
      let '(wf', d) := handleWorkloadEvents now true range w wes (wt_initial x) wf in
      mkWatching wf' false (deliver (wf_namespace wf) d (wt_client x))
  | OnAgents w removals upserts => mkWatching (handleAgentDelta w removals upserts wf) (wt_initial x) (wt_client x)
  | OnIntercepts w removals upserts => mkWatching (handleInterceptDelta w removals upserts wf) (wt_initial x) (wt_client x)
  | OnTimer =>
      if wf_sendTimer wf then
        let '(wf', d) := sendEvents now true range false (stopSendTimer wf) in
        mkWatching wf' (wt_initial x) (deliver (wf_namespace wf) d (wt_client x))
      else x
  end.
Definition Watch_start (ns : string) (now : Z) (c : gmap string view) : watching := mkWatching (NewWorkloadInfoWatcher ns now) true c.
Definition Watch_run (range : range_fn) (x : watching) (acts : list (Z * action)) : watching := foldl (fun x a => Watch_step range a.1 x a.2) x acts.

(** ** The callback of the timer
    The timer is one of [time.AfterFunc]: its function runs in a goroutine of its own, next to
    the loop.  It has ranged over the pending events ([TmRange]) some time before it clears the
    map and sends what it has collected ([TmSend]); turns of the loop may come in between. *)
Inductive timed_action := Turn (a : action) | TmRange | TmSend.
Record timed := mkTimed {
  tm_watch : watching;
  tm_callback : option (list (string * WorkloadEvent) * list WorkloadEvent)   (* what was ranged, and what of it is to be sent *)
}.
Definition callback_range (range : range_fn) (wf : workloadInfoWatcher) : list (string * WorkloadEvent) * list WorkloadEvent :=
  let evm := range (wf_workloadEvents wf) in (evm, collect evm wf).
Definition callback_send (now : Z) (cb : list (string * WorkloadEvent) * list WorkloadEvent) (x : watching) : watching :=
  let wf := clear (list_to_map cb.1) (wt_wf x) in
  if Nat.eqb (length cb.2) 0 then mkWatching wf (wt_initial x) (wt_client x)
  else mkWatching (mkWf (wf_namespace wf) (wf_workloadEvents wf) (wf_lastEvents wf) now (wf_sendTimer wf)) (wt_initial x)
         (deliver (wf_namespace wf) (Some (wf_start wf, cb.2)) (wt_client x)).
(** A callback is over before the timer fires again, and the first snapshot comes before it.
    What does not apply changes nothing. *)
Definition timed_step (range : range_fn) (now : Z) (x : timed) (a : timed_action) : timed :=
  match a, tm_callback x with
  | Turn OnTimer, Some _ => x
  | Turn (OnWorkloads _ []), Some _ => x
  | Turn a, cb => mkTimed (Watch_step range now (tm_watch x) a) cb
  | TmRange, None =>
      if wf_sendTimer (wt_wf (tm_watch x)) then
        let wf := stopSendTimer (wt_wf (tm_watch x)) in
        mkTimed (mkWatching wf (wt_initial (tm_watch x)) (wt_client (tm_watch x))) (Some (callback_range range wf))
      else x
  | TmRange, Some _ => x
  | TmSend, Some cb => mkTimed (callback_send now cb (tm_watch x)) None
  | TmSend, None => x
  end.
Definition timed_run (range : range_fn) (x : timed) (acts : list (Z * timed_action)) : timed := foldl (fun x a => timed_step range a.1 x a.2) x acts.
