(* ===== verification/WorkloadWatchSpec.v ===== *)
(** * The client sees the workloads that the manager reports

    The events that the callback of the timer has ranged over reach the client's map, the
    suppression of events that equal the last ones included, however turns of the loop are
    interleaved with it; what a turn stores between its range and its end is dropped.  When
    the callback is not interrupted no deletion is lost; and after the initial snapshot the
    client's map is the set of workloads of the namespace. *)
From S2P Require Import Prelude NetIP GoStrings GoText GoJson PortTypes Matcher Icept Policies AgentConfig AgentSpec Kube Discovery Generator GeneratorSpec AgentContainer Injector InjectorSpec ConfigWatcher ConfigWatcherSpec WorkloadExposure ManagerState WorkloadWatch.
From Stdlib Require Import Ascii.
Local Open Scope Z_scope.

(** ** What is assumed of ranges and of the cluster *)
Definition any_range (range : range_fn) : Prop := forall m, range m ≡ₚ map_to_list m.
(** An object that is fetched by its name has it. *)
Record named (c : Cluster) : Prop := mkNamed {
  named_cache : forall kind name ns wl, cache_workload kind name ns = inr wl -> m_Name (wl_Meta wl) = name;
  named_api : forall kind name ns wl, api_workload kind name ns = inr wl -> m_Name (wl_Meta wl) = name
}.
Definition act_ok (a : action) : Prop :=
  match a with OnWorkloads w _ | OnAgents w _ _ | OnIntercepts w _ _ => named (wd_cluster w) | OnTimer => True end.

Lemma first_found_named get ks name ns wl :
  (forall k wl, get k = inr wl -> m_Name (wl_Meta wl) = name) -> first_found get ks name ns = inr wl -> m_Name (wl_Meta wl) = name.
Proof.
  intros Hg. induction ks as [|k ks IH]; cbn [first_found]; [done|]. destruct (get k) as [e|wl0] eqn:E.
  - destruct (IsNotFound e); [apply IH|done].
  - intros [= <-]. by apply (Hg k).
Qed.
Lemma by_kind_named get name ns kind wl :
  (forall k wl, get k = inr wl -> m_Name (wl_Meta wl) = name) -> by_kind get name ns kind = inr wl -> m_Name (wl_Meta wl) = name.
Proof.
  intros Hg. unfold by_kind. destruct (Kinds_Contains _ _); [apply Hg|]. case_bool_decide; [by apply first_found_named|done].
Qed.
Lemma GetWorkload_named c name ns kind wl : named c -> @GetWorkload c name ns kind = inr wl -> m_Name (wl_Meta wl) = name.
Proof.
  intros [Hc Ha]. unfold GetWorkload.
  assert (H1 : forall wl, k8sapi_GetWorkload name ns kind = inr wl -> m_Name (wl_Meta wl) = name).
  { intros wl0. apply by_kind_named. intros k wl1. apply Ha. }
  assert (H2 : forall wl, getWorkload name ns kind = inr wl -> m_Name (wl_Meta wl) = name).
  { intros wl0. apply by_kind_named. intros k wl1. apply Hc. }
  destruct (negb _); [apply H1|]. destruct (getWorkload name ns kind) as [e|wl0] eqn:E.
  - destruct (IsNotFound e); [|done]. destruct (k8sapi_GetWorkload name ns kind) as [e1|wl1] eqn:E1; [done|]. intros [= <-]. by apply H1.
  - intros [= <-]. by apply H2.
Qed.

(** ** Pending events are kept under the name of their workload *)
Definition keyed (m : gmap string WorkloadEvent) : Prop := map_Forall (fun k e => wi_Name (ev_Workload e) = k) m.
(** A computation that keeps the name. *)
Definition keeps (name : string) (f : option WorkloadEvent -> option WorkloadEvent) : Prop :=
  forall cur e, (forall e0, cur = Some e0 -> wi_Name (ev_Workload e0) = name) -> f cur = Some e -> wi_Name (ev_Workload e) = name.
(** Only the pending events differ. *)
Definition same_rest (wf wf' : workloadInfoWatcher) : Prop := wf_namespace wf' = wf_namespace wf /\ wf_lastEvents wf' = wf_lastEvents wf.
Lemma compute_keyed name f wf : keeps name f -> keyed (wf_workloadEvents wf) -> keyed (wf_workloadEvents (compute name f wf)) /\ same_rest wf (compute name f wf).
Proof.
  intros Hf Hk. unfold compute. destruct (f _) as [e|] eqn:E; [|done]. split; [|done]. cbn [set_events wf_workloadEvents].
  apply map_Forall_insert_2; [|done]. apply (Hf _ _ (fun e0 H0 => Hk name e0 H0) E).
Qed.
Lemma fetched_keeps w name ns t as_ cs e : named (wd_cluster w) -> fetched w name ns t as_ cs = Some e -> wi_Name (ev_Workload e) = name.
Proof.
  intros Hn. unfold fetched. destruct (GetWorkload name ns "") as [er|wl] eqn:E; [done|]. intros [= <-]. cbn. by apply (GetWorkload_named _ _ _ _ _ Hn E).
Qed.
Lemma workload_event_keeps w we : keeps (m_Name (wl_Meta (we_Workload we))) (workload_event w we).
Proof.
  intros [e0|] e Hc; cbn [workload_event]; [|intros [= <-]; done]. destruct (_ && _); [|done]. intros [= <-]. cbn. by apply Hc.
Qed.
Lemma agent_deleted_keeps w a : named (wd_cluster w) -> keeps (ag_Name a) (agent_deleted w a).
Proof.
  intros Hn [e0|] e Hc; cbn [agent_deleted]; [|by apply fetched_keeps]. case_bool_decide; [done|]. intros [= <-]. cbn. by apply Hc.
Qed.
Lemma agent_upserted_keeps w a : named (wd_cluster w) -> keeps (ag_Name a) (agent_upserted w a).
Proof.
  intros Hn [e0|] e Hc; cbn [agent_upserted]; [|by apply fetched_keeps]. destruct (_ || _); [done|]. intros [= <-]. cbn. by apply Hc.
Qed.
Lemma intercept_removed_keeps w ns name : named (wd_cluster w) -> keeps name (intercept_removed w ns name).
Proof.
  intros Hn [e0|] e Hc; cbn [intercept_removed]; [|by apply fetched_keeps]. case_bool_decide; [done|]. intros [= <-]. cbn. by apply Hc.
Qed.
Lemma intercept_upserted_keeps w ns name : named (wd_cluster w) -> keeps name (intercept_upserted w ns name).
Proof.
  intros Hn [e0|] e Hc; cbn [intercept_upserted]; [|by apply fetched_keeps]. case_bool_decide; [done|]. intros [= <-]. cbn. by apply Hc.
Qed.

(** A pending deletion is left alone. *)
Definition respects (f : option WorkloadEvent -> option WorkloadEvent) : Prop := forall e, ev_Type e = DELETED -> f (Some e) = None.
Lemma workload_event_respects w we : respects (workload_event w we).
Proof. intros e He. cbn [workload_event]. by rewrite He, (bool_decide_eq_true_2 (DELETED = DELETED)), andb_false_r. Qed.
Lemma agent_deleted_respects w a : respects (agent_deleted w a).
Proof. intros e He. cbn [agent_deleted]. by rewrite He. Qed.
Lemma agent_upserted_respects w a : respects (agent_upserted w a).
Proof. intros e He. cbn [agent_upserted]. by rewrite He. Qed.
Lemma intercept_removed_respects w ns name : respects (intercept_removed w ns name).
Proof. intros e He. cbn [intercept_removed]. by rewrite He. Qed.
Lemma intercept_upserted_respects w ns name : respects (intercept_upserted w ns name).
Proof. intros e He. cbn [intercept_upserted]. by rewrite He. Qed.
Definition good (name : string) (f : option WorkloadEvent -> option WorkloadEvent) : Prop := keeps name f /\ respects f.
Create HintDb watch.
#[local] Hint Resolve workload_event_keeps agent_deleted_keeps agent_upserted_keeps intercept_removed_keeps intercept_upserted_keeps : watch.
#[local] Hint Resolve workload_event_respects agent_deleted_respects agent_upserted_respects intercept_removed_respects intercept_upserted_respects : watch.
#[local] Hint Unfold good : watch.

(** Every handler is a sequence of computations, each of which keeps the name of its event. *)
Inductive computes (P : string -> (option WorkloadEvent -> option WorkloadEvent) -> Prop) : workloadInfoWatcher -> workloadInfoWatcher -> Prop :=
  | computes_nil wf : computes P wf wf
  | computes_snoc wf wf' name f : computes P wf wf' -> P name f -> computes P wf (compute name f wf').
Lemma foldl_computes {A} P (f : workloadInfoWatcher -> A -> workloadInfoWatcher) l wf :
  (forall wf' a, a ∈ l -> f wf' a = wf' \/ exists n g, P n g /\ f wf' a = compute n g wf') -> computes P wf (foldl f wf l).
Proof.
  induction l as [|a l IH] using rev_ind; intros Hf; [constructor|]. rewrite foldl_app. cbn [foldl].
  assert (Hl : computes P wf (foldl f wf l)) by (apply IH; intros wf' b Hb; apply Hf, elem_of_app; by left).
  destruct (Hf (foldl f wf l) a) as [->|(n & g & Hg & ->)]; [apply elem_of_app; right; apply list_elem_of_here|done|by constructor].
Qed.
Lemma computes_trans P wf1 wf2 wf3 : computes P wf1 wf2 -> computes P wf2 wf3 -> computes P wf1 wf3.
Proof. intros H12. induction 1; [done|]. constructor; [|done]. by apply IHcomputes. Qed.
Lemma computes_keyed wf wf' : computes good wf wf' -> keyed (wf_workloadEvents wf) -> keyed (wf_workloadEvents wf') /\ same_rest wf wf'.
Proof.
  intros Hc Hk. induction Hc as [wf|wf wf' name f _ IH Hf]; [done|]. destruct (IH Hk) as [Hk' [Hn Hl]].
  destruct (compute_keyed name f wf' (proj1 Hf) Hk') as [? [Hn' Hl']]. split; [done|]. unfold same_rest. by rewrite Hn', Hl'.
Qed.
Lemma events_compute (w : World) wes wf : computes good wf (foldl (one_event w) wf wes).
Proof.
  apply foldl_computes. intros wf' we _. unfold one_event. destruct (in_namespace _ _); [|by left]. right. eexists _, _. (split; [|done]); auto with watch.
Qed.
Lemma foldl2_computes {A} P (f g : workloadInfoWatcher -> A -> workloadInfoWatcher) l1 l2 wf :
  (forall wf' a, exists n c, P n c /\ f wf' a = compute n c wf') -> (forall wf' a, exists n c, P n c /\ g wf' a = compute n c wf') ->
  computes P wf (foldl g (foldl f wf l1) l2).
Proof. intros Hf Hg. apply (computes_trans _ _ (foldl f wf l1)); apply foldl_computes; intros wf' a _; right; [apply Hf|apply Hg]. Qed.
Lemma agents_compute (w : World) removals upserts wf : named (wd_cluster w) ->
  computes good wf (foldl (one_upsert w) (foldl (fun wf a => onDeleted w a wf) wf removals) upserts).
Proof.
  intros Hn. apply foldl2_computes; intros wf' a.
  - eexists _, _. (split; [|done]); auto with watch.
  - unfold one_upsert, onDeleted. destruct (IsInactive _ _); eexists _, _; (split; [|done]); auto with watch.
Qed.
Lemma intercepts_compute (w : World) removals upserts wf : named (wd_cluster w) ->
  computes good wf (foldl (fun wf x => compute (sp_Agent (mi_Spec x)) (intercept_upserted w (wf_namespace wf) (sp_Agent (mi_Spec x))) wf)
    (foldl (fun wf x => compute (sp_Agent (mi_Spec x)) (intercept_removed w (wf_namespace wf) (sp_Agent (mi_Spec x))) wf) wf removals) upserts).
Proof.
  intros Hn. apply foldl2_computes; intros wf' x; eexists _, _; (split; [|done]); auto with watch.
Qed.

(** ** The client's map *)
Definition agrees (v : view) (e : WorkloadEvent) : Prop := v !! event_key e = if bool_decide (ev_Type e = DELETED) then None else Some (info_of (ev_Workload e)).
Lemma apply_event_other v e key : event_key e <> key -> apply_event v e !! key = v !! key.
Proof. intros Hne. unfold apply_event. case_bool_decide; [by apply lookup_delete_ne|by apply lookup_insert_ne]. Qed.
Lemma apply_event_agrees v e : agrees (apply_event v e) e.
Proof. unfold agrees, apply_event. case_bool_decide; [apply lookup_delete_eq|apply lookup_insert_eq]. Qed.
Lemma apply_other evs v key : key ∉ event_key <$> evs -> foldl apply_event v evs !! key = v !! key.
Proof.
  revert v. induction evs as [|e evs IH]; intros v Hk; [done|]. cbn [foldl fmap list_fmap] in *. apply not_elem_of_cons in Hk as [Hne Hk].
  rewrite IH by done. by apply apply_event_other.
Qed.
Lemma apply_all evs v e : NoDup (event_key <$> evs) -> e ∈ evs -> agrees (foldl apply_event v evs) e.
Proof.
  revert v. induction evs as [|e0 evs IH]; intros v Hnd Hin; [by apply not_elem_of_nil in Hin|]. cbn [foldl fmap list_fmap] in *. apply NoDup_cons in Hnd as [Hno Hnd].
  apply elem_of_cons in Hin as [->|Hin]; [|by apply IH]. unfold agrees. rewrite apply_other by done. apply apply_event_agrees.
Qed.

(** Keyed events have different keys at the client. *)
Lemma keyed_range range m : any_range range -> keyed m -> NoDup (event_key <$> (range m).*2).
Proof.
  intros Hr Hk. apply (NoDup_fmap_1 snd).
  assert (He : snd <$> (event_key <$> (range m).*2) = (range m).*1).
  { rewrite <- !list_fmap_compose. apply list_fmap_ext. intros i [k e] Hl. apply list_elem_of_lookup_2 in Hl. rewrite (Hr m) in Hl.
    apply elem_of_map_to_list in Hl. apply (Hk k e Hl). }
  rewrite He, (Hr m). apply NoDup_fst_map_to_list.
Qed.
Lemma collect_sublist evm wf : collect evm wf `sublist_of` evm.*2.
Proof.
  unfold collect. induction evm as [|[k e] evm IH]; [done|]. cbn. case_bool_decide; [by apply sublist_cons|by apply sublist_skip].
Qed.
Lemma collect_elem evm wf e : e ∈ collect evm wf <-> exists k, (k, e) ∈ evm /\ wf_lastEvents wf !! k <> Some e.
Proof.
  unfold collect. rewrite list_elem_of_omap. split.
  - intros ([k e0] & Hin & Hs). cbn in Hs. case_bool_decide as Hd; [done|]. injection Hs as ->. by exists k.
  - intros (k & Hin & Hne). exists (k, e). split; [done|]. cbn. by rewrite bool_decide_eq_false_2.
Qed.

(** ** The invariant *)
Definition client_view (x : watching) : view := default ∅ (wt_client x !! wf_namespace (wt_wf x)).
Record watch_inv (ns : string) (x : watching) : Prop := mkWatchInv {
  wi_ns : wf_namespace (wt_wf x) = ns;
  wi_keyed : keyed (wf_workloadEvents (wt_wf x));
  wi_last_keyed : keyed (wf_lastEvents (wt_wf x));
  wi_last : map_Forall (fun _ e => agrees (client_view x) e) (wf_lastEvents (wt_wf x));   (* the client has what was sent *)
  wi_armed : wf_workloadEvents (wt_wf x) <> ∅ -> wf_sendTimer (wt_wf x) = true            (* nothing waits forever *)
}.
(** What sending does: everything pending is at the client, and nothing else changes. *)
Record flushed (x x' : watching) : Prop := mkFlushed {
  fl_pending : wf_workloadEvents (wt_wf x') = ∅;
  fl_agrees : forall k e, wf_workloadEvents (wt_wf x) !! k = Some e -> agrees (client_view x') e;
  fl_other : forall key, (forall k e, wf_workloadEvents (wt_wf x) !! k = Some e -> event_key e <> key) -> client_view x' !! key = client_view x !! key
}.
Lemma client_view_deliver wf i t evs c : client_view (mkWatching wf i (deliver (wf_namespace wf) (Some (t, evs)) c)) = foldl apply_event (default ∅ (c !! wf_namespace wf)) evs.
Proof. unfold client_view. cbn [wt_client wt_wf deliver]. unfold workloadsWatcher_handler. by rewrite lookup_insert_eq. Qed.
Section Flush.
Context (range : range_fn) (Hrange : any_range range).
(** The events that are collected bring the client to what was pending. *)
Lemma collected_agree ns x v evm : watch_inv ns x -> v = client_view x -> evm = range (wf_workloadEvents (wt_wf x)) ->
  let v' := foldl apply_event v (collect evm (wt_wf x)) in
  (forall k e, wf_workloadEvents (wt_wf x) !! k = Some e -> agrees v' e) /\
  (forall key, (forall k e, wf_workloadEvents (wt_wf x) !! k = Some e -> event_key e <> key) -> v' !! key = v !! key).
Proof.
  intros [Hns Hk Hlk Hl _] -> -> v'.
  assert (Hnd := keyed_range range _ Hrange Hk).
  assert (Hnd' : NoDup (event_key <$> collect (range (wf_workloadEvents (wt_wf x))) (wt_wf x))).
  { eapply sublist_NoDup; [exact Hnd|apply fmap_sublist, collect_sublist]. }
  assert (Hin : forall e, e ∈ collect (range (wf_workloadEvents (wt_wf x))) (wt_wf x) -> exists k, wf_workloadEvents (wt_wf x) !! k = Some e /\ wf_lastEvents (wt_wf x) !! k <> Some e).
  { intros e He. apply collect_elem in He as (k & He & Hne). rewrite (Hrange _) in He. apply elem_of_map_to_list in He. eauto. }
  split.
  - intros k e He. destruct (decide (wf_lastEvents (wt_wf x) !! k = Some e)) as [Hlast|Hne].
    + unfold agrees, v'. rewrite apply_other; [apply (Hl k e Hlast)|]. intros Hke. apply list_elem_of_fmap in Hke as (e' & Hkey & He').
      destruct (Hin e' He') as (k' & Hk' & Hne'). assert (k' = k) as ->.
      { rewrite <- (Hk k' e' Hk'), <- (Hk k e He). unfold event_key in Hkey. congruence. }
      congruence.
    + apply apply_all; [done|]. apply collect_elem. exists k. split; [|done]. rewrite (Hrange _). by apply elem_of_map_to_list.
  - intros key Hkey. apply apply_other. intros He. apply list_elem_of_fmap in He as (e & -> & He). destruct (Hin e He) as (k & Hk' & _). by apply (Hkey k e).
Qed.
Lemma range_map m : list_to_map (range m) = m.
Proof.
  rewrite (list_to_map_proper _ (map_to_list m)); [apply list_to_map_to_list| |apply Hrange]. rewrite (Hrange m). apply NoDup_fst_map_to_list.
Qed.
(** [timer]: if the timer is running when [sendEvents] is called. *)
Lemma sendEvents_flushes ns x now sendEmpty i timer : watch_inv ns x ->
  let y := sendEvents now true range sendEmpty (mkWf (wf_namespace (wt_wf x)) (wf_workloadEvents (wt_wf x)) (wf_lastEvents (wt_wf x)) (wf_start (wt_wf x)) timer) in
  let x' := mkWatching y.1 i (deliver (wf_namespace (wt_wf x)) y.2 (wt_client x)) in
  watch_inv ns x' /\ flushed x x'.
Proof.
  intros Hinv y x'. destruct (collected_agree ns x (client_view x) (range (wf_workloadEvents (wt_wf x))) Hinv eq_refl eq_refl) as [Ha Ho].
  destruct Hinv as [Hns Hk Hlk Hl Harm].
  assert (Hy : wf_namespace y.1 = wf_namespace (wt_wf x) /\ wf_workloadEvents y.1 = ∅ /\ wf_lastEvents y.1 = wf_workloadEvents (wt_wf x)).
  { unfold y, sendEvents. destruct (_ && _); cbn; by rewrite range_map. }
  destruct Hy as (Hy1 & Hy2 & Hy3).
  assert (Hv : client_view x' = foldl apply_event (client_view x) (collect (range (wf_workloadEvents (wt_wf x))) (wt_wf x))).
  { unfold x'. rewrite <- Hy1. unfold y, sendEvents. cbn [wf_workloadEvents].
    change (collect ?a (mkWf _ _ _ _ timer)) with (collect a (wt_wf x)). destruct (_ && _) eqn:E.
    - apply andb_prop in E as [_ E]. apply Nat.eqb_eq, length_zero_iff_nil in E. rewrite E. done.
    - cbn [fst snd]. unfold client_view. cbn. unfold workloadsWatcher_handler. by rewrite lookup_insert_eq. }
  split; constructor; change (wt_wf x') with y.1.
  - by rewrite Hy1.
  - rewrite Hy2. apply map_Forall_empty.
  - by rewrite Hy3.
  - rewrite Hy3, Hv. intros k e He. by apply (Ha k).
  - by rewrite Hy2.
  - done.
  - intros k e He. rewrite Hv. by apply (Ha k).
  - intros key Hkey. rewrite Hv. by apply Ho.
Qed.
End Flush.

Section Runs.
Context (range : range_fn) (Hrange : any_range range).
(** A handler that only computes pending events and restarts the timer. *)
Lemma handler_inv ns x wf' i : watch_inv ns x -> computes good (stopSendTimer (wt_wf x)) wf' -> watch_inv ns (mkWatching (resetSendTimer wf') i (wt_client x)).
Proof.
  intros [Hns Hk Hlk Hl _] Hc. destruct (computes_keyed _ _ Hc) as [Hk' [Hn' Hl']]; [done|]. cbn in Hn', Hl'.
  assert (Hv : client_view (mkWatching (resetSendTimer wf') i (wt_client x)) = client_view x).
  { unfold client_view. cbn. by rewrite Hn'. }
  constructor; cbn [wt_wf resetSendTimer wf_namespace wf_workloadEvents wf_lastEvents wf_sendTimer]; [by rewrite Hn'|done|by rewrite Hl'| |done].
  rewrite Hl', Hv. done.
Qed.
Lemma step_inv ns x now a : watch_inv ns x -> act_ok a -> watch_inv ns (Watch_step range now x a).
Proof.
  intros Hinv Ha. destruct a as [w wes|w removals upserts|w removals upserts|]; cbn [Watch_step].
  - destruct wes as [|we wes]; cbn [handleWorkloadEvents].
    + destruct (wt_initial x) eqn:Ei.
      * assert (Hs := sendEvents_flushes range Hrange ns x now true false (wf_sendTimer (wt_wf x)) Hinv). destruct x as [[n0 p0 l0 s0 t0] i0 c0]. cbn [wt_wf wf_namespace wf_workloadEvents wf_lastEvents wf_start wf_sendTimer wt_client] in *.
        destruct (sendEvents now true range true _) as [wf' d]. apply Hs.
      * cbn [deliver]. destruct Hinv. by constructor.
    + cbn [deliver]. apply (handler_inv ns x); [done|]. apply (events_compute w (we :: wes)).
  - apply (handler_inv ns x); [done|]. by apply agents_compute.
  - apply (handler_inv ns x); [done|]. by apply intercepts_compute.
  - destruct (wf_sendTimer (wt_wf x)) eqn:Et; [|done]. assert (Hs := sendEvents_flushes range Hrange ns x now false (wt_initial x) false Hinv).
    unfold stopSendTimer. destruct (sendEvents now true range false _) as [wf' d]. apply Hs.
Qed.
Lemma start_inv ns now c : watch_inv ns (Watch_start ns now c).
Proof. constructor; cbn; [done|apply map_Forall_empty|apply map_Forall_empty|apply map_Forall_empty|done]. Qed.
Lemma run_inv ns x acts : watch_inv ns x -> Forall (fun a => act_ok a.2) acts -> watch_inv ns (Watch_run range x acts).
Proof.
  revert x. induction acts as [|[t a] acts IH]; intros x Hx Hok; [done|]. apply Forall_cons in Hok as [Ha Hok]. cbn [Watch_run foldl fst snd].
  apply IH; [|done]. by apply step_inv.
Qed.
Lemma timer_flushes ns x now : watch_inv ns x -> flushed x (Watch_step range now x OnTimer).
Proof.
  intros Hinv. cbn [Watch_step]. destruct (wf_sendTimer (wt_wf x)) eqn:Et.
  - assert (Hs := sendEvents_flushes range Hrange ns x now false (wt_initial x) false Hinv). unfold stopSendTimer. destruct (sendEvents now true range false _) as [wf' d]. apply Hs.
  - assert (Hp : wf_workloadEvents (wt_wf x) = ∅).
    { destruct (decide (wf_workloadEvents (wt_wf x) = ∅)) as [|Hne]; [done|]. rewrite (wi_armed _ _ Hinv Hne) in Et. done. }
    constructor; [done| |done]. intros k e. by rewrite Hp, lookup_empty.
Qed.
End Runs.

(** ** The callback of the timer, next to the loop *)
Lemma NoDup_fst_inj {A B} (l : list (A * B)) a b b' : NoDup l.*1 -> (a, b) ∈ l -> (a, b') ∈ l -> b = b'.
Proof.
  intros Hnd [i Hi]%list_elem_of_lookup [j Hj]%list_elem_of_lookup. assert (i = j) as ->; [|congruence].
  apply (NoDup_lookup l.*1 i j a); [done|by rewrite list_lookup_fmap, Hi|by rewrite list_lookup_fmap, Hj].
Qed.
(** Events whose keys differ, collected against what was sent last. *)
Lemma batch_agree wf v evm : NoDup evm.*1 -> (forall k e, (k, e) ∈ evm -> wi_Name (ev_Workload e) = k) -> map_Forall (fun _ e => agrees v e) (wf_lastEvents wf) ->
  let v' := foldl apply_event v (collect evm wf) in
  (forall k e, (k, e) ∈ evm -> agrees v' e) /\ (forall key, (forall k e, (k, e) ∈ evm -> event_key e <> key) -> v' !! key = v !! key).
Proof.
  intros Hnd Hk Hl v'.
  assert (Hnd' : NoDup (event_key <$> collect evm wf)).
  { eapply sublist_NoDup; [|apply fmap_sublist, collect_sublist]. apply (NoDup_fmap_1 snd).
    assert (He : snd <$> (event_key <$> evm.*2) = evm.*1); [|by rewrite He]. rewrite <- !list_fmap_compose. apply list_fmap_ext. intros i [k e] Hi. cbn.
    apply (Hk k). by eapply list_elem_of_lookup_2. }
  split.
  - intros k e He. destruct (decide (wf_lastEvents wf !! k = Some e)) as [Hlast|Hne].
    + unfold agrees, v'. rewrite apply_other; [apply (Hl k e Hlast)|]. intros Hke. apply list_elem_of_fmap in Hke as (e' & Hkey & He').
      apply collect_elem in He' as (k' & He' & Hne'). assert (k' = k) as ->.
      { rewrite <- (Hk k' e' He'), <- (Hk k e He). unfold event_key in Hkey. congruence. }
      assert (e' = e) as -> by (apply (NoDup_fst_inj evm k); done). congruence.
    + apply apply_all; [done|]. apply collect_elem. by exists k.
  - intros key Hkey. apply apply_other. intros He. apply list_elem_of_fmap in He as (e & -> & He). apply collect_elem in He as (k & He & _). by apply (Hkey k e).
Qed.

Section Timed.
Context (range : range_fn) (Hrange : any_range range).
(** The invariant does not depend on the timer but for the last of its parts. *)
Definition rearm (x : watching) : watching := mkWatching (resetSendTimer (wt_wf x)) (wt_initial x) (wt_client x).
Lemma rearm_inv ns x : watch_inv ns x -> watch_inv ns (rearm x).
Proof. intros []. by constructor. Qed.
Lemma rearm_step now x a : a <> OnTimer -> rearm (Watch_step range now (rearm x) a) = rearm (Watch_step range now x a).
Proof.
  destruct x as [[n p l s t] i c]. destruct a as [w [|we wes]|w removals upserts|w removals upserts|]; intros Hn; [|done..].
  unfold rearm. cbn. destruct i; [|done]. unfold sendEvents. cbn. done.
Qed.
(** A turn other than the timer restarts it, or finds nothing, or is the first snapshot, which leaves nothing pending. *)
Lemma turn_armed ns now x a : watch_inv ns (rearm x) -> act_ok a -> a <> OnTimer ->
  (wf_workloadEvents (wt_wf x) <> ∅ -> wf_sendTimer (wt_wf x) = true) -> wf_workloadEvents (wt_wf (Watch_step range now x a)) <> ∅ -> wf_sendTimer (wt_wf (Watch_step range now x a)) = true.
Proof.
  intros Hi Ha Hn Harm. destruct a as [w [|we wes]|w removals upserts|w removals upserts|]; cbn [Watch_step handleWorkloadEvents]; [|done..].
  destruct (wt_initial x); [|done]. unfold sendEvents. destruct (_ && _); done.
Qed.
Lemma turn_last now x a : act_ok a -> a <> OnTimer -> (forall w, a = OnWorkloads w [] -> False) -> keyed (wf_workloadEvents (wt_wf x)) ->
  wf_lastEvents (wt_wf (Watch_step range now x a)) = wf_lastEvents (wt_wf x).
Proof.
  intros Ha Hn Hw Hk. destruct a as [w [|we wes]|w removals upserts|w removals upserts|]; cbn [Watch_step handleWorkloadEvents]; [by destruct (Hw w)| | | |done].
  - by destruct (computes_keyed _ _ (events_compute w (we :: wes) (stopSendTimer (wt_wf x))) Hk) as [_ [_ ?]].
  - by destruct (computes_keyed _ _ (agents_compute w removals upserts (stopSendTimer (wt_wf x)) Ha) Hk) as [_ [_ ?]].
  - by destruct (computes_keyed _ _ (intercepts_compute w removals upserts (stopSendTimer (wt_wf x)) Ha) Hk) as [_ [_ ?]].
Qed.

Definition tact_ok (a : timed_action) : Prop := match a with Turn a => act_ok a | _ => True end.
(** A callback that is under way has events whose keys differ, and will send those that are not the last ones. *)
Record timed_inv (ns : string) (x : timed) : Prop := mkTimedInv {
  ti_watch : watch_inv ns (rearm (tm_watch x));
  ti_armed : wf_workloadEvents (wt_wf (tm_watch x)) <> ∅ -> wf_sendTimer (wt_wf (tm_watch x)) = true \/ is_Some (tm_callback x);
  ti_callback : forall cb, tm_callback x = Some cb ->
    NoDup cb.1.*1 /\ (forall k e, (k, e) ∈ cb.1 -> wi_Name (ev_Workload e) = k) /\ cb.2 = collect cb.1 (wt_wf (tm_watch x))
}.
Lemma range_ok m : keyed m -> NoDup (range m).*1 /\ (forall k e, (k, e) ∈ range m <-> m !! k = Some e) /\ forall k e, (k, e) ∈ range m -> wi_Name (ev_Workload e) = k.
Proof.
  intros Hk. assert (Hel : forall k e, (k, e) ∈ range m <-> m !! k = Some e) by (intros k e; rewrite (Hrange m); apply elem_of_map_to_list).
  split; [rewrite (Hrange m); apply NoDup_fst_map_to_list|]. split; [done|]. intros k e He%Hel. apply (Hk k e He).
Qed.
(** The end of a callback. *)
Lemma callback_send_inv ns now cb x : watch_inv ns (rearm x) -> NoDup cb.1.*1 -> (forall k e, (k, e) ∈ cb.1 -> wi_Name (ev_Workload e) = k) -> cb.2 = collect cb.1 (wt_wf x) ->
  let x' := callback_send now cb x in
  watch_inv ns (rearm x') /\ wf_workloadEvents (wt_wf x') = ∅ /\
  (forall k e, (k, e) ∈ cb.1 -> agrees (client_view x') e) /\ (forall key, (forall k e, (k, e) ∈ cb.1 -> event_key e <> key) -> client_view x' !! key = client_view x !! key).
Proof.
  intros [Hns Hk Hlk Hl _] Hnd Hnm Hc x'. destruct (batch_agree (wt_wf x) (client_view x) cb.1 Hnd Hnm Hl) as [Ha Ho].
  assert (Hwf : wf_namespace (wt_wf x') = wf_namespace (wt_wf x) /\ wf_workloadEvents (wt_wf x') = ∅ /\ wf_lastEvents (wt_wf x') = list_to_map cb.1).
  { unfold x', callback_send. by destruct (Nat.eqb _ _). }
  destruct Hwf as (W1 & W2 & W3).
  assert (Hv : client_view x' = foldl apply_event (client_view x) (collect cb.1 (wt_wf x))).
  { rewrite <- Hc. unfold x', callback_send. destruct (Nat.eqb _ _) eqn:E.
    - apply Nat.eqb_eq, length_zero_iff_nil in E. by rewrite E.
    - unfold client_view. cbn. unfold workloadsWatcher_handler. by rewrite lookup_insert_eq. }
  rewrite Hv. split_and!; [|done|exact Ha|exact Ho].
  assert (Hel : forall k e, (list_to_map cb.1 : gmap string WorkloadEvent) !! k = Some e -> (k, e) ∈ cb.1) by (intros k e; by apply elem_of_list_to_map_2).
  constructor; cbn [rearm wt_wf resetSendTimer wf_namespace wf_workloadEvents wf_lastEvents wf_sendTimer].
  - by rewrite W1.
  - rewrite W2. apply map_Forall_empty.
  - rewrite W3. intros k e He%Hel. by apply Hnm.
  - rewrite W3. intros k e He%Hel. change (client_view (rearm x')) with (client_view x'). rewrite Hv. by apply (Ha k).
  - done.
Qed.
Lemma timed_turn_inv ns now x a cb : timed_inv ns (mkTimed x cb) -> act_ok a -> (cb = None \/ a <> OnTimer /\ forall w, a <> OnWorkloads w []) ->
  timed_inv ns (mkTimed (Watch_step range now x a) cb).
Proof.
  intros [Hw Harm Hcb] Ha Hcase. cbn [tm_watch tm_callback] in *. destruct (decide (exists c, cb = Some c)) as [[c ->]|Hnone].
  - destruct Hcase as [|[Hn Hne]]; [done|]. constructor; cbn [tm_watch tm_callback].
    + rewrite <- rearm_step by done. apply rearm_inv, step_inv; done.
    + intros _. right. by eexists.
    + intros c' [= <-]. destruct (Hcb c eq_refl) as (C1 & C2 & C3). split_and!; [done..|]. rewrite C3. unfold collect.
      rewrite (turn_last now x a Ha Hn) by (first [naive_solver|apply (wi_keyed _ _ Hw)]). done.
  - destruct cb as [c|]; [by destruct Hnone; eexists|]. assert (Hwx : watch_inv ns x).
    { destruct Hw as [W1 W2 W3 W4 _]. constructor; [exact W1|exact W2|exact W3|exact W4|]. intros Hp. by destruct (Harm Hp) as [?|[? ?]]. }
    pose proof (step_inv range Hrange ns x now a Hwx Ha) as Hs. constructor; cbn [tm_watch tm_callback]; [by apply rearm_inv| |done].
    intros Hp. left. by apply (wi_armed _ _ Hs).
Qed.
Lemma timed_step_inv ns now x a : timed_inv ns x -> tact_ok a -> timed_inv ns (timed_step range now x a).
Proof.
  intros Hi Ha. destruct x as [x cb]. destruct a as [a| |].
  - assert (Hgo : cb = None \/ a <> OnTimer /\ (forall w, a <> OnWorkloads w []) -> timed_inv ns (mkTimed (Watch_step range now x a) cb)) by (intros; by apply timed_turn_inv).
    destruct cb as [cb|]; [|unfold timed_step; cbn; destruct a as [w [|? ?]| | |]; apply Hgo; by left].
    unfold timed_step. cbn. destruct a as [w [|we wes]|w r u|w r u|]; [exact Hi| | | |exact Hi]; apply Hgo; right; (split; [done|]); intros w' [=].
  - unfold timed_step. cbn. destruct cb as [cb|]; [done|]. destruct (wf_sendTimer (wt_wf x)) eqn:Et; [|done]. destruct Hi as [Hw Harm _]. cbn [tm_watch tm_callback] in *.
    constructor; cbn [tm_watch tm_callback]; [exact Hw|intros _; right; by eexists|]. intros c [= <-].
    destruct (range_ok _ (wi_keyed _ _ Hw)) as (R1 & _ & R3). cbn in R1, R3. split_and!; done.
  - unfold timed_step. cbn. destruct cb as [cb|]; [|done]. destruct Hi as [Hw _ Hcb]. cbn [tm_watch tm_callback] in *. destruct (Hcb cb eq_refl) as (C1 & C2 & C3).
    destruct (callback_send_inv ns now cb x Hw C1 C2 C3) as (S1 & S2 & _). constructor; cbn [tm_watch tm_callback]; [exact S1|by rewrite S2|done].
Qed.
Lemma timed_run_inv ns x acts : timed_inv ns x -> Forall (fun a => tact_ok a.2) acts -> timed_inv ns (timed_run range x acts).
Proof.
  revert x. induction acts as [|[t a] acts IH]; intros x Hx Hok; [done|]. apply Forall_cons in Hok as [Ha Hok]. cbn [timed_run foldl fst snd].
  apply IH; [|done]. by apply timed_step_inv.
Qed.
Lemma timed_start_inv ns now c : timed_inv ns (mkTimed (Watch_start ns now c) None).
Proof. constructor; [apply rearm_inv, start_inv|done|done]. Qed.
End Timed.

(** C8. However workload, agent and intercept changes interleave with the callback of the timer, which
    ranges over the pending events and clears them later: an event that is pending has the timer
    running, or a callback under way.  The callback brings the client's map of the namespace to every
    event that it has ranged over (also to one that is not sent because it equals the last
    one), and leaves the rest of the map as it is.  So when no turn of the loop comes between its
    range and its end, the client's map agrees with every event that was pending, and
    nothing is pending any more; what a turn has stored in between is dropped.  It is
    assumed that turns of the loop are not interrupted, and that a callback ends before
    the timer fires again and does not meet an empty first snapshot. *)
Theorem pending_events_delivered (range : range_fn) (ns : string) (start t now : Z) (c : gmap string view) (acts : list (Z * timed_action)) :
  any_range range -> Forall (fun a => tact_ok a.2) acts ->
  let x := timed_run range (mkTimed (Watch_start ns start c) None) acts in
  let pending := wf_workloadEvents (wt_wf (tm_watch x)) in
  (pending <> ∅ -> wf_sendTimer (wt_wf (tm_watch x)) = true \/ is_Some (tm_callback x)) /\
  (forall ranged evs, tm_callback x = Some (ranged, evs) ->
     let x' := timed_step range now x TmSend in
     wf_workloadEvents (wt_wf (tm_watch x')) = ∅ /\ tm_callback x' = None /\
     (forall k e, (k, e) ∈ ranged -> wi_Name (ev_Workload e) = k /\
        client_view (tm_watch x') !! (wi_Kind (ev_Workload e), k) = if bool_decide (ev_Type e = DELETED) then None else Some (info_of (ev_Workload e))) /\
     (forall kind name, (forall e, (name, e) ∈ ranged -> wi_Kind (ev_Workload e) <> kind) ->
        client_view (tm_watch x') !! (kind, name) = client_view (tm_watch x) !! (kind, name))) /\
  (tm_callback x = None ->
     let x' := timed_step range now (timed_step range t x TmRange) TmSend in
     wf_workloadEvents (wt_wf (tm_watch x')) = ∅ /\ tm_callback x' = None /\
     (forall k e, pending !! k = Some e -> wi_Name (ev_Workload e) = k /\
        client_view (tm_watch x') !! (wi_Kind (ev_Workload e), k) = if bool_decide (ev_Type e = DELETED) then None else Some (info_of (ev_Workload e))) /\
     (forall kind name, (forall e, pending !! name = Some e -> wi_Kind (ev_Workload e) <> kind) ->
        client_view (tm_watch x') !! (kind, name) = client_view (tm_watch x) !! (kind, name))).
Proof.
  intros Hr Hok x pending. assert (Hinv : timed_inv ns x) by (apply timed_run_inv; [done|apply timed_start_inv|done]).
  assert (Hsend : forall y ranged evs, timed_inv ns y -> tm_callback y = Some (ranged, evs) ->
     let y' := timed_step range now y TmSend in
     wf_workloadEvents (wt_wf (tm_watch y')) = ∅ /\ tm_callback y' = None /\
     (forall k e, (k, e) ∈ ranged -> wi_Name (ev_Workload e) = k /\
        client_view (tm_watch y') !! (wi_Kind (ev_Workload e), k) = if bool_decide (ev_Type e = DELETED) then None else Some (info_of (ev_Workload e))) /\
     (forall kind name, (forall e, (name, e) ∈ ranged -> wi_Kind (ev_Workload e) <> kind) ->
        client_view (tm_watch y') !! (kind, name) = client_view (tm_watch y) !! (kind, name))).
  { intros y ranged evs Hy Hcb y'. assert (Hy' : y' = mkTimed (callback_send now (ranged, evs) (tm_watch y)) None) by (unfold y', timed_step; by rewrite Hcb).
    destruct (ti_callback _ _ Hy _ Hcb) as (C1 & C2 & C3). cbn [fst snd] in *. destruct (callback_send_inv ns now (ranged, evs) (tm_watch y) (ti_watch _ _ Hy) C1 C2 C3) as (_ & S2 & S3 & S4).
    rewrite Hy'. cbn [tm_watch tm_callback fst] in *. split_and!; [done..| |].
    - intros k e He. split; [by apply C2|]. pose proof (S3 k e He) as Hag. unfold agrees, event_key in Hag. by rewrite (C2 k e He) in Hag.
    - intros kind name Hne. apply S4. intros k e He Hkey. unfold event_key in Hkey. injection Hkey as Hkind Hname. apply (Hne e); [|done]. rewrite <- Hname. by rewrite (C2 k e He). }
  split; [apply (ti_armed _ _ Hinv)|]. split; [intros ranged evs; by apply Hsend|]. intros Hnone x'.
  destruct (range_ok range Hr pending (wi_keyed _ _ (ti_watch _ _ Hinv))) as (R1 & R2 & R3).
  destruct (wf_sendTimer (wt_wf (tm_watch x))) eqn:Et.
  - assert (Hy : timed_step range t x TmRange = mkTimed (mkWatching (stopSendTimer (wt_wf (tm_watch x))) (wt_initial (tm_watch x)) (wt_client (tm_watch x)))
                   (Some (callback_range range (stopSendTimer (wt_wf (tm_watch x)))))) by (unfold timed_step; by rewrite Hnone, Et).
    assert (Hyi : timed_inv ns (timed_step range t x TmRange)) by (by apply timed_step_inv).
    destruct (Hsend _ (range pending) (collect (range pending) (wt_wf (tm_watch x))) Hyi) as (S1 & S2 & S3 & S4); [by rewrite Hy|]. fold x' in S1, S2, S3, S4.
    split_and!; [done..| |].
    + intros k e He. apply S3. by apply R2.
    + intros kind name Hne. rewrite S4; [by rewrite Hy|]. intros e He%R2. by apply Hne.
  - assert (Hx' : x' = x) by (unfold x', timed_step; rewrite Hnone, Et; cbn [tm_callback]; by rewrite Hnone). rewrite Hx'.
    assert (Hp : pending = ∅) by (destruct (decide (pending = ∅)) as [|Hne]; [done|]; destruct (ti_armed _ _ Hinv Hne) as [H1|H1]; [congruence|rewrite Hnone in H1; by destruct H1]).
    split_and!; [done..| |done]. intros k e. by rewrite Hp, lookup_empty.
Qed.

(** ** Deletions *)
Definition pending_deletion (kind : rpc_kind) (name : string) (wf : workloadInfoWatcher) : Prop :=
  exists e, wf_workloadEvents wf !! name = Some e /\ ev_Type e = DELETED /\ wi_Kind (ev_Workload e) = kind.
Lemma compute_deletion kind name n f wf : respects f -> pending_deletion kind name wf -> pending_deletion kind name (compute n f wf).
Proof.
  intros Hf (e & He & Ht & Hk). unfold compute. destruct (f _) as [e'|] eqn:E; [|by exists e]. exists e. split; [|done]. cbn [set_events wf_workloadEvents].
  rewrite lookup_insert_ne; [done|]. intros ->. rewrite He in E. by rewrite (Hf e Ht) in E.
Qed.
Lemma computes_deletion kind name wf wf' : computes good wf wf' -> pending_deletion kind name wf -> pending_deletion kind name wf'.
Proof. intros Hc Hd. induction Hc as [|wf wf' n f _ IH Hf]; [done|]. apply compute_deletion; [apply Hf|by apply IH]. Qed.
Definition no_timer (a : action) : Prop := match a with OnTimer => False | _ => True end.
Lemma step_deletion kind name range now x a : act_ok a -> no_timer a -> wt_initial x = false -> pending_deletion kind name (wt_wf x) ->
  pending_deletion kind name (wt_wf (Watch_step range now x a)) /\ wt_initial (Watch_step range now x a) = false.
Proof.
  intros Hok Hnt Hi Hd. destruct a as [w [|we wes]|w removals upserts|w removals upserts|]; cbn [Watch_step handleWorkloadEvents].
  - by rewrite Hi.
  - split; [|done]. apply (computes_deletion _ _ _ _ (events_compute w (we :: wes) (stopSendTimer (wt_wf x)))). done.
  - split; [|done]. apply (computes_deletion _ _ _ _ (agents_compute w removals upserts (stopSendTimer (wt_wf x)) Hok)). done.
  - split; [|done]. apply (computes_deletion _ _ _ _ (intercepts_compute w removals upserts (stopSendTimer (wt_wf x)) Hok)). done.
  - done.
Qed.
Lemma run_deletion kind name range x acts : Forall (fun a => act_ok a.2 /\ no_timer a.2) acts -> wt_initial x = false -> pending_deletion kind name (wt_wf x) ->
  pending_deletion kind name (wt_wf (Watch_run range x acts)).
Proof.
  revert x. induction acts as [|[t a] acts IH]; intros x Hok Hi Hd; [done|]. apply Forall_cons in Hok as [[Ha Hnt] Hok]. cbn [Watch_run foldl fst snd].
  destruct (step_deletion kind name range t x a) as [Hd' Hi']; [done..|]. by apply IH.
Qed.
(** The events of a batch, for one name. *)
Definition wname (we : Event) : string := m_Name (wl_Meta (we_Workload we)).
Definition of_kind (kind : rpc_kind) (name : string) (wf : workloadInfoWatcher) : Prop := forall e, wf_workloadEvents wf !! name = Some e -> wi_Kind (ev_Workload e) = kind.
Lemma one_event_kind kind name w wf we : of_kind kind name wf -> (wname we = name -> RpcKind (wl_Kind (we_Workload we)) = kind) -> of_kind kind name (one_event w wf we).
Proof.
  intros Hk Hw. unfold one_event. destruct (in_namespace _ _); [|done]. unfold compute. destruct (workload_event w we _) as [e|] eqn:E; [|done].
  intros e0. cbn [set_events wf_workloadEvents]. fold (wname we) in *. destruct (decide (wname we = name)) as [He|Hne].
  - rewrite He, lookup_insert_eq. intros [= <-]. rewrite He in E. destruct (wf_workloadEvents wf !! name) as [e1|] eqn:Ec; cbn [workload_event] in E.
    + destruct (_ && _); [|done]. injection E as <-. cbn. by apply Hk.
    + injection E as <-. cbn. by apply Hw.
  - rewrite lookup_insert_ne by done. apply Hk.
Qed.
Lemma events_kind kind name w wes wf : of_kind kind name wf -> (forall we, we ∈ wes -> wname we = name -> RpcKind (wl_Kind (we_Workload we)) = kind) ->
  of_kind kind name (foldl (one_event w) wf wes).
Proof.
  revert wf. induction wes as [|we wes IH]; intros wf Hk Hw; [done|]. cbn [foldl]. apply IH; [|intros; apply Hw; [by apply list_elem_of_further|done]].
  apply one_event_kind; [done|]. apply Hw, list_elem_of_here.
Qed.
Lemma one_event_deletes kind w wf we : we_Type we = EventTypeDelete -> in_namespace wf (we_Workload we) = true -> of_kind kind (wname we) wf -> RpcKind (wl_Kind (we_Workload we)) = kind ->
  pending_deletion kind (wname we) (one_event w wf we).
Proof.
  intros Ht Hin Hk Hw. unfold one_event. rewrite Hin. fold (wname we). unfold compute. destruct (wf_workloadEvents wf !! wname we) as [e|] eqn:Ec.
  - cbn [workload_event]. rewrite (bool_decide_eq_true_2 (we_Type we = EventTypeDelete)) by done. cbn [andb]. case_bool_decide as Hd; cbn [negb].
    + exists e. split; [done|]. split; [done|]. by apply Hk.
    + eexists. cbn [set_events wf_workloadEvents]. rewrite lookup_insert_eq. split; [done|]. split; [done|]. cbn. by apply Hk.
  - eexists. cbn [workload_event set_events wf_workloadEvents]. rewrite lookup_insert_eq. split; [done|]. cbn. by rewrite Ht.
Qed.
Lemma events_namespace w wes wf : wf_namespace (foldl (one_event w) wf wes) = wf_namespace wf.
Proof.
  revert wf. induction wes as [|we wes IH]; intros wf; [done|]. cbn [foldl]. rewrite IH. unfold one_event. destruct (in_namespace _ _); [|done].
  unfold compute. by destruct (workload_event _ _ _).
Qed.

(** A deletion is never lost: whatever the agents, the intercepts and the informers report
    before the timer fires, when it fires the client has forgotten the workload. *)
Theorem deletion_delivered (range : range_fn) (ns : string) (start t now : Z) (c : gmap string view) (acts acts' : list (Z * action)) (w : World) (wes : list Event) (d : Event) :
  any_range range -> Forall (fun a => act_ok a.2) acts -> named (wd_cluster w) -> Forall (fun a => act_ok a.2 /\ no_timer a.2) acts' ->
  let x := Watch_run range (Watch_start ns start c) acts in
  let kind := RpcKind (wl_Kind (we_Workload d)) in
  d ∈ wes -> we_Type d = EventTypeDelete -> m_Namespace (wl_Meta (we_Workload d)) = ns ->
  of_kind kind (wname d) (wt_wf x) -> (forall we, we ∈ wes -> wname we = wname d -> RpcKind (wl_Kind (we_Workload we)) = kind) ->
  client_view (Watch_step range now (Watch_run range (Watch_step range t x (OnWorkloads w wes)) acts') OnTimer) !! (kind, wname d) = None.
Proof.
  intros Hr Hok Hw Hok' x kind Hin Ht Hns Hkind Hall. assert (Hinv : watch_inv ns x) by (apply run_inv; [done|apply start_inv|done]).
  set (x1 := Watch_step range t x (OnWorkloads w wes)). assert (Hinv1 : watch_inv ns x1) by (by apply step_inv).
  assert (Hd : pending_deletion kind (wname d) (wt_wf x1) /\ wt_initial x1 = false).
  { unfold x1. apply list_elem_of_split in Hin as (l1 & l2 & ->). destruct (l1 ++ d :: l2) as [|we0 wes0] eqn:El; [by destruct l1|]. cbn [Watch_step handleWorkloadEvents]. split; [|done].
    cbn [wt_wf]. rewrite <- El in *. rewrite foldl_app. cbn [foldl]. cut (pending_deletion kind (wname d) (foldl (one_event w) (one_event w (foldl (one_event w) (stopSendTimer (wt_wf x)) l1) d) l2)); [done|].
    apply (computes_deletion _ _ _ _ (events_compute w l2 _)). apply one_event_deletes; [done| | |done].
    - unfold in_namespace. rewrite events_namespace. cbn [stopSendTimer wf_namespace]. rewrite (wi_ns _ _ Hinv), Hns, (bool_decide_eq_true_2 (ns = ns)) by done. apply orb_true_r.
    - apply events_kind; [done|]. intros we Hwe. apply Hall. apply elem_of_app. by left. }
  destruct Hd as [Hd Hi]. assert (Hd2 := run_deletion _ _ range x1 acts' Hok' Hi Hd). set (x2 := Watch_run range x1 acts') in *.
  assert (Hinv2 : watch_inv ns x2). { apply run_inv; [done|done|]. eapply Forall_impl; [exact Hok'|]. by intros ? []. }
  destruct Hd2 as (e & He & Hte & Hke). assert (Ha := fl_agrees _ _ (timer_flushes range Hr ns x2 now Hinv2) _ _ He). unfold agrees, event_key in Ha.
  rewrite Hke, (wi_keyed _ _ Hinv2 _ _ He), Hte in Ha. done.
Qed.

(** ** The initial snapshot *)
(** The listers return the objects of their kind in the namespace. *)
Definition lister_ok (ns : string) (lister : string -> option (list (Workload * WlStatus))) : Prop :=
  forall kind l x, lister kind = Some l -> x ∈ l -> wl_Kind x.1 = kind /\ m_Namespace (wl_Meta x.1) = ns.
(** The workloads that a client is told of: those of an enabled kind, without an owner that
    is reported instead, and not the traffic-manager. *)
Definition reported (c : Cluster) (kinds : list string) (lister : string -> option (list (Workload * WlStatus))) (wl : Workload) (st : WlStatus) : Prop :=
  exists l, lister (wl_Kind wl) = Some l /\ (wl, st) ∈ l /\ wl_Kind wl ∈ kinds /\ wl_Kind wl ∈ KnownWorkloadKinds /\
    hasValidReplicasetOwner wl kinds = false /\ ~ (wl_Kind wl = DeploymentKind /\ @is_manager c wl = true).
Lemma FromAny_known wl st : is_Some (FromAny (AnyWorkload wl st)) <-> wl_Kind wl ∈ KnownWorkloadKinds.
Proof.
  cbn. unfold Kinds_Contains. case_bool_decide as Hk; split; [done|by eexists|by intros []|done].
Qed.
Lemma initialEvents_elem c ns kinds lister we : lister_ok ns lister ->
  we ∈ @initialEvents c (newWatcher ns kinds) lister <-> we_Type we = EventTypeAdd /\ reported c kinds lister (we_Workload we) (we_Status we).
Proof.
  intros Hl. unfold initialEvents. rewrite list_elem_of_bind. unfold initial_of. cbn [w_enabledWorkloadKinds newWatcher]. split.
  - intros (kind & Hin & Hk). destruct (Kinds_Contains kinds kind) eqn:Ek; [|by apply not_elem_of_nil in Hin]. apply bool_decide_eq_true_1 in Ek.
    apply list_elem_of_fmap in Hin as ([wl st] & -> & Hin). apply list_elem_of_filter in Hin as [(Hf & Ho & Hm) Hin]. cbn [fst snd we_Type we_Workload we_Status] in *.
    destruct (lister kind) as [l|] eqn:El; [|by apply not_elem_of_nil in Hin]. cbn in Hin. destruct (Hl kind l _ El Hin) as [Hkind _]. cbn [fst] in Hkind. subst kind.
    split; [done|]. exists l. split_and!; [done..|]. intros [Hd Hmg]. rewrite (bool_decide_eq_true_2 _ Hd), Hmg in Hm. done.
  - destruct we as [ty wl st]. cbn [we_Type we_Workload we_Status]. intros [-> (l & El & Hin & Hk & Hkn & Ho & Hm)]. exists (wl_Kind wl). split; [|done].
    unfold Kinds_Contains. rewrite bool_decide_eq_true_2 by done. apply list_elem_of_fmap. exists (wl, st). split; [done|]. rewrite El. cbn. apply list_elem_of_filter. cbn [fst snd].
    split; [|done]. split; [by apply FromAny_known|]. split; [done|]. case_bool_decide as Hd; [|done]. cbn. apply not_true_is_false. naive_solver.
Qed.

Lemma list_filter_ext_in {A} (P Q : A -> Prop) `{!forall x, Decision (P x)} `{!forall x, Decision (Q x)} (l : list A) :
  (forall x, x ∈ l -> P x <-> Q x) -> filter P l = filter Q l.
Proof.
  induction l as [|x l IH]; intros Hpq; [done|]. rewrite !filter_cons, IH by (intros y Hy; apply Hpq; by apply list_elem_of_further).
  assert (Hx := Hpq x (list_elem_of_here _ _)). destruct (decide (P x)), (decide (Q x)); naive_solver.
Qed.
(** The objects of which [AddFunc] makes an event. *)
Definition added (c : Cluster) (kinds : list string) (x : Workload * WlStatus) : Prop :=
  is_Some (FromAny (AnyWorkload x.1 x.2)) /\ hasValidReplicasetOwner x.1 kinds = false /\ bool_decide (wl_Kind x.1 = DeploymentKind) && @is_manager c x.1 = false.
#[local] Instance added_dec c kinds x : Decision (added c kinds x).
Proof. unfold added. apply _. Defined.
Lemma AddFunc_event c ns kinds x w : w_namespace w = ns -> w_enabledWorkloadKinds w = kinds -> m_Namespace (wl_Meta x.1) = ns ->
  @AddFunc c (AnyWorkload x.1 x.2) w =
  if decide (added c kinds x) then mkWatcher ns (w_subscriptions w) true (w_events w ++ [mkEvent EventTypeAdd x.1 x.2]) kinds else w.
Proof.
  destruct x as [wl st]. cbn [fst snd]. intros Hns Hks Hw. unfold AddFunc. destruct (FromAny (AnyWorkload wl st)) as [[wl' st']|] eqn:Ef; cycle 1.
  { rewrite decide_False; [done|]. intros [Hs _]. cbn [fst snd] in Hs. rewrite Ef in Hs. by destruct Hs. }
  assert (wl' = wl /\ st' = st) as [-> ->]. { cbn in Ef. destruct (Kinds_Contains _ _); [by injection Ef|done]. }
  unfold of_interest. rewrite Hns, Hks, Hw, (bool_decide_eq_true_2 (ns = ns)) by done. cbn [andb]. destruct (hasValidReplicasetOwner wl kinds) eqn:Eo; cbn [negb].
  { rewrite decide_False; [done|]. intros (_ & Hs & _). cbn [fst] in Hs. congruence. }
  unfold handleEvent. cbn [we_Workload]. destruct (bool_decide (wl_Kind wl = DeploymentKind) && is_manager wl) eqn:Em.
  { rewrite decide_False; [done|]. intros (_ & _ & Hs). cbn [fst] in Hs. congruence. }
  rewrite decide_True; [by rewrite Hns, Hks|]. split; [cbn [fst snd]; rewrite Ef; by eexists|done].
Qed.
Lemma AddFunc_all c ns kinds l w : w_namespace w = ns -> w_enabledWorkloadKinds w = kinds -> (forall x, x ∈ l -> m_Namespace (wl_Meta x.1) = ns) ->
  w_events (foldl (fun w x => @AddFunc c (AnyWorkload x.1 x.2) w) w l) = w_events w ++ ((fun x => mkEvent EventTypeAdd x.1 x.2) <$> filter (added c kinds) l).
Proof.
  revert w. induction l as [|x l IH]; intros w Hns Hks Hin; [by rewrite app_nil_r|]. cbn [foldl]. rewrite filter_cons.
  rewrite (AddFunc_event c ns kinds x w Hns Hks (Hin x (list_elem_of_here _ _))).
  destruct (decide (added c kinds x)); rewrite IH; try done; try (intros y Hy; apply Hin; by apply list_elem_of_further).
  cbn [w_events fmap list_fmap]. by rewrite <- app_assoc.
Qed.
Lemma initial_of_added c ns kinds lister kind : lister_ok ns lister ->
  @initial_of c (newWatcher ns kinds) lister kind =
  (fun x => mkEvent EventTypeAdd x.1 x.2) <$> filter (added c kinds) (if Kinds_Contains kinds kind then default [] (lister kind) else []).
Proof.
  intros Hl. unfold initial_of. cbn [w_enabledWorkloadKinds newWatcher]. destruct (Kinds_Contains kinds kind); [|done]. f_equal.
  destruct (lister kind) as [l|] eqn:El; [|done]. cbn [default]. apply list_filter_ext_in. intros x Hx. unfold added. by destruct (Hl kind l x El Hx) as [-> _].
Qed.

(** The subscription starts with the events that the handlers would have made of the same
    objects. *)
Theorem snapshot_as_adds (c : Cluster) (ns : string) (kinds : list string) (lister : string -> option (list (Workload * WlStatus))) :
  lister_ok ns lister ->
  let objects := KnownWorkloadKinds ≫= fun kind => if Kinds_Contains kinds kind then default [] (lister kind) else [] in
  @initialEvents c (newWatcher ns kinds) lister =
  w_events (foldl (fun w x => @AddFunc c (AnyWorkload x.1 x.2) w) (newWatcher ns kinds) objects).
Proof.
  intros Hl objects. rewrite (AddFunc_all c ns kinds objects (newWatcher ns kinds)); [|done|done|].
  - cbn [w_events newWatcher app]. unfold initialEvents, objects. induction KnownWorkloadKinds as [|k ks IH]; [done|].
    rewrite !bind_cons, filter_app, fmap_app. f_equal; [by apply initial_of_added|done].
  - intros x Hx. unfold objects in Hx. apply list_elem_of_bind in Hx as (k & Hx & _). destruct (Kinds_Contains kinds k); [|by apply not_elem_of_nil in Hx].
    destruct (lister k) as [l|] eqn:El; [|by apply not_elem_of_nil in Hx]. apply (Hl k l x El Hx).
Qed.

(** ** What the client knows after the snapshot *)
(** An intercept of the workload that is not at an end. *)
Definition engaged (s : State) (name ns : string) : Prop :=
  exists id x, GetIntercept s id = Some x /\ sp_Agent (mi_Spec x) = name /\ sp_Namespace (mi_Spec x) = ns /\ engaging (mi_Disposition x) = true.
Definition agent_state (s : State) (name ns : string) (as_ : AgentState) : Prop :=
  match as_ with
  | INTERCEPTED => engaged s name ns
  | INSTALLED => ~ engaged s name ns /\ HasAgent s name ns = true
  | NO_AGENT_UNSPECIFIED => ~ engaged s name ns /\ HasAgent s name ns = false
  end.
Lemma ranged_elem w x : world_ok w -> x ∈ ranged w <-> exists id, GetIntercept (wd_state w) id = Some x.
Proof.
  intros [_ Hr]. unfold ranged. rewrite list_elem_of_omap. unfold GetIntercept. split.
  - intros ([id p] & Hin & Hx). rewrite (Hr _) in Hin. apply elem_of_map_to_list in Hin. exists id. cbn in Hx. by rewrite Hin.
  - intros (id & Hx). destruct (intercepts (wd_state w) !! id) as [p|] eqn:Ep; [|done]. cbn in Hx. exists (id, p). split; [|done]. rewrite (Hr _). by apply elem_of_map_to_list.
Qed.
Lemma getIntercepts_engaged w name ns : world_ok w -> Nat.ltb 0 (length (getIntercepts w name ns)) = true <-> engaged (wd_state w) name ns.
Proof.
  intros Hw. unfold getIntercepts. rewrite length_fmap. rewrite Nat.ltb_lt. split.
  - intros Hl. destruct (filter _ (ranged w)) as [|x l] eqn:E; [cbn in Hl; lia|]. assert (Hx : x ∈ x :: l) by apply list_elem_of_here. rewrite <- E in Hx.
    apply list_elem_of_filter in Hx as [(-> & -> & Hd) Hx]. apply ranged_elem in Hx as [id Hx]; [|done]. by exists id, x.
  - intros (id & x & Hx & <- & <- & Hd). destruct (filter _ (ranged w)) as [|y l] eqn:E; [|cbn; lia]. exfalso. apply (not_elem_of_nil x). rewrite <- E. apply list_elem_of_filter.
    split; [done|]. apply ranged_elem; eauto.
Qed.
(** The event that a new workload makes. *)
Definition fresh_info (w : World) (wl : Workload) (st : WlStatus) (as_ : AgentState) : WorkloadInfo :=
  rpcWorkload w wl st as_ (getIntercepts w (m_Name (wl_Meta wl)) (m_Namespace (wl_Meta wl))).
Lemma workload_event_fresh w we : world_ok w -> exists as_, workload_event w we None = Some (mkWE' (rpc_type (we_Type we)) (fresh_info w (we_Workload we) (we_Status we) as_)) /\
  agent_state (wd_state w) (wname we) (m_Namespace (wl_Meta (we_Workload we))) as_.
Proof.
  intros Hw. cbn [workload_event]. fold (wname we). eexists. split; [done|]. assert (He := getIntercepts_engaged w (wname we) (m_Namespace (wl_Meta (we_Workload we))) Hw).
  destruct (Nat.ltb 0 _) eqn:El; [by apply He|]. assert (Hn : ~ engaged (wd_state w) (wname we) (m_Namespace (wl_Meta (we_Workload we)))) by (intros H0; apply He in H0; done).
  destruct (HasAgent _ _ _) eqn:Eh; done.
Qed.
(** A batch of events with different names, when nothing is pending. *)
Lemma fresh_batch w ns wf wes : wf_namespace wf = ns -> (forall we, we ∈ wes -> m_Namespace (wl_Meta (we_Workload we)) = ns) -> NoDup (wname <$> wes) -> wf_workloadEvents wf = ∅ ->
  forall k e, wf_workloadEvents (foldl (one_event w) wf wes) !! k = Some e <-> exists we, we ∈ wes /\ wname we = k /\ workload_event w we None = Some e.
Proof.
  intros Hns. induction wes as [|we wes IH] using rev_ind; intros Hin Hnd Hp k e.
  - cbn [foldl]. rewrite Hp, lookup_empty. split; [done|]. intros (we & Hwe & _). by apply not_elem_of_nil in Hwe.
  - rewrite fmap_app in Hnd. apply NoDup_app in Hnd as (Hnd & Hdis & _).
    assert (Hin' : forall we, we ∈ wes -> m_Namespace (wl_Meta (we_Workload we)) = ns) by (intros we' Hwe; apply Hin, elem_of_app; by left).
    specialize (IH Hin' Hnd Hp). rewrite foldl_app. cbn [foldl]. set (wf1 := foldl (one_event w) wf wes) in *.
    assert (Hns1 : wf_namespace wf1 = ns) by (unfold wf1; by rewrite events_namespace).
    assert (Hnone : wf_workloadEvents wf1 !! wname we = None).
    { apply eq_None_not_Some. intros [e' He']. apply IH in He' as (we' & Hwe' & Hname & _). apply (Hdis (wname we)); [|apply list_elem_of_here]. rewrite <- Hname. by apply list_elem_of_fmap_2. }
    unfold one_event, in_namespace. rewrite (Hin we) by (apply elem_of_app; right; apply list_elem_of_here). rewrite Hns1, (bool_decide_eq_true_2 (ns = ns)), orb_true_r by done.
    fold (wname we). unfold compute. rewrite Hnone. destruct (workload_event w we None) as [e0|] eqn:Ew; [|done]. cbn [set_events wf_workloadEvents].
    destruct (decide (wname we = k)) as [<-|Hne].
    + rewrite lookup_insert_eq. split.
      * intros [= <-]. exists we. split; [apply elem_of_app; right; apply list_elem_of_here|done].
      * intros (we' & [Hwe'|Hwe'%list_elem_of_singleton]%elem_of_app & Hname & He'); [|subst we'; congruence]. exfalso. apply (Hdis (wname we)); [|apply list_elem_of_here]. rewrite <- Hname. by apply list_elem_of_fmap_2.
    + rewrite lookup_insert_ne by done. rewrite IH. split.
      * intros (we' & Hwe' & ?). exists we'. split; [apply elem_of_app; by left|done].
      * intros (we' & [Hwe'|Hwe'%list_elem_of_singleton]%elem_of_app & Hname & He'); [by exists we'|by subst we'].
Qed.

(** What the client has after sending it got from a pending event, or it had it. *)
Lemma flushed_source ns x x' key i : watch_inv ns x -> flushed x x' -> client_view x' !! key = Some i ->
  (exists e, wf_workloadEvents (wt_wf x) !! key.2 = Some e /\ event_key e = key) \/ client_view x !! key = Some i.
Proof.
  intros Hinv Hf Hi.
  assert (Hk : forall k e, wf_workloadEvents (wt_wf x) !! k = Some e -> event_key e = key -> k = key.2)
    by (intros k e He <-; symmetry; by apply (wi_keyed _ _ Hinv)).
  destruct (wf_workloadEvents (wt_wf x) !! key.2) as [e|] eqn:Ee; [destruct (decide (event_key e = key)) as [Hd|Hd]; [left; eauto|]|];
    right; rewrite <- Hi; symmetry; apply (fl_other _ _ Hf); intros k e' He' Hk'; assert (k = key.2) as -> by eauto; congruence.
Qed.
(** The first batch, of events with different names. *)
Lemma first_batch range ns start t c w evs : any_range range -> c !! ns = None -> NoDup (wname <$> evs) ->
  (forall we, we ∈ evs -> m_Namespace (wl_Meta (we_Workload we)) = ns) ->
  let x := Watch_step range t (Watch_start ns start c) (OnWorkloads w evs) in
  client_view x = ∅ /\ forall k e, wf_workloadEvents (wt_wf x) !! k = Some e <-> exists we, we ∈ evs /\ wname we = k /\ workload_event w we None = Some e.
Proof.
  intros Hr Hc Hnd Hns x. assert (Hemp : range ∅ = []).
  { apply Permutation_nil_r. etrans; [apply Hr|]. by rewrite map_to_list_empty. }
  unfold x. destruct evs as [|we evs]; cbn [Watch_step handleWorkloadEvents Watch_start wt_initial wt_wf wt_client]; split.
  - unfold client_view. cbn. rewrite Hemp. cbn. unfold workloadsWatcher_handler. by rewrite lookup_insert_eq, Hc.
  - intros k e. cbn. rewrite lookup_empty. split; [done|]. intros (we & Hwe & _). by apply not_elem_of_nil in Hwe.
  - unfold client_view. cbn [wt_client wt_wf deliver resetSendTimer wf_namespace]. rewrite events_namespace. cbn. by rewrite Hc.
  - by apply (fresh_batch w ns).
Qed.


(** ** A run *)
Definition available (ready : Z) : WlStatus := mkStatus (Some 2) 2 ready [mkCond "Available" "True"].
Definition shop_world (s : State) (lister : string -> option (list (Workload * WlStatus))) : World :=
  mkWorld s shop_watcher shop_cluster (fun _ => available 2) lister (fun _ => Some []) map_to_list map_to_list.
Lemma shop_world_ok s lister : world_ok (shop_world s lister).
Proof. constructor; intros a; reflexivity. Qed.
Lemma cluster_with_named svcs wls : named (cluster_with svcs wls).
Proof.
  constructor; intros kind name ns wl; cbn [cache_workload api_workload cluster_with]; [|done].
  destruct (list_find _ _) as [[i wl']|] eqn:E; [|done]. intros [= <-]. apply list_find_Some in E as (_ & (_ & Hn & _) & _). done.
Qed.
Definition no_state : State := mkState ∅ 0 ∅ ∅ ∅ [] [] [] 0 0.
Definition sample_agent (name uid : string) : AgentInfo := mkAgent name "ns" uid ("pod-" +:+ uid) "10.0.0.1" "telepresence" "2.20" [].
Definition with_agents (l : list AgentInfo) : State := set_agents (list_to_map ((fun a => (ag_PodUid a, mkAS a 0)) <$> l)) [] no_state.
Definition shop_icept (id client ns : string) : MIntercept :=
  mkMI (mkInfo id ACTIVE (mkSpec id client "shop" ns "" "" "" 0 "" false false false [] [] [] "tcp" 0 "" "" 0)) "" "s" "" "" [].
Definition with_intercepts (l : list (string * MIntercept)) (s : State) : State :=
  set_objs (list_to_map (imap (fun i kx => (i, kx.2)) l)) (length l) (list_to_map (imap (fun i kx => (kx.1, i)) l)) s.
Definition shop_list (kind : string) : option (list (Workload * WlStatus)) :=
  if bool_decide (kind = DeploymentKind) then Some [(shop, available 2)] else if bool_decide (kind = ReplicaSetKind) then Some [(shop_rs, available 2)] else None.
Lemma shop_list_ok : lister_ok "ns" shop_list.
Proof.
  intros kind l x. unfold shop_list. case_bool_decide as H1; [intros [= <-] ->%list_elem_of_singleton; by subst kind|].
  case_bool_decide as H2; [intros [= <-] ->%list_elem_of_singleton; by subst kind|done].
Qed.
Definition sample_world : World := shop_world (with_agents [sample_agent "shop" "u1"]) shop_list.
Definition shop_event (t : EventType) (ready : Z) : Event := mkEvent t shop (available ready).
(** One batch, sent. *)
Definition after (acts : list action) : watching := Watch_run map_to_list (Watch_start "ns" 0 ∅) ((fun a => (1, a)) <$> acts).
Definition seen (x : watching) (kind : rpc_kind) (name : string) : option (AgentState * list string * Z) :=
  (fun i => (wk_agentState i, wk_interceptClients i, wk_readyReplicas i)) <$> client_view x !! (kind, name).

Ltac acts_ok := repeat first [apply Forall_nil_2 | apply Forall_cons_2 | exact I | apply (cluster_with_named [shop_svc] [shop; shop_rs]) | split].
Definition timed_after (acts : list timed_action) : timed := timed_run map_to_list (mkTimed (Watch_start "ns" 0 ∅) None) ((fun a => (1, a)) <$> acts).
Definition added_then_deleted : list timed_action :=
  [Turn (OnWorkloads sample_world [shop_event EventTypeAdd 2]); TmRange; TmSend; Turn (OnWorkloads sample_world [shop_event EventTypeDelete 2])].
Lemma pending_events_delivered_witness :
  client_view (tm_watch (timed_after (added_then_deleted ++ [TmRange; TmSend]))) !! (RPC_DEPLOYMENT, "shop"%string) = None.
Proof.
  destruct (pending_events_delivered map_to_list "ns" 0 1 1 ∅ ((fun a => (1, a)) <$> added_then_deleted)) as (_ & _ & He).
  - intros m. reflexivity.
  - acts_ok.
  - destruct He as (_ & _ & He & _); [vm_compute; reflexivity|].
    destruct (He "shop"%string (mkWE' DELETED (fresh_info sample_world shop (available 2) INSTALLED))) as [_ Hd]; [vm_compute; reflexivity|]. exact Hd.
Defined.
Lemma deletion_delivered_witness :
  client_view (Watch_step map_to_list 3 (Watch_run map_to_list (Watch_step map_to_list 2 (after [OnWorkloads sample_world [shop_event EventTypeAdd 2]; OnTimer])
     (OnWorkloads sample_world [shop_event EventTypeUpdate 1; shop_event EventTypeDelete 2])) [(2, OnAgents sample_world [] [sample_agent "shop" "u1"])]) OnTimer)
    !! (RPC_DEPLOYMENT, "shop"%string) = None.
Proof.
  apply (deletion_delivered map_to_list "ns" 0 2 3 ∅ ((fun a => (1, a)) <$> [OnWorkloads sample_world [shop_event EventTypeAdd 2]; OnTimer]) [(2, OnAgents sample_world [] [sample_agent "shop" "u1"])]
    sample_world [shop_event EventTypeUpdate 1; shop_event EventTypeDelete 2] (shop_event EventTypeDelete 2)).
  - intros m. reflexivity.
  - acts_ok.
  - apply (cluster_with_named [shop_svc] [shop; shop_rs]).
  - acts_ok.
  - apply list_elem_of_further, list_elem_of_here.
  - reflexivity.
  - reflexivity.
  - intros e. vm_compute. discriminate.
  - intros we [->|[->|Hn%not_elem_of_nil]%elem_of_cons]%elem_of_cons _; [reflexivity|reflexivity|done].
Defined.
Lemma snapshot_as_adds_witness : length (@initialEvents shop_cluster (newWatcher "ns" kinds3) shop_list) =
  length (w_events (foldl (fun w x => @AddFunc shop_cluster (AnyWorkload x.1 x.2) w) (newWatcher "ns" kinds3)
    (KnownWorkloadKinds ≫= fun kind => if Kinds_Contains kinds3 kind then default [] (shop_list kind) else []))).
Proof. exact (f_equal length (snapshot_as_adds shop_cluster "ns" kinds3 shop_list shop_list_ok)). Defined.

(** ** What the code does not mean to do *)
(** An update that arrives while an event is pending is dropped: the client keeps the older status. *)
Example update_while_pending_lost :
  seen (after [OnWorkloads sample_world [shop_event EventTypeAdd 0; shop_event EventTypeUpdate 2]; OnTimer]) RPC_DEPLOYMENT "shop" = Some (INSTALLED, [], 0).
Proof. vm_compute. reflexivity. Qed.
(** A workload that is deleted and created again before the timer fires is gone for the client. *)
Example recreated_workload_lost :
  seen (after [OnWorkloads sample_world [shop_event EventTypeAdd 2]; OnTimer; OnWorkloads sample_world [shop_event EventTypeDelete 2; shop_event EventTypeAdd 2]; OnTimer])
    RPC_DEPLOYMENT "shop" = None.
Proof. vm_compute. reflexivity. Qed.
(** The deletion of a workload deletes another kind's workload of the same name, whose event is pending. *)
Example other_kind_deleted :
  let rs := mkWL ReplicaSetKind (mkMeta "shop" "ns" "u2" None None []) (wl_Template shop) 1 in
  seen (after [OnWorkloads sample_world [shop_event EventTypeAdd 2]; OnTimer; OnWorkloads sample_world [shop_event EventTypeUpdate 2; mkEvent EventTypeDelete rs (available 2)]; OnTimer])
    RPC_DEPLOYMENT "shop" = None.
Proof. vm_compute. reflexivity. Qed.
(** One intercept of two is removed while an event is pending: the client is told of an agent that is not intercepted, with a client that intercepts it. *)
Example removal_shows_installed :
  let w := shop_world (with_intercepts [("i2", shop_icept "i2" "alice" "ns")]%string (with_agents [sample_agent "shop" "u1"])) shop_list in
  seen (after [OnWorkloads w [shop_event EventTypeUpdate 2]; OnIntercepts w [shop_icept "i1" "bob" "ns"] []; OnTimer]) RPC_DEPLOYMENT "shop" = Some (INSTALLED, ["alice"%string], 2).
Proof. vm_compute. reflexivity. Qed.
(** An intercept of the same name in another namespace counts. *)
Example other_namespace_counts :
  let w := shop_world (with_intercepts [("i2", shop_icept "i2" "alice" "other")]%string (with_agents [sample_agent "shop" "u1"])) shop_list in
  seen (after [OnIntercepts w [shop_icept "i1" "bob" "ns"] []; OnTimer]) RPC_DEPLOYMENT "shop" = Some (INTERCEPTED, ["alice"%string], 2).
Proof. vm_compute. reflexivity. Qed.
(** One pod of two departs: the client is told that there is no agent. *)
Example remaining_agent_ignored :
  HasAgent (wd_state sample_world) "shop" "ns" = true /\
  seen (after [OnAgents sample_world [sample_agent "shop" "u2"] []; OnTimer]) RPC_DEPLOYMENT "shop" = Some (NO_AGENT_UNSPECIFIED, [], 2).
Proof. split; vm_compute; reflexivity. Qed.
(** The client of an additional intercept is not reported when the state of the agent stays. *)
Example new_client_not_reported :
  let w1 := shop_world (with_intercepts [("i1", shop_icept "i1" "bob" "ns")]%string (with_agents [sample_agent "shop" "u1"])) shop_list in
  let w2 := shop_world (with_intercepts [("i1", shop_icept "i1" "bob" "ns"); ("i2", shop_icept "i2" "alice" "ns")]%string (with_agents [sample_agent "shop" "u1"])) shop_list in
  seen (after [OnWorkloads w1 [shop_event EventTypeUpdate 2]; OnAgents w2 [] [sample_agent "shop" "u1"]; OnTimer]) RPC_DEPLOYMENT "shop" = Some (INTERCEPTED, ["bob"%string], 2).
Proof. vm_compute. reflexivity. Qed.
(** A turn of the loop between the range and the end of the callback: the deletion of the agent is dropped, although it is pending. *)
Example event_between_range_and_clear :
  let x := timed_after [Turn (OnWorkloads sample_world [shop_event EventTypeAdd 2]); TmRange; Turn (OnAgents sample_world [sample_agent "shop" "u1"] [])] in
  (fun e => wi_AgentState (ev_Workload e)) <$> wf_workloadEvents (wt_wf (tm_watch x)) !! "shop"%string = Some NO_AGENT_UNSPECIFIED /\
  let x' := timed_step map_to_list 2 (timed_step map_to_list 2 (timed_step map_to_list 2 x TmSend) TmRange) TmSend in
  seen (tm_watch x') RPC_DEPLOYMENT "shop" = Some (INSTALLED, [], 2).
Proof. vm_compute. split; reflexivity. Qed.
(** A change of the ready replicas of a deployment alone makes no event. *)
Example ready_replicas_unnoticed :
  w_events (@UpdateFunc shop_cluster (AnyWorkload shop (available 2)) (AnyWorkload shop (available 0)) (newWatcher "ns" kinds3)) = [].
Proof. vm_compute. reflexivity. Qed.
(** The informers hand a missed deletion out as a value, which the handler ignores. *)
Example missed_deletion_ignored :
  w_events (@DeleteFunc shop_cluster (AnyUnknown false (AnyWorkload shop (available 2))) (newWatcher "ns" kinds3)) = [].
Proof. vm_compute. reflexivity. Qed.
(** A workload that appears between the snapshot of a subscription and its registration is reported to neither. *)
Example subscription_gap :
  let w0 := newWatcher "ns" kinds3 in
  let initial := @initialEvents shop_cluster w0 (fun _ => None) in
  forall w1, timer_fires (@AddFunc shop_cluster (AnyWorkload shop (available 2)) w0) = Some w1 ->
  sub_items <$> w_subscriptions (register 1 initial w1) !! 1%nat = Some [[]] /\ w_events w1 = [].
Proof. intros w0 initial w1. vm_compute. intros [= <-]. split; reflexivity. Qed.
(** The timer can fire between the closing of a channel and its removal. *)
Example closed_subscription_panics :
  timer_fires (close_sub 1 (register 1 [] (newWatcher "ns" kinds3))) = None.
Proof. vm_compute. reflexivity. Qed.
