(* ===== verification/UserWorkloads.v ===== *)
(** * The list of workloads in the user daemon (src/pkg/client/userd/trafficmgr/session.go)

    [getInfosForWorkloads] lists the workloads of the mapped namespaces that a filter
    selects, with their intercepts, ingests and agents; [waitForWorkloadUpdate] waits for the
    map of workloads to satisfy a predicate.  The filter is a set of bits. *)
From S2P Require Import Prelude NetIP GoStrings PortTypes Matcher Icept Policies AgentConfig Kube Discovery Generator ConfigWatcher WorkloadExposure ManagerState WorkloadWatch.
From Stdlib Require Import Ascii.
Local Open Scope Z_scope.

(** ** The filter (the numbers of rpc/connector/connector.proto) *)
Definition ListRequest_UNSPECIFIED : Z := 0.
Definition ListRequest_INTERCEPTS : Z := 1.
Definition ListRequest_REPLACEMENTS : Z := 2.
Definition ListRequest_INGESTS : Z := 4.
Definition ListRequest_WIRETAPS : Z := 8.
Definition ListRequest_INSTALLED_AGENTS : Z := 16.
Definition ListRequest_EVERYTHING : Z := 31.

Definition Kind_String (k : rpc_kind) : string :=
  match k with RPC_UNSPECIFIED => "UNSPECIFIED" | RPC_DEPLOYMENT => "DEPLOYMENT" | RPC_REPLICASET => "REPLICASET" | RPC_STATEFULSET => "STATEFULSET" | RPC_ROLLOUT => "ROLLOUT" end.

Section Listing.
(** What is told of an ingest. *)
Context {G : Type}.
Record ListedWorkload := mkLW {
  lw_Name : string; lw_Namespace : string; lw_WorkloadResourceType : string; lw_Uid : string; lw_DesiredReplicas : Z; lw_ReadyReplicas : Z;
  lw_Services : list ServiceAssociation; lw_NotInterceptableReason : string;
  lw_InterceptInfo : list InterceptInfo; lw_IngestInfo : list G; lw_AgentVersion : string
}.
(** The bit of an intercept, a replacement or a wiretap. *)
Definition engagement_bit (ii : InterceptInfo) : Z :=
  if sp_NoDefaultPort (ii_Spec ii) then ListRequest_REPLACEMENTS
  else if sp_Wiretap (ii_Spec ii) then ListRequest_WIRETAPS
  else ListRequest_INTERCEPTS.
Definition match_intercept (filter : Z) (acc : Z * list InterceptInfo) (ii : InterceptInfo) : Z * list InterceptInfo :=
  let '(filterMatch, infos) := acc in
  (Z.lor filterMatch (engagement_bit ii),
   if negb (Z.land filter (engagement_bit ii) =? 0) || (filter =? 0) then infos ++ [ii] else infos).
Definition list_one (iMap : gmap string (list InterceptInfo)) (gMap : gmap string (list G)) (sMap : gmap string string) (filter : Z)
    (key : workloadInfoKey) (namespace : string) (info : workloadInfo) : option ListedWorkload :=
  let name := key.2 in
  let filterMatch := Z.ldiff ListRequest_EVERYTHING (Z.lor (Z.lor ListRequest_REPLACEMENTS ListRequest_INTERCEPTS) ListRequest_WIRETAPS) in
  let '(filterMatch, infos) := foldl (match_intercept filter) (filterMatch, []) (default [] (iMap !! name)) in
  let filterMatch := match gMap !! name with Some _ => filterMatch | None => Z.ldiff filterMatch ListRequest_INGESTS end in
  let filterMatch := match sMap !! name with Some _ => filterMatch | None => Z.ldiff filterMatch ListRequest_INSTALLED_AGENTS end in
  if negb (filter =? 0) && (Z.land filter filterMatch =? 0) then None
  else Some (mkLW name namespace (Kind_String key.1) (wk_uid info) (wk_desiredReplicas info) (wk_readyReplicas info) (wk_services info)
         (match wk_state info with StateAvailable => EmptyString | s => State_String s end)
         infos (default [] (gMap !! name)) (default EmptyString (sMap !! name))).
Definition listing_key (key : workloadInfoKey) (namespace : string) : string := Kind_String key.1 +:+ ":" +:+ key.2 +:+ "." +:+ namespace.

(** [visit] is the order of a range over the workloads of a namespace, [values] that of the
    range over the result, and [sortSlice] is sort.Slice with the order of names. *)
Context (visit : view -> list (workloadInfoKey * workloadInfo)) (values : gmap string ListedWorkload -> list ListedWorkload) (sortSlice : list ListedWorkload -> list ListedWorkload).
Definition eachWorkload {A} (workloads : gmap string view) (namespaces : list string) (do_ : A -> workloadInfoKey -> string -> workloadInfo -> A) (a : A) : A :=
  foldl (fun a ns => match workloads !! ns with Some m => foldl (fun a x => do_ a x.1 ns x.2) a (visit m) | None => a end) a namespaces.
Definition getInfosForWorkloads (workloads : gmap string view) (namespaces : list string) (iMap : gmap string (list InterceptInfo)) (gMap : gmap string (list G))
    (sMap : gmap string string) (filter : Z) : list ListedWorkload :=
  let wiMap := eachWorkload workloads namespaces
    (fun wiMap key ns info => match list_one iMap gMap sMap filter key ns info with Some x => <[listing_key key ns := x]> wiMap | None => wiMap end) ∅ in
  sortSlice (values wiMap).

(** [WorkloadInfoSnapshot], once the watchers of the namespaces are in sync.  [actual] is
    ActualNamespace; ingests are keyed by workload, container and namespace. *)
Definition by_name {A} (l : list (string * A)) : gmap string (list A) :=
  foldl (fun m x => <[x.1 := default [] (m !! x.1) ++ [x.2]]> m) ∅ l.
Definition WorkloadInfoSnapshot (actual : string -> string) (sessionNamespace : string) (workloads : gmap string view) (intercepts : list InterceptInfo)
    (agents : list (string * string)) (ingests : list (string * G)) (namespaces : list string) (filter : Z) : list ListedWorkload :=
  let nss := omap (fun ns => let ns := actual ns in if bool_decide (ns = EmptyString) then None else Some ns) namespaces in
  match nss with
  | [] => []
  | _ =>
      let sMap := if bool_decide (nss = [sessionNamespace]) then foldl (fun m a => <[a.1 := a.2]> m) ∅ agents else ∅ in
      let iMap := by_name ((fun i => (sp_Agent (ii_Spec i), i)) <$> base.filter (fun i => sp_Namespace (ii_Spec i) ∈ nss) intercepts) in
      getInfosForWorkloads workloads nss iMap (by_name ingests) sMap filter
  end.
End Listing.

(** [cloneServiceAssociations]: the entries that are not nil. *)
Definition cloneServiceAssociations (services : list (option ServiceAssociation)) : list ServiceAssociation := omap id services.

(** ** Waiting for an update
    A subscriber has a channel for one signal.  An update stores the new map and signals
    every subscriber whose channel is empty, under the same lock. *)
Inductive wait_pc := Checking | Waiting | Satisfied.
Record waiting := mkWait { wa_workloads : gmap string view; wa_signal : bool; wa_pc : wait_pc }.
Section Waiting.
Context (namespace name : string) (predicate : workloadInfo -> bool).
Definition check (workloads : gmap string view) : bool :=
  existsb (fun x => bool_decide (x.1.2 = name) && predicate x.2) (map_to_list (default ∅ (workloads !! namespace))).
Definition update (events : list WorkloadEvent) (ns : string) (x : waiting) : waiting :=
  mkWait (workloadsWatcher_handler ns events (wa_workloads x)) true (wa_pc x).
Definition waiter_turn (x : waiting) : waiting :=
  match wa_pc x with
  | Checking => mkWait (wa_workloads x) (wa_signal x) (if check (wa_workloads x) then Satisfied else Waiting)
  | Waiting => if wa_signal x then mkWait (wa_workloads x) false Checking else x
  | Satisfied => x
  end.
(** [subscribeWorkloadsChange] comes first. *)
Definition waitForWorkloadUpdate (workloads : gmap string view) : waiting := mkWait workloads false Checking.
Inductive wait_step : waiting -> waiting -> Prop :=
  | WsUpdate x ns events : wait_step x (update events ns x)
  | WsTurn x : wait_step x (waiter_turn x).
End Waiting.

(** ** The selection *)
Section ListSpec.
Context {G : Type}.
Implicit Types (gMap : gmap string (list G)).
Definition has_bit (filter bit : Z) : Prop := Z.land filter bit <> 0.
(** What a filter selects. *)
Definition selected (iMap : gmap string (list InterceptInfo)) gMap (sMap : gmap string string) (filter : Z) (name : string) : Prop :=
  filter = 0 \/ (exists ii, ii ∈ default [] (iMap !! name) /\ has_bit filter (engagement_bit ii)) \/
  (is_Some (gMap !! name) /\ has_bit filter ListRequest_INGESTS) \/ (is_Some (sMap !! name) /\ has_bit filter ListRequest_INSTALLED_AGENTS).
#[global] Instance has_bit_dec filter bit : Decision (has_bit filter bit).
Proof. unfold has_bit. apply _. Defined.
#[global] Instance selected_dec iMap gMap sMap filter name : Decision (selected iMap gMap sMap filter name).
Proof.
  unfold selected. assert (Decision (exists ii, ii ∈ default [] (iMap !! name) /\ has_bit filter (engagement_bit ii))) by
    (refine (cast_if (decide (Exists (fun ii => has_bit filter (engagement_bit ii)) (default [] (iMap !! name))))); by rewrite <- Exists_exists).
  apply _.
Defined.
Lemma land_lor_zero a b c : Z.land a (Z.lor b c) = 0 <-> Z.land a b = 0 /\ Z.land a c = 0.
Proof. rewrite Z.land_lor_distr_r. apply Z.lor_eq_0_iff. Qed.
Lemma match_all filter l m infos :
  foldl (match_intercept filter) (m, infos) l =
  (foldl (fun m ii => Z.lor m (engagement_bit ii)) m l, infos ++ base.filter (fun ii => filter = 0 \/ has_bit filter (engagement_bit ii)) l).
Proof.
  revert m infos. induction l as [|ii l IH]; intros m infos; [by rewrite app_nil_r|]. cbn [foldl match_intercept]. rewrite IH, filter_cons. f_equal.
  destruct (Z.eqb_spec filter 0) as [->|Hf]; [rewrite orb_true_r, decide_True by (by left); by rewrite <- app_assoc|]. rewrite orb_false_r.
  destruct (Z.eqb_spec (Z.land filter (engagement_bit ii)) 0) as [Hb|Hb]; cbn [negb].
  - rewrite decide_False; [done|]. intros [?|Hh]; [done|]. by apply Hh.
  - rewrite decide_True by (by right). by rewrite <- app_assoc.
Qed.
Lemma match_bits filter l m : Z.land filter (foldl (fun m ii => Z.lor m (engagement_bit ii)) m l) = 0 <->
  Z.land filter m = 0 /\ forall ii, ii ∈ l -> Z.land filter (engagement_bit ii) = 0.
Proof.
  revert m. induction l as [|ii l IH]; intros m; cbn [foldl].
  - split; [|by intros []]. intros H. split; [done|]. intros ii Hi. by apply not_elem_of_nil in Hi.
  - rewrite IH, land_lor_zero. split.
    + intros [[H1 H2] H3]. split; [done|]. intros ii' [->|Hi]%elem_of_cons; [done|by apply H3].
    + intros [H1 H2]. split_and!; [done|apply H2, list_elem_of_here|]. intros ii' Hi. apply H2. by apply list_elem_of_further.
Qed.
(** The bits of the engagements are apart from those of ingests and agents. *)
Lemma engagement_bits l : foldl (fun m ii => Z.lor m (engagement_bit ii)) 0 l ∈ [0; 1; 2; 3; 8; 9; 10; 11].
Proof.
  induction l as [|ii l IH] using rev_ind; [apply list_elem_of_here|]. rewrite foldl_app. cbn [foldl].
  assert (Hb : engagement_bit ii ∈ [1; 2; 8]).
  { unfold engagement_bit. destruct (sp_NoDefaultPort _); [|destruct (sp_Wiretap _)]; decide_it. }
  revert IH Hb. generalize (foldl (fun m ii => Z.lor m (engagement_bit ii)) 0 l), (engagement_bit ii). intros m b Hm Hb.
  assert (Hall : forallb (fun m => forallb (fun b => bool_decide (Z.lor m b ∈ [0; 1; 2; 3; 8; 9; 10; 11])) [1; 2; 8]) [0; 1; 2; 3; 8; 9; 10; 11] = true) by (vm_compute; reflexivity).
  apply forallb_forall with (x := m) in Hall; [|by apply list_elem_of_In]. apply forallb_forall with (x := b) in Hall; [|by apply list_elem_of_In]. by apply bool_decide_eq_true_1 in Hall.
Qed.
Lemma match_from l m : foldl (fun m ii => Z.lor m (engagement_bit ii)) m l = Z.lor m (foldl (fun m ii => Z.lor m (engagement_bit ii)) 0 l).
Proof.
  induction l as [|ii l IH] using rev_ind; [by rewrite Z.lor_0_r|]. rewrite !foldl_app. cbn [foldl]. by rewrite IH, Z.lor_assoc.
Qed.
Lemma match_mask (g a : bool) E : E ∈ [0; 1; 2; 3; 8; 9; 10; 11] ->
  let m := if g then Z.lor 20 E else Z.ldiff (Z.lor 20 E) ListRequest_INGESTS in
  (if a then m else Z.ldiff m ListRequest_INSTALLED_AGENTS) = Z.lor (Z.lor E (if g then ListRequest_INGESTS else 0)) (if a then ListRequest_INSTALLED_AGENTS else 0).
Proof.
  intros HE. assert (Hall : forallb (fun E => bool_decide ((let m := if g then Z.lor 20 E else Z.ldiff (Z.lor 20 E) ListRequest_INGESTS in
    if a then m else Z.ldiff m ListRequest_INSTALLED_AGENTS) = Z.lor (Z.lor E (if g then ListRequest_INGESTS else 0)) (if a then ListRequest_INSTALLED_AGENTS else 0)))
    [0; 1; 2; 3; 8; 9; 10; 11] = true) by (destruct g, a; vm_compute; reflexivity).
  apply forallb_forall with (x := E) in Hall; [|by apply list_elem_of_In]. by apply bool_decide_eq_true_1 in Hall.
Qed.
Definition isS {A} (o : option A) : bool := match o with Some _ => true | None => false end.
Lemma land_if filter (b : bool) bit : Z.land filter (if b then bit else 0) = 0 <-> (b = true -> Z.land filter bit = 0).
Proof. destruct b; [naive_solver|]. rewrite Z.land_0_r. naive_solver. Qed.
Lemma isS_Some {A} (o : option A) : isS o = true <-> is_Some o.
Proof. destruct o; split; [by eexists|done|done|by intros []]. Qed.
Lemma list_one_spec iMap gMap sMap filter key ns info :
  (selected iMap gMap sMap filter key.2 -> exists x, list_one iMap gMap sMap filter key ns info = Some x /\
     lw_Name x = key.2 /\ lw_Namespace x = ns /\ lw_WorkloadResourceType x = Kind_String key.1 /\ lw_Uid x = wk_uid info /\
     lw_InterceptInfo x = base.filter (fun ii => filter = 0 \/ has_bit filter (engagement_bit ii)) (default [] (iMap !! key.2))) /\
  (~ selected iMap gMap sMap filter key.2 -> list_one iMap gMap sMap filter key ns info = None).
Proof.
  unfold list_one. change (Z.ldiff ListRequest_EVERYTHING _) with 20. rewrite match_all. cbn [app]. set (l := default [] (iMap !! key.2)).
  set (E := foldl (fun m ii => Z.lor m (engagement_bit ii)) 0 l). rewrite match_from. fold E.
  assert (HE : Z.land filter E = 0 <-> forall ii, ii ∈ l -> Z.land filter (engagement_bit ii) = 0).
  { unfold E. rewrite match_bits, Z.land_0_r. naive_solver. }
  assert (Hm := match_mask (isS (gMap !! key.2)) (isS (sMap !! key.2)) E (engagement_bits l)). cbv zeta in Hm.
  assert (Hz : forall m, m = (if isS (sMap !! key.2) then (if isS (gMap !! key.2) then Z.lor 20 E else Z.ldiff (Z.lor 20 E) ListRequest_INGESTS)
      else Z.ldiff (if isS (gMap !! key.2) then Z.lor 20 E else Z.ldiff (Z.lor 20 E) ListRequest_INGESTS) ListRequest_INSTALLED_AGENTS) ->
      negb (filter =? 0) && (Z.land filter m =? 0) = false <-> selected iMap gMap sMap filter key.2).
  { intros m ->. rewrite Hm. unfold selected, has_bit. rewrite <- !isS_Some. fold l. rewrite andb_false_iff, negb_false_iff, Z.eqb_eq, Z.eqb_neq, !land_lor_zero, !land_if, HE. split.
    - intros [?|Hn]; [by left|]. right. destruct (decide (Exists (fun ii => Z.land filter (engagement_bit ii) <> 0) l)) as [He|He].
      { left. apply Exists_exists in He as (ii & ? & ?). by exists ii. }
      right. assert (Hall : forall ii, ii ∈ l -> Z.land filter (engagement_bit ii) = 0).
      { intros ii Hi. destruct (decide (Z.land filter (engagement_bit ii) = 0)) as [|Hne]; [done|]. exfalso. apply He, Exists_exists. by exists ii. }
      destruct (decide (isS (gMap !! key.2) = true /\ Z.land filter ListRequest_INGESTS <> 0)) as [|Hg]; [by left|]. right.
      destruct (decide (isS (sMap !! key.2) = true /\ Z.land filter ListRequest_INSTALLED_AGENTS <> 0)) as [|Ha]; [done|]. exfalso. apply Hn. split; [split; [done|]|]; intros Hx;
        apply dec_stable; naive_solver.
    - intros [?|[(ii & Hi & Hb)|[[Hg Hb]|[Ha Hb]]]]; [by left|right|right|right]; intros [[H1 H2] H3]; [by apply Hb, H1|by apply Hb, H2|by apply Hb, H3]. }
  destruct (gMap !! key.2) as [g|] eqn:Eg, (sMap !! key.2) as [a|] eqn:Ea; cbn [isS] in Hz;
    (destruct (negb (filter =? 0) && _) eqn:Ed; [split; [intros Hs; apply (Hz _ eq_refl) in Hs; congruence|done]|split; [intros _; by eexists|intros Hs; exfalso; apply Hs, (Hz _ eq_refl); done]]).
Qed.
End ListSpec.

(** ** The keys of the result *)
Lemma str_split_eq c a b x y : no_char c a -> no_char c b -> a +:+ String c x = b +:+ String c y -> a = b /\ x = y.
Proof.
  intros Ha Hb He. assert (Hi := IndexByte_app a c x Ha). rewrite He, (IndexByte_app b c y Hb) in Hi. apply (inj Some) in Hi.
  assert (Ht : str_take (String.length a) (a +:+ String c x) = a) by apply str_take_app. rewrite He, <- Hi, str_take_app in Ht. split; [done|]. subst b.
  assert (Hd := str_drop_S_app a c x). by rewrite He, str_drop_S_app in Hd.
Qed.
(** The last separator splits. *)
Lemma str_split_last c a b x y : no_char c x -> no_char c y -> a +:+ String c x = b +:+ String c y -> a = b /\ x = y.
Proof.
  intros Hx Hy. revert b. induction a as [|a1 a IH]; intros b He.
  - destruct b as [|b1 b]; [by injection He|]. cbn in He. injection He as <- He. exfalso. assert (Hc := no_char_Count c x Hx). rewrite He in Hc.
    change (b +:+ String c y) with (b +:+ String c y) in Hc. rewrite CountByte_app in Hc. cbn [CountByte] in Hc. rewrite bool_decide_eq_true_2 in Hc by done. lia.
  - destruct b as [|b1 b].
    + cbn in He. injection He as -> He. exfalso. assert (Hc := no_char_Count c y Hy). rewrite <- He, CountByte_app in Hc. cbn [CountByte] in Hc. rewrite bool_decide_eq_true_2 in Hc by done. lia.
    + rewrite !str_app_cons in He. injection He as <- He. destruct (IH b He) as [<- <-]. done.
Qed.
Lemma Kind_String_no_colon k : no_char ":" (Kind_String k).
Proof. by destruct k. Qed.
Lemma Kind_String_inj k1 k2 : Kind_String k1 = Kind_String k2 -> k1 = k2.
Proof. by destruct k1, k2. Qed.
(** A namespace is a DNS label: it has no dot. *)
Lemma listing_key_inj k1 k2 ns1 ns2 : no_char "." ns1 -> no_char "." ns2 -> listing_key k1 ns1 = listing_key k2 ns2 -> k1 = k2 /\ ns1 = ns2.
Proof.
  destruct k1 as [k1 n1], k2 as [k2 n2]. unfold listing_key. cbn [fst snd]. intros H1 H2 He.
  apply (str_split_eq ":") in He as [Hk He]; [|apply Kind_String_no_colon..]. apply (str_split_last ".") in He as [-> ->]; [|done..]. by apply Kind_String_inj in Hk as ->.
Qed.

Section Exact.
Context {G : Type}.
Context (visit : view -> list (workloadInfoKey * workloadInfo)) (values : gmap string (@ListedWorkload G) -> list (@ListedWorkload G)) (sortSlice : list (@ListedWorkload G) -> list (@ListedWorkload G)).
Definition name_le (a b : @ListedWorkload G) : Prop := String.le (lw_Name a) (lw_Name b).
(** What is assumed of the ranges and of sort.Slice. *)
Record listing_ok : Prop := mkListingOk {
  lo_visit : forall m, visit m ≡ₚ map_to_list m;
  lo_values : forall m, values m ≡ₚ (map_to_list m).*2;
  lo_perm : forall l, sortSlice l ≡ₚ l;
  lo_sorted : forall l, Sorted name_le (sortSlice l)
}.
Context (Hok : listing_ok) (workloads : gmap string view) (f : workloadInfoKey -> string -> workloadInfo -> option (@ListedWorkload G)).
Definition put (m : gmap string (@ListedWorkload G)) (key : workloadInfoKey) (ns : string) (info : workloadInfo) : gmap string (@ListedWorkload G) :=
  match f key ns info with Some x => <[listing_key key ns := x]> m | None => m end.
(** What the map holds after the namespaces [nss]. *)
Definition put_inv (nss : list string) (m : gmap string (@ListedWorkload G)) : Prop :=
  (forall k x, m !! k = Some x -> exists ns key info w, ns ∈ nss /\ workloads !! ns = Some w /\ w !! key = Some info /\ k = listing_key key ns /\ f key ns info = Some x) /\
  (forall ns key info w x, ns ∈ nss -> workloads !! ns = Some w -> w !! key = Some info -> f key ns info = Some x -> m !! listing_key key ns = Some x).
Lemma put_namespace nss ns w m l : Forall (no_char ".") nss -> no_char "." ns -> workloads !! ns = Some w -> (forall x, x ∈ l -> w !! x.1 = Some x.2) -> put_inv nss m ->
  let m' := foldl (fun a x => put a x.1 ns x.2) m l in
  (forall k x, m' !! k = Some x -> exists ns' key info w', ns' ∈ ns :: nss /\ workloads !! ns' = Some w' /\ w' !! key = Some info /\ k = listing_key key ns' /\ f key ns' info = Some x) /\
  (forall ns' key info w' x, ns' ∈ nss -> workloads !! ns' = Some w' -> w' !! key = Some info -> f key ns' info = Some x -> m' !! listing_key key ns' = Some x) /\
  (forall key info x, (key, info) ∈ l -> f key ns info = Some x -> m' !! listing_key key ns = Some x).
Proof.
  intros Hnss Hns Hw. induction l as [|[key info] l IH] using rev_ind; intros Hl [H1 H2].
  - cbn. split_and!; [|done|intros key info x Hi; by apply not_elem_of_nil in Hi]. intros k x Hx. destruct (H1 k x Hx) as (ns' & key & info & w' & Hin & ?). exists ns', key, info, w'. split; [by apply list_elem_of_further|done].
  - cbv zeta in *. rewrite foldl_app. cbn [foldl fst snd]. destruct IH as (I1 & I2 & I3); [intros x Hx; apply Hl, elem_of_app; by left|done|].
    set (m' := foldl (fun a x => put a x.1 ns x.2) m l) in *. assert (Hki : w !! key = Some info) by (apply (Hl (key, info)), elem_of_app; right; apply list_elem_of_here).
    assert (Hsame : forall key' info' w' ns' x, no_char "." ns' -> workloads !! ns' = Some w' -> w' !! key' = Some info' -> f key' ns' info' = Some x -> m' !! listing_key key' ns' = Some x \/ (key', ns') = (key, ns) ->
      put m' key ns info !! listing_key key' ns' = Some x).
    { intros key' info' w' ns' x Hns' Hw' Hk' Hf' Hor. unfold put. destruct (decide ((key', ns') = (key, ns))) as [He|Hne].
      - injection He as -> ->. assert (w' = w) as -> by congruence. assert (info' = info) as -> by congruence. rewrite Hf'. apply lookup_insert_eq.
      - destruct Hor as [Hor|?]; [|done]. destruct (f key ns info); [|done]. rewrite lookup_insert_ne; [done|]. intros He. apply listing_key_inj in He as [-> ->]; done. }
    assert (Hin : forall ns', ns' ∈ nss -> no_char "." ns') by (apply Forall_forall, Hnss). split_and!.
    + intros k x. unfold put. destruct (f key ns info) as [y|] eqn:Ef; [|apply I1]. destruct (decide (listing_key key ns = k)) as [<-|Hne].
      * rewrite lookup_insert_eq. intros [= <-]. exists ns, key, info, w. split; [apply list_elem_of_here|done].
      * rewrite lookup_insert_ne by done. apply I1.
    + intros ns' key' info' w' x Hn Hw' Hk' Hf'. eapply Hsame; eauto.
    + intros key' info' x [Hi|Hi%list_elem_of_singleton]%elem_of_app Hf'.
      * eapply Hsame; eauto. apply (Hl (key', info')), elem_of_app. by left.
      * injection Hi as -> ->. eapply Hsame; eauto.
Qed.
Lemma each_inv nss : Forall (no_char ".") nss -> put_inv nss (eachWorkload visit workloads nss put ∅).
Proof.
  unfold eachWorkload. induction nss as [|ns nss IH] using rev_ind; intros Hd.
  - cbn [foldl]. split; [intros k x Hx; by rewrite lookup_empty in Hx|intros ns key info w x Hi; by apply not_elem_of_nil in Hi].
  - apply Forall_app in Hd as [Hd Hn]. rewrite Forall_singleton in Hn. rewrite foldl_app. cbn [foldl]. specialize (IH Hd). set (m := foldl _ ∅ nss) in *.
    destruct (workloads !! ns) as [w|] eqn:Ew.
    + destruct (put_namespace nss ns w m (visit w) Hd Hn Ew) as (I1 & I2 & I3); [|done|].
      { intros [k i] Hx. rewrite (lo_visit Hok _) in Hx. by apply elem_of_map_to_list in Hx. }
      split.
      * intros k x Hx. destruct (I1 k x Hx) as (ns' & key & info & w' & Hi & ?). exists ns', key, info, w'. split; [|done]. apply elem_of_app. apply elem_of_cons in Hi as [->|Hi]; [right; apply list_elem_of_here|by left].
      * intros ns' key info w' x [Hi|Hi%list_elem_of_singleton]%elem_of_app Hw' Hk Hf; [by eapply I2|]. subst ns'. apply (I3 key info x); [|done]. rewrite (lo_visit Hok _). apply elem_of_map_to_list. rewrite Hw' in Ew. injection Ew as <-. exact Hk.
    + destruct IH as [I1 I2]. split.
      * intros k x Hx. destruct (I1 k x Hx) as (ns' & key & info & w' & Hi & ?). exists ns', key, info, w'. split; [apply elem_of_app; by left|done].
      * intros ns' key info w' x [Hi|Hi%list_elem_of_singleton]%elem_of_app Hw' Hk Hf; [by eapply I2|]. subst ns'. congruence.
Qed.
End Exact.

(** ** What a filter names *)
(** The kinds have bits of their own: 0 for intercepts, 1 for replacements (which have no port),
    2 for ingests, 3 for wiretaps and 4 for agents. *)
Definition wanted (filter : Z) (ii : InterceptInfo) : bool :=
  match sp_NoDefaultPort (ii_Spec ii), sp_Wiretap (ii_Spec ii) with
  | true, _ => Z.testbit filter 1
  | false, true => Z.testbit filter 3
  | false, false => Z.testbit filter 0
  end.
Definition listed {G} (iMap : gmap string (list InterceptInfo)) (gMap : gmap string (list G)) (sMap : gmap string string) (filter : Z) (name : string) : Prop :=
  filter = 0 \/ (exists ii, ii ∈ default [] (iMap !! name) /\ wanted filter ii = true) \/
  (is_Some (gMap !! name) /\ Z.testbit filter 2 = true) \/ (is_Some (sMap !! name) /\ Z.testbit filter 4 = true).
Lemma filter_bit_testbit filter n : 0 <= n -> has_bit filter (2 ^ n) <-> Z.testbit filter n = true.
Proof.
  intros Hn. unfold has_bit. split.
  - intros Hb. apply not_false_is_true. intros Ht. apply Hb. apply Z.bits_inj'. intros m Hm. rewrite Z.land_spec, Z.bits_0, Z.pow2_bits_eqb by done.
    destruct (Z.eqb_spec n m) as [->|]; [by rewrite Ht|apply andb_false_r].
  - intros Ht Hb. assert (Hz : Z.testbit (Z.land filter (2 ^ n)) n = true) by (by rewrite Z.land_spec, Ht, Z.pow2_bits_true). by rewrite Hb, Z.bits_0 in Hz.
Qed.
Lemma wanted_bit filter ii : has_bit filter (engagement_bit ii) <-> wanted filter ii = true.
Proof.
  unfold wanted, engagement_bit. destruct (sp_NoDefaultPort _); [apply (filter_bit_testbit filter 1); lia|].
  destruct (sp_Wiretap _); [apply (filter_bit_testbit filter 3); lia|apply (filter_bit_testbit filter 0); lia].
Qed.
Lemma listed_selected {G} iMap (gMap : gmap string (list G)) sMap filter name : selected iMap gMap sMap filter name <-> listed iMap gMap sMap filter name.
Proof.
  unfold selected, listed. setoid_rewrite wanted_bit.
  rewrite (filter_bit_testbit filter 2 ltac:(lia) : has_bit filter ListRequest_INGESTS <-> _), (filter_bit_testbit filter 4 ltac:(lia) : has_bit filter ListRequest_INSTALLED_AGENTS <-> _). done.
Qed.

(** C15. For namespaces whose names have no dot, and the intercepts, ingests and agents that are known
    for a name of a workload (in whatever namespace: the maps that are handed in have the bare name
    as key): the list holds exactly the workloads of the given namespaces that the filter selects:
    all of them without a filter, and otherwise those for whose name there is an intercept, a
    replacement, a wiretap, an ingest or an agent of a kind that the filter names.  Each is there
    once, in the order of names, with the intercepts for its name that the filter names. *)
Theorem getInfosForWorkloads_correct {G : Type} (visit : view -> list (workloadInfoKey * workloadInfo)) (values : gmap string ListedWorkload -> list ListedWorkload)
    (sortSlice : list (@ListedWorkload G) -> list ListedWorkload) (workloads : gmap string view) (nss : list string)
    (iMap : gmap string (list InterceptInfo)) (gMap : gmap string (list G)) (sMap : gmap string string) (filter : Z) :
  listing_ok visit values sortSlice -> Forall (no_char ".") nss ->
  let l := getInfosForWorkloads visit values sortSlice workloads nss iMap gMap sMap filter in
  Sorted name_le l /\ NoDup ((fun x => (lw_WorkloadResourceType x, lw_Name x, lw_Namespace x)) <$> l) /\
  (forall x, x ∈ l -> exists ns w key info, ns ∈ nss /\ workloads !! ns = Some w /\ w !! key = Some info /\ listed iMap gMap sMap filter key.2 /\
     lw_Name x = key.2 /\ lw_Namespace x = ns /\ lw_WorkloadResourceType x = Kind_String key.1 /\ lw_Uid x = wk_uid info /\
     lw_InterceptInfo x = base.filter (fun ii => filter = 0 \/ wanted filter ii = true) (default [] (iMap !! key.2))) /\
  (forall ns w key info, ns ∈ nss -> workloads !! ns = Some w -> w !! key = Some info -> listed iMap gMap sMap filter key.2 ->
     exists x, x ∈ l /\ lw_Name x = key.2 /\ lw_Namespace x = ns /\ lw_WorkloadResourceType x = Kind_String key.1 /\ lw_Uid x = wk_uid info).
Proof.
  intros Hok Hns l. unfold getInfosForWorkloads in l. fold (put (list_one iMap gMap sMap filter)) in l.
  destruct (each_inv visit values sortSlice Hok workloads (list_one iMap gMap sMap filter) nss Hns) as [H1 H2].
  set (m := eachWorkload visit workloads nss (put (list_one iMap gMap sMap filter)) ∅) in *.
  assert (Hin : forall x, x ∈ l <-> exists k, m !! k = Some x).
  { intros x. unfold l. rewrite (lo_perm _ _ _ Hok _), (lo_values _ _ _ Hok _), list_elem_of_fmap. split.
    - intros ([k y] & -> & Hx). apply elem_of_map_to_list in Hx. by exists k.
    - intros [k Hx]. exists (k, x). split; [done|]. by apply elem_of_map_to_list. }
  assert (Hspec := list_one_spec iMap gMap sMap filter).
  assert (Hof : forall k x, m !! k = Some x -> exists ns w key info, ns ∈ nss /\ workloads !! ns = Some w /\ w !! key = Some info /\ selected iMap gMap sMap filter key.2 /\
     lw_Name x = key.2 /\ lw_Namespace x = ns /\ lw_WorkloadResourceType x = Kind_String key.1 /\ lw_Uid x = wk_uid info /\
     lw_InterceptInfo x = base.filter (fun ii => filter = 0 \/ has_bit filter (engagement_bit ii)) (default [] (iMap !! key.2)) /\ k = listing_key key ns).
  { intros k x Hx. destruct (H1 k x Hx) as (ns & key & info & w & Hn & Hw & Hk & -> & Hf). exists ns, w, key, info. destruct (Hspec key ns info) as [Hs Hns'].
    destruct (decide (selected iMap gMap sMap filter key.2)) as [Hsel|Hsel]; [|rewrite (Hns' Hsel) in Hf; done]. destruct (Hs Hsel) as (x' & Hx' & ?). assert (x' = x) as -> by congruence. naive_solver. }
  split_and!.
  - apply (lo_sorted _ _ _ Hok).
  - unfold l. rewrite (lo_perm _ _ _ Hok _), (lo_values _ _ _ Hok _), <- list_fmap_compose. apply NoDup_fmap_2_strong; [|apply NoDup_map_to_list].
    intros [k1 x1] [k2 x2] Hx1 Hx2 He. apply elem_of_map_to_list in Hx1, Hx2. cbn in He. destruct (Hof _ _ Hx1) as (n1 & w1 & [kd1 nm1] & i1 & _ & _ & _ & _ & A1 & B1 & C1 & _ & _ & ->).
    destruct (Hof _ _ Hx2) as (n2 & w2 & [kd2 nm2] & i2 & _ & _ & _ & _ & A2 & B2 & C2 & _ & _ & ->). cbn [fst snd] in *. injection He as He1 He2 He3.
    assert (nm1 = nm2) as <- by congruence. assert (n1 = n2) as <- by congruence. assert (kd1 = kd2) as <- by (apply Kind_String_inj; congruence). congruence.
  - intros x Hx. apply Hin in Hx as [k Hx]. destruct (Hof k x Hx) as (ns & w & key & info & A1 & A2 & A3 & A4 & A5 & A6 & A7 & A8 & A9 & _). exists ns, w, key, info.
    split_and!; [done..|by apply listed_selected|done|done|done|done|]. rewrite A9. apply list_filter_iff. intros ii. by rewrite wanted_bit.
  - intros ns w key info Hn Hw Hk Hsel%listed_selected. destruct (Hspec key ns info) as [Hs _]. destruct (Hs Hsel) as (x & Hx & ?). exists x. split; [|naive_solver]. apply Hin. exists (listing_key key ns). by apply (H2 ns key info w).
Qed.

(** ** No update is missed *)
Section WaitSpec.
Context (namespace name : string) (predicate : workloadInfo -> bool).
Notation steps := (rtc (wait_step namespace name predicate)).
Definition wait_inv (x : waiting) : Prop := wa_pc x = Waiting -> wa_signal x = false -> check namespace name predicate (wa_workloads x) = false.
Lemma wait_step_inv x y : wait_step namespace name predicate x y -> wait_inv x -> wait_inv y.
Proof.
  intros [x0 ns events|x0] Hi; [done|]. unfold waiter_turn, wait_inv in *. destruct (wa_pc x0) eqn:Ep; cbn.
  - destruct (check _ _ _ _) eqn:Ec; [done|]. intros _ _. done.
  - destruct (wa_signal x0) eqn:Es; cbn; [done|]. intros _ _. by apply Hi.
  - by rewrite Ep.
Qed.
End WaitSpec.

(** Whatever updates arrive, and whenever: when the workloads satisfy the predicate, the
    waiter is not blocked, and at most two more turns of its own end the wait. *)
Theorem wait_never_misses (namespace name : string) (predicate : workloadInfo -> bool) (workloads : gmap string view) (x : waiting) :
  rtc (wait_step namespace name predicate) (waitForWorkloadUpdate workloads) x ->
  check namespace name predicate (wa_workloads x) = true ->
  wa_pc (waiter_turn namespace name predicate (waiter_turn namespace name predicate x)) = Satisfied.
Proof.
  intros Hr Hc. assert (Hi : wait_inv namespace name predicate x).
  { refine (rtc_ind_r (fun y => wait_inv namespace name predicate y) (waitForWorkloadUpdate workloads) _ _ x Hr); [done|]. intros y z _ Hyz. by apply (wait_step_inv namespace name predicate y z). }
  destruct x as [ws sg pc]. unfold wait_inv in Hi. cbn [wa_workloads wa_signal wa_pc] in *. unfold waiter_turn at 2. cbn [wa_pc wa_signal wa_workloads]. destruct pc.
  - by rewrite Hc.
  - destruct sg; [|by rewrite Hi in Hc]. unfold waiter_turn. cbn. by rewrite Hc.
  - done.
Qed.

(** ** Witnesses *)
Definition sort_names {G} : list (@ListedWorkload G) -> list (@ListedWorkload G) := merge_sort name_le.
#[global] Instance name_le_dec {G} : RelDecision (@name_le G).
Proof. intros a b. unfold name_le. apply _. Defined.
#[global] Instance name_le_total {G} : Total (@name_le G).
Proof. intros a b. unfold name_le. apply (total String.le). Qed.
Lemma listing_sample {G} : @listing_ok G map_to_list (fun m => (map_to_list m).*2) sort_names.
Proof. constructor; intros m; [done|done|apply merge_sort_Permutation|apply Sorted_merge_sort, _]. Qed.
Definition sample_info (uid : string) : workloadInfo := mkInfoC uid StateAvailable INSTALLED [] 1 1 [].
Definition sample_workloads : gmap string view := {[ "ns" := {[ (RPC_DEPLOYMENT, "shop") := sample_info "u1"; (RPC_STATEFULSET, "db") := sample_info "u2" ]} ]}%string.
Definition sample_intercept (name : string) (wiretap : bool) : InterceptInfo :=
  mkInfo name ACTIVE (mkSpec name "alice" "shop" "ns" "" "" "" 0 "" false wiretap false [] [] [] "tcp" 0 "" "" 0).
Lemma getInfosForWorkloads_correct_witness :
  exists x, x ∈ getInfosForWorkloads map_to_list (fun m => (map_to_list m).*2) sort_names sample_workloads ["ns"%string; "ns"%string]
      {[ "shop"%string := [sample_intercept "i" false; sample_intercept "w" true] ]} (∅ : gmap string (list unit)) ∅ ListRequest_WIRETAPS /\ lw_Name x = "shop"%string.
Proof.
  destruct (getInfosForWorkloads_correct map_to_list (fun m => (map_to_list m).*2) sort_names sample_workloads ["ns"%string; "ns"%string]
    {[ "shop"%string := [sample_intercept "i" false; sample_intercept "w" true] ]} (∅ : gmap string (list unit)) ∅ ListRequest_WIRETAPS) as (_ & _ & _ & H).
  - apply listing_sample.
  - repeat constructor.
  - destruct (H "ns"%string _ (RPC_DEPLOYMENT, "shop"%string) (sample_info "u1") (list_elem_of_here _ _) eq_refl eq_refl) as (x & Hx & Hn & _).
    + right. left. exists (sample_intercept "w" true). split; [decide_it|reflexivity].
    + by exists x.
Defined.
Example listed_names :
  (fun x => (lw_Name x, ii_Id <$> lw_InterceptInfo x)) <$> getInfosForWorkloads map_to_list (fun m => (map_to_list m).*2) sort_names sample_workloads ["ns"%string; "ns"%string]
      {[ "shop"%string := [sample_intercept "i" false; sample_intercept "w" true] ]} (∅ : gmap string (list unit)) ∅ ListRequest_WIRETAPS = [("shop", ["w"])]%string.
Proof. vm_compute. reflexivity. Qed.
Definition shop_added : WorkloadEvent := mkWE' ADDED_UNSPECIFIED (mkWI RPC_DEPLOYMENT "shop" "ns" "u1" 1 1 [] RPC_AVAILABLE INSTALLED []).
Lemma wait_never_misses_witness :
  let x := update [shop_added] "ns" (waiter_turn "ns" "shop" (fun i => bool_decide (wk_agentState i = INSTALLED)) (waitForWorkloadUpdate ∅)) in
  wa_pc x = Waiting /\
  wa_pc (waiter_turn "ns" "shop" (fun i => bool_decide (wk_agentState i = INSTALLED)) (waiter_turn "ns" "shop" (fun i => bool_decide (wk_agentState i = INSTALLED)) x)) = Satisfied.
Proof.
  split; [vm_compute; reflexivity|]. apply (wait_never_misses "ns" "shop" (fun i => bool_decide (wk_agentState i = INSTALLED)) ∅).
  - eapply rtc_l; [apply WsTurn|]. eapply rtc_l; [apply WsUpdate|]. apply rtc_refl.
  - vm_compute. reflexivity.
Defined.

(** ** What the code does not mean to do *)
(** A workload that is deleted while the client is not connected stays in the client's map: the snapshot of the new stream adds, and nothing is cleared before it. *)
Example deleted_while_disconnected :
  is_Some (default ∅ (workloadsWatcher_handler "ns" [] (workloadsWatcher_handler "ns" [shop_added] ∅) !! "ns"%string) !! (RPC_DEPLOYMENT, "shop"%string)).
Proof. vm_compute. by eexists. Qed.
(** The ingest of a workload is shown with the workload of the same name in another namespace. *)
Example other_namespace_ingest :
  (fun x => (lw_Namespace x, lw_IngestInfo x)) <$>
    WorkloadInfoSnapshot map_to_list (fun m => (map_to_list m).*2) sort_names id "ns" sample_workloads [] [] [("shop", "other")]%string ["ns"%string] ListRequest_INGESTS = [("ns", ["other"])]%string.
Proof. vm_compute. reflexivity. Qed.
