(* ===== verification/UserRootd.v ===== *)
(** * The user daemon and the root daemon (src/pkg/client/userd/trafficmgr/session.go,
      src/pkg/client/rootd/grpc.go)

    The root daemon runs one session.  The user daemon connects to it, replaces a session
    that an earlier user daemon left behind, and reconnects when the connection is lost;
    generations tell a connection that is lost from one that has already been replaced. *)
From S2P Require Import Prelude.
Local Open Scope Z_scope.

(** ** The root daemon's service *)
(** The session: its id, and whether it is cancelled but not yet cleared. *)
Record service := mkSvcD { sv_session : option (string * bool) }.
(** [withSession] fails without a session and with one that is cancelled. *)
Definition withSession (s : service) : option string :=
  match sv_session s with Some (id, false) => Some id | _ => None end.
(** [created]: createSession and the initialization succeed.  The reply has the id of the session. *)
Definition Connect (created : bool) (id : string) (s : service) : service * option string :=
  match withSession s with
  | Some id' => (s, Some id')
  | None =>
      match sv_session s with
      | Some (id', _) => (s, Some id')          (* someone took the lock and created a session *)
      | None => if created then (mkSvcD (Some (id, false)), Some id) else (s, None)
      end
  end.
Definition cancelSession (s : service) : service := match withSession s with Some _ => mkSvcD None | None => s end.
Definition Disconnect (s : service) : service := cancelSession s.
Definition WaitForNetwork (ready : bool) (s : service) : bool := match withSession s with Some _ => ready | None => false end.
(** A session ends on its own: its context is cancelled, and [clearSession] follows when it
    has shut down. *)
Definition session_cancelled (s : service) : service := mkSvcD ((fun x => (x.1, true)) <$> sv_session s).
Definition clearSession (old : string) (s : service) : service :=
  match sv_session s with Some (id, _) => if bool_decide (id = old) then mkSvcD None else s | None => s end.

(** ** The user daemon's session *)
Record NetworkConfig := mkNC {
  nc_KubeFlags : list (string * string); nc_KubeconfigData : string; nc_HomeDir : string;
  nc_Namespace : string; nc_ManagerNamespace : string; nc_MappedNamespaces : list string; nc_Session : string;
  nc_SubnetViaWorkloads : list (string * string); nc_ClientConfig : string
}.
Inductive daemonClient := InProcess | OverConn (conn : nat).
Record session := mkSess {
  rootDaemon : option daemonClient;
  rootDaemonConn : option nat;
  rootDaemonConfig : option NetworkConfig;
  rootDaemonIsPodDaemon : bool;
  rootDaemonGeneration : Z;             (* uint64 *)
  ss_dialed : nat;                      (* connections that were opened, 0 .. ss_dialed - 1 *)
  ss_closed : list nat                  (* connections that were closed *)
}.
Definition next_gen (s : session) : Z := wrap 64 (rootDaemonGeneration s + 1).
Definition getRootDaemon (s : session) : option daemonClient * Z := (rootDaemon s, rootDaemonGeneration s).
Definition setRootDaemon (rd : daemonClient) (conn : option nat) (nc : option NetworkConfig) (isPodDaemon : bool) (s : session) : session * Z :=
  let oldConn := rootDaemonConn s in
  let closed := match oldConn with Some c => if bool_decide (oldConn = conn) then [] else [c] | None => [] end in
  (mkSess (Some rd) conn (match nc with Some _ => nc | None => rootDaemonConfig s end) isPodDaemon (next_gen s) (ss_dialed s) (ss_closed s ++ closed), next_gen s).
Definition close_old (s : session) : list nat := match rootDaemonConn s with Some c => [c] | None => [] end.
Definition clearRootDaemonIfGeneration (generation : Z) (s : session) : session * bool :=
  if negb (rootDaemonGeneration s =? generation) then (s, false)
  else (mkSess None None (rootDaemonConfig s) (rootDaemonIsPodDaemon s) (next_gen s) (ss_dialed s) (ss_closed s ++ close_old s), true).
Definition closeRootDaemon (s : session) : session :=
  mkSess None None None (rootDaemonIsPodDaemon s) (next_gen s) (ss_dialed s) (ss_closed s ++ close_old s).
(** What the session knows now, for a configuration that is sent again. *)
Record current := mkCurrent {
  cu_Namespace : string; cu_ManagerNamespace : string; cu_MappedNamespaces : list string; cu_sessionInfo : string;
  cu_subnetViaWorkloads : list (string * string); cu_config : string
}.
Definition rootDaemonReconnectConfig (c : current) (s : session) : option NetworkConfig * bool :=
  ((fun nc => mkNC (nc_KubeFlags nc) (nc_KubeconfigData nc) (nc_HomeDir nc) (cu_Namespace c) (cu_ManagerNamespace c) (cu_MappedNamespaces c) (cu_sessionInfo c)
      (cu_subnetViaWorkloads c) (cu_config c)) <$> rootDaemonConfig s, rootDaemonIsPodDaemon s).

Inductive connect_error := ErrDial | ErrConnect | ErrDisconnect | ErrReconnect | ErrNetwork | ErrInProcess.
(** What the environment does in one call of [connectRootDaemon]: the dial, the creation of a
    session in the first and in the second attempt, the call of [Disconnect] in between,
    which does not reach the daemon when it fails, and the network. *)
Record attempt := mkAttempt { at_dial : bool; at_create : bool; at_disconnect : bool; at_create2 : bool; at_network : bool }.
(** The loop: at most two attempts. *)
Definition connect_loop (a : attempt) (id : string) (svc : service) : service * (connect_error + unit) :=
  match Connect (at_create a) id svc with
  | (svc, None) => (svc, inl ErrConnect)
  | (svc, Some id1) =>
      if bool_decide (id1 = id) then (svc, inr tt)
      else if negb (at_disconnect a) then (svc, inl ErrDisconnect)
      else
        let svc := Disconnect svc in
        match Connect (at_create2 a) id svc with
        | (svc, None) => (svc, inl ErrConnect)
        | (svc, Some id2) => if bool_decide (id2 = id) then (svc, inr tt) else (svc, inl ErrReconnect)
        end
  end.
Definition connectRootDaemon (inProcess : bool) (a : attempt) (nc : NetworkConfig) (isPodDaemon : bool) (svc : service) (s : session) : service * session * (connect_error + Z) :=
  if inProcess then
    if at_create a && at_network a then let '(s, g) := setRootDaemon InProcess None (Some nc) isPodDaemon s in (svc, s, inr g) else (svc, s, inl ErrInProcess)
  else if negb (at_dial a) then (svc, s, inl ErrDial)
  else
    let conn := ss_dialed s in
    let opened := mkSess (rootDaemon s) (rootDaemonConn s) (rootDaemonConfig s) (rootDaemonIsPodDaemon s) (rootDaemonGeneration s) (S conn) (ss_closed s) in
    let failed := mkSess (rootDaemon s) (rootDaemonConn s) (rootDaemonConfig s) (rootDaemonIsPodDaemon s) (rootDaemonGeneration s) (S conn) (ss_closed s ++ [conn]) in
    match connect_loop a (nc_Session nc) svc with
    | (svc, inl e) => (svc, failed, inl e)
    | (svc, inr _) =>
        if WaitForNetwork (at_network a) svc then
          let '(s, g) := setRootDaemon (OverConn conn) (Some conn) (Some nc) isPodDaemon opened in (svc, s, inr g)
        else (svc, failed, inl ErrNetwork)
    end.
(** The loop of [reconnectRootDaemon].  [between] is what the root daemon does while the loop
    waits; the list ends when the session is done. *)
Fixpoint reconnect_loop (c : current) (tries : list (attempt * (service -> service))) (svc : service) (s : session) : service * session * bool :=
  match tries with
  | [] => (svc, s, false)
  | (a, between) :: tries =>
      match rootDaemonReconnectConfig c s with
      | (None, _) => (svc, s, false)
      | (Some nc, isPodDaemon) =>
          match connectRootDaemon false a nc isPodDaemon svc s with
          | (svc, s, inr _) => (svc, s, true)
          | (svc, s, inl _) => reconnect_loop c tries (between svc) s
          end
      end
  end.
Definition reconnectRootDaemon (c : current) (failedGeneration : Z) (tries : list (attempt * (service -> service))) (svc : service) (s : session) : service * session * bool :=
  if negb (snd (getRootDaemon s) =? failedGeneration) then (svc, s, false)
  else
    let '(s, cleared) := clearRootDaemonIfGeneration failedGeneration s in
    if negb cleared then (svc, s, false) else reconnect_loop c tries svc s.
(** The delay before an attempt, in milliseconds. *)
Definition next_backoff (b : Z) : Z := if b <? 5000 then Z.min (b * 2) 5000 else b.

(** [WithRootClient] refuses while the daemon reconnects. *)
Definition WithRootClient {A} (f : daemonClient -> A) (s : session) : option A := f <$> rootDaemon s.

(** ** Connecting *)
Definition steady (svc : service) : Prop := match sv_session svc with Some (_, true) => False | _ => True end.
Definition all_well (a : attempt) : Prop := at_dial a = true /\ at_create a = true /\ at_disconnect a = true /\ at_create2 a = true /\ at_network a = true.
Lemma connect_loop_ours a id svc svc' : connect_loop a id svc = (svc', inr tt) -> exists b, sv_session svc' = Some (id, b).
Proof.
  unfold connect_loop. assert (HC : forall cr x y z, Connect cr id x = (y, Some z) -> exists b, sv_session y = Some (z, b)).
  { intros cr x y z. unfold Connect, withSession. destruct (sv_session x) as [[i [|]]|] eqn:E; [intros [= <- <-]; eauto..|]. destruct cr; [|done]. intros [= <- <-]. cbn. eauto. }
  destruct (Connect (at_create a) id svc) as [svc1 [id1|]] eqn:E1; [|done]. case_bool_decide as H1; [intros [= <-]; subst id1; by eapply HC|]. destruct (negb (at_disconnect a)); [done|].
  destruct (Connect (at_create2 a) id (Disconnect svc1)) as [svc2 [id2|]] eqn:E2; [|done]. case_bool_decide as H2; [|done]. intros [= <-]. subst id2. by eapply HC.
Qed.
Lemma connect_loop_steady a id svc : steady svc -> at_create a = true -> at_disconnect a = true -> at_create2 a = true -> connect_loop a id svc = (mkSvcD (Some (id, false)), inr tt).
Proof.
  destruct svc as [[[i [|]]|]]; intros Hs H1 Hdis H2; [done| |]; unfold connect_loop, Connect, Disconnect, cancelSession, withSession; cbn.
  - case_bool_decide as Hi; [by subst|]. rewrite Hdis. cbn. rewrite H2. by rewrite bool_decide_eq_true_2.
  - rewrite H1. by rewrite bool_decide_eq_true_2.
Qed.

(** Connecting to a root daemon that is idle, runs this session or runs the session of a user
    daemon that crashed: it succeeds when nothing fails, and whenever it succeeds the root
    daemon runs this session, the session uses the new connection and its configuration, and
    the generation is a new one. *)
Theorem connectRootDaemon_correct (a : attempt) (nc : NetworkConfig) (isPod : bool) (svc : service) (s : session) :
  (steady svc -> all_well a -> exists svc' s' g, connectRootDaemon false a nc isPod svc s = (svc', s', inr g)) /\
  (forall svc' s' g, connectRootDaemon false a nc isPod svc s = (svc', s', inr g) ->
     withSession svc' = Some (nc_Session nc) /\ getRootDaemon s' = (Some (OverConn (ss_dialed s)), g) /\ rootDaemonConn s' = Some (ss_dialed s) /\
     rootDaemonConfig s' = Some nc /\ g = next_gen s) /\
  (forall svc' s' e, connectRootDaemon false a nc isPod svc s = (svc', s', inl e) ->
     getRootDaemon s' = getRootDaemon s /\ rootDaemonConn s' = rootDaemonConn s /\ rootDaemonConfig s' = rootDaemonConfig s /\ ss_closed s ⊆ ss_closed s' /\ (ss_dialed s' = S (ss_dialed s) -> ss_dialed s ∈ ss_closed s')).
Proof.
  unfold connectRootDaemon. split_and!.
  - intros Hs (H1 & H2 & Hdis & H3 & H4). rewrite H1. cbn [negb]. rewrite connect_loop_steady by done. unfold WaitForNetwork, withSession. cbn. rewrite H4. eauto.
  - intros svc' s' g. destruct (negb (at_dial a)); [done|]. destruct (connect_loop _ _ _) as [svc1 [e|[]]] eqn:El; [done|]. destruct (connect_loop_ours _ _ _ _ El) as [b Hb].
    unfold WaitForNetwork, withSession. rewrite Hb. destruct b; [done|]. destruct (at_network a); [|done]. cbn. intros [= <- <- <-]. cbn. by rewrite Hb.
  - intros svc' s' e. destruct (negb (at_dial a)); [intros [= <- <- <-]; split_and!; [done..|lia]|]. destruct (connect_loop _ _ _) as [svc1 [e1|[]]] eqn:El.
    + intros [= <- <- <-]. split_and!; [done|done|done|cbn; set_solver|]. intros _. apply elem_of_app. right. apply list_elem_of_here.
    + destruct (WaitForNetwork _ _); [done|]. intros [= <- <- <-]. split_and!; [done|done|done|cbn; set_solver|]. intros _. apply elem_of_app. right. apply list_elem_of_here.
Qed.

(** ** Reconnecting *)
Lemma reconnect_loop_ok c nc0 tries svc s :
  rootDaemonConfig s = Some nc0 -> steady svc -> (forall a b, (a, b) ∈ tries -> forall svc, steady (b svc)) -> (exists a b, (a, b) ∈ tries /\ all_well a) ->
  exists svc' s', reconnect_loop c tries svc s = (svc', s', true) /\ withSession svc' = Some (cu_sessionInfo c) /\ is_Some (rootDaemon s') /\
    rootDaemonConfig s' = Some (mkNC (nc_KubeFlags nc0) (nc_KubeconfigData nc0) (nc_HomeDir nc0) (cu_Namespace c) (cu_ManagerNamespace c) (cu_MappedNamespaces c) (cu_sessionInfo c)
      (cu_subnetViaWorkloads c) (cu_config c)) /\ rootDaemonGeneration s' = next_gen s.
Proof.
  revert svc s. induction tries as [|[a b] tries IH]; intros svc s Hc Hs Hb (a0 & b0 & Hin & Hw); [by apply not_elem_of_nil in Hin|]. cbn [reconnect_loop].
  unfold rootDaemonReconnectConfig. rewrite Hc. cbn [fmap option_fmap option_map]. set (nc := mkNC _ _ _ _ _ _ _ _ _). destruct (connectRootDaemon_correct a nc (rootDaemonIsPodDaemon s) svc s) as (H1 & H2 & H3).
  destruct (connectRootDaemon false a nc (rootDaemonIsPodDaemon s) svc s) as [[svc1 s1] [e|g]] eqn:Ec.
  - destruct (H3 _ _ _ eq_refl) as (Hg & _ & Hcfg & _). apply elem_of_cons in Hin as [[= -> ->]|Hin]; [destruct (H1 Hs Hw) as (? & ? & ? & ?); done|].
    destruct (IH (b svc1) s1) as (svc' & s' & HR & ? & ? & ? & Hgen).
    + by rewrite Hcfg.
    + by apply (Hb a b (list_elem_of_here _ _)).
    + intros a' b' Hin'. apply (Hb a' b'). by apply list_elem_of_further.
    + eauto.
    + exists svc', s'. split_and!; [done..|]. rewrite Hgen. unfold next_gen. unfold getRootDaemon in Hg. by injection Hg as _ ->.
  - destruct (H2 _ _ _ eq_refl) as (Hw1 & Hg & _ & Hcfg & Hgen). exists svc1, s1. split; [done|]. split; [done|]. unfold getRootDaemon in Hg. injection Hg as Hr Hg. split; [by rewrite Hr|]. split; [done|]. by rewrite Hg.
Qed.

(** Attempts that all fail change nothing but the connections that they open and close. *)
Lemma reconnect_loop_fails c tries svc s svc' s' : reconnect_loop c tries svc s = (svc', s', false) ->
  rootDaemon s' = rootDaemon s /\ rootDaemonConn s' = rootDaemonConn s /\ ss_closed s ⊆ ss_closed s'.
Proof.
  revert svc s. induction tries as [|[a b] tries IH]; intros svc s Hr; [injection Hr as <- <-; done|]. cbn [reconnect_loop] in Hr.
  destruct (rootDaemonReconnectConfig c s) as [[nc|] isPod]; [|injection Hr as <- <-; done].
  destruct (connectRootDaemon_correct a nc isPod svc s) as (_ & _ & H3). destruct (connectRootDaemon false a nc isPod svc s) as [[svc1 s1] [e|g]]; [|done].
  destruct (H3 _ _ _ eq_refl) as (Hg & Hcn & _ & Hcl & _). destruct (IH _ _ Hr) as (R1 & R2 & R3). unfold getRootDaemon in Hg. injection Hg as Hg _.
  split_and!; [congruence|congruence|set_solver].
Qed.

(** C13. A connection that is lost is replaced.  The loss of an earlier generation changes nothing.
    The loss of the current one clears the daemon at once, and closes its connection: until an
    attempt succeeds there is no daemon.  As soon as an attempt meets no failure the root
    daemon runs this session again, with the namespaces, subnets and configuration of now and
    the flags and credentials of the first connection.  It is assumed that the configuration
    of the first connection is there and that the root daemon, whenever it is asked to
    connect, has no session that is cancelled and has not shut down yet. *)
Theorem reconnectRootDaemon_correct (c : current) (g : Z) (tries : list (attempt * (service -> service))) (svc : service) (s : session) (nc0 : NetworkConfig) :
  rootDaemonConfig s = Some nc0 -> steady svc -> (forall a b, (a, b) ∈ tries -> forall svc, steady (b svc)) ->
  (rootDaemonGeneration s <> g -> reconnectRootDaemon c g tries svc s = (svc, s, false)) /\
  (rootDaemonGeneration s = g -> forall svc' s', reconnectRootDaemon c g tries svc s = (svc', s', false) ->
     rootDaemon s' = None /\ rootDaemonConn s' = None /\ forall conn, rootDaemonConn s = Some conn -> conn ∈ ss_closed s') /\
  (rootDaemonGeneration s = g -> (exists a b, (a, b) ∈ tries /\ all_well a) ->
     exists svc' s', reconnectRootDaemon c g tries svc s = (svc', s', true) /\ withSession svc' = Some (cu_sessionInfo c) /\ is_Some (rootDaemon s') /\
       rootDaemonGeneration s' = wrap 64 (wrap 64 (g + 1) + 1) /\
       rootDaemonConfig s' = Some (mkNC (nc_KubeFlags nc0) (nc_KubeconfigData nc0) (nc_HomeDir nc0) (cu_Namespace c) (cu_ManagerNamespace c) (cu_MappedNamespaces c) (cu_sessionInfo c)
         (cu_subnetViaWorkloads c) (cu_config c))).
Proof.
  intros Hc Hs Hb. unfold reconnectRootDaemon, getRootDaemon. cbn [snd]. split; [|split].
  - intros Hne. by destruct (Z.eqb_spec (rootDaemonGeneration s) g).
  - intros <- svc' s'. rewrite Z.eqb_refl. cbn [negb]. unfold clearRootDaemonIfGeneration. rewrite Z.eqb_refl. cbn [negb].
    intros (R1 & R2 & R3)%reconnect_loop_fails. cbn in *. split_and!; [done..|]. intros conn Hcn. apply R3. unfold close_old. rewrite Hcn. set_solver.
  - intros <- Hw. rewrite Z.eqb_refl. cbn [negb]. unfold clearRootDaemonIfGeneration. rewrite Z.eqb_refl. cbn [negb].
    destruct (reconnect_loop_ok c nc0 tries svc (mkSess None None (rootDaemonConfig s) (rootDaemonIsPodDaemon s) (next_gen s) (ss_dialed s) (ss_closed s ++ close_old s)) Hc Hs Hb Hw) as (svc' & s' & -> & ? & ? & ? & Hg).
    exists svc', s'. split_and!; try done.
Qed.

(** ** Connections *)
Inductive event := Started (inProcess : bool) (a : attempt) (nc : NetworkConfig) (isPod : bool) | Lost (c : current) (g : Z) (tries : list (attempt * (service -> service))) | Ended.
Definition event_step (x : service * session) (e : event) : service * session :=
  let '(svc, s) := x in
  match e with
  | Started inProcess a nc isPod => (connectRootDaemon inProcess a nc isPod svc s).1
  | Lost c g tries => (reconnectRootDaemon c g tries svc s).1
  | Ended => (svc, closeRootDaemon s)
  end.
(** Every connection is either the current one or closed, and closed once. *)
Record conn_inv (s : session) : Prop := mkConnInv {
  ci_nodup : NoDup (ss_closed s);
  ci_range : forall c, c ∈ ss_closed s -> (c < ss_dialed s)%nat;
  ci_split : forall c, (c < ss_dialed s)%nat -> c ∈ ss_closed s <-> rootDaemonConn s <> Some c;
  ci_current : forall c, rootDaemonConn s = Some c -> (c < ss_dialed s)%nat /\ rootDaemon s = Some (OverConn c)
}.
Lemma not_closed s c : conn_inv s -> rootDaemonConn s = Some c -> c ∉ ss_closed s.
Proof. intros [_ _ Hs Hc] Hn. destruct (Hc c Hn) as [Hl _]. rewrite (Hs c Hl). naive_solver. Qed.
(** The current connection is closed, and [conn], a new one, takes its place. *)
Lemma replace_inv s rd conn cfg pod g dialed :
  conn_inv s -> (conn = None /\ dialed = ss_dialed s \/ conn = Some (ss_dialed s) /\ dialed = S (ss_dialed s) /\ rd = Some (OverConn (ss_dialed s))) ->
  conn_inv (mkSess rd conn cfg pod g dialed (ss_closed s ++ close_old s)).
Proof.
  intros Hi Hn. assert (Hnc := not_closed s). pose proof Hi as [Hnd Hr Hs Hc]. unfold close_old. assert (Hd : (ss_dialed s <= dialed)%nat) by (destruct Hn as [[_ ->]|(_ & -> & _)]; lia).
  assert (Hfresh : ss_dialed s ∉ ss_closed s) by (intros Hin; apply Hr in Hin; lia).
  constructor; cbn [ss_closed ss_dialed rootDaemonConn rootDaemon].
  - destruct (rootDaemonConn s) as [c|] eqn:Ec; [|by rewrite app_nil_r]. apply NoDup_app. split_and!; [done| |apply NoDup_singleton]. intros x Hx ->%list_elem_of_singleton. by apply (Hnc c Hi eq_refl).
  - intros c [Hin|Hin]%elem_of_app; [apply Hr in Hin; lia|]. destruct (rootDaemonConn s) as [c'|] eqn:Ec; [|by apply not_elem_of_nil in Hin]. apply list_elem_of_singleton in Hin as ->. destruct (Hc c' eq_refl). lia.
  - intros c Hl. rewrite elem_of_app. destruct (decide (c < ss_dialed s)%nat) as [Hlt|Hge].
    + assert (Hold : c ∈ ss_closed s \/ c ∈ match rootDaemonConn s with Some c0 => [c0] | None => [] end).
      { destruct (decide (rootDaemonConn s = Some c)) as [E|E]; [right; rewrite E; apply list_elem_of_here|left; by apply Hs]. }
      split; [|done]. intros _. destruct Hn as [[-> _]|(-> & _)]; [done|]. intros [= <-]. lia.
    + destruct Hn as [[-> ->]|(-> & -> & _)]; [lia|]. assert (c = ss_dialed s) as -> by lia. split; [|done]. intros [Hin|Hin]; [done|].
      destruct (rootDaemonConn s) as [c'|] eqn:Ec; [|by apply not_elem_of_nil in Hin]. apply list_elem_of_singleton in Hin as <-. destruct (Hc _ eq_refl). lia.
  - intros c Hcn. destruct Hn as [[-> _]|(-> & -> & ->)]; [done|]. injection Hcn as <-. split; [lia|done].
Qed.
(** A connection that is opened and closed. *)
Lemma failed_inv s : conn_inv s -> conn_inv (mkSess (rootDaemon s) (rootDaemonConn s) (rootDaemonConfig s) (rootDaemonIsPodDaemon s) (rootDaemonGeneration s) (S (ss_dialed s)) (ss_closed s ++ [ss_dialed s])).
Proof.
  intros [Hnd Hr Hs Hc]. constructor; cbn [ss_closed ss_dialed rootDaemonConn rootDaemon].
  - apply NoDup_app. split_and!; [done| |apply NoDup_singleton]. intros x Hx ->%list_elem_of_singleton. apply Hr in Hx. lia.
  - intros c [Hin|Hin%list_elem_of_singleton]%elem_of_app; [apply Hr in Hin; lia|lia].
  - intros c Hl. rewrite elem_of_app, list_elem_of_singleton. destruct (decide (c = ss_dialed s)) as [->|Hne].
    + split; [|by right]. intros _ Hcn. destruct (Hc _ Hcn). lia.
    + rewrite <- Hs by lia. naive_solver.
  - intros c Hcn. destruct (Hc c Hcn). split; [lia|done].
Qed.
Lemma setRootDaemon_replaces rd conn nc isPod s : (forall c, rootDaemonConn s = Some c -> conn <> Some c) ->
  (setRootDaemon rd conn (Some nc) isPod s).1 = mkSess (Some rd) conn (Some nc) isPod (next_gen s) (ss_dialed s) (ss_closed s ++ close_old s).
Proof.
  intros Hne. unfold setRootDaemon, close_old. cbn [fst]. destruct (rootDaemonConn s) as [c|]; [|done]. rewrite bool_decide_eq_false_2; [done|]. intros He. by apply (Hne c).
Qed.
Lemma connect_inv inProcess a nc isPod svc s : conn_inv s -> conn_inv (connectRootDaemon inProcess a nc isPod svc s).1.2.
Proof.
  intros Hi. unfold connectRootDaemon. destruct inProcess.
  - destruct (_ && _); [|done]. assert (He := setRootDaemon_replaces InProcess None nc isPod s). destruct (setRootDaemon _ _ _ _ _) as [s' g]. cbn [fst snd] in *. rewrite He by done.
    apply replace_inv; [done|by left].
  - destruct (negb _); [done|]. destruct (connect_loop _ _ _) as [svc1 [e|[]]]; [by apply failed_inv|]. destruct (WaitForNetwork _ _); [|by apply failed_inv]. set (opened := mkSess _ _ _ _ _ _ _).
    assert (He := setRootDaemon_replaces (OverConn (ss_dialed s)) (Some (ss_dialed s)) nc isPod opened). destruct (setRootDaemon _ _ _ _ _) as [s' g]. cbn [fst snd] in *.
    rewrite He; [apply (replace_inv s); [done|by right]|]. intros c Hc Heq. injection Heq as Heq. destruct (ci_current s Hi c Hc). lia.
Qed.
Lemma reconnect_loop_inv c tries svc s : conn_inv s -> conn_inv (reconnect_loop c tries svc s).1.2.
Proof.
  revert svc s. induction tries as [|[a b] tries IH]; intros svc s Hi; [done|]. cbn [reconnect_loop]. destruct (rootDaemonReconnectConfig c s) as [[nc|] isPod]; [|done].
  assert (Hn := connect_inv false a nc isPod svc s Hi). destruct (connectRootDaemon false a nc isPod svc s) as [[svc1 s1] [e|g]]; [by apply IH|done].
Qed.
Lemma event_inv x e : conn_inv x.2 -> conn_inv (event_step x e).2.
Proof.
  destruct x as [svc s]. intros Hi. destruct e as [inProcess a nc isPod|c g tries|]; cbn [event_step snd] in *.
  - by apply connect_inv.
  - unfold reconnectRootDaemon. destruct (negb _); [done|]. unfold clearRootDaemonIfGeneration. destruct (negb _); [done|]. cbn [negb]. apply reconnect_loop_inv, replace_inv; [done|by left].
  - unfold closeRootDaemon. apply replace_inv; [done|by left].
Qed.
Definition newSession : session := mkSess None None None false 0 0 [].

(** C14. However connections are made, lost, replaced and closed, and whatever fails: every
    connection to the root daemon that was opened is the one in use or has been closed, and
    none is closed twice. *)
Theorem connections_not_leaked (svc : service) (evs : list event) :
  let s := (foldl event_step (svc, newSession) evs).2 in
  NoDup (ss_closed s) /\ (forall c, (c < ss_dialed s)%nat -> c ∈ ss_closed s <-> rootDaemonConn s <> Some c) /\
  (forall c, rootDaemonConn s = Some c -> rootDaemon s = Some (OverConn c)).
Proof.
  intros s. assert (Hi : conn_inv s).
  { unfold s. cut (forall x, conn_inv x.2 -> conn_inv (foldl event_step x evs).2); [intros Hx; apply Hx; constructor; cbn; [constructor|intros c Hc; by apply not_elem_of_nil in Hc|lia|done]|].
    induction evs as [|e evs IH]; intros x Hx; [done|]. cbn [foldl]. apply IH. by apply event_inv. }
  split_and!; [apply (ci_nodup s Hi)|apply (ci_split s Hi)|]. intros c Hc. apply (ci_current s Hi c Hc).
Qed.

(** ** Witnesses *)
Definition sample_nc : NetworkConfig := mkNC [("context", "dev")]%string "kubeconfig" "/home/alice" "ns" "ambassador" ["ns"%string] "session-2" [] "{}".
Definition sample_now : current := mkCurrent "ns" "ambassador" ["ns"; "other"]%string "session-2" [] "{}".
Definition no_failure : attempt := mkAttempt true true true true true.
Definition no_dial : attempt := mkAttempt false true true true true.
Definition connected : session := (connectRootDaemon false no_failure sample_nc false (mkSvcD (Some ("session-1"%string, false))) newSession).1.2.
Lemma connectRootDaemon_correct_witness :
  exists svc' s' g, connectRootDaemon false no_failure sample_nc false (mkSvcD (Some ("session-1"%string, false))) newSession = (svc', s', inr g) /\ withSession svc' = Some "session-2"%string.
Proof.
  destruct (connectRootDaemon_correct no_failure sample_nc false (mkSvcD (Some ("session-1"%string, false))) newSession) as (H1 & H2 & _).
  destruct H1 as (svc' & s' & g & He); [exact I|split_and!; reflexivity|]. exists svc', s', g. split; [exact He|]. apply (H2 svc' s' g He).
Defined.
Lemma reconnectRootDaemon_correct_witness :
  exists svc' s', reconnectRootDaemon sample_now 1 [(no_dial, id); (no_failure, fun _ => mkSvcD None)] (mkSvcD None) connected = (svc', s', true) /\ rootDaemonGeneration s' = 3.
Proof.
  destruct (reconnectRootDaemon_correct sample_now 1 [(no_dial, fun _ => mkSvcD None); (no_failure, fun _ => mkSvcD None)] (mkSvcD None) connected sample_nc) as (_ & _ & H).
  - reflexivity.
  - exact I.
  - intros a b [[= -> ->]|[[= -> ->]|Hn%not_elem_of_nil]%elem_of_cons]%elem_of_cons svc; [exact I|exact I|done].
  - destruct H as (svc' & s' & He & _ & _ & Hg & _); [reflexivity| |exists svc', s'; split; [exact He|exact Hg]].
    exists no_failure, (fun _ => mkSvcD None). split; [apply list_elem_of_further, list_elem_of_here|split_and!; reflexivity].
Defined.

(** A session that is cancelled but not yet cleared is reported as the running one, and
    [Disconnect] does not clear it: connecting fails until it has shut down. *)
Example dying_session_refuses :
  (connectRootDaemon false no_failure sample_nc false (mkSvcD (Some ("session-1"%string, true))) newSession).2 = inl ErrReconnect /\
  (connectRootDaemon false no_failure sample_nc false (mkSvcD (Some ("session-2"%string, true))) newSession).2 = inl ErrNetwork.
Proof. split; vm_compute; reflexivity. Qed.
