(* ===== verification/UserNamespaces.v ===== *)
(** * Namespaces of the client (src/pkg/client/k8s/cluster.go, src/pkg/maps/utils.go,
      src/pkg/client/userd/trafficmgr/mapped_namespaces.go and session.go)

    The client maps a set of namespaces: those of the request, of the configuration or of
    the traffic-manager, and all of the cluster when there are none.  A watcher keeps a
    snapshot of the cluster's namespaces; [refreshNamespaces] derives the current ones from
    it, with the client's access to each, and tells the listeners.  The access of the client
    is a parameter. *)
From S2P Require Import Prelude NetIP GoStrings.
From Stdlib Require Import Ascii.
Local Open Scope Z_scope.

(** ** maps.Equal, on maps whose values have the zero value [zero] *)
Definition maps_Equal {V} `{EqDecision V} (zero : V) (a b : gmap string V) : bool :=
  Nat.eqb (size a) (size b) && forallb (fun kv => bool_decide (kv.2 = default zero (b !! kv.1))) (map_to_list a).

(** ** Mapped namespaces *)
Definition mappedNamespacesAll (namespaces : list string) : bool := bool_decide (namespaces = ["all"%string]).
(** slices.Compact: of equal neighbours the first is kept. *)
Fixpoint Compact (l : list string) : list string :=
  match l with
  | [] => []
  | x :: l => match Compact l with
              | [] => [x]
              | y :: r => if bool_decide (x = y) then y :: r else x :: y :: r
              end
  end.
Definition sort_Strings (l : list string) : list string := merge_sort String.le l.
Definition normalizeMappedNamespaces (namespaces : list string) : list string * bool :=
  if mappedNamespacesAll namespaces then ([], true) else (Compact (sort_Strings namespaces), false).
Definition effectiveMappedNamespaces (requestedNamespaces clientNamespaces managerNamespaces : list string) : list string :=
  let '(requested, requestedAll) := normalizeMappedNamespaces requestedNamespaces in
  let '(client, clientAll) := normalizeMappedNamespaces clientNamespaces in
  let '(manager, _) := normalizeMappedNamespaces managerNamespaces in
  if requestedAll then manager
  else if negb (Nat.eqb (length requested) 0) then requested
  else if clientAll then manager
  else if negb (Nat.eqb (length client) 0) then client
  else manager.

(** ** The cluster *)
Record Cluster := mkCluster {
  kc_Namespace : string;                          (* of the kube context *)
  kc_MappedNamespaces : list string;
  kc_namespaceWatcherSnapshot : option (gset string);
  kc_currentMappedNamespaces : gmap string bool;  (* with the access *)
  kc_notified : nat                               (* how often the listeners were called *)
}.
Section Access.
Context (canAccessNS : string -> bool).
Definition shouldBeWatched (kc : Cluster) (ns : string) : bool :=
  Nat.eqb (length (kc_MappedNamespaces kc)) 0 || bool_decide (ns ∈ kc_MappedNamespaces kc).
Definition candidates (kc : Cluster) : list string :=
  match kc_namespaceWatcherSnapshot kc with
  | None => if Nat.eqb (length (kc_MappedNamespaces kc)) 0 then [kc_Namespace kc] else kc_MappedNamespaces kc
  | Some snapshot => base.elements snapshot
  end.
Definition refreshed (kc : Cluster) : gmap string bool :=
  foldl (fun m ns => if shouldBeWatched kc ns then <[ns := match kc_currentMappedNamespaces kc !! ns with Some accessOk => accessOk | None => canAccessNS ns end]> m else m) ∅ (candidates kc).
Definition refreshNamespaces (kc : Cluster) : Cluster :=
  let namespaces := refreshed kc in
  if maps_Equal false namespaces (kc_currentMappedNamespaces kc) then kc
  else mkCluster (kc_Namespace kc) (kc_MappedNamespaces kc) (kc_namespaceWatcherSnapshot kc) namespaces (S (kc_notified kc)).
Definition SetMappedNamespaces (namespaces : list string) (kc : Cluster) : Cluster * bool :=
  let namespaces := sort_Strings namespaces in
  if negb (bool_decide (namespaces = kc_MappedNamespaces kc)) then
    (refreshNamespaces (mkCluster (kc_Namespace kc) namespaces (kc_namespaceWatcherSnapshot kc) (kc_currentMappedNamespaces kc) (kc_notified kc)), true)
  else (kc, false).
Definition namespaceAccessible (kc : Cluster) (namespace : string) : bool := default false (kc_currentMappedNamespaces kc !! namespace).
Definition ActualNamespace (kc : Cluster) (namespace : string) : string :=
  let namespace := if bool_decide (namespace = EmptyString) then kc_Namespace kc else namespace in
  if namespaceAccessible kc namespace then namespace else EmptyString.
Definition GetCurrentNamespaces (forClientAccess : bool) (kc : Cluster) : list string :=
  sort_Strings (if forClientAccess then (filter (fun kv : string * bool => kv.2 = true) (map_to_list (kc_currentMappedNamespaces kc))).*1
                else (map_to_list (kc_currentMappedNamespaces kc)).*1).

(** The events of the watcher; a refresh follows when it has been quiet. *)
Inductive ns_event := NsAdded (ns : string) | NsModified (ns : string) | NsDeleted (ns : string) | NsOther.
Definition set_snapshot (f : gset string -> gset string) (kc : Cluster) : Cluster :=
  mkCluster (kc_Namespace kc) (kc_MappedNamespaces kc) (f <$> kc_namespaceWatcherSnapshot kc) (kc_currentMappedNamespaces kc) (kc_notified kc).
Definition StartNamespaceWatcher (kc : Cluster) : Cluster :=
  mkCluster (kc_Namespace kc) (kc_MappedNamespaces kc) (Some ∅) (kc_currentMappedNamespaces kc) (kc_notified kc).
Definition namespacesEventHandler (ev : ns_event) (kc : Cluster) : Cluster :=
  match ev with
  | NsDeleted ns => set_snapshot (fun s => s ∖ {[ ns ]}) kc
  | NsAdded ns | NsModified ns => set_snapshot (fun s => {[ ns ]} ∪ s) kc
  | NsOther => kc
  end.

(** [determineTrafficManagerNamespace]: [found] is the lookup of the manager's service. *)
Definition defaultManagerNamespace : string := "ambassador".
Definition determineTrafficManagerNamespace (found : string -> bool) (canGetDefault : bool) (kc : Cluster) : option string :=
  match list_find (fun ns => found ns = true) (GetCurrentNamespaces true kc) with
  | Some (_, ns) => Some ns
  | None => if canGetDefault then Some defaultManagerNamespace else if canAccessNS (kc_Namespace kc) then Some (kc_Namespace kc) else None
  end.

(** [updateClientConfig], as far as namespaces are concerned.  [fromManager]: the mapped
    namespaces of the traffic-manager's configuration, when it has one. *)
Definition updateClientConfig (canWatch : bool) (requested client : list string) (fromManager : option (list string)) (kc : Cluster) : Cluster :=
  match fromManager with
  | None => kc
  | Some manager =>
      let namespaces := effectiveMappedNamespaces requested client manager in
      let '(kc, changed) := SetMappedNamespaces namespaces kc in
      if changed && Nat.eqb (length namespaces) 0 && canWatch then StartNamespaceWatcher kc else kc
  end.
(** [NewCluster], as far as namespaces are concerned. *)
Definition NewCluster (canWatch : bool) (namespace : string) (namespaces config : list string) : Cluster :=
  let namespaces := if mappedNamespacesAll namespaces then [] else namespaces in
  let namespaces := if Nat.eqb (length namespaces) 0 then config else namespaces in
  let kc := mkCluster namespace [] None ∅ 0 in
  if Nat.eqb (length namespaces) 0 then if canWatch then StartNamespaceWatcher kc else kc
  else (SetMappedNamespaces namespaces kc).1.
End Access.

(** The top-level domains that [updateDaemonNamespaces] posts. *)
Definition daemon_domains (kc : Cluster) : list string :=
  let domains := GetCurrentNamespaces false kc in
  if bool_decide ("svc"%string ∈ domains) then domains else domains ++ ["svc"%string].

(** ** CheckStatus *)
Record Kubeconfig := mkKube { kf_KubeContext : string; kf_Server : string; kf_EffectiveFlagMap : gmap string string }.
Definition ContextServiceAndFlagsEqual (a b : option Kubeconfig) : bool :=
  match a, b with
  | Some kf, Some okf => bool_decide (kf_KubeContext kf = kf_KubeContext okf) && bool_decide (kf_Server kf = kf_Server okf) &&
      maps_Equal EmptyString (kf_EffectiveFlagMap kf) (kf_EffectiveFlagMap okf)
  | _, _ => false
  end.
(** DaemonKubeconfig, as far as it changes the environment of the process. *)
Definition apply_env (env : gmap string string) (kv : string * string) : gmap string string :=
  match kv.1 with String "-" name => delete name env | _ => <[kv.1 := kv.2]> env end.
Definition DaemonKubeconfig_env (isPodDaemon inContainer : bool) (rqEnv : list (string * string)) (env : gmap string string) : list (string * string) * gmap string string :=
  if isPodDaemon then (rqEnv, env)
  else
    let rqEnv := if inContainer then filter (fun kv : string * string => kv.1 <> "KUBECONFIG"%string) rqEnv else rqEnv in
    (rqEnv, foldl apply_env env rqEnv).
(** The comparison of the variables of the request, in the order of a range.  A name that
    starts with a dash asks for the variable to be unset; [k[:1]] is its first byte.
    [None]: the name is empty, and the code panics. *)
Fixpoint env_equal (env : gmap string string) (rqEnv : list (string * string)) : option bool :=
  match rqEnv with
  | [] => Some true
  | (EmptyString, _) :: _ => None
  | (String "-" name, _) :: rest => if bool_decide (env !! str_take 1 (String "-" name) = None) then env_equal env rest else Some false
  | (k, v) :: rest => if bool_decide (env !! k = Some v) then env_equal env rest else Some false
  end.
(** The state of the session, and the request.  [cr_config]: what DaemonKubeconfig makes of
    the request, [None] when it fails. *)
Record Status := mkStatusN { ss_Kubeconfig : option Kubeconfig; ss_MappedNamespaces : list string; ss_subnetViaWorkloads : list (string * string) }.
Record ConnectRequest := mkCR {
  cr_config : option Kubeconfig; cr_MappedNamespaces : list string; cr_Environment : list (string * string); cr_SubnetViaWorkloads : list (string * string); cr_IsPodDaemon : bool
}.
Definition CheckStatus (s : Status) (cr : ConnectRequest) (inContainer : bool) (env : gmap string string) : option bool :=
  let '(rqEnv, env) := DaemonKubeconfig_env (cr_IsPodDaemon cr) inContainer (cr_Environment cr) env in
  let config := match cr_config cr with Some c => Some c | None => ss_Kubeconfig s end in
  let rqMapped := if mappedNamespacesAll (cr_MappedNamespaces cr) then [] else cr_MappedNamespaces cr in
  if Nat.eqb (length rqMapped) 0 || bool_decide (rqMapped = ss_MappedNamespaces s) then
    envEQ ← env_equal env rqEnv;
    Some (envEQ && ContextServiceAndFlagsEqual (ss_Kubeconfig s) config && bool_decide (ss_subnetViaWorkloads s = cr_SubnetViaWorkloads cr))
  else Some false.

(** ** Effective namespaces *)
Lemma Compact_elem l x : x ∈ Compact l <-> x ∈ l.
Proof.
  induction l as [|y l IH]; [done|]. cbn [Compact]. rewrite elem_of_cons, <- IH. destruct (Compact l) as [|z r] eqn:E; [by rewrite elem_of_cons|].
  case_bool_decide as Hd; [subst z; rewrite elem_of_cons; naive_solver|by rewrite elem_of_cons].
Qed.
Lemma Compact_sorted l : StronglySorted String.le l -> StronglySorted String.le (Compact l) /\ NoDup (Compact l).
Proof.
  induction l as [|x l IH]; intros Hs; [split; constructor|]. apply StronglySorted_inv in Hs as [Hs Hx]. destruct (IH Hs) as [H1 H2]. cbn [Compact].
  destruct (Compact l) as [|y r] eqn:E; [split; [by repeat constructor|apply NoDup_singleton]|]. case_bool_decide as Hd; [done|]. split.
  - constructor; [done|]. apply Forall_forall. intros z Hz. rewrite Forall_forall in Hx. apply Hx. apply Compact_elem. by rewrite E.
  - constructor; [|done]. intros Hin. apply Hd. assert (Hxl : x ∈ l) by (apply Compact_elem; by rewrite E). assert (Hyl : y ∈ l) by (apply Compact_elem; rewrite E; apply list_elem_of_here).
    rewrite Forall_forall in Hx. apply (anti_symm String.le); [by apply Hx|]. apply StronglySorted_inv in H1 as [_ Hy]. rewrite Forall_forall in Hy.
    apply elem_of_cons in Hin as [->|Hin]; [done|by apply Hy].
Qed.
Lemma normalize_spec l : StronglySorted String.le (normalizeMappedNamespaces l).1 /\ NoDup (normalizeMappedNamespaces l).1 /\
  forall x, x ∈ (normalizeMappedNamespaces l).1 <-> mappedNamespacesAll l = false /\ x ∈ l.
Proof.
  unfold normalizeMappedNamespaces. destruct (mappedNamespacesAll l); cbn [fst].
  - split_and!; [constructor|constructor|]. intros x. split; [intros Hx; by apply not_elem_of_nil in Hx|by intros []].
  - destruct (Compact_sorted (sort_Strings l)) as [H1 H2]; [apply StronglySorted_merge_sort; apply _|]. split_and!; [done|done|]. intros x. rewrite Compact_elem. unfold sort_Strings. rewrite merge_sort_Permutation. naive_solver.
Qed.
(** An explicit choice: not empty, and not "all". *)
Definition explicit (l : list string) : bool := negb (mappedNamespacesAll l) && negb (Nat.eqb (length l) 0).
Lemma normalize_explicit l : (normalizeMappedNamespaces l).2 = mappedNamespacesAll l /\ negb (Nat.eqb (length (normalizeMappedNamespaces l).1) 0) = explicit l.
Proof.
  assert (Hs := normalize_spec l). unfold normalizeMappedNamespaces in *. unfold explicit. destruct (mappedNamespacesAll l); [done|]. cbn [fst snd] in *. split; [done|]. cbn [negb andb]. destruct Hs as (_ & _ & Hs).
  destruct l as [|x l]; [done|]. cbn [length Nat.eqb negb]. destruct (Compact (sort_Strings (x :: l))) as [|y r] eqn:E; [|done]. exfalso. apply (not_elem_of_nil x). apply Hs. split; [done|apply list_elem_of_here].
Qed.

(** The namespaces of the request come first, then those of the client's configuration, then
    those of the traffic-manager; "all" in the request or in the configuration leaves it to the
    traffic-manager.  The result is sorted and without duplicates; it is empty, which stands
    for all namespaces, only when nothing is chosen. *)
Theorem effectiveMappedNamespaces_correct (requested client manager : list string) :
  let r := effectiveMappedNamespaces requested client manager in
  let chosen := if explicit requested then requested
                else if negb (mappedNamespacesAll requested) && explicit client then client
                else if mappedNamespacesAll manager then [] else manager in
  StronglySorted String.le r /\ NoDup r /\ forall ns, ns ∈ r <-> ns ∈ chosen.
Proof.
  unfold effectiveMappedNamespaces. destruct (normalize_explicit requested) as [Hr1 Hr2], (normalize_explicit client) as [Hc1 Hc2].
  destruct (normalize_spec requested) as (R1 & R2 & R3), (normalize_spec client) as (C1 & C2 & C3), (normalize_spec manager) as (M1 & M2 & M3).
  destruct (normalizeMappedNamespaces requested) as [r ra], (normalizeMappedNamespaces client) as [c ca], (normalizeMappedNamespaces manager) as [m ma]. cbn [fst snd] in *. subst ra ca.
  assert (Hm : forall ns, ns ∈ m <-> ns ∈ if mappedNamespacesAll manager then [] else manager).
  { intros ns. rewrite M3. destruct (mappedNamespacesAll manager); [|naive_solver]. split; [by intros []|intros Hn; by apply not_elem_of_nil in Hn]. }
  rewrite Hr2, Hc2. unfold explicit in *. destruct (mappedNamespacesAll requested) eqn:Ea; cbn [negb andb]; [done|]. destruct (negb (Nat.eqb (length requested) 0)) eqn:Er; [split_and!; [done|done|]; naive_solver|].
  destruct (mappedNamespacesAll client) eqn:Eb; cbn [negb andb]; [done|]. destruct (negb (Nat.eqb (length client) 0)) eqn:Ec; [split_and!; [done|done|]; naive_solver|done].
Qed.

(** ** Refreshing *)
Lemma maps_Equal_refl {V} `{EqDecision V} zero (m : gmap string V) : maps_Equal zero m m = true.
Proof.
  unfold maps_Equal. rewrite Nat.eqb_refl. cbn [andb]. apply forallb_forall. intros [k v] Hin. apply list_elem_of_In, elem_of_map_to_list in Hin. cbn. by rewrite Hin, bool_decide_eq_true_2.
Qed.
Lemma maps_Equal_true {V} `{EqDecision V} zero (a b : gmap string V) : maps_Equal zero a b = true <-> size a = size b /\ forall k v, a !! k = Some v -> default zero (b !! k) = v.
Proof.
  unfold maps_Equal. rewrite andb_true_iff, Nat.eqb_eq, forallb_forall. split; intros [Hs Ha]; (split; [done|]).
  - intros k v Hk. assert (Hb := Ha (k, v)). cbn in Hb. symmetry. eapply bool_decide_eq_true_1, Hb, list_elem_of_In. by apply elem_of_map_to_list.
  - intros [k v] Hin. apply list_elem_of_In, elem_of_map_to_list in Hin. apply bool_decide_eq_true_2. cbn. symmetry. by apply Ha.
Qed.
(** Without zero values the comparison is exact. *)
Lemma maps_Equal_exact {V} `{EqDecision V} zero (a b : gmap string V) : (forall k, a !! k <> Some zero) -> maps_Equal zero a b = true <-> a = b.
Proof.
  intros Hz. split; [|intros ->; apply maps_Equal_refl]. intros [Hs Ha]%maps_Equal_true.
  assert (Hab : a ⊆ b). { apply map_subseteq_spec. intros k v Hk. assert (Hd := Ha k v Hk). destruct (b !! k) as [w|]; cbn in Hd; [by subst|]. subst v. by apply Hz in Hk. }
  apply map_subseteq_size_eq; [done|lia].
Qed.
Section Refresh.
Context (canAccessNS : string -> bool).
Definition access (kc : Cluster) (ns : string) : bool := match kc_currentMappedNamespaces kc !! ns with Some accessOk => accessOk | None => canAccessNS ns end.
Lemma refreshed_lookup kc ns b : refreshed canAccessNS kc !! ns = Some b <-> ns ∈ candidates kc /\ shouldBeWatched kc ns = true /\ b = access kc ns.
Proof.
  unfold refreshed. induction (candidates kc) as [|n l IH] using rev_ind.
  - cbn. rewrite lookup_empty. split; [done|]. intros [Hn _]. by apply not_elem_of_nil in Hn.
  - rewrite foldl_app. cbn [foldl]. rewrite elem_of_app, list_elem_of_singleton. destruct (shouldBeWatched kc n) eqn:Ew.
    + destruct (decide (n = ns)) as [<-|Hne].
      * rewrite lookup_insert_eq. fold (access kc n). split; [intros [= <-]; auto|by intros (_ & _ & ->)].
      * rewrite lookup_insert_ne by done. rewrite IH. split; [intros (H1 & H2 & H3); auto|intros ([H1|H1] & H2 & H3); [auto|congruence]].
    + rewrite IH. split; [intros (H1 & H2 & H3); auto|intros ([H1|H1] & H2 & H3); [auto|congruence]].
Qed.
End Refresh.

(** A refresh: the namespaces that the client can use after it include every accessible one
    among those that are watched; when the client has access to all of them the current ones
    are exactly those; and the listeners are called exactly when the current ones change. *)
Theorem refreshNamespaces_correct (canAccessNS : string -> bool) (kc : Cluster) :
  let kc' := refreshNamespaces canAccessNS kc in
  let wanted ns := ns ∈ candidates kc /\ shouldBeWatched kc ns = true in
  (forall ns, wanted ns -> access canAccessNS kc ns = true -> namespaceAccessible kc' ns = true) /\
  ((forall ns, wanted ns -> access canAccessNS kc ns = true) -> forall ns, namespaceAccessible kc' ns = true <-> wanted ns) /\
  (kc_notified kc' = if decide (kc_currentMappedNamespaces kc' = kc_currentMappedNamespaces kc) then kc_notified kc else S (kc_notified kc)).
Proof.
  assert (Hl := refreshed_lookup canAccessNS kc). cbv zeta. unfold refreshNamespaces. set (m := refreshed canAccessNS kc) in *.
  destruct (maps_Equal false m (kc_currentMappedNamespaces kc)) eqn:E; unfold namespaceAccessible; cbn [kc_currentMappedNamespaces kc_notified].
  - split_and!.
    + intros ns [H1 H2] Ha. apply maps_Equal_true in E as [_ E]. apply E. apply Hl. by rewrite Ha.
    + intros Hall ns. assert (Hm : m = kc_currentMappedNamespaces kc).
      { apply (maps_Equal_exact false); [|done]. intros k Hk. apply Hl in Hk as (H1 & H2 & H3). by rewrite Hall in H3. }
      rewrite <- Hm. split.
      * intros Hn. destruct (m !! ns) as [b|] eqn:Em; [|done]. apply Hl in Em as (H1 & H2 & _). done.
      * intros [H1 H2]. assert (Hs : m !! ns = Some true) by (apply Hl; split_and!; [done|done|]; by rewrite Hall). by rewrite Hs.
    + by rewrite decide_True.
  - split_and!.
    + intros ns [H1 H2] Ha. assert (Hs : m !! ns = Some true) by (apply Hl; by rewrite Ha). by rewrite Hs.
    + intros Hall ns. split.
      * intros Hn. destruct (m !! ns) as [b|] eqn:Em; [|done]. apply Hl in Em as (H1 & H2 & _). done.
      * intros [H1 H2]. assert (Hs : m !! ns = Some true) by (apply Hl; split_and!; [done|done|]; by rewrite Hall). by rewrite Hs.
    + rewrite decide_False; [done|]. intros He. by rewrite He, maps_Equal_refl in E.
Qed.

(** ** What the code does not mean to do *)
(** The client maps a namespace that it cannot access instead of one that it can: the maps are found equal, and it keeps the old one. *)
Example inaccessible_namespace_not_mapped :
  let can ns := bool_decide (ns = "a"%string) in
  let kc := NewCluster can false "default" ["a"%string] [] in
  let kc' := (SetMappedNamespaces can ["b"%string] kc).1 in
  kc_MappedNamespaces kc' = ["b"%string] /\ GetCurrentNamespaces true kc' = ["a"%string] /\ ActualNamespace kc' "a" = "a"%string.
Proof. split_and!; vm_compute; reflexivity. Qed.
(** Access that is granted later is not noticed. *)
Example access_is_remembered :
  let kc := NewCluster (fun _ => false) false "default" ["a"%string] [] in
  namespaceAccessible (refreshNamespaces (fun _ => true) kc) "a" = false.
Proof. vm_compute. reflexivity. Qed.
(** Two sets of flags that differ in a flag without value are found equal. *)
Example empty_flags_ignored :
  ContextServiceAndFlagsEqual (Some (mkKube "c" "s" {[ "user" := "" ]}%string)) (Some (mkKube "c" "s" {[ "cluster" := "" ]}%string)) = true.
Proof. vm_compute. reflexivity. Qed.
(** The request's environment is applied before it is compared: a change is never seen. *)
Example environment_change_unnoticed :
  let s := mkStatusN (Some (mkKube "c" "s" ∅)) [] [] in
  let cr := mkCR (Some (mkKube "c" "s" ∅)) [] [("HTTPS_PROXY", "new")]%string [] false in
  CheckStatus s cr false {[ "HTTPS_PROXY" := "old" ]}%string = Some true.
Proof. vm_compute. reflexivity. Qed.
(** The variable that must be unset is looked up by the first byte of its name, the dash. *)
Example unset_variable_not_looked_up :
  env_equal {[ "HTTPS_PROXY" := "old" ]}%string [("-HTTPS_PROXY", "")]%string = Some true.
Proof. vm_compute. reflexivity. Qed.
