(* ===== verification/ClusterWatch.v ===== *)
(** * What the traffic-manager knows of the cluster (src/cmd/traffic/cmd/manager/cluster)

    The traffic-manager derives the subnets of pods from the pods' addresses
    (podwatcher.go) or from the nodes (nodewatcher.go), puts them in a cluster info
    (info.go) and sends that to the clients that subscribe (subscriber.go).  The events of
    the Kubernetes informers, the answers of the API server and the order in which Go
    visits a map are arguments; the timer function and the delivery that it blocks on are
    one step. *)
From S2P Require Import Prelude NetIP GoStrings NetParse Subnet SubnetSet IpUtil SessionRoutes.

(** ** Differences of two slices

    [getIPsDelta] and [getSubnetsDelta] are the same code at two types.  An element that
    is found is overwritten by the last one and the slice gets shorter. *)
Section Delta.
Context {A : Type} `{EqDecision A}.

Definition swap_remove (i : nat) (l : list A) : list A :=
  match last l with
  | Some z => take (length l - 1) (<[i := z]> l)
  | None => l
  end.
Fixpoint delta_loop (news olds added : list A) : list A * list A :=
  match news with
  | [] => (added, olds)
  | n :: news =>
      match list_find (fun o => n = o) olds with
      | Some (oi, _) => delta_loop news (swap_remove oi olds) added
      | None => delta_loop news olds (added ++ [n])
      end
  end.
Definition getDelta (olds news : list A) : list A * list A :=
  if Nat.eqb (length olds) 0 then (news, []) else delta_loop news olds [].
End Delta.
Definition getIPsDelta : list Addr -> list Addr -> list Addr * list Addr := getDelta.
Definition getSubnetsDelta : list Prefix -> list Prefix -> list Prefix * list Prefix := getDelta.

(** ** Addresses of pods *)
Record KPod := mkKPod { kp_Namespace : string; kp_PodIPs : list string; kp_PodIP : string }.
Definition podIPs (pod : KPod) : list Addr :=
  if bool_decide (kp_Namespace pod = "kube-system"%string) then []
  else omap ParseAddr (if Nat.eqb (length (kp_PodIPs pod)) 0
                       then (if bool_decide (kp_PodIP pod = ""%string) then [] else [kp_PodIP pod])
                       else kp_PodIPs pod).

(** [pw_armed]: the timer has been reset and has not fired yet. *)
Record podWatcher := mkPW { ipsMap : gset Addr; pw_armed : bool; oldSubnets : Set_; pw_informers : gset string; pw_handlers : gset string }.
Definition newPodWatcher (managerIP : Addr) : podWatcher := mkPW {[ managerIP ]} false ∅ ∅ ∅.
Definition set_ips (ips : gset Addr) (changed : bool) (w : podWatcher) : podWatcher :=
  mkPW ips (pw_armed w || changed) (oldSubnets w) (pw_informers w) (pw_handlers w).

Definition add_ip (acc : gset Addr * bool) (ip : Addr) : gset Addr * bool :=
  if bool_decide (ip ∈ acc.1) then acc else ({[ ip ]} ∪ acc.1, true).
Definition drop_ip (acc : gset Addr * bool) (ip : Addr) : gset Addr * bool :=
  if bool_decide (ip ∈ acc.1) then (acc.1 ∖ {[ ip ]}, true) else acc.
Definition addLocked (ips : list Addr) (w : podWatcher) : podWatcher :=
  let '(m, changed) := foldl add_ip (ipsMap w, false) ips in set_ips m changed w.
Definition dropLocked (ips : list Addr) (w : podWatcher) : podWatcher :=
  let '(m, changed) := foldl drop_ip (ipsMap w, false) ips in set_ips m changed w.

Definition onPodAdded (pod : KPod) (w : podWatcher) : podWatcher :=
  if Nat.eqb (length (podIPs pod)) 0 then w else addLocked (podIPs pod) w.
Definition onPodDeleted (pod : KPod) (w : podWatcher) : podWatcher :=
  if Nat.eqb (length (podIPs pod)) 0 then w else dropLocked (podIPs pod) w.
Definition onPodUpdated (oldPod newPod : KPod) (w : podWatcher) : podWatcher :=
  let '(added, dropped) := getIPsDelta (podIPs oldPod) (podIPs newPod) in
  if negb (Nat.eqb (length added) 0) then
    if negb (Nat.eqb (length dropped) 0) then addLocked added (dropLocked dropped w) else addLocked added w
  else if negb (Nat.eqb (length dropped) 0) then dropLocked dropped w else w.

(** The timer's function: what is sent, if anything.  [ips] are the keys of the map in the
    order of the iteration. *)
Definition sendIfChanged (ips : list Addr) (w : podWatcher) : podWatcher * option Set_ :=
  let newSubnets := NewSet (CoveringPrefixes ips) in
  let w' old := mkPW (ipsMap w) false old (pw_informers w) (pw_handlers w) in
  if negb (set_Equals newSubnets (oldSubnets w)) then (w' newSubnets, Some newSubnets) else (w' (oldSubnets w), None).

(** [refreshWatchers]: handlers for the namespaces [nss].  [addOK] and [removeOK] tell
    whether the informer accepts; [pw_handlers] are the namespaces whose events arrive. *)
Definition refreshWatchers (addOK removeOK : string -> bool) (nss : list string) (w : podWatcher) : podWatcher :=
  let new : gset string := list_to_set (filter (fun ns => ns ∉ pw_informers w /\ addOK ns = true) nss) in
  let informers := new ∪ pw_informers w in
  let gone : gset string := filter (fun ns => ns ∉ nss /\ removeOK ns = true) informers in
  mkPW (ipsMap w) (pw_armed w) (oldSubnets w) informers ((new ∪ pw_handlers w) ∖ gone).

(** ** Subnets of nodes *)
Inductive ConditionStatus := ConditionTrue | ConditionFalse | ConditionUnknown.
Global Instance ConditionStatus_eq_dec : EqDecision ConditionStatus.
Proof. solve_decision. Defined.
Record NodeCondition := mkCond { nc_Type : string; nc_Status : ConditionStatus; nc_LastTransitionTime : Z }.
Record KNode := mkNode { kn_Conditions : list NodeCondition; kn_PodCIDRs : list string; kn_PodCIDR : string }.

Definition compareNodeConditions (a b : NodeCondition) : Z :=
  if negb (nc_LastTransitionTime a =? nc_LastTransitionTime b) then
    (if nc_LastTransitionTime a <? nc_LastTransitionTime b then -1 else 1)
  else if bool_decide (nc_Status a = nc_Status b) then 0
  else if bool_decide (nc_Status a = ConditionTrue) then 1 else -1.
Definition later_cond (last : option NodeCondition) (cond : NodeCondition) : option NodeCondition :=
  if bool_decide (nc_Type cond = "Ready"%string) &&
     match last with None => true | Some l => 0 <? compareNodeConditions cond l end
  then Some cond else last.
Definition nodeReady (node : KNode) : bool :=
  match foldl later_cond None (kn_Conditions node) with
  | Some l => bool_decide (nc_Status l = ConditionTrue)
  | None => false
  end.
Definition nodeSubnets (node : KNode) : list Prefix :=
  if negb (nodeReady node) then []
  else omap ParsePrefix (if Nat.eqb (length (kn_PodCIDRs node)) 0 && negb (bool_decide (kn_PodCIDR node = ""%string))
                         then [kn_PodCIDR node] else kn_PodCIDRs node).

(** [nw_changed]: the elements in the channel that wakes the notifier. *)
Record nodeWatcher := mkNW { nw_subnets : Set_; nw_changed : nat; lastSent : Set_ }.
Definition newNodeWatcher (podIP : Addr) (nodes : list KNode) : option nodeWatcher :=
  let sns := nodes ≫= nodeSubnets in
  if existsb (fun sn => p_Contains sn podIP) sns then Some (mkNW (NewSet sns) 0 ∅) else None.

Definition set_op (op : Set_ -> Prefix -> Set_ * bool) (sns : list Prefix) (s : Set_) : Set_ * bool :=
  foldl (fun acc sn => let '(s, b) := op acc.1 sn in (s, acc.2 || b)) (s, false) sns.
Definition nw_addLocked (sns : list Prefix) (s : Set_) : Set_ * bool := set_op set_Add sns s.
Definition nw_dropLocked (sns : list Prefix) (s : Set_) : Set_ * bool :=
  if Nat.eqb (size s) 0 then (s, false) else set_op set_Delete sns s.
Definition nw_store (w : nodeWatcher) (r : Set_ * bool) : nodeWatcher :=
  mkNW r.1 (if r.2 : bool then S (nw_changed w) else nw_changed w) (lastSent w).
(** The condition of [update] is a short-circuit: when something was dropped, nothing is
    added. *)
Definition nw_update (dropped added : list Prefix) (s : Set_) : Set_ * bool :=
  let '(s, b) := nw_dropLocked dropped s in
  if b : bool then (s, true) else nw_addLocked added s.

Definition onNodeAdded (node : KNode) (w : nodeWatcher) : nodeWatcher :=
  if Nat.eqb (length (nodeSubnets node)) 0 then w else nw_store w (nw_addLocked (nodeSubnets node) (nw_subnets w)).
Definition onNodeDeleted (node : KNode) (w : nodeWatcher) : nodeWatcher :=
  if Nat.eqb (length (nodeSubnets node)) 0 then w else nw_store w (nw_dropLocked (nodeSubnets node) (nw_subnets w)).
Definition onNodeUpdated (oldNode newNode : KNode) (w : nodeWatcher) : nodeWatcher :=
  let '(added, dropped) := getSubnetsDelta (nodeSubnets oldNode) (nodeSubnets newNode) in
  if negb (Nat.eqb (length added) 0) then
    nw_store w (if negb (Nat.eqb (length dropped) 0) then nw_update dropped added (nw_subnets w) else nw_addLocked added (nw_subnets w))
  else if negb (Nat.eqb (length dropped) 0) then nw_store w (nw_dropLocked dropped (nw_subnets w)) else w.
Definition sendUpdate (w : nodeWatcher) : nodeWatcher * option Set_ :=
  if negb (set_Equals (nw_subnets w) (lastSent w))
  then (mkNW (nw_subnets w) (nw_changed w) (set_Clone (nw_subnets w)), Some (nw_subnets w)) else (w, None).

(** ** Subscribers *)
Definition ipNetEQ (a b : IPNet) : bool := (ipn_Mask a =? ipn_Mask b) && bool_decide (ipn_Ip a = ipn_Ip b).
Fixpoint EqualFunc {A} (eq : A -> A -> bool) (l k : list A) : bool :=
  match l, k with
  | [], [] => true
  | x :: l, y :: k => eq x y && EqualFunc eq l k
  | _, _ => false
  end.
(** The infos that the traffic-manager makes have DNS settings and a routing. *)
Definition dns_of (m : ClusterInfo) : list string * list string * string := default ([], [], ""%string) (ci_Dns m).
Definition routing_of (m : ClusterInfo) : list IPNet * list IPNet * list IPNet := default ([], [], []) (ci_Routing m).
Definition clusterInfoEqual (a b : ClusterInfo) : bool :=
  Nat.eqb (length (ci_PodSubnets a)) (length (ci_PodSubnets b)) && bool_decide ((dns_of a).2 = (dns_of b).2) &&
  EqualFunc (fun x y => bool_decide (x = y)) (li_ServiceCidrs (ci_legacy a)) (li_ServiceCidrs (ci_legacy b)) &&
  EqualFunc ipNetEQ (ci_PodSubnets a) (ci_PodSubnets b) &&
  EqualFunc ipNetEQ (routing_of a).1.1 (routing_of b).1.1 &&
  EqualFunc ipNetEQ (routing_of a).1.2 (routing_of b).1.2 &&
  EqualFunc ipNetEQ (routing_of a).2 (routing_of b).2 &&
  bool_decide ((dns_of a).1.1 = (dns_of b).1.1) && bool_decide ((dns_of a).1.2 = (dns_of b).1.2).

(** A subscriber's channel with its contents; its capacity is three. *)
Record Subscribers := mkSubs { idGen : nat; current : ClusterInfo; subscribers : gmap nat (list ClusterInfo) }.
Definition newClusterInfoSubscribers (ci : ClusterInfo) : Subscribers := mkSubs 0 ci ∅.
Definition chan_cap : nat := 3.
Definition try_send (ci : ClusterInfo) (q : list ClusterInfo) : list ClusterInfo :=
  if Nat.ltb (length q) chan_cap then q ++ [ci] else q.
Definition notify (ci : ClusterInfo) (ss : Subscribers) : Subscribers :=
  if clusterInfoEqual (current ss) ci then ss else mkSubs (idGen ss) ci (try_send ci <$> subscribers ss).
(** [subscribe] in its two steps: registration under the lock, then the post of what was
    current, which blocks when the channel is full.  The address of the DNS server that
    is tested is the one of the manager's pod. *)
Definition sub_register (ss : Subscribers) : Subscribers * nat * ClusterInfo :=
  (mkSubs (S (idGen ss)) (current ss) (<[idGen ss := []]> (subscribers ss)), idGen ss, current ss).
Definition sub_post (id : nat) (curr : ClusterInfo) (ss : Subscribers) : option Subscribers :=
  if bool_decide (ci_ManagerPodIp curr = []) then Some ss
  else q ← subscribers ss !! id;
       if Nat.ltb (length q) chan_cap then Some (mkSubs (idGen ss) (current ss) (<[id := q ++ [curr]]> (subscribers ss))) else None.
Definition unsubscribe (id : nat) (ss : Subscribers) : Subscribers := mkSubs (idGen ss) (current ss) (delete id (subscribers ss)).
(** One round of [subscriberLoop]: the next info, sent to the client. *)
Definition sub_recv (id : nat) (ss : Subscribers) : option (Subscribers * ClusterInfo) :=
  q ← subscribers ss !! id;
  match q with
  | [] => None
  | ci :: q => Some (mkSubs (idGen ss) (current ss) (<[id := q]> (subscribers ss)), ci)
  end.

(** ** The cluster info *)
Record info := mkInfo {
  oi_ServiceCidrs : list (list Z); oi_PodSubnets : list IPNet; oi_ManagerPodIp : list Z;
  oi_Dns : list string * list string * string;
  oi_also : list IPNet; oi_never : list IPNet; oi_allow : list IPNet;
  addAlsoProxy : list IPNet; ciSubs : Subscribers
}.
Definition set_pods (pods : list IPNet) (subs : Subscribers) (oi : info) : info :=
  mkInfo (oi_ServiceCidrs oi) pods (oi_ManagerPodIp oi) (oi_Dns oi) (oi_also oi) (oi_never oi) (oi_allow oi) (addAlsoProxy oi) subs.
Definition set_also (also : list IPNet) (subs : Subscribers) (oi : info) : info :=
  mkInfo (oi_ServiceCidrs oi) (oi_PodSubnets oi) (oi_ManagerPodIp oi) (oi_Dns oi) (oi_also oi) (oi_never oi) (oi_allow oi) also subs.

Definition add_also (cps : list IPNet) (s : IPNet) : list IPNet := if existsb (fun a => ipNetEQ a s) cps then cps else cps ++ [s].
Definition also_proxy (oi : info) : list IPNet :=
  if Nat.eqb (length (addAlsoProxy oi)) 0 then oi_also oi else foldl add_also (oi_also oi) (addAlsoProxy oi).
Definition clusterInfo (oi : info) : ClusterInfo :=
  {| ci_legacy :=
       match oi_ServiceCidrs oi with
       | [] => {| li_ServiceCidrs := []; li_ServiceSubnet := None |}
       | c :: _ => {| li_ServiceCidrs := oi_ServiceCidrs oi;
                      li_ServiceSubnet := Some (PrefixToRPC (default PrefixZero (Prefix_UnmarshalBinary c))) |}
       end;
     ci_PodSubnets := oi_PodSubnets oi; ci_ManagerPodIp := oi_ManagerPodIp oi; ci_Dns := Some (oi_Dns oi);
     ci_Routing := Some (also_proxy oi, oi_never oi, oi_allow oi) |}.

(** The service subnets: those that the API server lists, the range named in an error
    message, or a guess from the address of the injector's service. *)
Inductive cidr_answer := Listed (cidrs : list string) | ErrorRange (range : string) | NoAnswer.
Definition from_injector (ipb : list Z) : list Z :=
  let ip := default AddrZero (AddrFromSlice ipb) in
  let ip := if Is4In6 ip then AddrFrom4 (default [] (As4 ip)) else ip in
  Prefix_MarshalBinary (PrefixFrom ip (if Is6 ip then 64 else 12)).
Definition service_cidrs (ans : cidr_answer) (injectorIp : list Z) : list (list Z) :=
  let found := match ans with
               | Listed cidrs => Prefix_MarshalBinary <$> omap ParsePrefix cidrs
               | ErrorRange range => match ParsePrefix range with Some p => [Prefix_MarshalBinary p] | None => [] end
               | NoAnswer => []
               end in
  if Nat.eqb (length found) 0 && negb (Nat.eqb (length injectorIp) 0) then [from_injector injectorIp] else found.

(** [watchSubnets]: what the function given to the watcher does with new subnets. *)
Definition notified (oi : info) : info := set_pods (oi_PodSubnets oi) (notify (clusterInfo oi) (ciSubs oi)) oi.
Definition update_subnets (subnets : Set_) (oi : info) : info :=
  notified (set_pods (PrefixesToRPC (AppendSortedTo subnets [])) (ciSubs oi) oi).
Definition setSubnetsFromEnv (subnets : list Prefix) (oi : info) : info * bool :=
  if Nat.eqb (length subnets) 0 then (oi, false)
  else
    let mgrIp := default AddrZero (AddrFromSlice (oi_ManagerPodIp oi)) in
    let subnets := if existsb (fun s => p_Contains s mgrIp) subnets then subnets else subnets ++ [PrefixFrom mgrIp (BitLen mgrIp)] in
    (notified (set_pods (PrefixesToRPC subnets) (ciSubs oi) oi), true).
Definition SetAdditionalAlsoProxy (subnets : list IPNet) (oi : info) : info :=
  if EqualFunc ipNetEQ (addAlsoProxy oi) subnets then oi else notified (set_also subnets (ciSubs oi) oi).

(** The round of the pods' watcher: the timer fires and the info follows. *)
Definition pod_tick (ips : list Addr) (w : podWatcher) (oi : info) : podWatcher * info :=
  let '(w, sent) := sendIfChanged ips w in
  (w, match sent with Some s => update_subnets s oi | None => oi end).
