(* ===== verification/ClusterWatchSpec.v ===== *)
(** * Theorems on the traffic-manager's view of the cluster

    The differences that the watchers act on; the addresses that the pod watcher tracks
    over every history of informer events; from pod to client: every address of a pod is
    in a subnet that the subscribers are sent; when a node counts as ready; delivery to
    subscribers.  Findings on updates of nodes, on namespaces that come back and on slow
    or racing subscribers. *)
From S2P Require Import Prelude NetIP Subnet SubnetSpec SubnetSet GoStrings NetParse IpUtil SessionRoutes ClusterWatch.

(** ** Differences *)
Section Delta.
Context {A : Type} `{EqDecision A}.

Lemma swap_remove_perm i (x : A) l : l !! i = Some x -> l ≡ₚ x :: swap_remove i l.
Proof.
  intros Hi. unfold swap_remove. destruct (last l) as [z|] eqn:Hz.
  2:{ apply last_None in Hz. by subst. }
  apply last_Some in Hz as [l' ->]. rewrite length_app. cbn [length]. replace (length l' + 1 - 1)%nat with (length l') by lia.
  destruct (decide (i < length l')%nat) as [Hlt|Hge].
  - rewrite insert_app_l by done. rewrite take_app_length' by by rewrite length_insert.
    rewrite lookup_app_l in Hi by done. rewrite <- (take_drop_middle l' i x Hi) at 1. rewrite (insert_take_drop l' i z) by done.
    rewrite <- app_assoc. cbn. rewrite <- Permutation_middle. apply Permutation_skip, Permutation_app_head.
    symmetry. apply Permutation_cons_append.
  - pose proof (lookup_lt_Some _ _ _ Hi) as Hl. rewrite length_app in Hl. cbn in Hl. assert (i = length l') as -> by lia.
    rewrite lookup_app_r, Nat.sub_diag in Hi by lia. injection Hi as ->.
    rewrite insert_app_r_alt, take_app_length by lia. by rewrite <- Permutation_cons_append.
Qed.

Lemma delta_loop_spec (news : list A) : forall olds added a d, delta_loop news olds added = (a, d) ->
  exists kept new, a = added ++ new /\ news ≡ₚ kept ++ new /\ olds ≡ₚ kept ++ d /\ forall x, x ∈ new -> x ∉ d.
Proof.
  induction news as [|n news IH]; intros olds added a d; cbn [delta_loop].
  { intros [= <- <-]. exists [], []. rewrite app_nil_r. split_and!; try done. intros x Hx. by apply elem_of_nil in Hx. }
  destruct (list_find (fun o => n = o) olds) as [[i x]|] eqn:Ef.
  - apply list_find_Some in Ef as (Hi & <- & _). intros Hd. destruct (IH _ _ _ _ Hd) as (kept & new & -> & Hn & Ho & Hdis).
    exists (n :: kept), new. split_and!; [done|by rewrite Hn| |done]. by rewrite (swap_remove_perm i n olds Hi), Ho.
  - apply list_find_None in Ef. intros Hd. destruct (IH _ _ _ _ Hd) as (kept & new & -> & Hn & Ho & Hdis).
    exists kept, (n :: new). rewrite <- app_assoc. split_and!; [done| |done|].
    + rewrite Hn. apply Permutation_middle.
    + intros x [->|Hx]%elem_of_cons; [|auto]. intros Hin. rewrite Forall_forall in Ef. apply (Ef n); [|done]. rewrite Ho. apply elem_of_app. by right.
Qed.
Lemma getDelta_spec (olds news : list A) : let '(added, dropped) := getDelta olds news in
  exists kept, news ≡ₚ kept ++ added /\ olds ≡ₚ kept ++ dropped /\ forall x, x ∈ added -> x ∉ dropped.
Proof.
  unfold getDelta. destruct olds as [|o olds]; cbn [length Nat.eqb].
  - exists []. split_and!; try done. intros x _ Hx. by apply elem_of_nil in Hx.
  - destruct (delta_loop news (o :: olds) []) as [a d] eqn:E. destruct (delta_loop_spec news _ _ _ _ E) as (kept & new & -> & ?). by exists kept.
Qed.
(** For slices without repetition the two results are the set differences. *)
Lemma getDelta_sets (olds news : list A) : NoDup olds -> NoDup news -> let '(added, dropped) := getDelta olds news in
  forall x, (x ∈ added <-> x ∈ news /\ x ∉ olds) /\ (x ∈ dropped <-> x ∈ olds /\ x ∉ news).
Proof.
  intros Ho Hn. pose proof (getDelta_spec olds news) as Hd. destruct (getDelta olds news) as [added dropped]. destruct Hd as (kept & Pn & Po & Hdis).
  rewrite Pn in Hn. rewrite Po in Ho. apply NoDup_app in Hn as (_ & Hn & _), Ho as (_ & Ho & _).
  intros x. rewrite Pn, Po, !elem_of_app. specialize (Hn x). specialize (Ho x). specialize (Hdis x). tauto.
Qed.
End Delta.

(** ** The addresses that are tracked *)
Lemma add_ips_spec ips : forall m b, (foldl add_ip (m, b) ips).1 = m ∪ list_to_set ips.
Proof.
  induction ips as [|ip ips IH]; intros m b; cbn [foldl list_to_set]; [set_solver|].
  unfold add_ip at 2. cbn [fst]. case_bool_decide; rewrite IH; set_solver.
Qed.
Lemma drop_ips_spec ips : forall m b, (foldl drop_ip (m, b) ips).1 = m ∖ list_to_set ips.
Proof.
  induction ips as [|ip ips IH]; intros m b; cbn [foldl list_to_set]; [set_solver|].
  unfold drop_ip at 2. cbn [fst]. case_bool_decide; rewrite IH; set_solver.
Qed.
Lemma addLocked_ips ips w : ipsMap (addLocked ips w) = ipsMap w ∪ list_to_set ips.
Proof. unfold addLocked. rewrite <- (add_ips_spec ips (ipsMap w) false). by destruct (foldl _ _ _). Qed.
Lemma dropLocked_ips ips w : ipsMap (dropLocked ips w) = ipsMap w ∖ list_to_set ips.
Proof. unfold dropLocked. rewrite <- (drop_ips_spec ips (ipsMap w) false). by destruct (foldl _ _ _). Qed.
Lemma addLocked_old ips w : oldSubnets (addLocked ips w) = oldSubnets w.
Proof. unfold addLocked. by destruct (foldl _ _ _). Qed.
Lemma dropLocked_old ips w : oldSubnets (dropLocked ips w) = oldSubnets w.
Proof. unfold dropLocked. by destruct (foldl _ _ _). Qed.

Lemma length_nil {A} (l : list A) : Nat.eqb (length l) 0 = bool_decide (l = []).
Proof. by destruct l. Qed.
Lemma onPodAdded_ips p w : ipsMap (onPodAdded p w) = ipsMap w ∪ list_to_set (podIPs p).
Proof. unfold onPodAdded. rewrite length_nil. case_bool_decide as E; [rewrite E; set_solver|apply addLocked_ips]. Qed.
Lemma onPodDeleted_ips p w : ipsMap (onPodDeleted p w) = ipsMap w ∖ list_to_set (podIPs p).
Proof. unfold onPodDeleted. rewrite length_nil. case_bool_decide as E; [rewrite E; set_solver|apply dropLocked_ips]. Qed.
Lemma onPodUpdated_ips p p' w : NoDup (podIPs p) -> NoDup (podIPs p') -> forall a,
  a ∈ ipsMap (onPodUpdated p p' w) <-> a ∈ podIPs p' /\ a ∉ podIPs p \/ a ∈ ipsMap w /\ (a ∈ podIPs p -> a ∈ podIPs p').
Proof.
  intros H1 H2 a. unfold onPodUpdated. pose proof (getDelta_sets (podIPs p) (podIPs p') H1 H2) as Hd.
  unfold getIPsDelta. destruct (getDelta (podIPs p) (podIPs p')) as [added dropped]. destruct (Hd a) as [Ha Hr]. rewrite !length_nil.
  assert (Ea : added = [] -> ~ (a ∈ podIPs p' /\ a ∉ podIPs p)) by (intros ->; rewrite <- Ha; apply not_elem_of_nil).
  assert (Er : dropped = [] -> ~ (a ∈ podIPs p /\ a ∉ podIPs p')) by (intros ->; rewrite <- Hr; apply not_elem_of_nil).
  destruct (decide (a ∈ podIPs p)), (decide (a ∈ podIPs p'));
    do 2 case_bool_decide; cbn [negb]; rewrite ?addLocked_ips, ?dropLocked_ips; set_solver.
Qed.
Lemma onPod_old p p' w : oldSubnets (onPodAdded p w) = oldSubnets w /\ oldSubnets (onPodDeleted p w) = oldSubnets w /\
  oldSubnets (onPodUpdated p p' w) = oldSubnets w.
Proof.
  unfold onPodAdded, onPodDeleted, onPodUpdated. destruct (getIPsDelta _ _) as [added dropped].
  repeat case_match; rewrite ?addLocked_old, ?dropLocked_old; done.
Qed.

(** ** From pods to clients *)
Lemma EqualFunc_eq {A} (eq : A -> A -> bool) (l k : list A) : (forall x y, eq x y = true <-> x = y) -> EqualFunc eq l k = true <-> l = k.
Proof.
  intros He. revert k. induction l as [|x l IH]; intros [|y k]; cbn [EqualFunc]; [done|done|done|].
  rewrite andb_true_iff, He, IH. split; [intros [-> ->]; done|by intros [= -> ->]].
Qed.
Lemma ipNetEQ_eq a b : ipNetEQ a b = true <-> a = b.
Proof.
  unfold ipNetEQ. rewrite andb_true_iff, Z.eqb_eq, bool_decide_eq_true. destruct a, b; cbn. split; [intros [-> ->]; done|by intros [= -> ->]].
Qed.
(** [clusterInfoEqual] decides equality of everything that changes over time. *)
Lemma clusterInfoEqual_spec a b : clusterInfoEqual a b = true <->
  li_ServiceCidrs (ci_legacy a) = li_ServiceCidrs (ci_legacy b) /\ ci_PodSubnets a = ci_PodSubnets b /\
  routing_of a = routing_of b /\ dns_of a = dns_of b.
Proof.
  unfold clusterInfoEqual. rewrite !andb_true_iff, !(EqualFunc_eq ipNetEQ) by apply ipNetEQ_eq.
  rewrite (EqualFunc_eq (fun x y => bool_decide (x = y))) by (intros x y; apply bool_decide_eq_true).
  rewrite !bool_decide_eq_true, Nat.eqb_eq. destruct (routing_of a) as [[]], (routing_of b) as [[]], (dns_of a) as [[]], (dns_of b) as [[]]. cbn.
  split; [intros; destruct_and!; subst; done|]. intros (-> & -> & [= -> -> ->] & [= -> -> ->]). by split_and!.
Qed.
Lemma notify_pods ci ss : ci_PodSubnets (current (notify ci ss)) = ci_PodSubnets ci.
Proof. unfold notify. destruct (clusterInfoEqual _ _) eqn:E; [|done]. by apply clusterInfoEqual_spec in E as (_ & ? & _). Qed.

(** Pods as the informer reports them: an address belongs to one pod. *)
Definition pods_ok (pods : gmap string KPod) : Prop :=
  (forall k p, pods !! k = Some p -> NoDup (podIPs p)) /\
  (forall k k' p p' a, pods !! k = Some p -> pods !! k' = Some p' -> a ∈ podIPs p -> a ∈ podIPs p' -> k = k').

(** Histories: informer events, the timer, additional also-proxy subnets, and anything
    that subscribers do. *)
Inductive cluster_run (mgr : Addr) : gmap string KPod -> podWatcher -> info -> Prop :=
  | cr_init oi : oi_PodSubnets oi = [] -> current (ciSubs oi) = clusterInfo oi -> cluster_run mgr ∅ (newPodWatcher mgr) oi
  | cr_add pods w oi k p : cluster_run mgr pods w oi -> pods !! k = None -> pods_ok (<[k := p]> pods) ->
      cluster_run mgr (<[k := p]> pods) (onPodAdded p w) oi
  | cr_update pods w oi k p p' : cluster_run mgr pods w oi -> pods !! k = Some p -> pods_ok (<[k := p']> pods) ->
      cluster_run mgr (<[k := p']> pods) (onPodUpdated p p' w) oi
  | cr_delete pods w oi k p : cluster_run mgr pods w oi -> pods !! k = Some p ->
      cluster_run mgr (delete k pods) (onPodDeleted p w) oi
  | cr_tick pods w oi ips : cluster_run mgr pods w oi -> ips ≡ₚ elements (ipsMap w) ->
      cluster_run mgr pods (pod_tick ips w oi).1 (pod_tick ips w oi).2
  | cr_also pods w oi sns : cluster_run mgr pods w oi -> cluster_run mgr pods w (SetAdditionalAlsoProxy sns oi)
  | cr_subs pods w oi ss : cluster_run mgr pods w oi -> current ss = current (ciSubs oi) -> cluster_run mgr pods w (set_pods (oi_PodSubnets oi) ss oi).

Definition in_pods (pods : gmap string KPod) (a : Addr) : Prop := exists k p, pods !! k = Some p /\ a ∈ podIPs p.
Definition tracked (mgr : Addr) (pods : gmap string KPod) (w : podWatcher) : Prop :=
  (forall a, in_pods pods a -> a ∈ ipsMap w) /\ (forall a, a ∈ ipsMap w -> a = mgr \/ in_pods pods a).
Definition published (w : podWatcher) (oi : info) : Prop :=
  (forall sn, sn ∈ oldSubnets w -> pfx_wf sn) /\ oi_PodSubnets oi = PrefixesToRPC (AppendSortedTo (oldSubnets w) []) /\
  ci_PodSubnets (current (ciSubs oi)) = oi_PodSubnets oi.

Lemma tick_published ips w oi : published w oi ->
  let '(w', oi') := pod_tick ips w oi in published w' oi' /\ oldSubnets w' = NewSet (CoveringPrefixes ips) /\ ipsMap w' = ipsMap w.
Proof.
  intros (H1 & H2 & H3). destruct (Set_operations_correct (NewSet (CoveringPrefixes ips)) (oldSubnets w) (CoveringPrefixes ips) PrefixZero) as (Hn & _ & _ & He).
  unfold pod_tick, sendIfChanged. destruct (set_Equals _ _) eqn:E; cbn [negb].
  - refine (conj (conj H1 (conj H2 H3)) (conj (eq_sym (proj1 He eq_refl)) eq_refl)).
  - refine (conj (conj _ (conj eq_refl _)) (conj eq_refl eq_refl)); cbn.
    + intros sn Hsn%Hn. by apply (CoveringPrefixes_pfx_wf ips).
    + apply notify_pods.
Qed.

Lemma tracked_add mgr pods w k p : tracked mgr pods w -> pods !! k = None -> tracked mgr (<[k := p]> pods) (onPodAdded p w).
Proof.
  intros [T1 T2] Hk. split; intros a; rewrite onPodAdded_ips.
  - intros (k' & p' & [[<- <-]|[Hne Hp]]%lookup_insert_Some & Ha); [set_solver|]. apply elem_of_union. left. apply T1. by exists k', p'.
  - intros [Ha|Ha%elem_of_list_to_set]%elem_of_union.
    + destruct (T2 a Ha) as [->|(k' & p' & Hp & Hin)]; [by left|]. right. exists k', p'. split; [|done].
      rewrite lookup_insert_ne; [done|]. intros ->. congruence.
    + right. exists k, p. by rewrite lookup_insert_eq.
Qed.
Lemma tracked_update mgr pods w k p p' : pods_ok pods -> pods_ok (<[k := p']> pods) -> tracked mgr pods w -> pods !! k = Some p ->
  tracked mgr (<[k := p']> pods) (onPodUpdated p p' w).
Proof.
  intros [N1 D1] [N2 D2] [T1 T2] Hk. pose proof (N2 k p' (lookup_insert_eq _ _ _)) as Hn'.
  split; intros a; rewrite onPodUpdated_ips by eauto.
  - intros (k2 & p2 & [[<- <-]|[Hne Hp]]%lookup_insert_Some & Ha).
    + destruct (decide (a ∈ podIPs p)) as [Hin|]; [|by left]. right. split; [|done]. apply T1. by exists k, p.
    + right. split; [apply T1; by exists k2, p2|]. intros Hin. destruct Hne. by eapply D1.
  - intros [[Ha _]|[Ha Hi]].
    + right. exists k, p'. by rewrite lookup_insert_eq.
    + destruct (T2 a Ha) as [->|(k2 & p2 & Hp & Hin)]; [by left|]. right. destruct (decide (k = k2)) as [<-|Hne].
      * exists k, p'. rewrite lookup_insert_eq. split; [done|]. apply Hi. congruence.
      * exists k2, p2. by rewrite lookup_insert_ne.
Qed.
Lemma tracked_delete mgr pods w k p : pods_ok pods -> tracked mgr pods w -> pods !! k = Some p -> tracked mgr (delete k pods) (onPodDeleted p w).
Proof.
  intros [N1 D1] [T1 T2] Hk. split; intros a; rewrite onPodDeleted_ips.
  - intros (k2 & p2 & [Hne Hp]%lookup_delete_Some & Ha). apply elem_of_difference. split; [apply T1; by exists k2, p2|].
    intros Hin%elem_of_list_to_set. destruct Hne. by eapply D1.
  - intros [Ha Hn]%elem_of_difference. destruct (T2 a Ha) as [->|(k2 & p2 & Hp & Hin)]; [by left|]. right.
    exists k2, p2. split; [|done]. apply lookup_delete_Some. split; [|done]. intros ->. assert (p2 = p) as -> by congruence. set_solver.
Qed.

Lemma cluster_run_inv mgr pods w oi : cluster_run mgr pods w oi -> pods_ok pods /\ tracked mgr pods w /\ published w oi.
Proof.
  induction 1 as [oi Hp Hc|pods w oi k p _ (Hok & Ht & Hpub) Hk Hok'|pods w oi k p p' _ (Hok & Ht & Hpub) Hk Hok'|pods w oi k p _ (Hok & Ht & Hpub) Hk
    |pods w oi ips _ (Hok & Ht & Hpub) Hips|pods w oi sns _ (Hok & Ht & Hpub)|pods w oi ss _ (Hok & Ht & H1 & H2 & H3) Hss].
  - split_and!.
    + split; intros *; by rewrite lookup_empty.
    + split; [intros a (k & p & Hk & _); by rewrite lookup_empty in Hk|]. intros a Ha. left. set_solver.
    + unfold published. cbn. rewrite Hc, Hp. split_and!; [set_solver|done|cbn; done].
  - split_and!; [done|by apply tracked_add|]. destruct (onPod_old p p w) as (E & _). unfold published. by rewrite E.
  - split_and!; [done|by eapply tracked_update|]. destruct (onPod_old p p' w) as (_ & _ & E). unfold published. by rewrite E.
  - split_and!; [|by eapply tracked_delete|destruct (onPod_old p p w) as (_ & E & _); unfold published; by rewrite E].
    destruct Hok as [N1 D1]. split.
    + intros k' p' [_ Hp]%lookup_delete_Some. eauto.
    + intros k1 k2 p1 p2 a [_ Hp1]%lookup_delete_Some [_ Hp2]%lookup_delete_Some. eauto.
  - pose proof (tick_published ips w oi Hpub) as Hp. destruct (pod_tick ips w oi) as [w' oi']. destruct Hp as (Hp & _ & He).
    split_and!; [done| |done]. unfold tracked. cbn. by rewrite He.
  - split_and!; [done|done|]. unfold SetAdditionalAlsoProxy. destruct (EqualFunc _ _ _); [done|]. destruct Hpub as (H1 & H2 & H3).
    split_and!; [done|done|]. cbn. apply notify_pods.
  - split_and!; [done|done|]. split_and!; [done|done|]. cbn. by rewrite Hss.
Qed.

Lemma RPC_pods (s : Set_) sn : (forall x, x ∈ s -> pfx_wf x) -> sn ∈ RPCsToPrefixes (PrefixesToRPC (AppendSortedTo s [])) <-> sn ∈ s.
Proof.
  intros Hw. destruct (AppendSortedTo_sorted s []) as (keys & E & _ & _ & Hk). rewrite E. cbn [app].
  rewrite PrefixesToRPC_roundtrip; [apply Hk|]. apply Forall_forall. intros x Hx. by apply Hw, Hk.
Qed.


Definition cw_pod : KPod := mkKPod "default" ["10.42.1.5"%string; "fd00::7"%string] "10.42.1.5".
Definition cw_info : info :=
  let empty := newClusterInfoSubscribers {| ci_legacy := {| li_ServiceCidrs := []; li_ServiceSubnet := None |}; ci_PodSubnets := [];
    ci_ManagerPodIp := [10; 42; 0; 2]; ci_Dns := Some ([], [], "cluster.local."%string); ci_Routing := Some ([], [], []) |} in
  mkInfo [] [] [10; 42; 0; 2] ([], [], "cluster.local."%string) [] [] [] [] empty.

(** A pod that shares its address with another one (both on the host's network) takes it
    away when it goes: the other pod's address is no longer tracked. *)
Theorem shared_address_dropped :
  let p := mkKPod "default" ["192.168.5.9"%string] "" in
  let w := onPodDeleted p (onPodAdded p (onPodAdded p (newPodWatcher (AddrFrom4 [10; 42; 0; 2])))) in
  podIPs p = [AddrFrom4 [192; 168; 5; 9]] /\ AddrFrom4 [192; 168; 5; 9] ∉ ipsMap w.
Proof. split; [vm_compute; reflexivity|]. apply (bool_decide_unpack _). vm_compute. exact I. Qed.

(** A namespace that leaves the managed ones keeps its entry among the informers, so when
    it comes back no handler is registered and its pods are not seen. *)
Theorem returning_namespace_not_watched :
  let ok := fun _ : string => true in
  let w := refreshWatchers ok ok ["a"%string; "b"%string] (newPodWatcher AddrZero) in
  let w := refreshWatchers ok ok ["a"%string] w in
  let w := refreshWatchers ok ok ["a"%string; "b"%string] w in
  pw_handlers w = {[ "a"%string ]} /\ "b"%string ∈ pw_informers w.
Proof. split; [vm_compute; reflexivity|]. apply (bool_decide_unpack _). vm_compute. exact I. Qed.

(** ** Nodes *)
Definition ready_cond (node : KNode) (c : NodeCondition) : Prop := c ∈ kn_Conditions node /\ nc_Type c = "Ready"%string.
Definition best (conds : list NodeCondition) (r : option NodeCondition) : Prop :=
  match r with
  | None => forall c, c ∈ conds -> nc_Type c <> "Ready"%string
  | Some b => b ∈ conds /\ nc_Type b = "Ready"%string /\
      forall c, c ∈ conds -> nc_Type c = "Ready"%string ->
        nc_LastTransitionTime c < nc_LastTransitionTime b \/
        nc_LastTransitionTime c = nc_LastTransitionTime b /\ (nc_Status c = ConditionTrue -> nc_Status b = ConditionTrue)
  end.
Lemma later_cond_best conds : best conds (foldl later_cond None conds).
Proof.
  induction conds as [|c conds IH] using rev_ind; [intros c Hc; by apply elem_of_nil in Hc|]. rewrite foldl_snoc.
  unfold later_cond at 1. case_bool_decide as Ht; cbn [andb].
  2:{ destruct (foldl later_cond None conds) as [b|].
      - destruct IH as (H1 & H2 & H3). split_and!; [set_solver|done|]. intros x [Hx| ->%list_elem_of_singleton]%elem_of_app; [auto|done].
      - intros x [Hx| ->%list_elem_of_singleton]%elem_of_app; [by apply IH|done]. }
  destruct (foldl later_cond None conds) as [b|].
  - destruct IH as (H1 & H2 & H3). unfold compareNodeConditions. set (tc := nc_LastTransitionTime c) in *. set (tb := nc_LastTransitionTime b) in *.
    destruct (Z.eqb_spec tc tb) as [Et|Et]; cbn [negb].
    + case_bool_decide as Es; [|case_bool_decide as Es2]; cbn.
      * split_and!; [set_solver|done|]. intros x [Hx| ->%list_elem_of_singleton]%elem_of_app Hr; [auto|]. right. by rewrite <- Es.
      * split_and!; [set_solver|done|]. intros x [Hx| ->%list_elem_of_singleton]%elem_of_app Hr; [|by right].
        destruct (H3 x Hx Hr) as [?|[? _]]; [left; lia|right; split; [lia|done]].
      * split_and!; [set_solver|done|]. intros x [Hx| ->%list_elem_of_singleton]%elem_of_app Hr; [auto|]. right. by split.
    + destruct (Z.ltb_spec tc tb); cbn.
      * split_and!; [set_solver|done|]. intros x [Hx| ->%list_elem_of_singleton]%elem_of_app Hr; [auto|by left].
      * split_and!; [set_solver|done|]. intros x [Hx| ->%list_elem_of_singleton]%elem_of_app Hr; [|by right].
        left. destruct (H3 x Hx Hr) as [?|[? _]]; lia.
  - split_and!; [set_solver|done|]. intros x [Hx| ->%list_elem_of_singleton]%elem_of_app Hr; [by destruct (IH x Hx)|by right].
Qed.
(** A node is ready when one of its Ready conditions is true and none has changed later. *)
Theorem nodeReady_correct node : nodeReady node = true <->
  exists c, ready_cond node c /\ nc_Status c = ConditionTrue /\
    forall c', ready_cond node c' -> nc_LastTransitionTime c' <= nc_LastTransitionTime c.
Proof.
  unfold nodeReady. pose proof (later_cond_best (kn_Conditions node)) as Hb.
  destruct (foldl later_cond None (kn_Conditions node)) as [b|].
  - destruct Hb as (H1 & H2 & H3). rewrite bool_decide_eq_true. split.
    + intros Hs. exists b. split; [done|]. split; [done|]. intros c [Hc Ht]. destruct (H3 c Hc Ht) as [?|[? _]]; lia.
    + intros (c & [Hc Ht] & Hs & Hmax). specialize (Hmax b (conj H1 H2)). destruct (H3 c Hc Ht) as [?|[_ Himp]]; [lia|auto].
  - split; [done|]. intros (c & [Hc Ht] & _). by destruct (Hb c Hc).
Qed.

Lemma nw_add_spec sns : forall s b, foldl (fun acc sn => let '(s, b) := set_Add acc.1 sn in (s, acc.2 || b)) (s, b) sns =
  (s ∪ list_to_set sns, b || existsb (fun sn => bool_decide (sn ∉ s)) sns).
Proof.
  induction sns as [|sn sns IH]; intros s b; cbn [foldl list_to_set existsb]; [by rewrite orb_false_r, union_empty_r_L|].
  unfold set_Add at 2. cbn [fst snd]. case_bool_decide as E; rewrite IH.
  - f_equal; [set_solver|]. rewrite orb_false_r. rewrite bool_decide_false by tauto. done.
  - f_equal; [set_solver|]. rewrite (bool_decide_true (sn ∉ s)) by done. by rewrite orb_true_r, orb_true_l, orb_true_r.
Qed.
Lemma nw_drop_spec sns : forall s b, (foldl (fun acc sn => let '(s, b) := set_Delete acc.1 sn in (s, acc.2 || b)) (s, b) sns).1 = s ∖ list_to_set sns /\
  ((foldl (fun acc sn => let '(s, b) := set_Delete acc.1 sn in (s, acc.2 || b)) (s, b) sns).2 = true <-> b = true \/ exists sn, sn ∈ sns /\ sn ∈ s).
Proof.
  induction sns as [|sn sns IH]; intros s b; cbn [foldl list_to_set].
  { cbn. split; [set_solver|]. split; [auto|]. intros [->|(sn & Hn & _)]; [done|by apply elem_of_nil in Hn]. }
  unfold set_Delete at 2 4. cbn [fst snd]. case_bool_decide as E; destruct (IH (if bool_decide (sn ∈ s) then s ∖ {[sn]} else s) (b || bool_decide (sn ∈ s))) as [H1 H2].
  - rewrite bool_decide_true in H1, H2 by done. rewrite H1, H2. split; [set_solver|]. rewrite orb_true_r. split; [|auto]. intros _. right. exists sn. split; [left|done].
  - rewrite bool_decide_false in H1, H2 by done. rewrite H1, H2, orb_false_r. split; [set_solver|]. set_solver.
Qed.
(** The combined update of the node watcher adds nothing when it drops something. *)
Theorem nw_update_correct dropped added s :
  (nw_update dropped added s).1 = if bool_decide (Exists (fun sn => sn ∈ s) dropped) then s ∖ list_to_set dropped else s ∪ list_to_set added.
Proof.
  unfold nw_update, nw_dropLocked, nw_addLocked, set_op. destruct (Nat.eqb_spec (size s) 0) as [E|E].
  - apply size_empty_inv in E. rewrite bool_decide_false; [by rewrite nw_add_spec|]. rewrite Exists_exists. set_solver.
  - destruct (nw_drop_spec dropped s false) as [H1 H2]. destruct (foldl _ _ dropped) as [s' b]. cbn [fst snd] in *. subst s'. destruct b.
    + rewrite bool_decide_true; [done|]. destruct (proj1 H2 eq_refl) as [?|(sn & ? & ?)]; [done|]. apply Exists_exists. eauto.
    + assert (Hno : ~ Exists (fun sn => sn ∈ s) dropped).
      { rewrite Exists_exists. intros (sn & ? & ?). destruct H2 as [_ H2]. discriminate H2. eauto. }
      rewrite bool_decide_false by done. rewrite nw_add_spec. cbn [fst]. rewrite Exists_exists in Hno. set_solver.
Qed.
(** So a node whose subnet is replaced ends up with no subnet at all. *)
Definition cw_node (cidr : string) : KNode := mkNode [mkCond "Ready" ConditionTrue 5] [cidr] cidr.
Theorem node_update_loses_subnet :
  let w := onNodeAdded (cw_node "10.1.0.0/24") (mkNW ∅ 0 ∅) in
  nodeSubnets (cw_node "10.2.0.0/24") = [PrefixFrom (AddrFrom4 [10; 2; 0; 0]) 24] /\
  nw_subnets w = {[ PrefixFrom (AddrFrom4 [10; 1; 0; 0]) 24 ]} /\
  nw_subnets (onNodeUpdated (cw_node "10.1.0.0/24") (cw_node "10.2.0.0/24") w) = ∅.
Proof. refine (conj _ (conj _ _)); decide_it. Qed.

(** ** Subscribers *)

(** Runs in which a change finds room in every channel and nothing comes between the two
    steps of [subscribe].  [log] is what each subscriber has received. *)
Definition has_room (ss : Subscribers) : Prop := map_Forall (fun _ q => (length q < chan_cap)%nat) (subscribers ss).
Definition sent_to (log : gmap nat (list ClusterInfo)) (id : nat) : list ClusterInfo := default [] (log !! id).
Inductive sub_run : Subscribers -> gmap nat (list ClusterInfo) -> Prop :=
  | su_init ci : ci_ManagerPodIp ci <> [] -> sub_run (newClusterInfoSubscribers ci) ∅
  | su_notify ss log ci : sub_run ss log -> has_room ss -> ci_ManagerPodIp ci <> [] -> sub_run (notify ci ss) log
  | su_subscribe ss log ss1 id curr ss2 : sub_run ss log -> sub_register ss = (ss1, id, curr) -> sub_post id curr ss1 = Some ss2 -> sub_run ss2 log
  | su_recv ss log id ss' ci : sub_run ss log -> sub_recv id ss = Some (ss', ci) -> sub_run ss' (<[id := sent_to log id ++ [ci]]> log)
  | su_unsubscribe ss log id : sub_run ss log -> sub_run (unsubscribe id ss) log.

Lemma last_snoc_app {A} (l k : list A) (x : A) : last (l ++ k ++ [x]) = Some x.
Proof. by rewrite app_assoc, last_snoc. Qed.
(** The last info that a subscriber has received or will receive is the current one. *)
Theorem subscriber_gets_current ss log id q : sub_run ss log -> subscribers ss !! id = Some q ->
  last (sent_to log id ++ q) = Some (current ss).
Proof.
  intros Hrun. revert id q. assert (Hne : ci_ManagerPodIp (current ss) <> []).
  { induction Hrun as [|ss log ci Hrun IH Hroom Hci|ss log ss1 id curr ss2 Hrun IH Hr Hp|ss log id ss' ci Hrun IH Hr|]; cbn; try done.
    - unfold notify. by destruct (clusterInfoEqual _ _).
    - injection Hr as <- <- <-. unfold sub_post in Hp. rewrite bool_decide_false in Hp by done. cbn [subscribers] in Hp. rewrite lookup_insert_eq in Hp. cbn in Hp. by injection Hp as <-.
    - unfold sub_recv in Hr. destruct (subscribers ss !! id) as [[|c q]|]; cbn in Hr; try done. by injection Hr as <- <-. }
  induction Hrun as [ci Hci|ss log ci Hrun IH Hroom Hci|ss log ss1 id0 curr ss2 Hrun IH Hr Hp|ss log id0 ss' ci Hrun IH Hr|ss log id0 Hrun IH]; intros id q.
  - cbn. by rewrite lookup_empty.
  - unfold notify in *. destruct (clusterInfoEqual _ _); [apply IH; done|]. cbn [subscribers current]. rewrite lookup_fmap.
    destruct (subscribers ss !! id) as [q0|] eqn:Eq; cbn; [|done]. intros [= <-]. unfold try_send.
    destruct (Nat.ltb_spec (length q0) chan_cap) as [|Hf]; [apply last_snoc_app|]. specialize (Hroom id q0 Eq). cbn in Hroom. lia.
  - injection Hr as <- <- <-. unfold sub_post in Hp. cbn [subscribers] in Hp. rewrite lookup_insert_eq in Hp.
    destruct (decide (ci_ManagerPodIp (current ss) = [])) as [E|E].
    + rewrite bool_decide_true in Hp by done. injection Hp as <-. by destruct Hne.
    + rewrite bool_decide_false in Hp by done. cbn in Hp. injection Hp as <-. cbn [subscribers current].
      intros [[<- <-]|[Hne2 Hq]]%lookup_insert_Some; [apply last_snoc|]. rewrite lookup_insert_ne in Hq by done. by apply IH.
  - unfold sub_recv in Hr. destruct (subscribers ss !! id0) as [[|c q0]|] eqn:Eq; cbn in Hr; try done. injection Hr as <- <-. cbn [subscribers current] in *.
    intros [[<- <-]|[Hne2 Hq]]%lookup_insert_Some.
    + unfold sent_to at 1. rewrite lookup_insert_eq. cbn. rewrite <- app_assoc. by apply IH.
    + unfold sent_to. rewrite lookup_insert_ne by done. by apply IH.
  - cbn. intros [_ Hq]%lookup_delete_Some. by apply IH.
Qed.

Definition cw_with (domain : string) : ClusterInfo :=
  {| ci_legacy := {| li_ServiceCidrs := []; li_ServiceSubnet := None |}; ci_PodSubnets := []; ci_ManagerPodIp := [10; 42; 0; 2];
     ci_Dns := Some ([], [], domain); ci_Routing := Some ([], [], []) |}.
Definition cw_subscribed : Subscribers := mkSubs 1 (cw_with "a") {[ 0%nat := [cw_with "a"] ]}.
Lemma cw_subscribed_run : sub_run cw_subscribed ∅.
Proof. eapply (su_subscribe (newClusterInfoSubscribers (cw_with "a")) ∅); [by apply su_init|reflexivity|vm_compute; reflexivity]. Qed.
Lemma subscriber_gets_current_witness :
  last (sent_to ∅ 0 ++ [cw_with "a"; cw_with "b"]) = Some (current (notify (cw_with "b") cw_subscribed)).
Proof.
  apply (subscriber_gets_current (notify (cw_with "b") cw_subscribed) ∅ 0); [|vm_compute; reflexivity].
  apply su_notify; [exact cw_subscribed_run| |done]. intros i q. unfold cw_subscribed. cbn [subscribers]. intros [<- <-]%lookup_singleton_Some. unfold chan_cap. cbn. lia.
Defined.
(** A channel holds three infos; a change that finds it full is not sent, and the
    subscriber is left with an old info after it has read everything. *)
Theorem slow_subscriber_is_left_behind :
  let ss := notify (cw_with "d") (notify (cw_with "c") (notify (cw_with "b") cw_subscribed)) in
  current ss = cw_with "d" /\ subscribers ss !! 0%nat = Some [cw_with "a"; cw_with "b"; cw_with "c"].
Proof. split; vm_compute; reflexivity. Qed.
(** A change between the two steps of [subscribe] is queued before the older info that
    the second step posts, which is then the last one. *)
Theorem subscribe_races_with_notify :
  let '(ss, id, curr) := sub_register (newClusterInfoSubscribers (cw_with "a")) in
  exists ss', sub_post id curr (notify (cw_with "b") ss) = Some ss' /\
    current ss' = cw_with "b" /\ subscribers ss' !! id = Some [cw_with "b"; cw_with "a"].
Proof. eexists. split; [vm_compute; reflexivity|]. split; vm_compute; reflexivity. Qed.
