(* ===== verification/UserIntercepts.v ===== *)
(** * Intercepts of the user daemon (src/pkg/client/userd/trafficmgr)

    The user daemon follows the intercepts that the traffic-manager reports: it keeps the
    current ones with a context each, starts port forwards and mounts in one pod per
    intercept (podaccess.go), tells those who wait for an intercept, checks a new one for
    local conflicts (intercept.go, mount.go) and declares shortcuts to the root daemon
    (intercept_shortcuts.go).  The answer of the root daemon about an agent's address and
    the resolution of host names are parameters; contexts and channels are numbers. *)
From S2P Require Import Prelude NetIP GoStrings NetParse PortTypes IpUtil SessionStream Icept ManagerPrepare.
From Stdlib Require Import Ascii.

(** ** Intercepts, as the client sees them *)
Record ClientIntercept := mkCI {
  ci_info : InterceptInfo;
  ci_TargetHost : string;
  ci_ServiceIps : list (list Z);
  ci_LocalPorts : list string;
  ci_ExtraPorts : list Z;
  ci_PodIp : string;
  ci_ClientMountPoint : string;
  ci_SftpPort : Z;
  ci_FtpPort : Z
}.
Definition ci_Id (c : ClientIntercept) : string := ii_Id (ci_info c).
Definition ci_Spec (c : ClientIntercept) : InterceptSpec := ii_Spec (ci_info c).
Definition ci_Name (c : ClientIntercept) : string := sp_Name (ci_Spec c).
Definition set_local (ps : list string) (mount : string) (c : ClientIntercept) : ClientIntercept :=
  mkCI (ci_info c) (ci_TargetHost c) (ci_ServiceIps c) ps (ci_ExtraPorts c) (ci_PodIp c) mount (ci_SftpPort c) (ci_FtpPort c).

Record intercept := mkIcept {
  ic_ii : ClientIntercept; ic_ctx : nat; ic_pid : Z; ic_handler : string; ic_localMountPort : Z; ic_readOnly : bool
}.
Record awaitIntercept := mkAwait { aw_mountPoint : string; aw_mountPort : Z; aw_readOnly : bool }.

(** [localPorts]: older managers report extra ports, which are all TCP. *)
Definition localPorts (c : ClientIntercept) : list string :=
  if Nat.eqb (length (ci_LocalPorts c)) 0 then itoa <$> ci_ExtraPorts c else ci_LocalPorts c.

(** ** Local ports *)
Section Ports.
Context `{K8sApi}.

Inductive port_error :=
  | PErr (e : types_error) | ErrMultipleUse (ap : AddrPortProto) | ErrPortInUse (ap : AddrPortProto) (name : string) | ErrTargetHost.

Definition lift_types {A} (r : Go types_error A) : Go port_error A :=
  match r with Ret a => Ret a | Fail x => Fail (PErr x) | Panic => Panic end.
Definition at_host (host : Addr) (pp : PortAndProto) : AddrPortProto :=
  {| app_AddrPort := {| ap_addr := host; ap_port := pp_Port pp |}; app_Proto := pp_Proto pp |}.
Definition zero_pp : PortAndProto := {| pp_Port := 0; pp_Proto := 0 |}.
Definition port_or_zero (lp : string) : PortAndProto :=
  match ParsePortAndProto lp with Ret pp => pp | _ => zero_pp end.

Definition allBusyLocalPorts (targetHost : Addr) (c : ClientIntercept) : Go port_error (list AddrPortProto) :=
  let spec := ci_Spec c in
  let targetPort := if sp_TargetPort spec =? 0 then sp_ContainerPort spec else sp_TargetPort spec in
  proto ← lift_types (ParseProto (sp_Protocol spec));
  Ret (at_host targetHost {| pp_Port := u16 targetPort; pp_Proto := proto |} ::
       (at_host targetHost <$> (port_or_zero <$> ci_LocalPorts c)) ++
       (at_host targetHost <$> (ToAsNumeric <$> sp_PodPorts spec))).

(** The two loops of [ensureUniqueLocalPorts]. *)
Fixpoint unique_local (host : Addr) (ports : gset AddrPortProto) (lps : list string) : Go port_error (gset AddrPortProto) :=
  match lps with
  | [] => Ret ports
  | lp :: lps =>
      pp ← lift_types (ParsePortAndProto lp);
      let ap := at_host host pp in
      if bool_decide (ap ∈ ports) then Fail (ErrMultipleUse ap) else unique_local host ({[ ap ]} ∪ ports) lps
  end.
Fixpoint unique_pod (host : Addr) (ports : gset AddrPortProto) (pms : list string) : Go port_error (gset AddrPortProto) :=
  match pms with
  | [] => Ret ports
  | pm :: pms =>
      match PortMapping_Validate pm with
      | Some x => Fail (PErr x)
      | None =>
          let ap := at_host host (ToAsNumeric pm) in
          if bool_decide (ap ∈ ports) then Fail (ErrMultipleUse ap) else unique_pod host ({[ ap ]} ∪ ports) pms
      end
  end.
Definition ensureUniqueLocalPorts (targetHost : Addr) (c : ClientIntercept) (pi : PreparedIntercept) : Go port_error (gset AddrPortProto) :=
  let targetPort := if sp_TargetPort (ci_Spec c) =? 0 then pi_ContainerPort pi else sp_TargetPort (ci_Spec c) in
  proto ← lift_types (ParseProto (pi_Protocol pi));
  ports ← unique_local targetHost {[ at_host targetHost {| pp_Port := u16 targetPort; pp_Proto := proto |} ]} (ci_LocalPorts c);
  unique_pod targetHost ports (pi_PodPorts pi).

(** The loop of [ensureNoPortConflict] over the current intercepts, in the order of the map. *)
Fixpoint no_port_conflict (ports : gset AddrPortProto) (cis : list ClientIntercept) : Go port_error () :=
  match cis with
  | [] => Ret tt
  | ci :: cis =>
      match ParseAddr (ci_TargetHost ci) with
      | None => Fail ErrTargetHost
      | Some host =>
          busyPorts ← allBusyLocalPorts host ci;
          match list_find (fun blp => blp ∈ ports) busyPorts with
          | Some (_, blp) => Fail (ErrPortInUse blp (ci_Name ci))
          | None => no_port_conflict ports cis
          end
      end
  end.
Definition ensureNoPortConflict (current : list ClientIntercept) (c : ClientIntercept) (pi : PreparedIntercept) : Go port_error () :=
  match ParseAddr (ci_TargetHost c) with
  | None => Fail ErrTargetHost
  | Some targetHost =>
      ports ← ensureUniqueLocalPorts targetHost c pi;
      no_port_conflict ports current
  end.

(** What [AddIntercept] fills in before it asks the traffic-manager to create the
    intercept: everything that the prepared intercept determines. *)
Definition prepared_port (pi : PreparedIntercept) : Go types_error string :=
  NewPortIdentifier (FromK8sProtocol (pi_Protocol pi))
    (if bool_decide (pi_ServicePortName pi = ""%string) then itoa (pi_ServicePort pi) else pi_ServicePortName pi).
Definition complete_spec (clientID : string) (pi : PreparedIntercept) (sp : InterceptSpec) : Go types_error InterceptSpec :=
  let uses_service := (0 <? pi_ServicePort pi) || negb (bool_decide (pi_ServicePortName pi = ""%string)) in
  let all := bool_decide (sp_PortIdentifier sp = "all"%string) in
  pti ← (if all then Ret ""%string else if uses_service then prepared_port pi else Ret (sp_PortIdentifier sp));
  let service := negb all && uses_service in
  Ret (mkSpec
    (if sp_NoDefaultPort sp then sp_Agent sp +:+ "/" +:+ pi_ContainerName pi else sp_Name sp)
    clientID (sp_Agent sp) (sp_Namespace sp) (pi_ServiceName pi) (pi_ContainerName pi) pti
    (pi_ContainerPort pi) (pi_Protocol pi) (sp_Replace sp) (sp_Wiretap sp) (sp_NoDefaultPort sp)
    (sp_HeaderFilters sp) (sp_PathFilters sp) (pi_PodPorts pi)
    (if bool_decide (sp_Mechanism sp = ""%string) then "tcp"%string else sp_Mechanism sp)
    (if sp_TargetPort sp =? 0 then pi_ContainerPort pi else sp_TargetPort sp)
    (pi_ServiceUid pi)
    (if service then pi_ServicePortName pi else sp_ServicePortName sp)
    (if service then pi_ServicePort pi else sp_ServicePort sp)).
End Ports.

(** [compareFinalizedManagerVersion]: differences of uint64 converted to int. *)
Definition to_int64 (x : Z) : Z := if x <? 2 ^ 63 then x else x - 2 ^ 64.
Definition compareFinalizedManagerVersion (mv v : Z * Z * Z) : Z :=
  let '(mj, mn, pt) := mv in let '(major, minor, patch) := v in
  let n := u64 (mj - major) in
  let n := if n =? 0 then (let n := u64 (mn - minor) in if n =? 0 then u64 (pt - patch) else n) else n in
  to_int64 n.

(** ** Pod access *)
Record paKey := mkKey { pk_namespace : string; pk_container : string; pk_podIP : string }.
Global Instance paKey_eq_dec : EqDecision paKey.
Proof. solve_decision. Defined.
Global Instance paKey_countable : Countable paKey.
Proof.
  refine (inj_countable' (fun k => (pk_namespace k, pk_container k, pk_podIP k)) (fun x => mkKey x.1.1 x.1.2 x.2) _). by intros [].
Defined.
Record podAccess := mkPA {
  pa_ctx : nat; pa_localPorts : list string; pa_workload : string; pa_namespace : string; pa_container : string; pa_podIP : string;
  pa_sftpPort : Z; pa_ftpPort : Z; pa_clientMountPoint : string; pa_localMountPort : Z; pa_readOnly : bool
}.
Definition pa_key (pa : podAccess) : paKey := mkKey (pa_namespace pa) (pa_container pa) (pa_podIP pa).
Definition shouldForward (pa : podAccess) : bool := negb (Nat.eqb (length (pa_localPorts pa)) 0).
Definition shouldMount (pa : podAccess) : bool :=
  ((0 <? pa_ftpPort pa) || (0 <? pa_sftpPort pa)) && ((0 <? pa_localMountPort pa) || negb (bool_decide (pa_clientMountPoint pa = ""%string))).

(** What runs for a pod; it ends when [al_ctx], the context it was started with, or its
    own context is cancelled. *)
Record alive := mkAlive { al_workload : string; al_ctx : nat; al_ports : list string; al_mount : bool }.
Record tracker := mkTracker {
  alivePods : gmap paKey alive;
  t_snapshot : gset paKey;
  mountsReady : gmap paKey nat;
  t_closed : list bool                 (* the channels and whether they are closed *)
}.
Definition newPodAccessTracker : tracker := mkTracker ∅ ∅ ∅ [].
Definition initSnapshot (t : tracker) : tracker := mkTracker (alivePods t) ∅ ∅ (t_closed t).
Definition privateStart (pa : podAccess) (t : tracker) : tracker :=
  if negb (shouldForward pa) && negb (shouldMount pa) then t
  else match alivePods t !! pa_key pa with
       | Some _ => t
       | None => mkTracker (<[pa_key pa := mkAlive (pa_workload pa) (pa_ctx pa) (pa_localPorts pa) (shouldMount pa)]> (alivePods t))
                   (t_snapshot t) (mountsReady t) (t_closed t)
       end.
Definition close_ready (k : paKey) (t : tracker) : tracker :=
  match mountsReady t !! k with
  | Some ch => mkTracker (alivePods t) (t_snapshot t) (delete k (mountsReady t)) (<[ch := true]> (t_closed t))
  | None => t
  end.
Definition start (pa : podAccess) (t : tracker) : tracker :=
  close_ready (pa_key pa)
    (privateStart pa (mkTracker (alivePods t) ({[ pa_key pa ]} ∪ t_snapshot t) (mountsReady t) (t_closed t))).
Definition getOrCreateMountsDone (pa : podAccess) (t : tracker) : tracker * nat :=
  match mountsReady t !! pa_key pa with
  | Some ch => (t, ch)
  | None => (mkTracker (alivePods t) (t_snapshot t) (<[pa_key pa := length (t_closed t)]> (mountsReady t)) (t_closed t ++ [false]),
             length (t_closed t))
  end.
Definition privateDelete (k : paKey) (t : tracker) : tracker :=
  close_ready k (mkTracker (delete k (alivePods t)) (t_snapshot t) (mountsReady t) (t_closed t)).
(** Both loops over the map of pods that delete what they select. *)
Definition cancel_where (f : paKey -> alive -> bool) (t : tracker) : tracker :=
  foldl (fun t kv => if f kv.1 kv.2 then privateDelete kv.1 t else t) t (map_to_list (alivePods t)).
Definition cancelContainer (workload container : string) : tracker -> tracker :=
  cancel_where (fun k lp => bool_decide (pk_container k = container) && bool_decide (al_workload lp = workload)).
Definition cancelUnwanted (t : tracker) : tracker := cancel_where (fun k _ => negb (bool_decide (k ∈ t_snapshot t))) t.

(** ** The current intercepts *)
Record USession := mkUS {
  us_current : gmap string intercept;
  us_waiters : gmap string awaitIntercept;
  us_nextCtx : nat;
  us_cancelled : list nat;             (* contexts cancelled because their intercept is gone; the channel of the
                                          removal is closed at the same time *)
  us_tracker : tracker
}.

(** The loop of [setCurrentIntercepts]: the new map and the next context. *)
Definition set_one (cur : gmap string intercept) (waiters : gmap string awaitIntercept)
    (acc : gmap string intercept * nat) (ii : ClientIntercept) : gmap string intercept * nat :=
  let '(m, next) := acc in
  match cur !! ci_Id ii with
  | Some ic =>
      (<[ci_Id ii := mkIcept (set_local (ci_LocalPorts ii) (ci_ClientMountPoint (ic_ii ic)) ii)
           (ic_ctx ic) (ic_pid ic) (ic_handler ic) (ic_localMountPort ic) (ic_readOnly ic)]> m, next)
  | None =>
      let ic := match waiters !! ci_Name ii with
                | Some aw => mkIcept (set_local (ci_LocalPorts ii) (aw_mountPoint aw) ii) next 0 "" (aw_mountPort aw) (aw_readOnly aw)
                | None => mkIcept ii next 0 "" 0 false
                end in
      (<[ci_Id ii := ic]> m, S next)
  end.
Definition setCurrentIntercepts (iis : list ClientIntercept) (s : USession) : USession :=
  let '(m, next) := foldl (set_one (us_current s) (us_waiters s)) (∅, us_nextCtx s) iis in
  let removed := filter (fun x : string * intercept => m !! x.1 = None) (map_to_list (us_current s)) in
  mkUS m (us_waiters s) next (us_cancelled s ++ (ic_ctx <$> removed.*2)) (us_tracker s).

(** [localPorts] stores its result in the specification. *)
Definition fix_ports (ic : intercept) : intercept :=
  mkIcept (set_local (localPorts (ic_ii ic)) (ci_ClientMountPoint (ic_ii ic)) (ic_ii ic))
    (ic_ctx ic) (ic_pid ic) (ic_handler ic) (ic_localMountPort ic) (ic_readOnly ic).
Definition podAccess_of (ic : intercept) : podAccess :=
  let ii := ic_ii ic in
  mkPA (ic_ctx ic) (ci_LocalPorts ii) (sp_Agent (ci_Spec ii)) (sp_Namespace (ci_Spec ii)) (sp_ContainerName (ci_Spec ii)) (ci_PodIp ii)
    (ci_SftpPort ii) (ci_FtpPort ii) (ci_ClientMountPoint ii) (ic_localMountPort ic) (ic_readOnly ic).
Definition set_pod (ip : string) (mounts : bool) (pa : podAccess) : podAccess :=
  mkPA (pa_ctx pa) (pa_localPorts pa) (pa_workload pa) (pa_namespace pa) (pa_container pa) ip
    (if mounts then pa_sftpPort pa else 0) (if mounts then pa_ftpPort pa else 0) (pa_clientMountPoint pa) (pa_localMountPort pa) (pa_readOnly pa).

Section Snapshot.
(** [ensureAccess]: the local IP of the pod, or an error. *)
Context (ensureAccess : podAccess -> option string) (isPodDaemon : bool).

(** What a waiter is told: the channel of the mounts, or an error. *)
Inductive wait_result := WaitOk (ctx : nat) (mountsDone : nat) | WaitErr.

(** One intercept of the snapshot, which is in the map that was just built from it.  The
    result for the waiter, if there is one, is added to the list. *)
Definition handle_one (acc : USession * list (string * wait_result)) (ii : ClientIntercept) : USession * list (string * wait_result) :=
  let '(s, told) := acc in
  if bool_decide (ii_Disposition (ci_info ii) = WAITING) then acc
  else
    match us_current s !! ci_Id ii with
    | None => acc
    | Some ic =>
        let aw := us_waiters s !! ci_Name ii in
        let ic := fix_ports ic in
        let s := mkUS (<[ci_Id ii := ic]> (us_current s)) (delete (ci_Name ii) (us_waiters s)) (us_nextCtx s) (us_cancelled s) (us_tracker s) in
        let access := if bool_decide (ii_Disposition (ci_info ii) = ACTIVE) then ensureAccess (podAccess_of ic) else None in
        match access with
        | None => (s, match aw with Some _ => told ++ [(ci_Name ii, WaitErr)] | None => told end)
        | Some ip =>
            let pa := set_pod ip true (podAccess_of ic) in
            let '(t, told) :=
              match aw with
              | Some _ => let '(t, ch) := getOrCreateMountsDone pa (us_tracker s) in (t, told ++ [(ci_Name ii, WaitOk (pa_ctx pa) ch)])
              | None => (us_tracker s, told)
              end in
            (mkUS (us_current s) (us_waiters s) (us_nextCtx s) (us_cancelled s)
               (start (set_pod ip (negb isPodDaemon) pa) t), told)
        end
    end.
Definition with_tracker (f : tracker -> tracker) (s : USession) : USession :=
  mkUS (us_current s) (us_waiters s) (us_nextCtx s) (us_cancelled s) (f (us_tracker s)).
Definition handleInterceptSnapshot (iis : list ClientIntercept) (s : USession) : USession * list (string * wait_result) :=
  let s := with_tracker initSnapshot (setCurrentIntercepts iis s) in
  let '(s, told) := foldl handle_one (s, []) iis in
  (with_tracker cancelUnwanted s, told).
End Snapshot.

(** ** Looking up an intercept by name *)
Definition SLASH : ascii := "/"%char.
Definition getInterceptByName (ics : list intercept) (ingests : list string) (name : string) : option intercept :=
  match list_find (fun ic => ci_Name (ic_ii ic) = name) ics with
  | Some (_, ic) => Some ic
  | None =>
      match IndexByte name SLASH with
      | Some (S ix) =>
          snd <$> list_find (fun ic => ci_Name (ic_ii ic) = str_take (S ix) name /\
                                       sp_ContainerName (ci_Spec (ic_ii ic)) = str_drop (S (S ix)) name) ics
      | _ =>
          match filter (fun ic => HasPrefix (ci_Name (ic_ii ic)) (name +:+ "/") = true) ics with
          | [ic] => if bool_decide (name ∈ ingests) then None else Some ic
          | _ => None
          end
      end
  end.
Definition InterceptsForWorkload (ics : list intercept) (workload namespace : string) : list intercept :=
  filter (fun ic => sp_Agent (ci_Spec (ic_ii ic)) = workload /\ sp_Namespace (ci_Spec (ic_ii ic)) = namespace) ics.
Definition AddInterceptor (id : string) (pid : Z) (container : string) (m : gmap string intercept) : gmap string intercept :=
  alter (fun ic => mkIcept (ic_ii ic) (ic_ctx ic) pid container (ic_localMountPort ic) (ic_readOnly ic)) id m.

Inductive conflict := MountInUse | NameInUse.
Definition ensureNoInterceptConflict (cur : gmap string intercept) (ingests : list (string * Z))
    (name mountPoint : string) (mountPort : Z) : option conflict :=
  let clash (point : string) (port : Z) :=
    (negb (bool_decide (mountPoint = ""%string)) && bool_decide (point = mountPoint)) || (negb (mountPort =? 0) && (port =? mountPort)) in
  if existsb (fun x : string * intercept => clash (ci_ClientMountPoint (ic_ii x.2)) (ic_localMountPort x.2)) (map_to_list cur)
     || existsb (fun x : string * Z => clash x.1 x.2) ingests
  then Some MountInUse
  else if existsb (fun x : string * intercept => bool_decide (ci_Name (ic_ii x.2) = name)) (map_to_list cur)
  then Some NameInUse else None.

(** ** Shortcuts *)
Definition shortcutEligible (spec : InterceptSpec) (isGlobal : bool) : bool :=
  if sp_Wiretap spec then false
  else if isGlobal then true
  else Nat.eqb (length (sp_HeaderFilters spec)) 0 && Nat.eqb (length (sp_PathFilters spec)) 0 &&
       (bool_decide (sp_Mechanism spec = ""%string) || bool_decide (sp_Mechanism spec = "tcp"%string)).
Definition shortcutServiceAddrs (c : ClientIntercept) : list (list Z) :=
  if sp_ServicePort (ci_Spec c) =? 0 then []
  else omap (fun ipb => ip ← AddrFromSlice ipb; Some (AddrPort_MarshalBinary {| ap_addr := ip; ap_port := u16 (sp_ServicePort (ci_Spec c)) |}))
         (ci_ServiceIps c).

Section Shortcuts.
Context `{K8sApi} (resolve : Addr -> option Addr).      (* [Resolve]: synthetic addresses become real ones *)

Definition shortcut_target (c : ClientIntercept) : option AddrPort :=
  addr ← ParseAddr (ci_TargetHost c); addr ← resolve addr;
  Some {| ap_addr := addr; ap_port := u16 (sp_TargetPort (ci_Spec c)) |}.
Definition intercept_shortcut (isGlobal : bool) (c : ClientIntercept) : option InterceptShortcut :=
  let spec := ci_Spec c in
  if negb (bool_decide (ii_Disposition (ci_info c) = ACTIVE)) || negb (shortcutEligible spec isGlobal) then None
  else target ← shortcut_target c;
       Some {| sc_Protocol := if bool_decide (sp_Protocol spec = ""%string) then Proto_String ProtoTCP else sp_Protocol spec;
               sc_Target := AddrPort_MarshalBinary target; sc_ServiceAddrs := shortcutServiceAddrs c;
               sc_Workload := sp_Agent spec; sc_Namespace := sp_Namespace spec;
               sc_ContainerPort := u32 (sp_ContainerPort spec) |}.
Definition interceptShortcuts (isGlobal : bool) (iis : list ClientIntercept) : list InterceptShortcut :=
  omap (intercept_shortcut isGlobal) iis.
(** [pushInterceptShortcuts]: what the root daemon is told. *)
Definition pushed_shortcuts (localShortcut isGlobal : bool) (iis : list ClientIntercept) : list InterceptShortcut :=
  if localShortcut then interceptShortcuts isGlobal iis else [].
End Shortcuts.
