(* ===== verification/UserInterceptsSpec.v ===== *)
(** * Theorems on the intercepts of the user daemon

    Local ports: what is reserved for an intercept is what later checks see, and accepted
    intercepts never share a port.  Snapshots: contexts are cancelled once and only for
    intercepts that are gone, and whoever waits for mounts is told.  Shortcuts: what the
    root daemon connects directly is exactly what the active intercepts cover.  Findings
    on the tracking of pods. *)
From S2P Require Import Prelude NetIP GoStrings NetParse PortTypes PortSpec IpUtil ConnId SessionStream SessionStreamSpec Icept ManagerPrepare UserIntercepts.

(** ** Local ports *)
Section Ports.
Context `{K8sApi}.

Definition with_spec (sp : InterceptSpec) (c : ClientIntercept) : ClientIntercept :=
  mkCI (mkInfo (ci_Id c) (ii_Disposition (ci_info c)) sp) (ci_TargetHost c) (ci_ServiceIps c) (ci_LocalPorts c) (ci_ExtraPorts c)
    (ci_PodIp c) (ci_ClientMountPoint c) (ci_SftpPort c) (ci_FtpPort c).
Definition busy_ports (c : ClientIntercept) : Go port_error (list AddrPortProto) :=
  match ParseAddr (ci_TargetHost c) with None => Fail ErrTargetHost | Some host => allBusyLocalPorts host c end.

Lemma unique_local_spec host lps : forall seen ports, unique_local host (list_to_set seen) lps = Ret ports -> NoDup seen ->
  let all := seen ++ (at_host host <$> (port_or_zero <$> lps)) in NoDup all /\ ports = list_to_set all.
Proof.
  induction lps as [|lp lps IH]; intros seen ports; cbn [unique_local fmap list_fmap].
  { intros [= <-] Hn. rewrite app_nil_r. done. }
  destruct (ParsePortAndProto lp) as [pp| |] eqn:Hp; cbn [lift_types mbind go_bind]; [|done|done].
  case_bool_decide as Hin; [done|]. intros Hu Hn.
  assert (port_or_zero lp = pp) as -> by (unfold port_or_zero; by rewrite Hp).
  replace ({[at_host host pp]} ∪ list_to_set seen : gset AddrPortProto) with (list_to_set (seen ++ [at_host host pp]) : gset AddrPortProto) in Hu by set_solver.
  apply IH in Hu; [by rewrite <- app_assoc in Hu|]. apply NoDup_app. split_and!; [done| |apply NoDup_singleton].
  intros x Hx ->%list_elem_of_singleton. set_solver.
Qed.
Lemma unique_pod_spec host pms : forall seen ports, unique_pod host (list_to_set seen) pms = Ret ports -> NoDup seen ->
  let all := seen ++ (at_host host <$> (ToAsNumeric <$> pms)) in NoDup all /\ ports = list_to_set all.
Proof.
  induction pms as [|pm pms IH]; intros seen ports; cbn [unique_pod fmap list_fmap].
  { intros [= <-] Hn. rewrite app_nil_r. done. }
  destruct (PortMapping_Validate pm); [done|]. case_bool_decide as Hin; [done|]. intros Hu Hn.
  replace ({[at_host host (ToAsNumeric pm)]} ∪ list_to_set seen : gset AddrPortProto)
    with (list_to_set (seen ++ [at_host host (ToAsNumeric pm)]) : gset AddrPortProto) in Hu by set_solver.
  apply IH in Hu; [by rewrite <- app_assoc in Hu|]. apply NoDup_app. split_and!; [done| |apply NoDup_singleton].
  intros x Hx ->%list_elem_of_singleton. set_solver.
Qed.

Lemma complete_spec_ports cid pi sp sp' : complete_spec cid pi sp = Ret sp' ->
  sp_Protocol sp' = pi_Protocol pi /\ sp_ContainerPort sp' = pi_ContainerPort pi /\ sp_PodPorts sp' = pi_PodPorts pi /\
  sp_TargetPort sp' = (if sp_TargetPort sp =? 0 then pi_ContainerPort pi else sp_TargetPort sp).
Proof.
  unfold complete_spec. cbv zeta. intros (pti & _ & Hs)%go_bind_ret. injection Hs as <-. done.
Qed.

(** The ports that are reserved when an intercept is checked are the ones that later
    checks find busy, without repetition. *)
Lemma reserved_are_busy cid host c pi sp' ports :
  ensureUniqueLocalPorts host c pi = Ret ports -> complete_spec cid pi (ci_Spec c) = Ret sp' ->
  exists busy, allBusyLocalPorts host (with_spec sp' c) = Ret busy /\ NoDup busy /\ ports = list_to_set busy.
Proof.
  intros Hu (Hp & Hc & Hpp & Ht)%complete_spec_ports. unfold ensureUniqueLocalPorts in Hu. unfold allBusyLocalPorts.
  change (ci_Spec (with_spec sp' c)) with sp'. change (ci_LocalPorts (with_spec sp' c)) with (ci_LocalPorts c). rewrite Hp, Hc, Hpp, Ht.
  assert (Hport : (if (if sp_TargetPort (ci_Spec c) =? 0 then pi_ContainerPort pi else sp_TargetPort (ci_Spec c)) =? 0
                   then pi_ContainerPort pi else if sp_TargetPort (ci_Spec c) =? 0 then pi_ContainerPort pi else sp_TargetPort (ci_Spec c)) =
                  if sp_TargetPort (ci_Spec c) =? 0 then pi_ContainerPort pi else sp_TargetPort (ci_Spec c)).
  { destruct (sp_TargetPort (ci_Spec c) =? 0) eqn:E; [|by rewrite E]. by destruct (pi_ContainerPort pi =? 0). }
  rewrite Hport. destruct (lift_types (ParseProto (pi_Protocol pi))) as [proto| |]; cbn [mbind go_bind] in *; [|done|done].
  set (first := at_host host _) in *. destruct (unique_local host {[ first ]} (ci_LocalPorts c)) as [p1| |] eqn:E1; cbn [mbind go_bind] in Hu; [|done|done].
  replace ({[ first ]} : gset AddrPortProto) with (list_to_set [first] : gset AddrPortProto) in E1 by set_solver.
  apply unique_local_spec in E1 as [Hn1 ->]; [|apply NoDup_singleton]. apply unique_pod_spec in Hu as [Hn2 ->]; [|done].
  eexists. split; [done|]. cbn [app] in *. done.
Qed.

Lemma no_port_conflict_spec ports cis :
  match no_port_conflict ports cis with
  | Ret _ => forall ci, ci ∈ cis -> exists busy, busy_ports ci = Ret busy /\ forall p, p ∈ busy -> p ∉ ports
  | Fail (ErrPortInUse p n) => exists ci busy, ci ∈ cis /\ ci_Name ci = n /\ busy_ports ci = Ret busy /\ p ∈ busy /\ p ∈ ports
  | Fail e => exists ci, ci ∈ cis /\ busy_ports ci = Fail e
  | Panic => exists ci, ci ∈ cis /\ busy_ports ci = Panic
  end.
Proof.
  induction cis as [|ci cis IH]; cbn [no_port_conflict].
  { intros ci Hci. by apply elem_of_nil in Hci. }
  unfold busy_ports in *. destruct (ParseAddr (ci_TargetHost ci)) as [host|] eqn:Eh.
  2:{ exists ci. split; [left|]. by rewrite Eh. }
  destruct (allBusyLocalPorts host ci) as [busy|x|] eqn:Eb; cbn [mbind go_bind].
  - destruct (list_find _ busy) as [[i p]|] eqn:Ef.
    + apply list_find_Some in Ef as (Hi & Hp & _). exists ci, busy. rewrite Eh. split_and!; try done; [left|]. by eapply list_elem_of_lookup_2.
    + apply list_find_None in Ef. destruct (no_port_conflict ports cis) as [u|x|].
      * intros c [->|Hc]%elem_of_cons; [|auto]. exists busy. rewrite Eh. split; [done|]. by rewrite Forall_forall in Ef.
      * destruct x; destruct IH as (c & IH); try (exists c; destruct IH as [? ?]; split; [by right|done]).
        destruct IH as (b & Hin & ?). exists c, b. split; [by right|done].
      * destruct IH as (c & ? & ?). exists c. split; [by right|done].
  - destruct x; try (exists ci; rewrite Eh; split; [left|done]). exfalso. unfold allBusyLocalPorts in Eb. by destruct (ParseProto _).
  - exists ci. rewrite Eh. split; [left|done].
Qed.

(** An intercept that passes the check shares no local port with the current ones: the
    ports that its completed specification occupies are all different, and none is
    occupied by a current intercept.  A refusal for a port names a current intercept that
    occupies it. *)
Theorem ensureNoPortConflict_correct cid cur c pi sp' :
  complete_spec cid pi (ci_Spec c) = Ret sp' ->
  match ensureNoPortConflict cur c pi with
  | Ret _ => exists busy, busy_ports (with_spec sp' c) = Ret busy /\ NoDup busy /\
      forall ci, ci ∈ cur -> exists busy', busy_ports ci = Ret busy' /\ forall p, p ∈ busy' -> p ∉ busy
  | Fail (ErrPortInUse p n) => exists ci busy busy', ci ∈ cur /\ ci_Name ci = n /\
      busy_ports (with_spec sp' c) = Ret busy /\ busy_ports ci = Ret busy' /\ p ∈ busy' /\ p ∈ busy
  | _ => True
  end.
Proof.
  intros Hs. unfold ensureNoPortConflict. unfold busy_ports at 1 3. change (ci_TargetHost (with_spec sp' c)) with (ci_TargetHost c).
  destruct (ParseAddr (ci_TargetHost c)) as [host|]; [|done].
  destruct (ensureUniqueLocalPorts host c pi) as [ports|x|] eqn:Eu; cbn [mbind go_bind].
  - destruct (reserved_are_busy cid host c pi sp' ports Eu Hs) as (busy & Hb & Hn & ->).
    pose proof (no_port_conflict_spec (list_to_set busy) cur) as Hc. destruct (no_port_conflict _ cur) as [u|x|]; [| |done].
    + exists busy. split_and!; try done. intros ci Hci. destruct (Hc ci Hci) as (b & ? & Hd). exists b. split; [done|]. intros p Hp. specialize (Hd p Hp). set_solver.
    + destruct x; try done. destruct Hc as (ci & b & ? & ? & ? & ? & ?). exists ci, busy, b. split_and!; try done. set_solver.
  - destruct x as [| | |]; try done. exfalso. unfold ensureUniqueLocalPorts in Eu. revert Eu.
    assert (Hl : forall lps seen p n, unique_local host seen lps <> Fail (ErrPortInUse p n)).
    { induction lps as [|lp lps IH]; intros seen p n; cbn [unique_local]; [done|].
      destruct (ParsePortAndProto lp); cbn [lift_types mbind go_bind]; try done. case_bool_decide; [done|apply IH]. }
    assert (Hp : forall pms seen p n, unique_pod host seen pms <> Fail (ErrPortInUse p n)).
    { induction pms as [|pm pms IH]; intros seen p n; cbn [unique_pod]; [done|].
      destruct (PortMapping_Validate pm); [done|]. case_bool_decide; [done|apply IH]. }
    destruct (ParseProto (pi_Protocol pi)); cbn [lift_types mbind go_bind]; try done.
    destruct (unique_local _ _ _) eqn:El; cbn [mbind go_bind]; [apply Hp|intros [= ->]; by eapply Hl|done].
  - done.
Qed.
End Ports.

(** The comparison of versions: subtraction of unsigned numbers that wrap around, read as
    a signed number, has the sign of the lexicographic comparison for all components below
    2^63. *)
Definition ver_lt (a b : Z * Z * Z) : Prop :=
  a.1.1 < b.1.1 \/ a.1.1 = b.1.1 /\ (a.1.2 < b.1.2 \/ a.1.2 = b.1.2 /\ a.2 < b.2).
Definition ver_ok (a : Z * Z * Z) : Prop := 0 <= a.1.1 < 2 ^ 63 /\ 0 <= a.1.2 < 2 ^ 63 /\ 0 <= a.2 < 2 ^ 63.
Lemma diff_int64 x y : 0 <= x < 2 ^ 63 -> 0 <= y < 2 ^ 63 -> to_int64 (u64 (x - y)) = x - y /\ (u64 (x - y) =? 0) = (x =? y).
Proof.
  intros Hx Hy. unfold to_int64, wrap. change (2 ^ 64) with (2 * 2 ^ 63) in *. set (m := 2 ^ 63) in *.
  destruct (Z.lt_ge_cases x y).
  - assert ((x - y) mod (2 * m) = x - y + 2 * m) as -> by (symmetry; apply (Z.mod_unique _ _ (-1)); [left; lia|lia]).
    destruct (Z.ltb_spec (x - y + 2 * m) m); [lia|]. split; [lia|]. destruct (Z.eqb_spec (x - y + 2 * m) 0), (Z.eqb_spec x y); lia.
  - rewrite Z.mod_small by lia. destruct (Z.ltb_spec (x - y) m); [|lia]. split; [done|]. destruct (Z.eqb_spec (x - y) 0), (Z.eqb_spec x y); lia.
Qed.
Theorem compareFinalizedManagerVersion_sign mv v : ver_ok mv -> ver_ok v ->
  (compareFinalizedManagerVersion mv v < 0 <-> ver_lt mv v) /\ (compareFinalizedManagerVersion mv v = 0 <-> mv = v).
Proof.
  destruct mv as [[a b] c], v as [[a' b'] c']. intros (Ha & Hb & Hc) (Ha' & Hb' & Hc'). cbn [fst snd] in *.
  destruct (diff_int64 a a' Ha Ha') as [Ea Za], (diff_int64 b b' Hb Hb') as [Eb Zb], (diff_int64 c c' Hc Hc') as [Ec _].
  unfold compareFinalizedManagerVersion, ver_lt. cbv zeta. rewrite Za, Zb. cbn [fst snd].
  destruct (Z.eqb_spec a a') as [->|]; [destruct (Z.eqb_spec b b') as [->|]|]; rewrite ?Ea, ?Eb, ?Ec.
  - split; [lia|]. split; [intros; do 2 f_equal; lia|intros [= ->]; lia].
  - split; [lia|]. split; [lia|intros [= -> ->]; lia].
  - split; [lia|]. split; [lia|intros [= -> -> ->]; lia].
Qed.
Lemma compareFinalizedManagerVersion_sign_witness :
  (compareFinalizedManagerVersion (2, 9, 7) (2, 23, 0) < 0 <-> ver_lt (2, 9, 7) (2, 23, 0)) /\
  (compareFinalizedManagerVersion (2, 9, 7) (2, 23, 0) = 0 <-> (2, 9, 7) = (2, 23, 0)).
Proof. apply compareFinalizedManagerVersion_sign; unfold ver_ok; cbn; lia. Defined.

(** ** Trackers *)
Definition tracker_inv (t : tracker) : Prop := forall k ch, mountsReady t !! k = Some ch -> (ch < length (t_closed t))%nat.
Definition keeps_closed (t t' : tracker) : Prop := forall ch, t_closed t !! ch = Some true -> t_closed t' !! ch = Some true.

Lemma close_ready_spec k t : tracker_inv t -> let t' := close_ready k t in
  tracker_inv t' /\ keeps_closed t t' /\ alivePods t' = alivePods t /\ t_snapshot t' = t_snapshot t /\
  (forall ch, mountsReady t !! k = Some ch -> t_closed t' !! ch = Some true).
Proof.
  intros Hi. unfold close_ready. destruct (mountsReady t !! k) as [ch|] eqn:Hk.
  2:{ refine (conj Hi (conj _ (conj eq_refl (conj eq_refl _)))); [by intros ch|done]. }
  cbn [alivePods t_snapshot mountsReady t_closed]. unfold tracker_inv, keeps_closed. cbn [t_closed mountsReady]. split_and!; try done.
  - intros k' c [_ Hc]%lookup_delete_Some. rewrite length_insert. by eapply Hi.
  - intros c Hc. destruct (decide (ch = c)) as [->|]; [apply list_lookup_insert_eq; by eapply Hi|by rewrite list_lookup_insert_ne].
  - intros c [= <-]. apply list_lookup_insert_eq. by eapply Hi.
Qed.
Lemma privateStart_spec pa t : mountsReady (privateStart pa t) = mountsReady t /\ t_closed (privateStart pa t) = t_closed t /\
  t_snapshot (privateStart pa t) = t_snapshot t.
Proof. unfold privateStart. destruct (_ && _); [done|]. by destruct (alivePods t !! _). Qed.
Lemma start_spec pa t : tracker_inv t ->
  tracker_inv (start pa t) /\ keeps_closed t (start pa t) /\
  (forall ch, mountsReady t !! pa_key pa = Some ch -> t_closed (start pa t) !! ch = Some true).
Proof.
  intros Hi. unfold start. set (t0 := mkTracker _ _ _ _). destruct (privateStart_spec pa t0) as (H1 & H2 & H3).
  destruct (close_ready_spec (pa_key pa) (privateStart pa t0)) as (H4 & H5 & _ & _ & H6).
  { unfold tracker_inv. rewrite H1, H2. exact Hi. }
  split_and!; [done| |].
  - intros ch Hch. apply H5. by rewrite H2.
  - intros ch Hch. apply H6. by rewrite H1.
Qed.
Lemma mountsDone_spec pa t : tracker_inv t -> let '(t', ch) := getOrCreateMountsDone pa t in
  tracker_inv t' /\ keeps_closed t t' /\ mountsReady t' !! pa_key pa = Some ch.
Proof.
  intros Hi. unfold getOrCreateMountsDone. destruct (mountsReady t !! pa_key pa) as [ch|] eqn:Hk.
  { refine (conj Hi (conj _ Hk)). by intros c. }
  unfold tracker_inv, keeps_closed. cbn [mountsReady t_closed]. split_and!; [| |by apply lookup_insert_eq].
  - intros k c [[_ <-]|[_ Hc]]%lookup_insert_Some; rewrite length_app; cbn [length]; [lia|]. specialize (Hi _ _ Hc). lia.
  - intros ch Hch. by apply lookup_app_l_Some.
Qed.
Lemma privateDelete_spec k t : tracker_inv t -> tracker_inv (privateDelete k t) /\ keeps_closed t (privateDelete k t) /\
  alivePods (privateDelete k t) = delete k (alivePods t) /\ t_snapshot (privateDelete k t) = t_snapshot t.
Proof.
  intros Hi. unfold privateDelete. destruct (close_ready_spec k (mkTracker (delete k (alivePods t)) (t_snapshot t) (mountsReady t) (t_closed t)) Hi) as (H1 & H2 & H3 & H4 & _).
  done.
Qed.
Lemma cancel_fold (f : paKey -> alive -> bool) l : forall t, tracker_inv t ->
  let t' := foldl (fun t (kv : paKey * alive) => if f kv.1 kv.2 then privateDelete kv.1 t else t) t l in
  tracker_inv t' /\ keeps_closed t t' /\ t_snapshot t' = t_snapshot t /\ alivePods t' ⊆ alivePods t /\
  (forall k lp, (k, lp) ∈ l -> f k lp = true -> alivePods t' !! k = None).
Proof.
  induction l as [|[k lp] l IH]; intros t Hi; cbn [foldl fst snd].
  { refine (conj Hi (conj _ (conj eq_refl (conj _ _)))); [by intros c|done|]. intros k lp Hk. by apply elem_of_nil in Hk. }
  set (t1 := if f k lp then privateDelete k t else t).
  assert (H1 : tracker_inv t1 /\ keeps_closed t t1 /\ t_snapshot t1 = t_snapshot t /\ alivePods t1 ⊆ alivePods t /\ (f k lp = true -> alivePods t1 !! k = None)).
  { unfold t1. destruct (f k lp); [|refine (conj Hi (conj _ (conj eq_refl (conj _ _)))); [by intros c|done|done]]. destruct (privateDelete_spec k t Hi) as (? & ? & Ha & ?). rewrite Ha.
    split_and!; try done; [apply delete_subseteq|]. intros _. apply lookup_delete_eq. }
  destruct H1 as (Hi1 & Hk1 & Hs1 & Ha1 & Hd1). destruct (IH t1 Hi1) as (Hi2 & Hk2 & Hs2 & Ha2 & Hd2). split_and!; try done.
  - intros ch Hch. auto.
  - congruence.
  - by etrans.
  - intros k' lp' [[= -> ->]|Hin]%elem_of_cons Hf; [|by eapply Hd2].
    apply eq_None_not_Some. intros [x Hx]. eapply lookup_weaken in Hx; [|exact Ha2]. rewrite Hd1 in Hx; done.
Qed.
(** After [cancelUnwanted] only the pods of the snapshot are alive. *)
Lemma cancelUnwanted_spec t : tracker_inv t -> tracker_inv (cancelUnwanted t) /\ keeps_closed t (cancelUnwanted t) /\
  (forall k, is_Some (alivePods (cancelUnwanted t) !! k) -> k ∈ t_snapshot (cancelUnwanted t)).
Proof.
  intros Hi. destruct (cancel_fold (fun k _ => negb (bool_decide (k ∈ t_snapshot t))) (map_to_list (alivePods t)) t Hi) as (H1 & H2 & H3 & H4 & H5).
  refine (conj H1 (conj H2 _)). intros k [x Hx]. unfold cancelUnwanted, cancel_where in *. rewrite H3.
  destruct (decide (k ∈ t_snapshot t)) as [|Hn]; [done|]. exfalso.
  rewrite (H5 k x) in Hx; [done| |by rewrite bool_decide_false]. apply elem_of_map_to_list. by eapply lookup_weaken.
Qed.

(** ** Snapshots *)
Definition ctx_inv (s : USession) : Prop :=
  (forall id ic, us_current s !! id = Some ic -> (ic_ctx ic < us_nextCtx s)%nat /\ ic_ctx ic ∉ us_cancelled s) /\
  (forall id id' ic ic', us_current s !! id = Some ic -> us_current s !! id' = Some ic' -> ic_ctx ic = ic_ctx ic' -> id = id') /\
  NoDup (us_cancelled s) /\ (forall n, n ∈ us_cancelled s -> (n < us_nextCtx s)%nat).

(** The map that [setCurrentIntercepts] builds from [cur]. *)
Definition built (cur : gmap string intercept) (next0 : nat) (mn : gmap string intercept * nat) : Prop :=
  (next0 <= mn.2)%nat /\
  (forall id ic, mn.1 !! id = Some ic ->
     match cur !! id with
     | Some ic0 => ic_ctx ic = ic_ctx ic0 /\ ci_ClientMountPoint (ic_ii ic) = ci_ClientMountPoint (ic_ii ic0)
     | None => (next0 <= ic_ctx ic < mn.2)%nat
     end) /\
  (forall id id' ic ic', mn.1 !! id = Some ic -> mn.1 !! id' = Some ic' -> ic_ctx ic = ic_ctx ic' -> id = id').

Lemma set_one_built cur waiters next0 mn ii :
  (forall id ic, cur !! id = Some ic -> (ic_ctx ic < next0)%nat) ->
  (forall id id' ic ic', cur !! id = Some ic -> cur !! id' = Some ic' -> ic_ctx ic = ic_ctx ic' -> id = id') ->
  built cur next0 mn -> built cur next0 (set_one cur waiters mn ii) /\ dom (set_one cur waiters mn ii).1 = {[ ci_Id ii ]} ∪ dom mn.1.
Proof.
  intros Hlt Hinj (H1 & H2 & H3). destruct mn as [m n]. unfold set_one. cbn [fst snd] in *.
  destruct (cur !! ci_Id ii) as [ic0|] eqn:Ec; (split; [|cbn; by rewrite dom_insert_L]); unfold built; cbn [fst snd]; (split; [lia|]).
  - split.
    + intros id ic [[<- <-]|[Hne Hid]]%lookup_insert_Some; [by rewrite Ec|by apply H2].
    + intros id id' ic ic' [[<- <-]|[Hne Hid]]%lookup_insert_Some [[<- <-]|[Hne' Hid']]%lookup_insert_Some; [done| | |by apply H3]; cbn [ic_ctx]; intros E.
      * specialize (H2 _ _ Hid'). destruct (cur !! id') as [ic1|] eqn:Ec'; [|specialize (Hlt _ _ Ec); lia]. apply (Hinj _ _ _ _ Ec Ec'). lia.
      * specialize (H2 _ _ Hid). destruct (cur !! id) as [ic1|] eqn:Ec'; [|specialize (Hlt _ _ Ec); lia]. apply (Hinj _ _ _ _ Ec' Ec). lia.
  - set (ic0 := match waiters !! _ with Some aw => _ | None => _ end). assert (Hc0 : ic_ctx ic0 = n) by (unfold ic0; by destruct (waiters !! _)).
    split.
    + intros id ic [[<- <-]|[Hne Hid]]%lookup_insert_Some; [rewrite Ec, Hc0; lia|]. specialize (H2 _ _ Hid). destruct (cur !! id); [done|lia].
    + assert (Hfresh : forall id ic, m !! id = Some ic -> (ic_ctx ic < n)%nat).
      { intros id ic Hid. specialize (H2 _ _ Hid). destruct (cur !! id) as [ic1|] eqn:E1; [|lia]. specialize (Hlt _ _ E1). lia. }
      intros id id' ic ic' [[<- <-]|[Hne Hid]]%lookup_insert_Some [[<- <-]|[Hne' Hid']]%lookup_insert_Some; [done| | |by apply H3]; rewrite ?Hc0; intros E.
      * specialize (Hfresh _ _ Hid'). lia.
      * specialize (Hfresh _ _ Hid). lia.
Qed.
Lemma set_fold_built cur waiters next0 iis :
  (forall id ic, cur !! id = Some ic -> (ic_ctx ic < next0)%nat) ->
  (forall id id' ic ic', cur !! id = Some ic -> cur !! id' = Some ic' -> ic_ctx ic = ic_ctx ic' -> id = id') ->
  let mn := foldl (set_one cur waiters) (∅, next0) iis in
  built cur next0 mn /\ dom mn.1 = list_to_set (ci_Id <$> iis).
Proof.
  intros Hlt Hinj.
  assert (H : forall iis mn, built cur next0 mn -> let mn' := foldl (set_one cur waiters) mn iis in
            built cur next0 mn' /\ dom mn'.1 = dom mn.1 ∪ list_to_set (ci_Id <$> iis)).
  { induction iis0 as [|ii iis0 IH]; intros mn Hb; cbn [foldl fmap list_fmap list_to_set]; [split; [done|set_solver]|].
    destruct (set_one_built cur waiters next0 mn ii Hlt Hinj Hb) as [Hb1 Hd1]. destruct (IH _ Hb1) as [Hb2 Hd2].
    split; [done|]. rewrite Hd2, Hd1. set_solver. }
  destruct (H iis (∅, next0)) as [Hb Hd].
  - split_and!; cbn; [lia| |]; intros *; rewrite lookup_empty; done.
  - split; [done|]. rewrite Hd. set_solver.
Qed.

(** What [setCurrentIntercepts] does to contexts. *)
Lemma setCurrent_spec iis s : ctx_inv s -> let s' := setCurrentIntercepts iis s in
  ctx_inv s' /\ dom (us_current s') = list_to_set (ci_Id <$> iis) /\
  (forall id ic ic', us_current s !! id = Some ic -> us_current s' !! id = Some ic' ->
     ic_ctx ic' = ic_ctx ic /\ ci_ClientMountPoint (ic_ii ic') = ci_ClientMountPoint (ic_ii ic)) /\
  (forall n, n ∈ us_cancelled s' <-> n ∈ us_cancelled s \/
     exists id ic, us_current s !! id = Some ic /\ id ∉ ci_Id <$> iis /\ ic_ctx ic = n) /\
  us_waiters s' = us_waiters s /\ us_tracker s' = us_tracker s.
Proof.
  intros (H1 & H2 & H3 & H4). unfold setCurrentIntercepts.
  destruct (set_fold_built (us_current s) (us_waiters s) (us_nextCtx s) iis) as [(B1 & B2 & B3) Hd]; [intros id ic Hid; by apply (H1 id)|done|].
  destruct (foldl _ _ iis) as [m next]. cbn [fst snd] in *.
  set (removed := filter _ _).
  assert (Hrem : forall n, n ∈ ic_ctx <$> removed.*2 <-> exists id ic, us_current s !! id = Some ic /\ id ∉ ci_Id <$> iis /\ ic_ctx ic = n).
  { intros n. unfold removed. rewrite list_elem_of_fmap. split.
    - intros (ic & -> & ([id ic0] & -> & Hx)%list_elem_of_fmap). apply list_elem_of_filter in Hx as [Hn Hin%elem_of_map_to_list].
      exists id, ic0. split_and!; try done. cbn in Hn. apply not_elem_of_dom in Hn. rewrite Hd in Hn. set_solver.
    - intros (id & ic & Hid & Hn & <-). exists ic. split; [done|]. apply list_elem_of_fmap. exists (id, ic). split; [done|].
      apply list_elem_of_filter. split; [|by apply elem_of_map_to_list]. cbn. apply not_elem_of_dom. rewrite Hd. set_solver. }
  refine (conj _ (conj Hd (conj _ (conj _ (conj eq_refl eq_refl))))); cbn [us_current us_cancelled us_nextCtx].
  - unfold ctx_inv. cbn [us_current us_cancelled us_nextCtx]. split_and!.
    + intros id ic Hid. specialize (B2 _ _ Hid). destruct (us_current s !! id) as [ic0|] eqn:E0.
      * destruct (H1 _ _ E0) as [Hlt Hnc]. destruct B2 as [-> _]. split; [lia|]. rewrite elem_of_app, Hrem. intros [Hin|(id' & ic1 & Hid' & Hn & E)]; [done|].
        assert (id' = id) by (by apply (H2 _ _ _ _ Hid' E0)). subst id'. apply Hn. rewrite <- (elem_of_list_to_set (C := gset string)), <- Hd. by apply elem_of_dom.
      * split; [lia|]. rewrite elem_of_app, Hrem. intros [Hin|(id' & ic1 & Hid' & Hn & E)]; [specialize (H4 _ Hin); lia|].
        destruct (H1 _ _ Hid') as [Hlt _]. lia.
    + exact B3.
    + apply NoDup_app. split_and!; [done| |].
      * intros n Hn (id & ic & Hid & _ & <-)%Hrem. by destruct (H1 _ _ Hid).
      * unfold removed. apply NoDup_fmap_2_strong.
        -- intros ic ic' ([id ?] & -> & [_ Hin%elem_of_map_to_list]%list_elem_of_filter)%list_elem_of_fmap
             ([id' ?] & -> & [_ Hin'%elem_of_map_to_list]%list_elem_of_filter)%list_elem_of_fmap E.
           cbn in *. assert (id = id') by (by apply (H2 _ _ _ _ Hin Hin')). subst. congruence.
        -- apply NoDup_fmap_2_strong; [|apply NoDup_filter, NoDup_map_to_list].
           intros [id ic] [id' ic'] [_ Hin%elem_of_map_to_list]%list_elem_of_filter [_ Hin'%elem_of_map_to_list]%list_elem_of_filter E.
           cbn in *. subst ic'. by rewrite (H2 _ _ _ _ Hin Hin' eq_refl).
    + intros n [Hn|(id & ic & Hid & _ & <-)%Hrem]%elem_of_app; [specialize (H4 _ Hn); lia|]. destruct (H1 _ _ Hid). lia.
  - intros id ic ic' Hid Hid'. specialize (B2 _ _ Hid'). by rewrite Hid in B2.
  - intros n. by rewrite elem_of_app, Hrem.
Qed.

Section Snapshot.
Context (ensureAccess : podAccess -> option string) (isPodDaemon : bool).
Abbreviation handle := (handle_one ensureAccess isPodDaemon).

(** What handling the intercepts of a snapshot keeps. *)
Definition same_icepts (s s' : USession) : Prop :=
  us_nextCtx s' = us_nextCtx s /\ us_cancelled s' = us_cancelled s /\
  (forall id, option_map ic_ctx (us_current s' !! id) = option_map ic_ctx (us_current s !! id)) /\
  (forall id, option_map (fun ic => ci_ClientMountPoint (ic_ii ic)) (us_current s' !! id) = option_map (fun ic => ci_ClientMountPoint (ic_ii ic)) (us_current s !! id)).
Definition told_closed (t : tracker) (told : list (string * wait_result)) : Prop :=
  forall n ctx ch, (n, WaitOk ctx ch) ∈ told -> t_closed t !! ch = Some true.

Lemma handle_one_spec s told ii s' told' : tracker_inv (us_tracker s) -> told_closed (us_tracker s) told -> handle (s, told) ii = (s', told') ->
  tracker_inv (us_tracker s') /\ told_closed (us_tracker s') told' /\ same_icepts s s' /\
  (exists new, told' = told ++ new) /\
  (forall n, us_waiters s' !! n = us_waiters s !! n \/ us_waiters s' !! n = None /\ n = ci_Name ii /\ (is_Some (us_waiters s !! n) -> exists r, (n, r) ∈ told')) /\
  (is_Some (us_current s !! ci_Id ii) -> ii_Disposition (ci_info ii) <> WAITING -> us_waiters s' !! ci_Name ii = None).
Proof.
  intros Hi Ht. assert (Hnop : same_icepts s s) by by split_and!. unfold handle_one.
  case_bool_decide as Hw.
  { intros [= <- <-]. refine (conj Hi (conj Ht (conj Hnop (conj _ (conj _ _))))); [exists []; by rewrite app_nil_r|auto|done]. }
  destruct (us_current s !! ci_Id ii) as [ic|] eqn:Hic.
  2:{ intros [= <- <-]. refine (conj Hi (conj Ht (conj Hnop (conj _ (conj _ _))))); [exists []; by rewrite app_nil_r|auto|by intros [? ?]]. }
  set (s1 := mkUS _ _ _ _ _).
  assert (Hs1 : same_icepts s s1).
  { split_and!; try done; intros id; cbn [us_current s1]; destruct (decide (ci_Id ii = id)) as [<-|]; by rewrite ?lookup_insert_eq, ?lookup_insert_ne, ?Hic. }
  assert (Hwait : forall told' : list (string * wait_result), (is_Some (us_waiters s !! ci_Name ii) -> exists r, (ci_Name ii, r) ∈ told') ->
    forall n, us_waiters s1 !! n = us_waiters s !! n \/ us_waiters s1 !! n = None /\ n = ci_Name ii /\ (is_Some (us_waiters s !! n) -> exists r, (n, r) ∈ told')).
  { intros told0 Hx n. cbn [us_waiters s1]. destruct (decide (ci_Name ii = n)) as [<-|]; [right; rewrite lookup_delete_eq; auto|left; by rewrite lookup_delete_ne]. }
  assert (Hgone : us_waiters s1 !! ci_Name ii = None) by apply lookup_delete_eq.
  destruct (if bool_decide _ then _ else None) as [ip|].
  - set (pa := set_pod ip true _). set (pa' := set_pod ip (negb isPodDaemon) pa).
    assert (Hkey : pa_key pa' = pa_key pa) by done. change (us_tracker s1) with (us_tracker s).
    destruct (us_waiters s !! ci_Name ii) as [aw|] eqn:Haw.
    + pose proof (mountsDone_spec pa (us_tracker s) Hi) as Hm. destruct (getOrCreateMountsDone pa (us_tracker s)) as [t ch].
      destruct Hm as (Hit & Hkt & Hrt). destruct (start_spec pa' t Hit) as (His & Hks & Hcs). rewrite Hkey in Hcs.
      intros [= <- <-]. cbn [us_tracker us_waiters us_current].
      refine (conj His (conj _ (conj Hs1 (conj _ (conj _ (fun _ _ => Hgone)))))).
      * intros n ctx c [Hin|Hin]%elem_of_app; [apply Hks, Hkt; by eapply Ht|]. apply list_elem_of_singleton in Hin as [= -> -> ->]. by apply Hcs.
      * by eexists.
      * apply Hwait. intros _. eexists. apply elem_of_app. right. by apply list_elem_of_singleton.
    + destruct (start_spec pa' (us_tracker s) Hi) as (His & Hks & _). intros [= <- <-]. cbn [us_tracker us_waiters us_current].
      refine (conj His (conj _ (conj Hs1 (conj _ (conj _ (fun _ _ => Hgone)))))).
      * intros n ctx c Hin. apply Hks. by eapply Ht.
      * exists []. by rewrite app_nil_r.
      * apply Hwait. by intros [? ?].
  - intros [= <- <-]. refine (conj Hi (conj _ (conj Hs1 (conj _ (conj _ (fun _ _ => Hgone)))))).
    + destruct (us_waiters s !! ci_Name ii); [|done]. intros n ctx c [Hin|Hin]%elem_of_app; [by eapply Ht|].
      apply list_elem_of_singleton in Hin. done.
    + destruct (us_waiters s !! ci_Name ii); [by eexists|exists []; by rewrite app_nil_r].
    + apply Hwait. intros [aw Haw]. rewrite Haw. eexists. apply elem_of_app. right. by apply list_elem_of_singleton.
Qed.

Lemma same_icepts_trans s1 s2 s3 : same_icepts s1 s2 -> same_icepts s2 s3 -> same_icepts s1 s3.
Proof. intros (?&?&H3&H4) (?&?&H7&H8). split_and!; [congruence|congruence|intros id; by rewrite H7|intros id; by rewrite H8]. Qed.
Lemma same_icepts_dom s s' id : same_icepts s s' -> is_Some (us_current s' !! id) <-> is_Some (us_current s !! id).
Proof. intros (_ & _ & H & _). specialize (H id). destruct (us_current s' !! id), (us_current s !! id); cbn in H; try done; split; by intros [? ?]. Qed.
Lemma same_icepts_ctx s s' id ic' : same_icepts s s' -> us_current s' !! id = Some ic' ->
  exists ic, us_current s !! id = Some ic /\ ic_ctx ic' = ic_ctx ic /\ ci_ClientMountPoint (ic_ii ic') = ci_ClientMountPoint (ic_ii ic).
Proof.
  intros (_ & _ & H & H') Hid. specialize (H id). specialize (H' id). rewrite Hid in *. destruct (us_current s !! id) as [ic|]; [|done].
  cbn in *. exists ic. split_and!; congruence.
Qed.
Lemma same_icepts_inv s s' : same_icepts s s' -> ctx_inv s -> ctx_inv s'.
Proof.
  intros Hs (H1 & H2 & H3 & H4). pose proof Hs as (En & Ec & _). unfold ctx_inv. rewrite En, Ec. split_and!; try done.
  - intros id ic (ic0 & H0 & -> & _)%(same_icepts_ctx _ _ _ _ Hs). by apply (H1 id).
  - intros id id' ic ic' (ic0 & H0 & -> & _)%(same_icepts_ctx _ _ _ _ Hs) (ic1 & H5 & -> & _)%(same_icepts_ctx _ _ _ _ Hs). by apply H2.
Qed.

Lemma handle_fold l : forall s told s' told', tracker_inv (us_tracker s) -> told_closed (us_tracker s) told ->
  (forall ii, ii ∈ l -> is_Some (us_current s !! ci_Id ii)) -> foldl handle (s, told) l = (s', told') ->
  tracker_inv (us_tracker s') /\ told_closed (us_tracker s') told' /\ same_icepts s s' /\ (exists new, told' = told ++ new) /\
  (forall n, us_waiters s !! n = None -> us_waiters s' !! n = None) /\
  (forall ii, ii ∈ l -> ii_Disposition (ci_info ii) <> WAITING -> us_waiters s' !! ci_Name ii = None /\
     (is_Some (us_waiters s !! ci_Name ii) -> exists r, (ci_Name ii, r) ∈ told')).
Proof.
  induction l as [|ii l IH]; intros s told s' told' Hi Ht Hcur; cbn [foldl].
  { intros [= <- <-]. refine (conj Hi (conj Ht (conj _ (conj _ (conj _ _))))); [by split_and!|exists []; by rewrite app_nil_r|done|].
    intros ii Hin. by apply elem_of_nil in Hin. }
  destruct (handle (s, told) ii) as [s1 told1] eqn:E1. destruct (handle_one_spec s told ii s1 told1 Hi Ht E1) as (Hi1 & Ht1 & Hs1 & (new1 & ->) & Hw1 & Hg1).
  intros E2. destruct (IH s1 (told ++ new1) s' told' Hi1 Ht1) as (Hi2 & Ht2 & Hs2 & (new2 & ->) & Hw2 & Hg2); [|done|].
  { intros ii' Hin. apply (same_icepts_dom s s1); [done|]. apply Hcur. by right. }
  refine (conj Hi2 (conj Ht2 (conj _ (conj _ (conj _ _))))).
  - by eapply same_icepts_trans.
  - exists (new1 ++ new2). by rewrite app_assoc.
  - intros n Hn. apply Hw2. destruct (Hw1 n) as [->|[-> _]]; done.
  - intros ii' [->|Hin]%elem_of_cons Hd.
    + split; [apply Hw2, Hg1; [apply Hcur; left|done]|]. intros Hsome. destruct (Hw1 (ci_Name ii)) as [E|(_ & _ & Hr)].
      * rewrite Hg1 in E; [|apply Hcur; left|done]. rewrite <- E in Hsome. by destruct Hsome.
      * destruct (Hr Hsome) as [r Hin]. exists r. apply elem_of_app. by left.
    + destruct (Hg2 ii' Hin Hd) as [Hn Hr]. split; [done|]. intros Hsome. destruct (Hw1 (ci_Name ii')) as [E|(_ & _ & Hr')].
      * apply Hr. by rewrite E.
      * destruct (Hr' Hsome) as [r Hin']. exists r. apply elem_of_app. by left.
Qed.

(** What the current intercepts and the pods of a snapshot come from. *)
Definition says (ii : ClientIntercept) (ic : intercept) : Prop := exists ports mount, ic_ii ic = set_local ports mount ii.
Definition from_snapshot (iis : list ClientIntercept) (m : gmap string intercept) : Prop :=
  forall id ic, m !! id = Some ic -> exists ii, ii ∈ iis /\ ci_Id ii = id /\ says ii ic.
(** A pod at [ip] that an active intercept of the snapshot gives access to. *)
Definition served (iis : list ClientIntercept) (m : gmap string intercept) (k : paKey) : Prop :=
  exists ii ic pa ip, ii ∈ iis /\ ii_Disposition (ci_info ii) = ACTIVE /\ m !! ci_Id ii = Some ic /\
    pa_workload pa = sp_Agent (ci_Spec (ic_ii ic)) /\ pa_namespace pa = sp_Namespace (ci_Spec (ic_ii ic)) /\
    pa_container pa = sp_ContainerName (ci_Spec (ic_ii ic)) /\ pa_podIP pa = ci_PodIp (ic_ii ic) /\
    ensureAccess pa = Some ip /\ k = mkKey (sp_Namespace (ci_Spec (ic_ii ic))) (sp_ContainerName (ci_Spec (ic_ii ic))) ip.

Lemma set_fold_from cur waiters l : forall mn l0, from_snapshot l0 mn.1 -> from_snapshot (l0 ++ l) (foldl (set_one cur waiters) mn l).1.
Proof.
  induction l as [|ii l IH]; intros mn l0 Hm; cbn [foldl]; [by rewrite app_nil_r|].
  rewrite cons_middle, app_assoc. apply IH. intros id ic. destruct mn as [m n]. unfold set_one. cbn [fst] in *.
  destruct (cur !! ci_Id ii) as [ic0|]; cbn [fst]; intros [[<- <-]|[_ Hid]]%lookup_insert_Some;
    try (destruct (Hm _ _ Hid) as (ii' & Hin & Hid' & Hs); exists ii'; split_and!; [apply elem_of_app; by left|done|done]);
    (exists ii; split_and!; [apply elem_of_app; right; by apply list_elem_of_singleton|done|]).
  - by eexists _, _.
  - destruct (waiters !! ci_Name ii); [by eexists _, _|]. exists (ci_LocalPorts ii), (ci_ClientMountPoint ii). by destruct ii.
Qed.
Lemma setCurrent_from iis s : from_snapshot iis (us_current (setCurrentIntercepts iis s)).
Proof.
  unfold setCurrentIntercepts. pose proof (set_fold_from (us_current s) (us_waiters s) iis (∅, us_nextCtx s) []) as H.
  destruct (foldl _ _ iis) as [m next]. apply H. intros id ic. cbn. by rewrite lookup_empty.
Qed.
Lemma start_snapshot pa t : t_snapshot (start pa t) = {[ pa_key pa ]} ∪ t_snapshot t.
Proof.
  unfold start. set (t0 := mkTracker _ _ _ _). destruct (privateStart_spec pa t0) as (_ & _ & E). unfold close_ready.
  by destruct (mountsReady (privateStart pa t0) !! _).
Qed.
(** Handling an intercept keeps what the current ones say, and adds its pod. *)
Lemma handle_one_served l s told ii : ii ∈ l -> from_snapshot l (us_current s) -> (forall k, k ∈ t_snapshot (us_tracker s) -> served l (us_current s) k) ->
  let s' := (handle (s, told) ii).1 in
  from_snapshot l (us_current s') /\ (forall k, k ∈ t_snapshot (us_tracker s') -> served l (us_current s') k).
Proof.
  intros Hin Hf Hk. unfold handle_one. case_bool_decide; [done|]. destruct (us_current s !! ci_Id ii) as [ic|] eqn:Hic; [|done].
  set (m' := <[ci_Id ii := fix_ports ic]> (us_current s)).
  assert (Hf' : from_snapshot l m').
  { intros id ic' [[<- <-]|[_ Hid]]%lookup_insert_Some; [|by apply Hf]. destruct (Hf _ _ Hic) as (ii0 & H1 & H2 & (ps & mp & H3)).
    exists ii0. split_and!; [done|done|]. unfold says, fix_ports. cbn [ic_ii]. rewrite H3. by eexists _, _. }
  assert (Hk' : forall k, k ∈ t_snapshot (us_tracker s) -> served l m' k).
  { intros k (ii0 & ic0 & pa & ip & H1 & H2 & H3 & R)%Hk. destruct (decide (ci_Id ii = ci_Id ii0)) as [E|Hne].
    - rewrite E in Hic. rewrite H3 in Hic. injection Hic as ->. exists ii0, (fix_ports ic), pa, ip. split_and!; try done; [|apply R..].
      unfold m'. rewrite E. apply lookup_insert_eq.
    - exists ii0, ic0, pa, ip. split_and!; try done; [|apply R..]. unfold m'. by rewrite lookup_insert_ne. }
  cbn zeta. cbn [us_tracker us_current us_waiters us_nextCtx us_cancelled].
  case_bool_decide as Ha; [|by destruct (us_waiters s !! ci_Name ii)].
  destruct (ensureAccess (podAccess_of (fix_ports ic))) as [ip|] eqn:Ea; [|by destruct (us_waiters s !! ci_Name ii)].
  set (pa := set_pod ip true _).
  assert (Hnew : served l m' (pa_key pa)).
  { exists ii, (fix_ports ic), (podAccess_of (fix_ports ic)), ip. split_and!; try done. apply lookup_insert_eq. }
  destruct (us_waiters s !! ci_Name ii) as [aw|].
  - destruct (getOrCreateMountsDone pa (us_tracker s)) as [t ch] eqn:Et.
    assert (t_snapshot t = t_snapshot (us_tracker s)) as Es by (unfold getOrCreateMountsDone in Et; destruct (mountsReady _ !! _); by injection Et as <- _).
    cbn [fst us_tracker us_current]. split; [done|]. rewrite start_snapshot, Es. set_solver.
  - cbn [fst us_tracker us_current]. split; [done|]. rewrite start_snapshot. set_solver.
Qed.
Lemma handle_fold_served l0 l : forall s told, (forall ii, ii ∈ l -> ii ∈ l0) -> from_snapshot l0 (us_current s) ->
  (forall k, k ∈ t_snapshot (us_tracker s) -> served l0 (us_current s) k) ->
  let s' := (foldl handle (s, told) l).1 in
  from_snapshot l0 (us_current s') /\ (forall k, k ∈ t_snapshot (us_tracker s') -> served l0 (us_current s') k).
Proof.
  induction l as [|ii l IH]; intros s told Hl Hf Hk; [done|]. cbn [foldl].
  destruct (handle_one_served l0 s told ii (Hl _ (list_elem_of_here _ _)) Hf Hk) as [Hf1 Hk1].
  destruct (handle (s, told) ii) as [s1 told1]. apply IH; [|done|done]. intros ii' Hin. apply Hl. by right.
Qed.
Lemma cancelUnwanted_snapshot t : tracker_inv t -> t_snapshot (cancelUnwanted t) = t_snapshot t.
Proof.
  intros Hi. unfold cancelUnwanted, cancel_where.
  by destruct (cancel_fold (fun k _ => negb (bool_decide (k ∈ t_snapshot t))) (map_to_list (alivePods t)) t Hi) as (_ & _ & H3 & _).
Qed.

(** C33. A snapshot of the traffic-manager, whatever intercepts there were before: the current
    intercepts are those of the snapshot, with what the snapshot says of them, but for local
    ports and mount point; one that was current before keeps its context and mount point;
    the contexts that get cancelled are those of the intercepts that are gone,
    each once; who waited for an intercept that has left its waiting state is told about it,
    and the channel of the mounts it gets is closed; and port forwards and mounts run in no
    other pods than those that an active intercept of this snapshot gives access to. *)
Theorem snapshot_correct iis s : ctx_inv s ->
  let '(s', told) := handleInterceptSnapshot ensureAccess isPodDaemon iis s in
  ctx_inv s' /\ (forall id, is_Some (us_current s' !! id) <-> id ∈ ci_Id <$> iis) /\
  (forall id ic ic', us_current s !! id = Some ic -> us_current s' !! id = Some ic' ->
     ic_ctx ic' = ic_ctx ic /\ ci_ClientMountPoint (ic_ii ic') = ci_ClientMountPoint (ic_ii ic)) /\
  (forall n, n ∈ us_cancelled s' <-> n ∈ us_cancelled s \/
     exists id ic, us_current s !! id = Some ic /\ id ∉ ci_Id <$> iis /\ ic_ctx ic = n) /\
  (forall ii, ii ∈ iis -> ii_Disposition (ci_info ii) <> WAITING -> us_waiters s' !! ci_Name ii = None /\
     (is_Some (us_waiters s !! ci_Name ii) -> exists r, (ci_Name ii, r) ∈ told)) /\
  (forall n ctx ch, (n, WaitOk ctx ch) ∈ told -> t_closed (us_tracker s') !! ch = Some true) /\
  from_snapshot iis (us_current s') /\
  (forall k, is_Some (alivePods (us_tracker s') !! k) -> served iis (us_current s') k).
Proof.
  intros Hinv. unfold handleInterceptSnapshot. destruct (setCurrent_spec iis s Hinv) as (H1 & H2 & H3 & H4 & H5 & H6).
  set (s1 := setCurrentIntercepts iis s) in *. set (s2 := with_tracker initSnapshot s1).
  assert (Hdom : forall id, is_Some (us_current s1 !! id) <-> id ∈ ci_Id <$> iis).
  { intros id. rewrite <- elem_of_dom, H2. apply elem_of_list_to_set. }
  destruct (foldl handle (s2, []) iis) as [s3 told] eqn:E3.
  destruct (handle_fold iis s2 [] s3 told) as (Hi3 & Ht3 & Hs3 & _ & _ & Hg3); [| | |done|].
  - intros k ch. cbn. by rewrite lookup_empty.
  - intros n ctx ch Hin. by apply elem_of_nil in Hin.
  - intros ii Hin. apply Hdom. apply list_elem_of_fmap. eauto.
  - destruct (cancelUnwanted_spec (us_tracker s3) Hi3) as (_ & Hk4 & Ha4).
    assert (Hs : same_icepts s1 (with_tracker cancelUnwanted s3)) by exact Hs3.
    destruct (handle_fold_served iis iis s2 []) as [Hf3 Hk3]; [done|apply setCurrent_from|intros k Hk; by apply elem_of_empty in Hk|]. rewrite E3 in Hf3, Hk3.
    refine (conj (same_icepts_inv _ _ Hs H1) (conj _ (conj _ (conj _ (conj _ (conj _ (conj Hf3 _))))))).
    + intros id. rewrite <- Hdom. by apply same_icepts_dom.
    + intros id ic ic' Hid (ic1 & Hid1 & -> & ->)%(same_icepts_ctx _ _ _ _ Hs). by apply (H3 id).
    + intros n. destruct Hs as (_ & -> & _). apply H4.
    + intros ii Hin Hd. destruct (Hg3 ii Hin Hd) as [Hn Hr]. split; [exact Hn|]. rewrite <- H5. exact Hr.
    + intros n ctx ch Hin. apply Hk4. by eapply Ht3.
    + intros k Hk. apply Hk3. cbn [fst]. rewrite <- (cancelUnwanted_snapshot (us_tracker s3)) by done. by apply Ha4.
Qed.
End Snapshot.

(** ** Shortcuts, from the user daemon to the root daemon *)
Lemma AddrFromSlice_valid bs a : bytes_ok bs -> AddrFromSlice bs = Some a -> addr_wf a /\ a_IsValid a = true.
Proof.
  intros Hb. unfold AddrFromSlice. pose proof (be_val_bound bs Hb) as Hbound.
  case_bool_decide as Hl; [|case_bool_decide as Hl'; [|done]]; intros [= <-].
  - rewrite Hl in Hbound. unfold AddrFrom4. split; [|done]. unfold addr_wf, fits. exact Hbound.
  - rewrite Hl' in Hbound. unfold AddrFrom16. split; [|done]. unfold addr_wf, fits. change (2 ^ 128) with (256 ^ Z.of_nat 16). done.
Qed.
Lemma validAddrPort_binary ap : addr_wf (ap_addr ap) -> a_IsValid (ap_addr ap) = true -> fits 16 (ap_port ap) ->
  validAddrPort (AddrPort_MarshalBinary ap) = Some ap.
Proof. intros Hw Hv Hp. unfold validAddrPort. rewrite AddrPort_binary by done. cbn. by rewrite Hv. Qed.

(** Entries of the table stay, and a shortcut whose addresses are all valid adds its own. *)
Lemma add_service_addrs_all proto target addrs : forall m, Forall (fun b => is_Some (validAddrPort b)) addrs ->
  (add_service_addrs proto target addrs m).2 = true /\
  (forall k, is_Some (m !! k) -> is_Some ((add_service_addrs proto target addrs m).1 !! k)) /\
  (forall b sa, b ∈ addrs -> validAddrPort b = Some sa -> is_Some ((add_service_addrs proto target addrs m).1 !! {| app_AddrPort := sa; app_Proto := proto |})).
Proof.
  induction addrs as [|b addrs IH]; intros m Hv; cbn [add_service_addrs].
  { split_and!; try done. intros b sa Hb. by apply elem_of_nil in Hb. }
  apply Forall_cons in Hv as [[sa Hsa] Hv]. rewrite Hsa. destruct (IH (<[{| app_AddrPort := sa; app_Proto := proto |} := target]> m) Hv) as (H1 & H2 & H3).
  split_and!; [done| |].
  - intros k Hk. apply H2. apply lookup_insert_is_Some'. auto.
  - intros b' sa' [->|Hb]%elem_of_cons Hs; [|by eapply H3]. assert (sa' = sa) by congruence. subst sa'. apply H2. apply lookup_insert_is_Some'. by left.
Qed.
Definition table_has (t : shortcutTable) (proto : Z) (sc : InterceptShortcut) : Prop :=
  (forall b sa, b ∈ sc_ServiceAddrs sc -> validAddrPort b = Some sa -> is_Some (byAddr t !! {| app_AddrPort := sa; app_Proto := proto |})) /\
  (sc_Workload sc <> ""%string -> 0 < sc_ContainerPort sc ->
   is_Some (byWorkload t !! {| wp_namespace := sc_Namespace sc; wp_workload := sc_Workload sc; wp_proto := proto; wp_port := wrap 16 (sc_ContainerPort sc) |})).
Definition good_shortcut (sc : InterceptShortcut) : Prop :=
  is_Some (validAddrPort (sc_Target sc)) /\ Forall (fun b => is_Some (validAddrPort b)) (sc_ServiceAddrs sc).
Lemma add_shortcut_has t sc : good_shortcut sc ->
  (forall k, is_Some (byAddr t !! k) -> is_Some (byAddr (add_shortcut t sc) !! k)) /\
  (forall k, is_Some (byWorkload t !! k) -> is_Some (byWorkload (add_shortcut t sc) !! k)) /\
  (forall proto, ParseProto (sc_Protocol sc) = Ret proto -> table_has (add_shortcut t sc) proto sc).
Proof.
  intros [[target Ht] Hv]. unfold add_shortcut. destruct (ParseProto (sc_Protocol sc)) as [proto| |] eqn:Ep; [|done|done].
  rewrite Ht. destruct (add_service_addrs_all proto target (sc_ServiceAddrs sc) (byAddr t) Hv) as (H1 & H2 & H3).
  destruct (add_service_addrs proto target (sc_ServiceAddrs sc) (byAddr t)) as [m ok]. cbn [fst snd] in *. subst ok. cbn [byAddr byWorkload andb].
  split_and!; [done| |].
  - intros k Hk. destruct (_ && _); [apply lookup_insert_is_Some'; auto|done].
  - intros proto' [= <-]. split; cbn [byAddr byWorkload]; [exact H3|]. intros Hw Hp. rewrite bool_decide_false by done.
    assert ((0 <? sc_ContainerPort sc) = true) as -> by by apply Z.ltb_lt. cbn [negb andb]. apply lookup_insert_is_Some'. by left.
Qed.
Lemma fold_shortcuts_has l : forall t, Forall good_shortcut l ->
  (forall k, is_Some (byAddr t !! k) -> is_Some (byAddr (foldl add_shortcut t l) !! k)) /\
  (forall k, is_Some (byWorkload t !! k) -> is_Some (byWorkload (foldl add_shortcut t l) !! k)) /\
  (forall sc proto, sc ∈ l -> ParseProto (sc_Protocol sc) = Ret proto -> table_has (foldl add_shortcut t l) proto sc).
Proof.
  induction l as [|sc l IH]; intros t Hg; cbn [foldl].
  { split_and!; try done. intros sc proto Hsc. by apply elem_of_nil in Hsc. }
  apply Forall_cons in Hg as [Hg1 Hg]. destruct (add_shortcut_has t sc Hg1) as (A1 & A2 & A3). destruct (IH (add_shortcut t sc) Hg) as (B1 & B2 & B3).
  split_and!; auto. intros sc' proto [->|Hin]%elem_of_cons Hp; [|by apply B3]. destruct (A3 proto Hp) as [T1 T2]. split; eauto.
Qed.
Lemma newShortcutTable_has scs t : newShortcutTable scs = Some t -> Forall good_shortcut scs ->
  forall sc proto, sc ∈ scs -> ParseProto (sc_Protocol sc) = Ret proto -> table_has t proto sc.
Proof.
  intros Ht Hg sc proto Hin Hp. unfold newShortcutTable in Ht. destruct scs as [|sc0 scs]; [done|]. injection Ht as <-.
  by apply (fold_shortcuts_has (sc0 :: scs)).
Qed.

Section Shortcuts.
Context `{K8sLaws} (resolve : Addr -> option Addr).

(** An active intercept that may be short-cut, and its local handler: it is no wiretap,
    and unless all are short-cut it takes all traffic; the handler is at the address that
    the target host stands for. *)
Definition may_shortcut (isGlobal : bool) (sp : InterceptSpec) : Prop :=
  sp_Wiretap sp = false /\
  (isGlobal = true \/ sp_HeaderFilters sp = [] /\ sp_PathFilters sp = [] /\ (sp_Mechanism sp = ""%string \/ sp_Mechanism sp = "tcp"%string)).
Definition handler_of (c : ClientIntercept) (lt : AddrPort) : Prop :=
  exists a b, ParseAddr (ci_TargetHost c) = Some a /\ resolve a = Some b /\ lt = {| ap_addr := b; ap_port := u16 (sp_TargetPort (ci_Spec c)) |}.
Definition shortcut_for (isGlobal : bool) (c : ClientIntercept) (lt : AddrPort) : Prop :=
  ii_Disposition (ci_info c) = ACTIVE /\ may_shortcut isGlobal (ci_Spec c) /\ handler_of c lt.
Lemma shortcutEligible_spec isGlobal sp : shortcutEligible sp isGlobal = true <-> may_shortcut isGlobal sp.
Proof.
  unfold shortcutEligible, may_shortcut. destruct (sp_Wiretap sp), isGlobal; [naive_solver..|].
  rewrite !andb_true_iff, orb_true_iff, !Nat.eqb_eq, !length_zero_iff_nil, !bool_decide_eq_true. naive_solver.
Qed.
Lemma shortcut_target_spec c lt : shortcut_target resolve c = Some lt <-> handler_of c lt.
Proof.
  unfold shortcut_target, handler_of. destruct (ParseAddr (ci_TargetHost c)) as [a|]; cbn; [|naive_solver].
  destruct (resolve a) as [b|] eqn:Hr; cbn; naive_solver.
Qed.
(** The destinations that an intercept covers: its service, or the port of a pod of its workload. *)
Definition covers_service (c : ClientIntercept) (p : Z) (dst : AddrPort) : Prop :=
  ParseProto (sp_Protocol (ci_Spec c)) = Ret p /\ sp_ServicePort (ci_Spec c) <> 0 /\ ap_port dst = u16 (sp_ServicePort (ci_Spec c)) /\
  exists ipb, ipb ∈ ci_ServiceIps c /\ AddrFromSlice ipb = Some (ap_addr dst).
Definition covers_pod (c : ClientIntercept) (p : Z) (port : Z) (wl ns : string) : Prop :=
  ParseProto (sp_Protocol (ci_Spec c)) = Ret p /\ wl <> ""%string /\ sp_Agent (ci_Spec c) = wl /\ sp_Namespace (ci_Spec c) = ns /\
  0 < u32 (sp_ContainerPort (ci_Spec c)) /\ port = u16 (u32 (sp_ContainerPort (ci_Spec c))).

Context (isGlobal : bool) (iis : list ClientIntercept).
Hypothesis resolve_wf : forall a b, resolve a = Some b -> addr_wf b /\ b <> AddrZero.
Hypothesis ips_wf : forall c, c ∈ iis -> Forall bytes_ok (ci_ServiceIps c).

Lemma shortcut_target_valid c lt : handler_of c lt -> validAddrPort (AddrPort_MarshalBinary lt) = Some lt.
Proof.
  intros (a & b & _ & Hr & ->). destruct (resolve_wf _ _ Hr) as [Hw Hz]. apply validAddrPort_binary; cbn; [done|by destruct b|]. apply wrap_fits. lia.
Qed.
Lemma service_addrs_spec c b : c ∈ iis -> b ∈ shortcutServiceAddrs c -> exists ipb ip, ipb ∈ ci_ServiceIps c /\ AddrFromSlice ipb = Some ip /\
  sp_ServicePort (ci_Spec c) <> 0 /\ validAddrPort b = Some {| ap_addr := ip; ap_port := u16 (sp_ServicePort (ci_Spec c)) |}.
Proof.
  intros Hc. unfold shortcutServiceAddrs. destruct (Z.eqb_spec (sp_ServicePort (ci_Spec c)) 0) as [|Hn]; [intros Hb; by apply elem_of_nil in Hb|].
  intros (ipb & Hin & Hx)%list_elem_of_omap. destruct (AddrFromSlice ipb) as [ip|] eqn:Hip; cbn in Hx; [|done]. injection Hx as <-.
  exists ipb, ip. split_and!; try done. specialize (ips_wf c Hc). rewrite Forall_forall in ips_wf. destruct (AddrFromSlice_valid ipb ip (ips_wf _ Hin) Hip).
  apply validAddrPort_binary; [done|done|]. apply wrap_fits. lia.
Qed.
Lemma shortcut_protocol c : ParseProto (if bool_decide (sp_Protocol (ci_Spec c) = ""%string) then Proto_String ProtoTCP else sp_Protocol (ci_Spec c)) =
  ParseProto (sp_Protocol (ci_Spec c)).
Proof. case_bool_decide as E; [|done]. rewrite E. unfold Proto_String. cbn. by rewrite tcp_name. Qed.
Lemma intercept_shortcut_Some c sc : intercept_shortcut resolve isGlobal c = Some sc -> exists lt, shortcut_for isGlobal c lt /\
  sc_Target sc = AddrPort_MarshalBinary lt /\ ParseProto (sc_Protocol sc) = ParseProto (sp_Protocol (ci_Spec c)) /\
  sc_ServiceAddrs sc = shortcutServiceAddrs c /\ sc_Workload sc = sp_Agent (ci_Spec c) /\ sc_Namespace sc = sp_Namespace (ci_Spec c) /\
  sc_ContainerPort sc = u32 (sp_ContainerPort (ci_Spec c)).
Proof.
  unfold intercept_shortcut. destruct (_ || _) eqn:Hb; [done|]. bools. destruct (shortcut_target resolve c) as [lt|] eqn:Ht; cbn [mbind option_bind]; [|done].
  intros [= <-]. exists lt. split; [refine (conj _ (conj (proj1 (shortcutEligible_spec _ _) _) (proj1 (shortcut_target_spec _ _) Ht))); done|].
  cbn. split_and!; try done. apply shortcut_protocol.
Qed.
Lemma shortcut_for_Some c lt : shortcut_for isGlobal c lt -> is_Some (intercept_shortcut resolve isGlobal c).
Proof.
  intros (H1 & H2%shortcutEligible_spec & H3%shortcut_target_spec). unfold intercept_shortcut. rewrite bool_decide_true, H2, H3 by done. cbn. by eexists.
Qed.

Abbreviation scs := (interceptShortcuts resolve isGlobal iis).
Lemma scs_elem sc : sc ∈ scs -> exists c, c ∈ iis /\ intercept_shortcut resolve isGlobal c = Some sc.
Proof. intros Hsc. by apply list_elem_of_omap in Hsc. Qed.
Lemma scs_for c lt : c ∈ iis -> shortcut_for isGlobal c lt -> exists sc, sc ∈ scs /\ intercept_shortcut resolve isGlobal c = Some sc.
Proof. intros Hc [sc Hsc]%shortcut_for_Some. exists sc. split; [|done]. apply list_elem_of_omap. eauto. Qed.
Lemma scs_good : Forall good_shortcut scs.
Proof.
  apply Forall_forall. intros sc (c & Hc & (lt & (_ & _ & Ht) & HT & _ & Hsa & _)%intercept_shortcut_Some)%scs_elem.
  split; [rewrite HT, (shortcut_target_valid c lt Ht); by eexists|]. rewrite Hsa. apply Forall_forall.
  intros b Hb. destruct (service_addrs_spec c b Hc Hb) as (ipb & ip & _ & _ & _ & ->). by eexists.
Qed.

(** What an intercept covers is in the table. *)
Section Table.
Context (t : shortcutTable) (Et : newShortcutTable scs = Some t).
Lemma service_in_table c lt p dst : c ∈ iis -> shortcut_for isGlobal c lt -> covers_service c p dst ->
  is_Some (byAddr t !! {| app_AddrPort := dst; app_Proto := p |}).
Proof.
  intros Hc Hf (Hp & Hn & Hport & ipb & Hin & Hip). destruct (scs_for c lt Hc Hf) as (sc & Hin' & Hsc).
  apply intercept_shortcut_Some in Hsc as (lt' & _ & _ & Hpp & Hsa & _).
  destruct (newShortcutTable_has scs t Et scs_good sc p Hin' ltac:(congruence)) as [T1 _].
  assert (Hd : dst = {| ap_addr := ap_addr dst; ap_port := u16 (sp_ServicePort (ci_Spec c)) |}) by (destruct dst; cbn in *; congruence).
  rewrite Hd. apply (T1 (AddrPort_MarshalBinary {| ap_addr := ap_addr dst; ap_port := u16 (sp_ServicePort (ci_Spec c)) |})).
  - rewrite Hsa. unfold shortcutServiceAddrs. destruct (Z.eqb_spec (sp_ServicePort (ci_Spec c)) 0); [done|].
    apply list_elem_of_omap. exists ipb. split; [done|]. by rewrite Hip.
  - pose proof (ips_wf c Hc) as Hb. rewrite Forall_forall in Hb. destruct (AddrFromSlice_valid ipb _ (Hb _ Hin) Hip).
    apply validAddrPort_binary; [done|done|]. apply wrap_fits. lia.
Qed.
Lemma pod_in_table c lt p port wl ns : c ∈ iis -> shortcut_for isGlobal c lt -> covers_pod c p port wl ns ->
  is_Some (byWorkload t !! {| wp_namespace := ns; wp_workload := wl; wp_proto := p; wp_port := port |}).
Proof.
  intros Hc Hf (Hp & Hne & <- & <- & Hpos & ->). destruct (scs_for c lt Hc Hf) as (sc & Hin' & Hsc).
  apply intercept_shortcut_Some in Hsc as (lt' & _ & _ & Hpp & _ & Hwl & Hns & Hcp).
  destruct (newShortcutTable_has scs t Et scs_good sc p Hin' ltac:(congruence)) as [_ T2].
  rewrite <- Hwl, <- Hns, <- Hcp. rewrite <- Hwl in Hne. rewrite <- Hcp in Hpos. by apply T2.
Qed.

(** What is in the table is covered by an intercept. *)
Lemma service_entry p dst lt : byAddr t !! {| app_AddrPort := dst; app_Proto := p |} = Some lt ->
  exists c, c ∈ iis /\ shortcut_for isGlobal c lt /\ covers_service c p dst.
Proof.
  intros Hk. destruct (proj1 (newShortcutTable_ok scs t Et) _ _ Hk) as (sc & b & Hin & Hp & Ht & Hb & Hv). cbn [app_AddrPort app_Proto] in *.
  destruct (scs_elem sc Hin) as (c & Hc & (lt' & Hf & HT & Hpp & Hsa & _)%intercept_shortcut_Some). pose proof Hf as (_ & _ & Htgt).
  rewrite HT, (shortcut_target_valid c lt' Htgt) in Ht. injection Ht as ->. exists c. split_and!; try done.
  rewrite Hsa in Hb. destruct (service_addrs_spec c b Hc Hb) as (ipb & ip & Hi1 & Hi2 & Hn & Hv'). rewrite Hv in Hv'. injection Hv' as Hd.
  split_and!; [congruence|done|by rewrite Hd|]. exists ipb. by rewrite Hd.
Qed.
Lemma pod_entry p port wl ns lt : byWorkload t !! {| wp_namespace := ns; wp_workload := wl; wp_proto := p; wp_port := port |} = Some lt ->
  exists c, c ∈ iis /\ shortcut_for isGlobal c lt /\ covers_pod c p port wl ns.
Proof.
  intros Hk. destruct (proj2 (newShortcutTable_ok scs t Et) _ _ Hk) as (sc & Hin & Hp & Ht & Hns & Hwl & Hne & Hpos & Hport).
  cbn [wp_namespace wp_workload wp_proto wp_port] in *.
  destruct (scs_elem sc Hin) as (c & Hc & (lt' & Hf & HT & Hpp & _ & Hwl' & Hns' & Hcp)%intercept_shortcut_Some). pose proof Hf as (_ & _ & Htgt).
  rewrite HT, (shortcut_target_valid c lt' Htgt) in Ht. injection Ht as ->. exists c. split_and!; try done; split_and!; try done; congruence.
Qed.
End Table.

(** C34. From end to end: for the intercepts of a snapshot, the root daemon connects a
    destination directly to a local handler only if local shortcuts are enabled and an active
    and eligible intercept with that handler covers the destination with its service or with
    the pod at that address; and if it does not although they are enabled, no such intercept
    covers it.  An intercept is eligible when it is no wiretap and, unless shortcuts are
    global, takes all traffic.  The resolver of the target host gives valid addresses, and the
    addresses of the services consist of bytes. *)
Theorem shortcuts_end_to_end localShortcut p dst pw :
  match sc_target (newShortcutTable (pushed_shortcuts resolve localShortcut isGlobal iis)) p dst pw with
  | Some lt => localShortcut = true /\ exists c, c ∈ iis /\ shortcut_for isGlobal c lt /\
      (covers_service c p dst \/ exists f wl ns, pw = Some f /\ f (ap_addr dst) = Some (wl, ns) /\ covers_pod c p (ap_port dst) wl ns)
  | None => localShortcut = true -> forall c lt, c ∈ iis -> shortcut_for isGlobal c lt ->
      (covers_service c p dst -> False) /\
      forall f wl ns, pw = Some f -> f (ap_addr dst) = Some (wl, ns) -> covers_pod c p (ap_port dst) wl ns -> False
  end.
Proof.
  destruct localShortcut; [|done]. cbn [pushed_shortcuts]. destruct (newShortcutTable scs) as [t|] eqn:Et; cbn [sc_target].
  2:{ intros _ c lt Hc Hf. exfalso. destruct (scs_for c lt Hc Hf) as (sc & Hin & _). revert Et Hin. unfold newShortcutTable.
      destruct scs; [intros _ Hin; by apply elem_of_nil in Hin|done]. }
  destruct (byAddr t !! _) as [lt|] eqn:Eb.
  { destruct (service_entry t Et _ _ _ Eb) as (c & ? & ? & ?). split; [done|]. eauto. }
  assert (Hsvc : forall c lt, c ∈ iis -> shortcut_for isGlobal c lt -> covers_service c p dst -> False).
  { intros c lt Hc Hf Hcov. destruct (service_in_table t Et c lt p dst Hc Hf Hcov). congruence. }
  destruct pw as [f|]; [|intros _ c lt Hc Hf; split; [by eapply Hsvc|done]].
  case_bool_decide as He; [|destruct (f (ap_addr dst)) as [[wl ns]|] eqn:Ef; cbn [mbind option_bind]].
  - intros _ c lt Hc Hf. split; [by eapply Hsvc|]. intros f' wl ns _ _ Hcov. destruct (pod_in_table t Et c lt p _ wl ns Hc Hf Hcov) as [x Hx].
    by rewrite He, lookup_empty in Hx.
  - destruct (byWorkload t !! _) as [lt|] eqn:Ew.
    + destruct (pod_entry t Et _ _ _ _ _ Ew) as (c & ? & ? & ?). split; [done|]. eauto 12.
    + intros _ c lt Hc Hf. split; [by eapply Hsvc|]. intros f' wl' ns' [= <-] Ef' Hcov. rewrite Ef in Ef'. injection Ef' as <- <-.
      destruct (pod_in_table t Et c lt p _ wl ns Hc Hf Hcov). congruence.
  - intros _ c lt Hc Hf. split; [by eapply Hsvc|]. intros f' wl' ns' [= <-] Ef'. congruence.
Qed.
End Shortcuts.

(** ** Witnesses and findings *)
Definition ui_spec (name : string) (target : Z) : InterceptSpec :=
  mkSpec name "user@host" "echo" "default" "echo" "app" "http" 8080 "TCP" false false false [] [] [] "tcp" target "uid" "http" 80.
Definition ui_icept (id name : string) (target : Z) (ports : list string) : ClientIntercept :=
  mkCI (mkInfo id ACTIVE (ui_spec name target)) "127.0.0.1" [[10; 96; 0; 7]] ports [] "10.42.0.9" "" 0 0.
Definition ui_prepared : PreparedIntercept :=
  mkPI "default" "Deployment" "app" "echo" "uid" "http" 80 "TCP" 8080 [] ["10.96.0.7"%string].
Definition ui_access (pa : podAccess) : option string := Some (pa_podIP pa).
(** [b] is in effect since before, [a] is being waited for, [c] is gone. *)
Definition ui_before : USession :=
  mkUS (<["b"%string := mkIcept (ui_icept "b" "two" 9091 ["9001"%string]) 0 0 "" 0 false]>
       (<["c"%string := mkIcept (ui_icept "c" "three" 9092 []) 1 0 "" 0 false]> ∅))
    (<["one"%string := mkAwait "/mnt" 0 false]> ∅) 2 [] newPodAccessTracker.
Definition ui_snapshot : list ClientIntercept := [ui_icept "a" "one" 9090 ["9000"%string]; ui_icept "b" "two" 9091 ["9001"%string]].

Lemma ui_before_inv : ctx_inv ui_before.
Proof.
  assert (Hc : forall id ic, us_current ui_before !! id = Some ic -> id = "b"%string /\ ic_ctx ic = 0%nat \/ id = "c"%string /\ ic_ctx ic = 1%nat).
  { intros id ic. unfold ui_before. cbn [us_current]. intros [[<- <-]|[_ [[<- <-]|[_ Hn]]%lookup_insert_Some]]%lookup_insert_Some; [by left|by right|]. by rewrite lookup_empty in Hn. }
  refine (conj _ (conj _ (conj (NoDup_nil_2) _))).
  - intros id ic Hid. split; [|apply not_elem_of_nil]. cbn. destruct (Hc _ _ Hid) as [[_ ->]|[_ ->]]; lia.
  - intros id id' ic ic' H1%Hc H2%Hc. destruct H1 as [[-> ->]|[-> ->]], H2 as [[-> ->]|[-> ->]]; done.
  - intros n Hn. by apply elem_of_nil in Hn.
Qed.
Lemma snapshot_correct_witness :
  let '(s', told) := handleInterceptSnapshot ui_access false ui_snapshot ui_before in
  told = [("one"%string, WaitOk 2 0)] /\ us_cancelled s' = [1%nat] /\ ctx_inv s'.
Proof.
  pose proof (snapshot_correct ui_access false ui_snapshot ui_before ui_before_inv) as H.
  assert (Hv : let '(s', told) := handleInterceptSnapshot ui_access false ui_snapshot ui_before in
            told = [("one"%string, WaitOk 2 0)] /\ us_cancelled s' = [1%nat]) by (vm_compute; by split).
  destruct (handleInterceptSnapshot _ _ _ _) as [s' told]. destruct Hv as [H1 H2]. destruct H as [H3 _]. by split_and!.
Defined.

Definition ui_new : ClientIntercept := ui_icept "" "four" 9094 ["9004"%string].
Lemma ensureNoPortConflict_correct_witness :
  @ensureNoPortConflict K8sRef ui_snapshot ui_new ui_prepared = Ret tt /\
  exists busy, @busy_ports K8sRef (with_spec (ui_spec "four" 9094) ui_new) = Ret busy /\ NoDup busy.
Proof.
  assert (Hr : @ensureNoPortConflict K8sRef ui_snapshot ui_new ui_prepared = Ret tt) by (vm_compute; reflexivity).
  split; [exact Hr|].
  pose proof (@ensureNoPortConflict_correct K8sRef "user@host" ui_snapshot ui_new ui_prepared (ui_spec "four" 9094)) as H.
  rewrite Hr in H. destruct H as (busy & Hb & Hn & _); [|by exists busy].
  vm_compute. reflexivity.
Defined.

(** The address that a name stands for; here every valid address stands for itself. *)
Definition ui_resolve (a : Addr) : option Addr := if bool_decide (addr_wf a /\ a <> AddrZero) then Some a else None.
Lemma shortcuts_end_to_end_witness :
  sc_target (newShortcutTable (@pushed_shortcuts K8sRef ui_resolve true false ui_snapshot)) ProtoTCP (ap 10 96 0 7 80) None = Some (ap 127 0 0 1 9091) /\
  exists c, c ∈ ui_snapshot /\ shortcut_for ui_resolve false c (ap 127 0 0 1 9091).
Proof.
  assert (Hv : sc_target (newShortcutTable (@pushed_shortcuts K8sRef ui_resolve true false ui_snapshot)) ProtoTCP (ap 10 96 0 7 80) None =
            Some (ap 127 0 0 1 9091)) by (vm_compute; reflexivity).
  split; [exact Hv|]. epose proof (@shortcuts_end_to_end K8sRef K8sRef_laws ui_resolve false ui_snapshot _ _ true ProtoTCP (ap 10 96 0 7 80) None) as H.
  rewrite Hv in H. destruct H as (_ & c & Hc & Hf & _). by exists c.
  Unshelve.
  - intros a b. unfold ui_resolve. case_bool_decide as Hb; [|done]. by intros [= <-].
  - intros c [->|[->|Hn]%elem_of_cons]%elem_of_cons; [| |by apply elem_of_nil in Hn]; repeat constructor; lia.
Defined.

(** The forwards of a pod are those of the first intercept that reached it: a second
    intercept of the same container, with a port of its own, is tracked as started and its
    port is not forwarded.  When the first is removed its context, the one that the
    forwards run with, is cancelled; the entry stays, and the second intercept has no
    forwards at all, in this and in all later snapshots. *)
Definition ui_both : USession := (handleInterceptSnapshot ui_access false ui_snapshot (mkUS ∅ ∅ 0 [] newPodAccessTracker)).1.
Definition ui_second_only : list ClientIntercept := [ui_icept "b" "two" 9091 ["9001"%string]].
Definition ui_later : USession := (handleInterceptSnapshot ui_access false ui_second_only ui_both).1.
Theorem second_intercept_not_forwarded :
  let k := mkKey "default" "app" "10.42.0.9" in
  (exists ic, us_current ui_both !! "b"%string = Some ic /\ ci_LocalPorts (ic_ii ic) = ["9001"%string] /\ ic_ctx ic = 1%nat) /\
  alivePods (us_tracker ui_both) !! k = Some (mkAlive "echo" 0 ["9000"%string] false) /\
  dom (us_current ui_later) = {[ "b"%string ]} /\ us_cancelled ui_later = [0%nat] /\
  us_tracker ui_later = us_tracker ui_both /\
  handleInterceptSnapshot ui_access false ui_second_only ui_later = (ui_later, []).
Proof.
  refine (conj _ (conj _ (conj _ (conj _ (conj _ _))))); [|vm_compute; reflexivity..].
  eexists. split; [vm_compute; reflexivity|by split].
Qed.

(** Leaving an engagement ends what runs for the container in every namespace: the test
    compares the container and the workload only. *)
Definition ui_other_ns : podAccess := mkPA 7 ["9000"%string] "echo" "staging" "app" "10.42.7.7" 0 0 "" 0 false.
Theorem cancelContainer_all_namespaces :
  is_Some (alivePods (start ui_other_ns newPodAccessTracker) !! pa_key ui_other_ns) /\
  alivePods (cancelContainer "echo" "app" (start ui_other_ns newPodAccessTracker)) = ∅.
Proof. split; [vm_compute; by eexists|vm_compute; reflexivity]. Qed.
