(* ===== verification/UserIngest.v ===== *)
(** * Ingests of the user daemon (src/pkg/client/userd/trafficmgr/ingest.go, agents.go)

    An ingest gives access to the environment, the volumes and ports of one container of a
    workload.  It uses one pod of the workload; when that pod is gone, the next snapshot of
    the agents replaces it.  What runs in the pods is kept in a tracker, as for intercepts.
    The environment of a container and its translation by the root daemon are left out: the
    translation only succeeds or fails. *)
From S2P Require Import Prelude NetIP GoStrings NetParse PortTypes IpUtil SessionStream Icept ManagerPrepare UserIntercepts UserInterceptsSpec.
From Stdlib Require Import Ascii.

Record IngestAgent := mkIA {
  ia_Name : string; ia_Namespace : string; ia_PodName : string; ia_PodIp : string; ia_SftpPort : Z; ia_FtpPort : Z;
  ia_Containers : gmap string string          (* the mount point by the name of the container *)
}.
Record ingestKey := mkIK { ik_workload : string; ik_container : string; ik_namespace : string }.
Global Instance ingestKey_eq_dec : EqDecision ingestKey.
Proof. solve_decision. Defined.
Global Instance ingestKey_countable : Countable ingestKey.
Proof.
  refine (inj_countable' (fun k => (ik_workload k, ik_container k, ik_namespace k)) (fun x => mkIK x.1.1 x.1.2 x.2) _). by intros [].
Defined.
Record ingest := mkIngest {
  ig_agent : IngestAgent; ig_key : ingestKey; ig_ctx : nat; ig_localMountPoint : string; ig_localMountPort : Z; ig_localPorts : list string
}.
Definition set_agent (ai : IngestAgent) (ig : ingest) : ingest :=
  mkIngest ai (ig_key ig) (ig_ctx ig) (ig_localMountPoint ig) (ig_localMountPort ig) (ig_localPorts ig).
Record ISession := mkIS {
  is_Namespace : string;
  is_currentAgents : list IngestAgent;
  is_currentIngests : gmap ingestKey ingest;
  is_tracker : tracker;
  is_nextCtx : nat;
  is_cancelled : list nat
}.
Definition set_tracker (f : tracker -> tracker) (s : ISession) : ISession :=
  mkIS (is_Namespace s) (is_currentAgents s) (is_currentIngests s) (f (is_tracker s)) (is_nextCtx s) (is_cancelled s).
Definition set_ingest (ig : ingest) (s : ISession) : ISession :=
  mkIS (is_Namespace s) (is_currentAgents s) (<[ig_key ig := ig]> (is_currentIngests s)) (is_tracker s) (is_nextCtx s) (is_cancelled s).

(** What is told of an ingest.  [Panic]: the agent has no such container. *)
Record IngestInfo := mkII { ii_Workload : string; ii_Container : string; ii_Namespace : string; ii_PodIp : string; ii_MountPoint : string; ii_ClientMountPoint : string }.
Inductive ingest_error :=
  | ErrNoPortForward | ErrNotMapped (ns : string) | ErrMultipleContainers | ErrUnimplemented | ErrMountConflict | ErrEnsureAgent | ErrNoContainer | ErrTranslate
  | ErrMultipleIngests | ErrNoIngest.
Definition response (ig : ingest) : Go ingest_error IngestInfo :=
  match ia_Containers (ig_agent ig) !! ik_container (ig_key ig) with
  | None => Panic
  | Some mountPoint => Ret (mkII (ik_workload (ig_key ig)) (ik_container (ig_key ig)) (ik_namespace (ig_key ig)) (ia_PodIp (ig_agent ig)) mountPoint (ig_localMountPoint ig))
  end.

(** ** Finding an ingest *)
Definition ingest_matches (workloadName containerName namespace : string) (k : ingestKey) : Prop :=
  ik_workload k = workloadName /\ (containerName <> EmptyString -> ik_container k = containerName) /\ (namespace <> EmptyString -> ik_namespace k = namespace).
Global Instance ingest_matches_dec w c n k : Decision (ingest_matches w c n k).
Proof. unfold ingest_matches. apply _. Defined.
(** The range stops at the second match.  [visit] is its order. *)
Fixpoint find_loop (w c n : string) (l : list (ingestKey * ingest)) (found : option ingest) : Go ingest_error ingest :=
  match l with
  | [] => match found with Some ig => Ret ig | None => Fail ErrNoIngest end
  | (key, value) :: l =>
      if decide (ingest_matches w c n key) then match found with Some _ => Fail ErrMultipleIngests | None => find_loop w c n l (Some value) end
      else find_loop w c n l found
  end.
Definition findIngest (visit : gmap ingestKey ingest -> list (ingestKey * ingest)) (s : ISession) (workloadName containerName namespace : string) : Go ingest_error ingest :=
  if bool_decide (containerName = EmptyString) || bool_decide (namespace = EmptyString) then find_loop workloadName containerName namespace (visit (is_currentIngests s)) None
  else match is_currentIngests s !! mkIK workloadName containerName namespace with Some ig => Ret ig | None => Fail ErrNoIngest end.

(** ** Creating an ingest *)
Definition validateAgentForIngest (ai : IngestAgent) : Go ingest_error () := if Nat.eqb (size (ia_Containers ai)) 0 then Fail ErrUnimplemented else Ret ().
Definition getSingleContainerName (ai : IngestAgent) : Go ingest_error string :=
  _ ← validateAgentForIngest ai;
  if Nat.ltb 1 (size (ia_Containers ai)) then Fail ErrMultipleContainers
  else Ret (default EmptyString (last (map_to_list (ia_Containers ai)).*1)).
Definition getCurrentAgent (s : ISession) (name namespace : string) : option IngestAgent :=
  snd <$> list_find (fun ai => ia_Name ai = name /\ ia_Namespace ai = namespace) (is_currentAgents s).
Record IngestRequest := mkIR { ir_WorkloadName : string; ir_ContainerName : string; ir_Namespace : string; ir_MountPoint : string; ir_LocalMountPort : Z; ir_LocalPorts : list string }.
(** The environment: the configuration, the namespaces, the intercepts' mounts, the
    traffic-manager, and the root daemon, which is reconnecting when [en_rootd] is false. *)
Record IngestEnv := mkIE {
  en_agentPortForward : bool;
  en_ActualNamespace : string -> string;
  en_interceptMounts : list (string * Z);
  en_EnsureAgent : string -> string -> option (list IngestAgent);
  en_translated : bool;
  en_rootd : bool;
  en_ensureAccess : podAccess -> option string       (* the local IP of the pod, or an error *)
}.
Definition mount_clash (point : string) (port : Z) (x : string * Z) : bool :=
  (negb (bool_decide (point = EmptyString)) && bool_decide (x.1 = point)) || (negb (port =? 0) && (x.2 =? port)).
Definition ensureNoMountConflict (e : IngestEnv) (s : ISession) (point : string) (port : Z) : Go ingest_error () :=
  if existsb (mount_clash point port) (en_interceptMounts e) || existsb (fun x => mount_clash point port (ig_localMountPoint x.2, ig_localMountPort x.2)) (map_to_list (is_currentIngests s))
  then Fail ErrMountConflict else Ret ().
(** An error of [ensureAccess] is logged, and the pod's own IP used. *)
Definition ingest_access (e : IngestEnv) (ig : ingest) : podAccess :=
  let ai := ig_agent ig in
  let pa := mkPA (ig_ctx ig) (ig_localPorts ig) (ik_workload (ig_key ig)) (ia_Namespace ai) (ik_container (ig_key ig)) (ia_PodIp ai)
              (ia_SftpPort ai) (ia_FtpPort ai) (ig_localMountPoint ig) (ig_localMountPort ig) true in
  match en_ensureAccess e pa with Some ip => set_pod ip true pa | None => pa end.
Definition startIngestPodAccess (e : IngestEnv) (ig : ingest) (initial : bool) (s : ISession) : ISession :=
  if en_rootd e then set_tracker (if initial then privateStart (ingest_access e ig) else start (ingest_access e ig)) s else s.
Definition ingest_namespace (e : IngestEnv) (s : ISession) (ns : string) : Go ingest_error string :=
  if bool_decide (ns = EmptyString) then Ret (is_Namespace s)
  else if bool_decide (en_ActualNamespace e ns = EmptyString) then Fail (ErrNotMapped ns) else Ret (en_ActualNamespace e ns).
(** The agent and the key: from the agents that are known, or from the traffic-manager.
    [Panic]: the traffic-manager's snapshot is empty. *)
Definition ingest_agent (e : IngestEnv) (s : ISession) (ik : ingestKey) : Go ingest_error IngestAgent :=
  match getCurrentAgent s (ik_workload ik) (ik_namespace ik) with
  | Some ai => Ret ai
  | None => match en_EnsureAgent e (ik_workload ik) (ik_namespace ik) with None => Fail ErrEnsureAgent | Some [] => Panic | Some (ai :: _) => Ret ai end
  end.
Definition with_container (c : string) (ik : ingestKey) : ingestKey := mkIK (ik_workload ik) c (ik_namespace ik).
Definition resolve_container (ai : IngestAgent) (ik : ingestKey) : Go ingest_error ingestKey :=
  _ ← validateAgentForIngest ai;
  if bool_decide (ik_container ik = EmptyString) then c ← getSingleContainerName ai; Ret (with_container c ik)
  else if bool_decide (is_Some (ia_Containers ai !! ik_container ik)) then Ret ik else Fail ErrNoContainer.
Definition new_ingest (ai : IngestAgent) (ik : ingestKey) (rq : IngestRequest) (s : ISession) : ingest :=
  mkIngest ai ik (is_nextCtx s) (ir_MountPoint rq) (ir_LocalMountPort rq) (ir_LocalPorts rq).
Definition bump (s : ISession) : ISession := mkIS (is_Namespace s) (is_currentAgents s) (is_currentIngests s) (is_tracker s) (S (is_nextCtx s)) (is_cancelled s).
(** The key and the ingest that already exists for it, before anything is asked of the
    traffic-manager. *)
Definition known_ingest (s : ISession) (ik : ingestKey) : Go ingest_error (ingestKey * option ingest) :=
  match getCurrentAgent s (ik_workload ik) (ik_namespace ik) with
  | None => Ret (ik, None)
  | Some ai =>
      ik ← (if bool_decide (ik_container ik = EmptyString) then c ← getSingleContainerName ai; Ret (with_container c ik) else Ret ik);
      Ret (ik, is_currentIngests s !! ik)
  end.
Definition make_ingest (e : IngestEnv) (s : ISession) (ik : ingestKey) (rq : IngestRequest) : Go ingest_error (ingest * bool) :=
  _ ← ensureNoMountConflict e s (ir_MountPoint rq) (ir_LocalMountPort rq);
  ai ← ingest_agent e s ik;
  ik ← resolve_container ai ik;
  _ ← (if en_translated e && en_rootd e then Ret () else Fail ErrTranslate);
  Ret (match is_currentIngests s !! ik with Some ig => (ig, false) | None => (new_ingest ai ik rq s, true) end).
Definition Ingest (e : IngestEnv) (s : ISession) (rq : IngestRequest) : ISession * Go ingest_error IngestInfo :=
  if negb (en_agentPortForward e) then (s, Fail ErrNoPortForward)
  else
    match (ns ← ingest_namespace e s (ir_Namespace rq); known_ingest s (mkIK (ir_WorkloadName rq) (ir_ContainerName rq) ns)) with
    | Fail x => (s, Fail x)
    | Panic => (s, Panic)
    | Ret (_, Some ig) => (s, response ig)
    | Ret (ik, None) =>
        match make_ingest e s ik rq with
        | Fail x => (s, Fail x)
        | Panic => (s, Panic)
        | Ret (ig, false) => (s, response ig)
        | Ret (ig, true) => (startIngestPodAccess e ig true (bump (set_ingest ig s)), response ig)
        end
    end.

(** ** Leaving an ingest *)
Definition cancelIngest (ig : ingest) (s : ISession) : ISession :=
  mkIS (is_Namespace s) (is_currentAgents s) (delete (ig_key ig) (is_currentIngests s))
    (cancelContainer (ik_workload (ig_key ig)) (ik_container (ig_key ig)) (is_tracker s)) (is_nextCtx s) (is_cancelled s ++ [ig_ctx ig]).
Definition LeaveIngest (visit : gmap ingestKey ingest -> list (ingestKey * ingest)) (s : ISession) (w c n : string) : ISession * Go ingest_error IngestInfo :=
  match findIngest visit s w c n with
  | Ret ig => (cancelIngest ig s, response ig)
  | Fail x => (s, Fail x)
  | Panic => (s, Panic)
  end.

(** ** Snapshots of the agents *)
(** The agents of a key, in whatever namespace they are. *)
Definition infosForKey (infos : list IngestAgent) (key : ingestKey) : list IngestAgent :=
  filter (fun info => ia_Name info = ik_workload key /\ is_Some (ia_Containers info !! ik_container key)) infos.
Definition refresh_ingest (e : IngestEnv) (infos : list IngestAgent) (s : ISession) (kv : ingestKey * ingest) : ISession :=
  let '(key, ig) := kv in
  match infosForKey infos key with
  | [] => s
  | (ai :: _) as ais =>
      let ig := if existsb (fun cai => bool_decide (ia_PodName cai = ia_PodName (ig_agent ig))) ais then ig else set_agent ai ig in
      startIngestPodAccess e ig false (mkIS (is_Namespace s) (is_currentAgents s) (<[key := ig]> (is_currentIngests s)) (is_tracker s) (is_nextCtx s) (is_cancelled s))
  end.
Definition handleAgentSnapshot (e : IngestEnv) (visit : gmap ingestKey ingest -> list (ingestKey * ingest)) (infos : list IngestAgent) (s : ISession) : ISession :=
  let s := set_tracker initSnapshot s in
  let s := mkIS (is_Namespace s) infos (is_currentIngests s) (is_tracker s) (is_nextCtx s) (is_cancelled s) in
  set_tracker cancelUnwanted (foldl (refresh_ingest e infos) s (visit (is_currentIngests s))).
(** The handler of the deltas: maps.DeltaUpdate, and a snapshot of the values. *)
Definition DeltaUpdate {A} (m : gmap string A) (upserts : gmap string A) (removals : list string) : gmap string A := foldl (fun m k => delete k m) (upserts ∪ m) removals.

(** ** Finding *)
Lemma find_loop_spec w c n l found :
  let ms := filter (fun kv : ingestKey * ingest => ingest_matches w c n kv.1) l in
  find_loop w c n l found = match option_list found ++ ms.*2 with [] => Fail ErrNoIngest | [ig] => Ret ig | _ => Fail ErrMultipleIngests end.
Proof.
  revert found. induction l as [|[k v] l IH]; intros found; cbn [find_loop]; [destruct found; done|]. cbv zeta in *. rewrite filter_cons. cbn [fst].
  destruct (decide (ingest_matches w c n k)) as [Hm|Hm]; [|apply IH]. destruct found as [ig|]; [done|]. rewrite IH. done.
Qed.
(** The ingests that an identifier names; an empty container or namespace matches any. *)
Definition named_ingests (s : ISession) (w c n : string) : list (ingestKey * ingest) := filter (fun kv => ingest_matches w c n kv.1) (map_to_list (is_currentIngests s)).

(** An ingest is found exactly when the identifier names one and no other, in whatever order
    the map is ranged over; the error tells none from several. *)
Theorem findIngest_correct (visit : gmap ingestKey ingest -> list (ingestKey * ingest)) (s : ISession) (w c n : string) :
  (forall m, visit m ≡ₚ map_to_list m) ->
  match findIngest visit s w c n with
  | Ret ig => exists k, named_ingests s w c n = [(k, ig)]
  | Fail ErrNoIngest => named_ingests s w c n = []
  | Fail ErrMultipleIngests => (2 <= length (named_ingests s w c n))%nat
  | _ => False
  end.
Proof.
  intros Hv. unfold findIngest, named_ingests. destruct (bool_decide (c = "") || bool_decide (n = "")) eqn:E.
  - rewrite find_loop_spec. cbn [option_list app]. assert (HP : filter (fun kv : ingestKey * ingest => ingest_matches w c n kv.1) (visit (is_currentIngests s)) ≡ₚ
      filter (fun kv => ingest_matches w c n kv.1) (map_to_list (is_currentIngests s))) by (by rewrite (Hv _)).
    destruct (filter _ (visit (is_currentIngests s))) as [|[k ig] [|kv2 l]]; cbn [fmap list_fmap snd].
    + by apply Permutation_nil_l in HP.
    + exists k. symmetry in HP. by apply Permutation_singleton_r in HP.
    + apply Permutation_length in HP. rewrite <- HP. cbn. lia.
  - apply orb_false_iff in E as [Ec En]. apply bool_decide_eq_false_1 in Ec, En. set (k := mkIK w c n).
    assert (Hm : forall k', ingest_matches w c n k' <-> k' = k).
    { intros [w' c' n']. unfold ingest_matches, k. cbn. split; [intros (-> & Hc & Hn); by rewrite Hc, Hn|by intros [= -> -> ->]]. }
    destruct (is_currentIngests s !! k) as [ig|] eqn:Ek.
    + exists k. apply Permutation_singleton_r. apply NoDup_Permutation; [apply NoDup_filter, NoDup_map_to_list|apply NoDup_singleton|].
      intros [k' ig']. rewrite list_elem_of_filter, list_elem_of_singleton, elem_of_map_to_list. cbn [fst]. rewrite Hm. split; [intros [-> Hi]; congruence|by intros [= -> ->]].
    + destruct (filter _ _) as [|[k' ig'] l] eqn:Ef; [done|]. exfalso. assert (Hin : (k', ig') ∈ (k', ig') :: l) by apply list_elem_of_here. rewrite <- Ef in Hin.
      apply list_elem_of_filter in Hin as [Hmm Hin]. apply Hm in Hmm. cbn in Hmm. apply elem_of_map_to_list in Hin. congruence.
Qed.

(** ** The invariant *)
Definition ingest_ok (s : ISession) : Prop :=
  map_Forall (fun k ig => ig_key ig = k /\ is_Some (ia_Containers (ig_agent ig) !! ik_container k) /\ (ig_ctx ig < is_nextCtx s)%nat /\ ig_ctx ig ∉ is_cancelled s) (is_currentIngests s) /\
  (forall k1 k2 i1 i2, is_currentIngests s !! k1 = Some i1 -> is_currentIngests s !! k2 = Some i2 -> ig_ctx i1 = ig_ctx i2 -> k1 = k2) /\
  (forall c, c ∈ is_cancelled s -> (c < is_nextCtx s)%nat).
Lemma response_ok s k ig : ingest_ok s -> is_currentIngests s !! k = Some ig -> exists i, response ig = Ret i /\ ii_Workload i = ik_workload k /\ ii_Container i = ik_container k /\ ii_Namespace i = ik_namespace k.
Proof.
  intros (Hi & _) Hk. destruct (Hi k ig Hk) as (He & Hc & _). unfold response. rewrite He. destruct Hc as [m ->]. eexists. split; [done|]. done.
Qed.
Lemma single_container ai c : getSingleContainerName ai = Ret c -> is_Some (ia_Containers ai !! c).
Proof.
  unfold getSingleContainerName, validateAgentForIngest. destruct (Nat.eqb_spec (size (ia_Containers ai)) 0) as [|Hz]; [done|]. cbn [mbind go_bind].
  destruct (Nat.ltb_spec 1 (size (ia_Containers ai))) as [|Hs]; [done|]. intros He. apply Ret_inj in He. subst c.
  assert (H1 : length (map_to_list (ia_Containers ai)) = 1%nat) by (rewrite length_map_to_list; lia).
  destruct (map_to_list (ia_Containers ai)) as [|[c m] [|]] eqn:El; [done| |done]. cbn. exists m. apply elem_of_map_to_list. rewrite El. apply list_elem_of_here.
Qed.
Lemma resolve_container_ok ai ik ik' : resolve_container ai ik = Ret ik' -> is_Some (ia_Containers ai !! ik_container ik') /\ ik_workload ik' = ik_workload ik /\ ik_namespace ik' = ik_namespace ik.
Proof.
  unfold resolve_container. destruct (validateAgentForIngest ai); [|done|done]. cbn [mbind go_bind]. case_bool_decide as Hc.
  - destruct (getSingleContainerName ai) as [c|e|] eqn:Eg; cbn; [|done|done]. intros He. apply Ret_inj in He. subst ik'. cbn. split; [by apply single_container|done].
  - case_bool_decide as Hs; [|done]. intros He. apply Ret_inj in He. by subst ik'.
Qed.
Lemma make_ingest_ok e s ik rq ig isnew : make_ingest e s ik rq = Ret (ig, isnew) ->
  exists ik', (isnew = false /\ is_currentIngests s !! ik' = Some ig \/ isnew = true /\ is_currentIngests s !! ik' = None /\ ig_key ig = ik' /\ is_Some (ia_Containers (ig_agent ig) !! ik_container ik') /\ ig_ctx ig = is_nextCtx s) /\
    ik_workload ik' = ik_workload ik /\ ik_namespace ik' = ik_namespace ik.
Proof.
  unfold make_ingest. destruct (ensureNoMountConflict _ _ _ _); [|done|done]. cbn [mbind go_bind]. destruct (ingest_agent e s ik) as [ai|x|]; [|done|done]. cbn [mbind go_bind].
  destruct (resolve_container ai ik) as [ik'|x|] eqn:Er; [|done|done]. cbn [mbind go_bind]. destruct (_ && _); [|done]. cbn [mbind go_bind]. intros He. apply Ret_inj in He.
  destruct (resolve_container_ok _ _ _ Er) as (H1 & H2 & H3). exists ik'. split; [|done]. destruct (is_currentIngests s !! ik') as [ig0|] eqn:Ek; injection He as <- <-; [by left|]. right. done.
Qed.
Lemma bump_ok ig s : ingest_ok s -> is_currentIngests s !! ig_key ig = None -> is_Some (ia_Containers (ig_agent ig) !! ik_container (ig_key ig)) -> ig_ctx ig = is_nextCtx s -> ingest_ok (bump (set_ingest ig s)).
Proof.
  intros (Hi & Hu & Hc) Hn Hs Hx. unfold ingest_ok, bump, set_ingest. cbn [is_currentIngests is_nextCtx is_cancelled]. split_and!.
  - apply map_Forall_insert_2; [split_and!; [done|done|lia|]; intros Hin; apply Hc in Hin; lia|]. intros k ig' Hk. destruct (Hi k ig' Hk) as (? & ? & ? & ?). split_and!; [done|done|lia|done].
  - assert (Hlt : forall k i, is_currentIngests s !! k = Some i -> ig_ctx i <> ig_ctx ig) by (intros k i Hk; destruct (Hi k i Hk) as (_ & _ & ? & _); lia).
    intros k1 k2 i1 i2 [[<- <-]|[_ Hk1]]%lookup_insert_Some [[<- <-]|[_ Hk2]]%lookup_insert_Some He; [done|by apply Hlt in Hk2|by apply Hlt in Hk1|by apply (Hu k1 k2 i1 i2)].
  - intros c Hin. apply Hc in Hin. lia.
Qed.
Lemma same_ingests_ok s s' : is_currentIngests s' = is_currentIngests s -> is_nextCtx s' = is_nextCtx s -> is_cancelled s' = is_cancelled s -> ingest_ok s -> ingest_ok s'.
Proof. unfold ingest_ok. by intros -> -> ->. Qed.
Lemma startIngest_same e ig b s : is_currentIngests (startIngestPodAccess e ig b s) = is_currentIngests s /\ is_nextCtx (startIngestPodAccess e ig b s) = is_nextCtx s /\ is_cancelled (startIngestPodAccess e ig b s) = is_cancelled s.
Proof. unfold startIngestPodAccess. by destruct (en_rootd e). Qed.
Lemma start_ok e ig b s : ingest_ok s -> ingest_ok (startIngestPodAccess e ig b s).
Proof. destruct (startIngest_same e ig b s) as (H1 & H2 & H3). by apply same_ingests_ok. Qed.

Lemma known_ingest_ok s ik r : known_ingest s ik = r ->
  r <> Panic /\ forall ik' o, r = Ret (ik', o) -> ik_workload ik' = ik_workload ik /\ ik_namespace ik' = ik_namespace ik /\ (forall ig, o = Some ig -> is_currentIngests s !! ik' = Some ig).
Proof.
  intros <-. unfold known_ingest. destruct (getCurrentAgent s _ _) as [ai|]; cbn [mbind go_bind]; [|split; [done|]; intros ik' o He; apply Ret_inj in He; injection He as <- <-; done].
  case_bool_decide; cbn [mbind go_bind]; [|split; [done|]; intros ik' o He; apply Ret_inj in He; injection He as <- <-; done].
  unfold getSingleContainerName, validateAgentForIngest. destruct (Nat.eqb _ 0); cbn [mbind go_bind]; [done|]. destruct (Nat.ltb 1 _); cbn [mbind go_bind]; [done|].
  split; [done|]. intros ik' o He. apply Ret_inj in He. injection He as <- <-. done.
Qed.

(** C16. A request for an ingest: on an error nothing changes; otherwise the answer is about the
    requested workload, in the connected namespace when none is given, and the ingest is
    among the current ones, of which none is lost.  The request does not panic, every current
    ingest names a container of its agent, and contexts are not shared. *)
Theorem Ingest_correct (e : IngestEnv) (s : ISession) (rq : IngestRequest) :
  ingest_ok s -> (forall w n, en_EnsureAgent e w n <> Some []) ->
  let '(s', r) := Ingest e s rq in
  ingest_ok s' /\ is_currentIngests s ⊆ is_currentIngests s' /\ r <> Panic /\
  (forall x, r = Fail x -> s' = s) /\
  (forall i, r = Ret i -> ii_Workload i = ir_WorkloadName rq /\ is_Some (is_currentIngests s' !! mkIK (ii_Workload i) (ii_Container i) (ii_Namespace i)) /\
     (ir_Namespace rq = EmptyString -> ii_Namespace i = is_Namespace s)).
Proof.
  intros Hok Hea. unfold Ingest. destruct (negb _); [split_and!; done|]. destruct (ingest_namespace e s (ir_Namespace rq)) as [ns|x|] eqn:En; cbn [mbind go_bind]; [|split_and!; done|].
  2:{ exfalso. unfold ingest_namespace in En. repeat case_bool_decide; done. }
  assert (Hns : ir_Namespace rq = EmptyString -> ns = is_Namespace s).
  { intros Hq. unfold ingest_namespace in En. rewrite bool_decide_eq_true_2 in En by done. by apply Ret_inj in En. }
  set (ik := mkIK (ir_WorkloadName rq) (ir_ContainerName rq) ns).
  assert (Hki := known_ingest_ok s ik).
  destruct (known_ingest s ik) as [[ik' [ig|]]|x|] eqn:Ek; destruct (Hki _ eq_refl) as [Hp Hk]; [| |split_and!; done|done].
  - destruct (Hk ik' (Some ig) eq_refl) as (H1 & H2 & H3). specialize (H3 ig eq_refl). destruct (response_ok s ik' ig Hok H3) as (i & -> & A & B & C). split_and!; [done|done|done|done|].
    intros i' He. apply Ret_inj in He. subst i'. rewrite A, B, C. destruct ik' as [w c n]. cbn in *. subst. split_and!; [done|by eexists|done].
  - destruct (Hk ik' None eq_refl) as (H1 & H2 & _). destruct (make_ingest e s ik' rq) as [[ig isnew]|x|] eqn:Em; [|split_and!; done|].
    2:{ exfalso. revert Em. unfold make_ingest, ensureNoMountConflict, ingest_agent, resolve_container, getSingleContainerName, validateAgentForIngest.
        repeat (case_match; cbn [mbind go_bind]; try done); intros _; by eapply Hea. }
    destruct (make_ingest_ok _ _ _ _ _ _ Em) as ([w c n] & [[-> Hg]|(-> & Hg & Hkey & Hcs & Hx)] & H3 & H4); cbn in *; subst.
    + destruct (response_ok s _ ig Hok Hg) as (i & -> & A & B & C). split_and!; [done|done|done|done|]. intros i' He. apply Ret_inj in He. subst i'. rewrite A, B, C. cbn. split_and!; [done|by eexists|done].
    + assert (Hb : ingest_ok (bump (set_ingest ig s))) by (apply bump_ok; [done|by rewrite Hkey|by rewrite Hkey|done]).
      assert (Hl : is_currentIngests (bump (set_ingest ig s)) !! mkIK (ir_WorkloadName rq) c (ik_namespace ik') = Some ig) by (cbn; rewrite Hkey, <- H1; apply lookup_insert_eq).
      destruct (response_ok _ _ ig Hb Hl) as (i & -> & A & B & C). destruct (startIngest_same e ig true (bump (set_ingest ig s))) as (S1 & _). split_and!.
      * by apply start_ok.
      * rewrite S1. cbn. apply insert_subseteq. by rewrite Hkey.
      * done.
      * done.
      * intros i' He. apply Ret_inj in He. subst i'. rewrite A, B, C, S1. cbn. split_and!; [done|by eexists|done].
Qed.

(** ** Snapshots *)
Lemma cancelIngest_ok s k ig : ingest_ok s -> is_currentIngests s !! k = Some ig -> ingest_ok (cancelIngest ig s) /\ is_currentIngests (cancelIngest ig s) = delete k (is_currentIngests s).
Proof.
  intros (Hi & Hu & Hc) Hk. destruct (Hi k ig Hk) as (He & _ & Hl & _). unfold ingest_ok, cancelIngest. cbn [is_currentIngests is_nextCtx is_cancelled]. rewrite He. split; [|done]. split_and!.
  - intros k' ig' [Hne Hk']%lookup_delete_Some. destruct (Hi k' ig' Hk') as (? & ? & ? & Hn). split_and!; [done..|]. intros [Hin|Hin%list_elem_of_singleton]%elem_of_app; [done|].
    apply Hne. by apply (Hu k k' ig ig').
  - intros k1 k2 i1 i2 [_ H1]%lookup_delete_Some [_ H2]%lookup_delete_Some. by apply Hu.
  - intros c [Hin|Hin%list_elem_of_singleton]%elem_of_app; [by apply Hc|subst c; lia].
Qed.
(** The ingest after a snapshot. *)
Definition refreshed_ingest (infos : list IngestAgent) (ig : ingest) : ingest :=
  match infosForKey infos (ig_key ig) with
  | [] => ig
  | (ai :: _) as ais => if existsb (fun cai => bool_decide (ia_PodName cai = ia_PodName (ig_agent ig))) ais then ig else set_agent ai ig
  end.
Lemma refresh_ingest_eq e infos s k ig : ig_key ig = k ->
  refresh_ingest e infos s (k, ig) = if bool_decide (infosForKey infos k = []) then s
    else startIngestPodAccess e (refreshed_ingest infos ig) false (mkIS (is_Namespace s) (is_currentAgents s) (<[k := refreshed_ingest infos ig]> (is_currentIngests s)) (is_tracker s) (is_nextCtx s) (is_cancelled s)).
Proof. intros <-. unfold refresh_ingest, refreshed_ingest. by destruct (infosForKey infos (ig_key ig)). Qed.
(** What the loop has done after the ingests [l]. *)
Record refresh_inv (e : IngestEnv) (infos : list IngestAgent) (s0 s : ISession) (l : list (ingestKey * ingest)) : Prop := mkRefreshInv {
  ri_ingests : is_currentIngests s = list_to_map ((fun kv => (kv.1, refreshed_ingest infos kv.2)) <$> l) ∪ is_currentIngests s0;
  ri_rest : is_nextCtx s = is_nextCtx s0 /\ is_cancelled s = is_cancelled s0;
  ri_tracker : tracker_inv (is_tracker s);
  ri_snapshot : forall k, k ∈ t_snapshot (is_tracker s) -> exists kv, kv ∈ l /\ infosForKey infos kv.1 <> [] /\ k = pa_key (ingest_access e (refreshed_ingest infos kv.2));
  ri_started : forall kv, kv ∈ l -> infosForKey infos kv.1 <> [] -> en_rootd e = true ->
    let pa := ingest_access e (refreshed_ingest infos kv.2) in
    pa_key pa ∈ t_snapshot (is_tracker s) /\ (shouldForward pa || shouldMount pa = true -> is_Some (alivePods (is_tracker s) !! pa_key pa))
}.
Lemma refreshed_key infos ig : ig_key (refreshed_ingest infos ig) = ig_key ig.
Proof. unfold refreshed_ingest. destruct (infosForKey _ _); [done|]. by destruct (existsb _ _). Qed.
Lemma start_alive pa t : t_snapshot (start pa t) = {[ pa_key pa ]} ∪ t_snapshot t /\ alivePods t ⊆ alivePods (start pa t) /\
  (shouldForward pa || shouldMount pa = true -> is_Some (alivePods (start pa t) !! pa_key pa)).
Proof.
  unfold start. set (t0 := mkTracker _ _ _ _). destruct (privateStart_spec pa t0) as (H1 & H2 & H3).
  assert (Hcr : alivePods (close_ready (pa_key pa) (privateStart pa t0)) = alivePods (privateStart pa t0) /\ t_snapshot (close_ready (pa_key pa) (privateStart pa t0)) = t_snapshot (privateStart pa t0)).
  { unfold close_ready. by destruct (mountsReady _ !! _). }
  destruct Hcr as [-> ->]. rewrite H3. split; [done|]. unfold privateStart. cbn [alivePods t0]. destruct (negb (shouldForward pa) && negb (shouldMount pa)) eqn:E.
  - split; [done|]. rewrite <- negb_orb in E. intros Hs. by rewrite Hs in E.
  - destruct (alivePods t !! pa_key pa) as [lp|] eqn:El; cbn [alivePods].
    + split; [done|]. intros _. cbn. by rewrite El.
    + split; [by apply insert_subseteq|]. intros _. rewrite lookup_insert_eq. by eexists.
Qed.
Lemma refresh_step e infos s0 s l k ig : refresh_inv e infos s0 s l -> is_currentIngests s0 !! k = Some ig -> ig_key ig = k -> k ∉ l.*1 -> refresh_inv e infos s0 (refresh_ingest e infos s (k, ig)) (l ++ [(k, ig)]).
Proof.
  intros [Hi Hr Ht Hs Hst] Hk Hkey Hnew. rewrite refresh_ingest_eq by done.
  assert (Hmap : list_to_map ((fun kv => (kv.1, refreshed_ingest infos kv.2)) <$> l ++ [(k, ig)]) ∪ is_currentIngests s0 = <[k := refreshed_ingest infos ig]> (is_currentIngests s)).
  { rewrite fmap_app. cbn [fmap list_fmap]. rewrite list_to_map_app. cbn [list_to_map foldr]. rewrite Hi. apply map_eq. intros k'.
    destruct (decide (k' = k)) as [->|Hne].
    - rewrite lookup_insert_eq, lookup_union_l', lookup_union_r; [by rewrite lookup_insert_eq| |].
      + apply not_elem_of_list_to_map_1. rewrite <- list_fmap_compose. exact Hnew.
      + rewrite lookup_union_r; [rewrite lookup_insert_eq; by eexists|]. apply not_elem_of_list_to_map_1. rewrite <- list_fmap_compose. exact Hnew.
    - rewrite lookup_insert_ne by done. rewrite !lookup_union. f_equal. rewrite lookup_insert_ne, lookup_empty by done. by destruct (_ !! k'). }
  case_bool_decide as Hinf.
  - constructor; [|done|done| |].
    + rewrite Hmap. rewrite insert_id; [done|]. rewrite Hi. rewrite lookup_union_r; [|apply not_elem_of_list_to_map_1; rewrite <- list_fmap_compose; exact Hnew].
      rewrite Hk. unfold refreshed_ingest. by rewrite Hkey, Hinf.
    + intros k' Hk'. destruct (Hs k' Hk') as (kv & Hin & ?). exists kv. split; [apply elem_of_app; by left|done].
    + intros kv [Hin|Hin%list_elem_of_singleton]%elem_of_app Hne He; [by apply Hst|]. subst kv. done.
  - set (s1 := mkIS _ _ _ _ _ _). destruct (startIngest_same e (refreshed_ingest infos ig) false s1) as (S1 & S2 & S3).
    assert (Htr : is_tracker (startIngestPodAccess e (refreshed_ingest infos ig) false s1) = if en_rootd e then start (ingest_access e (refreshed_ingest infos ig)) (is_tracker s) else is_tracker s).
    { unfold startIngestPodAccess. by destruct (en_rootd e). }
    destruct (start_alive (ingest_access e (refreshed_ingest infos ig)) (is_tracker s)) as (A1 & A2 & A3).
    constructor; [by rewrite S1, Hmap|rewrite S2, S3; exact Hr| | |]; rewrite Htr.
    + destruct (en_rootd e); [by apply start_spec|done].
    + intros k' Hk'. destruct (en_rootd e).
      * rewrite A1 in Hk'. apply elem_of_union in Hk' as [Hk'%elem_of_singleton|Hk']; [exists (k, ig); split; [apply elem_of_app; right; apply list_elem_of_here|done]|].
        destruct (Hs k' Hk') as (kv & Hin & ?). exists kv. split; [apply elem_of_app; by left|done].
      * destruct (Hs k' Hk') as (kv & Hin & ?). exists kv. split; [apply elem_of_app; by left|done].
    + intros kv Hin Hne He. rewrite He, A1. apply elem_of_app in Hin as [Hin|Hin%list_elem_of_singleton].
      * destruct (Hst kv Hin Hne He) as [H1 H2]. split; [set_solver|]. intros Hw. destruct (H2 Hw) as [x Hx]. exists x. by eapply lookup_weaken.
      * subst kv. cbn [fst snd] in *. split; [set_solver|exact A3].
Qed.
Lemma privateDelete_alive k t : alivePods (privateDelete k t) = delete k (alivePods t).
Proof. unfold privateDelete, close_ready. cbn [mountsReady]. by destruct (mountsReady t !! k). Qed.
Lemma cancel_keeps (f : paKey -> alive -> bool) k l t : (forall lp, f k lp = false) ->
  alivePods (foldl (fun t (kv : paKey * alive) => if f kv.1 kv.2 then privateDelete kv.1 t else t) t l) !! k = alivePods t !! k.
Proof.
  intros Hf. revert t. induction l as [|[k' lp] l IH]; intros t; [done|]. cbn [foldl fst snd]. rewrite IH. destruct (f k' lp) eqn:E; [|done]. rewrite privateDelete_alive.
  apply lookup_delete_ne. intros ->. by rewrite Hf in E.
Qed.
Lemma cancelUnwanted_keeps k t : k ∈ t_snapshot t -> alivePods (cancelUnwanted t) !! k = alivePods t !! k.
Proof.
  intros Hk. unfold cancelUnwanted, cancel_where. set (f := fun (k : paKey) (_ : alive) => negb (bool_decide (k ∈ t_snapshot t))).
  apply (cancel_keeps f). intros lp. unfold f. by rewrite bool_decide_eq_true_2.
Qed.
(** What is alive after [cancelUnwanted] was in the snapshot. *)
Lemma cancelUnwanted_wanted k t : tracker_inv t -> is_Some (alivePods (cancelUnwanted t) !! k) -> k ∈ t_snapshot t.
Proof.
  intros Ht Hp. destruct (cancelUnwanted_spec t Ht) as (_ & _ & Hcu). apply Hcu in Hp.
  destruct (cancel_fold (fun k _ => negb (bool_decide (k ∈ t_snapshot t))) (map_to_list (alivePods t)) t Ht) as (_ & _ & Hsn & _).
  unfold cancelUnwanted, cancel_where in Hp. by rewrite Hsn in Hp.
Qed.
Lemma refresh_all e infos s0 s l : NoDup l.*1 -> (forall k ig, (k, ig) ∈ l -> is_currentIngests s0 !! k = Some ig /\ ig_key ig = k) -> refresh_inv e infos s0 s [] ->
  refresh_inv e infos s0 (foldl (refresh_ingest e infos) s l) l.
Proof.
  intros Hnd Hl Hs. induction l as [|[k ig] l IH] using rev_ind; [done|]. rewrite foldl_app. cbn [foldl]. rewrite fmap_app in Hnd. apply NoDup_app in Hnd as (Hnd & Hdis & _).
  destruct (Hl k ig) as [Hk Hkey]; [apply elem_of_app; right; apply list_elem_of_here|]. apply refresh_step; [|done|done|].
  - apply IH; [done|]. intros k' ig' Hin. apply Hl, elem_of_app. by left.
  - intros Hin. apply (Hdis k Hin). apply list_elem_of_here.
Qed.
Lemma refreshed_pod infos ig : infosForKey infos (ig_key ig) <> [] -> is_Some (ia_Containers (ig_agent ig) !! ik_container (ig_key ig)) ->
  is_Some (ia_Containers (ig_agent (refreshed_ingest infos ig)) !! ik_container (ig_key ig)) /\
  exists ai, ai ∈ infos /\ ia_Name ai = ik_workload (ig_key ig) /\ is_Some (ia_Containers ai !! ik_container (ig_key ig)) /\ ia_PodName ai = ia_PodName (ig_agent (refreshed_ingest infos ig)).
Proof.
  intros Hne Hc. assert (Hin : forall ai, ai ∈ infosForKey infos (ig_key ig) -> ai ∈ infos /\ ia_Name ai = ik_workload (ig_key ig) /\ is_Some (ia_Containers ai !! ik_container (ig_key ig))).
  { intros ai [[H1 H2] H3]%list_elem_of_filter. done. }
  unfold refreshed_ingest. destruct (infosForKey infos (ig_key ig)) as [|ai ais] eqn:Ei; [done|]. destruct (existsb (fun cai => bool_decide (ia_PodName cai = ia_PodName (ig_agent ig))) (ai :: ais)) eqn:Ex.
  - split; [done|]. apply existsb_exists in Ex as (x & Hx%list_elem_of_In & Hp%bool_decide_eq_true_1). exists x. destruct (Hin x Hx) as (? & ? & ?). done.
  - cbn [set_agent ig_agent]. destruct (Hin ai (list_elem_of_here _ _)) as (? & ? & ?). split; [done|]. by exists ai.
Qed.


(** ** Witnesses *)
Definition shop_pod (ns pod ip : string) : IngestAgent := mkIA "shop" ns pod ip 0 0 {[ "web" := "/tel_app_mounts/web" ]}%string.
Definition all_fine : IngestEnv := mkIE true id [] (fun w n => Some [shop_pod n "shop-x" "10.1.0.9"]) true true (fun _ => None).
Definition empty_session : ISession := mkIS "ns" [shop_pod "ns" "shop-1" "10.1.0.1"] ∅ newPodAccessTracker 0 [].
Definition ingest_web (ns : string) : IngestRequest := mkIR "shop" "" ns "/mnt/shop" 0 ["8080"%string].
Definition ingested : ISession := (Ingest all_fine empty_session (ingest_web "")).1.
Lemma empty_session_ok : ingest_ok empty_session.
Proof. split_and!; [apply map_Forall_empty|intros k1 k2 i1 i2 Hk; cbn in Hk; by rewrite lookup_empty in Hk|intros c Hc; by apply not_elem_of_nil in Hc]. Qed.
Lemma Ingest_correct_witness : let '(s', r) := Ingest all_fine empty_session (ingest_web "") in r <> Panic /\ ingest_ok s'.
Proof.
  assert (H := Ingest_correct all_fine empty_session (ingest_web "") empty_session_ok). destruct (Ingest all_fine empty_session (ingest_web "")) as [s' r].
  destruct H as (H1 & _ & H2 & _); [intros w n; discriminate|]. split; [exact H2|exact H1].
Defined.
Lemma ingested_ok : ingest_ok ingested.
Proof.
  set (ig := new_ingest (shop_pod "ns" "shop-1" "10.1.0.1") (mkIK "shop" "web" "ns") (ingest_web "") empty_session).
  change (ingest_ok (startIngestPodAccess all_fine ig true (bump (set_ingest ig empty_session)))). apply start_ok, bump_ok; [apply empty_session_ok|reflexivity|by eexists|reflexivity].
Qed.
Lemma findIngest_correct_witness : exists k ig, findIngest map_to_list ingested "shop" "" "" = Ret ig /\ named_ingests ingested "shop" "" "" = [(k, ig)].
Proof.
  assert (H := findIngest_correct map_to_list ingested "shop" "" "" (fun m => reflexivity _)). destruct (findIngest map_to_list ingested "shop" "" "") as [ig|x|] eqn:E.
  - destruct H as [k H]. exists k, ig. split; [reflexivity|exact H].
  - vm_compute in E. discriminate.
  - vm_compute in E. discriminate.
Defined.

(** ** What the code does not mean to do *)
(** An ingest in a namespace other than the connected one loses its port forwards and mounts with the next snapshot, which has the agents of the connected namespace only. *)
Example other_namespace_loses_access :
  let s := (Ingest all_fine empty_session (ingest_web "other")).1 in
  is_Some (alivePods (is_tracker s) !! mkKey "other" "web" "10.1.0.9") /\
  alivePods (is_tracker (handleAgentSnapshot all_fine map_to_list [] s)) = ∅.
Proof. split; [vm_compute; by eexists|vm_compute; reflexivity]. Qed.
(** And it moves to the pod of the workload of the same name in the connected namespace. *)
Example other_namespace_adopts_agent :
  let s := (Ingest all_fine empty_session (ingest_web "other")).1 in
  (fun ig => ia_Namespace (ig_agent ig)) <$> is_currentIngests (handleAgentSnapshot all_fine map_to_list [shop_pod "ns" "shop-1" "10.1.0.1"] s) !! mkIK "shop" "web" "other" = Some "ns"%string.
Proof. vm_compute. reflexivity. Qed.
