(* ===== verification/ClientConfig.v ===== *)
(** * The client's configuration (src/pkg/client/config.go, config_util.go, config_unix.go,
      config_linux.go, src/pkg/json, and what src/pkg/client/k8s/config.go and
      src/pkg/client/userd/trafficmgr/session.go make of it)

    A configuration has sections, and a section has defaults.  A section is written without
    what equals its defaults, and read on top of them; configurations are merged so that
    what is not a default takes priority.  The code finds the fields of a section by
    reflection: here a section has a list of fields, with their Go names, their tags, and
    what is needed to read and write them ([Field]).

    The defaults hold one slice, the excluded suffixes of the DNS section.  Copies of the
    default configuration share its array, and a decoder that reads a JSON array into a slice
    appends to the emptied slice, in its array.  The array is therefore a state ([array]),
    and the field is a slice of it or of an array of its own ([suffixes]).

    The model is the one for Linux.  Texts are values of JSON: what the YAML library makes of
    the bytes of a file is a parameter, and so are the texts of durations, levels, quantities
    and addresses ([ConfigCodecs]). *)
From S2P Require Import Prelude NetIP Subnet SubnetSpec GoStrings GoText GoJson NetParse DnsServer SessionRoutes UserNamespaces.
From Stdlib Require Import Ascii.
Local Open Scope Z_scope.

(** ** Reading and writing values *)
Inductive uerr := EUnknown | EBad.     (* an unknown member, or anything else *)
Global Instance uerr_eq_dec : EqDecision uerr.
Proof. solve_decision. Defined.
(** [dec] is told whether unknown members are rejected.  The type in Go has the values
    [valid]; null slices excepted, what is written of them can be read. *)
Record Codec (A : Type) := mkCodec { valid : A -> Prop; enc : A -> jval; dec : bool -> jval -> uerr + A }.
Global Arguments mkCodec {A}.
Global Arguments valid {A}.
Global Arguments enc {A}.
Global Arguments dec {A}.
Definition codec_ok {A} (c : Codec A) (a : A) : Prop := forall r, dec c r (enc c a) = inr a.
Definition lawful_codec {A} (c : Codec A) : Prop := forall a, valid c a -> codec_ok c a.

(** A null is the zero value. *)
Definition boolC : Codec bool := mkCodec (fun _ => True) JBool (fun _ v => match v with JBool b => inr b | JNull => inr false | _ => inl EBad end).
Definition stringC : Codec string := mkCodec (fun _ => True) JStr (fun _ v => match v with JStr s => inr s | JNull => inr EmptyString | _ => inl EBad end).
(** Integers between [lo] and [hi], written in decimal without a plus sign. *)
Definition numC (lo hi : Z) : Codec Z :=
  mkCodec (fun n => lo <= n <= hi) (fun n => JNum (itoa n))
    (fun _ v => match v with
                | JNum t => match Atoi t with Some n => if (lo <=? n) && (n <=? hi) then inr n else inl EBad | None => inl EBad end
                | JNull => inr 0
                | _ => inl EBad
                end).
Definition intC : Codec Z := numC (- 2 ^ 63) (2 ^ 63 - 1).
Definition uint16C : Codec Z := numC 0 (2 ^ 16 - 1).
(** A slice that is nil is [None]; it is written as an empty array. *)
Fixpoint dec_list {A} (f : jval -> uerr + A) (l : list jval) : uerr + list A :=
  match l with
  | [] => inr []
  | v :: l => match f v with inl e => inl e | inr a => match dec_list f l with inl e => inl e | inr r => inr (a :: r) end end
  end.
Definition sliceC {A} (c : Codec A) : Codec (option (list A)) :=
  mkCodec (fun o => Forall (valid c) (default [] o)) (fun o => JArr (enc c <$> default [] o))
    (fun r v => match v with
                | JNull => inr None
                | JArr l => match dec_list (dec c r) l with inl e => inl e | inr l => inr (Some l) end
                | _ => inl EBad
                end).
Definition stringsC : Codec (option (list string)) := sliceC stringC.
(** The mappings are pointers; empty texts are omitted. *)
Global Instance DNSMapping_eq_dec : EqDecision DNSMapping.
Proof. solve_decision. Defined.
Definition DNSMappings : Type := option (list (option DNSMapping)).
Global Instance DNSMappings_eq_dec : EqDecision DNSMappings := _.
Fixpoint dec_mapping (r : bool) (ms : list (string * jval)) (m : DNSMapping) : uerr + DNSMapping :=
  match ms with
  | [] => inr m
  | (k, v) :: ms =>
      if bool_decide (k = "name"%string) then
        match dec stringC r v with inl e => inl e | inr s => dec_mapping r ms (mkMapping s (m_AliasFor m)) end
      else if bool_decide (k = "aliasFor"%string) then
        match dec stringC r v with inl e => inl e | inr s => dec_mapping r ms (mkMapping (m_Name m) s) end
      else if r then inl EUnknown else dec_mapping r ms m
  end.
Definition omitempty (k s : string) : list (string * jval) := if bool_decide (s = EmptyString) then [] else [(k, JStr s)].
Definition mappingC : Codec (option DNSMapping) :=
  mkCodec (fun _ => True) (fun o => match o with None => JNull | Some m => JObj (omitempty "name" (m_Name m) ++ omitempty "aliasFor" (m_AliasFor m)) end)
    (fun r v => match v with
                | JNull => inr None
                | JObj ms => match dec_mapping r ms (mkMapping "" "") with inl e => inl e | inr m => inr (Some m) end
                | _ => inl EBad
                end).
Definition mappingsC : Codec DNSMappings := sliceC mappingC.

(** The values that other packages write and read. *)
Class ConfigCodecs := {
  durationC : Codec Z;                 (* time.Duration.String and time.ParseDuration *)
  levelC : Codec Z;                    (* slog.Level and clog.ParseLevel *)
  prefixC : Codec Prefix;
  addrC : Codec Addr;
  addrPortC : Codec AddrPort;
  Quantity : Type;                     (* resource.Quantity *)
  Quantity_eq_dec :: EqDecision Quantity;
  quantityC : Codec Quantity;
  zeroQuantity : Quantity;
  Quantity_IsZero : Quantity -> bool;
  Quantity_AsInt64 : Quantity -> option Z;
  YAMLToJSON : string -> option jval
}.

(** ** Fields *)
(** The array of [DefaultExcludeSuffixes]. *)
Notation array := (list string) (only parsing).
Inductive suffixes := SNil | Shared (len : nat) | Own (l : list string).
Global Instance suffixes_eq_dec : EqDecision suffixes.
Proof. solve_decision. Defined.
Definition deref (g : array) (s : suffixes) : suffixes := match s with Shared n => Own (take n g) | _ => s end.
Definition elems (g : array) (s : suffixes) : list string := match deref g s with Own l => l | _ => [] end.

(** A tag and the name that it gives a field. *)
Definition jsonName (exported : bool) (name jt : string) : string :=
  if negb exported then EmptyString
  else if bool_decide (jt = EmptyString) then name
  else if bool_decide (jt = "-"%string) then EmptyString
  else match IndexByte jt ","%char with Some (S n) => str_take (S n) jt | _ => jt end.

(** [f_view]: what reflect.DeepEqual compares.  [f_dec] reads a value on top of another. *)
Record Field (S : Type) := mkField {
  f_goName : string; f_tag : string; f_T : Type; f_eq_dec : EqDecision f_T;
  f_get : S -> f_T; f_set : f_T -> S -> S;
  f_valid : f_T -> Prop;
  f_view : array -> f_T -> f_T;
  f_enc : array -> f_T -> jval;
  f_dec : bool -> jval -> f_T -> array -> array * (uerr + f_T)
}.
Global Arguments mkField {S}.
Global Arguments f_goName {S}.
Global Arguments f_tag {S}.
Global Arguments f_T {S}.
Global Arguments f_eq_dec {S}.
Global Arguments f_get {S}.
Global Arguments f_set {S}.
Global Arguments f_valid {S}.
Global Arguments f_view {S}.
Global Arguments f_enc {S}.
Global Arguments f_dec {S}.
Global Existing Instance f_eq_dec.
Definition f_name {S} (f : Field S) : string := jsonName true (f_goName f) (f_tag f).
Definition plain {S A} `{EqDecision A} (c : Codec A) (name tag : string) (get : S -> A) (set : A -> S -> S) : Field S :=
  mkField name tag A _ get set (valid c) (fun _ a => a) (fun _ a => enc c a) (fun r v _ g => (g, dec c r v)).

(** The decoder empties a slice and appends; elements go to the array while it has room.  An
    element is zeroed before it is read. *)
Fixpoint write_elems (r : bool) (l : list jval) (i : nat) (g : array) : array * (uerr + list string) :=
  match l with
  | [] => (g, inr [])
  | v :: l =>
      match dec stringC r v with
      | inl e => (<[i := EmptyString]> g, inl e)
      | inr s => match write_elems r l (S i) (<[i := s]> g) with
                 | (g, inl e) => (g, inl e)
                 | (g, inr ss) => (g, inr (s :: ss))
                 end
      end
  end.
Definition dec_suffixes (r : bool) (v : jval) (old : suffixes) (g : array) : array * (uerr + suffixes) :=
  match v with
  | JNull => (g, inr SNil)
  | JArr [] => (g, inr (Own []))
  | JArr l =>
      match old with
      | Shared _ =>
          match write_elems r l 0 g with
          | (g', inl e) => (g', inl e)
          | (g', inr ss) => (g', inr (if Nat.leb (length l) (length g) then Shared (length l) else Own ss))
          end
      | _ => (g, match dec_list (dec stringC r) l with inl e => inl e | inr l => inr (Own l) end)
      end
  | _ => (g, inl EBad)
  end.
Definition suffixField {S} (name tag : string) (get : S -> suffixes) (set : suffixes -> S -> S) : Field S :=
  mkField name tag suffixes _ get set (fun s => s <> SNil) deref (fun g s => JArr (JStr <$> elems g s)) dec_suffixes.

(** ** Sections *)
Class DefaultsAware (S : Type) := { defaults : S; fields : list (Field S) }.
Definition f_isDefault {S} (dflt : S) (g : array) (s : S) (f : Field S) : bool := bool_decide (f_view f g (f_get f s) = f_view f g (f_get f dflt)).

Section Sections.
Context {S : Type} {DA : DefaultsAware S}.
Definition mapWithoutDefaults (g : array) (sourceStruct : S) : gmap string jval :=
  foldl (fun m f => if bool_decide (f_name f = EmptyString) || f_isDefault defaults g sourceStruct f then m
                    else <[f_name f := f_enc f g (f_get f sourceStruct)]> m) ∅ fields.
Definition mergeNonDefaults (g : array) (targetStruct sourceStruct : S) : S :=
  foldl (fun t f => if bool_decide (f_name f = EmptyString) || f_isDefault defaults g sourceStruct f then t
                    else f_set f (f_get f sourceStruct) t) targetStruct fields.
(** For a section without suffixes; a DNS section has an [Equal] of its own. *)
Definition isDefault `{EqDecision S} (s : S) : bool := bool_decide (s = defaults).

Definition find_field (fs : list (Field S)) (k : string) : option (Field S) := head (filter (fun f => f_name f = k) fs).
(** The members of an object, read into a struct; the names are unique. *)
Fixpoint dec_members (fs : list (Field S)) (r : bool) (ms : list (string * jval)) (s : S) (g : array) : array * (uerr + S) :=
  match ms with
  | [] => (g, inr s)
  | (k, v) :: ms =>
      match find_field fs k with
      | None => if r then (g, inl EUnknown) else dec_members fs r ms s g
      | Some f =>
          match f_dec f r v (f_get f s) g with
          | (g, inl e) => (g, inl e)
          | (g, inr t) => dec_members fs r ms (f_set f t s) g
          end
      end
  end.
Definition MarshalJSONTo (g : array) (s : S) : jval := JObj (map_to_list (mapWithoutDefaults g s)).
(** A null clears the pointer and leaves the struct as it is. *)
Definition UnmarshalJSONFrom (r : bool) (v : jval) (s : S) (g : array) : array * (uerr + S) :=
  match v with JNull => (g, inr s) | JObj ms => dec_members fields r ms s g | _ => (g, inl EBad) end.
Definition section_valid (s : S) : Prop := Forall (fun f => f_valid f (f_get f s)) fields.
End Sections.
Definition nested {S A} `{DefaultsAware A} `{EqDecision A} (name tag : string) (get : S -> A) (set : A -> S -> S) : Field S :=
  mkField name tag A _ get set section_valid (fun _ a => a) MarshalJSONTo UnmarshalJSONFrom.

Definition second : Z := 1000000000.
Definition millisecond : Z := 1000000.
Definition LevelInfo : Z := 0.
Definition defaultImagesRegistry : string := "ghcr.io/telepresenceio".
Definition defaultVirtualSubnet : Prefix := PrefixFrom (AddrFrom4 [246; 246; 0; 0]) 16.
Definition zeroAddrPort : AddrPort := Build_AddrPort AddrZero 0.
Definition AddrPort_IsValid (a : AddrPort) : bool := a_IsValid (ap_addr a).

Section Config.
Context `{CC : ConfigCodecs}.
Definition prefixesC : Codec (option (list Prefix)) := sliceC prefixC.
Definition addrPortsC : Codec (option (list AddrPort)) := sliceC addrPortC.

Record Timeouts := mkTimeouts {
  to_ClusterConnect : Z; to_ConnectivityCheck : Z; to_EndpointDial : Z; to_Helm : Z; to_Intercept : Z;
  to_RoundtripLatency : Z; to_ProxyDial : Z; to_TrafficManagerAPI : Z; to_TrafficManagerConnect : Z;
  to_TrafficAgentArrival : Z; to_FtpReadWrite : Z; to_FtpShutdown : Z; to_ContainerShutdown : Z
}.
Global Instance Timeouts_eq_dec : EqDecision Timeouts.
Proof. solve_decision. Defined.
Definition timeouts_fields : list (Field Timeouts) := [
  plain durationC "PrivateClusterConnect" "clusterConnect,format:units" to_ClusterConnect (fun x '(mkTimeouts _ b c d e f g h i j k l m) => mkTimeouts x b c d e f g h i j k l m);
  plain durationC "PrivateConnectivityCheck" "connectivityCheck,format:units" to_ConnectivityCheck (fun x '(mkTimeouts a _ c d e f g h i j k l m) => mkTimeouts a x c d e f g h i j k l m);
  plain durationC "PrivateEndpointDial" "endpointDial,format:units" to_EndpointDial (fun x '(mkTimeouts a b _ d e f g h i j k l m) => mkTimeouts a b x d e f g h i j k l m);
  plain durationC "PrivateHelm" "helm,format:units" to_Helm (fun x '(mkTimeouts a b c _ e f g h i j k l m) => mkTimeouts a b c x e f g h i j k l m);
  plain durationC "PrivateIntercept" "intercept,format:units" to_Intercept (fun x '(mkTimeouts a b c d _ f g h i j k l m) => mkTimeouts a b c d x f g h i j k l m);
  plain durationC "PrivateRoundtripLatency" "roundtripLatency,format:units" to_RoundtripLatency (fun x '(mkTimeouts a b c d e _ g h i j k l m) => mkTimeouts a b c d e x g h i j k l m);
  plain durationC "PrivateProxyDial" "proxyDial,format:units" to_ProxyDial (fun x '(mkTimeouts a b c d e f _ h i j k l m) => mkTimeouts a b c d e f x h i j k l m);
  plain durationC "PrivateTrafficManagerAPI" "trafficManagerAPI,format:units" to_TrafficManagerAPI (fun x '(mkTimeouts a b c d e f g _ i j k l m) => mkTimeouts a b c d e f g x i j k l m);
  plain durationC "PrivateTrafficManagerConnect" "trafficManagerConnect,format:units" to_TrafficManagerConnect (fun x '(mkTimeouts a b c d e f g h _ j k l m) => mkTimeouts a b c d e f g h x j k l m);
  plain durationC "PrivateTrafficAgentArrival" "trafficAgentArrival,format:units" to_TrafficAgentArrival (fun x '(mkTimeouts a b c d e f g h i _ k l m) => mkTimeouts a b c d e f g h i x k l m);
  plain durationC "PrivateFtpReadWrite" "ftpReadWrite,format:units" to_FtpReadWrite (fun x '(mkTimeouts a b c d e f g h i j _ l m) => mkTimeouts a b c d e f g h i j x l m);
  plain durationC "PrivateFtpShutdown" "ftpShutdown,format:units" to_FtpShutdown (fun x '(mkTimeouts a b c d e f g h i j k _ m) => mkTimeouts a b c d e f g h i j k x m);
  plain durationC "PrivateContainerShutdown" "containerShutdown,format:units" to_ContainerShutdown (fun x '(mkTimeouts a b c d e f g h i j k l _) => mkTimeouts a b c d e f g h i j k l x)].
Global Instance Timeouts_aware : DefaultsAware Timeouts := {| defaults := mkTimeouts (20 * second) (500 * millisecond) (3 * second) (30 * second) (30 * second) (2 * second) (5 * second) (15 * second) (60 * second) 0 (60 * second) (120 * second) 0; fields := timeouts_fields |}.

Record LogLevels := mkLogLevels {
  ll_CLI : Z; ll_KubeAuthDaemon : Z; ll_UserDaemon : Z; ll_RootDaemon : Z
}.
Global Instance LogLevels_eq_dec : EqDecision LogLevels.
Proof. solve_decision. Defined.
Definition loglevels_fields : list (Field LogLevels) := [
  plain levelC "CLI" "cli" ll_CLI (fun x '(mkLogLevels _ b c d) => mkLogLevels x b c d);
  plain levelC "KubeAuthDaemon" "kubeAuthDaemon" ll_KubeAuthDaemon (fun x '(mkLogLevels a _ c d) => mkLogLevels a x c d);
  plain levelC "UserDaemon" "userDaemon" ll_UserDaemon (fun x '(mkLogLevels a b _ d) => mkLogLevels a b x d);
  plain levelC "RootDaemon" "rootDaemon" ll_RootDaemon (fun x '(mkLogLevels a b c _) => mkLogLevels a b c x)].
Global Instance LogLevels_aware : DefaultsAware LogLevels := {| defaults := mkLogLevels LevelInfo LevelInfo LevelInfo LevelInfo; fields := loglevels_fields |}.

Record Usage := mkUsage {
  us_Enabled : bool; us_CollectorAddress : string; us_Insecure : bool
}.
Global Instance Usage_eq_dec : EqDecision Usage.
Proof. solve_decision. Defined.
Definition usage_fields : list (Field Usage) := [
  plain boolC "Enabled" "enabled" us_Enabled (fun x '(mkUsage _ b c) => mkUsage x b c);
  plain stringC "CollectorAddress" "collectorAddress" us_CollectorAddress (fun x '(mkUsage a _ c) => mkUsage a x c);
  plain boolC "Insecure" "insecure" us_Insecure (fun x '(mkUsage a b _) => mkUsage a b x)].
Global Instance Usage_aware : DefaultsAware Usage := {| defaults := mkUsage true "usg.tada.se:443" false; fields := usage_fields |}.

Record Images := mkImages {
  im_Registry : string; im_AgentImage : string; im_ClientImage : string; im_WebhookRegistry : string
}.
Global Instance Images_eq_dec : EqDecision Images.
Proof. solve_decision. Defined.
Definition images_fields : list (Field Images) := [
  plain stringC "PrivateRegistry" "registry" im_Registry (fun x '(mkImages _ b c d) => mkImages x b c d);
  plain stringC "PrivateAgentImage" "agentImage" im_AgentImage (fun x '(mkImages a _ c d) => mkImages a x c d);
  plain stringC "PrivateClientImage" "clientImage" im_ClientImage (fun x '(mkImages a b _ d) => mkImages a b x d);
  plain stringC "PrivateWebhookRegistry" "webhookRegistry" im_WebhookRegistry (fun x '(mkImages a b c _) => mkImages a b c x)].
Global Instance Images_aware : DefaultsAware Images := {| defaults := mkImages defaultImagesRegistry "" "" ""; fields := images_fields |}.

Record Grpc := mkGrpc {
  gr_MaxReceiveSizeV : Quantity; gr_DaemonPort : Z; gr_TeleroutePort : Z; gr_SimulateDisconnect : Z;
  gr_PingInterval : Z; gr_WatchRetryInterval : Z
}.
Global Instance Grpc_eq_dec : EqDecision Grpc.
Proof. solve_decision. Defined.
Definition grpc_fields : list (Field Grpc) := [
  plain quantityC "MaxReceiveSizeV" "maxReceiveSize" gr_MaxReceiveSizeV (fun x '(mkGrpc _ b c d e f) => mkGrpc x b c d e f);
  plain uint16C "DaemonPort" "daemonPort" gr_DaemonPort (fun x '(mkGrpc a _ c d e f) => mkGrpc a x c d e f);
  plain uint16C "TeleroutePort" "teleroutePort" gr_TeleroutePort (fun x '(mkGrpc a b _ d e f) => mkGrpc a b x d e f);
  plain durationC "SimulateDisconnect" "simulateDisconnect,format:units" gr_SimulateDisconnect (fun x '(mkGrpc a b c _ e f) => mkGrpc a b c x e f);
  plain durationC "PingInterval" "pingInterval,format:units" gr_PingInterval (fun x '(mkGrpc a b c d _ f) => mkGrpc a b c d x f);
  plain durationC "WatchRetryInterval" "watchRetryInterval,format:units" gr_WatchRetryInterval (fun x '(mkGrpc a b c d e _) => mkGrpc a b c d e x)].
Global Instance Grpc_aware : DefaultsAware Grpc := {| defaults := mkGrpc zeroQuantity 4038 4039 0 (60 * second) (10 * second); fields := grpc_fields |}.

Record Intercept := mkIntercept {
  ic_DefaultPort : Z; ic_UseFtp : bool; ic_LocalShortcut : bool; ic_LocalShortcutIsGlobal : bool;
  ic_MountsRoot : string; ic_MountCompletionDelay : Z
}.
Global Instance Intercept_eq_dec : EqDecision Intercept.
Proof. solve_decision. Defined.
Definition intercept_fields : list (Field Intercept) := [
  plain intC "DefaultPort" "defaultPort" ic_DefaultPort (fun x '(mkIntercept _ b c d e f) => mkIntercept x b c d e f);
  plain boolC "UseFtp" "useFtp" ic_UseFtp (fun x '(mkIntercept a _ c d e f) => mkIntercept a x c d e f);
  plain boolC "LocalShortcut" "localShortcut" ic_LocalShortcut (fun x '(mkIntercept a b _ d e f) => mkIntercept a b x d e f);
  plain boolC "LocalShortcutIsGlobal" "localShortcutIsGlobal" ic_LocalShortcutIsGlobal (fun x '(mkIntercept a b c _ e f) => mkIntercept a b c x e f);
  plain stringC "MountsRoot" "mountsRoot" ic_MountsRoot (fun x '(mkIntercept a b c d _ f) => mkIntercept a b c d x f);
  plain durationC "MountCompletionDelay" "mountCompletionDelay,format:units" ic_MountCompletionDelay (fun x '(mkIntercept a b c d e _) => mkIntercept a b c d e x)].
Global Instance Intercept_aware : DefaultsAware Intercept := {| defaults := mkIntercept 0 false true true "" (300 * millisecond); fields := intercept_fields |}.

Record Cluster := mkCluster {
  cl_DefaultManagerNamespace : string; cl_MappedNamespaces : option (list string); cl_ForceSPDY : bool;
  cl_AgentPortForward : bool; cl_OldVirtualIPSubnet : string
}.
Global Instance Cluster_eq_dec : EqDecision Cluster.
Proof. solve_decision. Defined.
Definition cluster_fields : list (Field Cluster) := [
  plain stringC "DefaultManagerNamespace" "defaultManagerNamespace" cl_DefaultManagerNamespace (fun x '(mkCluster _ b c d e) => mkCluster x b c d e);
  plain stringsC "MappedNamespaces" "mappedNamespaces" cl_MappedNamespaces (fun x '(mkCluster a _ c d e) => mkCluster a x c d e);
  plain boolC "ForceSPDY" "forceSPDY" cl_ForceSPDY (fun x '(mkCluster a b _ d e) => mkCluster a b x d e);
  plain boolC "AgentPortForward" "agentPortForward" cl_AgentPortForward (fun x '(mkCluster a b c _ e) => mkCluster a b c x e);
  plain stringC "OldVirtualIPSubnet" "virtualIPSubnet" cl_OldVirtualIPSubnet (fun x '(mkCluster a b c d _) => mkCluster a b c d x)].
Global Instance Cluster_aware : DefaultsAware Cluster := {| defaults := mkCluster "" None false true ""; fields := cluster_fields |}.

Record Telemount := mkTelemount {
  tm_RegistryAPI : string; tm_Registry : string; tm_Namespace : string; tm_Repository : string;
  tm_Tag : string
}.
Global Instance Telemount_eq_dec : EqDecision Telemount.
Proof. solve_decision. Defined.
Definition telemount_fields : list (Field Telemount) := [
  plain stringC "RegistryAPI" "registryAPI" tm_RegistryAPI (fun x '(mkTelemount _ b c d e) => mkTelemount x b c d e);
  plain stringC "Registry" "registry" tm_Registry (fun x '(mkTelemount a _ c d e) => mkTelemount a x c d e);
  plain stringC "Namespace" "namespace" tm_Namespace (fun x '(mkTelemount a b _ d e) => mkTelemount a b x d e);
  plain stringC "Repository" "repository" tm_Repository (fun x '(mkTelemount a b c _ e) => mkTelemount a b c x e);
  plain stringC "Tag" "tag" tm_Tag (fun x '(mkTelemount a b c d _) => mkTelemount a b c d x)].
Global Instance Telemount_aware : DefaultsAware Telemount := {| defaults := mkTelemount "ghcr.io/v2" "ghcr.io" "telepresenceio" "telemount" "0.3.2"; fields := telemount_fields |}.

Record Teleroute := mkTeleroute {
  tr_RegistryAPI : string; tr_Registry : string; tr_Namespace : string; tr_Repository : string;
  tr_Tag : string
}.
Global Instance Teleroute_eq_dec : EqDecision Teleroute.
Proof. solve_decision. Defined.
Definition teleroute_fields : list (Field Teleroute) := [
  plain stringC "RegistryAPI" "registryAPI" tr_RegistryAPI (fun x '(mkTeleroute _ b c d e) => mkTeleroute x b c d e);
  plain stringC "Registry" "registry" tr_Registry (fun x '(mkTeleroute a _ c d e) => mkTeleroute a x c d e);
  plain stringC "Namespace" "namespace" tr_Namespace (fun x '(mkTeleroute a b _ d e) => mkTeleroute a b x d e);
  plain stringC "Repository" "repository" tr_Repository (fun x '(mkTeleroute a b c _ e) => mkTeleroute a b c x e);
  plain stringC "Tag" "tag" tr_Tag (fun x '(mkTeleroute a b c d _) => mkTeleroute a b c d x)].
Global Instance Teleroute_aware : DefaultsAware Teleroute := {| defaults := mkTeleroute "ghcr.io/v2" "ghcr.io" "telepresenceio" "teleroute" "0.5.0"; fields := teleroute_fields |}.

Record Docker := mkDocker {
  dk_AddHostGateway : bool; dk_Telemount : Telemount; dk_Teleroute : Teleroute; dk_HostGateway : string;
  dk_EnableIPv4 : bool; dk_EnableIPv6 : bool
}.
Global Instance Docker_eq_dec : EqDecision Docker.
Proof. solve_decision. Defined.
Definition docker_fields : list (Field Docker) := [
  plain boolC "AddHostGateway" "addHostGateway,omitzero" dk_AddHostGateway (fun x '(mkDocker _ b c d e f) => mkDocker x b c d e f);
  nested "Telemount" "telemount,omitzero" dk_Telemount (fun x '(mkDocker a _ c d e f) => mkDocker a x c d e f);
  nested "Teleroute" "teleroute,omitzero" dk_Teleroute (fun x '(mkDocker a b _ d e f) => mkDocker a b x d e f);
  plain stringC "HostGateway" "hostGateway,omitzero" dk_HostGateway (fun x '(mkDocker a b c _ e f) => mkDocker a b c x e f);
  plain boolC "EnableIPv4" "enableIPv4,omitzero" dk_EnableIPv4 (fun x '(mkDocker a b c d _ f) => mkDocker a b c d x f);
  plain boolC "EnableIPv6" "enableIPv6,omitzero" dk_EnableIPv6 (fun x '(mkDocker a b c d e _) => mkDocker a b c d e x)].
Global Instance Docker_aware : DefaultsAware Docker := {| defaults := mkDocker true defaults defaults "host.docker.internal" true true; fields := docker_fields |}.

Record Helm := mkHelm {
  he_ChartURL : string
}.
Global Instance Helm_eq_dec : EqDecision Helm.
Proof. solve_decision. Defined.
Definition helm_fields : list (Field Helm) := [
  plain stringC "ChartURL" "chartURL" he_ChartURL (fun x '(mkHelm _) => mkHelm x)].
Global Instance Helm_aware : DefaultsAware Helm := {| defaults := mkHelm "oci://ghcr.io/telepresenceio/telepresence-oss"; fields := helm_fields |}.

Record Routing := mkRouting {
  ro_Subnets : option (list Prefix); ro_AlsoProxy : option (list Prefix);
  ro_NeverProxy : option (list Prefix); ro_AllowConflicting : option (list Prefix);
  ro_VirtualSubnet : Prefix; ro_AutoResolveConflicts : bool; ro_UseTAP : bool;
  ro_OldAlsoProxy : option (list Prefix); ro_OldNeverProxy : option (list Prefix);
  ro_OldAllowConflicting : option (list Prefix); ro_RecursionBlockDuration : Z; ro_RecursionBlockTreads : Z
}.
Global Instance Routing_eq_dec : EqDecision Routing.
Proof. solve_decision. Defined.
Definition routing_fields : list (Field Routing) := [
  plain prefixesC "Subnets" "subnets,omitempty" ro_Subnets (fun x '(mkRouting _ b c d e f g h i j k l) => mkRouting x b c d e f g h i j k l);
  plain prefixesC "AlsoProxy" "alsoProxySubnets,omitempty" ro_AlsoProxy (fun x '(mkRouting a _ c d e f g h i j k l) => mkRouting a x c d e f g h i j k l);
  plain prefixesC "NeverProxy" "neverProxySubnets,omitempty" ro_NeverProxy (fun x '(mkRouting a b _ d e f g h i j k l) => mkRouting a b x d e f g h i j k l);
  plain prefixesC "AllowConflicting" "allowConflictingSubnets,omitempty" ro_AllowConflicting (fun x '(mkRouting a b c _ e f g h i j k l) => mkRouting a b c x e f g h i j k l);
  plain prefixC "VirtualSubnet" "virtualSubnet" ro_VirtualSubnet (fun x '(mkRouting a b c d _ f g h i j k l) => mkRouting a b c d x f g h i j k l);
  plain boolC "AutoResolveConflicts" "autoResolveConflicts" ro_AutoResolveConflicts (fun x '(mkRouting a b c d e _ g h i j k l) => mkRouting a b c d e x g h i j k l);
  plain boolC "UseTAP" "useTAP" ro_UseTAP (fun x '(mkRouting a b c d e f _ h i j k l) => mkRouting a b c d e f x h i j k l);
  plain prefixesC "OldAlsoProxy" "alsoProxy,omitempty" ro_OldAlsoProxy (fun x '(mkRouting a b c d e f g _ i j k l) => mkRouting a b c d e f g x i j k l);
  plain prefixesC "OldNeverProxy" "neverProxy,omitempty" ro_OldNeverProxy (fun x '(mkRouting a b c d e f g h _ j k l) => mkRouting a b c d e f g h x j k l);
  plain prefixesC "OldAllowConflicting" "allowConflicting,omitempty" ro_OldAllowConflicting (fun x '(mkRouting a b c d e f g h i _ k l) => mkRouting a b c d e f g h i x k l);
  plain durationC "RecursionBlockDuration" "recursionBlockDuration,omitempty,format:units" ro_RecursionBlockDuration (fun x '(mkRouting a b c d e f g h i j _ l) => mkRouting a b c d e f g h i j x l);
  plain intC "RecursionBlockTreads" "recursionBlockTreads,omitempty" ro_RecursionBlockTreads (fun x '(mkRouting a b c d e f g h i j k _) => mkRouting a b c d e f g h i j k x)].
Global Instance Routing_aware : DefaultsAware Routing := {| defaults := mkRouting None None None None defaultVirtualSubnet true false None None None 0 0; fields := routing_fields |}.

Record DNS := mkDNS {
  d_Error : string; d_LocalIP : Addr; d_RemoteIP : Addr; d_LocalAddress : AddrPort;
  d_LocalAddresses : option (list AddrPort); d_VIFAddress : AddrPort;
  d_IncludeSuffixes : option (list string); d_ExcludeSuffixes : suffixes; d_Excludes : option (list string);
  d_Mappings : DNSMappings; d_LookupTimeout : Z; d_RecursionCheck : bool; d_UseComplexLookup : bool
}.
Global Instance DNS_eq_dec : EqDecision DNS.
Proof. solve_decision. Defined.
Definition dns_fields : list (Field DNS) := [
  plain stringC "Error" "error" d_Error (fun x '(mkDNS _ b c d e f g h i j k l m) => mkDNS x b c d e f g h i j k l m);
  plain addrC "LocalIP" "localIP" d_LocalIP (fun x '(mkDNS a _ c d e f g h i j k l m) => mkDNS a x c d e f g h i j k l m);
  plain addrC "RemoteIP" "remoteIP" d_RemoteIP (fun x '(mkDNS a b _ d e f g h i j k l m) => mkDNS a b x d e f g h i j k l m);
  plain addrPortC "LocalAddress" "localAddress" d_LocalAddress (fun x '(mkDNS a b c _ e f g h i j k l m) => mkDNS a b c x e f g h i j k l m);
  plain addrPortsC "LocalAddresses" "localAddresses" d_LocalAddresses (fun x '(mkDNS a b c d _ f g h i j k l m) => mkDNS a b c d x f g h i j k l m);
  plain addrPortC "VIFAddress" "vifAddress" d_VIFAddress (fun x '(mkDNS a b c d e _ g h i j k l m) => mkDNS a b c d e x g h i j k l m);
  plain stringsC "IncludeSuffixes" "includeSuffixes" d_IncludeSuffixes (fun x '(mkDNS a b c d e f _ h i j k l m) => mkDNS a b c d e f x h i j k l m);
  suffixField "ExcludeSuffixes" "excludeSuffixes" d_ExcludeSuffixes (fun x '(mkDNS a b c d e f g _ i j k l m) => mkDNS a b c d e f g x i j k l m);
  plain stringsC "Excludes" "excludes" d_Excludes (fun x '(mkDNS a b c d e f g h _ j k l m) => mkDNS a b c d e f g h x j k l m);
  plain mappingsC "Mappings" "mappings" d_Mappings (fun x '(mkDNS a b c d e f g h i _ k l m) => mkDNS a b c d e f g h i x k l m);
  plain durationC "LookupTimeout" "lookupTimeout,format:units" d_LookupTimeout (fun x '(mkDNS a b c d e f g h i j _ l m) => mkDNS a b c d e f g h i j x l m);
  plain boolC "RecursionCheck" "recursionCheck" d_RecursionCheck (fun x '(mkDNS a b c d e f g h i j k _ m) => mkDNS a b c d e f g h i j k x m);
  plain boolC "UseComplexLookup" "useComplexLookup" d_UseComplexLookup (fun x '(mkDNS a b c d e f g h i j k l _) => mkDNS a b c d e f g h i j k l x)].
Global Instance DNS_aware : DefaultsAware DNS := {| defaults := mkDNS "" AddrZero AddrZero zeroAddrPort None zeroAddrPort None (Shared (length DefaultExcludeSuffixes)) None None 0 false false; fields := dns_fields |}.

(** ** Sections: what is their own *)
Definition maxTimeoutsConnectivityCheck : Z := 5 * second.
Definition set_ConnectivityCheck (x : Z) (t : Timeouts) : Timeouts :=
  let '(mkTimeouts a _ c d e f g h i j k l m) := t in mkTimeouts a x c d e f g h i j k l m.
Definition Timeouts_merge (g : array) (t o : Timeouts) : Timeouts :=
  let t := mergeNonDefaults g t o in
  if maxTimeoutsConnectivityCheck <? to_ConnectivityCheck t then set_ConnectivityCheck maxTimeoutsConnectivityCheck t else t.

Definition nonempty {A} (o : option (list A)) : bool := match o with Some (_ :: _) => true | _ => false end.
(** The first of two slices that has elements. *)
Definition first_of {A} (a b c : option (list A)) : option (list A) := if nonempty a then a else if nonempty b then b else c.
Definition Routing_merge (r o : Routing) : Routing :=
  mkRouting (if nonempty (ro_Subnets o) then ro_Subnets o else ro_Subnets r)
    (first_of (ro_AlsoProxy o) (ro_OldAlsoProxy o) (ro_AlsoProxy r))
    (first_of (ro_NeverProxy o) (ro_OldNeverProxy o) (ro_NeverProxy r))
    (first_of (ro_AllowConflicting o) (ro_OldAllowConflicting o) (ro_AllowConflicting r))
    (if bool_decide (ro_VirtualSubnet o <> defaultVirtualSubnet) then ro_VirtualSubnet o else ro_VirtualSubnet r)
    (if negb (Bool.eqb (ro_AutoResolveConflicts o) true) then ro_AutoResolveConflicts o else ro_AutoResolveConflicts r)
    (if ro_UseTAP o then ro_UseTAP o else ro_UseTAP r)
    (ro_OldAlsoProxy r) (ro_OldNeverProxy r) (ro_OldAllowConflicting r) (ro_RecursionBlockDuration r) (ro_RecursionBlockTreads r).

(** The comparison with the defaults; slices.Equal does not tell nil from empty, and compares
    the mappings, which are pointers, with none. *)
Definition DNS_Equal_defaults (g : array) (d : DNS) : bool :=
  negb (nonempty (d_LocalAddresses d)) && bool_decide (d_VIFAddress d = zeroAddrPort) && (d_LookupTimeout d =? 0) &&
  negb (d_RecursionCheck d) && negb (nonempty (d_IncludeSuffixes d)) &&
  bool_decide (elems g (d_ExcludeSuffixes d) = elems g (d_ExcludeSuffixes defaults)) &&
  negb (nonempty (d_Excludes d)) && negb (nonempty (d_Mappings d)).
Definition set_LocalAddresses (x : option (list AddrPort)) (s : DNS) : DNS :=
  let '(mkDNS a b c d _ f g h i j k l m) := s in mkDNS a b c d x f g h i j k l m.
Definition set_VIFAddress (x : AddrPort) (s : DNS) : DNS :=
  let '(mkDNS a b c d e _ g h i j k l m) := s in mkDNS a b c d e x g h i j k l m.
Definition set_ExcludeSuffixes (x : suffixes) (s : DNS) : DNS :=
  let '(mkDNS a b c d e f g _ i j k l m) := s in mkDNS a b c d e f g x i j k l m.
(** The deprecated addresses. *)
Definition upgrade_LocalIP (d : DNS) : DNS :=
  if a_IsValid (d_LocalIP d) && negb (nonempty (d_LocalAddresses d)) then set_LocalAddresses (Some [Build_AddrPort (d_LocalIP d) 53]) d else d.
Definition upgrade_LocalAddress (d : DNS) : DNS :=
  if AddrPort_IsValid (d_LocalAddress d) && negb (nonempty (d_LocalAddresses d)) then set_LocalAddresses (Some [d_LocalAddress d]) d else d.
Definition upgrade_RemoteIP (d : DNS) : DNS :=
  if a_IsValid (d_RemoteIP d) && negb (AddrPort_IsValid (d_VIFAddress d)) then set_VIFAddress (Build_AddrPort (d_RemoteIP d) 53) d else d.
Definition DNS_upgrade (d : DNS) : DNS := upgrade_RemoteIP (upgrade_LocalAddress (upgrade_LocalIP d)).
Definition DNS_UnmarshalJSONFrom (r : bool) (v : jval) (d : DNS) (g : array) : array * (uerr + DNS) :=
  match UnmarshalJSONFrom r v d g with (g, inl e) => (g, inl e) | (g, inr d) => (g, inr (DNS_upgrade d)) end.
Definition DNS_view (g : array) (d : DNS) : DNS := set_ExcludeSuffixes (deref g (d_ExcludeSuffixes d)) d.

(** ** The configuration *)
Record config := mkConfig {
  c_Cluster : Cluster; c_DNS : DNS; c_Docker : Docker; c_Grpc : Grpc; c_Helm : Helm; c_Images : Images;
  c_Intercept : Intercept; c_LogLevels : LogLevels; c_Routing : Routing; c_Timeouts : Timeouts; c_Usage : Usage
}.
Definition defaultConfig : config :=
  mkConfig defaults defaults defaults defaults defaults defaults defaults defaults defaults defaults defaults.
Definition zeroConfig : config :=
  mkConfig (mkCluster "" None false false "") (mkDNS "" AddrZero AddrZero zeroAddrPort None zeroAddrPort None SNil None None 0 false false)
    (mkDocker false (mkTelemount "" "" "" "" "") (mkTeleroute "" "" "" "" "") "" false false)
    (mkGrpc zeroQuantity 0 0 0 0 0) (mkHelm "") (mkImages "" "" "" "") (mkIntercept 0 false false false "" 0)
    (mkLogLevels 0 0 0 0) (mkRouting None None None None PrefixZero false false None None None 0 0)
    (mkTimeouts 0 0 0 0 0 0 0 0 0 0 0 0 0) (mkUsage false "" false).
Definition section {A} `{DefaultsAware A} `{EqDecision A} (name tag : string) (get : config -> A) (set : A -> config -> config) : Field config :=
  mkField name tag A _ get set section_valid (fun _ a => a) MarshalJSONTo UnmarshalJSONFrom.
Definition dnsSection (name tag : string) (get : config -> DNS) (set : DNS -> config -> config) : Field config :=
  mkField name tag DNS _ get set section_valid DNS_view MarshalJSONTo DNS_UnmarshalJSONFrom.
(** A field, and whether it is omitted ([IsZero]). *)
Definition config_fields : list (Field config * (array -> config -> bool)) := [
  (section "ClusterV" "cluster,omitzero" c_Cluster (fun x '(mkConfig _ b c d e f g h i j k) => mkConfig x b c d e f g h i j k), fun _ c => isDefault (c_Cluster c));
  (dnsSection "DNSV" "dns,omitzero" c_DNS (fun x '(mkConfig a _ c d e f g h i j k) => mkConfig a x c d e f g h i j k), fun g c => DNS_Equal_defaults g (c_DNS c));
  (section "DockerV" "docker,omitzero" c_Docker (fun x '(mkConfig a b _ d e f g h i j k) => mkConfig a b x d e f g h i j k), fun _ c => isDefault (c_Docker c));
  (section "GrpcV" "grpc,omitzero" c_Grpc (fun x '(mkConfig a b c _ e f g h i j k) => mkConfig a b c x e f g h i j k), fun _ c => isDefault (c_Grpc c));
  (section "HelmV" "helm,omitzero" c_Helm (fun x '(mkConfig a b c d _ f g h i j k) => mkConfig a b c d x f g h i j k), fun _ c => isDefault (c_Helm c));
  (section "ImagesV" "images,omitzero" c_Images (fun x '(mkConfig a b c d e _ g h i j k) => mkConfig a b c d e x g h i j k), fun _ c => isDefault (c_Images c));
  (section "InterceptV" "intercept,omitzero" c_Intercept (fun x '(mkConfig a b c d e f _ h i j k) => mkConfig a b c d e f x h i j k), fun _ c => isDefault (c_Intercept c));
  (section "LogLevelsV" "logLevels,omitzero" c_LogLevels (fun x '(mkConfig a b c d e f g _ i j k) => mkConfig a b c d e f g x i j k), fun _ c => isDefault (c_LogLevels c));
  (section "RoutingV" "routing,omitzero" c_Routing (fun x '(mkConfig a b c d e f g h _ j k) => mkConfig a b c d e f g h x j k), fun _ c => isDefault (c_Routing c));
  (section "TimeoutsV" "timeouts,omitzero" c_Timeouts (fun x '(mkConfig a b c d e f g h i _ k) => mkConfig a b c d e f g h i x k), fun _ c => isDefault (c_Timeouts c));
  (section "UsageV" "usage,omitzero" c_Usage (fun x '(mkConfig a b c d e f g h i j _) => mkConfig a b c d e f g h i j x), fun _ c => isDefault (c_Usage c))
].

Definition Marshal (g : array) (c : config) : jval :=
  JObj (omap (fun fz : Field config * (array -> config -> bool) => if fz.2 g c then None else Some (f_name fz.1, f_enc fz.1 g (f_get fz.1 c))) config_fields).
(** A null is the zero value of a struct. *)
Definition Unmarshal (r : bool) (v : jval) (c : config) (g : array) : array * (uerr + config) :=
  match v with JNull => (g, inr zeroConfig) | JObj ms => dec_members config_fields.*1 r ms c g | _ => (g, inl EBad) end.
Definition UnmarshalJSONConfig (data : jval) (rejectUnknown : bool) (g : array) : array * (uerr + config) :=
  Unmarshal rejectUnknown data defaultConfig g.

Definition set_Routing (x : Routing) (s : config) : config :=
  let '(mkConfig a b c d e f g h _ j k) := s in mkConfig a b c d e f g h x j k.
Definition set_Cluster (x : Cluster) (s : config) : config :=
  let '(mkConfig _ b c d e f g h i j k) := s in mkConfig x b c d e f g h i j k.
Definition set_VirtualSubnet (x : Prefix) (s : Routing) : Routing :=
  let '(mkRouting a b c d _ f g h i j k l) := s in mkRouting a b c d x f g h i j k l.
Definition set_NeverProxy (x : option (list Prefix)) (s : Routing) : Routing :=
  let '(mkRouting a b _ d e f g h i j k l) := s in mkRouting a b x d e f g h i j k l.

Inductive config_error := EYaml | EJson | EOldSubnet | EReadFile | EExtension.
Global Instance config_error_eq_dec : EqDecision config_error.
Proof. solve_decision. Defined.
(** The warnings are left out. *)
Definition ParseConfigYAML (data : string) (g : array) : array * (config_error + config) :=
  let data := TrimSpace data in
  if bool_decide (data = EmptyString) then (g, inr defaultConfig)
  else match YAMLToJSON data with
       | None => (g, inl EYaml)
       | Some data =>
           let '(g, res) := match UnmarshalJSONConfig data true g with
                            | (g, inl EUnknown) => UnmarshalJSONConfig data false g
                            | res => res
                            end in
           match res with
           | inl _ => (g, inl EJson)
           | inr cfg =>
               if bool_decide (ro_VirtualSubnet (c_Routing cfg) = defaultVirtualSubnet) && negb (bool_decide (cl_OldVirtualIPSubnet (c_Cluster cfg) = EmptyString)) then
                 match ParsePrefix (cl_OldVirtualIPSubnet (c_Cluster cfg)) with
                 | None => (g, inl EOldSubnet)
                 | Some sn => (g, inr (set_Routing (set_VirtualSubnet sn (c_Routing cfg)) cfg))
                 end
               else (g, inr cfg)
           end
       end.

Definition DestructiveMerge (g : array) (c lc : config) : config :=
  mkConfig (mergeNonDefaults g (c_Cluster c) (c_Cluster lc)) (mergeNonDefaults g (c_DNS c) (c_DNS lc))
    (mergeNonDefaults g (c_Docker c) (c_Docker lc)) (mergeNonDefaults g (c_Grpc c) (c_Grpc lc))
    (mergeNonDefaults g (c_Helm c) (c_Helm lc)) (mergeNonDefaults g (c_Images c) (c_Images lc))
    (mergeNonDefaults g (c_Intercept c) (c_Intercept lc)) (mergeNonDefaults g (c_LogLevels c) (c_LogLevels lc))
    (Routing_merge (c_Routing c) (c_Routing lc)) (Timeouts_merge g (c_Timeouts c) (c_Timeouts lc))
    (mergeNonDefaults g (c_Usage c) (c_Usage lc)).
(** The receiver is copied. *)
Definition Merge (g : array) (c lc : config) : config := DestructiveMerge g c lc.

(** ** Files *)
Inductive file := NotExist | Unreadable | Contents (data : string).
Definition set_UsageEnabled (x : bool) (s : config) : config :=
  let '(mkConfig a b c d e f g h i j u) := s in mkConfig a b c d e f g h i j (mkUsage x (us_CollectorAddress u) (us_Insecure u)).
Definition mergeConfigFile (f : file) (cfg : config) (g : array) : array * (config_error + config) :=
  match f with
  | NotExist => (g, inr cfg)
  | Unreadable => (g, inl EReadFile)
  | Contents data => match ParseConfigYAML data g with
                     | (g, inl e) => (g, inl e)
                     | (g, inr parsed) => (g, inr (DestructiveMerge g cfg parsed))
                     end
  end.
(** What there is on disk: a file that the context names, the machine's and the user's file,
    and the marker that opts out of reports. *)
Record disk := mkDisk { dk_pinned : option file; dk_system : file; dk_user : file; dk_optOut : bool }.
Definition LoadConfig (dk : disk) (g : array) : array * (config_error + config) :=
  let cfg := defaultConfig in
  let '(g, res) := match dk_pinned dk with
                   | Some f => mergeConfigFile f cfg g
                   | None => match mergeConfigFile (dk_system dk) cfg g with
                             | (g, inl e) => (g, inl e)
                             | (g, inr cfg) => mergeConfigFile (dk_user dk) cfg g
                             end
                   end in
  match res with
  | inl e => (g, inl e)
  | inr cfg => (g, inr (if dk_optOut dk then set_UsageEnabled false cfg else cfg))
  end.

(** ** Uses of a configuration *)
Inductive TimeoutID :=
  | TimeoutClusterConnect | TimeoutConnectivityCheck | TimeoutEndpointDial | TimeoutHelm | TimeoutIntercept | TimeoutProxyDial
  | TimeoutRoundtripLatency | TimeoutTrafficManagerAPI | TimeoutTrafficManagerConnect | TimeoutFtpReadWrite | TimeoutFtpShutdown
  | TimeoutContainerShutdown.
Definition Timeouts_Get (t : Timeouts) (timeoutID : TimeoutID) : Z :=
  match timeoutID with
  | TimeoutClusterConnect => to_ClusterConnect t
  | TimeoutConnectivityCheck => to_ConnectivityCheck t
  | TimeoutEndpointDial => to_EndpointDial t
  | TimeoutHelm => to_Helm t
  | TimeoutIntercept => to_Intercept t
  | TimeoutProxyDial => to_ProxyDial t
  | TimeoutRoundtripLatency => to_RoundtripLatency t
  | TimeoutTrafficManagerAPI => to_TrafficManagerAPI t
  | TimeoutTrafficManagerConnect => to_TrafficManagerConnect t
  | TimeoutFtpReadWrite => to_FtpReadWrite t
  | TimeoutFtpShutdown => to_FtpShutdown t
  | TimeoutContainerShutdown => to_ContainerShutdown t
  end.
(** The name of the setting in the message of a timeout. *)
Definition timeoutError_yamlName (timeoutID : TimeoutID) : string :=
  match timeoutID with
  | TimeoutClusterConnect => "clusterConnect"
  | TimeoutConnectivityCheck => "connectivityCheck"
  | TimeoutEndpointDial => "endpointDial"
  | TimeoutHelm => "helm"
  | TimeoutIntercept => "intercept"
  | TimeoutProxyDial => "proxyDial"
  | TimeoutRoundtripLatency => "roundtripDelay"
  | TimeoutTrafficManagerAPI => "trafficManagerAPI"
  | TimeoutTrafficManagerConnect => "trafficManagerConnect"
  | TimeoutFtpReadWrite => "ftpReadWrite"
  | TimeoutFtpShutdown => "ftpShutdown"
  | TimeoutContainerShutdown => "containerShutdown"
  end.

Definition Grpc_MaxReceiveSize (g : Grpc) : Z :=
  if negb (Quantity_IsZero (gr_MaxReceiveSizeV g)) then default 0 (Quantity_AsInt64 (gr_MaxReceiveSizeV g)) else 0.
(** [ReloadLogLevel]: the level of a process. *)
Definition process_level (processName : string) (levels : LogLevels) : Z :=
  if bool_decide (processName = "rootd"%string) then ll_RootDaemon levels
  else if bool_decide (processName = "userd"%string) then ll_UserDaemon levels
  else if bool_decide (processName = "kubeauthd"%string) then ll_KubeAuthDaemon levels
  else ll_CLI levels.

(** The watcher of the file: a timer is set when the file is written; when it fires, the
    configuration is loaded and replaces the one that all users of the context share. *)
Definition fsCreate : Z := 1.
Definition fsWrite : Z := 2.
Record watcher := mkWatcher { w_config : config; w_array : array; w_timer : bool; w_reloads : nat; w_running : bool }.
Inductive watch_event := FsEvent (op : Z) (name : string) | FsError | TimerFires (dk : disk) | ContextDone.
Definition WatchConfig_step (configFile : string) (w : watcher) (ev : watch_event) : watcher :=
  if negb (w_running w) then w
  else match ev with
       | FsEvent op name =>
           if negb (Z.land op (Z.lor fsWrite fsCreate) =? 0) && bool_decide (name = configFile)
           then mkWatcher (w_config w) (w_array w) true (w_reloads w) true else w
       | FsError => w
       | TimerFires dk =>
           if w_timer w then
             match LoadConfig dk (w_array w) with
             | (g, inl _) => mkWatcher (w_config w) g false (w_reloads w) true
             | (g, inr cfg) => mkWatcher cfg g false (S (w_reloads w)) true
             end
           else w
       | ContextDone => mkWatcher (w_config w) (w_array w) false (w_reloads w) false
       end.

(** The extension of a kubeconfig: a configuration, or the older format. *)
Record dnsConfig := mkDnsConfig {
  kd_LocalIP : Addr; kd_RemoteIP : Addr; kd_ExcludeSuffixes : option (list string); kd_IncludeSuffixes : option (list string);
  kd_Excludes : option (list string); kd_Mappings : DNSMappings; kd_LookupTimeout : Z
}.
Definition dnsConfig_fields : list (Field dnsConfig) := [
  plain addrC "LocalIP" "local-ip,omitempty" kd_LocalIP (fun x '(mkDnsConfig _ b c d e f g) => mkDnsConfig x b c d e f g);
  plain addrC "RemoteIP" "remote-ip,omitempty" kd_RemoteIP (fun x '(mkDnsConfig a _ c d e f g) => mkDnsConfig a x c d e f g);
  plain stringsC "ExcludeSuffixes" "exclude-suffixes,omitempty" kd_ExcludeSuffixes (fun x '(mkDnsConfig a b _ d e f g) => mkDnsConfig a b x d e f g);
  plain stringsC "IncludeSuffixes" "include-suffixes,omitempty" kd_IncludeSuffixes (fun x '(mkDnsConfig a b c _ e f g) => mkDnsConfig a b c x e f g);
  plain stringsC "Excludes" "excludes,omitempty" kd_Excludes (fun x '(mkDnsConfig a b c d _ f g) => mkDnsConfig a b c d x f g);
  plain mappingsC "Mappings" "mappings,omitempty" kd_Mappings (fun x '(mkDnsConfig a b c d e _ g) => mkDnsConfig a b c d e x g);
  plain durationC "LookupTimeout" "lookup-timeout,omitempty" kd_LookupTimeout (fun x '(mkDnsConfig a b c d e f _) => mkDnsConfig a b c d e f x)].
(** [ke_Manager]: the namespace of the manager's section. *)
Record kubeconfigExtension := mkKE {
  ke_DNS : option dnsConfig; ke_AlsoProxy : option (list Prefix); ke_NeverProxy : option (list Prefix);
  ke_AllowConflictingSubnets : option (list Prefix); ke_Manager : option string
}.
(** A pointer to a struct whose zero value is [zero]. *)
Definition dec_pointer {A} (fs : list (Field A)) (zero : A) (old : option A) (v : jval) : uerr + option A :=
  match v with
  | JNull => inr None
  | JObj ms => match (dec_members fs false ms (default zero old) []).2 with inl e => inl e | inr a => inr (Some a) end
  | _ => inl EBad
  end.
Definition manager_fields : list (Field string) := [plain stringC "Namespace" "namespace,omitempty" (fun s => s) (fun x _ => x)].
Fixpoint dec_extension (ms : list (string * jval)) (ke : kubeconfigExtension) : uerr + kubeconfigExtension :=
  match ms with
  | [] => inr ke
  | (k, v) :: ms =>
      let '(mkKE a b c d e) := ke in
      if bool_decide (k = "dns"%string) then
        match dec_pointer dnsConfig_fields (mkDnsConfig AddrZero AddrZero None None None None 0) a v with inl e => inl e | inr x => dec_extension ms (mkKE x b c d e) end
      else if bool_decide (k = "also-proxy"%string) then match dec prefixesC false v with inl e => inl e | inr x => dec_extension ms (mkKE a x c d e) end
      else if bool_decide (k = "never-proxy"%string) then match dec prefixesC false v with inl e => inl e | inr x => dec_extension ms (mkKE a b x d e) end
      else if bool_decide (k = "allow-conflicting-subnets"%string) then
        match dec prefixesC false v with inl e => inl e | inr x => dec_extension ms (mkKE a b c x e) end
      else if bool_decide (k = "manager"%string) then
        match dec_pointer manager_fields "" e v with inl e => inl e | inr x => dec_extension ms (mkKE a b c d x) end
      else dec_extension ms ke
  end.
Definition zeroExtension : kubeconfigExtension := mkKE None None None None None.
Definition Unmarshal_extension (v : jval) : uerr + kubeconfigExtension :=
  match v with JNull => inr zeroExtension | JObj ms => dec_extension ms zeroExtension | _ => inl EBad end.

Definition set_DefaultManagerNamespace (x : string) (c : config) : config :=
  let '(mkCluster _ b d e f) := c_Cluster c in set_Cluster (mkCluster x b d e f) c.
Definition or_else {A} (x y : option (list A)) : option (list A) := if nonempty x then x else y.
Definition asConfig (ke : kubeconfigExtension) : config :=
  let d : DNS := defaults in
  let dns := match ke_DNS ke with
             | None => d
             | Some kd =>
                 mkDNS (d_Error d) (d_LocalIP d) (d_RemoteIP d) (d_LocalAddress d)
                   (if a_IsValid (kd_LocalIP kd) then Some [Build_AddrPort (kd_LocalIP kd) 53] else d_LocalAddresses d)
                   (if a_IsValid (kd_RemoteIP kd) then Build_AddrPort (kd_RemoteIP kd) 53 else d_VIFAddress d)
                   (or_else (kd_IncludeSuffixes kd) (d_IncludeSuffixes d))
                   (if nonempty (kd_ExcludeSuffixes kd) then Own (default [] (kd_ExcludeSuffixes kd)) else d_ExcludeSuffixes d)
                   (or_else (kd_Excludes kd) (d_Excludes d)) (or_else (kd_Mappings kd) (d_Mappings d))
                   (if kd_LookupTimeout kd =? 0 then d_LookupTimeout d else kd_LookupTimeout kd) (d_RecursionCheck d) (d_UseComplexLookup d)
             end in
  let r : Routing := defaults in
  let rt := mkRouting (ro_Subnets r) (or_else (ke_AlsoProxy ke) (ro_AlsoProxy r)) (or_else (ke_NeverProxy ke) (ro_NeverProxy r))
              (or_else (ke_AllowConflictingSubnets ke) (ro_AllowConflicting r)) (ro_VirtualSubnet r) (ro_AutoResolveConflicts r) (ro_UseTAP r)
              (ro_OldAlsoProxy r) (ro_OldNeverProxy r) (ro_OldAllowConflicting r) (ro_RecursionBlockDuration r) (ro_RecursionBlockTreads r) in
  let cfg := mkConfig defaults dns defaults defaults defaults defaults defaults defaults rt defaults defaults in
  match ke_Manager ke with
  | Some ns => if bool_decide (ns = EmptyString) then cfg else set_DefaultManagerNamespace ns cfg
  | None => cfg
  end.

(** The addresses of the API server: its host, and what a lookup of the name gives. *)
Definition getServerNeverProxy (host : option string) (LookupIP : string -> option (list (list Z))) : list Prefix :=
  match host with
  | None => []
  | Some hostname =>
      let ips := match ParseAddr hostname with
                 | Some rawIP => [rawIP]
                 | None => match LookupIP hostname with None => [] | Some li => (fun ip => default AddrZero (AddrFromSlice ip)) <$> li end
                 end in
      (fun ip => PrefixFrom ip (if Is6 ip then 128 else 32)) <$> filter (fun ip => IsLoopback ip = false) ips
  end.
Definition append {A} (o : option (list A)) (l : list A) : option (list A) :=
  match o, l with None, [] => None | _, _ => Some (default [] o ++ l) end.
Definition add_NeverProxy (l : list Prefix) (c : config) : config :=
  set_Routing (set_NeverProxy (append (ro_NeverProxy (c_Routing c)) l) (c_Routing c)) c.
(** The configuration that replaces the one of the context. *)
Definition WithKubeExtension (ext : option string) (managerNamespace : string) (snps : list Prefix) (cfg : config) (g : array)
    : array * (config_error + config) :=
  let data := match ext with Some raw => TrimSpace raw | None => EmptyString end in
  let '(g, keCfg) :=
    if negb (bool_decide (data = EmptyString)) then
      let '(g, kc) := match parse_json data with Some v => UnmarshalJSONConfig v true g | None => (g, inl EBad) end in
      let res := match kc with
                 | inr kc => inr kc
                 | inl _ => match parse_json data with
                            | Some v => match Unmarshal_extension v with inl _ => inl EExtension | inr ke => inr (asConfig ke) end
                            | None => inl EExtension
                            end
                 end in
      (g, match res with
          | inl e => inl e
          | inr c => inr (Some (if bool_decide (managerNamespace = EmptyString) then c else set_DefaultManagerNamespace managerNamespace c))
          end)
    else (g, inr (if negb (bool_decide (managerNamespace = EmptyString)) && negb (bool_decide (managerNamespace = cl_DefaultManagerNamespace (c_Cluster cfg)))
                  then Some (set_DefaultManagerNamespace managerNamespace defaultConfig) else None)) in
  match keCfg with
  | inl e => (g, inl e)
  | inr keCfg =>
      let keCfg := if Nat.ltb 0 (length snps) then Some (add_NeverProxy snps (default defaultConfig keCfg)) else keCfg in
      match keCfg with
      | None => (g, inr cfg)
      | Some keCfg => (g, inr (add_NeverProxy (default [] (ro_NeverProxy (c_Routing cfg))) (Merge g cfg keCfg)))
      end
  end.

(** [updateClientConfig]: the traffic-manager's configuration under the local one.  The
    result is the new configuration, and the mapped namespaces of the manager if it has a
    configuration; [UserNamespaces.updateClientConfig] goes on with them. *)
Definition set_MappedNamespaces (x : option (list string)) (c : config) : config :=
  let '(mkCluster a _ d e f) := c_Cluster c in set_Cluster (mkCluster a x d e f) c.
Definition updateClientConfig (reply : option string) (cfg : config) (g : array) : array * (config * option (list string)) :=
  match reply with
  | None => (g, (cfg, None))
  | Some yaml =>
      match ParseConfigYAML yaml g with
      | (g, inl _) => (g, (cfg, None))
      | (g, inr tmCfg) =>
          let merged := set_MappedNamespaces (cl_MappedNamespaces (c_Cluster cfg)) (Merge g tmCfg cfg) in
          let never := Unique <$> append (ro_NeverProxy (c_Routing merged)) (default [] (ro_NeverProxy (c_Routing tmCfg))) in
          (g, (set_Routing (set_NeverProxy never (c_Routing merged)) merged, Some (default [] (cl_MappedNamespaces (c_Cluster tmCfg)))))
      end
  end.
End Config.
