(* ===== verification/ClientConfigSpec.v ===== *)
(** * The client's configuration: theorems

    What is written of a configuration is read back; a configuration that is loaded has, for
    every key, the value of the last file that does not leave it at its default; what the
    traffic-manager configures yields to what is configured locally.  The sections are
    handled by reflection, so the theorems are proved once for a lawful list of fields.  The
    array that the default configuration shares breaks the rule for the excluded suffixes;
    this and the other ways in which the code fails are exhibited at the end. *)
From S2P Require Import Prelude NetIP Subnet SubnetSpec GoStrings GoText GoJson NetParse DnsServer SessionRoutes UserNamespaces ClientConfig.
From Stdlib Require Import Ascii.
Local Open Scope Z_scope.

(** ** Fields that are lawful *)
Definition plain_like {S} (f : Field S) : Prop :=
  (forall r v old g, f_dec f r v old g = (g, (f_dec f r v old []).2)) /\ (forall g t, f_view f g t = t).
Class LawfulFields {S} (fs : list (Field S)) : Prop := {
  lf_get_set : forall f v s, f ∈ fs -> f_get f (f_set f v s) = v;
  lf_get_ne : forall f f' v s, f ∈ fs -> f' ∈ fs -> f_name f <> f_name f' -> f_get f' (f_set f v s) = f_get f' s;
  lf_names : NoDup (f_name <$> fs);
  lf_named : forall f, f ∈ fs -> f_name f <> EmptyString;
  lf_ext : forall s s', (forall f, f ∈ fs -> f_get f s = f_get f s') -> s = s';
  (* at most one field uses the array *)
  lf_array : exists h, forall f, f ∈ fs -> f_name f <> h -> plain_like f
}.

Lemma nodup_key {A B} (k : A -> B) (l : list A) x y : NoDup (k <$> l) -> x ∈ l -> y ∈ l -> k x = k y -> x = y.
Proof.
  intros N [i Hi]%list_elem_of_lookup [j Hj]%list_elem_of_lookup E. assert (i = j) as ->; [|congruence].
  apply (NoDup_lookup (k <$> l) i j (k x) N); rewrite list_lookup_fmap; [by rewrite Hi|by rewrite Hj, E].
Qed.

Section Lawful.
Context {S : Type} (fs : list (Field S)) `{L : !LawfulFields fs}.
Lemma name_inj f f' : f ∈ fs -> f' ∈ fs -> f_name f = f_name f' -> f = f'.
Proof. apply nodup_key, lf_names. Qed.
Lemma find_field_elem f : f ∈ fs -> find_field fs (f_name f) = Some f.
Proof.
  intros Hf. unfold find_field. destruct (filter _ fs) as [|f' l] eqn:E.
  - assert (f ∈ filter (fun f0 => f_name f0 = f_name f) fs) as H by (apply list_elem_of_filter; done). rewrite E in H. by apply elem_of_nil in H.
  - assert (f' ∈ filter (fun f0 => f_name f0 = f_name f) fs) as H by (rewrite E; apply list_elem_of_here).
    apply list_elem_of_filter in H as [H1 H2]. simpl. f_equal. by apply name_inj.
Qed.

(** Reading members: each field that is named gets what is decoded on top of its old value,
    the others keep theirs, and the array is changed by its field only. *)
Lemma dec_members_ok r ms s0 g0 :
  NoDup ms.*1 ->
  (forall k v, (k, v) ∈ ms -> exists f t g1, f ∈ fs /\ f_name f = k /\ f_dec f r v (f_get f s0) g0 = (g1, inr t)) ->
  exists g1 s1, dec_members fs r ms s0 g0 = (g1, inr s1) /\
    (forall f, f ∈ fs -> f_name f ∉ ms.*1 -> f_get f s1 = f_get f s0) /\
    (forall f v t gf, f ∈ fs -> (f_name f, v) ∈ ms -> f_dec f r v (f_get f s0) g0 = (gf, inr t) -> f_get f s1 = t /\ (plain_like f \/ g1 = gf)) /\
    (forall h, (forall f, f ∈ fs -> f_name f <> h -> plain_like f) -> h ∉ ms.*1 -> g1 = g0).
Proof.
  revert s0 g0. induction ms as [|[k v] ms IH]; intros s0 g0 HN Hd.
  { exists g0, s0. split_and!; [done|done| |done]. intros f v t gf _ H. by apply elem_of_nil in H. }
  simpl in HN. apply NoDup_cons in HN as [Hk HN].
  destruct (Hd k v (list_elem_of_here _ _)) as (f & t & g' & Hf & <- & Ef).
  cbn [dec_members]. rewrite (find_field_elem f Hf), Ef.
  pose proof lf_array as [h0 Hh0].
  assert (Hother : forall f' v' t' gf, f' ∈ fs -> f_name f' <> f_name f -> f_dec f' r v' (f_get f' s0) g0 = (gf, inr t') ->
      f_dec f' r v' (f_get f' (f_set f t s0)) g' = (if decide (f_name f = h0) then (g', inr t') else (gf, inr t'))).
  { intros f' v' t' gf Hf' Hne E. rewrite lf_get_ne by done. destruct (decide (f_name f = h0)) as [<-|Hh].
    - pose proof (Hh0 f' Hf' Hne) as [P _]. rewrite P in E |- *. congruence.
    - pose proof (Hh0 f Hf Hh) as [P _]. rewrite P in Ef. injection Ef as <- _. done. }
  destruct (IH (f_set f t s0) g') as (g1 & s1 & E1 & K1 & K2 & K3); [done| |].
  { intros k' v' Hin. destruct (Hd k' v' (list_elem_of_further _ _ _ Hin)) as (f' & t' & gf & Hf' & <- & E').
    assert (f_name f' <> f_name f) as Hne by (intros E; rewrite <- E in Hk; apply Hk, list_elem_of_fmap; by exists (f_name f', v')).
    pose proof (Hother f' v' t' gf Hf' Hne E') as H. exists f', t'. destruct (decide (f_name f = h0)); eauto. }
  exists g1, s1. split_and!; [done| | |].
  - intros f' Hf' Hn. simpl in Hn. apply not_elem_of_cons in Hn as [Hn1 Hn2]. rewrite K1 by done. by apply lf_get_ne.
  - intros f' v' t' gf Hf' Hin E'. apply elem_of_cons in Hin as [[= En ->]|Hin].
    + assert (f' = f) as -> by (by apply name_inj). rewrite Ef in E'. injection E' as -> ->. split.
      * rewrite K1 by done. by apply lf_get_set.
      * destruct (decide (f_name f = h0)) as [E|Hh]; [right; by apply (K3 h0); [|rewrite <- E]|left; by apply Hh0].
    + assert (f_name f' <> f_name f) as Hne by (intros E; rewrite <- E in Hk; apply Hk, list_elem_of_fmap; by exists (f_name f', v')).
      pose proof (Hother f' v' t' gf Hf' Hne E') as H. destruct (decide (f_name f = h0)) as [E|Hh].
      * destruct (K2 f' v' t' g' Hf' Hin H) as [H1 H2]. split; [done|]. left. apply Hh0; [done|congruence].
      * by apply (K2 f' v' t' gf).
  - intros h Hh Hn. simpl in Hn. apply not_elem_of_cons in Hn as [Hn1 Hn2]. rewrite (K3 h Hh Hn2).
    pose proof (Hh f Hf (not_eq_sym Hn1)) as [P _]. rewrite P in Ef. by injection Ef as <- _.
Qed.
End Lawful.

(** What is written of a value is read back, on top of the default. *)
Definition field_ok {S} (dflt : S) (f : Field S) (g : array) (t : f_T f) : Prop :=
  forall r, exists g1 t1, f_dec f r (f_enc f g t) (f_get f dflt) g = (g1, inr t1) /\ f_view f g1 t1 = f_view f g t.

Section LawfulSections.
Context {S : Type} {DA : DefaultsAware S} `{L : !LawfulFields fields}.
Lemma merge_fold g (s t : S) (l : list (Field S)) f :
  (forall x, x ∈ l -> x ∈ fields) -> f ∈ fields ->
  let r := foldl (fun t x => if bool_decide (f_name x = EmptyString) || f_isDefault defaults g s x then t else f_set x (f_get x s) t) t l in
  (f ∈ l /\ f_isDefault defaults g s f = false -> f_get f r = f_get f s) /\
  (f ∉ l \/ f_isDefault defaults g s f = true -> f_get f r = f_get f t).
Proof.
  intros Hl Hf. revert t. induction l as [|x l IH] using rev_ind; intros t; [set_solver|]. rewrite foldl_app. cbn [foldl].
  destruct (IH ltac:(set_solver) t) as [IH1 IH2]. clear IH. assert (x ∈ fields) as Hx by set_solver.
  rewrite bool_decide_eq_false_2 by (by apply (lf_named (fs := fields))). cbn [orb].
  destruct (f_isDefault defaults g s x) eqn:D.
  - split; [|intros [H|H]; apply IH2; [left; set_solver|by right]]. intros [H E]. apply IH1. split; [|done].
    apply elem_of_app in H as [H|H]; [done|]. apply list_elem_of_singleton in H as ->. congruence.
  - destruct (decide (f_name x = f_name f)) as [E|Hne].
    + assert (x = f) as -> by (by apply (name_inj fields)). rewrite (lf_get_set (fs := fields)) by done. split; [done|].
      intros [H|H]; [set_solver|congruence].
    + rewrite (lf_get_ne (fs := fields)) by done. split.
      * intros [H E]. apply IH1. split; [|done]. apply elem_of_app in H as [H|H]; [done|]. apply list_elem_of_singleton in H as ->. done.
      * intros [H|H]; apply IH2; [left; set_solver|by right].
Qed.
(** A merge takes what is no default. *)
Lemma mergeNonDefaults_get g (t s : S) f :
  f ∈ fields -> f_get f (mergeNonDefaults g t s) = if f_isDefault defaults g s f then f_get f t else f_get f s.
Proof.
  intros Hf. destruct (merge_fold g s t fields f) as [H1 H2]; [done..|]. unfold mergeNonDefaults.
  destruct (f_isDefault defaults g s f) eqn:E; [apply H2; by right|by apply H1].
Qed.
Lemma map_fold g (s : S) (l : list (Field S)) k v :
  (forall x, x ∈ l -> x ∈ fields) ->
  foldl (fun (m : gmap string jval) x => if bool_decide (f_name x = EmptyString) || f_isDefault defaults g s x then m else <[f_name x := f_enc x g (f_get x s)]> m) ∅ l !! k = Some v <->
  exists f, f ∈ l /\ f_name f = k /\ f_isDefault defaults g s f = false /\ v = f_enc f g (f_get f s).
Proof.
  intros Hl. induction l as [|x l IH] using rev_ind.
  { cbn. rewrite lookup_empty. split; [done|]. intros (f & H & _). by apply elem_of_nil in H. }
  rewrite foldl_app. cbn [foldl]. assert (x ∈ fields) as Hx by set_solver.
  rewrite bool_decide_eq_false_2 by (by apply (lf_named (fs := fields))). cbn [orb].
  destruct (f_isDefault defaults g s x) eqn:D.
  - rewrite IH by set_solver. split; intros (f & H & R).
    + exists f. split; [set_solver|done].
    + exists f. split; [|done]. apply elem_of_app in H as [H|H]; [done|]. apply list_elem_of_singleton in H as ->. destruct R as (_ & R & _). congruence.
  - destruct (decide (f_name x = k)) as [<-|Hne].
    + rewrite lookup_insert_eq. split; [intros [= <-]; exists x; set_solver|]. intros (f & H & E & _ & ->).
      assert (f = x) as -> by (apply (name_inj fields); [set_solver|done|done]). done.
    + rewrite lookup_insert_ne, IH by (done || set_solver). split; intros (f & H & R); exists f; (split; [|done]); [set_solver|].
      apply elem_of_app in H as [H|H]; [done|]. apply list_elem_of_singleton in H as ->. destruct R as (R & _). congruence.
Qed.
Lemma elem_of_written g (s : S) k v :
  (k, v) ∈ map_to_list (mapWithoutDefaults g s) <->
  exists f, f ∈ fields /\ f_name f = k /\ f_isDefault defaults g s f = false /\ v = f_enc f g (f_get f s).
Proof. rewrite elem_of_map_to_list. by apply map_fold. Qed.

(** A section is read back as what was written. *)
Lemma section_roundtrip r g (s : S) :
  (forall f, f ∈ fields -> f_isDefault defaults g s f = false -> field_ok defaults f g (f_get f s)) ->
  exists g1 s1, UnmarshalJSONFrom r (MarshalJSONTo g s) defaults g = (g1, inr s1) /\
    forall f, f ∈ fields -> f_view f g1 (f_get f s1) = f_view f g (f_get f s).
Proof.
  intros Hok. destruct (dec_members_ok fields r (map_to_list (mapWithoutDefaults g s)) defaults g) as (g1 & s1 & E & K1 & K2 & K3).
  { apply NoDup_fst_map_to_list. }
  { intros k v (f & Hf & <- & D & ->)%elem_of_written. destruct (Hok f Hf D r) as (g1 & t1 & H & _). by exists f, t1, g1. }
  exists g1, s1. split; [done|]. intros f Hf. destruct (f_isDefault defaults g s f) eqn:D.
  - assert (f_name f ∉ (map_to_list (mapWithoutDefaults g s)).*1) as Hn.
    { intros ([k v] & Hk & Hin)%list_elem_of_fmap. simpl in Hk. subst k. apply elem_of_written in Hin as (f' & Hf' & En & D' & _).
      assert (f' = f) as -> by (by apply (name_inj fields)). congruence. }
    rewrite K1 by done. apply bool_decide_eq_true in D. rewrite D. destruct (lf_array (fs := fields)) as [h Hh].
    destruct (decide (f_name f = h)) as [<-|Hne]; [by rewrite (K3 (f_name f))|]. destruct (Hh f Hf Hne) as [_ P]. by rewrite !P.
  - destruct (Hok f Hf D r) as (gf & t1 & H & V).
    destruct (K2 f (f_enc f g (f_get f s)) t1 gf Hf) as [-> G]; [|done|].
    { apply elem_of_written. eauto. }
    destruct G as [[_ P]| ->]; [|done]. rewrite P, <- V. by rewrite P.
Qed.
Lemma members_plain r ms (s : S) g :
  (forall f, f ∈ fields -> plain_like f) -> dec_members fields r ms s g = (g, (dec_members fields r ms s []).2).
Proof.
  intros P. revert s. induction ms as [|[k v] ms IH]; intros s; [done|]. cbn [dec_members].
  destruct (find_field fields k) as [f|] eqn:F; [|destruct r; [done|apply IH]].
  assert (f ∈ fields) as Hf.
  { unfold find_field in F. destruct (filter _ _) as [|f' l] eqn:E; [done|]. injection F as ->.
    assert (f ∈ filter (fun f0 => f_name f0 = k) fields) as H by (rewrite E; apply list_elem_of_here). by apply list_elem_of_filter in H as [_ ?]. }
  destruct (P f Hf) as [Q _]. rewrite (Q r v _ g), (Q r v _ []). destruct (f_dec f r v (f_get f s) []).2 as [e|t]; [done|]. apply IH.
Qed.
Lemma Unmarshal_plain r v (s : S) g :
  (forall f, f ∈ fields -> plain_like f) -> UnmarshalJSONFrom r v s g = (g, (UnmarshalJSONFrom r v s []).2).
Proof. intros P. destruct v; try done. by apply members_plain. Qed.
Lemma plain_roundtrip r g (s : S) :
  (forall f, f ∈ fields -> plain_like f) ->
  (forall f, f ∈ fields -> f_isDefault defaults g s f = false -> field_ok defaults f g (f_get f s)) ->
  UnmarshalJSONFrom r (MarshalJSONTo g s) defaults g = (g, inr s).
Proof.
  intros P Hok. destruct (section_roundtrip r g s Hok) as (g1 & s1 & E & V). pose proof E as E'. rewrite Unmarshal_plain in E' by done.
  injection E' as <- _. rewrite E. do 2 f_equal. apply (lf_ext (fs := fields)). intros f Hf. specialize (V f Hf). destruct (P f Hf) as [_ Q]. by rewrite !Q in V.
Qed.
End LawfulSections.

(** ** The sections are lawful *)
Lemma lawful_intro {S} (fs : list (Field S)) (h : string) :
  Forall (fun f => forall v s, f_get f (f_set f v s) = v) fs ->
  Forall (fun f => Forall (fun f' => (forall v s, f_get f' (f_set f v s) = f_get f' s) \/ f_name f = f_name f') fs) fs ->
  NoDup (f_name <$> fs) -> EmptyString ∉ (f_name <$> fs) ->
  (forall s s', Forall (fun f => f_get f s = f_get f s') fs -> s = s') ->
  Forall (fun f => plain_like f \/ f_name f = h) fs -> LawfulFields fs.
Proof.
  rewrite !Forall_forall. intros H1 H2 H3 H4 H5 H6. split.
  - intros f v s Hf. by apply H1.
  - intros f f' v s Hf Hf' Hne. specialize (H2 f Hf). rewrite Forall_forall in H2. by destruct (H2 f' Hf').
  - done.
  - intros f Hf E. apply H4, list_elem_of_fmap. by exists f.
  - intros s s' H. apply H5, Forall_forall, H.
  - exists h. intros f Hf Hne. by destruct (H6 f Hf).
Qed.
Lemma plain_plain {S A} `{EqDecision A} (c : Codec A) name tag (get : S -> A) set : plain_like (plain c name tag get set).
Proof. done. Qed.
Lemma nested_plain {S A} `{DefaultsAware A} `{EqDecision A} name tag (get : S -> A) set :
  Forall plain_like (fields (S := A)) -> plain_like (nested name tag get set).
Proof. intros P. split; [|done]. intros r v old g. apply Unmarshal_plain, Forall_forall, P. Qed.

Ltac over_fields tac := repeat (apply Forall_cons; split; [tac|]); apply Forall_nil; exact I.
Ltac lawful_get := over_fields ltac:(intros ? []; reflexivity).
Ltac lawful_other := first [left; intros ? []; reflexivity | right; reflexivity].
Ltac lawful_ext :=
  let s := fresh "s" in let s' := fresh "s" in let H := fresh "H" in
  intros s s' H; destruct s, s'; repeat (apply Forall_cons in H as [? H]); cbn in *; subst; reflexivity.
Ltac lawful h :=
  apply (lawful_intro _ h);
  [ lawful_get | over_fields ltac:(over_fields lawful_other) | decide_it | decide_it | lawful_ext | ].

Section LawfulConfig.
Context `{CC : ConfigCodecs}.
Lemma Timeouts_plain : Forall plain_like (fields (S := Timeouts)).
Proof. over_fields ltac:(apply plain_plain). Qed.
Lemma LogLevels_plain : Forall plain_like (fields (S := LogLevels)).
Proof. over_fields ltac:(apply plain_plain). Qed.
Lemma Usage_plain : Forall plain_like (fields (S := Usage)).
Proof. over_fields ltac:(apply plain_plain). Qed.
Lemma Images_plain : Forall plain_like (fields (S := Images)).
Proof. over_fields ltac:(apply plain_plain). Qed.
Lemma Grpc_plain : Forall plain_like (fields (S := Grpc)).
Proof. over_fields ltac:(apply plain_plain). Qed.
Lemma Intercept_plain : Forall plain_like (fields (S := Intercept)).
Proof. over_fields ltac:(apply plain_plain). Qed.
Lemma Cluster_plain : Forall plain_like (fields (S := Cluster)).
Proof. over_fields ltac:(apply plain_plain). Qed.
Lemma Telemount_plain : Forall plain_like (fields (S := Telemount)).
Proof. over_fields ltac:(apply plain_plain). Qed.
Lemma Teleroute_plain : Forall plain_like (fields (S := Teleroute)).
Proof. over_fields ltac:(apply plain_plain). Qed.
Lemma Docker_plain : Forall plain_like (fields (S := Docker)).
Proof. over_fields ltac:(first [apply plain_plain | apply nested_plain; first [exact Telemount_plain | exact Teleroute_plain]]). Qed.
Lemma Helm_plain : Forall plain_like (fields (S := Helm)).
Proof. over_fields ltac:(apply plain_plain). Qed.
Lemma Routing_plain : Forall plain_like (fields (S := Routing)).
Proof. over_fields ltac:(apply plain_plain). Qed.
Global Instance Timeouts_lawful : LawfulFields (fields (S := Timeouts)).
Proof. lawful EmptyString. eapply Forall_impl; [exact Timeouts_plain|by left]. Qed.
Global Instance LogLevels_lawful : LawfulFields (fields (S := LogLevels)).
Proof. lawful EmptyString. eapply Forall_impl; [exact LogLevels_plain|by left]. Qed.
Global Instance Usage_lawful : LawfulFields (fields (S := Usage)).
Proof. lawful EmptyString. eapply Forall_impl; [exact Usage_plain|by left]. Qed.
Global Instance Images_lawful : LawfulFields (fields (S := Images)).
Proof. lawful EmptyString. eapply Forall_impl; [exact Images_plain|by left]. Qed.
Global Instance Grpc_lawful : LawfulFields (fields (S := Grpc)).
Proof. lawful EmptyString. eapply Forall_impl; [exact Grpc_plain|by left]. Qed.
Global Instance Intercept_lawful : LawfulFields (fields (S := Intercept)).
Proof. lawful EmptyString. eapply Forall_impl; [exact Intercept_plain|by left]. Qed.
Global Instance Cluster_lawful : LawfulFields (fields (S := Cluster)).
Proof. lawful EmptyString. eapply Forall_impl; [exact Cluster_plain|by left]. Qed.
Global Instance Telemount_lawful : LawfulFields (fields (S := Telemount)).
Proof. lawful EmptyString. eapply Forall_impl; [exact Telemount_plain|by left]. Qed.
Global Instance Teleroute_lawful : LawfulFields (fields (S := Teleroute)).
Proof. lawful EmptyString. eapply Forall_impl; [exact Teleroute_plain|by left]. Qed.
Global Instance Docker_lawful : LawfulFields (fields (S := Docker)).
Proof. lawful EmptyString. eapply Forall_impl; [exact Docker_plain|by left]. Qed.
Global Instance Helm_lawful : LawfulFields (fields (S := Helm)).
Proof. lawful EmptyString. eapply Forall_impl; [exact Helm_plain|by left]. Qed.
Global Instance Routing_lawful : LawfulFields (fields (S := Routing)).
Proof. lawful EmptyString. eapply Forall_impl; [exact Routing_plain|by left]. Qed.
Global Instance DNS_lawful : LawfulFields (fields (S := DNS)).
Proof. lawful "excludeSuffixes"%string. over_fields ltac:(first [left; apply plain_plain | right; reflexivity]). Qed.
Lemma section_plain {A} `{DefaultsAware A} `{EqDecision A} name tag (get : config -> A) set :
  Forall plain_like (fields (S := A)) -> plain_like (section name tag get set).
Proof. intros P. split; [|done]. intros r v old g. apply Unmarshal_plain, Forall_forall, P. Qed.
Global Instance config_lawful : LawfulFields config_fields.*1.
Proof.
  lawful "dns"%string.
  over_fields ltac:(first [right; reflexivity | left; apply section_plain;
    first [exact Cluster_plain | exact Docker_plain | exact Grpc_plain | exact Helm_plain | exact Images_plain | exact Intercept_plain
          | exact LogLevels_plain | exact Routing_plain | exact Timeouts_plain | exact Usage_plain]]).
Qed.
End LawfulConfig.

(** ** Codecs are lawful *)
Lemma boolC_lawful : lawful_codec boolC.
Proof. done. Qed.
Lemma stringC_lawful : lawful_codec stringC.
Proof. done. Qed.
Lemma Atoi_itoa_int n : - 2 ^ 63 <= n < 2 ^ 63 -> Atoi (itoa n) = Some n.
Proof.
  intros Hn. destruct (decide (0 <= n)) as [?|?]; [apply Atoi_itoa; lia|]. destruct n as [|p|p]; [lia|lia|].
  change (itoa (Zneg p)) with (String "-" (itoa (Zpos p))). 
  assert (forall r, Atoi (String "-" r) = (v ← Z.opp <$> nonempty_digits r; if (- 2 ^ 63 <=? v) && (v <? 2 ^ 63) then Some v else None)) as -> by done.
  rewrite itoa_digits by lia. cbn [fmap option_fmap option_map mbind option_bind]. change (- Z.pos p) with (Z.neg p).
  by rewrite (proj2 (Z.leb_le _ _)), (proj2 (Z.ltb_lt _ _)) by lia.
Qed.
Lemma numC_lawful lo hi : - 2 ^ 63 <= lo -> hi < 2 ^ 63 -> lawful_codec (numC lo hi).
Proof.
  intros H1 H2 n Hn r. cbn in Hn |- *. rewrite Atoi_itoa_int by lia.
  by rewrite (proj2 (Z.leb_le _ _)), (proj2 (Z.leb_le _ _)) by lia.
Qed.
Lemma dec_list_ok {A} (c : Codec A) r l : Forall (codec_ok c) l -> dec_list (dec c r) (enc c <$> l) = inr l.
Proof. induction 1 as [|a l Ha _ IH]; [done|]. cbn. by rewrite Ha, IH. Qed.
Lemma sliceC_lawful {A} (c : Codec A) o : lawful_codec c -> valid (sliceC c) o -> o <> None -> codec_ok (sliceC c) o.
Proof.
  intros L V N r. destruct o as [l|]; [|done]. cbn in V |- *. rewrite dec_list_ok; [done|]. eapply Forall_impl; [exact V|apply L].
Qed.
Lemma mappingC_lawful : lawful_codec mappingC.
Proof.
  intros [[n a]|] _ r; [|done]. cbn. unfold omitempty. cbn.
  destruct (decide (n = EmptyString)) as [->|?], (decide (a = EmptyString)) as [->|?]; repeat (rewrite ?bool_decide_eq_true_2, ?bool_decide_eq_false_2 by done); done.
Qed.

(** What is relied on in the other codecs. *)
Class ConfigLaws `{ConfigCodecs} := {
  durationC_lawful : lawful_codec durationC;
  levelC_lawful : lawful_codec levelC;
  prefixC_lawful : lawful_codec prefixC;
  addrC_lawful : lawful_codec addrC;
  addrPortC_lawful : lawful_codec addrPortC;
  quantityC_lawful : lawful_codec quantityC
}.

(** ** What is written is read back *)
Definition reads_back {S} (dflt : S) (f : Field S) : Prop :=
  forall g s, f_valid f (f_get f s) -> f_isDefault dflt g s f = false -> field_ok dflt f g (f_get f s).
Lemma plain_reads_back {S A} `{EqDecision A} (dflt : S) (c : Codec A) name tag get set : lawful_codec c -> reads_back dflt (plain c name tag get set).
Proof. intros L g s V _ r. exists g, (get s). cbn. by rewrite L. Qed.
Lemma slice_reads_back {S A} `{EqDecision A} (dflt : S) (c : Codec A) name tag get set :
  lawful_codec c -> get dflt = None -> reads_back dflt (plain (sliceC c) name tag get set).
Proof.
  intros L N g s V D r. apply bool_decide_eq_false in D. cbn in V, D. exists g, (get s). split; [|done]. unfold plain, f_dec, f_enc.
  rewrite sliceC_lawful; [done|done|done|]. cbn. congruence.
Qed.
Lemma nested_reads_back {S A} `{DefaultsAware A, !LawfulFields (fields (S := A)), EqDecision A} (dflt : S) name tag get set :
  Forall plain_like (fields (S := A)) -> Forall (reads_back defaults) (fields (S := A)) -> get dflt = defaults ->
  reads_back dflt (nested name tag get set).
Proof.
  intros P R E g s V _ r. exists g, (get s). split; [|done]. cbn. rewrite E.
  apply plain_roundtrip; [by apply Forall_forall|]. intros f Hf. rewrite Forall_forall in R. apply R; [done|].
  cbn in V. unfold section_valid in V. rewrite Forall_forall in V. by apply V.
Qed.

(** The elements end up in the shared array, or in a new one when there is no room. *)
Lemma write_elems_ok r l i g :
  exists g', write_elems r (JStr <$> l) i g = (g', inr l) /\ length g' = length g /\ take i g' = take i g /\
    (i + length l <= length g -> take (length l) (drop i g') = l)%nat.
Proof.
  revert i g. induction l as [|s l IH]; intros i g; [exists g; by rewrite take_0|].
  change (write_elems r (JStr <$> s :: l) i g) with
    (match write_elems r (JStr <$> l) (S i) (<[i := s]> g) with (g, inl e) => (g, inl e) | (g, inr ss) => (g, inr (s :: ss)) end).
  destruct (IH (S i) (<[i := s]> g)) as (g' & -> & L & T & W). rewrite length_insert in L, W. exists g'. split; [done|]. split; [done|]. split.
  - apply (f_equal (take i)) in T. rewrite !take_take in T. rewrite Nat.min_l in T by lia. by rewrite take_insert_ge in T by lia.
  - intros Hle. cbn [length] in Hle |- *. specialize (W ltac:(lia)).
    assert (g' !! i = Some s) as Hi.
    { rewrite <- (lookup_take_lt g' (S i) i) by lia. rewrite T, lookup_take_lt by lia. apply list_lookup_insert_eq. lia. }
    rewrite (drop_S g' s i Hi). cbn [take]. by rewrite W.
Qed.
Lemma nonempty_written r x l n g :
  exists g1 t, dec_suffixes r (JArr (JStr <$> x :: l)) (Shared n) g = (g1, inr t) /\ deref g1 t = Own (x :: l).
Proof.
  destruct (write_elems_ok r (x :: l) 0 g) as (g' & W & _ & _ & H). rewrite drop_0 in H.
  change (dec_suffixes r (JArr (JStr <$> x :: l)) (Shared n) g) with
    (match write_elems r (JStr <$> x :: l) 0 g with
     | (g', inl e) => (g', inl e)
     | (g', inr ss) => (g', inr (if Nat.leb (length (JStr <$> x :: l)) (length g) then Shared (length (JStr <$> x :: l)) else Own ss))
     end).
  rewrite W, length_fmap. destruct (Nat.leb_spec (length (x :: l)) (length g)) as [Hle|Hgt].
  - exists g', (Shared (length (x :: l))). split; [done|]. cbn [deref]. by rewrite H.
  - by exists g', (Own (x :: l)).
Qed.
Lemma suffix_reads_back {T} (dflt : T) name tag get set n : get dflt = Shared n -> reads_back dflt (suffixField name tag get set).
Proof.
  intros E g s V D r. cbn in *. rewrite E. clear E D. destruct (get s) as [|len|l]; [done| |]; unfold elems; cbn [deref].
  - remember (take len g) as l eqn:El. assert (length l <= length g)%nat as Hl by (subst l; rewrite length_take; lia). clear El.
    destruct l as [|x l]; [by exists g, (Own [])|]. exact (nonempty_written r x l n g).
  - destruct l as [|x l]; [by exists g, (Own [])|]. exact (nonempty_written r x l n g).
Qed.

Section RoundTrip.
Context {CC : ConfigCodecs} {CL : ConfigLaws}.
Ltac reads_back_tac :=
  over_fields ltac:(first
    [ apply slice_reads_back;
      [first [exact stringC_lawful | exact prefixC_lawful | exact addrPortC_lawful | exact mappingC_lawful] | reflexivity]
    | apply plain_reads_back;
      first [exact boolC_lawful | exact stringC_lawful | exact durationC_lawful | exact levelC_lawful | exact prefixC_lawful | exact addrC_lawful
            | exact addrPortC_lawful | exact quantityC_lawful | apply numC_lawful; done]
    | eapply suffix_reads_back; reflexivity ]).
Lemma Timeouts_reads : Forall (reads_back defaults) (fields (S := Timeouts)).
Proof. reads_back_tac. Qed.
Lemma LogLevels_reads : Forall (reads_back defaults) (fields (S := LogLevels)).
Proof. reads_back_tac. Qed.
Lemma Usage_reads : Forall (reads_back defaults) (fields (S := Usage)).
Proof. reads_back_tac. Qed.
Lemma Images_reads : Forall (reads_back defaults) (fields (S := Images)).
Proof. reads_back_tac. Qed.
Lemma Grpc_reads : Forall (reads_back defaults) (fields (S := Grpc)).
Proof. reads_back_tac. Qed.
Lemma Intercept_reads : Forall (reads_back defaults) (fields (S := Intercept)).
Proof. reads_back_tac. Qed.
Lemma Cluster_reads : Forall (reads_back defaults) (fields (S := Cluster)).
Proof. reads_back_tac. Qed.
Lemma Telemount_reads : Forall (reads_back defaults) (fields (S := Telemount)).
Proof. reads_back_tac. Qed.
Lemma Teleroute_reads : Forall (reads_back defaults) (fields (S := Teleroute)).
Proof. reads_back_tac. Qed.
Lemma Docker_reads : Forall (reads_back defaults) (fields (S := Docker)).
Proof.
  over_fields ltac:(first [apply plain_reads_back; first [exact boolC_lawful | exact stringC_lawful] | apply nested_reads_back;
    [first [exact Telemount_plain | exact Teleroute_plain] | first [exact Telemount_reads | exact Teleroute_reads] | reflexivity]]).
Qed.
Lemma Helm_reads : Forall (reads_back defaults) (fields (S := Helm)).
Proof. reads_back_tac. Qed.
Lemma Routing_reads : Forall (reads_back defaults) (fields (S := Routing)).
Proof. reads_back_tac. Qed.
Lemma DNS_reads : Forall (reads_back defaults) (fields (S := DNS)).
Proof. reads_back_tac. Qed.
End RoundTrip.

Section Theorems.
Context {CC : ConfigCodecs} {CL : ConfigLaws}.
(** What a configuration says, whoever owns the arrays. *)
Definition config_view (g : array) (x : config) : config :=
  let '(mkConfig a b c d e f h i j k l) := x in mkConfig a (DNS_view g b) c d e f h i j k l.
Definition config_valid (c : config) : Prop := Forall (fun f : Field config => f_valid f (f_get f c)) config_fields.*1.

(** A section of a configuration is omitted because it says what the defaults say, or it is
    written and read back. *)
Definition section_kept (r : bool) (g : array) (c : config) (fz : Field config * (array -> config -> bool)) : Prop :=
  (fz.2 g c = true -> f_view fz.1 g (f_get fz.1 c) = f_view fz.1 g (f_get fz.1 defaultConfig)) /\
  (fz.2 g c = false -> exists g1 t, f_dec fz.1 r (f_enc fz.1 g (f_get fz.1 c)) (f_get fz.1 defaultConfig) g = (g1, inr t) /\
                                  f_view fz.1 g1 t = f_view fz.1 g (f_get fz.1 c)).
Lemma elem_of_marshalled g c k v (l : list (Field config * (array -> config -> bool))) :
  (k, v) ∈ omap (fun fz : Field config * (array -> config -> bool) => if fz.2 g c then None else Some (f_name fz.1, f_enc fz.1 g (f_get fz.1 c))) l <->
  exists fz, fz ∈ l /\ fz.2 g c = false /\ k = f_name fz.1 /\ v = f_enc fz.1 g (f_get fz.1 c).
Proof.
  rewrite list_elem_of_omap. split.
  - intros (fz & Hin & E). exists fz. destruct (fz.2 g c); [done|]. by injection E as <- <-.
  - intros (fz & Hin & Z & -> & ->). exists fz. split; [done|]. by rewrite Z.
Qed.
Lemma marshalled_names g c (l : list (Field config * (array -> config -> bool))) :
  (omap (fun fz : Field config * (array -> config -> bool) => if fz.2 g c then None else Some (f_name fz.1, f_enc fz.1 g (f_get fz.1 c))) l).*1
    `sublist_of` (f_name <$> l.*1).
Proof.
  induction l as [|fz l IH]; [done|]. cbn. destruct (fz.2 g c); cbn; by constructor.
Qed.
Lemma config_sections_roundtrip r g c :
  Forall (section_kept r g c) config_fields ->
  exists g1 c1, Unmarshal r (Marshal g c) defaultConfig g = (g1, inr c1) /\
    forall f, f ∈ config_fields.*1 -> f_view f g1 (f_get f c1) = f_view f g (f_get f c).
Proof.
  rewrite Forall_forall. intros K. cbn [Unmarshal Marshal].
  match goal with |- context [dec_members _ r ?l _ _] => set (ms := l) end.
  destruct (dec_members_ok config_fields.*1 r ms defaultConfig g) as (g1 & c1 & E & K1 & K2 & K3).
  { eapply sublist_NoDup; [exact (lf_names (fs := config_fields.*1))|apply marshalled_names]. }
  { intros k v (fz & Hin & Z & -> & ->)%elem_of_marshalled. destruct (K fz Hin) as [_ H]. destruct (H Z) as (g1 & t & Ed & _).
    exists fz.1, t, g1. split; [|done]. apply list_elem_of_fmap. by exists fz. }
  exists g1, c1. split; [done|]. intros f (fz & -> & Hin)%list_elem_of_fmap. destruct (K fz Hin) as [HT HF].
  assert (fz.1 ∈ config_fields.*1) as Hf by (apply list_elem_of_fmap; by exists fz).
  destruct (fz.2 g c) eqn:Z.
  - assert (f_name fz.1 ∉ ms.*1) as Hn.
    { intros ([k v] & Hk & H)%list_elem_of_fmap. cbn in Hk. subst k. apply elem_of_marshalled in H as (fz' & Hin' & Z' & En & _).
      assert (fz' = fz) as ->; [|congruence].
      apply (nodup_key (fun fz : Field config * (array -> config -> bool) => f_name fz.1) config_fields); [|done..]. exact (lf_names (fs := config_fields.*1)). }
    rewrite K1, HT by done. destruct (lf_array (fs := config_fields.*1)) as [h Hh].
    destruct (decide (f_name fz.1 = h)) as [<-|Hne]; [by rewrite (K3 (f_name fz.1))|]. destruct (Hh fz.1 Hf Hne) as [_ P]. by rewrite !P.
  - destruct (HF eq_refl) as (gf & t & Ed & V). destruct (K2 fz.1 (f_enc fz.1 g (f_get fz.1 c)) t gf Hf) as [-> G]; [|done|].
    { apply elem_of_marshalled. eauto. }
    destruct G as [[_ P]| ->]; [|done]. rewrite P, <- V. by rewrite P.
Qed.

(** The reading of a DNS section. *)
Lemma upgrade_suffixes x d : DNS_upgrade (set_ExcludeSuffixes x d) = set_ExcludeSuffixes x (DNS_upgrade d).
Proof.
  assert (forall d, upgrade_LocalIP (set_ExcludeSuffixes x d) = set_ExcludeSuffixes x (upgrade_LocalIP d)) as E1
    by (intros []; unfold upgrade_LocalIP; cbn; by destruct (_ && _)).
  assert (forall d, upgrade_LocalAddress (set_ExcludeSuffixes x d) = set_ExcludeSuffixes x (upgrade_LocalAddress d)) as E2
    by (intros []; unfold upgrade_LocalAddress; cbn; by destruct (_ && _)).
  assert (forall d, upgrade_RemoteIP (set_ExcludeSuffixes x d) = set_ExcludeSuffixes x (upgrade_RemoteIP d)) as E3
    by (intros []; unfold upgrade_RemoteIP; cbn; by destruct (_ && _)).
  unfold DNS_upgrade. by rewrite E1, E2, E3.
Qed.
Lemma DNS_roundtrip r g (d : DNS) :
  section_valid d -> DNS_upgrade d = d ->
  exists g1 d1, DNS_UnmarshalJSONFrom r (MarshalJSONTo g d) defaults g = (g1, inr d1) /\ DNS_view g1 d1 = DNS_view g d.
Proof.
  intros V U. destruct (section_roundtrip r g d) as (g1 & d1 & E & W).
  { intros f Hf D. pose proof DNS_reads as R. rewrite Forall_forall in R. apply R; [done| |done]. unfold section_valid in V. rewrite Forall_forall in V. by apply V. }
  unfold DNS_UnmarshalJSONFrom. rewrite E. exists g1, (DNS_upgrade d1). split; [done|].
  assert (DNS_view g1 d1 = DNS_view g d) as H.
  { clear - W. rewrite <- Forall_forall in W. destruct d, d1. unfold DNS_view. repeat (apply Forall_cons in W as [? W]). cbn in *. by f_equal. }
  assert (d1 = set_ExcludeSuffixes (d_ExcludeSuffixes d1) d) as Ed.
  { clear - H. destruct d, d1. unfold DNS_view in H. cbn in *. injection H. intros. by subst. }
  assert (DNS_upgrade d1 = d1) as ->; [|done]. rewrite Ed at 1. by rewrite upgrade_suffixes, U.
Qed.
Lemma section_kept_plain {A} `{DefaultsAware A, !LawfulFields (fields (S := A)), EqDecision A} r g c name tag (get : config -> A) set :
  Forall plain_like (fields (S := A)) -> Forall (reads_back defaults) (fields (S := A)) -> get defaultConfig = defaults -> section_valid (get c) ->
  section_kept r g c (section name tag get set, fun _ c => isDefault (get c)).
Proof.
  intros P R E V. split; cbn.
  - intros ->%bool_decide_eq_true. done.
  - intros _. rewrite E. exists g, (get c). split; [|done]. apply plain_roundtrip; [by apply Forall_forall|]. intros f Hf. rewrite Forall_forall in R. apply R; [done|].
    unfold section_valid in V. rewrite Forall_forall in V. by apply V.
Qed.

(** C23. A configuration that is written and read again says the same, when the DNS section is not
    one that is wrongly taken for the default and holds no deprecated address that is to be
    replaced. *)
Theorem config_roundtrip (r : bool) (g : array) (c : config) :
  config_valid c -> DNS_upgrade (c_DNS c) = c_DNS c ->
  (DNS_Equal_defaults g (c_DNS c) = true -> DNS_view g (c_DNS c) = DNS_view g defaults) ->
  exists g1 c1, Unmarshal r (Marshal g c) defaultConfig g = (g1, inr c1) /\ config_view g1 c1 = config_view g c.
Proof.
  intros V U Z. destruct (config_sections_roundtrip r g c) as (g1 & c1 & E & W).
  { unfold config_valid in V. destruct c. cbn in V. repeat (apply Forall_cons in V as [? V]). cbn in *.
    over_fields ltac:(first [apply section_kept_plain; [first
        [exact Cluster_plain | exact Docker_plain | exact Grpc_plain | exact Helm_plain | exact Images_plain | exact Intercept_plain
        | exact LogLevels_plain | exact Routing_plain | exact Timeouts_plain | exact Usage_plain] | first
        [exact Cluster_reads | exact Docker_reads | exact Grpc_reads | exact Helm_reads | exact Images_reads | exact Intercept_reads
        | exact LogLevels_reads | exact Routing_reads | exact Timeouts_reads | exact Usage_reads] | reflexivity | assumption]
      | split; [exact Z | intros _; by apply DNS_roundtrip]]). }
  exists g1, c1. split; [done|]. clear - W. rewrite <- Forall_forall in W. destruct c, c1. unfold config_view. repeat (apply Forall_cons in W as [? W]). cbn in *. by subst; f_equal.
Qed.
End Theorems.

(** ** Layers *)
(** The last value that is set. *)
Definition last_set {A} (unset : A -> bool) (dflt : A) (l : list A) : A := foldl (fun acc a => if unset a then acc else a) dflt l.
Lemma last_set_snoc {A} unset (dflt : A) l a : last_set unset dflt (l ++ [a]) = if unset a then last_set unset dflt l else a.
Proof. unfold last_set. by rewrite foldl_app. Qed.
(** What the last of several sections with another value than the default has. *)
Definition layered {S} `{DefaultsAware S} (f : Field S) (layers : list S) : f_T f :=
  last_set (fun v => bool_decide (v = f_get f defaults)) (f_get f defaults) (f_get f <$> layers).
Definition follows {S} `{DefaultsAware S} (s : S) (layers : list S) (but : string) : Prop :=
  forall f, f ∈ fields -> f_name f <> but -> f_get f s = layered f layers.
Lemma follows_merge {S} `{DefaultsAware S, !LawfulFields fields} g (t s : S) layers but :
  Forall (fun f => plain_like f \/ f_name f = but) (fields (S := S)) -> follows t layers but -> follows (mergeNonDefaults g t s) (layers ++ [s]) but.
Proof.
  intros HP F f Hf Hb. rewrite Forall_forall in HP. assert (P : plain_like f) by (by destruct (HP f Hf)). rewrite mergeNonDefaults_get by done. unfold layered. rewrite fmap_app. cbn. rewrite last_set_snoc.
  unfold f_isDefault. pose proof P as [_ V]. rewrite !V. case_bool_decide; [by apply F|done].
Qed.

Section Loading.
Context {CC : ConfigCodecs}.
Definition given (f : Routing -> option (list Prefix)) (layers : list Routing) : option (list Prefix) :=
  last_set (fun o => negb (nonempty o)) None (f <$> layers).
(** A configuration that comes from layers.  The field [but] of the usage section is not
    determined by them. *)
Record from_layers (cfg : config) (layers : list config) (but : string) : Prop := {
  fl_Cluster : follows (c_Cluster cfg) (c_Cluster <$> layers) "";
  fl_DNS : follows (c_DNS cfg) (c_DNS <$> layers) "excludeSuffixes";
  fl_Docker : follows (c_Docker cfg) (c_Docker <$> layers) "";
  fl_Grpc : follows (c_Grpc cfg) (c_Grpc <$> layers) "";
  fl_Helm : follows (c_Helm cfg) (c_Helm <$> layers) "";
  fl_Images : follows (c_Images cfg) (c_Images <$> layers) "";
  fl_Intercept : follows (c_Intercept cfg) (c_Intercept <$> layers) "";
  fl_LogLevels : follows (c_LogLevels cfg) (c_LogLevels <$> layers) "";
  fl_Usage : follows (c_Usage cfg) (c_Usage <$> layers) but;
  fl_Timeouts : follows (c_Timeouts cfg) (c_Timeouts <$> layers) "connectivityCheck";
  fl_ConnectivityCheck : to_ConnectivityCheck (c_Timeouts cfg) =
    Z.min maxTimeoutsConnectivityCheck (last_set (fun v => v =? 500 * millisecond) (500 * millisecond) (to_ConnectivityCheck ∘ c_Timeouts <$> layers));
  fl_Subnets : ro_Subnets (c_Routing cfg) = given ro_Subnets (c_Routing <$> layers);
  fl_AlsoProxy : ro_AlsoProxy (c_Routing cfg) = given (fun r => or_else (ro_AlsoProxy r) (ro_OldAlsoProxy r)) (c_Routing <$> layers);
  fl_NeverProxy : ro_NeverProxy (c_Routing cfg) = given (fun r => or_else (ro_NeverProxy r) (ro_OldNeverProxy r)) (c_Routing <$> layers);
  fl_AllowConflicting :
    ro_AllowConflicting (c_Routing cfg) = given (fun r => or_else (ro_AllowConflicting r) (ro_OldAllowConflicting r)) (c_Routing <$> layers);
  fl_VirtualSubnet : ro_VirtualSubnet (c_Routing cfg) =
    last_set (fun v => bool_decide (v = defaultVirtualSubnet)) defaultVirtualSubnet (ro_VirtualSubnet ∘ c_Routing <$> layers);
  fl_AutoResolveConflicts : ro_AutoResolveConflicts (c_Routing cfg) = forallb (ro_AutoResolveConflicts ∘ c_Routing) layers;
  fl_UseTAP : ro_UseTAP (c_Routing cfg) = existsb (ro_UseTAP ∘ c_Routing) layers
}.
Lemma from_no_layers but : from_layers defaultConfig [] but.
Proof. by split. Qed.
Lemma first_of_or {A} (a b c : option (list A)) : first_of a b c = if negb (nonempty (or_else a b)) then c else or_else a b.
Proof. unfold first_of, or_else. destruct (nonempty a) eqn:Ea; [by rewrite Ea|]. by destruct (nonempty b). Qed.
Lemma ConnectivityCheck_other f x t : f ∈ fields -> f_name f <> "connectivityCheck"%string -> f_get f (set_ConnectivityCheck x t) = f_get f t.
Proof.
  assert (Forall (fun f => f_get f (set_ConnectivityCheck x t) = f_get f t \/ f_name f = "connectivityCheck"%string) (fields (S := Timeouts))) as F.
  { over_fields ltac:(first [right; reflexivity | left; destruct t; reflexivity]). }
  rewrite Forall_forall in F. intros Hf Hn. by destruct (F f Hf).
Qed.
Lemma ConnectivityCheck_merge g t o :
  to_ConnectivityCheck (Timeouts_merge g t o) =
  Z.min maxTimeoutsConnectivityCheck (if to_ConnectivityCheck o =? 500 * millisecond then to_ConnectivityCheck t else to_ConnectivityCheck o).
Proof.
  assert (to_ConnectivityCheck (mergeNonDefaults g t o) = if to_ConnectivityCheck o =? 500 * millisecond then to_ConnectivityCheck t else to_ConnectivityCheck o) as E.
  { destruct (fields (S := Timeouts) !! 1%nat) as [f|] eqn:Ef; [|done]. pose proof (mergeNonDefaults_get g t o f (list_elem_of_lookup_2 _ _ _ Ef)) as M.
    injection Ef as <-. revert M. generalize (mergeNonDefaults g t o) as u. intros u M. unfold f_isDefault in M. cbn in M. rewrite M.
    case_bool_decide as B; [by rewrite B, Z.eqb_refl|]. by rewrite (proj2 (Z.eqb_neq _ _) B). }
  unfold Timeouts_merge. rewrite <- E. destruct (Z.ltb_spec maxTimeoutsConnectivityCheck (to_ConnectivityCheck (mergeNonDefaults g t o))) as [Hlt|Hge].
  - rewrite Z.min_l by lia. by destruct (mergeNonDefaults g t o).
  - by rewrite Z.min_r by lia.
Qed.
Lemma plain_but {S} (fs : list (Field S)) but : Forall plain_like fs -> Forall (fun f => plain_like f \/ f_name f = but) fs.
Proof. intros H. eapply Forall_impl; [exact H|by left]. Qed.
Lemma DNS_plain_but : Forall (fun f => plain_like f \/ f_name f = "excludeSuffixes"%string) (fields (S := DNS)).
Proof. over_fields ltac:(first [left; apply plain_plain | right; reflexivity]). Qed.
Lemma from_layers_snoc g cfg p layers but : from_layers cfg layers but -> from_layers (DestructiveMerge g cfg p) (layers ++ [p]) but.
Proof.
  intros [H1 H2 H3 H4 H5 H6 H7 H8 H9 H10 H11 H12 H13 H14 H15 H16 H17 H18].
  split; rewrite ?fmap_app; cbn [DestructiveMerge c_Cluster c_DNS c_Docker c_Grpc c_Helm c_Images c_Intercept c_LogLevels c_Usage c_Timeouts c_Routing
    fmap list_fmap Routing_merge ro_Subnets ro_AlsoProxy ro_NeverProxy ro_AllowConflicting ro_VirtualSubnet ro_AutoResolveConflicts ro_UseTAP];
    try (apply follows_merge; [first [exact DNS_plain_but | apply plain_but, Cluster_plain | apply plain_but, Docker_plain | apply plain_but, Grpc_plain |
      apply plain_but, Helm_plain | apply plain_but, Images_plain | apply plain_but, Intercept_plain | apply plain_but, LogLevels_plain | apply plain_but, Usage_plain]|done]).
  - intros f Hf Hn. unfold Timeouts_merge. rewrite <- (follows_merge g (c_Timeouts cfg) (c_Timeouts p) _ _ (plain_but _ _ Timeouts_plain) H10 f Hf Hn).
    destruct (_ <? _); [by apply ConnectivityCheck_other|done].
  - rewrite ConnectivityCheck_merge, H11. cbn. rewrite last_set_snoc. destruct (_ =? _); lia.
  - unfold given in *. rewrite fmap_app. cbn. rewrite last_set_snoc, <- H12. by destruct (nonempty _).
  - unfold given in *. rewrite fmap_app. cbn. rewrite last_set_snoc, <- H13. apply first_of_or.
  - unfold given in *. rewrite fmap_app. cbn. rewrite last_set_snoc, <- H14. apply first_of_or.
  - unfold given in *. rewrite fmap_app. cbn. rewrite last_set_snoc, <- H15. apply first_of_or.
  - cbn. rewrite last_set_snoc, <- H16. by repeat case_bool_decide.
  - rewrite forallb_app. cbn. rewrite <- H17. by destruct (ro_AutoResolveConflicts (c_Routing p)), (ro_AutoResolveConflicts (c_Routing cfg)).
  - rewrite existsb_app. cbn. rewrite <- H18. by destruct (ro_UseTAP (c_Routing p)), (ro_UseTAP (c_Routing cfg)).
Qed.

(** The configurations that the files hold. *)
Definition parse_file (f : file) (g : array) : array * (config_error + list config) :=
  match f with
  | NotExist => (g, inr [])
  | Unreadable => (g, inl EReadFile)
  | Contents data => match ParseConfigYAML data g with (g, inl e) => (g, inl e) | (g, inr c) => (g, inr [c]) end
  end.
Definition layers_of (dk : disk) (g : array) : array * (config_error + list config) :=
  match dk_pinned dk with
  | Some f => parse_file f g
  | None => match parse_file (dk_system dk) g with
            | (g, inl e) => (g, inl e)
            | (g, inr l) => match parse_file (dk_user dk) g with (g, inl e) => (g, inl e) | (g, inr l') => (g, inr (l ++ l')) end
            end
  end.
Lemma merge_file f cfg g layers but :
  from_layers cfg layers but ->
  match parse_file f g with
  | (g1, inl e) => mergeConfigFile f cfg g = (g1, inl e)
  | (g1, inr l) => exists cfg1, mergeConfigFile f cfg g = (g1, inr cfg1) /\ from_layers cfg1 (layers ++ l) but
  end.
Proof.
  intros F. destruct f as [| |data]; cbn; [exists cfg; by rewrite app_nil_r|done|].
  destruct (ParseConfigYAML data g) as [g1 [e|p]]; [done|]. eexists. split; [done|]. by apply from_layers_snoc.
Qed.
Lemma from_layers_but cfg layers x :
  from_layers cfg layers "" -> from_layers (set_UsageEnabled x cfg) layers "enabled".
Proof.
  intros []. destruct cfg as [a b c d e f g h i j u]. split; cbn in *; try done.
  assert (Forall (fun f => f_get f (mkUsage x (us_CollectorAddress u) (us_Insecure u)) = f_get f u \/ f_name f = "enabled"%string) (fields (S := Usage))) as F.
  { destruct u. over_fields ltac:(first [right; reflexivity | left; reflexivity]). }
  rewrite Forall_forall in F. intros f' Hf Hn. destruct (F f' Hf) as [->|?]; [|done]. apply fl_Usage0; [done|].
  by apply (lf_named (fs := fields)).
Qed.

End Loading.

Section Uses.
Context {CC : ConfigCodecs}.
(** ** The traffic-manager's configuration *)
Definition prefers {S} `{DefaultsAware S} (result local base : S) (but : string) : Prop :=
  forall f, f ∈ fields -> plain_like f -> f_name f <> but ->
    f_get f result = if bool_decide (f_get f local = f_get f defaults) then f_get f base else f_get f local.
Lemma prefers_merge {S} `{DefaultsAware S, !LawfulFields fields} g (t s : S) but : prefers (mergeNonDefaults g t s) s t but.
Proof. intros f Hf [_ V] _. rewrite mergeNonDefaults_get by done. unfold f_isDefault. by rewrite !V. Qed.
Lemma MappedNamespaces_other f x (c : Cluster) : f ∈ fields -> f_name f <> "mappedNamespaces"%string ->
  f_get f (let '(mkCluster a _ d e h) := c in mkCluster a x d e h) = f_get f c.
Proof.
  assert (Forall (fun f => f_get f (let '(mkCluster a _ d e h) := c in mkCluster a x d e h) = f_get f c \/ f_name f = "mappedNamespaces"%string) (fields (S := Cluster))) as F.
  { destruct c. over_fields ltac:(first [right; reflexivity | left; reflexivity]). }
  rewrite Forall_forall in F. intros Hf Hn. by destruct (F f Hf).
Qed.
Lemma in_union_app l l' ip : in_union (l ++ l') ip <-> in_union l ip \/ in_union l' ip.
Proof. unfold in_union. set_solver. Qed.
Lemma append_default {A} (o : option (list A)) l : default [] (append o l) = default [] o ++ l.
Proof. by destruct o, l. Qed.

(** What is configured locally takes priority over what the traffic-manager configures.  The
    mapped namespaces are the local ones, and the subnets that are never proxied are those of
    both. *)
Theorem updateClientConfig_correct (yaml : string) (cfg tm : config) (g g1 : array) :
  ParseConfigYAML yaml g = (g1, inr tm) ->
  Forall pfx_wf (default [] (or_else (ro_NeverProxy (c_Routing cfg)) (ro_OldNeverProxy (c_Routing cfg)))) ->
  Forall pfx_wf (default [] (ro_NeverProxy (c_Routing tm))) ->
  exists cfg', updateClientConfig (Some yaml) cfg g = (g1, (cfg', Some (default [] (cl_MappedNamespaces (c_Cluster tm))))) /\
    prefers (c_Cluster cfg') (c_Cluster cfg) (c_Cluster tm) "mappedNamespaces" /\ prefers (c_DNS cfg') (c_DNS cfg) (c_DNS tm) "" /\
    prefers (c_Docker cfg') (c_Docker cfg) (c_Docker tm) "" /\ prefers (c_Grpc cfg') (c_Grpc cfg) (c_Grpc tm) "" /\
    prefers (c_Helm cfg') (c_Helm cfg) (c_Helm tm) "" /\ prefers (c_Images cfg') (c_Images cfg) (c_Images tm) "" /\
    prefers (c_Intercept cfg') (c_Intercept cfg) (c_Intercept tm) "" /\ prefers (c_LogLevels cfg') (c_LogLevels cfg) (c_LogLevels tm) "" /\
    prefers (c_Usage cfg') (c_Usage cfg) (c_Usage tm) "" /\ prefers (c_Timeouts cfg') (c_Timeouts cfg) (c_Timeouts tm) "connectivityCheck" /\
    cl_MappedNamespaces (c_Cluster cfg') = cl_MappedNamespaces (c_Cluster cfg) /\
    forall ip, in_union (default [] (ro_NeverProxy (c_Routing cfg'))) ip <->
      in_union (default [] (or_else (ro_NeverProxy (c_Routing cfg)) (ro_OldNeverProxy (c_Routing cfg)))) ip \/ in_union (default [] (ro_NeverProxy (c_Routing tm))) ip.
Proof.
  intros E W1 W2. unfold updateClientConfig. rewrite E. eexists. split; [done|].
  destruct tm as [ta tb tc td te tf th ti tj tk tl], cfg as [a b c d e f h i j k l].
  unfold Merge, DestructiveMerge, set_MappedNamespaces, set_Cluster, set_Routing in *.
  cbn [c_Cluster c_DNS c_Docker c_Grpc c_Helm c_Images c_Intercept c_LogLevels c_Usage c_Timeouts c_Routing] in *.
  destruct (mergeNonDefaults g1 ta a) as [m1 m2 m3 m4 m5] eqn:EC.
  cbn [c_Cluster c_DNS c_Docker c_Grpc c_Helm c_Images c_Intercept c_LogLevels c_Usage c_Timeouts c_Routing].
  split_and!; try apply prefers_merge; [| |done|].
  - intros f0 Hf P Hn. rewrite <- (prefers_merge g1 ta a "mappedNamespaces" f0 Hf P Hn), EC.
    exact (MappedNamespaces_other f0 (cl_MappedNamespaces a) (mkCluster m1 m2 m3 m4 m5) Hf Hn).
  - intros f0 Hf P Hn. rewrite <- (prefers_merge g1 tk k "connectivityCheck" f0 Hf P Hn). unfold Timeouts_merge.
    destruct (_ <? _); [by apply ConnectivityCheck_other|done].
  - intros ip. cbn [set_NeverProxy ro_NeverProxy Routing_merge].
    rewrite first_of_or. set (own := or_else (ro_NeverProxy j) (ro_OldNeverProxy j)) in *.
    assert (forall o : option (list Prefix), default [] (Unique <$> o) = Unique (default [] o)) as -> by (by intros []). rewrite append_default.
    assert (Forall pfx_wf (default [] (if negb (nonempty own) then ro_NeverProxy tj else own) ++ default [] (ro_NeverProxy tj))) as W
      by (apply Forall_app; split; [by destruct (negb _)|done]).
    destruct (Unique_post _ W) as (_ & U & _). rewrite <- U, in_union_app. destruct own as [[|x l0]|]; cbn [nonempty negb default]; [|done|].
    + split; [tauto|]. intros [(p & Hp & _)|?]; [by apply elem_of_nil in Hp|by left].
    + split; [tauto|]. intros [(p & Hp & _)|?]; [by apply elem_of_nil in Hp|by left].
Qed.

(** ** Timeouts and the watcher *)
(** The setting that the message of a timeout names is the one that the timeout comes from. *)
Theorem timeout_names (id : TimeoutID) (r : bool) (v : jval) (d : Z) (t : Timeouts) (g : array) :
  id <> TimeoutRoundtripLatency -> dec durationC r v = inr d ->
  exists t', UnmarshalJSONFrom r (JObj [(timeoutError_yamlName id, v)]) t g = (g, inr t') /\ Timeouts_Get t' id = d /\
    forall id', id' <> id -> Timeouts_Get t' id' = Timeouts_Get t id'.
Proof.
  intros Hid E. destruct t. unfold UnmarshalJSONFrom, dec_members. destruct id; try done;
    (match goal with |- context [find_field ?l ?k] => let x := eval hnf in (find_field l k) in change (find_field l k) with x end;
     cbn [f_dec plain f_get f_set]; rewrite E; eexists; split; [done|]; split; [done|]; intros []; done).
Qed.

(** After the file was written, the next time that the timer fires replaces the configuration
    by the one that is loaded then, whatever else happens in between. *)
Theorem watch_reloads (configFile : string) (w : watcher) (op : Z) (evs : list watch_event) (dk : disk) :
  w_running w = true -> Z.land op (Z.lor fsWrite fsCreate) <> 0 ->
  Forall (fun ev => match ev with TimerFires _ | ContextDone => False | _ => True end) evs ->
  let w' := foldl (WatchConfig_step configFile) w (FsEvent op configFile :: evs ++ [TimerFires dk]) in
  match LoadConfig dk (w_array w) with
  | (g, inl _) => w' = mkWatcher (w_config w) g false (w_reloads w) true
  | (g, inr cfg) => w' = mkWatcher cfg g false (S (w_reloads w)) true
  end.
Proof.
  intros R O F w'. subst w'. cbn [foldl]. rewrite foldl_app.
  assert (WatchConfig_step configFile w (FsEvent op configFile) = mkWatcher (w_config w) (w_array w) true (w_reloads w) true) as ->.
  { unfold WatchConfig_step. rewrite R. cbn [negb]. by rewrite bool_decide_eq_true_2, (proj2 (Z.eqb_neq _ _) O) by done. }
  assert (foldl (WatchConfig_step configFile) (mkWatcher (w_config w) (w_array w) true (w_reloads w) true) evs =
          mkWatcher (w_config w) (w_array w) true (w_reloads w) true) as ->.
  { induction F as [|ev evs Hev _ IH]; [done|]. cbn [foldl]. destruct ev as [op' name| | |]; try done. unfold WatchConfig_step at 2. cbn [w_running negb].
    by destruct (_ && _). }
  cbn. by destruct (LoadConfig dk (w_array w)) as [g [e|cfg]].
Qed.
End Uses.

(** ** Examples *)
(** Values are written in a form that is easy to read back; an address is an IPv4 address. *)
Definition sampleAddrC : Codec Addr :=
  mkCodec (fun a => match a with AddrZero => True | Addr4 v => - 2 ^ 63 <= v < 2 ^ 63 | Addr6 _ _ => False end)
    (fun a => match a with Addr4 v => JNum (itoa v) | _ => JNull end)
    (fun _ v => match v with
                | JNull => inr AddrZero
                | JNum t => match Atoi t with Some v => inr (Addr4 v) | None => inl EBad end
                | _ => inl EBad
                end).
Definition with_number {B} (f : Addr -> Z -> B) (addr : B -> Addr) (num : B -> Z) : Codec B :=
  mkCodec (fun b => valid sampleAddrC (addr b) /\ - 2 ^ 63 <= num b < 2 ^ 63)
    (fun b => JArr [enc sampleAddrC (addr b); JNum (itoa (num b))])
    (fun r v => match v with
                | JNull => inr (f AddrZero 0)
                | JArr [x; JNum t] => match dec sampleAddrC r x, Atoi t with inr a, Some n => inr (f a n) | _, _ => inl EBad end
                | _ => inl EBad
                end).
Lemma sampleAddrC_lawful : lawful_codec sampleAddrC.
Proof. intros [|v|] V r; cbn in *; try done. by rewrite Atoi_itoa_int by lia. Qed.
Lemma with_number_lawful {B} f (addr : B -> Addr) num : (forall b, f (addr b) (num b) = b) -> lawful_codec (with_number f addr num).
Proof. intros E b [V N] r. cbn -[sampleAddrC]. rewrite sampleAddrC_lawful by done. rewrite Atoi_itoa_int by lia. by rewrite E. Qed.

(** The files of the examples, by their texts. *)
Definition suffix_file (l : list string) : jval := JObj [("dns"%string, JObj [("excludeSuffixes"%string, JArr (JStr <$> l))])].
Definition ten_eight : Prefix := PrefixFrom (AddrFrom4 [10; 0; 0; 0]) 8.
Definition eleven_eight : Prefix := PrefixFrom (AddrFrom4 [11; 0; 0; 0]) 8.
Definition jprefix (p : Prefix) : jval := enc (with_number Build_Prefix pfx_Addr pfx_Bits) p.
Definition sample_files : list (string * jval) := [
  ("one"%string, suffix_file [".a"%string]); ("other"%string, suffix_file [".b"%string]);
  ("five"%string, suffix_file [".1"; ".2"; ".3"; ".4"; ".5"]%string);
  ("comment"%string, JNull);
  ("registry"%string, JObj [("docker"%string, JObj [("telemount"%string, JObj [("registry"%string, JStr "example.com")])])]);
  ("tag"%string, JObj [("docker"%string, JObj [("telemount"%string, JObj [("tag"%string, JStr "1.0")])])]);
  ("old"%string, JObj [("routing"%string, JObj [("neverProxy"%string, JArr [jprefix ten_eight])])]);
  ("new"%string, JObj [("routing"%string, JObj [("neverProxySubnets"%string, JArr [jprefix eleven_eight])])]);
  ("port"%string, JObj [("intercept"%string, JObj [("defaultPort"%string, JNum "9080")]); ("usage"%string, JObj [("enabled"%string, JBool false)])])].
#[local] Instance sample_codecs : ConfigCodecs := {|
  durationC := intC; levelC := intC; prefixC := with_number Build_Prefix pfx_Addr pfx_Bits; addrC := sampleAddrC;
  addrPortC := with_number Build_AddrPort ap_addr ap_port; Quantity := Z; quantityC := intC; zeroQuantity := 0;
  Quantity_IsZero := fun q => q =? 0; Quantity_AsInt64 := Some;
  YAMLToJSON := fun s => snd <$> head (filter (fun f => f.1 = s) sample_files)
|}.
#[local] Instance sample_laws : ConfigLaws.
Proof. split; try (by apply numC_lawful); [apply with_number_lawful; by intros []|apply sampleAddrC_lawful|apply with_number_lawful; by intros []]. Qed.

Definition sample_config : config :=
  mkConfig (mkCluster "tel2" (Some ["dev"%string]) false true "")
    (mkDNS "" AddrZero AddrZero zeroAddrPort None zeroAddrPort None (Own [".corp"%string]) None (Some [Some (mkMapping "a" "b")]) 0 false true)
    defaults defaults defaults defaults (mkIntercept 9080 false true true "" 0) defaults defaults defaults defaults.
(** The witness of [config_roundtrip]. *)
Lemma config_roundtrip_witness :
  exists g1 c1, Unmarshal true (Marshal DefaultExcludeSuffixes sample_config) defaultConfig DefaultExcludeSuffixes = (g1, inr c1) /\
    config_view g1 c1 = config_view DefaultExcludeSuffixes sample_config.
Proof.
  apply (config_roundtrip true DefaultExcludeSuffixes sample_config).
  - unfold config_valid. repeat (apply Forall_cons; split); try apply Forall_nil; try exact I; cbn; unfold section_valid;
      repeat (apply Forall_cons; split); try apply Forall_nil; try exact I; cbn; try done; try lia; repeat (constructor; cbn; try done; try lia).
  - reflexivity.
  - vm_compute. discriminate.
Defined.

Definition loaded (dk : disk) : array * option config :=
  let '(g, res) := LoadConfig dk DefaultExcludeSuffixes in (g, match res with inl _ => None | inr c => Some c end).
Definition user_file (s : string) : disk := mkDisk None NotExist (Contents s) false.
Definition suffixes_of (x : array * option config) : option (list string) := (fun c => elems x.1 (d_ExcludeSuffixes (c_DNS c))) <$> x.2.

(** The witness of [updateClientConfig_correct]. *)
Lemma updateClientConfig_correct_witness :
  exists cfg', updateClientConfig (Some "port"%string) sample_config DefaultExcludeSuffixes = (DefaultExcludeSuffixes, (cfg', Some [])) /\
    us_Enabled (c_Usage cfg') = false /\ ic_DefaultPort (c_Intercept cfg') = 9080 /\ cl_MappedNamespaces (c_Cluster cfg') = Some ["dev"%string].
Proof.
  destruct (updateClientConfig_correct "port" sample_config
    (let '(mkConfig a b c d e f g h i j k) := defaultConfig in mkConfig a b c d e f (mkIntercept 9080 false true true "" (300 * millisecond)) h i j (mkUsage false "usg.tada.se:443" false))
    DefaultExcludeSuffixes DefaultExcludeSuffixes) as (cfg' & E & _ & _ & _ & _ & _ & _ & HI & _ & HU & _ & M & _).
  - reflexivity.
  - constructor.
  - constructor.
  - exists cfg'. split; [exact E|]. split_and!; [| |exact M].
    + assert (exists f, f ∈ fields (S := Usage) /\ f = plain boolC "Enabled" "enabled" us_Enabled (fun x '(mkUsage _ b c) => mkUsage x b c)) as (f & Hf & ->)
        by (eexists; split; [apply list_elem_of_here|reflexivity]).
      exact (HU _ Hf (plain_plain _ _ _ _ _) ltac:(discriminate)).
    + assert (exists f, f ∈ fields (S := Intercept) /\ f = plain intC "DefaultPort" "defaultPort" ic_DefaultPort (fun x '(mkIntercept _ b c d e f) => mkIntercept x b c d e f)) as (f & Hf & ->)
        by (eexists; split; [apply list_elem_of_here|reflexivity]).
      exact (HI _ Hf (plain_plain _ _ _ _ _) ltac:(discriminate)).
Defined.
(** The witness of [timeout_names]. *)
Lemma timeout_names_witness :
  exists t', UnmarshalJSONFrom true (JObj [("helm"%string, JNum "7")]) defaults [] = (@nil string, inr t') /\ Timeouts_Get t' TimeoutHelm = 7.
Proof.
  destruct (timeout_names TimeoutHelm true (JNum "7") 7 defaults []) as (t' & E & G & _); [discriminate|vm_compute; reflexivity|]. by exists t'.
Defined.
(** The witness of [watch_reloads]. *)
Lemma watch_reloads_witness :
  w_reloads (foldl (WatchConfig_step "f") (mkWatcher defaultConfig DefaultExcludeSuffixes false 0 true) [FsEvent 2 "f"; FsEvent 4 "g"; TimerFires (user_file "port")]) = 1%nat.
Proof.
  pose proof (watch_reloads "f" (mkWatcher defaultConfig DefaultExcludeSuffixes false 0 true) 2 [FsEvent 4 "g"] (user_file "port") eq_refl) as H.
  specialize (H ltac:(vm_compute; discriminate) ltac:(repeat constructor)). cbn [app] in H.
  assert (match LoadConfig (user_file "port") DefaultExcludeSuffixes with (_, inr _) => true | _ => false end = true) as L by (vm_compute; reflexivity).
  cbn [w_array] in H. destruct (LoadConfig (user_file "port") DefaultExcludeSuffixes) as [g [e|c]]; [discriminate L|]. by rewrite H.
Defined.

(** *** What the shared array of the default suffixes does *)
(** The user's file names five suffixes; of a machine's file with one suffix, one remains. *)
Example shared_suffixes_truncated :
  suffixes_of (loaded (mkDisk None (Contents "one") (Contents "five") false)) = Some [".1"%string].
Proof. vm_compute. reflexivity. Qed.
(** A setting that was removed from the file is still there when the file is loaded again. *)
Example removed_suffix_stays :
  let g := (loaded (user_file "one")).1 in
  match LoadConfig (user_file "") g with (g, inr c) => elems g (d_ExcludeSuffixes (c_DNS c)) | _ => [] end = [".a"; ".io"; ".net"; ".org"; ".ru"]%string.
Proof. vm_compute. reflexivity. Qed.
(** The traffic-manager's suffixes replace the local ones, which are to have priority. *)
Example manager_suffixes_win :
  match loaded (user_file "one") with
  | (g, Some c) => let '(g', (c', _)) := updateClientConfig (Some "other"%string) c g in
                   (elems g (d_ExcludeSuffixes (c_DNS c)), elems g' (d_ExcludeSuffixes (c_DNS c')))
  | _ => ([], [])
  end = ([".a"%string], [".b"%string]).
Proof. vm_compute. reflexivity. Qed.

(** *** Other ways in which a configuration is lost *)
(** A file that holds comments only is the JSON value null, and every value is zero. *)
Example comment_zeroes_config :
  option_map (fun c => (c_Timeouts c, us_Enabled (c_Usage c), p_IsValid (ro_VirtualSubnet (c_Routing c)))) (loaded (user_file "comment")).2 =
  Some (mkTimeouts 0 0 0 0 0 0 0 0 0 0 0 0 0, false, false).
Proof. vm_compute. reflexivity. Qed.
(** The complex lookup is not written when it is all that the DNS section says. *)
Example complex_lookup_not_written :
  Marshal DefaultExcludeSuffixes
    (let '(mkConfig a _ c d e f g h i j k) := defaultConfig in
     mkConfig a (mkDNS "" AddrZero AddrZero zeroAddrPort None zeroAddrPort None (Shared 5) None None 0 false true) c d e f g h i j k) = JObj [].
Proof. vm_compute. reflexivity. Qed.
(** The user's tag resets the registry of the machine's file. *)
Example telemount_not_merged :
  option_map (fun c => (tm_Registry (dk_Telemount (c_Docker c)), tm_Tag (dk_Telemount (c_Docker c)))) (loaded (mkDisk None (Contents "registry") (Contents "tag") false)).2 =
  Some ("ghcr.io", "1.0")%string.
Proof. vm_compute. reflexivity. Qed.
(** The message of a timeout names a setting that does not exist. *)
Example roundtripDelay_unknown :
  (UnmarshalJSONFrom true (JObj [(timeoutError_yamlName TimeoutRoundtripLatency, JNum "1")]) (defaults (S := Timeouts)) []).2 = inl EUnknown.
Proof. vm_compute. reflexivity. Qed.

Definition quoted (s : string) : string := String DQUOTE (s +:+ String DQUOTE "").
Definition extension (key : string) : string :=
  "{" +:+ quoted "routing" +:+ ":{" +:+ quoted key +:+ ":[[167772160,8]]}," +:+ quoted "cluster" +:+ ":{" +:+ quoted "defaultManagerNamespace" +:+ ":" +:+ quoted "tel2" +:+ "}}".
Definition extended (key : string) (snps : list Prefix) : option (string * option (list Prefix)) :=
  match (WithKubeExtension (Some (extension key)) "" snps defaultConfig DefaultExcludeSuffixes).2 with
  | inl _ => None
  | inr c => Some (cl_DefaultManagerNamespace (c_Cluster c), ro_NeverProxy (c_Routing c))
  end.
(** The old name of the list of subnets counts only when the address of the API server is not
    known. *)
Example old_never_proxy_lost :
  (extended "neverProxy" [], extended "neverProxy" [eleven_eight], extended "neverProxySubnets" [eleven_eight]) =
  (Some ("tel2"%string, Some [ten_eight]), Some ("tel2"%string, Some [eleven_eight]), Some ("tel2"%string, Some [ten_eight; eleven_eight])).
Proof. vm_compute. reflexivity. Qed.
(** A name that is not known makes the whole extension disappear. *)
Example unknown_name_drops_extension : extended "neverProxies" [] = Some (""%string, None).
Proof. vm_compute. reflexivity. Qed.
(** The traffic-manager's subnets under their old name are lost when there are local ones. *)
Example managers_old_never_proxy_lost :
  match loaded (user_file "new") with
  | (g, Some c) => let '(_, (c', _)) := updateClientConfig (Some "old"%string) c g in ro_NeverProxy (c_Routing c')
  | _ => None
  end = Some [eleven_eight].
Proof. vm_compute. reflexivity. Qed.
